(* ===== verification/_CoqProject ===== *)
-Q . S2P
Prelude.v
JsMap.v
JsText.v
Json.v
Wire.v
Clock.v
Actions.v
LibraryV4.v
Library.v
Continue.v
Projector.v
HistoryIndex.v
History.v
ServiceCore.v
Route.v
FilterRoutes.v
ProfileKeys.v
ResetJournal.v
ResetSuccessor.v
ResetExecutor.v
ResetSafety.v
ResetInvariant.v
ResetLiveness.v
ResetExample.v
DownloadSources.v
LogState.v
Log.v
LogEdge.v
LogSafety.v
LogLane.v
LogLibrary.v
LogPass.v
LogExample.v
JsValue.v
Codec.v
CodecTypes.v
CodecSound.v
CodecReply.v
CodecReplyTypes.v
CodecReplySound.v
CodecExample.v
TitleView.v
Client.v
Session.v
Supervisor.v
SupervisorSafety.v
SupervisorHandoff.v
SupervisorExample.v
FactStore.v
FactStoreSafety.v
FactConvert.v
FactExample.v
Operations.v
OperationsSafety.v
OperationsExample.v
ImportCsv.v
HistoryImport.v
Scheduler.v
Delivery.v
DeliverySafety.v
Lease.v
LeaseSafety.v
LeaseExample.v
