(* ===== verification/Prelude.v ===== *)
(** * A verified model of Den Web's library core

    den-edge serves Den Web, a browser app whose state is one replicated library: rows (older clients) and documents
    (library v4) stamped by a hybrid logical clock, merged by den-core (a vendored WASM policy engine), folded into
    what the pages show. This development models the TypeScript of [web/src/lib] that carries that core.

    ** The program's parts, and the file that models each

    - Prelude: exceptions ([res]), text order, [Array.sort] as a stable insertion sort with its laws, list facts.
    - JsMap, JsText, Json: JavaScript's [Map] and [Set] in insertion order, string operations, JSON values.
    - Wire ([wire.ts]): rows, documents, stamps and their order, row names, [believe] (clamping stamps from the
      future), the newest stamp of a row or document.
    - Clock ([wire.ts] [Clock], [clock.ts], [clockStore.ts]): the device clock, and its durable cell shared by every
      tab through compare-and-set.
    - Actions ([actions.ts]): what a press does to a title's or an episode's row.
    - LibraryV4 ([libraryV4.ts]): documents shown as rows, edits to rows turned into document writes and applied.
    - Library ([library.ts], to [ContinueSummaries]): the fold of the log into records, marks and flags, whole or in
      slices; the Watchlist, standings, the next episode.
    - Continue, Projector ([library.ts], from [ContinueSummaries]): per-series summaries, the compact library, the
      Continue Watching candidates, and [ContinueProjector], which keeps decisions between projections and re-decides
      only the series whose inputs changed.
    - HistoryIndex ([historyIndex.ts] and its document projection in [libraryFactStore.ts]), History ([history.ts]):
      the watched history as an index kept up to date one title at a time and read in pages behind a cursor, and as
      computed from rows.
    - ServiceCore ([libraryServiceCore.ts]): the actor between pages and the library: hello, subscriptions, commands
      with deduplication, tasks, observations, the authority's events, closing.
    - Route ([route.ts]): addresses read and written.
    - FilterRoutes ([filterRoutes.ts]): a selection of filters as the one address atlas answers it at, and its titles
      read a page at a time.
    - ProfileKeys ([crypto.ts], [wire.ts], [profileKeyResetExecutor.ts]): library keys, their one base64 spelling and
      the library ids derived from them.
    - ResetJournal, ResetExecutor ([profileKeyResetExecutor.ts], [profileDirectory.ts], [profilesCore.ts]): the
      compound key reset of a household: its durable journal and validation, and the executor as a program of backend
      calls. ResetSafety holds its histories against an arbitrary backend, ResetSuccessor and ResetInvariant what
      den-core's profile operations give and the invariant of its journals, ResetLiveness the contract of the backend
      and completion under faults, ResetExample a reset that runs.
    - LogState, Log ([log.ts], [householdScope.ts], [libraryPage.ts]): the replicated log of a library on den-edge:
      its state and the calls it makes, and the work of its lane as programs: [sendOps] (edits with the settings that
      ride along), [writeAt], [writeSerial] and [flushRows] (rows), [pass] (reading to the head, with restores,
      recovery staging, membership). LogEdge is den-edge's row store ([src/library/v3.rs]) with what it may answer,
      other devices and restores; LogSafety a logic of preconditions for the programs and the invariant of the lane;
      LogLane the lane's programs in it; LogLibrary, LogPass what follows for runs; LogExample a small library.
    - DownloadSources ([downloadCoordinator.ts] [sourcesForTitle], [sourceAnswer.ts], [titleSources.ts],
      [downloadRows.ts]): the release lists downloads are chosen from: their cache, requests that overlap, rebuilds.

    - JsValue, Codec, CodecReply ([libraryServiceProtocolCodec.ts], [profilePreferenceSchema.ts],
      [settings/catalogs.ts]): the values a message channel carries and the checks every request and reply passes
      before it is acted on. CodecTypes and CodecReplyTypes are the TypeScript types of the protocol
      ([libraryServiceProtocol.ts]) as data; CodecSound and CodecReplySound prove the checks sound for them;
      CodecExample holds what the decoder refuses and concrete messages.
    - TitleView ([titleView.ts]): the page of one title from its own rows, and the message it is sent as.
    - Client ([libraryServiceClient.ts]): the page's end of the service: requests, the replies that settle them, and
      subscriptions, against any transport. Session connects it to ServiceCore through requests and messages that may
      overtake one another.
    - Supervisor ([libraryServiceSupervisor.ts]): the owner of a page's clients: it replaces one that fails, restores
      subscriptions on the replacement, and sends commands again. SupervisorSafety and SupervisorHandoff hold what it
      guarantees, SupervisorExample runs of it.
    - FactStore ([libraryFactStore.ts], [localVault.ts], [libraryLocalValue.ts]): the documents a browser keeps of a
      library, a sealed snapshot and a journal in a vault that any number of stores share. FactStoreSafety holds what
      commits, folds and reads guarantee together, FactConvert the conversion of an earlier build's records,
      FactExample two stores on a concrete vault.
    - Operations ([libraryOperationAuthority.ts]): the journal of intents and receipts around a library's authority.
      OperationsSafety is its invariant over every history, OperationsExample a history.
    - Scheduler ([libraryServiceScheduledAuthority.ts]): when the library is read again and delivered to a tracker.
    - ImportCsv ([viewingImportCsv.ts]), HistoryImport ([libraryAdminAuthority.ts] [#importHistory]): a provider's
      exported table read, and viewing history turned into rows.
    - Delivery ([simklDelivery.ts]): passes that deliver what is watched, listed and rated to SIMKL, by one device of a
      library at a time. DeliverySafety holds what a pass reserves; Lease is the world of pages, devices, clocks and
      den-edge the passes run in, LeaseSafety what keeps two devices from holding the lease at once, LeaseExample
      worlds played step by step.

    The parts interact as in the code: Actions edit the rows of Wire with stamps of Clock; LibraryV4 turns those edits
    into writes; Library folds rows (or projected documents) into a library; Continue and Projector choose Continue
    Watching from it; HistoryIndex and History summarise what was watched; ServiceCore serves selections of all this
    to pages and carries their commands out once, each message through Codec; TitleView is one such selection, and a
    Client is where a page reads it, which a Supervisor replaces when its worker fails. Below ServiceCore the authority is wrapped twice: Operations keeps
    what was asked and answered, so that a command retried after a crash is not done again, and Scheduler decides when
    den-edge is read. The log carries the writes of LibraryV4 to den-edge and brings other devices'
    rows back; FactStore is what a browser keeps of them; HistoryImport writes a provider's history through it; Delivery, which the scheduler starts, sends what the
    library holds to a tracker. The key reset stands beside them: it moves the library of every profile of a household to new keys, one
    durable step at a time.

    ** How state and operations correspond

    A TypeScript object with methods is a record with one definition per method from state to state; what it throws is
    [res] (or [answer], [option]); asynchronous work that the code serialises (the clock's compare-and-set loop, the
    service's request lane) is an inductive relation over the orders in which steps can happen. The key reset
    executor, whose point is what survives a crash, is a tree of backend calls ([prog]) with the journal as a state
    that outlives a throw; a history runs such trees against a vault and a backend that may fail at any call. The
    library log is one mutable object that code outside its lane changes too, at every await: its programs re-read it
    after each call, and [step] interleaves them with den-edge, other devices and that other code. The client and its
    supervisor are asynchronous methods of one object: what each awaits is kept in tables of its state, and events
    continue any of it in any order; so does the scheduler. The fact store, the operation journal and the delivery are
    programs that hand over at each use of what they share, and may be stopped or interleaved there. A [Map] keeps
    insertion order. Millisecond times, ids, seasons and counts are [Z] (the sources keep them below 2^53; where a
    [Number] is read from unbounded text its rounding is written out, [Route.to_double]); fractions are exact
    rationals [Qc]. Text is a sequence of characters compared as the code does, and functions that need Unicode tables
    are parameters.

    Code that is not in the repository's own sources is a parameter: den-core's policies ([ClockPolicy], [NamePolicy],
    [EpisodePolicy], [ContinuePolicy], [DocumentPolicy], [MergePolicy], [ProfilesPolicy], [DeliveryPolicy]), sealing rows ([Sealing]),
    WebCrypto's HKDF ([Hkdf]), the calendar behind a time zone ([Calendar]), the browser's URL and text functions
    ([UrlApi], [TextApi], [UriEncoding], [CodecApi], [DeliveryApi]), SHA-256 and the size and reading of JSON texts ([Platform]),
    opening what this browser sealed ([openLocal]), the network ([fetch]). The authority behind the service is an interface of
    the source, and a class here ([Authority]), with the contract its clients rely on in [AuthorityLaws]: reading a
    selection may throw, but what it answers is what the library holds, and it changes nothing. What is
    assumed of a parameter is a class of laws ([ClockLaws], [ContinueLaws], [UrlLaws], [TextLaws], [AuthorityLaws],
    [ProfilesLaws], [HkdfLaws], [SealingLaws], [PlatformLaws], [LeaseLaws], [FairClocks]), and the backend of the key reset is an interface of the source with
    its documented contract ([ResetContract]); every theorem that uses one has a witness at a concrete instance.

    ** What the theorems show

    - Projector, Continue: however the projector was driven, it shows what a fresh projector would
      ([project_is_fresh]); the compact library chooses the same candidates as the whole one
      ([compact_same_candidates]).
    - ServiceCore: a page's last value of each subscription is what the library would answer now, unless an event is
      queued for it or its last replacement threw ([page_sees_library]), which may leave it behind with no event queued
      ([page_left_stale]); commands are carried out once and retried safely ([command_carried_once],
      [command_retry]); versions never go back ([update_versions]); a failed replacement ([failed_replacement]).
    - HistoryIndex, History: an update equals a rebuild on every page ([updateIndex_is_rebuild]), the lists and
      buckets stay sorted and complete ([updateIndex_wf]), paging returns every item once and ends ([readPages_all]),
      snapshots and projections agree with the documents ([restore_snapshot], [projections_are_documents]), the two
      histories agree ([watchedHistory_agrees]), tallies are bounded ([episodeHistoryTally_sound], [seenAired_bound]).
    - Clock: any interleaving of the operations of tabs, each whole, issues strictly increasing, distinct stamps, and no
      tab's own clock is ahead of the durable one ([clock_interleaving]); opening keeps durable state
      ([openClockStore_durable]).
    - Wire, Actions, LibraryV4, Library: names identify records ([rowName_identifies]); clamping and newest stamps
      ([believe_spec], [documentNewest_stable], [newest_is_maximum]); what each action changes and stamps
      ([act_stamps_once], [act_idempotent], [moved_spec], [updateProgress_deleted]); which writes an edit becomes and
      what they touch ([opsFor_actions], [opsFor_writes], [applyOps_frame]); the fold's invariant, resets and records,
      whole or sliced ([applyLog_wf], [applyLog_resets], [applyLog_record], [applyLogInSlices_spec]); the next episode
      ([episodeAfter_next]) and titles wanting names ([hasUntitledTitle_untitled]).
    - Route: addresses round-trip ([routePath_parse], [parseRoute_fixpoint]), names in links are decoration
      ([named_links], [slug_spec]), old links lead to current ones ([legacyPath_route]).
    - FilterRoutes: an address does not depend on how the selection was made ([filterUrl_canonical]); paging gives no
      title twice ([filterTitles_once]), and against a fixed catalogue gives every title and ends
      ([filterTitles_complete]).

    - ResetSafety, ResetLiveness: whatever the backend answers, the vault fails and the process dies, nothing is
      retired before the successor is committed ([reset_retires_after_commit]) nor adopted before everything is
      retired ([reset_adopts_after_retirement]); an effect's intent is durable before it ([reset_intent_durable]); the
      journal only advances ([reset_journal_advances]) and ends when den-edge says so ([reset_ends_when_over]). With a
      den-core and a backend that keep their contracts, the journal stays valid ([reset_journal_valid]) and a reset
      completes within 4 n + 9 resumes without a fault, whatever came before ([reset_completes]).

    - LogLibrary, LogPass: whatever is refused or lost, restored or written by others, what an idle log calls
      acknowledged den-edge took ([log_acknowledged_true]) and nothing it was read past is missing
      ([log_read_complete]); an edit replaces exactly the version it was made from in the generation the log has read
      ([sendOps_no_lost_update]), and may replace an unread row in one it has not ([sendOps_adopted_generation]); a
      pass ends at the head ([pass_reaches_head]); batches are of a size den-edge takes ([chunks_bounds]).
    - DownloadSources: an answered rebuild fences what was asked before it ([sources_fence]) and stays
      ([sources_rebuild_kept]); one plain request per list is in flight ([sources_single_flight]); what the cache
      serves is fresh and of the list asked for, and the cache is bounded ([sources_served]).

    - CodecSound, CodecReplySound: a message let through has its declared type, no undeclared member and no collection
      beyond the wire's limit, in both directions ([decoded_typed], [reply_typed]); the delimited key sets are
      membership ([exact_is_membership]); refusals ([decode_refusal]) and the two declared tasks that are always
      refused ([receipts_refused]).
    - TitleView: what the rows of a title give is always let through ([titleView_accepted]) and holds together
      ([titleView_consistent]).
    - Client, Session: against any transport each request settles once and only by a reply that matches it
      ([settled_once]), and a listener is only ever given newer values of its own selection ([listener_forward]); with
      the service at the other end, once nothing is under way the page shows what the library holds, with the two
      exceptions of [page_sees_library] ([session_settles]).
    - SupervisorSafety, SupervisorHandoff: whatever the clients answer and whenever, a failing service is restarted
      within a budget ([restart_budget]), a command is sent again only to a newer client ([resend_newer]), and no
      selection of a replacement is shown as current before every required one is ([handoff]); closed is final
      ([closed_final]). All but the budget are of pages that do not open, retry or close amid the upgrade of a
      household ([timely]); a close there is undone ([close_undone]).

    - FactStoreSafety, FactConvert: however many stores commit, fold and read at once, the vault holds the newest version
      of every document ever committed, and a reader answers what its store remembered or versions as new as all that
      were committed before it began ([kept_newest]); what a store remembers may be behind the vault for good
      ([cached_behind]); converting an earlier build's records can stop anywhere
      without loss when nothing else works on them ([convert_safe]), and two conversions at once can lose every
      document ([convert_race]).
    - OperationsSafety: over every history with crashes and failing storage, work is done only under its kept intent
      ([operation_intent_first]), a kept receipt answers its own operation and no other without doing it again
      ([operation_replayed]), and the journal keeps its bounds by dropping the oldest ([operation_journal_bounded],
      [bounded_oldest_first]).
    - ImportCsv, HistoryImport: a table is read back from every way of writing it whose first line tells its delimiter
      ([csv_roundtrip]), and is not where a quoted field of that line has a tab ([csv_quoted_tab]); the same history
      imported again, however much later, writes nothing but dismissals of series last watched long ago
      ([import_idempotent]), of which those it had finished are dismissed only then ([import_repeat_dismisses]).
    - Scheduler: the loop runs exactly while it should ([scheduler_loop]), one run and one delivery at a time
      ([scheduler_one_at_a_time]), at its pace ([scheduler_pace]).
    - LeaseSafety, LeaseExample: with clocks that are off by no more than the protocol's slack and however pages,
      devices and restores interleave, no two devices hold the lease and none asks SIMKL to change anything without
      having found that it holds it, if the row is written on the version it was read at and a pass records what it
      watches in time ([lease_exclusive]); the code reads the version later, and two devices can hold it at once
      ([lease_overlap]). Held removals are shown and approved for an account no longer connected
      ([removals_other_account]).
    - DeliverySafety: settle orders are given once and kept before ([orders_once]), unless what was kept cannot be read
      ([orders_again]).

    ** Fuel

    Nine definitions recurse on fuel. The bisection of a sorted list takes its length, and [bisect_spec] shows that the
    distance between the bounds is enough. Reading every page takes one more than the number of items, and
    [readPages_all] shows that it ends within it. [filterTitles]'s loop, which in the code may read on for as long as
    atlas repeats itself, takes one more than the titles there are, and [filterTitles_complete] shows that this is
    enough against a fixed catalogue; [filterTitles_once] holds of it with any fuel. [pass_loop] takes one more than
    the rows past the log's head, which [pass_reaches_head] shows to be enough against a den-edge that holds still;
    the lane's invariant holds of it with any fuel. [slices] and [evict] take the length of the list they cut, of
    which each turn takes at least one, and so do [shrink] the entries and [writeBatches] the rows. [recordDocuments]
    reads pages of 512 records until one is short, and [convert_safe] takes any fuel for which that is more than the
    records there are. Everything else is structural.

    ** Not modelled

    Svelte components and stores, network clients, storage drivers, the Web Worker and service worker hosts, players,
    Cast and the Rust server but for its row store, none of which has logic apart from the browser's or another
    program's interfaces; of the log, opening and restoring it, libraries kept only in the browser, the work kept for
    later and its replay, compaction and moving, which change what is acknowledged off the lane ([other_code] has
    neither), and the profile libraries beside it; of the clock store, browsers with neither atomic updates nor locks;
    of the fact store, the facts selected
    from each row and the History checkpoint and cursor a commit writes beside the documents; the packed columns; of
    the imports, matching a provider's titles to TMDB and reading archives, and of the admin authority everything but
    the import; the authorities themselves ([libraryLogAuthority.ts] and the like), whose contract is stated; of the
    delivery, the clock its older callers make; of the downloads, their rows, delivery and status; the codec of the content service; of the service,
    the provider lane that metadata queries and assistant publications run on beside the actor's (each request is a
    step of the actor's lane here), its opening-progress messages and listener registration; of the filter routes, the
    counts, values and people requests and the reading of foreign addresses. *)

From Stdlib Require Export QArith.Qcanon Ascii.
From stdpp Require Export base list strings numbers sorting sets gmap.

Declare Scope den_scope.
Delimit Scope den_scope with den.
Open Scope Z_scope.
#[global] Arguments String.append !_ _ / : simpl nomatch.

(** ** Exceptions

    A JavaScript computation that may throw is a [res]: its value, or the message it threw. *)
Inductive res (A : Type) : Type :=
| Ok (a : A)
| Throw (msg : string).
Arguments Ok {A} _.
Arguments Throw {A} _.

Definition res_bind {A B} (r : res A) (f : A -> res B) : res B :=
  match r with
  | Ok a => f a
  | Throw m => Throw m
  end.

Notation "'let!' x ':=' r 'in' k" := (res_bind r (fun x => k))
  (at level 10, x pattern, r at level 100, k at level 200) : den_scope.
Open Scope den_scope.

Fixpoint res_fold {A S} (f : S -> A -> res S) (s : S) (l : list A) : res S :=
  match l with
  | [] => Ok s
  | x :: l => let! s' := f s x in res_fold f s' l
  end.

Fixpoint res_map {A B} (f : A -> res B) (l : list A) : res (list B) :=
  match l with
  | [] => Ok []
  | x :: l => let! y := f x in let! ys := res_map f l in Ok (y :: ys)
  end.

Lemma res_bind_Ok {A B} (r : res A) (f : A -> res B) b :
  res_bind r f = Ok b <-> exists a, r = Ok a /\ f a = Ok b.
Proof. destruct r; cbn; naive_solver. Qed.

Lemma res_fold_app {A S} (f : S -> A -> res S) s l1 l2 :
  res_fold f s (l1 ++ l2) = (let! s' := res_fold f s l1 in res_fold f s' l2).
Proof. revert s. induction l1 as [|x l1 IH]; intros s; cbn; [done|]. destruct (f s x); cbn; auto. Qed.

(** Every state a fold reaches keeps what the step keeps. *)
Lemma res_fold_ind {A S} (P : S -> Prop) (f : S -> A -> res S) s l s' :
  P s -> (forall s x s', P s -> x ∈ l -> f s x = Ok s' -> P s') -> res_fold f s l = Ok s' -> P s'.
Proof.
  revert s. induction l as [|x l IH]; intros s Hs Hstep; cbn.
  { intros [= ->]. done. }
  intros (s1 & H1 & H2)%res_bind_Ok. eapply (IH s1); [|intros; eapply Hstep; [done|by right|done]|done].
  eapply Hstep; [done|by left|done].
Qed.

Lemma res_map_Forall2 {A B} (f : A -> res B) l ys :
  res_map f l = Ok ys -> Forall2 (fun x y => f x = Ok y) l ys.
Proof.
  revert ys. induction l as [|x l IH]; intros ys; cbn; [intros [= <-]; constructor|].
  intros (y & Hy & (zs & Hz & [= <-])%res_bind_Ok)%res_bind_Ok. constructor; auto.
Qed.

(** ** Strings

    A JavaScript string is a sequence of code units, compared by code unit: [string] with the
    lexicographic order of its characters. *)
Definition str_ltb (a b : string) : bool :=
  match String.compare a b with Lt => true | _ => false end.

(** [a < b ? -1 : a > b ? 1 : 0], the comparator the sources spell out on strings. *)
Definition str_cmp (a b : string) : Z :=
  if str_ltb a b then -1 else if str_ltb b a then 1 else 0.

Lemma ascii_compare_refl c : Ascii.compare c c = Eq.
Proof. unfold Ascii.compare. apply N.compare_refl. Qed.
Lemma ascii_compare_eq c d : Ascii.compare c d = Eq -> c = d.
Proof.
  unfold Ascii.compare. intros ?%N.compare_eq.
  rewrite <- (Ascii.ascii_N_embedding c), <- (Ascii.ascii_N_embedding d). by f_equal.
Qed.

Lemma string_compare_refl s : String.compare s s = Eq.
Proof. induction s as [|c s IH]; cbn; [done|]. by rewrite ascii_compare_refl. Qed.

Lemma str_ltb_irrefl s : str_ltb s s = false.
Proof. unfold str_ltb. by rewrite string_compare_refl. Qed.

Lemma str_ltb_trans a b c : str_ltb a b = true -> str_ltb b c = true -> str_ltb a c = true.
Proof.
  unfold str_ltb. revert b c. induction a as [|x a IH]; intros [|y b] [|z c]; cbn; try done.
  destruct (Ascii.compare x y) eqn:Hxy; [|intros _|done].
  - apply ascii_compare_eq in Hxy as <-. destruct (Ascii.compare x z); try done. apply IH.
  - destruct (Ascii.compare y z) eqn:Hyz; [|intros _|done].
    + apply ascii_compare_eq in Hyz as <-. by rewrite Hxy.
    + unfold Ascii.compare in *. rewrite N.compare_lt_iff in Hxy, Hyz.
      assert (Hxz : (Ascii.N_of_ascii x ?= Ascii.N_of_ascii z)%N = Lt) by (apply N.compare_lt_iff; lia).
      by rewrite Hxz.
Qed.

Lemma str_ltb_total a b : str_ltb a b = false -> str_ltb b a = false -> a = b.
Proof.
  unfold str_ltb. rewrite (String.compare_antisym b a).
  destruct (String.compare a b) eqn:E; cbn; intros; try done. by apply String.compare_eq_iff.
Qed.

Lemma str_ltb_asym a b : str_ltb a b = true -> str_ltb b a = false.
Proof.
  intros H. destruct (str_ltb b a) eqn:E; [|done].
  pose proof (str_ltb_trans _ _ _ H E) as H'. by rewrite str_ltb_irrefl in H'.
Qed.

(** ** Numbers

    JavaScript integers are [Z]; fractions and seconds, which are doubles the code only compares,
    takes minima and maxima of, and passes on, are rationals ([Qc], every finite double is one).
    [-Infinity] is [None] of an [option Z]. *)
Definition Qc_leb (x y : Qc) : bool := bool_decide (x <= y)%Qc.
Definition Qc_ltb (x y : Qc) : bool := bool_decide (x < y)%Qc.

Lemma Qc_ltb_negb x y : Qc_ltb x y = negb (Qc_leb y x).
Proof.
  unfold Qc_ltb, Qc_leb. destruct (Qclt_le_dec x y) as [Hlt|Hle].
  - by rewrite bool_decide_true, bool_decide_false by (done || by apply Qclt_not_le).
  - by rewrite bool_decide_false, bool_decide_true by (done || by apply Qcle_not_lt).
Qed.

(** The sign of [a - b] where [None] is [-Infinity]; [NaN], the difference of two infinities, sorts as 0. *)
Definition sub_ninf (a b : option Z) : Z :=
  match a, b with
  | Some x, Some y => x - y
  | Some _, None => 1
  | None, Some _ => -1
  | None, None => 0
  end.

(** [Math.max(a ?? -Infinity, b)] *)
Definition max_ninf (a : option Z) (b : Z) : Z :=
  match a with Some x => Z.max x b | None => b end.

(** [0] is falsy: [a || b] on numbers. *)
Definition or_num (a b : Z) : Z := if a =? 0 then b else a.

(** ** [Array.prototype.sort]

    Stable; only the sign of the comparator counts. For a comparator that is a total preorder
    ([Comparator]) the stable sorted permutation is unique, so insertion sort computes what any
    conforming engine does. *)
Class Comparator {A} (cmp : A -> A -> Z) : Prop := {
  cmp_total : forall x y, cmp x y <= 0 \/ cmp y x <= 0;
  cmp_trans : forall x y z, cmp x y <= 0 -> cmp y z <= 0 -> cmp x z <= 0;
}.

Section Sort.
Context {A : Type} (cmp : A -> A -> Z).

Fixpoint sort_insert (x : A) (l : list A) : list A :=
  match l with
  | [] => [x]
  | y :: l' => if cmp x y <=? 0 then x :: l else y :: sort_insert x l'
  end.

Definition js_sort (l : list A) : list A := foldr sort_insert [] l.

Lemma sort_insert_perm x l : sort_insert x l ≡ₚ x :: l.
Proof.
  induction l as [|y l IH]; cbn; [done|]. destruct (_ <=? _); [done|].
  rewrite IH. apply Permutation_swap.
Qed.

Lemma js_sort_perm l : js_sort l ≡ₚ l.
Proof. induction l as [|x l IH]; cbn; [done|]. by rewrite sort_insert_perm, IH. Qed.

Lemma elem_of_js_sort x l : x ∈ js_sort l <-> x ∈ l.
Proof. by rewrite js_sort_perm. Qed.

Lemma length_js_sort l : length (js_sort l) = length l.
Proof. apply Permutation_length, js_sort_perm. Qed.

Definition cmp_le (x y : A) : Prop := cmp x y <= 0.

Context `{!Comparator cmp}.

Lemma sort_insert_sorted x l : StronglySorted cmp_le l -> StronglySorted cmp_le (sort_insert x l).
Proof.
  induction 1 as [|y l Hl IH Hy]; cbn; [repeat constructor|].
  destruct (Z.leb_spec (cmp x y) 0).
  - constructor; [by constructor|]. constructor; [done|].
    eapply Forall_impl; [exact Hy|]. intros z Hz. eapply cmp_trans; eauto.
  - constructor; [done|]. rewrite sort_insert_perm. constructor; [|done].
    red. destruct (cmp_total x y); [lia|done].
Qed.

Lemma js_sort_sorted l : StronglySorted cmp_le (js_sort l).
Proof. induction l as [|x l IH]; cbn; [constructor|]. by apply sort_insert_sorted. Qed.

(** A list already in order is left as it is. *)
Lemma js_sort_id l : StronglySorted cmp_le l -> js_sort l = l.
Proof.
  induction 1 as [|x l Hl IH Hx]; cbn; [done|]. fold (js_sort l). rewrite IH.
  destruct l as [|y l]; cbn; [done|]. apply Forall_cons in Hx as [Hxy _].
  by rewrite (proj2 (Z.leb_le _ _) Hxy).
Qed.

(** Stability: the elements that [P] picks, pairwise equal for the comparator, keep their order. *)
Lemma sort_insert_filter_in (P : A -> Prop) `{!forall x, Decision (P x)} x l :
  P x -> (forall y, y ∈ l -> P y -> cmp x y <= 0) ->
  filter P (sort_insert x l) = x :: filter P l.
Proof.
  intros Hx. induction l as [|y l IH]; intros Hle; cbn [sort_insert].
  { rewrite filter_cons_True by done. by rewrite filter_nil. }
  destruct (Z.leb_spec (cmp x y) 0).
  { by rewrite filter_cons_True. }
  destruct (decide (P y)) as [Hy|Hy].
  { exfalso. pose proof (Hle y ltac:(left) Hy). lia. }
  rewrite !(filter_cons_False P y) by done. apply IH. intros z Hz. apply Hle. by right.
Qed.

Lemma sort_insert_filter_out (P : A -> Prop) `{!forall x, Decision (P x)} x l :
  ~ P x -> filter P (sort_insert x l) = filter P l.
Proof.
  intros Hx. induction l as [|y l IH]; cbn [sort_insert]; [by rewrite filter_cons_False|].
  destruct (_ <=? _); [by rewrite filter_cons_False|].
  rewrite !filter_cons, IH. done.
Qed.

Lemma js_sort_stable (P : A -> Prop) `{!forall x, Decision (P x)} l :
  (forall x y, x ∈ l -> y ∈ l -> P x -> P y -> cmp x y <= 0) -> filter P (js_sort l) = filter P l.
Proof.
  induction l as [|x l IH]; intros HP; [done|]. change (js_sort (x :: l)) with (sort_insert x (js_sort l)).
  assert (IH' : filter P (js_sort l) = filter P l) by (apply IH; intros u v Hu Hv; apply HP; set_solver).
  destruct (decide (P x)) as [Hx|Hx].
  - rewrite sort_insert_filter_in, IH', filter_cons_True; try done.
    intros y Hy Py. rewrite elem_of_js_sort in Hy.
    apply HP; set_solver.
  - by rewrite sort_insert_filter_out, IH', filter_cons_False.
Qed.

(** Sorting then filtering is filtering then sorting. *)
Lemma sort_insert_filter (P : A -> Prop) `{!forall x, Decision (P x)} x l :
  StronglySorted cmp_le l -> P x -> filter P (sort_insert x l) = sort_insert x (filter P l).
Proof.
  intros Hs Hx. induction Hs as [|y l Hl IH Hy]; cbn [sort_insert]; [by rewrite filter_cons_True|].
  destruct (Z.leb_spec (cmp x y) 0) as [Hle|Hgt].
  - rewrite (filter_cons_True _ x) by done.
    assert (Hhd : forall z, z ∈ filter P (y :: l) -> cmp x z <= 0).
    { intros z [_ Hz]%list_elem_of_filter. apply elem_of_cons in Hz as [->|Hz]; [done|].
      eapply cmp_trans; [exact Hle|]. rewrite Forall_forall in Hy. by apply Hy. }
    destruct (filter P (y :: l)) as [|z zs]; [done|]. cbn [sort_insert].
    by rewrite (proj2 (Z.leb_le _ _) (Hhd z ltac:(left))).
  - rewrite !filter_cons. case_decide; [|done]. cbn [sort_insert]. rewrite (proj2 (Z.leb_gt _ _) Hgt). by rewrite IH.
Qed.

Lemma filter_js_sort (P : A -> Prop) `{!forall x, Decision (P x)} l : filter P (js_sort l) = js_sort (filter P l).
Proof.
  induction l as [|x l IH]; [done|]. change (js_sort (x :: l)) with (sort_insert x (js_sort l)). rewrite (filter_cons P x l).
  case_decide.
  - rewrite sort_insert_filter, IH by (done || apply js_sort_sorted). done.
  - by rewrite sort_insert_filter_out.
Qed.
End Sort.

(** Only the comparisons between the elements of the list count. *)
Lemma sort_insert_ext {A} (cmp cmp' : A -> A -> Z) x l :
  (forall y, y ∈ l -> (cmp x y <=? 0) = (cmp' x y <=? 0)) -> sort_insert cmp x l = sort_insert cmp' x l.
Proof.
  induction l as [|y l IH]; intros He; cbn; [done|]. rewrite (He y) by set_solver. destruct (_ <=? _); [done|].
  f_equal. apply IH. intros; apply He. set_solver.
Qed.

(** Sorting by a key, and by text. *)
Lemma str_cmp_le x y : str_cmp x y <= 0 <-> str_ltb y x = false.
Proof.
  unfold str_cmp. destruct (str_ltb x y) eqn:E1; [apply str_ltb_asym in E1; rewrite E1; split; [done|lia]|].
  destruct (str_ltb y x); split; (done || lia).
Qed.
Lemma comparator_on {A B} (f : A -> B) (cmp : B -> B -> Z) : Comparator cmp -> Comparator (fun x y => cmp (f x) (f y)).
Proof. intros [Ht Htr]. split; [intros; apply Ht|intros x y z; apply Htr]. Qed.

#[global] Instance str_comparator : Comparator str_cmp.
Proof.
  split.
  - intros x y. rewrite !str_cmp_le. destruct (str_ltb y x) eqn:E; [right; by apply str_ltb_asym|by left].
  - intros x y z. rewrite !str_cmp_le. intros H1 H2. destruct (str_ltb z x) eqn:E; [|done].
    destruct (str_ltb x y) eqn:E2; [pose proof (str_ltb_trans _ _ _ E E2); congruence|].
    pose proof (str_ltb_total _ _ E2 H1). subst. congruence.
Qed.

Lemma js_sort_ext {A} (cmp cmp' : A -> A -> Z) l :
  (forall x y, x ∈ l -> y ∈ l -> (cmp x y <=? 0) = (cmp' x y <=? 0)) -> js_sort cmp l = js_sort cmp' l.
Proof.
  induction l as [|x l IH]; intros He; [done|]. change (sort_insert cmp x (js_sort cmp l) = sort_insert cmp' x (js_sort cmp' l)).
  rewrite IH by (intros; apply He; set_solver). apply sort_insert_ext. intros y Hy%elem_of_js_sort. apply He; set_solver.
Qed.

(** On distinct elements, the comparison of an element with itself does not count either. *)
Lemma js_sort_ext_NoDup {A} (cmp cmp' : A -> A -> Z) l :
  NoDup l -> (forall x y, x ∈ l -> y ∈ l -> x <> y -> (cmp x y <=? 0) = (cmp' x y <=? 0)) -> js_sort cmp l = js_sort cmp' l.
Proof.
  induction 1 as [|x l Hx Hl IH]; intros He; [done|]. change (sort_insert cmp x (js_sort cmp l) = sort_insert cmp' x (js_sort cmp' l)).
  rewrite IH by (intros; apply He; set_solver). apply sort_insert_ext. intros y Hy%elem_of_js_sort. apply He; set_solver.
Qed.

(** Strictly ordered lists are determined by their elements. *)
Lemma strict_sorted_unique {A} (R : A -> A -> Prop) (l1 l2 : list A) :
  (forall x, ~ R x x) -> (forall x y, R x y -> ~ R y x) ->
  StronglySorted R l1 -> StronglySorted R l2 -> (forall x, x ∈ l1 <-> x ∈ l2) -> l1 = l2.
Proof.
  intros Hirr Hasym. revert l2. induction l1 as [|x l1 IH]; intros [|y l2] H1 H2 He.
  - done.
  - exfalso. apply (not_elem_of_nil y), He. by left.
  - exfalso. apply (not_elem_of_nil x), He. by left.
  - inversion H1 as [|?? H1' Hx]; subst. inversion H2 as [|?? H2' Hy]; subst.
    rewrite Forall_forall in Hx, Hy.
    assert (x = y) as <-.
    { pose proof (proj1 (He x) ltac:(left)) as Hxin. pose proof (proj2 (He y) ltac:(left)) as Hyin.
      apply elem_of_cons in Hxin as [|Hxin]; [done|]. apply elem_of_cons in Hyin as [|Hyin]; [done|].
      exfalso. eapply Hasym; [apply Hx, Hyin|apply Hy, Hxin]. }
    f_equal. apply IH; [done..|]. intros z. split; intros Hz.
    + assert (Hz' : z ∈ x :: l2) by (apply He; by right). apply elem_of_cons in Hz' as [->|]; [|done].
      exfalso. eapply Hirr, Hx, Hz.
    + assert (Hz' : z ∈ x :: l1) by (apply He; by right). apply elem_of_cons in Hz' as [->|]; [|done].
      exfalso. eapply Hirr, Hy, Hz.
Qed.

(** ** Lists *)
Lemma elem_of_concat {T} (x : T) l : x ∈ concat l <-> exists y, x ∈ y /\ y ∈ l.
Proof. rewrite list_elem_of_In, in_concat. setoid_rewrite <- list_elem_of_In. naive_solver. Qed.

Lemma filter_ext_in {A} (P Q : A -> Prop) `{!forall x, Decision (P x), !forall x, Decision (Q x)} (l : list A) :
  (forall x, x ∈ l -> P x <-> Q x) -> filter P l = filter Q l.
Proof.
  induction l as [|x l IH]; intros HPQ; [done|]. rewrite !filter_cons, IH by (intros; apply HPQ; set_solver).
  pose proof (HPQ x ltac:(set_solver)). do 2 case_decide; naive_solver.
Qed.

Lemma omap_ext_in {A B} (f g : A -> option B) (l : list A) :
  (forall x, x ∈ l -> f x = g x) -> omap f l = omap g l.
Proof.
  intros Hfg. apply list_omap_ext. induction l as [|x l IH]; constructor; [apply Hfg; set_solver|].
  apply IH. intros y Hy. apply Hfg. set_solver.
Qed.

Lemma filter_all {A} (P : A -> Prop) `{!forall x, Decision (P x)} (l : list A) : (forall x, x ∈ l -> P x) -> filter P l = l.
Proof.
  induction l as [|x l IH]; intros HP; [done|]. rewrite filter_cons_True by (apply HP; set_solver).
  rewrite IH; [done|]. intros; apply HP. set_solver.
Qed.

Lemma filter_none {A} (P : A -> Prop) `{!forall x, Decision (P x)} (l : list A) : (forall x, x ∈ l -> ~ P x) -> filter P l = [].
Proof.
  induction l as [|x l IH]; intros HP; [done|]. rewrite filter_cons_False by (apply HP; set_solver).
  apply IH. intros; apply HP. set_solver.
Qed.

Lemma NoDup_fmap_filter {A B} (f : A -> B) (P : A -> Prop) `{!forall x, Decision (P x)} l : NoDup (f <$> l) -> NoDup (f <$> filter P l).
Proof.
  induction l as [|x l IH]; [done|]. rewrite fmap_cons, NoDup_cons, filter_cons. intros [Hx Hl].
  case_decide; [|auto]. rewrite fmap_cons. constructor; [|auto].
  intros (y & Hy & [_ Hin]%list_elem_of_filter)%list_elem_of_fmap. apply Hx, list_elem_of_fmap. eauto.
Qed.

(** Elements with distinct keys are determined by their keys. *)
Lemma NoDup_fmap_inj {A B} (f : A -> B) (l : list A) x y : NoDup (f <$> l) -> x ∈ l -> y ∈ l -> f x = f y -> x = y.
Proof.
  intros Hnd [i Hi]%list_elem_of_lookup [j Hj]%list_elem_of_lookup He.
  assert (i = j) as ->; [|congruence].
  eapply (NoDup_lookup _ i j (f x) Hnd); rewrite list_lookup_fmap; [by rewrite Hi|by rewrite Hj, He].
Qed.

Lemma fmap_bind {A B C} (f : B -> C) (g : A -> list B) (l : list A) : f <$> (l ≫= g) = l ≫= fun x => f <$> g x.
Proof. induction l as [|x l IH]; [done|]. rewrite !bind_cons, fmap_app, IH. done. Qed.

Lemma StronglySorted_filter {A} (R : A -> A -> Prop) (P : A -> Prop) `{!forall x, Decision (P x)} l :
  StronglySorted R l -> StronglySorted R (filter P l).
Proof.
  induction 1 as [|x l Hl IH Hx]; [constructor|]. rewrite filter_cons. case_decide; [|done]. constructor; [done|].
  rewrite Forall_forall in Hx |- *. intros y [_ Hy]%list_elem_of_filter. auto.
Qed.

Lemma StronglySorted_fmap {A B} (R : A -> A -> Prop) (S : B -> B -> Prop) (f : A -> B) l :
  (forall x y, x ∈ l -> y ∈ l -> R x y -> S (f x) (f y)) -> StronglySorted R l -> StronglySorted S (f <$> l).
Proof.
  intros Hf Hl. induction Hl as [|x l Hl IH Hx]; [constructor|]. rewrite fmap_cons. constructor.
  - apply IH. intros y z Hy Hz. apply Hf; by right.
  - apply Forall_fmap, Forall_forall. intros z Hz. apply Hf; [by left|by right|]. rewrite Forall_forall in Hx. auto.
Qed.

(** Distinct elements in order are strictly in order. *)
Lemma StronglySorted_strict {A} (R R' : A -> A -> Prop) l :
  NoDup l -> (forall x y, x ∈ l -> y ∈ l -> x <> y -> R x y -> R' x y) -> StronglySorted R l -> StronglySorted R' l.
Proof.
  intros Hnd Hxy Hs. induction Hs as [|x l Hs IH Hx]; [constructor|]. apply NoDup_cons in Hnd as [Hn Hnd]. constructor.
  - apply IH; [done|]. intros y z Hy Hz. apply Hxy; by right.
  - apply Forall_forall. intros y Hy. rewrite Forall_forall in Hx. apply Hxy; [by left|by right|by intros ->|auto].
Qed.
