(* ===== verification/JsMap.v ===== *)
(** * JavaScript's [Map] and [Set]

    A [Map] iterates in the order its keys were first inserted: an association list with one entry per
    key ([set] replaces in place or appends, [delete] drops). A [Set] is the list of its members in that
    order. Every [Map] the program iterates is one of these, so iteration order is part of the model. *)

From S2P Require Import Prelude.

Abbreviation jsmap K V := (list (K * V)).

Section JsMap.
Context {K : Type} `{!EqDecision K}.

Section Ops.
Context {V : Type}.
Implicit Types (m : jsmap K V) (k : K) (v : V).

Fixpoint map_get k m : option V :=
  match m with
  | [] => None
  | (k', v) :: m => if decide (k = k') then Some v else map_get k m
  end.

Definition map_has k m : bool := bool_decide (is_Some (map_get k m)).

Fixpoint map_set k v m : jsmap K V :=
  match m with
  | [] => [(k, v)]
  | (k', v') :: m => if decide (k = k') then (k', v) :: m else (k', v') :: map_set k v m
  end.

Fixpoint map_delete k m : jsmap K V :=
  match m with
  | [] => []
  | (k', v') :: m => if decide (k = k') then map_delete k m else (k', v') :: map_delete k m
  end.

Definition map_keys m : list K := m.*1.
Definition map_values m : list V := m.*2.

(** [new Map(entries)] *)
Definition map_of (l : list (K * V)) : jsmap K V := foldl (fun m '(k, v) => map_set k v m) [] l.

(** The well-formedness every [Map] has: one entry per key. *)
Definition map_wf m : Prop := NoDup (map_keys m).
End Ops.

(** [new Set(l)], as the list of its members. *)
Definition set_add (x : K) (s : list K) : list K := if decide (x ∈ s) then s else s ++ [x].
Definition set_of (l : list K) : list K := foldl (fun s x => set_add x s) [] l.

Section Laws.
Context {V : Type}.
Implicit Types (m : jsmap K V) (k : K) (v : V).

Lemma map_get_set_eq k v m : map_get k (map_set k v m) = Some v.
Proof.
  induction m as [|[k' v'] m IH]; cbn; [by rewrite decide_True|].
  destruct (decide (k = k')) as [->|Hne]; cbn; [by rewrite decide_True|by rewrite decide_False].
Qed.

Lemma map_get_set_ne k k' v m : k' <> k -> map_get k' (map_set k v m) = map_get k' m.
Proof.
  intros Hne. induction m as [|[k2 v2] m IH]; cbn; [by rewrite decide_False|].
  destruct (decide (k = k2)) as [->|]; cbn; [by rewrite !decide_False|by rewrite IH].
Qed.

Lemma map_get_set k k' v m :
  map_get k' (map_set k v m) = if decide (k' = k) then Some v else map_get k' m.
Proof. case_decide; subst; [apply map_get_set_eq|by apply map_get_set_ne]. Qed.

Lemma map_get_delete_eq k m : map_get k (map_delete k m) = None.
Proof.
  induction m as [|[k' v'] m IH]; cbn; [done|]. case_decide; [done|]. cbn. by rewrite decide_False.
Qed.

Lemma map_get_delete_ne k k' m : k' <> k -> map_get k' (map_delete k m) = map_get k' m.
Proof.
  intros Hne. induction m as [|[k2 v2] m IH]; cbn; [done|].
  destruct (decide (k = k2)) as [->|]; cbn; [by rewrite decide_False|by rewrite IH].
Qed.

Lemma map_get_delete k k' m :
  map_get k' (map_delete k m) = if decide (k' = k) then None else map_get k' m.
Proof. case_decide; subst; [apply map_get_delete_eq|by apply map_get_delete_ne]. Qed.

Lemma map_get_None k m : map_get k m = None <-> k ∉ map_keys m.
Proof.
  unfold map_keys. induction m as [|[k' v'] m IH]; cbn; [set_solver|].
  case_decide as Hk; [split; [done|]; set_solver|]. rewrite IH. set_solver.
Qed.

Lemma map_get_is_Some k m : is_Some (map_get k m) <-> k ∈ map_keys m.
Proof.
  split.
  - intros [v Hv]. destruct (decide (k ∈ map_keys m)) as [|Hn]; [done|]. apply map_get_None in Hn. congruence.
  - intros Hin. destruct (map_get k m) eqn:E; [eauto|]. by apply map_get_None in E.
Qed.

Lemma map_get_elem k v m : map_get k m = Some v -> (k, v) ∈ m.
Proof.
  induction m as [|[k' v'] m IH]; cbn; [done|]. case_decide; [intros [= ->]; subst; by left|].
  intros; right; auto.
Qed.

Lemma map_elem_get k v m : map_wf m -> (k, v) ∈ m -> map_get k m = Some v.
Proof.
  unfold map_wf, map_keys. induction m as [|[k' v'] m IH]; cbn; [set_solver|].
  rewrite NoDup_cons. intros [Hk Hm] [[= -> ->]|Hin]%elem_of_cons; [by rewrite decide_True|].
  rewrite decide_False; [auto|]. intros ->. apply Hk. apply list_elem_of_fmap. exists (k', v); auto.
Qed.

Lemma map_get_iff k v m : map_wf m -> map_get k m = Some v <-> (k, v) ∈ m.
Proof. intros; split; [apply map_get_elem|by apply map_elem_get]. Qed.

Lemma map_keys_set k v m :
  map_keys (map_set k v m) = if decide (k ∈ map_keys m) then map_keys m else map_keys m ++ [k].
Proof.
  unfold map_keys. induction m as [|[k' v'] m IH]; cbn; [by rewrite decide_False by set_solver|].
  destruct (decide (k = k')) as [->|]; cbn; [by rewrite decide_True by set_solver|].
  rewrite IH. do 2 case_decide; set_solver.
Qed.

Lemma elem_of_map_keys_set k k' v m : k' ∈ map_keys (map_set k v m) <-> k' = k \/ k' ∈ map_keys m.
Proof. rewrite map_keys_set. case_decide; set_solver. Qed.

Lemma elem_of_map_keys_delete k k' m : k' ∈ map_keys (map_delete k m) <-> k' <> k /\ k' ∈ map_keys m.
Proof. rewrite <- !map_get_is_Some, map_get_delete. case_decide; [|naive_solver]. split; [by intros []|naive_solver]. Qed.

Lemma map_wf_nil : map_wf (V:=V) [].
Proof. constructor. Qed.

Lemma map_wf_set k v m : map_wf m -> map_wf (map_set k v m).
Proof.
  unfold map_wf. rewrite map_keys_set. case_decide; [done|]. intros.
  apply NoDup_app; split; [done|]. split; [set_solver|]. apply NoDup_singleton.
Qed.

Lemma map_delete_filter k m : map_delete k m = filter (fun p => p.1 <> k) m.
Proof.
  induction m as [|[k' v'] m IH]; cbn [map_delete]; [done|]. rewrite filter_cons; cbn.
  destruct (decide (k = k')) as [->|]; [by rewrite decide_False by auto|].
  by rewrite decide_True, IH by auto.
Qed.

Lemma map_wf_filter (P : K * V -> Prop) `{!forall x, Decision (P x)} m : map_wf m -> map_wf (filter P m).
Proof.
  unfold map_wf, map_keys. induction m as [|[k v] m IH]; [done|].
  rewrite fmap_cons, NoDup_cons, filter_cons. intros [Hk Hm].
  case_decide; [|auto]. rewrite fmap_cons. constructor; [|auto].
  intros ([k2 v2] & Heq & [_ Hin]%list_elem_of_filter)%list_elem_of_fmap.
  apply Hk, list_elem_of_fmap. by exists (k2, v2).
Qed.

Lemma map_wf_delete k m : map_wf m -> map_wf (map_delete k m).
Proof. rewrite map_delete_filter. apply map_wf_filter. Qed.

Lemma map_values_elem v m : v ∈ map_values m <-> exists k, (k, v) ∈ m.
Proof. unfold map_values. rewrite list_elem_of_fmap. split; [intros ([k ?] & -> & ?); eauto|intros (k & ?); by exists (k, v)]. Qed.

Lemma map_of_snoc (l : list (K * V)) k v : map_of (l ++ [(k, v)]) = map_set k v (map_of l).
Proof. unfold map_of. by rewrite foldl_app. Qed.

Lemma map_of_foldl (l : list (K * V)) : map_of l = foldl (fun m p => map_set p.1 p.2 m) [] l.
Proof. induction l as [|[k v] l IH] using rev_ind; [done|]. by rewrite map_of_snoc, foldl_app, <- IH. Qed.

Lemma map_wf_of (l : list (K * V)) : map_wf (map_of l).
Proof.
  induction l as [|[k v] l IH] using rev_ind; [constructor|]. rewrite map_of_snoc. by apply map_wf_set.
Qed.

Lemma map_keys_of (l : list (K * V)) k : k ∈ map_keys (map_of l) <-> k ∈ l.*1.
Proof.
  induction l as [|[k' v] l IH] using rev_ind; [done|].
  rewrite map_of_snoc, elem_of_map_keys_set, IH, fmap_app. cbn. set_solver.
Qed.

(** With distinct keys, [new Map(entries)] is its entries. *)
Lemma map_set_fresh k v m : k ∉ map_keys m -> map_set k v m = m ++ [(k, v)].
Proof.
  unfold map_keys. induction m as [|[k' v'] m IH]; cbn; [done|]. intros Hk.
  rewrite decide_False by set_solver. rewrite IH by set_solver. done.
Qed.

Lemma map_of_NoDup (l : list (K * V)) : map_wf l -> map_of l = l.
Proof.
  induction l as [|[k v] l IH] using rev_ind; [done|]. unfold map_wf, map_keys.
  rewrite map_of_snoc, fmap_app, NoDup_app. cbn. intros (H1 & H2 & _). rewrite IH by done.
  apply map_set_fresh. unfold map_keys. set_solver.
Qed.
Lemma map_get_of (l : list (K * V)) k : map_get k (map_of l) = (list_find (fun p => p.1 = k) (reverse l)) ≫= fun '(_, p) => Some p.2.
Proof.
  induction l as [|[k' v] l IH] using rev_ind; [done|].
  rewrite map_of_snoc, map_get_set, reverse_snoc. cbn. rewrite IH.
  destruct (decide (k = k')) as [->|]; [by rewrite decide_True|]. rewrite decide_False by auto.
  destruct (list_find _ (reverse l)) as [[]|]; done.
Qed.

Lemma elem_of_map_of (l : list (K * V)) p : p ∈ map_of l -> p ∈ l.
Proof.
  destruct p as [k v]. intros Hin%(map_elem_get _ _ _ (map_wf_of l)). rewrite map_get_of in Hin.
  destruct (list_find _ _) as [[i [k2 v2]]|] eqn:E; [|done]. apply list_find_Some in E as (E & <- & _).
  cbn in Hin. injection Hin as ->. apply list_elem_of_lookup_2 in E. by rewrite elem_of_reverse in E.
Qed.

(** Maps with the same keys in the same order and the same lookups are the same. *)
Lemma map_eq_keys m1 m2 :
  map_wf m1 -> map_keys m1 = map_keys m2 -> (forall k, map_get k m1 = map_get k m2) -> m1 = m2.
Proof.
  unfold map_wf, map_keys. revert m2. induction m1 as [|[k v] m1 IH]; intros [|[k2 v2] m2]; cbn; try done.
  rewrite NoDup_cons. intros [Hk Hm] [= -> He] Hg. pose proof (Hg k2) as Hv. rewrite !decide_True in Hv by done.
  injection Hv as ->. f_equal. apply IH; [done..|]. intros k. specialize (Hg k). case_decide; [|done]. subst.
  assert (map_get k2 m1 = None) as -> by (by apply map_get_None).
  symmetry. apply map_get_None. unfold map_keys. by rewrite <- He.
Qed.

Lemma map_get_filter (P : K * V -> Prop) `{!forall x, Decision (P x)} k m :
  map_wf m ->
  map_get k (filter P m) = match map_get k m with Some v => if decide (P (k, v)) then Some v else None | None => None end.
Proof.
  intros Hwf. destruct (map_get k m) as [v|] eqn:E.
  - apply map_get_elem in E. case_decide.
    + apply map_elem_get; [by apply map_wf_filter|]. by apply list_elem_of_filter.
    + destruct (map_get k (filter P m)) as [v'|] eqn:E'; [|done]. exfalso.
      apply map_get_elem, list_elem_of_filter in E' as [HP Hin].
      apply (map_elem_get _ _ _ Hwf) in E, Hin. congruence.
  - destruct (map_get k (filter P m)) as [v'|] eqn:E'; [|done]. exfalso.
    apply map_get_elem, list_elem_of_filter in E' as [HP Hin]. apply (map_elem_get _ _ _ Hwf) in Hin. congruence.
Qed.

Lemma map_set_id k v m : map_get k m = Some v -> map_set k v m = m.
Proof. induction m as [|[k' v'] m IH]; cbn; [done|]. case_decide; [by intros [= ->]|]. intros. by rewrite IH. Qed.

Lemma map_set_fmap {W} (f : V -> W) k v m :
  (fun p => (p.1, f p.2)) <$> map_set k v m = map_set k (f v) ((fun p => (p.1, f p.2)) <$> m).
Proof. induction m as [|[k' v'] m IH]; csimpl; [done|]. case_decide; csimpl; [done|]. by rewrite IH. Qed.

Lemma elem_of_map_set k v m p : p ∈ map_set k v m -> p = (k, v) \/ p ∈ m.
Proof.
  induction m as [|[k' v'] m IH]; cbn; [set_solver|]. case_decide; [subst; set_solver|].
  intros [->|Hin]%elem_of_cons; [right; by left|]. apply IH in Hin as [|]; [by left|right; by right].
Qed.

Lemma map_get_fmap {W} (f : V -> W) k m : map_get k ((fun p => (p.1, f p.2)) <$> m) = f <$> map_get k m.
Proof. induction m as [|[k' v] m IH]; csimpl; [done|]. case_decide; [done|apply IH]. Qed.
End Laws.

(** Looking up in [new Map(l.map(v => [key(v), v]))]. *)
Lemma map_get_of_keyed {V W} (key : V -> K) (f : V -> W) (l : list V) k w :
  NoDup (key <$> l) -> map_get k (map_of ((fun v => (key v, f v)) <$> l)) = Some w <-> exists v, v ∈ l /\ key v = k /\ f v = w.
Proof.
  intros Hnd. assert (Hwf : map_wf ((fun v => (key v, f v)) <$> l)).
  { unfold map_wf, map_keys. by rewrite <- list_fmap_compose. }
  rewrite map_of_NoDup, map_get_iff, list_elem_of_fmap by done. naive_solver.
Qed.

Lemma map_get_of_absent {V W} (key : V -> K) (f : V -> W) (l : list V) k :
  map_get k (map_of ((fun v => (key v, f v)) <$> l)) = None <-> forall v, v ∈ l -> key v <> k.
Proof.
  rewrite map_get_None, map_keys_of, <- list_fmap_compose. setoid_rewrite list_elem_of_fmap. cbn. naive_solver.
Qed.

Lemma elem_of_set_add x y s : y ∈ set_add x s <-> y = x \/ y ∈ s.
Proof. unfold set_add. case_decide; set_solver. Qed.

Lemma set_of_snoc l x : set_of (l ++ [x]) = set_add x (set_of l).
Proof. unfold set_of. by rewrite foldl_app. Qed.

(** A list whose elements come in runs is the set of their heads. *)
Lemma set_of_repeat {A} (key : A -> K) (f : A -> list K) (l : list A) (acc : list K) :
  (forall x, x ∈ l -> f x <> [] /\ forall k, k ∈ f x -> k = key x) -> NoDup (acc ++ (key <$> l)) ->
  foldl (fun s x => set_add x s) acc (l ≫= f) = acc ++ (key <$> l).
Proof.
  revert acc. induction l as [|x l IH]; intros acc Hf Hnd; [by rewrite app_nil_r|].
  rewrite bind_cons, foldl_app, fmap_cons. destruct (Hf x ltac:(set_solver)) as [Hne Hk].
  rewrite fmap_cons in Hnd. apply NoDup_app in Hnd as Hnd'. destruct Hnd' as (_ & Hd & _).
  assert (Hx : foldl (fun s x => set_add x s) acc (f x) = acc ++ [key x]).
  { destruct (f x) as [|k ks]; [done|]. cbn. rewrite (Hk k) by set_solver. unfold set_add at 2. rewrite decide_False by set_solver.
    assert (Hks : forall k, k ∈ ks -> k = key x) by set_solver. clear -Hks. induction ks as [|k ks IH]; [done|]. cbn.
    rewrite (Hks k) by set_solver. unfold set_add at 2. rewrite decide_True by set_solver. apply IH. set_solver. }
  rewrite Hx, IH; [by rewrite <- app_assoc|set_solver|by rewrite <- app_assoc].
Qed.

Lemma elem_of_set_of x l : x ∈ set_of l <-> x ∈ l.
Proof. induction l as [|y l IH] using rev_ind; [done|]. rewrite set_of_snoc, elem_of_set_add, IH. set_solver. Qed.

Lemma NoDup_set_of l : NoDup (set_of l).
Proof.
  induction l as [|y l IH] using rev_ind; [constructor|]. rewrite set_of_snoc. unfold set_add.
  case_decide; [done|]. apply NoDup_app; split; [done|]. split; [set_solver|apply NoDup_singleton].
Qed.

Lemma set_of_NoDup l : NoDup l -> set_of l = l.
Proof.
  induction l as [|y l IH] using rev_ind; [done|]. rewrite NoDup_app. intros (H1 & H2 & _).
  rewrite set_of_snoc, IH by done. unfold set_add. rewrite decide_False; [done|set_solver].
Qed.
End JsMap.

Create HintDb jsmap.
#[export] Hint Resolve map_wf_nil map_wf_set map_wf_delete map_wf_filter map_wf_of NoDup_set_of : jsmap.
Create Rewrite HintDb jsmap.
#[export] Hint Rewrite @map_get_set_eq @map_get_delete_eq : jsmap.
