(* ===== verification/JsText.v ===== *)
(** * JavaScript string operations

    The string and number formatting the sources use: [`${n}`] of an integer, [split], [join],
    [startsWith], [includes], and the facts that make keys built from them unambiguous. *)

From Stdlib Require Import DecimalString DecimalZ DecimalFacts.
From S2P Require Import Prelude.

(** ** Characters of a string *)
Fixpoint has_char (c : ascii) (s : string) : bool :=
  match s with
  | EmptyString => false
  | String d s => bool_decide (c = d) || has_char c s
  end.

Fixpoint all_chars (p : ascii -> bool) (s : string) : bool :=
  match s with
  | EmptyString => true
  | String d s => p d && all_chars p s
  end.

Definition is_digit (c : ascii) : bool := (48 <=? Ascii.nat_of_ascii c)%nat && (Ascii.nat_of_ascii c <=? 57)%nat.

Lemma has_char_app c s t : has_char c (s +:+ t) = has_char c s || has_char c t.
Proof. induction s as [|d s IH]; simpl; [done|]. by rewrite IH, orb_assoc. Qed.

Lemma all_chars_app p s t : all_chars p (s +:+ t) = all_chars p s && all_chars p t.
Proof. induction s as [|d s IH]; simpl; [done|]. by rewrite IH, andb_assoc. Qed.

Lemma all_chars_has p c s : all_chars p s = true -> p c = false -> has_char c s = false.
Proof.
  intros Hs Hc. induction s as [|d s IH]; simpl in *; [done|]. apply andb_true_iff in Hs as [Hd Hs].
  rewrite (IH Hs), orb_false_r. apply bool_decide_eq_false. intros ->. congruence.
Qed.

Lemma all_chars_mono (p q : ascii -> bool) s :
  (forall c, p c = true -> q c = true) -> all_chars p s = true -> all_chars q s = true.
Proof.
  intros Hpq. induction s as [|d s IH]; simpl; [done|]. rewrite !andb_true_iff. naive_solver.
Qed.

Lemma string_app_nil_r s : s +:+ "" = s.
Proof. induction s as [|c s IH]; simpl; [done|by rewrite IH]. Qed.
Lemma string_app_assoc s t u : (s +:+ t) +:+ u = s +:+ (t +:+ u).
Proof. induction s as [|c s IH]; simpl; [done|by rewrite IH]. Qed.
Lemma string_app_inj_l s t u : s +:+ t = s +:+ u -> t = u.
Proof. induction s as [|c s IH]; simpl; [done|]. intros [= ?]; auto. Qed.
Lemma string_app_cons c s t : String c s +:+ t = String c (s +:+ t).
Proof. done. Qed.

(** ** Integers as text *)
Definition Z_str (z : Z) : string := NilZero.string_of_int (Z.to_int z).
Definition str_Z (s : string) : option Z := Z.of_int <$> NilZero.int_of_string s.

Lemma to_int_norm z : Z.to_int z <> Decimal.Pos Decimal.Nil /\ Z.to_int z <> Decimal.Neg Decimal.Nil.
Proof.
  destruct z; simpl; [done| |]; (split; intros [= H]; [apply (DecimalPos.Unsigned.to_uint_nonnil _ H)]) || (split; [done|intros [= H]; apply (DecimalPos.Unsigned.to_uint_nonnil _ H)]).
Qed.

Lemma str_Z_str z : str_Z (Z_str z) = Some z.
Proof.
  unfold str_Z, Z_str. destruct (to_int_norm z). rewrite NilZero.isi by done. simpl. by rewrite DecimalZ.of_to.
Qed.

#[global] Instance Z_str_inj : Inj (=) (=) Z_str.
Proof. intros x y H. apply (f_equal str_Z) in H. rewrite !str_Z_str in H. congruence. Qed.

Lemma string_of_uint_digits u : all_chars is_digit (NilEmpty.string_of_uint u) = true.
Proof. induction u as [|u IH|u IH|u IH|u IH|u IH|u IH|u IH|u IH|u IH|u IH]; simpl; done. Qed.

Lemma Z_str_nonneg_digits z : 0 <= z -> all_chars is_digit (Z_str z) = true.
Proof.
  intros Hz. unfold Z_str. destruct z as [|p|p]; [done| |lia]. simpl.
  destruct (Pos.to_uint p) eqn:E; simpl; try apply string_of_uint_digits; done.
Qed.

Definition int_char (c : ascii) : bool := is_digit c || bool_decide (c = "-"%char).

Lemma Z_str_chars z : all_chars int_char (Z_str z) = true.
Proof.
  destruct (Z.le_gt_cases 0 z) as [Hz|Hz].
  { eapply all_chars_mono; [|by apply Z_str_nonneg_digits]. unfold int_char. by intros c ->. }
  destruct z as [|p|p]; [lia|lia|]. unfold Z_str. simpl.
  assert (Hd : all_chars is_digit (NilZero.string_of_uint (Pos.to_uint p)) = true).
  { destruct (Pos.to_uint p) eqn:E; simpl; try apply string_of_uint_digits; done. }
  eapply all_chars_mono; [|exact Hd]. unfold int_char. by intros c ->.
Qed.

Lemma Z_str_no_char c z : int_char c = false -> has_char c (Z_str z) = false.
Proof. apply all_chars_has, Z_str_chars. Qed.

Lemma Z_str_nonempty z : Z_str z <> "".
Proof. intros H. apply (f_equal str_Z) in H. by rewrite str_Z_str in H. Qed.

(** ** [split] and [join] on one character *)
Fixpoint split_on (c : ascii) (s : string) : list string :=
  match s with
  | EmptyString => [""]
  | String d s' =>
      if decide (c = d) then "" :: split_on c s'
      else match split_on c s' with
           | [] => [String d ""]
           | x :: xs => String d x :: xs
           end
  end.

Fixpoint join (sep : string) (l : list string) : string :=
  match l with
  | [] => ""
  | [x] => x
  | x :: l => x +:+ sep +:+ join sep l
  end.

Definition char_str (c : ascii) : string := String c "".

Lemma split_on_ne c s : split_on c s <> [].
Proof. destruct s; simpl; [done|]. case_decide; [done|]. destruct (split_on c s); done. Qed.

Lemma split_on_plain c s : has_char c s = false -> split_on c s = [s].
Proof.
  induction s as [|d s IH]; simpl; [done|]. rewrite orb_false_iff, bool_decide_eq_false. intros [Hd Hs].
  by rewrite decide_False, IH.
Qed.

Lemma split_on_app c s t : has_char c s = false -> split_on c (s +:+ String c t) = s :: split_on c t.
Proof.
  induction s as [|d s IH]; simpl; [intros _; by rewrite decide_True|].
  rewrite orb_false_iff, bool_decide_eq_false. intros [Hd Hs]. by rewrite decide_False, IH.
Qed.

Lemma split_join c l :
  l <> [] -> Forall (fun s => has_char c s = false) l -> split_on c (join (char_str c) l) = l.
Proof.
  intros Hl H. induction H as [|x l Hx Hl' IH]; [done|]. destruct l as [|y l]; [by apply split_on_plain|].
  change (join (char_str c) (x :: y :: l)) with (x +:+ String c (join (char_str c) (y :: l))).
  rewrite split_on_app by done. by rewrite IH.
Qed.

(** Joined parts without the separator determine the parts. *)
Lemma join_inj c l1 l2 :
  l1 <> [] -> l2 <> [] ->
  Forall (fun s => has_char c s = false) l1 -> Forall (fun s => has_char c s = false) l2 ->
  join (char_str c) l1 = join (char_str c) l2 -> l1 = l2.
Proof. intros H1 H2 F1 F2 E. rewrite <- (split_join c l1), <- (split_join c l2) by done. by rewrite E. Qed.

Lemma sep_inj c a b a' b' :
  has_char c a = false -> has_char c a' = false -> a +:+ String c b = a' +:+ String c b' -> a = a' /\ b = b'.
Proof.
  revert a'. induction a as [|x a IH]; intros [|x' a']; simpl; rewrite ?orb_false_iff, ?bool_decide_eq_false.
  - by intros _ _ [= ->].
  - intros _ [Hc _] [= -> _]. done.
  - intros [Hc _] _ [= -> _]. done.
  - intros [_ Ha] [_ Ha'] [= -> Heq]. destruct (IH a' Ha Ha' Heq) as [-> ->]. done.
Qed.

(** The same, split at the last separator. *)
Lemma sep_inj_r c a b a' b' :
  has_char c b = false -> has_char c b' = false -> a +:+ String c b = a' +:+ String c b' -> a = a' /\ b = b'.
Proof.
  intros Hb Hb'.
  assert (Hin : forall x y z, has_char c z = false -> z <> x +:+ String c y).
  { intros x y z Hz ->. rewrite has_char_app in Hz. simpl in Hz. rewrite bool_decide_true in Hz by done.
    by rewrite orb_true_r in Hz. }
  revert a'. induction a as [|x a IH]; intros [|x' a'] He; simpl in He; simplify_eq; [done|..].
  - by destruct (Hin _ _ _ Hb eq_refl).
  - by destruct (Hin _ _ _ Hb' eq_refl).
  - by destruct (IH _ ltac:(done)) as [-> ->].
Qed.


(** ** Prefixes *)
Fixpoint starts_with (p s : string) : bool :=
  match p, s with
  | EmptyString, _ => true
  | String c p, String d s => bool_decide (c = d) && starts_with p s
  | _, EmptyString => false
  end.

(** [s.slice(n)] *)
Fixpoint str_drop (n : nat) (s : string) : string :=
  match n, s with
  | S n, String _ s => str_drop n s
  | _, s => s
  end.

Lemma starts_with_app p s : starts_with p (p +:+ s) = true.
Proof. induction p as [|c p IH]; simpl; [done|]. by rewrite bool_decide_true. Qed.

Lemma str_drop_app p s : str_drop (String.length p) (p +:+ s) = s.
Proof. induction p; simpl; done. Qed.

Lemma starts_with_inv p s : starts_with p s = true -> s = p +:+ str_drop (String.length p) s.
Proof.
  revert s. induction p as [|c p IH]; intros [|d s]; simpl; try done.
  rewrite andb_true_iff, bool_decide_eq_true. intros [-> Hs]. f_equal. auto.
Qed.

(** A JavaScript string is falsy when empty. *)
Definition truthy (s : string) : bool := negb (String.eqb s "").

Lemma truthy_ne s : truthy s = true <-> s <> "".
Proof. unfold truthy. rewrite negb_true_iff, String.eqb_neq. done. Qed.

Lemma truthy_app s c t : truthy (s +:+ String c t) = true.
Proof. by destruct s. Qed.
