(* ===== verification/Json.v ===== *)
(** * JSON values

    The values [JSON.parse] answers and [JSON.stringify] takes, an object's members in order, with the
    induction principle and decidable equality the components use, and the integers among the numbers. *)

From Stdlib Require Import QArith_base Qreduction.
From S2P Require Import Prelude JsMap.
Open Scope Z_scope.

Inductive json : Type :=
| JNull
| JBool (b : bool)
| JNum (q : Qc)
| JStr (s : string)
| JArr (l : list json)
| JObj (l : list (string * json)).

Section JsonInd.
Context (P : json -> Prop)
  (Hnull : P JNull) (Hbool : forall b, P (JBool b)) (Hnum : forall q, P (JNum q)) (Hstr : forall s, P (JStr s))
  (Harr : forall l, Forall P l -> P (JArr l))
  (Hobj : forall l, Forall (fun kv => P kv.2) l -> P (JObj l)).

Fixpoint json_rect' (j : json) : P j :=
  match j with
  | JNull => Hnull
  | JBool b => Hbool b
  | JNum q => Hnum q
  | JStr s => Hstr s
  | JArr l => Harr l ((fix go l := match l return Forall P l with
                       | [] => Forall_nil_2 _
                       | x :: l => Forall_cons_2 _ _ _ (json_rect' x) (go l)
                       end) l)
  | JObj l => Hobj l ((fix go l := match l return Forall (fun kv => P kv.2) l with
                       | [] => Forall_nil_2 _
                       | x :: l => Forall_cons_2 _ _ _ (json_rect' x.2) (go l)
                       end) l)
  end.
End JsonInd.

#[global] Instance json_eq_dec : EqDecision json.
Proof.
  refine (fix go (a b : json) : Decision (a = b) :=
    match a, b with
    | JNull, JNull => left eq_refl
    | JBool x, JBool y => cast_if (decide (x = y))
    | JNum x, JNum y => cast_if (Qc_eq_dec x y)
    | JStr x, JStr y => cast_if (decide (x = y))
    | JArr x, JArr y => cast_if (@list_eq_dec _ go x y)
    | JObj x, JObj y => cast_if (@list_eq_dec _ (@prod_eq_dec _ _ _ go) x y)
    | _, _ => right _
    end); clear go; abstract congruence.
Defined.

Definition jint (z : Z) : json := JNum (Q2Qc (inject_Z z)).

(** [Number.isInteger(q)], and the integer it is. *)
Definition qc_int (q : Qc) : option Z :=
  if Pos.eqb (Qden (this q)) 1 then Some (Qnum (this q)) else None.

Lemma qc_int_inject z : qc_int (Q2Qc (inject_Z z)) = Some z.
Proof.
  unfold qc_int, Q2Qc. simpl. unfold Qred, inject_Z. simpl.
  pose proof (Z.ggcd_gcd z 1) as Hg. pose proof (Z.ggcd_correct_divisors z 1) as Hc.
  destruct (Z.ggcd z 1) as [g [a b]]. simpl in *. rewrite Z.gcd_1_r in Hg. subst g.
  destruct Hc as [-> Hb]. assert (b = 1) as -> by lia. simpl. destruct a; done.
Qed.

(** A member of an object; [undefined] is [None]. *)
Definition jget (k : string) (j : json) : option json :=
  match j with JObj l => map_get k l | _ => None end.

(** [JSON.stringify] drops the members whose value is [undefined]. *)
Definition jmember {A} (k : string) (f : A -> json) (o : option A) : list (string * json) :=
  match o with Some a => [(k, f a)] | None => [] end.

(** An object's members sorted by key, at every level: what [libraryV4.ts] [sorted] prints. *)
Definition key_cmp (a b : string * json) : Z := str_cmp a.1 b.1.

Fixpoint jsorted (j : json) : json :=
  match j with
  | JArr l => JArr (jsorted <$> l)
  | JObj l => JObj (js_sort key_cmp ((fun kv => (kv.1, jsorted kv.2)) <$> l))
  | _ => j
  end.
