(* ===== verification/Wire.v ===== *)
(** * The library wire format ([web/src/lib/wire.ts])

    Hybrid-logical-clock stamps and their order, the row types a library stores, the name each row's key
    is derived from, how a stamp from the future is read ([believe]) and the newest stamp of a row. *)

From S2P Require Import Prelude JsMap JsText Json.

(** ** Stamps *)

(** Unix ms, a counter, and the issuing device's id. *)
Record Stamp : Type := mkStamp { st_t : Z; st_c : Z; st_d : string }.
#[global] Instance Stamp_eq_dec : EqDecision Stamp.
Proof. solve_decision. Defined.

Definition ZERO_STAMP : Stamp := mkStamp 0 0 "".

Definition compareStamps (a b : Stamp) : Z :=
  or_num (st_t a - st_t b) (or_num (st_c a - st_c b) (str_cmp (st_d a) (st_d b))).

Definition stamp_json (s : Stamp) : json := JArr [jint (st_t s); jint (st_c s); JStr (st_d s)].

(** ** Rows *)

(** [title: { type, id }]; the type is the string the row carries, which readers check. *)
Record TitleRef : Type := mkRef { ref_type : string; ref_id : Z }.
#[global] Instance TitleRef_eq_dec : EqDecision TitleRef.
Proof. solve_decision. Defined.

Inductive Status : Type := SNone | SWatchlist | SInProgress | SWatched.
#[global] Instance Status_eq_dec : EqDecision Status.
Proof. solve_decision. Defined.

Inductive Reaction : Type := RSeen | RDislike | RLike | RLove.
#[global] Instance Reaction_eq_dec : EqDecision Reaction.
Proof. solve_decision. Defined.

Record Stamped (T : Type) : Type := mkStamped { sv_value : T; sv_at : Stamp }.
Arguments mkStamped {T} _ _.
Arguments sv_value {T} _.
Arguments sv_at {T} _.
#[global] Instance Stamped_eq_dec {T} `{!EqDecision T} : EqDecision (Stamped T).
Proof. solve_decision. Defined.

Record Progress : Type := mkProgress {
  pr_value : Qc;
  pr_at : Stamp;
  pr_viewing : Z;
  pr_seconds : option Qc;
  pr_playing : option bool;
}.
#[global] Instance Progress_eq_dec : EqDecision Progress.
Proof. solve_decision. Defined.

(** [unknown] holds the members this build does not know, which every spread keeps. *)
Record TitleRow : Type := mkTitleRow {
  tr_schema : Z;
  tr_title : TitleRef;
  tr_status : Stamped Status;
  tr_resume : Progress;
  tr_reaction : Stamped (option Reaction);
  tr_deleted : Stamped bool;
  tr_dismissed : Stamped bool;
  tr_episodesReset : option Stamp;
  tr_addedAt : Z;
  tr_watchedAt : option Z;
  tr_unknown : list (string * json);
}.

Record EpisodeRow : Type := mkEpisodeRow {
  ep_schema : Z;
  ep_title : TitleRef;
  ep_season : Z;
  ep_episode : Z;
  ep_progress : Progress;
  ep_unknown : list (string * json);
}.

Inductive ConfigValue : Type :=
| CBool (b : bool)
| CInt (n : Z)
| CString (s : string)
| CInts (l : list Z)
| CStrings (l : list string).
#[global] Instance ConfigValue_eq_dec : EqDecision ConfigValue.
Proof. solve_decision. Defined.

Abbreviation Setting := (Stamped (option ConfigValue)).

Record SettingsRow : Type := mkSettingsRow {
  set_schema : Z;
  set_name : string;
  set_values : jsmap string Setting;
  set_unknown : list (string * json);
}.

Inductive DocumentKind : Type := KTitle | KSeason | KDelivery.
#[global] Instance DocumentKind_eq_dec : EqDecision DocumentKind.
Proof. solve_decision. Defined.

Record DocumentRow : Type := mkDocumentRow {
  doc_kind : DocumentKind;
  doc_format : Z;
  doc_title : TitleRef;
  doc_season : option Z;
  doc_provider : option string;
  doc_account : option string;
  doc_rest : list (string * json);
}.
#[global] Instance DocumentRow_eq_dec : EqDecision DocumentRow.
Proof. solve_decision. Defined.

Inductive Row : Type :=
| RTitle (r : TitleRow)
| REpisode (r : EpisodeRow)
| RSettings (r : SettingsRow)
| RDocument (r : DocumentRow).

Definition isDocument (row : Row) : bool := match row with RDocument _ => true | _ => false end.

(** Only a series has episodes; a row that says otherwise is left out wherever rows are read. *)
Definition wellFormed (row : Row) : bool :=
  match row with
  | REpisode r => String.eqb (ref_type (ep_title r)) "tv"
  | _ => true
  end.

(** ** Row names *)

Definition MAX_SAFE_INTEGER : Z := 2 ^ 53 - 1.

(** [Number.isSafeInteger(value) && value >= 0] *)
Definition safeCount (value : Z) : bool := (0 <=? value) && (value <=? MAX_SAFE_INTEGER).

Definition is_media (type : string) : bool := String.eqb type "movie" || String.eqb type "tv".

(** [/^[A-Za-z0-9_-]+$/] *)
Definition account_char (c : ascii) : bool :=
  let n := Ascii.nat_of_ascii c in
  is_digit c || ((65 <=? n) && (n <=? 90))%nat || ((97 <=? n) && (n <=? 122))%nat
  || bool_decide (c = "_"%char) || bool_decide (c = "-"%char).

Definition is_account (s : string) : bool := truthy s && all_chars account_char s.

Definition titleText (t : TitleRef) : string := ref_type t +:+ ":" +:+ Z_str (ref_id t).

Definition coordinateText (t : TitleRef) (season : option Z) : string :=
  match season with
  | None => titleText t
  | Some s => titleText t +:+ ":" +:+ Z_str s
  end.

(** A well-formed document's name, or [None] for an identity left to den-core's [doc_name] to refuse. *)
Definition documentName (row : DocumentRow) : option string :=
  let t := doc_title row in
  if negb (is_media (ref_type t)) || negb (safeCount (ref_id t)) || (ref_id t =? 0) then None
  else match doc_kind row with
  | KTitle => Some ("title:" +:+ titleText t)
  | kind =>
    if match doc_season row with
       | Some s => negb (safeCount s) || negb (String.eqb (ref_type t) "tv")
       | None => false
       end
    then None
    else
      let coordinate := coordinateText t (doc_season row) in
      if decide (kind = KSeason) then
        match doc_season row with None => None | Some _ => Some ("season:" +:+ coordinate) end
      else match doc_provider row, doc_account row with
           | Some provider, Some account =>
             if negb (truthy provider) || has_char ":" provider then None
             else if negb (is_account account) then None
             else Some ("dlv:" +:+ provider +:+ ":" +:+ account +:+ ":" +:+ coordinate)
           | _, _ => None
           end
  end.

(** den-core's [doc_name], which names (or refuses, by throwing) what [documentName] leaves to it. *)
Class NamePolicy := policy_doc_name : DocumentRow -> res string.

Definition rowName `{NamePolicy} (row : Row) : res string :=
  match row with
  | RDocument d => match documentName d with Some n => Ok n | None => policy_doc_name d end
  | RSettings r => Ok ("set:" +:+ set_name r)
  | RTitle r => Ok ("rec:" +:+ titleText (tr_title r))
  | REpisode r =>
    Ok ("ep:" +:+ titleText (ep_title r) +:+ ":" +:+ Z_str (ep_season r) +:+ ":" +:+ Z_str (ep_episode r))
  end.

(** ** Believing stamps *)

Definition FUTURE_TOLERANCE_MS : Z := 24 * 60 * 60 * 1000.

Definition believe_fix (now : Z) (s : Stamp) : Stamp :=
  if now + FUTURE_TOLERANCE_MS <? st_t s then ZERO_STAMP else s.

Definition believe_fixed {V} (now : Z) (s : Stamped V) : Stamped V :=
  mkStamped (sv_value s) (believe_fix now (sv_at s)).

Definition believe_progress (now : Z) (p : Progress) : Progress :=
  mkProgress (pr_value p) (believe_fix now (pr_at p)) (pr_viewing p) (pr_seconds p) (pr_playing p).

Definition believe (now : Z) (row : Row) : Row :=
  match row with
  | RDocument _ => row
  | REpisode r =>
    REpisode (mkEpisodeRow (ep_schema r) (ep_title r) (ep_season r) (ep_episode r)
                           (believe_progress now (ep_progress r)) (ep_unknown r))
  | RSettings r =>
    RSettings (mkSettingsRow (set_schema r) (set_name r)
                             ((fun kv => (kv.1, believe_fixed now kv.2)) <$> set_values r) (set_unknown r))
  | RTitle r =>
    RTitle (mkTitleRow (tr_schema r) (tr_title r) (believe_fixed now (tr_status r))
                       (believe_progress now (tr_resume r)) (believe_fixed now (tr_reaction r))
                       (believe_fixed now (tr_deleted r)) (believe_fixed now (tr_dismissed r))
                       (believe_fix now <$> tr_episodesReset r) (tr_addedAt r) (tr_watchedAt r) (tr_unknown r))
  end.

(** ** The newest stamp of a row *)

Record NewestSummary : Type := mkNewest { ns_stamp : Stamp; ns_reconsiderAt : option Z }.

(** [(a, b) => compareStamps(b, a) > 0 ? b : a] *)
Definition later (a b : Stamp) : Stamp := if 0 <? compareStamps b a then b else a.

Definition latestOf (l : list Stamp) : Stamp := foldl later ZERO_STAMP l.

(** A three-element array of two integers and a string is a stamp. *)
Definition as_stamp (l : list json) : option Stamp :=
  match l with
  | [JNum a; JNum b; JStr d] =>
    match qc_int a, qc_int b with Some t, Some c => Some (mkStamp t c d) | _, _ => None end
  | _ => None
  end.

Definition visit_stamp (now : Z) (acc : NewestSummary) (s : Stamp) : NewestSummary :=
  if st_t s <=? now + FUTURE_TOLERANCE_MS then
    if 0 <? compareStamps s (ns_stamp acc) then mkNewest s (ns_reconsiderAt acc) else acc
  else
    let believableAt := st_t s - FUTURE_TOLERANCE_MS in
    mkNewest (ns_stamp acc) (Some (Z.min (default believableAt (ns_reconsiderAt acc)) believableAt)).

(** [documentNewest]'s recursive [visit], the two captured variables as its accumulator. *)
Fixpoint visit (now : Z) (acc : NewestSummary) (value : json) : NewestSummary :=
  match value with
  | JArr l =>
    match as_stamp l with
    | Some s => visit_stamp now acc s
    | None => foldl (visit now) acc l
    end
  | JObj l => foldl (fun acc kv => visit now acc kv.2) acc l
  | _ => acc
  end.

Definition kind_str (k : DocumentKind) : string :=
  match k with KTitle => "title" | KSeason => "season" | KDelivery => "delivery" end.

Definition ref_json (t : TitleRef) : json := JObj [("type", JStr (ref_type t)); ("id", jint (ref_id t))].

(** A document as the object it is. *)
Definition document_json (d : DocumentRow) : json :=
  JObj ([("kind", JStr (kind_str (doc_kind d))); ("format", jint (doc_format d)); ("title", ref_json (doc_title d))]
        ++ jmember "season" jint (doc_season d) ++ jmember "provider" JStr (doc_provider d)
        ++ jmember "account" JStr (doc_account d) ++ doc_rest d).

Definition documentNewest (d : DocumentRow) (now : Z) : NewestSummary :=
  visit now (mkNewest ZERO_STAMP None) (document_json d).

Definition row_stamps (row : Row) : list Stamp :=
  match row with
  | REpisode r => [pr_at (ep_progress r)]
  | RSettings r => sv_at <$> map_values (set_values r)
  | RTitle r => [sv_at (tr_status r); pr_at (tr_resume r); sv_at (tr_reaction r); sv_at (tr_deleted r);
                 sv_at (tr_dismissed r); default ZERO_STAMP (tr_episodesReset r)]
  | RDocument _ => []
  end.

Definition newestSummary (row : Row) (now : Z) : NewestSummary :=
  match row with
  | RDocument d => documentNewest d now
  | _ => mkNewest (latestOf (row_stamps row)) None
  end.

Definition newest (row : Row) (now : Z) : Stamp := ns_stamp (newestSummary row now).

(** ** The order on stamps *)

Definition stamp_le (a b : Stamp) : Prop := compareStamps a b <= 0.
Definition stamp_lt (a b : Stamp) : Prop := compareStamps a b < 0.

Lemma str_cmp_cases a b :
  (str_cmp a b = -1 /\ str_ltb a b = true) \/ (str_cmp a b = 0 /\ a = b) \/ (str_cmp a b = 1 /\ str_ltb b a = true).
Proof.
  unfold str_cmp. destruct (str_ltb a b) eqn:E1; [auto|]. destruct (str_ltb b a) eqn:E2; [auto|].
  right; left. split; [done|]. by apply str_ltb_total.
Qed.

(** The lexicographic order [compareStamps] decides. *)
Lemma compareStamps_spec a b :
  (compareStamps a b < 0 <->
     st_t a < st_t b \/ st_t a = st_t b /\ (st_c a < st_c b \/ st_c a = st_c b /\ str_ltb (st_d a) (st_d b) = true))
  /\ (compareStamps a b = 0 <-> a = b).
Proof.
  destruct a as [t c d], b as [t' c' d']. unfold compareStamps, or_num; cbn [st_t st_c st_d].
  destruct (Z.eqb_spec (t - t') 0); [destruct (Z.eqb_spec (c - c') 0)|].
  - destruct (str_cmp_cases d d') as [[-> H]|[[-> H]|[-> H]]].
    + split; split; [auto with lia|lia|lia|]. intros [= -> -> ->]. by rewrite str_ltb_irrefl in H.
    + subst. split; split; [lia| |intros _; f_equal; lia|done]. rewrite str_ltb_irrefl. naive_solver lia.
    + split; split; [lia| |lia|]. { rewrite (str_ltb_asym _ _ H). naive_solver lia. }
      intros [= -> -> ->]. by rewrite str_ltb_irrefl in H.
  - split; split; [lia..|]. intros [= -> -> ->]; lia.
  - split; split; [lia..|]. intros [= -> -> ->]; lia.
Qed.

Lemma compareStamps_lt a b : stamp_lt a b <->
  st_t a < st_t b \/ st_t a = st_t b /\ (st_c a < st_c b \/ st_c a = st_c b /\ str_ltb (st_d a) (st_d b) = true).
Proof. apply compareStamps_spec. Qed.

Lemma compareStamps_eq a b : compareStamps a b = 0 <-> a = b.
Proof. apply compareStamps_spec. Qed.

Lemma str_cmp_opp a b : str_cmp b a = - str_cmp a b.
Proof.
  unfold str_cmp. destruct (str_ltb a b) eqn:E1; [by rewrite (str_ltb_asym _ _ E1)|].
  by destruct (str_ltb b a).
Qed.

Lemma compareStamps_opp a b : compareStamps b a = - compareStamps a b.
Proof.
  unfold compareStamps, or_num. rewrite (str_cmp_opp (st_d a) (st_d b)).
  repeat match goal with |- context [?x =? 0] => destruct (Z.eqb_spec x 0) end; lia.
Qed.

Lemma compareStamps_antisym a b : compareStamps a b < 0 <-> 0 < compareStamps b a.
Proof. rewrite (compareStamps_opp a b). lia. Qed.

#[global] Instance stamp_lt_trans : Transitive stamp_lt.
Proof.
  intros a b c. rewrite !compareStamps_lt. intros Hab Hbc.
  destruct Hab as [|[? [|[? Hab]]]], Hbc as [|[? [|[? Hbc]]]];
    first [left; lia | right; split; [lia|left; lia]
          | right; split; [lia|]; right; split; [lia|]; by eapply str_ltb_trans].
Qed.

Lemma stamp_le_lt_eq a b : stamp_le a b <-> stamp_lt a b \/ a = b.
Proof. unfold stamp_le, stamp_lt. rewrite <- compareStamps_eq. lia. Qed.

Lemma stamp_lt_irrefl a : ~ stamp_lt a a.
Proof. unfold stamp_lt. rewrite (proj2 (compareStamps_eq a a)); [lia|done]. Qed.

Lemma stamp_le_total a b : stamp_le a b \/ stamp_lt b a.
Proof. unfold stamp_le, stamp_lt. rewrite (compareStamps_antisym b a). lia. Qed.

#[global] Instance stamp_le_order : TotalOrder stamp_le.
Proof.
  repeat split.
  - intros a. apply stamp_le_lt_eq. by right.
  - intros a b c. rewrite !stamp_le_lt_eq. intros [Hab| ->] [Hbc| ->]; eauto. left. by transitivity b.
  - intros a b. rewrite !stamp_le_lt_eq. intros [Hab|] [Hba|]; auto. exfalso. eapply stamp_lt_irrefl. by transitivity b.
  - intros a b. unfold strict. destruct (stamp_le_total a b) as [H|H].
    + destruct (decide (a = b)) as [->|Hne]; [auto|]. left. split; [done|]. intros H'. apply Hne.
      apply stamp_le_lt_eq in H as [H|]; [|done]. apply stamp_le_lt_eq in H' as [H'|]; [|done].
      exfalso. eapply stamp_lt_irrefl. by transitivity b.
    + right; right. split; [apply stamp_le_lt_eq; auto|]. intros H'. apply stamp_le_lt_eq in H' as [H'| ->].
      * eapply stamp_lt_irrefl. by transitivity b.
      * by eapply stamp_lt_irrefl.
Qed.

Lemma stamp_le_lt_trans a b c : stamp_le a b -> stamp_lt b c -> stamp_lt a c.
Proof. rewrite stamp_le_lt_eq. intros [?| ->] ?; [by transitivity b|done]. Qed.

Lemma stamp_lt_le_trans a b c : stamp_lt a b -> stamp_le b c -> stamp_lt a c.
Proof. rewrite stamp_le_lt_eq. intros ? [?| ->]; [by transitivity b|done]. Qed.

Lemma stamp_lt_le a b : stamp_lt a b -> stamp_le a b.
Proof. rewrite stamp_le_lt_eq. auto. Qed.

Lemma stamp_lt_not_le a b : stamp_lt a b <-> ~ stamp_le b a.
Proof. unfold stamp_le, stamp_lt. rewrite compareStamps_antisym. lia. Qed.

(** ** Folding to the latest stamp *)

Lemma later_le_l a b : stamp_le a (later a b).
Proof.
  unfold later. destruct (Z.ltb_spec 0 (compareStamps b a)) as [H|H]; [|reflexivity].
  apply stamp_lt_le, compareStamps_antisym, H.
Qed.

Lemma later_le_r a b : stamp_le b (later a b).
Proof. unfold later, stamp_le. destruct (Z.ltb_spec 0 (compareStamps b a)) as [H|H]; [|done]. rewrite (proj2 (compareStamps_eq b b)); done. Qed.

Lemma later_either a b : later a b = a \/ later a b = b.
Proof. unfold later. destruct (_ <? _); auto. Qed.

Lemma foldl_later_spec l a :
  stamp_le a (foldl later a l) /\ (forall s, s ∈ l -> stamp_le s (foldl later a l))
  /\ (foldl later a l = a \/ foldl later a l ∈ l).
Proof.
  revert a. induction l as [|x l IH]; intros a; simpl.
  { split; [reflexivity|]. split; [set_solver|auto]. }
  destruct (IH (later a x)) as (H1 & H2 & H3). split; [etrans; [apply later_le_l|done]|]. split.
  - intros s [->|Hs]%elem_of_cons; [|auto]. etrans; [apply later_le_r|done].
  - destruct H3 as [->|H3]; [|right; by right]. destruct (later_either a x) as [->| ->]; [auto|right; by left].
Qed.

(** A maximum is determined by being an upper bound that is attained. *)
Lemma stamp_max_unique (P : Stamp -> Prop) a b :
  P a -> P b -> (forall s, P s -> stamp_le s a) -> (forall s, P s -> stamp_le s b) -> a = b.
Proof. intros Pa Pb Ha Hb. apply (anti_symm stamp_le); auto. Qed.

(** Every stamp array inside a JSON value, in the order [visit] meets them. *)
Fixpoint json_stamps (v : json) : list Stamp :=
  match v with
  | JArr l => match as_stamp l with Some s => [s] | None => concat (json_stamps <$> l) end
  | JObj l => concat ((fun kv => json_stamps kv.2) <$> l)
  | _ => []
  end.

Lemma visit_stamps now v acc : visit now acc v = foldl (visit_stamp now) acc (json_stamps v).
Proof.
  revert acc. induction v as [| | | |l IH|l IH] using json_rect'; intros acc; simpl; try done.
  - destruct (as_stamp l); [done|]. revert acc. induction IH as [|x l Hx _ IHl]; intros acc; simpl; [done|].
    by rewrite foldl_app, <- Hx, IHl.
  - revert acc. induction IH as [|x l Hx _ IHl]; intros acc; simpl; [done|]. by rewrite foldl_app, <- Hx, IHl.
Qed.

Definition believable (now : Z) (s : Stamp) : Prop := st_t s <= now + FUTURE_TOLERANCE_MS.
#[global] Instance believable_dec now s : Decision (believable now s).
Proof. unfold believable. apply _. Defined.

Lemma visit_stamp_latest now l acc :
  ns_stamp (foldl (visit_stamp now) acc l) = foldl later (ns_stamp acc) (filter (believable now) l).
Proof.
  revert acc. induction l as [|s l IH]; intros acc; [done|]. cbn [foldl]. rewrite IH, filter_cons.
  unfold visit_stamp, believable. case_decide as H.
  - rewrite (proj2 (Z.leb_le _ _) H). cbn [foldl]. f_equal. unfold later. by destruct (0 <? _).
  - destruct (Z.leb_spec (st_t s) (now + FUTURE_TOLERANCE_MS)); [lia|]. done.
Qed.

(** [reconsiderAt] bounds from below, tightly, when each unbelievable stamp becomes believable. *)
Lemma visit_stamp_reconsider now l acc :
  let r := ns_reconsiderAt (foldl (visit_stamp now) acc l) in
  (forall s, s ∈ l -> ~ believable now s -> exists z, r = Some z /\ z <= st_t s - FUTURE_TOLERANCE_MS)
  /\ (forall z, ns_reconsiderAt acc = Some z -> exists z', r = Some z' /\ z' <= z)
  /\ (forall z, r = Some z -> ns_reconsiderAt acc = Some z \/
        exists s, s ∈ l /\ ~ believable now s /\ z = st_t s - FUTURE_TOLERANCE_MS).
Proof.
  revert acc. induction l as [|x l IH]; intros acc; cbn [foldl]; cbv zeta.
  { split; [set_solver|]. split; [eauto with lia|auto]. }
  destruct (IH (visit_stamp now acc x)) as (H1 & H2 & H3).
  set (r := ns_reconsiderAt _) in *. unfold visit_stamp in H2, H3.
  destruct (Z.leb_spec (st_t x) (now + FUTURE_TOLERANCE_MS)) as [Hx|Hx].
  - assert (Hacc : ns_reconsiderAt (if 0 <? compareStamps x (ns_stamp acc) then mkNewest x (ns_reconsiderAt acc) else acc)
                   = ns_reconsiderAt acc) by (by destruct (0 <? _)).
    rewrite Hacc in H2, H3. split; [|split; [done|]].
    + intros s [->|Hs]%elem_of_cons Hn; [by unfold believable in Hn|auto].
    + intros z Hz. destruct (H3 z Hz) as [|(s & ? & ? & ?)]; [auto|]. right. exists s. split; [by right|auto].
  - cbn [ns_reconsiderAt] in H2, H3. destruct (H2 _ eq_refl) as (z' & Hz' & Hle). split; [|split].
    + intros s [->|Hs]%elem_of_cons Hn; [|auto]. exists z'. split; [done|]. lia.
    + intros z Hz. rewrite Hz in Hle. simpl in Hle. exists z'. split; [done|]. lia.
    + intros z Hz. destruct (H3 z Hz) as [[= <-]|(s & ? & ? & ?)]; [|right; exists s; split; [by right|auto]].
      destruct (ns_reconsiderAt acc) as [w|]; simpl.
      * destruct (Z.min_spec w (st_t x - FUTURE_TOLERANCE_MS)) as [[_ ->]|[_ ->]]; [auto|].
        right. exists x. unfold believable. split; [by left|]. split; [lia|done].
      * right. exists x. unfold believable. split; [by left|]. split; [lia|]. lia.
Qed.

Definition document_stamps (d : DocumentRow) : list Stamp := json_stamps (document_json d).

Lemma documentNewest_stamp d now :
  ns_stamp (documentNewest d now) = latestOf (filter (believable now) (document_stamps d)).
Proof. unfold documentNewest. rewrite visit_stamps, visit_stamp_latest. done. Qed.

(** The stamps [newest] ranges over: a row's own, or the believable ones of a document. *)
Definition counted_stamps (row : Row) (now : Z) : list Stamp :=
  match row with
  | RDocument d => filter (believable now) (document_stamps d)
  | _ => row_stamps row
  end.

Lemma newest_latest row now : newest row now = latestOf (counted_stamps row now).
Proof. unfold newest. destruct row; simpl; try done. apply documentNewest_stamp. Qed.

(** ** Properties *)

(** [newest] is the greatest of the stamps a row holds (of a document: of those no more than a day
    ahead of [now]), and the zero stamp when none is greater; so a clock that has seen it issues after all of them. *)
Lemma newest_is_maximum (row : Row) (now : Z) :
  stamp_le ZERO_STAMP (newest row now)
  /\ (forall s, s ∈ counted_stamps row now -> stamp_le s (newest row now))
  /\ (newest row now = ZERO_STAMP \/ newest row now ∈ counted_stamps row now).
Proof. rewrite newest_latest. apply foldl_later_spec. Qed.

(** a document's [newestSummary] is stable until its [reconsiderAt]: read again at any later time
    strictly before it, the newest stamp is the same; and [reconsiderAt] is the first instant at which some stamp of
    the document that was not believed becomes believable. *)
Lemma documentNewest_stable (d : DocumentRow) (now now' : Z) :
  now <= now' ->
  match ns_reconsiderAt (documentNewest d now) with Some r => now' < r | None => True end ->
  ns_stamp (documentNewest d now') = ns_stamp (documentNewest d now)
  /\ (forall r, ns_reconsiderAt (documentNewest d now) = Some r ->
        exists s, s ∈ document_stamps d /\ ~ believable now s /\ ~ believable (r - 1) s /\ believable r s).
Proof.
  intros Hnow Hr. rewrite !documentNewest_stamp.
  pose proof (visit_stamp_reconsider now (document_stamps d) (mkNewest ZERO_STAMP None)) as (H1 & _ & H3).
  unfold documentNewest in *. rewrite visit_stamps in Hr |- *. split.
  - f_equal. apply filter_ext_in. intros s Hs. unfold believable in *. split; [|lia].
    intros Hb. destruct (decide (st_t s <= now + FUTURE_TOLERANCE_MS)) as [|Hn]; [done|].
    destruct (H1 s Hs Hn) as (z & Hz & Hle). unfold document_stamps in Hz. rewrite Hz in Hr. lia.
  - intros r Hz. destruct (H3 r Hz) as [|(s & Hs & Hn & ->)]; [done|]. exists s. unfold believable in *.
    split; [done|]. split; [done|]. lia.
Qed.

Definition future_document : DocumentRow :=
  mkDocumentRow KTitle 4 (mkRef "tv" 1399) None None None
    [("status", JObj [("value", JStr "watched"); ("at", stamp_json (mkStamp 1000 0 "a"))]);
     ("resume", JObj [("at", stamp_json (mkStamp 100000000 0 "b"))])].

Lemma documentNewest_stable_witness :
  ns_stamp (documentNewest future_document 13599999) = mkStamp 1000 0 "a"
  /\ ns_reconsiderAt (documentNewest future_document 2000) = Some 13600000.
Proof.
  split; [|vm_compute; reflexivity].
  destruct (documentNewest_stable future_document 2000 13599999) as [H _]; [lia|vm_compute; reflexivity|].
  etransitivity; [exact H|]. vm_compute. reflexivity.
Defined.

Lemma believe_fix_bound now s : 0 <= now -> st_t (believe_fix now s) <= now + FUTURE_TOLERANCE_MS.
Proof. unfold believe_fix, FUTURE_TOLERANCE_MS. intros. destruct (Z.ltb_spec (now + 24 * 60 * 60 * 1000) (st_t s)); simpl; lia. Qed.

Lemma believe_fix_id now s : st_t s <= now + FUTURE_TOLERANCE_MS -> believe_fix now s = s.
Proof. unfold believe_fix. destruct (Z.ltb_spec (now + FUTURE_TOLERANCE_MS) (st_t s)); [lia|done]. Qed.

Lemma believe_fixed_id {V} now (s : Stamped V) : st_t (sv_at s) <= now + FUTURE_TOLERANCE_MS -> believe_fixed now s = s.
Proof. intros. unfold believe_fixed. rewrite believe_fix_id by done. by destruct s. Qed.

Lemma believe_progress_id now p : st_t (pr_at p) <= now + FUTURE_TOLERANCE_MS -> believe_progress now p = p.
Proof. intros. unfold believe_progress. rewrite believe_fix_id by done. by destruct p. Qed.

Lemma row_stamps_believe now row : 0 <= now -> Forall (believable now) (row_stamps (believe now row)).
Proof.
  intros Hnow. unfold believable. destruct row as [r|r|r|r]; simpl; [| | |constructor].
  - repeat constructor; try (apply believe_fix_bound; done).
    destruct (tr_episodesReset r); simpl; [by apply believe_fix_bound|]. unfold FUTURE_TOLERANCE_MS. lia.
  - repeat constructor. by apply believe_fix_bound.
  - unfold map_values. rewrite <- !list_fmap_compose. apply Forall_fmap, Forall_true. intros [k v]. by apply believe_fix_bound.
Qed.

Lemma believe_id now row : Forall (believable now) (row_stamps row) -> believe now row = row.
Proof.
  unfold believable. destruct row as [r|r|r|r]; simpl; [..|done].
  - rewrite !Forall_cons. intros (H1 & H2 & H3 & H4 & H5 & H6 & _).
    rewrite !believe_fixed_id, believe_progress_id by done.
    destruct r as [? ? ? ? ? ? ? [e|] ? ? ?]; simpl in *; [by rewrite believe_fix_id|done].
  - rewrite Forall_singleton. intros H. rewrite believe_progress_id by done. by destruct r.
  - intros H. assert (Hv : (fun kv => (kv.1, believe_fixed now kv.2)) <$> set_values r = set_values r); [|rewrite Hv; by destruct r].
    unfold map_values in H. induction (set_values r) as [|[k v] l IH]; [done|].
    rewrite !fmap_cons, Forall_cons in H. destruct H as [H1 H2]. rewrite fmap_cons, IH by done.
    cbn [fst snd]. by rewrite believe_fixed_id.
Qed.

(** [believe] leaves no stamp of a row more than a day ahead of [now], changes nothing in a row that
    had none, changes no value and no name, and doing it twice is doing it once. *)
Lemma believe_spec `{NamePolicy} (row : Row) (now : Z) :
  0 <= now ->
  Forall (believable now) (row_stamps (believe now row))
  /\ (Forall (believable now) (row_stamps row) -> believe now row = row)
  /\ believe now (believe now row) = believe now row
  /\ rowName (believe now row) = rowName row.
Proof.
  intros Hnow. split; [by apply row_stamps_believe|]. split; [apply believe_id|].
  split; [by apply believe_id, row_stamps_believe|]. by destruct row.
Qed.

Definition future_episode : Row :=
  REpisode (mkEpisodeRow 2 (mkRef "tv" 1399) 1 2 (mkProgress 1 (mkStamp 90000000 4 "ff") 0 None None) []).

Lemma believe_spec_witness :
  let _ : NamePolicy := fun _ => Throw "" in
  row_stamps (believe 1000 future_episode) = [ZERO_STAMP]
  /\ believe 1000 (believe 1000 future_episode) = believe 1000 future_episode
  /\ Forall (believable 1000) (row_stamps (believe 1000 future_episode)).
Proof.
  intros np. pose proof (believe_spec (H:=np) future_episode 1000 ltac:(lia)) as (H1 & _ & H2 & _).
  split; [vm_compute; reflexivity|]. split; assumption.
Defined.

(** ** Names are identities *)

Inductive Ident : Type :=
| IdRec (t : TitleRef)
| IdEp (t : TitleRef) (season episode : Z)
| IdSet (name : string)
| IdTitle (t : TitleRef)
| IdSeason (t : TitleRef) (season : Z)
| IdDelivery (provider account : string) (t : TitleRef) (season : option Z).

(** What a row is of, for a row of a film or series and a document den-core need not name. *)
Definition row_ident (row : Row) : option Ident :=
  match row with
  | RTitle r => if is_media (ref_type (tr_title r)) then Some (IdRec (tr_title r)) else None
  | REpisode r => if is_media (ref_type (ep_title r)) then Some (IdEp (ep_title r) (ep_season r) (ep_episode r)) else None
  | RSettings r => Some (IdSet (set_name r))
  | RDocument d =>
    match documentName d with
    | None => None
    | Some _ => Some match doc_kind d with
                     | KTitle => IdTitle (doc_title d)
                     | KSeason => IdSeason (doc_title d) (default 0 (doc_season d))
                     | KDelivery => IdDelivery (default "" (doc_provider d)) (default "" (doc_account d)) (doc_title d) (doc_season d)
                     end
    end
  end.

Definition ref_parts (t : TitleRef) : list string := [ref_type t; Z_str (ref_id t)].

Definition ident_parts (i : Ident) : list string :=
  match i with
  | IdRec t => "rec" :: ref_parts t
  | IdEp t s e => "ep" :: ref_parts t ++ [Z_str s; Z_str e]
  | IdSet name => "set" :: split_on ":" name
  | IdTitle t => "title" :: ref_parts t
  | IdSeason t s => "season" :: ref_parts t ++ [Z_str s]
  | IdDelivery p a t s => "dlv" :: p :: a :: ref_parts t ++ match s with Some s => [Z_str s] | None => [] end
  end.

Lemma is_media_no_colon s : is_media s = true -> has_char ":" s = false.
Proof. unfold is_media. rewrite orb_true_iff, !String.eqb_eq. by intros [->| ->]. Qed.

Lemma account_no_colon s : is_account s = true -> has_char ":" s = false.
Proof. unfold is_account. rewrite andb_true_iff. intros [_ H]. by eapply all_chars_has. Qed.

Lemma split_cons_lit lit s : has_char ":" lit = false -> split_on ":" (lit +:+ ":" +:+ s) = lit :: split_on ":" s.
Proof. apply (split_on_app ":"%char). Qed.

Lemma split_last s : has_char ":" s = false -> split_on ":" s = [s].
Proof. apply split_on_plain. Qed.

Lemma split_titleText t :
  has_char ":" (ref_type t) = false -> split_on ":" (titleText t) = ref_parts t.
Proof. intros H. unfold titleText. rewrite split_cons_lit by done. by rewrite split_last by (by apply Z_str_no_char). Qed.

Lemma split_coordinate t s :
  has_char ":" (ref_type t) = false ->
  split_on ":" (coordinateText t s) = ref_parts t ++ match s with Some s => [Z_str s] | None => [] end.
Proof.
  intros H. destruct s as [s|]; unfold coordinateText; [|by rewrite split_titleText, app_nil_r].
  unfold titleText. rewrite !string_app_assoc. rewrite split_cons_lit by done.
  rewrite split_cons_lit by (by apply Z_str_no_char). by rewrite split_last by (by apply Z_str_no_char).
Qed.

Lemma documentName_cases d n : documentName d = Some n ->
  is_media (ref_type (doc_title d)) = true /\
  match doc_kind d with
  | KTitle => n = "title:" +:+ titleText (doc_title d)
  | KSeason => exists s, doc_season d = Some s /\ n = "season:" +:+ coordinateText (doc_title d) (Some s)
  | KDelivery => exists p a, doc_provider d = Some p /\ doc_account d = Some a /\
      has_char ":" p = false /\ is_account a = true /\
      n = "dlv:" +:+ p +:+ ":" +:+ a +:+ ":" +:+ coordinateText (doc_title d) (doc_season d)
  end.
Proof.
  unfold documentName. destruct (negb (is_media _) || _ || _) eqn:E; [done|].
  apply orb_false_iff in E as [[E _]%orb_false_iff _]. apply negb_false_iff in E.
  intros H. split; [done|]. destruct (doc_kind d).
  - congruence.
  - destruct (doc_season d) as [s|]; [|done]. destruct (_ || _); [done|]. rewrite decide_True in H by done. exists s. split; [done|congruence].
  - destruct (match doc_season d with Some _ => _ | None => _ end); [done|]. rewrite decide_False in H by done.
    destruct (doc_provider d) as [p|]; [|done]. destruct (doc_account d) as [a|]; [|done].
    destruct (negb (truthy p) || has_char ":" p) eqn:Ep; [done|]. apply orb_false_iff in Ep as [_ Ep].
    destruct (is_account a) eqn:Ea; cbn [negb] in H; [|done]. exists p, a. repeat split; congruence.
Qed.

Lemma rowName_parts `{NamePolicy} row i :
  row_ident row = Some i -> exists n, rowName row = Ok n /\ split_on ":" n = ident_parts i.
Proof.
  destruct row as [r|r|r|d]; cbn [rowName row_ident].
  - destruct (is_media _) eqn:E; [|done]. intros [= <-]. eexists; split; [done|].
    apply is_media_no_colon in E. change ("rec:" +:+ ?x) with ("rec" +:+ ":" +:+ x).
    rewrite split_cons_lit by done. by rewrite split_titleText.
  - destruct (is_media _) eqn:E; [|done]. intros [= <-]. eexists; split; [done|].
    apply is_media_no_colon in E. change ("ep:" +:+ ?x) with ("ep" +:+ ":" +:+ x). unfold titleText.
    rewrite !string_app_assoc, !split_cons_lit by (first [done|by apply Z_str_no_char]).
    by rewrite split_last by (by apply Z_str_no_char).
  - intros [= <-]. eexists; split; [done|]. change ("set:" +:+ ?x) with ("set" +:+ ":" +:+ x). by rewrite split_cons_lit.
  - destruct (documentName d) as [n|] eqn:E; [|done]. intros [= <-]. exists n. split; [done|].
    apply documentName_cases in E as [Em%is_media_no_colon Hk]. destruct (doc_kind d).
    + subst n. change ("title:" +:+ ?x) with ("title" +:+ ":" +:+ x). rewrite split_cons_lit by done. by rewrite split_titleText.
    + destruct Hk as (s & -> & ->). change ("season:" +:+ ?x) with ("season" +:+ ":" +:+ x).
      rewrite split_cons_lit by done. by rewrite split_coordinate.
    + destruct Hk as (p & a & -> & -> & Hp & Ha%account_no_colon & ->). change ("dlv:" +:+ ?x) with ("dlv" +:+ ":" +:+ x).
      rewrite !split_cons_lit by done. by rewrite split_coordinate.
Qed.

Lemma split_on_inj c s t : split_on c s = split_on c t -> s = t.
Proof.
  revert t. induction s as [|x s IH]; intros [|y t]; simpl; try done.
  - case_decide; [|by destruct (split_on c t)]. intros [= Hs]. by apply eq_sym, split_on_ne in Hs.
  - case_decide; [|by destruct (split_on c s)]. intros [= Hs]. by apply split_on_ne in Hs.
  - pose proof (split_on_ne c s). pose proof (split_on_ne c t).
    destruct (decide (c = x)) as [<-|Hx], (decide (c = y)) as [<-|Hy].
    + intros [= Ht]. f_equal. auto.
    + destruct (split_on c t); done.
    + destruct (split_on c s); done.
    + specialize (IH t). destruct (split_on c s), (split_on c t); try done. intros [= -> -> ->]. f_equal. auto.
Qed.

Lemma ident_parts_inj i j : ident_parts i = ident_parts j -> i = j.
Proof.
  destruct i as [[]|[]| |[]|[]|? ? [] []], j as [[]|[]| |[]|[]|? ? [] []]; simpl; intros Hp;
    try discriminate Hp; simplify_eq; try done. f_equal. by eapply split_on_inj.
Qed.

(** a row's name identifies what the row is of: two rows of a film or series (or two settings rows, or
    two documents [documentName] names) with the same name are of the same kind, title, season, episode, setting group,
    provider and account. Two records never share a key. *)
Lemma rowName_identifies `{NamePolicy} (r1 r2 : Row) (i1 i2 : Ident) :
  row_ident r1 = Some i1 -> row_ident r2 = Some i2 -> rowName r1 = rowName r2 -> i1 = i2.
Proof.
  intros (n1 & Hn1 & Hs1)%rowName_parts (n2 & Hn2 & Hs2)%rowName_parts Heq.
  apply ident_parts_inj. congruence.
Qed.

Definition delivery_document : DocumentRow :=
  mkDocumentRow KDelivery 4 (mkRef "tv" 1399) (Some 2) (Some "simkl") (Some "acct_1") [].

Lemma rowName_identifies_witness :
  let _ : NamePolicy := fun _ => Throw "refused" in
  rowName (RDocument delivery_document) = Ok "dlv:simkl:acct_1:tv:1399:2"
  /\ IdDelivery "simkl" "acct_1" (mkRef "tv" 1399) (Some 2) = IdDelivery "simkl" "acct_1" (mkRef "tv" 1399) (Some 2).
Proof.
  intros np. split; [reflexivity|].
  apply (rowName_identifies (H:=np) (RDocument delivery_document) (RDocument delivery_document)); reflexivity.
Defined.
