(* ===== verification/Clock.v ===== *)
(** * The device clock ([wire.ts] [Clock], [web/src/lib/clock.ts], [web/src/lib/clockStore.ts])

    A hybrid logical clock: den-core issues the next stamp, the clock keeps the last one issued or seen.
    [clockStore.ts] keeps it in the vault every tab and worker of a browser shares. A stored value is
    modelled by what [JSON.parse] makes of its bytes: [Some json], or [None] where it throws. *)

From S2P Require Import Prelude JsMap JsText Json Wire.

(** ** [Clock] *)

(** den-core's [issue]: the stamp after [last] for [device] at [now]. *)
Class ClockPolicy := policy_issue : Stamp -> Z -> string -> res Stamp.

Record Clock : Type := mkClock { ck_device : string; ck_last : Stamp }.

Definition Clock_issue `{ClockPolicy} (c : Clock) (now : Z) : res (Stamp * Clock) :=
  let! s := policy_issue (ck_last c) now (ck_device c) in
  Ok (s, mkClock (ck_device c) s).

Definition Clock_see (c : Clock) (s : Stamp) : Clock :=
  if 0 <? compareStamps s (ck_last c) then mkClock (ck_device c) s else c.

(** ** Validation *)

Definition lower_hex (c : ascii) : bool :=
  let n := Ascii.nat_of_ascii c in is_digit c || ((97 <=? n) && (n <=? 102))%nat.

(** [/^[0-9a-f]{16}$/] *)
Definition hex16 (s : string) : bool := (String.length s =? 16)%nat && all_chars lower_hex s.

Definition validDevice (value : option json) : option string :=
  match value with
  | Some (JStr s) => if hex16 s then Some s else None
  | _ => None
  end.

Definition safe_nat (q : Qc) : option Z :=
  match qc_int q with
  | Some z => if safeCount z then Some z else None
  | None => None
  end.

Definition validStamp (value : option json) : option Stamp :=
  match value with
  | Some (JArr [JNum t; JNum c; JStr d]) =>
    match safe_nat t, safe_nat c with Some t, Some c => Some (mkStamp t c d) | _, _ => None end
  | _ => None
  end.

Definition isStamp (value : json) : bool :=
  match value with JArr [JNum _; JNum _; JStr _] => true | _ => false end.

(** ** The stored clock *)

Record StoredClock : Type := mkStored { sc_device : string; sc_last : Stamp; sc_historical : Z }.

Abbreviation stored := (option json).

(** [candidate.historicalCounter ?? 0], refused unless a safe natural. *)
Definition readCounter (value : option json) : option Z :=
  match value with
  | None | Some JNull => Some 0
  | Some (JNum q) => safe_nat q
  | Some _ => None
  end.

Definition decode (bytes : option stored) : option StoredClock :=
  match bytes with
  | Some (Some (JObj l as value)) =>
    if decide (jget "version" value = Some (jint 1)) then
      match validDevice (jget "device" value), validStamp (jget "last" value) with
      | Some device, Some last =>
        match readCounter (jget "historicalCounter" value) with
        | Some n => Some (mkStored device last n)
        | None => None
        end
      | _, _ => None
      end
    else None
  | _ => None
  end.

Definition encode (c : StoredClock) : stored :=
  Some (JObj [("version", jint 1); ("device", JStr (sc_device c)); ("last", stamp_json (sc_last c));
              ("historicalCounter", jint (sc_historical c))]).

(** ** [openClockStore] *)

Record Legacy : Type := mkLegacy { lg_device : option json; lg_last : option json }.

Definition seed (legacy : Legacy) (created : string) : res StoredClock :=
  let device := default created (validDevice (lg_device legacy)) in
  if negb (hex16 device) then Throw "clock device must be 16 lowercase hexadecimal characters"
  else Ok (mkStored device (default ZERO_STAMP (validStamp (lg_last legacy))) 0).

(** The vault's cell for the clock's key, and what an opened store keeps of it. *)
Record Cell : Type := mkCell { cell_vault : option stored; cell_state : StoredClock }.

(** Opening: durable state wins, else the seed is written ([update], or [put] under the lock). *)
Definition openClockStore (legacy : Legacy) (created : string) (vault : option stored) : res Cell :=
  match decode vault with
  | Some durable => Ok (mkCell vault durable)
  | None =>
    let! seeded := seed legacy created in
    match decode (Some (encode seeded)) with
    | Some opened => Ok (mkCell (Some (encode seeded)) opened)
    | None => Throw "atomic clock update returned invalid state"
    end
  end.

(** [atomically(change)]; a change that answers its argument itself is [None]. An answer, the vault and the
    state afterwards. *)
Definition atomically (change : StoredClock -> res (option StoredClock)) (c : Cell) : Cell * res StoredClock :=
  let durable := default (cell_state c) (decode (cell_vault c)) in
  match change durable with
  | Throw m => (c, Throw m)
  | Ok changed =>
    let bytes := match cell_vault c, changed with
                 | Some current, None => current
                 | _, _ => encode (default durable changed)
                 end in
    match decode (Some bytes) with
    | None => (mkCell (Some bytes) (cell_state c), Throw "atomic clock update returned invalid state")
    | Some d => (mkCell (Some bytes) d, Ok d)
    end
  end.

(** [refresh()] under the lock: the durable state, or the in-memory one written back. *)
Definition refresh (c : Cell) : Cell :=
  match decode (cell_vault c) with
  | Some durable => mkCell (cell_vault c) durable
  | None => mkCell (Some (encode (cell_state c))) (cell_state c)
  end.

Definition with_last (c : StoredClock) (s : Stamp) : StoredClock := mkStored (sc_device c) s (sc_historical c).

Definition commit (c : Cell) (next : StoredClock) : Cell := mkCell (Some (encode next)) next.

Definition issue_change `{ClockPolicy} (now : Z) (c : StoredClock) : res (option StoredClock) :=
  let! issued := Clock_issue (mkClock (sc_device c) (sc_last c)) now in
  Ok (Some (with_last c issued.1)).

Definition see_change (s : Stamp) (c : StoredClock) : res (option StoredClock) :=
  Ok (if 0 <? compareStamps s (sc_last c) then Some (with_last c s) else None).

(** The stamps [historical] reserves: each imported time with the next counters. *)
Definition reserved_stamps (c : StoredClock) (ms : list Z) : list Stamp :=
  imap (fun index at_ => mkStamp at_ (sc_historical c + Z.of_nat index + 1) (sc_device c)) ms.

Definition reserve (ms : list Z) (c : StoredClock) : res (option StoredClock) :=
  if MAX_SAFE_INTEGER <? sc_historical c + Z.of_nat (length ms) then Throw "historical clock counter exhausted"
  else
    let reserved := reserved_stamps c ms in
    let newest := foldl (fun last s => if 0 <? compareStamps s last then s else last) (sc_last c) reserved in
    Ok (Some (mkStored (sc_device c) newest (sc_historical c + Z.of_nat (length reserved)))).

Inductive ClockOp : Type :=
| OpIssue (now : Z)
| OpHistorical (ms : list Z)
| OpSee (s : Stamp)
| OpCurrent.

Definition stamp_ok (s : Stamp) : bool := safeCount (st_t s) && safeCount (st_c s).

(** One operation of an opened store, run alone: [vault.update] is atomic, and without it every operation holds the
    lock. [atomic] says whether the vault has [update]. A browser with neither [update] nor Web Locks runs operations
    of several tabs unlocked; that is not modelled. *)
Definition run_op `{ClockPolicy} (atomic : bool) (op : ClockOp) (c : Cell) : Cell * res (list Stamp) :=
  match op with
  | OpIssue now =>
    if atomic then
      let '(c', r) := atomically (issue_change now) c in
      (c', let! updated := r in Ok [sc_last updated])
    else
      let c1 := refresh c in
      match issue_change now (cell_state c1) with
      | Ok (Some next) => (commit c1 next, Ok [sc_last next])
      | Ok None => (c1, Ok [])
      | Throw m => (c1, Throw m)
      end
  | OpHistorical ms =>
    if existsb (fun v => negb (safeCount v)) ms then (c, Throw "invalid historical clock time")
    else if (length ms =? 0)%nat then (c, Ok [])
    else if atomic then
      let durable := default (cell_state c) (decode (cell_vault c)) in
      let '(c', r) := atomically (reserve ms) c in
      (c', let! _ := r in Ok (reserved_stamps durable ms))
    else
      let c1 := refresh c in
      match reserve ms (cell_state c1) with
      | Ok (Some next) => (commit c1 next, Ok (reserved_stamps (cell_state c1) ms))
      | Ok None => (c1, Ok [])
      | Throw m => (c1, Throw m)
      end
  | OpSee s =>
    if negb (stamp_ok s) then (c, Throw "invalid clock stamp")
    else if atomic then
      let '(c', r) := atomically (see_change s) c in (c', let! _ := r in Ok [])
    else
      let c1 := refresh c in
      match see_change s (cell_state c1) with
      | Ok (Some next) => (commit c1 next, Ok [])
      | Ok None => (c1, Ok [])
      | Throw m => (c1, Throw m)
      end
  | OpCurrent =>
    if atomic then
      let '(c', r) := atomically (fun current => Ok None) c in (c', let! d := r in Ok [sc_last d])
    else let c1 := refresh c in (c1, Ok [sc_last (cell_state c1)])
  end.

(** ** Several tabs on one vault

    A world is the vault's cell and the state each opened store keeps; a run is any interleaving of their
    operations, each an (instance, operation) pair. *)
Record World : Type := mkWorld { w_vault : option stored; w_states : list StoredClock }.

Inductive Event : Type :=
| EIssued (s : Stamp)
| EReserved (l : list Stamp)
| ESaw (s : Stamp)
| ERead (s : Stamp)
| EFailed (msg : string).

Definition event_of (op : ClockOp) (r : res (list Stamp)) : Event :=
  match r, op with
  | Throw m, _ => EFailed m
  | Ok [s], OpIssue _ => EIssued s
  | Ok [s], OpCurrent => ERead s
  | Ok l, OpHistorical _ => EReserved l
  | Ok _, OpSee s => ESaw s
  | Ok _, _ => EFailed ""
  end.

Definition world_step `{ClockPolicy} (atomic : bool) (w : World) (call : nat * ClockOp) : World * list Event :=
  match w_states w !! call.1 with
  | None => (w, [])
  | Some st =>
    let '(c, r) := run_op atomic call.2 (mkCell (w_vault w) st) in
    (mkWorld (cell_vault c) (<[call.1 := cell_state c]> (w_states w)), [event_of call.2 r])
  end.

Fixpoint world_run `{ClockPolicy} (atomic : bool) (w : World) (calls : list (nat * ClockOp)) : World * list Event :=
  match calls with
  | [] => (w, [])
  | call :: calls =>
    let '(w1, e1) := world_step atomic w call in
    let '(w2, e2) := world_run atomic w1 calls in
    (w2, e1 ++ e2)
  end.

(** What den-core documents of [issue]: the stamp is the device's and later than the last, and a clock
    within the safe integers stays within them (or [issue] throws). *)
Class ClockLaws `{ClockPolicy} : Prop := {
  issue_after : forall last now device s, policy_issue last now device = Ok s -> stamp_lt last s;
  issue_device : forall last now device s, policy_issue last now device = Ok s -> st_d s = device;
  issue_safe : forall last now device s,
    stamp_ok last = true -> policy_issue last now device = Ok s -> stamp_ok s = true;
}.

(** ** Encoding *)

#[local] Arguments decode : simpl never.
#[local] Arguments encode : simpl never.

Definition clock_ok (d : StoredClock) : Prop :=
  hex16 (sc_device d) = true /\ stamp_ok (sc_last d) = true /\ safeCount (sc_historical d) = true.

Lemma safe_nat_jint z : safe_nat (Q2Qc (QArith_base.inject_Z z)) = if safeCount z then Some z else None.
Proof. unfold safe_nat. by rewrite qc_int_inject. Qed.

Lemma validStamp_json s : stamp_ok s = true -> validStamp (Some (stamp_json s)) = Some s.
Proof.
  unfold stamp_ok. intros [H1 H2]%andb_true_iff. unfold validStamp, stamp_json, jint. rewrite !safe_nat_jint, H1, H2. by destruct s.
Qed.

Lemma decode_encode d : clock_ok d -> decode (Some (encode d)) = Some d.
Proof.
  intros (H1 & H2 & H3). unfold decode, encode.
  set (l := [("version", jint 1); _; _; _]).
  assert (jget "version" (JObj l) = Some (jint 1)) as -> by done.
  assert (jget "device" (JObj l) = Some (JStr (sc_device d))) as -> by done.
  assert (jget "last" (JObj l) = Some (stamp_json (sc_last d))) as -> by done.
  assert (jget "historicalCounter" (JObj l) = Some (jint (sc_historical d))) as -> by done.
  rewrite decide_True by done. rewrite validStamp_json by done. unfold validDevice. rewrite H1.
  unfold readCounter, jint. rewrite safe_nat_jint, H3. by destruct d.
Qed.

Lemma safe_nat_safe q z : safe_nat q = Some z -> safeCount z = true.
Proof. unfold safe_nat. destruct (qc_int q) as [y|]; [|done]. destruct (safeCount y) eqn:E; [|done]. by intros [= <-]. Qed.

Lemma validStamp_ok v s : validStamp v = Some s -> stamp_ok s = true.
Proof.
  unfold validStamp. repeat (case_match; try done). intros [= <-]. unfold stamp_ok; cbn.
  repeat match goal with H : safe_nat _ = Some _ |- _ => apply safe_nat_safe in H; rewrite H end. done.
Qed.

Lemma validDevice_ok v s : validDevice v = Some s -> hex16 s = true.
Proof. unfold validDevice. repeat (case_match; try done). by intros [= <-]. Qed.

Lemma decode_ok v d : decode v = Some d -> clock_ok d.
Proof.
  unfold decode. repeat (case_match; try done). intros [= <-]. split; [by eapply validDevice_ok|].
  split; [by eapply validStamp_ok|]. cbn.
  match goal with H : readCounter _ = Some _ |- _ => revert H end. unfold readCounter.
  repeat (case_match; try done); try (intros [= Hz]; by subst). apply safe_nat_safe.
Qed.

(** ** One operation on a valid vault *)

Section Laws.
Context `{ClockLaws}.

(** The stamps an event hands out or records. *)
Definition event_stamps (e : Event) : list Stamp :=
  match e with
  | EIssued s | ESaw s | ERead s => [s]
  | EReserved l => l
  | EFailed _ => []
  end.

Definition reserved_of (e : Event) : list Stamp := match e with EReserved l => l | _ => [] end.

(** What an operation may do to the durable clock, by the event it answers with. *)
Definition event_effect (d : StoredClock) (e : Event) (d' : StoredClock) : Prop :=
  stamp_le (sc_last d) (sc_last d') /\ sc_device d' = sc_device d /\
  (forall s, s ∈ event_stamps e -> stamp_le s (sc_last d')) /\
  match e with
  | EIssued s => stamp_lt (sc_last d) s /\ sc_last d' = s /\ st_d s = sc_device d /\ sc_historical d' = sc_historical d
  | EReserved l => sc_historical d' = sc_historical d + Z.of_nat (length l) /\
      st_c <$> l = imap (fun i _ => sc_historical d + Z.of_nat i + 1) l /\ Forall (fun s => st_d s = sc_device d) l
  | ESaw _ => sc_historical d' = sc_historical d
  | ERead _ | EFailed _ => d' = d
  end.

(** What a store keeps of the clock after it: the durable clock, unless it failed or had nothing to reserve. *)
Definition cached (e : Event) (st d' st' : StoredClock) : Prop :=
  st' = d' \/ st' = st /\ match e with EFailed _ | EReserved [] => True | _ => False end.

Lemma issue_change_effect now d d' :
  clock_ok d -> issue_change now d = Ok (Some d') -> clock_ok d' /\ event_effect d (EIssued (sc_last d')) d'.
Proof.
  intros (H1 & H2 & H3). unfold issue_change, Clock_issue. cbn.
  destruct (policy_issue _ _ _) as [s|] eqn:Hs; cbn; [|done]. intros [= <-].
  pose proof (issue_after _ _ _ _ Hs). pose proof (issue_device _ _ _ _ Hs). pose proof (issue_safe _ _ _ _ H2 Hs).
  split; [done|]. split; [by apply stamp_lt_le|]. split; [done|]. split; [|done].
  intros t ->%list_elem_of_singleton. reflexivity.
Qed.

Lemma see_change_effect s d r :
  clock_ok d -> stamp_ok s = true -> see_change s d = Ok r ->
  clock_ok (default d r) /\ event_effect d (ESaw s) (default d r).
Proof.
  intros (H1 & H2 & H3) Hs. unfold see_change. intros [= <-].
  destruct (Z.ltb_spec 0 (compareStamps s (sc_last d))) as [Hlt|Hle]; cbn [default from_option id].
  - split; [done|]. apply compareStamps_antisym in Hlt. split; [by apply stamp_lt_le|]. split; [done|].
    split; [|done]. intros t ->%list_elem_of_singleton. reflexivity.
  - split; [done|]. split; [reflexivity|]. split; [done|]. split; [|done]. intros t ->%list_elem_of_singleton. done.
Qed.

Lemma reserved_counters d ms : st_c <$> reserved_stamps d ms = imap (fun i _ => sc_historical d + Z.of_nat i + 1) (reserved_stamps d ms).
Proof. unfold reserved_stamps. apply list_eq. intros i. rewrite list_lookup_fmap, !list_lookup_imap. by destruct (ms !! i). Qed.

Lemma reserve_newest l a :
  foldl (fun last s => if 0 <? compareStamps s last then s else last) a l = foldl later a l.
Proof. done. Qed.

Lemma reserve_effect ms d d' :
  clock_ok d -> Forall (fun v => safeCount v = true) ms -> reserve ms d = Ok (Some d') ->
  clock_ok d' /\ event_effect d (EReserved (reserved_stamps d ms)) d'.
Proof.
  intros (H1 & H2 & H3) Hms. unfold reserve.
  destruct (Z.ltb_spec MAX_SAFE_INTEGER (sc_historical d + Z.of_nat (length ms))) as [|Hle]; [done|].
  intros [= <-]. rewrite reserve_newest. set (l := reserved_stamps d ms).
  assert (Hlen : length l = length ms) by apply length_imap.
  assert (Hin : forall s, s ∈ l -> stamp_ok s = true /\ st_d s = sc_device d).
  { intros s (i & Hi)%list_elem_of_lookup. unfold l, reserved_stamps in Hi. rewrite list_lookup_imap in Hi.
    destruct (ms !! i) as [v|] eqn:Hv; [|done]. injection Hi as <-. split; [|done]. unfold stamp_ok; cbn.
    rewrite (Forall_lookup_1 _ _ _ _ Hms Hv). apply lookup_lt_Some in Hv.
    unfold safeCount in *. apply andb_true_iff in H3 as [H3 _]. apply andb_true_iff. split; lia. }
  destruct (foldl_later_spec l (sc_last d)) as (F1 & F2 & F3). unfold clock_ok, event_effect; cbn.
  split; [split; [done|]; split|].
  - destruct F3 as [->|F3]; [done|]. by apply Hin.
  - rewrite Hlen. unfold safeCount in *. apply andb_true_iff in H3 as [H3 _]. apply andb_true_iff. split; lia.
  - split; [done|]. split; [done|]. split; [done|]. split; [done|]. split; [apply reserved_counters|].
    apply Forall_forall. intros s Hs. by apply Hin.
Qed.

(** The effect of the state change an operation asks for, whichever way the vault is written. *)
Lemma atomically_effect change c d (E : StoredClock -> Prop) :
  decode (cell_vault c) = Some d ->
  (forall r, change d = Ok r -> clock_ok (default d r) /\ E (default d r)) ->
  let '(c', r) := atomically change c in
  match r with
  | Ok d' => decode (cell_vault c') = Some d' /\ E d' /\ cell_state c' = d'
  | Throw _ => decode (cell_vault c') = Some d /\ cell_state c' = cell_state c
  end.
Proof.
  intros Hd Hc. unfold atomically. rewrite Hd. cbn [default from_option id].
  destruct (change d) as [o|m] eqn:Ho; [|done]. destruct (Hc o eq_refl) as [Hok HE].
  destruct (cell_vault c) as [v|] eqn:Hv; [|done]. destruct o as [d1|]; cbn [default from_option id] in *.
  - rewrite decode_encode by done. cbn. split; [by rewrite decode_encode|done].
  - rewrite Hd. cbn. done.
Qed.

Lemma refresh_valid c d : decode (cell_vault c) = Some d -> refresh c = mkCell (cell_vault c) d.
Proof. unfold refresh. by intros ->. Qed.

Lemma existsb_safe ms : existsb (fun v => negb (safeCount v)) ms = false -> Forall (fun v => safeCount v = true) ms.
Proof.
  induction ms as [|v ms IH]; cbn; [constructor|]. rewrite orb_false_iff, negb_false_iff. intros [H1 H2].
  constructor; auto.
Qed.

Lemma effect_refl d e : event_stamps e = [] -> (match e with EFailed _ => True | _ => False end) -> event_effect d e d.
Proof. intros He ?. destruct e; try done. split; [reflexivity|]. split; [done|]. split; [set_solver|done]. Qed.

Lemma read_effect d : event_effect d (ERead (sc_last d)) d.
Proof. split; [reflexivity|]. split; [done|]. split; [|done]. intros s ->%list_elem_of_singleton. reflexivity. Qed.

Lemma empty_effect d : event_effect d (EReserved []) d.
Proof. split; [reflexivity|]. split; [done|]. split; [set_solver|]. split; [cbn; lia|]. split; [done|constructor]. Qed.

Lemma issue_effect atomic now c d :
  decode (cell_vault c) = Some d ->
  let '(c', r) := run_op atomic (OpIssue now) c in
  exists d', decode (cell_vault c') = Some d' /\ event_effect d (event_of (OpIssue now) r) d' /\ cached (event_of (OpIssue now) r) (cell_state c) d' (cell_state c').
Proof.
  intros Hd. pose proof (decode_ok _ _ Hd) as Hok. cbn [run_op]. destruct atomic.
  - pose proof (atomically_effect (issue_change now) c d (fun d' => event_effect d (EIssued (sc_last d')) d') Hd) as Ha.
    destruct (atomically (issue_change now) c) as [c' [d'|m]]; cbn.
    + destruct Ha as (H1 & H2 & Hst); [|by exists d'; split_and!; [..|left]].
      intros o Ho. destruct o as [d1|]; [by eapply issue_change_effect|].
      unfold issue_change in Ho. by apply res_bind_Ok in Ho as (? & _ & ?).
    + exists d. destruct Ha as [H1 Hst]; [|by split_and!; [|by apply effect_refl|right]]. intros o Ho. destruct o as [d1|]; [by eapply issue_change_effect|].
      unfold issue_change in Ho. by apply res_bind_Ok in Ho as (? & _ & ?).
  - rewrite (refresh_valid c d Hd). cbn [cell_state]. destruct (issue_change now d) as [[d1|]|m] eqn:Hi; cbn.
    + apply issue_change_effect in Hi as [Hok1 He]; [|done]. exists d1. rewrite decode_encode by done. split_and!; [done|done|by left].
    + unfold issue_change in Hi. by apply res_bind_Ok in Hi as (? & _ & ?).
    + exists d. split_and!; [done|by apply effect_refl|by left].
Qed.

Lemma see_effect atomic s c d :
  decode (cell_vault c) = Some d ->
  let '(c', r) := run_op atomic (OpSee s) c in
  exists d', decode (cell_vault c') = Some d' /\ event_effect d (event_of (OpSee s) r) d' /\ cached (event_of (OpSee s) r) (cell_state c) d' (cell_state c').
Proof.
  intros Hd. pose proof (decode_ok _ _ Hd) as Hok. cbn [run_op]. destruct (stamp_ok s) eqn:Hs; cbn [negb].
  2: { exists d. split_and!; [done|by apply effect_refl|by right]. }
  destruct atomic.
  - pose proof (atomically_effect (see_change s) c d (event_effect d (ESaw s)) Hd
                  (fun r => see_change_effect s d r Hok Hs)) as Ha.
    destruct (atomically (see_change s) c) as [c' [d'|m]]; cbn.
    + destruct Ha as (H1 & H2 & Hst). exists d'. split_and!; [done|done|by left].
    + destruct Ha as [H1 Hst]. exists d. split_and!; [done|by apply effect_refl|by right].
  - rewrite (refresh_valid c d Hd). cbn [cell_state].
    pose proof (see_change_effect s d _ Hok Hs eq_refl) as [Hok1 He].
    cbn [see_change]. destruct (0 <? compareStamps s (sc_last d)); cbn in *.
    + eexists. rewrite decode_encode by done. split_and!; [done|done|by left].
    + exists d. split_and!; [done|done|by left].
Qed.

Lemma historical_effect atomic ms c d :
  decode (cell_vault c) = Some d ->
  let '(c', r) := run_op atomic (OpHistorical ms) c in
  exists d', decode (cell_vault c') = Some d' /\ event_effect d (event_of (OpHistorical ms) r) d' /\ cached (event_of (OpHistorical ms) r) (cell_state c) d' (cell_state c').
Proof.
  intros Hd. pose proof (decode_ok _ _ Hd) as Hok. cbn [run_op].
  destruct (existsb _ ms) eqn:Hex; [exists d; split_and!; [done|by apply effect_refl|by right]|]. apply existsb_safe in Hex.
  destruct (Nat.eqb_spec (length ms) 0); [exists d; split_and!; [done|apply empty_effect|by right]|].
  assert (Hre : forall o, reserve ms d = Ok o -> exists d', o = Some d').
  { unfold reserve. intros o. destruct (_ <? _); [done|]. intros [= <-]. eauto. }
  assert (Hev : forall l, event_of (OpHistorical ms) (Ok l) = EReserved l) by (by intros [|? []]).
  destruct atomic.
  - rewrite Hd. cbn [default from_option id].
    pose proof (atomically_effect (reserve ms) c d (event_effect d (EReserved (reserved_stamps d ms))) Hd) as Ha.
    assert (Hpre : forall r, reserve ms d = Ok r ->
      clock_ok (default d r) /\ event_effect d (EReserved (reserved_stamps d ms)) (default d r)).
    { intros r Hr. destruct (Hre r Hr) as [d1 ->]. by eapply reserve_effect. }
    specialize (Ha Hpre). destruct (atomically (reserve ms) c) as [c' [d'|m]]; cbn [res_bind].
    + destruct Ha as (H1 & H2 & Hst). exists d'. rewrite Hev. split_and!; [done|done|by left].
    + destruct Ha as [H1 Hst]. exists d. split_and!; [done|by apply effect_refl|by right].
  - rewrite (refresh_valid c d Hd). cbn [cell_state]. destruct (reserve ms d) as [o|m] eqn:Hr.
    + destruct (Hre o eq_refl) as [d1 ->]. apply reserve_effect in Hr as [Hok1 He]; [|done..].
      exists d1. rewrite Hev. cbn [cell_vault cell_state commit]. rewrite decode_encode by done. split_and!; [done|done|by left].
    + exists d. split_and!; [done|by apply effect_refl|by left].
Qed.

Lemma run_op_effect atomic op c d :
  decode (cell_vault c) = Some d ->
  let '(c', r) := run_op atomic op c in
  exists d', decode (cell_vault c') = Some d' /\ event_effect d (event_of op r) d' /\ cached (event_of op r) (cell_state c) d' (cell_state c').
Proof.
  destruct op as [now|ms|s|]; [apply issue_effect|apply historical_effect|apply see_effect|].
  intros Hd. cbn [run_op]. destruct atomic.
  - pose proof (atomically_effect (fun _ => Ok None) c d (fun d' => d' = d) Hd) as Ha.
    specialize (Ha ltac:(intros r [= <-]; split; [by eapply decode_ok|done])).
    destruct (atomically _ c) as [c' [d'|m]]; cbn.
    + destruct Ha as (H1 & -> & Hst). exists d. split_and!; [done|apply read_effect|by left].
    + destruct Ha as [H1 Hst]. exists d. split_and!; [done|by apply effect_refl|by right].
  - rewrite (refresh_valid c d Hd). cbn. exists d. split_and!; [done|apply read_effect|by left].
Qed.

(** ** Interleavings *)

(** [e'] comes after [e]: a stamp issued then is later than every stamp [e] handed out or recorded. *)
Definition issued_after (e e' : Event) : Prop :=
  match e' with EIssued s => forall t, t ∈ event_stamps e -> stamp_lt t s | _ => True end.

Definition counters (es : list Event) : list Z := st_c <$> concat (reserved_of <$> es).

(** A cached clock at or behind the durable one. *)
Definition behind (d st : StoredClock) : Prop := stamp_le (sc_last st) (sc_last d) /\ sc_historical st <= sc_historical d.

Lemma effect_behind d e d' : event_effect d e d' -> behind d' d.
Proof. intros (Hle & _ & _ & Hm). split; [done|]. destruct e; cbn in Hm; destruct_and?; subst; lia. Qed.

Lemma behind_trans d d' st : behind d' d -> behind d st -> behind d' st.
Proof. intros [H1 H2] [H3 H4]. split; [by etrans|lia]. Qed.

Lemma world_step_effect atomic w call d :
  decode (w_vault w) = Some d ->
  let '(w', es) := world_step atomic w call in
  exists d', decode (w_vault w') = Some d' /\
    ((es = [] /\ d' = d /\ w_states w' = w_states w /\ w_states w !! call.1 = None) \/
     exists e st st', es = [e] /\ event_effect d e d' /\ w_states w !! call.1 = Some st /\
       w_states w' = <[call.1 := st']> (w_states w) /\ cached e st d' st').
Proof.
  intros Hd. unfold world_step. destruct (w_states w !! call.1) as [st|] eqn:Hst; [|exists d; split; [done|by left]].
  pose proof (run_op_effect atomic call.2 (mkCell (w_vault w) st) d Hd) as He.
  destruct (run_op _ _ _) as [c r]. destruct He as (d' & H1 & H2 & H3). exists d'. split; [done|]. right. by exists (event_of call.2 r), st, (cell_state c).
Qed.

(** The clocks the stores keep, over a step. *)
Lemma step_behind d e d' st st' i (states : list StoredClock) :
  event_effect d e d' -> states !! i = Some st -> cached e st d' st' -> Forall (behind d) states -> Forall (behind d') (<[i := st']> states).
Proof.
  intros He Hi Hc Hall. pose proof (effect_behind _ _ _ He) as Hb.
  assert (Hall' : Forall (behind d') states) by (eapply Forall_impl; [exact Hall|]; intros x; by apply behind_trans).
  apply Forall_insert; [done|]. destruct Hc as [->|[-> _]]; [by split|]. by eapply Forall_lookup_1 in Hall'.
Qed.

Lemma reserved_counter_bounds d e d' :
  event_effect d e d' ->
  sc_historical d <= sc_historical d' /\
  Forall (fun z => sc_historical d < z <= sc_historical d') (st_c <$> reserved_of e) /\ NoDup (st_c <$> reserved_of e).
Proof.
  intros (_ & _ & _ & Hm). destruct e as [s|l|s|s|m]; cbn [reserved_of]; cbn in Hm.
  2: { destruct Hm as (Hh & Hc & _). rewrite Hc. split; [lia|]. split.
       - apply Forall_lookup_2. intros i z. rewrite list_lookup_imap.
         destruct (l !! i) eqn:Hi; [|done]. intros [= <-]. apply lookup_lt_Some in Hi. lia.
       - apply NoDup_alt. intros i j z. rewrite !list_lookup_imap.
         destruct (l !! i); [|done]. destruct (l !! j); [|done]. intros [= <-] [= ?]. lia. }
  all: split; [try subst; lia|]; split; constructor.
Qed.

Lemma world_run_spec atomic calls w d :
  decode (w_vault w) = Some d ->
  let '(w', es) := world_run atomic w calls in
  exists d', decode (w_vault w') = Some d' /\
    stamp_le (sc_last d) (sc_last d') /\ sc_device d' = sc_device d /\
    sc_historical d <= sc_historical d' /\
    StronglySorted issued_after es /\
    (forall s, EIssued s ∈ es -> stamp_lt (sc_last d) s /\ st_d s = sc_device d) /\
    Forall (fun z => sc_historical d < z <= sc_historical d') (counters es) /\ NoDup (counters es) /\
    (Forall (behind d) (w_states w) -> Forall (behind d') (w_states w')).
Proof.
  revert w d. induction calls as [|call calls IH]; intros w d Hd; cbn [world_run].
  { exists d. split; [done|]. split; [reflexivity|]. split; [done|]. split; [done|]. split; [constructor|].
    split; [set_solver|]. split; [constructor|]. split; [constructor|done]. }
  pose proof (world_step_effect atomic w call d Hd) as Hs. destruct (world_step atomic w call) as [w1 e1].
  destruct Hs as (d1 & Hd1 & He1). specialize (IH w1 d1 Hd1). destruct (world_run atomic w1 calls) as [w2 e2].
  destruct IH as (d2 & Hd2 & Hle & Hdev & Hhist & Hss & Hiss & Hcb & Hnd & Hback). exists d2. split; [done|].
  destruct He1 as [(-> & -> & Hsame & _)|(e & st & st' & -> & He & Hst & Hset & Hcached)]; [rewrite Hsame in Hback; cbn; auto 12|].
  assert (Hback1 : Forall (behind d) (w_states w) -> Forall (behind d1) (w_states w1)) by (rewrite Hset; by eapply step_behind).
  pose proof (reserved_counter_bounds _ _ _ He) as (Hh1 & Hb1 & Hn1).
  destruct He as (Hle1 & Hdev1 & Hst1 & Hm). cbn [app].
  split; [by etrans|]. split; [congruence|]. split; [lia|]. split.
  { constructor; [done|]. apply Forall_forall. intros e' He'. unfold issued_after. destruct e' as [s| | | |]; try done.
    intros t Ht. destruct (Hiss s He') as [Hlt _]. eapply stamp_le_lt_trans; [by apply Hst1|done]. }
  split.
  { intros s [<-|Hin]%elem_of_cons; [naive_solver|]. destruct (Hiss s Hin) as [Hlt Hd']. split; [|congruence].
    by eapply stamp_le_lt_trans. }
  unfold counters in *. rewrite fmap_cons. cbn [concat]. rewrite fmap_app. split.
  - apply Forall_app. split; (eapply Forall_impl; [eassumption|]); cbn; lia.
  - split; [|auto]. apply NoDup_app. split; [done|]. split; [|done]. intros z Hz Hz'.
    rewrite Forall_forall in Hb1, Hcb. specialize (Hb1 z Hz). specialize (Hcb z Hz'). cbn in *. lia.
Qed.

Lemma world_run_app atomic w calls1 calls2 :
  world_run atomic w (calls1 ++ calls2) =
  let '(w1, e1) := world_run atomic w calls1 in let '(w2, e2) := world_run atomic w1 calls2 in (w2, e1 ++ e2).
Proof.
  revert w. induction calls1 as [|call calls1 IH]; intros w; cbn [world_run app]; [by destruct (world_run _ _ _)|].
  destruct (world_step atomic w call) as [w1 e1]. rewrite IH. destruct (world_run atomic w1 calls1) as [w2 e2].
  destruct (world_run atomic w2 calls2) as [w3 e3]. by rewrite app_assoc.
Qed.

(** The store that ran the last operation keeps the durable clock, unless it failed or had nothing to reserve. *)
Lemma last_cached atomic w calls i op d d' e :
  decode (w_vault w) = Some d -> decode (w_vault (world_run atomic w (calls ++ [(i, op)])).1) = Some d' ->
  is_Some (w_states (world_run atomic w calls).1 !! i) -> last (world_run atomic w (calls ++ [(i, op)])).2 = Some e ->
  match e with EFailed _ | EReserved [] => False | _ => True end -> w_states (world_run atomic w (calls ++ [(i, op)])).1 !! i = Some d'.
Proof.
  intros Hd Hd' [st Hst] Hlast Hgood. pose proof (world_run_spec atomic calls w d Hd) as Hrun. rewrite world_run_app in *.
  destruct (world_run atomic w calls) as [w1 e1]. destruct Hrun as (d1 & Hd1 & _). cbn [world_run] in *.
  pose proof (world_step_effect atomic w1 (i, op) d1 Hd1) as Hs. destruct (world_step atomic w1 (i, op)) as [w2 e2]. cbn [fst snd] in *.
  destruct Hs as (d2 & Hd2 & [(_ & _ & _ & Hnone)|(e' & st1 & st' & -> & _ & Hst1 & Hset & Hc)]); [congruence|].
  rewrite app_nil_r, last_snoc in Hlast. injection Hlast as ->. assert (d2 = d') as -> by congruence.
  rewrite Hset, list_lookup_insert_eq by (by eapply lookup_lt_Some). destruct Hc as [->|[_ Hc]]; [done|]. by destruct e as [|[]| | |].
Qed.

Lemma world_run_length atomic w calls : length (w_states (world_run atomic w calls).1) = length (w_states w).
Proof.
  revert w. induction calls as [|call calls IH]; intros w; cbn [world_run]; [done|].
  destruct (world_step atomic w call) as [w1 e1] eqn:Hs. specialize (IH w1). destruct (world_run atomic w1 calls) as [w2 e2]. cbn in *.
  rewrite IH. unfold world_step in Hs. destruct (w_states w !! call.1); [|by injection Hs as <- _].
  destruct (run_op _ _ _) as [c r]. injection Hs as <- _. cbn. apply length_insert.
Qed.

(** C31: however the operations of any number of tabs interleave on one vault, each operation whole (as the vault's
    atomic update, or the lock every operation then holds, makes it), every stamp issued is this device's and later than
    every stamp any of them issued, reserved, read or saw before; the durable clock never goes back; no historical
    counter is ever reserved twice; the clocks the tabs keep stay at or behind the durable one; and the tab that ran the
    last operation keeps the durable clock itself, unless the operation failed or had nothing to reserve. *)
Theorem clock_interleaving (atomic : bool) (w : World) (calls : list (nat * ClockOp)) (d : StoredClock) :
  decode (w_vault w) = Some d ->
  exists d', decode (w_vault (world_run atomic w calls).1) = Some d' /\
    stamp_le (sc_last d) (sc_last d') /\
    StronglySorted issued_after (world_run atomic w calls).2 /\
    (forall s, EIssued s ∈ (world_run atomic w calls).2 -> stamp_lt (sc_last d) s /\ st_d s = sc_device d) /\
    NoDup (counters (world_run atomic w calls).2) /\
    (Forall (behind d) (w_states w) -> Forall (behind d') (w_states (world_run atomic w calls).1)) /\
    (forall earlier i op e, calls = earlier ++ [(i, op)] -> (i < length (w_states w))%nat -> last (world_run atomic w calls).2 = Some e ->
       match e with EFailed _ | EReserved [] => False | _ => True end -> w_states (world_run atomic w calls).1 !! i = Some d').
Proof.
  intros Hd. pose proof (world_run_spec atomic calls w d Hd) as Hs. pose proof (fun earlier i op => last_cached atomic w earlier i op d) as Hl.
  destruct (world_run atomic w calls) as [w' es] eqn:Hrun. destruct Hs as (d' & Hd' & Hle & _ & _ & Hss & Hiss & _ & Hnd & Hback).
  exists d'. split_and!; try done. intros earlier i op e -> Hi Hlast Hgood. specialize (Hl earlier i op d' e Hd). rewrite Hrun in Hl.
  apply Hl; [done| |done..]. apply lookup_lt_is_Some. by rewrite world_run_length.
Qed.

(** a store opens exactly when the vault holds a valid clock or the seed's device is 16 lowercase hex
    digits; what it opens with is durable: the vault then decodes to it, a valid durable clock is kept untouched, and
    otherwise the legacy device and stamp (or a new device and the zero stamp) are written. *)
Lemma openClockStore_durable (legacy : Legacy) (created : string) (vault : option stored) (c : Cell) :
  openClockStore legacy created vault = Ok c ->
  decode (cell_vault c) = Some (cell_state c) /\ clock_ok (cell_state c) /\
  (forall d, decode vault = Some d -> cell_vault c = vault /\ cell_state c = d) /\
  (decode vault = None ->
     sc_device (cell_state c) = default created (validDevice (lg_device legacy)) /\
     sc_last (cell_state c) = default ZERO_STAMP (validStamp (lg_last legacy)) /\ sc_historical (cell_state c) = 0).
Proof.
  unfold openClockStore. destruct (decode vault) as [d|] eqn:Hd.
  { intros [= <-]. cbn. split; [done|]. split; [by eapply decode_ok|]. split; [|done]. naive_solver. }
  unfold seed. destruct (hex16 _) eqn:Hx; cbn [negb res_bind]; [|done].
  set (sd := mkStored _ _ _). assert (clock_ok sd) as Hok.
  { split; [done|]. split; [|done]. cbn. destruct (validStamp (lg_last legacy)) eqn:Hv; [|done]. by eapply validStamp_ok. }
  rewrite decode_encode by done. intros [= <-]. cbn. split; [by apply decode_encode|]. split; [done|]. split; [done|]. done.
Qed.
End Laws.

(** A policy that meets the laws: the next millisecond of the clock or of the last stamp, whichever is later. *)
Definition hlc_issue : ClockPolicy := fun last now device =>
  let t := Z.max now (st_t last + 1) in
  if safeCount t then Ok (mkStamp t 0 device) else Throw "clock_exhausted".

#[local] Existing Instance hlc_issue.

#[local] Instance hlc_laws : ClockLaws.
Proof.
  split; unfold policy_issue, hlc_issue; intros last now device s; destruct (safeCount _) eqn:E; try done; intros.
  - simplify_eq. apply compareStamps_lt. left. cbn. lia.
  - by simplify_eq.
  - simplify_eq. unfold stamp_ok. cbn. by rewrite E.
Qed.

Definition two_tabs : World :=
  mkWorld (Some (encode (mkStored "0123456789abcdef" ZERO_STAMP 0)))
          [mkStored "0123456789abcdef" ZERO_STAMP 0; mkStored "0123456789abcdef" ZERO_STAMP 0].

Definition two_tabs_calls : list (nat * ClockOp) := [(0%nat, OpIssue 10); (1%nat, OpHistorical [7; 7]); (1%nat, OpIssue 5)].

Lemma clock_interleaving_witness :
  (world_run true two_tabs two_tabs_calls).2
    = [EIssued (mkStamp 10 0 "0123456789abcdef");
       EReserved [mkStamp 7 1 "0123456789abcdef"; mkStamp 7 2 "0123456789abcdef"];
       EIssued (mkStamp 11 0 "0123456789abcdef")]
  /\ exists d', decode (w_vault (world_run true two_tabs two_tabs_calls).1) = Some d' /\
       w_states (world_run true two_tabs two_tabs_calls).1 !! 1%nat = Some d' /\ Forall (behind d') (w_states (world_run true two_tabs two_tabs_calls).1).
Proof.
  split; [vm_compute; reflexivity|].
  destruct (clock_interleaving true two_tabs two_tabs_calls (mkStored "0123456789abcdef" ZERO_STAMP 0))
    as (d' & Hd & _ & _ & _ & _ & Hb & Hl); [vm_compute; reflexivity|]. exists d'. split; [exact Hd|]. split.
  - apply (Hl [(0%nat, OpIssue 10); (1%nat, OpHistorical [7; 7])] 1%nat (OpIssue 5) (EIssued (mkStamp 11 0 "0123456789abcdef"))); vm_compute; [reflexivity|lia|reflexivity|exact I].
  - apply Hb. repeat constructor; vm_compute; discriminate.
Defined.

Lemma openClockStore_durable_witness :
  exists c, openClockStore (mkLegacy (Some (JStr "00000000000000ff")) None) "" None = Ok c
  /\ decode (cell_vault c) = Some (cell_state c) /\ sc_device (cell_state c) = "00000000000000ff".
Proof.
  eexists. split; [vm_compute; reflexivity|]. split; [|vm_compute; reflexivity].
  apply (openClockStore_durable (mkLegacy (Some (JStr "00000000000000ff")) None) "" None). vm_compute. reflexivity.
Defined.
