(* ===== verification/Actions.v ===== *)
(** * What the web can do to a title ([web/src/lib/actions.ts])

    Each action is a "set", never a toggle, stamped once and applied to the row as last read or to a blank one. *)

From S2P Require Import Prelude JsMap JsText Json Wire.

(** The double nearest 0.95: 4278419646001971 / 2^52. *)
Definition WATCHED : Qc := Q2Qc (QArith_base.Qmake 4278419646001971 4503599627370496).

Definition Qc_max (x y : Qc) : Qc := if Qc_leb x y then y else x.
Definition Qc_min (x y : Qc) : Qc := if Qc_leb x y then x else y.

(** ** Row updates: [{ ...row, field: value }] *)

Definition with_status (r : TitleRow) (v : Stamped Status) : TitleRow :=
  mkTitleRow (tr_schema r) (tr_title r) v (tr_resume r) (tr_reaction r) (tr_deleted r) (tr_dismissed r)
             (tr_episodesReset r) (tr_addedAt r) (tr_watchedAt r) (tr_unknown r).
Definition with_resume (r : TitleRow) (v : Progress) : TitleRow :=
  mkTitleRow (tr_schema r) (tr_title r) (tr_status r) v (tr_reaction r) (tr_deleted r) (tr_dismissed r)
             (tr_episodesReset r) (tr_addedAt r) (tr_watchedAt r) (tr_unknown r).
Definition with_reaction (r : TitleRow) (v : Stamped (option Reaction)) : TitleRow :=
  mkTitleRow (tr_schema r) (tr_title r) (tr_status r) (tr_resume r) v (tr_deleted r) (tr_dismissed r)
             (tr_episodesReset r) (tr_addedAt r) (tr_watchedAt r) (tr_unknown r).
Definition with_deleted (r : TitleRow) (v : Stamped bool) : TitleRow :=
  mkTitleRow (tr_schema r) (tr_title r) (tr_status r) (tr_resume r) (tr_reaction r) v (tr_dismissed r)
             (tr_episodesReset r) (tr_addedAt r) (tr_watchedAt r) (tr_unknown r).
Definition with_dismissed (r : TitleRow) (v : Stamped bool) : TitleRow :=
  mkTitleRow (tr_schema r) (tr_title r) (tr_status r) (tr_resume r) (tr_reaction r) (tr_deleted r) v
             (tr_episodesReset r) (tr_addedAt r) (tr_watchedAt r) (tr_unknown r).
Definition with_episodesReset (r : TitleRow) (v : option Stamp) : TitleRow :=
  mkTitleRow (tr_schema r) (tr_title r) (tr_status r) (tr_resume r) (tr_reaction r) (tr_deleted r) (tr_dismissed r)
             v (tr_addedAt r) (tr_watchedAt r) (tr_unknown r).
Definition with_watchedAt (r : TitleRow) (v : option Z) : TitleRow :=
  mkTitleRow (tr_schema r) (tr_title r) (tr_status r) (tr_resume r) (tr_reaction r) (tr_deleted r) (tr_dismissed r)
             (tr_episodesReset r) (tr_addedAt r) v (tr_unknown r).
Definition with_progress (r : EpisodeRow) (v : Progress) : EpisodeRow :=
  mkEpisodeRow (ep_schema r) (ep_title r) (ep_season r) (ep_episode r) v (ep_unknown r).

(** ** Actions *)

(** A resume point moved to [fraction]; playing past the end of a finished one is a replay. *)
Definition moved (p : Progress) (fraction seconds : Qc) (at_ : Stamp) (playing : option bool) : Progress :=
  let value := Qc_min 1 (Qc_max 0 fraction) in
  let replay := Qc_leb WATCHED (pr_value p) && Qc_ltb value WATCHED in
  mkProgress value at_ (pr_viewing p + (if replay then 1 else 0)) (Some seconds) playing.

Definition updateProgress (row : TitleRow) (fraction seconds : Qc) (at_ : Stamp) (playing : option bool) : TitleRow :=
  let resume := moved (tr_resume row) fraction seconds at_ playing in
  let updated := with_resume row resume in
  if Qc_leb (pr_value resume) 0 then updated
  else
    let updated := if 0 <? compareStamps at_ (sv_at (tr_deleted row))
                   then with_deleted updated (mkStamped false at_) else updated in
    let watched := Qc_leb WATCHED (pr_value resume) in
    let updated := with_status updated (mkStamped (if watched then SWatched else SInProgress) at_) in
    if watched then with_watchedAt updated (Some (default (st_t at_) (tr_watchedAt updated))) else updated.

Definition updateEpisodeProgress (row : EpisodeRow) (fraction seconds : Qc) (at_ : Stamp) (playing : option bool) : EpisodeRow :=
  with_progress row (moved (ep_progress row) fraction seconds at_ playing).

Definition blankTitle (ref : TitleRef) (now : Z) : TitleRow :=
  mkTitleRow 2 (mkRef (ref_type ref) (ref_id ref)) (mkStamped SNone ZERO_STAMP) (mkProgress 0 ZERO_STAMP 0 None None)
             (mkStamped None ZERO_STAMP) (mkStamped false ZERO_STAMP) (mkStamped false ZERO_STAMP) None now None [].

Definition addToWatchlist (row : TitleRow) (at_ : Stamp) : TitleRow :=
  let status := if decide (sv_value (tr_status row) = SNone \/ sv_value (tr_status row) = SWatched)
                then mkStamped SWatchlist at_ else tr_status row in
  with_status (with_deleted row (mkStamped false at_)) status.

Definition removeFromLibrary (row : TitleRow) (at_ : Stamp) : TitleRow :=
  if decide (sv_value (tr_deleted row) = true \/ sv_value (tr_status row) <> SWatchlist) then row
  else with_status row (mkStamped SNone at_).

Definition markWatched (row : TitleRow) (at_ : Stamp) : TitleRow :=
  let resume := mkProgress 1 at_ (pr_viewing (tr_resume row)) (pr_seconds (tr_resume row)) (pr_playing (tr_resume row)) in
  with_watchedAt (with_resume (with_status (with_deleted row (mkStamped false at_)) (mkStamped SWatched at_)) resume)
                 (Some (default (st_t at_) (tr_watchedAt row))).

Definition unwatch (row : TitleRow) (at_ : Stamp) : TitleRow :=
  with_watchedAt (with_resume (with_status row (mkStamped SNone at_))
                              (mkProgress 0 at_ (pr_viewing (tr_resume row) + 1) None None)) None.

Definition unwatchSeries (row : TitleRow) (at_ : Stamp) : TitleRow := with_episodesReset (unwatch row at_) (Some at_).

Definition dismissFromContinueWatching (row : TitleRow) (at_ : Stamp) : TitleRow := with_dismissed row (mkStamped true at_).

Definition restoreToContinueWatching (row : TitleRow) (at_ : Stamp) : TitleRow := with_dismissed row (mkStamped false at_).

Definition react (row : TitleRow) (reaction : option Reaction) (at_ : Stamp) : TitleRow :=
  with_reaction row (mkStamped reaction at_).

Definition blankEpisode (ref : TitleRef) (season episode : Z) : EpisodeRow :=
  mkEpisodeRow 2 (mkRef (ref_type ref) (ref_id ref)) season episode (mkProgress 0 ZERO_STAMP 0 None None) [].

Definition markEpisode (row : EpisodeRow) (seen : bool) (at_ : Stamp) : EpisodeRow :=
  with_progress row
    (if seen then mkProgress 1 at_ (pr_viewing (ep_progress row)) None None
     else mkProgress 0 at_ (pr_viewing (ep_progress row) + 1) None None).

(** The title actions, as one type: what the web may do to a title's row. *)
Inductive TitleAction : Type :=
| AProgress (fraction seconds : Qc) (playing : option bool)
| AAdd | ARemove | AWatched | AUnwatch | AUnwatchSeries | ADismiss | ARestore
| AReact (reaction : option Reaction).

Definition act (a : TitleAction) (row : TitleRow) (at_ : Stamp) : TitleRow :=
  match a with
  | AProgress f s p => updateProgress row f s at_ p
  | AAdd => addToWatchlist row at_
  | ARemove => removeFromLibrary row at_
  | AWatched => markWatched row at_
  | AUnwatch => unwatch row at_
  | AUnwatchSeries => unwatchSeries row at_
  | ADismiss => dismissFromContinueWatching row at_
  | ARestore => restoreToContinueWatching row at_
  | AReact r => react row r at_
  end.

(** ** Lemmas *)

Lemma Qc_leb_le x y : Qc_leb x y = true <-> (x <= y)%Qc.
Proof. unfold Qc_leb. apply bool_decide_eq_true. Qed.
Lemma Qc_leb_gt x y : Qc_leb x y = false <-> (y < x)%Qc.
Proof. unfold Qc_leb. rewrite bool_decide_eq_false. split; [apply Qcnot_le_lt|intros H H'; by apply (Qclt_not_le _ _ H)]. Qed.

Lemma clamp_bounds f : (0 <= Qc_min 1 (Qc_max 0 f))%Qc /\ (Qc_min 1 (Qc_max 0 f) <= 1)%Qc.
Proof.
  unfold Qc_min. destruct (Qc_leb 1 _) eqn:E1.
  - split; [done|apply Qcle_refl].
  - apply Qc_leb_gt in E1. split; [|by apply Qclt_le_weak]. unfold Qc_max. destruct (Qc_leb 0 f) eqn:E2; [by apply Qc_leb_le|apply Qcle_refl].
Qed.

Lemma clamp_id f : (0 <= f)%Qc -> (f <= 1)%Qc -> Qc_min 1 (Qc_max 0 f) = f.
Proof.
  intros H0 H1. unfold Qc_max. rewrite (proj2 (Qc_leb_le _ _) H0). unfold Qc_min.
  destruct (Qc_leb 1 f) eqn:E; [|done]. apply Qc_leb_le in E. by apply Qcle_antisym.
Qed.

(** a moved resume point stays a fraction of the whole, is the given fraction when that is one, and
    starts a new viewing exactly when a finished viewing is played again from before its end: the viewing never goes
    back, so the finished one's 100% cannot outvote it. *)
Lemma moved_spec (p : Progress) (fraction seconds : Qc) (at_ : Stamp) (playing : option bool) :
  let p' := moved p fraction seconds at_ playing in
  (0 <= pr_value p')%Qc /\ (pr_value p' <= 1)%Qc
  /\ ((0 <= fraction)%Qc -> (fraction <= 1)%Qc -> pr_value p' = fraction)
  /\ pr_at p' = at_ /\ pr_seconds p' = Some seconds
  /\ (pr_viewing p' = pr_viewing p + 1 <-> (WATCHED <= pr_value p)%Qc /\ (pr_value p' < WATCHED)%Qc)
  /\ (pr_viewing p' = pr_viewing p \/ pr_viewing p' = pr_viewing p + 1).
Proof.
  cbn. destruct (clamp_bounds fraction) as [H0 H1]. split; [done|]. split; [done|]. split; [apply clamp_id|].
  split; [done|]. split; [done|]. rewrite <- Qc_leb_le. unfold Qc_ltb.
  destruct (Qc_leb WATCHED (pr_value p)); cbn [andb].
  - case_bool_decide; split; [|lia| |lia]; split; intros; (done || lia || tauto).
  - split; [|lia]. split; [lia|]. by intros [].
Qed.

(** What an edit may do to a row: every field it changes carries its one stamp, the rest is untouched. *)
Definition stamped_once (row row' : TitleRow) (at_ : Stamp) : Prop :=
  (tr_status row' = tr_status row \/ sv_at (tr_status row') = at_)
  /\ (tr_resume row' = tr_resume row \/ pr_at (tr_resume row') = at_)
  /\ (tr_reaction row' = tr_reaction row \/ sv_at (tr_reaction row') = at_)
  /\ (tr_deleted row' = tr_deleted row \/ sv_at (tr_deleted row') = at_)
  /\ (tr_dismissed row' = tr_dismissed row \/ sv_at (tr_dismissed row') = at_)
  /\ (tr_episodesReset row' = tr_episodesReset row \/ tr_episodesReset row' = Some at_)
  /\ (tr_title row', tr_schema row', tr_addedAt row', tr_unknown row')
     = (tr_title row, tr_schema row, tr_addedAt row, tr_unknown row).

Lemma act_stamped a row at_ : stamped_once row (act a row at_) at_.
Proof.
  unfold stamped_once. destruct a; cbn [act];
    unfold updateProgress, addToWatchlist, removeFromLibrary, markWatched, unwatchSeries, unwatch, dismissFromContinueWatching,
      restoreToContinueWatching, react;
    repeat (case_decide || case_match); repeat split; cbn; auto.
Qed.

Lemma act_stamps a row at_ s :
  s ∈ row_stamps (RTitle (act a row at_)) -> s = at_ \/ s ∈ row_stamps (RTitle row).
Proof.
  destruct (act_stamped a row at_) as (H1 & H2 & H3 & H4 & H5 & H6 & _). cbn [row_stamps].
  rewrite !elem_of_cons. intros [->|[->|[->|[->|[->|[->|Hs]]]]]]; [| | | | | |by apply not_elem_of_nil in Hs].
  - destruct H1 as [->| ->]; auto.
  - destruct H2 as [->| ->]; auto 10.
  - destruct H3 as [->| ->]; auto 10.
  - destruct H4 as [->| ->]; auto 10.
  - destruct H5 as [->| ->]; auto 10.
  - destruct H6 as [->| ->]; cbn; auto 10.
Qed.

(** Whether the action changes a stamp of the row: only removing a title that is not listed does not. *)
Lemma act_writes a row at_ : act a row at_ = row \/ at_ ∈ row_stamps (RTitle (act a row at_)).
Proof.
  cbn [row_stamps]. rewrite !elem_of_cons. destruct a; cbn [act];
    unfold updateProgress, addToWatchlist, removeFromLibrary, markWatched, unwatchSeries, unwatch, dismissFromContinueWatching,
      restoreToContinueWatching, react;
    repeat (case_decide || case_match); cbn; auto 20.
Qed.

(** every action stamps each field it changes with its one stamp, keeps the title, the date added and the
    members this build does not know, and, issued after everything the row holds, becomes the row's newest stamp
    (unless it changed nothing). *)
Lemma act_stamps_once (a : TitleAction) (row : TitleRow) (at_ : Stamp) (now : Z) :
  stamp_lt (newest (RTitle row) now) at_ ->
  stamped_once row (act a row at_) at_
  /\ (act a row at_ = row \/ newest (RTitle (act a row at_)) now = at_).
Proof.
  intros Hlt. split; [apply act_stamped|]. destruct (act_writes a row at_) as [->|Hin]; [auto|]. right.
  destruct (foldl_later_spec (row_stamps (RTitle row)) ZERO_STAMP) as (Z1 & Z2 & _).
  destruct (foldl_later_spec (row_stamps (RTitle (act a row at_))) ZERO_STAMP) as (F1 & F2 & F3).
  rewrite newest_latest in Hlt |- *. unfold latestOf in *. cbn [counted_stamps] in *.
  apply (anti_symm stamp_le); [|by apply F2]. destruct F3 as [->|F3].
  - apply stamp_lt_le. eapply stamp_le_lt_trans; [exact Z1|]. exact Hlt.
  - apply act_stamps in F3 as [->|F3]; [reflexivity|]. apply stamp_lt_le. eapply stamp_le_lt_trans; [by apply Z2|done].
Qed.

(** The actions that say where something is, not how far it moved: doing one again changes nothing. *)
Definition is_set (a : TitleAction) : bool := match a with AUnwatch | AUnwatchSeries => false | _ => true end.

Lemma moved_again p f s at_ pl : moved (moved p f s at_ pl) f s at_ pl = moved p f s at_ pl.
Proof.
  unfold moved. cbn. f_equal. set (v := Qc_min 1 (Qc_max 0 f)).
  destruct (Qc_leb WATCHED v) eqn:E1, (Qc_ltb v WATCHED) eqn:E2; cbn; try lia.
  apply Qc_leb_le in E1. unfold Qc_ltb in E2. rewrite bool_decide_eq_true in E2. by apply Qclt_not_le in E2.
Qed.

Lemma updateProgress_again row f s at_ pl :
  updateProgress (updateProgress row f s at_ pl) f s at_ pl = updateProgress row f s at_ pl.
Proof.
  unfold updateProgress at 2 3. set (r := moved (tr_resume row) f s at_ pl).
  assert (Hr : forall p, p = r -> moved p f s at_ pl = r) by (intros ? ->; apply moved_again).
  assert (Hat : (0 <? compareStamps at_ at_) = false) by (rewrite (proj2 (compareStamps_eq at_ at_) eq_refl); done).
  destruct (Qc_leb (pr_value r) 0) eqn:E0; unfold updateProgress.
  { cbn [tr_resume with_resume]. rewrite !Hr, E0 by done. by destruct row. }
  destruct (0 <? compareStamps at_ (sv_at (tr_deleted row))) eqn:Ed;
    destruct (Qc_leb WATCHED (pr_value r)) eqn:Ew;
    cbn [tr_resume tr_deleted sv_at with_resume with_deleted with_status with_watchedAt tr_watchedAt];
    rewrite !Hr, E0, Ew by done; rewrite ?Hat, ?Ed; by destruct row.
Qed.

(** the actions are sets, not toggles: with one stamp, doing an action twice is doing it once. (Un-watching
    starts a new viewing each time, so it is left out.) *)
Lemma act_idempotent (a : TitleAction) (row : TitleRow) (at_ : Stamp) :
  is_set a = true -> act a (act a row at_) at_ = act a row at_.
Proof.
  destruct a; cbn [is_set act]; intros; try done; try apply updateProgress_again.
  - unfold addToWatchlist. cbn. repeat case_decide; cbn in *; try naive_solver; by destruct row.
  - unfold removeFromLibrary. repeat (case_decide; cbn in * ); try naive_solver; by destruct row.
Qed.

(** playback cannot bring back a title removed afterwards: a position stamped no later than the removal leaves
    the removal as it is, and a later, positive one puts the title back in the library. *)
Lemma updateProgress_deleted (row : TitleRow) (fraction seconds : Qc) (at_ : Stamp) (playing : option bool) :
  let row' := updateProgress row fraction seconds at_ playing in
  (stamp_le at_ (sv_at (tr_deleted row)) -> tr_deleted row' = tr_deleted row)
  /\ (stamp_lt (sv_at (tr_deleted row)) at_ -> (0 < fraction)%Qc ->
      tr_deleted row' = mkStamped false at_ /\
      tr_status row' = mkStamped (if Qc_leb WATCHED (Qc_min 1 fraction) then SWatched else SInProgress) at_).
Proof.
  cbv zeta. unfold updateProgress. cbn [pr_value moved]. unfold stamp_le. split.
  - intros Hle. assert ((0 <? compareStamps at_ (sv_at (tr_deleted row))) = false) as -> by (apply Z.ltb_ge; lia).
    repeat case_match; done.
  - intros Hlt%compareStamps_antisym Hf. assert ((0 <? compareStamps at_ (sv_at (tr_deleted row))) = true) as -> by (by apply Z.ltb_lt).
    assert (Hm : Qc_max 0 fraction = fraction). { unfold Qc_max. by rewrite (proj2 (Qc_leb_le _ _) (Qclt_le_weak _ _ Hf)). }
    rewrite Hm. assert (Hpos : (0 < Qc_min 1 fraction)%Qc) by (unfold Qc_min; by destruct (Qc_leb 1 fraction)).
    apply Qc_leb_gt in Hpos as ->. by destruct (Qc_leb WATCHED _).
Qed.

Definition sample_row : TitleRow := blankTitle (mkRef "movie" 550) 1000.

Lemma act_stamps_once_witness :
  newest (RTitle (act AWatched sample_row (mkStamp 2000 0 "d"))) 0 = mkStamp 2000 0 "d".
Proof.
  destruct (act_stamps_once AWatched sample_row (mkStamp 2000 0 "d") 0) as [_ [H|H]];
    [vm_compute; reflexivity|exfalso; apply (f_equal tr_watchedAt) in H; vm_compute in H; discriminate H|exact H].
Defined.

Lemma act_idempotent_witness :
  act AAdd (act AAdd sample_row (mkStamp 5 0 "d")) (mkStamp 5 0 "d") = act AAdd sample_row (mkStamp 5 0 "d")
  /\ sv_value (tr_status (act AAdd sample_row (mkStamp 5 0 "d"))) = SWatchlist.
Proof. split; [apply act_idempotent; reflexivity|reflexivity]. Defined.

(** A finished film played again from its middle. *)
Lemma moved_spec_witness :
  let p := mkProgress 1 (mkStamp 5 0 "d") 2 None None in
  pr_value (moved p (Q2Qc (QArith_base.Qmake 1 2)) 1%Qc (mkStamp 9 0 "d") None) = Q2Qc (QArith_base.Qmake 1 2)
  /\ pr_viewing (moved p (Q2Qc (QArith_base.Qmake 1 2)) 1%Qc (mkStamp 9 0 "d") None) = 3.
Proof.
  cbv zeta. destruct (moved_spec (mkProgress 1 (mkStamp 5 0 "d") 2 None None) (Q2Qc (QArith_base.Qmake 1 2)) 1%Qc (mkStamp 9 0 "d") None)
    as (_ & _ & Hv & _ & _ & Hn & _).
  split; [apply Hv; apply (bool_decide_unpack _); vm_compute; exact I|].
  apply Hn. split; apply (bool_decide_unpack _); vm_compute; exact I.
Defined.

Lemma updateProgress_deleted_witness :
  tr_deleted (updateProgress (with_deleted sample_row (mkStamped true (mkStamp 5 0 "d"))) 1%Qc 1%Qc (mkStamp 9 0 "d") None) = mkStamped false (mkStamp 9 0 "d").
Proof.
  apply (updateProgress_deleted (with_deleted sample_row (mkStamped true (mkStamp 5 0 "d"))) 1%Qc 1%Qc (mkStamp 9 0 "d") None).
  - vm_compute. reflexivity.
  - apply (bool_decide_unpack _). vm_compute. exact I.
Defined.
