(* ===== verification/LibraryV4.v ===== *)
(** * Library v4 as the web reads and writes it ([web/src/lib/libraryV4.ts])

    Documents are shown as the rows they stand for ([projectDocument]), an edit to such a row becomes
    den-core writes ([opsFor]), and the writes are applied to the stored documents ([applyOps]). What a write
    does and what a document derives are den-core's ([DocumentPolicy]). *)

From S2P Require Import Prelude JsMap JsText Json Wire Actions.

(** ** den-core's answers *)

Record EpisodeState : Type := mkEpisodeState {
  es_watched : bool;
  es_resume : option Progress;
  es_viewing : Z;
  es_watched_at : option Z;
}.

Record TitleState : Type := mkTitleState {
  ts_status : option (Stamped Status);
  ts_resume : option Progress;
  ts_reaction : option (Stamped (option Reaction));
  ts_deleted : option (Stamped bool);
  ts_dismissed : option (Stamped bool);
  ts_episodesReset : option Stamp;
  ts_addedAt : option Z;
  ts_watchedAt : option Z;
}.

(** A value a [title] write sets. *)
Inductive FieldValue : Type :=
| FStatus (s : Status)
| FReaction (r : option Reaction)
| FBool (b : bool).

(** A write's members; an absent one is [None]. *)
Record Write : Type := mkWrite {
  w_kind : string;
  w_episode : option (Z * Z);
  w_episodes : option (list (Z * Z));
  w_season : option Z;
  w_value : option Qc;
  w_seconds : option Qc;
  w_playing : option bool;
  w_fields : option (list (string * FieldValue));
  w_added_at : option Z;
  w_watched_at : option Z;
  w_at : Stamp;
}.

Record Op : Type := mkOp { op_target : TitleRef; op_write : Write }.

Class DocumentPolicy := {
  policy_title_state : DocumentRow -> Z -> res TitleState;
  (** [season_state_v4]: the episodes' numbers and states, in the order [Object.entries] lists them. *)
  policy_season_state : DocumentRow -> Z -> res (list (Z * EpisodeState));
  policy_episode_state : option DocumentRow -> DocumentRow -> Z -> Z -> res EpisodeState;
  policy_apply_write : Write -> TitleRef -> option DocumentRow -> list DocumentRow -> Z -> res (list DocumentRow);
}.

(** ** Projections *)

Definition stamped_or {T} (o : option (Stamped T)) (v : T) : Stamped T := default (mkStamped v ZERO_STAMP) o.

(** [state.watched_at ? [state.watched_at, 0, ''] : ZERO_STAMP]; 0 is falsy. *)
Definition watched_stamp (at_ : option Z) : Stamp :=
  match at_ with
  | Some t => if t =? 0 then ZERO_STAMP else mkStamp t 0 ""
  | None => ZERO_STAMP
  end.

Definition episodeRow (id season episode : Z) (state : EpisodeState) : EpisodeRow :=
  let at_ := match es_resume state with Some p => pr_at p | None => watched_stamp (es_watched_at state) end in
  mkEpisodeRow 2 (mkRef "tv" id) season episode
    (default (mkProgress (if es_watched state then 1 else 0) at_ (es_viewing state) None None) (es_resume state)) [].

Section Project.
Context `{DocumentPolicy}.

Definition projectTitle (d : DocumentRow) (now : Z) : res TitleRow :=
  let! state := policy_title_state d now in
  Ok (mkTitleRow 2 (mkRef (ref_type (doc_title d)) (ref_id (doc_title d)))
        (stamped_or (ts_status state) SNone)
        (default (mkProgress 0 ZERO_STAMP 0 None None) (ts_resume state))
        (stamped_or (ts_reaction state) None) (stamped_or (ts_deleted state) false) (stamped_or (ts_dismissed state) false)
        (ts_episodesReset state) (default 0 (ts_addedAt state)) (ts_watchedAt state) []).

(** [forEachProjectedEpisode], as the rows it visits. *)
Definition forEachProjectedEpisode (d : DocumentRow) (now : Z) : res (list EpisodeRow) :=
  let season := default 0 (doc_season d) in
  let! states := policy_season_state d now in
  Ok ((fun p => episodeRow (ref_id (doc_title d)) season p.1 p.2) <$> states).

Definition projectDocument (d : DocumentRow) (now : Z) : res (list Row) :=
  match doc_kind d with
  | KTitle => let! row := projectTitle d now in Ok [RTitle row]
  | KSeason => let! rows := forEachProjectedEpisode d now in Ok (REpisode <$> rows)
  | KDelivery => Ok []
  end.

(** [(season.episodes)?.[String(episode)]] is truthy: an object (or array, or a true, non-zero, non-empty scalar). *)
Definition truthy_json (j : json) : bool :=
  match j with
  | JNull => false
  | JBool b => b
  | JNum q => negb (Qc_eq_bool q 0)
  | JStr s => truthy s
  | JArr _ | JObj _ => true
  end.

Definition has_episode (season : DocumentRow) (episode : Z) : bool :=
  match map_get "episodes" (doc_rest season) with
  | Some episodes => from_option truthy_json false (jget (Z_str episode) episodes)
  | None => false
  end.

Definition projectEpisode (title : option DocumentRow) (season : DocumentRow) (id seasonNumber episode now : Z) : res (option EpisodeRow) :=
  if negb (has_episode season episode) then Ok None
  else
    let! state := policy_episode_state title season episode now in
    Ok (Some (episodeRow id seasonNumber episode state)).
End Project.

(** ** Edits as writes *)

Definition status_eqb (a b : Status) : bool :=
  match a, b with
  | SNone, SNone | SWatchlist, SWatchlist | SInProgress, SInProgress | SWatched, SWatched => true
  | _, _ => false
  end.

(** [same]: equal once every object's keys are sorted. *)
Definition same (a b : json) : bool := bool_decide (jsorted a = jsorted b).

Definition progress_json (p : Progress) : json :=
  JObj ([("value", JNum (pr_value p)); ("at", stamp_json (pr_at p)); ("viewing", jint (pr_viewing p))]
        ++ jmember "seconds" JNum (pr_seconds p) ++ jmember "playing" JBool (pr_playing p)).

Definition stamped_json {T} (f : T -> json) (s : Stamped T) : json :=
  JObj [("value", f (sv_value s)); ("at", stamp_json (sv_at s))].

Definition status_str (s : Status) : string :=
  match s with SNone => "none" | SWatchlist => "watchlist" | SInProgress => "inProgress" | SWatched => "watched" end.
Definition reaction_str (r : Reaction) : string :=
  match r with RSeen => "seen" | RDislike => "dislike" | RLike => "like" | RLove => "love" end.

Definition status_json : Status -> json := fun s => JStr (status_str s).
Definition reaction_json : option Reaction -> json := fun r => match r with Some r => JStr (reaction_str r) | None => JNull end.
Definition reset_json (o : option Stamp) : json := match o with Some s => stamp_json s | None => JNull end.

Definition plain_write (kind : string) (at_ : Stamp) : Write :=
  mkWrite kind None None None None None None None None None at_.

Definition newestOf (row : TitleRow) : Stamp :=
  latestOf [sv_at (tr_status row); pr_at (tr_resume row); sv_at (tr_reaction row); sv_at (tr_deleted row); sv_at (tr_dismissed row)].

(** The four stamped fields [opsFor] walks: the field's name, whether it is the same, its value and its stamp. *)
Definition edited_fields (before after : TitleRow) : list (string * bool * FieldValue * Stamp) :=
  [ ("status", same (stamped_json status_json (tr_status before)) (stamped_json status_json (tr_status after)),
     FStatus (sv_value (tr_status after)), sv_at (tr_status after));
    ("reaction", same (stamped_json reaction_json (tr_reaction before)) (stamped_json reaction_json (tr_reaction after)),
     FReaction (sv_value (tr_reaction after)), sv_at (tr_reaction after));
    ("deleted", same (stamped_json JBool (tr_deleted before)) (stamped_json JBool (tr_deleted after)),
     FBool (sv_value (tr_deleted after)), sv_at (tr_deleted after));
    ("dismissed", same (stamped_json JBool (tr_dismissed before)) (stamped_json JBool (tr_dismissed after)),
     FBool (sv_value (tr_dismissed after)), sv_at (tr_dismissed after)) ].

(** [byStamp]: fields grouped by stamp, in first-seen order. [JSON.stringify(at)] is a key of the stamp. *)
Abbreviation groups := (jsmap Stamp (list (string * FieldValue))).

Definition group_field (g : groups) (field : string) (v : FieldValue) (at_ : Stamp) : groups :=
  map_set at_ (map_set field v (default [] (map_get at_ g))) g.

(** One field of the loop: skipped, a [watchlist_remove], or put in its stamp's group. *)
Definition field_step (target : TitleRef) (statusWritten listed : bool)
    (acc : list Op * groups) (f : string * bool * FieldValue * Stamp) : list Op * groups :=
  let '(ops, g) := acc in
  let '(field, unchanged, value, at_) := f in
  if (String.eqb field "status" && statusWritten) || unchanged then (ops, g)
  else if String.eqb field "status" && listed && (match value with FStatus SNone => true | _ => false end)
  then (ops ++ [mkOp target (plain_write "watchlist_remove" at_)], g)
  else (ops, group_field g field value at_).

(** A film's resume point: the writes it asks for, and whether they settle the status. *)
Definition resume_ops (before after : TitleRow) : list Op * bool :=
  let target := tr_title after in
  if String.eqb (ref_type target) "movie" && negb (same (progress_json (tr_resume before)) (progress_json (tr_resume after))) then
    let resume := tr_resume after in
    let statusChanged := negb (same (stamped_json status_json (tr_status before)) (stamped_json status_json (tr_status after))) in
    if status_eqb (sv_value (tr_status before)) SWatched && status_eqb (sv_value (tr_status after)) SNone
       && bool_decide (pr_value resume = 0%Qc)
    then ([mkOp target (plain_write "unwatch" (pr_at resume))], true)
    else if status_eqb (sv_value (tr_status after)) SWatched && negb (status_eqb (sv_value (tr_status before)) SWatched)
            && Qc_leb 1 (pr_value resume) && bool_decide (pr_seconds resume = pr_seconds (tr_resume before))
    then ([mkOp target (plain_write "mark_watched" (pr_at resume))], true)
    else ([mkOp target (mkWrite "progress" None None None (Some (pr_value resume)) (pr_seconds resume) (pr_playing resume)
                                None None None (pr_at resume))], statusChanged)
  else ([], false).

Definition opsForTitle (before after : TitleRow) : list Op :=
  let target := tr_title after in
  let '(ops, statusWritten) := resume_ops before after in
  let ops := match tr_episodesReset after with
             | Some at_ => if same (reset_json (tr_episodesReset before)) (reset_json (tr_episodesReset after)) then ops
                           else ops ++ [mkOp target (plain_write "series_reset" at_)]
             | None => ops
             end in
  let listed := status_eqb (sv_value (tr_status before)) SWatchlist in
  let '(ops, byStamp) := foldl (field_step target statusWritten listed) (ops, []) (edited_fields before after) in
  let watchedAt := match tr_watchedAt after with
                   | Some w => if bool_decide (tr_watchedAt before = Some w) then None else Some w
                   | None => None
                   end in
  let grouped := match byStamp, ops with [], _ :: _ => [(newestOf after, [])] | _, _ => byStamp end in
  ops ++ ((fun g => mkOp target (mkWrite "title" None None None None None None (Some g.2) (Some (tr_addedAt after)) watchedAt g.1))
          <$> grouped).

Definition opsForEpisode (before after : EpisodeRow) : list Op :=
  if same (progress_json (ep_progress before)) (progress_json (ep_progress after)) then []
  else
    let target := ep_title after in
    let p := ep_progress after in
    match pr_seconds p with
    | Some seconds =>
      [mkOp target (mkWrite "progress" (Some (ep_season after, ep_episode after)) None None (Some (pr_value p))
                            (Some seconds) (pr_playing p) None None None (pr_at p))]
    | None =>
      [mkOp target (mkWrite (if Qc_leb WATCHED (pr_value p) then "mark_watched" else "unwatch") None
                            (Some [(ep_season after, ep_episode after)]) None None None None None None None (pr_at p))]
    end.

Definition opsFor (before after : Row) : list Op :=
  match before, after with
  | REpisode b, REpisode a => opsForEpisode b a
  | RTitle b, RTitle a => opsForTitle b a
  | _, _ => []
  end.

(** ** Applying writes *)

Definition seasonsOf (w : Write) : list Z :=
  match w_episode w, w_episodes w, w_season w with
  | Some e, _, _ => [e.1]
  | None, Some es, _ => es.*1
  | None, None, Some s => [s]
  | None, None, None => []
  end.

Definition title_name (t : TitleRef) : string := "title:" +:+ titleText t.
Definition season_name (t : TitleRef) (season : Z) : string := "season:" +:+ titleText t +:+ ":" +:+ Z_str season.

Abbreviation documents := (jsmap string DocumentRow).

Section Apply.
Context `{DocumentPolicy}.

Definition read_document (stored : string -> option DocumentRow) (changed : documents) (name : string) : option DocumentRow :=
  match map_get name changed with Some d => Some d | None => stored name end.

Definition applyOp (stored : string -> option DocumentRow) (now : Z) (changed : documents) (op : Op) : res documents :=
  let target := op_target op in
  let title := read_document stored changed (title_name target) in
  let seasons := omap (fun season => read_document stored changed (season_name target season)) (set_of (seasonsOf (op_write op))) in
  let! answer := policy_apply_write (op_write op) target title seasons now in
  Ok (foldl (fun changed d =>
        map_set (if decide (doc_kind d = KTitle) then title_name target
                 else season_name target (default 0 (doc_season d))) d changed) changed answer).

Definition applyOps (ops : list Op) (stored : string -> option DocumentRow) (now : Z) : res (list DocumentRow) :=
  let! changed := res_fold (applyOp stored now) [] ops in Ok (map_values changed).
End Apply.

(** The names of the documents [ops] read. *)
Definition touched (ops : list Op) : list string :=
  ops ≫= fun op => title_name (op_target op) :: (season_name (op_target op) <$> seasonsOf (op_write op)).

(** ** Equality up to key order *)

Lemma jint_inj a b : jint a = jint b -> a = b.
Proof.
  intros H. assert (Hq : Q2Qc (QArith_base.inject_Z a) = Q2Qc (QArith_base.inject_Z b)).
  { unfold jint in H. by apply (f_equal (fun j => match j with JNum q => q | _ => 0%Qc end)) in H. }
  pose proof (qc_int_inject a) as Ha. rewrite Hq, qc_int_inject in Ha. congruence.
Qed.

Lemma stamp_json_inj a b : stamp_json a = stamp_json b -> a = b.
Proof.
  intros H. set (arr := fun n j => match j with JArr l => default JNull (l !! n) | _ => JNull end).
  pose proof (f_equal (arr 0%nat) H) as H1%jint_inj. pose proof (f_equal (arr 1%nat) H) as H2%jint_inj.
  pose proof (f_equal (arr 2%nat) H) as H3. cbn in H3. destruct a, b; cbn in *; congruence.
Qed.

Lemma bool_decide_iff_eq (P Q : Prop) `{!Decision P, !Decision Q} : (P <-> Q) -> bool_decide P = bool_decide Q.
Proof. apply bool_decide_ext. Qed.

Lemma same_refl j : same j j = true.
Proof. by apply bool_decide_eq_true. Qed.

Lemma same_stamped {T} `{!EqDecision T} (f : T -> json) (s t : Stamped T) :
  (forall x, jsorted (f x) = f x) -> (forall x y, f x = f y -> x = y) ->
  same (stamped_json f s) (stamped_json f t) = bool_decide (s = t).
Proof.
  intros Hf Hinj. unfold same. apply bool_decide_iff_eq.
  change (jsorted (stamped_json f s)) with (JObj [("at", stamp_json (sv_at s)); ("value", jsorted (f (sv_value s)))]).
  change (jsorted (stamped_json f t)) with (JObj [("at", stamp_json (sv_at t)); ("value", jsorted (f (sv_value t)))]).
  rewrite !Hf. split; [|by intros ->]. intros Heq.
  assert (Hv : f (sv_value s) = f (sv_value t)) by congruence.
  assert (Ha : stamp_json (sv_at s) = stamp_json (sv_at t)) by congruence.
  apply Hinj in Hv. apply stamp_json_inj in Ha. destruct s, t; cbn in *; congruence.
Qed.

Lemma same_status (s t : Stamped Status) : same (stamped_json status_json s) (stamped_json status_json t) = bool_decide (s = t).
Proof. apply same_stamped; [done|]. by intros [] []. Qed.
Lemma same_reaction (s t : Stamped (option Reaction)) : same (stamped_json reaction_json s) (stamped_json reaction_json t) = bool_decide (s = t).
Proof. apply same_stamped; [by intros [[]|]|]. by intros [[]|] [[]|]. Qed.
Lemma same_bool (s t : Stamped bool) : same (stamped_json JBool s) (stamped_json JBool t) = bool_decide (s = t).
Proof. apply same_stamped; [done|]. by intros ?? [= ->]. Qed.
Lemma same_reset (s t : option Stamp) : same (reset_json s) (reset_json t) = bool_decide (s = t).
Proof.
  unfold same. apply bool_decide_iff_eq. destruct s as [s|], t as [t|]; try done.
  change (stamp_json s = stamp_json t <-> Some s = Some t). split; [by intros ->%stamp_json_inj|by intros [= ->]].
Qed.

(** The members of a progress, in key order. *)
Definition sorted_progress (p : Progress) : list (string * json) :=
  ("at", stamp_json (pr_at p)) :: jmember "playing" JBool (pr_playing p) ++ jmember "seconds" JNum (pr_seconds p)
  ++ [("value", JNum (pr_value p)); ("viewing", jint (pr_viewing p))].

Lemma jsorted_progress p : jsorted (progress_json p) = JObj (sorted_progress p).
Proof. destruct p as [v a w [s|] [b|]]; reflexivity. Qed.

Lemma sorted_progress_inj p q : sorted_progress p = sorted_progress q -> p = q.
Proof.
  intros H. assert (Ha : pr_at p = pr_at q).
  { apply stamp_json_inj. apply (f_equal (fun l => match l with (_, j) :: _ => j | [] => JNull end)) in H. exact H. }
  apply (f_equal (@reverse _)) in H. unfold sorted_progress in H. rewrite !reverse_cons, !reverse_app, !reverse_cons in H. csimpl in *.
  assert (Hw : pr_viewing p = pr_viewing q).
  { apply jint_inj. apply (f_equal (fun l => match l with (_, j) :: _ => j | [] => JNull end)) in H. exact H. }
  assert (Hv : pr_value p = pr_value q).
  { apply (f_equal (fun l => match l with _ :: (_, JNum j) :: _ => j | _ => 0%Qc end)) in H. exact H. }
  apply (f_equal (drop 2)) in H. csimpl in *. destruct p as [? ? ? [] []], q as [? ? ? [] []]; csimpl in *; simplify_eq; done.
Qed.

Lemma same_progress p q : same (progress_json p) (progress_json q) = bool_decide (p = q).
Proof.
  unfold same. apply bool_decide_iff_eq. rewrite !jsorted_progress. split; [|by intros ->].
  intros H. apply sorted_progress_inj. congruence.
Qed.

Create Rewrite HintDb den_same.
#[export] Hint Rewrite same_status same_reaction same_bool same_reset same_progress : den_same.

(** ** Writes of an edit *)

Lemma bool_decide_refl {A} `{!EqDecision A} (x : A) : bool_decide (x = x) = true.
Proof. by apply bool_decide_eq_true. Qed.

Lemma fresh_stamped {T} `{!EqDecision T} (s : Stamped T) v at_ : sv_at s <> at_ -> bool_decide (s = mkStamped v at_) = false.
Proof. intros Hne. apply bool_decide_eq_false. intros ->. done. Qed.

Lemma fresh_progress p v at_ w s pl : pr_at p <> at_ -> bool_decide (p = mkProgress v at_ w s pl) = false.
Proof. intros Hne. apply bool_decide_eq_false. intros ->. done. Qed.

(** The stamp is in none of the row's fields. *)
Definition fresh (row : TitleRow) (at_ : Stamp) : Prop := at_ ∉ row_stamps (RTitle row).

Lemma fresh_fields row at_ : fresh row at_ ->
  sv_at (tr_status row) <> at_ /\ pr_at (tr_resume row) <> at_ /\ sv_at (tr_reaction row) <> at_ /\
  sv_at (tr_deleted row) <> at_ /\ sv_at (tr_dismissed row) <> at_ /\ tr_episodesReset row <> Some at_.
Proof.
  unfold fresh. cbn [row_stamps]. rewrite !not_elem_of_cons. intros (?&?&?&?&?&Hr&_).
  repeat split; try congruence. intros He. rewrite He in Hr. done.
Qed.

Lemma opsForTitle_same row : opsForTitle row row = [].
Proof.
  unfold opsForTitle, resume_ops, edited_fields. autorewrite with den_same. rewrite !bool_decide_refl.
  cbn [negb andb]. rewrite andb_false_r. cbn. by destruct (tr_episodesReset row).
Qed.

(** A write of the title [a] with one of its stamps. *)
Definition op_ok (a : TitleRow) (op : Op) : Prop :=
  op_target op = tr_title a /\ (w_at (op_write op) = ZERO_STAMP \/ w_at (op_write op) ∈ row_stamps (RTitle a)).

Lemma resume_ops_ok b a : Forall (op_ok a) (resume_ops b a).1.
Proof.
  unfold resume_ops. repeat (case_match; cbn); repeat constructor; cbn; right; set_solver.
Qed.

Lemma field_step_ok target (a : TitleRow) sw listed acc f :
  target = tr_title a -> f.2 ∈ row_stamps (RTitle a) ->
  Forall (op_ok a) acc.1 /\ Forall (fun k => k ∈ row_stamps (RTitle a)) (map_keys acc.2) ->
  Forall (op_ok a) (field_step target sw listed acc f).1 /\
  Forall (fun k => k ∈ row_stamps (RTitle a)) (map_keys (field_step target sw listed acc f).2).
Proof.
  intros -> Hf [H1 H2]. destruct acc as [ops g], f as [[[field u] v] at_]. cbn in *.
  destruct (_ || u); [done|]. destruct (_ && _); cbn.
  - split; [|done]. apply Forall_app. split; [done|]. constructor; [|done]. split; [done|]. by right.
  - split; [done|]. unfold group_field. apply Forall_forall. intros k [->|Hk]%elem_of_map_keys_set; [done|].
    by rewrite Forall_forall in H2; apply H2.
Qed.

Lemma foldl_field_step_ok target (a : TitleRow) sw listed fs acc :
  target = tr_title a -> Forall (fun f => f.2 ∈ row_stamps (RTitle a)) fs ->
  Forall (op_ok a) acc.1 -> Forall (fun k => k ∈ row_stamps (RTitle a)) (map_keys acc.2) ->
  Forall (op_ok a) (foldl (field_step target sw listed) acc fs).1 /\
  Forall (fun k => k ∈ row_stamps (RTitle a)) (map_keys (foldl (field_step target sw listed) acc fs).2).
Proof.
  intros -> Hfs. revert acc. induction Hfs as [|f fs Hf _ IH]; intros acc H1 H2; cbn [foldl]; [done|].
  apply IH; apply field_step_ok; auto.
Qed.

Lemma newestOf_ok a : newestOf a = ZERO_STAMP \/ newestOf a ∈ row_stamps (RTitle a).
Proof.
  unfold newestOf, latestOf.
  match goal with |- foldl later _ ?l = _ \/ _ => destruct (foldl_later_spec l ZERO_STAMP) as (_ & _ & [->|Hin]) end; [auto|].
  right. cbn [row_stamps]. set_solver.
Qed.

Lemma opsForTitle_ok b a : Forall (op_ok a) (opsForTitle b a).
Proof.
  unfold opsForTitle. pose proof (resume_ops_ok b a) as Hr. destruct (resume_ops b a) as [ops0 sw]. cbn [fst] in Hr.
  set (ops1 := match tr_episodesReset a with Some _ => _ | None => _ end).
  assert (Hr1 : Forall (op_ok a) ops1).
  { unfold ops1. destruct (tr_episodesReset a) as [e|] eqn:He; [|done]. case_match; [done|].
    apply Forall_app. split; [done|]. constructor; [|done]. split; [done|]. right. cbn. rewrite He. cbn. set_solver. }
  clearbody ops1. set (listed := status_eqb _ _). clearbody listed.
  assert (Hf : Forall (fun f => f.2 ∈ row_stamps (RTitle a)) (edited_fields b a)).
  { unfold edited_fields. repeat constructor; cbn; set_solver. }
  pose proof (foldl_field_step_ok (tr_title a) a sw listed (edited_fields b a) (ops1, []) eq_refl Hf Hr1 (Forall_nil_2 _)) as [H1 H2].
  destruct (foldl _ _ _) as [ops2 g]. cbn [fst snd] in *. apply Forall_app. split; [done|].
  apply Forall_fmap. destruct g as [|g0 g]; [destruct ops2; [done|]|].
  - constructor; [|done]. split; [done|]. apply newestOf_ok.
  - unfold map_keys in H2. rewrite Forall_fmap in H2. eapply Forall_impl; [exact H2|]. intros [k v] Hk. split; [done|]. by right.
Qed.

(** an edit that changes nothing writes nothing, and every write of an edit is of the edited title and
    carries the stamp of one of the fields it set (or the newest of them). *)
Lemma opsFor_writes (before after : Row) :
  opsFor before before = []
  /\ (forall b a op, before = RTitle b -> after = RTitle a -> op ∈ opsFor before after ->
        op_target op = tr_title a /\ (w_at (op_write op) = ZERO_STAMP \/ w_at (op_write op) ∈ row_stamps after))
  /\ (forall b a op, before = REpisode b -> after = REpisode a -> op ∈ opsFor before after ->
        op_target op = ep_title a /\ w_at (op_write op) = pr_at (ep_progress a)).
Proof.
  split; [|split].
  - destruct before as [b|b| |]; cbn; [apply opsForTitle_same| |done|done].
    unfold opsForEpisode. by rewrite same_refl.
  - intros b a op -> -> Hop. cbn [opsFor] in Hop. pose proof (opsForTitle_ok b a) as Hok.
    rewrite Forall_forall in Hok. by apply Hok.
  - intros b a op -> -> Hop. cbn [opsFor] in Hop. unfold opsForEpisode in Hop.
    repeat case_match; set_solver.
Qed.

Lemma latestOf_top l at_ :
  at_ ∈ l -> (forall s, s ∈ l -> stamp_le s at_) -> stamp_le ZERO_STAMP at_ -> latestOf l = at_.
Proof.
  intros Hin Hle H0. unfold latestOf. destruct (foldl_later_spec l ZERO_STAMP) as (_ & F2 & F3).
  apply (anti_symm stamp_le); [|by apply F2]. destruct F3 as [->|F3]; auto.
Qed.

(** An edit's stamp, later than the row's newest, is the newest of the edited row. *)
Lemma newestOf_edit row row' at_ :
  stamp_lt (newest (RTitle row) 0) at_ ->
  at_ ∈ [sv_at (tr_status row'); pr_at (tr_resume row'); sv_at (tr_reaction row'); sv_at (tr_deleted row'); sv_at (tr_dismissed row')] ->
  stamped_once row row' at_ -> newestOf row' = at_.
Proof.
  intros Hlt Hin (H1 & H2 & H3 & H4 & H5 & _). rewrite newest_latest in Hlt. cbn [counted_stamps] in Hlt.
  destruct (foldl_later_spec (row_stamps (RTitle row)) ZERO_STAMP) as (Z1 & Z2 & _). fold (latestOf (row_stamps (RTitle row))) in *.
  assert (Hrow : forall s, s ∈ row_stamps (RTitle row) -> stamp_le s at_).
  { intros s Hs. apply stamp_lt_le. eapply stamp_le_lt_trans; [by apply Z2|done]. }
  apply latestOf_top; [done| |apply stamp_lt_le; by eapply stamp_le_lt_trans].
  cbn [row_stamps] in Hrow. intros s. rewrite !elem_of_cons, elem_of_nil. intros [->|[->|[->|[->|[->|[]]]]]].
  - destruct H1 as [-> | ->]; [|reflexivity]. apply Hrow. set_solver.
  - destruct H2 as [-> | ->]; [|reflexivity]. apply Hrow. set_solver.
  - destruct H3 as [-> | ->]; [|reflexivity]. apply Hrow. set_solver.
  - destruct H4 as [-> | ->]; [|reflexivity]. apply Hrow. set_solver.
  - destruct H5 as [-> | ->]; [|reflexivity]. apply Hrow. set_solver.
Qed.

Lemma newestOf_remove row at_ :
  sv_value (tr_status row) = SWatchlist -> sv_value (tr_deleted row) = false -> stamp_lt (newest (RTitle row) 0) at_ ->
  newestOf (removeFromLibrary row at_) = at_.
Proof.
  intros Hs Hd Hlt. apply (newestOf_edit row); [done| |apply (act_stamped ARemove)].
  unfold removeFromLibrary. rewrite decide_False by (rewrite Hs, Hd; naive_solver). cbn. set_solver.
Qed.

Lemma newestOf_unwatch row at_ : stamp_lt (newest (RTitle row) 0) at_ -> newestOf (unwatch row at_) = at_.
Proof. intros Hlt. apply (newestOf_edit row); [done|cbn; set_solver|apply (act_stamped AUnwatch)]. Qed.

Lemma group_field_nil field v at_ : group_field [] field v at_ = [(at_, [(field, v)])].
Proof. done. Qed.

Lemma group_field_same fields field v at_ : group_field [(at_, fields)] field v at_ = [(at_, map_set field v fields)].
Proof. unfold group_field. cbn. by rewrite !decide_True by done. Qed.

(** Evaluates [opsForTitle] on a row and its edit: every field is the same or freshly stamped. *)
Ltac ops_eval :=
  unfold opsForTitle, resume_ops, edited_fields;
  cbn [tr_status tr_resume tr_reaction tr_deleted tr_dismissed tr_episodesReset tr_title tr_addedAt tr_watchedAt sv_at sv_value];
  rewrite ?same_status, ?same_reaction, ?same_bool, ?same_reset, ?same_progress, ?bool_decide_refl;
  repeat (rewrite fresh_stamped by done); repeat (rewrite fresh_progress by done);
  cbn [negb andb]; rewrite ?andb_false_r;
  repeat progress (cbn [foldl field_step String.eqb Ascii.eqb Bool.eqb andb orb negb status_eqb app];
                   rewrite ?group_field_nil, ?group_field_same, ?andb_false_r).

(** Each action becomes the one den-core write it stands for, and at most one [title] write beside it. Stamped
    freshly: a reaction or a dismissal is one [title] write; taking a listed title off the watchlist is [watchlist_remove];
    marking a film seen is [mark_watched], un-marking it [unwatch]; un-watching a series is [series_reset]. *)
Lemma opsFor_actions (row : TitleRow) (at_ : Stamp) :
  fresh row at_ ->
  let title_op fields watched := mkOp (tr_title row)
        (mkWrite "title" None None None None None None (Some fields) (Some (tr_addedAt row)) watched at_) in
  let op kind := mkOp (tr_title row) (plain_write kind at_) in
  (forall r, opsForTitle row (react row r at_) = [title_op [("reaction", FReaction r)] None])
  /\ opsForTitle row (dismissFromContinueWatching row at_) = [title_op [("dismissed", FBool true)] None]
  /\ (sv_value (tr_status row) = SNone ->
        opsForTitle row (addToWatchlist row at_) = [title_op [("status", FStatus SWatchlist); ("deleted", FBool false)] None])
  /\ (sv_value (tr_status row) = SWatchlist -> sv_value (tr_deleted row) = false -> stamp_lt (newest (RTitle row) 0) at_ ->
        opsForTitle row (removeFromLibrary row at_) = [op "watchlist_remove"; title_op [] None])
  /\ (ref_type (tr_title row) = "movie" -> sv_value (tr_status row) <> SWatched ->
        opsForTitle row (markWatched row at_)
        = [op "mark_watched"; title_op [("deleted", FBool false)] (match tr_watchedAt row with Some _ => None | None => Some (st_t at_) end)])
  /\ (ref_type (tr_title row) = "movie" -> sv_value (tr_status row) = SWatched -> stamp_lt (newest (RTitle row) 0) at_ ->
        opsForTitle row (unwatch row at_) = [op "unwatch"; title_op [] None])
  /\ (ref_type (tr_title row) = "tv" -> sv_value (tr_status row) <> SWatchlist ->
        opsForTitle row (unwatchSeries row at_) = [op "series_reset"; title_op [("status", FStatus SNone)] None]).
Proof.
  intros Hfresh. apply fresh_fields in Hfresh as (F1 & F2 & F3 & F4 & F5 & F6). cbv zeta.
  destruct row as [sch t [sv sat] p [rv rat] [dv dat] [mv mat] rs add wat unk].
  cbn [tr_status tr_resume tr_reaction tr_deleted tr_dismissed tr_episodesReset tr_title tr_addedAt tr_watchedAt sv_at sv_value] in *.
  repeat split.
  - intros r. unfold react, with_reaction. ops_eval. destruct rs, wat; rewrite ?bool_decide_refl; done.
  - unfold dismissFromContinueWatching, with_dismissed. ops_eval. destruct rs, wat; rewrite ?bool_decide_refl; done.
  - intros ->. unfold addToWatchlist, with_status, with_deleted.
    cbn [tr_status sv_value]. rewrite decide_True by auto. ops_eval. destruct rs, wat; rewrite ?bool_decide_refl; ops_eval; done.
  - intros -> -> Hlt. apply newestOf_remove in Hlt as Hn; [|done..]. revert Hn.
    unfold removeFromLibrary. cbn [tr_status tr_deleted sv_value]. rewrite decide_False by naive_solver. intros Hn. unfold with_status in *.
    ops_eval. destruct rs, wat; rewrite ?bool_decide_refl; cbn in Hn |- *; rewrite ?Hn; done.
  - intros Ht Hs. unfold markWatched, with_status, with_deleted, with_resume, with_watchedAt.
    cbn [tr_watchedAt tr_resume]. ops_eval. rewrite Ht. cbn [pr_value pr_seconds].
    assert (Qc_leb 1 1 = true) as -> by done.
    destruct sv; try done; ops_eval; destruct rs, wat; rewrite ?bool_decide_refl; done.
  - intros Ht -> Hlt. apply newestOf_unwatch in Hlt as Hn. unfold unwatch, with_status, with_resume, with_watchedAt in *.
    ops_eval. rewrite Ht. ops_eval. cbn in Hn |- *. rewrite ?Hn. destruct rs, wat; rewrite ?bool_decide_refl; done.
  - intros Ht Hs. unfold unwatchSeries, unwatch, with_status, with_resume, with_watchedAt, with_episodesReset.
    ops_eval. rewrite Ht. rewrite bool_decide_eq_false_2 by done. destruct sv; try done; ops_eval; done.
Qed.

Definition listed_series : TitleRow :=
  addToWatchlist (blankTitle (mkRef "tv" 1399) 100) (mkStamp 200 0 "a").

Lemma opsFor_actions_witness :
  opsForTitle listed_series (removeFromLibrary listed_series (mkStamp 300 0 "a"))
  = [mkOp (mkRef "tv" 1399) (plain_write "watchlist_remove" (mkStamp 300 0 "a"));
     mkOp (mkRef "tv" 1399) (mkWrite "title" None None None None None None (Some []) (Some 100) None (mkStamp 300 0 "a"))].
Proof.
  destruct (opsFor_actions listed_series (mkStamp 300 0 "a")) as (_ & _ & _ & H & _).
  - unfold fresh. intros Hin. apply (bool_decide_pack _) in Hin. vm_compute in Hin. exact Hin.
  - apply H; vm_compute; reflexivity.
Defined.

Lemma opsFor_writes_witness :
  Forall (fun op => op_target op = mkRef "movie" 550)
    (opsFor (RTitle sample_row) (RTitle (react sample_row (Some RLove) (mkStamp 300 0 "a")))).
Proof.
  apply Forall_forall. intros op Hop.
  destruct (opsFor_writes (RTitle sample_row) (RTitle (react sample_row (Some RLove) (mkStamp 300 0 "a")))) as (_ & H & _).
  destruct (H _ _ op eq_refl eq_refl Hop) as [Ht _]. exact Ht.
Defined.

(** ** Applying writes reads only what they touch *)

Section ApplyFrame.
Context `{DocumentPolicy}.

Lemma applyOp_frame stored stored' now changed op :
  (forall n, n ∈ touched [op] -> stored n = stored' n) -> applyOp stored now changed op = applyOp stored' now changed op.
Proof.
  intros Heq. unfold applyOp.
  assert (Hread : forall n, n ∈ touched [op] -> read_document stored changed n = read_document stored' changed n).
  { intros n Hn. unfold read_document. by rewrite (Heq n Hn). }
  unfold touched in Hread. csimpl in *. rewrite app_nil_r in Hread.
  rewrite (Hread (title_name (op_target op))) by set_solver.
  rewrite (omap_ext_in _ (fun season => read_document stored' changed (season_name (op_target op) season))); [done|].
  intros season Hs. apply Hread. rewrite elem_of_set_of in Hs. apply elem_of_cons. right. apply list_elem_of_fmap. eauto.
Qed.

(** Applying writes reads no stored document but those [touched] names: two stores that agree on
    these give the same changed documents. So a write may be held exactly when a touched document may not be written. *)
Lemma applyOps_frame (ops : list Op) (stored stored' : string -> option DocumentRow) (now : Z) :
  (forall n, n ∈ touched ops -> stored n = stored' n) -> applyOps ops stored now = applyOps ops stored' now.
Proof.
  intros Heq. unfold applyOps. f_equal. generalize ([] : documents). induction ops as [|op ops IH]; intros changed; [done|].
  assert (Ht : touched (op :: ops) = touched [op] ++ touched ops) by (unfold touched; csimpl; by rewrite app_nil_r).
  cbn [res_fold]. rewrite (applyOp_frame stored stored') by (intros; apply Heq; rewrite Ht; set_solver).
  destruct (applyOp stored' now changed op) as [changed'|]; [|done]. cbn. apply IH. intros. apply Heq. rewrite Ht. set_solver.
Qed.

Lemma applyOps_documents_wf ops stored now changed :
  res_fold (applyOp stored now) [] ops = Ok changed -> map_wf changed.
Proof.
  intros Hf. eapply (res_fold_ind map_wf); [apply map_wf_nil| |exact Hf]. intros m op m' Hm _ Ha.
  unfold applyOp in Ha. apply res_bind_Ok in Ha as (answer & _ & [= <-]).
  clear Hf. revert m Hm. induction answer as [|d answer IH]; intros m Hm; [done|]. cbn. apply IH. by apply map_wf_set.
Qed.
End ApplyFrame.

Definition echo_policy : DocumentPolicy := {|
  policy_title_state := fun _ _ => Ok (mkTitleState None None None None None None None None);
  policy_season_state := fun _ _ => Ok [];
  policy_episode_state := fun _ _ _ _ => Ok (mkEpisodeState false None 0 None);
  policy_apply_write := fun _ _ title seasons _ => Ok (match title with Some d => [d] | None => [] end ++ seasons);
|}.

Lemma applyOps_frame_witness :
  let P := echo_policy in
  let d := mkDocumentRow KTitle 4 (mkRef "tv" 7) None None None [] in
  let op := mkOp (mkRef "tv" 7) (plain_write "series_reset" (mkStamp 1 0 "a")) in
  applyOps [op] (fun n => if decide (n = "title:tv:7") then Some d else None) 0
  = applyOps [op] (fun n => if decide (n = "set:prefs") then None else Some d) 0.
Proof.
  intros P d op. apply (applyOps_frame (H:=P)). intros n Hn.
  assert (n = "title:tv:7") as -> by (apply list_elem_of_singleton; exact Hn). reflexivity.
Defined.
