(* ===== verification/Library.v ===== *)
(** * The library as the web shows it ([web/src/lib/library.ts])

    The record log's rows folded into records, marks and flags ([LibraryFold], [applyLog]), and the rules of the
    Watchlist, standings and display. What an episode row means for what is held is den-core's ([EpisodePolicy]). *)

From S2P Require Import Prelude JsMap JsText Json Wire Actions.

(** ** Data *)

(** A title's display: the fields this file reads, and the others as they came. *)
Record Title : Type := mkTitle {
  ti_type : string;
  ti_id : Z;
  ti_title : string;
  ti_posterPath : option string;
  ti_year : option Z;
  ti_rating : option Qc;
  ti_likely : bool;
  ti_rest : list (string * json);
}.

Record LibraryRecord : Type := mkRecord {
  lr_title : Title;
  lr_status : Status;
  lr_progress : Qc;
  lr_progressAt : Z;
  lr_seconds : option Qc;
  lr_playing : option bool;
  lr_progressBy : option string;
  lr_addedAt : Z;
  lr_deleted : bool;
}.

Record Mark : Type := mkMark {
  mk_type : string;
  mk_id : Z;
  mk_season : Z;
  mk_episode : Z;
  mk_fraction : Qc;
  mk_updatedAt : Z;
  mk_seconds : option Qc;
  mk_playing : option bool;
  mk_updatedBy : option string;
  mk_title : string;
  mk_posterPath : option string;
  mk_voteAverage : Qc;
}.

Record Flag : Type := mkFlag { fl_type : string; fl_id : Z; fl_season : Z; fl_episode : Z }.

Record EpisodeRef : Type := mkEpisodeAt { ea_season : Z; ea_episode : Z }.
#[global] Instance EpisodeRef_eq_dec : EqDecision EpisodeRef.
Proof. solve_decision. Defined.

(** A series' season layout. *)
Record Shape : Type := mkShape { sh_counts : jsmap Z Z; sh_lastAired : option EpisodeRef }.

(** [flags] absent is no flags. *)
Record Library : Type := mkLibrary {
  lib_records : list LibraryRecord;
  lib_marks : list Mark;
  lib_flags : jsmap string Flag;
  lib_shapes : jsmap string Shape;
  lib_dismissed : jsmap string Z;
}.

Definition emptyLibrary : Library := mkLibrary [] [] [] [] [].

(** ** Keys *)

Definition keyOf (type : string) (id : Z) : string := type +:+ ":" +:+ Z_str id.
Definition titleKey (t : Title) : string := keyOf (ti_type t) (ti_id t).
Definition recordKey (r : LibraryRecord) : string := titleKey (lr_title r).
Definition markTitleKey (m : Mark) : string := keyOf (mk_type m) (mk_id m).
Definition flagTitleKey (f : Flag) : string := keyOf (fl_type f) (fl_id f).
Definition refKey (t : TitleRef) : string := keyOf (ref_type t) (ref_id t).

(** [markKey]: the series, season and episode. *)
Definition episodeKey (type : string) (id season episode : Z) : string :=
  keyOf type id +:+ ":" +:+ Z_str season +:+ ":" +:+ Z_str episode.
Definition markKey (m : Mark) : string := episodeKey (mk_type m) (mk_id m) (mk_season m) (mk_episode m).
Definition flagKey (f : Flag) : string := episodeKey (fl_type f) (fl_id f) (fl_season f) (fl_episode f).

(** ** Captions *)

(** [[...shape.counts].filter(([season, n]) => season > 0 && n > 0)] *)
Definition shown_seasons (shape : option Shape) : list (Z * Z) :=
  match shape with
  | Some s => filter (fun p => 0 < p.1 /\ 0 < p.2) (sh_counts s)
  | None => []
  end.

(** The middle dot (code unit 183) the captions join with. *)
Definition middot : string := " " +:+ String (ascii_of_nat 183) " ".

Definition yearCaption (title : Title) (shape : option Shape) (lead : option string) : option string :=
  let year := match lead with
              | Some l => Some l
              | None => match ti_year title with
                        | Some y => if y =? 0 then None else Some (Z_str y)
                        | None => None
                        end
              end in
  if negb (String.eqb (ti_type title) "tv") then year
  else
    let seasons := shown_seasons shape in
    let episodes := match seasons with [(_, n)] => n | _ => 0 end in
    let size := if (1 <? length seasons)%nat then Z_str (Z.of_nat (length seasons)) +:+ " seasons"
                else if negb (episodes =? 0) then Z_str episodes +:+ " episode" +:+ (if episodes =? 1 then "" else "s")
                else "Series" in
    match year with
    | Some y => Some (if truthy y then y +:+ middot +:+ size else size)
    | None => Some size
    end.

Definition titleCaption (title : Title) (caption : option string) (shape : option Shape) (lead : option string) : option string :=
  let ordinary := match caption with Some c => Some c | None => yearCaption title shape lead end in
  let parts := match ordinary with Some c => if truthy c then [c] else [] | None => [] end
               ++ (if ti_likely title then ["Likely match"] else []) in
  let text := join middot parts in
  if truthy text then Some text else None.

(** ** The fold *)

Inductive EpisodeAction : Type :=
| AClear
| AKeep
| AFlag
| AReplace (fraction : Qc) (at_ : Z) (seconds : option Qc).

(** den-core's [episode_mark], authoritative: what the row means given the held mark's fraction and time. *)
Class EpisodePolicy := policy_episode_mark : EpisodeRow -> option (Qc * Z) -> res EpisodeAction.

Definition episodeRef (row : EpisodeRow) : Flag :=
  mkFlag (ref_type (ep_title row)) (ref_id (ep_title row)) (ep_season row) (ep_episode row).

Definition nonempty (s : string) : option string := if truthy s then Some s else None.

Definition markFromEpisode (row : EpisodeRow) (fraction : Qc) (at_ : Z) (seconds : option Qc) (display : option Mark) : Mark :=
  mkMark (ref_type (ep_title row)) (ref_id (ep_title row)) (ep_season row) (ep_episode row) fraction at_ seconds
         (pr_playing (ep_progress row)) (nonempty (st_d (pr_at (ep_progress row))))
         (from_option mk_title "" display) (display ≫= mk_posterPath) (from_option mk_voteAverage 0%Qc display).

Record LibraryFold : Type := mkFold {
  f_library : Library;
  f_records : jsmap string LibraryRecord;
  f_dismissed : jsmap string Z;
  f_marks : jsmap string Mark;
  f_seriesMarks : jsmap string Mark;
  f_flags : jsmap string Flag;
  f_resets : jsmap string Z;
}.

Definition newFold (library : Library) : LibraryFold :=
  mkFold library
    (map_of ((fun r => (recordKey r, r)) <$> lib_records library))
    (map_of (lib_dismissed library))
    (map_of ((fun m => (markKey m, m)) <$> lib_marks library))
    (map_of ((fun m => (markTitleKey m, m)) <$> lib_marks library))
    (map_of (lib_flags library))
    [].

Definition bareTitle (ref : TitleRef) : Title := mkTitle (ref_type ref) (ref_id ref) "" None None None false [].

Definition recordFromRow (row : TitleRow) (held : option LibraryRecord) : LibraryRecord :=
  mkRecord (from_option lr_title (bareTitle (tr_title row)) held)
    (sv_value (tr_status row)) (pr_value (tr_resume row)) (st_t (pr_at (tr_resume row)))
    (pr_seconds (tr_resume row)) (pr_playing (tr_resume row)) (nonempty (st_d (pr_at (tr_resume row))))
    (tr_addedAt row) (sv_value (tr_deleted row)).

Section Fold.
Context `{EpisodePolicy}.

Definition episodeAction (row : EpisodeRow) (held : option Mark) : res EpisodeAction :=
  policy_episode_mark row ((fun m => (mk_fraction m, mk_updatedAt m)) <$> held).

(** [add(row)] of an episode row. *)
Definition addEpisodeRow (f : LibraryFold) (row : EpisodeRow) : res LibraryFold :=
  let key := refKey (ep_title row) in
  let episode := episodeRef row in
  let ek := flagKey episode in
  let held := map_get ek (f_marks f) in
  let! decided := episodeAction row held in
  Ok match decided with
     | AClear => mkFold (f_library f) (f_records f) (f_dismissed f) (map_delete ek (f_marks f)) (f_seriesMarks f)
                        (map_delete ek (f_flags f)) (f_resets f)
     | AFlag => mkFold (f_library f) (f_records f) (f_dismissed f) (f_marks f) (f_seriesMarks f)
                       (map_set ek episode (f_flags f)) (f_resets f)
     | AReplace fraction at_ seconds =>
       let mark := markFromEpisode row fraction at_ seconds
                     (match held with Some m => Some m | None => map_get key (f_seriesMarks f) end) in
       mkFold (f_library f) (f_records f) (f_dismissed f) (map_set ek mark (f_marks f)) (map_set key mark (f_seriesMarks f))
              (map_delete ek (f_flags f)) (f_resets f)
     | AKeep => f
     end.

(** [add(row)] of a title row. *)
Definition addTitleRow (f : LibraryFold) (row : TitleRow) : LibraryFold :=
  let key := refKey (tr_title row) in
  let resets := match tr_episodesReset row with Some s => map_set key (st_t s) (f_resets f) | None => f_resets f end in
  let records := map_set key (recordFromRow row (map_get key (f_records f))) (f_records f) in
  let dismissed := if sv_value (tr_dismissed row)
                   then map_set key (max_ninf (map_get key (f_dismissed f)) (st_t (sv_at (tr_dismissed row)))) (f_dismissed f)
                   else f_dismissed f in
  mkFold (f_library f) records dismissed (f_marks f) (f_seriesMarks f) (f_flags f) resets.

Definition foldAdd (f : LibraryFold) (row : Row) : res LibraryFold :=
  if negb (wellFormed row) then Ok f
  else match row with
  | RSettings _ | RDocument _ => Ok f
  | REpisode r => if negb (is_media (ref_type (ep_title r))) then Ok f else addEpisodeRow f r
  | RTitle r => if negb (is_media (ref_type (tr_title r))) then Ok f else Ok (addTitleRow f r)
  end.

(** Whether a mark survives [finish]: no reset of its series at or after it. *)
Definition survives (resets : jsmap string Z) (m : Mark) : Prop :=
  match map_get (markTitleKey m) resets with Some reset => reset < mk_updatedAt m | None => True end.
#[global] Instance survives_dec resets m : Decision (survives resets m).
Proof. unfold survives. destruct (map_get _ _); apply _. Defined.

Definition foldFinish (f : LibraryFold) : Library :=
  mkLibrary (map_values (f_records f))
    (map_values (filter (fun km => survives (f_resets f) km.2) (f_marks f)))
    (filter (fun kf => map_get (flagTitleKey kf.2) (f_resets f) = None) (f_flags f))
    (lib_shapes (f_library f)) (f_dismissed f).

Definition applyLog (library : Library) (rows : list Row) : res Library :=
  let! f := res_fold foldAdd (newFold library) rows in Ok (foldFinish f).

(** [inPolicySlices]: [shouldContinue] is asked before each value and once at the end; the yields between
    tasks change nothing. [None] when the staging owner was replaced. *)
Fixpoint inPolicySlices {A St} (work : St -> A -> res St) (continue : nat -> bool) (i : nat) (s : St) (values : list A) : res (option St) :=
  match values with
  | [] => Ok (if continue i then Some s else None)
  | v :: values =>
    if negb (continue i) then Ok None
    else let! s' := work s v in inPolicySlices work continue (S i) s' values
  end.

(** [worker] is what [applyRowsInWorker] answered: the library a worker projected, or nothing where there is no
    worker; then the rows [wellFormed] keeps are folded here, in slices. *)
Definition applyLogInSlices (library : Library) (rows : list Row) (worker : option Library) (continue : nat -> bool) : res (option Library) :=
  if negb (continue 0%nat) then Ok None
  else match worker with
       | Some projected => Ok (if continue 1%nat then Some projected else None)
       | None =>
         let! completed := inPolicySlices foldAdd continue 1 (newFold library) (filter (fun r => wellFormed r = true) rows) in
         Ok (foldFinish <$> completed)
       end.
End Fold.

(** ** Naming *)

Definition wants_name (r : LibraryRecord) : Prop :=
  lr_deleted r = false /\ ti_title (lr_title r) = "" /\
  (lr_status r = SWatchlist \/ lr_status r = SInProgress \/ lr_status r = SWatched).
#[global] Instance wants_name_dec r : Decision (wants_name r).
Proof. unfold wants_name. apply _. Defined.

Definition mark_wants_name (m : Mark) : Prop := mk_title m = "" /\ is_media (mk_type m) = true.
#[global] Instance mark_wants_name_dec m : Decision (mark_wants_name m).
Proof. unfold mark_wants_name. apply _. Defined.

Definition untitled (library : Library) : list TitleRef :=
  let refs := foldl (fun refs r => if decide (wants_name r)
                                   then map_set (recordKey r) (mkRef (ti_type (lr_title r)) (ti_id (lr_title r))) refs else refs)
                    [] (lib_records library) in
  let refs := foldl (fun refs m => if decide (mark_wants_name m)
                                   then map_set (markTitleKey m) (mkRef (mk_type m) (mk_id m)) refs else refs)
                    refs (lib_marks library) in
  map_values refs.

Definition hasUntitledTitle (library : Library) (ref : TitleRef) : bool :=
  existsb (fun r => String.eqb (ti_type (lr_title r)) (ref_type ref) && (ti_id (lr_title r) =? ref_id ref) && bool_decide (wants_name r))
          (lib_records library)
  || existsb (fun m => String.eqb (mk_type m) (ref_type ref) && (mk_id m =? ref_id ref) && bool_decide (mark_wants_name m))
             (lib_marks library).

Definition withDisplay (library : Library) (titles : list Title) : Library :=
  let byKey := map_of ((fun t => (titleKey t, t)) <$> titles) in
  mkLibrary
    ((fun r => mkRecord (default (lr_title r) (map_get (recordKey r) byKey)) (lr_status r) (lr_progress r) (lr_progressAt r)
                        (lr_seconds r) (lr_playing r) (lr_progressBy r) (lr_addedAt r) (lr_deleted r)) <$> lib_records library)
    ((fun m => match (if decide (mk_title m = "") then map_get (markTitleKey m) byKey else None) with
               | Some t => mkMark (mk_type m) (mk_id m) (mk_season m) (mk_episode m) (mk_fraction m) (mk_updatedAt m) (mk_seconds m)
                                  (mk_playing m) (mk_updatedBy m) (ti_title t) (ti_posterPath t) (default 0%Qc (ti_rating t))
               | None => m
               end) <$> lib_marks library)
    (lib_flags library) (lib_shapes library) (lib_dismissed library).

(** ** Lists *)

Definition on_watchlist (r : LibraryRecord) : Prop :=
  lr_deleted r = false /\ lr_status r = SWatchlist /\ ti_title (lr_title r) <> "".
#[global] Instance on_watchlist_dec r : Decision (on_watchlist r).
Proof. unfold on_watchlist. apply _. Defined.

Definition newest_added (a b : LibraryRecord) : Z := lr_addedAt b - lr_addedAt a.

Definition watchlist (library : Library) : list Title :=
  lr_title <$> js_sort newest_added (filter on_watchlist (lib_records library)).

Definition watchlistSlides {A} (library : Library) (seen : jsmap string (list A)) : list Title :=
  filter (fun t => match map_get (titleKey t) seen with Some (_ :: _) => true | _ => false end = false) (watchlist library).

(** [Standing] is a [Status] other than [none]. *)
Definition standings (library : Library) : jsmap string Status :=
  let out := foldl (fun out m => map_set (markTitleKey m) SInProgress out) [] (lib_marks library) in
  foldl (fun out r =>
    if lr_deleted r || bool_decide (lr_status r = SNone) then out
    else if bool_decide (lr_status r = SWatchlist) && map_has (recordKey r) out then out
    else map_set (recordKey r) (lr_status r) out) out (lib_records library).

Record Content : Type := mkContent { co_type : string; co_id : Z; co_season : option Z; co_episode : option Z }.

Definition contentWatched (library : Library) (content : Content) : bool :=
  match (if String.eqb (co_type content) "tv" then
           match co_season content, co_episode content with Some s, Some e => Some (s, e) | _, _ => None end
         else None) with
  | Some (s, e) =>
    let key := episodeKey (co_type content) (co_id content) s e in
    existsb (fun m => Qc_leb WATCHED (mk_fraction m) && String.eqb (markKey m) key) (lib_marks library)
    || existsb (fun f => String.eqb (flagKey f) key) (map_values (lib_flags library))
  | None =>
    match list_find (fun r => lr_deleted r = false /\ recordKey r = keyOf (co_type content) (co_id content)) (lib_records library) with
    | Some (_, r) => bool_decide (lr_status r = SWatched)
    | None => false
    end
  end.

(** ** Episode order *)

(** A season's place: Specials (season 0) are last. [None] is [Infinity]. *)
Definition season_rank (season : Z) : option Z := if season =? 0 then None else Some season.

(** [(a === 0 ? Infinity : a) - (b === 0 ? Infinity : b)]; [Infinity - Infinity], [NaN], sorts as 0. *)
Definition season_cmp (a b : Z * Z) : Z :=
  match season_rank a.1, season_rank b.1 with
  | Some x, Some y => x - y
  | Some _, None => -1
  | None, Some _ => 1
  | None, None => 0
  end.

Definition episodeAfter (at_ : EpisodeRef) (shape : Shape) : option EpisodeRef :=
  let seasons := js_sort season_cmp (sh_counts shape) in
  match list_find (fun p => p.1 = ea_season at_) seasons with
  | None => None
  | Some (index, (_, count)) =>
    if ea_episode at_ <? count then Some (mkEpisodeAt (ea_season at_) (ea_episode at_ + 1))
    else match list_find (fun p => 0 < p.2) (drop (S index) seasons) with
         | Some (_, (season, _)) => Some (mkEpisodeAt season 1)
         | None => None
         end
  end.

Definition isAired (at_ : EpisodeRef) (lastAired : option EpisodeRef) : bool :=
  match lastAired with
  | None => true
  | Some last =>
    if ea_season last <=? 0 then true
    else (ea_season at_ <? ea_season last) || ((ea_season at_ =? ea_season last) && (ea_episode at_ <=? ea_episode last))
  end.

(** ** What a fold keeps *)

(** [k ↦ v] has [k] for its key under [key]. *)
Definition keyed {V} (key : V -> string) (m : jsmap string V) : Prop := map_wf m /\ forall k v, (k, v) ∈ m -> key v = k.

Lemma keyed_nil {V} (key : V -> string) : keyed key [].
Proof. split; [apply map_wf_nil|set_solver]. Qed.

Lemma keyed_set {V} (key : V -> string) m k v : keyed key m -> key v = k -> keyed key (map_set k v m).
Proof.
  intros [Hwf Hk] Hv. split; [by apply map_wf_set|]. intros k' v' Hin.
  apply (map_elem_get _ _ _ (map_wf_set _ _ _ Hwf)) in Hin. rewrite map_get_set in Hin.
  case_decide; [|by apply Hk, map_get_elem]. subst. congruence.
Qed.

Lemma keyed_filter {V} (key : V -> string) (P : string * V -> Prop) `{!forall x, Decision (P x)} m : keyed key m -> keyed key (filter P m).
Proof. intros [Hwf Hk]. split; [by apply map_wf_filter|]. intros k v [_ Hin]%list_elem_of_filter. auto. Qed.

Lemma keyed_delete {V} (key : V -> string) m k : keyed key m -> keyed key (map_delete k m).
Proof. rewrite map_delete_filter. apply keyed_filter. Qed.

Lemma keyed_of {V} (key : V -> string) (l : list V) : keyed key (map_of ((fun v => (key v, v)) <$> l)).
Proof.
  split; [apply map_wf_of|]. intros k v Hin%elem_of_map_of. apply list_elem_of_fmap in Hin as (v' & [= -> ->] & _). done.
Qed.

(** The values of a keyed map have distinct keys. *)
Lemma keyed_values {V} (key : V -> string) m : keyed key m -> key <$> map_values m = map_keys m.
Proof.
  intros [_ Hk]. unfold map_values, map_keys. rewrite <- list_fmap_compose. apply list_fmap_ext.
  intros i [k v] Hi. cbn. apply Hk. by apply list_elem_of_lookup_2 in Hi.
Qed.

Create HintDb fold.
#[export] Hint Resolve keyed_nil keyed_set keyed_filter keyed_delete keyed_of : fold.

(** A library as the fold leaves it: one record per title, one mark and one flag per episode. *)
Definition library_wf (l : Library) : Prop :=
  NoDup (recordKey <$> lib_records l) /\ NoDup (markKey <$> lib_marks l) /\ keyed flagKey (lib_flags l) /\ map_wf (lib_dismissed l).

Definition fold_wf (f : LibraryFold) : Prop :=
  keyed recordKey (f_records f) /\ keyed markKey (f_marks f) /\ keyed flagKey (f_flags f) /\ map_wf (f_dismissed f).

Lemma newFold_wf l : keyed flagKey (lib_flags l) -> fold_wf (newFold l).
Proof.
  intros [Hwf Hk]. repeat split; cbn; try apply keyed_of; try apply map_wf_of.
  intros k v Hin%elem_of_map_of. auto.
Qed.

Lemma recordKey_fromRow row held :
  (forall r, held = Some r -> recordKey r = refKey (tr_title row)) -> recordKey (recordFromRow row held) = refKey (tr_title row).
Proof. destruct held as [r|]; intros Hh; [|done]. by apply (Hh r). Qed.

Section FoldLemmas.
Context `{EpisodePolicy}.

Lemma foldAdd_wf f row f' : fold_wf f -> foldAdd f row = Ok f' -> fold_wf f'.
Proof.
  intros (H1 & H2 & H3 & H4). unfold foldAdd. destruct (negb (wellFormed row)); [by intros [= <-]|].
  destruct row as [r|r| |]; [| |by intros [= <-]..].
  - destruct (negb _); intros [= <-]; [done|]. split; [|split; [done|split; [done|]]]; cbn.
    + apply keyed_set; [done|]. apply recordKey_fromRow. intros r' Hr. apply H1. by apply map_get_elem.
    + destruct (sv_value (tr_dismissed r)); [by apply map_wf_set|done].
  - destruct (negb _); [by intros [= <-]|]. unfold addEpisodeRow.
    destruct (episodeAction r _) as [[| | |fr at_ sec]|]; cbn; intros [= <-];
      (split; [done|]; split; [|split; [|done]]); cbn; auto with fold.
Qed.

Lemma res_fold_wf f rows f' : fold_wf f -> res_fold foldAdd f rows = Ok f' -> fold_wf f'.
Proof. intros Hf. apply (res_fold_ind fold_wf); [done|]. intros; by eapply foldAdd_wf. Qed.

(** The resets the rows carry: of each title, the last one. *)
Definition row_reset (row : Row) : option (string * Z) :=
  match row with
  | RTitle r => if is_media (ref_type (tr_title r)) then (fun s => (refKey (tr_title r), st_t s)) <$> tr_episodesReset r else None
  | _ => None
  end.

Definition resets_of (rows : list Row) : jsmap string Z := map_of (omap row_reset rows).

Lemma foldAdd_resets f row f' :
  foldAdd f row = Ok f' -> f_resets f' = match row_reset row with Some (k, t) => map_set k t (f_resets f) | None => f_resets f end.
Proof.
  unfold foldAdd. destruct row as [r|r| |]; cbn [wellFormed negb row_reset]; try by intros [= <-].
  - destruct (is_media _); cbn; intros [= <-]; [|done]. cbn. by destruct (tr_episodesReset r).
  - destruct (negb _); [by intros [= <-]|]. destruct (negb _); [by intros [= <-]|]. unfold addEpisodeRow.
    destruct (episodeAction r _) as [[| | |fr at_ sec]|]; cbn; by intros [= <-].
Qed.

Lemma res_fold_resets f rows f' :
  res_fold foldAdd f rows = Ok f' ->
  f_resets f' = foldl (fun m p => map_set p.1 p.2 m) (f_resets f) (omap row_reset rows).
Proof.
  revert f. induction rows as [|row rows IH]; intros f; cbn [res_fold]; [by intros [= <-]|].
  intros (f1 & H1 & H2)%res_bind_Ok. rewrite (IH f1) by done. rewrite (foldAdd_resets _ _ _ H1). csimpl.
  destruct (row_reset row) as [[k t]|]; done.
Qed.

Lemma foldAdd_shapes f row f' : foldAdd f row = Ok f' -> f_library f' = f_library f.
Proof.
  unfold foldAdd. repeat (case_match; try by intros [= <-]). unfold addEpisodeRow.
  match goal with |- context [episodeAction ?r ?h] => destruct (episodeAction r h) as [[]|] end; cbn; by intros [= <-].
Qed.

Lemma applyLog_inv l rows l' :
  applyLog l rows = Ok l' -> exists f, res_fold foldAdd (newFold l) rows = Ok f /\ l' = foldFinish f.
Proof. unfold applyLog. intros (f & H1 & [= <-])%res_bind_Ok. eauto. Qed.

(** Folding the log keeps one record per title, one mark and one flag per episode and one dismissal per
    title, whatever the rows and whatever the policy decides. *)
Lemma applyLog_wf (l l' : Library) (rows : list Row) :
  keyed flagKey (lib_flags l) -> applyLog l rows = Ok l' -> library_wf l'.
Proof.
  intros Hl (f & Hf & ->)%applyLog_inv. apply res_fold_wf in Hf as (H1 & H2 & H3 & H4); [|by apply newFold_wf].
  split; [|split; [|split]]; cbn; [| | |done].
  - rewrite keyed_values by done. apply H1.
  - rewrite keyed_values by auto with fold. by apply map_wf_filter, H2.
  - auto with fold.
Qed.

(** a series un-watched as a whole is un-watched: after the fold no mark at or before its (last) reset is
    left, and no timeless flag of it at all, whenever it was learned. *)
Lemma applyLog_resets (l l' : Library) (rows : list Row) :
  applyLog l rows = Ok l' ->
  (forall m t, m ∈ lib_marks l' -> map_get (markTitleKey m) (resets_of rows) = Some t -> t < mk_updatedAt m)
  /\ (forall k f, (k, f) ∈ lib_flags l' -> map_get (flagTitleKey f) (resets_of rows) = None).
Proof.
  intros (f & Hf & ->)%applyLog_inv. apply res_fold_resets in Hf as Hr. cbn in Hr.
  assert (He : f_resets f = resets_of rows).
  { rewrite Hr. symmetry. apply map_of_foldl. }
  rewrite <- He. split.
  - intros m t Hm Ht. cbn in Hm. apply map_values_elem in Hm as (k & [Hs _]%list_elem_of_filter).
    unfold survives in Hs. cbn in Hs. by rewrite Ht in Hs.
  - intros k fl Hin. cbn in Hin. by apply list_elem_of_filter in Hin as [].
Qed.

(** The record of a title as the fold has it. *)
Lemma foldAdd_record_other f row f' k :
  foldAdd f row = Ok f' -> (forall r, row = RTitle r -> refKey (tr_title r) <> k) ->
  map_get k (f_records f') = map_get k (f_records f).
Proof.
  unfold foldAdd. intros Ha Hne. destruct row as [r|r| |]; cbn [wellFormed negb] in Ha; simplify_eq; try done.
  - destruct (is_media _); cbn in Ha; simplify_eq; [|done]. cbn. apply map_get_set_ne.
    intros ->. by apply (Hne r).
  - revert Ha. destruct (negb _); [by intros [= <-]|]. destruct (negb _); [by intros [= <-]|]. unfold addEpisodeRow.
    destruct (episodeAction r _) as [[| | |fr at_ sec]|]; cbn; by intros [= <-].
Qed.

Lemma res_fold_record_other f rows f' k :
  res_fold foldAdd f rows = Ok f' -> (forall r, RTitle r ∈ rows -> refKey (tr_title r) <> k) ->
  map_get k (f_records f') = map_get k (f_records f).
Proof.
  revert f. induction rows as [|row rows IH]; intros f; cbn [res_fold]; [by intros [= <-]|].
  intros (f1 & H1 & H2)%res_bind_Ok Hne. rewrite (IH f1) by (auto; intros; apply Hne; set_solver).
  eapply foldAdd_record_other; [done|]. intros r ->. apply Hne. set_solver.
Qed.

Lemma res_fold_records l rows f : res_fold foldAdd (newFold l) rows = Ok f -> keyed recordKey (f_records f).
Proof.
  apply (res_fold_ind (fun f => keyed recordKey (f_records f))); [apply keyed_of|]. intros f0 row f1 Hk _.
  unfold foldAdd.
  all: destruct (negb (wellFormed row)); [by intros [= <-]|]; destruct row as [r|r| |]; try by intros [= <-].
  all: destruct (negb _); [by intros [= <-]|].
  all: try (intros [= <-]; cbn; apply keyed_set; [done|]; apply recordKey_fromRow; intros r' Hr; by apply Hk, map_get_elem).
  all: unfold addEpisodeRow; destruct (episodeAction r _) as [[]|]; cbn; by intros [= <-].
Qed.

(** the log's state wins: a film's or series' record after the fold carries the status, progress, position,
    device, date and removal of its last title row, keeping only the display it already had. *)
Lemma applyLog_record (l l' : Library) (pre post : list Row) (row : TitleRow) :
  is_media (ref_type (tr_title row)) = true ->
  (forall r, RTitle r ∈ post -> refKey (tr_title r) <> refKey (tr_title row)) ->
  applyLog l (pre ++ RTitle row :: post) = Ok l' ->
  exists r, r ∈ lib_records l' /\ recordKey r = refKey (tr_title row) /\
    lr_status r = sv_value (tr_status row) /\ lr_progress r = pr_value (tr_resume row) /\
    lr_progressAt r = st_t (pr_at (tr_resume row)) /\ lr_seconds r = pr_seconds (tr_resume row) /\
    lr_playing r = pr_playing (tr_resume row) /\ lr_progressBy r = nonempty (st_d (pr_at (tr_resume row))) /\
    lr_addedAt r = tr_addedAt row /\ lr_deleted r = sv_value (tr_deleted row).
Proof.
  intros Hm Hpost (f & Hf & ->)%applyLog_inv. rewrite res_fold_app in Hf.
  apply res_bind_Ok in Hf as (f1 & H1 & H2). cbn [res_fold] in H2. apply res_bind_Ok in H2 as (f2 & H2 & H3).
  pose proof (res_fold_record_other _ _ _ (refKey (tr_title row)) H3 Hpost) as Hg.
  unfold foldAdd in H2. cbn [wellFormed negb] in H2. rewrite Hm in H2. injection H2 as <-. cbn in Hg.
  rewrite map_get_set_eq in Hg. eexists. split; [apply map_values_elem; eexists; by apply map_get_elem|].
  split; [|done]. apply recordKey_fromRow. intros r Hr. by apply (res_fold_records _ _ _ H1), map_get_elem.
Qed.
(** Rows [wellFormed] refuses change nothing, so dropping them first changes nothing. *)
Lemma res_fold_wellFormed f rows : res_fold foldAdd f (filter (fun r => wellFormed r = true) rows) = res_fold foldAdd f rows.
Proof.
  revert f. induction rows as [|row rows IH]; intros f; [done|]. rewrite filter_cons. cbn [res_fold].
  case_decide as Hw; cbn [res_fold].
  - destruct (foldAdd f row); cbn; auto.
  - unfold foldAdd at 2. apply not_true_is_false in Hw. rewrite Hw. cbn. apply IH.
Qed.

Lemma inPolicySlices_spec {A St} (work : St -> A -> res St) continue i s values :
  (forall j, (i <= j <= i + length values)%nat -> continue j = true) ->
  inPolicySlices work continue i s values = let! s' := res_fold work s values in Ok (Some s').
Proof.
  revert i s. induction values as [|v values IH]; intros i s Hc; cbn.
  - by rewrite Hc by (cbn; lia).
  - rewrite Hc by (cbn; lia). cbn. destruct (work s v); cbn; [|done]. apply IH. intros j Hj. apply Hc. cbn. lia.
Qed.

(** A sliced run that is not cut short ends where the whole fold ends; a throw is the fold's throw. *)
Lemma inPolicySlices_result {A St} (work : St -> A -> res St) continue i s values :
  match inPolicySlices work continue i s values with
  | Ok (Some s') => res_fold work s values = Ok s'
  | Ok None => exists j, (i <= j <= i + length values)%nat /\ continue j = false
  | Throw m => res_fold work s values = Throw m
  end.
Proof.
  revert i s. induction values as [|v values IH]; intros i s; cbn.
  - destruct (continue i) eqn:Hc; [done|]. exists i. split; [lia|done].
  - destruct (continue i) eqn:Hc; cbn; [|exists i; split; [lia|done]].
    destruct (work s v) as [s'|m]; cbn; [|done]. specialize (IH (S i) s').
    destruct (inPolicySlices _ _ _ _ _) as [[?|]|]; [done| |done]. destruct IH as (j & Hj & Hf). exists j. split; [lia|done].
Qed.

(** folding in slices is folding at once: a run whose owner is never replaced returns exactly [applyLog]'s
    library (or throws exactly its throw), and any run that returns a library at all returns [applyLog]'s; it
    returns nothing only when some check said to stop. The worker, where there is one, folds with [applyLog] itself. *)
Lemma applyLogInSlices_spec (library : Library) (rows : list Row) (worker : option Library) (continue : nat -> bool) :
  (forall l, worker = Some l -> applyLog library rows = Ok l) ->
  match applyLogInSlices library rows worker continue with
  | Ok (Some l) => applyLog library rows = Ok l
  | Ok None => exists j, (j <= S (length rows))%nat /\ continue j = false
  | Throw m => applyLog library rows = Throw m
  end.
Proof.
  intros Hworker. unfold applyLogInSlices. destruct (continue 0%nat) eqn:Hc; cbn [negb]; [|exists 0%nat; split; [lia|done]].
  destruct worker as [l|].
  { destruct (continue 1%nat) eqn:Hc1; [by apply Hworker|]. exists 1%nat. split; [lia|done]. }
  unfold applyLog. rewrite <- res_fold_wellFormed.
  pose proof (inPolicySlices_result foldAdd continue 1 (newFold library) (filter (fun r => wellFormed r = true) rows)) as Hr.
  destruct (inPolicySlices _ _ _ _ _) as [[f|]|m]; cbn; try (by rewrite Hr).
  destruct Hr as (j & Hj & Hf). exists j. split; [|done].
  pose proof (length_filter (fun r => wellFormed r = true) rows). lia.
Qed.
End FoldLemmas.

(** ** Naming *)

Section MapFold.
Context {A : Type} (want : A -> Prop) `{!forall x, Decision (want x)} (key : A -> string) (ref : A -> TitleRef).

Lemma foldl_set_elem l (m : jsmap string TitleRef) k t :
  map_wf m ->
  (k, t) ∈ foldl (fun m x => if decide (want x) then map_set (key x) (ref x) m else m) m l ->
  (k, t) ∈ m \/ exists x, x ∈ l /\ want x /\ key x = k /\ ref x = t.
Proof.
  revert m. induction l as [|x l IH]; intros m Hm; cbn [foldl]; [by left|].
  intros Hin. case_decide as Hx.
  - apply IH in Hin as [Hin|?]; [|right; set_solver|by apply map_wf_set].
    apply map_elem_get in Hin; [|by apply map_wf_set]. rewrite map_get_set in Hin. case_decide.
    + right. exists x. simplify_eq. set_solver.
    + left. by apply map_get_elem.
  - apply IH in Hin as [Hin|?]; [by left|right; set_solver|done].
Qed.

Lemma foldl_set_keys l (m : jsmap string TitleRef) k :
  k ∈ map_keys (foldl (fun m x => if decide (want x) then map_set (key x) (ref x) m else m) m l) <->
  k ∈ map_keys m \/ exists x, x ∈ l /\ want x /\ key x = k.
Proof.
  revert m. induction l as [|x l IH]; intros m; cbn [foldl].
  - split; [by left|]. intros [|(? & ? & _)]; [done|set_solver].
  - rewrite IH. case_decide as Hx; [rewrite elem_of_map_keys_set|]; set_solver.
Qed.

Lemma foldl_set_wf l (m : jsmap string TitleRef) :
  map_wf m -> map_wf (foldl (fun m x => if decide (want x) then map_set (key x) (ref x) m else m) m l).
Proof. revert m. induction l as [|x l IH]; intros m Hm; cbn [foldl]; [done|]. apply IH. case_decide; [by apply map_wf_set|done]. Qed.
End MapFold.

Lemma keyOf_inj t i t' i' : keyOf t i = keyOf t' i' -> t = t' /\ i = i'.
Proof.
  unfold keyOf. intros He. apply sep_inj_r in He as [-> He]; [|by apply Z_str_no_char..].
  split; [done|]. apply (f_equal str_Z) in He. rewrite !str_Z_str in He. congruence.
Qed.

Lemma episodeKey_inj t i s e t' i' s' e' :
  episodeKey t i s e = episodeKey t' i' s' e' -> t = t' /\ i = i' /\ s = s' /\ e = e'.
Proof.
  unfold episodeKey. intros He.
  assert (Ha : forall k x y, k +:+ ":" +:+ x +:+ ":" +:+ y = (k +:+ String ":" x) +:+ String ":" y).
  { intros. rewrite string_app_assoc. done. }
  rewrite !Ha in He. apply sep_inj_r in He as [He Hz]; [|by apply Z_str_no_char..].
  apply sep_inj_r in He as [He Hz']; [|by apply Z_str_no_char..].
  apply keyOf_inj in He as [-> ->]. apply (f_equal str_Z) in Hz, Hz'. rewrite !str_Z_str in Hz, Hz'. naive_solver.
Qed.

Definition untitled_map (library : Library) : jsmap string TitleRef :=
  foldl (fun refs m => if decide (mark_wants_name m) then map_set (markTitleKey m) (mkRef (mk_type m) (mk_id m)) refs else refs)
    (foldl (fun refs r => if decide (wants_name r)
                          then map_set (recordKey r) (mkRef (ti_type (lr_title r)) (ti_id (lr_title r))) refs else refs)
       [] (lib_records library))
    (lib_marks library).

Lemma untitled_map_keyed library : keyed refKey (untitled_map library).
Proof.
  unfold untitled_map. split; [do 2 apply foldl_set_wf; apply map_wf_nil|]. intros k t Hin.
  apply foldl_set_elem in Hin as [Hin|(m & _ & _ & <- & <-)]; [|done|by apply foldl_set_wf, map_wf_nil].
  apply foldl_set_elem in Hin as [Hin|(m & _ & _ & <- & <-)]; [set_solver|done|apply map_wf_nil].
Qed.

Lemma keyed_values_elem {V} (key : V -> string) m v : keyed key m -> v ∈ map_values m -> key v ∈ map_keys m.
Proof. intros Hk Hv. rewrite <- (keyed_values _ _ Hk). apply list_elem_of_fmap. eauto. Qed.

(** A title is asked for a name exactly when it is among those that want one, and it is asked once. *)
Lemma hasUntitledTitle_untitled (library : Library) (ref : TitleRef) :
  NoDup (untitled library) /\ (hasUntitledTitle library ref = true <-> ref ∈ untitled library).
Proof.
  change (untitled library) with (map_values (untitled_map library)). pose proof (untitled_map_keyed library) as Hk. split.
  { apply (NoDup_fmap_1 refKey). rewrite keyed_values by done. apply Hk. }
  transitivity (refKey ref ∈ map_keys (untitled_map library)).
  - unfold untitled_map. rewrite !foldl_set_keys. unfold hasUntitledTitle. rewrite orb_true_iff, !existsb_exists.
    setoid_rewrite andb_true_iff. setoid_rewrite andb_true_iff. setoid_rewrite String.eqb_eq. setoid_rewrite Z.eqb_eq.
    setoid_rewrite bool_decide_eq_true. setoid_rewrite <- list_elem_of_In. destruct ref as [ty id]. cbn.
    split.
    + intros [(x & ? & [<- <-] & ?)|(x & ? & [<- <-] & ?)]; [left; right|right]; exists x; done.
    + intros [[?|(x & ? & ? & [<- <-]%keyOf_inj)]|(x & ? & ? & [<- <-]%keyOf_inj)]; [set_solver|left|right]; exists x; done.
  - split; [|by apply keyed_values_elem].
    intros Hin. apply map_get_is_Some in Hin as [t Ht]. apply map_get_elem in Ht.
    pose proof (proj2 Hk _ _ Ht) as He. assert (ref = t) as ->.
    { destruct ref, t. unfold refKey in He. cbn in He. by apply keyOf_inj in He as [-> ->]. }
    apply map_values_elem. eauto.
Qed.

(** ** Episode order *)

#[global] Instance season_cmp_comparator : Comparator season_cmp.
Proof.
  split; intros; unfold season_cmp in *; repeat destruct (season_rank _); lia.
Qed.

(** Every episode of a shape in watching order: the numbered seasons ascending, then Specials. *)
Definition episodes_in (seasons : list (Z * Z)) : list EpisodeRef :=
  seasons ≫= fun p => mkEpisodeAt p.1 <$> seqZ 1 p.2.
Definition watching_order (shape : Shape) : list EpisodeRef := episodes_in (js_sort season_cmp (sh_counts shape)).

Lemma episodes_in_app l1 l2 : episodes_in (l1 ++ l2) = episodes_in l1 ++ episodes_in l2.
Proof. apply bind_app. Qed.

Lemma episodes_in_first l :
  episodes_in l !! 0%nat = (fun r : nat * (Z * Z) => mkEpisodeAt r.2.1 1) <$> list_find (fun p => 0 < p.2) l.
Proof.
  unfold episodes_in. induction l as [|[s c] l IH]; [done|]. rewrite bind_cons. cbn [fst snd list_find].
  destruct (decide (0 < c)) as [Hc|Hc].
  - by rewrite seqZ_cons by lia.
  - rewrite seqZ_nil by lia. cbn [fmap list_fmap app]. rewrite IH. by destruct (list_find _ _) as [[? []]|].
Qed.

Lemma list_find_middle {A} (P : A -> Prop) `{!forall x, Decision (P x)} l1 x l2 :
  Forall (fun y => ~ P y) l1 -> P x -> list_find P (l1 ++ x :: l2) = Some (length l1, x).
Proof.
  intros H1 Hx. apply list_find_Some. rewrite lookup_app_r, Nat.sub_diag by lia. split_and!; [done..|].
  intros j y Hj Hlt. rewrite lookup_app_l in Hj by lia. by eapply Forall_lookup_1 in H1.
Qed.

(** the episode after one that exists is the next of the watching order, whatever its season; there is
    none after the last. *)
Lemma episodeAfter_next (shape : Shape) (season episode count : Z) :
  map_wf (sh_counts shape) -> map_get season (sh_counts shape) = Some count -> 1 <= episode <= count ->
  exists i, watching_order shape !! i = Some (mkEpisodeAt season episode) /\
            episodeAfter (mkEpisodeAt season episode) shape = watching_order shape !! S i.
Proof.
  intros Hwf Hg He. unfold watching_order, episodeAfter. cbn [ea_season ea_episode].
  apply map_get_elem in Hg. apply (elem_of_js_sort season_cmp) in Hg.
  assert (Hnd : NoDup (js_sort season_cmp (sh_counts shape)).*1).
  { rewrite js_sort_perm. apply Hwf. }
  apply list_elem_of_split in Hg as (l1 & l2 & Hl). rewrite Hl in *. clear Hl.
  rewrite fmap_app, fmap_cons in Hnd. apply NoDup_app in Hnd as (_ & Hn & _).
  rewrite list_find_middle; [|apply Forall_forall; intros p Hp Heq; apply (Hn p.1); [apply list_elem_of_fmap; eauto|cbn in *; set_solver]|done].
  exists (length (episodes_in l1) + Z.to_nat (episode - 1))%nat.
  assert (Hlen : length (mkEpisodeAt season <$> seqZ 1 count) = Z.to_nat count) by (by rewrite length_fmap, length_seqZ).
  rewrite episodes_in_app, lookup_app_r by lia.
  change (episodes_in ((season, count) :: l2)) with ((mkEpisodeAt season <$> seqZ 1 count) ++ episodes_in l2).
  split.
  - rewrite lookup_app_l by lia. rewrite list_lookup_fmap, lookup_seqZ_lt by lia. cbn. do 2 f_equal. lia.
  - rewrite lookup_app_r by lia. destruct (Z.ltb_spec episode count).
    + rewrite lookup_app_l by lia. rewrite list_lookup_fmap, lookup_seqZ_lt by lia. cbn. do 2 f_equal. lia.
    + rewrite lookup_app_r by lia. replace (_ - _ - _)%nat with 0%nat by lia. rewrite episodes_in_first.
      replace (drop (S (length l1)) (l1 ++ (season, count) :: l2)) with l2.
      * by destruct (list_find _ l2) as [[? []]|].
      * rewrite drop_app_ge by lia. replace (S (length l1) - length l1)%nat with 1%nat by lia. done.
Qed.

Lemma episodeAfter_next_witness :
  let shape := mkShape [(2, 1); (0, 3); (1, 2)] None in
  exists i, watching_order shape !! i = Some (mkEpisodeAt 2 1) /\ episodeAfter (mkEpisodeAt 2 1) shape = watching_order shape !! S i.
Proof. cbn zeta. apply (episodeAfter_next _ 2 1 1); [|reflexivity|lia]. unfold map_wf. cbn. apply NoDup_ListNoDup. repeat constructor; cbn; lia. Defined.

(** ** Worked example

    A policy that follows the rule of den-core's [episode_mark]: nothing played clears, a finished timeless row
    flags, an older row loses to what is held. *)
Definition plain_episodes : EpisodePolicy := fun row held =>
  let p := ep_progress row in
  if Qc_leb (pr_value p) 0 then Ok AClear
  else if st_t (pr_at p) =? 0 then Ok AFlag
  else match held with
       | Some (_, at_) => if st_t (pr_at p) <? at_ then Ok AKeep else Ok (AReplace (pr_value p) (st_t (pr_at p)) (pr_seconds p))
       | None => Ok (AReplace (pr_value p) (st_t (pr_at p)) (pr_seconds p))
       end.

Definition sample_episode (season episode t : Z) (value : Qc) : Row :=
  REpisode (mkEpisodeRow 1 (mkRef "tv" 7) season episode (mkProgress value (mkStamp t 0 "d") 0 None None) []).

Definition sample_film : TitleRow := act AAdd (blankTitle (mkRef "movie" 9) 100) (mkStamp 200 0 "d").
Definition sample_series : TitleRow := unwatchSeries (blankTitle (mkRef "tv" 7) 100) (mkStamp 500 0 "d").

Definition sample_rows : list Row :=
  [sample_episode 1 1 400 1%Qc; sample_episode 1 2 600 1%Qc; sample_episode 1 3 0 1%Qc; RTitle sample_film; RTitle sample_series].

Definition sample_library : Library :=
  match @applyLog plain_episodes emptyLibrary sample_rows with Ok l => l | Throw _ => emptyLibrary end.

Lemma applyLogInSlices_spec_witness :
  @applyLogInSlices plain_episodes emptyLibrary sample_rows None (fun _ => true) = Ok (Some sample_library)
  /\ @applyLog plain_episodes emptyLibrary sample_rows = Ok sample_library
  /\ @applyLogInSlices plain_episodes emptyLibrary sample_rows None (fun i => (i <? 3)%nat) = Ok None.
Proof.
  assert (He : @applyLogInSlices plain_episodes emptyLibrary sample_rows None (fun _ => true) = Ok (Some sample_library)) by (vm_compute; reflexivity).
  split; [exact He|]. split; [|vm_compute; reflexivity].
  pose proof (@applyLogInSlices_spec plain_episodes emptyLibrary sample_rows None (fun _ => true)) as H. rewrite He in H.
  apply H. intros l Hl. discriminate Hl.
Defined.

Lemma applyLog_wf_witness : library_wf sample_library.
Proof. apply (@applyLog_wf plain_episodes emptyLibrary sample_library sample_rows); [apply keyed_nil|vm_compute; reflexivity]. Defined.

Lemma applyLog_resets_witness :
  map_get "tv:7" (resets_of sample_rows) = Some 500 /\ mk_updatedAt <$> lib_marks sample_library = [600] /\
  (forall m t, m ∈ lib_marks sample_library -> map_get (markTitleKey m) (resets_of sample_rows) = Some t -> t < mk_updatedAt m).
Proof.
  split; [reflexivity|]. split; [reflexivity|].
  apply (@applyLog_resets plain_episodes emptyLibrary sample_library sample_rows). vm_compute. reflexivity.
Defined.

Lemma applyLog_record_witness :
  exists r, r ∈ lib_records sample_library /\ recordKey r = "movie:9" /\ lr_status r = SWatchlist.
Proof.
  destruct (@applyLog_record plain_episodes emptyLibrary sample_library
    [sample_episode 1 1 400 1%Qc; sample_episode 1 2 600 1%Qc; sample_episode 1 3 0 1%Qc] [RTitle sample_series] sample_film)
    as (r & H1 & H2 & H3 & _).
  - reflexivity.
  - intros r [= ->]%list_elem_of_singleton. discriminate.
  - vm_compute. reflexivity.
  - exists r. split; [exact H1|]. split; [exact H2|]. rewrite H3. reflexivity.
Defined.
