(* ===== verification/Continue.v ===== *)
(** * Continue Watching ([web/src/lib/library.ts], from [ContinueSummaries])

    The summaries per series and the candidates the shared policy chooses from them, from a whole library or from
    the compact one. *)

From S2P Require Import Prelude JsMap JsText Json Wire Actions Library.

(** ** Summaries *)

(** [ahead(a, b)], on (season, episode) pairs. *)
Definition ahead (a b : Z * Z) : bool := (b.1 <? a.1) || ((a.1 =? b.1) && (b.2 <? a.2)).
Definition mark_at (m : Mark) : Z * Z := (mk_season m, mk_episode m).
Definition flag_at (f : Flag) : Z * Z := (fl_season f, fl_episode f).

Record ContinueSummaries : Type := mkSummaries {
  su_latest : jsmap string Mark;
  su_finished : jsmap string Mark;
  su_flagged : jsmap string Flag;
}.

Definition noSummaries : ContinueSummaries := mkSummaries [] [] [].

(** Whether [mark] is what was touched last, given what is held. *)
Definition newer_mark (mark : Mark) (held : option Mark) : bool :=
  match held with None => true | Some current => mk_updatedAt current <? mk_updatedAt mark end.

(** Whether [mark] is what was finished last, given what is held. *)
Definition newer_finished (mark : Mark) (held : option Mark) : bool :=
  Qc_leb WATCHED (mk_fraction mark) &&
  match held with
  | None => true
  | Some front => (mk_updatedAt front <? mk_updatedAt mark)
                  || ((mk_updatedAt mark =? mk_updatedAt front) && ahead (mark_at mark) (mark_at front))
  end.

Definition further_flag (flag : Flag) (held : option Flag) : bool :=
  match held with None => true | Some front => ahead (flag_at flag) (flag_at front) end.

(** Replace what is held at the element's key where [better] says so. *)
Definition keep_best {V} (key : V -> string) (better : V -> option V -> bool) (m : jsmap string V) (v : V) : jsmap string V :=
  if better v (map_get (key v) m) then map_set (key v) v m else m.

Definition addMark (s : ContinueSummaries) (mark : Mark) : ContinueSummaries :=
  if negb (String.eqb (mk_type mark) "tv") then s
  else mkSummaries (keep_best markTitleKey newer_mark (su_latest s) mark)
                   (keep_best markTitleKey newer_finished (su_finished s) mark)
                   (su_flagged s).

Definition addFlag (s : ContinueSummaries) (flag : Flag) : ContinueSummaries :=
  if negb (String.eqb (fl_type flag) "tv") then s
  else mkSummaries (su_latest s) (su_finished s) (keep_best flagTitleKey further_flag (su_flagged s) flag).

Definition continueSummaries (library : Library) : ContinueSummaries :=
  foldl addFlag (foldl addMark noSummaries (lib_marks library)) (map_values (lib_flags library)).

Definition addEpisode `{EpisodePolicy} (s : ContinueSummaries) (row : EpisodeRow) (resetAt : option Z) : res ContinueSummaries :=
  let! decided := episodeAction row None in
  Ok match decided with
     | AReplace fraction at_ seconds =>
       if match resetAt with Some r => r <? at_ | None => true end
       then addMark s (markFromEpisode row fraction at_ seconds None) else s
     | AFlag => match resetAt with None => addFlag s (episodeRef row) | Some _ => s end
     | AClear | AKeep => s
     end.

Definition activeKeys (s : ContinueSummaries) : list string := set_of (map_keys (su_latest s) ++ map_keys (su_flagged s)).

(** The records [compact] keeps. *)
Definition kept_record (s : ContinueSummaries) (record : LibraryRecord) : bool :=
  negb (lr_deleted record) &&
  (if String.eqb (ti_type (lr_title record)) "movie" then bool_decide (lr_status record = SInProgress)
   else String.eqb (ti_type (lr_title record)) "tv" && bool_decide (recordKey record ∈ activeKeys s)
        && (bool_decide (lr_status record = SWatched) || map_has (recordKey record) (su_flagged s))).

Definition compact (s : ContinueSummaries) (records : list LibraryRecord) (dismissed : jsmap string Z) : Library :=
  let kept := filter (fun r => kept_record s r = true) records in
  let live := set_of ((recordKey <$> kept) ++ activeKeys s) in
  let live := foldl (fun live r =>
                if negb (lr_deleted r) && String.eqb (ti_type (lr_title r)) "tv" && bool_decide (lr_status r = SWatched)
                then set_add (recordKey r) live else live) live records in
  mkLibrary kept
    (su_latest s ≫= fun '(key, newest) =>
       match map_get key (su_finished s) with
       | Some front => if bool_decide (markKey front <> markKey newest) then [newest; front] else [newest]
       | None => [newest]
       end)
    (map_of ((fun f => (flagKey f, f)) <$> map_values (su_flagged s)))
    []
    (filter (fun kv => kv.1 ∈ live) dismissed).

(** ** The policy's request and answer *)

Record AiringEpisode : Type := mkAiring { air_season : Z; air_episode : Z; air_date : string }.
Record AiringSeries : Type := mkAiringSeries { as_episodes : list AiringEpisode; as_ended : bool }.
Record ContinueAiring : Type := mkContinueAiring { ca_today : string; ca_series : jsmap string AiringSeries }.
#[global] Instance AiringEpisode_eq_dec : EqDecision AiringEpisode.
Proof. solve_decision. Defined.
#[global] Instance AiringSeries_eq_dec : EqDecision AiringSeries.
Proof. solve_decision. Defined.

(** An [airing] observation as [setAiring] takes it. *)
Definition continueAiring (today : string) (series : list (TitleRef * AiringSeries)) : ContinueAiring :=
  mkContinueAiring today (map_of ((fun p => (refKey p.1, p.2)) <$> series)).

(** The [continue_entry] request, whose JSON text is the cache key; two requests have one text exactly when they
    are equal. *)
Record ContinueRequest : Type := mkRequest {
  rq_mark : option (Z * Z * Qc * Z);
  rq_finished : option (Z * Z * Z);
  rq_flag : option (Z * Z);
  rq_seasons : list (Z * Z);
  rq_lastAired : option EpisodeRef;
  rq_dismissedAt : option Z;
  rq_titleWatched : bool;
  rq_airing : option (list AiringEpisode * string * bool);
}.
#[global] Instance ContinueRequest_eq_dec : EqDecision ContinueRequest.
Proof. solve_decision. Defined.

Inductive ContinueAction : Type := CResume | CNext | CStart | CUpcoming | CNone.
#[global] Instance ContinueAction_eq_dec : EqDecision ContinueAction.
Proof. solve_decision. Defined.

Record ContinueAnswer : Type := mkAnswer {
  an_action : ContinueAction;
  an_code : string;
  an_episode : option EpisodeRef;
  an_fraction : Qc;
  an_date : option string;
}.

Inductive Display : Type := DMark | DRecord.

Record ContinueCandidate : Type := mkCandidate {
  cc_ref : TitleRef;
  cc_display : Display;
  cc_fraction : Qc;
  cc_episode : option EpisodeRef;
  cc_upcoming : option string;
  cc_seconds : option Qc;
  cc_playing : option bool;
  cc_at : option Z;
  cc_liveEpisode : option EpisodeRef;
  cc_liveFraction : option Qc;
  cc_by : option string;
}.

Definition candidateKey (c : ContinueCandidate) : string := refKey (cc_ref c).

(** ** Candidates *)

(** [(at(a) === at(b) ? 0 : at(a) > at(b) ? -1 : 1)], [None] being [-Infinity]. *)
Definition newest_cmp (activity : jsmap string (option Z)) (a b : ContinueCandidate) : Z :=
  Z.sgn (sub_ninf (map_get (candidateKey b) activity ≫= id) (map_get (candidateKey a) activity ≫= id)).

Definition newestFirst (entries : list ContinueCandidate) (activity : jsmap string (option Z)) : list ContinueCandidate :=
  js_sort (newest_cmp activity) entries.

(** Series by their latest mark, newest first; [None], a series known only by a flag, last. *)
Definition latest_cmp (latest : jsmap string Z) (a b : string) : Z := sub_ninf (map_get b latest) (map_get a latest).

(** The records that count: those not removed, by title. *)
Definition liveRecords (library : Library) : jsmap string LibraryRecord :=
  map_of ((fun r => (recordKey r, r)) <$> filter (fun r => lr_deleted r = false) (lib_records library)).

Definition titleRefOf (t : Title) : TitleRef := mkRef (ti_type t) (ti_id t).

(** The series' ref: its latest mark's, or its record's. *)
Definition seriesRefOf (records : jsmap string LibraryRecord) (key : string) (mark : option Mark) : option TitleRef :=
  match mark with
  | Some m => Some (mkRef (mk_type m) (mk_id m))
  | None => titleRefOf ∘ lr_title <$> map_get key records
  end.

Definition continueRequest (library : Library) (records : jsmap string LibraryRecord) (s : ContinueSummaries)
    (airing : option ContinueAiring) (key : string) : ContinueRequest :=
  let shape := map_get key (lib_shapes library) in
  let dated := airing ≫= fun a => (fun d => (as_episodes d, ca_today a, as_ended d)) <$> map_get key (ca_series a) in
  mkRequest ((fun m => (mk_season m, mk_episode m, mk_fraction m, mk_updatedAt m)) <$> map_get key (su_latest s))
    ((fun m => (mk_season m, mk_episode m, mk_updatedAt m)) <$> map_get key (su_finished s))
    (flag_at <$> map_get key (su_flagged s))
    (from_option sh_counts [] shape) (shape ≫= sh_lastAired)
    (map_get key (lib_dismissed library))
    (match map_get key records with Some r => bool_decide (lr_status r = SWatched) | None => false end)
    dated.

(** The candidate an answer makes of a series. *)
Definition seriesCandidate (ref : TitleRef) (mark : option Mark) (answer : ContinueAnswer) : option ContinueCandidate :=
  match an_action answer, an_episode answer with
  | CNone, _ | _, None => None
  | action, Some episode =>
    let positioned := match mark with Some m => mk_seconds m | None => None end in
    let upcoming := match action, an_date answer with CUpcoming, Some d => nonempty d | _, _ => None end in
    Some match mark, positioned with
         | Some m, Some s => mkCandidate ref DMark (an_fraction answer) (Some episode) upcoming (Some s) (mk_playing m)
                               (Some (mk_updatedAt m)) (Some (mkEpisodeAt (mk_season m) (mk_episode m)))
                               (Some (mk_fraction m)) (mk_updatedBy m ≫= nonempty)
         | _, _ => mkCandidate ref (match mark with Some _ => DMark | None => DRecord end) (an_fraction answer)
                     (Some episode) upcoming None None None None None None
         end
  end.

Definition in_progress_film (r : LibraryRecord) : Prop :=
  lr_deleted r = false /\ lr_status r = SInProgress /\ ti_type (lr_title r) = "movie".
#[global] Instance in_progress_film_dec r : Decision (in_progress_film r).
Proof. unfold in_progress_film. apply _. Defined.

Definition newest_progress (a b : LibraryRecord) : Z := lr_progressAt b - lr_progressAt a.

Definition dismissedSince (library : Library) (key : string) (activity : Z) : bool :=
  match map_get key (lib_dismissed library) with Some d => activity <=? d | None => false end.

Definition filmCandidate (r : LibraryRecord) : ContinueCandidate :=
  match lr_seconds r with
  | Some s => mkCandidate (titleRefOf (lr_title r)) DRecord (lr_progress r) None None (Some s) (lr_playing r)
                (Some (lr_progressAt r)) None None (lr_progressBy r ≫= nonempty)
  | None => mkCandidate (titleRefOf (lr_title r)) DRecord (lr_progress r) None None None None None None None None
  end.

(** What the loops of [continueCandidates] build: [seen], [entries] and [activity]. *)
Record Entries : Type := mkEntries {
  en_seen : list string;
  en_entries : list ContinueCandidate;
  en_activity : jsmap string (option Z);
}.

Definition pushEntry (e : Entries) (key : string) (c : ContinueCandidate) (activity : option Z) : Entries :=
  mkEntries (set_add key (en_seen e)) (en_entries e ++ [c]) (map_set key activity (en_activity e)).

Section Candidates.
Context {St : Type} (decide_ : St -> string -> ContinueRequest -> St * ContinueAnswer).

Definition seriesStep (library : Library) (records : jsmap string LibraryRecord) (s : ContinueSummaries)
    (airing : option ContinueAiring) (acc : St * Entries) (key : string) : St * Entries :=
  let '(st, e) := acc in
  let mark := map_get key (su_latest s) in
  match seriesRefOf records key mark with
  | None => acc
  | Some ref =>
    if negb (is_media (ref_type ref)) then acc
    else
      let '(st', answer) := decide_ st key (continueRequest library records s airing key) in
      match seriesCandidate ref mark answer with
      | None => (st', e)
      | Some c => if bool_decide (key ∈ en_seen e) then (st', e)
                  else (st', pushEntry e key c (mk_updatedAt <$> mark))
      end
  end.

Definition filmStep (library : Library) (e : Entries) (record : LibraryRecord) : Entries :=
  let key := recordKey record in
  if dismissedSince library key (lr_progressAt record) || bool_decide (key ∈ en_seen e) then e
  else pushEntry e key (filmCandidate record) (Some (lr_progressAt record)).

(** The series in the order the row considers them. *)
Definition seriesKeys (s : ContinueSummaries) : list string :=
  js_sort (latest_cmp ((fun p => (p.1, mk_updatedAt p.2)) <$> su_latest s)) (activeKeys s).

Definition continueCandidates (st : St) (library : Library) (airing : option ContinueAiring) : St * list ContinueCandidate :=
  let records := liveRecords library in
  let s := continueSummaries library in
  let '(st', e) := foldl (seriesStep library records s airing) (st, mkEntries [] [] []) (seriesKeys s) in
  let movies := js_sort newest_progress (filter in_progress_film (lib_records library)) in
  let e := foldl (filmStep library) e movies in
  (st', newestFirst (en_entries e) (en_activity e)).
End Candidates.

(** den-core's [continue_entry], as it answers one request. *)
Class ContinuePolicy := policy_continue_entry : ContinueRequest -> ContinueAnswer.

(** ** Summaries as the best of each series *)

Section Best.
Context {V : Type} (key : V -> string) (better : V -> option V -> bool).

(** The best of a list, in the order it is met. *)
Definition best (l : list V) : option V := foldl (fun acc v => if better v acc then Some v else acc) None l.

Definition keep_all (m : jsmap string V) (l : list V) : jsmap string V := foldl (keep_best key better) m l.

Lemma keep_best_get m v k :
  map_get k (keep_best key better m v) = if decide (key v = k) then (if better v (map_get k m) then Some v else map_get k m) else map_get k m.
Proof.
  unfold keep_best. case_decide as Hk.
  - subst. destruct (better v _); [by rewrite map_get_set_eq|done].
  - destruct (better v _); [by rewrite map_get_set_ne by auto|done].
Qed.

Lemma keep_all_get m l k :
  map_get k (keep_all m l) = foldl (fun acc v => if better v acc then Some v else acc) (map_get k m) (filter (fun v => key v = k) l).
Proof.
  revert m. induction l as [|v l IH]; intros m; [done|]. cbn [keep_all foldl]. unfold keep_all in IH. rewrite IH, keep_best_get, filter_cons.
  by case_decide.
Qed.

Lemma keep_all_best l k : map_get k (keep_all [] l) = best (filter (fun v => key v = k) l).
Proof. apply keep_all_get. Qed.

Lemma keep_all_keyed m l : keyed key m -> keyed key (keep_all m l).
Proof.
  revert m. induction l as [|v l IH]; intros m Hm; [done|]. apply IH. unfold keep_best.
  destruct (better _ _); [by apply keyed_set|done].
Qed.

Lemma keep_all_keys m l :
  (forall v, better v None = true) -> map_keys (keep_all m l) = foldl (fun s k => set_add k s) (map_keys m) (key <$> l).
Proof.
  intros Hb. revert m. induction l as [|v l IH]; intros m; [done|]. cbn [keep_all foldl fmap list_fmap]. unfold keep_all in IH.
  rewrite IH. f_equal. unfold keep_best, set_add. destruct (map_get (key v) m) as [u|] eqn:E.
  - assert (key v ∈ map_keys m) by (apply map_get_is_Some; eauto).
    rewrite decide_True by done. destruct (better v _); [|done]. by rewrite map_keys_set, decide_True.
  - apply map_get_None in E as Hn. rewrite Hb, map_keys_set. rewrite !decide_False by done. done.
Qed.

(** A keyed map is what its own values make. *)
Lemma keep_all_values m : (forall v, better v None = true) -> keyed key m -> keep_all [] (map_values m) = m.
Proof.
  intros Hb Hk. unfold keep_all.
  assert (Hg : forall acc l, NoDup (map_keys (acc ++ l)) -> (forall k v, (k, v) ∈ l -> key v = k) ->
    foldl (keep_best key better) acc (map_values l) = acc ++ l).
  { intros acc l. revert acc. induction l as [|[k v] l IH]; intros acc Hnd He; [by rewrite app_nil_r|].
    change (map_values ((k, v) :: l)) with (v :: map_values l). cbn [foldl]. unfold keep_best at 2. rewrite (He k v) by set_solver.
    unfold map_keys in Hnd. rewrite fmap_app, fmap_cons in Hnd. apply NoDup_app in Hnd as Hnd'. destruct Hnd' as (_ & Hd & _).
    assert (Hn : k ∉ map_keys acc) by (intros Hin; apply (Hd k Hin); set_solver).
    apply map_get_None in Hn as Hn'. rewrite Hn', Hb, map_set_fresh by done.
    rewrite IH; [by rewrite <- app_assoc| |set_solver]. unfold map_keys. rewrite <- app_assoc. cbn. by rewrite fmap_app, fmap_cons. }
  apply (Hg []); apply Hk.
Qed.
End Best.

Lemma best_snoc {V} (better : V -> option V -> bool) l v :
  best better (l ++ [v]) = if better v (best better l) then Some v else best better l.
Proof. unfold best. by rewrite foldl_app. Qed.

Lemma newer_mark_None v : newer_mark v None = true.
Proof. done. Qed.
Lemma further_flag_None v : further_flag v None = true.
Proof. done. Qed.

Lemma best_newest l :
  match best newer_mark l with
  | Some n => n ∈ l /\ forall m, m ∈ l -> mk_updatedAt m <= mk_updatedAt n
  | None => l = []
  end.
Proof.
  induction l as [|v l IH] using rev_ind; [done|]. rewrite best_snoc. destruct (best newer_mark l) as [n|]; cbn.
  - destruct IH as [Hn Hm]. destruct (Z.ltb_spec (mk_updatedAt n) (mk_updatedAt v)); (split; [set_solver|]);
      intros m [Hin| ->%list_elem_of_singleton]%elem_of_app; try lia; apply Hm in Hin; lia.
  - subst. split; [set_solver|]. intros m [Hin| ->%list_elem_of_singleton]%elem_of_app; [set_solver|lia].
Qed.

(** [front] is at least as finished as [m]. *)
Definition finished_le (m front : Mark) : Prop :=
  mk_updatedAt m < mk_updatedAt front \/ (mk_updatedAt m = mk_updatedAt front /\ ahead (mark_at m) (mark_at front) = false).


Lemma ahead_spec a b : ahead a b = true <-> b.1 < a.1 \/ (a.1 = b.1 /\ b.2 < a.2).
Proof. unfold ahead. rewrite orb_true_iff, andb_true_iff, !Z.ltb_lt, Z.eqb_eq. done. Qed.
Lemma ahead_spec_false a b : ahead a b = false <-> a.1 < b.1 \/ (a.1 = b.1 /\ a.2 <= b.2).
Proof. rewrite <- not_true_iff_false, ahead_spec. lia. Qed.

Lemma finished_le_step v n m : mk_updatedAt n < mk_updatedAt v \/ (mk_updatedAt v = mk_updatedAt n /\ ahead (mark_at v) (mark_at n) = true) ->
  finished_le m n -> finished_le m v.
Proof. unfold finished_le. rewrite !ahead_spec_false, ahead_spec. lia. Qed.

Lemma best_finished l :
  match best newer_finished l with
  | Some n => n ∈ l /\ Qc_leb WATCHED (mk_fraction n) = true /\ forall m, m ∈ l -> Qc_leb WATCHED (mk_fraction m) = true -> finished_le m n
  | None => forall m, m ∈ l -> Qc_leb WATCHED (mk_fraction m) = false
  end.
Proof.
  induction l as [|v l IH] using rev_ind; [set_solver|]. rewrite best_snoc.
  assert (Hrefl : finished_le v v) by (right; rewrite ahead_spec_false; lia).
  unfold newer_finished at 1. destruct (Qc_leb WATCHED (mk_fraction v)) eqn:Hv; cbn [andb].
  - destruct (best newer_finished l) as [n|].
    + destruct IH as (Hn & Hw & Hm). destruct (_ || _) eqn:Hb.
      * rewrite orb_true_iff, andb_true_iff, Z.ltb_lt, Z.eqb_eq in Hb. split_and!; [set_solver|done|].
        intros m [Hin| ->%list_elem_of_singleton]%elem_of_app Hmw; [|done]. eapply finished_le_step; [exact Hb|auto].
      * split_and!; [set_solver|done|]. intros m [Hin| ->%list_elem_of_singleton]%elem_of_app Hmw; [auto|].
        apply orb_false_iff in Hb as [Hb1%Z.ltb_ge Hb2]. unfold finished_le.
        destruct (Z.eqb_spec (mk_updatedAt v) (mk_updatedAt n)); cbn in Hb2; [by right|left; lia].
    + split_and!; [set_solver|done|]. intros m [Hin| ->%list_elem_of_singleton]%elem_of_app Hmw; [|done].
      apply IH in Hin. congruence.
  - destruct (best newer_finished l) as [n|].
    + destruct IH as (Hn & Hw & Hm). split_and!; [set_solver|done|].
      intros m [Hin| ->%list_elem_of_singleton]%elem_of_app Hmw; [auto|congruence].
    + intros m [Hin| ->%list_elem_of_singleton]%elem_of_app; auto.
Qed.

Definition tv_marks (l : list Mark) : list Mark := filter (fun m => mk_type m = "tv") l.
Definition tv_flags (l : list Flag) : list Flag := filter (fun f => fl_type f = "tv") l.

Lemma addMarks_spec s l :
  foldl addMark s l = mkSummaries (keep_all markTitleKey newer_mark (su_latest s) (tv_marks l))
                                  (keep_all markTitleKey newer_finished (su_finished s) (tv_marks l)) (su_flagged s).
Proof.
  revert s. induction l as [|m l IH]; intros s; [by destruct s|]. cbn [foldl]. rewrite IH. unfold tv_marks. rewrite filter_cons.
  unfold addMark. destruct (String.eqb_spec (mk_type m) "tv") as [He|Hne]; cbn [negb].
  - rewrite decide_True by done. done.
  - by rewrite decide_False.
Qed.

Lemma addFlags_spec s l :
  foldl addFlag s l = mkSummaries (su_latest s) (su_finished s) (keep_all flagTitleKey further_flag (su_flagged s) (tv_flags l)).
Proof.
  revert s. induction l as [|m l IH]; intros s; [by destruct s|]. cbn [foldl]. rewrite IH. unfold tv_flags. rewrite filter_cons.
  unfold addFlag. destruct (String.eqb_spec (fl_type m) "tv") as [He|Hne]; cbn [negb].
  - rewrite decide_True by done. done.
  - by rewrite decide_False.
Qed.

Lemma continueSummaries_spec library :
  continueSummaries library =
  mkSummaries (keep_all markTitleKey newer_mark [] (tv_marks (lib_marks library)))
              (keep_all markTitleKey newer_finished [] (tv_marks (lib_marks library)))
              (keep_all flagTitleKey further_flag [] (tv_flags (map_values (lib_flags library)))).
Proof. unfold continueSummaries. rewrite addMarks_spec, addFlags_spec. done. Qed.

(** The summaries' keys are series. *)
Definition tv_key (k : string) : Prop := exists id, k = keyOf "tv" id.

Lemma summaries_keyed library :
  let s := continueSummaries library in
  keyed markTitleKey (su_latest s) /\ keyed markTitleKey (su_finished s) /\ keyed flagTitleKey (su_flagged s).
Proof. rewrite continueSummaries_spec. cbn. split_and!; apply keep_all_keyed, keyed_nil. Qed.

Lemma activeKeys_NoDup s : NoDup (activeKeys s).
Proof. apply NoDup_set_of. Qed.

Lemma elem_of_activeKeys s k : k ∈ activeKeys s <-> k ∈ map_keys (su_latest s) \/ k ∈ map_keys (su_flagged s).
Proof. unfold activeKeys. rewrite elem_of_set_of, elem_of_app. done. Qed.


Lemma summaries_latest_keys library : map_keys (su_latest (continueSummaries library)) = set_of (markTitleKey <$> tv_marks (lib_marks library)).
Proof. rewrite continueSummaries_spec. cbn [su_latest su_flagged]. by rewrite keep_all_keys. Qed.

Lemma summaries_flagged_keys library :
  map_keys (su_flagged (continueSummaries library)) = set_of (flagTitleKey <$> tv_flags (map_values (lib_flags library))).
Proof. rewrite continueSummaries_spec. cbn [su_latest su_flagged]. by rewrite keep_all_keys. Qed.

Lemma activeKeys_tv library k : k ∈ activeKeys (continueSummaries library) -> tv_key k.
Proof.
  rewrite elem_of_activeKeys, summaries_latest_keys, summaries_flagged_keys, !elem_of_set_of, !list_elem_of_fmap.
  intros [(m & -> & [Ht _]%list_elem_of_filter)|(f & -> & [Ht _]%list_elem_of_filter)];
    [exists (mk_id m); unfold markTitleKey|exists (fl_id f); unfold flagTitleKey]; by rewrite Ht.
Qed.

(** ** What [continueCandidates] returns *)

(** Everything the decision of one series rests on: its latest mark, its ref and the request. *)
Definition seriesInput (library : Library) (airing : option ContinueAiring) (key : string)
  : option Mark * option TitleRef * ContinueRequest :=
  let s := continueSummaries library in
  (map_get key (su_latest s), seriesRefOf (liveRecords library) key (map_get key (su_latest s)),
   continueRequest library (liveRecords library) s airing key).

Definition decided `{ContinuePolicy} (input : option Mark * option TitleRef * ContinueRequest) : option ContinueCandidate :=
  let '(mark, ref, request) := input in
  ref ≫= fun ref => if is_media (ref_type ref) then seriesCandidate ref mark (policy_continue_entry request) else None.

Definition filmCandidates (library : Library) : list ContinueCandidate :=
  filmCandidate <$> filter (fun r => dismissedSince library (recordKey r) (lr_progressAt r) = false)
                      (js_sort newest_progress (filter in_progress_film (lib_records library))).

(** When a candidate was last active: a series' latest mark, a film's resume point. *)
Definition activeAt (library : Library) (key : string) : option Z :=
  match map_get key (su_latest (continueSummaries library)) with
  | Some m => Some (mk_updatedAt m)
  | None => map_get key (map_of ((fun r => (recordKey r, lr_progressAt r)) <$> filter in_progress_film (lib_records library)))
  end.

Definition time_cmp (at_ : string -> option Z) (a b : ContinueCandidate) : Z :=
  Z.sgn (sub_ninf (at_ (candidateKey b)) (at_ (candidateKey a))).

(** The row: every series' decision in series order, then the films, newest first. *)
Definition continueRow `{ContinuePolicy} (library : Library) (airing : option ContinueAiring) : list ContinueCandidate :=
  js_sort (time_cmp (activeAt library))
    (omap (fun key => decided (seriesInput library airing key)) (seriesKeys (continueSummaries library)) ++ filmCandidates library).

(** A decider that answers what the policy answers, keeping [inv]. *)
Definition answers `{ContinuePolicy} {St} (inv : St -> Prop) (decide_ : St -> string -> ContinueRequest -> St * ContinueAnswer) : Prop :=
  forall st key request st' answer, inv st -> decide_ st key request = (st', answer) -> inv st' /\ answer = policy_continue_entry request.

Lemma seriesCandidate_ref ref mark answer c : seriesCandidate ref mark answer = Some c -> cc_ref c = ref.
Proof.
  unfold seriesCandidate. destruct (an_action answer), (an_episode answer); try done; intros [= <-];
    destruct mark as [m|]; cbn; try done; by destruct (mk_seconds m).
Qed.

Lemma filmCandidate_key r : candidateKey (filmCandidate r) = recordKey r.
Proof. unfold filmCandidate. by destruct (lr_seconds r). Qed.

Lemma liveRecords_keyed library : keyed recordKey (liveRecords library).
Proof. apply keyed_of. Qed.

Lemma seriesRefOf_key library key ref :
  seriesRefOf (liveRecords library) key (map_get key (su_latest (continueSummaries library))) = Some ref -> refKey ref = key.
Proof.
  unfold seriesRefOf. destruct (map_get key (su_latest _)) as [m|] eqn:Hm.
  - intros [= <-]. apply map_get_elem in Hm. by apply (proj1 (summaries_keyed library)) in Hm.
  - destruct (map_get key (liveRecords library)) as [r|] eqn:Hr; [|done]. intros [= <-].
    apply map_get_elem in Hr. by apply liveRecords_keyed in Hr.
Qed.

Lemma decided_key `{ContinuePolicy} library airing key c : decided (seriesInput library airing key) = Some c -> candidateKey c = key.
Proof.
  unfold decided, seriesInput. destruct (seriesRefOf _ _ _) as [ref|] eqn:Hr; cbn; [|done].
  destruct (is_media _); [|done]. intros Hc%seriesCandidate_ref. unfold candidateKey. rewrite Hc. by eapply seriesRefOf_key.
Qed.

(** The loops' invariant: every entry has a time, and every time is the library's. *)
Definition entries_ok (library : Library) (e : Entries) : Prop :=
  (forall c, c ∈ en_entries e -> is_Some (map_get (candidateKey c) (en_activity e)))
  /\ (forall k v, map_get k (en_activity e) = Some v -> v = activeAt library k).

Lemma pushEntry_ok library e key c at_ :
  entries_ok library e -> candidateKey c = key -> at_ = activeAt library key -> entries_ok library (pushEntry e key c at_).
Proof.
  intros [H1 H2] Hc ->. split; cbn.
  - intros c' [Hin| ->%list_elem_of_singleton]%elem_of_app; rewrite map_get_set; case_decide; eauto; congruence.
  - intros k v. rewrite map_get_set. case_decide; [|auto]. intros [= <-]. by subst.
Qed.

Lemma film_key r : in_progress_film r -> recordKey r = keyOf "movie" (ti_id (lr_title r)).
Proof. intros (_ & _ & Ht). unfold recordKey, titleKey. by rewrite Ht. Qed.

Lemma tv_not_movie key id : tv_key key -> key <> keyOf "movie" id.
Proof. intros [i ->] [He _]%keyOf_inj. done. Qed.

Lemma activeAt_series library key :
  tv_key key -> activeAt library key = mk_updatedAt <$> map_get key (su_latest (continueSummaries library)).
Proof.
  intros Hk. unfold activeAt. destruct (map_get key (su_latest _)); [done|]. apply map_get_of_absent.
  intros r [Hf _]%list_elem_of_filter He. rewrite film_key in He by done. by eapply tv_not_movie.
Qed.

Lemma latest_not_movie library id : map_get (keyOf "movie" id) (su_latest (continueSummaries library)) = None.
Proof.
  apply map_get_None. intros Hin. eapply tv_not_movie; [|done]. apply (activeKeys_tv library), elem_of_activeKeys. by left.
Qed.

Lemma activeAt_film library r :
  NoDup (recordKey <$> lib_records library) -> r ∈ lib_records library -> in_progress_film r ->
  activeAt library (recordKey r) = Some (lr_progressAt r).
Proof.
  intros Hnd Hin Hf. unfold activeAt. rewrite film_key, latest_not_movie, <- film_key by done.
  apply map_get_of_keyed; [by apply NoDup_fmap_filter|]. exists r. split_and!; [by apply list_elem_of_filter|done..].
Qed.

Section Loops.
Context `{ContinuePolicy} {St : Type} (inv : St -> Prop) (decide_ : St -> string -> ContinueRequest -> St * ContinueAnswer).
Hypothesis Hanswers : answers inv decide_.

Lemma seriesStep_spec library airing st e key :
  inv st -> key ∉ en_seen e ->
  exists st', inv st' /\
    seriesStep decide_ library (liveRecords library) (continueSummaries library) airing (st, e) key =
    (st', match decided (seriesInput library airing key) with
          | Some c => pushEntry e key c (mk_updatedAt <$> map_get key (su_latest (continueSummaries library)))
          | None => e
          end).
Proof.
  intros Hst Hns. unfold seriesStep, decided, seriesInput. destruct (seriesRefOf _ key _) as [ref|]; [|by exists st].
  cbn [mbind option_bind]. destruct (is_media (ref_type ref)); cbn [negb]; [|by exists st].
  destruct (decide_ st key _) as [st1 answer] eqn:Hd. apply Hanswers in Hd as [Hi1 ->]; [|done].
  exists st1. destruct (seriesCandidate ref _ _); [|done]. by rewrite bool_decide_false.
Qed.

Lemma seriesLoop library airing st e keys :
  inv st -> entries_ok library e -> NoDup keys -> (forall k, k ∈ keys -> tv_key k /\ k ∉ en_seen e) ->
  exists st' e',
    foldl (seriesStep decide_ library (liveRecords library) (continueSummaries library) airing) (st, e) keys = (st', e')
    /\ inv st' /\ entries_ok library e'
    /\ en_entries e' = en_entries e ++ omap (fun key => decided (seriesInput library airing key)) keys
    /\ (forall k, k ∈ en_seen e' -> k ∈ en_seen e \/ k ∈ keys).
Proof.
  revert st e. induction keys as [|key keys IH]; intros st e Hst He Hnd Hk.
  { exists st, e. split_and!; [done..|by rewrite app_nil_r|auto]. }
  apply NoDup_cons in Hnd as [Hkey Hnd]. destruct (Hk key ltac:(set_solver)) as [Htv Hns]. cbn [foldl omap list_omap].
  destruct (seriesStep_spec library airing st e key Hst Hns) as (st1 & Hi1 & ->).
  destruct (decided _) as [c|] eqn:Hd.
  - destruct (IH st1 (pushEntry e key c (mk_updatedAt <$> map_get key (su_latest (continueSummaries library)))))
      as (st' & e' & Hf & Hi & Ho & Hen & Hs); [done| |done| |].
    + apply pushEntry_ok; [done|by eapply decided_key|by rewrite activeAt_series].
    + intros k Hin. split; [apply Hk; set_solver|]. cbn. rewrite elem_of_set_add. intros [->|]; [done|].
      by apply (Hk k ltac:(set_solver)).
    + exists st', e'. split_and!; [done..| |].
      * rewrite Hen. cbn [pushEntry en_entries]. by rewrite <- app_assoc.
      * intros k [Hin|?]%Hs; [|set_solver]. cbn in Hin. apply elem_of_set_add in Hin as [->|]; set_solver.
  - destruct (IH st1 e Hi1 He Hnd ltac:(set_solver)) as (st' & e' & Hf & Hi & Ho & Hen & Hs).
    exists st', e'. split_and!; [done..|]. intros k [?|?]%Hs; set_solver.
Qed.

Lemma filmLoop library e movies :
  entries_ok library e -> NoDup (recordKey <$> movies) ->
  (forall r, r ∈ movies -> in_progress_film r /\ (recordKey r ∉ en_seen e) /\ activeAt library (recordKey r) = Some (lr_progressAt r)) ->
  exists e', foldl (filmStep library) e movies = e' /\ entries_ok library e'
    /\ en_entries e' = en_entries e ++ (filmCandidate <$> filter (fun r => dismissedSince library (recordKey r) (lr_progressAt r) = false) movies).
Proof.
  revert e. induction movies as [|r movies IH]; intros e He Hnd Hm.
  { exists e. split_and!; [done..|by rewrite app_nil_r]. }
  rewrite fmap_cons in Hnd. apply NoDup_cons in Hnd as [Hr Hnd]. destruct (Hm r ltac:(set_solver)) as (Hf & Hns & Hat).
  cbn [foldl]. unfold filmStep at 2. rewrite (bool_decide_false (recordKey r ∈ en_seen e)) by done. rewrite orb_false_r, filter_cons.
  destruct (dismissedSince _ _ _); cbn [negb].
  - rewrite decide_False by done. apply IH; [done..|]. intros; apply Hm; by right.
  - rewrite decide_True by done. destruct (IH (pushEntry e (recordKey r) (filmCandidate r) (Some (lr_progressAt r)))) as (e' & Hf' & Ho & Hen).
    + apply pushEntry_ok; [done|apply filmCandidate_key|done].
    + done.
    + intros r' Hin. destruct (Hm r' ltac:(set_solver)) as (? & ? & ?). split_and!; [done| |done]. cbn.
      rewrite elem_of_set_add. intros [Heq|]; [|done]. apply Hr. rewrite <- Heq. apply list_elem_of_fmap. eauto.
    + exists e'. split_and!; [done..|]. rewrite Hen. cbn. by rewrite <- app_assoc.
Qed.

(** Whatever state the decider keeps, the row is [continueRow]'s. *)
Lemma continueCandidates_row st library airing :
  inv st -> NoDup (recordKey <$> lib_records library) ->
  exists st', continueCandidates decide_ st library airing = (st', continueRow library airing) /\ inv st'.
Proof.
  intros Hst Hnd. unfold continueCandidates.
  assert (Hkeys : forall k, k ∈ seriesKeys (continueSummaries library) -> tv_key k).
  { intros k Hin%elem_of_js_sort. by eapply activeKeys_tv. }
  destruct (seriesLoop library airing st (mkEntries [] [] []) (seriesKeys (continueSummaries library)))
    as (st' & e' & -> & Hi & Ho & Hen & Hs); [done|split; [set_solver|done]| |set_solver|].
  { unfold seriesKeys. rewrite js_sort_perm. apply activeKeys_NoDup. }
  exists st'. split; [|done]. f_equal.
  destruct (filmLoop library e' (js_sort newest_progress (filter in_progress_film (lib_records library)))) as (e2 & -> & [Ho1 Ho2] & Hen2);
    [done| | |].
  { rewrite js_sort_perm. by apply NoDup_fmap_filter. }
  { intros r Hin%elem_of_js_sort. apply list_elem_of_filter in Hin as [Hf Hin]. split_and!; [done| |by apply activeAt_film].
    intros [|Hk%Hkeys]%Hs; [set_solver|]. rewrite film_key in Hk by done. by eapply tv_not_movie. }
  unfold newestFirst, continueRow. rewrite Hen2, Hen. cbn [en_entries app]. unfold filmCandidates.
  apply js_sort_ext. intros x y Hx Hy. f_equal. unfold newest_cmp, time_cmp. do 2 f_equal.
  all: match goal with |- ?m ≫= id = activeAt _ (candidateKey ?c) =>
    assert (is_Some m) as [v Hv] by (apply Ho1; rewrite Hen2, Hen; done); rewrite Hv; by apply Ho2 end.
Qed.
End Loops.

(** ** The compact library *)

Definition with_shapes (library : Library) (shapes : jsmap string Shape) : Library :=
  mkLibrary (lib_records library) (lib_marks library) (lib_flags library) shapes (lib_dismissed library).

Lemma continueSummaries_shapes library shapes : continueSummaries (with_shapes library shapes) = continueSummaries library.
Proof. done. Qed.

(** The marks [compact] keeps of one series. *)
Definition compact_marks (s : ContinueSummaries) (p : string * Mark) : list Mark :=
  match map_get p.1 (su_finished s) with
  | Some front => if bool_decide (markKey front <> markKey p.2) then [p.2; front] else [p.2]
  | None => [p.2]
  end.

Lemma compact_lib_marks s records dismissed : lib_marks (compact s records dismissed) = su_latest s ≫= compact_marks s.
Proof. unfold compact. cbn [lib_marks]. apply list_bind_ext; [|done]. by intros [key newest]. Qed.

Section Compact.
Context (library : Library) (Hwf : library_wf library).
Local Abbreviation s := (continueSummaries library).
Local Abbreviation small := (compact s (lib_records library) (lib_dismissed library)).

Lemma summary_elem k m :
  map_get k (su_latest s) = Some m \/ map_get k (su_finished s) = Some m ->
  m ∈ lib_marks library /\ mk_type m = "tv" /\ markTitleKey m = k.
Proof.
  rewrite continueSummaries_spec. cbn [su_latest su_finished]. rewrite !keep_all_best. intros [Hm|Hm].
  - pose proof (best_newest (filter (fun v => markTitleKey v = k) (tv_marks (lib_marks library)))) as Hb. rewrite Hm in Hb.
    destruct Hb as [[Hk [Ht Hin]%list_elem_of_filter]%list_elem_of_filter _]. done.
  - pose proof (best_finished (filter (fun v => markTitleKey v = k) (tv_marks (lib_marks library)))) as Hb. rewrite Hm in Hb.
    destruct Hb as [[Hk [Ht Hin]%list_elem_of_filter]%list_elem_of_filter _]. done.
Qed.

Lemma compact_marks_elem k m0 m : (k, m0) ∈ su_latest s -> m ∈ compact_marks s (k, m0) -> mk_type m = "tv" /\ markTitleKey m = k.
Proof.
  intros Hk Hm. assert (Hl : map_get k (su_latest s) = Some m0) by (apply map_elem_get; [apply (summaries_keyed library)|done]).
  unfold compact_marks in Hm. cbn [fst snd] in Hm.
  destruct (map_get k (su_finished s)) as [front|] eqn:Hf; [case_bool_decide|].
  - apply elem_of_cons in Hm as [->| ->%list_elem_of_singleton]; eapply summary_elem; eauto.
  - apply list_elem_of_singleton in Hm as ->. eapply summary_elem; eauto.
  - apply list_elem_of_singleton in Hm as ->. eapply summary_elem; eauto.
Qed.

Lemma compact_tv_marks : tv_marks (lib_marks small) = su_latest s ≫= compact_marks s.
Proof.
  rewrite compact_lib_marks. unfold tv_marks. apply filter_all.
  intros m ([k m0] & Hm & Hin)%list_elem_of_bind. by eapply compact_marks_elem in Hm as [? _].
Qed.

(** The marks kept of [k]: those of its entry. *)
Lemma compact_marks_of k :
  filter (fun v => markTitleKey v = k) (su_latest s ≫= compact_marks s) =
  match map_get k (su_latest s) with Some m => compact_marks s (k, m) | None => [] end.
Proof.
  assert (Hall : forall p, p ∈ su_latest s -> forall m, m ∈ compact_marks s p -> markTitleKey m = p.1).
  { intros [k' m0] Hin m Hm. by eapply compact_marks_elem in Hm as [_ ?]. }
  pose proof (proj1 (proj1 (summaries_keyed library))) as Hnd. revert Hnd Hall. unfold map_wf, map_keys.
  generalize (su_latest s) as l. induction l as [|[k' m0] l IH]; intros Hnd Hall; [done|].
  rewrite bind_cons, filter_app. cbn [map_get]. rewrite fmap_cons in Hnd. apply NoDup_cons in Hnd as [Hk' Hnd].
  rewrite IH; [|done|intros p Hp; apply Hall; by right]. case_decide as He.
  - subst k'. assert (map_get k l = None) as -> by (by apply map_get_None). rewrite app_nil_r.
    apply filter_all. intros m Hm. by apply (Hall (k, m0) ltac:(left)).
  - rewrite filter_none; [done|]. intros m Hm Hmk.
    apply (Hall (k', m0) ltac:(left)) in Hm. cbn in Hm. congruence.
Qed.

Lemma best_latest_compact k m : map_get k (su_latest s) = Some m -> best newer_mark (compact_marks s (k, m)) = Some m.
Proof.
  intros Hm. pose proof Hm as Hm'. revert Hm. rewrite continueSummaries_spec at 1. cbn [su_latest]. rewrite keep_all_best. intros Hm.
  pose proof (best_newest (filter (fun v => markTitleKey v = k) (tv_marks (lib_marks library)))) as Hb. rewrite Hm in Hb. destruct Hb as [_ Hmax].
  unfold compact_marks. cbn [fst snd]. destruct (map_get k (su_finished s)) as [front|] eqn:Hf; [|done].
  case_bool_decide; [|done]. unfold best. cbn.
  destruct (summary_elem k front) as (Hin & Ht & Hk); [by right|].
  destruct (Z.ltb_spec (mk_updatedAt m) (mk_updatedAt front)); [|done].
  assert (mk_updatedAt front <= mk_updatedAt m); [|lia]. apply Hmax. apply list_elem_of_filter. split; [done|]. by apply list_elem_of_filter.
Qed.

Lemma same_episode m1 m2 : m1 ∈ lib_marks library -> m2 ∈ lib_marks library -> markKey m1 = markKey m2 -> m1 = m2.
Proof.
  intros H1 H2. apply (NoDup_fmap_inj markKey _ _ _ (proj1 (proj2 Hwf)) H1 H2).
Qed.

Lemma best_finished_compact k m :
  map_get k (su_latest s) = Some m -> best newer_finished (compact_marks s (k, m)) = map_get k (su_finished s).
Proof.
  intros Hm. destruct (summary_elem k m) as (Hin & Ht & Hk); [by left|].
  pose proof Hm as Hl. rewrite continueSummaries_spec in Hl. cbn [su_latest] in Hl. rewrite keep_all_best in Hl.
  pose proof (best_newest (filter (fun v => markTitleKey v = k) (tv_marks (lib_marks library)))) as Hb. rewrite Hl in Hb.
  destruct Hb as [_ Hmax].
  assert (Hmem : forall x, x ∈ lib_marks library -> mk_type x = "tv" -> markTitleKey x = k ->
    x ∈ filter (fun v => markTitleKey v = k) (tv_marks (lib_marks library))).
  { intros. apply list_elem_of_filter. split; [done|]. by apply list_elem_of_filter. }
  pose proof (best_finished (filter (fun v => markTitleKey v = k) (tv_marks (lib_marks library)))) as Hf.
  unfold compact_marks. cbn [fst snd]. destruct (map_get k (su_finished s)) as [front|] eqn:Hfr.
  - pose proof Hfr as Hfr'. rewrite continueSummaries_spec in Hfr'. cbn [su_finished] in Hfr'. rewrite keep_all_best in Hfr'.
    rewrite Hfr' in Hf. destruct Hf as (_ & Hw & Hfm). destruct (summary_elem k front) as (Hin' & Ht' & Hk'); [by right|].
    pose proof (Hmax front (Hmem _ Hin' Ht' Hk')). case_bool_decide as Hne.
    + unfold best. cbn. unfold newer_finished at 2. rewrite andb_true_r. unfold newer_finished. rewrite Hw. cbn [andb].
      destruct (Qc_leb WATCHED (mk_fraction m)) eqn:Hmw; [|done].
      destruct (Hfm m (Hmem _ Hin Ht Hk) Hmw) as [|[He Ha]]; [lia|]. rewrite He, Z.eqb_refl, Z.ltb_irrefl. cbn [orb andb].
      assert (ahead (mark_at front) (mark_at m) = true) as ->; [|done]. apply ahead_spec. apply ahead_spec_false in Ha. cbn in *.
      destruct (decide (mark_at front = mark_at m)) as [[= Hs1 Hs2]|Hd].
      * exfalso. apply Hne. unfold markKey, episodeKey. unfold markTitleKey in Hk, Hk'. by rewrite Hk, Hk', Hs1, Hs2.
      * unfold mark_at in Hd. cbn. assert (mk_season front <> mk_season m \/ mk_episode front <> mk_episode m); [|lia].
        destruct (decide (mk_season front = mk_season m)); [right|by left]. congruence.
    + apply same_episode in Hne as ->; [|done..]. unfold best, newer_finished. cbn. by rewrite Hw.
  - pose proof Hfr as Hfr'. rewrite continueSummaries_spec in Hfr'. cbn [su_finished] in Hfr'. rewrite keep_all_best in Hfr'.
    rewrite Hfr' in Hf. unfold best, newer_finished. cbn. by rewrite (Hf m (Hmem _ Hin Ht Hk)).
Qed.

Lemma compact_latest : su_latest (continueSummaries small) = su_latest s.
Proof.
  pose proof (summaries_keyed library) as (Hk & _ & _). symmetry. apply map_eq_keys; [apply Hk| |].
  - rewrite (summaries_latest_keys small), compact_tv_marks. symmetry. unfold set_of. rewrite fmap_bind.
    rewrite (set_of_repeat fst); [done| |apply Hk].
    intros [k m] Hin. cbn. split.
    + unfold compact_marks. cbn. by repeat case_match.
    + intros k' (m' & -> & Hm)%list_elem_of_fmap. by eapply compact_marks_elem in Hm as [_ ?].
  - intros k. rewrite (continueSummaries_spec small). cbn [su_latest]. rewrite keep_all_best, compact_tv_marks, compact_marks_of.
    destruct (map_get k (su_latest s)) as [m|] eqn:Hm; [|done]. by rewrite best_latest_compact.
Qed.

Lemma compact_finished k : map_get k (su_finished (continueSummaries small)) = map_get k (su_finished s).
Proof.
  rewrite (continueSummaries_spec small). cbn [su_finished]. rewrite keep_all_best, compact_tv_marks, compact_marks_of.
  destruct (map_get k (su_latest s)) as [m|] eqn:Hm; [by apply best_finished_compact|]. symmetry. apply map_get_None in Hm.
  destruct (map_get k (su_finished s)) as [f|] eqn:Hf; [|done]. exfalso. apply Hm.
  destruct (summary_elem k f) as (Hin & Ht & Hk); [by right|].
  rewrite summaries_latest_keys, elem_of_set_of. apply list_elem_of_fmap. exists f. split; [done|]. by apply list_elem_of_filter.
Qed.

Lemma flagged_elem k f : map_get k (su_flagged s) = Some f -> fl_type f = "tv" /\ flagTitleKey f = k.
Proof.
  intros Hf. assert (Hk : k ∈ map_keys (su_flagged s)) by (apply map_get_is_Some; eauto).
  assert (Hkey : flagTitleKey f = k) by (apply map_get_elem in Hf; by apply (summaries_keyed library) in Hf).
  split; [|done]. destruct (activeKeys_tv library k) as [i Hi]; [apply elem_of_activeKeys; by right|].
  rewrite Hi in Hkey. by apply keyOf_inj in Hkey as [? _].
Qed.

Lemma compact_flagged : su_flagged (continueSummaries small) = su_flagged s.
Proof.
  pose proof (summaries_keyed library) as (_ & _ & Hk). rewrite (continueSummaries_spec small). cbn [su_flagged].
  assert (Hv : map_values (lib_flags small) = map_values (su_flagged s)).
  { unfold compact. cbn [lib_flags]. rewrite map_of_NoDup; [unfold map_values at 1; by rewrite <- list_fmap_compose, list_fmap_id|].
    unfold map_wf, map_keys. rewrite <- list_fmap_compose. cbn.
    apply (NoDup_fmap_2_strong _ _); [|apply (NoDup_fmap_1 flagTitleKey); rewrite keyed_values by done; apply Hk].
    intros x y Hx Hy He. apply episodeKey_inj in He as (? & ? & ? & ?). destruct x, y. cbn in *. by subst. }
  rewrite Hv. unfold tv_flags. rewrite filter_all; [by apply keep_all_values|].
  intros f (k & Hf)%map_values_elem. apply map_elem_get in Hf; [|apply Hk]. by apply flagged_elem in Hf as [? _].
Qed.

Lemma compact_active : activeKeys (continueSummaries small) = activeKeys s.
Proof. unfold activeKeys. by rewrite compact_latest, compact_flagged. Qed.

(** The live record of a title: the one record of its key, not removed. *)
Lemma liveRecords_get k r l' : NoDup (recordKey <$> lib_records l') ->
  map_get k (liveRecords l') = Some r <-> r ∈ lib_records l' /\ lr_deleted r = false /\ recordKey r = k.
Proof.
  intros Hnd. unfold liveRecords. rewrite (map_get_of_keyed recordKey (fun r => r)) by (by apply NoDup_fmap_filter).
  setoid_rewrite list_elem_of_filter. naive_solver.
Qed.

Lemma compact_records : lib_records small = filter (fun r => kept_record s r = true) (lib_records library).
Proof. done. Qed.

Lemma compact_records_NoDup : NoDup (recordKey <$> lib_records small).
Proof. rewrite compact_records. apply NoDup_fmap_filter, Hwf. Qed.

(** What [compact] keeps of the live record of an active series. *)
Lemma compact_live k :
  k ∈ activeKeys s ->
  map_get k (liveRecords small) =
  match map_get k (liveRecords library) with
  | Some r => if bool_decide (lr_status r = SWatched) || map_has k (su_flagged s) then Some r else None
  | None => None
  end.
Proof.
  intros Ha. pose proof (proj1 Hwf) as Hnd. destruct (activeKeys_tv library k Ha) as [id Hid].
  assert (Hkept : forall r, recordKey r = k -> lr_deleted r = false ->
    kept_record s r = bool_decide (lr_status r = SWatched) || map_has k (su_flagged s)).
  { intros r Hr Hd. unfold kept_record. rewrite Hd, Hr. rewrite Hid in Hr. apply keyOf_inj in Hr as [-> _]. cbn.
    by rewrite bool_decide_true by done. }
  apply option_eq. intros r. rewrite liveRecords_get by apply compact_records_NoDup. rewrite compact_records, list_elem_of_filter.
  destruct (map_get k (liveRecords library)) as [r'|] eqn:Hr.
  - apply liveRecords_get in Hr as (Hin & Hd & Hk); [|done]. rewrite <- (Hkept r' Hk Hd). split.
    + intros ((Hkr & Hin') & Hd' & Hk'). assert (r = r') as -> by (eapply (NoDup_fmap_inj recordKey); eauto; congruence).
      by rewrite Hkr.
    + destruct (kept_record s r') eqn:Hkr; [|done]. by intros [= <-].
  - split; [|done]. intros ((_ & Hin') & Hd' & Hk').
    assert (Hs : map_get k (liveRecords library) = Some r) by (by apply liveRecords_get). congruence.
Qed.

Lemma compact_dismissed k :
  map_wf (lib_dismissed library) ->
  k ∈ activeKeys s \/ (exists r, r ∈ lib_records library /\ in_progress_film r /\ recordKey r = k) ->
  map_get k (lib_dismissed small) = map_get k (lib_dismissed library).
Proof.
  intros Hd Hk. unfold compact. cbn [lib_dismissed]. rewrite map_get_filter by done.
  destruct (map_get k (lib_dismissed library)); [|done]. rewrite decide_True; [done|]. cbn [fst].
  assert (Hmono : forall live, k ∈ live -> k ∈ foldl (fun live r =>
    if negb (lr_deleted r) && String.eqb (ti_type (lr_title r)) "tv" && bool_decide (lr_status r = SWatched)
    then set_add (recordKey r) live else live) live (lib_records library)).
  { clear Hk. induction (lib_records library) as [|r l IH]; intros live Hl; cbn [foldl]; [done|]. apply IH.
    case_match; [apply elem_of_set_add; by right|done]. }
  apply Hmono. rewrite elem_of_set_of, elem_of_app. destruct Hk as [|(r & Hin & Hf & <-)]; [by right|left].
  apply list_elem_of_fmap. exists r. split; [done|]. apply list_elem_of_filter. split; [|done].
  destruct Hf as (H1 & H2 & H3). unfold kept_record. rewrite H1, H2, H3. done.
Qed.

Lemma compact_films : filter in_progress_film (lib_records small) = filter in_progress_film (lib_records library).
Proof.
  rewrite compact_records. rewrite list_filter_filter. apply filter_ext_in. intros r _. split; [by intros []|].
  intros Hf. split; [done|]. destruct Hf as (H1 & H2 & H3). unfold kept_record. by rewrite H1, H2, H3.
Qed.

Lemma compact_input airing shapes k :
  k ∈ activeKeys s ->
  seriesInput (with_shapes small shapes) airing k = seriesInput (with_shapes library shapes) airing k.
Proof.
  intros Hk. unfold seriesInput. rewrite !continueSummaries_shapes.
  change (liveRecords (with_shapes ?l shapes)) with (liveRecords l).
  rewrite compact_latest. f_equal; [f_equal|].
  - unfold seriesRefOf. destruct (map_get k (su_latest s)) as [m|] eqn:Hm; [done|]. rewrite compact_live by done.
    assert (Hf : map_has k (su_flagged s) = true).
    { apply bool_decide_true, map_get_is_Some. apply elem_of_activeKeys in Hk as [Hin|]; [|done].
      by apply map_get_None in Hm. }
    rewrite Hf. destruct (map_get k (liveRecords library)); [|done]. by rewrite orb_true_r.
  - unfold continueRequest. rewrite compact_latest, compact_flagged, compact_finished. cbn [lib_shapes lib_dismissed with_shapes].
    rewrite compact_dismissed by (apply Hwf || by left). f_equal. rewrite compact_live by done.
    destruct (map_get k (liveRecords library)) as [r|]; [|done].
    destruct (bool_decide (lr_status r = SWatched)) eqn:Hw; cbn [orb]; [by rewrite Hw|].
    destruct (map_has k (su_flagged s)); [by rewrite Hw|done].
Qed.

Lemma compact_row `{ContinuePolicy} airing shapes :
  continueRow (with_shapes small shapes) airing = continueRow (with_shapes library shapes) airing.
Proof.
  unfold continueRow. rewrite !continueSummaries_shapes.
  assert (Hkeys : seriesKeys (continueSummaries small) = seriesKeys s).
  { unfold seriesKeys. by rewrite compact_latest, compact_active. }
  rewrite Hkeys. f_equal; [|f_equal].
  - unfold time_cmp, activeAt. rewrite !continueSummaries_shapes, compact_latest. cbn [lib_records with_shapes]. by rewrite compact_films.
  - apply omap_ext_in. intros k Hk%elem_of_js_sort. by rewrite compact_input.
  - unfold filmCandidates. cbn [lib_records with_shapes]. rewrite compact_films. f_equal. apply filter_ext_in.
    intros r [Hf Hin]%elem_of_js_sort%list_elem_of_filter. unfold dismissedSince. cbn [lib_dismissed with_shapes].
    rewrite compact_dismissed; [done|apply Hwf|]. right. eauto.
Qed.
End Compact.

(** The pure decider: every request asked of the policy. *)
Definition askPolicy `{ContinuePolicy} (st : unit) (key : string) (request : ContinueRequest) : unit * ContinueAnswer :=
  (st, policy_continue_entry request).

Lemma askPolicy_answers `{ContinuePolicy} : answers (fun _ => True) askPolicy.
Proof. intros st key request st' answer _ [= <- <-]. done. Qed.

(** C33: the compact library is enough. On a library the fold leaves, Continue Watching chooses from the compact
    one (with the same season layouts and release dates) exactly the candidates it chooses from the whole one, in
    the same order. *)
Theorem compact_same_candidates `{ContinuePolicy} (library : Library) (airing : option ContinueAiring) :
  library_wf library ->
  let small := compact (continueSummaries library) (lib_records library) (lib_dismissed library) in
  (continueCandidates askPolicy tt (with_shapes small (lib_shapes library)) airing).2
  = (continueCandidates askPolicy tt library airing).2.
Proof.
  intros Hwf small.
  destruct (continueCandidates_row _ _ askPolicy_answers tt (with_shapes small (lib_shapes library)) airing) as (? & -> & _); [done| |].
  { by apply compact_records_NoDup. }
  destruct (continueCandidates_row _ _ askPolicy_answers tt library airing) as (? & -> & _); [done|apply Hwf|].
  cbn [snd]. unfold small. rewrite compact_row by done. by destruct library.
Qed.

(** ** Worked example

    A policy that follows the rule of [continue_entry] in outline: a dismissed series is left out, an unfinished
    episode is resumed, and after a finished one the next of its season is offered where the layout has it. *)
Definition plain_continue : ContinuePolicy := fun r =>
  match rq_mark r with
  | None => mkAnswer CNone "nothing" None 0%Qc None
  | Some (season, episode, fraction, at_) =>
    if match rq_dismissedAt r with Some d => at_ <=? d | None => false end then mkAnswer CNone "dismissed" None 0%Qc None
    else if negb (Qc_leb WATCHED fraction) then mkAnswer CResume "resume" (Some (mkEpisodeAt season episode)) fraction None
    else if existsb (fun p => (p.1 =? season) && (episode <? p.2)) (rq_seasons r)
         then mkAnswer CNext "next" (Some (mkEpisodeAt season (episode + 1))) 0%Qc None
         else mkAnswer CNone "finished" None 0%Qc None
  end.

Definition sample_mark (id season episode updatedAt : Z) (fraction : Qc) : Mark :=
  mkMark "tv" id season episode fraction updatedAt None None None "Series" None 0%Qc.

Definition continue_library : Library :=
  mkLibrary
    [mkRecord (mkTitle "movie" 9 "Film" None None None false []) SInProgress (Q2Qc (QArith_base.Qmake 1 2)) 300 None None None 100 false;
     mkRecord (mkTitle "movie" 10 "Seen" None None None false []) SWatched 1%Qc 200 None None None 100 false]
    [sample_mark 7 1 1 400 1%Qc; sample_mark 8 1 1 100 1%Qc; sample_mark 7 1 2 350 (Q2Qc (QArith_base.Qmake 1 2))]
    [("tv:8:1:2", mkFlag "tv" 8 1 2)] [("tv:7", mkShape [(1, 3)] None)] [("tv:8", 500); ("movie:10", 900)].

Lemma compact_same_candidates_witness :
  let small := compact (continueSummaries continue_library) (lib_records continue_library) (lib_dismissed continue_library) in
  length (lib_records small) = 1%nat /\ length (lib_marks small) = 2%nat
  /\ (continueCandidates (@askPolicy plain_continue) tt (with_shapes small (lib_shapes continue_library)) None).2
     = (continueCandidates (@askPolicy plain_continue) tt continue_library None).2
  /\ (cc_episode <$> (continueCandidates (@askPolicy plain_continue) tt continue_library None).2) = [Some (mkEpisodeAt 1 2); None].
Proof.
  cbv zeta. split; [vm_compute; reflexivity|]. split; [vm_compute; reflexivity|]. split; [|vm_compute; reflexivity].
  apply (@compact_same_candidates plain_continue continue_library None).
  split; [|split; [|split; [split|]]]; try (apply (bool_decide_unpack _); vm_compute; exact I).
  intros k v Hin. apply list_elem_of_singleton in Hin as [= -> ->]. vm_compute. reflexivity.
Defined.
