(* ===== verification/Projector.v ===== *)
(** * [ContinueProjector] ([web/src/lib/library.ts])

    The projector keeps decisions between projections and re-decides only the series whose inputs changed: its state,
    [setAiring], [project], [projectShapeChanges], and the proof that every projection is the one a fresh projector
    would make. *)

From S2P Require Import Prelude JsMap JsText Json Wire Actions Library Continue.

(** ** [ContinueProjector] *)

(** A library as the projector is handed it: the four references it compares by identity, and what they hold. *)
Record LibraryHandle : Type := mkHandle {
  lh_records : nat;
  lh_marks : nat;
  lh_flags : nat;
  lh_dismissed : nat;
  lh_library : Library;
}.

Definition sameHandle (a b : LibraryHandle) : bool :=
  (lh_records a =? lh_records b)%nat && (lh_marks a =? lh_marks b)%nat && (lh_flags a =? lh_flags b)%nat
  && (lh_dismissed a =? lh_dismissed b)%nat.

(** [Omit<Library, 'shapes' | 'dismissed'>]: one title's records, marks and flags. *)
Record Bucket : Type := mkBucket {
  bk_records : list LibraryRecord;
  bk_marks : list Mark;
  bk_flags : jsmap string Flag;
}.

Record Projector : Type := mkProjector {
  pj_decisions : jsmap string (ContinueRequest * ContinueAnswer);
  pj_library : option LibraryHandle;
  pj_shapes : jsmap string Shape;
  pj_series : jsmap string Bucket;
  pj_seriesOrder : list string;
  pj_seriesCandidates : jsmap string ContinueCandidate;
  pj_movies : list ContinueCandidate;
  pj_activity : jsmap string (option Z);
  pj_candidates : list ContinueCandidate;
  pj_airing : option ContinueAiring;
  pj_airingChanged : list string;
}.

Definition newProjector : Projector := mkProjector [] None [] [] [] [] [] [] [] None [].

Definition sameShape (left right : option Shape) : bool :=
  match left, right with
  | Some l, Some r =>
    bool_decide (sh_lastAired l = sh_lastAired r) && (length (sh_counts l) =? length (sh_counts r))%nat
    && forallb (fun p => bool_decide (map_get p.1 (sh_counts r) = Some p.2)) (sh_counts l)
  | None, None => true
  | _, _ => false
  end.

Definition changedShapes (previous current : jsmap string Shape) : list string :=
  let changed := foldl (fun c p => if sameShape (map_get p.1 previous) (Some p.2) then c else set_add p.1 c) [] current in
  foldl (fun c k => if map_has k current then c else set_add k c) changed (map_keys previous).

Definition setAiring (p : Projector) (airing : ContinueAiring) : Projector * bool :=
  let previous := pj_airing p in
  let before key := previous ≫= fun a => map_get key (ca_series a) in
  let keys := set_of (map_keys (ca_series airing) ++ from_option (fun a => map_keys (ca_series a)) [] previous) in
  let changed := foldl (fun c key =>
      if negb ((bool_decide (is_Some (before key)) || map_has key (ca_series airing))
               && (negb (bool_decide (ca_today <$> previous = Some (ca_today airing)))
                   || negb (bool_decide (before key = map_get key (ca_series airing)))))
      then c else set_add key c) (pj_airingChanged p) keys in
  (mkProjector (pj_decisions p) (pj_library p) (pj_shapes p) (pj_series p) (pj_seriesOrder p) (pj_seriesCandidates p)
     (pj_movies p) (pj_activity p) (pj_candidates p) (Some airing) changed,
   match changed with [] => false | _ => true end).

(** [bucket(key).x.push(y)] *)
Definition bucketUpdate (key : string) (f : Bucket -> Bucket) (buckets : jsmap string Bucket) : jsmap string Bucket :=
  map_set key (f (default (mkBucket [] [] []) (map_get key buckets))) buckets.

Definition bucketsOf (library : Library) : jsmap string Bucket :=
  let b := foldl (fun b r => bucketUpdate (recordKey r) (fun x => mkBucket (bk_records x ++ [r]) (bk_marks x) (bk_flags x)) b)
             [] (lib_records library) in
  let b := foldl (fun b m => bucketUpdate (markTitleKey m) (fun x => mkBucket (bk_records x) (bk_marks x ++ [m]) (bk_flags x)) b)
             b (lib_marks library) in
  foldl (fun b kf => bucketUpdate (flagTitleKey kf.2) (fun x => mkBucket (bk_records x) (bk_marks x) (map_set kf.1 kf.2 (bk_flags x))) b)
    b (lib_flags library).

(** The latest time of each series, and the series flags name. *)
Definition latestTimes (library : Library) : jsmap string Z :=
  foldl (fun m mk => if String.eqb (mk_type mk) "tv"
                     then map_set (markTitleKey mk) (max_ninf (map_get (markTitleKey mk) m) (mk_updatedAt mk)) m else m)
    [] (lib_marks library).
Definition flaggedKeys (library : Library) : list string :=
  foldl (fun s kf => if String.eqb (fl_type kf.2) "tv" then set_add (flagTitleKey kf.2) s else s) [] (lib_flags library).

Definition rememberProjection (p : Projector) (handle : LibraryHandle) (candidates : list ContinueCandidate) : Projector :=
  let library := lh_library handle in
  let buckets := bucketsOf library in
  let latest := latestTimes library in
  let order := js_sort (latest_cmp latest) (set_of (map_keys latest ++ flaggedKeys library)) in
  let movies := filter (fun c => candidateKey c ∉ order) candidates in
  let progressAt := map_of ((fun r => (recordKey r, lr_progressAt r)) <$> lib_records library) in
  mkProjector (pj_decisions p) (Some handle) (lib_shapes library)
    ((fun key => (key, default (mkBucket [] [] []) (map_get key buckets))) <$> order)
    order
    (map_of ((fun c => (candidateKey c, c)) <$> filter (fun c => candidateKey c ∈ order) candidates))
    movies
    (map_of (((fun c => (candidateKey c, map_get (candidateKey c) progressAt)) <$> movies)
             ++ ((fun key => (key, map_get key latest)) <$> order)))
    candidates (pj_airing p) (pj_airingChanged p).

Section Projector.
Context `{ContinuePolicy}.

(** The cached decision; [live] gathers the keys asked. *)
Definition cachedDecision (d : jsmap string (ContinueRequest * ContinueAnswer)) (key : string) (request : ContinueRequest)
  : jsmap string (ContinueRequest * ContinueAnswer) * ContinueAnswer :=
  match map_get key d with
  | Some (input, answer) =>
    if bool_decide (input = request) then (d, answer)
    else let answer := policy_continue_entry request in (map_set key (request, answer) d, answer)
  | None => let answer := policy_continue_entry request in (map_set key (request, answer) d, answer)
  end.

Definition liveDecision (st : jsmap string (ContinueRequest * ContinueAnswer) * list string) (key : string) (request : ContinueRequest) :=
  let '(d', answer) := cachedDecision st.1 key request in ((d', set_add key st.2), answer).

(** One changed series decided again. *)
Definition reproject (library : Library) (p : Projector) (key : string) : Projector :=
  let current := map_get key (lib_shapes library) in
  let shapes := match current with Some s => map_set key s (pj_shapes p) | None => map_delete key (pj_shapes p) end in
  match map_get key (pj_series p) with
  | None => mkProjector (pj_decisions p) (pj_library p) shapes (pj_series p) (pj_seriesOrder p) (pj_seriesCandidates p)
              (pj_movies p) (pj_activity p) (pj_candidates p) (pj_airing p) (pj_airingChanged p)
  | Some held =>
    let one := mkLibrary (bk_records held) (bk_marks held) (bk_flags held)
                 (match current with Some s => [(key, s)] | None => [] end)
                 (match map_get key (lib_dismissed library) with Some d => [(key, d)] | None => [] end) in
    let '(decisions, candidates) := continueCandidates cachedDecision (pj_decisions p) one (pj_airing p) in
    let held' := match candidates with
                 | c :: _ => map_set key c (pj_seriesCandidates p)
                 | [] => map_delete key (pj_seriesCandidates p)
                 end in
    mkProjector decisions (pj_library p) shapes (pj_series p) (pj_seriesOrder p) held' (pj_movies p) (pj_activity p)
      (pj_candidates p) (pj_airing p) (pj_airingChanged p)
  end.

Definition withAiringSettled (p : Projector) : Projector :=
  mkProjector (pj_decisions p) (pj_library p) (pj_shapes p) (pj_series p) (pj_seriesOrder p) (pj_seriesCandidates p)
    (pj_movies p) (pj_activity p) (pj_candidates p) (pj_airing p) [].

Definition withCandidates (p : Projector) (handle : LibraryHandle) (candidates : list ContinueCandidate) : Projector :=
  mkProjector (pj_decisions p) (Some handle) (pj_shapes p) (pj_series p) (pj_seriesOrder p) (pj_seriesCandidates p)
    (pj_movies p) (pj_activity p) candidates (pj_airing p) (pj_airingChanged p).

Definition projectKnownShapeChanges (p : Projector) (handle : LibraryHandle) (changes : list string) : Projector * list ContinueCandidate :=
  match changes with
  | [] => (withCandidates p handle (pj_candidates p), pj_candidates p)
  | _ =>
    let p := foldl (reproject (lh_library handle)) p changes in
    let candidates := newestFirst (omap (fun key => map_get key (pj_seriesCandidates p)) (pj_seriesOrder p) ++ pj_movies p)
                        (pj_activity p) in
    (withCandidates p handle candidates, candidates)
  end.

Definition projectAll (p : Projector) (handle : LibraryHandle) : Projector * list ContinueCandidate :=
  let p := withAiringSettled p in
  let '((decisions, live), candidates) := continueCandidates liveDecision (pj_decisions p, []) (lh_library handle) (pj_airing p) in
  let decisions := filter (fun kd => kd.1 ∈ live) decisions in
  let p := mkProjector decisions (pj_library p) (pj_shapes p) (pj_series p) (pj_seriesOrder p) (pj_seriesCandidates p)
             (pj_movies p) (pj_activity p) (pj_candidates p) (pj_airing p) (pj_airingChanged p) in
  (rememberProjection p handle candidates, candidates).

Definition held_same (p : Projector) (handle : LibraryHandle) : bool :=
  match pj_library p with Some previous => sameHandle previous handle | None => false end.

Definition project (p : Projector) (handle : LibraryHandle) : Projector * list ContinueCandidate :=
  if held_same p handle then
    let changes := foldl (fun c k => set_add k c) (changedShapes (pj_shapes p) (lib_shapes (lh_library handle))) (pj_airingChanged p) in
    projectKnownShapeChanges (withAiringSettled p) handle changes
  else projectAll p handle.

Definition projectShapeChanges (p : Projector) (handle : LibraryHandle) (changed : list string) : Projector * list ContinueCandidate :=
  if held_same p handle then
    let changes := set_of (changed ++ changedShapes (pj_shapes p) (lib_shapes (lh_library handle)) ++ pj_airingChanged p) in
    projectKnownShapeChanges (withAiringSettled p) handle changes
  else project p handle.
End Projector.

Definition seriesRef (key : string) : TitleRef := mkRef "tv" (default 0 (str_Z (str_drop 3 key))).

Definition caughtUp (p : Projector) : list TitleRef :=
  omap (fun kd : string * (ContinueRequest * ContinueAnswer) =>
    let code := an_code kd.2.2 in
    if starts_with "tv:" kd.1 && (String.eqb code "finished" || String.eqb code "not_aired") then Some (seriesRef kd.1) else None)
    (pj_decisions p).

Definition dismissedSeries (p : Projector) : list TitleRef :=
  omap (fun ka : string * Z =>
    let '(key, at_) := ka in
    if negb (starts_with "tv:" key) then None
    else
      let marks := from_option bk_marks [] (map_get key (pj_series p)) in
      let latest := foldl (fun acc m => Some (max_ninf acc (mk_updatedAt m))) None marks in
      if match latest with Some l => l <=? at_ | None => true end then Some (seriesRef key) else None)
    (from_option (fun h => lib_dismissed (lh_library h)) [] (pj_library p)).

(** ** Naming *)

Record ContinueEntry : Type := mkEntry { ce_title : Title; ce_candidate : ContinueCandidate; ce_deviceId : option string }.

Definition markTitle (m : Mark) : Title :=
  mkTitle (mk_type m) (mk_id m) (mk_title m) (mk_posterPath m) None (Some (mk_voteAverage m)) false [].

Definition nameContinueCandidates (candidates : list ContinueCandidate) (library : Library) : list ContinueEntry :=
  let records := map_of ((fun r => (recordKey r, lr_title r)) <$> lib_records library) in
  let marks := foldl (keep_best markTitleKey newer_mark) [] (lib_marks library) in
  omap (fun c =>
    let title := match cc_display c with
                 | DMark => markTitle <$> map_get (candidateKey c) marks
                 | DRecord => map_get (candidateKey c) records
                 end in
    match title with
    | Some t => if truthy (ti_title t) then Some (mkEntry t c (cc_by c ≫= nonempty)) else None
    | None => None
    end) candidates.

Definition continueWatching `{ContinuePolicy} (handle : LibraryHandle) : list ContinueEntry :=
  nameContinueCandidates (project newProjector handle).2 (lh_library handle).


(** ** What the projector remembers of a library *)

Lemma latestTimes_spec library :
  latestTimes library = (fun p => (p.1, mk_updatedAt p.2)) <$> su_latest (continueSummaries library).
Proof.
  rewrite continueSummaries_spec. cbn [su_latest]. unfold latestTimes, tv_marks, keep_all.
  change (@nil (string * Z)) with ((fun p : string * Mark => (p.1, mk_updatedAt p.2)) <$> []) at 1.
  generalize (@nil (string * Mark)) as m. induction (lib_marks library) as [|mk l IH]; intros m; [done|].
  cbn [foldl]. rewrite filter_cons. destruct (String.eqb_spec (mk_type mk) "tv"); [rewrite decide_True by done|by rewrite decide_False].
  cbn [foldl]. rewrite <- IH. f_equal. unfold keep_best, newer_mark. rewrite map_get_fmap.
  destruct (map_get (markTitleKey mk) m) as [held|] eqn:Hg; cbn [fmap option_fmap option_map max_ninf].
  - destruct (Z.ltb_spec (mk_updatedAt held) (mk_updatedAt mk)).
    + rewrite map_set_fmap, Z.max_r by lia. done.
    + rewrite Z.max_l by lia. apply map_set_id. rewrite map_get_fmap, Hg. done.
  - by rewrite map_set_fmap.
Qed.

Lemma flaggedKeys_spec library : flaggedKeys library = map_keys (su_flagged (continueSummaries library)).
Proof.
  rewrite summaries_flagged_keys. unfold flaggedKeys, tv_flags, set_of, map_values. generalize (@nil string) as acc.
  induction (lib_flags library) as [|[k f] l IH]; intros acc; [done|]. cbn [foldl snd]. rewrite IH, fmap_cons, filter_cons. cbn [snd].
  destruct (String.eqb_spec (fl_type f) "tv"); [by rewrite decide_True|by rewrite decide_False].
Qed.

Lemma rememberedOrder library :
  js_sort (latest_cmp (latestTimes library)) (set_of (map_keys (latestTimes library) ++ flaggedKeys library))
  = seriesKeys (continueSummaries library).
Proof.
  unfold seriesKeys, activeKeys. rewrite flaggedKeys_spec, latestTimes_spec. do 3 f_equal.
  unfold map_keys. by rewrite <- list_fmap_compose.
Qed.

Definition noBucket : Bucket := mkBucket [] [] [].

Lemma bucket_fold {A} (key : A -> string) (f : A -> Bucket -> Bucket) l b k :
  default noBucket (map_get k (foldl (fun b x => bucketUpdate (key x) (f x) b) b l))
  = foldl (fun bk x => f x bk) (default noBucket (map_get k b)) (filter (fun x => key x = k) l).
Proof.
  revert b. induction l as [|x l IH]; intros b; [done|]. cbn [foldl]. rewrite IH, filter_cons. unfold bucketUpdate.
  case_decide as Hk; [subst|]; [by rewrite map_get_set_eq|by rewrite map_get_set_ne by auto].
Qed.

(** The bucket of a title: its records, marks and flags. *)
Definition bucketOf (library : Library) (k : string) : Bucket :=
  mkBucket (filter (fun r => recordKey r = k) (lib_records library)) (filter (fun m => markTitleKey m = k) (lib_marks library))
    (filter (fun kf => flagTitleKey kf.2 = k) (lib_flags library)).

Lemma bucketsOf_get library k :
  map_wf (lib_flags library) -> default noBucket (map_get k (bucketsOf library)) = bucketOf library k.
Proof.
  intros Hf. unfold bucketsOf.
  rewrite (bucket_fold (fun kf : string * Flag => flagTitleKey kf.2) (fun kf x => mkBucket (bk_records x) (bk_marks x) (map_set kf.1 kf.2 (bk_flags x)))).
  rewrite (bucket_fold markTitleKey (fun m x => mkBucket (bk_records x) (bk_marks x ++ [m]) (bk_flags x))).
  rewrite (bucket_fold recordKey (fun r x => mkBucket (bk_records x ++ [r]) (bk_marks x) (bk_flags x))). cbn [map_get default].
  assert (H1 : forall l x, foldl (fun x r => mkBucket (bk_records x ++ [r]) (bk_marks x) (bk_flags x)) x l
    = mkBucket (bk_records x ++ l) (bk_marks x) (bk_flags x)).
  { induction l as [|r l IH]; intros x; cbn [foldl]; [rewrite app_nil_r; by destruct x|]. rewrite IH. cbn. by rewrite <- app_assoc. }
  assert (H2 : forall l x, foldl (fun x m => mkBucket (bk_records x) (bk_marks x ++ [m]) (bk_flags x)) x l
    = mkBucket (bk_records x) (bk_marks x ++ l) (bk_flags x)).
  { induction l as [|r l IH]; intros x; cbn [foldl]; [rewrite app_nil_r; by destruct x|]. rewrite IH. cbn. by rewrite <- app_assoc. }
  assert (H3 : forall (l : jsmap string Flag) x, foldl (fun x kf => mkBucket (bk_records x) (bk_marks x) (map_set kf.1 kf.2 (bk_flags x))) x l
    = mkBucket (bk_records x) (bk_marks x) (foldl (fun m kf => map_set kf.1 kf.2 m) (bk_flags x) l)).
  { induction l as [|r l IH]; intros x; cbn [foldl]; [by destruct x|]. rewrite IH. done. }
  rewrite H1, H2, H3. cbn [bk_records bk_marks bk_flags noBucket app]. rewrite <- map_of_foldl.
  unfold bucketOf. f_equal. apply map_of_NoDup. by apply map_wf_filter.
Qed.

(** ** One series on its own *)

(** The library [reproject] decides one series on. *)
Definition oneSeries (library : Library) (k : string) : Library :=
  let b := bucketOf library k in
  mkLibrary (bk_records b) (bk_marks b) (bk_flags b)
    (match map_get k (lib_shapes library) with Some s => [(k, s)] | None => [] end)
    (match map_get k (lib_dismissed library) with Some d => [(k, d)] | None => [] end).

Lemma filter_twice {A} (P Q : A -> Prop) `{!forall x, Decision (P x), !forall x, Decision (Q x)} (l : list A) :
  filter P (filter Q (filter P l)) = filter P (filter Q l).
Proof. rewrite !list_filter_filter. apply filter_ext_in. naive_solver. Qed.

Lemma values_filter {K V} (P : V -> Prop) `{!forall x, Decision (P x), !forall x : K * V, Decision (P x.2)} (m : jsmap K V) :
  map_values (filter (fun kv => P kv.2) m) = filter P (map_values m).
Proof.
  unfold map_values. induction m as [|[k v] m IH]; [done|]. rewrite fmap_cons, !filter_cons. cbn [snd].
  do 2 case_decide; try done; rewrite ?fmap_cons; by rewrite IH.
Qed.

Section OneSeries.
Context (library : Library) (k : string).
Local Abbreviation s := (continueSummaries library).
Local Abbreviation one := (oneSeries library k).

Lemma one_summaries :
  map_get k (su_latest (continueSummaries one)) = map_get k (su_latest s)
  /\ map_get k (su_finished (continueSummaries one)) = map_get k (su_finished s)
  /\ map_get k (su_flagged (continueSummaries one)) = map_get k (su_flagged s).
Proof.
  rewrite !continueSummaries_spec. cbn [su_latest su_finished su_flagged]. rewrite !keep_all_best.
  cbn [oneSeries bucketOf lib_marks lib_flags bk_marks bk_flags]. rewrite (values_filter (fun f => flagTitleKey f = k)).
  unfold tv_marks, tv_flags. by rewrite !filter_twice.
Qed.

Lemma one_active : k ∈ activeKeys s -> activeKeys (continueSummaries one) = [k].
Proof.
  intros Hk. destruct one_summaries as (H1 & _ & H3).
  assert (Hin : k ∈ activeKeys (continueSummaries one)).
  { rewrite elem_of_activeKeys, <- !map_get_is_Some, H1, H3, !map_get_is_Some. by apply elem_of_activeKeys. }
  assert (Hall : forall k', k' ∈ activeKeys (continueSummaries one) -> k' = k).
  { intros k'. rewrite elem_of_activeKeys, summaries_latest_keys, summaries_flagged_keys, !elem_of_set_of, !list_elem_of_fmap.
    cbn [oneSeries bucketOf lib_marks lib_flags bk_marks bk_flags]. rewrite (values_filter (fun f => flagTitleKey f = k)).
    intros [(m & -> & [_ [? _]%list_elem_of_filter]%list_elem_of_filter)|(f & -> & [_ [? _]%list_elem_of_filter]%list_elem_of_filter)]; done. }
  pose proof (activeKeys_NoDup (continueSummaries one)) as Hnd. destruct (activeKeys (continueSummaries one)) as [|k1 [|k2 l]]; [set_solver| |].
  - f_equal. apply Hall. by left.
  - exfalso. rewrite (Hall k1), (Hall k2) in Hnd by set_solver. apply NoDup_cons in Hnd as [Hn _]. apply Hn. by left.
Qed.

Lemma one_live : NoDup (recordKey <$> lib_records library) -> map_get k (liveRecords one) = map_get k (liveRecords library).
Proof.
  intros Hnd. apply option_eq. intros r. rewrite !liveRecords_get by (done || by apply NoDup_fmap_filter).
  cbn [oneSeries bucketOf lib_records bk_records]. rewrite list_elem_of_filter. naive_solver.
Qed.

Lemma one_input airing :
  NoDup (recordKey <$> lib_records library) -> seriesInput one airing k = seriesInput library airing k.
Proof.
  intros Hnd. destruct one_summaries as (H1 & H2 & H3). unfold seriesInput, seriesRefOf, continueRequest.
  rewrite H1, H2, H3, one_live by done. cbn [oneSeries lib_shapes lib_dismissed].
  assert (Hs : forall {V} (m : jsmap string V), map_get k (match map_get k m with Some v => [(k, v)] | None => [] end) = map_get k m).
  { intros V m. destruct (map_get k m); cbn; [by rewrite decide_True|done]. }
  by rewrite !Hs.
Qed.

Lemma one_row `{ContinuePolicy} airing :
  NoDup (recordKey <$> lib_records library) -> k ∈ activeKeys s ->
  continueRow one airing = match decided (seriesInput library airing k) with Some c => [c] | None => [] end.
Proof.
  intros Hnd Hk. unfold continueRow, seriesKeys. rewrite one_active by done. cbn [js_sort foldr sort_insert omap list_omap].
  rewrite one_input by done.
  assert (Hfilms : filmCandidates one = []).
  { unfold filmCandidates. rewrite (filter_none in_progress_film); [done|]. intros r Hin Hf.
    cbn [oneSeries bucketOf lib_records bk_records] in Hin. apply list_elem_of_filter in Hin as [Hr _].
    rewrite film_key in Hr by done. eapply tv_not_movie; [by eapply activeKeys_tv|done]. }
  rewrite Hfilms, app_nil_r. by destruct (decided _).
Qed.
End OneSeries.

(** ** Layouts that read the same *)

Definition with_seasons (r : ContinueRequest) (seasons : list (Z * Z)) : ContinueRequest :=
  mkRequest (rq_mark r) (rq_finished r) (rq_flag r) seasons (rq_lastAired r) (rq_dismissedAt r) (rq_titleWatched r) (rq_airing r).

(** What the projector relies on of [continue_entry]: a series' seasons are a set of counts, so the order a layout
    lists them in changes no answer. *)
Class ContinueLaws `{ContinuePolicy} : Prop :=
  continue_seasons : forall (r : ContinueRequest) (seasons : list (Z * Z)),
    seasons ≡ₚ rq_seasons r -> policy_continue_entry (with_seasons r seasons) = policy_continue_entry r.

Definition shape_wf (s : Shape) : Prop := map_wf (sh_counts s).
Definition shapes_wf (m : jsmap string Shape) : Prop := map_wf m /\ forall k s, map_get k m = Some s -> shape_wf s.

Lemma counts_permutation (l r : jsmap Z Z) :
  map_wf l -> map_wf r -> length l = length r -> (forall p, p ∈ l -> map_get p.1 r = Some p.2) -> l ≡ₚ r.
Proof.
  intros Hl Hr Hlen Hin. apply submseteq_length_Permutation; [|lia]. apply NoDup_submseteq; [by apply (NoDup_fmap_1 fst)|].
  intros [k v] Hp. apply map_get_elem. by apply (Hin (k, v)).
Qed.

Lemma sameShape_spec a b :
  (forall s, a = Some s -> shape_wf s) -> (forall s, b = Some s -> shape_wf s) -> sameShape a b = true ->
  from_option sh_counts [] a ≡ₚ from_option sh_counts [] b /\ (a ≫= sh_lastAired) = (b ≫= sh_lastAired).
Proof.
  destruct a as [a|], b as [b|]; cbn; try done. intros Ha Hb Hs.
  apply andb_true_iff in Hs as [[He%bool_decide_eq_true Hl%Nat.eqb_eq]%andb_true_iff Hf]. split; [|done].
  apply counts_permutation; [by apply Ha|by apply Hb|done|]. intros p Hp. rewrite forallb_forall in Hf.
  apply list_elem_of_In, Hf in Hp. by apply bool_decide_eq_true in Hp.
Qed.

Lemma sameShape_refl a : (forall s, a = Some s -> shape_wf s) -> sameShape a a = true.
Proof.
  destruct a as [a|]; [|done]. intros Ha. cbn. rewrite bool_decide_true, Nat.eqb_refl by done. cbn. apply forallb_forall.
  intros [k v] Hp%list_elem_of_In. apply bool_decide_true. cbn. apply map_elem_get; [by apply Ha|done].
Qed.

Definition dated (airing : option ContinueAiring) (key : string) : option (list AiringEpisode * string * bool) :=
  airing ≫= fun a => (fun d => (as_episodes d, ca_today a, as_ended d)) <$> map_get key (ca_series a).

(** A series' decision does not change while its layout reads the same and its release dates are the same. *)
Lemma decided_similar `{ContinueLaws} library sh1 sh2 air1 air2 k :
  shapes_wf sh1 -> shapes_wf sh2 -> sameShape (map_get k sh1) (map_get k sh2) = true -> dated air1 k = dated air2 k ->
  decided (seriesInput (with_shapes library sh1) air1 k) = decided (seriesInput (with_shapes library sh2) air2 k).
Proof.
  intros [_ Hw1] [_ Hw2] Hs Hd. apply sameShape_spec in Hs as [Hp Hl]; [|by eauto..].
  unfold decided, seriesInput. rewrite !continueSummaries_shapes. change (liveRecords (with_shapes library _)) with (liveRecords library).
  destruct (seriesRefOf _ _ _) as [ref|]; [|done]. cbn [mbind option_bind]. case_match; [|done]. f_equal.
  unfold dated in Hd. unfold continueRequest. cbn [lib_shapes lib_dismissed with_shapes]. rewrite Hd, Hl.
  match goal with |- _ = policy_continue_entry ?r => rewrite <- (continue_seasons r (from_option sh_counts [] (map_get k sh1))) end; done.
Qed.

Definition foldl_add (l acc : list string) : list string := foldl (fun c k => set_add k c) acc l.

Lemma elem_of_foldl_add l acc k : k ∈ foldl_add l acc <-> k ∈ acc \/ k ∈ l.
Proof.
  unfold foldl_add. revert acc. induction l as [|x l IH]; intros acc; cbn [foldl]; [set_solver|].
  rewrite IH, elem_of_set_add. set_solver.
Qed.

Lemma elem_of_foldl_cond {A} (key : A -> string) (skip : A -> bool) l acc k :
  k ∈ foldl (fun c x => if skip x then c else set_add (key x) c) acc l <-> k ∈ acc \/ exists x, x ∈ l /\ skip x = false /\ key x = k.
Proof.
  revert acc. induction l as [|x l IH]; intros acc; cbn [foldl].
  - split; [by left|]. intros [|(? & ? & _)]; [done|set_solver].
  - rewrite IH. setoid_rewrite elem_of_cons. destruct (skip x) eqn:Hs; [|rewrite elem_of_set_add]; split.
    + intros [?|(y & ? & ? & <-)]; [by left|right; exists y; by auto].
    + intros [?|(y & [->|?] & ? & <-)]; [by left|congruence|right; exists y; by auto].
    + intros [[->|?]|(y & ? & ? & <-)]; [right; exists x; by auto|by left|right; exists y; by auto].
    + intros [?|(y & [->|?] & ? & <-)]; [left; by right|left; by left|right; exists y; by auto].
Qed.

(** Outside [changedShapes] a layout reads the same. *)
Lemma changedShapes_spec previous current k :
  map_wf current -> k ∉ changedShapes previous current -> sameShape (map_get k previous) (map_get k current) = true.
Proof.
  intros Hc. unfold changedShapes.
  rewrite (elem_of_foldl_cond (fun k => k) (fun k => map_has k current)).
  rewrite (elem_of_foldl_cond fst (fun p => sameShape (map_get p.1 previous) (Some p.2))). intros Hn.
  destruct (map_get k current) as [sh|] eqn:Hg.
  - destruct (sameShape _ _) eqn:Hs; [done|]. exfalso. apply Hn. left. right. exists (k, sh). split_and!; [by apply map_get_elem|done..].
  - destruct (map_get k previous) as [sh|] eqn:Hp; [|done]. exfalso. apply Hn. right. exists k. split_and!; [|unfold map_has; by rewrite Hg|done].
    apply map_get_is_Some. eauto.
Qed.

(** A row is its series' decisions: libraries that differ in layouts and dates only, with the same decisions, have
    the same row. *)
Lemma continueRow_ext `{ContinuePolicy} library sh1 sh2 air1 air2 :
  (forall k, k ∈ seriesKeys (continueSummaries library) ->
    decided (seriesInput (with_shapes library sh1) air1 k) = decided (seriesInput (with_shapes library sh2) air2 k)) ->
  continueRow (with_shapes library sh1) air1 = continueRow (with_shapes library sh2) air2.
Proof.
  intros Hd. unfold continueRow. rewrite !continueSummaries_shapes. f_equal. f_equal. by apply omap_ext_in.
Qed.

(** ** The projector's invariant *)

#[global] Instance time_cmp_comparator at_ : Comparator (time_cmp at_).
Proof.
  split; intros; unfold time_cmp in *; rewrite !Z.sgn_nonpos in *;
    repeat match goal with |- context [at_ ?k] => destruct (at_ k) | H : context [at_ ?k] |- _ => destruct (at_ k) end; cbn in *; lia.
Qed.

#[global] Instance newest_progress_comparator : Comparator newest_progress.
Proof. split; intros; unfold newest_progress in *; lia. Qed.

Definition films (library : Library) : list LibraryRecord :=
  filter (fun r => dismissedSince library (recordKey r) (lr_progressAt r) = false)
    (js_sort newest_progress (filter in_progress_film (lib_records library))).

Lemma elem_of_films library r : r ∈ films library -> r ∈ lib_records library /\ in_progress_film r.
Proof. intros [_ Hin%elem_of_js_sort]%list_elem_of_filter. apply list_elem_of_filter in Hin as []. done. Qed.

Lemma filmCandidates_sorted library :
  NoDup (recordKey <$> lib_records library) -> js_sort (time_cmp (activeAt library)) (filmCandidates library) = filmCandidates library.
Proof.
  intros Hnd. apply js_sort_id. change (filmCandidates library) with (filmCandidate <$> films library).
  apply (StronglySorted_fmap (cmp_le newest_progress)).
  - intros x y Hx Hy Hxy. apply elem_of_films in Hx as [Hx Hfx], Hy as [Hy Hfy].
    unfold cmp_le, time_cmp. rewrite !filmCandidate_key, !activeAt_film by done. cbn. unfold cmp_le, newest_progress in Hxy. lia.
  - apply StronglySorted_filter, js_sort_sorted, _.
Qed.

Lemma filmCandidates_key library c :
  c ∈ filmCandidates library -> exists r, r ∈ lib_records library /\ in_progress_film r /\ candidateKey c = recordKey r.
Proof.
  intros (r & -> & Hr)%list_elem_of_fmap. apply (elem_of_films library) in Hr as [Hin Hf]. exists r. by rewrite filmCandidate_key.
Qed.

Lemma seriesKeys_tv library k : k ∈ seriesKeys (continueSummaries library) -> tv_key k.
Proof. intros Hk%elem_of_js_sort. by eapply activeKeys_tv. Qed.

Lemma seriesKeys_NoDup library : NoDup (seriesKeys (continueSummaries library)).
Proof. unfold seriesKeys. rewrite js_sort_perm. apply activeKeys_NoDup. Qed.

Lemma film_not_series library c : c ∈ filmCandidates library -> candidateKey c ∉ seriesKeys (continueSummaries library).
Proof.
  intros (r & _ & Hf & ->)%filmCandidates_key Hk%seriesKeys_tv. rewrite film_key in Hk by done. by eapply tv_not_movie.
Qed.

Section RowParts.
Context `{ContinuePolicy} (library : Library) (airing : option ContinueAiring).
Context (Hnd : NoDup (recordKey <$> lib_records library)).
Local Abbreviation order := (seriesKeys (continueSummaries library)).
Local Abbreviation series := (omap (fun key => decided (seriesInput library airing key)) order).

Lemma elem_of_series c : c ∈ series <-> candidateKey c ∈ order /\ decided (seriesInput library airing (candidateKey c)) = Some c.
Proof.
  rewrite list_elem_of_omap. split.
  - intros (k & Hk & Hd). by rewrite (decided_key _ _ _ _ Hd).
  - intros [Hk Hd]. eauto.
Qed.

Lemma row_films : filter (fun c => candidateKey c ∉ order) (continueRow library airing) = filmCandidates library.
Proof.
  unfold continueRow. rewrite filter_js_sort by apply _. rewrite filter_app, filter_none, filter_all; cbn [app].
  - by apply filmCandidates_sorted.
  - apply film_not_series.
  - intros c [Hk _]%elem_of_series Hn. done.
Qed.

Lemma row_series_elem c : c ∈ filter (fun c => candidateKey c ∈ order) (continueRow library airing) <-> c ∈ series.
Proof.
  unfold continueRow. rewrite list_elem_of_filter, elem_of_js_sort, elem_of_app. split.
  - intros [Hk [?|Hf]]; [done|]. by apply film_not_series in Hf.
  - intros Hc. pose proof (proj1 (elem_of_series c) Hc) as [Hk _]. auto.
Qed.

Lemma series_NoDup : NoDup (candidateKey <$> series).
Proof.
  pose proof (seriesKeys_NoDup library) as Ho. induction order as [|k l IH]; [constructor|].
  apply NoDup_cons in Ho as [Hk Ho]. cbn [omap list_omap]. destruct (decided _) as [c|] eqn:Hd; [|auto].
  rewrite fmap_cons. constructor; [|auto]. rewrite (decided_key _ _ _ _ Hd). intros (c' & Hc' & (k' & Hk' & Hd')%list_elem_of_omap)%list_elem_of_fmap.
  rewrite (decided_key _ _ _ _ Hd') in Hc'. congruence.
Qed.

Lemma row_series_NoDup : NoDup (candidateKey <$> filter (fun c => candidateKey c ∈ order) (continueRow library airing)).
Proof.
  unfold continueRow. rewrite filter_js_sort by apply _. rewrite js_sort_perm, filter_app.
  rewrite (filter_none _ (filmCandidates library)); [|intros c Hc; by apply film_not_series].
  rewrite app_nil_r, filter_all; [apply series_NoDup|]. by intros c [Hk _]%elem_of_series.
Qed.
End RowParts.

Lemma map_get_fmap_keys {V} (f : string -> V) l k :
  map_get k ((fun key => (key, f key)) <$> l) = if decide (k ∈ l) then Some (f k) else None.
Proof.
  induction l as [|x l IH]; [by rewrite decide_False by set_solver|]. csimpl.
  destruct (decide (k = x)) as [->|Hne]; [by rewrite decide_True by set_solver|].
  rewrite IH. do 2 case_decide; set_solver.
Qed.

(** A lookup in [new Map(entries)] is one of the entries. *)
Lemma map_get_of_all {V} (P : string -> V -> Prop) l k :
  (forall p, p ∈ l -> P p.1 p.2) -> k ∈ l.*1 -> exists v, map_get k (map_of l) = Some v /\ P k v.
Proof.
  intros HP Hk. apply map_keys_of, map_get_is_Some in Hk as [v Hv]. exists v. split; [done|].
  apply map_get_elem, elem_of_map_of in Hv. by apply (HP (k, v)).
Qed.

Section Invariant.
Context `{ContinueLaws}.

(** Every cached answer is the policy's. *)
Definition cache_ok (d : jsmap string (ContinueRequest * ContinueAnswer)) : Prop :=
  forall k request answer, (k, (request, answer)) ∈ d -> answer = policy_continue_entry request.

(** What does not change while the records, marks, flags and dismissals stay. *)
Record remembers_base (p : Projector) (library : Library) : Prop := {
  rm_records : NoDup (recordKey <$> lib_records library);
  rm_shapes : shapes_wf (pj_shapes p);
  rm_order : pj_seriesOrder p = seriesKeys (continueSummaries library);
  rm_series : forall k, map_get k (pj_series p) = if decide (k ∈ pj_seriesOrder p) then Some (bucketOf library k) else None;
  rm_movies : pj_movies p = filmCandidates library;
  rm_activity : forall k, k ∈ pj_seriesOrder p \/ (exists c, c ∈ pj_movies p /\ candidateKey c = k) ->
    map_get k (pj_activity p) ≫= id = activeAt library k;
}.

Record remembers (p : Projector) (library : Library) : Prop := {
  rm_base : remembers_base p library;
  rm_decided : forall k, k ∈ pj_seriesOrder p -> k ∉ pj_airingChanged p ->
    map_get k (pj_seriesCandidates p) = decided (seriesInput (with_shapes library (pj_shapes p)) (pj_airing p) k);
  rm_candidates : pj_airingChanged p = [] -> pj_candidates p = continueRow (with_shapes library (pj_shapes p)) (pj_airing p);
}.

Definition projector_ok (p : Projector) : Prop :=
  cache_ok (pj_decisions p) /\ match pj_library p with Some h => remembers p (lh_library h) | None => True end.

Lemma cachedDecision_answers : answers cache_ok cachedDecision.
Proof.
  assert (Hnew : forall d k r, cache_ok d -> cache_ok (map_set k (r, policy_continue_entry r) d)).
  { intros d k r Hd k' r' a [[= _ -> ->]|Hin]%elem_of_map_set; [done|by eapply Hd]. }
  intros d key request d' answer Hd. unfold cachedDecision. destruct (map_get key d) as [[input known]|] eqn:Hg.
  - case_bool_decide; intros [= <- <-]; [|by auto]. subst. split; [done|]. by eapply Hd, map_get_elem.
  - intros [= <- <-]. auto.
Qed.

Lemma liveDecision_answers : answers (fun st => cache_ok st.1) liveDecision.
Proof.
  intros [d live] key request st' answer Hd. unfold liveDecision. cbn [fst snd].
  destruct (cachedDecision d key request) as [d' a] eqn:Hc. intros [= <- <-]. by eapply cachedDecision_answers in Hc.
Qed.

Lemma newProjector_ok : projector_ok newProjector.
Proof. split; [|done]. intros k r a Hin. set_solver. Qed.

(** What a library handed to the projector is: one record per title, JavaScript [Map]s. *)
Definition projectable (library : Library) : Prop :=
  NoDup (recordKey <$> lib_records library) /\ map_wf (lib_flags library) /\ shapes_wf (lib_shapes library).

Lemma with_shapes_id library : with_shapes library (lib_shapes library) = library.
Proof. by destruct library. Qed.

Lemma remembered_activity library k movies :
  NoDup (recordKey <$> lib_records library) -> (forall c, c ∈ movies -> c ∈ filmCandidates library) ->
  k ∈ seriesKeys (continueSummaries library) \/ (exists c, c ∈ movies /\ candidateKey c = k) ->
  map_get k (map_of (((fun c => (candidateKey c, map_get (candidateKey c)
      (map_of ((fun r => (recordKey r, lr_progressAt r)) <$> lib_records library)))) <$> movies)
    ++ ((fun key => (key, map_get key (latestTimes library))) <$> seriesKeys (continueSummaries library)))) ≫= id
  = activeAt library k.
Proof.
  intros Hnd Hm Hk. destruct (map_get_of_all (fun k v => v = activeAt library k)
    (((fun c => (candidateKey c, map_get (candidateKey c) (map_of ((fun r => (recordKey r, lr_progressAt r)) <$> lib_records library)))) <$> movies)
    ++ ((fun key => (key, map_get key (latestTimes library))) <$> seriesKeys (continueSummaries library))) k) as (v & -> & ->); [| |done].
  - intros p [(c & -> & Hc%Hm)%list_elem_of_fmap|(key & -> & Hkey)%list_elem_of_fmap]%elem_of_app; cbn [fst snd].
    + apply filmCandidates_key in Hc as (r & Hin & Hf & ->). rewrite activeAt_film by done. apply map_get_of_keyed; [done|]. eauto.
    + rewrite activeAt_series by (by eapply seriesKeys_tv). by rewrite latestTimes_spec, map_get_fmap.
  - rewrite fmap_app, elem_of_app, <- !list_fmap_compose. destruct Hk as [Hk|(c & Hc & <-)].
    + right. apply list_elem_of_fmap. by exists k.
    + left. apply list_elem_of_fmap. by exists c.
Qed.

Lemma remember_ok p h airing :
  cache_ok (pj_decisions p) -> projectable (lh_library h) -> pj_airing p = airing -> pj_airingChanged p = [] ->
  projector_ok (rememberProjection p h (continueRow (lh_library h) airing)).
Proof.
  intros Hc (Hnd & Hf & Hsh) Ha Hch. split; [done|]. unfold rememberProjection. cbn [pj_library]. rewrite rememberedOrder, row_films by done.
  split; [split|..]; cbn [pj_seriesOrder pj_shapes pj_series pj_movies pj_activity pj_seriesCandidates pj_candidates pj_airing pj_airingChanged];
    try done.
  - intros k. rewrite map_get_fmap_keys. case_decide; [|done]. f_equal. by apply bucketsOf_get.
  - intros k Hk. apply remembered_activity; [done|auto|done].
  - intros k Hk _. rewrite with_shapes_id, Ha. apply option_eq. intros c.
    rewrite (map_get_of_keyed candidateKey (fun c => c)) by apply row_series_NoDup. split.
    + intros (c' & Hin & Hck & ->). apply row_series_elem, elem_of_series in Hin as [_ Hd]. by rewrite Hck in Hd.
    + intros Hd. exists c. pose proof (decided_key _ _ _ _ Hd) as Hck. split_and!; [|done..].
      apply row_series_elem, elem_of_series. by rewrite Hck.
  - intros _. by rewrite with_shapes_id, Ha.
Qed.

Lemma projectAll_spec p h :
  cache_ok (pj_decisions p) -> projectable (lh_library h) ->
  (projectAll p h).2 = continueRow (lh_library h) (pj_airing p) /\ projector_ok (projectAll p h).1.
Proof.
  intros Hc Hp. unfold projectAll. cbn [pj_decisions pj_airing withAiringSettled].
  destruct (continueCandidates_row _ _ liveDecision_answers (pj_decisions p, []) (lh_library h) (pj_airing p)) as ([d live] & -> & Hd); [done|apply Hp|].
  split; [done|]. cbn [fst]. apply remember_ok; [|done..]. cbn [pj_decisions]. intros k r a Hg.
  apply list_elem_of_filter in Hg as [_ Hin]. by eapply Hd.
Qed.

(** One changed series: its layout and its decision are brought up to date, the rest stays. *)
Lemma reproject_spec base sh p k :
  remembers_base p base -> cache_ok (pj_decisions p) -> shapes_wf sh ->
  let library := with_shapes base sh in
  let p' := reproject library p k in
  cache_ok (pj_decisions p') /\ remembers_base p' base
  /\ (forall k', map_get k' (pj_shapes p') = if decide (k' = k) then map_get k' sh else map_get k' (pj_shapes p))
  /\ (forall k', k' ∈ pj_seriesOrder p -> map_get k' (pj_seriesCandidates p') =
       if decide (k' = k) then decided (seriesInput library (pj_airing p) k') else map_get k' (pj_seriesCandidates p))
  /\ pj_seriesOrder p' = pj_seriesOrder p /\ pj_airing p' = pj_airing p /\ pj_airingChanged p' = pj_airingChanged p.
Proof.
  intros Hr Hc Hsh library p'.
  set (shapes := match map_get k sh with Some s => map_set k s (pj_shapes p) | None => map_delete k (pj_shapes p) end).
  assert (Hget : forall k', map_get k' shapes = if decide (k' = k) then map_get k' sh else map_get k' (pj_shapes p)).
  { intros k'. unfold shapes. destruct (map_get k sh) eqn:E; [rewrite map_get_set|rewrite map_get_delete]; case_decide; congruence. }
  assert (Hwf : shapes_wf shapes).
  { destruct (rm_shapes _ _ Hr) as [Hm Hs], Hsh as [_ Hs']. split.
    - unfold shapes. destruct (map_get k sh); [by apply map_wf_set|by apply map_wf_delete].
    - intros k' s. rewrite Hget. case_decide; eauto. }
  unfold p', reproject. change (map_get k (lib_shapes library)) with (map_get k sh). fold shapes.
  rewrite (rm_series _ _ Hr). destruct (decide (k ∈ pj_seriesOrder p)) as [Hk|Hk].
  - change (mkLibrary _ _ _ _ _) with (oneSeries library k).
    assert (Hnd : NoDup (recordKey <$> lib_records library)) by apply (rm_records _ _ Hr).
    destruct (continueCandidates_row _ _ cachedDecision_answers (pj_decisions p) (oneSeries library k) (pj_airing p)) as (d & -> & Hd);
      [done|by apply NoDup_fmap_filter|].
    rewrite one_row; [|done|]. 2:{ rewrite (rm_order _ _ Hr) in Hk. by apply elem_of_js_sort in Hk. }
    split_and!; try done; [by destruct Hr|]. intros k' Hk'. cbn [pj_seriesCandidates].
    destruct (decided (seriesInput library (pj_airing p) k)) as [c|] eqn:E; [rewrite map_get_set|rewrite map_get_delete]; case_decide; congruence.
  - split_and!; try done; [by destruct Hr|]. intros k' Hk'. cbn [pj_seriesCandidates]. case_decide; [|done]. congruence.
Qed.

Lemma reproject_fold base sh p changes :
  remembers_base p base -> cache_ok (pj_decisions p) -> shapes_wf sh ->
  let library := with_shapes base sh in
  let p' := foldl (reproject library) p changes in
  cache_ok (pj_decisions p') /\ remembers_base p' base
  /\ (forall k', map_get k' (pj_shapes p') = if decide (k' ∈ changes) then map_get k' sh else map_get k' (pj_shapes p))
  /\ (forall k', k' ∈ pj_seriesOrder p -> map_get k' (pj_seriesCandidates p') =
       if decide (k' ∈ changes) then decided (seriesInput library (pj_airing p) k') else map_get k' (pj_seriesCandidates p))
  /\ pj_airing p' = pj_airing p /\ pj_airingChanged p' = pj_airingChanged p.
Proof.
  intros Hr Hc Hsh library. cbn zeta. revert p Hr Hc. induction changes as [|k changes IH]; intros p Hr Hc; [done|].
  cbn [foldl]. destruct (reproject_spec base sh p k Hr Hc Hsh) as (Hc1 & Hr1 & Hg1 & Hd1 & Ho1 & Ha1 & Hch1).
  destruct (IH _ Hr1 Hc1) as (Hc2 & Hr2 & Hg2 & Hd2 & Ha2 & Hch2). split_and!; try done; try congruence.
  - intros k'. rewrite Hg2, Hg1. repeat case_decide; set_solver.
  - intros k' Hk'. rewrite Hd2, Hd1, Ha1 by (by rewrite ?Ho1). repeat case_decide; set_solver.
  - by etrans.
  - by etrans.
Qed.

(** The row rebuilt from the remembered parts. *)
Lemma rebuilt_row p base sh :
  remembers_base p base -> 
  (forall k, k ∈ pj_seriesOrder p -> map_get k (pj_seriesCandidates p) = decided (seriesInput (with_shapes base sh) (pj_airing p) k)) ->
  newestFirst (omap (fun key => map_get key (pj_seriesCandidates p)) (pj_seriesOrder p) ++ pj_movies p) (pj_activity p)
  = continueRow (with_shapes base sh) (pj_airing p).
Proof.
  intros Hr Hd. unfold newestFirst, continueRow. rewrite continueSummaries_shapes, <- (rm_order _ _ Hr).
  rewrite (omap_ext_in _ (fun key => decided (seriesInput (with_shapes base sh) (pj_airing p) key))) by done.
  change (filmCandidates (with_shapes base sh)) with (filmCandidates base). rewrite <- (rm_movies _ _ Hr).
  change (activeAt (with_shapes base sh)) with (activeAt base). apply js_sort_ext.
  assert (Ha : forall c, c ∈ omap (fun key => decided (seriesInput (with_shapes base sh) (pj_airing p) key)) (pj_seriesOrder p) ++ pj_movies p ->
    map_get (candidateKey c) (pj_activity p) ≫= id = activeAt base (candidateKey c)).
  { intros c Hc. apply (rm_activity _ _ Hr). apply elem_of_app in Hc as [(k & Hk & Hc)%list_elem_of_omap|Hc]; [left|right; eauto].
    by rewrite (decided_key _ _ _ _ Hc). }
  intros x y Hx Hy. unfold newest_cmp, time_cmp. by rewrite !Ha.
Qed.

(** The hypotheses of both cases: outside [changes], layouts read the same and no release date changed. *)
Definition covers (changes : list string) (p : Projector) (sh : jsmap string Shape) : Prop :=
  forall k, k ∉ changes -> sameShape (map_get k (pj_shapes p)) (map_get k sh) = true /\ k ∉ pj_airingChanged p.

Lemma no_changes_spec p base sh h :
  remembers p base -> cache_ok (pj_decisions p) -> shapes_wf sh -> lh_library h = with_shapes base sh -> covers [] p sh ->
  let out := projectKnownShapeChanges (withAiringSettled p) h [] in
  out.2 = continueRow (lh_library h) (pj_airing p) /\ projector_ok out.1.
Proof.
  intros Hr Hc Hsh Hb Hch. rewrite Hb.
  assert (Hnone : pj_airingChanged p = []).
  { destruct (pj_airingChanged p) as [|k l] eqn:E; [done|]. destruct (Hch k) as [_ Hn]; [set_solver|]. rewrite E in Hn. set_solver. }
  assert (Hrow : pj_candidates p = continueRow (with_shapes base sh) (pj_airing p)).
  { rewrite (rm_candidates _ _ Hr Hnone). apply continueRow_ext. intros k _.
    apply decided_similar; [apply (rm_base _ _ Hr)|done|apply Hch; set_solver|done]. }
  cbn. split; [done|]. split; [done|]. cbn [pj_library withCandidates]. rewrite Hb. destruct Hr as [Hrb Hrd Hrc]. split.
  - destruct Hrb; by split.
  - intros k Hk _. apply Hrd; [done|]. apply Hch. set_solver.
  - intros _. by apply Hrc.
Qed.

Lemma some_changes_spec p base sh h changes :
  remembers p base -> cache_ok (pj_decisions p) -> shapes_wf sh -> lh_library h = with_shapes base sh -> covers changes p sh ->
  changes <> [] ->
  let out := projectKnownShapeChanges (withAiringSettled p) h changes in
  out.2 = continueRow (lh_library h) (pj_airing p) /\ projector_ok out.1.
Proof.
  intros Hr Hc Hsh Hb Hch Hne. destruct changes as [|k0 changes0] eqn:Hcs; [done|]. cbn [projectKnownShapeChanges]. rewrite <- Hcs in *.
  clear Hcs Hne. rewrite Hb.
  assert (Hrs : remembers_base (withAiringSettled p) base) by (destruct (rm_base _ _ Hr); by split).
  destruct (reproject_fold base sh (withAiringSettled p) changes Hrs Hc Hsh) as (Hc2 & Hr2 & Hg2 & Hd2 & Ha2 & _).
  set (p2 := foldl _ _ _) in *. cbn [withAiringSettled pj_airing pj_shapes pj_seriesOrder pj_seriesCandidates] in Hg2, Hd2, Ha2.
  assert (Hdec : forall k, k ∈ pj_seriesOrder p2 -> map_get k (pj_seriesCandidates p2) = decided (seriesInput (with_shapes base sh) (pj_airing p) k)).
  { intros k Hk. rewrite (rm_order _ _ Hr2), <- (rm_order _ _ (rm_base _ _ Hr)) in Hk. rewrite Hd2 by done. case_decide as Hin; [done|].
    destruct (Hch k Hin) as [Hs Hn]. rewrite (rm_decided _ _ Hr) by done. apply decided_similar; [apply (rm_base _ _ Hr)|done..]. }
  assert (Hsame : forall k, decided (seriesInput (with_shapes base (pj_shapes p2)) (pj_airing p) k) = decided (seriesInput (with_shapes base sh) (pj_airing p) k)).
  { intros k. apply decided_similar; [apply (rm_shapes _ _ Hr2)|done| |done]. rewrite Hg2. case_decide as Hin; [|by apply Hch].
    apply sameShape_refl. apply Hsh. }
  rewrite (rebuilt_row p2 base sh), Ha2; [|done|by rewrite Ha2].
  split; [done|]. split; [done|]. cbn [fst withCandidates pj_library]. rewrite Hb. split.
  - destruct Hr2; by split.
  - intros k Hk _. cbn [withCandidates pj_seriesCandidates pj_shapes pj_airing]. rewrite Hdec, Ha2 by done. symmetry. apply Hsame.
  - intros _. cbn [withCandidates pj_candidates pj_shapes pj_airing]. rewrite Ha2. apply (continueRow_ext base sh (pj_shapes p2)). intros k _. symmetry. apply Hsame.
Qed.

Lemma known_changes_spec p base sh h changes :
  remembers p base -> cache_ok (pj_decisions p) -> shapes_wf sh -> lh_library h = with_shapes base sh -> covers changes p sh ->
  let out := projectKnownShapeChanges (withAiringSettled p) h changes in
  out.2 = continueRow (lh_library h) (pj_airing p) /\ projector_ok out.1.
Proof.
  intros. destruct (decide (changes = [])) as [->|]; [by eapply no_changes_spec|by eapply some_changes_spec].
Qed.

(** The projector is handed libraries whose shared parts are immutable: one reference, one value. *)
Definition agrees (p : Projector) (h : LibraryHandle) : Prop :=
  match pj_library p with
  | Some previous => sameHandle previous h = true -> with_shapes (lh_library previous) [] = with_shapes (lh_library h) []
  | None => True
  end.

Lemma projectShapes_spec p h changed :
  projector_ok p -> projectable (lh_library h) -> agrees p h ->
  ((project p h).2 = continueRow (lh_library h) (pj_airing p) /\ projector_ok (project p h).1)
  /\ ((projectShapeChanges p h changed).2 = continueRow (lh_library h) (pj_airing p) /\ projector_ok (projectShapeChanges p h changed).1).
Proof.
  intros [Hc Hl] Hp Ha. unfold projectShapeChanges. destruct (held_same p h) eqn:Hs; unfold project; rewrite Hs; [|split; by apply projectAll_spec].
  unfold held_same, agrees in *. destruct (pj_library p) as [previous|]; [|done].
  assert (Hb : lh_library h = with_shapes (lh_library previous) (lib_shapes (lh_library h))).
  { specialize (Ha Hs). destruct (lh_library h), (lh_library previous). cbn in *. by injection Ha as -> -> -> ->. }
  assert (Hcov : forall changes, (forall k, k ∈ changedShapes (pj_shapes p) (lib_shapes (lh_library h)) \/ k ∈ pj_airingChanged p -> k ∈ changes) ->
    covers changes p (lib_shapes (lh_library h))).
  { intros changes Hin k Hk. split; [|by intros ?; apply Hk, Hin; right]. apply changedShapes_spec; [apply Hp|]. intros ?. apply Hk, Hin. by left. }
  split; eapply known_changes_spec; try done; try apply Hp; apply Hcov; intros k Hk.
  - by apply (elem_of_foldl_add (pj_airingChanged p)).
  - rewrite elem_of_set_of, !elem_of_app. tauto.
Qed.

Lemma setAiring_changed p airing k :
  k ∉ pj_airingChanged (setAiring p airing).1 ->
  (k ∉ pj_airingChanged p) /\ dated (pj_airing p) k = dated (Some airing) k.
Proof.
  unfold setAiring. cbn [fst pj_airingChanged].
  rewrite (elem_of_foldl_cond (fun key => key) (fun key => negb _)). intros Hn. split; [tauto|].
  set (before := pj_airing p ≫= fun a => map_get k (ca_series a)) in *.
  assert (Hk : before = None /\ map_get k (ca_series airing) = None
    \/ (ca_today <$> pj_airing p = Some (ca_today airing) /\ before = map_get k (ca_series airing))).
  { destruct (decide (before = None /\ map_get k (ca_series airing) = None)) as [|Hsome]; [by left|right].
    destruct (decide (ca_today <$> pj_airing p = Some (ca_today airing) /\ before = map_get k (ca_series airing))) as [|Hdiff]; [done|].
    exfalso. apply Hn. right. exists k. split_and!; [| |done].
    - rewrite elem_of_set_of, elem_of_app, <- map_get_is_Some. destruct (map_get k (ca_series airing)) eqn:E; [left; eauto|right].
      unfold before in *. destruct (pj_airing p) as [a|]; cbn in *; [|naive_solver]. apply map_get_is_Some. destruct (map_get k (ca_series a)); [eauto|naive_solver].
    - apply negb_false_iff, andb_true_iff. fold before. unfold map_has. rewrite !orb_true_iff, !negb_true_iff, !bool_decide_eq_true, !bool_decide_eq_false.
      split; [destruct before, (map_get k (ca_series airing)); eauto; naive_solver|].
      destruct (decide (ca_today <$> pj_airing p = Some (ca_today airing))); [right|by left]. naive_solver. }
  unfold dated. unfold before in Hk. destruct (pj_airing p) as [a|]; cbn in *.
  - destruct Hk as [[-> ->]|[[= ->] ->]]; done.
  - destruct Hk as [[_ ->]|[? _]]; done.
Qed.

Lemma setAiring_ok p airing : projector_ok p -> projector_ok (setAiring p airing).1.
Proof.
  intros [Hc Hl]. split; [done|]. change (pj_library (setAiring p airing).1) with (pj_library p).
  destruct (pj_library p) as [h|]; [|done]. destruct Hl as [Hb Hd Hr].
  assert (Hsame : forall k, k ∉ pj_airingChanged (setAiring p airing).1 ->
    decided (seriesInput (with_shapes (lh_library h) (pj_shapes p)) (pj_airing p) k)
    = decided (seriesInput (with_shapes (lh_library h) (pj_shapes p)) (Some airing) k)).
  { intros k [_ Hk]%setAiring_changed. apply decided_similar; [apply Hb..| |done]. apply sameShape_refl. apply (rm_shapes _ _ Hb). }
  split.
  - destruct Hb; by split.
  - intros k Hk Hn. change (map_get k (pj_seriesCandidates p) = decided (seriesInput (with_shapes (lh_library h) (pj_shapes p)) (Some airing) k)).
    rewrite <- Hsame by done. apply Hd; [done|]. by apply setAiring_changed in Hn as [? _].
  - intros Hn. change (pj_candidates p = continueRow (with_shapes (lh_library h) (pj_shapes p)) (Some airing)).
    rewrite Hr.
    + apply continueRow_ext. intros k _. apply Hsame. rewrite Hn. set_solver.
    + destruct (pj_airingChanged p) as [|k l] eqn:E; [done|]. exfalso.
      destruct (setAiring_changed p airing k) as [Hk _]; [rewrite Hn; set_solver|]. rewrite E in Hk. set_solver.
Qed.

(** The projector as its owner drives it: release dates arrive, and libraries of [handed] are projected. *)
Inductive driven (handed : LibraryHandle -> Prop) : Projector -> Prop :=
| driven_new : driven handed newProjector
| driven_airing p airing : driven handed p -> driven handed (setAiring p airing).1
| driven_project p h : driven handed p -> handed h -> driven handed (project p h).1
| driven_shapes p h changed : driven handed p -> handed h -> driven handed (projectShapeChanges p h changed).1.

(** What a set of handed libraries is: projectable, and one reference has one value. *)
Definition handed_ok (handed : LibraryHandle -> Prop) : Prop :=
  (forall h, handed h -> projectable (lh_library h))
  /\ (forall a b, handed a -> handed b -> sameHandle a b = true -> with_shapes (lh_library a) [] = with_shapes (lh_library b) []).

Lemma project_library p h changed :
  pj_library (project p h).1 = Some h /\ pj_library (projectShapeChanges p h changed).1 = Some h.
Proof.
  assert (Hall : forall q, pj_library (projectAll q h).1 = Some h).
  { intros q. unfold projectAll. by destruct (continueCandidates _ _ _ _) as [[? ?] ?]. }
  assert (Hknown : forall q l, pj_library (projectKnownShapeChanges q h l).1 = Some h) by (intros q [|]; done).
  unfold projectShapeChanges. destruct (held_same p h) eqn:Hs; unfold project; rewrite Hs; auto.
Qed.

Lemma driven_ok handed p :
  handed_ok handed -> driven handed p -> projector_ok p /\ forall h, pj_library p = Some h -> handed h.
Proof.
  intros [Hp Ha]. induction 1 as [|p airing _ [IH1 IH2]|p h _ [IH1 IH2] Hh|p h changed _ [IH1 IH2] Hh].
  - split; [apply newProjector_ok|done].
  - split; [by apply setAiring_ok|done].
  - split.
    + apply (projectShapes_spec p h []); [done|auto|]. unfold agrees. destruct (pj_library p) eqn:E; [|done]. auto.
    + intros h'. rewrite (proj1 (project_library p h [])). by intros [= <-].
  - split.
    + apply (projectShapes_spec p h changed); [done|auto|]. unfold agrees. destruct (pj_library p) eqn:E; [|done]. auto.
    + intros h'. rewrite (proj2 (project_library p h changed)). by intros [= <-].
Qed.

(** C1: Continue Watching is projected incrementally and exactly. However the projector was driven, through
    either entry point, projecting a library returns the row a fresh computation returns: every series asked of the
    policy again, with the release dates set last. No stale decision, layout or date survives. *)
Theorem project_is_fresh (handed : LibraryHandle -> Prop) (p : Projector) (h : LibraryHandle) (changed : list string) :
  handed_ok handed -> driven handed p -> handed h ->
  (project p h).2 = (continueCandidates askPolicy tt (lh_library h) (pj_airing p)).2
  /\ (projectShapeChanges p h changed).2 = (continueCandidates askPolicy tt (lh_library h) (pj_airing p)).2.
Proof.
  intros Hok Hd Hh. destruct (driven_ok _ _ Hok Hd) as [Hp Hl].
  destruct (continueCandidates_row _ _ askPolicy_answers tt (lh_library h) (pj_airing p)) as (? & -> & _); [done|by apply Hok|].
  destruct (projectShapes_spec p h changed) as [[H1 _] [H2 _]]; [done|by apply Hok| |done].
  unfold agrees. destruct (pj_library p) eqn:E; [|done]. apply Hok; auto.
Qed.
End Invariant.

(** ** Worked example *)

Lemma plain_continue_laws : @ContinueLaws plain_continue.
Proof.
  intros r seasons Hp. unfold policy_continue_entry, plain_continue. cbn [rq_mark rq_seasons rq_dismissedAt with_seasons].
  assert (He : forall f : Z * Z -> bool, existsb f seasons = existsb f (rq_seasons r)).
  { intros f. apply eq_true_iff_eq. rewrite !existsb_exists. setoid_rewrite <- list_elem_of_In. by setoid_rewrite Hp. }
  destruct (rq_mark r) as [[[[? ?] ?] ?]|]; [|done]. by rewrite He.
Qed.

Definition handle_of (shapes : jsmap string Shape) : LibraryHandle := mkHandle 1 2 3 4 (with_shapes continue_library shapes).

Definition sample_handed (h : LibraryHandle) : Prop :=
  h = handle_of [] \/ h = handle_of [("tv:7", mkShape [(1, 3)] None)].

Lemma sample_handed_ok : handed_ok sample_handed.
Proof.
  split; [|by intros a b [->| ->] [->| ->]].
  intros h [->| ->]; (split; [|split]); cbn [lh_library handle_of]; try (apply (bool_decide_unpack _); vm_compute; exact I).
  - split; [apply map_wf_nil|done].
  - split; [apply (bool_decide_unpack _); vm_compute; exact I|]. intros k s. cbn. case_decide; [|done]. intros [= <-].
    apply (bool_decide_unpack _). vm_compute. exact I.
Qed.

(** The next episode of a finished series appears when its layout arrives, on the incremental path. *)
Lemma project_is_fresh_witness :
  let p := (@project plain_continue newProjector (handle_of [])).1 in
  let h := handle_of [("tv:7", mkShape [(1, 3)] None)] in
  (cc_episode <$> (@project plain_continue newProjector (handle_of [])).2) = [None]
  /\ held_same p h = true
  /\ (@project plain_continue p h).2 = (continueCandidates (@askPolicy plain_continue) tt (lh_library h) None).2
  /\ (cc_episode <$> (@project plain_continue p h).2) = [Some (mkEpisodeAt 1 2); None].
Proof.
  cbv zeta. split; [vm_compute; reflexivity|]. split; [vm_compute; reflexivity|]. split; [|vm_compute; reflexivity].
  apply (@project_is_fresh plain_continue plain_continue_laws sample_handed _ _ []).
  - exact sample_handed_ok.
  - apply driven_project; [apply driven_new|by left].
  - by right.
Defined.
