(* ===== verification/HistoryIndex.v ===== *)
(** * The history index ([web/src/lib/historyIndex.ts])

    The watched summary of a title, from its documents or from projections kept of them, and
    [MaterializedHistoryIndex]: one sorted list and its buckets by type and year, updated one title at a time and
    read in pages behind a cursor. *)

From S2P Require Import Prelude JsMap JsText Json Wire Actions LibraryV4 Library.

Record HistoryItem : Type := mkItem {
  hi_title : TitleRef;
  hi_watchedAt : Z;
  hi_episode : option EpisodeRef;
  hi_episodes : Z;
}.
#[global] Instance HistoryItem_eq_dec : EqDecision HistoryItem.
Proof. solve_decision. Defined.

Definition itemKey (i : HistoryItem) : string := refKey (hi_title i).

(** [filter.type] and [filter.year], each absent for every. *)
Record HistoryFilter : Type := mkFilter { hf_type : option string; hf_year : option string }.

Definition HISTORY_INDEX_POLICY : Z := 3.
Definition HISTORY_INDEX_SCHEMA : Z := 1.
Definition DEFAULT_LIMIT : Z := 48.
Definition MAX_LIMIT : Z := 96.
Definition UNKNOWN_YEAR : string := "unknown".

Record HistoryIndexSource : Type := mkSource {
  src_generation : option string;
  src_version : Z;
  src_revision : string;
  src_reconsiderAt : option Z;
}.
#[global] Instance HistoryIndexSource_eq_dec : EqDecision HistoryIndexSource.
Proof. solve_decision. Defined.

(** ** One title's summary *)

Inductive HistoryDocumentProjection : Type :=
| HPTitle (title : TitleRow)
| HPSeason (title : TitleRef) (season : Z) (watched : list (Z * Z)).

Definition historySeasonProjection (d : DocumentRow) (watched : list (Z * Z)) : HistoryDocumentProjection :=
  HPSeason (doc_title d) (default 0 (doc_season d)) watched.

(** What the loops over episodes gather: [episodes], [latest] and [latestWatchedAt]. *)
Record Watched : Type := mkWatched {
  wa_episodes : Z;
  wa_latest : option (EpisodeRef * Z);
  wa_latestAt : option Z;
}.

Definition noneWatched : Watched := mkWatched 0 None None.

(** One watched episode counted. *)
Definition countWatched (reset : option Stamp) (w : Watched) (season episode at_ : Z) : Watched :=
  if match reset with Some r => at_ <=? st_t r | None => false end then w
  else
    let latestAt := Some (max_ninf (wa_latestAt w) at_) in
    if season <=? 0 then mkWatched (wa_episodes w) (wa_latest w) latestAt
    else mkWatched (wa_episodes w + 1)
           (match wa_latest w with
            | Some (_, t) => if t <? at_ then Some (mkEpisodeAt season episode, at_) else wa_latest w
            | None => Some (mkEpisodeAt season episode, at_)
            end) latestAt.

(** The summary's tail: when the title was seen as a whole, and the item it makes. *)
Definition historyItem (ref : TitleRef) (title : option TitleRow) (w : Watched) : option HistoryItem :=
  let seenAt := match title with
                | Some t => if bool_decide (sv_value (tr_status t) = SWatched)
                            then Z.max (Z.max (default 0 (tr_watchedAt t)) (st_t (sv_at (tr_status t)))) 0 else -1
                | None => -1
                end in
  let watchedAt := Z.max seenAt (match wa_latestAt w with None => -1 | Some at_ => Z.max at_ 0 end) in
  if watchedAt <? 0 then None
  else Some (mkItem (mkRef (ref_type ref) (ref_id ref)) watchedAt (fst <$> wa_latest w) (wa_episodes w)).

Definition projection_ref (p : HistoryDocumentProjection) : TitleRef :=
  match p with HPTitle t => tr_title t | HPSeason t _ _ => t end.

Definition historyItemFromProjections (projections : list HistoryDocumentProjection) : option HistoryItem :=
  match projections with
  | [] => None
  | first :: _ =>
    let ref := projection_ref first in
    let key := refKey ref in
    let title := foldl (fun t p => match p with
                                   | HPTitle row => if String.eqb (refKey (tr_title row)) key then Some row else t
                                   | _ => t
                                   end) None projections in
    let reset := title ≫= tr_episodesReset in
    let w := foldl (fun w p =>
        match p with
        | HPSeason t season watched =>
          if negb (String.eqb (refKey t) key) then w
          else foldl (fun w ea => countWatched reset w season ea.1 ea.2) w watched
        | HPTitle _ => w
        end) noneWatched projections in
    historyItem ref title w
  end.

Section FromDocuments.
Context `{DocumentPolicy}.

(** The title row of the last title document of [key]. *)
Definition documentTitle (key : string) (now : Z) (title : option TitleRow) (d : DocumentRow) : res (option TitleRow) :=
  if negb (String.eqb (refKey (doc_title d)) key) then Ok title
  else match doc_kind d with
       | KTitle =>
         let! rows := projectDocument d now in
         Ok (match rows with RTitle row :: _ => Some row | _ => title end)
       | _ => Ok title
       end.

Definition documentWatched (key : string) (now : Z) (reset : option Stamp) (w : Watched) (d : DocumentRow) : res Watched :=
  match doc_kind d with
  | KSeason =>
    if negb (String.eqb (refKey (doc_title d)) key) then Ok w
    else
      let! rows := forEachProjectedEpisode d now in
      Ok (foldl (fun w row => if Qc_ltb (pr_value (ep_progress row)) WATCHED then w
                              else countWatched reset w (ep_season row) (ep_episode row) (st_t (pr_at (ep_progress row)))) w rows)
  | _ => Ok w
  end.

Definition historyItemFromDocuments (documents : list DocumentRow) (now : Z) : res (option HistoryItem) :=
  match documents with
  | [] => Ok None
  | first :: _ =>
    let ref := doc_title first in
    let key := refKey ref in
    let! title := res_fold (documentTitle key now) None documents in
    let! w := res_fold (documentWatched key now (title ≫= tr_episodesReset)) noneWatched documents in
    Ok (historyItem ref title w)
  end.

(** What the fact store keeps of one document for its history ([libraryFactStore.ts] [continueAndHistoryOfSeason]
    and [facts]); a delivery document keeps nothing. *)
Definition documentProjection (d : DocumentRow) (now : Z) : res (option HistoryDocumentProjection) :=
  match doc_kind d with
  | KSeason =>
    let! rows := forEachProjectedEpisode d now in
    Ok (Some (historySeasonProjection d
      (omap (fun row => if Qc_leb WATCHED (pr_value (ep_progress row))
                        then Some (ep_episode row, st_t (pr_at (ep_progress row))) else None) rows)))
  | KTitle =>
    let! rows := projectDocument d now in
    Ok (match list_find (fun r => match r with RTitle _ => true | _ => false end = true) rows with
        | Some (_, RTitle row) => Some (HPTitle row)
        | _ => None
        end)
  | KDelivery => Ok None
  end.
End FromDocuments.

(** ** Order and cursors *)

Definition compareHistoryTitleKeys (left right : string) : Z := str_cmp left right.

Definition compareHistoryItems (left right : HistoryItem) : Z :=
  or_num (if hi_watchedAt left =? hi_watchedAt right then 0 else if hi_watchedAt right <? hi_watchedAt left then -1 else 1)
         (compareHistoryTitleKeys (itemKey left) (itemKey right)).

(** The viewer's calendar: the year of an instant in a time zone (JavaScript's [Intl]). *)
Class Calendar := calendar_year : string -> Z -> Z.

Definition yearOf `{Calendar} (item : HistoryItem) (timeZone : string) : string :=
  if hi_watchedAt item <=? 0 then UNKNOWN_YEAR else Z_str (calendar_year timeZone (hi_watchedAt item)).

Definition historyFilterKey (filter : HistoryFilter) : string :=
  default "all" (hf_type filter) +:+ ":" +:+ default "all" (hf_year filter).

Definition newline : ascii := ascii_of_nat 10.
Definition nl : string := char_str newline.

Definition historyCursorOf (revision : string) (filter : HistoryFilter) (item : HistoryItem) : string :=
  join nl [revision; historyFilterKey filter; Z_str (hi_watchedAt item); itemKey item].

(** [Number(rawAt)] on the decimal integers cursors are written with; any other text is refused here. *)
Definition historyCursorBoundary (revision : string) (filter : HistoryFilter) (cursor : string) : option (Z * string) :=
  match split_on newline cursor with
  | [heldRevision; heldFilter; rawAt; key] =>
    if String.eqb heldRevision revision && String.eqb heldFilter (historyFilterKey filter) && truthy key
    then (fun at_ => (at_, key)) <$> str_Z rawAt else None
  | _ => None
  end.

(** The least index in [low, high) at which [after] holds, by bisection; [fuel] bounds the halvings. *)
Fixpoint bisect {A} (after : A -> bool) (items : list A) (fuel : nat) (low high : nat) : nat :=
  match fuel with
  | O => low
  | S fuel =>
    if (low <? high)%nat then
      let middle := ((low + high) / 2)%nat in
      match items !! middle with
      | Some item => if after item then bisect after items fuel low middle else bisect after items fuel (S middle) high
      | None => low
      end
    else low
  end.

Definition bisection {A} (after : A -> bool) (items : list A) : nat := bisect after items (length items) 0 (length items).

Definition afterBoundary (at_ : Z) (key : string) (item : HistoryItem) : bool :=
  (hi_watchedAt item <? at_) || ((hi_watchedAt item =? at_) && str_ltb key (itemKey item)).

Definition cursorPosition (items : list HistoryItem) (revision : string) (filter : HistoryFilter) (cursor : option string) : option nat :=
  match cursor with
  | None => Some 0%nat
  | Some c =>
    if negb (truthy c) then Some 0%nat
    else (fun b => bisection (afterBoundary b.1 b.2) items) <$> historyCursorBoundary revision filter c
  end.

Definition insert (items : list HistoryItem) (item : HistoryItem) : list HistoryItem :=
  let low := bisection (fun i => 0 <? compareHistoryItems i item) items in
  take low items ++ item :: drop low items.

(** [splice] at the first item of that key. *)
Definition remove (items : list HistoryItem) (key : string) : list HistoryItem :=
  match list_find (fun i => itemKey i = key) items with
  | Some (found, _) => take found items ++ drop (S found) items
  | None => items
  end.

(** ** [MaterializedHistoryIndex] *)

(** [Record<MediaType, T>]: one value for films, one for series. *)
Record PerType (T : Type) : Type := mkPer { per_movie : T; per_tv : T }.
Arguments mkPer {T} _ _.
Arguments per_movie {T} _.
Arguments per_tv {T} _.

Definition per_get {T} (p : PerType T) (type : string) : T := if String.eqb type "movie" then per_movie p else per_tv p.
Definition per_set {T} (p : PerType T) (type : string) (v : T) : PerType T :=
  if String.eqb type "movie" then mkPer v (per_tv p) else mkPer (per_movie p) v.

Record HistoryIndex : Type := mkIndex {
  ix_byTitle : jsmap string HistoryItem;
  ix_all : list HistoryItem;
  ix_byType : PerType (list HistoryItem);
  ix_byYear : jsmap string (list HistoryItem);
  ix_byTypeYear : PerType (jsmap string (list HistoryItem));
  ix_source : HistoryIndexSource;
  ix_builtAt : Z;
  ix_timeZone : string;
  ix_revision : string;
}.

(** [encodeURIComponent], of the language. *)
Class UriEncoding := encodeURIComponent : string -> string.

Definition indexRevision `{UriEncoding} (source : HistoryIndexSource) (timeZone : string) : string :=
  "history-" +:+ Z_str HISTORY_INDEX_SCHEMA +:+ "." +:+ Z_str HISTORY_INDEX_POLICY
  +:+ ":" +:+ encodeURIComponent (default "local" (src_generation source))
  +:+ ":" +:+ Z_str (src_version source)
  +:+ ":" +:+ encodeURIComponent (src_revision source)
  +:+ ":" +:+ encodeURIComponent timeZone
  +:+ ":" +:+ from_option Z_str "none" (src_reconsiderAt source).

Definition emptyIndex `{UriEncoding} (source : HistoryIndexSource) (now : Z) (timeZone : string) : HistoryIndex :=
  mkIndex [] [] (mkPer [] []) [] (mkPer [] []) source now timeZone (indexRevision source timeZone).

Section Index.
Context `{DocumentPolicy, Calendar, UriEncoding}.

(** A bucket of a map of buckets changed, an absent one starting empty. *)
Definition bucketSet (f : list HistoryItem -> list HistoryItem) (year : string) (m : jsmap string (list HistoryItem)) :=
  map_set year (f (default [] (map_get year m))) m.

(** [#add] with [insert], [#append] with [push]: the item placed in every list it belongs to. *)
Definition place (put : list HistoryItem -> list HistoryItem) (ix : HistoryIndex) (item : HistoryItem) : HistoryIndex :=
  let type := ref_type (hi_title item) in
  let year := yearOf item (ix_timeZone ix) in
  mkIndex (map_set (itemKey item) item (ix_byTitle ix))
    (put (ix_all ix))
    (per_set (ix_byType ix) type (put (per_get (ix_byType ix) type)))
    (bucketSet put year (ix_byYear ix))
    (per_set (ix_byTypeYear ix) type (bucketSet put year (per_get (ix_byTypeYear ix) type)))
    (ix_source ix) (ix_builtAt ix) (ix_timeZone ix) (ix_revision ix).

Definition addItem (ix : HistoryIndex) (item : HistoryItem) : HistoryIndex := place (fun l => insert l item) ix item.
Definition appendItem (ix : HistoryIndex) (item : HistoryItem) : HistoryIndex := place (fun l => l ++ [item]) ix item.

(** [#remove]'s handling of a bucket: an emptied one is deleted. *)
Definition bucketRemove (key year : string) (m : jsmap string (list HistoryItem)) : jsmap string (list HistoryItem) :=
  match map_get year m with
  | Some items => match remove items key with [] => map_delete year m | items' => map_set year items' m end
  | None => m
  end.

Definition removeItem (ix : HistoryIndex) (item : HistoryItem) : HistoryIndex :=
  let key := itemKey item in
  let type := ref_type (hi_title item) in
  let year := yearOf item (ix_timeZone ix) in
  mkIndex (map_delete key (ix_byTitle ix))
    (remove (ix_all ix) key)
    (per_set (ix_byType ix) type (remove (per_get (ix_byType ix) type) key))
    (bucketRemove key year (ix_byYear ix))
    (per_set (ix_byTypeYear ix) type (bucketRemove key year (per_get (ix_byTypeYear ix) type)))
    (ix_source ix) (ix_builtAt ix) (ix_timeZone ix) (ix_revision ix).

(** The documents of each title, in the order the titles first appear. *)
Definition groupDocuments (documents : list DocumentRow) : jsmap string (list DocumentRow) :=
  foldl (fun g d =>
    match doc_kind d with
    | KDelivery => g
    | _ => let key := refKey (doc_title d) in map_set key (default [] (map_get key g) ++ [d]) g
    end) [] documents.

(** The constructor. *)
Definition buildIndex (source : HistoryIndexSource) (documents : list DocumentRow) (now : Z) (timeZone : string) : res HistoryIndex :=
  let! entries := res_map (fun held => historyItemFromDocuments held now) (map_values (groupDocuments documents)) in
  Ok (foldl appendItem (emptyIndex source now timeZone) (js_sort compareHistoryItems (omap id entries))).

Definition fromItems (source : HistoryIndexSource) (items : list HistoryItem) (now : Z) (timeZone : string) : HistoryIndex :=
  foldl appendItem (emptyIndex source now timeZone) (js_sort compareHistoryItems items).

(** [update]: the index after it, and whether it threw; a projection that throws leaves the title taken out. *)
Definition updateIndex (ix : HistoryIndex) (title : TitleRef) (documents : list DocumentRow) (source : HistoryIndexSource) (now : Z)
  : HistoryIndex * res unit :=
  let ix := match map_get (refKey title) (ix_byTitle ix) with Some previous => removeItem ix previous | None => ix end in
  match historyItemFromDocuments documents now with
  | Throw m => (ix, Throw m)
  | Ok next =>
    let ix := match next with Some item => addItem ix item | None => ix end in
    (mkIndex (ix_byTitle ix) (ix_all ix) (ix_byType ix) (ix_byYear ix) (ix_byTypeYear ix) source (ix_builtAt ix) (ix_timeZone ix)
       (indexRevision source (ix_timeZone ix)), Ok tt)
  end.

Definition hasSource (ix : HistoryIndex) (source : HistoryIndexSource) (timeZone : string) : bool :=
  bool_decide (src_generation (ix_source ix) = src_generation source) && (src_version (ix_source ix) =? src_version source)
  && String.eqb (src_revision (ix_source ix)) (src_revision source) && String.eqb (ix_timeZone ix) timeZone
  && bool_decide (src_reconsiderAt (ix_source ix) = src_reconsiderAt source).

Definition episodeCount (ix : HistoryIndex) (title : TitleRef) : Z :=
  from_option hi_episodes 0 (map_get (refKey title) (ix_byTitle ix)).

(** *** Reading *)

Definition indexItems (ix : HistoryIndex) (filter : HistoryFilter) : list HistoryItem :=
  let type := hf_type filter ≫= nonempty in
  let year := hf_year filter ≫= nonempty in
  match type, year with
  | Some t, Some y => default [] (map_get y (per_get (ix_byTypeYear ix) t))
  | Some t, None => per_get (ix_byType ix) t
  | None, Some y => default [] (map_get y (ix_byYear ix))
  | None, None => ix_all ix
  end.

Record YearFacet : Type := mkYearFacet { yf_year : string; yf_all : nat; yf_movie : nat; yf_tv : nat }.
Record HistoryFacets : Type := mkFacets { fc_all : nat; fc_movie : nat; fc_tv : nat; fc_years : list YearFacet }.

Definition year_number (year : string) : Z := default 0 (str_Z year).

Definition facet_cmp (left right : YearFacet) : Z :=
  if String.eqb (yf_year left) UNKNOWN_YEAR then 1
  else if String.eqb (yf_year right) UNKNOWN_YEAR then -1
  else year_number (yf_year right) - year_number (yf_year left).

Definition bucketSize (year : string) (m : jsmap string (list HistoryItem)) : nat := length (default [] (map_get year m)).

Definition indexFacets (ix : HistoryIndex) : HistoryFacets :=
  mkFacets (length (ix_all ix)) (length (per_movie (ix_byType ix))) (length (per_tv (ix_byType ix)))
    (js_sort facet_cmp ((fun yi => mkYearFacet yi.1 (length yi.2) (bucketSize yi.1 (per_movie (ix_byTypeYear ix)))
                                              (bucketSize yi.1 (per_tv (ix_byTypeYear ix)))) <$> ix_byYear ix)).

Record HistoryPage : Type := mkPage {
  pg_revision : string;
  pg_total : nat;
  pg_facets : HistoryFacets;
  pg_items : list HistoryItem;
  pg_nextCursor : option string;
}.

Definition indexPage (ix : HistoryIndex) (filter : HistoryFilter) (cursor : option string) (limit : Z) : option HistoryPage :=
  let items := indexItems ix filter in
  match cursorPosition items (ix_revision ix) filter cursor with
  | None => None
  | Some start =>
    let count := Z.to_nat (Z.max 1 (Z.min limit MAX_LIMIT)) in
    let page := take count (drop start items) in
    Some (mkPage (ix_revision ix) (length items) (indexFacets ix) page
            (if (start + length page <? length items)%nat
             then (historyCursorOf (ix_revision ix) filter) <$> last page else None))
  end.

(** *** Persistence *)

Record HistoryIndexSnapshot : Type := mkSnapshot {
  sn_schema : Z;
  sn_policy : Z;
  sn_source : HistoryIndexSource;
  sn_builtAt : Z;
  sn_items : list HistoryItem;
}.

Definition snapshotIndex (ix : HistoryIndex) : HistoryIndexSnapshot :=
  mkSnapshot HISTORY_INDEX_SCHEMA HISTORY_INDEX_POLICY (ix_source ix) (ix_builtAt ix) (ix_all ix).

Definition safe_integer (z : Z) : bool := (- MAX_SAFE_INTEGER <=? z) && (z <=? MAX_SAFE_INTEGER).

Definition validSource (s : HistoryIndexSource) : bool :=
  safe_integer (src_version s) && (0 <=? src_version s) && truthy (src_revision s).

Definition validItem (i : HistoryItem) : bool :=
  is_media (ref_type (hi_title i)) && safe_integer (ref_id (hi_title i)) && (0 <? ref_id (hi_title i))
  && (0 <=? hi_watchedAt i) && safe_integer (hi_episodes i) && (0 <=? hi_episodes i)
  && match hi_episode i with
     | None => true
     | Some e => String.eqb (ref_type (hi_title i)) "tv" && safe_integer (ea_season e) && safe_integer (ea_episode e)
     end.

Definition restoreIndex (s : HistoryIndexSnapshot) (timeZone : string) : option HistoryIndex :=
  if negb ((sn_schema s =? HISTORY_INDEX_SCHEMA) && (sn_policy s =? HISTORY_INDEX_POLICY) && validSource (sn_source s)
           && (Z.of_nat (length (sn_items s)) <=? 100000) && forallb validItem (sn_items s)) then None
  else if negb (length (set_of (itemKey <$> sn_items s)) =? length (sn_items s))%nat then None
  else Some (fromItems (sn_source s) (sn_items s) (sn_builtAt s) timeZone).
End Index.

(** ** Bisection *)

Lemma bisect_spec {A} (after : A -> bool) l1 l2 fuel low high :
  Forall (fun x => after x = false) l1 -> Forall (fun x => after x = true) l2 ->
  (low <= length l1 <= high)%nat -> (high <= length (l1 ++ l2))%nat -> (high - low <= fuel)%nat ->
  bisect after (l1 ++ l2) fuel low high = length l1.
Proof.
  intros H1 H2. revert low high. induction fuel as [|fuel IH]; intros low high Hb Hh Hf; cbn [bisect]; [lia|].
  destruct (Nat.ltb_spec low high) as [Hlt|]; [|lia].
  assert (Hm : (low <= (low + high) / 2 < high)%nat).
  { split; [apply Nat.div_le_lower_bound; lia|apply Nat.Div0.div_lt_upper_bound; lia]. }
  destruct (lookup_lt_is_Some_2 (l1 ++ l2) ((low + high) / 2)) as [x Hx]; [lia|]. rewrite Hx.
  destruct (decide ((low + high) / 2 < length l1)%nat) as [Hl|Hl].
  - rewrite lookup_app_l in Hx by done. rewrite (Forall_lookup_1 _ _ _ _ H1 Hx). apply IH; lia.
  - rewrite lookup_app_r in Hx by lia. rewrite (Forall_lookup_1 _ _ _ _ H2 Hx). apply IH; lia.
Qed.

Lemma bisection_spec {A} (after : A -> bool) l1 l2 :
  Forall (fun x => after x = false) l1 -> Forall (fun x => after x = true) l2 -> bisection after (l1 ++ l2) = length l1.
Proof. intros. unfold bisection. apply bisect_spec; [done..|rewrite length_app; lia|lia|lia]. Qed.

(** A list sorted for [R], under a test that [R] cannot turn back from true to false, is split by it. *)
Lemma sorted_split {A} (R : A -> A -> Prop) (after : A -> bool) l :
  StronglySorted R l -> (forall x y, R x y -> after x = true -> after y = true) ->
  l = filter (fun x => after x = false) l ++ filter (fun x => after x = true) l.
Proof.
  intros Hs Hm. induction Hs as [|x l Hs IH Hx]; [done|]. destruct (after x) eqn:E.
  - rewrite !filter_cons, decide_False by congruence. rewrite decide_True by done.
    rewrite filter_none; [cbn [app]; f_equal; symmetry; apply filter_all|].
    + intros y Hy. rewrite Forall_forall in Hx. by eapply Hm; [apply Hx|].
    + intros y Hy Hf. rewrite Forall_forall in Hx. specialize (Hx y Hy). rewrite (Hm _ _ Hx E) in Hf. done.
  - rewrite !filter_cons, decide_True by done. rewrite decide_False by congruence. cbn [app]. f_equal. apply IH.
Qed.

Lemma bisection_sorted {A} (R : A -> A -> Prop) (after : A -> bool) l :
  StronglySorted R l -> (forall x y, R x y -> after x = true -> after y = true) ->
  bisection after l = length (filter (fun x => after x = false) l).
Proof.
  intros Hs Hm. rewrite (sorted_split R after l) at 1 by done.
  apply bisection_spec; apply Forall_forall; intros x [Hx _]%list_elem_of_filter; done.
Qed.

(** ** The order *)

Definition item_lt (a b : HistoryItem) : Prop := compareHistoryItems a b < 0.

Lemma item_lt_spec a b :
  item_lt a b <-> hi_watchedAt b < hi_watchedAt a \/ (hi_watchedAt a = hi_watchedAt b /\ str_ltb (itemKey a) (itemKey b) = true).
Proof.
  unfold item_lt, compareHistoryItems, or_num, compareHistoryTitleKeys.
  destruct (Z.eqb_spec (hi_watchedAt a) (hi_watchedAt b)); [|destruct (Z.ltb_spec (hi_watchedAt b) (hi_watchedAt a))]; cbn; [|lia..].
  destruct (str_cmp_cases (itemKey a) (itemKey b)) as [[-> H]|[[-> H]|[-> H]]].
  - rewrite H. intuition lia.
  - rewrite H, str_ltb_irrefl. intuition (lia || done).
  - apply str_ltb_asym in H. rewrite H. intuition (lia || done).
Qed.

Lemma compare_pos a b : 0 < compareHistoryItems a b <-> item_lt b a.
Proof.
  rewrite item_lt_spec. unfold compareHistoryItems, or_num, compareHistoryTitleKeys.
  destruct (Z.eqb_spec (hi_watchedAt a) (hi_watchedAt b)); [|destruct (Z.ltb_spec (hi_watchedAt b) (hi_watchedAt a))]; cbn; [|lia..].
  destruct (str_cmp_cases (itemKey a) (itemKey b)) as [[-> H]|[[-> H]|[-> H]]].
  - apply str_ltb_asym in H. rewrite H. intuition (lia || done).
  - rewrite H, str_ltb_irrefl. intuition (lia || done).
  - rewrite H. intuition lia.
Qed.

Lemma item_lt_trans a b c : item_lt a b -> item_lt b c -> item_lt a c.
Proof.
  rewrite !item_lt_spec. intros [H1|[H1 H1']] [H2|[H2 H2']]; [left; lia..|right]. split; [lia|]. by eapply str_ltb_trans.
Qed.
Lemma item_lt_irrefl a : ~ item_lt a a.
Proof. rewrite item_lt_spec, str_ltb_irrefl. intuition (lia || done). Qed.
Lemma item_lt_asym a b : item_lt a b -> ~ item_lt b a.
Proof. intros H1 H2. eapply item_lt_irrefl, item_lt_trans; eauto. Qed.
Lemma item_lt_total a b : item_lt a b \/ item_lt b a \/ itemKey a = itemKey b.
Proof.
  rewrite !item_lt_spec. destruct (Z.lt_total (hi_watchedAt a) (hi_watchedAt b)) as [|[|]]; [auto| |auto].
  destruct (str_cmp_cases (itemKey a) (itemKey b)) as [[_ ?]|[[_ ?]|[_ ?]]]; auto.
Qed.

#[global] Instance compareHistoryItems_comparator : Comparator compareHistoryItems.
Proof.
  assert (Hle : forall x y, compareHistoryItems x y <= 0 <-> ~ item_lt y x) by (intros; rewrite <- compare_pos; lia).
  split; [intros x y|intros x y z]; rewrite !Hle.
  - destruct (item_lt_total x y) as [|[|He]]; [left; by apply item_lt_asym|right; by apply item_lt_asym|].
    rewrite !item_lt_spec, He, str_ltb_irrefl. lia.
  - intros H1 H2 H3. destruct (item_lt_total x y) as [Hxy|[Hxy|Hxy]]; [|done|].
    + apply H2. eapply item_lt_trans; eauto.
    + rewrite item_lt_spec in H1, H2, H3. rewrite Hxy in H1, H3. apply H2.
      destruct (Z.lt_total (hi_watchedAt x) (hi_watchedAt y)) as [|[Heq|]]; [tauto| |].
      * rewrite <- Heq. done.
      * left. destruct H3 as [|[? _]]; lia.
Qed.

(** ** Insertion and removal *)

Lemma insert_spec l item :
  StronglySorted item_lt l ->
  insert l item = filter (fun i => (0 <? compareHistoryItems i item) = false) l ++ item :: filter (fun i => (0 <? compareHistoryItems i item) = true) l.
Proof.
  intros Hs. unfold insert.
  assert (Hm : forall x y, item_lt x y -> (0 <? compareHistoryItems x item) = true -> (0 <? compareHistoryItems y item) = true).
  { intros x y Hxy. rewrite !Z.ltb_lt, !compare_pos. intros. by eapply item_lt_trans. }
  rewrite (bisection_sorted item_lt) by done. rewrite (sorted_split item_lt _ l Hs Hm) at 2 4.
  by rewrite take_app_length, drop_app_length.
Qed.

Lemma filter_insert (P : HistoryItem -> Prop) `{!forall x, Decision (P x)} l item :
  StronglySorted item_lt l -> filter P (insert l item) = if decide (P item) then insert (filter P l) item else filter P l.
Proof.
  intros Hs. assert (Hc : forall b, filter P (filter (fun i => (0 <? compareHistoryItems i item) = b) l)
    = filter (fun i => (0 <? compareHistoryItems i item) = b) (filter P l)).
  { intros b. rewrite !list_filter_filter. apply filter_ext_in. naive_solver. }
  rewrite insert_spec by done. rewrite filter_app, filter_cons, !Hc. case_decide.
  - rewrite insert_spec by (by apply StronglySorted_filter). done.
  - symmetry. apply (sorted_split item_lt); [by apply StronglySorted_filter|].
    intros x y Hxy. rewrite !Z.ltb_lt, !compare_pos. intros. by eapply item_lt_trans.
Qed.

Lemma elem_of_insert l item i : StronglySorted item_lt l -> i ∈ insert l item <-> i = item \/ i ∈ l.
Proof.
  intros Hs. rewrite insert_spec, elem_of_app, elem_of_cons, !list_elem_of_filter by done.
  destruct (0 <? compareHistoryItems i item); naive_solver.
Qed.

Lemma insert_perm l item : StronglySorted item_lt l -> insert l item ≡ₚ item :: l.
Proof.
  intros Hs. unfold insert. rewrite <- Permutation_middle. by rewrite take_drop.
Qed.

Lemma insert_sorted l item :
  StronglySorted item_lt l -> itemKey item ∉ itemKey <$> l -> StronglySorted item_lt (insert l item).
Proof.
  intros Hs Hk. rewrite insert_spec by done.
  assert (Hbefore : forall x, x ∈ l -> (0 <? compareHistoryItems x item) = false -> item_lt x item).
  { intros x Hx Hc%Z.ltb_ge. destruct (item_lt_total x item) as [|[Hlt|Heq]]; [done| |].
    - apply compare_pos in Hlt. lia.
    - exfalso. apply Hk. rewrite <- Heq. apply list_elem_of_fmap. eauto. }
  assert (Hafter : forall x, (0 <? compareHistoryItems x item) = true -> item_lt item x) by (intros x Hx%Z.ltb_lt; by apply compare_pos).
  apply StronglySorted_app_2; [|by apply StronglySorted_filter|constructor; [by apply StronglySorted_filter|]].
  2:{ apply Forall_forall. intros x [Hx _]%list_elem_of_filter. auto. }
  - intros x y [Hx Hin]%list_elem_of_filter [->|[Hy _]%list_elem_of_filter]%elem_of_cons; [auto|].
    eapply item_lt_trans; eauto.
Qed.

Lemma remove_spec l key : NoDup (itemKey <$> l) -> remove l key = filter (fun i => itemKey i <> key) l.
Proof.
  intros Hnd. unfold remove. destruct (list_find _ l) as [[n x]|] eqn:E.
  - apply list_find_Some in E as (Hn & Hx & Hb).
    assert (Hl : l = take n l ++ x :: drop (S n) l) by (by rewrite take_drop_middle).
    rewrite Hl at 3. rewrite filter_app, filter_cons, decide_False by auto.
    rewrite Hl, fmap_app, fmap_cons in Hnd. apply NoDup_app in Hnd as (_ & Hd & [Hx' _]%NoDup_cons).
    rewrite !filter_all; [done| |].
    + intros y Hy Heq. apply Hx'. rewrite Hx, <- Heq. apply list_elem_of_fmap. eauto.
    + intros y Hy Heq. apply (Hd (itemKey y)); [apply list_elem_of_fmap; eauto|]. rewrite Heq, Hx. left.
  - symmetry. apply filter_all. intros y Hy Heq. apply list_find_None in E. rewrite Forall_forall in E. by apply (E y).
Qed.

(** ** The index invariant *)

(** A bucket map holds the non-empty buckets. *)
Definition bucket (l : list HistoryItem) : option (list HistoryItem) := match l with [] => None | _ => Some l end.

Section IndexInvariant.
Context {DP : DocumentPolicy} {CAL : Calendar} {URI : UriEncoding}.

Definition is_movie (i : HistoryItem) : bool := String.eqb (ref_type (hi_title i)) "movie".

Definition years_ok (tz : string) (m : jsmap string (list HistoryItem)) (l : list HistoryItem) : Prop :=
  map_wf m /\ forall y, map_get y m = bucket (filter (fun i => yearOf i tz = y) l).

(** Every list and bucket is the sorted list, restricted. *)
Record index_wf (ix : HistoryIndex) : Prop := {
  wf_sorted : StronglySorted item_lt (ix_all ix);
  wf_keys : NoDup (itemKey <$> ix_all ix);
  wf_byTitle : forall k i, map_get k (ix_byTitle ix) = Some i <-> i ∈ ix_all ix /\ itemKey i = k;
  wf_movie : per_movie (ix_byType ix) = filter (fun i => is_movie i = true) (ix_all ix);
  wf_tv : per_tv (ix_byType ix) = filter (fun i => is_movie i = false) (ix_all ix);
  wf_year : years_ok (ix_timeZone ix) (ix_byYear ix) (ix_all ix);
  wf_movieYear : years_ok (ix_timeZone ix) (per_movie (ix_byTypeYear ix)) (filter (fun i => is_movie i = true) (ix_all ix));
  wf_tvYear : years_ok (ix_timeZone ix) (per_tv (ix_byTypeYear ix)) (filter (fun i => is_movie i = false) (ix_all ix));
}.

Lemma emptyIndex_wf source now tz : index_wf (emptyIndex source now tz).
Proof.
  split; cbn; try done; try constructor; try set_solver; try apply map_wf_nil.
Qed.

(** A placement [put] puts the item somewhere in a list, and restricting commutes with it. *)
Definition places (put : list HistoryItem -> list HistoryItem) (item : HistoryItem) (l : list HistoryItem) : Prop :=
  (forall (P : HistoryItem -> Prop) (dec : forall x, Decision (P x)),
    filter P (put l) = if decide (P item) then put (filter P l) else filter P l)
  /\ (forall (P : HistoryItem -> Prop) (dec : forall x, Decision (P x)), put (filter P l) <> []).

Lemma filter_swap {A} (P Q : A -> Prop) `{!forall x, Decision (P x), !forall x, Decision (Q x)} (l : list A) :
  filter P (filter Q l) = filter Q (filter P l).
Proof. rewrite !list_filter_filter. apply filter_ext_in. naive_solver. Qed.

Lemma bucket_default l : default [] (bucket l) = l.
Proof. by destruct l. Qed.

Lemma bucket_ne l : l <> [] -> bucket l = Some l.
Proof. by destruct l. Qed.

Lemma place_years put item tz m l (P : HistoryItem -> Prop) (dec : forall x, Decision (P x)) :
  places put item l -> P item -> years_ok tz m (filter P l) ->
  years_ok tz (bucketSet put (yearOf item tz) m) (filter P (put l)).
Proof.
  intros [Hp Hne] HP [Hm Hg]. split; [by apply map_wf_set|]. intros y. unfold bucketSet. rewrite map_get_set, !Hg, bucket_default.
  rewrite !list_filter_filter, Hp. destruct (decide (y = yearOf item tz)) as [->|Hy].
  - rewrite decide_True by done. symmetry. by apply bucket_ne.
  - rewrite decide_False by naive_solver. done.
Qed.

Lemma place_years_other put item tz m l (P : HistoryItem -> Prop) (dec : forall x, Decision (P x)) :
  places put item l -> ~ P item -> years_ok tz m (filter P l) -> years_ok tz m (filter P (put l)).
Proof. intros [Hp _] HP Hm. by rewrite Hp, decide_False. Qed.

Lemma filter_true {A} (l : list A) : filter (fun _ => True) l = l.
Proof. by apply filter_all. Qed.

Lemma place_wf put ix item :
  index_wf ix -> places put item (ix_all ix) -> put (ix_all ix) ≡ₚ item :: ix_all ix ->
  itemKey item ∉ itemKey <$> ix_all ix -> StronglySorted item_lt (put (ix_all ix)) -> index_wf (place put ix item).
Proof.
  intros Hw Hp Hperm Hk Hs. pose proof (proj1 Hp) as Hf.
  assert (Hby : forall k i, map_get k (map_set (itemKey item) item (ix_byTitle ix)) = Some i <-> i ∈ put (ix_all ix) /\ itemKey i = k).
  { intros k i. rewrite map_get_set, Hperm, elem_of_cons. case_decide as He.
    - subst. split; [intros [= <-]; auto|]. intros [[->|Hin] Heq]; [done|]. exfalso. apply Hk. rewrite <- Heq. apply list_elem_of_fmap. eauto.
    - rewrite (wf_byTitle _ Hw). naive_solver. }
  assert (Hy : years_ok (ix_timeZone ix) (bucketSet put (yearOf item (ix_timeZone ix)) (ix_byYear ix)) (put (ix_all ix))).
  { rewrite <- (filter_true (put (ix_all ix))). apply place_years; [done..|]. rewrite filter_true. apply Hw. }
  assert (Hnd : NoDup (itemKey <$> put (ix_all ix))) by (rewrite Hperm; by constructor; [|apply Hw]).
  pose proof (wf_movie _ Hw) as Hm. pose proof (wf_tv _ Hw) as Ht. pose proof (wf_movieYear _ Hw). pose proof (wf_tvYear _ Hw).
  unfold place, per_get, per_set. destruct (String.eqb (ref_type (hi_title item)) "movie") eqn:E;
    (assert (Hi : is_movie item = String.eqb (ref_type (hi_title item)) "movie") by done; rewrite E in Hi);
    split; cbn [ix_all ix_byTitle ix_byType ix_byYear ix_byTypeYear ix_timeZone per_movie per_tv]; try done.
  - by rewrite Hf, decide_True, Hm.
  - rewrite Hf, decide_False by congruence. done.
  - by apply place_years.
  - apply (place_years_other put item); [done|congruence|done].
  - rewrite Hf, decide_False by congruence. done.
  - by rewrite Hf, decide_True, Ht.
  - apply (place_years_other put item); [done|congruence|done].
  - by apply place_years.
Qed.

Lemma addItem_wf ix item :
  index_wf ix -> itemKey item ∉ itemKey <$> ix_all ix -> index_wf (addItem ix item) /\ ix_all (addItem ix item) = insert (ix_all ix) item.
Proof.
  intros Hw Hk. split; [|done]. apply place_wf; [done| |apply insert_perm, Hw|done|by apply insert_sorted; [apply Hw|]].
  split; intros P dec; [apply filter_insert, Hw|]. unfold insert. by destruct (take _ _).
Qed.

Lemma appendItem_wf ix item :
  index_wf ix -> (forall i, i ∈ ix_all ix -> item_lt i item /\ itemKey i <> itemKey item) ->
  index_wf (appendItem ix item) /\ ix_all (appendItem ix item) = ix_all ix ++ [item].
Proof.
  intros Hw Hall. split; [|done]. apply place_wf; [done| | | |].
  - split; intros P dec; [|by destruct (filter P _)]. rewrite filter_app, filter_cons, filter_nil. case_decide; [done|apply app_nil_r].
  - by rewrite Permutation_app_comm.
  - intros (i & He & Hi)%list_elem_of_fmap. by destruct (Hall i Hi).
  - apply StronglySorted_app_2; [|apply Hw|repeat constructor]. intros x y Hx ->%list_elem_of_singleton. by apply Hall.
Qed.

Lemma remove_years tz m l key y0 (P : HistoryItem -> Prop) (dec : forall x, Decision (P x)) :
  NoDup (itemKey <$> l) -> (forall i, i ∈ l -> P i -> itemKey i = key -> yearOf i tz = y0) -> years_ok tz m (filter P l) ->
  years_ok tz (bucketRemove key y0 m) (filter P (filter (fun i => itemKey i <> key) l)).
Proof.
  intros Hnd Hy [Hm Hg]. unfold bucketRemove.
  assert (Hr : remove (filter (fun i => yearOf i tz = y0) (filter P l)) key
    = filter (fun i => yearOf i tz = y0) (filter P (filter (fun i => itemKey i <> key) l))).
  { rewrite remove_spec by (by do 2 apply NoDup_fmap_filter). rewrite !list_filter_filter. apply filter_ext_in. naive_solver. }
  assert (Ho : forall y, y <> y0 -> filter (fun i => yearOf i tz = y) (filter P (filter (fun i => itemKey i <> key) l))
    = filter (fun i => yearOf i tz = y) (filter P l)).
  { intros y Hne. rewrite !list_filter_filter. apply filter_ext_in. intros i Hi. split; [tauto|]. intros [Hyi HPi].
    assert (itemKey i <> key); [|tauto]. intros Hk. apply Hne. rewrite <- Hyi. by apply Hy. }
  rewrite Hg. destruct (filter (fun i => yearOf i tz = y0) (filter P l)) as [|x xs] eqn:E; cbn [bucket].
  - split; [done|]. intros y. rewrite Hg. destruct (decide (y = y0)) as [->|]; [|by rewrite Ho]. rewrite <- Hr, E. done.
  - rewrite Hr. destruct (filter _ (filter P (filter _ l))) as [|z zs] eqn:E2.
    + split; [by apply map_wf_delete|]. intros y. rewrite map_get_delete. case_decide; [subst; by rewrite E2|]. by rewrite Ho.
    + split; [by apply map_wf_set|]. intros y. rewrite map_get_set. case_decide; [subst; by rewrite E2|]. by rewrite Ho.
Qed.

Lemma removeItem_wf ix item :
  index_wf ix -> item ∈ ix_all ix ->
  index_wf (removeItem ix item) /\ ix_all (removeItem ix item) = filter (fun i => itemKey i <> itemKey item) (ix_all ix).
Proof.
  intros Hw Hin. pose proof (wf_keys _ Hw) as Hnd.
  assert (Hall : remove (ix_all ix) (itemKey item) = filter (fun i => itemKey i <> itemKey item) (ix_all ix)) by (by apply remove_spec).
  split; [|done].
  assert (Hsame : forall i, i ∈ ix_all ix -> itemKey i = itemKey item -> i = item) by (intros i Hi He; by eapply (NoDup_fmap_inj itemKey)).
  assert (Hyear : forall (P : HistoryItem -> Prop) i, i ∈ ix_all ix -> P i -> itemKey i = itemKey item -> yearOf i (ix_timeZone ix) = yearOf item (ix_timeZone ix)).
  { intros P i Hi _ He. by rewrite (Hsame i Hi He). }
  assert (Hoff : forall b, is_movie item <> b ->
    filter (fun i => is_movie i = b) (filter (fun i => itemKey i <> itemKey item) (ix_all ix)) = filter (fun i => is_movie i = b) (ix_all ix)).
  { intros b Hb. rewrite list_filter_filter. apply filter_ext_in. intros i Hi. split; [naive_solver|]. intros Hm. split; [done|].
    intros He. apply Hb. by rewrite <- (Hsame i Hi He). }
  assert (Hon : forall b, remove (filter (fun i => is_movie i = b) (ix_all ix)) (itemKey item)
    = filter (fun i => is_movie i = b) (filter (fun i => itemKey i <> itemKey item) (ix_all ix))).
  { intros b. rewrite remove_spec by (by apply NoDup_fmap_filter). apply filter_swap. }
  assert (Hby : forall k i, map_get k (map_delete (itemKey item) (ix_byTitle ix)) = Some i
    <-> i ∈ filter (fun i => itemKey i <> itemKey item) (ix_all ix) /\ itemKey i = k).
  { intros k i. rewrite map_get_delete, list_elem_of_filter. case_decide; [naive_solver|]. rewrite (wf_byTitle _ Hw). naive_solver. }
  assert (Hy : years_ok (ix_timeZone ix) (bucketRemove (itemKey item) (yearOf item (ix_timeZone ix)) (ix_byYear ix))
    (filter (fun i => itemKey i <> itemKey item) (ix_all ix))).
  { rewrite <- (filter_true (filter _ _)). apply remove_years; [done|apply Hyear|]. rewrite filter_true. apply Hw. }
  pose proof (wf_movie _ Hw) as Hm. pose proof (wf_tv _ Hw) as Ht.
  unfold removeItem, per_get, per_set. destruct (String.eqb (ref_type (hi_title item)) "movie") eqn:E;
    (assert (Hi : is_movie item = String.eqb (ref_type (hi_title item)) "movie") by done; rewrite E in Hi);
    split; cbn [ix_all ix_byTitle ix_byType ix_byYear ix_byTypeYear ix_timeZone per_movie per_tv]; rewrite ?Hall; try done;
    try (apply StronglySorted_filter, Hw); try (by apply NoDup_fmap_filter); try (by rewrite ?Hm, ?Ht, ?Hon);
    try (rewrite Hoff by congruence; first [done|apply Hw]); apply remove_years; try done; try apply Hyear; apply Hw.
Qed.

(** Items with distinct keys sort strictly. *)
Lemma js_sort_strict l : NoDup (itemKey <$> l) -> StronglySorted item_lt (js_sort compareHistoryItems l).
Proof.
  intros Hnd. apply (StronglySorted_strict (cmp_le compareHistoryItems)).
  - rewrite js_sort_perm. by apply (NoDup_fmap_1 itemKey).
  - intros x y Hx%elem_of_js_sort Hy%elem_of_js_sort Hne Hle. unfold cmp_le in Hle.
    destruct (item_lt_total x y) as [|[Hlt|He]]; [done|apply compare_pos in Hlt; lia|].
    destruct Hne. by eapply (NoDup_fmap_inj itemKey).
  - apply js_sort_sorted, _.
Qed.

Lemma append_all ix l :
  index_wf ix -> StronglySorted item_lt (ix_all ix ++ l) -> NoDup (itemKey <$> ix_all ix ++ l) ->
  index_wf (foldl appendItem ix l) /\ ix_all (foldl appendItem ix l) = ix_all ix ++ l
  /\ ix_timeZone (foldl appendItem ix l) = ix_timeZone ix /\ ix_revision (foldl appendItem ix l) = ix_revision ix
  /\ ix_source (foldl appendItem ix l) = ix_source ix /\ ix_builtAt (foldl appendItem ix l) = ix_builtAt ix.
Proof.
  revert ix. induction l as [|x l IH]; intros ix Hw Hs Hnd; [by rewrite app_nil_r|]. cbn [foldl].
  destruct (appendItem_wf ix x Hw) as [Hw' Ha].
  { intros i Hi. split.
    - clear -Hs Hi. induction (ix_all ix) as [|y q IH]; [set_solver|]. cbn in Hs. inversion Hs as [|?? Hs' Hy]; subst.
      apply elem_of_cons in Hi as [->|]; [|auto]. rewrite Forall_forall in Hy. apply Hy. set_solver.
    - intros He. rewrite fmap_app, fmap_cons in Hnd. apply NoDup_app in Hnd as (_ & Hd & _). apply (Hd (itemKey i)).
      + apply list_elem_of_fmap. eauto.
      + rewrite He. left. }
  destruct (IH (appendItem ix x)) as (H1 & H2 & H3 & H4 & H5 & H6); [done|rewrite Ha, <- app_assoc; done..|].
  split_and!; [done|by rewrite H2, Ha, <- app_assoc|done..].
Qed.

Lemma fromItems_wf source items now tz :
  NoDup (itemKey <$> items) ->
  let ix := fromItems source items now tz in
  index_wf ix /\ ix_all ix = js_sort compareHistoryItems items /\ ix_timeZone ix = tz /\ ix_revision ix = indexRevision source tz
  /\ ix_source ix = source /\ ix_builtAt ix = now.
Proof.
  intros Hnd. apply (append_all (emptyIndex source now tz)); [apply emptyIndex_wf|by apply js_sort_strict|].
  cbn [emptyIndex ix_all app]. by rewrite js_sort_perm.
Qed.

(** *** Observations *)

Lemma indexItems_wf ix flt : index_wf ix ->
  indexItems ix flt = match hf_type flt ≫= nonempty, hf_year flt ≫= nonempty with
  | Some t, Some y => filter (fun i => yearOf i (ix_timeZone ix) = y) (filter (fun i => is_movie i = String.eqb t "movie") (ix_all ix))
  | Some t, None => filter (fun i => is_movie i = String.eqb t "movie") (ix_all ix)
  | None, Some y => filter (fun i => yearOf i (ix_timeZone ix) = y) (ix_all ix)
  | None, None => ix_all ix
  end.
Proof.
  intros Hw. unfold indexItems, per_get. destruct (hf_type flt ≫= nonempty) as [t|], (hf_year flt ≫= nonempty) as [y|]; [| | |done].
  - destruct (String.eqb t "movie").
    + rewrite (proj2 (wf_movieYear _ Hw)). apply bucket_default.
    + rewrite (proj2 (wf_tvYear _ Hw)). apply bucket_default.
  - destruct (String.eqb t "movie"); apply Hw.
  - rewrite (proj2 (wf_year _ Hw)). apply bucket_default.
Qed.

(** Two indexes that hold the same items in the same calendar are read the same. *)
Definition same_content (a b : HistoryIndex) : Prop := ix_all a = ix_all b /\ ix_timeZone a = ix_timeZone b.

Lemma years_ok_unique tz m m' l : years_ok tz m l -> years_ok tz m' l -> (forall y, map_get y m = map_get y m') /\ m ≡ₚ m'.
Proof.
  intros [Hm Hg] [Hm' Hg']. assert (He : forall y, map_get y m = map_get y m') by (intros; by rewrite Hg, Hg'). split; [done|].
  apply NoDup_Permutation; [by apply (NoDup_fmap_1 fst)..|]. intros [y v]. by rewrite <- !map_get_iff, He.
Qed.

(** A year's place among the facets: [None] is the undated, last. *)
Definition facet_rank (f : YearFacet) : option Z := if String.eqb (yf_year f) UNKNOWN_YEAR then None else Some (year_number (yf_year f)).
Definition rank_cmp (a b : YearFacet) : Z := sub_ninf (facet_rank b) (facet_rank a).

#[local] Instance rank_cmp_comparator : Comparator rank_cmp.
Proof. split; intros; unfold rank_cmp in *; repeat destruct (facet_rank _); cbn in *; lia. Qed.

Lemma yearOf_rank i j tz : yearOf i tz <> yearOf j tz ->
  forall f g, yf_year f = yearOf i tz -> yf_year g = yearOf j tz -> facet_rank f <> facet_rank g.
Proof.
  intros Hne f g Hf Hg. unfold facet_rank. rewrite Hf, Hg. revert Hne. unfold yearOf.
  assert (Hu : forall z, String.eqb (Z_str z) UNKNOWN_YEAR = false).
  { intros z. apply String.eqb_neq. intros Hz. pose proof (Z_str_no_char "u"%char z eq_refl) as Hn. by rewrite Hz in Hn. }
  unfold year_number. destruct (_ <=? 0), (_ <=? 0); rewrite ?Hu, ?str_Z_str; try done. cbn. congruence.
Qed.

Definition year_facet (ix : HistoryIndex) (yi : string * list HistoryItem) : YearFacet :=
  mkYearFacet yi.1 (length yi.2) (bucketSize yi.1 (per_movie (ix_byTypeYear ix))) (bucketSize yi.1 (per_tv (ix_byTypeYear ix))).

Lemma year_facet_rank ix f g :
  index_wf ix -> f ∈ year_facet ix <$> ix_byYear ix -> g ∈ year_facet ix <$> ix_byYear ix -> f <> g -> facet_rank f <> facet_rank g.
Proof.
  intros Hw ([y l] & -> & Hin)%list_elem_of_fmap ([y' l'] & -> & Hin')%list_elem_of_fmap Hne. destruct (wf_year _ Hw) as [Hm Hg].
  apply (map_elem_get _ _ _ Hm) in Hin, Hin'.
  assert (Hyr : forall y l, map_get y (ix_byYear ix) = Some l -> exists i, yearOf i (ix_timeZone ix) = y).
  { intros y0 l0 Hl. rewrite Hg in Hl. destruct (filter _ (ix_all ix)) as [|i q] eqn:E; [done|]. exists i.
    assert (Hi : i ∈ filter (fun i => yearOf i (ix_timeZone ix) = y0) (ix_all ix)) by (rewrite E; left).
    by apply list_elem_of_filter in Hi as [? _]. }
  destruct (Hyr _ _ Hin) as [i Hi], (Hyr _ _ Hin') as [j Hj]. apply (yearOf_rank i j (ix_timeZone ix)); [|done..].
  rewrite Hi, Hj. intros ->. apply Hne. congruence.
Qed.

Lemma facets_sorted ix : index_wf ix ->
  js_sort facet_cmp (year_facet ix <$> ix_byYear ix) = js_sort rank_cmp (year_facet ix <$> ix_byYear ix)
  /\ StronglySorted (fun f g => rank_cmp f g < 0) (js_sort rank_cmp (year_facet ix <$> ix_byYear ix)).
Proof.
  intros Hw. assert (Hnd : NoDup (year_facet ix <$> ix_byYear ix)).
  { apply (NoDup_fmap_1 yf_year). rewrite <- list_fmap_compose. apply (proj1 (wf_year _ Hw)). }
  split.
  - apply js_sort_ext_NoDup; [done|]. intros f g Hin Hin' Hne. pose proof (year_facet_rank ix f g Hw Hin Hin' Hne) as Hr.
    revert Hr. unfold facet_cmp, rank_cmp, facet_rank. by destruct (String.eqb (yf_year f) UNKNOWN_YEAR), (String.eqb (yf_year g) UNKNOWN_YEAR).
  - apply (StronglySorted_strict (cmp_le rank_cmp)); [by rewrite js_sort_perm| |apply js_sort_sorted, _].
    intros f g Hf%elem_of_js_sort Hg%elem_of_js_sort Hne Hle. pose proof (year_facet_rank ix f g Hw Hf Hg Hne) as Hr.
    revert Hle Hr. unfold cmp_le, rank_cmp. destruct (facet_rank f) as [u|], (facet_rank g) as [v|]; cbn; try lia; try congruence.
    intros ? Hr. assert (u <> v) by congruence. lia.
Qed.

Lemma facets_same a b : index_wf a -> index_wf b -> same_content a b -> indexFacets a = indexFacets b.
Proof.
  intros Ha Hb [Hall Htz]. unfold indexFacets.
  rewrite (wf_movie _ Ha), (wf_movie _ Hb), (wf_tv _ Ha), (wf_tv _ Hb), Hall. f_equal.
  pose proof (wf_year _ Ha) as Ya. pose proof (wf_year _ Hb) as Yb. pose proof (wf_movieYear _ Ha) as Ma. pose proof (wf_movieYear _ Hb) as Mb.
  pose proof (wf_tvYear _ Ha) as Ta. pose proof (wf_tvYear _ Hb) as Tb. rewrite Hall, Htz in Ya, Ma, Ta.
  destruct (years_ok_unique _ _ _ _ Ya Yb) as [_ Hp]. destruct (years_ok_unique _ _ _ _ Ma Mb) as [Hm _]. destruct (years_ok_unique _ _ _ _ Ta Tb) as [Ht _].
  change (js_sort facet_cmp (year_facet a <$> ix_byYear a) = js_sort facet_cmp (year_facet b <$> ix_byYear b)).
  assert (Hf : year_facet a <$> ix_byYear a = year_facet b <$> ix_byYear a).
  { apply list_fmap_ext. intros _ yi _. unfold year_facet, bucketSize. by rewrite Hm, Ht. }
  destruct (facets_sorted a Ha) as [-> Sa], (facets_sorted b Hb) as [-> Sb].
  apply (strict_sorted_unique (fun f g => rank_cmp f g < 0)); [|..|done|done|].
  - intros f. unfold rank_cmp. destruct (facet_rank f); cbn; lia.
  - intros f g. unfold rank_cmp. destruct (facet_rank f), (facet_rank g); cbn; lia.
  - intros f. by rewrite !elem_of_js_sort, Hf, Hp.
Qed.

Lemma pages_same a b filter cursor limit :
  index_wf a -> index_wf b -> same_content a b -> ix_revision a = ix_revision b ->
  indexPage a filter cursor limit = indexPage b filter cursor limit.
Proof.
  intros Ha Hb Hs Hr. unfold indexPage. rewrite (facets_same a b Ha Hb Hs), !indexItems_wf by done. destruct Hs as [-> ->]. by rewrite Hr.
Qed.

(** *** Updating one title *)

Lemma historyItem_key ref title w i : historyItem ref title w = Some i -> itemKey i = refKey ref.
Proof. unfold historyItem. destruct (_ <? 0); [done|]. by intros [= <-]. Qed.

Lemma historyItemFromDocuments_key documents now i k :
  historyItemFromDocuments documents now = Ok (Some i) -> (forall d, d ∈ documents -> refKey (doc_title d) = k) -> itemKey i = k.
Proof.
  unfold historyItemFromDocuments. destruct documents as [|d documents]; [done|].
  intros (t & _ & (w & _ & [= Hi])%res_bind_Ok)%res_bind_Ok Hk. rewrite (historyItem_key _ _ _ _ Hi). apply Hk. left.
Qed.

(** The index an update starts from: the title taken out. *)
Lemma update_removed ix title :
  index_wf ix ->
  let ix' := match map_get (refKey title) (ix_byTitle ix) with Some previous => removeItem ix previous | None => ix end in
  index_wf ix' /\ ix_all ix' = filter (fun i => itemKey i <> refKey title) (ix_all ix) /\ ix_timeZone ix' = ix_timeZone ix.
Proof.
  intros Hw. destruct (map_get (refKey title) (ix_byTitle ix)) as [previous|] eqn:E.
  - apply (wf_byTitle _ Hw) in E as [Hin Hk]. destruct (removeItem_wf ix previous Hw Hin) as [Hw' Ha]. cbn zeta. rewrite Ha, Hk. done.
  - split; [done|]. split; [|done]. symmetry. apply filter_all. intros i Hi He.
    assert (Hs : map_get (refKey title) (ix_byTitle ix) = Some i) by (by apply (wf_byTitle _ Hw)). congruence.
Qed.

Lemma updateIndex_spec ix title documents source now :
  index_wf ix -> (forall d, d ∈ documents -> refKey (doc_title d) = refKey title) ->
  let out := updateIndex ix title documents source now in
  index_wf out.1 /\ ix_timeZone out.1 = ix_timeZone ix
  /\ (forall i, i ∈ ix_all out.1 <-> (i ∈ ix_all ix /\ itemKey i <> refKey title) \/ historyItemFromDocuments documents now = Ok (Some i))
  /\ match historyItemFromDocuments documents now with
     | Ok _ => out.2 = Ok tt /\ ix_source out.1 = source /\ ix_revision out.1 = indexRevision source (ix_timeZone ix)
     | Throw m => out.2 = Throw m
     end.
Proof.
  intros Hw Hd. unfold updateIndex. destruct (update_removed ix title Hw) as (Hw1 & Ha1 & Ht1).
  set (ix1 := match map_get _ _ with Some _ => _ | None => _ end) in *.
  assert (Hmem : forall i, i ∈ ix_all ix1 <-> i ∈ ix_all ix /\ itemKey i <> refKey title).
  { intros i. rewrite Ha1, list_elem_of_filter. tauto. }
  destruct (historyItemFromDocuments documents now) as [[item|]|m] eqn:E; cbn [fst snd].
  - apply historyItemFromDocuments_key with (k := refKey title) in E; [|done].
    destruct (addItem_wf ix1 item Hw1) as [Hw2 Ha2].
    { rewrite E. intros (i & He & Hi%Hmem)%list_elem_of_fmap. destruct Hi as [_ Hi]. by apply Hi. }
    split; [by destruct Hw2; split|]. split; [done|]. split; [|change (ix_timeZone (addItem ix1 item)) with (ix_timeZone ix1); by rewrite Ht1].
    intros i. cbn [ix_all]. rewrite Ha2, elem_of_insert, Hmem by apply Hw1. naive_solver.
  - split; [by destruct Hw1; split|]. split; [done|]. split; [|cbn; by rewrite Ht1]. intros i. cbn [ix_all]. rewrite Hmem. naive_solver.
  - split; [done|]. split; [done|]. split; [|done]. intros i. rewrite Hmem. naive_solver.
Qed.

(** *** Building *)

(** The documents the index reads of one title. *)
Definition docs_of (k : string) (documents : list DocumentRow) : list DocumentRow :=
  filter (fun d => doc_kind d <> KDelivery /\ refKey (doc_title d) = k) documents.

Lemma docs_of_snoc k l d :
  docs_of k (l ++ [d]) = if decide (doc_kind d <> KDelivery /\ refKey (doc_title d) = k) then docs_of k l ++ [d] else docs_of k l.
Proof. unfold docs_of. rewrite filter_app, filter_cons, filter_nil. case_decide; [done|apply app_nil_r]. Qed.

Lemma groupDocuments_snoc l d :
  groupDocuments (l ++ [d]) = match doc_kind d with
    | KDelivery => groupDocuments l
    | _ => map_set (refKey (doc_title d)) (default [] (map_get (refKey (doc_title d)) (groupDocuments l)) ++ [d]) (groupDocuments l)
    end.
Proof. unfold groupDocuments. rewrite foldl_app. done. Qed.

Lemma groupDocuments_spec documents :
  map_wf (groupDocuments documents)
  /\ (forall k l, map_get k (groupDocuments documents) = Some l -> l = docs_of k documents)
  /\ (forall k, map_get k (groupDocuments documents) = None -> docs_of k documents = []).
Proof.
  induction documents as [|d l IH] using rev_ind; [split; [constructor|done]|]. destruct IH as (Hw & Hs & Hn).
  rewrite groupDocuments_snoc. setoid_rewrite docs_of_snoc.
  assert (Hd : default [] (map_get (refKey (doc_title d)) (groupDocuments l)) = docs_of (refKey (doc_title d)) l).
  { destruct (map_get _ (groupDocuments l)) as [q|] eqn:E; [by apply Hs in E|symmetry; by apply Hn]. }
  destruct (doc_kind d); try (split_and!; [by apply map_wf_set|..]; intros k; [intros q|]; rewrite map_get_set, Hd;
    (destruct (decide (k = refKey (doc_title d))) as [->|Hk];
      [rewrite decide_True by done|rewrite decide_False by (intros [_ ?]; congruence)]); [by intros [= <-]|apply Hs|done|apply Hn]).
  split_and!; [done|..]; intros k; [intros q|]; rewrite decide_False by naive_solver; auto.
Qed.

Lemma build_entries documents now entries :
  res_map (fun held => historyItemFromDocuments held now) (map_values (groupDocuments documents)) = Ok entries ->
  NoDup (itemKey <$> omap id entries)
  /\ (forall i, i ∈ omap id entries <-> exists k, historyItemFromDocuments (docs_of k documents) now = Ok (Some i)).
Proof.
  intros He%res_map_Forall2. destruct (groupDocuments_spec documents) as (Hw & Hs & Hn).
  assert (Hkey : forall k i, historyItemFromDocuments (docs_of k documents) now = Ok (Some i) -> itemKey i = k).
  { intros k i Hi. eapply historyItemFromDocuments_key; [exact Hi|]. by intros d [[_ ?] _]%list_elem_of_filter. }
  assert (Hm : forall i, i ∈ omap id entries <-> exists k l, (k, l) ∈ groupDocuments documents /\ historyItemFromDocuments l now = Ok (Some i)).
  { intros i. rewrite list_elem_of_omap. split.
    - intros (o & Ho & Hi). cbn in Hi. subst o. apply list_elem_of_lookup in Ho as [n Ho].
      destruct (Forall2_lookup_r _ _ _ _ _ He Ho) as (l & Hl & Hr). apply list_elem_of_lookup_2, map_values_elem in Hl as [k Hk]. eauto.
    - intros (k & l & Hin & Hi). assert (Hv : l ∈ map_values (groupDocuments documents)) by (apply map_values_elem; eauto).
      apply list_elem_of_lookup in Hv as [n Hv]. destruct (Forall2_lookup_l _ _ _ _ _ He Hv) as (o & Ho & Hr).
      exists o. split; [by apply list_elem_of_lookup_2 in Ho|]. cbn. congruence. }
  split.
  - clear Hm. revert Hw Hs He. unfold map_values. generalize (groupDocuments documents) as g. intros g Hw Hs. revert entries.
    assert (Hs' : forall k l, (k, l) ∈ g -> l = docs_of k documents) by (intros k l Hin; by apply Hs, map_elem_get).
    clear Hs. induction g as [|[k l] g IH]; intros entries He; inversion He as [|? o ? os Ho Hos]; subst; [constructor|].
    unfold map_wf, map_keys in Hw. rewrite fmap_cons in Hw. apply NoDup_cons in Hw as [Hk Hw].
    assert (IH' : NoDup (itemKey <$> omap id os)) by (apply IH; [done|intros; apply Hs'; by right|done]).
    destruct o as [i|]; cbn [omap list_omap id]; [|done]. rewrite fmap_cons. constructor; [|done]. cbn in Ho.
    rewrite (Hs' k l ltac:(left)) in Ho. rewrite (Hkey _ _ Ho). intros (j & Hj & (o & Hoin & Hoj)%list_elem_of_omap)%list_elem_of_fmap.
    cbn in Hoj. subst o. apply list_elem_of_lookup in Hoin as [n Hoin]. destruct (Forall2_lookup_r _ _ _ _ _ Hos Hoin) as (l' & Hl' & Hr).
    apply list_elem_of_lookup_2, list_elem_of_fmap in Hl' as ([k' l''] & -> & Hin'). cbn in Hr.
    rewrite (Hs' k' l'' ltac:(by right)) in Hr. apply Hkey in Hr. apply Hk, list_elem_of_fmap. exists (k', l''). cbn. split; congruence.
  - intros i. rewrite Hm. split.
    + intros (k & l & Hin & Hi). exists k. apply (map_elem_get _ _ _ Hw), Hs in Hin as ->. done.
    + intros (k & Hi). destruct (map_get k (groupDocuments documents)) as [l|] eqn:E.
      * exists k, l. split; [by apply map_get_elem|]. by apply Hs in E as ->.
      * rewrite (Hn k E) in Hi. done.
Qed.

Lemma buildIndex_spec source documents now tz ix :
  buildIndex source documents now tz = Ok ix ->
  index_wf ix /\ ix_timeZone ix = tz /\ ix_revision ix = indexRevision source tz /\ ix_source ix = source
  /\ (forall i, i ∈ ix_all ix <-> exists k, historyItemFromDocuments (docs_of k documents) now = Ok (Some i)).
Proof.
  unfold buildIndex. intros (entries & He & [= <-])%res_bind_Ok. apply build_entries in He as [Hnd Hm].
  destruct (fromItems_wf source (omap id entries) now tz Hnd) as (H1 & H2 & H3 & H4 & H5 & H6). split_and!; [done..|].
  intros i. unfold fromItems in H2. rewrite H2, elem_of_js_sort. apply Hm.
Qed.

Lemma res_map_ok {A B} (f : A -> res B) l : (forall x, x ∈ l -> exists y, f x = Ok y) <-> exists ys, res_map f l = Ok ys.
Proof.
  induction l as [|x l IH]; cbn; [split; [eauto|set_solver]|]. split.
  - intros Hf. destruct (Hf x ltac:(left)) as [y ->]. cbn. destruct (proj1 IH) as [ys ->]; [intros; apply Hf; by right|]. cbn. eauto.
  - intros (ys & (y & Hy & (ys' & Hys & _)%res_bind_Ok)%res_bind_Ok) z [->|Hz]%elem_of_cons; [eauto|]. apply IH; eauto.
Qed.

Lemma buildIndex_ok source documents now tz :
  (forall k, exists r, historyItemFromDocuments (docs_of k documents) now = Ok r) <-> exists ix, buildIndex source documents now tz = Ok ix.
Proof.
  destruct (groupDocuments_spec documents) as (Hw & Hs & Hn). unfold buildIndex.
  transitivity (exists ys, res_map (fun held => historyItemFromDocuments held now) (map_values (groupDocuments documents)) = Ok ys).
  - rewrite <- res_map_ok. split.
    + intros Hk l (k & Hin)%map_values_elem. apply (map_elem_get _ _ _ Hw), Hs in Hin as ->. apply Hk.
    + intros Hl k. destruct (map_get k (groupDocuments documents)) as [l|] eqn:E.
      * rewrite <- (Hs _ _ E). apply Hl, map_values_elem. exists k. by apply map_get_elem.
      * rewrite (Hn _ E). cbn. eauto.
  - split; [intros [ys ->]; cbn; eauto|]. intros (ix & (ys & Hys & _)%res_bind_Ok). eauto.
Qed.

(** The documents with one title's replaced. *)
Definition replaceTitle (title : TitleRef) (documents replaced : list DocumentRow) : list DocumentRow :=
  filter (fun d => refKey (doc_title d) <> refKey title) documents ++ replaced.

Definition documents_for (title : TitleRef) (documents : list DocumentRow) : Prop :=
  Forall (fun d => doc_kind d <> KDelivery /\ refKey (doc_title d) = refKey title) documents.

Lemma docs_of_replace title documents replaced k :
  documents_for title replaced ->
  docs_of k (replaceTitle title documents replaced) = if decide (k = refKey title) then replaced else docs_of k documents.
Proof.
  intros Hr. unfold documents_for in Hr. rewrite Forall_forall in Hr. unfold docs_of, replaceTitle. rewrite filter_app, list_filter_filter.
  case_decide as Hk; [subst|].
  - rewrite filter_none, filter_all; [done|done|]. naive_solver.
  - rewrite (filter_none _ replaced), app_nil_r; [|intros d Hd [_ He]; destruct (Hr d Hd); congruence].
    apply filter_ext_in. intros d _. split; [tauto|]. intros [? He]. split; [done|congruence].
Qed.

(** C30: updating one title is rebuilding. From an index built of documents, replacing one title's documents and
    updating that title alone succeeds exactly when its summary can be projected, and then every page of every filter
    is the page an index rebuilt from all the documents gives. *)
Theorem updateIndex_is_rebuild (source source' : HistoryIndexSource) (documents replaced : list DocumentRow) (title : TitleRef)
    (now : Z) (tz : string) (ix : HistoryIndex) :
  buildIndex source documents now tz = Ok ix -> documents_for title replaced ->
  (updateIndex ix title replaced source' now).2 = Ok tt ->
  exists rebuilt, buildIndex source' (replaceTitle title documents replaced) now tz = Ok rebuilt /\
    forall filter cursor limit,
      indexPage (updateIndex ix title replaced source' now).1 filter cursor limit = indexPage rebuilt filter cursor limit.
Proof.
  intros Hb Hr Hu. assert (Hok : exists r, historyItemFromDocuments replaced now = Ok r).
  { unfold updateIndex in Hu. destruct (historyItemFromDocuments replaced now); [eauto|done]. }
  destruct (proj1 (buildIndex_ok source' (replaceTitle title documents replaced) now tz)) as [rebuilt Hrb].
  { intros k. rewrite docs_of_replace by done. case_decide; [done|]. apply (proj2 (buildIndex_ok source documents now tz)). eauto. }
  exists rebuilt. split; [done|]. apply buildIndex_spec in Hrb as (Hw' & Ht' & Hv' & _ & Hm'). apply buildIndex_spec in Hb as (Hw & Ht & _ & _ & Hm).
  destruct (updateIndex_spec ix title replaced source' now Hw) as (Hw2 & Ht2 & Hm2 & Hs2).
  { intros d Hd. unfold documents_for in Hr. rewrite Forall_forall in Hr. by apply Hr. }
  destruct Hok as [r Hok]. rewrite Hok in Hs2. destruct Hs2 as (_ & _ & Hv2).
  intros flt cursor limit. apply pages_same; [done..| |congruence]. split; [|congruence].
  apply (strict_sorted_unique item_lt); [apply item_lt_irrefl|apply item_lt_asym|apply Hw2|apply Hw'|].
  intros i. rewrite Hm2, Hm', Hm. setoid_rewrite docs_of_replace; [|done].
  assert (Hkey : forall k, historyItemFromDocuments (docs_of k documents) now = Ok (Some i) -> itemKey i = k).
  { intros k Hi. eapply historyItemFromDocuments_key; [exact Hi|]. by intros d [[_ ?] _]%list_elem_of_filter. }
  split.
  - intros [[(k & Hk) Hne]|Hi]; [exists k|exists (refKey title); by rewrite decide_True]. rewrite decide_False; [done|].
    intros ->. by apply Hne, Hkey.
  - intros (k & Hi). case_decide as Hk; [by right|left]. split; [eauto|]. by rewrite (Hkey k Hi).
Qed.

(** whatever is updated, in whatever order, and even where a projection throws, every list and bucket of the
    index stays the sorted, duplicate-free list of items restricted to its type and year, with no empty bucket. *)
Lemma updateIndex_wf (source : HistoryIndexSource) (documents : list DocumentRow) (now : Z) (tz : string) (ix : HistoryIndex)
    (updates : list (TitleRef * list DocumentRow * HistoryIndexSource * Z)) :
  buildIndex source documents now tz = Ok ix ->
  Forall (fun u => documents_for u.1.1.1 u.1.1.2) updates ->
  index_wf (foldl (fun ix u => (updateIndex ix u.1.1.1 u.1.1.2 u.1.2 u.2).1) ix updates).
Proof.
  intros Hb%buildIndex_spec Hu. destruct Hb as (Hw & _). revert ix Hw. induction Hu as [|[[[t ds] s] n] us Hd _ IH]; intros ix Hw; [done|].
  apply IH. cbn in *. apply updateIndex_spec; [done|]. intros d Hin. unfold documents_for in Hd. rewrite Forall_forall in Hd. by apply Hd.
Qed.

(** *** Pages *)

(** Reading on from a cursor, page after page. *)
Fixpoint readPages (ix : HistoryIndex) (filter : HistoryFilter) (limit : Z) (fuel : nat) (cursor : option string) : option (list HistoryItem) :=
  match fuel with
  | O => None
  | S fuel =>
    match indexPage ix filter cursor limit with
    | None => None
    | Some page =>
      match pg_nextCursor page with
      | None => Some (pg_items page)
      | Some next => (app (pg_items page)) <$> readPages ix filter limit fuel (Some next)
      end
    end
  end.

Definition plain_text (s : string) : Prop := has_char newline s = false.

Lemma cursor_roundtrip revision flt item :
  plain_text revision -> plain_text (historyFilterKey flt) -> plain_text (itemKey item) ->
  historyCursorBoundary revision flt (historyCursorOf revision flt item) = Some (hi_watchedAt item, itemKey item)
  /\ truthy (historyCursorOf revision flt item) = true.
Proof.
  intros Hr Hf Hk. unfold historyCursorBoundary, historyCursorOf. split.
  - rewrite split_join; [|done|repeat constructor; try done; by apply Z_str_no_char].
    rewrite !String.eqb_refl, str_Z_str. cbn [andb]. replace (truthy (itemKey item)) with true; [done|].
    symmetry. apply truthy_app.
  - apply truthy_app.
Qed.

Lemma afterBoundary_lt x i : afterBoundary (hi_watchedAt x) (itemKey x) i = true <-> item_lt x i.
Proof. rewrite item_lt_spec. unfold afterBoundary. rewrite orb_true_iff, andb_true_iff, Z.ltb_lt, Z.eqb_eq. naive_solver. Qed.

(** Reading on from an item starts right after it. *)
Lemma cursorPosition_after items revision flt l1 x l2 :
  StronglySorted item_lt items -> items = l1 ++ x :: l2 ->
  plain_text revision -> plain_text (historyFilterKey flt) -> plain_text (itemKey x) ->
  cursorPosition items revision flt (Some (historyCursorOf revision flt x)) = Some (S (length l1)).
Proof.
  intros Hs Hl Hr Hf Hk. unfold cursorPosition. destruct (cursor_roundtrip revision flt x Hr Hf Hk) as [-> ->]. cbn [negb fmap option_fmap option_map fst snd].
  f_equal. rewrite Hl in *. clear Hl. replace (l1 ++ x :: l2) with ((l1 ++ [x]) ++ l2) by (by rewrite <- app_assoc).
  rewrite bisection_spec; [rewrite length_app; cbn; lia|..]; apply Forall_forall; intros y Hy.
  - apply not_true_is_false. rewrite afterBoundary_lt. apply elem_of_app in Hy as [Hy| ->%list_elem_of_singleton]; [|apply item_lt_irrefl].
    apply item_lt_asym. apply (StronglySorted_app_1_elem_of item_lt l1 (x :: l2)); [done|done|left].
  - apply afterBoundary_lt. apply StronglySorted_app_1_r in Hs. inversion Hs as [|?? _ Hx]; subst. rewrite Forall_forall in Hx. auto.
Qed.

Lemma indexItems_ok ix flt : index_wf ix ->
  StronglySorted item_lt (indexItems ix flt) /\ NoDup (itemKey <$> indexItems ix flt)
  /\ forall i, i ∈ indexItems ix flt -> i ∈ ix_all ix.
Proof.
  intros Hw. rewrite indexItems_wf by done. pose proof (wf_sorted _ Hw). pose proof (wf_keys _ Hw).
  destruct (hf_type flt ≫= nonempty), (hf_year flt ≫= nonempty); split_and!;
    repeat (apply StronglySorted_filter || apply NoDup_fmap_filter); try done; intros i; rewrite ?list_elem_of_filter; naive_solver.
Qed.

(** C34: pagination is exact. Reading a filter's pages from the start, each behind the cursor the page before gave,
    terminates and returns every item of the filter exactly once, newest first, whatever the page size. *)
Theorem readPages_all (ix : HistoryIndex) (flt : HistoryFilter) (limit : Z) :
  index_wf ix -> plain_text (ix_revision ix) -> plain_text (historyFilterKey flt) ->
  (forall i, i ∈ ix_all ix -> plain_text (itemKey i)) ->
  readPages ix flt limit (S (length (indexItems ix flt))) None = Some (indexItems ix flt)
  /\ StronglySorted item_lt (indexItems ix flt) /\ NoDup (itemKey <$> indexItems ix flt).
Proof.
  intros Hw Hr Hf Hk. destruct (indexItems_ok ix flt Hw) as (Hs & Hnd & Hin). split; [|done].
  set (items := indexItems ix flt) in *.
  assert (Hgo : forall fuel cursor start, cursorPosition items (ix_revision ix) flt cursor = Some start -> (start <= length items)%nat ->
    (length items - start < fuel)%nat -> readPages ix flt limit fuel cursor = Some (drop start items)).
  { induction fuel as [|fuel IH]; intros cursor start Hc Hle Hfuel; [lia|]. cbn [readPages]. unfold indexPage. fold items. rewrite Hc.
    cbn [pg_nextCursor pg_items]. set (count := Z.to_nat (Z.max 1 (Z.min limit MAX_LIMIT))). assert (Hcount : (0 < count)%nat) by lia.
    rewrite length_take, length_drop. destruct (Nat.ltb_spec (start + count `min` (length items - start)) (length items)) as [Hlt|Hge].
    - destruct (lookup_lt_is_Some_2 items (start + count - 1)) as [x Hx]; [lia|].
      rewrite last_lookup, length_take, length_drop, lookup_take_lt by lia. rewrite lookup_drop.
      replace (start + Init.Nat.pred (count `min` (length items - start)))%nat with (start + count - 1)%nat by lia. rewrite Hx. cbn [fmap option_fmap option_map].
      rewrite (IH _ (start + count)%nat); [|..|lia|lia].
      + cbn. f_equal. rewrite <- drop_drop. apply take_drop.
      + rewrite (cursorPosition_after items _ flt (take (start + count - 1) items) x (drop (S (start + count - 1)) items)); try done.
        * f_equal. rewrite length_take. lia.
        * by rewrite take_drop_middle.
        * apply Hk, Hin. by apply list_elem_of_lookup_2 in Hx.
    - f_equal. apply take_ge. rewrite length_drop. lia. }
  rewrite (Hgo _ None 0%nat); [by rewrite drop_0|done|lia|lia].
Qed.

(** *** Snapshots *)

Lemma set_of_length_NoDup (l : list string) : length (set_of l) = length l -> NoDup l.
Proof.
  intros Hl. assert (Hs : set_of l ⊆+ l); [apply NoDup_submseteq; [apply NoDup_set_of|intros x; by rewrite elem_of_set_of]|].
  rewrite <- (submseteq_length_Permutation _ _ Hs) by lia. apply NoDup_set_of.
Qed.

(** a snapshot restores. The snapshot of a well-formed index of valid items is accepted and every page of the
    restored index is the original's; and whatever snapshot is accepted, the index restored from it is well-formed and
    holds exactly its items. *)
Lemma restore_snapshot (ix : HistoryIndex) (s : HistoryIndexSnapshot) (tz : string) (restored : HistoryIndex) :
  index_wf ix -> validSource (ix_source ix) = true -> Z.of_nat (length (ix_all ix)) <= 100000 -> forallb validItem (ix_all ix) = true ->
  ix_revision ix = indexRevision (ix_source ix) (ix_timeZone ix) ->
  restoreIndex s tz = Some restored ->
  (exists ix', restoreIndex (snapshotIndex ix) (ix_timeZone ix) = Some ix' /\
     forall filter cursor limit, indexPage ix' filter cursor limit = indexPage ix filter cursor limit)
  /\ index_wf restored /\ (forall i, i ∈ ix_all restored <-> i ∈ sn_items s).
Proof.
  intros Hw Hv Hl Hi Hr Hs. split.
  - unfold restoreIndex, snapshotIndex. cbn [sn_schema sn_policy sn_source sn_builtAt sn_items].
    rewrite Hv, Hi, (proj2 (Z.leb_le _ _) Hl). cbn [andb negb]. pose proof (wf_keys _ Hw) as Hnd.
    rewrite (set_of_NoDup _ Hnd), length_fmap, Nat.eqb_refl. cbn [negb]. eexists. split; [done|].
    destruct (fromItems_wf (ix_source ix) (ix_all ix) (ix_builtAt ix) (ix_timeZone ix) Hnd) as (Hw' & Ha & Ht & Hv' & _).
    intros flt cursor limit. apply pages_same; [done..| |congruence]. split; [|done]. rewrite Ha. apply js_sort_id.
    apply (StronglySorted_strict item_lt); [by apply (NoDup_fmap_1 itemKey)|intros x y _ _ _ Hlt; unfold cmp_le, item_lt in *; lia|apply Hw].
  - unfold restoreIndex in Hs. destruct (negb _); [done|]. destruct (Nat.eqb_spec (length (set_of (itemKey <$> sn_items s))) (length (sn_items s))) as [Hd|]; [|done].
    cbn [negb] in Hs. injection Hs as <-.
    destruct (fromItems_wf (sn_source s) (sn_items s) (sn_builtAt s) tz) as (Hw' & Ha & _).
    { apply set_of_length_NoDup. by rewrite length_fmap. }
    split; [done|]. intros i. by rewrite Ha, elem_of_js_sort.
Qed.

(** *** Projections *)

Lemma documentProjection_title d now p key t :
  doc_kind d <> KDelivery -> documentProjection d now = Ok p ->
  documentTitle key now t d
  = Ok (match p with Some (HPTitle row) => if String.eqb (refKey (tr_title row)) key then Some row else t | _ => t end)
  /\ (projection_ref <$> p) = Some (doc_title d).
Proof.
  unfold documentProjection, documentTitle. destruct (doc_kind d) eqn:E; intros Hk; [| |done].
  - unfold projectDocument. rewrite E. intros (rows & (row & Hrow & [= <-])%res_bind_Ok & Hp)%res_bind_Ok. cbn in Hp. injection Hp as <-.
    assert (Href : tr_title row = doc_title d).
    { unfold projectTitle in Hrow. apply res_bind_Ok in Hrow as (state & _ & [= <-]). cbn. by destruct (doc_title d). }
    rewrite Href, Hrow. cbn. by destruct (String.eqb (refKey (doc_title d)) key); rewrite ?Href.
  - intros (rows & Hrows & [= <-])%res_bind_Ok. cbn. by destruct (String.eqb (refKey (doc_title d)) key).
Qed.

Lemma documentProjection_watched d now p key reset w :
  documentProjection d now = Ok p ->
  documentWatched key now reset w d
  = Ok (match p with
        | Some (HPSeason t season watched) =>
          if negb (String.eqb (refKey t) key) then w else foldl (fun w ea => countWatched reset w season ea.1 ea.2) w watched
        | _ => w
        end).
Proof.
  unfold documentProjection, documentWatched. destruct (doc_kind d) eqn:E.
  - unfold projectDocument. rewrite E. intros (rows & (row & Hrow & [= <-])%res_bind_Ok & Hp)%res_bind_Ok. cbn in Hp. by injection Hp as <-.
  - intros (rows & Hrows & [= <-])%res_bind_Ok. rewrite Hrows. unfold historySeasonProjection. cbn [res_bind].
    destruct (negb _); [done|]. f_equal. unfold forEachProjectedEpisode in Hrows. apply res_bind_Ok in Hrows as (states & _ & [= <-]).
    revert w. induction states as [|[e st] states IH]; intros w; [done|]. rewrite fmap_cons. cbn [foldl omap list_omap].
    rewrite Qc_ltb_negb. destruct (Qc_leb WATCHED _); cbn [negb foldl fst snd]; apply IH.
  - by intros [= <-].
Qed.

(** the summary the import keeps per document loses nothing: a title's history from its projections is its
    history from its documents, whenever the documents project. *)
Lemma projections_are_documents (documents : list DocumentRow) (now : Z) (projections : list (option HistoryDocumentProjection)) :
  Forall (fun d => doc_kind d <> KDelivery) documents ->
  res_map (fun d => documentProjection d now) documents = Ok projections ->
  historyItemFromDocuments documents now = Ok (historyItemFromProjections (omap id projections)).
Proof.
  intros Hk Hp%res_map_Forall2.
  assert (Ht : forall key t, res_fold (documentTitle key now) t documents = Ok (foldl (fun t p => match p with
    | HPTitle row => if String.eqb (refKey (tr_title row)) key then Some row else t | _ => t end) t (omap id projections))).
  { intros key. clear -Hk Hp. induction Hp as [|d p ds ps Hd Hp IH]; intros t; [done|]. apply Forall_cons in Hk as [Hk Hks].
    cbn [res_fold omap list_omap id]. destruct (documentProjection_title d now p key t Hk Hd) as [-> _]. cbn [res_bind].
    rewrite IH by done. by destruct p as [[]|]. }
  assert (Hw : forall key reset w, res_fold (documentWatched key now reset) w documents = Ok (foldl (fun w p => match p with
    | HPSeason t season watched => if negb (String.eqb (refKey t) key) then w else foldl (fun w ea => countWatched reset w season ea.1 ea.2) w watched
    | HPTitle _ => w end) w (omap id projections))).
  { intros key reset. clear -Hp. induction Hp as [|d p ds ps Hd Hp IH]; intros w; [done|].
    cbn [res_fold omap list_omap id]. rewrite (documentProjection_watched d now p key reset w Hd). cbn [res_bind].
    rewrite IH. by destruct p as [[]|]. }
  destruct documents as [|d documents]; inversion Hp as [|? p ? ps Hd Hps]; subst; [done|]. apply Forall_cons in Hk as [Hkd _].
  unfold historyItemFromDocuments. rewrite Ht. cbn [res_bind]. rewrite Hw. cbn [res_bind].
  destruct (documentProjection_title d now p "" None Hkd Hd) as [_ Href]. destruct p as [p|]; [|done]. cbn in Href. injection Href as Href.
  cbn [omap list_omap id]. unfold historyItemFromProjections. by rewrite Href.
Qed.
End IndexInvariant.

(** ** Worked example

    Documents whose members say directly when the title, or its first episode, was watched. *)
Definition stated_time (d : DocumentRow) : option Z :=
  match map_get "at" (doc_rest d) with Some (JNum q) => qc_int q | _ => None end.

Definition stated_documents : DocumentPolicy := {|
  policy_title_state := fun d _ =>
    Ok (mkTitleState (match stated_time d with Some t => Some (mkStamped SWatched (mkStamp t 0 "d")) | None => None end) None None None None None None None);
  policy_season_state := fun d _ =>
    Ok (match stated_time d with Some t => [(1, mkEpisodeState true None 0 (Some t))] | None => [] end);
  policy_episode_state := fun _ _ _ _ => Ok (mkEpisodeState false None 0 None);
  policy_apply_write := fun _ _ title seasons _ => Ok (match title with Some d => [d] | None => [] end ++ seasons);
|}.
Definition flat_calendar : Calendar := fun _ at_ => 1970 + at_ / 31556952000.
Definition plain_uri : UriEncoding := fun s => s.

Section Sample.
#[local] Existing Instance stated_documents.
#[local] Existing Instance flat_calendar.
#[local] Existing Instance plain_uri.

Definition film_document (id at_ : Z) : DocumentRow := mkDocumentRow KTitle 4 (mkRef "movie" id) None None None [("at", jint at_)].
Definition season_document (id season at_ : Z) : DocumentRow :=
  mkDocumentRow KSeason 4 (mkRef "tv" id) (Some season) None None [("at", jint at_)].

Definition sample_source (version : Z) : HistoryIndexSource := mkSource None version "r" None.
Definition sample_documents : list DocumentRow := [film_document 1 100; season_document 2 1 300; film_document 3 0; film_document 4 200].
Definition sample_index : HistoryIndex :=
  match buildIndex (sample_source 1) sample_documents 0 "UTC" with
  | Ok ix => ix
  | Throw _ => emptyIndex (sample_source 1) 0 "UTC"
  end.

Lemma sample_index_built : buildIndex (sample_source 1) sample_documents 0 "UTC" = Ok sample_index.
Proof. vm_compute. reflexivity. Qed.

Lemma sample_index_wf : index_wf sample_index.
Proof. exact (proj1 (buildIndex_spec _ _ _ _ _ sample_index_built)). Qed.

Lemma updateIndex_is_rebuild_witness :
  (hi_watchedAt <$> ix_all (updateIndex sample_index (mkRef "movie" 1) [film_document 1 250] (sample_source 2) 0).1) = [300; 250; 200; 0]
  /\ exists rebuilt,
    buildIndex (sample_source 2) (replaceTitle (mkRef "movie" 1) sample_documents [film_document 1 250]) 0 "UTC" = Ok rebuilt
    /\ forall filter cursor limit,
      indexPage (updateIndex sample_index (mkRef "movie" 1) [film_document 1 250] (sample_source 2) 0).1 filter cursor limit
      = indexPage rebuilt filter cursor limit.
Proof.
  split; [vm_compute; reflexivity|].
  apply (updateIndex_is_rebuild (sample_source 1) (sample_source 2) sample_documents [film_document 1 250] (mkRef "movie" 1) 0 "UTC" sample_index).
  - exact sample_index_built.
  - constructor; [split; [discriminate|reflexivity]|constructor].
  - vm_compute. reflexivity.
Defined.

Lemma updateIndex_wf_witness :
  index_wf (foldl (fun ix u => (updateIndex ix u.1.1.1 u.1.1.2 u.1.2 u.2).1) sample_index
    [(mkRef "movie" 1, [film_document 1 250], sample_source 2, 0); (mkRef "tv" 2, [], sample_source 3, 0)]).
Proof.
  apply (updateIndex_wf (sample_source 1) sample_documents 0 "UTC").
  - exact sample_index_built.
  - repeat constructor; discriminate.
Defined.

Lemma readPages_all_witness :
  readPages sample_index (mkFilter (Some "movie") None) 1 4 None = Some (indexItems sample_index (mkFilter (Some "movie") None))
  /\ (hi_watchedAt <$> indexItems sample_index (mkFilter (Some "movie") None)) = [200; 100; 0].
Proof.
  split; [|vm_compute; reflexivity].
  apply (readPages_all sample_index (mkFilter (Some "movie") None) 1).
  - exact sample_index_wf.
  - vm_compute. reflexivity.
  - vm_compute. reflexivity.
  - intros i Hi. assert (Hall : Forall (fun i => plain_text (itemKey i)) (ix_all sample_index)) by (repeat constructor).
    rewrite Forall_forall in Hall. by apply Hall.
Defined.

Lemma restore_snapshot_witness :
  exists ix', restoreIndex (snapshotIndex sample_index) "UTC" = Some ix' /\
    forall filter cursor limit, indexPage ix' filter cursor limit = indexPage sample_index filter cursor limit.
Proof.
  apply (restore_snapshot sample_index (mkSnapshot 1 3 (sample_source 1) 0 []) "UTC" (fromItems (sample_source 1) [] 0 "UTC")).
  - exact sample_index_wf.
  - vm_compute. reflexivity.
  - vm_compute. discriminate.
  - vm_compute. reflexivity.
  - vm_compute. reflexivity.
  - reflexivity.
Defined.

Lemma projections_are_documents_witness :
  exists projections,
    historyItemFromDocuments [season_document 2 1 300; season_document 2 2 400] 0 = Ok (historyItemFromProjections (omap id projections))
    /\ historyItemFromProjections (omap id projections) = Some (mkItem (mkRef "tv" 2) 400 (Some (mkEpisodeAt 2 1)) 2).
Proof.
  eexists. split; [|shelve]. apply projections_are_documents; [repeat constructor; discriminate|vm_compute; reflexivity].
  Unshelve. vm_compute. reflexivity.
Defined.
End Sample.
