(* ===== verification/History.v ===== *)
(** * Watched history ([web/src/lib/history.ts])

    What the library has watched, from its rows: the seen episodes of each series, the "x of y" tally against the
    series' layout, the history newest first and its view by type and year. *)

From S2P Require Import Prelude JsMap JsText Json Wire Actions LibraryV4 Library HistoryIndex.

(** ** Rows *)

Definition withoutContinuing (titles : list TitleRef) (items needsShapes : list TitleRef) : list TitleRef :=
  let shown := set_of ((refKey <$> items) ++ (refKey <$> needsShapes)) in
  filter (fun t => refKey t ∉ shown) titles.

Record SeenSeries : Type := mkSeen {
  ss_latestWatchedAt : Z;
  ss_latest : option (EpisodeRef * Z);
  ss_count : Z;
}.

Definition titleRows (rows : list Row) : jsmap string TitleRow :=
  foldl (fun titles row => match row with RTitle r => map_set (refKey (tr_title r)) r titles | _ => titles end) [] rows.

(** Whether an episode row is one seen: finished, and not from before its series was un-seen. *)
Definition seenRow (titles : jsmap string TitleRow) (row : EpisodeRow) : bool :=
  negb (Qc_ltb (pr_value (ep_progress row)) WATCHED)
  && match map_get (refKey (ep_title row)) titles ≫= tr_episodesReset with
     | Some reset => negb (st_t (pr_at (ep_progress row)) <=? st_t reset)
     | None => true
     end.

Definition seeEpisode (found : option SeenSeries) (row : EpisodeRow) : SeenSeries :=
  let at_ := st_t (pr_at (ep_progress row)) in
  let found := match found with
               | None => mkSeen at_ None 0
               | Some f => if ss_latestWatchedAt f <? at_ then mkSeen at_ (ss_latest f) (ss_count f) else f
               end in
  if ep_season row <=? 0 then found
  else mkSeen (ss_latestWatchedAt found)
         (match ss_latest found with
          | Some (_, t) => if t <? at_ then Some (mkEpisodeAt (ep_season row) (ep_episode row), at_) else ss_latest found
          | None => Some (mkEpisodeAt (ep_season row) (ep_episode row), at_)
          end)
         (ss_count found + 1).

Definition seenSeries (rows : list Row) (titles : jsmap string TitleRow) : jsmap string SeenSeries :=
  foldl (fun series row =>
    match row with
    | REpisode r =>
      if seenRow titles r then let key := refKey (ep_title r) in map_set key (seeEpisode (map_get key series) r) series else series
    | _ => series
    end) [] rows.

(** [requested] absent asks for every series. *)
Definition asked (requested : option (list string)) (key : string) : bool :=
  match requested with Some r => bool_decide (key ∈ r) | None => true end.

Definition seenEpisodesFor (rows : list Row) (requested : option (list string)) : jsmap string (list EpisodeRef) :=
  let titles := foldl (fun titles row =>
      match row with
      | RTitle r => if asked requested (refKey (tr_title r)) then map_set (refKey (tr_title r)) r titles else titles
      | _ => titles
      end) [] rows in
  foldl (fun seen row =>
    match row with
    | REpisode r =>
      let key := refKey (ep_title r) in
      if negb (Qc_ltb (pr_value (ep_progress r)) WATCHED) && asked requested key
         && match map_get key titles ≫= tr_episodesReset with
            | Some reset => negb (st_t (pr_at (ep_progress r)) <=? st_t reset)
            | None => true
            end
      then map_set key (default [] (map_get key seen) ++ [mkEpisodeAt (ep_season r) (ep_episode r)]) seen
      else seen
    | _ => seen
    end) [] rows.

Definition seenEpisodes (rows : list Row) : jsmap string (list EpisodeRef) := seenEpisodesFor rows None.

(** ** Tallies *)

(** What one season adds to [airedEpisodes]. *)
Definition seasonAired (lastAired : option EpisodeRef) (p : Z * Z) : Z :=
  let '(season, count) := p in
  if season <=? 0 then 0
  else if isAired (mkEpisodeAt season count) lastAired then count
  else match lastAired with
       | Some last => if ea_season last =? season then Z.min count (ea_episode last) else 0
       | None => 0
       end.

Definition airedEpisodes (shape : Shape) : Z := foldl (fun aired p => aired + seasonAired (sh_lastAired shape) p) 0 (sh_counts shape).

(** Whether an episode is in the layout and out. *)
Definition inLayout (shape : Shape) (e : EpisodeRef) : bool :=
  (ea_episode e <=? default 0 (map_get (ea_season e) (sh_counts shape))) && isAired e (sh_lastAired shape).

Definition seenAired (seen : list EpisodeRef) (shape : option Shape) : Z :=
  Z.of_nat (length (filter (fun e => (0 <? ea_season e) && match shape with Some s => inLayout s e | None => true end = true) seen)).

Record EpisodeHistoryTally : Type := mkTally {
  et_watchedEpisodes : Z;
  et_totalEpisodes : option Z;
  et_latestEpisode : option EpisodeRef;
}.

Definition laterEpisode (latest : option EpisodeRef) (e : EpisodeRef) : option EpisodeRef :=
  match latest with
  | None => Some e
  | Some l => if (ea_season l <? ea_season e) || ((ea_season e =? ea_season l) && (ea_episode l <? ea_episode e)) then Some e else latest
  end.

(** The distinct regular-season episodes of [seen]. *)
Definition regularEpisodes (seen : list EpisodeRef) : list EpisodeRef :=
  map_values (map_of ((fun e => (Z_str (ea_season e) +:+ ":" +:+ Z_str (ea_episode e), e)) <$> filter (fun e => 0 < ea_season e) seen)).

Definition episodeHistoryTally (seen : list EpisodeRef) (shape : option Shape) : EpisodeHistoryTally :=
  let regular := regularEpisodes seen in
  let latestEpisode := foldl laterEpisode None regular in
  let watched := Z.of_nat (length regular) in
  match shape with
  | None => mkTally watched None latestEpisode
  | Some s =>
    let total := airedEpisodes s in
    let trustworthy := (0 <? total) && forallb (inLayout s) regular in
    mkTally watched (if trustworthy then Some total else None) latestEpisode
  end.

(** ** The history *)

Record WatchedEntry : Type := mkWatchedEntry {
  we_title : Title;
  we_at : Z;
  we_episode : option EpisodeRef;
  we_episodes : Z;
}.

(** The entry of one title, before it is named. *)
Definition watchedEntry (titles : jsmap string TitleRow) (series : jsmap string SeenSeries) (key : string) (title : Title) : option WatchedEntry :=
  let seenAt := match map_get key titles with
                | Some row => if bool_decide (sv_value (tr_status row) = SWatched)
                              then Z.max (Z.max (default 0 (tr_watchedAt row)) (st_t (sv_at (tr_status row)))) 0 else -1
                | None => -1
                end in
  let episodes := map_get key series in
  let at_ := Z.max seenAt (match episodes with Some s => Z.max (ss_latestWatchedAt s) 0 | None => -1 end) in
  if at_ <? 0 then None
  else Some (mkWatchedEntry title at_ (episodes ≫= fun s => fst <$> ss_latest s) (from_option ss_count 0 episodes)).

Definition compareEntries (a b : WatchedEntry) : Z :=
  or_num (we_at b - we_at a) (compareHistoryTitleKeys (titleKey (we_title a)) (titleKey (we_title b))).

Definition watchedHistory (rows : list Row) (names : jsmap string Title) : list WatchedEntry :=
  let titles := titleRows rows in
  let series := seenSeries rows titles in
  js_sort compareEntries
    (omap (fun key => match map_get key names with
                      | Some title => if truthy (ti_title title) then watchedEntry titles series key title else None
                      | None => None
                      end) (set_of (map_keys titles ++ map_keys series))).

(** The viewer's own calendar; [""] stands for the device's time zone. *)
Definition watchedYear `{Calendar} (entry : WatchedEntry) : string :=
  if 0 <? we_at entry then Z_str (calendar_year "" (we_at entry)) else UNKNOWN_YEAR.

Definition year_rank (filed : string) : option Z := if String.eqb filed UNKNOWN_YEAR then None else Some (year_number filed).

Definition watchedView `{Calendar} (history : list WatchedEntry) (kind : option string) (year : option string)
  : list (string * Z) * list WatchedEntry :=
  let ofKind := match kind with Some k => filter (fun e => ti_type (we_title e) = k) history | None => history end in
  let year := year ≫= nonempty in
  let counts := foldl (fun counts e => let filed := watchedYear e in map_set filed (default 0 (map_get filed counts) + 1) counts)
                  (match year with Some y => [(y, 0)] | None => [] end) ofKind in
  (js_sort (fun a b => sub_ninf (year_rank b.1) (year_rank a.1)) counts,
   match year with Some y => filter (fun e => watchedYear e = y) ofKind | None => ofKind end).

(** ** Tallies are sound *)

Lemma foldl_add_sum {A} (f : A -> Z) l acc : foldl (fun a x => a + f x) acc l = acc + foldl (fun a x => a + f x) 0 l.
Proof. revert acc. induction l as [|x l IH]; intros acc; cbn [foldl]; [lia|]. rewrite IH, (IH (0 + f x)). lia. Qed.

(** A layout as metadata gives it: counts are not negative. *)
Definition layout_ok (shape : Shape) : Prop :=
  map_wf (sh_counts shape) /\ Forall (fun p => 0 <= p.2) (sh_counts shape)
  /\ match sh_lastAired shape with Some last => 0 <= ea_episode last | None => True end.

(** The aired episodes of a layout, one by one. *)
Definition airedList (shape : Shape) : list EpisodeRef :=
  sh_counts shape ≫= fun p => mkEpisodeAt p.1 <$> seqZ 1 (seasonAired (sh_lastAired shape) p).

Lemma seasonAired_nonneg shape p : layout_ok shape -> p ∈ sh_counts shape -> 0 <= seasonAired (sh_lastAired shape) p.
Proof.
  intros (_ & Hc & Hl) Hp. rewrite Forall_forall in Hc. specialize (Hc p Hp). destruct p as [season count]. unfold seasonAired. cbn in Hc.
  destruct (season <=? 0); [done|]. destruct (isAired _ _); [done|]. destruct (sh_lastAired shape) as [last|]; [|done].
  destruct (_ =? _); lia.
Qed.

Lemma airedList_length shape : layout_ok shape -> Z.of_nat (length (airedList shape)) = airedEpisodes shape.
Proof.
  intros Hok. pose proof (fun p Hp => seasonAired_nonneg shape p Hok Hp) as Hn. unfold airedList, airedEpisodes. clear Hok.
  induction (sh_counts shape) as [|p l IH]; [done|]. rewrite bind_cons, length_app, length_fmap, length_seqZ. cbn [foldl].
  rewrite foldl_add_sum, <- IH by (intros; apply Hn; by right). specialize (Hn p ltac:(left)). lia.
Qed.

Lemma airedList_elem shape e :
  1 <= ea_episode e -> 0 < ea_season e -> inLayout shape e = true -> e ∈ airedList shape.
Proof.
  intros He Hs Hin. unfold inLayout in Hin. apply andb_true_iff in Hin as [Hc%Z.leb_le Ha].
  destruct (map_get (ea_season e) (sh_counts shape)) as [count|] eqn:Hg; cbn in Hc; [|lia]. apply map_get_elem in Hg.
  unfold airedList. apply list_elem_of_bind. exists (ea_season e, count). split; [|done]. apply list_elem_of_fmap. cbn [fst].
  exists (ea_episode e). split; [by destruct e|]. apply elem_of_seqZ. unfold seasonAired.
  rewrite (proj2 (Z.leb_gt _ _)) by lia. destruct (isAired (mkEpisodeAt (ea_season e) count) (sh_lastAired shape)) eqn:Hall; [lia|].
  unfold isAired in *. destruct (sh_lastAired shape) as [last|]; [|done]. destruct (ea_season last <=? 0); [done|]. cbn in Hall.
  apply orb_false_iff in Hall as [H1 H2]. rewrite H1 in Ha. cbn in Ha. apply andb_true_iff in Ha as [Heq Hle].
  rewrite Z.eqb_sym, Heq. lia.
Qed.

Lemma inLayout_bound shape l :
  layout_ok shape -> NoDup l -> (forall e, e ∈ l -> 1 <= ea_episode e /\ 0 < ea_season e /\ inLayout shape e = true) ->
  Z.of_nat (length l) <= airedEpisodes shape.
Proof.
  intros Hok Hnd Hl. rewrite <- airedList_length by done. apply inj_le, submseteq_length, NoDup_submseteq; [done|].
  intros e (? & ? & ?)%Hl. by apply airedList_elem.
Qed.

(** "x of y" never claims more than has aired: the seen episodes that count are at most the episodes aired. *)
Lemma seenAired_bound (seen : list EpisodeRef) (shape : Shape) :
  layout_ok shape -> NoDup seen -> Forall (fun e => 1 <= ea_episode e) seen ->
  0 <= seenAired seen (Some shape) <= airedEpisodes shape.
Proof.
  intros Hok Hnd He. unfold seenAired. split; [lia|]. apply inLayout_bound; [done|by apply NoDup_filter|].
  intros e [[Hs Hin]%andb_true_iff Hmem]%list_elem_of_filter. rewrite Forall_forall in He. apply Z.ltb_lt in Hs. auto.
Qed.

Lemma episode_text_inj (a b : EpisodeRef) :
  Z_str (ea_season a) +:+ ":" +:+ Z_str (ea_episode a) = Z_str (ea_season b) +:+ ":" +:+ Z_str (ea_episode b) -> a = b.
Proof.
  intros He. apply sep_inj_r in He as [H1 H2]; [|by apply Z_str_no_char..]. apply (f_equal str_Z) in H1, H2.
  rewrite !str_Z_str in H1, H2. destruct a, b. cbn in *. congruence.
Qed.

Lemma regularEpisodes_spec seen :
  NoDup (regularEpisodes seen) /\ forall e, e ∈ regularEpisodes seen <-> e ∈ seen /\ 0 < ea_season e.
Proof.
  unfold regularEpisodes. set (key := fun e => Z_str (ea_season e) +:+ ":" +:+ Z_str (ea_episode e)).
  pose proof (keyed_of key (filter (fun e => 0 < ea_season e) seen)) as Hk. split.
  - apply (NoDup_fmap_1 key). rewrite keyed_values by done. apply Hk.
  - intros e. rewrite map_values_elem. split.
    + intros (k & Hin%elem_of_map_of). apply list_elem_of_fmap in Hin as (e' & [= -> ->] & [? ?]%list_elem_of_filter). done.
    + intros [Hin Hs]. assert (Hkey : key e ∈ map_keys (map_of ((fun e => (key e, e)) <$> filter (fun e => 0 < ea_season e) seen))).
      { apply map_keys_of. rewrite <- list_fmap_compose. apply list_elem_of_fmap. exists e. split; [done|]. by apply list_elem_of_filter. }
      apply map_get_is_Some in Hkey as [e' He']. apply map_get_elem in He' as He. exists (key e).
      apply Hk in He. apply episode_text_inj in He as ->. by apply map_get_elem.
Qed.

(** [b] is not later than [a]. *)
Definition episode_le (b a : EpisodeRef) : Prop := ea_season b < ea_season a \/ (ea_season b = ea_season a /\ ea_episode b <= ea_episode a).

Lemma latest_max l :
  match foldl laterEpisode None l with
  | Some e => e ∈ l /\ forall b, b ∈ l -> episode_le b e
  | None => l = []
  end.
Proof.
  induction l as [|x l IH] using rev_ind; [done|]. rewrite foldl_app. cbn [foldl]. destruct (foldl laterEpisode None l) as [e|]; cbn [laterEpisode].
  - destruct IH as [He Hm]. destruct (_ || _) eqn:E.
    + split; [set_solver|]. intros b [Hb| ->%list_elem_of_singleton]%elem_of_app; unfold episode_le in *; [|lia]. specialize (Hm b Hb). lia.
    + split; [set_solver|]. intros b [Hb| ->%list_elem_of_singleton]%elem_of_app; unfold episode_le in *; [auto|]. lia.
  - subst. split; [set_solver|]. intros b [Hb| ->%list_elem_of_singleton]%elem_of_app; [set_solver|]. unfold episode_le. lia.
Qed.

(** The history caption is truthful. It counts each regular-season episode seen once, however often it was
    reported; where it shows a total, the total is the aired count and at least the count shown; and the latest episode
    it names is one of those seen and none is later. *)
Lemma episodeHistoryTally_sound (seen : list EpisodeRef) (shape : option Shape) :
  Forall (fun e => 1 <= ea_episode e) seen -> (forall s, shape = Some s -> layout_ok s) ->
  let tally := episodeHistoryTally seen shape in
  (exists regular, NoDup regular /\ (forall e, e ∈ regular <-> e ∈ seen /\ 0 < ea_season e)
     /\ et_watchedEpisodes tally = Z.of_nat (length regular)
     /\ match et_latestEpisode tally with
        | Some latest => latest ∈ regular /\ forall e, e ∈ regular -> episode_le e latest
        | None => regular = []
        end)
  /\ forall total, et_totalEpisodes tally = Some total ->
       et_watchedEpisodes tally <= total /\ 0 < total /\ exists s, shape = Some s /\ total = airedEpisodes s.
Proof.
  intros He Hok tally. destruct (regularEpisodes_spec seen) as [Hnd Hr]. split.
  - exists (regularEpisodes seen). split; [done|]. split; [done|]. unfold tally, episodeHistoryTally.
    destruct shape; cbn; (split; [done|]); apply latest_max.
  - intros total. unfold tally, episodeHistoryTally. destruct shape as [s|]; [|done]. cbn [et_totalEpisodes et_watchedEpisodes].
    destruct (0 <? airedEpisodes s) eqn:Hpos; [|done]. cbn [andb]. destruct (forallb _ _) eqn:Hall; [|done]. intros [= <-].
    apply Z.ltb_lt in Hpos. split; [|split; [done|eauto]]. apply inLayout_bound; [auto|done|].
    intros e Hin. rewrite forallb_forall in Hall. rewrite Forall_forall in He. pose proof (proj1 (Hr e) Hin) as [? ?].
    split; [auto|]. split; [done|]. apply Hall. by apply list_elem_of_In.
Qed.

(** ** Rows and documents tell one history *)

Definition lastTitle (t : option TitleRow) (row : Row) : option TitleRow := match row with RTitle r => Some r | _ => t end.

(** Every row is of the title [k]. *)
Definition rows_of (k : string) (rows : list Row) : Prop :=
  Forall (fun row => match row with
                     | RTitle r => refKey (tr_title r) = k
                     | REpisode r => refKey (ep_title r) = k
                     | _ => True
                     end) rows.

Definition one_entry {V} (k : string) (o : option V) : jsmap string V := match o with Some v => [(k, v)] | None => [] end.

Lemma one_entry_set {V} k (o : option V) v : map_set k v (one_entry k o) = one_entry k (Some v).
Proof. destruct o; cbn; [by rewrite decide_True|done]. Qed.
Lemma one_entry_get {V} k (o : option V) : map_get k (one_entry k o) = o.
Proof. destruct o; cbn; [by rewrite decide_True|done]. Qed.

Lemma titleRows_one k rows : rows_of k rows -> titleRows rows = one_entry k (foldl lastTitle None rows).
Proof.
  induction rows as [|row rows IH] using rev_ind; [done|]. unfold rows_of. rewrite Forall_app. intros [Hr [Hk _]%Forall_cons].
  unfold titleRows in *. rewrite !foldl_app. cbn [foldl]. rewrite IH by done. destruct row; cbn [lastTitle]; try done.
  rewrite Hk. apply one_entry_set.
Qed.

(** The series' state after one row. *)
Definition seeRow (titles : jsmap string TitleRow) (s : option SeenSeries) (row : Row) : option SeenSeries :=
  match row with REpisode r => if seenRow titles r then Some (seeEpisode s r) else s | _ => s end.

Lemma seenSeries_one k rows titles : rows_of k rows -> seenSeries rows titles = one_entry k (foldl (seeRow titles) None rows).
Proof.
  induction rows as [|row rows IH] using rev_ind; [done|]. unfold rows_of. rewrite Forall_app. intros [Hr [Hk _]%Forall_cons].
  unfold seenSeries in *. rewrite !foldl_app. cbn [foldl]. rewrite IH by done. destruct row; cbn [seeRow]; try done.
  destruct (seenRow _ _); [|done]. rewrite Hk, one_entry_get. apply one_entry_set.
Qed.

(** The index's count and the history's say the same. *)
Definition agrees_watched (w : Watched) (s : option SeenSeries) : Prop :=
  match s with
  | None => w = noneWatched
  | Some s => wa_latestAt w = Some (ss_latestWatchedAt s) /\ wa_latest w = ss_latest s /\ wa_episodes w = ss_count s
  end.

Definition countRow (reset : option Stamp) (w : Watched) (row : Row) : Watched :=
  match row with
  | REpisode r => if Qc_ltb (pr_value (ep_progress r)) WATCHED then w
                  else countWatched reset w (ep_season r) (ep_episode r) (st_t (pr_at (ep_progress r)))
  | _ => w
  end.

Lemma seeEpisode_agrees w s r :
  agrees_watched w s ->
  agrees_watched (countWatched None w (ep_season r) (ep_episode r) (st_t (pr_at (ep_progress r)))) (Some (seeEpisode s r)).
Proof.
  unfold countWatched, seeEpisode. destruct s as [s|]; cbn.
  - intros (H1 & H2 & H3). rewrite H1, H2, H3. cbn.
    destruct (Z.ltb_spec (ss_latestWatchedAt s) (st_t (pr_at (ep_progress r)))); destruct (ep_season r <=? 0); cbn;
      rewrite ?Z.max_r, ?Z.max_l by lia; done.
  - intros ->. cbn. by destruct (ep_season r <=? 0).
Qed.

Lemma countRow_agrees k title rows w s :
  rows_of k rows -> agrees_watched w s ->
  agrees_watched (foldl (countRow (title ≫= tr_episodesReset)) w rows) (foldl (seeRow (one_entry k title)) s rows).
Proof.
  intros Hr. revert w s. induction Hr as [|row rows Hk Hr IH]; intros w s Ha; [done|]. cbn [foldl]. apply IH. clear IH.
  destruct row as [r|r|r|r]; cbn [countRow seeRow]; try done. unfold seenRow. rewrite Hk, one_entry_get.
  destruct (Qc_ltb _ _); [done|]. cbn [negb andb]. destruct (title ≫= tr_episodesReset) as [reset|]; [|by apply seeEpisode_agrees].
  unfold countWatched. destruct (_ <=? st_t reset); [done|]. by apply seeEpisode_agrees.
Qed.

Section Agreement.
Context `{DocumentPolicy}.

(** The documents of one title; only a series has seasons. *)
Definition title_documents (ref : TitleRef) (documents : list DocumentRow) : Prop :=
  Forall (fun d => doc_title d = ref /\ match doc_kind d with KTitle => True | KSeason => ref_type ref = "tv" | KDelivery => False end) documents.

Lemma projected_rows ref documents now rowss :
  title_documents ref documents -> res_map (fun d => projectDocument d now) documents = Ok rowss -> rows_of (refKey ref) (concat rowss).
Proof.
  intros Hd Hr%res_map_Forall2. induction Hr as [|d rows ds rowss Hp Hr IH]; [constructor|]. apply Forall_cons in Hd as [[<- Hk] Hd].
  cbn [concat]. apply Forall_app. split; [|by apply IH]. unfold projectDocument in Hp. destruct (doc_kind d); [| |done].
  - apply res_bind_Ok in Hp as (row & Hrow & [= <-]). constructor; [|constructor]. unfold projectTitle in Hrow.
    apply res_bind_Ok in Hrow as (state & _ & [= <-]). done.
  - apply res_bind_Ok in Hp as (rows' & Hrows & [= <-]). unfold forEachProjectedEpisode in Hrows.
    apply res_bind_Ok in Hrows as (states & _ & [= <-]). apply Forall_fmap, Forall_fmap, Forall_forall. intros [e st] _. cbn.
    unfold refKey. cbn. by rewrite Hk.
Qed.

Lemma documentTitle_rows ref documents now rowss t :
  title_documents ref documents -> res_map (fun d => projectDocument d now) documents = Ok rowss ->
  res_fold (documentTitle (refKey ref) now) t documents = Ok (foldl lastTitle t (concat rowss)).
Proof.
  intros Hd Hr%res_map_Forall2. revert t. induction Hr as [|d rows ds rowss Hp Hr IH]; intros t; [done|]. apply Forall_cons in Hd as [[He Hk] Hd].
  cbn [res_fold concat]. rewrite foldl_app. unfold documentTitle at 1. rewrite He, String.eqb_refl. cbn [negb]. unfold projectDocument in Hp |- *.
  destruct (doc_kind d); [| |done].
  - apply res_bind_Ok in Hp as (row & -> & [= <-]). cbn. by apply IH.
  - apply res_bind_Ok in Hp as (rows' & _ & [= <-]). cbn [res_bind]. rewrite IH by done. do 2 f_equal.
    clear. induction rows' as [|r rows' IH]; [done|]. rewrite fmap_cons. cbn [foldl lastTitle]. exact IH.
Qed.

Lemma documentWatched_rows ref documents now rowss reset w :
  title_documents ref documents -> res_map (fun d => projectDocument d now) documents = Ok rowss ->
  res_fold (documentWatched (refKey ref) now reset) w documents = Ok (foldl (countRow reset) w (concat rowss)).
Proof.
  intros Hd Hr%res_map_Forall2. revert w. induction Hr as [|d rows ds rowss Hp Hr IH]; intros w; [done|]. apply Forall_cons in Hd as [[He Hk] Hd].
  cbn [res_fold concat]. rewrite foldl_app. unfold documentWatched at 1. rewrite He, String.eqb_refl. cbn [negb]. unfold projectDocument in Hp.
  destruct (doc_kind d); [| |done].
  - apply res_bind_Ok in Hp as (row & _ & [= <-]). cbn. by apply IH.
  - apply res_bind_Ok in Hp as (rows' & -> & [= <-]). cbn [res_bind]. rewrite IH by done. do 2 f_equal.
    clear. revert w. induction rows' as [|r rows' IH]; intros w; [done|]. rewrite fmap_cons. cbn [foldl countRow]. apply IH.
Qed.

(** the two histories agree. For one title, the entry the row history makes of its projected rows is the entry
    the index makes of its documents: the same time, latest episode and count, or none in both. *)
Lemma watchedHistory_agrees (ref : TitleRef) (documents : list DocumentRow) (now : Z) (rowss : list (list Row))
    (names : jsmap string Title) (title : Title) :
  title_documents ref documents -> res_map (fun d => projectDocument d now) documents = Ok rowss ->
  map_get (refKey ref) names = Some title -> ti_title title <> "" ->
  exists item, historyItemFromDocuments documents now = Ok item /\
    watchedHistory (concat rowss) names =
    match item with Some i => [mkWatchedEntry title (hi_watchedAt i) (hi_episode i) (hi_episodes i)] | None => [] end.
Proof.
  intros Hd Hr Hn Ht. set (k := refKey ref) in *. pose proof (projected_rows _ _ _ _ Hd Hr) as Hk. fold k in Hk.
  set (t := foldl lastTitle None (concat rowss)). set (w := foldl (countRow (t ≫= tr_episodesReset)) noneWatched (concat rowss)).
  assert (Hdoc : historyItemFromDocuments documents now = Ok (historyItem ref t w)).
  { destruct documents as [|d documents].
    - cbn in Hr. injection Hr as <-. done.
    - unfold historyItemFromDocuments. apply Forall_cons in Hd as Hd'. destruct Hd' as [[He _] _]. rewrite He.
      rewrite (documentTitle_rows _ _ _ _ _ Hd Hr). cbn [res_bind]. fold t. by rewrite (documentWatched_rows _ _ _ _ _ _ Hd Hr). }
  exists (historyItem ref t w). split; [done|]. unfold watchedHistory. rewrite (titleRows_one k), (seenSeries_one k) by done. fold t.
  set (s := foldl (seeRow (one_entry k t)) None (concat rowss)).
  pose proof (countRow_agrees k t (concat rowss) noneWatched None Hk eq_refl) as Ha. fold w s in Ha.
  assert (Hentry : forall e, watchedEntry (one_entry k t) (one_entry k s) k title = e ->
    e = (fun i => mkWatchedEntry title (hi_watchedAt i) (hi_episode i) (hi_episodes i)) <$> historyItem ref t w).
  { intros e <-. unfold watchedEntry, historyItem. rewrite !one_entry_get. destruct s as [s|]; cbn in Ha.
    - destruct Ha as (-> & -> & ->). cbn. by destruct (_ <? 0).
    - rewrite Ha. cbn. by destruct (_ <? 0). }
  assert (Hset : set_of (map_keys (one_entry k t) ++ map_keys (one_entry k s)) = match t, s with None, None => [] | _, _ => [k] end).
  { destruct t, s; cbn; try done. unfold set_of, set_add. cbn. rewrite decide_True; [done|left]. }
  rewrite Hset. destruct t as [t0|] eqn:Et, s as [s0|] eqn:Es; cbn [omap list_omap]; rewrite ?Hn;
    try (rewrite (proj2 (truthy_ne _) Ht), (Hentry _ eq_refl); by destruct (historyItem ref _ w)).
  cbn in Ha. rewrite Ha. done.
Qed.
End Agreement.

(** ** Worked examples *)

Definition sample_layout : Shape := mkShape [(0, 2); (1, 3); (2, 4)] (Some (mkEpisodeAt 2 2)).

Lemma sample_layout_ok : layout_ok sample_layout.
Proof. split; [apply (bool_decide_unpack _); vm_compute; exact I|]. split; [repeat constructor|]; cbn; lia. Qed.

Lemma seenAired_bound_witness :
  let seen := [mkEpisodeAt 1 1; mkEpisodeAt 0 1; mkEpisodeAt 2 2; mkEpisodeAt 2 3] in
  seenAired seen (Some sample_layout) = 2 /\ airedEpisodes sample_layout = 5 /\ seenAired seen (Some sample_layout) <= airedEpisodes sample_layout.
Proof.
  split; [vm_compute; reflexivity|]. split; [vm_compute; reflexivity|].
  apply seenAired_bound; [exact sample_layout_ok|apply (bool_decide_unpack _); vm_compute; exact I|repeat constructor; cbn; lia].
Defined.

Lemma episodeHistoryTally_sound_witness :
  let tally := episodeHistoryTally [mkEpisodeAt 1 1; mkEpisodeAt 1 1; mkEpisodeAt 2 2; mkEpisodeAt 0 1] (Some sample_layout) in
  et_watchedEpisodes tally = 2 /\ et_totalEpisodes tally = Some 5
  /\ forall total, et_totalEpisodes tally = Some total ->
       et_watchedEpisodes tally <= total /\ 0 < total /\ exists s, Some sample_layout = Some s /\ total = airedEpisodes s.
Proof.
  split; [vm_compute; reflexivity|]. split; [vm_compute; reflexivity|]. apply episodeHistoryTally_sound.
  - repeat constructor; cbn; lia.
  - intros s [= <-]. exact sample_layout_ok.
Defined.

Lemma watchedHistory_agrees_witness :
  let documents := [season_document 2 1 300; season_document 2 2 400] in
  let names := [("tv:2", mkTitle "tv" 2 "Series" None None None false [])] in
  exists rowss item,
    @res_map DocumentRow (list Row) (fun d => @projectDocument stated_documents d 0) documents = Ok rowss
    /\ @historyItemFromDocuments stated_documents documents 0 = Ok item
    /\ watchedHistory (concat rowss) names =
       match item with Some i => [mkWatchedEntry (mkTitle "tv" 2 "Series" None None None false []) (hi_watchedAt i) (hi_episode i) (hi_episodes i)] | None => [] end.
Proof.
  cbv zeta. eexists. destruct (@watchedHistory_agrees stated_documents (mkRef "tv" 2) [season_document 2 1 300; season_document 2 2 400] 0
    (match @res_map DocumentRow (list Row) (fun d => @projectDocument stated_documents d 0) [season_document 2 1 300; season_document 2 2 400] with Ok r => r | Throw _ => [] end)
    [("tv:2", mkTitle "tv" 2 "Series" None None None false [])] (mkTitle "tv" 2 "Series" None None None false [])) as (item & H1 & H2).
  - repeat constructor.
  - vm_compute. reflexivity.
  - reflexivity.
  - discriminate.
  - exists item. split; [|split; [exact H1|exact H2]]. vm_compute. reflexivity.
Defined.
