(* ===== verification/ServiceCore.v ===== *)
(** * The library service ([web/src/lib/libraryServiceCore.ts])

    [LibraryServiceCore], the actor between a page and the library: protocol ordering, subscriptions and in-session
    command deduplication over an injected authority. Requests of the lane are processed one at a time, so each is a
    step from state to state; a message reaches the core decoded ([Codec] models the decoder).
    Selection values, commands and results are JSON, and [JSON.stringify] texts are compared as the JSON they write. *)

From S2P Require Import Prelude JsMap JsText Json Wire.

(** ** Protocol *)

Inductive LibrarySelection : Type :=
| SelTitle (title : TitleRef)
| SelPresence (titles : list TitleRef)
| SelKind (kind : string) (rest : json).

Inductive LibrarySelectionScope : Type :=
| ScAll
| ScOverview
| ScContinue
| ScKind (kind : string)
| ScTitle (title : TitleRef)
| ScPresence (title : TitleRef).

Definition sameTitle (a b : TitleRef) : bool := String.eqb (ref_type a) (ref_type b) && (ref_id a =? ref_id b).

Definition selection_kind (s : LibrarySelection) : string :=
  match s with SelTitle _ => "title" | SelPresence _ => "presence" | SelKind k _ => k end.

Definition scopeMatches (scope : LibrarySelectionScope) (selection : LibrarySelection) : bool :=
  let kind := selection_kind selection in
  match scope with
  | ScAll => true
  | ScOverview => String.eqb kind "overview" || String.eqb kind "watchlist" || String.eqb kind "recommendations"
  | ScContinue => String.eqb kind "continue" || String.eqb kind "watchlist"
  | ScKind k => String.eqb kind k
  | ScTitle t => match selection with SelTitle t' => sameTitle t t' | _ => false end
  | ScPresence t => match selection with SelPresence ts => existsb (sameTitle t) ts | _ => false end
  end.

Inductive Change : Type := Applied | Unchanged.
Inductive CommandDelivery : Type := Synced | Queued | Local_.

Record LibraryServiceFailure : Type := mkFailure { fa_code : string; fa_message : string; fa_retryable : bool }.

(** What the authority may throw: a refusal the protocol preserves, an [Error], or any other value. *)
Inductive Thrown : Type :=
| AuthorityError (f : LibraryServiceFailure)
| OtherError (message : string)
| OtherValue.

Inductive answer (T : Type) : Type := Done (t : T) | Failed (e : Thrown).
Arguments Done {T} _.
Arguments Failed {T} _.

Definition authorityFailure (error : Thrown) (fallback : string) : LibraryServiceFailure :=
  match error with
  | AuthorityError f => f
  | OtherError m => mkFailure "internal" m true
  | OtherValue => mkFailure "internal" fallback true
  end.

Record LibraryVersion : Type := mkVersion { ve_instance : string; ve_generation : option string; ve_revision : Z }.

Record LibraryAuthorityResult (T : Type) : Type := mkResult { ar_value : T; ar_affected : list LibrarySelectionScope }.
Arguments mkResult {T} _ _.
Arguments ar_value {T} _.
Arguments ar_affected {T} _.

Record LibraryServiceHello : Type := mkHello { he_clientId : string; he_libraryKey : string; he_mode : string; he_wire : string }.
#[global] Instance LibraryServiceHello_eq_dec : EqDecision LibraryServiceHello.
Proof. solve_decision. Defined.

(** The authority: domain reads and writes, behind its own state. *)
Class Authority (A : Type) := {
  au_generation : A -> option string;
  au_select : A -> LibrarySelection -> A * answer json;
  au_command : A -> json -> string -> A * answer (LibraryAuthorityResult (Change * CommandDelivery));
  au_query : A -> json -> A * answer json;
  au_task : A -> json -> string -> A * answer (LibraryAuthorityResult json);
  au_observe : A -> json -> A * answer (LibraryAuthorityResult Change);
  au_open : LibraryServiceHello -> answer (option A);
  (** The [relay.membership] query's capability, [null] where it fails or has none. *)
  au_membership : A -> A * option json;
}.

Inductive Request : Type :=
| RqHello (requestId : string) (hello : LibraryServiceHello)
| RqSubscribe (requestId subscriptionId : string) (selection : LibrarySelection)
| RqUnsubscribe (requestId subscriptionId : string)
| RqCommand (requestId operationId : string) (command : json)
| RqQuery (requestId : string) (query : json)
| RqTask (requestId operationId : string) (task : json)
| RqObserve (requestId : string) (observation : json).

Definition request_id (r : Request) : string :=
  match r with
  | RqHello i _ | RqSubscribe i _ _ | RqUnsubscribe i _ | RqCommand i _ _ | RqQuery i _ | RqTask i _ _ | RqObserve i _ => i
  end.

Inductive LibraryAuthorityStatus : Type :=
| StReady
| StReconnecting
| StReadOnly (reason : string)
| StMoved (successor : option string)
| StFailed (error : LibraryServiceFailure).

Inductive LibrarySessionStatus : Type :=
| SsReady (version : LibraryVersion)
| SsReconnecting (version : LibraryVersion)
| SsReadOnly (version : LibraryVersion) (reason : string)
| SsMoved (successor : option string)
| SsFailed (error : LibraryServiceFailure).

Inductive LibraryAuthorityEvent : Type :=
| EvChanged (affected : list LibrarySelectionScope)
| EvStatus (status : LibraryAuthorityStatus).

Inductive Message : Type :=
| MReady (requestId : string) (relayMembership : option json) (version : LibraryVersion)
| MUpdate (subscriptionId : string) (version : LibraryVersion) (value : json)
| MSubscribed (requestId subscriptionId : string) (version : LibraryVersion)
| MUnsubscribed (requestId subscriptionId : string)
| MCommandResult (requestId operationId : string) (outcome : Change) (delivery : CommandDelivery) (version : LibraryVersion)
| MQueryResult (requestId : string) (result : json) (version : LibraryVersion)
| MTaskResult (requestId operationId : string) (result : json) (version : LibraryVersion)
| MObserved (requestId : string) (version : LibraryVersion)
| MStatus (status : LibrarySessionStatus)
| MError (error : LibraryServiceFailure) (requestId subscriptionId : option string).

Definition failure (code message : string) (retryable : bool) : LibraryServiceFailure := mkFailure code message retryable.

(** An empty [requestId] or [subscriptionId] is left out of the reply. *)
Definition errorReply (error : LibraryServiceFailure) (requestId subscriptionId : option string) : Message :=
  let given o := match o with Some "" => None | _ => o end in
  MError error (given requestId) (given subscriptionId).

(** ** State *)

Record Subscription : Type := mkSub { su_selection : LibrarySelection; su_value : json; su_digest : json }.

Record CompletedOperation : Type := mkOperation {
  op_command : json;
  op_outcome : Change;
  op_delivery : CommandDelivery;
  op_version : LibraryVersion;
}.

Definition OPERATION_HISTORY_LIMIT : nat := 1024.

Record Core (A : Type) : Type := mkCore {
  co_instance : string;
  co_subscriptions : jsmap string Subscription;
  co_operations : jsmap string CompletedOperation;
  co_authority : option A;
  co_relayMembership : option json;
  co_client : option LibraryServiceHello;
  co_revision : Z;
  co_closed : bool;
}.
Arguments mkCore {A} _ _ _ _ _ _ _ _.
Arguments co_instance {A} _.
Arguments co_subscriptions {A} _.
Arguments co_operations {A} _.
Arguments co_authority {A} _.
Arguments co_relayMembership {A} _.
Arguments co_client {A} _.
Arguments co_revision {A} _.
Arguments co_closed {A} _.

Definition newCore {A} (instance : string) : Core A := mkCore instance [] [] None None None 0 false.

Section Service.
Context {A : Type} `{!Authority A}.
Implicit Types (c : Core A) (a : A).

Definition set_authority c a : Core A :=
  mkCore (co_instance c) (co_subscriptions c) (co_operations c) (Some a) (co_relayMembership c) (co_client c) (co_revision c) (co_closed c).
Definition set_subscriptions c (s : jsmap string Subscription) : Core A :=
  mkCore (co_instance c) s (co_operations c) (co_authority c) (co_relayMembership c) (co_client c) (co_revision c) (co_closed c).
Definition set_operations c (o : jsmap string CompletedOperation) : Core A :=
  mkCore (co_instance c) (co_subscriptions c) o (co_authority c) (co_relayMembership c) (co_client c) (co_revision c) (co_closed c).
Definition bump c : Core A :=
  mkCore (co_instance c) (co_subscriptions c) (co_operations c) (co_authority c) (co_relayMembership c) (co_client c) (co_revision c + 1) (co_closed c).

Definition version c : LibraryVersion := mkVersion (co_instance c) (co_authority c ≫= au_generation) (co_revision c).

(** The affected subscriptions whose value changed: the authority after the reads, and what is staged, or the throw. *)
Fixpoint stageUpdates (a : A) (affected : list LibrarySelectionScope) (subs : jsmap string Subscription)
  : A * answer (list (string * json)) :=
  match subs with
  | [] => (a, Done [])
  | (id, s) :: subs =>
    if negb (existsb (fun scope => scopeMatches scope (su_selection s)) affected) then stageUpdates a affected subs
    else
      match au_select a (su_selection s) with
      | (a', Failed e) => (a', Failed e)
      | (a', Done value) =>
        match stageUpdates a' affected subs with
        | (a2, Done staged) => (a2, Done (if bool_decide (value = su_digest s) then staged else (id, value) :: staged))
        | (a2, Failed e) => (a2, Failed e)
        end
      end
  end.

(** [subscription.value = value; subscription.digest = digest], on the subscription object the map holds. *)
Definition installUpdate (subs : jsmap string Subscription) (u : string * json) : jsmap string Subscription :=
  match map_get u.1 subs with
  | Some s => map_set u.1 (mkSub (su_selection s) u.2 u.2) subs
  | None => subs
  end.

(** [#updates] *)
Definition updates c (affected : list LibrarySelectionScope) : Core A * answer (list Message) :=
  match co_authority c with
  | None => (c, Failed OtherValue)
  | Some a =>
    match stageUpdates a affected (co_subscriptions c) with
    | (a', Failed e) => (set_authority c a', Failed e)
    | (a', Done staged) =>
      (set_subscriptions (set_authority c a') (foldl installUpdate (co_subscriptions c) staged),
       Done ((fun u => MUpdate u.1 (version c) u.2) <$> staged))
    end
  end.

(** [try { updates = await this.#updates(affected) } catch {}] *)
Definition tryUpdates c (affected : list LibrarySelectionScope) : Core A * list Message :=
  match updates c affected with
  | (c', Done m) => (c', m)
  | (c', Failed _) => (c', [])
  end.

Definition rememberOperation (ops : jsmap string CompletedOperation) (operationId : string) (completed : CompletedOperation)
  : jsmap string CompletedOperation :=
  let ops := map_set operationId completed ops in
  if (length ops <=? OPERATION_HISTORY_LIMIT)%nat then ops
  else match ops with (k, _) :: _ => map_delete k ops | [] => ops end.

Definition subscribe c a (requestId subscriptionId : string) (selection : LibrarySelection) : Core A * answer (list Message) :=
  match au_select a selection with
  | (a', Failed e) => (set_authority c a', Failed e)
  | (a', Done value) =>
    let c := set_authority c a' in
    let c := set_subscriptions c (map_set subscriptionId (mkSub selection value value) (co_subscriptions c)) in
    (c, Done [MUpdate subscriptionId (version c) value; MSubscribed requestId subscriptionId (version c)])
  end.

Definition command c a (requestId operationId : string) (cmd : json) : Core A * answer (list Message) :=
  match map_get operationId (co_operations c) with
  | Some completed =>
    if bool_decide (op_command completed <> cmd)
    then (c, Done [errorReply (failure "conflict" "operationId was already used for another command" false) (Some requestId) None])
    else (c, Done [MCommandResult requestId operationId (op_outcome completed) (op_delivery completed) (op_version completed)])
  | None =>
    match au_command a cmd operationId with
    | (a', Failed e) => (set_authority c a', Failed e)
    | (a', Done r) =>
      let '(outcome, delivery) := ar_value r in
      let c := set_authority c a' in
      let c := match outcome with Applied => bump c | Unchanged => c end in
      let v := version c in
      let c := set_operations c (rememberOperation (co_operations c) operationId (mkOperation cmd outcome delivery v)) in
      let '(c, messages) := match outcome with Applied => tryUpdates c (ar_affected r) | Unchanged => (c, []) end in
      (c, Done (messages ++ [MCommandResult requestId operationId outcome delivery v]))
    end
  end.

Definition observe c a (requestId : string) (observation : json) : Core A * answer (list Message) :=
  match au_observe a observation with
  | (a', Failed e) => (set_authority c a', Failed e)
  | (a', Done r) =>
    let c := set_authority c a' in
    let c := match ar_value r with Applied => bump c | Unchanged => c end in
    let v := version c in
    let '(c, messages) := match ar_value r with Applied => tryUpdates c (ar_affected r) | Unchanged => (c, []) end in
    (c, Done (messages ++ [MObserved requestId v]))
  end.

Definition task c a (requestId operationId : string) (t : json) : Core A * answer (list Message) :=
  match au_task a t operationId with
  | (a', Failed e) => (set_authority c a', Failed e)
  | (a', Done r) =>
    let '(c, messages) := tryUpdates (bump (set_authority c a')) (ar_affected r) in
    (c, Done (messages ++ [MTaskResult requestId operationId (ar_value r) (version c)]))
  end.

Definition query c a (requestId : string) (q : json) : Core A * answer (list Message) :=
  match au_query a q with
  | (a', Failed e) => (set_authority c a', Failed e)
  | (a', Done result) => let c := set_authority c a' in (c, Done [MQueryResult requestId result (version c)])
  end.

Definition hello c (requestId : string) (h : LibraryServiceHello) : Core A * list Message :=
  match co_client c with
  | Some client =>
    if bool_decide (client <> h)
    then (c, [errorReply (failure "conflict" "library service already belongs to another client" false) (Some requestId) None])
    else (c, [MReady requestId (co_relayMembership c) (version c)])
  | None =>
    match au_open h with
    | Failed (AuthorityError f) => (c, [errorReply f (Some requestId) None])
    | Failed (OtherError m) => (c, [errorReply (failure "unavailable" m true) (Some requestId) None])
    | Failed OtherValue => (c, [errorReply (failure "unavailable" "library could not be opened" true) (Some requestId) None])
    | Done None => (c, [errorReply (failure "not-found" "library could not be opened" true) (Some requestId) None])
    | Done (Some a) =>
      let '(a', membership) := au_membership a in
      let c := mkCore (co_instance c) (co_subscriptions c) (co_operations c) (Some a') membership (Some h) (co_revision c) (co_closed c) in
      (c, [MReady requestId membership (version c)])
    end
  end.

(** The requests that need the authority, inside [#dispatch]'s [try]. *)
Definition serve c a (request : Request) : Core A * answer (list Message) :=
  match request with
  | RqHello requestId h => let '(c, m) := hello c requestId h in (c, Done m)
  | RqSubscribe requestId id selection => subscribe c a requestId id selection
  | RqUnsubscribe requestId id =>
    (set_subscriptions c (map_delete id (co_subscriptions c)), Done [MUnsubscribed requestId id])
  | RqCommand requestId operationId cmd => command c a requestId operationId cmd
  | RqQuery requestId q => query c a requestId q
  | RqTask requestId operationId t => task c a requestId operationId t
  | RqObserve requestId o => observe c a requestId o
  end.

Definition error_subscription (request : Request) : option string :=
  match request with RqSubscribe _ id _ | RqUnsubscribe _ id => Some id | _ => None end.

(** [#dispatch] of a decoded message. *)
Definition dispatch c (request : Request) : Core A * list Message :=
  if co_closed c then (c, [errorReply (failure "cancelled" "library service is closed" false) (Some (request_id request)) None])
  else match request, co_authority c with
  | RqHello requestId h, _ => hello c requestId h
  | _, None => (c, [errorReply (failure "not-ready" "library service is not ready" true) (Some (request_id request)) None])
  | _, Some a =>
    match serve c a request with
    | (c', Done m) => (c', m)
    | (c', Failed e) =>
      (c', [errorReply (authorityFailure e "library service request failed") (Some (request_id request)) (error_subscription request)])
    end
  end.

(** [status.successor ? { successor } : {}]: an empty successor is left out. *)
Definition status c (s : LibraryAuthorityStatus) : LibrarySessionStatus :=
  match s with
  | StReady => SsReady (version c)
  | StReconnecting => SsReconnecting (version c)
  | StReadOnly reason => SsReadOnly (version c) reason
  | StMoved successor => SsMoved (match successor with Some "" => None | _ => successor end)
  | StFailed e => SsFailed e
  end.

(** [#enqueueAuthorityEvent]'s turn on the lane, with the messages it publishes. *)
Definition authorityEvent c (event : LibraryAuthorityEvent) : Core A * list Message :=
  if co_closed c then (c, [])
  else match co_authority c, event with
       | None, _ => (c, [])
       | Some _, EvStatus s => (c, [MStatus (status c s)])
       | Some _, EvChanged affected => tryUpdates (bump c) affected
       end.

(** [close] refuses what is still queued ([#closed]), and once the lane has drained releases the authority. *)
Definition startClose c : Core A :=
  mkCore (co_instance c) (co_subscriptions c) (co_operations c) (co_authority c) (co_relayMembership c) (co_client c) (co_revision c) true.
Definition finishClose c : Core A :=
  mkCore (co_instance c) [] [] None (co_relayMembership c) (co_client c) (co_revision c) (co_closed c).
End Service.

(** ** What the core relies on, and its lane

    The interface's contract: [view] is what [select] reads when it does not throw, which it may at any time. A write
    reports every scope whose selection it may have changed; refused writes, queries and reads change no selection. *)
Class AuthorityLaws (A : Type) `{!Authority A} := {
  view : A -> LibrarySelection -> json;
  select_reads a s value : (au_select a s).2 = Done value -> value = view a s;
  select_keeps a s s' : view (au_select a s).1 s' = view a s';
  query_reads a q s : view (au_query a q).1 s = view a s;
  membership_reads a s : view (au_membership a).1 s = view a s;
  command_reports a cmd op s :
    match au_command a cmd op with
    | (a', Done r) => (ar_value r).1 = Applied /\ existsb (fun sc => scopeMatches sc s) (ar_affected r) = true \/ view a' s = view a s
    | (a', Failed _) => view a' s = view a s
    end;
  task_reports a t op s :
    match au_task a t op with
    | (a', Done r) => existsb (fun sc => scopeMatches sc s) (ar_affected r) = true \/ view a' s = view a s
    | (a', Failed _) => view a' s = view a s
    end;
  observe_reports a o s :
    match au_observe a o with
    | (a', Done r) => ar_value r = Applied /\ existsb (fun sc => scopeMatches sc s) (ar_affected r) = true \/ view a' s = view a s
    | (a', Failed _) => view a' s = view a s
    end;
}.

(** What a page knows from the messages: the last value of each subscription it holds. *)
Definition received (page : jsmap string json) (m : Message) : jsmap string json :=
  match m with
  | MUpdate id _ value => map_set id value page
  | MUnsubscribed _ id => map_delete id page
  | _ => page
  end.

Definition touches (affected : list LibrarySelectionScope) (s : LibrarySelection) : bool :=
  existsb (fun sc => scopeMatches sc s) affected.

(** The replacements of selections tried so far: whether each came through, and the scopes it was for. *)
Definition Tries : Type := list (bool * list LibrarySelectionScope).

(** A replacement for the selection threw, and none that was for it came through since. *)
Definition missed (tries : Tries) (s : LibrarySelection) : Prop :=
  exists before affected after, tries = before ++ (false, affected) :: after /\ touches affected s = true /\
    Forall (fun t => t.1 = true -> touches t.2 s = false) after.

Section Lane.
Context {A : Type} {AU : Authority A}.
Implicit Types (c : Core A) (a : A) (r : Request).

Definition tried c (affected : list LibrarySelectionScope) : Tries :=
  [(match (updates c affected).2 with Done _ => true | Failed _ => false end, affected)].

(** The replacement a request makes the core try, and an event. *)
Definition request_tries c r : Tries :=
  match co_closed c, co_authority c, r with
  | false, Some a, RqCommand _ op cmd =>
    match map_get op (co_operations c), au_command a cmd op with
    | None, (a', Done r) => match (ar_value r).1 with Applied => tried (set_authority c a') (ar_affected r) | Unchanged => [] end
    | _, _ => []
    end
  | false, Some a, RqTask _ op t =>
    match au_task a t op with (a', Done r) => tried (set_authority c a') (ar_affected r) | (_, Failed _) => [] end
  | false, Some a, RqObserve _ o =>
    match au_observe a o with
    | (a', Done r) => match ar_value r with Applied => tried (set_authority c a') (ar_affected r) | Unchanged => [] end
    | (_, Failed _) => []
    end
  | _, _, _ => []
  end.
Definition event_tries c (e : LibraryAuthorityEvent) : Tries :=
  match co_closed c, co_authority c, e with false, Some _, EvChanged affected => tried c affected | _, _, _ => [] end.

(** The id of the command the authority carried out for a request, if it carried one out. *)
Definition executed c r : option string :=
  match co_closed c, co_authority c, r with
  | false, Some a, RqCommand _ op cmd =>
    match map_get op (co_operations c), au_command a cmd op with
    | None, (_, Done _) => Some op
    | _, _ => None
    end
  | _, _, _ => None
  end.

Context {LAWS : AuthorityLaws A}.

(** The lane with the page at the other end: the core, the authority's queued events, what the page received and the
    replacements tried. The authority may move by itself at any time; it then queues the scopes it affected. *)
Inductive lane : Core A -> list LibraryAuthorityEvent -> jsmap string json -> Tries -> Prop :=
| lane_new instance : lane (newCore instance) [] [] []
| lane_request c q page tries r :
    lane c q page tries -> lane (dispatch c r).1 q (foldl received page (dispatch c r).2) (tries ++ request_tries c r)
| lane_moves c q page tries a a' affected :
    lane c q page tries -> co_authority c = Some a ->
    (forall s, existsb (fun sc => scopeMatches sc s) affected = true \/ view a' s = view a s) ->
    lane (set_authority c a') (q ++ [EvChanged affected]) page tries
| lane_status c q page tries s : lane c q page tries -> lane c (q ++ [EvStatus s]) page tries
| lane_event c e q page tries :
    lane c (e :: q) page tries -> lane (authorityEvent c e).1 q (foldl received page (authorityEvent c e).2) (tries ++ event_tries c e)
| lane_startClose c q page tries : lane c q page tries -> lane (startClose c) q page tries
| lane_finishClose c q page tries : lane c q page tries -> co_closed c = true -> lane (finishClose c) q page tries.
End Lane.

(** ** Lookups past a prefix *)

Lemma map_get_app_r {V} k (pre m : jsmap string V) : k ∉ map_keys pre -> map_get k (pre ++ m) = map_get k m.
Proof.
  unfold map_keys. induction pre as [|[k' v] pre IH]; cbn; [done|]. intros Hk.
  rewrite decide_False by set_solver. apply IH. set_solver.
Qed.

Lemma map_set_app_r {V} k v (pre m : jsmap string V) : k ∉ map_keys pre -> map_set k v (pre ++ m) = pre ++ map_set k v m.
Proof.
  unfold map_keys. induction pre as [|[k' v'] pre IH]; cbn; [done|]. intros Hk.
  rewrite decide_False by set_solver. by rewrite IH by set_solver.
Qed.

(** ** Selection replacement *)

Section Updates.
Context {A : Type} {AU : Authority A} {LAWS : AuthorityLaws A}.
Implicit Types (c : Core A) (a : A) (r : Request).

(** The staged values, and the subscriptions they leave: every affected one has the current value. *)
Definition staged_of a (affected : list LibrarySelectionScope) (subs : jsmap string Subscription) : list (string * json) :=
  omap (fun p => if touches affected (su_selection p.2) && negb (bool_decide (view a (su_selection p.2) = su_digest p.2))
                 then Some (p.1, view a (su_selection p.2)) else None) subs.

Definition refreshed a (affected : list LibrarySelectionScope) (s : Subscription) : Subscription :=
  if touches affected (su_selection s) then mkSub (su_selection s) (view a (su_selection s)) (view a (su_selection s)) else s.

Definition digested (subs : jsmap string Subscription) : Prop := Forall (fun p => su_digest p.2 = su_value p.2) subs.

Lemma staged_of_ext a a' affected subs : (forall s, view a' s = view a s) -> staged_of a' affected subs = staged_of a affected subs.
Proof. intros E. unfold staged_of. induction subs as [|p subs IH]; [done|]. cbn. by rewrite !E, IH. Qed.

(** Staging keeps every view, and where no read throws it stages what changed. *)
Lemma stageUpdates_spec a affected subs :
  exists a' staged, stageUpdates a affected subs = (a', staged) /\ (forall s, view a' s = view a s) /\
    forall l, staged = Done l -> l = staged_of a affected subs.
Proof.
  revert a. induction subs as [|[id s] subs IH]; intros a; [exists a, (Done []); split_and!; [done..|by intros l [= <-]]|]. cbn [stageUpdates].
  change (existsb _ affected) with (touches affected (su_selection s)). unfold staged_of. cbn [omap list_omap snd fst].
  fold (staged_of a affected subs). destruct (touches affected (su_selection s)); cbn [negb andb]; [|exact (IH a)].
  pose proof (select_reads a (su_selection s)) as Hr. pose proof (select_keeps a (su_selection s)) as Hk.
  destruct (au_select a (su_selection s)) as [a1 [value|e]]; cbn in Hr, Hk; [|by exists a1, (Failed e)]. rewrite (Hr value eq_refl).
  destruct (IH a1) as (a2 & staged & -> & H2 & H3). destruct staged as [l|e]; [|exists a2, (Failed e); split_and!; [done|intros; by rewrite H2, Hk|done]].
  eexists a2, _. split; [done|]. split; [intros; by rewrite H2, Hk|]. intros l' [= <-]. rewrite (H3 l eq_refl), (staged_of_ext a1 a) by done.
  by case_bool_decide.
Qed.

Lemma installUpdate_staged a affected subs pre :
  map_wf (pre ++ subs) -> digested subs ->
  foldl installUpdate (pre ++ subs) (staged_of a affected subs) = pre ++ ((fun p => (p.1, refreshed a affected p.2)) <$> subs).
Proof.
  revert pre. induction subs as [|[id s] subs IH]; intros pre Hwf Hd; [done|]. apply Forall_cons in Hd as [Hs Hd]. cbn in Hs.
  assert (Hk : id ∉ map_keys pre).
  { unfold map_wf, map_keys in *. rewrite fmap_app in Hwf. apply NoDup_app in Hwf as (_ & Hn & _). intros Hin. apply (Hn id Hin). by left. }
  assert (Hset : forall s', map_set id s' (pre ++ (id, s) :: subs) = (pre ++ [(id, s')]) ++ subs).
  { intros s'. rewrite map_set_app_r, <- app_assoc by done. cbn. by rewrite decide_True. }
  assert (Hwf' : forall s', map_wf ((pre ++ [(id, s')]) ++ subs)) by (intros s'; rewrite <- Hset; by apply map_wf_set).
  rewrite fmap_cons. unfold staged_of at 1. cbn [omap list_omap fst snd]. fold (staged_of a affected subs). unfold refreshed at 1.
  destruct (touches affected (su_selection s)); cbn [andb].
  - case_bool_decide as Hv; cbn [negb].
    + assert (mkSub (su_selection s) (view a (su_selection s)) (view a (su_selection s)) = s) as -> by (destruct s; cbn in *; congruence).
      change ((id, s) :: subs) with ([(id, s)] ++ subs). rewrite app_assoc, IH by done. by rewrite <- app_assoc.
    + cbn [foldl]. unfold installUpdate at 2. cbn [fst snd]. rewrite map_get_app_r by done. cbn [map_get]. rewrite decide_True by done.
      rewrite Hset, IH by done. by rewrite <- app_assoc.
  - change ((id, s) :: subs) with ([(id, s)] ++ subs). rewrite app_assoc, IH by done. by rewrite <- app_assoc.
Qed.

(** A page in step with the subscriptions stays so across the replacements it is sent. *)
Definition tracks (page : jsmap string json) (subs : jsmap string Subscription) : Prop :=
  forall id, map_get id page = su_value <$> map_get id subs.

Lemma tracks_install page subs v (staged : list (string * json)) :
  tracks page subs -> Forall (fun u => u.1 ∈ map_keys subs) staged ->
  tracks (foldl received page ((fun u => MUpdate u.1 v u.2) <$> staged)) (foldl installUpdate subs staged).
Proof.
  revert page subs. induction staged as [|[id x] staged IH]; intros page subs Ht Hin; [done|].
  apply Forall_cons in Hin as [Hid Hin]. cbn. cbn in Hid. unfold installUpdate at 2. cbn.
  apply map_get_is_Some in Hid as [s Hs]. rewrite Hs. apply IH.
  - intros id'. rewrite !map_get_set. case_decide; [done|]. apply Ht.
  - eapply Forall_impl; [exact Hin|]. cbn. intros u Hu. apply elem_of_map_keys_set. by right.
Qed.

Lemma staged_keys a affected subs : Forall (fun u => u.1 ∈ map_keys subs) (staged_of a affected subs).
Proof.
  apply Forall_forall. intros u (p & Hp & Hu)%list_elem_of_omap. case_match; [|done]. injection Hu as <-. cbn.
  apply list_elem_of_fmap. eauto.
Qed.

Lemma updates_spec c a affected :
  co_authority c = Some a -> map_wf (co_subscriptions c) -> digested (co_subscriptions c) ->
  exists a', (forall s, view a' s = view a s) /\
    ((exists e, updates c affected = (set_authority c a', Failed e)) \/
     updates c affected =
       (set_subscriptions (set_authority c a') ((fun p => (p.1, refreshed a affected p.2)) <$> co_subscriptions c),
        Done ((fun u => MUpdate u.1 (version c) u.2) <$> staged_of a affected (co_subscriptions c)))
     /\ forall page, tracks page (co_subscriptions c) ->
        tracks (foldl received page ((fun u => MUpdate u.1 (version c) u.2) <$> staged_of a affected (co_subscriptions c)))
               ((fun p => (p.1, refreshed a affected p.2)) <$> co_subscriptions c)).
Proof.
  intros Ha Hwf Hd. unfold updates. rewrite Ha.
  destruct (stageUpdates_spec a affected (co_subscriptions c)) as (a' & staged & -> & Hv & Hst). exists a'. split; [done|].
  destruct staged as [l|e]; [right|left; by exists e]. rewrite (Hst l eq_refl).
  pose proof (installUpdate_staged a affected (co_subscriptions c) [] Hwf Hd) as Hi. cbn [app] in Hi. rewrite Hi.
  split; [done|]. intros page Ht. rewrite <- Hi. apply tracks_install; [done|]. apply staged_keys.
Qed.

Lemma tried_ext c c' affected :
  co_authority c' = co_authority c -> co_subscriptions c' = co_subscriptions c -> tried c' affected = tried c affected.
Proof.
  intros E1 E2. unfold tried, updates. rewrite E1, E2. destruct (co_authority c) as [a|]; [|done]. by destruct (stageUpdates _ _ _) as [a' []].
Qed.
End Updates.

(** ** The lane's invariant *)

Section Invariant.
Context {A : Type} {AU : Authority A} {LAWS : AuthorityLaws A}.
Implicit Types (c : Core A) (a : A) (r : Request).

Definition pending (q : list LibraryAuthorityEvent) (s : LibrarySelection) : Prop :=
  exists affected, EvChanged affected ∈ q /\ touches affected s = true.

(** Every subscription holds the authority's value, or a queued event or the scopes still owed will replace it, or the
    last replacement for it threw. *)
Record lane_inv (owed : list LibrarySelectionScope) (c : Core A) (q : list LibraryAuthorityEvent) (page : jsmap string json) (tries : Tries) : Prop := {
  li_wf : map_wf (co_subscriptions c);
  li_digested : digested (co_subscriptions c);
  li_idle : co_authority c = None -> co_subscriptions c = [];
  li_client : co_client c = None -> co_authority c = None;
  li_tracks : co_closed c = false -> tracks page (co_subscriptions c);
  li_current a id s : co_closed c = false -> co_authority c = Some a -> (id, s) ∈ co_subscriptions c ->
    su_value s = view a (su_selection s) \/ pending q (su_selection s) \/ touches owed (su_selection s) = true \/ missed tries (su_selection s);
}.

Lemma inv_ext owed c c' q page tries :
  co_subscriptions c' = co_subscriptions c -> co_authority c' = co_authority c -> co_client c' = co_client c ->
  co_closed c' = co_closed c -> lane_inv owed c q page tries -> lane_inv owed c' q page tries.
Proof. intros E1 E2 E3 E4 []. split; rewrite ?E1, ?E2, ?E3, ?E4; auto. Qed.

(** Only what is said of a subscription's value depends on what is owed, queued and tried. *)
Lemma inv_weaken owed owed' c q q' page tries tries' :
  (forall s, pending q s \/ touches owed s = true \/ missed tries s -> pending q' s \/ touches owed' s = true \/ missed tries' s) ->
  lane_inv owed c q page tries -> lane_inv owed' c q' page tries'.
Proof. intros Hw []. split; auto. intros a id s Ho Ha Hin. destruct (li_current0 a id s Ho Ha Hin) as [|Hs]; [auto|]. right. by apply Hw. Qed.

(** A write that reports its scopes owes exactly their replacement. *)
Lemma inv_write affected c a a' q page tries :
  lane_inv [] c q page tries -> co_authority c = Some a ->
  (forall s, touches affected s = true \/ view a' s = view a s) -> lane_inv affected (set_authority c a') q page tries.
Proof.
  intros [] Ha Hw. split; cbn; auto; try done; [intros Hc; apply li_client0 in Hc; congruence|]. intros a2 id s Ho [= <-] Hin.
  destruct (Hw (su_selection s)) as [|E]; [auto|]. rewrite E. destruct (li_current0 a id s Ho Ha Hin) as [|[|[|]]]; auto. done.
Qed.

Lemma inv_read c a a' q page tries :
  lane_inv [] c q page tries -> co_authority c = Some a -> (forall s, view a' s = view a s) -> lane_inv [] (set_authority c a') q page tries.
Proof. intros HI Ha Hv. eapply inv_write; eauto. Qed.

(** What is missed stays so across a replacement that throws, or is for other selections. *)
Lemma missed_snoc tries affected ok s :
  missed tries s -> (ok = true -> touches affected s = false) -> missed (tries ++ [(ok, affected)]) s.
Proof.
  intros (before & aff & after & -> & Ht & Hall) Hok. exists before, aff, (after ++ [(ok, affected)]). split; [by rewrite <- app_assoc|].
  split; [done|]. apply Forall_app. split; [done|]. by apply Forall_singleton.
Qed.

Lemma missed_now tries affected s : touches affected s = true -> missed (tries ++ [(false, affected)]) s.
Proof. intros Ht. exists tries, affected, []. split_and!; [done|done|constructor]. Qed.

Lemma inv_updates affected c a q page tries :
  lane_inv affected c q page tries -> co_authority c = Some a ->
  lane_inv [] (tryUpdates c affected).1 q (foldl received page (tryUpdates c affected).2) (tries ++ tried c affected).
Proof.
  intros [] Ha. unfold tryUpdates, tried. destruct (updates_spec c a affected Ha li_wf0 li_digested0) as (a' & Hv & [[e ->]|[-> Ht]]); cbn.
  { split; cbn; auto; try done; [intros Hc; apply li_client0 in Hc; congruence|]. intros a2 id s Ho [= <-] Hin. rewrite Hv.
    destruct (li_current0 a id s Ho Ha Hin) as [|[|[|]]]; auto using missed_now. do 3 right. by apply missed_snoc. }
  split; cbn; try done.
  - unfold map_wf, map_keys in *. by rewrite <- list_fmap_compose.
  - apply Forall_forall. intros p ([id s] & -> & Hin)%list_elem_of_fmap. cbn. unfold refreshed. case_match; [done|].
    by apply (proj1 (Forall_forall _ _) li_digested0 (id, s)).
  - intros Hc. apply li_client0 in Hc. congruence.
  - auto.
  - intros a2 id s Ho [= <-] ([id' s'] & [= -> ->] & Hin)%list_elem_of_fmap. cbn. unfold refreshed.
    destruct (touches affected (su_selection s')) eqn:E; cbn; [left; by rewrite Hv|].
    rewrite Hv. destruct (li_current0 a id' s' Ho Ha Hin) as [|[|[|]]]; auto using missed_snoc. congruence.
Qed.

Lemma received_reply page m (messages : list Message) :
  (forall p, received p m = p) -> foldl received page (messages ++ [m]) = foldl received page messages.
Proof. intros Hm. rewrite foldl_app. cbn. apply Hm. Qed.

Lemma inv_applied (outcome : Change) (affected : list LibrarySelectionScope) c a q page tries :
  co_authority c = Some a -> lane_inv (match outcome with Applied => affected | Unchanged => [] end) c q page tries ->
  let o := match outcome with Applied => tryUpdates c affected | Unchanged => (c, []) end in
  lane_inv [] o.1 q (foldl received page o.2) (tries ++ match outcome with Applied => tried c affected | Unchanged => [] end).
Proof. intros Ha HI. destruct outcome; cbn; [by apply (inv_updates _ _ a)|by rewrite app_nil_r]. Qed.

Definition replies (o : answer (list Message)) : list Message := match o with Done m => m | Failed _ => [] end.

Lemma inv_hello c q page tries requestId h :
  lane_inv [] c q page tries -> lane_inv [] (hello c requestId h).1 q (foldl received page (hello c requestId h).2) tries.
Proof.
  intros HI. unfold hello. destruct (co_client c) as [client|] eqn:Ec; [by case_bool_decide|].
  destruct (au_open h) as [[a|]|[| |]]; [|done..]. destruct (au_membership a) as [a' m]. cbn.
  destruct HI. specialize (li_idle0 (li_client0 Ec)). split; cbn; try done; rewrite ?li_idle0; try done.
  intros a2 id s _ _ Hin. by apply elem_of_nil in Hin.
Qed.

Lemma inv_subscribe c a q page tries requestId id selection :
  lane_inv [] c q page tries -> co_authority c = Some a ->
  lane_inv [] (subscribe c a requestId id selection).1 q (foldl received page (replies (subscribe c a requestId id selection).2)) tries.
Proof.
  intros HI Ha. unfold subscribe. pose proof (select_reads a selection) as Hr. pose proof (select_keeps a selection) as Hk.
  destruct (au_select a selection) as [a' [value|e]]; cbn in Hr, Hk |- *; [|by eapply inv_read]. rewrite (Hr value eq_refl).
  apply (inv_read _ _ a' _ _ _ HI) in Ha as HI'; [|done]. destruct HI'. split; cbn in *; auto with jsmap; try done.
  - apply Forall_forall. intros p [->|Hin]%elem_of_map_set; [done|]. by apply (proj1 (Forall_forall _ _) li_digested0).
  - intros Ho id'. rewrite !map_get_set. case_decide; [done|]. by apply li_tracks0.
  - intros a2 id' s Ho [= <-] [[= -> ->]|Hin]%elem_of_map_set; [left; cbn; by rewrite Hk|]. by eapply li_current0.
Qed.

Lemma inv_unsubscribe c q page tries id :
  lane_inv [] c q page tries -> lane_inv [] (set_subscriptions c (map_delete id (co_subscriptions c))) q (map_delete id page) tries.
Proof.
  intros []. split; cbn; auto with jsmap.
  - rewrite map_delete_filter. apply Forall_forall. intros p [_ Hin]%list_elem_of_filter.
    by apply (proj1 (Forall_forall _ _) li_digested0).
  - intros Ha. by rewrite (li_idle0 Ha).
  - intros Ho id'. rewrite !map_get_delete. case_decide; [done|]. by apply li_tracks0.
  - intros a id' s Ho Ha. rewrite map_delete_filter. intros [_ Hin]%list_elem_of_filter. eauto.
Qed.

Lemma inv_command c a q page tries requestId op cmd :
  lane_inv [] c q page tries -> co_authority c = Some a -> co_closed c = false ->
  lane_inv [] (command c a requestId op cmd).1 q (foldl received page (replies (command c a requestId op cmd).2))
    (tries ++ request_tries c (RqCommand requestId op cmd)).
Proof.
  intros HI Ha Ho. unfold command, request_tries. rewrite Ha, Ho. destruct (map_get op _) as [done_|]; [rewrite app_nil_r; by case_bool_decide|].
  pose proof (fun s => command_reports a cmd op s) as Hr.
  destruct (au_command a cmd op) as [a' [[[outcome delivery] affected]|e]]; cbn in *; [|rewrite app_nil_r; by eapply inv_read].
  match goal with |- context [match outcome with Applied => tryUpdates ?c0 _ | Unchanged => _ end] => set (c1 := c0) end.
  pose proof (inv_applied outcome affected c1 a' q page tries) as H. cbn in H.
  rewrite (tried_ext (set_authority c a') c1) in H by (by destruct outcome).
  destruct (match outcome with Applied => tryUpdates c1 affected | Unchanged => (c1, []) end) as [c2 ms] eqn:E.
  cbn. rewrite received_reply by done. apply H; [by destruct outcome|].
  eapply (inv_ext _ (set_authority c a')); [by destruct outcome..|].
  eapply inv_write; [done..|]. intros s. destruct (Hr s) as [[-> ?]|]; auto.
Qed.

Lemma inv_observe c a q page tries requestId o :
  lane_inv [] c q page tries -> co_authority c = Some a -> co_closed c = false ->
  lane_inv [] (observe c a requestId o).1 q (foldl received page (replies (observe c a requestId o).2))
    (tries ++ request_tries c (RqObserve requestId o)).
Proof.
  intros HI Ha Ho. unfold observe, request_tries. rewrite Ha, Ho. pose proof (fun s => observe_reports a o s) as Hr.
  destruct (au_observe a o) as [a' [[outcome affected]|e]]; cbn in *; [|rewrite app_nil_r; by eapply inv_read].
  match goal with |- context [match outcome with Applied => tryUpdates ?c0 _ | Unchanged => _ end] => set (c1 := c0) end.
  pose proof (inv_applied outcome affected c1 a' q page tries) as H. cbn in H.
  rewrite (tried_ext (set_authority c a') c1) in H by (by destruct outcome).
  destruct (match outcome with Applied => tryUpdates c1 affected | Unchanged => (c1, []) end) as [c2 ms] eqn:E.
  cbn. rewrite received_reply by done. apply H; [by destruct outcome|].
  eapply (inv_ext _ (set_authority c a')); [by destruct outcome..|].
  eapply inv_write; [done..|]. intros s. destruct (Hr s) as [[-> ?]|]; auto.
Qed.

Lemma inv_task c a q page tries requestId op t :
  lane_inv [] c q page tries -> co_authority c = Some a -> co_closed c = false ->
  lane_inv [] (task c a requestId op t).1 q (foldl received page (replies (task c a requestId op t).2))
    (tries ++ request_tries c (RqTask requestId op t)).
Proof.
  intros HI Ha Ho. unfold task, request_tries. rewrite Ha, Ho. pose proof (fun s => task_reports a t op s) as Hr.
  destruct (au_task a t op) as [a' [[result affected]|e]]; cbn in *; [|rewrite app_nil_r; by eapply inv_read].
  pose proof (inv_updates affected (bump (set_authority c a')) a' q page tries) as H.
  rewrite (tried_ext (set_authority c a') (bump (set_authority c a'))) in H by done.
  destruct (tryUpdates _ affected) as [c2 ms]. cbn in *. rewrite received_reply by done. apply H; [|done].
  eapply (inv_ext _ (set_authority c a')); [done..|]. by eapply inv_write.
Qed.

Lemma inv_serve c a q page tries r :
  lane_inv [] c q page tries -> co_authority c = Some a -> co_closed c = false ->
  lane_inv [] (serve c a r).1 q (foldl received page (replies (serve c a r).2)) (tries ++ request_tries c r).
Proof.
  intros HI Ha Ho. destruct r; cbn [serve]; try (by apply inv_command || by apply inv_task || by apply inv_observe);
    unfold request_tries; rewrite Ho, Ha, app_nil_r.
  - pose proof (inv_hello c q page tries requestId hello0 HI). by destruct (hello c _ _).
  - by apply inv_subscribe.
  - by apply inv_unsubscribe.
  - unfold ServiceCore.query. pose proof (query_reads a query0) as Hq. destruct (au_query a query0) as [a' []]; cbn in *; by eapply inv_read.
Qed.

Lemma inv_dispatch c q page tries r :
  lane_inv [] c q page tries -> lane_inv [] (dispatch c r).1 q (foldl received page (dispatch c r).2) (tries ++ request_tries c r).
Proof.
  intros HI. unfold dispatch. destruct (co_closed c) eqn:Ho; [unfold request_tries; by rewrite Ho, app_nil_r|].
  assert (Hs : forall a, co_authority c = Some a ->
    let o := match serve c a r with
             | (c', Done m) => (c', m)
             | (c', Failed e) => (c', [errorReply (authorityFailure e "library service request failed") (Some (request_id r)) (error_subscription r)])
             end in lane_inv [] o.1 q (foldl received page o.2) (tries ++ request_tries c r)).
  { intros a Ha. pose proof (inv_serve c a q page tries r HI Ha Ho) as H. by destruct (serve c a r) as [? []]. }
  destruct r; try (destruct (co_authority c) eqn:Ha; [by apply Hs|unfold request_tries; by rewrite Ho, Ha, app_nil_r]).
  assert (Hn : request_tries c (RqHello requestId hello0) = []) by (unfold request_tries; rewrite Ho; by destruct (co_authority c)).
  rewrite Hn, app_nil_r. by apply inv_hello.
Qed.

Lemma inv_event c e q page tries :
  lane_inv [] c (e :: q) page tries ->
  lane_inv [] (authorityEvent c e).1 q (foldl received page (authorityEvent c e).2) (tries ++ event_tries c e).
Proof.
  intros HI. unfold authorityEvent, event_tries. destruct (co_closed c) eqn:Hc; [rewrite app_nil_r; destruct HI; split; cbn; auto; intros; congruence|].
  destruct (co_authority c) as [a|] eqn:Ha; [|rewrite app_nil_r; destruct HI; split; cbn; auto; intros; congruence].
  assert (HI' : lane_inv (match e with EvChanged affected => affected | _ => [] end) c q page tries).
  { eapply inv_weaken, HI. intros s [(aff & Hq & Ht)|[|]]; auto; [|done].
    apply elem_of_cons in Hq as [<-|Hq]; [auto|]. left. by exists aff. }
  destruct e as [affected|]; [|by rewrite app_nil_r]. rewrite <- (tried_ext c (bump c)) by done.
  eapply inv_updates; [|exact Ha]. by eapply inv_ext, HI'.
Qed.

Lemma lane_inv_holds c q page tries : lane c q page tries -> lane_inv [] c q page tries.
Proof.
  induction 1 as [instance|c q page tries r _ IH|c q page tries a a' affected _ IH Ha Hm|c q page tries s _ IH|c e q page tries _ IH|c q page tries _ IH|c q page tries _ IH Hc].
  - split; cbn; try done; [constructor|constructor].
  - by apply inv_dispatch.
  - eapply inv_weaken, (inv_write affected c a a' q page tries IH Ha Hm). intros s [(aff & Hq & Ht)|[Ht|]]; [left|left|auto].
    + exists aff. split; [|done]. apply elem_of_app. by left.
    + exists affected. split; [|done]. apply elem_of_app. right. by left.
  - eapply inv_weaken, IH. intros s' [(aff & Hq & Ht)|]; [|auto]. left. exists aff. split; [|done]. apply elem_of_app. by left.
  - by apply inv_event.
  - destruct IH. split; auto; cbn; congruence.
  - split; cbn; try done; [constructor|constructor|congruence].
Qed.
End Invariant.

(** ** Command deduplication *)

(** The last [n] of a list. *)
Definition last_n {T} (n : nat) (l : list T) : list T := drop (length l - n) l.

Lemma last_n_app {T} n (l k : list T) : (n <= length l)%nat -> last_n n (last_n n l ++ k) = last_n n (l ++ k).
Proof.
  intros Hn. unfold last_n. rewrite !length_app, length_drop.
  replace (l ++ k) with (take (length l - n) l ++ (drop (length l - n) l ++ k)) by (by rewrite app_assoc, take_drop).
  rewrite (drop_app_ge (take _ _)) by (rewrite length_take; lia). f_equal. rewrite length_take. lia.
Qed.

Lemma last_n_short {T} n (l : list T) : (length l <= n)%nat -> last_n n l = l.
Proof. intros. unfold last_n. replace (length l - n)%nat with 0%nat by lia. done. Qed.

Lemma last_n_idem_app {T} n (l k : list T) : last_n n (last_n n l ++ k) = last_n n (l ++ k).
Proof. destruct (decide (length l <= n)%nat); [by rewrite (last_n_short n l)|]. apply last_n_app. lia. Qed.

Lemma length_last_n {T} n (l : list T) : (length (last_n n l) <= n)%nat.
Proof. unfold last_n. rewrite length_drop. lia. Qed.



Lemma last_n_suffix {T} n (l k : list T) : (length k <= n)%nat -> last_n n (l ++ k) = last_n (n - length k) l ++ k.
Proof. intros. unfold last_n. rewrite length_app, drop_app_le by lia. f_equal. f_equal. lia. Qed.

Section Deduplication.
Context {A : Type} {AU : Authority A}.
Implicit Types (c : Core A) (a : A) (r : Request).

(** The bounded history: the most recent [OPERATION_HISTORY_LIMIT] operations, oldest first. *)
Definition remembers (ops : jsmap string CompletedOperation) : Prop := map_wf ops /\ (length ops <= OPERATION_HISTORY_LIMIT)%nat.

Lemma rememberOperation_fresh ops op x :
  remembers ops -> map_get op ops = None ->
  rememberOperation ops op x = last_n OPERATION_HISTORY_LIMIT (ops ++ [(op, x)]) /\ remembers (rememberOperation ops op x).
Proof.
  intros [Hwf Hl] Hop. apply map_get_None in Hop. pose proof (map_wf_set op x ops Hwf) as Hwf'.
  unfold rememberOperation. rewrite map_set_fresh in * by done. rewrite length_app. cbn [length].
  destruct (Nat.leb_spec (length ops + 1) OPERATION_HISTORY_LIMIT).
  - rewrite last_n_short by (rewrite length_app; cbn; lia). split; [done|]. split; [done|]. rewrite length_app. cbn. lia.
  - destruct ops as [|[k v] ops]; [cbn in *; unfold OPERATION_HISTORY_LIMIT in *; lia|]. cbn [app map_delete].
    rewrite decide_True by done. cbn [length] in *.
    assert (Hd : map_delete k (ops ++ [(op, x)]) = ops ++ [(op, x)]).
    { rewrite map_delete_filter. apply filter_all. intros p Hp. unfold map_wf, map_keys in Hwf'. cbn in Hwf'.
      apply NoDup_cons in Hwf' as [Hk _]. intros <-. apply Hk. apply list_elem_of_fmap. eauto. }
    rewrite Hd. split; [unfold last_n; cbn [app length]; rewrite length_app; cbn [length]|split].
    + replace (S (length ops + 1) - OPERATION_HISTORY_LIMIT)%nat with 1%nat by lia. done.
    + unfold map_wf, map_keys in *. cbn in Hwf'. by apply NoDup_cons in Hwf' as [_ ?].
    + rewrite length_app. cbn. lia.
Qed.

(** A run of the lane from one state to another, with the ids of the commands the authority carried out, in order. *)
Inductive steps (c : Core A) : list string -> Core A -> Prop :=
| st_refl : steps c [] c
| st_request ids c' r : steps c ids c' -> steps c (ids ++ option_list (executed c' r)) (dispatch c' r).1
| st_moves ids c' a : steps c ids c' -> steps c ids (set_authority c' a)
| st_event ids c' e : steps c ids c' -> steps c ids (authorityEvent c' e).1
| st_startClose ids c' : steps c ids c' -> steps c ids (startClose c')
| st_finishClose ids c' : steps c ids c' -> co_closed c' = true -> steps c ids (finishClose c').

Lemma tryUpdates_frame c affected :
  co_operations (tryUpdates c affected).1 = co_operations c /\ co_closed (tryUpdates c affected).1 = co_closed c
  /\ co_revision (tryUpdates c affected).1 = co_revision c /\ co_client (tryUpdates c affected).1 = co_client c.
Proof.
  unfold tryUpdates, updates. destruct (co_authority c); [|done]. by destruct (stageUpdates _ _ _) as [? []].
Qed.

Definition carried c r (c' : Core A) : Prop :=
  match executed c r with
  | None => co_operations c' = co_operations c
  | Some op => map_get op (co_operations c) = None /\ exists x, co_operations c' = rememberOperation (co_operations c) op x
  end.

Lemma command_carried c a requestId op cmd :
  co_authority c = Some a -> co_closed c = false ->
  carried c (RqCommand requestId op cmd) (command c a requestId op cmd).1 /\ co_closed (command c a requestId op cmd).1 = co_closed c.
Proof.
  intros Ha Ho. unfold carried, executed, command. rewrite Ha, Ho.
  destruct (map_get op (co_operations c)) eqn:Eo; [by case_bool_decide|].
  destruct (au_command a cmd op) as [a' [[[outcome delivery] affected]|e]]; cbn; [|done].
  match goal with |- context [match outcome with Applied => tryUpdates ?c0 _ | Unchanged => _ end] => set (c1 := c0) end.
  assert (co_operations (match outcome with Applied => tryUpdates c1 affected | Unchanged => (c1, []) end).1 = co_operations c1
          /\ co_closed (match outcome with Applied => tryUpdates c1 affected | Unchanged => (c1, []) end).1 = co_closed c1) as [H1 H2].
  { destruct outcome; [|done]. by destruct (tryUpdates_frame c1 affected) as (? & ? & _). }
  destruct (match outcome with Applied => tryUpdates c1 affected | Unchanged => (c1, []) end) as [c2 ms]. cbn in *. rewrite H1, H2.
  split; [|by destruct outcome]. split; [done|]. exists (mkOperation cmd outcome delivery (version (match outcome with
    | Applied => bump (set_authority c a') | Unchanged => set_authority c a' end))). by destruct outcome.
Qed.

Lemma hello_frame c requestId h :
  co_operations (hello c requestId h).1 = co_operations c /\ co_closed (hello c requestId h).1 = co_closed c.
Proof.
  unfold hello. destruct (co_client c); [by case_bool_decide|]. destruct (au_open h) as [[a|]|[| |]]; [|done..].
  by destruct (au_membership a).
Qed.

Lemma observe_frame c a requestId o :
  co_operations (observe c a requestId o).1 = co_operations c /\ co_closed (observe c a requestId o).1 = co_closed c.
Proof.
  unfold observe. destruct (au_observe a o) as [a' [[[] affected]|]]; cbn; [|done..].
  destruct (tryUpdates_frame (bump (set_authority c a')) affected) as (? & ? & _). by destruct (tryUpdates _ _).
Qed.

Lemma task_frame c a requestId op t :
  co_operations (task c a requestId op t).1 = co_operations c /\ co_closed (task c a requestId op t).1 = co_closed c.
Proof.
  unfold task. destruct (au_task a t op) as [a' [[result affected]|]]; cbn; [|done].
  destruct (tryUpdates_frame (bump (set_authority c a')) affected) as (? & ? & _). by destruct (tryUpdates _ _).
Qed.

Lemma dispatch_carried c r : carried c r (dispatch c r).1 /\ co_closed (dispatch c r).1 = co_closed c.
Proof.
  unfold dispatch. destruct (co_closed c) eqn:Ho; [by unfold carried, executed; rewrite Ho|].
  destruct (co_authority c) as [a|] eqn:Ha; 
    [|unfold carried, executed; rewrite Ho, Ha; destruct r; [|done..]; pose proof (hello_frame c requestId hello0) as H; by rewrite Ho in H].
  destruct r as [i h|i s sel|i s|i op cmd|i q|i op t|i o]; cbn [serve];
    try (unfold carried, executed; rewrite Ho, Ha).
  - pose proof (hello_frame c i h) as H. by rewrite Ho in H.
  - unfold subscribe. by destruct (au_select a sel) as [? []].
  - done.
  - pose proof (command_carried c a i op cmd Ha Ho) as H. unfold carried, executed in H. rewrite Ho, Ha in H.
    by destruct (command c a i op cmd) as [? []].
  - unfold query. by destruct (au_query a q) as [? []].
  - pose proof (task_frame c a i op t) as H. rewrite Ho in H. by destruct (task c a i op t) as [? []].
  - pose proof (observe_frame c a i o) as H. rewrite Ho in H. by destruct (observe c a i o) as [? []].
Qed.

Lemma event_frame c e :
  co_operations (authorityEvent c e).1 = co_operations c /\ co_closed (authorityEvent c e).1 = co_closed c.
Proof.
  unfold authorityEvent. destruct (co_closed c) eqn:Ho; [done|]. destruct (co_authority c); [|done].
  destruct e as [affected|]; [|done]. destruct (tryUpdates_frame (bump c) affected) as (-> & -> & _). done.
Qed.

Lemma executed_open c r op : executed c r = Some op -> co_closed c = false.
Proof. unfold executed. by destruct (co_closed c). Qed.

(** While the lane is open the history is the most recent operations, those of before the run included. *)
Lemma steps_history c ids c' :
  remembers (co_operations c) -> steps c ids c' -> co_closed c' = false ->
  co_closed c = false /\ remembers (co_operations c')
  /\ exists entries, entries.*1 = ids /\ co_operations c' = last_n OPERATION_HISTORY_LIMIT (co_operations c ++ entries).
Proof.
  intros Hr. induction 1 as [|ids c' r _ IH|ids c' a _ IH|ids c' e _ IH|ids c' _ IH|ids c' _ IH Hc]; intros Ho.
  - split; [done|]. split; [done|]. exists []. split; [done|]. rewrite app_nil_r, last_n_short; [done|apply Hr].
  - destruct (dispatch_carried c' r) as [Hd Hc]. rewrite Hc in Ho. destruct (IH Ho) as (H1 & H2 & entries & H3 & H4).
    split; [done|]. unfold carried in Hd. destruct (executed c' r) as [op|]; cbn [option_list].
    + destruct Hd as (Hn & x & Hx). destruct (rememberOperation_fresh _ _ x H2 Hn) as [Hf Hm]. rewrite Hx. split; [done|].
      exists (entries ++ [(op, x)]). rewrite fmap_app, H3. split; [done|]. by rewrite Hf, H4, last_n_idem_app, app_assoc.
    + rewrite Hd, app_nil_r. eauto.
  - apply IH, Ho.
  - destruct (event_frame c' e) as [-> Hc]. rewrite Hc in Ho. auto.
  - done.
  - cbn in Ho. congruence.
Qed.
End Deduplication.


Section Retry.
Context {A : Type} {AU : Authority A}.
Implicit Types (c : Core A) (a : A).

Lemma dispatch_executed c requestId op cmd :
  executed c (RqCommand requestId op cmd) = Some op ->
  exists outcome delivery v,
    last (dispatch c (RqCommand requestId op cmd)).2 = Some (MCommandResult requestId op outcome delivery v)
    /\ map_get op (co_operations c) = None
    /\ co_operations (dispatch c (RqCommand requestId op cmd)).1 = rememberOperation (co_operations c) op (mkOperation cmd outcome delivery v).
Proof.
  unfold executed, dispatch. destruct (co_closed c); [done|]. destruct (co_authority c) as [a|]; [|done]. cbn [serve]. unfold command.
  destruct (map_get op (co_operations c)) eqn:Eo; [done|].
  destruct (au_command a cmd op) as [a' [[[outcome delivery] affected]|e]]; cbn; [|done]. intros _. exists outcome, delivery.
  destruct outcome; cbn; [|by eexists]. eexists.
  match goal with |- context [tryUpdates ?c0 affected] => set (c1 := c0) end.
  destruct (tryUpdates_frame c1 affected) as [H _]. destruct (tryUpdates c1 affected) as [c2 ms]. cbn in *. by rewrite last_snoc, H.
Qed.

Lemma map_get_suffix {V} (pre suf : jsmap string V) k v :
  map_wf (pre ++ (k, v) :: suf) -> map_get k (pre ++ (k, v) :: suf) = Some v.
Proof. intros Hwf. apply map_elem_get; [done|]. apply elem_of_app. right. by left. Qed.

Lemma dispatch_known c requestId op cmd o :
  co_closed c = false -> is_Some (co_authority c) -> map_get op (co_operations c) = Some o ->
  dispatch c (RqCommand requestId op cmd) =
    (c, [if bool_decide (op_command o = cmd) then MCommandResult requestId op (op_outcome o) (op_delivery o) (op_version o)
         else errorReply (failure "conflict" "operationId was already used for another command" false) (Some requestId) None]).
Proof.
  intros Ho [a Ha] Hop. unfold dispatch. rewrite Ho, Ha. cbn [serve]. unfold command. rewrite Hop.
  do 2 case_bool_decide; try done; by subst.
Qed.

(** The steps after a carried-out command, fewer than the history holds, keep its result. *)
Lemma steps_remember c1 ids c2 ops op x :
  co_operations c1 = rememberOperation ops op x -> remembers ops -> map_get op ops = None ->
  steps c1 ids c2 -> (length ids < OPERATION_HISTORY_LIMIT)%nat -> co_closed c2 = false -> map_get op (co_operations c2) = Some x.
Proof.
  intros E Hr Hn Hs Hl Ho. destruct (rememberOperation_fresh ops op x Hr Hn) as [Hf Hm]. rewrite <- E in Hm.
  destruct (steps_history c1 ids c2 Hm Hs Ho) as (_ & [Hwf _] & entries & <- & E2). rewrite length_fmap in Hl.
  rewrite E2 in *. rewrite E, Hf in *. rewrite last_n_idem_app, <- app_assoc in *. cbn [app] in *.
  rewrite last_n_suffix in * by (cbn; lia). by apply map_get_suffix.
Qed.
End Retry.

(** retrying a command is safe: once a command was carried out, and until 1024 others have been, the same
    operation id with the same command answers the recorded outcome, delivery and version, with another command it
    answers a conflict, and neither reaches the authority nor changes the service. *)
Lemma command_retry {A} `{!Authority A} (instance : string) (ids0 : list string) (c : Core A) requestId op cmd :
  steps (newCore instance) ids0 c -> executed c (RqCommand requestId op cmd) = Some op ->
  exists outcome delivery v,
    last (dispatch c (RqCommand requestId op cmd)).2 = Some (MCommandResult requestId op outcome delivery v)
    /\ forall ids c2 requestId' cmd',
       steps (dispatch c (RqCommand requestId op cmd)).1 ids c2 -> (length ids < 1024)%nat ->
       co_closed c2 = false -> is_Some (co_authority c2) ->
       dispatch c2 (RqCommand requestId' op cmd') =
         (c2, [if bool_decide (cmd = cmd') then MCommandResult requestId' op outcome delivery v
               else errorReply (failure "conflict" "operationId was already used for another command" false) (Some requestId') None]).
Proof.
  intros Hs Ex. destruct (dispatch_executed c requestId op cmd Ex) as (outcome & delivery & v & Hl & Hn & Ho).
  exists outcome, delivery, v. split; [done|]. intros ids c2 requestId' cmd' Hs2 Hlen Hopen Hauth.
  destruct (steps_history (newCore instance) ids0 c ltac:(split; [constructor|cbn; lia]) Hs (executed_open _ _ _ Ex)) as (_ & Hr & _).
  by rewrite (dispatch_known c2 _ _ _ (mkOperation cmd outcome delivery v)) by eauto using steps_remember.
Qed.

(** C29: a page sees the library: in every state the open lane can reach, whichever reads of the library throw, the page
    holds exactly the subscriptions the service does, and the last value it was sent for each is what selecting it
    would read now ([view]), unless an event the authority has queued affects it, or a replacement for it threw and
    none for it came through since. *)
Theorem page_sees_library {A} `{AL : AuthorityLaws A} (c : Core A) (a : A) q page tries id :
  lane c q page tries -> co_closed c = false -> co_authority c = Some a ->
  match map_get id (co_subscriptions c) with
  | None => map_get id page = None
  | Some s => map_get id page = Some (view a (su_selection s)) \/ pending q (su_selection s) \/ missed tries (su_selection s)
  end.
Proof.
  intros Hl Ho Ha. destruct (lane_inv_holds c q page tries Hl). specialize (li_tracks0 Ho id).
  destruct (map_get id (co_subscriptions c)) as [s|] eqn:E; [|done]. cbn in li_tracks0.
  destruct (li_current0 a id s Ho Ha (map_get_elem _ _ _ E)) as [Hv|[|[|]]]; [|by auto|done|by auto]. left. by rewrite li_tracks0, Hv.
Qed.

(** ** Failed replacements, and versions *)

Section Frames.
Context {A : Type} {AU : Authority A}.
Implicit Types (c : Core A) (a : A).

Lemma stageUpdates_touched a affected subs a' staged :
  stageUpdates a affected subs = (a', Done staged) ->
  Forall (fun u => exists s, (u.1, s) ∈ subs /\ touches affected (su_selection s) = true) staged.
Proof.
  revert a a' staged. induction subs as [|[id s] subs IH]; intros a a' staged; cbn; [intros [= _ <-]; constructor|].
  change (existsb _ affected) with (touches affected (su_selection s)).
  assert (Hweak : forall l, Forall (fun u : string * json => exists s, (u.1, s) ∈ subs /\ touches affected (su_selection s) = true) l ->
                            Forall (fun u => exists s', (u.1, s') ∈ (id, s) :: subs /\ touches affected (su_selection s') = true) l).
  { intros l Hl. eapply Forall_impl; [exact Hl|]. intros u (s' & ? & ?). exists s'. split; [by right|done]. }
  destruct (touches affected (su_selection s)) eqn:Et; cbn [negb]; [|eauto].
  destruct (au_select a (su_selection s)) as [a1 [v|]]; [|done].
  destruct (stageUpdates a1 affected subs) as [a2 [st|]] eqn:Es; [|done]. intros [= _ <-].
  case_bool_decide; [eauto|]. constructor; [|eauto]. exists s. split; [by left|done].
Qed.

Lemma foldl_install_other subs staged id :
  id ∉ staged.*1 -> map_get id (foldl installUpdate subs staged) = map_get id subs.
Proof.
  revert subs. induction staged as [|[id' x] staged IH]; intros subs Hn; [done|]. cbn in *. rewrite IH by set_solver.
  unfold installUpdate. cbn. destruct (map_get id' subs); [|done]. apply map_get_set_ne. set_solver.
Qed.

(** Replacements leave alone the subscriptions the scopes do not touch. *)
Lemma tryUpdates_other c affected id s :
  map_wf (co_subscriptions c) -> map_get id (co_subscriptions c) = Some s -> touches affected (su_selection s) = false ->
  map_get id (co_subscriptions (tryUpdates c affected).1) = Some s.
Proof.
  intros Hwf Hs Ht. unfold tryUpdates, updates. destruct (co_authority c) as [a|]; [|done].
  destruct (stageUpdates a affected (co_subscriptions c)) as [a' [staged|]] eqn:E; cbn; [|done].
  rewrite foldl_install_other; [done|]. intros ([id' x] & -> & Hin)%list_elem_of_fmap.
  apply stageUpdates_touched in E. apply (proj1 (Forall_forall _ _) E) in Hin as (s' & Hin & Ht'). cbn in Hin.
  apply (map_elem_get _ _ _ Hwf) in Hin. cbn in Hs. congruence.
Qed.

Definition update_current c (m : Message) : Prop :=
  match m with MUpdate _ v _ => ve_revision v = co_revision c /\ ve_instance v = co_instance c | _ => True end.

(** A step of the lane: the revision moves forward only, and the updates it sends carry the new one. *)
Definition versioned c (c' : Core A) (messages : list Message) : Prop :=
  co_revision c <= co_revision c' /\ co_instance c' = co_instance c /\ Forall (update_current c') messages.

Lemma versioned_updates c affected : versioned c (tryUpdates c affected).1 (tryUpdates c affected).2.
Proof.
  unfold versioned, tryUpdates, updates. destruct (co_authority c); [|done]. destruct (stageUpdates _ _ _) as [a' [st|]]; cbn; [|done].
  split; [lia|]. split; [done|]. apply Forall_forall. by intros m (u & -> & _)%list_elem_of_fmap.
Qed.

Lemma versioned_reply c c1 c' messages m :
  co_revision c <= co_revision c1 -> co_instance c1 = co_instance c -> versioned c1 c' messages -> update_current c' m ->
  versioned c c' (messages ++ [m]).
Proof. intros H1 H2 (H3 & H4 & H5) Hm. split; [lia|]. split; [congruence|]. apply Forall_app. auto. Qed.

Lemma versioned_same c c' m : co_revision c' = co_revision c -> co_instance c' = co_instance c -> update_current c' m -> versioned c c' [m].
Proof. intros H1 H2 Hm. split; [lia|]. split; [done|]. by constructor. Qed.

Lemma versioned_applied (outcome : Change) c affected m :
  (forall c', update_current c' m) ->
  let o := match outcome with Applied => tryUpdates c affected | Unchanged => (c, []) end in versioned c o.1 (o.2 ++ [m]).
Proof.
  intros Hm. destruct outcome; cbn; [|by apply (versioned_same c c)].
  eapply versioned_reply; [done..|apply versioned_updates|done].
Qed.
End Frames.

Section Versions.
Context {A : Type} {AU : Authority A}.
Implicit Types (c : Core A) (a : A).

Lemma versioned_dispatch c r : versioned c (dispatch c r).1 (dispatch c r).2.
Proof.
  unfold dispatch. destruct (co_closed c); [by apply versioned_same|].
  assert (Hh : forall i h, versioned c (hello c i h).1 (hello c i h).2).
  { intros i h. unfold hello. destruct (co_client c); [case_bool_decide; by apply versioned_same|].
    destruct (au_open h) as [[a|]|[| |]]; try by apply versioned_same. destruct (au_membership a). by apply versioned_same. }
  destruct (co_authority c) as [a|]; [|destruct r; try (by apply versioned_same); apply Hh].
  destruct r as [i h|i s sel|i s|i op cmd|i q|i op t|i o]; cbn [serve].
  - apply Hh.
  - unfold subscribe. destruct (au_select a sel) as [? []]; [|by apply versioned_same]. split; cbn; [lia|]. repeat constructor; done.
  - by apply versioned_same.
  - unfold command. destruct (map_get op _); [case_bool_decide; by apply versioned_same|].
    destruct (au_command a cmd op) as [a' [[[outcome delivery] affected]|e]]; cbn; [|by apply versioned_same].
    match goal with |- context [match outcome with Applied => tryUpdates ?c0 _ | Unchanged => _ end] => set (c1 := c0) end.
    match goal with |- context [MCommandResult ?a ?b ?x ?d ?e] => pose proof (versioned_applied outcome c1 affected (MCommandResult a b x d e) ltac:(done)) as H end.
    assert (co_revision c <= co_revision c1 /\ co_instance c1 = co_instance c) as [H1 H2] by (destruct outcome; cbn; split; [lia|done|lia|done]).
    cbn in H. destruct (match outcome with Applied => tryUpdates c1 affected | Unchanged => (c1, []) end) as [c2 ms].
    destruct H as (H3 & H4 & H5). cbn in *. split; [lia|]. split; [congruence|done].
  - unfold query. destruct (au_query a q) as [? []]; by apply versioned_same.
  - unfold task. destruct (au_task a t op) as [a' [[result affected]|e]]; cbn; [|by apply versioned_same].
    pose proof (versioned_updates (bump (set_authority c a')) affected) as H. destruct (tryUpdates _ affected) as [c2 ms].
    eapply versioned_reply; [| |exact H|done]; cbn; [lia|done].
  - unfold observe. destruct (au_observe a o) as [a' [[outcome affected]|e]]; cbn; [|by apply versioned_same].
    match goal with |- context [match outcome with Applied => tryUpdates ?c0 _ | Unchanged => _ end] => set (c1 := c0) end.
    match goal with |- context [MObserved ?a ?b] => pose proof (versioned_applied outcome c1 affected (MObserved a b) ltac:(done)) as H end.
    assert (co_revision c <= co_revision c1 /\ co_instance c1 = co_instance c) as [H1 H2] by (destruct outcome; cbn; split; [lia|done|lia|done]).
    cbn in H. destruct (match outcome with Applied => tryUpdates c1 affected | Unchanged => (c1, []) end) as [c2 ms].
    destruct H as (H3 & H4 & H5). cbn in *. split; [lia|]. split; [congruence|done].
Qed.

Lemma versioned_event c e : versioned c (authorityEvent c e).1 (authorityEvent c e).2.
Proof.
  unfold authorityEvent. destruct (co_closed c); [done|]. destruct (co_authority c); [|done].
  destruct e as [affected|]; [|by apply versioned_same].
  destruct (versioned_updates (bump c) affected) as (H1 & H2 & H3). cbn in *. split; [lia|]. split; [congruence|done].
Qed.

Lemma steps_versions c ids c' : steps c ids c' -> co_revision c <= co_revision c' /\ co_instance c' = co_instance c.
Proof.
  induction 1 as [|ids c' r _ [IH1 IH2]|ids c' a _ IH|ids c' e _ [IH1 IH2]|ids c' _ IH|ids c' _ IH Hc]; try done.
  - destruct (versioned_dispatch c' r) as (H1 & H2 & _). split; [lia|congruence].
  - destruct (versioned_event c' e) as (H1 & H2 & _). split; [lia|congruence].
Qed.
End Versions.

(** versions order what a page is sent: after any run of the lane, an update a request sends carries the
    instance's id and the revision the service then has, which is at least that of every earlier state. *)
Lemma update_versions {A} `{!Authority A} (c c' : Core A) ids r id v value :
  steps c ids c' -> MUpdate id v value ∈ (dispatch c' r).2 ->
  ve_instance v = co_instance c /\ co_revision c <= ve_revision v /\ ve_revision v = co_revision (dispatch c' r).1.
Proof.
  intros Hs Hin. destruct (steps_versions c ids c' Hs) as [H1 H2]. destruct (versioned_dispatch c' r) as (H3 & H4 & H5).
  apply (proj1 (Forall_forall _ _) H5) in Hin as [H6 H7]. split; [congruence|]. split; [lia|done].
Qed.

(** a replacement set is all or nothing and is not kept: when reading one affected selection throws, the
    applied command still answers, alone, every subscription stays as it was, and a later event replaces only the
    subscriptions its own scopes touch, so one it does not touch keeps its stale value. *)
Lemma failed_replacement {A} `{!Authority A} (c : Core A) (a a' a2 : A) requestId op cmd delivery affected e :
  map_wf (co_subscriptions c) -> co_closed c = false -> co_authority c = Some a -> map_get op (co_operations c) = None ->
  au_command a cmd op = (a', Done (mkResult (Applied, delivery) affected)) ->
  stageUpdates a' affected (co_subscriptions c) = (a2, Failed e) ->
  exists c1 v, dispatch c (RqCommand requestId op cmd) = (c1, [MCommandResult requestId op Applied delivery v])
    /\ co_subscriptions c1 = co_subscriptions c /\ co_authority c1 = Some a2
    /\ forall affected2 id s, map_get id (co_subscriptions c) = Some s -> touches affected2 (su_selection s) = false ->
       map_get id (co_subscriptions (authorityEvent c1 (EvChanged affected2)).1) = Some s.
Proof.
  intros Hwf Ho Ha Hn Hc Hf. unfold dispatch. rewrite Ho, Ha. cbn [serve]. unfold command. rewrite Hn, Hc. cbn.
  unfold tryUpdates at 1, updates. cbn. rewrite Hf. eexists _, _. split; [done|]. split; [done|]. split; [done|].
  intros affected2 id s Hs Ht. unfold authorityEvent. cbn. rewrite Ho. by apply tryUpdates_other.
Qed.

(** ** An authority with two values

    Its settings and the rest of its selections; a text command replaces the rest, a boolean one the settings,
    anything else is refused. *)

Section Witness.
Definition Two : Type := json * json.
Definition two_view (a : Two) (s : LibrarySelection) : json := if String.eqb (selection_kind s) "settings" then a.1 else a.2.
Definition two_write (a : Two) (cmd : json) : option (Two * list LibrarySelectionScope) :=
  match cmd with
  | JStr s => Some ((a.1, JStr s), [ScAll])
  | JBool b => Some ((JBool b, a.2), [ScKind "settings"])
  | _ => None
  end.
Definition two_answer {T} (a : Two) (cmd : json) (value : T) : Two * answer (LibraryAuthorityResult T) :=
  match two_write a cmd with
  | Some (a', affected) => (a', Done (mkResult value affected))
  | None => (a, Failed (AuthorityError (failure "invalid" "unknown command" false)))
  end.

(** Settings that say so cannot be read. *)
Definition two_select (a : Two) (s : LibrarySelection) : answer json :=
  if bool_decide (two_view a s = JStr "broken") then Failed (OtherError "broken") else Done (two_view a s).

#[local] Instance two_authority : Authority Two := {|
  au_generation _ := None;
  au_select a s := (a, two_select a s);
  au_command a cmd _ := two_answer a cmd (Applied, Local_);
  au_query a _ := (a, Done JNull);
  au_task a t _ := two_answer a t JNull;
  au_observe a o := two_answer a o Applied;
  au_open _ := Done (Some (JNull, JNull));
  au_membership a := (a, None);
|}.

Lemma two_reports {T} (value : T) a cmd s :
  match two_answer a cmd value with
  | (a', Done r) => ar_value r = value /\ existsb (fun sc => scopeMatches sc s) (ar_affected r) = true \/ two_view a' s = two_view a s
  | (a', Failed _) => two_view a' s = two_view a s
  end.
Proof.
  unfold two_answer, two_write, two_view. destruct cmd; try done; cbn; [|by left]. destruct (String.eqb _ _); [by left|by right].
Qed.

#[local] Instance two_laws : AuthorityLaws Two.
Proof.
  refine (Build_AuthorityLaws Two two_authority two_view _ _ _ _ _ _ _); try done.
  - intros a s value. cbn. unfold two_select. case_bool_decide; [done|]. by intros [= <-].
  - intros a cmd op s. pose proof (two_reports (Applied, Local_) a cmd s) as H. cbn.
    destruct (two_answer a cmd _) as [a' []]; [|done]. destruct H as [[-> ?]|]; [by left|by right].
  - intros a t op s. pose proof (two_reports JNull a t s) as H. cbn.
    destruct (two_answer a t _) as [a' []]; [|done]. destruct H as [[_ ?]|]; [by left|by right].
  - intros a o s. exact (two_reports Applied a o s).
Defined.

Definition two_hello : Request := RqHello "r0" (mkHello "page" "key" "local" "v4").
Definition two_ready : Core Two := (dispatch (newCore "i") two_hello).1.
Definition two_watching : Core Two := (dispatch two_ready (RqSubscribe "r1" "s1" (SelKind "settings" JNull))).1.

Lemma two_steps_ready : steps (newCore "i") [] two_ready.
Proof. exact (st_request (newCore "i") [] (newCore "i") two_hello (st_refl _)). Qed.



Lemma command_retry_witness :
  exists outcome delivery v,
    last (dispatch two_ready (RqCommand "r2" "o1" (JStr "x"))).2 = Some (MCommandResult "r2" "o1" outcome delivery v)
    /\ dispatch (dispatch two_ready (RqCommand "r2" "o1" (JStr "x"))).1 (RqCommand "r9" "o1" (JStr "x")) =
       ((dispatch two_ready (RqCommand "r2" "o1" (JStr "x"))).1, [MCommandResult "r9" "o1" outcome delivery v]).
Proof.
  destruct (command_retry "i" [] two_ready "r2" "o1" (JStr "x") two_steps_ready eq_refl) as (o & d & v & Hl & Hr).
  exists o, d, v. split; [exact Hl|]. rewrite (Hr [] _ "r9" (JStr "x")); [reflexivity|apply st_refl|cbn; lia|reflexivity|by eexists].
Defined.

(** The settings moved by themselves and the page was told. *)
Definition two_moved : Core Two := (authorityEvent (set_authority two_watching (JBool true, JNull)) (EvChanged [ScKind "settings"])).1.
Definition two_page : jsmap string json := [("s1", JBool true)].

Lemma two_lane : lane two_moved [] two_page [(true, [ScKind "settings"])].
Proof.
  refine (lane_event (set_authority two_watching (JBool true, JNull)) (EvChanged [ScKind "settings"]) [] [("s1", JNull)] [] _).
  refine (lane_moves two_watching [] [("s1", JNull)] [] (JNull, JNull) (JBool true, JNull) [ScKind "settings"] _ eq_refl _).
  - refine (lane_request two_ready [] [] [] (RqSubscribe "r1" "s1" (SelKind "settings" JNull)) _).
    exact (lane_request (newCore "i") [] [] [] two_hello (lane_new "i")).
  - intros s. cbn. unfold two_view. destruct (String.eqb _ _); [by left|by right].
Qed.

Lemma page_sees_library_witness : map_get "s1" two_page = Some (view (JBool true, JNull) (SelKind "settings" JNull)).
Proof.
  destruct (page_sees_library two_moved (JBool true, JNull) [] two_page [(true, [ScKind "settings"])] "s1" two_lane eq_refl eq_refl)
    as [H|[(aff & Hin & _)|(before & aff & after & Ht & _)]]; [exact H|by apply elem_of_nil in Hin|].
  destruct before as [|b before]; [discriminate Ht|]. injection Ht as _ Ht. destruct before; discriminate Ht.
Defined.

(** The page keeps the old settings when the changed ones could not be read, with no event queued. *)
Example page_left_stale :
  let c := (authorityEvent (set_authority two_watching (JStr "broken", JNull)) (EvChanged [ScKind "settings"])).1 in
  lane c [] [("s1", JNull)] [(false, [ScKind "settings"])] /\ view (A := Two) (JStr "broken", JNull) (SelKind "settings" JNull) = JStr "broken".
Proof.
  split; [|done].
  refine (lane_event (set_authority two_watching (JStr "broken", JNull)) (EvChanged [ScKind "settings"]) [] [("s1", JNull)] [] _).
  refine (lane_moves two_watching [] [("s1", JNull)] [] (JNull, JNull) (JStr "broken", JNull) [ScKind "settings"] _ eq_refl _).
  - refine (lane_request two_ready [] [] [] (RqSubscribe "r1" "s1" (SelKind "settings" JNull)) _).
    exact (lane_request (newCore "i") [] [] [] two_hello (lane_new "i")).
  - intros s. cbn. unfold two_view. destruct (String.eqb _ _); [by left|by right].
Qed.

Lemma update_versions_witness :
  ve_instance (mkVersion "i" None 1) = "i"
  /\ 0 <= ve_revision (mkVersion "i" None 1)
  /\ ve_revision (mkVersion "i" None 1) = co_revision (dispatch two_watching (RqCommand "r2" "o1" (JBool true))).1.
Proof.
  apply (update_versions two_watching two_watching [] (RqCommand "r2" "o1" (JBool true)) "s1" (mkVersion "i" None 1) (JBool true));
    [apply st_refl|]. left.
Defined.

(** The same authority, whose settings cannot be read once they are [true]. *)
Definition failing_authority : Authority Two := {|
  au_generation := @au_generation Two two_authority;
  au_select a s := if bool_decide (two_view a s = JBool true) then (a, Failed OtherValue) else (a, Done (two_view a s));
  au_command := @au_command Two two_authority;
  au_query := @au_query Two two_authority;
  au_task := @au_task Two two_authority;
  au_observe := @au_observe Two two_authority;
  au_open := @au_open Two two_authority;
  au_membership := @au_membership Two two_authority;
|}.

Lemma failed_replacement_witness :
  exists c1 v, @dispatch Two failing_authority two_watching (RqCommand "r2" "o1" (JBool true)) = (c1, [MCommandResult "r2" "o1" Applied Local_ v])
    /\ map_get "s1" (co_subscriptions (@authorityEvent Two failing_authority c1 (EvChanged [ScOverview])).1)
       = Some (mkSub (SelKind "settings" JNull) JNull JNull).
Proof.
  destruct (@failed_replacement Two failing_authority two_watching (JNull, JNull) (JBool true, JNull) (JBool true, JNull)
    "r2" "o1" (JBool true) Local_ [ScKind "settings"] OtherValue) as (c1 & v & Hd & _ & _ & Hs);
    [apply NoDup_singleton|reflexivity..|].
  exists c1, v. split; [exact Hd|]. apply (Hs [ScOverview] "s1"); reflexivity.
Defined.
End Witness.
