(* ===== verification/Route.v ===== *)
(** * Addresses ([web/src/lib/route.ts])

    The app's pages as paths: [parseRoute] reads an address, [routePath] and the [Href]s write one. The browser's
    [URL], [encodeURIComponent] and the Unicode tables behind [trim] and [normalize] are a parameter ([UrlApi]) with
    the behaviour the code relies on ([UrlLaws]); a small implementation at the end satisfies it. Ids are integers:
    a [Number] read from digits is rounded to the nearest double ([to_double]). *)

From S2P Require Import Prelude JsMap JsText.
Open Scope Z_scope.

(** ** The platform *)

Class UrlApi := {
  (** [new URL(url, BASE)]: its [pathname] and [searchParams], in order; nothing where it throws. *)
  new_URL : string -> option (string * list (string * string));
  encodeURIComponent : string -> string;
  trim : string -> string;
  (** [name.normalize('NFKD').replace(/\p{M}/gu, '').toLowerCase()] *)
  fold_name : string -> string;
}.

(** ** Characters *)

Definition char_in (lo hi c : ascii) : bool :=
  (Ascii.nat_of_ascii lo <=? Ascii.nat_of_ascii c)%nat && (Ascii.nat_of_ascii c <=? Ascii.nat_of_ascii hi)%nat.
Definition is_lower (c : ascii) : bool := char_in "a" "z" c.
Definition is_upper (c : ascii) : bool := char_in "A" "Z" c.
Definition is_letter (c : ascii) : bool := is_lower c || is_upper c.
Definition is_char (d c : ascii) : bool := Ascii.eqb c d.
Definition is_slug_char (c : ascii) : bool := is_lower c || is_digit c.

Definition upper_char (c : ascii) : ascii := if is_lower c then Ascii.ascii_of_nat (Ascii.nat_of_ascii c - 32) else c.
Definition lower_char (c : ascii) : ascii := if is_upper c then Ascii.ascii_of_nat (Ascii.nat_of_ascii c + 32) else c.
Fixpoint map_chars (f : ascii -> ascii) (s : string) : string :=
  match s with "" => "" | String c s => String (f c) (map_chars f s) end.

(** The longest prefix of characters that satisfy [p], and the rest. *)
Fixpoint span (p : ascii -> bool) (s : string) : string * string :=
  match s with
  | "" => ("", "")
  | String c s' => if p c then let '(a, b) := span p s' in (String c a, b) else ("", s)
  end.

(** ** Routes *)

Inductive MediaType : Type := movie | tv.
#[global] Instance MediaType_eq_dec : EqDecision MediaType.
Proof. solve_decision. Defined.

Definition type_name (t : MediaType) : string := match t with movie => "movie" | tv => "tv" end.
Definition type_of (s : string) : option MediaType :=
  if String.eqb s "movie" then Some movie else if String.eqb s "tv" then Some tv else None.

Record PeopleView : Type := mkPeople {
  pv_query : option string;
  pv_type : option MediaType;
  pv_chips : option (list string);
  pv_traits : option (list string);
  pv_order : option string;
}.

Record Explore : Type := mkExplore { ex_type : option MediaType; ex_chips : option (list string) }.

Record TitleRoute : Type := mkTitleRoute {
  tr_type : MediaType;
  tr_id : Z;
  tr_season : option Z;
  tr_episode : option Z;
  tr_play : bool;
  tr_filename : option string;
  tr_trailer : bool;
}.

Inductive Route : Type :=
| RLibrary
| RMovies
| RSeries
| RWatchlist (year : option string)
| RDownloads
| RSettings
| RSearch (query : string) (explore : Explore)
| RPeople (view : PeopleView)
| RTitle (title : TitleRoute)
| RPerson (id : Z)
| RService (id : Z) (country : string).

Definition exploreFromPeople (v : PeopleView) : Explore :=
  mkExplore (pv_type v) (match pv_chips v with Some [] => None | c => c end).

Definition PEOPLE_ORDERS : list string := ["prominence"; "credits"; "name"; "born_asc"; "born_desc"].
Definition namedOrder (order : string) : bool :=
  bool_decide (Some order <> PEOPLE_ORDERS !! 0%nat) && bool_decide (order ∈ PEOPLE_ORDERS).

(** [FACET]: words between dashes, the first of lowercase letters and digits, the others of letters, digits and underscores. *)
Definition facet_word (c : ascii) : bool := is_letter c || is_digit c || is_char "_" c.
Definition FACET (id : string) : bool :=
  match split_on "-" id with
  | first :: rest =>
    truthy first && all_chars is_slug_char first && forallb (fun w => truthy w && all_chars facet_word w) rest
  | [] => false
  end.

(** [Number(digits)] of a decimal integer: the nearest double, ties to even; nothing for [Infinity]. *)
Definition to_double (z : Z) : option Z :=
  if z <? 2 ^ 53 then Some z
  else
    let e := Z.log2 z - 52 in
    let q := z / 2 ^ e in
    let r := z mod 2 ^ e in
    let half := 2 ^ (e - 1) in
    let q := if (half <? r) || ((half =? r) && Z.odd q) then q + 1 else q in
    let n := q * 2 ^ e in
    if n <? 2 ^ 1024 then Some n else None.

Definition digits_number (digits : string) : option Z := str_Z digits ≫= to_double.

(** Digits, then the end or a dash and anything without a slash. *)
Definition identifier_digits (segment : string) : option string :=
  let '(digits, rest) := span is_digit segment in
  if negb (truthy digits) then None
  else match rest with
       | "" => Some digits
       | String c name => if is_char "-" c && negb (has_char "/" name) then Some digits else None
       end.

Definition identifier (segment : option string) : option Z :=
  id ← identifier_digits (default "" segment) ≫= digits_number;
  if 0 <? id then Some id else None.

(** [/^(0|[1-9]\d{0,3})$/] *)
Definition seasonParam (value : option string) : option Z :=
  match value with
  | Some "0" => Some 0
  | Some (String c s) =>
    if char_in "1" "9" c && all_chars is_digit s && (String.length s <=? 3)%nat then digits_number (String c s) else None
  | _ => None
  end.

Definition TABS : list (string * Route) :=
  [("movies", RMovies); ("series", RSeries); ("watchlist", RWatchlist None); ("downloads", RDownloads); ("settings", RSettings)].

(** Digits, a dash, two letters, then the end or a dash and anything without a slash. *)
Definition service_segment (segment : string) : option (string * string) :=
  let '(digits, rest) := span is_digit segment in
  if negb (truthy digits) then None
  else match rest with
       | String d (String a (String b rest)) =>
         if is_char "-" d && is_letter a && is_letter b
            && match rest with "" => true | String d name => is_char "-" d && negb (has_char "/" name) end
         then Some (digits, String a (String b "")) else None
       | _ => None
       end.

(** [/^like-(movie|tv)-(\d+)$/], and the same for [fans]. *)
Definition typed_facet (prefix id : string) : option (MediaType * Z) :=
  match split_on "-" id with
  | [p; t; digits] =>
    if String.eqb p prefix && truthy digits && all_chars is_digit digits
    then t ← type_of t; n ← digits_number digits; Some (t, n) else None
  | _ => None
  end.
Definition likeId (t : MediaType * Z) : string := "like-" +:+ type_name t.1 +:+ "-" +:+ Z_str t.2.
Definition likeOf (id : string) : option (MediaType * Z) := typed_facet "like" id.
Definition fansId (t : MediaType * Z) : string := "fans-" +:+ type_name t.1 +:+ "-" +:+ Z_str t.2.
Definition fansOf (id : string) : option (MediaType * Z) := typed_facet "fans" id.

(** ** Slugs *)

(** [replace(/[^a-z0-9]+/g, '-')]: every run of other characters is one dash. *)
Fixpoint dash_runs (in_run : bool) (s : string) : string :=
  match s with
  | "" => ""
  | String c s =>
    if is_slug_char c then String c (dash_runs false s)
    else if in_run then dash_runs true s else String "-" (dash_runs true s)
  end.

(** [replace(/^-+|-+$/g, '')] *)
Fixpoint drop_dashes (s : string) : string :=
  match s with String c s' => if is_char "-" c then drop_dashes s' else s | "" => "" end.
Fixpoint drop_end_dashes (s : string) : string :=
  match s with
  | "" => ""
  | String c s => let t := drop_end_dashes s in if is_char "-" c && String.eqb t "" then "" else String c t
  end.

(** [replace(/-+[^-]*$/, '')]: the last run of dashes and what follows it. *)
Fixpoint cut_last_word (s : string) : string :=
  match s with
  | "" => ""
  | String c s' => if is_char "-" c && negb (has_char "-" (drop_dashes s)) then "" else String c (cut_last_word s')
  end.

Section Platform.
Context {URL : UrlApi}.

Definition slug (name : option string) : string :=
  match name with
  | None | Some "" => ""
  | Some name =>
    let words := drop_end_dashes (drop_dashes (dash_runs false (fold_name name))) in
    if (60 <? String.length words)%nat then cut_last_word (String.substring 0 60 words) else words
  end.

(** ** Reading *)

(** [params.get(name)] *)
Definition param (name : string) (params : list (string * string)) : option string := map_get name params.

(** [[...new Set((params.get(name) ?? '').split(',').filter((id) => FACET.test(id)))]], absent when empty. *)
Definition facet_list (name : string) (params : list (string * string)) : option (list string) :=
  match set_of (filter (fun id => FACET id = true) (split_on "," (default "" (param name params)))) with
  | [] => None
  | l => Some l
  end.

Definition nonempty (s : string) : option string := if truthy s then Some s else None.

Definition is_year (year : string) : bool :=
  (all_chars is_digit year && (String.length year =? 4)%nat) || String.eqb year "unknown".

(** [play], [source] and [trailer]. *)
Definition playback (params : list (string * string)) : bool * option string * bool :=
  if bool_decide (param "play" params = Some "1")
  then (true, (let source := default "" (param "source" params) in
               if truthy source && (String.length source <=? 4096)%nat then Some source else None), false)
  else (false, None, bool_decide (param "trailer" params = Some "1")).

(** The route of a path's first two segments and its parameters. *)
Definition readRoute (first : string) (second : option string) (params : list (string * string)) : Route :=
  let bare := negb (truthy (default "" second)) in
  let type := default "" (param "type" params) in
  if String.eqb first "search" then
    RSearch (default "" (param "q" params)) (mkExplore (type_of type) (facet_list "c" params))
  else if String.eqb first "people" && bare then
    let order := default "" (param "order" params) in
    RPeople (mkPeople (nonempty (default "" (param "q" params))) (type_of type) (facet_list "c" params) (facet_list "t" params)
               (if namedOrder order then Some order else None))
  else if String.eqb first "watchlist" && bare then
    let year := default "" (param "year" params) in
    RWatchlist (if is_year year then Some year else None)
  else match (if bare then map_get first TABS else None) with
  | Some r => r
  | None =>
    let '(play, filename, trailer) := playback params in
    let id := identifier second in
    if String.eqb first "movie" then
      match id with Some id => RTitle (mkTitleRoute movie id None None play filename trailer) | None => RLibrary end
    else if String.eqb first "tv" then
      let season := seasonParam (param "season" params) in
      let episode := season ≫= fun _ => seasonParam (param "episode" params) in
      match id with Some id => RTitle (mkTitleRoute tv id season episode play filename trailer) | None => RLibrary end
    else if String.eqb first "person" then match id with Some id => RPerson id | None => RLibrary end
    else if String.eqb first "service" then
      match '(provider, country) ← service_segment (default "" second); n ← digits_number provider; Some (n, country) with
      | Some (n, country) => if 0 <? n then RService n (map_chars upper_char country) else RLibrary
      | None => RLibrary
      end
    else RLibrary
  end.

Definition parseRoute (url : string) : Route :=
  match new_URL url with
  | None => RLibrary
  | Some (path, params) =>
    let segments := split_on "/" path in readRoute (default "" (segments !! 1%nat)) (segments !! 2%nat) params
  end.

(** ** Writing *)

(** [params.length ? `?${params.join('&')}` : ''] *)
Definition query_text (params : list string) : string :=
  match params with [] => "" | _ => "?" +:+ join "&" params end.

Definition serviceHref (id : Z) (country : string) (name : option string) : string :=
  let named := slug name in
  "/service/" +:+ Z_str id +:+ "-" +:+ map_chars lower_char country +:+ (if truthy named then "-" +:+ named else "").

Definition watchlistHref (year : option string) : string :=
  match year with None | Some "" => "/watchlist" | Some y => "/watchlist?year=" +:+ y end.

Definition titleParams (t : TitleRoute) : list string :=
  let named n := bool_decide (is_Some (seasonParam (Some (Z_str n)))) in
  match tr_type t, tr_season t with
  | tv, Some season =>
    if named season then
      ("season=" +:+ Z_str season)
      :: match tr_episode t with Some e => if named e then ["episode=" +:+ Z_str e] else [] | None => [] end
    else []
  | _, _ => []
  end
  ++ (if tr_trailer t then ["trailer=1"]
      else if tr_play t then
        "play=1" :: match tr_filename t with None | Some "" => [] | Some f => ["source=" +:+ encodeURIComponent f] end
      else []).

(** A title's link, its name beside it where that is known. *)
Definition titleHref (t : TitleRoute) (title : option string) : string :=
  let name := slug title in
  "/" +:+ type_name (tr_type t) +:+ "/" +:+ Z_str (tr_id t) +:+ (if truthy name then "-" +:+ name else "") +:+ query_text (titleParams t).

Definition personHref (id : Z) (name : option string) : string :=
  let slugged := slug name in "/person/" +:+ Z_str id +:+ (if truthy slugged then "-" +:+ slugged else "").

Definition valid_facets (ids : option (list string)) : list string := filter (fun id => FACET id = true) (default [] ids).

Definition searchHref (query : string) (e : Explore) : string :=
  let facets := valid_facets (ex_chips e) in
  "/search" +:+ query_text (filter (fun p => truthy p = true)
    [(if truthy (trim query) then "q=" +:+ encodeURIComponent query else "");
     match ex_type e with Some t => "type=" +:+ type_name t | None => "" end;
     match facets with [] => "" | _ => "c=" +:+ join "," facets end]).

Definition peopleHref (v : PeopleView) : string :=
  let facets := valid_facets (pv_chips v) in
  let picked := valid_facets (pv_traits v) in
  let query := default "" (pv_query v) in
  "/people" +:+ query_text (filter (fun p => truthy p = true)
    [(if truthy (trim query) then "q=" +:+ encodeURIComponent query else "");
     match pv_type v with Some t => "type=" +:+ type_name t | None => "" end;
     match facets with [] => "" | _ => "c=" +:+ join "," facets end;
     match picked with [] => "" | _ => "t=" +:+ join "," picked end;
     match pv_order v with Some o => if truthy o && namedOrder o then "order=" +:+ o else "" | None => "" end]).

Definition routePath (route : Route) : string :=
  match route with
  | RLibrary => "/"
  | RSearch query e => searchHref query e
  | RPeople v => peopleHref v
  | RTitle t => titleHref t None
  | RPerson id => "/person/" +:+ Z_str id
  | RService id country => serviceHref id country None
  | RWatchlist year => watchlistHref year
  | RMovies => "/movies"
  | RSeries => "/series"
  | RDownloads => "/downloads"
  | RSettings => "/settings"
  end.

(** The path an old fragment link means. *)
Definition legacyPath (hash : string) : option string :=
  let fragment := match hash with String "#" h => h | h => h end in
  if negb (truthy fragment) || has_char "=" fragment then None
  else match split_on "/" fragment with
  | [] => None
  | page :: rest =>
    if String.eqb page "library" then Some "/"
    else if String.eqb page "search" then Some "/search"
    else if bool_decide (rest = []) && bool_decide (page ∈ TABS.*1) then Some ("/" +:+ page)
    else
      match (if String.eqb page "title" then t ← rest !! 0%nat ≫= type_of; id ← identifier (rest !! 1%nat); Some (t, id) else None) with
      | Some (t, id) => Some ("/" +:+ type_name t +:+ "/" +:+ Z_str id)
      | None =>
        if String.eqb page "person" then id ← identifier (rest !! 0%nat); Some ("/person/" +:+ Z_str id) else None
      end
  end.
End Platform.

(** ** What the code relies on

    Written addresses read back: a path of plain segments is its own path name, and a parameter written as plain
    text, or with [encodeURIComponent], is the text. *)

Definition plain_char (c : ascii) : bool := is_letter c || is_digit c || is_char "_" c || is_char "-" c.
Definition text_char (c : ascii) : bool := plain_char c || is_char "," c.

Inductive spelling : Type := Text (s : string) | Encoded (v : string).
Definition spelling_value (x : spelling) : string := match x with Text s => s | Encoded v => v end.

Definition plain_segment (s : string) : Prop := s <> "" /\ all_chars plain_char s = true.
Definition plain_param (p : string * spelling) : Prop :=
  all_chars plain_char p.1 = true /\ match p.2 with Text s => all_chars text_char s = true | Encoded _ => True end.
Definition spelled_param `{!UrlApi} (p : string * spelling) : string :=
  p.1 +:+ "=" +:+ match p.2 with Text s => s | Encoded v => encodeURIComponent v end.

Class UrlLaws `{!UrlApi} := {
  url_reads segments (params : list (string * spelling)) :
    Forall plain_segment segments -> Forall plain_param params ->
    new_URL ("/" +:+ join "/" segments +:+ query_text (spelled_param <$> params))
    = Some ("/" +:+ join "/" segments, (fun p => (p.1, spelling_value p.2)) <$> params);
  trim_empty : trim "" = "";
}.

(** ** Text facts *)

#[local] Arguments digits_number : simpl never.
#[local] Arguments Z_str : simpl never.

Lemma plain_no_slash s : all_chars plain_char s = true -> has_char "/" s = false.
Proof. intros H. by eapply all_chars_has. Qed.

Lemma digit_plain c : is_digit c = true -> plain_char c = true.
Proof. unfold plain_char. intros ->. by rewrite orb_true_r. Qed.

Lemma Z_str_plain z : 0 <= z -> all_chars plain_char (Z_str z) = true.
Proof. intros. eapply all_chars_mono; [apply digit_plain|]. by apply Z_str_nonneg_digits. Qed.

Lemma to_double_safe z : z < 2 ^ 53 -> to_double z = Some z.
Proof. intros H. unfold to_double. by rewrite (proj2 (Z.ltb_lt _ _) H). Qed.

Lemma digits_number_str z : z < 2 ^ 53 -> digits_number (Z_str z) = Some z.
Proof. intros. unfold digits_number. rewrite str_Z_str. by apply to_double_safe. Qed.

Lemma span_app p s c t : all_chars p s = true -> p c = false -> span p (s +:+ String c t) = (s, String c t).
Proof.
  intros Hs Hc. induction s as [|d s IH]; simpl in *; [by rewrite Hc|]. apply andb_true_iff in Hs as [-> Hs]. by rewrite IH.
Qed.

Lemma span_all p s : all_chars p s = true -> span p s = (s, "").
Proof. intros Hs. induction s as [|d s IH]; simpl in *; [done|]. apply andb_true_iff in Hs as [-> Hs]. by rewrite IH. Qed.

Lemma Z_str_truthy z : truthy (Z_str z) = true.
Proof. apply truthy_ne, Z_str_nonempty. Qed.

Lemma truthy_Z_named z t : truthy (Z_str z +:+ t) = true.
Proof. apply truthy_ne. pose proof (Z_str_nonempty z). by destruct (Z_str z). Qed.

(** An id, named or not, reads back. *)
Lemma identifier_named z name :
  0 < z < 2 ^ 53 -> has_char "/" name = false ->
  identifier (Some (Z_str z +:+ (if truthy name then "-" +:+ name else ""))) = Some z.
Proof.
  intros Hz Hn. unfold identifier, identifier_digits. cbn [from_option id].
  assert (Hd : all_chars is_digit (Z_str z) = true) by (apply Z_str_nonneg_digits; lia).
  destruct (truthy name).
  - change ("-" +:+ name) with (String "-" name). rewrite span_app by done. rewrite Z_str_truthy. cbn. rewrite Hn. cbn.
    rewrite digits_number_str by lia. cbn. by rewrite (proj2 (Z.ltb_lt 0 z)) by lia.
  - rewrite string_app_nil_r, span_all by done. rewrite Z_str_truthy. cbn.
    rewrite digits_number_str by lia. cbn. by rewrite (proj2 (Z.ltb_lt 0 z)) by lia.
Qed.

Lemma identifier_str z : 0 < z < 2 ^ 53 -> identifier (Some (Z_str z)) = Some z.
Proof. intros. rewrite <- (identifier_named z "") by done. cbn. by rewrite string_app_nil_r. Qed.

Lemma service_named z a b name :
  0 <= z -> is_letter a = true -> is_letter b = true -> has_char "/" name = false ->
  service_segment (Z_str z +:+ String "-" (String a (String b (if truthy name then "-" +:+ name else "")))) = Some (Z_str z, String a (String b "")).
Proof.
  intros Hz Ha Hb Hn. unfold service_segment.
  rewrite span_app by (done || by apply Z_str_nonneg_digits). rewrite Z_str_truthy. cbn. rewrite Ha, Hb. cbn.
  destruct (truthy name); cbn; by rewrite ?Hn.
Qed.

Lemma join_cons sep x y l : join sep (x :: y :: l) = x +:+ sep +:+ join sep (y :: l).
Proof. done. Qed.

(** A facet is plain, so a list of them survives commas. *)
Lemma all_chars_join p (l : list string) : p "-"%char = true -> Forall (fun s => all_chars p s = true) l -> all_chars p (join "-" l) = true.
Proof.
  intros Hp. induction 1 as [|x l Hx _ IH]; [done|]. destruct l as [|y l]; [done|]. rewrite join_cons, !all_chars_app, Hx, IH. cbn. by rewrite Hp.
Qed.

Lemma join_split c s : join (char_str c) (split_on c s) = s.
Proof.
  induction s as [|d s IH]; [done|]. cbn [split_on]. pose proof (split_on_ne c s) as Hne.
  destruct (split_on c s) as [|x xs]; [done|]. case_decide as Hd.
  - rewrite join_cons, IH. by rewrite Hd.
  - destruct xs as [|y xs]; [cbn in *; by rewrite IH|]. rewrite join_cons in *. by rewrite string_app_cons, IH.
Qed.

Lemma FACET_plain id : FACET id = true -> all_chars plain_char id = true.
Proof.
  unfold FACET. rewrite <- (join_split "-" id) at 2. destruct (split_on "-" id) as [|first rest]; [done|].
  rewrite !andb_true_iff, forallb_forall. intros [[_ Hf] Hr]. apply all_chars_join; [done|]. constructor.
  - eapply all_chars_mono; [|exact Hf]. unfold plain_char, is_slug_char, is_letter. intros c. destruct (is_lower c), (is_digit c); try done; by destruct (is_upper c).
  - apply Forall_forall. intros w Hw%list_elem_of_In%Hr. apply andb_true_iff in Hw as [_ Hw].
    eapply all_chars_mono; [|exact Hw]. unfold plain_char, facet_word. by intros c ->.
Qed.

Lemma FACET_no_comma id : FACET id = true -> has_char "," id = false.
Proof. intros H%FACET_plain. by eapply all_chars_has. Qed.

Lemma facets_text (l : list string) : Forall (fun id => FACET id = true) l -> all_chars text_char (join "," l) = true.
Proof.
  induction 1 as [|x l Hx _ IH]; [done|].
  assert (all_chars text_char x = true) by (eapply all_chars_mono; [|by apply FACET_plain]; unfold text_char; by intros c ->).
  destruct l as [|y l]; [done|]. by rewrite join_cons, !all_chars_app, H, IH.
Qed.

(** ** Reading what was written *)

Lemma seasonParam_str n : 0 <= n < 10000 -> seasonParam (Some (Z_str n)) = Some n.
Proof.
  intros Hn.
  assert (H : forallb (fun k => bool_decide (seasonParam (Some (Z_str k)) = Some k)) (seqZ 0 10000) = true) by (vm_compute; reflexivity).
  rewrite forallb_forall in H. eapply bool_decide_eq_true, H. apply list_elem_of_In, elem_of_seqZ. lia.
Qed.

Fixpoint digit_strings (n : nat) : list string :=
  match n with
  | O => [""]
  | S n => "" :: ((fun p => String p.1 p.2) <$> (["0"; "1"; "2"; "3"; "4"; "5"; "6"; "7"; "8"; "9"]%char ≫= fun c => (fun s => (c, s)) <$> digit_strings n))
  end.

Lemma is_digit_in c : is_digit c = true -> c ∈ ["0"; "1"; "2"; "3"; "4"; "5"; "6"; "7"; "8"; "9"]%char.
Proof. destruct c as [[] [] [] [] [] [] [] []]; try done; intros _; apply (bool_decide_unpack _); vm_compute; exact I. Qed.

Lemma digit_strings_all n s : all_chars is_digit s = true -> (String.length s <= n)%nat -> s ∈ digit_strings n.
Proof.
  revert s. induction n as [|n IH]; intros [|c s]; cbn [digit_strings all_chars String.length]; [by left|lia|by left|].
  intros [Hc Hs]%andb_true_iff Hl. right. apply list_elem_of_fmap. exists (c, s). split; [done|].
  apply list_elem_of_bind. exists c. split; [|by apply is_digit_in]. apply list_elem_of_fmap. exists s. split; [done|]. apply IH; [done|lia].
Qed.

Lemma nonzero_digit c : char_in "1" "9" c = true -> is_digit c = true.
Proof. by destruct c as [[] [] [] [] [] [] [] []]. Qed.

Lemma seasonParam_range v n : seasonParam v = Some n -> 0 <= n < 10000.
Proof.
  destruct v as [[|c s]|]; [done| |done]. unfold seasonParam.
  assert (H : forallb (fun c => forallb (fun s => match digits_number (String c s) with Some n => (0 <=? n) && (n <? 10000) | None => true end)
    (digit_strings 3)) ["0"; "1"; "2"; "3"; "4"; "5"; "6"; "7"; "8"; "9"]%char = true) by (vm_compute; reflexivity).
  rewrite forallb_forall in H.
  assert (Hmain : char_in "1" "9" c && all_chars is_digit s && (String.length s <=? 3)%nat = true -> digits_number (String c s) = Some n -> 0 <= n < 10000).
  { intros [[Hc Hs]%andb_true_iff Hl]%andb_true_iff Hd. apply Nat.leb_le in Hl.
    pose proof (nonzero_digit c Hc) as Hc'.
    specialize (H c (proj1 (list_elem_of_In _ _) (is_digit_in c Hc'))). rewrite forallb_forall in H.
    specialize (H s (proj1 (list_elem_of_In _ _) (digit_strings_all 3 s Hs Hl))). rewrite Hd in H.
    apply andb_true_iff in H as [H1%Z.leb_le H2%Z.ltb_lt]. lia. }
  destruct c as [[] [] [] [] [] [] [] []]; try done; destruct s; try done; try (case_match; [by apply Hmain|done]).
  intros [= <-]. lia.
Qed.

(** ** Addresses read back *)

Definition opt_ok {T} (P : T -> Prop) (o : option T) : Prop := match o with Some x => P x | None => True end.
Definition safe_id (id : Z) : Prop := 0 < id < 2 ^ 53.
Definition facets_ok (l : list string) : Prop := l <> [] /\ NoDup l /\ Forall (fun id => FACET id = true) l.

Section RoundTrip.
Context {URL : UrlApi} {LAWS : UrlLaws}.

(** The routes an address can say: what [parseRoute] gives, its text not blank and its ids exact integers. *)
Definition title_ok (t : TitleRoute) : Prop :=
  safe_id (tr_id t)
  /\ (tr_type t = movie -> tr_season t = None)
  /\ (tr_season t = None -> tr_episode t = None)
  /\ opt_ok (fun n => 0 <= n < 10000) (tr_season t) /\ opt_ok (fun n => 0 <= n < 10000) (tr_episode t)
  /\ (tr_play t = false -> tr_filename t = None) /\ (tr_play t = true -> tr_trailer t = false)
  /\ opt_ok (fun f => f <> "" /\ (String.length f <= 4096)%nat) (tr_filename t).

Definition route_ok (r : Route) : Prop :=
  match r with
  | RWatchlist year => opt_ok (fun y => is_year y = true) year
  | RSearch query e => (query = "" \/ trim query <> "") /\ opt_ok facets_ok (ex_chips e)
  | RPeople v => opt_ok (fun q => trim q <> "") (pv_query v) /\ opt_ok facets_ok (pv_chips v) /\ opt_ok facets_ok (pv_traits v)
                 /\ opt_ok (fun o => namedOrder o = true) (pv_order v)
  | RTitle t => title_ok t
  | RPerson id => safe_id id
  | RService id country => safe_id id /\ exists a b, country = String a (String b "") /\ is_upper a = true /\ is_upper b = true
  | _ => True
  end.

Lemma parse_written segments params url :
  Forall plain_segment segments -> Forall plain_param params ->
  url = "/" +:+ join "/" segments +:+ query_text (spelled_param <$> params) ->
  parseRoute url = readRoute (default "" (segments !! 0%nat)) (segments !! 1%nat) ((fun p => (p.1, spelling_value p.2)) <$> params).
Proof.
  intros Hs Hp ->. unfold parseRoute. rewrite url_reads by done.
  assert (Hsplit : split_on "/" ("/" +:+ join "/" segments) = "" :: match segments with [] => [""] | _ => segments end).
  { change ("/" +:+ ?x) with (String "/" x). cbn [split_on]. rewrite decide_True by done. f_equal. destruct segments as [|s l]; [done|].
    apply (split_join "/"); [done|]. eapply Forall_impl; [exact Hs|]. intros x [_ Hx]. by apply plain_no_slash. }
  rewrite Hsplit. by destruct segments.
Qed.

Lemma facet_list_written name params (o : option (list string)) :
  opt_ok facets_ok o -> param name params = join "," <$> o -> facet_list name params = o.
Proof.
  intros Ho Hp. unfold facet_list. rewrite Hp. destruct o as [l|]; [|done]. destruct Ho as (Hne & Hnd & Hf). cbn [fmap option_fmap option_map from_option id].
  rewrite (split_join ","), filter_all, set_of_NoDup; [by destruct l|done|..].
  - intros x. by apply (proj1 (Forall_forall _ _) Hf).
  - done.
  - eapply Forall_impl; [exact Hf|]. cbn. apply FACET_no_comma.
Qed.

Lemma valid_facets_ok o : opt_ok facets_ok o -> valid_facets o = default [] o.
Proof. intros Ho. unfold valid_facets. destruct o as [l|]; [|done]. apply filter_all. intros x. by apply (proj1 (Forall_forall _ _) (proj2 (proj2 Ho))). Qed.

(** The parameter a set of facets writes, or none. *)
Definition facet_params (name : string) (o : option (list string)) : list (string * spelling) :=
  match o with Some l => [(name, Text (join "," l))] | None => [] end.

Lemma facet_params_plain name o : all_chars plain_char name = true -> opt_ok facets_ok o -> Forall plain_param (facet_params name o).
Proof. intros Hn Ho. destruct o; [|constructor]. constructor; [|constructor]. split; [done|]. apply facets_text, Ho. Qed.

Definition type_params (o : option MediaType) : list (string * spelling) :=
  match o with Some t => [("type", Text (type_name t))] | None => [] end.

Lemma type_params_plain o : Forall plain_param (type_params o).
Proof. destruct o as [[]|]; repeat constructor. Qed.

Definition query_params (query : string) : list (string * spelling) :=
  if truthy (trim query) then [("q", Encoded query)] else [].

Lemma query_params_plain query : Forall plain_param (query_params query).
Proof. unfold query_params. destruct (truthy _); repeat constructor. Qed.

Lemma blank_query query : query = "" \/ trim query <> "" -> truthy (trim query) = false -> query = "".
Proof. intros [|H] E; [done|]. apply truthy_ne in H. congruence. Qed.

Ltac plain_tac := repeat (apply Forall_app; split); try apply query_params_plain; try apply type_params_plain; try (by apply facet_params_plain); repeat constructor.

Lemma parse_search query e : route_ok (RSearch query e) -> parseRoute (searchHref query e) = RSearch query e.
Proof.
  intros [Hq Hc]. destruct e as [type chips]. cbn in Hc.
  rewrite (parse_written ["search"] (query_params query ++ type_params type ++ facet_params "c" chips)).
  - cbn [lookup list_lookup from_option id]. unfold readRoute. cbn [String.eqb Ascii.eqb Bool.eqb].
    rewrite (facet_list_written "c" _ chips); [|done|]; unfold query_params, param.
    + destruct (truthy (trim query)) eqn:E; [|apply (blank_query query Hq) in E as ->];
        destruct type as [[]|], chips; reflexivity.
    + destruct (truthy (trim query)), type as [[]|], chips; reflexivity.
  - repeat constructor. done.
  - plain_tac.
  - unfold searchHref. cbn [ex_type ex_chips]. rewrite valid_facets_ok by done. unfold query_params.
    destruct (truthy (trim query)), type as [[]|], chips as [[|x l]|]; try (by destruct Hc); reflexivity.
Qed.

Lemma namedOrder_in o : namedOrder o = true -> o ∈ ["credits"; "name"; "born_asc"; "born_desc"].
Proof.
  unfold namedOrder. rewrite andb_true_iff, !bool_decide_eq_true. cbn. intros [Hne Hin].
  apply elem_of_cons in Hin as [->|Hin]; [done|exact Hin].
Qed.

Definition order_params (o : option string) : list (string * spelling) := match o with Some o => [("order", Text o)] | None => [] end.

Lemma order_cases o :
  opt_ok (fun o => namedOrder o = true) o ->
  o = None \/ o = Some "credits" \/ o = Some "name" \/ o = Some "born_asc" \/ o = Some "born_desc".
Proof.
  destruct o as [o|]; [|by left]. intros Ho%namedOrder_in.
  do 4 (apply elem_of_cons in Ho as [->|Ho]; [tauto|]). by apply elem_of_nil in Ho.
Qed.

Lemma parse_people v : route_ok (RPeople v) -> parseRoute (peopleHref v) = RPeople v.
Proof.
  destruct v as [query type chips traits order]. intros (Hq & Hc & Ht & Ho). cbn [pv_query pv_chips pv_traits pv_order] in *.
  assert (Hq' : default "" query = "" \/ trim (default "" query) <> "") by (destruct query; [by right|by left]).
  rewrite (parse_written ["people"] (query_params (default "" query) ++ type_params type ++ facet_params "c" chips ++ facet_params "t" traits ++ order_params order)).
  - cbn [lookup list_lookup from_option id]. unfold readRoute. cbn [String.eqb Ascii.eqb Bool.eqb from_option id truthy negb andb].
    rewrite (facet_list_written "c" _ chips), (facet_list_written "t" _ traits); try done; unfold query_params, param.
    + destruct query as [q|]; cbn [from_option id] in *; [|rewrite trim_empty; cbn [truthy String.eqb negb]].
      * cbn in Hq. apply truthy_ne in Hq as Hq2. rewrite Hq2. assert (Hne : nonempty q = Some q).
        { unfold nonempty. rewrite (proj2 (truthy_ne q)); [done|]. intros ->. by rewrite trim_empty in Hq. }
        rewrite <- Hne.
        destruct (order_cases order Ho) as [->|[->|[->|[->| ->]]]]; destruct type as [[]|], chips, traits; reflexivity.
      * destruct (order_cases order Ho) as [->|[->|[->|[->| ->]]]]; destruct type as [[]|], chips, traits; reflexivity.
    + destruct (truthy (trim _)), type as [[]|], chips, traits, order; reflexivity.
    + destruct (truthy (trim _)), type as [[]|], chips, traits, order; reflexivity.
  - repeat constructor. done.
  - plain_tac. destruct (order_cases order Ho) as [->|[->|[->|[->| ->]]]]; repeat constructor.
  - unfold peopleHref. cbn [pv_type pv_chips pv_traits pv_order pv_query]. rewrite !valid_facets_ok by done. unfold query_params.
    destruct (order_cases order Ho) as [->|[->|[->|[->| ->]]]]; destruct (truthy (trim _)), type as [[]|], chips as [[|x l]|], traits as [[|y m]|];
      try (by destruct Hc); try (by destruct Ht); reflexivity.
Qed.

Lemma parse_watchlist year : route_ok (RWatchlist year) -> parseRoute (watchlistHref year) = RWatchlist year.
Proof.
  intros Hy. cbn in Hy. rewrite (parse_written ["watchlist"] (match year with Some y => [("year", Text y)] | None => [] end)).
  - destruct year as [y|]; [|done]. transitivity (RWatchlist (if is_year y then Some y else None)); [reflexivity|]. by rewrite Hy.
  - repeat constructor. done.
  - destruct year as [y|]; [|constructor]. constructor; [|constructor]. split; [done|]. cbn in *. unfold is_year in Hy.
    apply orb_true_iff in Hy as [[Hy _]%andb_true_iff|Hy]; [|apply String.eqb_eq in Hy as ->; done].
    eapply all_chars_mono; [|exact Hy]. intros c Hc. unfold text_char. by rewrite digit_plain.
  - destruct year as [[|]|]; done.
Qed.

(** A name beside an id changes nothing the address says. *)
Lemma named_segment z name :
  0 <= z -> all_chars plain_char name = true -> plain_segment (Z_str z +:+ (if truthy name then "-" +:+ name else "")).
Proof.
  intros Hz Hn. split.
  - pose proof (Z_str_nonempty z). by destruct (Z_str z).
  - rewrite all_chars_app, Z_str_plain by done. by destruct (truthy name); cbn.
Qed.

Lemma parse_person n name :
  safe_id n -> all_chars plain_char (slug name) = true -> parseRoute (personHref n name) = RPerson n.
Proof.
  intros Hid Hn. unfold safe_id in Hid.
  rewrite (parse_written ["person"; Z_str n +:+ (if truthy (slug name) then "-" +:+ slug name else "")] []).
  - cbn [lookup list_lookup from_option id fmap list_fmap]. unfold readRoute. cbn [from_option id].
    rewrite truthy_Z_named, identifier_named by (done || by apply plain_no_slash). done.
  - constructor; [done|]. constructor; [apply named_segment; [lia|done]|constructor].
  - constructor.
  - unfold personHref. cbn. by rewrite string_app_nil_r.
Qed.

Definition season_params (name : string) (o : option Z) : list (string * spelling) :=
  match o with Some n => [(name, Text (Z_str n))] | None => [] end.

Definition play_params (t : TitleRoute) : list (string * spelling) :=
  if tr_trailer t then [("trailer", Text "1")]
  else if tr_play t then ("play", Text "1") :: match tr_filename t with Some f => [("source", Encoded f)] | None => [] end
  else [].

Lemma season_params_plain name o :
  all_chars plain_char name = true -> opt_ok (fun n => 0 <= n < 10000) o -> Forall plain_param (season_params name o).
Proof.
  intros Hn Ho. destruct o as [n|]; [|constructor]. constructor; [|constructor]. split; [done|]. cbn in *.
  eapply all_chars_mono; [|apply (Z_str_plain n); lia]. unfold text_char. by intros c ->.
Qed.

Lemma titleParams_spelled t :
  title_ok t -> titleParams t = spelled_param <$> season_params "season" (tr_season t) ++ season_params "episode" (tr_episode t) ++ play_params t.
Proof.
  destruct t as [type n season episode play filename trailer]. intros (_ & H1 & H2 & H3 & H4 & H5 & H6 & H7).
  cbn [tr_type tr_id tr_season tr_episode tr_play tr_filename tr_trailer] in *. unfold titleParams, play_params.
  cbn [tr_type tr_id tr_season tr_episode tr_play tr_filename tr_trailer]. rewrite app_assoc, fmap_app. f_equal.
  - destruct season as [s|]; [|rewrite H2 by done; by destruct type]. destruct type; [by specialize (H1 eq_refl)|]. cbn in H3.
    rewrite seasonParam_str by done. rewrite bool_decide_true by done. destruct episode as [e|]; [|done]. cbn in H4.
    rewrite seasonParam_str by done. by rewrite bool_decide_true.
  - destruct trailer; [done|]. destruct play; [|done]. destruct filename as [[|]|]; try done. by destruct H7.
Qed.

(** What [readRoute] makes of the parameters a title writes. *)
Lemma playback_written t :
  title_ok t ->
  playback ((fun p => (p.1, spelling_value p.2)) <$> season_params "season" (tr_season t) ++ season_params "episode" (tr_episode t) ++ play_params t)
  = (tr_play t, tr_filename t, tr_trailer t).
Proof.
  destruct t as [type n season episode play filename trailer]. intros (_ & _ & _ & _ & _ & H5 & H6 & H7). cbn in H5, H6, H7. unfold play_params.
  cbn [tr_type tr_id tr_season tr_episode tr_play tr_filename tr_trailer].
  destruct play; [rewrite H6 by done|rewrite H5 by done; destruct season, episode, trailer; reflexivity].
  destruct filename as [f|]; [|destruct season, episode; reflexivity]. destruct H7 as [Hf Hl]. cbn in Hf, Hl.
  apply truthy_ne in Hf. apply Nat.leb_le in Hl.
  transitivity (true, (if truthy f && (String.length f <=? 4096)%nat then Some f else None), false);
    [destruct season, episode; reflexivity|by rewrite Hf, Hl].
Qed.

Lemma parse_title t name :
  title_ok t -> all_chars plain_char (slug name) = true -> parseRoute (titleHref t name) = RTitle t.
Proof.
  intros Ht Hn. pose proof (playback_written t Ht) as Hpb.
  rewrite (parse_written [type_name (tr_type t); Z_str (tr_id t) +:+ (if truthy (slug name) then "-" +:+ slug name else "")]
    (season_params "season" (tr_season t) ++ season_params "episode" (tr_episode t) ++ play_params t)).
  - cbn [lookup list_lookup from_option id]. unfold readRoute. cbn [from_option id]. rewrite Hpb.
    rewrite truthy_Z_named, identifier_named by (apply Ht || by apply plain_no_slash). destruct t as [type n season episode play filename trailer].
    destruct Ht as (_ & H1 & H2 & H3 & H4 & _). cbn [tr_type tr_id tr_season tr_episode tr_play tr_filename tr_trailer] in *.
    destruct type; [rewrite H1, H2 by auto; reflexivity|]. unfold type_name. cbn [String.eqb Ascii.eqb Bool.eqb negb andb].
    destruct season as [s|]; [|rewrite H2 by done].
    + cbn in H3. transitivity (RTitle (mkTitleRoute tv n (seasonParam (Some (Z_str s)))
        (seasonParam (Some (Z_str s)) ≫= fun _ => seasonParam (Z_str <$> episode)) play filename trailer)).
      { destruct episode; [reflexivity|]. unfold play_params. destruct trailer, play, filename; reflexivity. }
      rewrite seasonParam_str by done. destruct episode as [e|]; [|done]. cbn in H4. cbn [mbind option_bind fmap option_fmap option_map]. by rewrite seasonParam_str.
    + unfold play_params. destruct trailer, play, filename; reflexivity.
  - constructor; [by destruct (tr_type t)|]. constructor; [apply named_segment; [destruct Ht as [[]]; lia|done]|constructor].
  - destruct Ht as (_ & _ & _ & H3 & H4 & _). repeat (apply Forall_app; split); [by apply season_params_plain..|].
    unfold play_params. destruct (tr_trailer t), (tr_play t), (tr_filename t); repeat constructor.
  - unfold titleHref. rewrite titleParams_spelled by done. cbn [join]. by rewrite !string_app_assoc.
Qed.

Lemma upper_letters a : is_upper a = true -> is_letter (lower_char a) = true /\ upper_char (lower_char a) = a /\ plain_char (lower_char a) = true.
Proof. by destruct a as [[] [] [] [] [] [] [] []]. Qed.

Lemma parse_service n a b name :
  safe_id n -> is_upper a = true -> is_upper b = true -> all_chars plain_char (slug name) = true ->
  parseRoute (serviceHref n (String a (String b "")) name) = RService n (String a (String b "")).
Proof.
  intros Hid (Ha1 & Ha2 & Ha3)%upper_letters (Hb1 & Hb2 & Hb3)%upper_letters Hn. unfold safe_id in Hid.
  rewrite (parse_written ["service"; Z_str n +:+ String "-" (String (lower_char a) (String (lower_char b) (if truthy (slug name) then "-" +:+ slug name else "")))] []).
  - cbn [lookup list_lookup from_option id fmap list_fmap]. unfold readRoute. cbn [from_option id].
    rewrite truthy_Z_named, service_named by (done || lia || by apply plain_no_slash).
    cbn [String.eqb Ascii.eqb Bool.eqb negb andb mbind option_bind]. rewrite digits_number_str by lia. cbn [mbind option_bind].
    rewrite (proj2 (Z.ltb_lt 0 n)) by lia. cbn. by rewrite Ha2, Hb2.
  - constructor; [done|]. constructor; [|constructor]. split; [by apply truthy_ne, truthy_Z_named|].
    rewrite all_chars_app, Z_str_plain by lia. cbn. rewrite Ha3, Hb3. by destruct (truthy (slug name)); cbn.
  - constructor.
  - unfold serviceHref. cbn [join map_chars]. by rewrite string_app_nil_r.
Qed.

(** ** What a read route is *)

(** Not blank where it has text, and an id a double holds exactly. *)
Definition printable (r : Route) : Prop :=
  match r with
  | RSearch query _ => query = "" \/ trim query <> ""
  | RPeople v => opt_ok (fun q => trim q <> "") (pv_query v)
  | RTitle t => tr_id t < 2 ^ 53
  | RPerson n | RService n _ => n < 2 ^ 53
  | _ => True
  end.

Lemma facet_list_ok name params : opt_ok facets_ok (facet_list name params).
Proof.
  unfold facet_list. set (l := filter _ _). destruct (set_of l) as [|x k] eqn:E; [done|]. rewrite <- E. cbn.
  split; [by rewrite E|]. split; [apply NoDup_set_of|]. apply Forall_forall. intros y Hy. apply (proj1 (elem_of_set_of _ _)) in Hy.
  by apply list_elem_of_filter in Hy as [? _].
Qed.

Lemma identifier_pos segment n : identifier segment = Some n -> 0 < n.
Proof. unfold identifier. destruct (_ ≫= digits_number) as [m|]; [|done]. cbn. destruct (Z.ltb_spec 0 m); [|done]. by intros [= <-]. Qed.

Lemma playback_ok params play filename trailer :
  playback params = (play, filename, trailer) ->
  (play = false -> filename = None) /\ (play = true -> trailer = false) /\ opt_ok (fun f => f <> "" /\ (String.length f <= 4096)%nat) filename.
Proof.
  unfold playback. case_bool_decide; intros [= <- <- <-]; [|done]. split; [done|]. split; [done|].
  destruct (truthy _ && _) eqn:E; [|done]. apply andb_true_iff in E as [E1%truthy_ne E2%Nat.leb_le]. done.
Qed.

Lemma service_letters segment provider country :
  service_segment segment = Some (provider, country) -> exists a b, country = String a (String b "") /\ is_letter a = true /\ is_letter b = true.
Proof.
  unfold service_segment. destruct (span is_digit segment) as [digits rest]. destruct (negb (truthy digits)); [done|].
  destruct rest as [|d [|a [|b rest]]]; try done. destruct (_ && _) eqn:E; [|done]. intros [= <- <-]. exists a, b.
  rewrite !andb_true_iff in E. tauto.
Qed.

Lemma upper_of_letter a : is_letter a = true -> is_upper (upper_char a) = true.
Proof. by destruct a as [[] [] [] [] [] [] [] []]. Qed.

Lemma seasons_ok v w :
  let season := seasonParam v in let episode := season ≫= fun _ => seasonParam w in
  (season = None -> episode = None) /\ opt_ok (fun n => 0 <= n < 10000) season /\ opt_ok (fun n => 0 <= n < 10000) episode.
Proof.
  cbn zeta. destruct (seasonParam v) as [n|] eqn:E; [|done]. cbn [mbind option_bind]. split; [done|]. apply seasonParam_range in E.
  split; [done|]. destruct (seasonParam w) eqn:E2; [|done]. by apply seasonParam_range in E2.
Qed.

Lemma TABS_ok first r : map_get first TABS = Some r -> route_ok r.
Proof.
  intros H%map_get_elem. assert (Hr : r ∈ TABS.*2) by (apply list_elem_of_fmap; by exists (first, r)). revert Hr. cbn.
  intros Hr. repeat (apply elem_of_cons in Hr as [->|Hr]; [done|]). by apply elem_of_nil in Hr.
Qed.

Lemma readRoute_ok first second params : printable (readRoute first second params) -> route_ok (readRoute first second params).
Proof.
  unfold readRoute. destruct (String.eqb first "search"); [intros Hq; split; [done|apply facet_list_ok]|].
  destruct (String.eqb first "people" && _).
  { intros Hq. split; [exact Hq|]. split; [apply facet_list_ok|]. split; [apply facet_list_ok|]. cbn [pv_order]. by case_match. }
  destruct (String.eqb first "watchlist" && _); [intros _; cbn; by destruct (is_year _) eqn:E|].
  destruct (if negb (truthy (default "" second)) then map_get first TABS else None) as [r|] eqn:Et.
  { intros _. destruct (negb _); [|done]. by eapply TABS_ok. }
  destruct (playback params) as [[play filename] trailer] eqn:Ep. apply playback_ok in Ep as (P1 & P2 & P3).
  destruct (String.eqb first "movie").
  { destruct (identifier second) as [n|] eqn:Ei; [|done]. apply identifier_pos in Ei. intros Hn. repeat split; try done. }
  destruct (String.eqb first "tv").
  { destruct (identifier second) as [n|] eqn:Ei; [|done]. apply identifier_pos in Ei. intros Hn.
    destruct (seasons_ok (param "season" params) (param "episode" params)) as (S1 & S2 & S3). repeat split; done. }
  destruct (String.eqb first "person").
  { destruct (identifier second) as [n|] eqn:Ei; [|done]. apply identifier_pos in Ei. done. }
  destruct (String.eqb first "service"); [|done].
  destruct (service_segment _) as [[provider country]|] eqn:Es; [|done]. cbn [mbind option_bind].
  destruct (digits_number provider) as [n|]; [|done]. cbn [mbind option_bind]. destruct (Z.ltb_spec 0 n); [|done].
  intros Hn. split; [done|]. apply service_letters in Es as (a & b & -> & Ha & Hb). eexists _, _. split; [reflexivity|].
  by rewrite !upper_of_letter.
Qed.
End RoundTrip.

(** ** Slugs are plain *)

Definition slug_text (c : ascii) : bool := is_slug_char c || is_char "-" c.
Definition no_lead (s : string) : Prop := match s with String c _ => is_char "-" c = false | "" => True end.

Lemma dash_runs_chars b s : all_chars slug_text (dash_runs b s) = true.
Proof. revert b. induction s as [|c s IH]; intros b; cbn; [done|]. destruct (is_slug_char c) eqn:E; cbn; [unfold slug_text; by rewrite E, IH|]. destruct b; cbn; by rewrite IH. Qed.

Lemma drop_dashes_chars p s : all_chars p s = true -> all_chars p (drop_dashes s) = true.
Proof. induction s as [|c s IH]; cbn; [done|]. intros [Hc Hs]%andb_true_iff. destruct (is_char "-" c); [auto|]. cbn. by rewrite Hc. Qed.

Lemma drop_end_dashes_chars p s : all_chars p s = true -> all_chars p (drop_end_dashes s) = true.
Proof. induction s as [|c s IH]; cbn; [done|]. intros [Hc Hs]%andb_true_iff. destruct (_ && _); [done|]. cbn. by rewrite Hc, IH. Qed.

Lemma substring_chars p n s : all_chars p s = true -> all_chars p (String.substring 0 n s) = true.
Proof. revert n. induction s as [|c s IH]; intros [|n]; cbn; try done. intros [Hc Hs]%andb_true_iff. by rewrite Hc, IH. Qed.

Lemma cut_last_word_chars p s : all_chars p s = true -> all_chars p (cut_last_word s) = true.
Proof. induction s as [|c s IH]; cbn; [done|]. intros [Hc Hs]%andb_true_iff. destruct (_ && _); [done|]. cbn. by rewrite Hc, IH. Qed.

Lemma drop_dashes_lead s : no_lead (drop_dashes s).
Proof. induction s as [|c s IH]; cbn; [done|]. destruct (is_char "-" c) eqn:E; [done|]. exact E. Qed.

Lemma drop_end_dashes_lead s : no_lead s -> no_lead (drop_end_dashes s).
Proof. destruct s as [|c s]; cbn; [done|]. intros Hc. rewrite Hc. exact Hc. Qed.

Lemma substring_lead n s : no_lead s -> no_lead (String.substring 0 n s).
Proof. destruct s, n; done. Qed.

Lemma cut_last_word_lead s : no_lead s -> no_lead (cut_last_word s).
Proof. destruct s as [|c s]; cbn; [done|]. intros Hc. by rewrite Hc. Qed.

Lemma drop_end_dashes_idem s : drop_end_dashes (drop_end_dashes s) = drop_end_dashes s.
Proof. induction s as [|c s IH]; cbn; [done|]. destruct (is_char "-" c && String.eqb (drop_end_dashes s) "") eqn:E; [done|]. cbn. by rewrite IH, E. Qed.

Lemma cut_last_word_some s : has_char "-" (drop_dashes s) = true -> cut_last_word s <> "".
Proof. destruct s as [|c s]; [done|]. cbn [cut_last_word]. intros ->. by rewrite andb_false_r. Qed.

Lemma cut_last_word_end s : drop_end_dashes (cut_last_word s) = cut_last_word s.
Proof.
  induction s as [|c s IH]; [done|]. cbn [cut_last_word]. destruct (is_char "-" c && _) eqn:E; [done|]. cbn [drop_end_dashes]. rewrite IH.
  destruct (is_char "-" c) eqn:Ec; [|done]. cbn [andb] in *. cbn [drop_dashes] in E. rewrite Ec in E.
  apply negb_false_iff, cut_last_word_some in E. apply String.eqb_neq in E. by rewrite E.
Qed.

Lemma substring_length n s : (String.length (String.substring 0 n s) <= n)%nat.
Proof. revert n. induction s as [|c s IH]; intros [|n]; cbn; try lia. specialize (IH n). lia. Qed.

Lemma cut_last_word_length s : (String.length (cut_last_word s) <= String.length s)%nat.
Proof. induction s as [|c s IH]; cbn; [lia|]. destruct (_ && _); cbn; lia. Qed.

(** a slug is lowercase letters, digits and single words' dashes, at most 60 characters, with no dash at either
    end, whatever the name. *)
Lemma slug_spec `{!UrlApi} (name : option string) :
  all_chars slug_text (slug name) = true /\ (String.length (slug name) <= 60)%nat
  /\ drop_end_dashes (slug name) = slug name /\ no_lead (slug name).
Proof.
  unfold slug. destruct name as [[|c n]|]; [by cbn; split; [|split; [lia|]]| |by cbn; split; [|split; [lia|]]].
  set (words := drop_end_dashes _).
  assert (Hc : all_chars slug_text words = true) by (apply drop_end_dashes_chars, drop_dashes_chars, dash_runs_chars).
  assert (Hl : no_lead words) by apply drop_end_dashes_lead, drop_dashes_lead.
  assert (He : drop_end_dashes words = words) by apply drop_end_dashes_idem.
  destruct (Nat.ltb_spec 60 (String.length words)) as [_|Hlen]; [|done].
  split; [by apply cut_last_word_chars, substring_chars|]. split; [|split; [apply cut_last_word_end|by apply cut_last_word_lead, substring_lead]].
  etransitivity; [apply cut_last_word_length|apply substring_length].
Qed.

Section Addresses.
Context {URL : UrlApi} {LAWS : UrlLaws}.

Lemma slug_plain name : all_chars plain_char (slug name) = true.
Proof.
  unfold slug. destruct name as [[|c n]|]; try done. eapply (all_chars_mono slug_text).
  { unfold slug_text, is_slug_char, plain_char, is_letter. intros d. destruct (is_lower d), (is_digit d), (is_char "-" d); try done; by destruct (is_upper d), (is_char "_" d). }
  destruct (_ <? _)%nat; [apply cut_last_word_chars, substring_chars|]; apply drop_end_dashes_chars, drop_dashes_chars, dash_runs_chars.
Qed.

Lemma parse_routePath r : route_ok r -> parseRoute (routePath r) = r.
Proof.
  destruct r; intros Hr; cbn [routePath].
  - by rewrite (parse_written [] []).
  - by rewrite (parse_written ["movies"] []) by (done || by repeat constructor).
  - by rewrite (parse_written ["series"] []) by (done || by repeat constructor).
  - by apply parse_watchlist.
  - by rewrite (parse_written ["downloads"] []) by (done || by repeat constructor).
  - by rewrite (parse_written ["settings"] []) by (done || by repeat constructor).
  - by apply parse_search.
  - by apply parse_people.
  - by apply parse_title.
  - rewrite <- (parse_person id None) by done. unfold personHref. cbn. by rewrite string_app_nil_r.
  - destruct Hr as (Hid & a & b & -> & Ha & Hb). by apply parse_service.
Qed.
End Addresses.

(** every route the app can name survives its address: reading the path written for it gives the route back,
    with its query, type, facets, traits, order, year, season, episode, player and release. *)
Lemma routePath_parse `{UL : UrlLaws} (r : Route) : route_ok r -> parseRoute (routePath r) = r.
Proof. apply parse_routePath. Qed.

(** An address is read to a canonical one: whatever [parseRoute] reads, as long as its text is not blank and its
    id is exact, writing it and reading it again gives the same route. *)
Lemma parseRoute_fixpoint `{UL : UrlLaws} (url : string) :
  printable (parseRoute url) -> parseRoute (routePath (parseRoute url)) = parseRoute url.
Proof.
  intros Hp. apply parse_routePath. unfold parseRoute in *. destruct (new_URL url) as [[path params]|]; [|done]. by apply readRoute_ok.
Qed.

(** a name in a link is decoration: the title, person or service it leads to is read the same whatever the
    name beside the id. *)
Lemma named_links `{UL : UrlLaws} (name : option string) :
  (forall t, title_ok t -> parseRoute (titleHref t name) = RTitle t)
  /\ (forall n, safe_id n -> parseRoute (personHref n name) = RPerson n)
  /\ (forall n a b, safe_id n -> is_upper a = true -> is_upper b = true ->
      parseRoute (serviceHref n (String a (String b "")) name) = RService n (String a (String b ""))).
Proof.
  pose proof (slug_plain name) as Hs. split; [|split]; intros.
  - by apply parse_title.
  - by apply parse_person.
  - by apply parse_service.
Qed.

(** ** Old links and title facets *)

Section Legacy.
Context {URL : UrlApi} {LAWS : UrlLaws}.

Lemma legacy_route hash path : legacyPath hash = Some path -> exists r, path = routePath r /\ (printable r -> route_ok r).
Proof.
  unfold legacyPath. set (fragment := match hash with String "#" h => h | h => h end). destruct (negb (truthy fragment) || _); [done|].
  destruct (split_on "/" fragment) as [|page rest]; [done|].
  destruct (String.eqb page "library"); [intros [= <-]; by exists RLibrary|].
  destruct (String.eqb page "search"); [intros [= <-]; exists (RSearch "" (mkExplore None None))|].
  { unfold routePath, searchHref. cbn [ex_type ex_chips]. rewrite trim_empty. split; [done|]. intros _. split; [by left|done]. }
  destruct (bool_decide (rest = []) && bool_decide (page ∈ TABS.*1)) eqn:Et.
  { intros [= <-]. apply andb_true_iff in Et as [_ Hp%bool_decide_eq_true]. cbn in Hp.
    apply elem_of_cons in Hp as [->|Hp]; [by exists RMovies|]. apply elem_of_cons in Hp as [->|Hp]; [by exists RSeries|].
    apply elem_of_cons in Hp as [->|Hp]; [by exists (RWatchlist None)|]. apply elem_of_cons in Hp as [->|Hp]; [by exists RDownloads|].
    apply elem_of_cons in Hp as [->|Hp]; [by exists RSettings|]. by apply elem_of_nil in Hp. }
  destruct (if String.eqb page "title" then _ else _) as [[t n]|] eqn:Eq.
  - intros [= <-]. destruct (String.eqb page "title"); [|done]. destruct (rest !! 0%nat ≫= type_of) as [t'|]; [|done]. cbn [mbind option_bind] in Eq.
    destruct (identifier (rest !! 1%nat)) as [n'|] eqn:Ei; [|done]. injection Eq as -> ->. apply identifier_pos in Ei.
    exists (RTitle (mkTitleRoute t n None None false None false)). split; [|intros Hn; repeat split; done].
    cbn [routePath]. unfold titleHref, titleParams. cbn [tr_type tr_season tr_trailer tr_play tr_id slug]. by destruct t; cbn; rewrite string_app_nil_r.
  - destruct (String.eqb page "person"); [|done]. destruct (identifier (rest !! 0%nat)) as [n|] eqn:Ei; [|done]. intros [= <-].
    apply identifier_pos in Ei. by exists (RPerson n).
Qed.
End Legacy.

(** an old fragment link is answered by a current path: the path is the one written for some route, and reads
    as that route (its id exact). *)
Lemma legacyPath_route `{UL : UrlLaws} (hash path : string) :
  legacyPath hash = Some path -> exists r, path = routePath r /\ (printable r -> parseRoute path = r).
Proof.
  intros (r & -> & Hr)%legacy_route. exists r. split; [done|]. intros Hp. by apply parse_routePath, Hr.
Qed.

Lemma typed_facet_split prefix t n :
  has_char "-" prefix = false -> split_on "-" (prefix +:+ "-" +:+ type_name t +:+ "-" +:+ Z_str n) = [prefix; type_name t] ++ split_on "-" (Z_str n).
Proof.
  intros Hp. change ("-" +:+ ?x) with (String "-" x). rewrite split_on_app by done.
  change ("-" +:+ ?x) with (String "-" x). rewrite split_on_app by (by destruct t). done.
Qed.

Lemma typed_facet_read prefix t n :
  has_char "-" prefix = false -> 0 <= n < 2 ^ 53 -> typed_facet prefix (prefix +:+ "-" +:+ type_name t +:+ "-" +:+ Z_str n) = Some (t, n).
Proof.
  intros Hp Hn. assert (Hd : all_chars is_digit (Z_str n) = true) by (apply Z_str_nonneg_digits; lia).
  unfold typed_facet. rewrite typed_facet_split by done. rewrite split_on_plain by (by eapply all_chars_has). cbn [app].
  rewrite String.eqb_refl, Z_str_truthy, Hd, digits_number_str by lia. by destruct t.
Qed.

Lemma FACET_typed prefix t n :
  has_char "-" prefix = false -> truthy prefix = true -> all_chars is_slug_char prefix = true -> 0 <= n ->
  FACET (prefix +:+ "-" +:+ type_name t +:+ "-" +:+ Z_str n) = true.
Proof.
  intros Hp Ht Hs Hn. assert (Hd : all_chars is_digit (Z_str n) = true) by (apply Z_str_nonneg_digits; lia).
  unfold FACET. rewrite typed_facet_split by done. rewrite split_on_plain by (by eapply all_chars_has). cbn [app].
  rewrite Ht, Hs. cbn [forallb andb]. rewrite Z_str_truthy, (all_chars_mono is_digit facet_word (Z_str n)); [by destruct t| |done].
  unfold facet_word. intros c ->. by rewrite orb_true_r.
Qed.

(** The "Like" and "Fans of" facets are facets, read back as their title, and are not each other. *)
Lemma like_facets t n :
  0 <= n < 2 ^ 53 ->
  (FACET (likeId (t, n)) = true /\ likeOf (likeId (t, n)) = Some (t, n) /\ fansOf (likeId (t, n)) = None)
  /\ (FACET (fansId (t, n)) = true /\ fansOf (fansId (t, n)) = Some (t, n) /\ likeOf (fansId (t, n)) = None).
Proof.
  intros Hn. unfold likeId, fansId, likeOf, fansOf. cbn [fst snd].
  change ("like-" +:+ ?x) with ("like" +:+ "-" +:+ x). change ("fans-" +:+ ?x) with ("fans" +:+ "-" +:+ x).
  rewrite !FACET_typed, !typed_facet_read by (done || lia). unfold typed_facet. rewrite !typed_facet_split by done.
  rewrite !split_on_plain by (eapply all_chars_has; [apply Z_str_nonneg_digits; lia|done]). by destruct t.
Qed.

(** ** A small implementation of the platform

    Percent encoding, and addresses without a fragment or dot segments: enough to satisfy [UrlLaws] and run. *)

Section SmallUrl.
Definition unreserved (c : ascii) : bool :=
  is_letter c || is_digit c || bool_decide (c ∈ ["-"; "_"; "."; "!"; "~"; "*"; "'"; "("; ")"]%char).
Definition hex (n : nat) : ascii := default "0"%char (String.get n "0123456789ABCDEF").
Definition unhex (c : ascii) : nat :=
  let n := Ascii.nat_of_ascii c in if (n <=? 57)%nat then (n - 48)%nat else (n - 55)%nat.
Definition escape (c : ascii) : string :=
  let n := Ascii.nat_of_ascii c in String "%" (String (hex (n / 16)) (String (hex (n mod 16)) "")).

Fixpoint percent_encode (s : string) : string :=
  match s with "" => "" | String c s => (if unreserved c then String c "" else escape c) +:+ percent_encode s end.
Fixpoint percent_decode (s : string) : string :=
  match s with
  | "" => ""
  | String "%" (String h (String l s)) => String (Ascii.ascii_of_nat (unhex h * 16 + unhex l)) (percent_decode s)
  | String "+" s => String " " (percent_decode s)
  | String c s => String c (percent_decode s)
  end.

Definition read_pair (p : string) : string * string :=
  let '(name, value) := span (fun c => negb (is_char "=" c)) p in (percent_decode name, percent_decode (str_drop 1 value)).
Definition small_URL (url : string) : option (string * list (string * string)) :=
  match span (fun c => negb (is_char "?" c)) url with
  | (path, "") => Some (path, [])
  | (path, String _ q) => Some (path, read_pair <$> split_on "&" q)
  end.
Fixpoint trim_spaces (s : string) : string := match s with String " " s' => trim_spaces s' | _ => s end.

#[local] Instance small_api : UrlApi := {|
  new_URL := small_URL; encodeURIComponent := percent_encode; trim := trim_spaces; fold_name := map_chars lower_char;
|}.

Lemma decode_plain p s : (forall c, p c = true -> is_char "%" c = false /\ is_char "+" c = false) -> all_chars p s = true -> percent_decode s = s.
Proof.
  intros Hp. induction s as [|c s IH]; [done|]. cbn [all_chars]. intros [Hc Hs]%andb_true_iff. destruct (Hp c Hc) as [H1 H2].
  destruct c as [[] [] [] [] [] [] [] []]; try done; cbn [percent_decode]; by rewrite IH.
Qed.

Lemma decode_one c s : percent_decode ((if unreserved c then String c "" else escape c) +:+ s) = String c (percent_decode s).
Proof. destruct c as [[] [] [] [] [] [] [] []]; reflexivity. Qed.

Lemma percent_decode_encode s : percent_decode (percent_encode s) = s.
Proof. induction s as [|c s IH]; [done|]. cbn [percent_encode]. by rewrite decode_one, IH. Qed.

Lemma encode_chars p s : (forall c, all_chars p (if unreserved c then String c "" else escape c) = true) -> all_chars p (percent_encode s) = true.
Proof. intros Hp. induction s as [|c s IH]; [done|]. cbn [percent_encode]. by rewrite all_chars_app, Hp, IH. Qed.

Definition pair_char (c : ascii) : bool := negb (is_char "&" c) && negb (is_char "?" c).

Lemma encode_pair s : all_chars pair_char (percent_encode s) = true.
Proof. apply encode_chars. intros c. destruct c as [[] [] [] [] [] [] [] []]; reflexivity. Qed.

Lemma text_pair c : text_char c = true -> pair_char c = true /\ is_char "%" c = false /\ is_char "+" c = false.
Proof. by destruct c as [[] [] [] [] [] [] [] []]. Qed.
Lemma plain_pair c : plain_char c = true -> pair_char c = true /\ negb (is_char "=" c) = true /\ negb (is_char "?" c) = true /\ is_char "%" c = false /\ is_char "+" c = false.
Proof. by destruct c as [[] [] [] [] [] [] [] []]. Qed.

Lemma read_pair_spelled p : plain_param p -> read_pair (spelled_param p) = (p.1, spelling_value p.2).
Proof.
  destruct p as [name value]. intros [Hn Hv]. cbn in Hn, Hv. unfold read_pair, spelled_param. cbn [fst snd].
  change ("=" +:+ ?x) with (String "=" x).
  rewrite span_app; [|by eapply all_chars_mono, Hn; apply plain_pair|done]. cbn [str_drop].
  rewrite (decode_plain plain_char) by (done || (intros; by apply plain_pair)). f_equal.
  destruct value as [s|v]; [|apply percent_decode_encode]. apply (decode_plain text_char); [intros; by apply text_pair|done].
Qed.

Lemma spelled_no_amp p : plain_param p -> has_char "&" (spelled_param p) = false.
Proof.
  destruct p as [name value]. intros [Hn Hv]. cbn in Hn, Hv. unfold spelled_param. cbn [fst snd].
  eapply (all_chars_has pair_char); [|done]. rewrite !all_chars_app. apply andb_true_iff. split; [by eapply all_chars_mono, Hn; apply plain_pair|].
  apply andb_true_iff. split; [done|]. destruct value as [s|v]; [by eapply all_chars_mono, Hv; apply text_pair|apply encode_pair].
Qed.

Lemma path_no_mark segments :
  Forall plain_segment segments -> all_chars (fun c => negb (is_char "?" c)) ("/" +:+ join "/" segments) = true.
Proof.
  intros Hs. rewrite all_chars_app. cbn [all_chars]. induction Hs as [|s l [_ Hs] _ IH]; [done|].
  assert (all_chars (fun c => negb (is_char "?" c)) s = true) by (eapply all_chars_mono, Hs; apply plain_pair).
  destruct l as [|s2 l]; [exact H|]. rewrite join_cons, !all_chars_app, H. exact IH.
Qed.

Lemma read_pairs params :
  params <> [] -> Forall plain_param params ->
  read_pair <$> split_on "&" (join "&" (spelled_param <$> params)) = (fun p => (p.1, spelling_value p.2)) <$> params.
Proof.
  intros Hne Hp. rewrite (split_join "&"); [|by destruct params|].
  - rewrite <- list_fmap_compose. apply list_fmap_ext. intros i q Hq%list_elem_of_lookup_2. cbn.
    apply read_pair_spelled. by apply (proj1 (Forall_forall _ _) Hp).
  - apply Forall_fmap. eapply Forall_impl; [exact Hp|]. apply spelled_no_amp.
Qed.

#[local] Instance small_laws : UrlLaws.
Proof.
  split; [|done]. intros segments params Hs Hp. cbn [new_URL small_api]. unfold small_URL. rewrite <- string_app_assoc.
  pose proof (path_no_mark segments Hs) as Hm. destruct params as [|p params].
  - cbn [query_text fmap list_fmap]. by rewrite string_app_nil_r, span_all.
  - change (query_text (spelled_param <$> p :: params)) with (String "?" (join "&" (spelled_param <$> p :: params))).
    rewrite span_app, read_pairs by done. done.
Defined.

Definition an_episode : TitleRoute := mkTitleRoute tv 61859 (Some 2) (Some 3) true (Some "The Night Manager S02E03 & more.mkv") false.

Lemma an_episode_ok : title_ok an_episode.
Proof. repeat split; cbn; try done; lia. Qed.

Lemma routePath_parse_witness :
  parseRoute (routePath (RTitle an_episode)) = RTitle an_episode
  /\ routePath (RTitle an_episode) = "/tv/61859?season=2&episode=3&play=1&source=The%20Night%20Manager%20S02E03%20%26%20more.mkv".
Proof. split; [apply (routePath_parse (RTitle an_episode)); exact an_episode_ok|vm_compute; reflexivity]. Defined.

Lemma parseRoute_fixpoint_witness :
  parseRoute (routePath (parseRoute "/search?q=blade+runner&c=genre-28,,genre-28,country-SE&x=1"))
  = parseRoute "/search?q=blade+runner&c=genre-28,,genre-28,country-SE&x=1".
Proof. apply (parseRoute_fixpoint "/search?q=blade+runner&c=genre-28,,genre-28,country-SE&x=1"). vm_compute. by right. Defined.

Lemma named_links_witness :
  parseRoute (titleHref an_episode (Some "The Night Manager")) = RTitle an_episode
  /\ parseRoute (serviceHref 8 "US" (Some "Netflix (with Ads)")) = RService 8 "US"
  /\ serviceHref 8 "US" (Some "Netflix (with Ads)") = "/service/8-us-netflix-with-ads".
Proof.
  split; [apply (proj1 (named_links (Some "The Night Manager"))), an_episode_ok|].
  split; [apply (proj2 (proj2 (named_links (Some "Netflix (with Ads)")))); [split; lia|reflexivity..]|vm_compute; reflexivity].
Defined.

Lemma legacyPath_route_witness :
  legacyPath "#title/tv/1396-breaking-bad" = Some "/tv/1396"
  /\ exists r, "/tv/1396" = routePath r /\ (printable r -> parseRoute "/tv/1396" = r).
Proof. split; [vm_compute; reflexivity|]. apply (legacyPath_route "#title/tv/1396-breaking-bad"). vm_compute. reflexivity. Defined.
End SmallUrl.
