(* ===== verification/FilterRoutes.v ===== *)
(** * atlas's filter addresses ([web/src/lib/filterRoutes.ts])

    A selection of filters as the one address atlas answers it at ([normalise], [spelled], [canonicalQuery],
    [filterUrl]): the address is a cache key, so it must not depend on the order things were picked in. And
    [filterTitles], which reads a selection's titles a page at a time. Unicode case, folding and percent encoding are
    parameters ([UrlApi], [TextApi]); numbers read from digits are doubles, written as JavaScript writes them. *)

From S2P Require Import Prelude JsMap JsText Wire Route.
Open Scope Z_scope.

Class TextApi := {
  to_lower : string -> string;
  to_upper : string -> string;
  (** [text.normalize('NFKD').replace(/\p{M}/gu, '').toLowerCase().split(/[^\p{L}\p{N}]+/u)] *)
  letter_runs : string -> list string;
}.

(** ** Numbers as text *)

(** [n / d] rounded to an integer, ties to even. *)
Definition round_half_even (n d : Z) : Z :=
  let q := n / d in let r := n mod d in
  if (d <? 2 * r) || ((d =? 2 * r) && Z.odd q) then q + 1 else q.

(** [Math.floor(number / 10) * 10]; nothing stands for [Infinity]. *)
Definition decade_of (number : option Z) : option Z :=
  number ≫= fun z =>
  if z <? 2 ^ 53 then Some (z / 10 * 10)
  else
    let e := Z.log2 (z / 10) - 52 in
    let tenth := if e <? 0 then round_half_even (z * 2 ^ (- e)) 10 / 2 ^ (- e) else round_half_even z (10 * 2 ^ e) * 2 ^ e in
    to_double (tenth * 10).

(** The fewest decimal digits that read back as the double [z]: digits and exponent, tried from [k] digits up. *)
Fixpoint shortest_digits (z : Z) (fuel : nat) (k : Z) : Z * Z :=
  let m := Z.max 0 (Z.of_nat (String.length (Z_str z)) - k) in
  let low := z / 10 ^ m in
  let reads c := bool_decide (to_double (c * 10 ^ m) = Some z) in
  let below := z - low * 10 ^ m in
  let above := (low + 1) * 10 ^ m - z in
  match fuel with
  | O => (z, 0)
  | S fuel =>
    if reads low && reads (low + 1) then
      (if (below <? above) || ((below =? above) && Z.even low) then (low, m) else (low + 1, m))
    else if reads low then (low, m)
    else if reads (low + 1) then (low + 1, m)
    else shortest_digits z fuel (k + 1)
  end.

(** [String(number)] of a non-negative integer double; nothing stands for [Infinity]. *)
Definition number_text (number : option Z) : string :=
  match number with
  | None => "Infinity"
  | Some z =>
    if z <? 2 ^ 53 then Z_str z
    else
      let '(c, m) := shortest_digits z 17 1 in
      let '(c, m) := if c mod 10 =? 0 then (c / 10, m + 1) else (c, m) in
      if c * 10 ^ m <? 10 ^ 21 then Z_str (c * 10 ^ m)
      else match Z_str c with
           | String d rest => String d (if truthy rest then "." +:+ rest else "") +:+ "e+" +:+ Z_str (m + Z.of_nat (String.length rest))
           | "" => ""
           end
  end.

(** ** Kinds *)

Inductive FilterMode : Type := And_ | Single.
Inductive IdFormat : Type := FInteger | FDecade | FBorn | FLower | FUpper | FLabel | FQid | FCharacter | FLike.
#[global] Instance IdFormat_eq_dec : EqDecision IdFormat.
Proof. solve_decision. Defined.

Definition PLOT_AXES : list string :=
  ["archetype"; "chronology"; "conflict"; "continuity"; "ending"; "ensemble"; "era"; "pacing"; "scope"; "setting"; "timespan"; "tone"].

Definition FILTER_KINDS : jsmap string (FilterMode * IdFormat) :=
  [("genre", (And_, FInteger)); ("language", (And_, FLower)); ("country", (And_, FUpper)); ("region", (Single, FLower));
   ("decade", (Single, FDecade)); ("mood", (And_, FLabel)); ("subgenre", (And_, FLabel)); ("primary", (Single, FLabel));
   ("animated", (Single, FLower)); ("runtime", (Single, FLower)); ("source", (And_, FLower)); ("rating", (Single, FInteger));
   ("technique", (And_, FLower)); ("audience", (And_, FLower)); ("critique", (And_, FLower)); ("warning", (And_, FLower))]
  ++ ((fun axis => (axis, (Single, FLower))) <$> PLOT_AXES)
  ++ [("person", (And_, FQid)); ("made", (And_, FQid)); ("cast", (And_, FQid)); ("company", (And_, FQid)); ("studio", (And_, FQid));
      ("network", (And_, FQid)); ("subject", (And_, FQid)); ("place", (And_, FQid)); ("author", (And_, FQid)); ("format", (And_, FQid));
      ("character", (And_, FCharacter)); ("like", (Single, FLike)); ("fans", (Single, FLike))].

Definition TRAIT_KINDS : jsmap string (FilterMode * IdFormat) :=
  [("gender", (Single, FQid)); ("born", (Single, FBorn)); ("citizenship", (And_, FQid)); ("occupation", (And_, FQid)); ("role", (And_, FLower))].

(** Which of the two tables a call passes. *)
Inductive Kinds : Type := OfTitles | OfPeople.
#[global] Instance Kinds_eq_dec : EqDecision Kinds.
Proof. solve_decision. Defined.
Definition kinds_table (kinds : Kinds) : jsmap string (FilterMode * IdFormat) :=
  match kinds with OfTitles => FILTER_KINDS | OfPeople => TRAIT_KINDS end.

(** The members every object literal inherits: [kinds[kind]] answers one of them too, and it has no [id]. *)
Definition OBJECT_MEMBERS : list string :=
  ["constructor"; "__proto__"; "__defineGetter__"; "__defineSetter__"; "__lookupGetter__"; "__lookupSetter__"; "hasOwnProperty";
   "isPrototypeOf"; "propertyIsEnumerable"; "toLocaleString"; "toString"; "valueOf"].

Inductive KindSpec : Type := Known (id : IdFormat) | Inherited | Unknown.
#[global] Instance KindSpec_eq_dec : EqDecision KindSpec.
Proof. solve_decision. Defined.
Definition kind_spec (kinds : Kinds) (kind : string) : KindSpec :=
  match map_get kind (kinds_table kinds) with
  | Some (_, id) => Known id
  | None => if bool_decide (kind ∈ OBJECT_MEMBERS) then Inherited else Unknown
  end.

(** [STRUCTURE_ALIAS[id] ?? 'chronology'], with the texts of the members the literal inherits under a lowercase name. *)
Definition structure_alias (id : string) : string :=
  default "chronology" (map_get id
    [("single-day", "timespan"); ("anthology", "continuity"); ("constructor", "function Object() { [native code] }");
     ("__proto__", "[object Object]")]).

Inductive ExploreType : Type := EMovie | ETv | EAll.
#[global] Instance ExploreType_eq_dec : EqDecision ExploreType.
Proof. solve_decision. Defined.

Definition likeValue (t : MediaType * Z) (route : ExploreType) : string :=
  match route with
  | EAll => (match t.1 with tv => "series" | movie => "movie" end) +:+ "-" +:+ Z_str t.2
  | _ => Z_str t.2
  end.

Definition FIRST_BIRTH_YEAR : Z := 1800.
Definition MAX_SELECTION : nat := 16.
Definition TITLES_PAGE : Z := 24.
Definition MAX_TITLES_PAGE : Z := 100.

Record FilterItem : Type := mkFilter { fi_kind : string; fi_id : string; fi_exclude : bool }.

Inductive FilterRoute : Type := Counts | Titles | People | PeopleCounts | Values (kind : string) | PeopleValues (trait : string).

Section Spelling.
Context {URL : UrlApi} {TEXT : TextApi} (thisYear : Z).

Definition fold (text : string) : string := join " " (filter (fun w => truthy w = true) (letter_runs text)).

Definition all_digits (s : string) : bool := truthy s && all_chars is_digit s.

(** One end of a birth range: absent, or a year the range may name. *)
Definition birth_year (year : string) : option (option Z) :=
  if negb (truthy year) then Some None
  else if negb (all_chars is_digit year) then None
  else match digits_number year with
       | Some y => if (y <? FIRST_BIRTH_YEAR) || (thisYear + 1 <? y) then None else Some (Some y)
       | None => None
       end.

Definition bornRange (id : string) : option string :=
  match split_on "-" id with
  | [a; b] =>
    match birth_year (trim a), birth_year (trim b) with
    | Some None, Some None => None
    | Some from, Some to =>
      if match from, to with Some f, Some t => t <? f | _, _ => false end then None
      else Some (from_option Z_str "" from +:+ "-" +:+ from_option Z_str "" to)
    | _, _ => None
    end
  | _ => None
  end.

(** The text after a [Q] or [q], or the text. *)
Definition qid_digits (id : string) : string :=
  match id with String c rest => if is_char "Q" c || is_char "q" c then rest else id | "" => "" end.

(** A typed title value: [movie] or [series] in any ASCII case, a dash, digits. *)
Definition typed_like (id : string) : option (string * string) :=
  match split_on "-" id with
  | [t; digits] =>
    let t := map_chars lower_char t in
    if (String.eqb t "movie" || String.eqb t "series") && all_digits digits then Some (t, digits) else None
  | _ => None
  end.

(** [name.replace(/ /g, '-')] *)
Definition dash_spaces (s : string) : string := map_chars (fun c => if is_char " " c then "-"%char else c) s.

Definition normalise (rawKind rawId : string) (kinds : Kinds) (type : option ExploreType) : option (string * string) :=
  let kind := to_lower (trim rawKind) in
  let id := trim rawId in
  if negb (truthy id) then None
  else
    let kind := match kinds with
                | OfTitles => if String.eqb kind "structure" then structure_alias (to_lower id) else kind
                | OfPeople => kind
                end in
    let number := if all_digits id then Some (digits_number id) else None in
    match kind_spec kinds kind with
    | Unknown => Some (kind, id)
    | Inherited => None
    | Known FInteger => (fun n => (kind, number_text n)) <$> number
    | Known FDecade => (fun n => (kind, number_text (decade_of n))) <$> number
    | Known FBorn => (fun range => (kind, range)) <$> bornRange id
    | Known FLower => Some (kind, to_lower id)
    | Known FUpper => Some (kind, to_upper id)
    | Known FLabel => Some (kind, id)
    | Known FQid =>
      if String.eqb kind "gender" && String.eqb (to_lower id) "other" then Some (kind, "other")
      else let digits := qid_digits id in
           if all_digits digits then Some (kind, "Q" +:+ number_text (digits_number digits)) else None
    | Known FCharacter => let name := fold id in if truthy name then Some (kind, dash_spaces name) else None
    | Known FLike =>
      match number with
      | Some n => if bool_decide (type = Some EAll) then None else Some (kind, number_text n)
      | None =>
        match typed_like id with
        | Some (t, digits) =>
          if bool_decide (type = None) || bool_decide (type = Some EAll)
          then Some (kind, t +:+ "-" +:+ number_text (digits_number digits)) else None
        | None => None
        end
      end
    end.

(** ** [spelled] *)

Record Normal : Type := mkNormal { no_kind : string; no_ids : list string; no_exclude : bool }.

(** The values of a group, all of one kind. *)
Fixpoint read_values (itemKind : string) (kinds : Kinds) (type : option ExploreType) (kind : option string) (raws : list string)
  : option (option string * list string) :=
  match raws with
  | [] => Some (kind, [])
  | raw :: raws =>
    '(k, id) ← normalise itemKind raw kinds type;
    if match kind with Some k' => negb (String.eqb k k') | None => false end then None
    else '(kind, ids) ← read_values itemKind kinds type (Some k) raws; Some (kind, id :: ids)
  end.

Definition normal_item (kinds : Kinds) (type : option ExploreType) (item : FilterItem) : option Normal :=
  '(kind, ids) ← read_values (fi_kind item) kinds type None (split_on "|" (fi_id item));
  let group := js_sort str_cmp (set_of ids) in
  match kind with
  | None => None
  | Some kind =>
    if negb (truthy kind) || ((1 <? length group)%nat && bool_decide (kind_spec kinds kind = Known FLike)) then None
    else Some (mkNormal kind group (fi_exclude item))
  end.

Definition joined (item : Normal) : string := join "|" (no_ids item).
Definition bool_Z (b : bool) : Z := if b then 1 else 0.

Definition compareNormal (a b : Normal) : Z :=
  or_num (or_num (str_cmp (no_kind a) (no_kind b)) (bool_Z (no_exclude a) - bool_Z (no_exclude b))) (str_cmp (joined a) (joined b)).

Definition item_text (item : Normal) : string :=
  (if no_exclude item then "-" else "") +:+ no_kind item +:+ ":" +:+ join "|" (encodeURIComponent <$> no_ids item).

(** [filter((item, at, all) => all.findIndex((x) => x.text === item.text) === at)]: the first of each text. *)
Fixpoint once_by {T K} `{!EqDecision K} (text : T -> K) (seen : list K) (l : list T) : list T :=
  match l with
  | [] => []
  | x :: l => if decide (text x ∈ seen) then once_by text seen l else x :: once_by text (text x :: seen) l
  end.

Definition bornIds (kinds : Kinds) (normal : list Normal) : list string :=
  set_of (filter (fun item => kinds = OfPeople /\ no_kind item = "born" /\ no_exclude item = false) normal ≫= no_ids).

Definition spelled (items : list FilterItem) (kinds : Kinds) (type : option ExploreType) : option (list string) :=
  normal ← mapM (normal_item kinds type) items;
  let born := bornIds kinds normal in
  if (1 <? length born)%nat && existsb (has_char "-") born then None
  else
    let once := once_by item_text [] (js_sort compareNormal normal) in
    if (MAX_SELECTION <? sum_list (length ∘ no_ids <$> once))%nat then None else Some (item_text <$> once).

(** ** Addresses *)

Record QueryOptions : Type := mkOptions {
  qo_items : list FilterItem;
  qo_traits : list FilterItem;
  qo_order : option string;
  qo_skip : Z;
  qo_limit : option Z;
  qo_q : option string;
}.

(** The default page size and the largest, by route. *)
Definition page_sizes (route : FilterRoute) : Z * Z :=
  match route with
  | Counts | PeopleCounts => (0, 0)
  | Titles | People => (TITLES_PAGE, MAX_TITLES_PAGE)
  | Values kind => if String.eqb kind "character" then (5, 5) else (10, 10)
  | PeopleValues _ => (10, 10)
  end.

Definition is_people (route : FilterRoute) : bool := match route with People | PeopleCounts | PeopleValues _ => true | _ => false end.
Definition is_paged (route : FilterRoute) : bool := match route with Titles | People => true | _ => false end.

(** The order parameter: refused, none, or one that is not the default. *)
Definition order_name (route : FilterRoute) (order : option string) : option (option string) :=
  match route, order with
  | People, Some o =>
    if negb (truthy (trim o)) then Some None
    else let name := to_lower (trim o) in
         if negb (bool_decide (name ∈ PEOPLE_ORDERS)) then None
         else Some (if bool_decide (PEOPLE_ORDERS !! 0%nat = Some name) then None else Some name)
  | _, _ => Some None
  end.

(** The typed prefix: refused, none, or folded. *)
Definition prefix_text (route : FilterRoute) (q : option string) : option (option string) :=
  match route with
  | Values _ | PeopleValues _ =>
    let folded := from_option fold "" q in
    let character := match route with Values kind => String.eqb kind "character" | _ => false end in
    if character && (String.length folded <? 3)%nat then None
    else if negb (truthy folded) then Some None
    else if (String.length folded <? 2)%nat then None else Some (Some folded)
  | _ => Some None
  end.

Definition canonicalQuery (route : FilterRoute) (o : QueryOptions) (type : option ExploreType) : option string :=
  sel ← spelled (qo_items o) OfTitles type;
  traitList ← (if is_people route then spelled (qo_traits o) OfPeople None else Some []);
  orderName ← order_name route (qo_order o);
  let '(fallback, most) := page_sizes route in
  let size := Z.min (Z.max (default fallback (qo_limit o)) (Z.min fallback 1)) most in
  let skip := qo_skip o in
  if (skip <? 0) || ((0 <? size) && negb (skip mod size =? 0)) then None
  else
    prefix ← prefix_text route (qo_q o);
    Some (query_text
      ((match sel with [] => [] | _ => ["sel=" +:+ join "," sel] end)
       ++ (match traitList with [] => [] | _ => ["traits=" +:+ join "," traitList] end)
       ++ (match orderName with Some name => ["order=" +:+ name] | None => [] end)
       ++ (if is_paged route && negb (skip =? 0) then ["skip=" +:+ Z_str skip] else [])
       ++ (match prefix with Some q => ["q=" +:+ encodeURIComponent q] | None => [] end)
       ++ (if (0 <? fallback) && negb (size =? fallback) then ["limit=" +:+ Z_str size] else []))).

Definition routeFile (route : FilterRoute) : string :=
  match route with
  | Counts => "counts.json"
  | Titles => "titles.json"
  | People => "people.json"
  | PeopleCounts => "people/counts.json"
  | Values kind => "values/" +:+ kind +:+ ".json"
  | PeopleValues trait => "people/values/" +:+ trait +:+ ".json"
  end.

Definition filterUrl (base : string) (type : ExploreType) (route : FilterRoute) (o : QueryOptions) : option string :=
  query ← canonicalQuery route o (Some type);
  let segment := match type with ETv => "series" | EMovie => "movie" | EAll => "all" end in
  Some (base +:+ "/index/filter/" +:+ segment +:+ "/" +:+ routeFile route +:+ query).

(** ** [filterTitles] *)

(** [SHARED_ATLAS]: [/atlas/~] and eight lowercase hex digits somewhere, then a slash, a question mark or the end. *)
Definition is_hex (c : ascii) : bool := is_digit c || char_in "a" "f" c.
Definition shared_here (url : string) : bool :=
  starts_with "/atlas/~" url
  && (let gid := String.substring 8 8 url in
      (String.length gid =? 8)%nat && all_chars is_hex gid
      && match str_drop 16 url with "" => true | String c _ => is_char "/" c || is_char "?" c end).
Fixpoint SHARED_ATLAS (url : string) : bool :=
  shared_here url || match url with "" => false | String _ url => SHARED_ATLAS url end.

(** atlas's answer: its status, what it left out, and a page of titles with the order they are in. *)
Record TitlesAnswer : Type := mkAnswer {
  ta_status : Z;
  ta_ignored : list string;
  ta_kindsUnavailable : list string;
  ta_unknownValues : list string;
  ta_titles : list TitleRef;
  ta_order : string;
}.

Inductive Refusal : Type := FilterUnavailable (message : string) (deployed : bool) | RequestError (message : string).

Definition notDeployed (url : string) (res : TitlesAnswer) : bool := (ta_status res =? 404) && negb (SHARED_ATLAS url).

Section Reader.
Context (fetch : string -> TitlesAnswer + string) (base : string) (type : ExploreType) (items : list FilterItem).

(** The closure's [order], [offset], [last] and [given]. *)
Record Pager : Type := mkPager { pg_order : option string; pg_offset : Z; pg_last : Z; pg_given : list string }.
Definition newPager : Pager := mkPager None 0 0 [].

Definition readTitles (skip : Z) : (list TitleRef * string) + Refusal :=
  match filterUrl base type Titles (mkOptions items [] None skip None None) with
  | None => inr (FilterUnavailable "atlas refuses this selection" true)
  | Some url =>
    match fetch url with
    | inr message => inr (RequestError message)
    | inl res =>
      if notDeployed url res then inr (FilterUnavailable "atlas has no filter routes" false)
      else if negb ((200 <=? ta_status res) && (ta_status res <? 300)) then inr (RequestError ("atlas answered " +:+ Z_str (ta_status res)))
      else
        let picked := set_of ((fun item => to_lower (fi_kind item)) <$> items) in
        match filter (fun kind => kind ∈ picked) (ta_ignored res ++ ta_kindsUnavailable res), ta_unknownValues res with
        | _ :: _ as missing, _ => inr (FilterUnavailable ("atlas can't apply " +:+ join ", " missing) true)
        | [], _ :: _ as unknown => inr (FilterUnavailable ("atlas has no " +:+ join ", " unknown) true)
        | [], [] => inl (ta_titles res, ta_order res)
        end
    end
  end.

Definition title_key (t : TitleRef) : string := ref_type t +:+ ":" +:+ Z_str (ref_id t).

(** [answer.titles.filter(...)]: the titles not given before, marked given. *)
Fixpoint fresh_titles (given : list string) (titles : list TitleRef) : list TitleRef * list string :=
  match titles with
  | [] => ([], given)
  | t :: titles =>
    if bool_decide (title_key t ∈ given) then fresh_titles given titles
    else let '(fresh, given) := fresh_titles (given ++ [title_key t]) titles in (t :: fresh, given)
  end.

(** One turn of the loop with the answer read at [offset]. *)
Definition keep_answer (p : Pager) (offset : Z) (answer : list TitleRef * string) : Pager * list TitleRef :=
  let '(fresh, given) := fresh_titles (pg_given p) answer.1 in
  (mkPager (Some answer.2) (offset + TITLES_PAGE) (pg_last p) given, fresh).

(** The loop; it reads on past pages already given, for as long as the fuel lasts. *)
Fixpoint readOn (fuel : nat) (p : Pager) : option (Pager * (list TitleRef + Refusal)) :=
  match fuel with
  | O => None
  | S fuel =>
    let turn p offset answer :=
      let '(p', fresh) := keep_answer p offset answer in
      match fresh, answer.1 with
      | _ :: _, _ | [], [] => Some (p', inl fresh)
      | [], _ :: _ => readOn fuel p'
      end in
    match readTitles (pg_offset p) with
    | inr e => Some (p, inr e)
    | inl answer =>
      if match pg_order p with Some o => negb (String.eqb answer.2 o) | None => false end then
        match readTitles 0 with
        | inr e => Some (mkPager (pg_order p) 0 (pg_last p) (pg_given p), inr e)
        | inl answer => turn p 0 answer
        end
      else turn p (pg_offset p) answer
    end
  end.

(** The row's [load]. *)
Definition loadPage (fuel : nat) (p : Pager) (page : Z) : option (Pager * (list TitleRef + Refusal)) :=
  let offset := if page =? pg_last p + 1 then pg_offset p else (page - 1) * TITLES_PAGE in
  readOn fuel (mkPager (pg_order p) offset page (pg_given p)).
End Reader.
End Spelling.

(** ** Lexicographic comparators *)

Definition mirrored {A} (cmp : A -> A -> Z) : Prop := forall x y, cmp y x = - cmp x y.

Lemma lex_comparator {A} (c1 c2 : A -> A -> Z) :
  mirrored c1 -> mirrored c2 -> Comparator c1 -> Comparator c2 -> Comparator (fun x y => or_num (c1 x y) (c2 x y)).
Proof.
  intros M1 M2 C1 C2. split; unfold or_num.
  - intros x y. rewrite (M1 x y), (M2 x y). destruct (Z.eqb_spec (c1 x y) 0) as [E|]; destruct (Z.eqb_spec (- c1 x y) 0); lia.
  - intros x y z. pose proof (cmp_trans (cmp:=c1) x y z) as T1. pose proof (cmp_trans (cmp:=c2) x y z) as T2.
    pose proof (cmp_trans (cmp:=c1) z x y) as T3. pose proof (cmp_trans (cmp:=c1) y z x) as T4.
    pose proof (M1 x y). pose proof (M1 y z). pose proof (M1 x z). rewrite !Z.eqb_compare in *.
    destruct (Z.compare_spec (c1 x y) 0), (Z.compare_spec (c1 y z) 0), (Z.compare_spec (c1 x z) 0); lia.
Qed.

Lemma mirrored_lex {A} (c1 c2 : A -> A -> Z) : mirrored c1 -> mirrored c2 -> mirrored (fun x y => or_num (c1 x y) (c2 x y)).
Proof. intros M1 M2 x y. unfold or_num. rewrite (M1 x y), (M2 x y). destruct (Z.eqb_spec (c1 x y) 0), (Z.eqb_spec (- c1 x y) 0); lia. Qed.

Lemma str_cmp_mirrored : mirrored str_cmp.
Proof.
  intros x y. unfold str_cmp. destruct (str_ltb x y) eqn:E1; destruct (str_ltb y x) eqn:E2; try done.
  apply str_ltb_asym in E1. congruence.
Qed.


Lemma str_cmp_eq x y : str_cmp x y = 0 -> x = y.
Proof. unfold str_cmp. destruct (str_ltb x y) eqn:E1; [done|]. destruct (str_ltb y x) eqn:E2; [done|]. intros _. by apply str_ltb_total. Qed.

(** ** The first of each *)

Section Once.
Context {T K : Type} `{!EqDecision K} (f : T -> K).
Implicit Types (l : list T) (seen : list K).

Lemma once_by_elem seen l x : x ∈ once_by f seen l -> x ∈ l /\ f x ∉ seen.
Proof.
  revert seen. induction l as [|y l IH]; intros seen; cbn; [by intros ?%elem_of_nil|]. case_decide as Hy.
  - intros [? ?]%IH. split; [by right|done].
  - intros [->|[Hx Hn]%IH]%elem_of_cons; [split; [by left|done]|]. split; [by right|]. intros Hin. apply Hn. by right.
Qed.

Lemma once_by_covers seen l x : x ∈ l -> f x ∉ seen -> exists y, y ∈ once_by f seen l /\ f y = f x.
Proof.
  revert seen. induction l as [|y l IH]; intros seen; [by intros ?%elem_of_nil|]. cbn. intros [->|Hx]%elem_of_cons Hs.
  - rewrite decide_False by done. exists y. split; [by left|done].
  - case_decide; [eauto|]. destruct (decide (f x = f y)) as [E|]; [exists y; split; [by left|done]|].
    destruct (IH (f y :: seen) Hx) as (z & Hz & Ez); [by intros [|]%elem_of_cons|]. exists z. split; [by right|done].
Qed.

Lemma once_by_NoDup seen l : NoDup (f <$> once_by f seen l).
Proof.
  revert seen. induction l as [|y l IH]; intros seen; cbn; [constructor|]. case_decide; [done|]. cbn. constructor; [|done].
  intros (x & E & [_ Hn]%once_by_elem)%list_elem_of_fmap. apply Hn. rewrite <- E. by left.
Qed.

Lemma once_by_sorted (R : T -> T -> Prop) seen l : StronglySorted R l -> StronglySorted R (once_by f seen l).
Proof.
  revert seen. induction l as [|y l IH]; intros seen Hs; cbn; [constructor|]. inversion Hs as [|?? Hl Hy]; subst. case_decide; [auto|].
  constructor; [auto|]. apply Forall_forall. intros x [Hx _]%once_by_elem. by apply (proj1 (Forall_forall _ _) Hy).
Qed.

(** Dropping repeated elements first changes nothing. *)
Lemma once_by_nub `{!EqDecision T} seen (seen' : list T) l :
  (forall x, x ∈ seen' -> f x ∈ seen) -> once_by f seen (once_by id seen' l) = once_by f seen l.
Proof.
  revert seen seen'. induction l as [|x l IH]; intros seen seen' Hs; [done|]. cbn [once_by]. unfold id at 1. case_decide as Hx.
  - rewrite (decide_True) by auto. auto.
  - unfold id at 2. cbn [once_by]. case_decide as Hf.
    + apply IH. by intros y [->|?]%elem_of_cons; auto.
    + f_equal. apply IH. intros y [->|?]%elem_of_cons; [by left|right; auto].
Qed.
End Once.

Lemma nub_elem {T} `{!EqDecision T} (l : list T) x : x ∈ once_by id [] l <-> x ∈ l.
Proof.
  split; [by intros [? _]%once_by_elem|]. intros Hx. destruct (once_by_covers id [] l x Hx) as (y & Hy & E); [by intros ?%elem_of_nil|].
  unfold id in E. by subst.
Qed.

(** ** A selection's spelling is its own *)

#[local] Instance Normal_eq_dec : EqDecision Normal.
Proof. solve_decision. Defined.

Class TextLaws `{!UrlApi, !TextApi} : Prop := {
  trim_bar s : has_char "|" s = false -> has_char "|" (trim s) = false;
  lower_bar s : has_char "|" s = false -> has_char "|" (to_lower s) = false;
  upper_bar s : has_char "|" s = false -> has_char "|" (to_upper s) = false;
  runs_bar s : Forall (fun w => has_char "|" w = false) (letter_runs s);
}.

Section Canonical.
Context {URL : UrlApi} {TEXT : TextApi} {LAWS : TextLaws} (thisYear : Z).

(** A read item: its values are not empty and hold no bar. *)
Definition normal_ok (n : Normal) : Prop := no_ids n <> [] /\ Forall (fun id => has_char "|" id = false) (no_ids n).

Lemma Z_str_bar z : has_char "|" (Z_str z) = false.
Proof. by apply Z_str_no_char. Qed.

Lemma number_text_bar n : has_char "|" (number_text n) = false.
Proof.
  destruct n as [z|]; [|done]. unfold number_text. destruct (_ <? _); [apply Z_str_bar|].
  destruct (shortest_digits z 17 1) as [c0 m0]. destruct (if c0 mod 10 =? 0 then _ else _) as [c m].
  destruct (_ <? _); [apply Z_str_bar|]. pose proof (Z_str_bar c) as Hc. destruct (Z_str c) as [|d rest]; [done|].
  cbn in Hc. apply orb_false_iff in Hc as [Hd Hr]. rewrite !has_char_app, Z_str_bar. cbn [has_char]. rewrite Hd.
  destruct (truthy rest); cbn; by rewrite ?Hr.
Qed.

Lemma bornRange_bar id range : bornRange thisYear id = Some range -> has_char "|" range = false.
Proof.
  unfold bornRange. destruct (split_on "-" id) as [|a [|b [|]]]; try done.
  assert (H : forall o : option Z, has_char "|" (from_option Z_str "" o) = false) by (intros [z|]; [apply Z_str_bar|done]).
  destruct (birth_year thisYear (trim a)) as [from|], (birth_year thisYear (trim b)) as [to|]; try done; [|by destruct from].
  assert (Hr : Some (from_option Z_str "" from +:+ "-" +:+ from_option Z_str "" to) = Some range -> has_char "|" range = false).
  { intros [= <-]. rewrite has_char_app, (H from). exact (H to). }
  destruct from as [f|], to as [t|]; [destruct (t <? f); [done|exact Hr]|exact Hr|exact Hr|done].
Qed.

Lemma join_bar sep (l : list string) :
  has_char "|" sep = false -> Forall (fun w => has_char "|" w = false) l -> has_char "|" (join sep l) = false.
Proof.
  intros Hs. induction 1 as [|x l Hx _ IH]; [done|]. destruct l as [|y l]; [done|]. by rewrite join_cons, !has_char_app, Hx, Hs, IH.
Qed.

Lemma fold_bar s : has_char "|" (fold s) = false.
Proof. apply join_bar; [done|]. apply Forall_forall. intros w [_ Hw]%list_elem_of_filter. by apply (proj1 (Forall_forall _ _) (runs_bar s)). Qed.

Lemma dash_spaces_bar s : has_char "|" s = false -> has_char "|" (dash_spaces s) = false.
Proof.
  induction s as [|c s IH]; [done|]. cbn. rewrite !orb_false_iff. intros [Hc Hs]. split; [|auto]. by destruct (is_char " " c).
Qed.

Lemma normalise_bar k raw kinds type kind id :
  has_char "|" raw = false -> normalise thisYear k raw kinds type = Some (kind, id) -> has_char "|" id = false.
Proof.
  intros Hraw%trim_bar. unfold normalise. destruct (negb (truthy (trim raw))); [done|].
  set (kd := match kinds with OfTitles => _ | OfPeople => _ end).
  destruct (kind_spec kinds kd) as [[]| |]; try done.
  - destruct (all_digits _); [|done]. intros [= _ <-]. apply number_text_bar.
  - destruct (all_digits _); [|done]. intros [= _ <-]. apply number_text_bar.
  - destruct (bornRange thisYear (trim raw)) eqn:E; [|done]. intros [= _ <-]. by eapply bornRange_bar.
  - intros [= _ <-]. by apply lower_bar.
  - intros [= _ <-]. by apply upper_bar.
  - by intros [= _ <-].
  - destruct (_ && _); [by intros [= _ <-]|]. destruct (all_digits _); [|done]. intros [= _ <-]. exact (number_text_bar _).
  - destruct (truthy _); [|done]. intros [= _ <-]. apply dash_spaces_bar, fold_bar.
  - destruct (all_digits _); [case_bool_decide; [done|]; intros [= _ <-]; apply number_text_bar|].
    unfold typed_like. destruct (split_on "-" (trim raw)) as [|t [|digits [|]]]; try done.
    destruct (String.eqb _ "movie" || String.eqb _ "series") eqn:Et; [|done]. cbn [andb]. destruct (all_digits digits); [|done]. cbn iota beta.
    destruct (bool_decide (type = None) || bool_decide (type = Some EAll)); [|done]. intros Heq. injection Heq as _ <-. rewrite has_char_app. apply orb_false_iff. split; [|exact (number_text_bar _)].
    apply orb_true_iff in Et as [Et|Et]; apply String.eqb_eq in Et; by rewrite Et.
  - by intros [= _ <-].
Qed.

Lemma split_bar s : Forall (fun raw => has_char "|" raw = false) (split_on "|" s).
Proof.
  induction s as [|c s IH]; cbn; [repeat constructor|]. case_decide as Hc; [by constructor|].
  destruct (split_on "|" s) as [|x xs]; [repeat constructor; cbn; by rewrite bool_decide_false|].
  apply Forall_cons in IH as [Hx Hxs]. constructor; [|done]. cbn. by rewrite bool_decide_false.
Qed.

Lemma read_values_bar k kinds type kind raws kind' ids :
  Forall (fun raw => has_char "|" raw = false) raws -> read_values thisYear k kinds type kind raws = Some (kind', ids) ->
  Forall (fun id => has_char "|" id = false) ids /\ length ids = length raws.
Proof.
  intros Hr. revert kind kind' ids. induction Hr as [|raw raws Hraw _ IH]; intros kind kind' ids; cbn; [by intros [= _ <-]|].
  destruct (normalise thisYear k raw kinds type) as [[k2 id]|] eqn:En; [|done]. cbn. case_match; [done|].
  destruct (read_values thisYear k kinds type (Some k2) raws) as [[k3 ids']|] eqn:Er; [|done]. cbn. intros [= <- <-].
  destruct (IH _ _ _ Er) as [H1 H2]. split; [constructor; [by eapply normalise_bar|done]|cbn; by rewrite H2].
Qed.

Lemma normal_item_ok kinds type item n : normal_item thisYear kinds type item = Some n -> normal_ok n.
Proof.
  unfold normal_item. destruct (read_values thisYear _ _ _ _ _) as [[kind ids]|] eqn:Er; [|done]. cbn.
  destruct kind as [kind|]; [|done]. case_match; [done|]. intros [= <-].
  destruct (read_values_bar _ _ _ _ _ _ _ (split_bar _) Er) as [Hb Hl]. split; cbn.
  - pose proof (split_on_ne "|" (fi_id item)) as Hne. destruct ids as [|id ids]; [by destruct (split_on "|" (fi_id item))|].
    intros E. assert (Hin : id ∈ js_sort str_cmp (set_of (id :: ids))) by (apply elem_of_js_sort, elem_of_set_of; by left).
    rewrite E in Hin. by apply elem_of_nil in Hin.
  - apply Forall_forall. intros x Hx. apply elem_of_js_sort in Hx. apply (proj1 (elem_of_set_of _ _)) in Hx. by apply (proj1 (Forall_forall _ _) Hb).
Qed.

Lemma compareNormal_eq a b : normal_ok a -> normal_ok b -> compareNormal a b = 0 -> a = b.
Proof.
  intros [Ha1 Ha2] [Hb1 Hb2]. unfold compareNormal, or_num.
  destruct (Z.eqb_spec (str_cmp (no_kind a) (no_kind b)) 0) as [Ek|Hk].
  - destruct (Z.eqb_spec (bool_Z (no_exclude a) - bool_Z (no_exclude b)) 0) as [Ee|He]; [|done]. intros Ej.
    apply str_cmp_eq in Ek, Ej. apply (join_inj "|") in Ej; [|done..]. destruct a as [ka ia ea], b as [kb ib eb]. cbn in *. subst.
    f_equal. by destruct ea, eb.
  - destruct (Z.eqb_spec (str_cmp (no_kind a) (no_kind b)) 0); done.
Qed.

Lemma compareNormal_mirrored : mirrored compareNormal.
Proof.
  apply (mirrored_lex _ _ (mirrored_lex (fun a b => str_cmp (no_kind a) (no_kind b)) (fun a b => bool_Z (no_exclude a) - bool_Z (no_exclude b))
    (fun x y => str_cmp_mirrored _ _) ltac:(intros x y; lia)) (fun x y => str_cmp_mirrored (joined x) (joined y))).
Qed.

#[local] Instance compareNormal_comparator : Comparator compareNormal.
Proof.
  assert (M1 : mirrored (fun a b => bool_Z (no_exclude a) - bool_Z (no_exclude b))) by (intros x y; lia).
  assert (M2 : mirrored (fun a b => str_cmp (no_kind a) (no_kind b))) by (intros x y; apply str_cmp_mirrored).
  apply (lex_comparator (fun a b => or_num (str_cmp (no_kind a) (no_kind b)) (bool_Z (no_exclude a) - bool_Z (no_exclude b)))).
  - by apply mirrored_lex.
  - intros x y. apply str_cmp_mirrored.
  - apply lex_comparator; [done..|apply (comparator_on no_kind), _|split; intros; lia].
  - apply (comparator_on joined), _.
Qed.

(** Sorted and with repeats dropped, a read selection is determined by what it holds. *)
Lemma sorted_nub_unique (n1 n2 : list Normal) :
  Forall normal_ok n1 -> (forall n, n ∈ n1 <-> n ∈ n2) ->
  once_by id [] (js_sort compareNormal n1) = once_by id [] (js_sort compareNormal n2).
Proof.
  intros H1 He.
  assert (Hs : forall l, Forall normal_ok l -> StronglySorted (fun a b => compareNormal a b < 0) (once_by id [] (js_sort compareNormal l))).
  { intros l Hl. eapply StronglySorted_strict; [|
      |apply once_by_sorted, (js_sort_sorted compareNormal)].
    - pose proof (once_by_NoDup id [] (js_sort compareNormal l)) as H. by rewrite list_fmap_id in H.
    - intros x y Hx Hy Hne Hle. unfold cmp_le in Hle. destruct (decide (compareNormal x y = 0)) as [E|]; [|lia]. exfalso. apply Hne.
      assert (Hok : forall z, z ∈ once_by id [] (js_sort compareNormal l) -> normal_ok z).
      { intros z Hz. rewrite nub_elem, elem_of_js_sort in Hz. by apply (proj1 (Forall_forall _ _) Hl). }
      apply compareNormal_eq; auto. }
  assert (H2 : Forall normal_ok n2) by (apply Forall_forall; intros n Hn%He; by apply (proj1 (Forall_forall _ _) H1)).
  eapply (strict_sorted_unique (fun a b => compareNormal a b < 0)); auto.
  - intros x. pose proof (compareNormal_mirrored x x). lia.
  - intros x y. pose proof (compareNormal_mirrored x y). lia.
  - intros x. by rewrite !nub_elem, !elem_of_js_sort.
Qed.

Definition same_elements {T} (l1 l2 : list T) : Prop := forall x, x ∈ l1 <-> x ∈ l2.

Lemma mapM_same {T U} (f : T -> option U) l1 l2 k1 :
  same_elements l1 l2 -> mapM f l1 = Some k1 -> exists k2, mapM f l2 = Some k2 /\ same_elements k1 k2.
Proof.
  intros He H1. apply mapM_Some in H1 as F1.
  assert (Hf : forall x, x ∈ l2 -> is_Some (f x)).
  { intros x Hx%He. apply list_elem_of_lookup in Hx as [i Hi]. destruct (Forall2_lookup_l _ _ _ _ _ F1 Hi) as (y & _ & Hy). eauto. }
  destruct (mapM_is_Some_2 f l2) as [k2 H2]; [by apply Forall_forall|]. exists k2. split; [done|]. apply mapM_Some in H2 as F2.
  assert (Hsub : forall l l' (k k' : list U), Forall2 (fun x y => f x = Some y) l k -> Forall2 (fun x y => f x = Some y) l' k' ->
    (forall x, x ∈ l -> x ∈ l') -> forall y, y ∈ k -> y ∈ k').
  { intros l l' k k' G G' Hs y [i Hi]%list_elem_of_lookup. destruct (Forall2_lookup_r _ _ _ _ _ G Hi) as (x & Hx & Hy).
    apply list_elem_of_lookup_2, Hs in Hx. apply list_elem_of_lookup in Hx as [j Hj].
    destruct (Forall2_lookup_l _ _ _ _ _ G' Hj) as (y' & Hj' & Hy'). replace y with y' by congruence. by eapply list_elem_of_lookup_2. }
  intros y. split; [by eapply (Hsub l1 l2); [..|intros; apply He]|by eapply (Hsub l2 l1); [..|intros; apply He]].
Qed.

Lemma bornIds_same kinds n1 n2 : same_elements n1 n2 -> bornIds kinds n1 ≡ₚ bornIds kinds n2.
Proof.
  intros He. unfold bornIds. apply NoDup_Permutation; [apply NoDup_set_of..|]. intros id.
  rewrite !elem_of_set_of, !list_elem_of_bind. setoid_rewrite list_elem_of_filter. split; intros (n & Hn & HP & Hin%He); eauto.
Qed.

Lemma existsb_same {T} (p : T -> bool) l1 l2 : (forall x, x ∈ l1 -> x ∈ l2) -> existsb p l1 = true -> existsb p l2 = true.
Proof. intros He. rewrite !existsb_exists. intros (x & Hx%list_elem_of_In%He & Hp). exists x. split; [by apply list_elem_of_In|done]. Qed.

Lemma spelled_same items1 items2 kinds type :
  same_elements items1 items2 -> spelled thisYear items1 kinds type = spelled thisYear items2 kinds type.
Proof.
  intros He. unfold spelled. destruct (mapM (normal_item thisYear kinds type) items1) as [n1|] eqn:E1.
  - destruct (mapM_same _ _ _ _ He E1) as (n2 & E2 & Hn). rewrite E2. cbn [mbind option_bind].
    pose proof (bornIds_same kinds n1 n2 Hn) as Hb. rewrite (Permutation_length Hb).
    assert (Hx : existsb (has_char "-") (bornIds kinds n1) = existsb (has_char "-") (bornIds kinds n2)).
    { apply eq_true_iff_eq. split; apply existsb_same; intros x; by rewrite Hb. }
    assert (Hok : Forall normal_ok n1).
    { apply mapM_Some in E1. apply Forall_forall. intros y [i Hi]%list_elem_of_lookup.
      destruct (Forall2_lookup_r _ _ _ _ _ E1 Hi) as (x & _ & Hy). by eapply normal_item_ok. }
    rewrite Hx. case_match; [done|].
    rewrite <- (once_by_nub item_text [] [] (js_sort compareNormal n1)), <- (once_by_nub item_text [] [] (js_sort compareNormal n2))
      by (by intros x ?%elem_of_nil).
    by rewrite (sorted_nub_unique n1 n2).
  - destruct (mapM (normal_item thisYear kinds type) items2) as [n2|] eqn:E2; [|done]. exfalso.
    destruct (mapM_same _ items2 items1 _ (fun x => iff_sym (He x)) E2) as (n1 & E1' & _). congruence.
Qed.

Lemma spelled_once items kinds type texts :
  spelled thisYear items kinds type = Some texts -> NoDup texts /\ (length texts <= MAX_SELECTION)%nat.
Proof.
  unfold spelled. destruct (mapM (normal_item thisYear kinds type) items) as [n|] eqn:E; [|done]. cbn [mbind option_bind].
  case_match; [done|]. destruct (Nat.ltb_spec MAX_SELECTION (sum_list (length ∘ no_ids <$> once_by item_text [] (js_sort compareNormal n)))) as [|Hle]; [done|].
  intros [= <-]. split; [apply once_by_NoDup|]. rewrite length_fmap. etransitivity; [|exact Hle].
  assert (Hok : forall x, x ∈ once_by item_text [] (js_sort compareNormal n) -> (1 <= length (no_ids x))%nat).
  { intros x [Hx _]%once_by_elem. apply elem_of_js_sort in Hx. apply mapM_Some in E. apply list_elem_of_lookup in Hx as [i Hi].
    destruct (Forall2_lookup_r _ _ _ _ _ E Hi) as (it & _ & Hy). apply normal_item_ok in Hy as [Hne _]. destruct (no_ids x); [done|cbn; lia]. }
  revert Hok. generalize (once_by item_text [] (js_sort compareNormal n)). clear. intros l. induction l as [|x l IH]; intros Hok; [cbn; lia|].
  cbn. pose proof (Hok x ltac:(by left)). specialize (IH ltac:(intros; apply Hok; by right)). lia.
Qed.
End Canonical.

(** a filter address does not depend on how the selection was made: picked in another order, or with an item
    picked twice, the same values give the same address, which is the cache key atlas answers at. *)
Lemma filterUrl_canonical `{TL : TextLaws} (thisYear : Z) base type route items1 items2 traits1 traits2 order skip limit q :
  same_elements items1 items2 -> same_elements traits1 traits2 ->
  filterUrl thisYear base type route (mkOptions items1 traits1 order skip limit q)
  = filterUrl thisYear base type route (mkOptions items2 traits2 order skip limit q).
Proof.
  intros Hi Ht. unfold filterUrl, canonicalQuery. cbn [qo_items qo_traits qo_order qo_skip qo_limit qo_q].
  by rewrite (spelled_same thisYear items1 items2), (spelled_same thisYear traits1 traits2) by done.
Qed.

(** ** Reading a selection's titles *)

Section Pages.
Context {URL : UrlApi} {TEXT : TextApi} (thisYear : Z) (base : string) (type : ExploreType) (items : list FilterItem).
Implicit Types (p : Pager) (fetch : string -> TitlesAnswer + string).

(** Pages asked for in any order, each against whatever atlas answers then; a refused page gives nothing. *)
Fixpoint loadPages (fuel : nat) p (asked : list (Z * (string -> TitlesAnswer + string))) : option (Pager * list (list TitleRef)) :=
  match asked with
  | [] => Some (p, [])
  | (page, fetch) :: asked =>
    '(p, answer) ← loadPage thisYear fetch base type items fuel p page;
    '(p, pages) ← loadPages fuel p asked;
    Some (p, match answer with inl titles => titles | inr _ => [] end :: pages)
  end.

Lemma fresh_titles_spec given titles fresh given' :
  fresh_titles given titles = (fresh, given') ->
  given' = given ++ (title_key <$> fresh) /\ NoDup (title_key <$> fresh) /\ forall t, t ∈ fresh -> title_key t ∉ given.
Proof.
  revert given fresh given'. induction titles as [|t titles IH]; intros given fresh given'; cbn.
  - intros [= <- <-]. cbn. rewrite app_nil_r. split; [done|]. split; [constructor|]. by intros t ?%elem_of_nil.
  - case_bool_decide as Ht; [apply IH|]. destruct (fresh_titles _ titles) as [f g] eqn:E. intros [= <- <-].
    destruct (IH _ _ _ E) as (-> & Hnd & Hn). cbn. rewrite <- app_assoc. split; [done|]. split.
    + constructor; [|done]. intros (t' & Ek & Hin)%list_elem_of_fmap. apply (Hn t' Hin). rewrite <- Ek. apply elem_of_app. right. by left.
    + intros t' [->|Hin]%elem_of_cons; [done|]. intros Hg. apply (Hn t' Hin), elem_of_app. by left.
Qed.

Lemma readOn_given fetch fuel p p' answer :
  readOn thisYear fetch base type items fuel p = Some (p', answer) -> NoDup (pg_given p) ->
  pg_given p' = pg_given p ++ (title_key <$> match answer with inl fresh => fresh | inr _ => [] end) /\ NoDup (pg_given p').
Proof.
  revert p. induction fuel as [|fuel IH]; intros p; [done|]. cbn [readOn].
  assert (Hturn : forall offset a,
    match keep_answer p offset a with
    | (p'0, fresh) => match fresh, a.1 with
                      | _ :: _, _ | [], [] => Some (p'0, inl fresh)
                      | [], _ :: _ => readOn thisYear fetch base type items fuel p'0
                      end
    end = Some (p', answer) -> NoDup (pg_given p) ->
    pg_given p' = pg_given p ++ (title_key <$> match answer with inl fresh => fresh | inr _ => [] end) /\ NoDup (pg_given p')).
  { intros offset a. unfold keep_answer. destruct (fresh_titles (pg_given p) a.1) as [fresh given] eqn:E.
    destruct (fresh_titles_spec _ _ _ _ E) as (-> & Hnd & Hn). intros H Hg.
    assert (Hall : NoDup (pg_given p ++ (title_key <$> fresh))).
    { apply NoDup_app. split; [done|]. split; [|done]. intros k Hk (t & -> & Ht)%list_elem_of_fmap. by apply (Hn t Ht). }
    destruct fresh as [|f fresh]; [|by injection H as <- <-]. destruct a.1; [by injection H as <- <-|].
    apply IH in H; cbn in *; [by rewrite app_nil_r in H|done]. }
  destruct (readTitles thisYear fetch base type items (pg_offset p)) as [a|e]; [|intros [= <- <-] ?; cbn; by rewrite app_nil_r].
  destruct (match pg_order p with Some o => negb (String.eqb a.2 o) | None => false end); [|apply Hturn].
  destruct (readTitles thisYear fetch base type items 0) as [a'|e]; [apply Hturn|].
  intros [= <- <-] ?. cbn. by rewrite app_nil_r.
Qed.

Lemma loadPages_given fuel p asked p' pages :
  loadPages fuel p asked = Some (p', pages) -> NoDup (pg_given p) ->
  pg_given p' = pg_given p ++ (title_key <$> concat pages) /\ NoDup (pg_given p').
Proof.
  revert p p' pages. induction asked as [|[page fetch] asked IH]; intros p p' pages; cbn.
  - intros [= <- <-]. cbn. by rewrite app_nil_r.
  - destruct (loadPage _ _ _ _ _ _ _ _) as [[p1 answer]|] eqn:E1; [|done]. cbn.
    destruct (loadPages fuel p1 asked) as [[p2 pages']|] eqn:E2; [|done]. cbn. intros [= <- <-] Hg.
    unfold loadPage in E1. destruct (readOn_given _ _ _ _ _ E1 Hg) as [H1 H2]. destruct (IH _ _ _ E2 H2) as [H3 H4].
    split; [|done]. rewrite H3, H1. cbn. by rewrite fmap_app, app_assoc.
Qed.
End Pages.

(** a title is given once: whatever pages of a selection are asked for, in whatever order, and whatever atlas
    answers (new orders, restarts, repeated titles, refusals), no title is in two pages or twice in one. *)
Lemma filterTitles_once `{!UrlApi, !TextApi} (thisYear : Z) base type items fuel asked p pages :
  loadPages thisYear base type items fuel newPager asked = Some (p, pages) -> NoDup (title_key <$> concat pages).
Proof. intros Hl. destruct (loadPages_given _ _ _ _ _ _ _ _ _ Hl) as [E Hnd]; [constructor|]. cbn in E. by rewrite E in Hnd. Qed.

Section Complete.
Context {URL : UrlApi} {TEXT : TextApi} (thisYear : Z) (base : string) (type : ExploreType) (items : list FilterItem).
Context (fetch : string -> TitlesAnswer + string).

(** Page after page until an empty one, as a row is read to its end. *)
Fixpoint loadAll (fuel : nat) (p : Pager) (page : Z) : option (list TitleRef) :=
  match fuel with
  | O => None
  | S fuel' =>
    match loadPage thisYear fetch base type items fuel p page with
    | Some (_, inl []) => Some []
    | Some (p', inl titles) => (app titles) <$> loadAll fuel' p' (page + 1)
    | _ => None
    end
  end.

(** atlas pages one fixed list by [skip]. *)
Definition pages_of (all : list TitleRef) (order : string) : Prop :=
  forall k : nat, readTitles thisYear fetch base type items (TITLES_PAGE * Z.of_nat k) = inl (take 24 (drop (24 * k) all), order).

Lemma once_by_ext (seen seen' : list string) (l : list TitleRef) :
  (forall k, k ∈ seen <-> k ∈ seen') -> once_by title_key seen l = once_by title_key seen' l.
Proof.
  revert seen seen'. induction l as [|t l IH]; intros seen seen' He; [done|]. cbn.
  destruct (decide (title_key t ∈ seen)) as [H|H]; [rewrite decide_True by (by apply He); auto|].
  rewrite decide_False by (by rewrite <- He). f_equal. apply IH. intros k. by rewrite !elem_of_cons, He.
Qed.

Lemma fresh_titles_once given l rest fresh given' :
  fresh_titles given l = (fresh, given') -> once_by title_key given (l ++ rest) = fresh ++ once_by title_key given' rest.
Proof.
  revert given fresh given'. induction l as [|t l IH]; intros given fresh given'; cbn; [by intros [= <- <-]|].
  case_bool_decide as Ht; [rewrite decide_True by done; apply IH|]. rewrite decide_False by done.
  destruct (fresh_titles (given ++ [title_key t]) l) as [f g] eqn:E. intros [= <- <-]. cbn. f_equal. rewrite <- (IH _ _ _ E).
  apply once_by_ext. intros k. rewrite elem_of_app, elem_of_cons, list_elem_of_singleton. tauto.
Qed.

Context (all : list TitleRef) (order : string) (Hpages : pages_of all order).

Definition at_page (p : Pager) (k : nat) : Prop :=
  pg_offset p = TITLES_PAGE * Z.of_nat k /\ (pg_order p = None \/ pg_order p = Some order).

(** The loop gives the next new titles, or an empty page when there are none. *)
Lemma readOn_spec fuel p k :
  at_page p k -> (length all - 24 * k < fuel)%nat ->
  exists p' k' fresh, readOn thisYear fetch base type items fuel p = Some (p', inl fresh)
    /\ at_page p' k' /\ pg_last p' = pg_last p /\ (k < k')%nat
    /\ once_by title_key (pg_given p) (drop (24 * k) all) = fresh ++ once_by title_key (pg_given p') (drop (24 * k') all)
    /\ (fresh = [] -> drop (24 * k') all = []) /\ (fresh <> [] -> (24 * k < length all)%nat).
Proof.
  revert p k. induction fuel as [|fuel IH]; intros p k [Ho Hord] Hf; [lia|]. cbn [readOn]. rewrite Ho, Hpages.
  assert (Hsame : match pg_order p with Some o => negb (String.eqb order o) | None => false end = false)
    by (destruct Hord as [->| ->]; [done|by rewrite String.eqb_refl]).
  cbn [snd]. rewrite Hsame. unfold keep_answer. cbn [fst snd].
  assert (Hrest : drop (24 * k) all = take 24 (drop (24 * k) all) ++ drop (24 * S k) all).
  { rewrite <- (take_drop 24 (drop (24 * k) all)) at 1. rewrite drop_drop. do 2 f_equal. lia. }
  destruct (fresh_titles (pg_given p) (take 24 (drop (24 * k) all))) as [fresh given] eqn:E.
  pose proof (fresh_titles_once _ _ (drop (24 * S k) all) _ _ E) as Hon. rewrite <- Hrest in Hon.
  assert (Hat : at_page (mkPager (Some order) (TITLES_PAGE * Z.of_nat k + TITLES_PAGE) (pg_last p) given) (S k)).
  { split; [cbn; unfold TITLES_PAGE; lia|by right]. }
  assert (Hlen : fresh <> [] -> (24 * k < length all)%nat).
  { intros Hne. destruct (decide (24 * k < length all)%nat) as [|Hge]; [done|]. rewrite (drop_ge all) in E by lia. cbn in E. congruence. }
  set (p1 := mkPager _ _ _ _) in *. destruct fresh as [|f fresh].
  2: { exists p1, (S k), (f :: fresh). do 4 (split; [done || lia|]). split; [exact Hon|]. split; [done|exact Hlen]. }
  destruct (take 24 (drop (24 * k) all)) as [|t page] eqn:Et.
  - exists p1, (S k), []. do 4 (split; [done || lia|]). split; [exact Hon|]. split; [|done]. intros _.
    apply (f_equal length) in Et. rewrite length_take, length_drop in Et. cbn [length] in Et. apply drop_ge. lia.
  - destruct (IH p1 (S k) Hat) as (p' & k' & fr & R1 & R2 & R3 & R4 & R5 & R6 & R7).
    { apply (f_equal length) in Et. rewrite length_take, length_drop in Et. cbn [length] in Et. lia. }
    exists p', k', fr. split; [exact R1|]. split; [done|]. split; [done|]. split; [lia|]. split; [by rewrite Hon, <- R5|].
    split; [done|]. intros Hne. specialize (R7 Hne). lia.
Qed.

Lemma loadAll_spec fuel p k page :
  at_page p k -> pg_last p = page - 1 -> (length all - 24 * k < fuel)%nat ->
  loadAll fuel p page = Some (once_by title_key (pg_given p) (drop (24 * k) all)).
Proof.
  revert p k page. induction fuel as [|fuel IH]; intros p k page Hat Hlast Hf; [lia|]. cbn [loadAll]. unfold loadPage.
  rewrite (proj2 (Z.eqb_eq page (pg_last p + 1))) by lia.
  destruct (readOn_spec (S fuel) (mkPager (pg_order p) (pg_offset p) page (pg_given p)) k Hat Hf) as (p' & k' & fresh & R1 & R2 & R3 & R4 & R5 & R6 & R7).
  rewrite R1. cbn [pg_given pg_last] in *. rewrite R5. destruct fresh as [|f fresh]; [by rewrite R6|].
  rewrite (IH p' k'); [done|done|lia|]. specialize (R7 ltac:(done)). lia.
Qed.
End Complete.

(** against a catalogue that does not change, reading a row to its end stops and gives every title of the
    selection exactly once, in the catalogue's order: one page more than the titles are enough. *)
Lemma filterTitles_complete `{!UrlApi, !TextApi} (thisYear : Z) base type items fetch all order :
  pages_of thisYear base type items fetch all order ->
  loadAll thisYear base type items fetch (S (length all)) newPager 1 = Some (once_by title_key [] all).
Proof.
  intros Hp. rewrite (loadAll_spec thisYear base type items fetch all order Hp _ _ 0); [done| |done|lia].
  split; [done|by left].
Qed.

(** ** A small implementation of the text functions, ASCII only *)

Section SmallText.
#[local] Existing Instance small_api.

#[local] Instance small_text : TextApi := {|
  to_lower := map_chars lower_char; to_upper := map_chars upper_char;
  letter_runs s := split_on "-" (dash_runs false (map_chars lower_char s));
|}.

Lemma map_chars_has f c s : (forall d, f d = c -> d = c) -> has_char c s = false -> has_char c (map_chars f s) = false.
Proof.
  intros Hf. induction s as [|d s IH]; cbn; [done|]. rewrite !orb_false_iff, !bool_decide_eq_false. intros [Hd Hs]. split; [|auto].
  intros E. apply Hd. symmetry. by apply Hf.
Qed.

Lemma lower_keeps_bar d : lower_char d = "|"%char -> d = "|"%char.
Proof. by destruct d as [[] [] [] [] [] [] [] []]. Qed.
Lemma upper_keeps_bar d : upper_char d = "|"%char -> d = "|"%char.
Proof. by destruct d as [[] [] [] [] [] [] [] []]. Qed.

Lemma split_on_has c d s : has_char c s = false -> Forall (fun w => has_char c w = false) (split_on d s).
Proof.
  induction s as [|x s IH]; cbn; [repeat constructor|]. rewrite orb_false_iff. intros [Hx Hs]. specialize (IH Hs).
  destruct (decide (d = x)); [by constructor|]. destruct (split_on d s) as [|w ws]; [repeat constructor; cbn; by rewrite Hx|].
  apply Forall_cons in IH as [Hw Hws]. constructor; [|done]. cbn. by rewrite Hx.
Qed.

Lemma trim_spaces_bar s : has_char "|" s = false -> has_char "|" (trim_spaces s) = false.
Proof.
  induction s as [|c s IH]; [done|]. intros H. destruct c as [[] [] [] [] [] [] [] []]; try exact H.
  cbn in *. apply IH. by apply orb_false_iff in H as [_ ?].
Qed.

#[local] Instance small_text_laws : TextLaws.
Proof.
  split; intros s; cbn.
  - apply trim_spaces_bar.
  - apply map_chars_has, lower_keeps_bar.
  - apply map_chars_has, upper_keeps_bar.
  - apply split_on_has. eapply all_chars_has; [apply dash_runs_chars|done].
Qed.

Lemma filterUrl_canonical_witness :
  filterUrl 2026 "https://atlas" EMovie Titles
    (mkOptions [mkFilter "Genre" "028" false; mkFilter "country" "it|FR|fr" false; mkFilter "Genre" "028" false] [] None 0 None None)
  = filterUrl 2026 "https://atlas" EMovie Titles
    (mkOptions [mkFilter "country" "it|FR|fr" false; mkFilter "Genre" "028" false] [] None 0 None None)
  /\ filterUrl 2026 "https://atlas" EMovie Titles
    (mkOptions [mkFilter "country" "it|FR|fr" false; mkFilter "Genre" "028" false] [] None 0 None None)
  = Some "https://atlas/index/filter/movie/titles.json?sel=country:FR|IT,genre:28".
Proof.
  split; [|vm_compute; reflexivity]. apply (filterUrl_canonical 2026); [|done].
  intros x. rewrite !elem_of_cons. tauto.
Defined.

(** A kind named like a member every object inherits is refused, not kept as an unknown one. *)
Lemma normalise_inherited :
  normalise 2026 "constructor" "x" OfTitles None = None /\ normalise 2026 "director" "x" OfTitles None = Some ("director", "x").
Proof. split; vm_compute; reflexivity. Qed.

Definition titles_url : string := "https://atlas/index/filter/movie/titles.json".
Definition film (id : Z) : TitleRef := mkRef "movie" id.
Definition two_films : list TitleRef := [film 550; film 11; film 550].
Definition small_fetch (url : string) : TitlesAnswer + string :=
  inl (mkAnswer 200 [] [] [] (if String.eqb url titles_url then two_films else []) "v1").

Lemma filterTitles_once_witness :
  loadPages 2026 "https://atlas" EMovie [] 3 newPager [(1, small_fetch); (1, small_fetch)]
    = Some (mkPager (Some "v1") 48 1 ["movie:550"; "movie:11"], [[film 550; film 11]; []])
  /\ NoDup (title_key <$> concat [[film 550; film 11]; []]).
Proof.
  assert (H : loadPages 2026 "https://atlas" EMovie [] 3 newPager [(1, small_fetch); (1, small_fetch)]
    = Some (mkPager (Some "v1") 48 1 ["movie:550"; "movie:11"], [[film 550; film 11]; []])) by (vm_compute; reflexivity).
  split; [exact H|]. exact (filterTitles_once 2026 "https://atlas" EMovie [] 3 _ _ _ H).
Defined.

Lemma small_pages : pages_of 2026 "https://atlas" EMovie [] small_fetch two_films "v1".
Proof.
  intros [|k]; [vm_compute; reflexivity|]. unfold readTitles, filterUrl, canonicalQuery. cbn [qo_items qo_traits qo_order qo_skip qo_limit qo_q].
  change (spelled 2026 [] OfTitles (Some EMovie)) with (Some (@nil string)). cbn [mbind option_bind is_people order_name page_sizes prefix_text is_paged].
  change (Z.min (Z.max (default TITLES_PAGE None) (Z.min TITLES_PAGE 1)) MAX_TITLES_PAGE) with TITLES_PAGE.
  replace (TITLES_PAGE * Z.of_nat (S k)) with (Z.of_nat (S k) * TITLES_PAGE) by lia. rewrite Z.mod_mul by done.
  rewrite (proj2 (Z.ltb_ge (Z.of_nat (S k) * TITLES_PAGE) 0)) by (unfold TITLES_PAGE; lia).
  rewrite (proj2 (Z.eqb_neq (Z.of_nat (S k) * TITLES_PAGE) 0)) by (unfold TITLES_PAGE; lia).
  rewrite (drop_ge two_films) by (cbn; lia). reflexivity.
Qed.

Lemma filterTitles_complete_witness :
  loadAll 2026 "https://atlas" EMovie [] small_fetch 4 newPager 1 = Some [film 550; film 11].
Proof. exact (filterTitles_complete 2026 "https://atlas" EMovie [] small_fetch two_films "v1" small_pages). Defined.
End SmallText.
