(* ===== verification/ProfileKeys.v ===== *)
(** * Library keys and their spellings ([web/src/lib/crypto.ts], [web/src/lib/wire.ts] and the key helpers of
    [web/src/lib/profileKeyResetExecutor.ts])

    A [Uint8Array] is a [list ascii], one 8-bit value per element, which is also what [atob] and [btoa] call a
    binary string. [btoa] and [atob] are the platform's base64 (RFC 4648 §4 and the forgiving decode of the
    WHATWG Infra standard) and are defined here; HKDF is WebCrypto's and is a parameter. *)

From S2P Require Import Prelude JsMap JsText Json Wire Clock.

#[local] Open Scope char_scope.

Abbreviation bytes := (list ascii).

(** ** Base64 *)

(** Six bits, most significant first. *)
Abbreviation sextet := (bool * bool * bool * bool * bool * bool)%type.

Definition sextet_nat (s : sextet) : nat :=
  let '(b5, b4, b3, b2, b1, b0) := s in
  let d (b : bool) (n : nat) := (Nat.b2n b + 2 * n)%nat in
  d b0 (d b1 (d b2 (d b3 (d b4 (d b5 0%nat))))).

Definition nat_sextet (n : nat) : sextet :=
  (Nat.testbit n 5, Nat.testbit n 4, Nat.testbit n 3, Nat.testbit n 2, Nat.testbit n 1, Nat.testbit n 0).

(** The base64 alphabet: [A-Z], [a-z], [0-9], [+], [/]. *)
Definition sextet_char (s : sextet) : ascii :=
  let n := sextet_nat s in
  Ascii.ascii_of_nat
    (if (n <? 26)%nat then n + 65
     else if (n <? 52)%nat then n + 71
     else if (n <? 62)%nat then n - 4
     else if (n =? 62)%nat then 43 else 47)%nat.

Definition char_sextet (c : ascii) : option sextet :=
  let n := Ascii.nat_of_ascii c in
  if ((65 <=? n) && (n <=? 90))%nat then Some (nat_sextet (n - 65))
  else if ((97 <=? n) && (n <=? 122))%nat then Some (nat_sextet (n - 71))
  else if is_digit c then Some (nat_sextet (n + 4))
  else if (n =? 43)%nat then Some (nat_sextet 62)
  else if (n =? 47)%nat then Some (nat_sextet 63)
  else None.

Definition base64_char (c : ascii) : bool := match char_sextet c with Some _ => true | None => false end.

(** [btoa]: three bytes are four sextets, the last group padded with [=]. *)
Fixpoint btoa (raw : bytes) : string :=
  match raw with
  | [] => EmptyString
  | [Ascii a0 a1 a2 a3 a4 a5 a6 a7] =>
    String (sextet_char (a7, a6, a5, a4, a3, a2))
      (String (sextet_char (a1, a0, false, false, false, false)) (String "=" (String "=" EmptyString)))
  | [Ascii a0 a1 a2 a3 a4 a5 a6 a7; Ascii b0 b1 b2 b3 b4 b5 b6 b7] =>
    String (sextet_char (a7, a6, a5, a4, a3, a2))
      (String (sextet_char (a1, a0, b7, b6, b5, b4))
        (String (sextet_char (b3, b2, b1, b0, false, false)) (String "=" EmptyString)))
  | Ascii a0 a1 a2 a3 a4 a5 a6 a7 :: Ascii b0 b1 b2 b3 b4 b5 b6 b7 :: Ascii c0 c1 c2 c3 c4 c5 c6 c7 :: rest =>
    String (sextet_char (a7, a6, a5, a4, a3, a2))
      (String (sextet_char (a1, a0, b7, b6, b5, b4))
        (String (sextet_char (b3, b2, b1, b0, c7, c6))
          (String (sextet_char (c5, c4, c3, c2, c1, c0)) (btoa rest))))
  end.

(** The bytes of a run of sextets; the bits left over at the end are dropped. *)
Fixpoint sextet_bytes (l : list sextet) : option bytes :=
  match l with
  | [] => Some []
  | [_] => None
  | [(a5, a4, a3, a2, a1, a0); (b5, b4, b3, b2, b1, b0)] => Some [Ascii b4 b5 a0 a1 a2 a3 a4 a5]
  | [(a5, a4, a3, a2, a1, a0); (b5, b4, b3, b2, b1, b0); (c5, c4, c3, c2, c1, c0)] =>
    Some [Ascii b4 b5 a0 a1 a2 a3 a4 a5; Ascii c2 c3 c4 c5 b0 b1 b2 b3]
  | (a5, a4, a3, a2, a1, a0) :: (b5, b4, b3, b2, b1, b0) :: (c5, c4, c3, c2, c1, c0) :: (d5, d4, d3, d2, d1, d0) :: rest =>
    (fun tail => Ascii b4 b5 a0 a1 a2 a3 a4 a5 :: Ascii c2 c3 c4 c5 b0 b1 b2 b3 :: Ascii d0 d1 d2 d3 d4 d5 c0 c1 :: tail)
      <$> sextet_bytes rest
  end.

Definition ascii_whitespace (c : ascii) : bool :=
  let n := Ascii.nat_of_ascii c in ((n =? 9) || (n =? 10) || (n =? 12) || (n =? 13) || (n =? 32))%nat.

(** Two trailing [=] are removed from a text whose length is a multiple of four, or one. *)
Definition unpad (l : list ascii) : list ascii :=
  if (length l mod 4 =? 0)%nat then
    match reverse l with
    | a :: b :: rest =>
      if bool_decide (a = "="%char) then if bool_decide (b = "="%char) then reverse rest else reverse (b :: rest)
      else l
    | _ => l
    end
  else l.

(** [atob] *)
Definition atob (text : string) : res bytes :=
  match mapM char_sextet (unpad (filter (fun c => ascii_whitespace c = false) (String.list_ascii_of_string text))) with
  | Some sextets => match sextet_bytes sextets with Some raw => Ok raw | None => Throw "InvalidCharacterError" end
  | None => Throw "InvalidCharacterError"
  end.

(** [base64(value)] *)
Definition base64 (value : bytes) : string := btoa value.

(** [/^[A-Za-z0-9+/]{43}=$/] *)
Definition KEY (value : string) : bool :=
  match reverse (String.list_ascii_of_string value) with
  | last :: body => bool_decide (last = "="%char) && (length body =? 43)%nat && forallb base64_char body
  | [] => false
  end.

Definition canonicalKey (value : string) : bool :=
  if negb (KEY value) then false
  else match atob value with Ok raw => String.eqb (base64 raw) value | Throw _ => false end.

(** ** Hexadecimal *)

(** [b.toString(16).padStart(2, '0')] *)
Definition hex_digit (n : nat) : ascii := Ascii.ascii_of_nat (if (n <? 10)%nat then n + 48 else n + 87)%nat.

Definition hex_byte (c : ascii) : string :=
  let n := Ascii.nat_of_ascii c in
  String (hex_digit (n / 16)%nat) (String (hex_digit (n mod 16)%nat) EmptyString).

Definition hex (value : bytes) : string := join "" (hex_byte <$> value).

(** [/^[0-9a-f]{n}$/] *)
Definition hex_of (n : nat) (s : string) : bool := (String.length s =? n)%nat && all_chars lower_hex s.
Definition ATTEMPT : string -> bool := hex_of 32.
Definition DIGEST : string -> bool := hex_of 64.
Definition ACTOR : string -> bool := hex_of 16.

(** ** Library ids *)

(** WebCrypto's HKDF-SHA256: [hkdf(material, salt, info, bytes)]. *)
Class Hkdf := hkdf : bytes -> string -> string -> nat -> bytes.

(** [deriveBits] answers as many bits as it was asked for. *)
Class HkdfLaws `{Hkdf} : Prop := { hkdf_length : forall m s i n, length (hkdf m s i n) = n }.

Definition deriveLibraryId `{Hkdf} (libraryKey : bytes) : string :=
  hex (hkdf libraryKey "den/library/salt/v1" "den/library/id/v1" 16).

(** [libraryId(key)]: the [/lib/{id}] of a key's spelling. *)
Definition libraryId `{Hkdf} (key : string) : res string :=
  let! raw := atob key in Ok (deriveLibraryId raw).

(** ** Lemmas *)

Lemma char_sextet_char s : char_sextet (sextet_char s) = Some s.
Proof. destruct s as [[[[[[] []] []] []] []] []]; reflexivity. Qed.

Lemma sextet_char_sextet c s : char_sextet c = Some s -> sextet_char s = c.
Proof.
  assert (Hc : match char_sextet c with Some s => Ascii.eqb (sextet_char s) c | None => true end = true)
    by (destruct c as [[] [] [] [] [] [] [] []]; vm_cast_no_check (eq_refl true)).
  intros Hs. rewrite Hs in Hc. by apply Ascii.eqb_eq.
Qed.

(** A character of the alphabet is neither white space nor padding. *)
Lemma sextet_char_plain s : ascii_whitespace (sextet_char s) = false /\ sextet_char s <> "="%char.
Proof. destruct s as [[[[[[] []] []] []] []] []]; vm_compute; split; congruence. Qed.

Lemma base64_char_plain c : base64_char c = true -> ascii_whitespace c = false /\ c <> "="%char.
Proof.
  unfold base64_char. destruct (char_sextet c) as [s|] eqn:E; [|done]. intros _.
  rewrite <- (sextet_char_sextet _ _ E). apply sextet_char_plain.
Qed.

(** What [btoa] writes: the characters of sextets that decode to [raw], padded to a multiple of four. *)
Lemma btoa_shape raw : exists sextets pad,
  String.list_ascii_of_string (btoa raw) = (sextet_char <$> sextets) ++ replicate pad "="%char
  /\ sextet_bytes sextets = Some raw /\ (pad <= 2)%nat
  /\ ((length sextets + pad) mod 4 = 0)%nat /\ (3 * (length sextets + pad) = 4 * (length raw + pad))%nat.
Proof.
  induction raw as [raw IH] using (induction_ltof1 _ length); unfold ltof in IH.
  destruct raw as [|[a0 a1 a2 a3 a4 a5 a6 a7] [|[b0 b1 b2 b3 b4 b5 b6 b7] [|[c0 c1 c2 c3 c4 c5 c6 c7] rest]]].
  - exists [], 0%nat. split_and!; (reflexivity || lia).
  - exists [(a7, a6, a5, a4, a3, a2); (a1, a0, false, false, false, false)], 2%nat. split_and!; (reflexivity || lia).
  - exists [(a7, a6, a5, a4, a3, a2); (a1, a0, b7, b6, b5, b4); (b3, b2, b1, b0, false, false)], 1%nat.
    split_and!; (reflexivity || lia).
  - destruct (IH rest) as (sextets & pad & Htext & Hraw & Hpad & Hmod & Hlen); [cbn; lia|].
    exists ((a7, a6, a5, a4, a3, a2) :: (a1, a0, b7, b6, b5, b4) :: (b3, b2, b1, b0, c7, c6) :: (c5, c4, c3, c2, c1, c0) :: sextets), pad.
    split; [cbn; by rewrite Htext|]. split; [cbn; by rewrite Hraw|]. split; [done|]. cbn [length].
    split; [|lia]. replace (S (S (S (S (length sextets)))) + pad)%nat with (length sextets + pad + 1 * 4)%nat by lia.
    by rewrite Nat.Div0.mod_add.
Qed.

Lemma unpad_padded l pad : Forall (fun c => c <> "="%char) l -> (pad <= 2)%nat -> ((length l + pad) mod 4 = 0)%nat ->
  unpad (l ++ replicate pad "="%char) = l.
Proof.
  intros Hl Hpad Hmod. unfold unpad. rewrite length_app, length_replicate, Hmod. cbn [Nat.eqb].
  rewrite reverse_app. destruct pad as [|[|[|pad]]]; [..|lia]; cbn [replicate].
  - rewrite reverse_nil, !(left_id_L [] (++)), (right_id_L [] (++)).
    destruct (reverse l) as [|a [|b rest]] eqn:E; [done|done|].
    apply Forall_reverse in Hl. rewrite E in Hl. apply Forall_cons in Hl as [Ha _]. by rewrite bool_decide_false.
  - destruct l as [|c l _] using rev_ind; [done|]. rewrite reverse_snoc.
    change (reverse ["="%char]) with ["="%char]. cbn [app].
    rewrite bool_decide_true by done. rewrite bool_decide_false.
    + by rewrite reverse_cons, reverse_involutive.
    + apply Forall_app in Hl as [_ Hc]. by apply Forall_cons in Hc as [Hc _].
  - change (reverse ["="%char; "="%char]) with ["="%char; "="%char]. cbn [app].
    rewrite bool_decide_true by done. by rewrite reverse_involutive.
Qed.

Lemma filter_plain l : Forall (fun c => ascii_whitespace c = false) l ->
  filter (fun c => ascii_whitespace c = false) l = l.
Proof. rewrite Forall_forall. intros H. apply filter_all. exact H. Qed.

Lemma mapM_char_sextet sextets : mapM char_sextet (sextet_char <$> sextets) = Some sextets.
Proof. induction sextets as [|s l IH]; cbn; [done|]. by rewrite char_sextet_char, IH. Qed.

(** Decoding a text of alphabet characters and at most two padding characters. *)
Lemma atob_padded text sextets pad :
  String.list_ascii_of_string text = (sextet_char <$> sextets) ++ replicate pad "="%char ->
  (pad <= 2)%nat -> ((length sextets + pad) mod 4 = 0)%nat ->
  atob text = match sextet_bytes sextets with Some raw => Ok raw | None => Throw "InvalidCharacterError" end.
Proof.
  intros Htext Hpad Hmod. unfold atob. rewrite Htext, filter_plain.
  - rewrite unpad_padded; [by rewrite mapM_char_sextet| |done|by rewrite length_fmap].
    apply Forall_fmap, Forall_forall. intros s _. apply sextet_char_plain.
  - apply Forall_app. split.
    + apply Forall_fmap, Forall_forall. intros s _. apply sextet_char_plain.
    + by apply Forall_replicate.
Qed.

(** Decoding what was encoded. *)
Lemma atob_btoa raw : atob (btoa raw) = Ok raw.
Proof.
  destruct (btoa_shape raw) as (sextets & pad & Htext & Hraw & Hpad & Hmod & _).
  by rewrite (atob_padded _ _ _ Htext Hpad Hmod), Hraw.
Qed.

Lemma sextet_bytes_length l raw : sextet_bytes l = Some raw -> (length raw = 3 * length l / 4)%nat.
Proof.
  revert raw. induction l as [l IH] using (induction_ltof1 _ length); unfold ltof in IH. intros raw.
  destruct l as [|[[[[[a5 a4] a3] a2] a1] a0] [|[[[[[b5 b4] b3] b2] b1] b0]
    [|[[[[[c5 c4] c3] c2] c1] c0] [|[[[[[d5 d4] d3] d2] d1] d0] rest]]]]; cbn [sextet_bytes];
    try (intros [= <-]; reflexivity); try done.
  destruct (sextet_bytes rest) as [tail|] eqn:E; [|done]. intros [= <-]. cbn [length].
  rewrite (IH rest) by (done || (cbn; lia)).
  replace (3 * S (S (S (S (length rest)))))%nat with (3 * length rest + 3 * 4)%nat by lia.
  rewrite Nat.div_add by done. lia.
Qed.

Lemma KEY_sextets value : KEY value = true -> exists sextets,
  String.list_ascii_of_string value = (sextet_char <$> sextets) ++ ["="%char] /\ length sextets = 43%nat.
Proof.
  unfold KEY. destruct (reverse _) as [|last body] eqn:E; [done|].
  intros [[Hlast%bool_decide_eq_true Hlen%Nat.eqb_eq]%andb_true_iff Hbody]%andb_true_iff.
  rewrite forallb_forall in Hbody.
  assert (Hs : exists s, mapM char_sextet (reverse body) = Some s).
  { apply mapM_is_Some_2, Forall_forall. intros c Hc%elem_of_reverse%list_elem_of_In%Hbody.
    unfold base64_char in Hc. cbn. destruct (char_sextet c); [by eexists|done]. }
  destruct Hs as [s Hs]. exists s. apply mapM_Some in Hs.
  rewrite <- (reverse_involutive (String.list_ascii_of_string value)), E, reverse_cons, Hlast.
  split; [|rewrite <- Hlen, <- (length_reverse body); symmetry; by eapply Forall2_length].
  f_equal. clear -Hs. induction Hs as [|c x l k Hc _ IH]; [done|]. cbn. by rewrite (sextet_char_sextet c x Hc), IH.
Qed.

Lemma list_ascii_inj s t : String.list_ascii_of_string s = String.list_ascii_of_string t -> s = t.
Proof.
  intros H. by rewrite <- (String.string_of_list_ascii_of_string s), H, String.string_of_list_ascii_of_string.
Qed.

(** A key's canonical spelling is exactly the base64 of 32 bytes, so that [canonicalKey] accepts one spelling
    per key: what it accepts decodes, and encoding the bytes gives the same text back. *)
Lemma canonicalKey_spec value :
  canonicalKey value = true <-> exists raw, length raw = 32%nat /\ value = base64 raw /\ atob value = Ok raw.
Proof.
  unfold canonicalKey. split.
  - destruct (KEY value) eqn:HK; [|done]. cbn. destruct (atob value) as [raw|] eqn:Hraw; [|done].
    intros <-%String.eqb_eq. exists raw. split_and!; [|done|done].
    destruct (KEY_sextets _ HK) as (sextets & Htext & Hlen).
    rewrite (atob_padded _ sextets 1 Htext) in Hraw by (rewrite ?Hlen; done || lia).
    destruct (sextet_bytes sextets) as [raw'|] eqn:E; [|done]. injection Hraw as <-.
    rewrite (sextet_bytes_length _ _ E), Hlen. reflexivity.
  - intros (raw & Hlen & -> & Hraw).
    assert (HK : KEY (base64 raw) = true).
    { destruct (btoa_shape raw) as (sextets & pad & Htext & _ & Hpad & Hmod & Hcount). unfold KEY, base64.
      assert (pad = 1%nat) as -> by lia. assert (Hs : length sextets = 43%nat) by lia.
      rewrite Htext. cbn [replicate]. rewrite reverse_snoc, length_reverse, length_fmap, Hs.
      rewrite bool_decide_true by done. cbn. apply forallb_forall.
      intros c (s & -> & _)%list_elem_of_In%elem_of_reverse%list_elem_of_fmap.
      unfold base64_char. by rewrite char_sextet_char. }
    rewrite HK, Hraw. cbn. apply String.eqb_refl.
Qed.

Lemma base64_canonical raw : length raw = 32%nat -> canonicalKey (base64 raw) = true.
Proof. intros H. apply canonicalKey_spec. exists raw. split_and!; [done|done|apply atob_btoa]. Qed.

(** *** Library ids *)

Lemma hex_byte_lower c : all_chars lower_hex (hex_byte c) = true.
Proof. destruct c as [[] [] [] [] [] [] [] []]; reflexivity. Qed.

Lemma hex_cons c value : hex (c :: value) = hex_byte c +:+ hex value.
Proof. unfold hex. cbn [fmap list_fmap]. destruct value; cbn [join fmap list_fmap]; [by rewrite string_app_nil_r|done]. Qed.

Lemma hex_hex value : hex_of (2 * length value) (hex value) = true.
Proof.
  unfold hex_of. induction value as [|c value IH]; [done|]. rewrite hex_cons.
  apply andb_true_iff in IH as [Hlen%Nat.eqb_eq Hall]. rewrite all_chars_app, hex_byte_lower, Hall.
  cbn [andb]. rewrite andb_true_r. apply Nat.eqb_eq. unfold hex_byte.
  change (S (S (String.length (hex value))) = 2 * S (length value))%nat. lia.
Qed.

Lemma libraryId_canonical `{Hkdf, !HkdfLaws} key : canonicalKey key = true ->
  exists id, libraryId key = Ok id /\ hex_of 32 id = true.
Proof.
  intros (raw & _ & _ & Hraw)%canonicalKey_spec. unfold libraryId. rewrite Hraw. cbn. eexists; split; [done|].
  unfold deriveLibraryId. pose proof (hex_hex (hkdf raw "den/library/salt/v1" "den/library/id/v1" 16)) as Hhex.
  by rewrite hkdf_length in Hhex.
Qed.
