(* ===== verification/ResetJournal.v ===== *)
(** * The key reset's journal ([web/src/lib/profileKeyResetExecutor.ts], [profileDirectory.ts], [profilesCore.ts])

    The data of a compound key reset and its pure functions: the committed directory, the durable journal of an
    attempt, the requests made of den-edge, and the trust-boundary validation of a loaded journal. A journal is
    modelled at its TypeScript type, so the shape tests of that validation ([record], [typeof], [Array.isArray],
    [PHASES.includes]) hold by typing and the tests of values are what is left. Numbers the code requires to be
    safe integers are [Z]. den-core's profile operations are the parameter [ProfilesPolicy]. *)

From S2P Require Import Prelude JsMap JsText Json Wire Clock ProfileKeys.

(** ** Errors *)

Inductive ProfileResetErrorCode : Type :=
| ResetAlreadyPending | InvalidAttempt | InvalidHouseholdKey | InvalidFence | InvalidDirectory | RandomKeyFailure
| CorruptJournal | InvalidLocks | InvalidProfileVerification | SuccessorNotVerified.

(** What a call may throw: the two classes [guarded] tells apart, the executor's own errors, and any other. *)
Inductive Error : Type :=
| ProfileResetError (code : ProfileResetErrorCode)
| ProfileResetRefusedError (reason : string)
| ProfileResetRolledBackError
| OtherError (message : string).

Abbreviation tried A := (Error + A)%type.

Definition try_bind {A B} (r : tried A) (f : A -> tried B) : tried B :=
  match r with inl e => inl e | inr a => f a end.

Notation "'try!' x ':=' r 'in' k" := (try_bind r (fun x => k))
  (at level 10, x pattern, r at level 100, k at level 200) : den_scope.

(** A throw that passes through, and one that is caught and replaced. *)
Definition of_res {A} (r : res A) : tried A := match r with Ok a => inr a | Throw m => inl (OtherError m) end.
Definition caught {A B} (code : ProfileResetErrorCode) (r : B + A) : tried A :=
  match r with inr a => inr a | inl _ => inl (ProfileResetError code) end.
Definition caught_res {A} (code : ProfileResetErrorCode) (r : res A) : tried A := caught code (of_res r).

(** ** The directory *)

Inductive ProfileRole : Type := Owner | Kid | Adult.
Record Display : Type := mkDisplay { ds_name : string; ds_avatar : option string }.
Record LibraryValue : Type := mkLibrary { lv_keyVersion : Z; lv_key : string }.
Record PolicyValue : Type := mkPolicy { pv_maximumAge : option Z; pv_blockUnknown : bool; pv_rest : list (string * json) }.

Record ProfileEntry : Type := mkEntry {
  pe_id : string;
  pe_role : ProfileRole;
  pe_display : Stamped Display;
  pe_library : Stamped LibraryValue;
  pe_policy : Stamped PolicyValue;
  pe_deleted : Stamped bool;
  pe_rest : list (string * json);
}.

(** The members the reset reads are [profiles]; the owner, the migration evidence and the extensions are carried. *)
Record ProfileDirectoryDocument : Type := mkDirectory {
  pd_owner : string;
  pd_profiles : jsmap string ProfileEntry;
  pd_rest : list (string * json);
}.

Definition entries (directory : ProfileDirectoryDocument) : list ProfileEntry := map_values (pd_profiles directory).

(** ** The journal *)

Inductive ProfileResetPhase : Type :=
| Prepared | Locked | MovingProfiles | PublishingHousehold | CommitUnknown | RetiringOld | Adopting | Complete.

Inductive ProfileResetEffectIntent : Type :=
| MoveProfile (profile : string)
| PublishHousehold
| VerifyHousehold
| RetireProfile (profile : string)
| RetireHousehold
| AdoptSuccessor
| VerifyAdoption.

Record ProfileResetFence : Type := mkFence { fn_generation : Z; fn_head : string }.

Record ProfileResetEvidence : Type := mkEvidence {
  ev_profile : string;
  ev_oldKey : string;
  ev_newKey : string;
  ev_oldVersion : Z;
  ev_newVersion : Z;
  ev_copiedHead : option string;
  ev_verified : bool;
  ev_oldRetired : bool;
}.

Record ProfileResetLockHandle : Type := mkHandle { lh_libraryId : string; lh_value : string }.

Record ProfileResetLockSet : Type := mkLockSet {
  ls_attempt : string;
  ls_household : ProfileResetLockHandle;
  ls_profiles : jsmap string ProfileResetLockHandle;
}.

Record ProfileResetJournal : Type := mkJournal {
  j_version : Z;
  j_attempt : string;
  j_directory : ProfileDirectoryDocument;
  j_fence : ProfileResetFence;
  j_oldHouseholdKey : string;
  j_newHouseholdKey : string;
  j_resetStamp : Stamp;
  j_profiles : list ProfileResetEvidence;
  j_locks : option ProfileResetLockSet;
  j_successorDirectory : option ProfileDirectoryDocument;
  j_successorHouseholdHead : option string;
  j_householdCommitted : bool;
  j_oldHouseholdRetired : bool;
  j_phase : ProfileResetPhase;
  j_pending : option ProfileResetEffectIntent;
}.

#[global] Instance role_dec : EqDecision ProfileRole.
Proof. solve_decision. Defined.
#[global] Instance display_dec : EqDecision Display.
Proof. solve_decision. Defined.
#[global] Instance library_dec : EqDecision LibraryValue.
Proof. solve_decision. Defined.
#[global] Instance policy_dec : EqDecision PolicyValue.
Proof. solve_decision. Defined.
#[global] Instance entry_dec : EqDecision ProfileEntry.
Proof. solve_decision. Defined.
#[global] Instance directory_dec : EqDecision ProfileDirectoryDocument.
Proof. solve_decision. Defined.
#[global] Instance handle_dec : EqDecision ProfileResetLockHandle.
Proof. solve_decision. Defined.
#[global] Instance lockset_dec : EqDecision ProfileResetLockSet.
Proof. solve_decision. Defined.
#[global] Instance phase_dec : EqDecision ProfileResetPhase.
Proof. solve_decision. Defined.
#[global] Instance intent_dec : EqDecision ProfileResetEffectIntent.
Proof. solve_decision. Defined.

(** *** Assignments to the journal's mutable members *)

Definition set_progress (j : ProfileResetJournal) (phase : ProfileResetPhase) (pending : option ProfileResetEffectIntent) : ProfileResetJournal :=
  mkJournal (j_version j) (j_attempt j) (j_directory j) (j_fence j) (j_oldHouseholdKey j) (j_newHouseholdKey j) (j_resetStamp j)
    (j_profiles j) (j_locks j) (j_successorDirectory j) (j_successorHouseholdHead j) (j_householdCommitted j) (j_oldHouseholdRetired j)
    phase pending.
Definition set_phase (j : ProfileResetJournal) (phase : ProfileResetPhase) : ProfileResetJournal := set_progress j phase (j_pending j).
Definition set_pending (j : ProfileResetJournal) (pending : option ProfileResetEffectIntent) : ProfileResetJournal :=
  set_progress j (j_phase j) pending.
Definition set_locks (j : ProfileResetJournal) (locks : ProfileResetLockSet) : ProfileResetJournal :=
  mkJournal (j_version j) (j_attempt j) (j_directory j) (j_fence j) (j_oldHouseholdKey j) (j_newHouseholdKey j) (j_resetStamp j)
    (j_profiles j) (Some locks) (j_successorDirectory j) (j_successorHouseholdHead j) (j_householdCommitted j) (j_oldHouseholdRetired j)
    (j_phase j) (j_pending j).
Definition set_profiles (j : ProfileResetJournal) (profiles : list ProfileResetEvidence) : ProfileResetJournal :=
  mkJournal (j_version j) (j_attempt j) (j_directory j) (j_fence j) (j_oldHouseholdKey j) (j_newHouseholdKey j) (j_resetStamp j)
    profiles (j_locks j) (j_successorDirectory j) (j_successorHouseholdHead j) (j_householdCommitted j) (j_oldHouseholdRetired j)
    (j_phase j) (j_pending j).
Definition set_successorDirectory (j : ProfileResetJournal) (directory : ProfileDirectoryDocument) : ProfileResetJournal :=
  mkJournal (j_version j) (j_attempt j) (j_directory j) (j_fence j) (j_oldHouseholdKey j) (j_newHouseholdKey j) (j_resetStamp j)
    (j_profiles j) (j_locks j) (Some directory) (j_successorHouseholdHead j) (j_householdCommitted j) (j_oldHouseholdRetired j)
    (j_phase j) (j_pending j).
Definition set_committed (j : ProfileResetJournal) (head : string) : ProfileResetJournal :=
  mkJournal (j_version j) (j_attempt j) (j_directory j) (j_fence j) (j_oldHouseholdKey j) (j_newHouseholdKey j) (j_resetStamp j)
    (j_profiles j) (j_locks j) (j_successorDirectory j) (Some head) true (j_oldHouseholdRetired j)
    (j_phase j) (j_pending j).
Definition set_householdRetired (j : ProfileResetJournal) : ProfileResetJournal :=
  mkJournal (j_version j) (j_attempt j) (j_directory j) (j_fence j) (j_oldHouseholdKey j) (j_newHouseholdKey j) (j_resetStamp j)
    (j_profiles j) (j_locks j) (j_successorDirectory j) (j_successorHouseholdHead j) (j_householdCommitted j) true
    (j_phase j) (j_pending j).

(** [journal.profiles.find(p => p.profile === profile && !flag(p))], and the assignments made to what it found. *)
Definition is_open (flag : ProfileResetEvidence -> bool) (profile : string) (p : ProfileResetEvidence) : bool :=
  String.eqb (ev_profile p) profile && negb (flag p).
Definition find_open (flag : ProfileResetEvidence -> bool) (profile : string) (l : list ProfileResetEvidence) : option ProfileResetEvidence :=
  List.find (is_open flag profile) l.
Fixpoint update_open (flag : ProfileResetEvidence -> bool) (profile : string) (f : ProfileResetEvidence -> ProfileResetEvidence)
    (l : list ProfileResetEvidence) : list ProfileResetEvidence :=
  match l with
  | [] => []
  | p :: l => if is_open flag profile p then f p :: l else p :: update_open flag profile f l
  end.
Definition set_verified (copiedHead : string) (p : ProfileResetEvidence) : ProfileResetEvidence :=
  mkEvidence (ev_profile p) (ev_oldKey p) (ev_newKey p) (ev_oldVersion p) (ev_newVersion p) (Some copiedHead) true (ev_oldRetired p).
Definition set_oldRetired (p : ProfileResetEvidence) : ProfileResetEvidence :=
  mkEvidence (ev_profile p) (ev_oldKey p) (ev_newKey p) (ev_oldVersion p) (ev_newVersion p) (ev_copiedHead p) (ev_verified p) true.

(** ** Requests *)

Record LibraryRef : Type := mkLibraryRef { lr_libraryId : string; lr_key : string }.

Record ProfileResetLockRequest : Type := mkLockRequest {
  lq_attempt : string;
  lq_fence : ProfileResetFence;
  lq_household : LibraryRef;
  lq_profiles : jsmap string LibraryRef;
  lq_successorHousehold : string;
  lq_successorProfiles : jsmap string string;
}.

Record ProfileMoveRequest : Type := mkMove {
  mv_attempt : string; mv_profile : string; mv_oldKey : string; mv_newKey : string; mv_locks : ProfileResetLockSet }.
Record VerifiedProfileMove : Type := mkMoved { vm_profile : string; vm_successorLibraryId : string; vm_copiedHead : string }.
Record HouseholdPublishRequest : Type := mkPublish {
  hp_attempt : string; hp_oldKey : string; hp_newKey : string; hp_fence : ProfileResetFence;
  hp_directory : ProfileDirectoryDocument; hp_locks : ProfileResetLockSet }.
Record HouseholdObservationRequest : Type := mkObserve {
  ho_attempt : string; ho_successorKey : string; ho_directory : ProfileDirectoryDocument; ho_locks : ProfileResetLockSet }.
Record ProfileResetAbortRequest : Type := mkAbort { ab_attempt : string; ab_household : LibraryRef }.
Inductive AbortAnswer : Type := Aborted | Committed.
Inductive HouseholdObservation : Type :=
| ObservedAbsent
| ObservedUnknown
| ObservedCommitted (id head : string) (directory : ProfileDirectoryDocument).
Record ProfileRetirementRequest : Type := mkRetireProfile {
  rp_attempt : string; rp_profile : string; rp_oldKey : string; rp_successorLibraryId : string; rp_locks : ProfileResetLockSet }.
Record HouseholdRetirementRequest : Type := mkRetireHousehold {
  rh_attempt : string; rh_oldKey : string; rh_successorLibraryId : string; rh_locks : ProfileResetLockSet }.
Record ProfileAdoptionRequest : Type := mkAdoption {
  ad_attempt : string; ad_householdKey : string; ad_committedHead : string;
  ad_directory : ProfileDirectoryDocument; ad_locks : ProfileResetLockSet }.

#[global] Instance adoption_dec : EqDecision ProfileAdoptionRequest.
Proof. solve_decision. Defined.

(** [phase] is [None] for [aborted]. *)
Record ProfileResetStatus : Type := mkStatus { rs_phase : option ProfileResetPhase; rs_verifiedProfiles : nat; rs_profileCount : nat }.

(** ** den-core's profile operations *)

Record PlannerInput : Type := mkPlannerInput {
  pi_directory : ProfileDirectoryDocument;
  pi_fence : ProfileResetFence;
  pi_profiles : list ProfileResetEvidence;
  pi_householdCommitted : bool;
  pi_oldHouseholdRetired : bool;
}.

Inductive ProfileResetEffect : Type :=
| MoveLiveProfiles (profiles : list string)
| CommitSuccessorHousehold
| RetireOldLibraries (profiles : list string) (household : bool)
| CompleteReset.

Class ProfilesPolicy := {
  profiles_validate : ProfileDirectoryDocument -> res ProfileDirectoryDocument;
  profiles_reset_next : PlannerInput -> res ProfileResetEffect;
  profiles_apply_library : ProfileDirectoryDocument -> string -> LibraryValue -> Stamp -> res ProfileDirectoryDocument;
  profiles_materialize : ProfileDirectoryDocument -> res string;
}.

Section Journal.
Context `{ProfilesPolicy, Hkdf}.

Definition validateStoredProfileDirectory (document : ProfileDirectoryDocument) : res ProfileDirectoryDocument :=
  profiles_validate document.
Definition profilesMaterialize (document : ProfileDirectoryDocument) : res string := profiles_materialize document.
Definition profilesRotateLibrary (document : ProfileDirectoryDocument) (profile : string) (keyVersion : Z) (key : string)
    (at_ : Stamp) : res ProfileDirectoryDocument :=
  profiles_apply_library document profile (mkLibrary keyVersion key) at_.
Definition profilesResetNext (input : PlannerInput) : res ProfileResetEffect := profiles_reset_next input.

(** ** Helpers *)

Definition statusOf (j : ProfileResetJournal) : ProfileResetStatus :=
  mkStatus (Some (j_phase j)) (length (filter (fun p => ev_verified p = true) (j_profiles j))) (length (j_profiles j)).

Definition every (f : ProfileResetEvidence -> bool) (j : ProfileResetJournal) : bool := forallb f (j_profiles j).

Definition retired (j : ProfileResetJournal) : bool :=
  j_householdCommitted j && j_oldHouseholdRetired j && every ev_oldRetired j.

Definition validPhase (j : ProfileResetJournal) : bool :=
  match j_phase j, j_pending j with
  | Prepared, None => negb (bool_decide (is_Some (j_locks j)))
  | Locked, None => bool_decide (is_Some (j_locks j)) && negb (j_householdCommitted j)
  | MovingProfiles, Some (MoveProfile _) => bool_decide (is_Some (j_locks j)) && negb (j_householdCommitted j)
  | PublishingHousehold, Some PublishHousehold => bool_decide (is_Some (j_successorDirectory j)) && negb (j_householdCommitted j)
  | CommitUnknown, Some VerifyHousehold => bool_decide (is_Some (j_successorDirectory j)) && negb (j_householdCommitted j)
  | RetiringOld, None | RetiringOld, Some (RetireProfile _) | RetiringOld, Some RetireHousehold => j_householdCommitted j
  | Adopting, Some AdoptSuccessor | Adopting, Some VerifyAdoption => retired j
  | Complete, None => retired j
  | _, _ => false
  end.

Definition plannerInput (j : ProfileResetJournal) : PlannerInput :=
  mkPlannerInput (j_directory j) (j_fence j)
    ((fun p => mkEvidence (ev_profile p) (ev_oldKey p) (ev_newKey p) (ev_oldVersion p) (ev_newVersion p)
                 (ev_copiedHead p) (ev_verified p) (ev_oldRetired p)) <$> j_profiles j)
    (j_householdCommitted j) (j_oldHouseholdRetired j).

(** The live profiles' entries by id. *)
Definition liveEntries (directory : ProfileDirectoryDocument) : list ProfileEntry :=
  js_sort (fun left right => str_cmp (pe_id left) (pe_id right))
    (filter (fun entry => sv_value (pe_deleted entry) = false) (entries directory)).

Definition isSafeInteger (z : Z) : bool := Z.abs z <=? MAX_SAFE_INTEGER.

Definition stamp (value : Stamp) : bool := safeCount (st_t value) && safeCount (st_c value) && ACTOR (st_d value).

Definition entry_stamps (entry : ProfileEntry) : list Stamp :=
  [sv_at (pe_display entry); sv_at (pe_library entry); sv_at (pe_policy entry); sv_at (pe_deleted entry)].

Fixpoint latest_of (latest : Stamp) (l : list Stamp) : tried Stamp :=
  match l with
  | [] => inr latest
  | at_ :: l =>
    if negb (stamp at_) then inl (ProfileResetError InvalidDirectory)
    else latest_of (if 0 <? compareStamps at_ latest then at_ else latest) l
  end.

Definition latestStamp (directory : ProfileDirectoryDocument) : tried Stamp :=
  latest_of ZERO_STAMP (entries directory ≫= entry_stamps).

Definition sameDirectory (left right : ProfileDirectoryDocument) : bool :=
  match (let! l := validateStoredProfileDirectory left in profilesMaterialize l),
        (let! r := validateStoredProfileDirectory right in profilesMaterialize r) with
  | Ok l, Ok r => String.eqb l r
  | _, _ => false
  end.

Definition checkedFence (fence : ProfileResetFence) : tried unit :=
  if negb (isSafeInteger (fn_generation fence)) || (fn_generation fence <? 0) || negb (DIGEST (fn_head fence))
  then inl (ProfileResetError InvalidFence) else inr tt.

(** ** Requests of a journal *)

Fixpoint rotate_all (j : ProfileResetJournal) (candidate : ProfileDirectoryDocument) (l : list ProfileResetEvidence)
    : tried ProfileDirectoryDocument :=
  match l with
  | [] => inr candidate
  | evidence :: l =>
    if negb (ev_verified evidence) || bool_decide (ev_copiedHead evidence = None) then inl (ProfileResetError CorruptJournal)
    else
      try! next := of_res (profilesRotateLibrary candidate (ev_profile evidence) (ev_newVersion evidence) (ev_newKey evidence)
                             (j_resetStamp j)) in
      rotate_all j next l
  end.

Definition rotated_to (j : ProfileResetJournal) (canonical : ProfileDirectoryDocument) (evidence : ProfileResetEvidence) : bool :=
  match map_get (ev_profile evidence) (pd_profiles canonical) with
  | Some entry =>
    String.eqb (lv_key (sv_value (pe_library entry))) (ev_newKey evidence)
    && (lv_keyVersion (sv_value (pe_library entry)) =? ev_newVersion evidence)
    && (compareStamps (sv_at (pe_library entry)) (j_resetStamp j) =? 0)
  | None => false
  end.

Definition successorDirectory (j : ProfileResetJournal) : tried ProfileDirectoryDocument :=
  try! candidate := rotate_all j (j_directory j) (j_profiles j) in
  try! canonical := caught_res InvalidDirectory (validateStoredProfileDirectory candidate) in
  if negb (length (liveEntries canonical) =? length (j_profiles j))%nat || negb (forallb (rotated_to j canonical) (j_profiles j))
  then inl (ProfileResetError InvalidDirectory) else inr canonical.

Definition adoptionRequest (j : ProfileResetJournal) (locks : ProfileResetLockSet) : tried ProfileAdoptionRequest :=
  match j_successorHouseholdHead j, j_successorDirectory j with
  | Some head, Some directory =>
    if negb (j_householdCommitted j) || negb (j_oldHouseholdRetired j) || negb (every ev_oldRetired j)
    then inl (ProfileResetError CorruptJournal)
    else inr (mkAdoption (j_attempt j) (j_newHouseholdKey j) head directory locks)
  | _, _ => inl (ProfileResetError CorruptJournal)
  end.

(** The loop of [lockRequest]: the two objects it fills. *)
Fixpoint lock_profiles (l : list ProfileResetEvidence) (acc : jsmap string LibraryRef * jsmap string string)
    : tried (jsmap string LibraryRef * jsmap string string) :=
  match l with
  | [] => inr acc
  | evidence :: l =>
    try! old := of_res (libraryId (ev_oldKey evidence)) in
    try! new := of_res (libraryId (ev_newKey evidence)) in
    lock_profiles l (map_set (ev_profile evidence) (mkLibraryRef old (ev_oldKey evidence)) acc.1,
                     map_set (ev_profile evidence) new acc.2)
  end.

Definition lockRequest (j : ProfileResetJournal) : tried ProfileResetLockRequest :=
  try! maps := lock_profiles (j_profiles j) ([], []) in
  try! household := of_res (libraryId (j_oldHouseholdKey j)) in
  try! successor := of_res (libraryId (j_newHouseholdKey j)) in
  inr (mkLockRequest (j_attempt j) (j_fence j) (mkLibraryRef household (j_oldHouseholdKey j)) maps.1 successor maps.2).

(** ** Validation *)

(** One distinct, non-empty handle per library of the attempt. *)
Definition locks_ok (locks : ProfileResetLockSet) (attempt : string) (expected : ProfileResetLockRequest) : bool :=
  let ids := map_keys (lq_profiles expected) in
  match mapM (fun id => map_get id (ls_profiles locks)) ids with
  | Some found =>
    let handles := ls_household locks :: found in
    String.eqb (ls_attempt locks) attempt
    && String.eqb (lh_libraryId (ls_household locks)) (lr_libraryId (lq_household expected))
    && forallb (fun handle => truthy (lh_value handle)) handles
    && (length (map_keys (ls_profiles locks)) =? length ids)%nat
    && (length (set_of (lh_value <$> handles)) =? length handles)%nat
    && forallb (fun id =>
         bool_decide (lh_libraryId <$> map_get id (ls_profiles locks) = lr_libraryId <$> map_get id (lq_profiles expected))) ids
  | None => false
  end.

Definition validateLocks (locks : ProfileResetLockSet) (j : ProfileResetJournal) : tried unit :=
  try! expected := lockRequest j in
  if locks_ok locks (j_attempt j) expected then inr tt else inl (ProfileResetError InvalidLocks).

Definition distinct (l : list string) : bool := (length (set_of l) =? length l)%nat.

Definition evidence_ok (directory : ProfileDirectoryDocument) (evidence : ProfileResetEvidence) : bool :=
  canonicalKey (ev_oldKey evidence) && canonicalKey (ev_newKey evidence)
  && match map_get (ev_profile evidence) (pd_profiles directory) with
     | Some entry =>
       String.eqb (lv_key (sv_value (pe_library entry))) (ev_oldKey evidence)
       && (lv_keyVersion (sv_value (pe_library entry)) =? ev_oldVersion evidence)
     | None => false
     end
  && (ev_newVersion evidence =? ev_oldVersion evidence + 1)
  && Bool.eqb (ev_verified evidence) (bool_decide (is_Some (ev_copiedHead evidence)))
  && match ev_copiedHead evidence with None => true | Some head => DIGEST head end.

(** The first guard, on members of their own. *)
Definition header_ok (j : ProfileResetJournal) : bool :=
  (j_version j =? 1) && ATTEMPT (j_attempt j) && canonicalKey (j_oldHouseholdKey j) && canonicalKey (j_newHouseholdKey j)
  && negb (String.eqb (j_oldHouseholdKey j) (j_newHouseholdKey j)).

Definition reset_stamp_ok (j : ProfileResetJournal) (previous : Stamp) (household : string) : bool :=
  stamp (j_resetStamp j) && (0 <? compareStamps (j_resetStamp j) previous)
  && String.eqb (st_d (j_resetStamp j)) (String.substring 0 16 household).

Definition profiles_ok (j : ProfileResetJournal) (directory : ProfileDirectoryDocument) : bool :=
  let ids := ev_profile <$> j_profiles j in
  String.eqb (join "," ids) (join "," (js_sort str_cmp ids))
  && distinct ids
  && String.eqb (join "," ids) (join "," (pe_id <$> liveEntries directory))
  && forallb (evidence_ok directory) (j_profiles j).

Definition keys_ok (j : ProfileResetJournal) : bool :=
  let oldKeys := (ev_oldKey <$> j_profiles j) ++ [j_oldHouseholdKey j] in
  let newKeys := (ev_newKey <$> j_profiles j) ++ [j_newHouseholdKey j] in
  distinct oldKeys && distinct newKeys && negb (existsb (fun key => bool_decide (key ∈ newKeys)) oldKeys).

Definition flags_ok (j : ProfileResetJournal) : bool :=
  let allVerified := every ev_verified j in
  negb (j_oldHouseholdRetired j && negb (j_householdCommitted j))
  && negb (existsb ev_oldRetired (j_profiles j) && negb (j_householdCommitted j))
  && negb (j_householdCommitted j && negb allVerified)
  && negb (bool_decide (is_Some (j_successorDirectory j)) && negb allVerified)
  && negb (j_householdCommitted j && bool_decide (j_successorDirectory j = None))
  && Bool.eqb (bool_decide (is_Some (j_successorHouseholdHead j))) (j_householdCommitted j)
  && match j_successorHouseholdHead j with None => true | Some head => DIGEST head end.

Definition ensure (b : bool) : tried unit := if b then inr tt else inl (ProfileResetError CorruptJournal).

Definition validate (j : ProfileResetJournal) : tried unit :=
  try! _ := ensure (header_ok j) in
  try! _ := caught CorruptJournal (checkedFence (j_fence j)) in
  try! directory := caught_res CorruptJournal (validateStoredProfileDirectory (j_directory j)) in
  try! previous := caught CorruptJournal (latestStamp directory) in
  try! household := of_res (libraryId (j_oldHouseholdKey j)) in
  try! _ := ensure (reset_stamp_ok j previous household) in
  try! _ := ensure (profiles_ok j directory) in
  try! _ := ensure (keys_ok j) in
  try! _ := ensure (flags_ok j) in
  try! _ := match j_locks j with
            | Some locks => caught CorruptJournal (validateLocks locks j)
            | None => inr tt
            end in
  try! _ := match j_successorDirectory j with
            | Some directory =>
              try! recomputed := caught CorruptJournal (successorDirectory j) in
              ensure (sameDirectory directory recomputed)
            | None => inr tt
            end in
  try! _ := ensure (validPhase j) in
  try! _ := caught_res CorruptJournal (profilesResetNext (plannerInput j)) in
  inr tt.

(** ** Lemmas *)

Lemma ensure_ok b : ensure b = inr tt <-> b = true.
Proof. by destruct b. Qed.

Lemma caught_ok {A B} code (r : B + A) a : caught code r = inr a <-> r = inr a.
Proof. destruct r; cbn; naive_solver. Qed.

Lemma of_res_ok {A} (r : res A) a : of_res r = inr a <-> r = Ok a.
Proof. destruct r; cbn; naive_solver. Qed.

Lemma caught_res_ok {A} code (r : res A) a : caught_res code r = inr a <-> r = Ok a.
Proof. unfold caught_res. by rewrite caught_ok, of_res_ok. Qed.

Lemma try_bind_ok {A B} (r : tried A) (f : A -> tried B) b :
  try_bind r f = inr b <-> exists a, r = inr a /\ f a = inr b.
Proof. destruct r; cbn; naive_solver. Qed.

Lemma unit_exists (P : unit -> Prop) : (exists u, P u) <-> P tt.
Proof. split; [by intros [[] ?]|eauto]. Qed.

Lemma find_open_split flag profile f l e : find_open flag profile l = Some e ->
  ev_profile e = profile /\ flag e = false
  /\ exists l1 l2, l = l1 ++ e :: l2 /\ update_open flag profile f l = l1 ++ f e :: l2.
Proof.
  unfold find_open. induction l as [|p l IH]; cbn; [done|]. destruct (is_open flag profile p) eqn:E.
  - intros [= ->]. apply andb_true_iff in E as [->%String.eqb_eq ->%negb_true_iff].
    split_and!; [done..|]. by exists [], l.
  - intros (? & ? & l1 & l2 & -> & ->)%IH. split_and!; [done..|]. by exists (p :: l1), l2.
Qed.

(** The part of the validation no step of the executor can change. *)
Definition bound_ok (j : ProfileResetJournal) : Prop :=
  header_ok j = true /\ checkedFence (j_fence j) = inr tt
  /\ exists directory previous household,
       validateStoredProfileDirectory (j_directory j) = Ok directory /\ latestStamp directory = inr previous
       /\ libraryId (j_oldHouseholdKey j) = Ok household /\ reset_stamp_ok j previous household = true
       /\ profiles_ok j directory = true.

Definition locks_held (j : ProfileResetJournal) : Prop :=
  match j_locks j with Some locks => validateLocks locks j = inr tt | None => True end.

Definition successor_held (j : ProfileResetJournal) : Prop :=
  match j_successorDirectory j with
  | Some directory => exists recomputed, successorDirectory j = inr recomputed /\ sameDirectory directory recomputed = true
  | None => True
  end.

Lemma validate_spec j :
  validate j = inr tt <->
  bound_ok j /\ keys_ok j = true /\ flags_ok j = true /\ locks_held j /\ successor_held j /\ validPhase j = true
  /\ exists decision, profilesResetNext (plannerInput j) = Ok decision.
Proof.
  unfold validate, bound_ok, locks_held, successor_held.
  repeat (setoid_rewrite try_bind_ok || setoid_rewrite ensure_ok || setoid_rewrite caught_ok
          || setoid_rewrite caught_res_ok || setoid_rewrite of_res_ok || setoid_rewrite unit_exists).
  destruct (j_locks j) as [locks|], (j_successorDirectory j) as [d|];
    repeat (setoid_rewrite try_bind_ok || setoid_rewrite ensure_ok || setoid_rewrite caught_ok);
    naive_solver.
Qed.
End Journal.
