(* ===== verification/ResetSuccessor.v ===== *)
(** * The successor directory of a key reset

    What den-core's profile operations are documented to do ([ProfilesLaws]) and what the executor's use of them
    amounts to: the successor directory of an attempt whose profiles are all verified exists, has the same profiles,
    and carries every successor key. *)

From S2P Require Import Prelude JsMap JsText Json Wire Clock ProfileKeys ResetJournal.

Definition with_library (entry : ProfileEntry) (library : Stamped LibraryValue) : ProfileEntry :=
  mkEntry (pe_id entry) (pe_role entry) (pe_display entry) library (pe_policy entry) (pe_deleted entry) (pe_rest entry).

Definition entry_key (entry : ProfileEntry) : string := lv_key (sv_value (pe_library entry)).
Definition entry_version (entry : ProfileEntry) : Z := lv_keyVersion (sv_value (pe_library entry)).

(** ** Documented behaviour of den-core's profile operations *)

Section Laws.
Context `{ProfilesPolicy}.

(** What the reset planner may be asked: a committed directory, evidence for its live profiles in order, and
    flags that are consistent with each other. *)
Record plannable (i : PlannerInput) : Prop := {
  pl_directory : profiles_validate (pi_directory i) = Ok (pi_directory i);
  pl_fence : checkedFence (pi_fence i) = inr tt;
  pl_profiles : ev_profile <$> pi_profiles i = pe_id <$> liveEntries (pi_directory i);
  pl_evidence : Forall (fun e => evidence_ok (pi_directory i) e = true) (pi_profiles i);
  pl_keys : NoDup ((ev_oldKey <$> pi_profiles i) ++ (ev_newKey <$> pi_profiles i));
  pl_committed : pi_householdCommitted i = true -> forallb ev_verified (pi_profiles i) = true;
  pl_retired : pi_householdCommitted i = false ->
    pi_oldHouseholdRetired i = false /\ existsb ev_oldRetired (pi_profiles i) = false;
}.

(** The planner names pending work: a profile not yet verified; then the commit; then something not yet retired. *)
Definition planned (i : PlannerInput) (decision : ProfileResetEffect) : Prop :=
  if negb (forallb ev_verified (pi_profiles i)) then
    exists p e rest, decision = MoveLiveProfiles (p :: rest) /\ e ∈ pi_profiles i /\ ev_profile e = p /\ ev_verified e = false
  else if negb (pi_householdCommitted i) then decision = CommitSuccessorHousehold
  else if negb (pi_oldHouseholdRetired i && forallb ev_oldRetired (pi_profiles i)) then
    exists profiles household, decision = RetireOldLibraries profiles household
    /\ ((exists p e rest, profiles = p :: rest /\ e ∈ pi_profiles i /\ ev_profile e = p /\ ev_oldRetired e = false)
        \/ (profiles = [] /\ household = true /\ pi_oldHouseholdRetired i = false))
  else decision = CompleteReset.

Class ProfilesLaws : Prop := {
  (** A validated directory is canonical, keyed by 128-bit hexadecimal profile ids, and has an RFC 8785 form. *)
  validate_canonical d d' : profiles_validate d = Ok d' -> profiles_validate d' = Ok d';
  validate_keyed d d' : profiles_validate d = Ok d' ->
    map_wf (pd_profiles d') /\ forall k entry, (k, entry) ∈ pd_profiles d' -> pe_id entry = k /\ hex_of 32 k = true;
  validate_materializes d d' : profiles_validate d = Ok d' -> exists jcs, profiles_materialize d' = Ok jcs;
  (** A later stamped library of the next version, under a key no profile has, replaces a live profile's. *)
  apply_library_rotates d profile entry value at_ :
    profiles_validate d = Ok d -> map_get profile (pd_profiles d) = Some entry -> sv_value (pe_deleted entry) = false ->
    canonicalKey (lv_key value) = true -> (forall e, e ∈ entries d -> entry_key e <> lv_key value) ->
    lv_keyVersion value = entry_version entry + 1 -> lv_keyVersion value <= 0xffffffff ->
    0 < compareStamps at_ (sv_at (pe_library entry)) ->
    exists d', profiles_apply_library d profile value at_ = Ok d' /\ profiles_validate d' = Ok d'
      /\ pd_profiles d' = map_set profile (with_library entry (mkStamped value at_)) (pd_profiles d);
  (** The planner answers what may be asked of it. *)
  reset_next_planned i : plannable i -> exists decision, profiles_reset_next i = Ok decision /\ planned i decision;
}.
End Laws.
#[global] Arguments ProfilesLaws : clear implicits.
#[global] Arguments ProfilesLaws {_}.

(** ** Rotation *)

Section Rotation.
Context `{ProfilesPolicy, !ProfilesLaws, Hkdf}.

(** The entry after the evidence [l] has been applied. *)
Definition rotate_entry (at_ : Stamp) (l : list ProfileResetEvidence) (entry : ProfileEntry) : ProfileEntry :=
  match List.find (fun e => String.eqb (ev_profile e) (pe_id entry)) l with
  | Some e => with_library entry (mkStamped (mkLibrary (ev_newVersion e) (ev_newKey e)) at_)
  | None => entry
  end.

Lemma map_set_replace {V} k (h : V -> V) (m : jsmap string V) x :
  map_wf m -> map_get k m = Some x -> map_set k (h x) m = (fun p => (p.1, if decide (p.1 = k) then h p.2 else p.2)) <$> m.
Proof.
  unfold map_wf, map_keys. induction m as [|[k' v] m IH]; cbn; [done|]. intros [Hk Hwf]%NoDup_cons.
  destruct (decide (k = k')) as [->|Hne].
  - intros [= ->]. rewrite decide_True by done. f_equal. rewrite <- (list_fmap_id m) at 1. apply list_fmap_ext.
    intros i [k v] Hi. cbn. rewrite decide_False; [done|]. intros ->. apply Hk.
    apply list_elem_of_fmap. exists (k', v). split; [done|]. by eapply list_elem_of_lookup_2.
  - intros Hx. rewrite decide_False by done. f_equal. by apply IH.
Qed.

(** Evidence den-core can rotate in [d]: live profiles, the next version, and keys nothing in [d] has. *)
Record rotatable (d : ProfileDirectoryDocument) (at_ : Stamp) (l : list ProfileResetEvidence) : Prop := {
  ro_profiles : NoDup (ev_profile <$> l);
  ro_newKeys : NoDup (ev_newKey <$> l);
  ro_entry : forall e, e ∈ l -> exists entry,
    map_get (ev_profile e) (pd_profiles d) = Some entry /\ sv_value (pe_deleted entry) = false
    /\ ev_newVersion e = entry_version entry + 1 /\ ev_newVersion e <= 0xffffffff
    /\ 0 < compareStamps at_ (sv_at (pe_library entry));
  ro_canonical : forall e, e ∈ l -> canonicalKey (ev_newKey e) = true;
  ro_fresh : forall e entry, e ∈ l -> entry ∈ entries d -> entry_key entry <> ev_newKey e;
}.

Definition rotated (d : ProfileDirectoryDocument) (at_ : Stamp) (l : list ProfileResetEvidence) (d' : ProfileDirectoryDocument) : Prop :=
  pd_profiles d' = (fun p => (p.1, rotate_entry at_ l p.2)) <$> pd_profiles d.

Lemma find_absent profile l : (profile ∉ ev_profile <$> l) ->
  List.find (fun e => String.eqb (ev_profile e) profile) l = None.
Proof.
  intros Hl. destruct (List.find _ l) as [e|] eqn:E; [|done].
  apply List.find_some in E as [He%list_elem_of_In Heq%String.eqb_eq]. destruct Hl. apply list_elem_of_fmap. by exists e.
Qed.

Lemma find_app {A} (f : A -> bool) l1 l2 :
  List.find f (l1 ++ l2) = match List.find f l1 with Some x => Some x | None => List.find f l2 end.
Proof. induction l1 as [|x l1 IH]; cbn; [done|]. by destruct (f x). Qed.

Lemma entry_key_rotated d at_ l d' entry : rotated d at_ l d' -> entry ∈ entries d' ->
  entry_key entry ∈ (ev_newKey <$> l) \/ exists entry0, entry0 ∈ entries d /\ entry_key entry = entry_key entry0.
Proof.
  unfold rotated, entries, map_values. intros ->. rewrite list_elem_of_fmap. intros ([k x] & -> & (y & [= -> ->] & Hy)%list_elem_of_fmap).
  cbn. unfold rotate_entry. destruct (List.find _ l) as [e|] eqn:E.
  - left. apply List.find_some in E as [He%list_elem_of_In _]. apply list_elem_of_fmap. by exists e.
  - right. exists y.2. split; [|done]. apply list_elem_of_fmap. by exists y.
Qed.

Lemma rotate_step d at_ l e c : 
  profiles_validate d = Ok d -> rotatable d at_ (l ++ [e]) -> profiles_validate c = Ok c -> rotated d at_ l c ->
  exists c', profilesRotateLibrary c (ev_profile e) (ev_newVersion e) (ev_newKey e) at_ = Ok c'
    /\ profiles_validate c' = Ok c' /\ rotated d at_ (l ++ [e]) c'.
Proof.
  intros Hd Hro Hc Hrot. destruct (validate_keyed _ _ Hd) as [Hwf Hkeyed].
  destruct Hro as [Hids Hnew Hentry Hcan Hfresh]. rewrite fmap_app in Hids, Hnew.
  apply NoDup_app in Hids as (_ & Hids & _), Hnew as (_ & Hnew & _).
  assert (He : e ∈ l ++ [e]) by set_solver.
  assert (Hid : ev_profile e ∉ ev_profile <$> l) by (intros Hin; specialize (Hids _ Hin); set_solver).
  destruct (Hentry e He) as (entry & Hget & Hlive & Hver & Hmax & Hstamp).
  assert (Hpid : pe_id entry = ev_profile e) by (apply (Hkeyed (ev_profile e)), map_get_elem, Hget).
  assert (Hget' : map_get (ev_profile e) (pd_profiles c) = Some entry).
  { rewrite Hrot, map_get_fmap, Hget. cbn. f_equal. unfold rotate_entry. by rewrite Hpid, find_absent. }
  destruct (apply_library_rotates c (ev_profile e) entry (mkLibrary (ev_newVersion e) (ev_newKey e)) at_)
    as (c' & Happly & Hval & Hset); try done; [by apply Hcan| |].
  { intros x Hx Hk. destruct (entry_key_rotated _ _ _ _ _ Hrot Hx) as [Hin|(y & Hy & Heq)].
    - rewrite Hk in Hin. specialize (Hnew _ Hin). cbn in Hnew. set_solver.
    - apply (Hfresh e y He Hy). by rewrite <- Heq, Hk. }
  exists c'. split_and!; [done|done|]. unfold rotated. rewrite Hset, Hrot.
  rewrite (map_set_replace _ (fun x => with_library x (mkStamped (mkLibrary (ev_newVersion e) (ev_newKey e)) at_)) _ entry);
    [|unfold map_wf, map_keys; by rewrite <- list_fmap_compose|by rewrite <- Hrot].
  rewrite <- list_fmap_compose. apply list_fmap_ext. intros i [k x] Hx%list_elem_of_lookup_2. cbn. f_equal.
  destruct (Hkeyed _ _ Hx) as [<- _]. unfold rotate_entry. rewrite find_app. cbn.
  destruct (decide (pe_id x = ev_profile e)) as [Heq|Hne].
  - rewrite Heq, find_absent, String.eqb_refl by done. done.
  - rewrite (proj2 (String.eqb_neq _ _)) by congruence. by destruct (List.find _ l).
Qed.

Lemma rotate_all_ok j l1 l2 c :
  profiles_validate (j_directory j) = Ok (j_directory j) -> rotatable (j_directory j) (j_resetStamp j) (l1 ++ l2) ->
  Forall (fun e => ev_verified e = true /\ is_Some (ev_copiedHead e)) l2 ->
  profiles_validate c = Ok c -> rotated (j_directory j) (j_resetStamp j) l1 c ->
  exists c', rotate_all j c l2 = inr c' /\ profiles_validate c' = Ok c'
    /\ rotated (j_directory j) (j_resetStamp j) (l1 ++ l2) c'.
Proof.
  intros Hd. revert l1 c. induction l2 as [|e l2 IH]; intros l1 c Hro Hv Hc Hrot.
  { exists c. rewrite app_nil_r. done. }
  apply Forall_cons in Hv as [[Hverified [head Hhead]] Hv]. cbn [rotate_all]. rewrite Hverified, Hhead. cbn [negb orb].
  rewrite bool_decide_false by done. change (e :: l2) with ([e] ++ l2) in Hro |- *. rewrite (assoc_L (++)) in Hro |- *.
  destruct (rotate_step (j_directory j) (j_resetStamp j) l1 e c) as (c1 & Hr & Hc1 & Hrot1); try done.
  { destruct Hro as [Hi Hn He Hk Hf]. rewrite !fmap_app in Hi, Hn.
    constructor; [rewrite fmap_app; by apply NoDup_app in Hi as [? _]|rewrite fmap_app; by apply NoDup_app in Hn as [? _]|..];
      intros; [apply He|apply Hk|apply Hf]; set_solver. }
  rewrite Hr. cbn [of_res try_bind]. by apply IH.
Qed.

Lemma find_self l e : NoDup (ev_profile <$> l) -> e ∈ l ->
  List.find (fun x => String.eqb (ev_profile x) (ev_profile e)) l = Some e.
Proof.
  intros Hl He. destruct (List.find _ l) as [x|] eqn:E.
  - apply List.find_some in E as [Hx%list_elem_of_In Heq%String.eqb_eq]. f_equal. by eapply NoDup_fmap_inj.
  - exfalso. apply list_elem_of_In in He. pose proof (List.find_none _ _ E _ He) as Hn. cbn beta in Hn. by rewrite String.eqb_refl in Hn.
Qed.

Lemma rotate_entry_deleted at_ l entry : pe_deleted (rotate_entry at_ l entry) = pe_deleted entry.
Proof. unfold rotate_entry. by destruct (List.find _ l). Qed.

Lemma rotated_live d at_ l d' : rotated d at_ l d' -> length (liveEntries d') = length (liveEntries d).
Proof.
  unfold rotated, liveEntries, entries, map_values. intros ->. rewrite !length_js_sort, <- !list_fmap_compose.
  induction (pd_profiles d) as [|[k x] m IH]; [done|]. rewrite !fmap_cons, !filter_cons. cbn [fst snd compose].
  rewrite rotate_entry_deleted. by destruct (decide _); cbn [length]; rewrite IH.
Qed.

Lemma sameDirectory_refl d : profiles_validate d = Ok d -> sameDirectory d d = true.
Proof.
  intros Hd. unfold sameDirectory, validateStoredProfileDirectory, profilesMaterialize. rewrite Hd. cbn.
  destruct (validate_materializes _ _ Hd) as [jcs ->]. apply String.eqb_refl.
Qed.

(** The successor directory exists once every profile is verified. *)
Lemma successorDirectory_ok j :
  profiles_validate (j_directory j) = Ok (j_directory j) -> rotatable (j_directory j) (j_resetStamp j) (j_profiles j) ->
  ev_profile <$> j_profiles j = pe_id <$> liveEntries (j_directory j) ->
  Forall (fun e => ev_verified e = true /\ is_Some (ev_copiedHead e)) (j_profiles j) ->
  exists d, successorDirectory j = inr d /\ profiles_validate d = Ok d /\ sameDirectory d d = true.
Proof.
  intros Hd Hro Hlive Hv. destruct (validate_keyed _ _ Hd) as [_ Hkeyed].
  destruct (rotate_all_ok j [] (j_profiles j) (j_directory j)) as (d & Hall & Hval & Hrot); try done.
  { unfold rotated. rewrite <- (list_fmap_id (pd_profiles (j_directory j))) at 1. apply list_fmap_ext. by intros i [k x] _. }
  exists d. split_and!; [|done|by apply sameDirectory_refl].
  unfold successorDirectory. rewrite Hall. cbn [try_bind]. unfold caught_res, validateStoredProfileDirectory. rewrite Hval. cbn.
  assert (Hlen : length (liveEntries d) = length (j_profiles j)).
  { rewrite (rotated_live _ _ _ _ Hrot), <- (length_fmap pe_id (liveEntries _)), <- Hlive. by rewrite length_fmap. }
  rewrite Hlen, Nat.eqb_refl. cbn [negb orb].
  assert (Hto : forallb (rotated_to j d) (j_profiles j) = true); [|by rewrite Hto].
  apply forallb_forall. intros e He%list_elem_of_In. destruct Hro as [Hids _ Hentry _ _].
  destruct (Hentry e He) as (entry & Hget & _). unfold rotated_to. rewrite Hrot, map_get_fmap, Hget. cbn.
  destruct (Hkeyed _ _ (map_get_elem _ _ _ Hget)) as [Hpid _].
  unfold rotate_entry. rewrite Hpid, find_self by done. cbn.
  rewrite String.eqb_refl, Z.eqb_refl, (proj2 (compareStamps_eq _ _)) by done. done.
Qed.
End Rotation.
