(* ===== verification/ResetExecutor.v ===== *)
(** * The key reset executor ([web/src/lib/profileKeyResetExecutor.ts])

    The executor is an interaction program: a tree whose nodes are the calls it makes of its backend
    ([ProfileKeyResetBackend]) and whose branches are the answers, a thrown error among them. The journal is an
    object the executor mutates and [guarded] reads again after a failure, so it is a state that survives a throw.
    [exclusive] serializes the calls of every tab; a history is therefore a sequence of whole programs, each cut
    short wherever the process dies. *)

From S2P Require Import Prelude JsMap JsText Json Wire Clock ProfileKeys ResetJournal.

(** ** Backend calls *)

Inductive Op : Type :=
| LoadJournal
| PersistJournal (journal : ProfileResetJournal)
| ClearJournal (attempt : string)
| AcquireLocks (request : ProfileResetLockRequest)
| AbortReset (request : ProfileResetAbortRequest)
| MoveAndVerifyProfile (request : ProfileMoveRequest)
| PublishSuccessorHousehold (request : HouseholdPublishRequest)
| ObserveSuccessorHousehold (request : HouseholdObservationRequest)
| RetireProfileLibrary (request : ProfileRetirementRequest)
| RetireHouseholdLibrary (request : HouseholdRetirementRequest)
| AdoptSuccessorCall (request : ProfileAdoptionRequest)
| SuccessorIsAdopted (request : ProfileAdoptionRequest).

Definition answer (op : Op) : Type :=
  match op with
  | LoadJournal => option ProfileResetJournal
  | AcquireLocks _ => ProfileResetLockSet
  | AbortReset _ => AbortAnswer
  | MoveAndVerifyProfile _ => VerifiedProfileMove
  | ObserveSuccessorHousehold _ => HouseholdObservation
  | SuccessorIsAdopted _ => bool
  | _ => unit
  end.

(** ** Programs *)

Inductive prog (A : Type) : Type :=
| Ret (a : A)
| Call (op : Op) (k : tried (answer op) -> prog A).
Arguments Ret {A} _.
Arguments Call {A} _ _.

Fixpoint prog_bind {A B} (p : prog A) (f : A -> prog B) : prog B :=
  match p with
  | Ret a => f a
  | Call op k => Call op (fun r => prog_bind (k r) f)
  end.

(** An [async] function over the journal: its calls, the journal afterwards, and its value or what it threw. *)
Definition M (A : Type) : Type := ProfileResetJournal -> prog (ProfileResetJournal * tried A).

Definition ret {A} (a : A) : M A := fun j => Ret (j, inr a).
Definition throw {A} (e : Error) : M A := fun j => Ret (j, inl e).
Definition lift {A} (r : tried A) : M A := fun j => Ret (j, r).
Definition get : M ProfileResetJournal := fun j => Ret (j, inr j).
Definition assign (f : ProfileResetJournal -> ProfileResetJournal) : M unit := fun j => Ret (f j, inr tt).
Definition call (op : Op) : M (answer op) := fun j => Call op (fun r => Ret (j, r)).
Definition bind {A B} (m : M A) (f : A -> M B) : M B :=
  fun j => prog_bind (m j) (fun '(j', r) => match r with inl e => Ret (j', inl e) | inr a => f a j' end).
(** [try { return await m } catch (e) { return h(e) }] *)
Definition try_catch {A} (m : M A) (h : Error -> M A) : M A :=
  fun j => prog_bind (m j) (fun '(j', r) => match r with inl e => h e j' | inr a => Ret (j', inr a) end).

Notation "'let*' x ':=' m 'in' k" := (bind m (fun x => k)) (at level 10, x pattern, m at level 99, k at level 200) : den_scope.
Notation "m ;;; k" := (bind m (fun _ => k)) (at level 100, right associativity) : den_scope.

Definition throw_code {A} (code : ProfileResetErrorCode) : M A := throw (ProfileResetError code).

Section Executor.
Context `{ProfilesPolicy, Hkdf}.

(** [this.backend.persistJournal(structuredClone(journal))] *)
Definition persist : M unit := let* j := get in call (PersistJournal j).

(** ** Effects *)

Definition perform_move (profile : string) (locks : ProfileResetLockSet) : M unit :=
  let* j := get in
  match find_open ev_verified profile (j_profiles j) with
  | None => throw_code CorruptJournal
  | Some evidence =>
    let* verified := call (MoveAndVerifyProfile
      (mkMove (j_attempt j) profile (ev_oldKey evidence) (ev_newKey evidence) locks)) in
    let* successor := lift (of_res (libraryId (ev_newKey evidence))) in
    if negb (String.eqb (vm_profile verified) profile) || negb (String.eqb (vm_successorLibraryId verified) successor)
       || negb (DIGEST (vm_copiedHead verified))
    then throw_code InvalidProfileVerification
    else
      assign (fun j => set_profiles j (update_open ev_verified profile (set_verified (vm_copiedHead verified)) (j_profiles j)));;;
      assign (fun j => set_progress j Locked None);;;
      persist
  end.

Definition perform_publish (locks : ProfileResetLockSet) : M unit :=
  let* j := get in
  match j_successorDirectory j with
  | None => throw_code CorruptJournal
  | Some directory =>
    assign (fun j => set_progress j CommitUnknown (Some VerifyHousehold));;;
    persist;;;
    call (PublishSuccessorHousehold
      (mkPublish (j_attempt j) (j_oldHouseholdKey j) (j_newHouseholdKey j) (j_fence j) directory locks))
  end.

Definition perform_verify (locks : ProfileResetLockSet) : M unit :=
  let* j := get in
  match j_successorDirectory j with
  | None => throw_code CorruptJournal
  | Some expected =>
    let* observed := call (ObserveSuccessorHousehold (mkObserve (j_attempt j) (j_newHouseholdKey j) expected locks)) in
    match observed with
    | ObservedAbsent => assign (fun j => set_progress j PublishingHousehold (Some PublishHousehold))
    | ObservedUnknown => assign (fun j => set_phase j CommitUnknown)
    | ObservedCommitted id head directory =>
      let* successor := lift (of_res (libraryId (j_newHouseholdKey j))) in
      if negb (String.eqb id successor) || negb (DIGEST head) || negb (sameDirectory directory expected)
      then throw_code SuccessorNotVerified
      else
        assign (fun j => set_committed j head);;;
        assign (fun j => set_progress j RetiringOld None)
    end;;;
    persist
  end.

Definition perform_retire_profile (profile : string) (locks : ProfileResetLockSet) : M unit :=
  let* j := get in
  match find_open ev_oldRetired profile (j_profiles j) with
  | Some evidence =>
    if negb (j_householdCommitted j) then throw_code CorruptJournal
    else
      let* successor := lift (of_res (libraryId (ev_newKey evidence))) in
      call (RetireProfileLibrary (mkRetireProfile (j_attempt j) profile (ev_oldKey evidence) successor locks));;;
      assign (fun j => set_profiles j (update_open ev_oldRetired profile set_oldRetired (j_profiles j)));;;
      assign (fun j => set_pending j None);;;
      persist
  | None => throw_code CorruptJournal
  end.

Definition perform_retire_household (locks : ProfileResetLockSet) : M unit :=
  let* j := get in
  if negb (j_householdCommitted j) || j_oldHouseholdRetired j then throw_code CorruptJournal
  else
    let* successor := lift (of_res (libraryId (j_newHouseholdKey j))) in
    call (RetireHouseholdLibrary (mkRetireHousehold (j_attempt j) (j_oldHouseholdKey j) successor locks));;;
    assign set_householdRetired;;;
    assign (fun j => set_pending j None);;;
    persist.

Definition perform_adopt (locks : ProfileResetLockSet) : M unit :=
  let* j := get in
  let* request := lift (adoptionRequest j locks) in
  assign (fun j => set_pending j (Some VerifyAdoption));;;
  persist;;;
  call (AdoptSuccessorCall request).

Definition perform_verify_adoption (locks : ProfileResetLockSet) : M unit :=
  let* j := get in
  let* request := lift (adoptionRequest j locks) in
  let* adopted := call (SuccessorIsAdopted request) in
  if negb adopted then assign (fun j => set_pending j (Some AdoptSuccessor));;; persist
  else assign (fun j => set_progress j Complete None);;; call (ClearJournal (j_attempt j)).

Definition perform (effect : ProfileResetEffectIntent) (locks : ProfileResetLockSet) : M unit :=
  match effect with
  | MoveProfile profile => perform_move profile locks
  | PublishHousehold => perform_publish locks
  | VerifyHousehold => perform_verify locks
  | RetireProfile profile => perform_retire_profile profile locks
  | RetireHousehold => perform_retire_household locks
  | AdoptSuccessor => perform_adopt locks
  | VerifyAdoption => perform_verify_adoption locks
  end.

(** ** One step *)

(** [decision.profiles[0]], where the empty string is falsy too. *)
Definition first_profile (profiles : list string) : option string :=
  match profiles with profile :: _ => if truthy profile then Some profile else None | [] => None end.

(** The intent the planner's decision asks for: the journal before it is persisted. *)
Definition plan (decision : ProfileResetEffect) : M unit :=
  let* j := get in
  match decision with
  | MoveLiveProfiles profiles =>
    match first_profile profiles with
    | Some profile =>
      if existsb (is_open ev_verified profile) (j_profiles j)
      then assign (fun j => set_progress j MovingProfiles (Some (MoveProfile profile)))
      else throw_code CorruptJournal
    | None => throw_code CorruptJournal
    end
  | CommitSuccessorHousehold =>
    if negb (every ev_verified j) then throw_code CorruptJournal
    else
      match j_successorDirectory j with
      | Some _ => ret tt
      | None => let* directory := lift (successorDirectory j) in assign (fun j => set_successorDirectory j directory)
      end;;;
      assign (fun j => set_progress j PublishingHousehold (Some PublishHousehold))
  | RetireOldLibraries profiles household =>
    if negb (j_householdCommitted j) || bool_decide (j_successorDirectory j = None) then throw_code CorruptJournal
    else
      assign (fun j => set_phase j RetiringOld);;;
      match first_profile profiles with
      | Some profile => assign (fun j => set_pending j (Some (RetireProfile profile)))
      | None => if household then assign (fun j => set_pending j (Some RetireHousehold)) else throw_code CorruptJournal
      end
  | CompleteReset =>
    if negb (j_householdCommitted j) || negb (j_oldHouseholdRetired j) || negb (every ev_oldRetired j)
    then throw_code CorruptJournal
    else assign (fun j => set_progress j Adopting (Some AdoptSuccessor))
  end.

Definition finish : M ProfileResetStatus := let* j := get in ret (statusOf j).

Definition drive_locks : M ProfileResetStatus :=
  assign (fun j => set_phase j Prepared);;;
  persist;;;
  let* j := get in
  let* request := lift (lockRequest j) in
  let* locks := call (AcquireLocks request) in
  lift (validateLocks locks j);;;
  assign (fun j => set_phase (set_locks j locks) Locked);;;
  persist;;;
  finish.

Definition drive_plan : M ProfileResetStatus :=
  let* j := get in
  let* decision := lift (caught_res CorruptJournal (profilesResetNext (plannerInput j))) in
  plan decision;;;
  persist;;;
  finish.

Definition drive : M ProfileResetStatus :=
  let* j := get in
  match j_phase j, j_locks j, j_pending j with
  | Complete, _, _ => finish
  | _, None, _ => drive_locks
  | _, Some locks, Some effect => perform effect locks;;; finish
  | _, Some _, None => drive_plan
  end.

(** ** The entry points *)

Definition discard : M ProfileResetStatus :=
  let* j := get in
  call (ClearJournal (j_attempt j));;;
  ret (mkStatus None (length (filter (fun p => ev_verified p = true) (j_profiles j))) (length (j_profiles j))).

(** The [catch] of [guarded]. *)
Definition ended (error : Error) : M ProfileResetStatus :=
  let* j := get in
  match error with
  | ProfileResetRolledBackError => if bool_decide (j_phase j = Complete) then throw error else discard
  | ProfileResetRefusedError _ =>
    if j_householdCommitted j then throw error
    else
      let* id := lift (of_res (libraryId (j_oldHouseholdKey j))) in
      let* ended := call (AbortReset (mkAbort (j_attempt j) (mkLibraryRef id (j_oldHouseholdKey j)))) in
      match ended with Aborted => discard | Committed => throw error end
  | _ => throw error
  end.

Definition guarded (work : M ProfileResetStatus) : M ProfileResetStatus := try_catch work ended.

(** A method's value, the journal it worked on dropped with it. *)
Definition on_journal {A} (m : M A) (j : ProfileResetJournal) : prog (tried A) := prog_bind (m j) (fun '(_, r) => Ret r).

Definition loaded {A} (k : option ProfileResetJournal -> prog (tried A)) : prog (tried A) :=
  Call LoadJournal (fun r => match r with inl e => Ret (inl e) | inr journal => k journal end).

Definition status : prog (tried (option ProfileResetStatus)) :=
  loaded (fun journal =>
    match journal with
    | None => Ret (inr None)
    | Some j => Ret (try! _ := validate j in inr (Some (statusOf j)))
    end).

Definition resume : prog (tried (option ProfileResetStatus)) :=
  loaded (fun journal =>
    match journal with
    | None => Ret (inr None)
    | Some j => on_journal (lift (validate j);;; let* s := guarded drive in ret (Some s)) j
    end).

(** *** [start] *)

(** [ProfileKeyResetOptions]: the successive results of [randomKey], an attempt id and the time. *)
Record ProfileKeyResetOptions : Type := mkOptions {
  op_randomKey : nat -> bytes;
  op_randomAttempt : string;
  op_now : Z;
}.

Definition MAX_KEY_ATTEMPTS : nat := 32.

(** [freshKey]: the keys used so far and the number of keys drawn are the closure's state. *)
Fixpoint freshKey (options : ProfileKeyResetOptions) (attempts : nat) (used : list string) (drawn : nat)
    : tried (string * list string * nat) :=
  match attempts with
  | O => inl (ProfileResetError RandomKeyFailure)
  | S attempts =>
    let raw := op_randomKey options drawn in
    if negb (length raw =? 32)%nat then inl (ProfileResetError RandomKeyFailure)
    else
      let candidate := base64 raw in
      if bool_decide (candidate ∈ used) then freshKey options attempts used (S drawn)
      else inr (candidate, set_add candidate used, S drawn)
  end.

Fixpoint fresh_evidence (options : ProfileKeyResetOptions) (live : list ProfileEntry) (used : list string) (drawn : nat)
    : tried (list ProfileResetEvidence) :=
  match live with
  | [] => inr []
  | entry :: live =>
    let '(mkLibrary keyVersion key) := sv_value (pe_library entry) in
    if negb (isSafeInteger keyVersion) || (0xffffffff <=? keyVersion) then inl (ProfileResetError InvalidDirectory)
    else
      try! (newKey, used, drawn) := freshKey options MAX_KEY_ATTEMPTS used drawn in
      try! rest := fresh_evidence options live used drawn in
      inr (mkEvidence (pe_id entry) key newKey keyVersion (keyVersion + 1) None false false :: rest)
  end.

Context `{ClockPolicy}.

(** The journal [start] builds, up to its validation. *)
Definition start_journal (options : ProfileKeyResetOptions) (directory : ProfileDirectoryDocument) (householdKey : string)
    (fence : ProfileResetFence) (successorHouseholdKey : option string) : tried ProfileResetJournal :=
  if negb (canonicalKey householdKey) then inl (ProfileResetError InvalidHouseholdKey) else
  try! _ := checkedFence fence in
  try! document := caught_res InvalidDirectory (validateStoredProfileDirectory directory) in
  let attempt := op_randomAttempt options in
  if negb (ATTEMPT attempt) then inl (ProfileResetError InvalidAttempt) else
  try! id := of_res (libraryId householdKey) in
  try! latest := latestStamp document in
  try! issued := of_res (Clock_issue (mkClock (String.substring 0 16 id) latest) (op_now options)) in
  let live := liveEntries document in
  let liveKeys := set_of (householdKey :: ((fun entry => lv_key (sv_value (pe_library entry))) <$> live)) in
  if negb (length liveKeys =? length live + 1)%nat then inl (ProfileResetError InvalidDirectory) else
  let used := set_of (liveKeys ++ ((fun entry => lv_key (sv_value (pe_library entry))) <$> entries document)) in
  try! (newHouseholdKey, used, drawn) :=
    match successorHouseholdKey with
    | None => freshKey options MAX_KEY_ATTEMPTS used 0
    | Some key =>
      if negb (canonicalKey key) || bool_decide (key ∈ used) then inl (ProfileResetError InvalidHouseholdKey)
      else inr (key, set_add key used, 0%nat)
    end in
  try! profiles := fresh_evidence options live used drawn in
  inr (mkJournal 1 attempt document (mkFence (fn_generation fence) (fn_head fence)) householdKey newHouseholdKey issued.1
         profiles None None None false false Prepared None).

Definition start (options : ProfileKeyResetOptions) (directory : ProfileDirectoryDocument) (householdKey : string)
    (fence : ProfileResetFence) (successorHouseholdKey : option string) : prog (tried ProfileResetStatus) :=
  loaded (fun journal =>
    match journal with
    | Some _ => Ret (inl (ProfileResetError ResetAlreadyPending))
    | None =>
      match start_journal options directory householdKey fence successorHouseholdKey with
      | inl e => Ret (inl e)
      | inr j => on_journal (lift (validate j);;; persist;;; guarded drive) j
      end
    end).
End Executor.

(** ** The durable journal ([VaultProfileResetJournal])

    One cell of the household-sealed vault: [load], [persist] and [clear], which refuses to erase the journal of
    another attempt. *)

Abbreviation cell := (option ProfileResetJournal).

Definition VaultProfileResetJournal_load (c : cell) : option ProfileResetJournal := c.
Definition VaultProfileResetJournal_persist (j : ProfileResetJournal) (c : cell) : cell := Some j.
Definition VaultProfileResetJournal_clear (attempt : string) (c : cell) : res cell :=
  match c with
  | None => Ok None
  | Some current =>
    if negb (String.eqb (j_attempt current) attempt) then Throw "Profile reset journal belongs to another attempt" else Ok None
  end.
