(* ===== verification/ResetSafety.v ===== *)
(** * Safety of the key reset

    Histories of the executor against a backend that may answer anything: wrong values, errors, or nothing at all
    because the process died. The vault may fail before or after it stored. Nothing is assumed of den-core.
    Every call is shown to be made only when the durable journal and the answers already received allow it. *)

From S2P Require Import Prelude JsMap JsText Json Wire Clock ProfileKeys ResetJournal ResetExecutor.

(** ** Histories *)

(** A call, what it was answered, and the journal that was durable when it was made. *)
Record event : Type := mkEvent { e_cell : cell; e_op : Op; e_reply : tried (answer e_op) }.

Record world : Type := mkWorld { w_cell : cell; w_past : list event }.

(** The vault: a call that fails may have had its effect or not. Every other call may be answered in any way. *)
Definition reply (op : Op) (c : cell) : tried (answer op) -> cell -> Prop :=
  match op return tried (answer op) -> cell -> Prop with
  | LoadJournal => fun r c' => c' = c /\ (r = inr (VaultProfileResetJournal_load c) \/ exists m, r = inl (OtherError m))
  | PersistJournal j => fun r c' =>
    (r = inr tt /\ c' = VaultProfileResetJournal_persist j c)
    \/ ((exists m, r = inl (OtherError m)) /\ (c' = c \/ c' = VaultProfileResetJournal_persist j c))
  | ClearJournal attempt => fun r c' =>
    match VaultProfileResetJournal_clear attempt c with
    | Ok cleared => (r = inr tt /\ c' = cleared) \/ ((exists m, r = inl (OtherError m)) /\ (c' = c \/ c' = cleared))
    | Throw m => r = inl (OtherError m) /\ c' = c
    end
  | _ => fun _ c' => c' = c
  end.

Definition after (w : world) (op : Op) (r : tried (answer op)) (c' : cell) : world :=
  mkWorld c' (w_past w ++ [mkEvent (w_cell w) op r]).

(** A run of a program, cut short anywhere. *)
Fixpoint runs {A} (p : prog A) (w w' : world) : Prop :=
  w' = w \/
  match p with
  | Ret _ => False
  | Call op k => exists r c', reply op (w_cell w) r c' /\ runs (k r) (after w op r c') w'
  end.

Section Histories.
Context `{ProfilesPolicy, Hkdf, ClockPolicy}.

Inductive reachable : world -> Prop :=
| reach_init : reachable (mkWorld None [])
| reach_start w w' options directory key fence successor :
    reachable w -> runs (start options directory key fence successor) w w' -> reachable w'
| reach_resume w w' : reachable w -> runs resume w w' -> reachable w'
| reach_status w w' : reachable w -> runs status w w' -> reachable w'.

(** ** What the history shows *)

(** den-edge confirmed the move of this profile to its new key. *)
Definition moved (past : list event) (attempt : string) (e : ProfileResetEvidence) : Prop :=
  exists c locks vm,
    mkEvent c (MoveAndVerifyProfile (mkMove attempt (ev_profile e) (ev_oldKey e) (ev_newKey e) locks)) (inr vm) ∈ past
    /\ vm_profile vm = ev_profile e /\ libraryId (ev_newKey e) = Ok (vm_successorLibraryId vm)
    /\ ev_copiedHead e = Some (vm_copiedHead vm).

(** The successor household was observed committed, with the journal's directory under the journal's key. *)
Definition observed (past : list event) (j : ProfileResetJournal) : Prop :=
  exists c locks expected id head directory,
    mkEvent c (ObserveSuccessorHousehold (mkObserve (j_attempt j) (j_newHouseholdKey j) expected locks))
      (inr (ObservedCommitted id head directory)) ∈ past
    /\ j_successorDirectory j = Some expected /\ libraryId (j_newHouseholdKey j) = Ok id
    /\ j_successorHouseholdHead j = Some head /\ sameDirectory directory expected = true.

(** den-edge answered the retirement of this profile's old library, naming its successor. *)
Definition profile_retired (past : list event) (attempt : string) (e : ProfileResetEvidence) : Prop :=
  exists c id locks,
    mkEvent c (RetireProfileLibrary (mkRetireProfile attempt (ev_profile e) (ev_oldKey e) id locks)) (inr tt) ∈ past
    /\ libraryId (ev_newKey e) = Ok id.

Definition household_retired (past : list event) (j : ProfileResetJournal) : Prop :=
  exists c id locks,
    mkEvent c (RetireHouseholdLibrary (mkRetireHousehold (j_attempt j) (j_oldHouseholdKey j) id locks)) (inr tt) ∈ past
    /\ libraryId (j_newHouseholdKey j) = Ok id.

(** Every claim a journal makes is backed by an answer den-edge gave. *)
Record backed (past : list event) (j : ProfileResetJournal) : Prop := {
  backed_moved : forall e, e ∈ j_profiles j -> ev_verified e = true -> moved past (j_attempt j) e;
  backed_retired : forall e, e ∈ j_profiles j -> ev_oldRetired e = true -> profile_retired past (j_attempt j) e;
  backed_committed : j_householdCommitted j = true -> observed past j;
  backed_household : j_oldHouseholdRetired j = true -> household_retired past j;
}.

(** ** What a journal may become *)

Definition evidence_advances (e e' : ProfileResetEvidence) : Prop :=
  ev_profile e' = ev_profile e /\ ev_oldKey e' = ev_oldKey e /\ ev_newKey e' = ev_newKey e
  /\ ev_oldVersion e' = ev_oldVersion e /\ ev_newVersion e' = ev_newVersion e
  /\ (ev_verified e = true -> ev_verified e' = true /\ ev_copiedHead e' = ev_copiedHead e)
  /\ (ev_oldRetired e = true -> ev_oldRetired e' = true).

Record advances (j j' : ProfileResetJournal) : Prop := {
  adv_attempt : j_attempt j' = j_attempt j;
  adv_directory : j_directory j' = j_directory j;
  adv_fence : j_fence j' = j_fence j;
  adv_keys : j_oldHouseholdKey j' = j_oldHouseholdKey j /\ j_newHouseholdKey j' = j_newHouseholdKey j;
  adv_stamp : j_resetStamp j' = j_resetStamp j;
  adv_profiles : Forall2 evidence_advances (j_profiles j) (j_profiles j');
  adv_locks : is_Some (j_locks j) -> j_locks j' = j_locks j;
  adv_successor : is_Some (j_successorDirectory j) -> j_successorDirectory j' = j_successorDirectory j;
  adv_committed : j_householdCommitted j = true ->
    j_householdCommitted j' = true /\ j_successorHouseholdHead j' = j_successorHouseholdHead j;
  adv_retired : j_oldHouseholdRetired j = true -> j_oldHouseholdRetired j' = true;
}.

Definition fresh (j : ProfileResetJournal) : Prop :=
  (forall e, e ∈ j_profiles j -> ev_verified e = false /\ ev_oldRetired e = false)
  /\ j_householdCommitted j = false /\ j_oldHouseholdRetired j = false /\ j_locks j = None /\ j_pending j = None.

(** ** When a call may be made *)

(** The last answer ends the attempt: an abort that was carried out, a rollback den-edge reports, or a readback of
    the adopted successor. *)
Definition over (past : list event) : Prop :=
  exists before c, (exists request, past = before ++ [mkEvent c (AbortReset request) (inr Aborted)])
    \/ (exists op, past = before ++ [mkEvent c op (inl ProfileResetRolledBackError)])
    \/ (exists request, past = before ++ [mkEvent c (SuccessorIsAdopted request) (inr true)]).

Definition refused (past : list event) : Prop :=
  exists before c op reason, past = before ++ [mkEvent c op (inl (ProfileResetRefusedError reason))].

Definition all_moved (past : list event) (j : ProfileResetJournal) : Prop :=
  forall e, e ∈ j_profiles j -> moved past (j_attempt j) e.

Definition all_retired (past : list event) (j : ProfileResetJournal) : Prop :=
  household_retired past j /\ forall e, e ∈ j_profiles j -> profile_retired past (j_attempt j) e.

Definition allowed (op : Op) (c : cell) (past : list event) : Prop :=
  match op with
  | LoadJournal => True
  | PersistJournal j' => backed past j' /\ match c with None => fresh j' | Some j => advances j j' end
  | ClearJournal attempt => (exists j, c = Some j /\ j_attempt j = attempt) /\ over past
  | AcquireLocks request => exists j, c = Some j /\ j_phase j = Prepared /\ j_locks j = None /\ lockRequest j = inr request
  | AbortReset request => exists j, c = Some j /\ ab_attempt request = j_attempt j /\ j_householdCommitted j = false /\ refused past
  | MoveAndVerifyProfile request => exists j,
      c = Some j /\ j_pending j = Some (MoveProfile (mv_profile request)) /\ mv_attempt request = j_attempt j
      /\ j_locks j = Some (mv_locks request) /\ j_householdCommitted j = false
  | PublishSuccessorHousehold request => exists j,
      c = Some j /\ j_pending j = Some VerifyHousehold /\ j_locks j = Some (hp_locks request)
      /\ j_successorDirectory j = Some (hp_directory request) /\ j_householdCommitted j = false
      /\ all_moved past j
  | ObserveSuccessorHousehold request => exists j,
      c = Some j /\ j_pending j = Some VerifyHousehold /\ j_locks j = Some (ho_locks request)
      /\ j_successorDirectory j = Some (ho_directory request)
  | RetireProfileLibrary request => exists j,
      c = Some j /\ j_pending j = Some (RetireProfile (rp_profile request)) /\ j_locks j = Some (rp_locks request)
      /\ all_moved past j /\ observed past j
  | RetireHouseholdLibrary request => exists j,
      c = Some j /\ j_pending j = Some RetireHousehold /\ j_locks j = Some (rh_locks request)
      /\ all_moved past j /\ observed past j
  | AdoptSuccessorCall request | SuccessorIsAdopted request => exists j,
      c = Some j /\ j_pending j = Some VerifyAdoption /\ adoptionRequest j (ad_locks request) = inr request
      /\ all_moved past j /\ observed past j /\ all_retired past j
  end.

(** ** Weakest preconditions *)

Fixpoint wp {A} (p : prog A) (w : world) (Q : A -> world -> Prop) : Prop :=
  match p with
  | Ret a => Q a w
  | Call op k =>
    allowed op (w_cell w) (w_past w)
    /\ forall r c', reply op (w_cell w) r c' -> wp (k r) (after w op r c') Q
  end.

Lemma wp_bind {A B} (p : prog A) (f : A -> prog B) w Q :
  wp p w (fun a w' => wp (f a) w' Q) -> wp (prog_bind p f) w Q.
Proof. revert w. induction p as [a|op k IH]; cbn; intros w; [done|]. intros [? Hk]. split; [done|]. eauto. Qed.

Lemma wp_mono {A} (p : prog A) w (Q Q' : A -> world -> Prop) :
  (forall a w', Q a w' -> Q' a w') -> wp p w Q -> wp p w Q'.
Proof. intros HQ. revert w. induction p as [a|op k IH]; cbn; intros w; [auto|]. intros [? Hk]. split; [done|]. eauto. Qed.

(** A step of [bind]: a throw ends it. *)
Lemma wp_seq {A B} (m : M A) (f : A -> M B) j w Q :
  wp (m j) w (fun p w' => match p.2 with inl e => Q (p.1, inl e) w' | inr a => wp (f a p.1) w' Q end) ->
  wp (bind m f j) w Q.
Proof. intros Hm. apply wp_bind. eapply wp_mono; [|exact Hm]. by intros [j' [e|a]] w'. Qed.

(** ** Soundness *)

Definition good (w : world) : Prop := match w_cell w with None => True | Some j => backed (w_past w) j end.

Definition history_ok (past : list event) : Prop :=
  forall before c op r later, past = before ++ mkEvent c op r :: later -> allowed op c before.

Lemma elem_of_app_mono (past : list event) x e : x ∈ past -> x ∈ past ++ [e].
Proof. intros Hx. apply elem_of_app. by left. Qed.

#[local] Hint Resolve elem_of_app_mono : core.

Lemma moved_mono past e attempt p : moved past attempt p -> moved (past ++ [e]) attempt p.
Proof. intros (c & l & vm & ? & ?). exists c, l, vm. auto. Qed.
Lemma observed_mono past e j : observed past j -> observed (past ++ [e]) j.
Proof. intros (c & l & x & i & h & d & ? & ?). exists c, l, x, i, h, d. auto. Qed.
Lemma profile_retired_mono past e attempt p : profile_retired past attempt p -> profile_retired (past ++ [e]) attempt p.
Proof. intros (c & i & l & ? & ?). exists c, i, l. auto. Qed.
Lemma household_retired_mono past e j : household_retired past j -> household_retired (past ++ [e]) j.
Proof. intros (c & i & l & ? & ?). exists c, i, l. auto. Qed.

#[local] Hint Resolve moved_mono observed_mono profile_retired_mono household_retired_mono : core.

Lemma backed_mono past e j : backed past j -> backed (past ++ [e]) j.
Proof. intros []. constructor; auto. Qed.

#[local] Hint Resolve backed_mono : core.

Lemma good_after w op r c' :
  good w -> allowed op (w_cell w) (w_past w) -> reply op (w_cell w) r c' -> good (after w op r c').
Proof.
  destruct w as [c past]. unfold good, after; cbn [w_cell w_past].
  intros Hgood Hallowed Hreply.
  assert (Hsame : c' = c -> match c' with None => True | Some j => backed (past ++ [mkEvent c op r]) j end).
  { intros ->. destruct c; auto. }
  destruct op; cbn in Hreply; try (by apply Hsame).
  - apply Hsame, Hreply.
  - destruct Hallowed as [Hb _]. destruct Hreply as [[_ ->]|[_ [->| ->]]]; cbn; auto. by apply Hsame.
  - destruct (VaultProfileResetJournal_clear attempt c) as [c1|m] eqn:E.
    + assert (c1 = None) as ->.
      { unfold VaultProfileResetJournal_clear in E. destruct c as [j|]; [destruct (negb _)|]; congruence. }
      destruct Hreply as [[_ ->]|[_ [->| ->]]]; [done| |done]. by apply Hsame.
    + apply Hsame, Hreply.
Qed.

Lemma history_snoc past c op r : history_ok past -> allowed op c past -> history_ok (past ++ [mkEvent c op r]).
Proof.
  intros Hpast Hop before c0 op0 r0 later E.
  destruct later as [|e later _] using rev_ind.
  - apply app_inj_tail in E as [-> [= -> -> _]]. done.
  - rewrite app_comm_cons, app_assoc in E. apply app_inj_tail in E as [E _]. by eapply Hpast.
Qed.

Lemma runs_sound {A} (p : prog A) w w' Q :
  runs p w w' -> wp p w Q -> good w -> history_ok (w_past w) -> good w' /\ history_ok (w_past w').
Proof.
  revert w. induction p as [a|op k IH]; intros w; cbn; [by intros [->|[]]|].
  intros [->|(r & c' & Hreply & Hrun)] [Hop Hk] Hgood Hpast; [done|].
  eapply IH; [exact Hrun|by apply Hk|by eapply good_after|]. by apply history_snoc.
Qed.

(** ** The executor's calls are allowed *)

(** A refusal or a rollback reaches [guarded] with the journal that is durable, straight from the call. *)
Definition stopped {A} (p : ProfileResetJournal * tried A) (w : world) : Prop :=
  match p.2 with
  | inl (ProfileResetRefusedError _) => w_cell w = Some p.1 /\ refused (w_past w)
  | inl ProfileResetRolledBackError => w_cell w = Some p.1 /\ over (w_past w)
  | _ => True
  end.

Create HintDb quiet.

(** An error that is neither. The executor's own checks throw no other. *)
Definition quiet {A} (r : tried A) : Prop :=
  match r with inl (ProfileResetRefusedError _) | inl ProfileResetRolledBackError => False | _ => True end.

Lemma quiet_stopped {A B} (r : tried A) e j w : quiet r -> r = inl e -> stopped (A := B) (j, inl e) w.
Proof. intros Hq ->. by destruct e. Qed.

Lemma quiet_bind {A B} (r : tried A) (f : A -> tried B) : quiet r -> (forall a, quiet (f a)) -> quiet (try_bind r f).
Proof. destruct r as [[]|]; cbn; auto. Qed.
Lemma quiet_res {A} (r : res A) : quiet (of_res r).
Proof. by destruct r. Qed.
Lemma quiet_caught {A B} code (r : B + A) : quiet (caught code r).
Proof. by destruct r. Qed.
Lemma quiet_if {A} (b : bool) (r r' : tried A) : quiet r -> quiet r' -> quiet (if b then r else r').
Proof. by destruct b. Qed.
Lemma quiet_inr {A} (a : A) : quiet (inr a).
Proof. done. Qed.
Lemma quiet_error {A} code : quiet (A := A) (inl (ProfileResetError code)).
Proof. done. Qed.

#[local] Hint Resolve quiet_bind quiet_res quiet_caught quiet_if quiet_inr quiet_error : quiet.

Lemma adoptionRequest_quiet j locks : quiet (adoptionRequest j locks).
Proof. unfold adoptionRequest. destruct (j_successorHouseholdHead j), (j_successorDirectory j); auto with quiet. Qed.

Lemma lock_profiles_quiet l acc : quiet (lock_profiles l acc).
Proof. revert acc. induction l; cbn; auto with quiet. Qed.

Lemma lockRequest_quiet j : quiet (lockRequest j).
Proof. unfold lockRequest. auto 10 using lock_profiles_quiet with quiet. Qed.

Lemma validateLocks_quiet locks j : quiet (validateLocks locks j).
Proof. unfold validateLocks. auto using lockRequest_quiet with quiet. Qed.

Lemma rotate_all_quiet j l candidate : quiet (rotate_all j candidate l).
Proof. revert candidate. induction l; cbn; auto with quiet. Qed.

Lemma successorDirectory_quiet j : quiet (successorDirectory j).
Proof. unfold successorDirectory, caught_res. auto using rotate_all_quiet with quiet. Qed.

Definition edge_op (op : Op) : Prop :=
  match op with LoadJournal | PersistJournal _ | ClearJournal _ => False | _ => True end.

Lemma stopped_inr {A} j (a : A) w : stopped (j, inr a) w.
Proof. done. Qed.

Lemma wp_edge op j w Q :
  edge_op op -> w_cell w = Some j -> allowed op (w_cell w) (w_past w) ->
  (forall e, stopped (A := answer op) (j, inl e) (after w op (inl e) (Some j)) -> Q (j, inl e) (after w op (inl e) (Some j))) ->
  (forall a, Q (j, inr a) (after w op (inr a) (Some j))) ->
  wp (call op j) w Q.
Proof.
  intros Hedge Hcell Hop Herr Hok. cbn. split; [done|]. intros r c' Hr.
  assert (c' = Some j) as -> by (rewrite <- Hcell; by destruct op).
  destruct r as [e|a]; [|apply Hok]. apply Herr. destruct e; try done; cbn; (split; [done|]).
  - exists (w_past w), (w_cell w), op, reason. done.
  - exists (w_past w), (w_cell w). right. left. by exists op.
Qed.

Lemma wp_persist j w Q :
  backed (w_past w) j -> match w_cell w with None => fresh j | Some j0 => advances j0 j end ->
  (forall m w', Q (j, inl (OtherError m)) w') ->
  Q (j, inr tt) (after w (PersistJournal j) (inr tt) (Some j)) ->
  wp (persist j) w Q.
Proof.
  intros Hb Hadv Herr Hok. cbn. split; [done|].
  intros r c' [[-> ->]|[[m ->] _]]; [exact Hok|apply Herr].
Qed.

Lemma wp_clear attempt j w Q :
  (exists j0, w_cell w = Some j0 /\ j_attempt j0 = attempt) -> over (w_past w) ->
  (forall m w', Q (j, inl (OtherError m)) w') -> (forall w', Q (j, inr tt) w') ->
  wp (call (ClearJournal attempt) j) w Q.
Proof.
  intros Hj Hover Herr Hok. cbn. split; [done|]. intros r c'.
  destruct (VaultProfileResetJournal_clear _ _); [intros [[-> ->]|[[m ->] _]]|intros [-> _]]; auto.
Qed.

(** *** Advancing *)

#[global] Instance evidence_advances_refl : Reflexive evidence_advances.
Proof. intros e. by unfold evidence_advances. Qed.

Lemma advances_progress j phase pending : advances j (set_progress j phase pending).
Proof. constructor; cbn; auto. reflexivity. Qed.

Lemma backed_progress past j phase pending : backed past j -> backed past (set_progress j phase pending).
Proof. intros []. constructor; auto. Qed.

Lemma advances_update j flag profile f e :
  find_open flag profile (j_profiles j) = Some e -> evidence_advances e (f e) ->
  Forall2 evidence_advances (j_profiles j) (update_open flag profile f (j_profiles j)).
Proof.
  intros (_ & _ & l1 & l2 & -> & ->)%(find_open_split _ _ f) He.
  apply Forall2_app; [reflexivity|]. constructor; [done|reflexivity].
Qed.

Lemma elem_of_update flag profile f l e x :
  find_open flag profile l = Some e -> x ∈ update_open flag profile f l -> x = f e \/ x ∈ l.
Proof.
  intros (_ & _ & l1 & l2 & -> & ->)%(find_open_split _ _ f).
  rewrite !elem_of_app, !elem_of_cons. tauto.
Qed.

Lemma find_open_elem flag profile l e : find_open flag profile l = Some e -> e ∈ l.
Proof. intros [H' _]%List.find_some. by apply list_elem_of_In. Qed.

(** *** What validation gives *)

Lemma every_true f j : every f j = true <-> forall e, e ∈ j_profiles j -> f e = true.
Proof. unfold every. rewrite forallb_forall. by setoid_rewrite list_elem_of_In. Qed.

Lemma flags_inv j : flags_ok j = true ->
  (j_oldHouseholdRetired j = true -> j_householdCommitted j = true)
  /\ (j_householdCommitted j = true -> every ev_verified j = true)
  /\ (is_Some (j_successorDirectory j) -> every ev_verified j = true)
  /\ (j_householdCommitted j = true -> is_Some (j_successorDirectory j))
  /\ (j_householdCommitted j = false -> forall e, e ∈ j_profiles j -> ev_oldRetired e = false).
Proof.
  unfold flags_ok. rewrite !andb_true_iff, !negb_true_iff.
  intros [[[[[[F1 F2] F3] F4] F5] _] _]. split_and!.
  - intros Hr. rewrite Hr in F1. by destruct (j_householdCommitted j).
  - intros Hc. rewrite Hc in F3. by destruct (every ev_verified j).
  - intros Hs. rewrite bool_decide_true in F4 by done. by destruct (every ev_verified j).
  - intros Hc. rewrite Hc in F5. destruct (j_successorDirectory j); [eauto|]. by rewrite bool_decide_true in F5.
  - intros Hc e He. rewrite Hc, andb_true_r in F2. apply not_true_iff_false. intros Hr.
    apply not_true_iff_false in F2. apply F2, existsb_exists. exists e. by rewrite <- list_elem_of_In.
Qed.

Lemma backed_all_moved past j : backed past j -> every ev_verified j = true -> all_moved past j.
Proof. rewrite every_true. intros [] Hv e He. auto. Qed.

(** *** The effects *)

(** A journal under way: durable, validated in this call, and backed. *)
Record driven (w : world) (j : ProfileResetJournal) : Prop := {
  dr_cell : w_cell w = Some j;
  dr_backed : backed (w_past w) j;
  dr_flags : flags_ok j = true;
  dr_phase : validPhase j = true;
}.

Lemma before_commit w j intent : driven w j -> j_pending j = Some intent ->
  match intent with MoveProfile _ | PublishHousehold | VerifyHousehold => j_householdCommitted j = false | _ => True end.
Proof.
  intros [_ _ _ Hphase] Hpending. unfold validPhase in Hphase. rewrite Hpending in Hphase.
  destruct intent; try done; destruct (j_phase j); try done; by apply andb_true_iff in Hphase as [_ ?%negb_true_iff].
Qed.

Lemma wp_move w j profile locks :
  driven w j -> j_pending j = Some (MoveProfile profile) -> j_locks j = Some locks ->
  wp (perform_move profile locks j) w stopped.
Proof.
  intros Hw Hpending Hlocks. pose proof (before_commit _ _ _ Hw Hpending) as Hun. destruct Hw as [Hcell Hb _ _]. unfold perform_move. apply wp_seq. cbn [get wp fst snd].
  destruct (find_open _ _ _) as [e|] eqn:Hfind; [|done].
  destruct (find_open_split _ _ id _ _ Hfind) as (<- & _ & _).
  apply wp_seq, wp_edge; [done|done| | |]; [by exists j|by intros|]. intros vm. cbn [fst snd].
  apply wp_seq. cbn [lift wp fst snd]. destruct (libraryId (ev_newKey e)) as [id|] eqn:Hid; [|done]. cbn [of_res].
  destruct (negb (String.eqb (vm_profile vm) _)) eqn:Hp; [done|]. destruct (negb (String.eqb _ id)) eqn:Hs; [done|].
  destruct (negb (DIGEST _)); [done|]. cbn [orb].
  apply negb_false_iff, String.eqb_eq in Hp, Hs.
  apply wp_seq. cbn [assign wp fst snd]. apply wp_seq. cbn [assign wp fst snd].
  apply wp_persist; [| |done|done].
  - destruct Hb as [Hm Hr Hc Hh]. apply backed_progress.
    constructor; cbn [set_profiles j_profiles j_attempt j_householdCommitted j_oldHouseholdRetired w_past after]; auto.
    + intros x [->|Hx]%(elem_of_update _ _ _ _ _ _ Hfind) Hx'; [|auto].
      exists (w_cell w), locks, vm. cbn [set_verified ev_profile ev_oldKey ev_newKey ev_copiedHead].
      rewrite elem_of_app, list_elem_of_singleton, Hid, Hs. auto.
    + intros x [->|Hx]%(elem_of_update _ _ _ _ _ _ Hfind) Hx'; [|auto].
      apply find_open_elem in Hfind. apply profile_retired_mono, (Hr e); auto.
  - cbn [w_cell after]. constructor; cbn; auto. eapply advances_update; [done|].
    apply find_open_split with (f := set_oldRetired) in Hfind as (_ & Hf & _).
    unfold evidence_advances; cbn. split_and!; try done. congruence.
Qed.

Lemma wp_publish w j locks :
  driven w j -> j_pending j = Some PublishHousehold -> j_locks j = Some locks ->
  wp (perform_publish locks j) w stopped.
Proof.
  intros Hw Hpending Hlocks. pose proof (before_commit _ _ _ Hw Hpending) as Hun. destruct Hw as [Hcell Hb Hflags _]. unfold perform_publish. apply wp_seq. cbn [get wp fst snd].
  destruct (j_successorDirectory j) as [directory|] eqn:Hd; [|done].
  apply wp_seq. cbn [assign wp fst snd].
  apply wp_seq, wp_persist; [by apply backed_progress| |done|].
  { rewrite Hcell. apply advances_progress. }
  cbn [fst snd]. apply wp_edge; [done|done| |done|done].
  exists (set_progress j CommitUnknown (Some VerifyHousehold)). cbn [w_cell after w_past].
  split_and!; try done. apply backed_all_moved; [by apply backed_mono, backed_progress|]. apply (flags_inv _ Hflags). rewrite Hd. eauto.
Qed.

Lemma wp_verify w j locks :
  driven w j -> j_pending j = Some VerifyHousehold -> j_locks j = Some locks ->
  wp (perform_verify locks j) w stopped.
Proof.
  intros Hw Hpending Hlocks. pose proof (before_commit _ _ _ Hw Hpending) as Hun. destruct Hw as [Hcell Hb Hflags _]. unfold perform_verify. apply wp_seq. cbn [get wp fst snd].
  destruct (j_successorDirectory j) as [expected|] eqn:Hd; [|done].
  apply wp_seq, wp_edge; [done|done| |by intros|]; [by exists j|]. cbn [fst snd].
  intros [| |id head directory]; apply wp_seq.
  1,2: cbn [assign wp fst snd]; apply wp_persist; [by apply backed_mono, backed_progress|apply advances_progress|done|done].
  apply wp_seq. cbn [lift wp fst snd]. destruct (libraryId (j_newHouseholdKey j)) as [successor|] eqn:Hid; [|done].
  cbn [of_res]. destruct (negb (String.eqb id _)) eqn:Hi; [done|]. destruct (negb (DIGEST head)); [done|].
  destruct (negb (sameDirectory _ _)) eqn:Hsame; [done|]. cbn [orb].
  apply negb_false_iff in Hsame. apply negb_false_iff, String.eqb_eq in Hi as ->.
  apply wp_seq. cbn [assign wp fst snd]. apply wp_persist; [| |done|done].
  - apply backed_progress. destruct (backed_mono _ (mkEvent (w_cell w) (ObserveSuccessorHousehold
      (mkObserve (j_attempt j) (j_newHouseholdKey j) expected locks)) (inr (ObservedCommitted successor head directory))) _ Hb) as [Hm Hr _ Hh].
    constructor; try done. intros _. exists (w_cell w), locks, expected, successor, head, directory.
    cbn [w_past after]. rewrite elem_of_app, list_elem_of_singleton. auto.
  - cbn [w_cell after]. constructor; cbn; auto; [reflexivity|congruence].
Qed.

(** A committed journal's facts: everything was moved and the successor was observed. *)
Lemma driven_committed w j : driven w j -> j_householdCommitted j = true -> all_moved (w_past w) j /\ observed (w_past w) j.
Proof.
  intros [_ Hb Hflags _] Hc. split; [|by apply Hb].
  apply backed_all_moved; [done|]. destruct (flags_inv _ Hflags) as (_ & Hall & _). auto.
Qed.

Lemma wp_retire_profile w j profile locks :
  driven w j -> j_pending j = Some (RetireProfile profile) -> j_locks j = Some locks ->
  wp (perform_retire_profile profile locks j) w stopped.
Proof.
  intros Hw Hpending Hlocks. unfold perform_retire_profile. apply wp_seq. cbn [get wp fst snd].
  destruct (find_open _ _ _) as [e|] eqn:Hfind; [|done].
  destruct (find_open_split _ _ set_oldRetired _ _ Hfind) as (<- & _ & _).
  destruct (j_householdCommitted j) eqn:Hc; [|done]. cbn [negb].
  destruct (driven_committed _ _ Hw Hc) as [Hmoved Hobs]. destruct Hw as [Hcell Hb _ _].
  apply wp_seq. cbn [lift wp fst snd]. destruct (libraryId (ev_newKey e)) as [lid|] eqn:Hid; [|done]. cbn [of_res].
  apply wp_seq, wp_edge; [done|done| |by intros|]; [by exists j|]. intros []. cbn [fst snd].
  apply wp_seq. cbn [assign wp fst snd]. apply wp_seq. cbn [assign wp fst snd].
  apply wp_persist; [| |done|done].
  - destruct Hb as [Hm Hr Hcm Hh]. apply backed_progress.
    constructor; cbn [set_profiles j_profiles j_attempt j_householdCommitted j_oldHouseholdRetired w_past after]; auto.
    + intros x [->|Hx]%(elem_of_update _ _ _ _ _ _ Hfind) Hx'; [|auto].
      apply find_open_elem in Hfind. apply moved_mono, (Hm e); auto.
    + intros x [->|Hx]%(elem_of_update _ _ _ _ _ _ Hfind) Hx'; [|auto].
      exists (w_cell w), lid, locks. cbn [set_oldRetired ev_profile ev_oldKey ev_newKey].
      rewrite elem_of_app, list_elem_of_singleton. auto.
  - cbn [w_cell after]. constructor; cbn; auto. by eapply advances_update.
Qed.

Lemma wp_retire_household w j locks :
  driven w j -> j_pending j = Some RetireHousehold -> j_locks j = Some locks ->
  wp (perform_retire_household locks j) w stopped.
Proof.
  intros Hw Hpending Hlocks. unfold perform_retire_household. apply wp_seq. cbn [get wp fst snd].
  destruct (j_householdCommitted j) eqn:Hc; [|done]. destruct (j_oldHouseholdRetired j) eqn:Hret; [done|]. cbn [negb orb].
  destruct (driven_committed _ _ Hw Hc) as [Hmoved Hobs]. destruct Hw as [Hcell Hb _ _].
  apply wp_seq. cbn [lift wp fst snd]. destruct (libraryId (j_newHouseholdKey j)) as [lid|] eqn:Hid; [|done]. cbn [of_res].
  apply wp_seq, wp_edge; [done|done| |by intros|]; [by exists j|]. intros []. cbn [fst snd].
  apply wp_seq. cbn [assign wp fst snd]. apply wp_seq. cbn [assign wp fst snd].
  apply wp_persist; [| |done|done].
  - apply backed_progress. destruct Hb as [Hm Hr Hcm Hh]. constructor; cbn [w_past after]; auto. intros _.
    exists (w_cell w), lid, locks. rewrite elem_of_app, list_elem_of_singleton. auto.
  - cbn [w_cell after]. constructor; cbn; auto. reflexivity.
Qed.

Lemma adoptionRequest_inv j locks request : adoptionRequest j locks = inr request ->
  ad_locks request = locks /\ j_householdCommitted j = true /\ j_oldHouseholdRetired j = true /\ every ev_oldRetired j = true.
Proof.
  unfold adoptionRequest. destruct (j_successorHouseholdHead j), (j_successorDirectory j); try done.
  destruct (j_householdCommitted j), (j_oldHouseholdRetired j), (every ev_oldRetired j); cbn; try done.
  by intros [= <-].
Qed.

(** What an adoption request can only be built from. *)
Lemma driven_adoption w j locks request : driven w j -> adoptionRequest j locks = inr request ->
  all_moved (w_past w) j /\ observed (w_past w) j /\ all_retired (w_past w) j.
Proof.
  intros Hw (_ & Hc & Hh & Hr)%adoptionRequest_inv. destruct (driven_committed _ _ Hw Hc) as [Hmoved Hobs].
  split_and!; [done..|]. destruct Hw as [_ Hb _ _]. split; [by apply Hb|]. intros e He. apply Hb; [done|].
  by eapply every_true.
Qed.

Lemma all_moved_mono past e j : all_moved past j -> all_moved (past ++ [e]) j.
Proof. intros Hm p Hp. auto. Qed.
Lemma all_retired_mono past e j : all_retired past j -> all_retired (past ++ [e]) j.
Proof. intros [Hh Hp]. split; auto. Qed.

Lemma wp_adopt w j locks :
  driven w j -> wp (perform_adopt locks j) w stopped.
Proof.
  intros Hw. unfold perform_adopt. apply wp_seq. cbn [get wp fst snd]. apply wp_seq. cbn [lift wp fst snd].
  destruct (adoptionRequest j locks) as [|request] eqn:Hreq; [exact (quiet_stopped _ _ _ _ (adoptionRequest_quiet j locks) Hreq)|].
  apply wp_seq. cbn [assign wp fst snd].
  destruct (driven_adoption _ _ _ _ Hw Hreq) as (Hm & Ho & Hr). destruct Hw as [Hcell Hb _ _].
  apply wp_seq, wp_persist; [by apply backed_progress|rewrite Hcell; apply advances_progress|done|]. cbn [fst snd].
  apply wp_edge; [done|done| |done|done]. exists (set_pending j (Some VerifyAdoption)).
  pose proof (adoptionRequest_inv _ _ _ Hreq) as (-> & _).
  split_and!; [done|done|exact Hreq|by apply all_moved_mono|by apply observed_mono|by apply all_retired_mono].
Qed.

Lemma wp_verify_adoption w j locks :
  driven w j -> j_pending j = Some VerifyAdoption -> wp (perform_verify_adoption locks j) w stopped.
Proof.
  intros Hw Hpending. unfold perform_verify_adoption. apply wp_seq. cbn [get wp fst snd]. apply wp_seq. cbn [lift wp fst snd].
  destruct (adoptionRequest j locks) as [|request] eqn:Hreq; [exact (quiet_stopped _ _ _ _ (adoptionRequest_quiet j locks) Hreq)|].
  destruct (driven_adoption _ _ _ _ Hw Hreq) as (Hm & Ho & Hr). destruct Hw as [Hcell Hb _ _].
  pose proof (adoptionRequest_inv _ _ _ Hreq) as (Hl & _).
  apply wp_seq, wp_edge; [done|done| |by intros|].
  { exists j. rewrite Hl. done. }
  intros [|]; cbn [fst snd negb]; apply wp_seq; cbn [assign wp fst snd].
  - apply wp_clear; [by exists j| |done|done]. exists (w_past w), (w_cell w). right. right. by exists request.
  - apply wp_persist; [by apply backed_mono, backed_progress|apply advances_progress|done|done].
Qed.

Lemma wp_perform w j effect locks :
  driven w j -> j_pending j = Some effect -> j_locks j = Some locks -> wp (perform effect locks j) w stopped.
Proof.
  intros. destruct effect; cbn [perform];
    auto using wp_move, wp_publish, wp_verify, wp_retire_profile, wp_retire_household, wp_adopt, wp_verify_adoption.
Qed.

(** *** One step *)

Lemma backed_successor past j directory :
  j_successorDirectory j = None -> backed past j -> backed past (set_successorDirectory j directory).
Proof.
  intros Hd [Hm Hr Hc Hh]. constructor; auto. intros (? & ? & ? & ? & ? & ? & _ & E & _)%Hc. congruence.
Qed.

(** Planning makes no call: it only advances the journal, or throws an error of the executor's own. *)
Lemma plan_spec decision j : exists j' r,
  plan decision j = Ret (j', r) /\ quiet r /\ advances j j' /\ forall past, backed past j -> backed past j'.
Proof.
  assert (Hstay : exists j' r, Ret (j, inl (ProfileResetError CorruptJournal)) = Ret (j', r : tried unit) /\ quiet r
      /\ advances j j' /\ forall past, backed past j -> backed past j').
  { eexists _, _. split_and!; [done|done| |done]. constructor; auto. reflexivity. }
  assert (Hgo : forall phase pending r, quiet r -> exists j' r', Ret (set_progress j phase pending, r) = Ret (j', r' : tried unit)
      /\ quiet r' /\ advances j j' /\ forall past, backed past j -> backed past j').
  { intros phase pending r Hr. eexists _, _. split_and!; [done|done|apply advances_progress|]. intros. by apply backed_progress. }
  unfold plan; cbn [bind get prog_bind].
  destruct decision as [profiles| |profiles household|].
  - destruct (first_profile profiles) as [profile|]; [|apply Hstay]. destruct (existsb _ _); [by apply Hgo|apply Hstay].
  - destruct (every ev_verified j); [|apply Hstay]. cbn [negb].
    destruct (j_successorDirectory j) as [d|] eqn:Hd; [by apply (Hgo _ _ (inr tt))|]. cbn.
    pose proof (successorDirectory_quiet j) as Hq. destruct (successorDirectory j) as [e|d] eqn:E.
    + eexists _, _. split_and!; [done|exact Hq| |done]. constructor; auto. reflexivity.
    + eexists _, _. split_and!; [done|done| |].
      * constructor; cbn; auto; [reflexivity|]. rewrite Hd. by intros [? ?].
      * intros past Hb. by apply backed_progress, backed_successor.
  - destruct (negb (j_householdCommitted j) || _); [apply Hstay|]. cbn.
    destruct (first_profile profiles) as [profile|]; [|destruct household]; by apply Hgo.
  - destruct (_ || _ || _); [apply Hstay|by apply Hgo].
Qed.

Lemma wp_finish j w : wp (finish j) w stopped.
Proof. done. Qed.

Lemma wp_drive_plan w j : driven w j -> wp (drive_plan j) w stopped.
Proof.
  intros [Hcell Hb _ _]. unfold drive_plan. apply wp_seq. cbn [get wp fst snd]. apply wp_seq. cbn [lift wp fst snd].
  destruct (profilesResetNext _) as [decision|]; [|done]. cbn [caught_res of_res caught]. apply wp_seq.
  destruct (plan_spec decision j) as (j' & r & -> & Hq & Hadv & Hb'). cbn [wp fst snd]. destruct r as [e|]; [by destruct e|].
  apply wp_seq, wp_persist; [by apply Hb'|by rewrite Hcell|done|]. apply wp_finish.
Qed.

Lemma lockRequest_progress j phase pending : lockRequest (set_progress j phase pending) = lockRequest j.
Proof. done. Qed.

Lemma wp_drive_locks w j : driven w j -> j_locks j = None -> wp (drive_locks j) w stopped.
Proof.
  intros [Hcell Hb _ _] Hlocks. unfold drive_locks. apply wp_seq. cbn [assign wp fst snd].
  apply wp_seq, wp_persist; [by apply backed_progress|rewrite Hcell; apply advances_progress|done|].
  cbn [fst snd]. apply wp_seq. cbn [get wp fst snd]. apply wp_seq. cbn [lift wp fst snd].
  destruct (lockRequest _) as [e|request] eqn:Hreq; [exact (quiet_stopped _ _ _ _ (lockRequest_quiet _) Hreq)|].
  apply wp_seq, wp_edge; [done|done| |by intros|].
  { eexists. split_and!; [done|done|done|exact Hreq]. }
  intros locks. cbn [fst snd]. apply wp_seq. cbn [lift wp fst snd].
  destruct (validateLocks _ _) as [e|[]] eqn:Hv; [exact (quiet_stopped _ _ _ _ (validateLocks_quiet _ _) Hv)|].
  apply wp_seq. cbn [assign wp fst snd]. apply wp_seq, wp_persist; [| |done|apply wp_finish].
  - apply backed_mono, backed_mono. destruct Hb. constructor; auto.
  - cbn [w_cell after]. constructor; cbn; auto; [reflexivity|]. rewrite Hlocks. by intros [? ?].
Qed.

Lemma wp_drive w j : driven w j -> wp (drive j) w stopped.
Proof.
  intros Hw. unfold drive. apply wp_seq. cbn [get wp fst snd].
  assert (Hgo : wp (match j_locks j, j_pending j with
    | None, _ => drive_locks j
    | Some locks, Some effect => (perform effect locks;;; finish) j
    | Some _, None => drive_plan j end) w stopped).
  { destruct (j_locks j) as [locks|] eqn:Hlocks; [|by apply wp_drive_locks].
    destruct (j_pending j) as [effect|] eqn:Hpending; [|by apply wp_drive_plan].
    apply wp_seq. eapply wp_mono; [|by apply wp_perform]. intros [j' [e|[]]] w' Hs; [exact Hs|]. apply wp_finish. }
  destruct (j_phase j), (j_locks j), (j_pending j); first [exact Hgo | apply wp_finish].
Qed.

Lemma wp_discard w j : w_cell w = Some j -> over (w_past w) -> wp (discard j) w (fun _ _ => True).
Proof.
  intros Hcell Hover. unfold discard. apply wp_seq. cbn [get wp fst snd].
  apply wp_seq, wp_clear; [by exists j|done|done|done].
Qed.

Lemma wp_guarded w j : driven w j -> wp (guarded drive j) w (fun _ _ => True).
Proof.
  intros Hw. apply wp_bind. eapply wp_mono; [|by apply wp_drive].
  intros [j' [e|s]] w' Hs; [|done]. unfold ended. apply wp_seq. cbn [get wp fst snd].
  destruct e as [code|reason| |m]; [done| | |done].
  - destruct Hs as [Hcell Href]. cbn [fst] in Hcell. destruct (j_householdCommitted j') eqn:Hc; [done|].
    apply wp_seq. cbn [lift wp fst snd]. destruct (of_res _) as [e|lid] eqn:Hid; [done|].
    apply wp_seq, wp_edge; [done|done| |done|]; [by exists j'|]. intros [|]; cbn [fst snd]; [|done].
    apply wp_discard; [done|]. exists (w_past w'), (w_cell w'). left. by eexists.
  - destruct Hs as [Hcell Hover]. destruct (bool_decide _); [done|]. by apply wp_discard.
Qed.

(** *** The entry points *)

Lemma wp_loaded {A} (k : option ProfileResetJournal -> prog (tried A)) w :
  (forall w', w_cell w' = w_cell w -> (good w -> good w') -> wp (k (w_cell w)) w' (fun _ _ => True)) -> wp (loaded k) w (fun _ _ => True).
Proof.
  intros Hk. cbn. split; [done|]. intros r c' [-> [->|[m ->]]]; [|done]. apply Hk; [done|].
  unfold good; cbn [w_cell w_past after]. destruct (w_cell w); auto.
Qed.

Lemma wp_on_journal {A} (m : M A) j w : wp (m j) w (fun _ _ => True) -> wp (on_journal m j) w (fun _ _ => True).
Proof. intros Hm. apply wp_bind. eapply wp_mono; [|exact Hm]. by intros [? ?]. Qed.

Lemma validate_driven w j : validate j = inr tt -> w_cell w = Some j -> good w -> driven w j.
Proof.
  intros (_ & _ & Hflags & _ & _ & Hphase & _)%validate_spec Hcell Hgood.
  unfold good in Hgood. rewrite Hcell in Hgood. by constructor.
Qed.

Lemma wp_resume w : good w -> wp resume w (fun _ _ => True).
Proof.
  intros Hw. apply wp_loaded. intros w' Hcell Hgood. destruct (w_cell w) as [j|]; [|done].
  apply wp_on_journal, wp_seq. cbn [lift wp fst snd]. destruct (validate j) as [e|[]] eqn:Hv; [done|].
  apply wp_seq. eapply wp_mono; [|apply wp_guarded, validate_driven; auto]. by intros [j' [e|s]] w''.
Qed.

Lemma wp_status w : wp status w (fun _ _ => True).
Proof. apply wp_loaded. intros w' _ _. by destruct (w_cell w). Qed.

Lemma fresh_evidence_fresh options live used drawn l :
  fresh_evidence options live used drawn = inr l -> forall e, e ∈ l -> ev_verified e = false /\ ev_oldRetired e = false.
Proof.
  revert used drawn l. induction live as [|entry live IH]; intros used drawn l; cbn; [intros [= <-] e He; set_solver|].
  destruct (sv_value (pe_library entry)) as [keyVersion key]. destruct (_ || _); [done|].
  intros ([[newKey used'] drawn'] & _ & (rest & Hrest & [= <-])%try_bind_ok)%try_bind_ok e [->|He]%elem_of_cons; [done|].
  by eapply IH.
Qed.

Lemma start_journal_fresh options directory key fence successor j :
  start_journal options directory key fence successor = inr j -> fresh j.
Proof.
  unfold start_journal. destruct (negb (canonicalKey key)); [done|].
  intros (_ & _ & (document & _ & Hj)%try_bind_ok)%try_bind_ok. destruct (negb (ATTEMPT _)); [done|].
  apply try_bind_ok in Hj as (lid & _ & (latest & _ & (issued & _ & Hj)%try_bind_ok)%try_bind_ok).
  destruct (negb (_ =? _)%nat); [done|].
  apply try_bind_ok in Hj as ([[newKey used] drawn] & _ & (profiles & Hp & [= <-])%try_bind_ok).
  split; [|done]. by eapply fresh_evidence_fresh.
Qed.

Lemma fresh_backed past j : fresh j -> backed past j.
Proof.
  intros (Hp & Hc & Hr & _). constructor; try congruence; intros e He; destruct (Hp e He); congruence.
Qed.

Lemma wp_start options directory key fence successor w :
  wp (start options directory key fence successor) w (fun _ _ => True).
Proof.
  apply wp_loaded. intros w' Hcell _. destruct (w_cell w) as [j|]; [done|].
  destruct (start_journal _ _ _ _ _) as [e|j] eqn:Hj; [done|]. apply start_journal_fresh in Hj.
  apply wp_on_journal, wp_seq. cbn [lift wp fst snd]. destruct (validate j) as [e|[]] eqn:Hv; [done|].
  apply wp_seq, wp_persist; [by apply fresh_backed|by rewrite Hcell|done|]. cbn [fst snd].
  apply wp_guarded, validate_driven; [done|done|]. by apply fresh_backed.
Qed.

Lemma reachable_ok w : reachable w -> good w /\ history_ok (w_past w).
Proof.
  induction 1 as [|w w' o d k f sk _ [IHg IHh] Hrun|w w' _ [IHg IHh] Hrun|w w' _ [IHg IHh] Hrun].
  - split; [done|]. by intros [|? ?] c op r later.
  - eapply runs_sound; [exact Hrun|apply wp_start|done|done].
  - eapply runs_sound; [exact Hrun|by apply wp_resume|done|done].
  - eapply runs_sound; [exact Hrun|apply wp_status|done|done].
Qed.

Lemma reachable_allowed w before c op r later :
  reachable w -> w_past w = before ++ mkEvent c op r :: later -> allowed op c before.
Proof. intros [_ Hh]%reachable_ok. apply Hh. Qed.

(** ** The theorems *)

Definition retires (op : Op) : bool :=
  match op with RetireProfileLibrary _ | RetireHouseholdLibrary _ => true | _ => false end.

(** C11: Whatever the backend answers, wherever the process dies and however the vault fails, no old library is
    retired before every profile of the durable journal was moved to its new key with a verified readback and the
    successor household was observed committed under the successor key with the successor directory. *)
Theorem reset_retires_after_commit w before c op r later :
  reachable w -> w_past w = before ++ mkEvent c op r :: later -> retires op = true ->
  exists j, c = Some j /\ all_moved before j /\ observed before j.
Proof.
  intros Hw Hpast Hop. pose proof (reachable_allowed _ _ _ _ _ _ Hw Hpast) as Hallowed.
  destruct op; try done; destruct Hallowed as (j & -> & _ & _ & ? & ?); by exists j.
Qed.

(** The successor is adopted only once every old library was retired: the household's and each profile's
    retirement was answered before the call, and the request carries the observed head and directory. *)
Lemma reset_adopts_after_retirement w before c request r later :
  reachable w -> w_past w = before ++ mkEvent c (AdoptSuccessorCall request) r :: later ->
  exists j, c = Some j /\ adoptionRequest j (ad_locks request) = inr request
    /\ all_moved before j /\ observed before j /\ all_retired before j.
Proof.
  intros Hw Hpast. destruct (reachable_allowed _ _ _ _ _ _ Hw Hpast) as (j & -> & _ & ? & ? & ? & ?). by exists j.
Qed.

(** The intent a call needs durable. *)
Definition intent_of (op : Op) : option ProfileResetEffectIntent :=
  match op with
  | MoveAndVerifyProfile request => Some (MoveProfile (mv_profile request))
  | PublishSuccessorHousehold _ | ObserveSuccessorHousehold _ => Some VerifyHousehold
  | RetireProfileLibrary request => Some (RetireProfile (rp_profile request))
  | RetireHouseholdLibrary _ => Some RetireHousehold
  | AdoptSuccessorCall _ | SuccessorIsAdopted _ => Some VerifyAdoption
  | _ => None
  end.

(** Every effect's intent is durable before the effect: when den-edge is called, the vault holds the journal
    that names the call, so a process that dies at any point is resumed at that effect. *)
Lemma reset_intent_durable w before c op r later intent :
  reachable w -> w_past w = before ++ mkEvent c op r :: later -> intent_of op = Some intent ->
  exists j, c = Some j /\ j_pending j = Some intent.
Proof.
  intros Hw Hpast Hop. pose proof (reachable_allowed _ _ _ _ _ _ Hw Hpast) as Hallowed.
  destruct op; cbn in Hop; try done; injection Hop as <-; destruct Hallowed as (j & -> & ? & _); by exists j.
Qed.

(** An attempt is ended only when den-edge says so. An abort is sent only after a refusal, while the durable
    journal does not hold a commit; the journal is cleared only straight after a carried out abort, a reported
    rollback or a readback that the successor is adopted. *)
Lemma reset_ends_when_over w before c op r later :
  reachable w -> w_past w = before ++ mkEvent c op r :: later ->
  match op with
  | AbortReset request => refused before /\ exists j, c = Some j /\ ab_attempt request = j_attempt j /\ j_householdCommitted j = false
  | ClearJournal attempt => over before /\ exists j, c = Some j /\ j_attempt j = attempt
  | _ => True
  end.
Proof.
  intros Hw Hpast. pose proof (reachable_allowed _ _ _ _ _ _ Hw Hpast) as Hallowed.
  destruct op; try done; [by destruct Hallowed|]. destruct Hallowed as (j & -> & ? & ? & ?). eauto.
Qed.

(** A durable journal is replaced only by one that advances it: the attempt, its keys and its directory stay,
    evidence, locks, commit and retirements are never taken back, and every fact the new journal records is an
    answer already received. A new attempt is stored only where there is none. *)
Lemma reset_journal_advances w before c j' r later :
  reachable w -> w_past w = before ++ mkEvent c (PersistJournal j') r :: later ->
  backed before j' /\ match c with None => fresh j' | Some j => advances j j' end.
Proof. intros Hw Hpast. exact (reachable_allowed _ _ _ _ _ _ Hw Hpast). Qed.
End Histories.
