(* ===== verification/ResetInvariant.v ===== *)
(** * The journal invariant of the key reset

    The journals an attempt goes through: all of them are the journal [start] made, its evidence and flags filled in.
    The invariant implies the executor's own [validate] and says more: which phase goes with which lock set and
    intent, and that a pending intent is still to be carried out. *)

From S2P Require Import Prelude JsMap JsText Json Wire Clock ProfileKeys ResetJournal ResetSuccessor ResetExecutor ResetSafety.

(** ** The journal of [start] *)

Definition static_of (e : ProfileResetEvidence) : ProfileResetEvidence :=
  mkEvidence (ev_profile e) (ev_oldKey e) (ev_newKey e) (ev_oldVersion e) (ev_newVersion e) None false false.

(** The journal as [start] made it. *)
Definition origin (j : ProfileResetJournal) : ProfileResetJournal :=
  mkJournal (j_version j) (j_attempt j) (j_directory j) (j_fence j) (j_oldHouseholdKey j) (j_newHouseholdKey j) (j_resetStamp j)
    (static_of <$> j_profiles j) None None None false false Prepared None.

Section Invariant.
Context `{ProfilesPolicy, !ProfilesLaws, Hkdf, !HkdfLaws}.

(** What holds of the journal [start] made. *)
Record core (j : ProfileResetJournal) : Prop := {
  co_bound : bound_ok j;
  co_keys : keys_ok j = true;
  co_directory : profiles_validate (j_directory j) = Ok (j_directory j);
  co_profiles : ev_profile <$> j_profiles j = pe_id <$> liveEntries (j_directory j);
  co_rotatable : rotatable (j_directory j) (j_resetStamp j) (j_profiles j);
}.

Definition evidence_dyn (e : ProfileResetEvidence) : Prop :=
  Bool.eqb (ev_verified e) (bool_decide (is_Some (ev_copiedHead e)))
  && match ev_copiedHead e with None => true | Some head => DIGEST head end = true.

(** The phases an attempt can be in, with their lock set and intent. *)
Definition shape (j : ProfileResetJournal) : Prop :=
  match j_phase j, j_pending j with
  | Prepared, None => j_locks j = None /\ j_householdCommitted j = false
  | Locked, None => is_Some (j_locks j) /\ j_householdCommitted j = false
  | MovingProfiles, Some (MoveProfile p) =>
    is_Some (j_locks j) /\ j_householdCommitted j = false /\ is_Some (find_open ev_verified p (j_profiles j))
  | PublishingHousehold, Some PublishHousehold | CommitUnknown, Some VerifyHousehold =>
    is_Some (j_locks j) /\ j_householdCommitted j = false /\ is_Some (j_successorDirectory j)
  | RetiringOld, None => is_Some (j_locks j) /\ j_householdCommitted j = true
  | RetiringOld, Some (RetireProfile p) =>
    is_Some (j_locks j) /\ j_householdCommitted j = true /\ is_Some (find_open ev_oldRetired p (j_profiles j))
  | RetiringOld, Some RetireHousehold =>
    is_Some (j_locks j) /\ j_householdCommitted j = true /\ j_oldHouseholdRetired j = false
  | Adopting, Some AdoptSuccessor | Adopting, Some VerifyAdoption => is_Some (j_locks j) /\ retired j = true
  | _, _ => False
  end.

Record jinv (j : ProfileResetJournal) : Prop := {
  ji_core : core (origin j);
  ji_dyn : Forall evidence_dyn (j_profiles j);
  ji_flags : flags_ok j = true;
  ji_locks : locks_held j;
  ji_successor : forall d, j_successorDirectory j = Some d -> successorDirectory j = inr d;
  ji_shape : shape j;
}.

(** ** The invariant implies validation *)

Lemma static_fmap {A} (f : ProfileResetEvidence -> A) (l : list ProfileResetEvidence) : (forall e, f (static_of e) = f e) -> f <$> (static_of <$> l) = f <$> l.
Proof. intros Hf. rewrite <- list_fmap_compose. apply list_fmap_ext. intros i e _. apply Hf. Qed.

Lemma bound_origin j : core (origin j) -> Forall evidence_dyn (j_profiles j) ->
  bound_ok j /\ Forall (fun e => evidence_ok (j_directory j) e = true) (j_profiles j) /\ checkedFence (j_fence j) = inr tt.
Proof.
  intros [(Hheader & Hfence & directory & previous & household & Hd & Hlatest & Hid & Hstamp & Hp) _ Hdir _ _] Hdyn.
  unfold validateStoredProfileDirectory in Hd. cbn in Hd, Hdir. rewrite Hdir in Hd. injection Hd as <-.
  unfold profiles_ok in Hp. cbn [origin j_profiles] in Hp. rewrite (static_fmap ev_profile) in Hp by done.
  apply andb_true_iff in Hp as [Hids Hev].
  assert (Hevidence : Forall (fun e => evidence_ok (j_directory j) e = true) (j_profiles j)).
  { rewrite forallb_forall in Hev. rewrite Forall_forall in Hdyn |- *. intros e He.
    assert (Hs : evidence_ok (j_directory j) (static_of e) = true).
    { apply Hev, list_elem_of_In, list_elem_of_fmap. by exists e. }
    specialize (Hdyn e He). unfold evidence_dyn in Hdyn. unfold evidence_ok in Hs |- *.
    cbn [static_of ev_profile ev_oldKey ev_newKey ev_oldVersion ev_newVersion ev_verified ev_copiedHead] in Hs.
    apply andb_true_iff in Hs as [[Hs _]%andb_true_iff _]. apply andb_true_iff in Hdyn as [Hd1 Hd2].
    by rewrite Hs, Hd1, Hd2. }
  split_and!; [|done|done]. split_and!; [exact Hheader|exact Hfence|]. exists (j_directory j), previous, household.
  split_and!; [exact Hdir|exact Hlatest|exact Hid|exact Hstamp|]. unfold profiles_ok. rewrite Hids. cbn.
  apply forallb_forall. intros e He. rewrite Forall_forall in Hevidence. by apply Hevidence, list_elem_of_In.
Qed.

Lemma set_of_le (l : list string) : (length (set_of l) <= length l)%nat.
Proof.
  induction l as [|x l IH] using rev_ind; [done|]. rewrite set_of_snoc, length_app. unfold set_add.
  destruct (decide _); rewrite ?length_app; cbn; lia.
Qed.

Lemma distinct_NoDup (l : list string) : distinct l = true -> NoDup l.
Proof.
  unfold distinct. intros Hl%Nat.eqb_eq. induction l as [|x l IH] using rev_ind; [constructor|].
  rewrite set_of_snoc, length_app in Hl. unfold set_add in Hl. pose proof (set_of_le l) as Hle. destruct (decide _) as [Hx|Hx].
  - cbn in Hl. lia.
  - rewrite elem_of_set_of in Hx. rewrite length_app in Hl. cbn in Hl.
    apply NoDup_app. split_and!; [apply IH; lia| |apply NoDup_singleton]. set_solver.
Qed.

Lemma keys_NoDup j : keys_ok j = true -> NoDup ((ev_oldKey <$> j_profiles j) ++ (ev_newKey <$> j_profiles j)).
Proof.
  unfold keys_ok. intros [[Hold%distinct_NoDup Hnew%distinct_NoDup]%andb_true_iff Hdis%negb_true_iff]%andb_true_iff.
  apply NoDup_app in Hold as (Hold & _ & _), Hnew as (Hnew & _ & _). apply NoDup_app. split_and!; [done| |done].
  intros k Hk Hk'. apply not_true_iff_false in Hdis. apply Hdis, existsb_exists.
  exists k. rewrite <- list_elem_of_In, bool_decide_eq_true. set_solver.
Qed.

Lemma keys_origin j : keys_ok (origin j) = keys_ok j.
Proof. unfold keys_ok. cbn [origin j_profiles j_oldHouseholdKey j_newHouseholdKey]. by rewrite !static_fmap. Qed.

Lemma plannerInput_profiles j : pi_profiles (plannerInput j) = j_profiles j.
Proof. unfold plannerInput; cbn. rewrite <- (list_fmap_id (j_profiles j)) at 2. apply list_fmap_ext. by intros i [] _. Qed.

Lemma existsb_false {A} (f : A -> bool) l : (forall x, x ∈ l -> f x = false) -> existsb f l = false.
Proof.
  intros Hl. apply not_true_iff_false. intros (x & Hx%list_elem_of_In & Hf)%existsb_exists. rewrite Hl in Hf; done.
Qed.

Lemma jinv_decides j : jinv j ->
  exists decision, profilesResetNext (plannerInput j) = Ok decision /\ planned (plannerInput j) decision.
Proof.
  intros [Hcore Hdyn Hflags _ _ _]. apply reset_next_planned.
  destruct (bound_origin j Hcore Hdyn) as (_ & Hev & Hfence).
  destruct (flags_inv _ Hflags) as (F1 & F2 & _ & _ & F5).
  constructor; rewrite ?plannerInput_profiles; cbn [plannerInput pi_directory pi_fence pi_householdCommitted pi_oldHouseholdRetired].
  - apply Hcore.
  - done.
  - pose proof (co_profiles _ Hcore) as Hp. cbn [origin j_profiles j_directory] in Hp. by rewrite static_fmap in Hp.
  - done.
  - apply keys_NoDup. rewrite <- keys_origin. apply Hcore.
  - exact F2.
  - intros Hc. split; [|apply existsb_false; auto]. destruct (j_oldHouseholdRetired j); [|done].
    rewrite F1 in Hc; done.
Qed.

Lemma shape_valid j : shape j -> validPhase j = true.
Proof.
  unfold shape, validPhase. destruct (j_phase j), (j_pending j) as [[]|]; try done.
  - intros [-> _]. done.
  - intros [? ->]. by rewrite bool_decide_true.
  - intros (? & -> & _). by rewrite bool_decide_true.
  - intros (_ & -> & ?). by rewrite bool_decide_true.
  - intros (_ & -> & ?). by rewrite bool_decide_true.
  - by intros (_ & -> & _).
  - by intros (_ & -> & _).
  - by intros [_ ->].
  - by intros [_ ->].
  - by intros [_ ->].
Qed.

Lemma successorDirectory_valid j d : successorDirectory j = inr d -> profiles_validate d = Ok d.
Proof.
  unfold successorDirectory. intros (c & _ & (d' & Hd%caught_res_ok & Hd')%try_bind_ok)%try_bind_ok.
  destruct (_ || _); [done|]. injection Hd' as <-. by eapply validate_canonical.
Qed.

Lemma jinv_validates j : jinv j -> validate j = inr tt.
Proof.
  intros Hj. pose proof (jinv_decides j Hj) as (decision & Hdecision & _). destruct Hj as [Hcore Hdyn Hflags Hlocks Hsucc Hshape].
  apply validate_spec. split_and!; [by apply bound_origin|rewrite <- keys_origin; apply Hcore|done|done| |by apply shape_valid|eauto].
  unfold successor_held. destruct (j_successorDirectory j) as [d|]; [|done]. specialize (Hsucc d eq_refl).
  exists d. split; [done|]. by eapply sameDirectory_refl, successorDirectory_valid.
Qed.

(** ** Steps keep the invariant *)

Lemma flags_spec j : flags_ok j = true <->
  (j_oldHouseholdRetired j = true -> j_householdCommitted j = true)
  /\ (j_householdCommitted j = false -> forall e, e ∈ j_profiles j -> ev_oldRetired e = false)
  /\ (is_Some (j_successorDirectory j) -> every ev_verified j = true)
  /\ (j_householdCommitted j = true -> is_Some (j_successorDirectory j))
  /\ match j_successorHouseholdHead j with Some head => j_householdCommitted j = true /\ DIGEST head = true | None => j_householdCommitted j = false end.
Proof.
  split.
  - intros Hf. destruct (flags_inv _ Hf) as (F1 & _ & F3 & F4 & F5). split_and!; [done..|].
    unfold flags_ok in Hf. apply andb_true_iff in Hf as [[_ Hc%eqb_prop]%andb_true_iff Hd].
    destruct (j_successorHouseholdHead j); [rewrite bool_decide_true in Hc by eauto; by rewrite <- Hc|].
    rewrite bool_decide_false in Hc by (by intros [? ?]). by rewrite <- Hc.
  - intros (F1 & F2 & F3 & F4 & F5). unfold flags_ok.
    assert (Hhead : Bool.eqb (bool_decide (is_Some (j_successorHouseholdHead j))) (j_householdCommitted j)
       && match j_successorHouseholdHead j with None => true | Some head => DIGEST head end = true).
    { destruct (j_successorHouseholdHead j); [destruct F5 as [-> ->]; by rewrite bool_decide_true by eauto|].
      rewrite F5, bool_decide_false by (by intros [? ?]). done. }
    rewrite <- andb_assoc, Hhead, andb_true_r.
    destruct (j_householdCommitted j).
    + rewrite (F3 (F4 eq_refl)). destruct (F4 eq_refl) as [d ->]. cbn. rewrite !andb_false_r. done.
    + rewrite existsb_false by auto. destruct (j_oldHouseholdRetired j); [by specialize (F1 eq_refl)|]. cbn.
      destruct (j_successorDirectory j); [rewrite F3 by eauto; by rewrite andb_false_r|]. by rewrite bool_decide_false by (by intros [? ?]).
Qed.

Lemma lock_profiles_static l acc : lock_profiles (static_of <$> l) acc = lock_profiles l acc.
Proof.
  revert acc. induction l as [|e l IH]; intros acc; [done|]. cbn. destruct (libraryId (ev_oldKey e)); [|done]. cbn.
  destruct (libraryId (ev_newKey e)); [|done]. cbn. apply IH.
Qed.

Lemma lockRequest_origin j j' : origin j' = origin j -> lockRequest j' = lockRequest j.
Proof.
  intros Ho. assert (Hreq : forall j, lockRequest (origin j) = lockRequest j).
  { intros i. unfold lockRequest. cbn [origin j_profiles j_attempt j_fence j_oldHouseholdKey j_newHouseholdKey].
    by rewrite lock_profiles_static. }
  by rewrite <- (Hreq j), <- Ho, Hreq.
Qed.

Lemma validateLocks_origin locks j j' : origin j' = origin j -> validateLocks locks j' = validateLocks locks j.
Proof.
  intros Ho. unfold validateLocks. rewrite (lockRequest_origin _ _ Ho).
  assert (j_attempt j' = j_attempt j) as -> by (change (j_attempt (origin j') = j_attempt (origin j)); by rewrite Ho). done.
Qed.

Lemma locks_origin j j' : origin j' = origin j -> j_locks j' = j_locks j -> locks_held j -> locks_held j'.
Proof. intros Ho Hl. unfold locks_held. rewrite Hl. destruct (j_locks j); [|done]. by rewrite (validateLocks_origin _ _ _ Ho). Qed.

(** The successor directory depends on the stamp, the directory, and the evidence up to retirement. *)
Definition rotates_as (e e' : ProfileResetEvidence) : Prop :=
  ev_profile e' = ev_profile e /\ ev_newKey e' = ev_newKey e /\ ev_newVersion e' = ev_newVersion e
  /\ ev_verified e' = ev_verified e /\ ev_copiedHead e' = ev_copiedHead e.

#[local] Instance rotates_as_refl : Reflexive rotates_as.
Proof. by intros e. Qed.

Lemma rotate_all_ext j j' l l' c : j_resetStamp j' = j_resetStamp j -> Forall2 rotates_as l l' ->
  rotate_all j' c l' = rotate_all j c l.
Proof.
  intros Hs Hl. revert c. induction Hl as [|e e' l l' (Hp & Hk & Hn & Hv & Hh) _ IH]; intros c; cbn; [done|].
  rewrite Hv, Hh, Hp, Hk, Hn, Hs. destruct (_ || _); [done|]. destruct (of_res _); [done|]. apply IH.
Qed.

Lemma successorDirectory_ext j j' : j_directory j' = j_directory j -> j_resetStamp j' = j_resetStamp j ->
  Forall2 rotates_as (j_profiles j) (j_profiles j') -> successorDirectory j' = successorDirectory j.
Proof.
  intros Hd Hs Hp. unfold successorDirectory. rewrite Hd, (rotate_all_ext _ _ _ _ _ Hs Hp), <- (Forall2_length _ _ _ Hp).
  destruct (rotate_all _ _ _) as [|c]; [done|]. cbn. destruct (caught_res _ _) as [|d]; [done|]. cbn.
  assert (forallb (rotated_to j' d) (j_profiles j') = forallb (rotated_to j d) (j_profiles j)) as ->; [|done].
  induction Hp as [|e e' l l' (He & Hk & Hn & _) _ IH]; [done|]. cbn. rewrite IH. unfold rotated_to. by rewrite He, Hk, Hn, Hs.
Qed.

Lemma jinv_progress j phase pending : jinv j -> shape (set_progress j phase pending) -> jinv (set_progress j phase pending).
Proof.
  intros [Hcore Hdyn Hflags Hlocks Hsucc _] Hs.
  constructor; [exact Hcore|exact Hdyn|exact Hflags|exact Hlocks| |exact Hs].
  intros d Hd. rewrite (successorDirectory_ext j); auto. reflexivity.
Qed.

Lemma jinv_lock j locks : jinv j -> j_locks j = None -> validateLocks locks j = inr tt ->
  jinv (set_phase (set_locks j locks) Locked).
Proof.
  intros [Hcore Hdyn Hflags _ Hsucc Hshape] Hnone Hv.
  constructor; [exact Hcore|exact Hdyn|exact Hflags|exact Hv| |].
  { intros d Hd. rewrite (successorDirectory_ext j); auto. reflexivity. }
  unfold shape in Hshape. rewrite Hnone in Hshape. unfold shape. cbn.
  destruct (j_phase j), (j_pending j) as [[]|]; try done; try (destruct Hshape as [[? ?] _]; done).
  destruct Hshape as [_ ?]. split; [eauto|done].
Qed.

(** Updating one profile's evidence. *)
Lemma origin_update j flag profile f :
  (forall e, static_of (f e) = static_of e) ->
  origin (set_profiles j (update_open flag profile f (j_profiles j))) = origin j.
Proof.
  intros Hf. unfold origin. cbn. f_equal. induction (j_profiles j) as [|e l IH]; cbn; [done|].
  destruct (is_open _ _ _); cbn; [by rewrite Hf|]. f_equal. apply IH.
Qed.

Lemma update_Forall (P : ProfileResetEvidence -> Prop) flag profile f l :
  Forall P l -> (forall e, P e -> P (f e)) -> Forall P (update_open flag profile f l).
Proof. intros Hl Hf. induction Hl as [|e l He Hl IH]; cbn; [constructor|]. destruct (is_open _ _ _); constructor; auto. Qed.

Lemma no_successor j profile e : flags_ok j = true -> find_open ev_verified profile (j_profiles j) = Some e ->
  j_successorDirectory j = None.
Proof.
  intros (_ & _ & F3 & _ & _)%flags_spec Hfind. destruct (j_successorDirectory j) as [d|]; [|done].
  assert (Hall : every ev_verified j = true) by eauto. rewrite every_true in Hall.
  destruct (find_open_split _ _ set_oldRetired _ _ Hfind) as (_ & Hv & _). rewrite Hall in Hv; [done|by eapply find_open_elem].
Qed.

Lemma jinv_verified j profile e head :
  jinv j -> find_open ev_verified profile (j_profiles j) = Some e -> DIGEST head = true ->
  is_Some (j_locks j) -> j_householdCommitted j = false ->
  jinv (set_progress (set_profiles j (update_open ev_verified profile (set_verified head) (j_profiles j))) Locked None).
Proof.
  intros [Hcore Hdyn Hflags Hlocks Hsucc Hshape] Hfind Hhead Hl Hc.
  pose proof (no_successor _ _ _ Hflags Hfind) as Hnone.
  assert (Ho : origin (set_profiles j (update_open ev_verified profile (set_verified head) (j_profiles j))) = origin j)
    by by apply origin_update.
  constructor.
  - change (core (origin (set_profiles j (update_open ev_verified profile (set_verified head) (j_profiles j))))). by rewrite Ho.
  - apply update_Forall; [done|]. intros x _. unfold evidence_dyn. cbn. exact Hhead.
  - apply flags_spec. apply flags_spec in Hflags as (F1 & F2 & F3 & F4 & F5). cbn. rewrite Hnone.
    split_and!; [done| |by intros [? ?]|congruence|done]. intros _ x [->|Hx]%(elem_of_update _ _ _ _ _ _ Hfind); [|auto].
    cbn. apply F2; [done|by eapply find_open_elem].
  - by apply (locks_origin j).
  - cbn. by rewrite Hnone.
  - cbn. done.
Qed.

Lemma all_verified_heads j : jinv j -> every ev_verified j = true ->
  Forall (fun e => ev_verified e = true /\ is_Some (ev_copiedHead e)) (j_profiles j).
Proof.
  intros [_ Hdyn _ _ _ _] Hall. rewrite every_true in Hall. rewrite Forall_forall in Hdyn |- *. intros e He.
  specialize (Hdyn e He). unfold evidence_dyn in Hdyn. rewrite (Hall e He) in Hdyn |- *. split; [done|].
  apply andb_true_iff in Hdyn as [Hv%eqb_prop _]. symmetry in Hv. by apply bool_decide_eq_true in Hv.
Qed.

Lemma rotatable_static d at_ l : rotatable d at_ (static_of <$> l) -> rotatable d at_ l.
Proof.
  intros [Hp Hk He Hc Hf]. rewrite static_fmap in Hp, Hk by done.
  assert (Hin : forall e, e ∈ l -> static_of e ∈ static_of <$> l) by (intros e He'; apply list_elem_of_fmap; eauto).
  constructor; [done|done|..].
  - intros e Hel. apply (He (static_of e) (Hin e Hel)).
  - intros e Hel. apply (Hc (static_of e) (Hin e Hel)).
  - intros e entry Hel. apply (Hf (static_of e) entry (Hin e Hel)).
Qed.

Lemma jinv_successor j : jinv j -> every ev_verified j = true -> exists d, successorDirectory j = inr d.
Proof.
  intros Hj Hall. pose proof (all_verified_heads j Hj Hall) as Hv. destruct Hj as [[_ _ Hd Hp Hro] _ _ _ _ _].
  cbn [origin j_profiles j_directory j_resetStamp] in Hd, Hp, Hro. rewrite static_fmap in Hp by done.
  destruct (successorDirectory_ok j) as (d & Hs & _); eauto. by apply rotatable_static.
Qed.

Lemma jinv_publish j : jinv j -> every ev_verified j = true -> is_Some (j_locks j) -> j_householdCommitted j = false ->
  forall d, successorDirectory j = inr d ->
  jinv (set_progress (set_successorDirectory j d) PublishingHousehold (Some PublishHousehold)).
Proof.
  intros [Hcore Hdyn Hflags Hlocks _ _] Hall Hl Hc d Hd. constructor; [exact Hcore|exact Hdyn| |exact Hlocks| |].
  - apply flags_spec. apply flags_spec in Hflags as (F1 & F2 & _ & _ & F5). cbn. rewrite Hc in *.
    by split_and!.
  - cbn [set_progress set_successorDirectory j_successorDirectory]. intros d' [= <-].
    rewrite (successorDirectory_ext j); auto. reflexivity.
  - cbn. eauto.
Qed.

Lemma jinv_committed j head : jinv j -> is_Some (j_locks j) -> j_householdCommitted j = false -> is_Some (j_successorDirectory j) ->
  DIGEST head = true -> jinv (set_progress (set_committed j head) RetiringOld None).
Proof.
  intros [Hcore Hdyn Hflags Hlocks Hsucc _] Hl Hc Hs Hhead. constructor; [exact Hcore|exact Hdyn| |exact Hlocks| |].
  - apply flags_spec. apply flags_spec in Hflags as (F1 & F2 & F3 & _ & F5). cbn. split_and!; try done.
  - intros d Hd. rewrite (successorDirectory_ext j); auto. reflexivity.
  - cbn. eauto.
Qed.

Lemma jinv_retired j profile e : jinv j -> find_open ev_oldRetired profile (j_profiles j) = Some e -> is_Some (j_locks j) ->
  j_householdCommitted j = true -> j_phase j = RetiringOld ->
  jinv (set_pending (set_profiles j (update_open ev_oldRetired profile set_oldRetired (j_profiles j))) None).
Proof.
  intros [Hcore Hdyn Hflags Hlocks Hsucc _] Hfind Hl Hc Hphase.
  assert (Ho : origin (set_profiles j (update_open ev_oldRetired profile set_oldRetired (j_profiles j))) = origin j)
    by by apply origin_update.
  constructor.
  - change (core (origin (set_profiles j (update_open ev_oldRetired profile set_oldRetired (j_profiles j))))). by rewrite Ho.
  - apply update_Forall; [exact Hdyn|]. intros x Hx. exact Hx.
  - apply flags_spec. apply flags_spec in Hflags as (F1 & F2 & F3 & F4 & F5).
    cbn [set_pending set_progress set_profiles j_oldHouseholdRetired j_householdCommitted j_successorDirectory j_successorHouseholdHead].
    rewrite Hc in *. split_and!; try done. intros Hs. specialize (F3 Hs). rewrite every_true in F3 |- *. cbn.
    intros x [->|Hx]%(elem_of_update _ _ _ _ _ _ Hfind); [|auto]. cbn. by eapply F3, find_open_elem.
  - by apply (locks_origin j).
  - intros d Hd. rewrite (successorDirectory_ext j); auto. cbn.
    apply find_open_split with (f := set_oldRetired) in Hfind as (_ & _ & l1 & l2 & -> & ->).
    apply Forall2_app; [reflexivity|]. constructor; [done|reflexivity].
  - unfold shape. cbn. rewrite Hphase. done.
Qed.

Lemma jinv_household j : jinv j -> is_Some (j_locks j) -> j_householdCommitted j = true -> j_phase j = RetiringOld ->
  jinv (set_pending (set_householdRetired j) None).
Proof.
  intros [Hcore Hdyn Hflags Hlocks Hsucc _] Hl Hc Hphase. constructor; [exact Hcore|exact Hdyn| |exact Hlocks| |].
  - apply flags_spec. apply flags_spec in Hflags as (F1 & F2 & F3 & F4 & F5). cbn. split_and!; done.
  - intros d Hd. rewrite (successorDirectory_ext j); auto. reflexivity.
  - unfold shape. cbn. rewrite Hphase. done.
Qed.

(** ** [start] establishes the invariant *)

Lemma freshKey_spec options attempts used drawn key used' drawn' :
  freshKey options attempts used drawn = inr (key, used', drawn') ->
  canonicalKey key = true /\ (key ∉ used) /\ used' = set_add key used.
Proof.
  revert drawn. induction attempts as [|attempts IH]; intros drawn; cbn; [done|].
  destruct (length _ =? 32)%nat eqn:Hlen; [|done]. cbn. destruct (bool_decide _) eqn:Hin; [apply IH|].
  intros [= <- <- _]. apply bool_decide_eq_false in Hin. split_and!; [|done|done]. by apply base64_canonical, Nat.eqb_eq.
Qed.

#[local] Arguments freshKey : simpl never.

Lemma fresh_evidence_spec options live used drawn l :
  fresh_evidence options live used drawn = inr l ->
  Forall2 (fun entry e => e = mkEvidence (pe_id entry) (entry_key entry) (ev_newKey e) (entry_version entry)
      (entry_version entry + 1) None false false /\ entry_version entry < 0xffffffff) live l
  /\ forall e, e ∈ l -> ev_newKey e ∉ used.
Proof.
  revert used drawn l. induction live as [|entry live IH]; intros used drawn l; cbn; [intros [= <-]; split; [constructor|set_solver]|].
  destruct (sv_value (pe_library entry)) as [keyVersion key] eqn:Hlib.
  destruct (isSafeInteger keyVersion); [|done]. cbn [negb orb]. destruct (Z.leb_spec 0xffffffff keyVersion); [done|].
  intros ([[newKey used'] drawn'] & (_ & Hnew & ->)%freshKey_spec & (rest & (Hrest & Hkeys)%IH & [= <-])%try_bind_ok)%try_bind_ok.
  unfold entry_key, entry_version. split.
  - constructor; [|done]. cbn. rewrite Hlib. cbn. split; [done|lia].
  - intros e [->|He]%elem_of_cons; [done|]. intros Hin. apply (Hkeys e He), elem_of_set_add. by right.
Qed.

Lemma latest_of_ge l latest m : latest_of latest l = inr m -> stamp_le latest m /\ forall x, x ∈ l -> stamp_le x m.
Proof.
  revert latest. induction l as [|x l IH]; intros latest; cbn.
  - intros [= <-]. split; [reflexivity|set_solver].
  - destruct (stamp x); [|done]. cbn. fold (later latest x). intros (Hl & Hx)%IH.
    split; [etransitivity; [apply later_le_l|exact Hl]|]. intros y [->|Hy]%elem_of_cons; [|auto].
    etransitivity; [apply later_le_r|exact Hl].
Qed.

Lemma liveEntries_elem d entry : entry ∈ liveEntries d -> sv_value (pe_deleted entry) = false /\ entry ∈ entries d.
Proof. unfold liveEntries. by rewrite elem_of_js_sort, list_elem_of_filter. Qed.

Context `{ClockPolicy}.

(** What [start] builds its journal from. *)
Lemma start_journal_spec options directory key fence successor j :
  start_journal options directory key fence successor = inr j ->
  origin j = j /\ profiles_validate directory = Ok (j_directory j) /\ j_attempt j = op_randomAttempt options
  /\ Forall2 (fun entry e => e = mkEvidence (pe_id entry) (entry_key entry) (ev_newKey e) (entry_version entry)
        (entry_version entry + 1) None false false /\ entry_version entry < 0xffffffff) (liveEntries (j_directory j)) (j_profiles j)
  /\ forall e entry, e ∈ j_profiles j -> entry ∈ entries (j_directory j) -> entry_key entry <> ev_newKey e.
Proof.
  unfold start_journal. destruct (negb (canonicalKey key)); [done|].
  intros (_ & _ & (document & Hdoc%caught_res_ok & Hj)%try_bind_ok)%try_bind_ok. destruct (negb (ATTEMPT _)); [done|].
  apply try_bind_ok in Hj as (lid & _ & (latest & _ & (issued & _ & Hj)%try_bind_ok)%try_bind_ok).
  destruct (negb (_ =? _)%nat); [done|].
  apply try_bind_ok in Hj as ([[newKey used] drawn] & Hused & (profiles & (Hp & Hkeys)%fresh_evidence_spec & [= <-])%try_bind_ok).
  cbn [j_directory j_attempt j_profiles]. split_and!; [|done|done|done|].
  - unfold origin. cbn. f_equal. clear -Hp. induction Hp as [|entry e l l' [He _] _ IH]; [done|]. cbn. rewrite IH. f_equal. by rewrite He.
  - intros e entry He Hentry Heq. apply (Hkeys e He). rewrite <- Heq.
    assert (Hin : entry_key entry ∈ set_of (set_of (key :: ((λ entry, lv_key (sv_value (pe_library entry))) <$> liveEntries document))
        ++ ((λ entry, lv_key (sv_value (pe_library entry))) <$> entries document))).
    { apply elem_of_set_of, elem_of_app. right. apply list_elem_of_fmap. by exists entry. }
    destruct successor as [k|].
    + destruct (negb (canonicalKey k)); [done|]. cbn in Hused. destruct (bool_decide _); [done|].
      injection Hused as <- <- <-. apply elem_of_set_add. by right.
    + apply freshKey_spec in Hused as (_ & _ & ->). apply elem_of_set_add. by right.
Qed.

Lemma start_jinv options directory key fence successor j :
  start_journal options directory key fence successor = inr j -> validate j = inr tt -> jinv j.
Proof.
  intros Hstart (Hbound & Hkeys & Hflags & Hlocks & _ & _ & _)%validate_spec.
  pose proof (start_journal_fresh _ _ _ _ _ _ Hstart) as (Hfresh & Hc & _ & Hnl & Hnp).
  apply start_journal_spec in Hstart as (Ho & Hd & _ & Hp & Hnew).
  apply validate_canonical in Hd. destruct (validate_keyed _ _ Hd) as [Hwf Hkeyed].
  assert (Hids : ev_profile <$> j_profiles j = pe_id <$> liveEntries (j_directory j)).
  { clear -Hp. induction Hp as [|entry e l l' [He _] _ IH]; [done|]. cbn. rewrite IH. f_equal. by rewrite He. }
  assert (Hsucc : j_successorDirectory j = None /\ j_phase j = Prepared) by (rewrite <- Ho; done).
  destruct Hsucc as [Hsucc Hphase]. constructor.
  - rewrite Ho. constructor; [done|done|done|done|].
    destruct Hbound as (_ & _ & directory' & previous & household & Hd' & Hlatest & _ & Hstamp & Hprof).
    unfold validateStoredProfileDirectory in Hd'. rewrite Hd in Hd'. injection Hd' as <-.
    unfold profiles_ok in Hprof. apply andb_true_iff in Hprof as [[[_ Hdis%distinct_NoDup]%andb_true_iff _]%andb_true_iff Hev].
    rewrite forallb_forall in Hev. constructor; [done| | | |done].
    + apply keys_NoDup, NoDup_app in Hkeys as (_ & _ & ?). done.
    + intros e (i & He)%list_elem_of_lookup_1.
      destruct (Forall2_lookup_r _ _ _ _ _ Hp He) as (entry & (Hdel & Hentry)%list_elem_of_lookup_2%liveEntries_elem & Heq & Hmax).
      apply list_elem_of_fmap in Hentry as ([k x] & -> & Hx). destruct (Hkeyed _ _ Hx) as [Hk _]. cbn [snd] in *.
      exists x. rewrite Heq. cbn [ev_profile ev_newVersion]. split_and!; [|done|done|lia|].
      * rewrite Hk. by apply map_elem_get.
      * apply andb_true_iff in Hstamp as [[_ Hafter%Z.ltb_lt]%andb_true_iff _]. apply latest_of_ge in Hlatest as [_ Hge].
        apply compareStamps_antisym. eapply stamp_le_lt_trans; [apply Hge|by apply compareStamps_antisym].
        apply list_elem_of_bind. exists x. split; [unfold entry_stamps; set_solver|]. apply list_elem_of_fmap. by exists (k, x).
    + intros e He%list_elem_of_In%Hev. unfold evidence_ok in He.
      repeat (apply andb_true_iff in He as [He ?]). done.
  - rewrite <- Ho. apply Forall_fmap, Forall_forall. done.
  - done.
  - done.
  - congruence.
  - unfold shape. by rewrite Hphase, Hnp.
Qed.
End Invariant.
