(* ===== verification/ResetLiveness.v ===== *)
(** * Liveness of the key reset

    Against a den-edge that keeps the contract [ProfileKeyResetBackend] documents ([ResetContract]), a reset that was
    started completes: however often the process died, a call's answer was lost or the vault failed, resuming it
    without further faults ends with the successor adopted and the journal erased, within a number of resumes that
    is linear in the number of profiles. *)

From S2P Require Import Prelude JsMap JsText Json Wire Clock ProfileKeys ResetJournal ResetSuccessor ResetExecutor ResetSafety ResetInvariant.

(** ** The backend *)

(** den-edge and this device's installed credential: a state and the answer to each call. *)
Class ResetEdge := {
  edge : Type;
  edge_step : forall op : Op, edge -> edge * tried (answer op);
}.

(** The vault's cell and the edge. *)
Record site `{ResetEdge} : Type := mkSite { s_cell : cell; s_edge : edge }.
#[global] Arguments mkSite {_} _ _.

Section Site.
Context `{ResetEdge}.

Definition edge_call (op : Op) (w : site) : site * tried (answer op) :=
  let '(s, r) := edge_step op (s_edge w) in (mkSite (s_cell w) s, r).

(** A call that meets no fault. *)
Definition serve (op : Op) (w : site) : site * tried (answer op) :=
  match op return site * tried (answer op) with
  | LoadJournal => (w, inr (VaultProfileResetJournal_load (s_cell w)))
  | PersistJournal j => (mkSite (VaultProfileResetJournal_persist j (s_cell w)) (s_edge w), inr tt)
  | ClearJournal attempt =>
    match VaultProfileResetJournal_clear attempt (s_cell w) with
    | Ok c => (mkSite c (s_edge w), inr tt)
    | Throw m => (w, inl (OtherError m))
    end
  | AcquireLocks q => edge_call (AcquireLocks q) w
  | AbortReset q => edge_call (AbortReset q) w
  | MoveAndVerifyProfile q => edge_call (MoveAndVerifyProfile q) w
  | PublishSuccessorHousehold q => edge_call (PublishSuccessorHousehold q) w
  | ObserveSuccessorHousehold q => edge_call (ObserveSuccessorHousehold q) w
  | RetireProfileLibrary q => edge_call (RetireProfileLibrary q) w
  | RetireHouseholdLibrary q => edge_call (RetireHouseholdLibrary q) w
  | AdoptSuccessorCall q => edge_call (AdoptSuccessorCall q) w
  | SuccessorIsAdopted q => edge_call (SuccessorIsAdopted q) w
  end.

Fixpoint run {A} (p : prog A) (w : site) : site * A :=
  match p with
  | Ret a => (w, a)
  | Call op k => let '(w', r) := serve op w in run (k r) w'
  end.

(** A run in which the process may die anywhere and any call may fail, before or after it had its effect. *)
Fixpoint faulty {A} (p : prog A) (w w' : site) : Prop :=
  w' = w \/
  match p with
  | Ret _ => False
  | Call op k =>
    faulty (k (serve op w).2) (serve op w).1 w'
    \/ exists m, faulty (k (inl (OtherError m))) w w' \/ faulty (k (inl (OtherError m))) (serve op w).1 w'
  end.
End Site.

Definition is_abort (op : Op) : bool := match op with AbortReset _ => true | _ => false end.

(** The attempt a call of den-edge is made for. *)
Definition op_attempt (op : Op) : string :=
  match op with
  | LoadJournal => EmptyString
  | PersistJournal j => j_attempt j
  | ClearJournal attempt => attempt
  | AcquireLocks q => lq_attempt q
  | AbortReset q => ab_attempt q
  | MoveAndVerifyProfile q => mv_attempt q
  | PublishSuccessorHousehold q => hp_attempt q
  | ObserveSuccessorHousehold q => ho_attempt q
  | RetireProfileLibrary q => rp_attempt q
  | RetireHouseholdLibrary q => rh_attempt q
  | AdoptSuccessorCall q | SuccessorIsAdopted q => ad_attempt q
  end.

(** ** The contract of [ProfileKeyResetBackend]

    [admits s attempt]: no other reset stands in the way. [holds s locks]: this lock set is held. [published]: the
    successor household is committed. [adopted]: the device runs on the successor. The attempt's own calls take no
    lock back unless they abort it. Every effect is idempotent: it is answered for as long as the locks are held, whether or not it was
    carried out before. *)
Class ResetContract `{ProfilesPolicy, Hkdf, ResetEdge} : Type := {
  admits : edge -> string -> Prop;
  holds : edge -> ProfileResetLockSet -> Prop;
  published : edge -> string -> string -> ProfileDirectoryDocument -> bool;
  adopted : edge -> ProfileAdoptionRequest -> bool;
  edge_keeps op s : edge_op op -> is_abort op = false -> admits s (op_attempt op) ->
    admits (edge_step op s).1 (op_attempt op)
    /\ forall locks, ls_attempt locks = op_attempt op -> holds s locks -> holds (edge_step op s).1 locks;
  edge_acquires s q : admits s (lq_attempt q) -> map_wf (lq_profiles q) ->
    exists s' locks, edge_step (AcquireLocks q) s = (s', inr locks)
      /\ locks_ok locks (lq_attempt q) q = true /\ holds s' locks;
  edge_moves s q id : holds s (mv_locks q) -> ls_attempt (mv_locks q) = mv_attempt q -> libraryId (mv_newKey q) = Ok id ->
    exists s' head, edge_step (MoveAndVerifyProfile q) s = (s', inr (mkMoved (mv_profile q) id head)) /\ DIGEST head = true;
  edge_publishes s q : holds s (hp_locks q) -> ls_attempt (hp_locks q) = hp_attempt q ->
    exists s', edge_step (PublishSuccessorHousehold q) s = (s', inr tt)
      /\ published s' (hp_attempt q) (hp_newKey q) (hp_directory q) = true;
  edge_observes s q id : holds s (ho_locks q) -> ls_attempt (ho_locks q) = ho_attempt q -> libraryId (ho_successorKey q) = Ok id ->
    profiles_validate (ho_directory q) = Ok (ho_directory q) ->
    exists s' observation, edge_step (ObserveSuccessorHousehold q) s = (s', inr observation)
      /\ ((observation = ObservedAbsent /\ published s (ho_attempt q) (ho_successorKey q) (ho_directory q) = false)
          \/ exists head d, observation = ObservedCommitted id head d /\ DIGEST head = true /\ sameDirectory d (ho_directory q) = true);
  edge_retires_profile s q : holds s (rp_locks q) -> ls_attempt (rp_locks q) = rp_attempt q ->
    exists s', edge_step (RetireProfileLibrary q) s = (s', inr tt);
  edge_retires_household s q : holds s (rh_locks q) -> ls_attempt (rh_locks q) = rh_attempt q ->
    exists s', edge_step (RetireHouseholdLibrary q) s = (s', inr tt);
  edge_adopts s q : holds s (ad_locks q) -> ls_attempt (ad_locks q) = ad_attempt q ->
    exists s', edge_step (AdoptSuccessorCall q) s = (s', inr tt) /\ adopted s' q = true;
  edge_reads_back s q : exists s', edge_step (SuccessorIsAdopted q) s = (s', inr (adopted s q)) /\ adopted s' q = adopted s q;
}.

Section Liveness.
Context `{ProfilesPolicy, !ProfilesLaws, Hkdf, !HkdfLaws, ClockPolicy, !ResetEdge, !ResetContract}.

(** ** The invariant of a site, and how far it is from completion *)

Definition inv (w : site) : Prop :=
  match s_cell w with
  | None => True
  | Some j => jinv j /\ admits (s_edge w) (j_attempt j) /\ forall locks, j_locks j = Some locks -> holds (s_edge w) locks
  end.

Definition open_count (flag : ProfileResetEvidence -> bool) (l : list ProfileResetEvidence) : nat :=
  length (filter (fun e => flag e = false) l).

(** Resumes left once the locks are held: two per profile to move and two to retire it, three for the commit, two
    for the household's retirement, three for the adoption. *)
Definition work (j : ProfileResetJournal) : nat :=
  2 * open_count ev_verified (j_profiles j) + (if j_householdCommitted j then 0 else 3)
  + 2 * open_count ev_oldRetired (j_profiles j) + (if j_oldHouseholdRetired j then 0 else 2) + 3.

Definition rank (w : site) : nat :=
  match s_cell w with
  | None => 0
  | Some j =>
    match j_locks j, j_pending j with
    | None, _ => 4 * length (j_profiles j) + 9
    | Some _, None => work j
    | Some _, Some VerifyHousehold =>
      match j_successorDirectory j with
      | Some d => if published (s_edge w) (j_attempt j) (j_newHouseholdKey j) d then work j - 2 else work j
      | None => work j
      end
    | Some _, Some AdoptSuccessor => 2
    | Some locks, Some VerifyAdoption =>
      match adoptionRequest j locks with inr q => if adopted (s_edge w) q then 1 else 3 | inl _ => 3 end
    | Some _, Some _ => work j - 1
    end
  end%nat.

(** What a resume without faults achieves. *)
Definition completed (j : ProfileResetJournal) (w : site) : Prop :=
  exists q, ad_attempt q = j_attempt j /\ ad_householdKey q = j_newHouseholdKey j /\ adopted (s_edge w) q = true.

Definition progress (w : site) (j : ProfileResetJournal) (w' : site) : Prop :=
  (rank w' < rank w)%nat /\ match s_cell w' with Some j' => origin j' = origin j | None => completed j w' end.

(** ** A logic of runs with and without faults *)

(** [mwp p w Q]: the invariant holds at every point of [p], a failed call ends it with that failure, and a run
    without faults ends in [Q]. *)
Fixpoint mwp {A} (p : prog (ProfileResetJournal * tried A)) (w : site) (Q : ProfileResetJournal * tried A -> site -> Prop) : Prop :=
  inv w /\
  match p with
  | Ret x => Q x w
  | Call op k =>
    (forall m, exists j, k (inl (OtherError m)) = Ret (j, inl (OtherError m)))
    /\ mwp (k (serve op w).2) (serve op w).1 Q
  end.

Lemma mwp_inv {A} (p : prog (ProfileResetJournal * tried A)) w Q : mwp p w Q -> inv w.
Proof. by destruct p; intros [? _]. Qed.

Lemma mwp_run {A} (p : prog (ProfileResetJournal * tried A)) w Q : mwp p w Q -> Q (run p w).2 (run p w).1.
Proof.
  revert w. induction p as [x|op k IH]; intros w; cbn; [by intros [_ ?]|]. intros (_ & _ & Hk).
  apply IH in Hk. by destruct (serve op w).
Qed.

Lemma mwp_faulty {A} (p : prog (ProfileResetJournal * tried A)) w w' Q : mwp p w Q -> faulty p w w' -> inv w'.
Proof.
  revert w. induction p as [x|op k IH]; intros w; cbn; [by intros [? _] [->|[]]|].
  intros (Hw & Hfail & Hk) [->|[Hrun|(m & Hrun)]]; [done|by eapply IH|].
  destruct (Hfail m) as [j Hj]. rewrite Hj in Hrun. cbn in Hrun.
  destruct Hrun as [[->|[]]|[->|[]]]; [done|by eapply mwp_inv].
Qed.

Lemma mwp_mono {A} (p : prog (ProfileResetJournal * tried A)) w (Q Q' : _ -> _ -> Prop) :
  (forall x w', inv w' -> Q x w' -> Q' x w') -> mwp p w Q -> mwp p w Q'.
Proof. intros HQ. revert w. induction p as [x|op k IH]; intros w; cbn; [naive_solver|]. intros (? & ? & ?). eauto. Qed.

Lemma mwp_seq {A B} (m : M A) (f : A -> M B) j w Q :
  mwp (m j) w (fun p w' => match p.2 with inl e => Q (p.1, inl e) w' | inr a => mwp (f a p.1) w' Q end) ->
  mwp (bind m f j) w Q.
Proof.
  unfold bind. generalize (m j) as p. intros p. revert w. induction p as [[j' [e|a]]|op k IH]; intros w; cbn.
  - done.
  - by intros [_ ?].
  - intros (Hw & Hfail & Hk). split_and!; [done| |by apply IH].
    intros x. destruct (Hfail x) as [j' ->]. by exists j'.
Qed.

Lemma mwp_catch {A} (m : M A) (h : Error -> M A) j w Q :
  (forall x j', h (OtherError x) j' = Ret (j', inl (OtherError x))) ->
  mwp (m j) w (fun p w' => match p.2 with inl e => False | inr a => Q (p.1, inr a) w' end) ->
  mwp (try_catch m h j) w Q.
Proof.
  intros Hh. unfold try_catch. generalize (m j) as p. intros p. revert w. induction p as [[j' [e|a]]|op k IH]; intros w; cbn.
  - by intros [_ []].
  - done.
  - intros (Hw & Hfail & Hk). split_and!; [done| |by apply IH].
    intros x. destruct (Hfail x) as [j' ->]. exists j'. apply Hh.
Qed.

Lemma mwp_get {B} (f : ProfileResetJournal -> M B) j w Q : inv w -> mwp (f j j) w Q -> mwp (bind get f j) w Q.
Proof. intros Hw Hf. apply mwp_seq. by split. Qed.

Lemma mwp_lift {A B} (r : tried A) a (f : A -> M B) j w Q : r = inr a -> inv w -> mwp (f a j) w Q -> mwp (bind (lift r) f j) w Q.
Proof. intros -> Hw Hf. apply mwp_seq. by split. Qed.

Lemma mwp_assign {B} g (f : unit -> M B) j w Q : inv w -> mwp (f tt (g j)) w Q -> mwp (bind (assign g) f j) w Q.
Proof. intros Hw Hf. apply mwp_seq. by split. Qed.

Lemma mwp_persist j w (Q : _ -> _ -> Prop) :
  inv w -> inv (mkSite (Some j) (s_edge w)) -> Q (j, inr tt) (mkSite (Some j) (s_edge w)) -> mwp (persist j) w Q.
Proof. intros Hw Hj HQ. split; [done|]. split; [by eexists|]. split; [exact Hj|exact HQ]. Qed.

Lemma locks_attempt j locks : jinv j -> j_locks j = Some locks -> ls_attempt locks = j_attempt j.
Proof.
  intros Hj Hlocks. pose proof (ji_locks _ Hj) as Hheld. unfold locks_held in Hheld. rewrite Hlocks in Hheld.
  unfold validateLocks in Hheld. apply try_bind_ok in Hheld as (q & _ & Hq). destruct (locks_ok _ _ _) eqn:Hok; [|done].
  unfold locks_ok in Hok. destruct (mapM _ _); [|done]. repeat (apply andb_true_iff in Hok as [Hok _]). by apply String.eqb_eq.
Qed.

(** An edge call whose answer the contract gives. *)
Lemma mwp_call op j j0 w s' a (Q : _ -> _ -> Prop) :
  edge_op op -> is_abort op = false -> s_cell w = Some j0 -> op_attempt op = j_attempt j0 -> inv w -> edge_step op (s_edge w) = (s', inr a) ->
  (inv (mkSite (s_cell w) s') -> Q (j, inr a) (mkSite (s_cell w) s')) -> mwp (call op j) w Q.
Proof.
  intros Hedge Habort Hcell Hatt Hw Hstep HQ.
  assert (Hserve : serve op w = (mkSite (s_cell w) s', inr a)) by (destruct op; try done; cbn; unfold edge_call; by rewrite Hstep).
  assert (Hinv : inv (mkSite (s_cell w) s')).
  { unfold inv in Hw |- *. cbn. rewrite Hcell in Hw |- *. destruct Hw as (Hj & Ha & Hl). rewrite <- Hatt in Ha.
    destruct (edge_keeps op (s_edge w) Hedge Habort Ha) as [Hadmits Hholds]. rewrite Hstep, Hatt in Hadmits, Hholds.
    split_and!; [done|done|]. intros locks Hlocks. apply Hholds; [by apply locks_attempt|auto]. }
  unfold call. cbn [mwp]. rewrite Hserve. split; [done|]. split; [by eexists|]. split; [done|by apply HQ].
Qed.

(** ** The effects make progress *)

(** A site whose journal holds its locks. *)
Record working (w : site) (j : ProfileResetJournal) (locks : ProfileResetLockSet) : Prop := {
  wk_inv : inv w;
  wk_cell : s_cell w = Some j;
  wk_jinv : jinv j;
  wk_locks : j_locks j = Some locks;
  wk_holds : holds (s_edge w) locks;
  wk_attempt : ls_attempt locks = j_attempt j;
}.

Lemma working_intro w j locks : inv w -> s_cell w = Some j -> j_locks j = Some locks -> working w j locks.
Proof.
  intros Hw Hcell Hlocks. pose proof Hw as Hw'. unfold inv in Hw'. rewrite Hcell in Hw'. destruct Hw' as (Hj & _ & Hholds).
  constructor; auto. by apply locks_attempt.
Qed.

Lemma inv_next w j j' s' :
  s_cell w = Some j -> inv (mkSite (s_cell w) s') -> jinv j' -> j_attempt j' = j_attempt j -> j_locks j' = j_locks j ->
  inv (mkSite (Some j') s').
Proof. unfold inv. cbn. intros -> (_ & ? & ?) ? -> ->. done. Qed.

Lemma inv_stay w j j' : inv w -> s_cell w = Some j -> jinv j' -> j_attempt j' = j_attempt j -> j_locks j' = j_locks j ->
  inv (mkSite (Some j') (s_edge w)).
Proof. intros Hw Hcell. apply (inv_next w j); [done|]. by destruct w. Qed.

Lemma open_count_update flag profile f l e :
  find_open flag profile l = Some e -> flag (f e) = true ->
  open_count flag l = S (open_count flag (update_open flag profile f l)).
Proof.
  unfold open_count. intros (_ & Hf & l1 & l2 & -> & ->)%(find_open_split _ _ f) Hfe.
  rewrite !filter_app, !length_app, (filter_cons_True _ e), (filter_cons_False _ (f e)) by congruence. cbn. lia.
Qed.

Lemma open_count_other flag flag' profile f l :
  (forall e, flag' (f e) = flag' e) -> open_count flag' (update_open flag profile f l) = open_count flag' l.
Proof.
  intros Hf. unfold open_count. induction l as [|e l IH]; cbn; [done|].
  destruct (is_open _ _ _); rewrite !filter_cons, ?Hf; destruct (decide _); cbn; auto.
Qed.

Lemma jinv_library j e : jinv j -> e ∈ j_profiles j -> exists id, libraryId (ev_newKey e) = Ok id.
Proof.
  intros Hj He. destruct (bound_origin j (ji_core _ Hj) (ji_dyn _ Hj)) as (_ & Hev & _).
  rewrite Forall_forall in Hev. specialize (Hev e He). unfold evidence_ok in Hev.
  repeat (apply andb_true_iff in Hev as [Hev ?]). destruct (libraryId_canonical (ev_newKey e)) as (id & ? & _); eauto.
Qed.

Lemma jinv_household_library j : jinv j -> exists id, libraryId (j_newHouseholdKey j) = Ok id.
Proof.
  intros Hj. destruct (bound_origin j (ji_core _ Hj) (ji_dyn _ Hj)) as ((Hh & _) & _ & _). unfold header_ok in Hh.
  repeat (apply andb_true_iff in Hh as [Hh ?]). destruct (libraryId_canonical (j_newHouseholdKey j)) as (id & ? & _); eauto.
Qed.

Ltac journal_simpl :=
  cbn [s_cell s_edge set_progress set_pending set_phase set_locks set_profiles set_successorDirectory set_committed set_householdRetired
       j_locks j_pending j_profiles j_householdCommitted j_oldHouseholdRetired j_successorDirectory j_attempt j_newHouseholdKey
       j_phase].

Lemma mwp_move w j profile locks :
  working w j locks -> j_pending j = Some (MoveProfile profile) ->
  mwp (perform_move profile locks j) w (fun x w' => x.2 = inr tt /\ progress w j w').
Proof.
  intros [Hw Hcell Hj Hlocks Hholds Hatt] Hpending. pose proof (ji_shape _ Hj) as Hshape. unfold shape in Hshape.
  rewrite Hpending in Hshape. destruct (j_phase j); try done. destruct Hshape as (Hl & Hc & [e Hfind]).
  unfold perform_move. apply mwp_get; [done|]. rewrite Hfind.
  destruct (jinv_library j e Hj (find_open_elem _ _ _ _ Hfind)) as [id Hid].
  destruct (edge_moves (s_edge w) (mkMove (j_attempt j) profile (ev_oldKey e) (ev_newKey e) locks) id) as (s' & head & Hstep & Hhead); try done.
  eapply mwp_seq, mwp_call; [done|done|done|done|done|exact Hstep|]. intros Hw'. cbn [fst snd].
  eapply mwp_lift; [by rewrite Hid|done|]. cbn [vm_profile vm_successorLibraryId vm_copiedHead mv_profile].
  rewrite !String.eqb_refl, Hhead. cbn [negb orb]. apply mwp_assign; [done|]. apply mwp_assign; [done|].
  apply mwp_persist; [done| |].
  - apply (inv_next w j); try done. by eapply jinv_verified.
  - split; [done|]. split; [|by apply (origin_update j)].
    unfold rank. rewrite Hcell. unfold work. journal_simpl. rewrite Hlocks, Hpending.
    rewrite Hc, (open_count_update _ _ (set_verified head) _ _ Hfind), (open_count_other ev_verified ev_oldRetired) by done. lia.
Qed.

Lemma mwp_publish w j locks :
  working w j locks -> j_pending j = Some PublishHousehold ->
  mwp (perform_publish locks j) w (fun x w' => x.2 = inr tt /\ progress w j w').
Proof.
  intros [Hw Hcell Hj Hlocks Hholds Hatt] Hpending. pose proof (ji_shape _ Hj) as Hshape. unfold shape in Hshape.
  rewrite Hpending in Hshape. destruct (j_phase j); try done. destruct Hshape as (Hl & Hc & [d Hd]).
  unfold perform_publish. apply mwp_get; [done|]. rewrite Hd. apply mwp_assign; [done|].
  assert (Hw' : inv (mkSite (Some (set_progress j CommitUnknown (Some VerifyHousehold))) (s_edge w))).
  { eapply inv_stay; try done. apply jinv_progress; [done|]. unfold shape. cbn. rewrite Hd. eauto. }
  apply mwp_seq, mwp_persist; [done|done|]. cbn [fst snd].
  destruct (edge_publishes (s_edge w) (mkPublish (j_attempt j) (j_oldHouseholdKey j) (j_newHouseholdKey j) (j_fence j) d locks))
    as (s' & Hstep & Hpub); try done. cbn in Hpub.
  eapply (mwp_call (PublishSuccessorHousehold _)); [done|done|done|done|done|exact Hstep|]. intros _. split; [done|]. split; [|done].
  unfold rank. rewrite Hcell. unfold work. journal_simpl. rewrite Hlocks, Hpending, Hd, Hpub, Hc. lia.
Qed.

Lemma mwp_verify w j locks :
  working w j locks -> j_pending j = Some VerifyHousehold ->
  mwp (perform_verify locks j) w (fun x w' => x.2 = inr tt /\ progress w j w').
Proof.
  intros [Hw Hcell Hj Hlocks Hholds Hatt] Hpending. pose proof (ji_shape _ Hj) as Hshape. unfold shape in Hshape.
  rewrite Hpending in Hshape. destruct (j_phase j) eqn:Hphase; try done. destruct Hshape as (Hl & Hc & [d Hd]).
  unfold perform_verify. apply mwp_get; [done|]. rewrite Hd.
  destruct (jinv_household_library j Hj) as [id Hid].
  destruct (edge_observes (s_edge w) (mkObserve (j_attempt j) (j_newHouseholdKey j) d locks) id) as (s' & o & Hstep & Ho); try done.
  { by eapply successorDirectory_valid, ji_successor. }
  eapply mwp_seq, mwp_call; [done|done|done|done|done|exact Hstep|]. intros Hw'. cbn [fst snd]. cbn in Ho.
  destruct Ho as [[-> Hpub]|(head & d' & -> & Hhead & Hsame)].
  - apply mwp_assign; [done|]. apply mwp_persist; [done| |].
    + apply (inv_next w j); try done. apply jinv_progress; [done|]. unfold shape. cbn. rewrite Hd. eauto.
    + split; [done|]. split; [|done].
      unfold rank. rewrite Hcell. unfold work. journal_simpl. rewrite Hlocks, Hpending, Hd, Hpub, Hc. lia.
  - apply mwp_seq. eapply mwp_lift; [by rewrite Hid|done|]. rewrite String.eqb_refl, Hhead, Hsame. cbn [negb orb].
    apply mwp_assign; [done|]. split; [done|]. cbn [fst snd]. apply mwp_persist; [done| |].
    + apply (inv_next w j); try done. apply jinv_committed; eauto.
    + split; [done|]. split; [|done].
      unfold rank. rewrite Hcell. unfold work. journal_simpl. rewrite Hlocks, Hpending, Hd, Hc. destruct (published _ _ _ _); lia.
Qed.

Lemma mwp_retire_profile w j profile locks :
  working w j locks -> j_pending j = Some (RetireProfile profile) ->
  mwp (perform_retire_profile profile locks j) w (fun x w' => x.2 = inr tt /\ progress w j w').
Proof.
  intros [Hw Hcell Hj Hlocks Hholds Hatt] Hpending. pose proof (ji_shape _ Hj) as Hshape. unfold shape in Hshape.
  rewrite Hpending in Hshape. destruct (j_phase j) eqn:Hphase; try done. destruct Hshape as (Hl & Hc & [e Hfind]).
  unfold perform_retire_profile. apply mwp_get; [done|]. rewrite Hfind, Hc. cbn [negb].
  destruct (jinv_library j e Hj (find_open_elem _ _ _ _ Hfind)) as [id Hid].
  eapply mwp_lift; [by rewrite Hid|done|].
  destruct (edge_retires_profile (s_edge w) (mkRetireProfile (j_attempt j) profile (ev_oldKey e) id locks)) as (s' & Hstep); try done.
  eapply mwp_seq, mwp_call; [done|done|done|done|done|exact Hstep|]. intros Hw'. cbn [fst snd].
  apply mwp_assign; [done|]. apply mwp_assign; [done|]. apply mwp_persist; [done| |].
  - apply (inv_next w j); try done. by eapply jinv_retired.
  - split; [done|]. split; [|by apply (origin_update j)].
    unfold rank. rewrite Hcell. unfold work. journal_simpl. rewrite Hlocks, Hpending.
    rewrite Hc, (open_count_update _ _ set_oldRetired _ _ Hfind), (open_count_other ev_oldRetired ev_verified) by done. lia.
Qed.

Lemma mwp_retire_household w j locks :
  working w j locks -> j_pending j = Some RetireHousehold ->
  mwp (perform_retire_household locks j) w (fun x w' => x.2 = inr tt /\ progress w j w').
Proof.
  intros [Hw Hcell Hj Hlocks Hholds Hatt] Hpending. pose proof (ji_shape _ Hj) as Hshape. unfold shape in Hshape.
  rewrite Hpending in Hshape. destruct (j_phase j) eqn:Hphase; try done. destruct Hshape as (Hl & Hc & Hr).
  unfold perform_retire_household. apply mwp_get; [done|]. rewrite Hc, Hr. cbn [negb orb].
  destruct (jinv_household_library j Hj) as [id Hid]. eapply mwp_lift; [by rewrite Hid|done|].
  destruct (edge_retires_household (s_edge w) (mkRetireHousehold (j_attempt j) (j_oldHouseholdKey j) id locks)) as (s' & Hstep); try done.
  eapply mwp_seq, mwp_call; [done|done|done|done|done|exact Hstep|]. intros Hw'. cbn [fst snd].
  apply mwp_assign; [done|]. apply mwp_assign; [done|]. apply mwp_persist; [done| |].
  - apply (inv_next w j); try done. by apply jinv_household.
  - split; [done|]. split; [|done].
    unfold rank. rewrite Hcell. unfold work. journal_simpl. rewrite Hlocks, Hpending, Hr. lia.
Qed.

Lemma jinv_adoption j locks : jinv j -> retired j = true -> exists q,
  adoptionRequest j locks = inr q /\ ad_locks q = locks /\ ad_attempt q = j_attempt j /\ ad_householdKey q = j_newHouseholdKey j.
Proof.
  intros Hj Hr. destruct (proj1 (flags_spec j) (ji_flags _ Hj)) as (_ & _ & _ & F4 & F5). unfold retired in Hr.
  apply andb_true_iff in Hr as [[Hc Hh]%andb_true_iff Hp]. unfold adoptionRequest. destruct (F4 Hc) as [d ->].
  destruct (j_successorHouseholdHead j) as [head|]; [|congruence]. rewrite Hc, Hh, Hp. cbn. eexists. by split_and!.
Qed.

Lemma mwp_adopt w j locks :
  working w j locks -> j_pending j = Some AdoptSuccessor ->
  mwp (perform_adopt locks j) w (fun x w' => x.2 = inr tt /\ progress w j w').
Proof.
  intros [Hw Hcell Hj Hlocks Hholds Hatt] Hpending. pose proof (ji_shape _ Hj) as Hshape. unfold shape in Hshape.
  rewrite Hpending in Hshape. destruct (j_phase j) eqn:Hphase; try done. destruct Hshape as (Hl & Hr).
  unfold perform_adopt. apply mwp_get; [done|]. destruct (jinv_adoption j locks Hj Hr) as (q & Hq & Hql & Hqa & Hqk).
  eapply mwp_lift; [exact Hq|done|]. apply mwp_assign; [done|].
  assert (Hw' : inv (mkSite (Some (set_pending j (Some VerifyAdoption))) (s_edge w))).
  { eapply inv_stay; try done. apply jinv_progress; [done|]. unfold shape. journal_simpl. by rewrite Hphase. }
  apply mwp_seq, mwp_persist; [done|done|]. cbn [fst snd].
  destruct (edge_adopts (s_edge w) q) as (s' & Hstep & Had); [by rewrite Hql|by rewrite Hql, Hqa|].
  eapply (mwp_call (AdoptSuccessorCall q)); [done|done|done|done|done|exact Hstep|]. intros _. split; [done|]. split; [|done].
  unfold rank. rewrite Hcell. journal_simpl. rewrite Hlocks, Hpending.
  change (adoptionRequest (set_pending j (Some VerifyAdoption)) locks) with (adoptionRequest j locks). rewrite Hq, Had. lia.
Qed.

Lemma mwp_verify_adoption w j locks :
  working w j locks -> j_pending j = Some VerifyAdoption ->
  mwp (perform_verify_adoption locks j) w (fun x w' => x.2 = inr tt /\ progress w j w').
Proof.
  intros [Hw Hcell Hj Hlocks Hholds Hatt] Hpending. pose proof (ji_shape _ Hj) as Hshape. unfold shape in Hshape.
  rewrite Hpending in Hshape. destruct (j_phase j) eqn:Hphase; try done. destruct Hshape as (Hl & Hr).
  unfold perform_verify_adoption. apply mwp_get; [done|]. destruct (jinv_adoption j locks Hj Hr) as (q & Hq & Hql & Hqa & Hqk).
  eapply mwp_lift; [exact Hq|done|]. destruct (edge_reads_back (s_edge w) q) as (s' & Hstep & Hsame).
  assert (Hrank : rank w = if adopted (s_edge w) q then 1%nat else 3%nat).
  { unfold rank. by rewrite Hcell, Hlocks, Hpending, Hq. }
  eapply mwp_seq, mwp_call; [done|done|done|done|done|exact Hstep|]. intros Hw'. cbn [fst snd].
  destruct (adopted (s_edge w) q) eqn:Had; cbn [negb]; (apply mwp_assign; [done|]).
  - assert (Hserve : serve (ClearJournal (j_attempt j)) (mkSite (s_cell w) s') = (mkSite None s', inr tt)).
    { rewrite Hcell. cbn. by rewrite String.eqb_refl. }
    unfold call. cbn [mwp]. rewrite Hserve. split; [done|]. split; [by eexists|]. split; [done|]. split; [done|].
    split; [rewrite Hrank; cbn; lia|]. by exists q.
  - apply mwp_persist; [done| |].
    + apply (inv_next w j); try done. apply jinv_progress; [done|]. unfold shape. journal_simpl. by rewrite Hphase.
    + split; [done|]. split; [|done]. rewrite Hrank. unfold rank. journal_simpl. rewrite Hlocks. lia.
Qed.

Lemma mwp_perform w j effect locks :
  working w j locks -> j_pending j = Some effect ->
  mwp (perform effect locks j) w (fun x w' => x.2 = inr tt /\ progress w j w').
Proof.
  intros. destruct effect; cbn [perform];
    auto using mwp_move, mwp_publish, mwp_verify, mwp_retire_profile, mwp_retire_household, mwp_adopt, mwp_verify_adoption.
Qed.

(** ** One step makes progress *)

Definition advanced (w : site) (j : ProfileResetJournal) (x : ProfileResetJournal * tried ProfileResetStatus) (w' : site) : Prop :=
  (exists s, x.2 = inr s) /\ progress w j w'.

Lemma mwp_finish w j j' w' : inv w' -> progress w j w' -> mwp (finish j') w' (advanced w j).
Proof. intros Hw' Hp. split; [done|]. split; [by eexists|done]. Qed.

(** Storing a journal that ranks lower ends a step. *)
Lemma mwp_store w j j' s' : inv (mkSite (s_cell w) s') -> s_cell w = Some j -> inv (mkSite (Some j') s') ->
  origin j' = origin j -> (rank (mkSite (Some j') s') < rank w)%nat ->
  mwp ((persist;;; finish) j') (mkSite (s_cell w) s') (advanced w j).
Proof. intros Hw Hcell Hj' Ho Hr. apply mwp_seq, mwp_persist; [done|done|]. by apply mwp_finish. Qed.

Lemma mwp_store_here w j j' : inv w -> s_cell w = Some j -> jinv j' -> j_attempt j' = j_attempt j -> j_locks j' = j_locks j ->
  origin j' = origin j -> (rank (mkSite (Some j') (s_edge w)) < rank w)%nat ->
  mwp ((persist;;; finish) j') w (advanced w j).
Proof.
  intros Hw Hcell Hj' Ha Hl Ho Hr. pose proof (mwp_store w j j' (s_edge w)) as Hs. destruct w as [c s]. cbn in *.
  apply Hs; try done. by apply (inv_stay (mkSite c s) j).
Qed.

Lemma jinv_profile_truthy j e : jinv j -> e ∈ j_profiles j -> truthy (ev_profile e) = true.
Proof.
  intros Hj He. pose proof (ji_core _ Hj) as [_ _ Hd Hp _]. cbn [origin j_directory j_profiles] in Hd, Hp.
  rewrite static_fmap in Hp by done. destruct (validate_keyed _ _ Hd) as [_ Hkeyed].
  assert (Hin : ev_profile e ∈ pe_id <$> liveEntries (j_directory j)) by (rewrite <- Hp; apply list_elem_of_fmap; eauto).
  apply list_elem_of_fmap in Hin as (entry & -> & (_ & Hentry)%liveEntries_elem).
  apply list_elem_of_fmap in Hentry as ([k x] & -> & Hx). destruct (Hkeyed _ _ Hx) as [<- Hhex].
  apply truthy_ne. cbn. intros E. rewrite E in Hhex. done.
Qed.

Lemma is_open_find flag e l : e ∈ l -> flag e = false ->
  is_Some (find_open flag (ev_profile e) l) /\ existsb (is_open flag (ev_profile e)) l = true.
Proof.
  intros He Hf. assert (Ho : is_open flag (ev_profile e) e = true) by (unfold is_open; by rewrite String.eqb_refl, Hf).
  split; [|apply existsb_exists; exists e; by rewrite <- list_elem_of_In].
  unfold find_open. destruct (List.find _ l) eqn:E; [eauto|]. apply list_elem_of_In in He.
  by rewrite (List.find_none _ _ E e He) in Ho.
Qed.

Lemma open_count_zero flag l : forallb flag l = true -> open_count flag l = 0%nat.
Proof.
  rewrite forallb_forall. intros Hl. unfold open_count. rewrite filter_none; [done|].
  intros e He%list_elem_of_In%Hl. congruence.
Qed.

(** What the planner's decision is acted on from: the locks are held and nothing is pending. *)
Record planning (w : site) (j : ProfileResetJournal) (locks : ProfileResetLockSet) : Prop := {
  pg_working : working w j locks;
  pg_pending : j_pending j = None;
}.

Lemma rank_planning w j locks : planning w j locks -> rank w = work j.
Proof. intros [[_ Hcell _ Hlocks _ _] Hpending]. unfold rank. by rewrite Hcell, Hlocks, Hpending. Qed.

(** Storing an intent other than the adoption's. *)
Lemma mwp_intend w j locks phase pending :
  planning w j locks -> shape (set_progress j phase (Some pending)) ->
  match pending with VerifyHousehold | AdoptSuccessor | VerifyAdoption => False | _ => True end ->
  mwp ((persist;;; finish) (set_progress j phase (Some pending))) w (advanced w j).
Proof.
  intros Hp Hs Hpending. pose proof (rank_planning _ _ _ Hp) as Hrank. destruct Hp as [[Hw Hcell Hj Hlocks _ _] _].
  apply mwp_store_here; [done|done|by apply jinv_progress|done|done|done|].
  rewrite Hrank. unfold rank. journal_simpl. rewrite Hlocks. change (work (set_progress j phase (Some pending))) with (work j).
  assert (2 < work j)%nat by (unfold work; lia). destruct pending; try done; lia.
Qed.

Lemma mwp_plan_move w j locks e rest :
  planning w j locks -> e ∈ j_profiles j -> ev_verified e = false ->
  mwp ((plan (MoveLiveProfiles (ev_profile e :: rest));;; persist;;; finish) j) w (advanced w j).
Proof.
  intros Hp He Hv. pose proof (pg_working _ _ _ Hp) as [Hw Hcell Hj Hlocks _ _].
  apply mwp_seq. unfold plan. apply mwp_get; [done|]. cbn [first_profile].
  rewrite (jinv_profile_truthy j e) by done. destruct (is_open_find ev_verified e _ He Hv) as [Hopen ->].
  split; [done|]. cbn [fst snd]. eapply mwp_intend; [done| |done].
  destruct (flags_inv _ (ji_flags _ Hj)) as (_ & F2 & _). unfold shape. journal_simpl. rewrite Hlocks. split_and!; [eauto| |done].
  destruct (j_householdCommitted j); [|done]. specialize (F2 eq_refl). rewrite every_true in F2. by rewrite F2 in Hv.
Qed.

Lemma mwp_plan_commit w j locks :
  planning w j locks -> every ev_verified j = true -> j_householdCommitted j = false ->
  mwp ((plan CommitSuccessorHousehold;;; persist;;; finish) j) w (advanced w j).
Proof.
  intros Hp Hall Hc. pose proof (pg_working _ _ _ Hp) as [Hw Hcell Hj Hlocks _ _].
  assert (Hl : is_Some (j_locks j)) by (rewrite Hlocks; eauto).
  apply mwp_seq. unfold plan. apply mwp_get; [done|]. rewrite Hall. cbn [negb]. apply mwp_seq.
  destruct (j_successorDirectory j) as [d|] eqn:Hd.
  - split; [done|]. cbn [fst snd]. split; [done|]. cbn [fst snd]. eapply mwp_intend; [done| |done]. unfold shape. journal_simpl. rewrite Hd. eauto.
  - destruct (jinv_successor j Hj Hall) as [d Hs]. eapply mwp_lift; [exact Hs|done|].
    split; [done|]. cbn [fst snd]. split; [done|]. cbn [fst snd]. apply mwp_store_here; try done; [by apply jinv_publish|].
    rewrite (rank_planning _ _ _ Hp). unfold rank. journal_simpl. rewrite Hlocks.
    change (work (set_progress (set_successorDirectory j d) PublishingHousehold (Some PublishHousehold))) with (work j).
    unfold work. lia.
Qed.

Lemma mwp_plan_retire w j locks profiles household :
  planning w j locks -> j_householdCommitted j = true ->
  ((exists p e rest, profiles = p :: rest /\ e ∈ j_profiles j /\ ev_profile e = p /\ ev_oldRetired e = false)
   \/ (profiles = [] /\ household = true /\ j_oldHouseholdRetired j = false)) ->
  mwp ((plan (RetireOldLibraries profiles household);;; persist;;; finish) j) w (advanced w j).
Proof.
  intros Hp Hc Hnext. pose proof (pg_working _ _ _ Hp) as [Hw Hcell Hj Hlocks _ _].
  assert (Hl : is_Some (j_locks j)) by (rewrite Hlocks; eauto).
  destruct (flags_inv _ (ji_flags _ Hj)) as (_ & _ & _ & F4 & _). destruct (F4 Hc) as [d Hd].
  apply mwp_seq. unfold plan. apply mwp_get; [done|]. rewrite Hc, bool_decide_false by (by rewrite Hd). cbn [negb orb].
  apply mwp_assign; [done|]. destruct Hnext as [(p & e & rest & -> & He & <- & Hr)|(-> & -> & Hh)]; cbn [first_profile].
  - rewrite (jinv_profile_truthy j e) by done. destruct (is_open_find ev_oldRetired e _ He Hr) as [Hopen _].
    split; [done|]. cbn [fst snd]. apply (mwp_intend w j locks RetiringOld (RetireProfile (ev_profile e))); [done| |done].
    unfold shape. journal_simpl. by split_and!.
  - split; [done|]. cbn [fst snd]. apply (mwp_intend w j locks RetiringOld RetireHousehold); [done| |done].
    unfold shape. journal_simpl. by split_and!.
Qed.

Lemma mwp_plan_complete w j locks :
  planning w j locks -> retired j = true -> mwp ((plan CompleteReset;;; persist;;; finish) j) w (advanced w j).
Proof.
  intros Hp Hr. pose proof (pg_working _ _ _ Hp) as [Hw Hcell Hj Hlocks _ _]. pose proof Hr as Hret. unfold retired in Hr.
  apply andb_true_iff in Hr as [[Hc Hh]%andb_true_iff Hall]. apply mwp_seq. unfold plan. apply mwp_get; [done|].
  rewrite Hc, Hh, Hall. cbn [negb orb]. split; [done|]. cbn [fst snd]. apply mwp_store_here; try done.
  - apply jinv_progress; [done|]. unfold shape. journal_simpl. rewrite Hlocks. eauto.
  - rewrite (rank_planning _ _ _ Hp). unfold rank. journal_simpl. rewrite Hlocks. unfold work. lia.
Qed.

Lemma mwp_drive_plan w j locks : working w j locks -> j_pending j = None -> mwp (drive_plan j) w (advanced w j).
Proof.
  intros Hwork Hpending. assert (Hp : planning w j locks) by done. destruct Hwork as [Hw _ Hj _ _ _].
  destruct (jinv_decides j Hj) as (decision & Hdecision & Hplanned).
  unfold drive_plan. apply mwp_get; [done|]. eapply mwp_lift; [by rewrite Hdecision|done|].
  unfold planned in Hplanned. rewrite plannerInput_profiles in Hplanned.
  cbn [plannerInput pi_householdCommitted pi_oldHouseholdRetired] in Hplanned.
  destruct (forallb ev_verified (j_profiles j)) eqn:Hall; cbn [negb] in Hplanned.
  2: { destruct Hplanned as (p & e & rest & -> & He & <- & Hv). by eapply mwp_plan_move. }
  destruct (j_householdCommitted j) eqn:Hc; cbn [negb] in Hplanned; [|subst decision; by eapply mwp_plan_commit].
  destruct (j_oldHouseholdRetired j && forallb ev_oldRetired (j_profiles j)) eqn:Hret; cbn [negb] in Hplanned.
  - subst decision. eapply mwp_plan_complete; [done|]. unfold retired, every. by rewrite Hc.
  - destruct Hplanned as (profiles & household & -> & Hnext). by eapply mwp_plan_retire.
Qed.

Lemma lock_profiles_ok l acc : (forall e, e ∈ l -> canonicalKey (ev_oldKey e) = true /\ canonicalKey (ev_newKey e) = true) ->
  map_wf acc.1 -> exists maps, lock_profiles l acc = inr maps /\ map_wf maps.1.
Proof.
  revert acc. induction l as [|e l IH]; intros acc Hl Hwf; [by exists acc|]. cbn.
  destruct (Hl e) as [Ho Hn]; [set_solver|]. destruct (libraryId_canonical _ Ho) as (old & -> & _), (libraryId_canonical _ Hn) as (new & -> & _).
  cbn. apply IH; [intros x Hx; apply Hl; set_solver|]. cbn. by apply map_wf_set.
Qed.

Lemma jinv_lockRequest j : jinv j -> exists q, lockRequest j = inr q /\ map_wf (lq_profiles q) /\ lq_attempt q = j_attempt j.
Proof.
  intros Hj. destruct (bound_origin j (ji_core _ Hj) (ji_dyn _ Hj)) as ((Hh & _) & Hev & _).
  rewrite Forall_forall in Hev. destruct (lock_profiles_ok (j_profiles j) ([], [])) as (maps & Hmaps & Hwf).
  { intros e He. specialize (Hev e He). unfold evidence_ok in Hev. repeat (apply andb_true_iff in Hev as [Hev ?]). done. }
  { apply map_wf_nil. }
  unfold header_ok in Hh. repeat (apply andb_true_iff in Hh as [Hh ?]).
  destruct (libraryId_canonical (j_oldHouseholdKey j)) as (old & Hold & _); [done|].
  destruct (libraryId_canonical (j_newHouseholdKey j)) as (new & Hnew & _); [done|].
  unfold lockRequest. rewrite Hmaps, Hold, Hnew. cbn. eexists. by split_and!.
Qed.

Lemma open_count_le flag l : (open_count flag l <= length l)%nat.
Proof. apply length_filter. Qed.

Lemma mwp_drive_locks w j : inv w -> s_cell w = Some j -> j_locks j = None -> mwp (drive_locks j) w (advanced w j).
Proof.
  intros Hw Hcell Hnone. pose proof Hw as Hinv. unfold inv in Hinv. rewrite Hcell in Hinv. destruct Hinv as (Hj & Hadmits & _).
  assert (Hshape : j_pending j = None /\ j_householdCommitted j = false).
  { pose proof (ji_shape _ Hj) as Hs. unfold shape in Hs. rewrite Hnone in Hs.
    destruct (j_phase j), (j_pending j) as [[]|]; try done; try (by destruct Hs as [[? ?] _]). by destruct Hs. }
  destruct Hshape as [Hpending Hc].
  assert (Hj' : jinv (set_phase j Prepared)).
  { apply jinv_progress; [done|]. unfold shape. journal_simpl. by rewrite Hpending. }
  assert (Hw' : inv (mkSite (Some (set_phase j Prepared)) (s_edge w))) by by eapply inv_stay.
  destruct (jinv_lockRequest j Hj) as (q & Hq & Hwf & Hqa).
  unfold drive_locks. apply mwp_assign; [done|]. apply mwp_seq, mwp_persist; [done|done|]. cbn [fst snd].
  apply mwp_get; [done|]. eapply mwp_lift; [exact Hq|done|].
  destruct (edge_acquires (s_edge w) q) as (s' & locks & Hstep & Hok & Hholds); [by rewrite Hqa|done|].
  eapply mwp_seq, mwp_call; [done|done|done|done|done|exact Hstep|]. intros Hw''. cbn [fst snd s_cell] in Hw'' |- *.
  assert (Hv : validateLocks locks j = inr tt) by (unfold validateLocks; rewrite Hq; cbn; by rewrite <- Hqa, Hok).
  assert (Hlast : inv (mkSite (Some (set_phase (set_locks (set_phase j Prepared) locks) Locked)) s')).
  { unfold inv in Hw'' |- *. cbn [s_cell s_edge]. destruct Hw'' as (_ & Ha & _). split_and!; [by apply jinv_lock|exact Ha|].
    by intros l [= <-]. }
  eapply mwp_lift; [exact Hv|done|]. apply mwp_assign; [done|]. apply mwp_seq, mwp_persist; [done|done|].
  apply mwp_finish; [done|]. split; [|done]. unfold rank. rewrite Hcell. unfold work. journal_simpl. rewrite Hnone, Hpending, Hc.
  pose proof (open_count_le ev_verified (j_profiles j)). pose proof (open_count_le ev_oldRetired (j_profiles j)).
  destruct (j_oldHouseholdRetired j); lia.
Qed.

Lemma mwp_drive w j : inv w -> s_cell w = Some j -> mwp (drive j) w (advanced w j).
Proof.
  intros Hw Hcell. unfold drive. apply mwp_get; [done|].
  assert (Hgo : mwp (match j_locks j, j_pending j with
    | None, _ => drive_locks j
    | Some locks, Some effect => (perform effect locks;;; finish) j
    | Some _, None => drive_plan j end) w (advanced w j)).
  { destruct (j_locks j) as [locks|] eqn:Hlocks; [|by apply mwp_drive_locks].
    pose proof (working_intro w j locks Hw Hcell Hlocks) as Hwork.
    destruct (j_pending j) as [effect|] eqn:Hpending; [|by eapply mwp_drive_plan].
    apply mwp_seq. eapply mwp_mono; [|by eapply mwp_perform]. cbn beta. intros [j' r] w' Hw' [Hr Hp]. cbn in Hr |- *. rewrite Hr.
    by apply mwp_finish. }
  assert (Hphase : j_phase j <> Complete).
  { intros E. unfold inv in Hw. rewrite Hcell in Hw. destruct Hw as (Hj & _). pose proof (ji_shape _ Hj) as Hs. unfold shape in Hs. by rewrite E in Hs. }
  destruct (j_phase j), (j_locks j), (j_pending j); first [exact Hgo | done].
Qed.

Lemma mwp_guarded w j : inv w -> s_cell w = Some j -> mwp (guarded drive j) w (advanced w j).
Proof.
  intros Hw Hcell. apply mwp_catch; [done|]. eapply mwp_mono; [|by apply mwp_drive].
  intros [j' r] w' _ [[s Hr] Hp]. cbn in Hr |- *. rewrite Hr. split; [by eexists|done].
Qed.

(** ** Histories *)

Lemma run_bind {A B} (p : prog A) (f : A -> prog B) w : run (prog_bind p f) w = run (f (run p w).2) (run p w).1.
Proof. revert w. induction p as [a|op k IH]; intros w; cbn; [done|]. destruct (serve op w). apply IH. Qed.

Lemma faulty_on_journal {A} (m : M A) j w w' : faulty (on_journal m j) w w' -> faulty (m j) w w'.
Proof.
  unfold on_journal. generalize (m j). clear. intros p. revert w. induction p as [[j r]|op k IH]; intros w; cbn; [done|].
  intros [->|[?|(m & [?|?])]]; [by left|right; left; auto|right; right; exists m; left; auto|right; right; exists m; right; auto].
Qed.

Lemma resume_work w j : inv w -> s_cell w = Some j ->
  mwp ((lift (validate j);;; let* s := guarded drive in ret (Some s)) j) w (fun x w' => (exists s, x.2 = inr (Some s)) /\ progress w j w').
Proof.
  intros Hw Hcell. eapply mwp_lift; [|done|].
  - apply jinv_validates. unfold inv in Hw. rewrite Hcell in Hw. apply Hw.
  - apply mwp_seq. eapply mwp_mono; [|by apply mwp_guarded]. intros [j' r] w' Hw' [[s Hr] Hp]. cbn in Hr |- *. rewrite Hr.
    split; [done|]. split; [by eexists|done].
Qed.

Lemma resume_run w j : inv w -> s_cell w = Some j ->
  inv (run resume w).1 /\ (exists s, (run resume w).2 = inr (Some s)) /\ progress w j (run resume w).1.
Proof.
  intros Hw Hcell. pose proof (resume_work w j Hw Hcell) as Hwork.
  assert (Hrun : run resume w = (fun x => (x.1, x.2.2)) (run ((lift (validate j);;; let* s := guarded drive in ret (Some s)) j) w)).
  { unfold resume, loaded. cbn [run serve]. unfold VaultProfileResetJournal_load. rewrite Hcell. unfold on_journal. rewrite run_bind.
    destruct (run _ w) as [w' [j' r]]. done. }
  rewrite Hrun. cbn [fst snd]. apply (mwp_mono _ _ _ (fun x w' => inv w' /\ (exists s, x.2 = inr (Some s)) /\ progress w j w')) in Hwork; [|auto].
  exact (mwp_run _ _ _ Hwork).
Qed.

Lemma resume_faulty w w' : inv w -> faulty resume w w' -> inv w'.
Proof.
  intros Hw. unfold resume, loaded. cbn [faulty serve fst snd]. unfold VaultProfileResetJournal_load.
  intros [->|[Hrun|(m & [Hrun|Hrun])]]; [done| |by destruct Hrun as [->|[]]..].
  destruct (s_cell w) as [j|] eqn:Hcell; [|by destruct Hrun as [->|[]]].
  apply faulty_on_journal in Hrun. by eapply mwp_faulty; [apply resume_work|].
Qed.

Lemma start_faulty options directory key fence successor s w' :
  admits s (op_randomAttempt options) -> faulty (start options directory key fence successor) (mkSite None s) w' -> inv w'.
Proof.
  intros Hadmits. unfold start, loaded. cbn [faulty serve fst snd VaultProfileResetJournal_load s_cell].
  intros [->|[Hrun|(m & [Hrun|Hrun])]]; [done| |by destruct Hrun as [->|[]]..].
  destruct (start_journal _ _ _ _ _) as [e|j] eqn:Hstart; [by destruct Hrun as [->|[]]|].
  apply faulty_on_journal in Hrun. destruct (validate j) as [e|[]] eqn:Hv; [cbn in Hrun; by destruct Hrun as [->|[]]|].
  pose proof (start_jinv _ _ _ _ _ _ Hstart Hv) as Hj. apply start_journal_spec in Hstart as (Ho & _ & Ha & _).
  assert (Hw : inv (mkSite (Some j) s)).
  { unfold inv. cbn. rewrite Ha. split_and!; [done|done|]. rewrite <- Ho. done. }
  eapply (mwp_faulty _ (mkSite None s) _ (fun _ _ => True)); [|exact Hrun].
  eapply mwp_lift; [done|done|]. apply mwp_seq, mwp_persist; [done|done|]. cbn [fst snd].
  eapply mwp_mono; [|by apply mwp_guarded]. done.
Qed.

(** One attempt: a [start] on a den-edge that admits it, then any number of resumes, each with any faults. *)
Inductive attempted : site -> Prop :=
| attempted_start s w options directory key fence successor :
    admits s (op_randomAttempt options) -> faulty (start options directory key fence successor) (mkSite None s) w -> attempted w
| attempted_resume w w' : attempted w -> faulty resume w w' -> attempted w'.

Lemma attempted_inv w : attempted w -> inv w.
Proof. induction 1 as [s w o d k f sk Ha Hrun|w w' _ IH Hrun]; [by eapply start_faulty|by eapply resume_faulty]. Qed.

(** [n] resumes that meet no fault. *)
Fixpoint resumes (n : nat) (w : site) : site := match n with O => w | S n => resumes n (run resume w).1 end.

Lemma rank_bound w j : inv w -> s_cell w = Some j -> (rank w <= 4 * length (j_profiles j) + 9)%nat.
Proof.
  intros Hw Hcell. unfold rank. rewrite Hcell. unfold work.
  pose proof (open_count_le ev_verified (j_profiles j)). pose proof (open_count_le ev_oldRetired (j_profiles j)).
  repeat case_match; lia.
Qed.

Lemma origin_keys j j' : origin j' = origin j -> j_attempt j' = j_attempt j /\ j_newHouseholdKey j' = j_newHouseholdKey j.
Proof. intros Ho. change (j_attempt (origin j') = j_attempt (origin j) /\ j_newHouseholdKey (origin j') = j_newHouseholdKey (origin j)). by rewrite Ho. Qed.

Lemma resumes_complete r w j : (rank w <= r)%nat -> inv w -> s_cell w = Some j ->
  exists n, (n <= r)%nat /\ s_cell (resumes n w) = None /\ completed j (resumes n w).
Proof.
  revert w j. induction r as [|r IH]; intros w j Hr Hw Hcell; destruct (resume_run w j Hw Hcell) as (Hw' & _ & Hrank & Hend); [lia|].
  destruct (s_cell (run resume w).1) as [j'|] eqn:Hcell'.
  - destruct (IH (run resume w).1 j') as (n & Hn & Hnone & (q & Hqa & Hqk & Had)); [lia|done|done|].
    destruct (origin_keys _ _ Hend) as [Ea Ek]. exists (S n). split_and!; [lia|done|].
    exists q. rewrite <- Ea, <- Ek. done.
  - exists 1%nat. split_and!; [lia|done|done].
Qed.

(** The durable journal of an attempt always passes the executor's validation, whatever the faults: a resume
    never finds it corrupt, and one that meets no fault answers a status. *)
Lemma reset_journal_valid w j : attempted w -> s_cell w = Some j ->
  validate j = inr tt /\ exists s, (run resume w).2 = inr (Some s).
Proof.
  intros Hw%attempted_inv Hcell. split; [|by apply (resume_run w j)].
  apply jinv_validates. unfold inv in Hw. rewrite Hcell in Hw. apply Hw.
Qed.

(** C2: Liveness: from any point of an attempt, however the process died and whichever answers were lost, at most
    [4 n + 9] resumes that meet no fault ([n] the number of profiles) adopt the successor household of that attempt
    and erase its journal. *)
Theorem reset_completes w j : attempted w -> s_cell w = Some j ->
  exists n, (n <= 4 * length (j_profiles j) + 9)%nat /\ s_cell (resumes n w) = None /\ completed j (resumes n w).
Proof. intros Hw%attempted_inv Hcell. apply resumes_complete; [by apply rank_bound|done|done]. Qed.
End Liveness.
