(* ===== verification/ResetExample.v ===== *)
(** * A key reset that runs

    Concrete instances of the reset's parameters, which satisfy the laws the theorems assume: a den-core that keeps
    the documented profile operations, a den-edge that keeps the backend's contract, and an HKDF. A household of an
    owner and a kid, with a deleted profile, is reset against them. *)

From S2P Require Import Prelude JsMap JsText Json Wire Clock ProfileKeys ResetJournal ResetSuccessor ResetExecutor ResetSafety ResetInvariant ResetLiveness.

(** ** den-core *)

Definition keyed (p : string * ProfileEntry) : bool := String.eqb (pe_id p.2) p.1 && hex_of 32 p.1.

Definition small_validate (d : ProfileDirectoryDocument) : res ProfileDirectoryDocument :=
  if bool_decide (map_wf (pd_profiles d)) && forallb keyed (pd_profiles d) then Ok d else Throw "invalid directory".

Definition small_apply (d : ProfileDirectoryDocument) (profile : string) (value : LibraryValue) (at_ : Stamp) : res ProfileDirectoryDocument :=
  match map_get profile (pd_profiles d) with
  | Some entry => Ok (mkDirectory (pd_owner d) (map_set profile (with_library entry (mkStamped value at_)) (pd_profiles d)) (pd_rest d))
  | None => Throw "no such profile"
  end.

Definition small_next (i : PlannerInput) : res ProfileResetEffect :=
  match filter (fun e => ev_verified e = false) (pi_profiles i) with
  | (_ :: _) as l => Ok (MoveLiveProfiles (ev_profile <$> l))
  | [] =>
    if negb (pi_householdCommitted i) then Ok CommitSuccessorHousehold
    else
      match filter (fun e => ev_oldRetired e = false) (pi_profiles i) with
      | (_ :: _) as l => Ok (RetireOldLibraries (ev_profile <$> l) (negb (pi_oldHouseholdRetired i)))
      | [] => if pi_oldHouseholdRetired i then Ok CompleteReset else Ok (RetireOldLibraries [] true)
      end
  end.

Definition small_materialize (d : ProfileDirectoryDocument) : res string :=
  Ok (join "," ((fun entry => pe_id entry +:+ "=" +:+ lv_key (sv_value (pe_library entry))) <$> entries d)).

Definition small_profiles : ProfilesPolicy := {|
  profiles_validate := small_validate;
  profiles_reset_next := small_next;
  profiles_apply_library := small_apply;
  profiles_materialize := small_materialize;
|}.
#[local] Existing Instance small_profiles.

Lemma small_validate_ok d d' : small_validate d = Ok d' <-> d' = d /\ map_wf (pd_profiles d) /\ forallb keyed (pd_profiles d) = true.
Proof.
  unfold small_validate. destruct (bool_decide _) eqn:Hwf, (forallb _ _) eqn:Hk; cbn;
    rewrite ?bool_decide_eq_true, ?bool_decide_eq_false in Hwf; naive_solver.
Qed.

Lemma filter_false_nil (f : ProfileResetEvidence -> bool) l :
  match filter (fun e => f e = false) l with
  | e :: _ => forallb f l = false /\ e ∈ l /\ f e = false
  | [] => forallb f l = true
  end.
Proof.
  destruct (filter _ l) as [|e rest] eqn:E.
  - apply forallb_forall. intros x Hx%list_elem_of_In. destruct (f x) eqn:Hf; [done|].
    assert (Hin : x ∈ filter (fun e => f e = false) l) by (by apply list_elem_of_filter). rewrite E in Hin. set_solver.
  - assert (Hin : e ∈ filter (fun e => f e = false) l) by (rewrite E; set_solver). apply list_elem_of_filter in Hin as [Hf He].
    split_and!; [|done|done]. apply not_true_iff_false. rewrite forallb_forall. intros Hl.
    apply list_elem_of_In in He. rewrite Hl in Hf; done.
Qed.

Lemma small_next_planned i : exists decision, small_next i = Ok decision /\ planned i decision.
Proof.
  unfold small_next, planned. pose proof (filter_false_nil ev_verified (pi_profiles i)) as Hv.
  destruct (filter _ (pi_profiles i)) as [|e rest].
  - rewrite Hv. cbn. destruct (pi_householdCommitted i); [|by eexists]. cbn.
    pose proof (filter_false_nil ev_oldRetired (pi_profiles i)) as Hr. destruct (filter _ (pi_profiles i)) as [|e rest].
    + rewrite Hr, andb_true_r. destruct (pi_oldHouseholdRetired i); cbn; [by eexists|].
      eexists. split; [done|]. eexists _, _. split; [done|]. by right.
    + destruct Hr as (-> & He & Hf). rewrite andb_false_r. cbn. eexists. split; [done|]. eexists _, _. split; [done|]. left. exists (ev_profile e), e, (ev_profile <$> rest). by split_and!.
  - destruct Hv as (-> & He & Hf). cbn. eexists. split; [done|]. exists (ev_profile e), e, (ev_profile <$> rest). by split_and!.
Qed.

#[local] Instance small_profiles_laws : ProfilesLaws.
Proof.
  constructor; cbn.
  - intros d d' (-> & Hd)%small_validate_ok. by apply small_validate_ok.
  - intros d d' (-> & Hwf & Hk)%small_validate_ok. split; [done|]. intros k entry Hin.
    rewrite forallb_forall in Hk. apply list_elem_of_In, Hk in Hin. unfold keyed in Hin. cbn in Hin.
    by apply andb_true_iff in Hin as [->%String.eqb_eq ?].
  - intros d d' _. by eexists.
  - intros d profile entry value at_ (_ & Hwf & Hk)%small_validate_ok Hget _ _ _ _ _ _. unfold small_apply. rewrite Hget.
    eexists. split_and!; [done| |done]. apply small_validate_ok. split_and!; [done|by apply map_wf_set|].
    rewrite forallb_forall in Hk |- *. intros p [->|Hp]%list_elem_of_In%elem_of_map_set; [|by apply Hk, list_elem_of_In].
    by apply (Hk (profile, entry)), list_elem_of_In, map_get_elem.
  - intros i _. apply small_next_planned.
Qed.

(** ** Keys and clock *)

Definition small_hkdf : Hkdf := fun material _ _ n => resize n "0"%char material.
#[local] Existing Instance small_hkdf.
#[local] Instance small_hkdf_laws : HkdfLaws.
Proof. constructor. intros. apply length_resize. Qed.
#[local] Existing Instance hlc_issue.

(** ** den-edge *)

(** One reset at a time: the attempt that holds the locks, what it published and what this device adopted. *)
Record SmallEdge : Type := mkSmallEdge {
  se_attempt : option string;
  se_published : option (string * string * ProfileDirectoryDocument);
  se_retired : list string;
  se_adopted : option ProfileAdoptionRequest;
}.

Definition small_locks (q : ProfileResetLockRequest) : ProfileResetLockSet :=
  mkLockSet (lq_attempt q) (mkHandle (lr_libraryId (lq_household q)) "household")
    ((fun p => (p.1, mkHandle (lr_libraryId p.2) ("profile:" +:+ p.1))) <$> lq_profiles q).

Definition serves (s : SmallEdge) (attempt : string) : bool := bool_decide (se_attempt s = Some attempt).

Definition digest_f : string := "ffffffffffffffffffffffffffffffffffffffffffffffffffffffffffffffff".

Definition unavailable {A} : tried A := inl (OtherError "unavailable").

Definition small_published (s : SmallEdge) (attempt key : string) (d : ProfileDirectoryDocument) : bool :=
  bool_decide (se_published s = Some (attempt, key, d)).

Definition small_step (op : Op) (s : SmallEdge) : SmallEdge * tried (answer op) :=
  match op return SmallEdge * tried (answer op) with
  | AcquireLocks q =>
    if bool_decide (se_attempt s = None) || serves s (lq_attempt q)
    then (mkSmallEdge (Some (lq_attempt q)) (se_published s) (se_retired s) (se_adopted s), inr (small_locks q))
    else (s, inl (ProfileResetRefusedError "locked"))
  | AbortReset q =>
    if bool_decide (is_Some (se_published s)) then (s, inr Committed) else (mkSmallEdge None None [] (se_adopted s), inr Aborted)
  | MoveAndVerifyProfile q =>
    (s, if serves s (ls_attempt (mv_locks q)) then
          match libraryId (mv_newKey q) with Ok id => inr (mkMoved (mv_profile q) id digest_f) | Throw m => inl (OtherError m) end
        else unavailable)
  | PublishSuccessorHousehold q =>
    if serves s (ls_attempt (hp_locks q))
    then (mkSmallEdge (se_attempt s) (Some (hp_attempt q, hp_newKey q, hp_directory q)) (se_retired s) (se_adopted s), inr tt)
    else (s, unavailable)
  | ObserveSuccessorHousehold q =>
    (s, if serves s (ls_attempt (ho_locks q)) then
          if small_published s (ho_attempt q) (ho_successorKey q) (ho_directory q) then
            match libraryId (ho_successorKey q) with
            | Ok id => inr (ObservedCommitted id digest_f (ho_directory q))
            | Throw m => inl (OtherError m)
            end
          else inr ObservedAbsent
        else unavailable)
  | RetireProfileLibrary q =>
    if serves s (ls_attempt (rp_locks q))
    then (mkSmallEdge (se_attempt s) (se_published s) (rp_profile q :: se_retired s) (se_adopted s), inr tt)
    else (s, unavailable)
  | RetireHouseholdLibrary q =>
    if serves s (ls_attempt (rh_locks q))
    then (mkSmallEdge (se_attempt s) (se_published s) ("household" :: se_retired s) (se_adopted s), inr tt)
    else (s, unavailable)
  | AdoptSuccessorCall q =>
    if serves s (ls_attempt (ad_locks q))
    then (mkSmallEdge (se_attempt s) (se_published s) (se_retired s) (Some q), inr tt)
    else (s, unavailable)
  | SuccessorIsAdopted q => (s, inr (bool_decide (se_adopted s = Some q)))
  | LoadJournal => (s, inr None)
  | PersistJournal _ => (s, inr tt)
  | ClearJournal _ => (s, inr tt)
  end.

#[local] Instance small_edge : ResetEdge := {| edge := SmallEdge; edge_step := small_step |}.

Lemma map_get_keyed {V W} (g : string -> V -> W) (m : jsmap string V) k :
  map_get k ((fun p => (p.1, g p.1 p.2)) <$> m) = g k <$> map_get k m.
Proof. induction m as [|[k' v] m IH]; cbn; [done|]. destruct (decide (k = k')) as [->|]; [done|apply IH]. Qed.

Lemma mapM_get {V} (m : jsmap string V) : map_wf m -> mapM (fun k => map_get k m) (map_keys m) = Some (map_values m).
Proof.
  intros Hwf. apply mapM_Some. unfold map_keys, map_values. apply Forall2_fmap, Forall_Forall2_diag, Forall_forall.
  intros [k v] Hin. cbn. by apply map_elem_get.
Qed.

Lemma small_locks_ok q : map_wf (lq_profiles q) -> locks_ok (small_locks q) (lq_attempt q) q = true.
Proof.
  intros Hwf. unfold locks_ok.
  assert (Hkeys : map_keys (ls_profiles (small_locks q)) = map_keys (lq_profiles q)).
  { cbn. unfold map_keys. rewrite <- list_fmap_compose. by apply list_fmap_ext. }
  assert (Hfound : mapM (fun id => map_get id (ls_profiles (small_locks q))) (map_keys (lq_profiles q))
                   = Some (map_values (ls_profiles (small_locks q)))).
  { rewrite <- Hkeys. apply mapM_get. unfold map_wf. by rewrite Hkeys. }
  rewrite Hfound, Hkeys. cbn [small_locks ls_attempt ls_household lh_libraryId]. rewrite !String.eqb_refl, Nat.eqb_refl. cbn [andb].
  assert (Hvalues : lh_value <$> map_values (ls_profiles (small_locks q)) = (fun k => "profile:" +:+ k) <$> map_keys (lq_profiles q)).
  { cbn. unfold map_values, map_keys. rewrite <- !list_fmap_compose. by apply list_fmap_ext. }
  rewrite andb_true_r. apply andb_true_iff; split; [apply andb_true_iff; split|].
  - cbn [forallb lh_value]. apply andb_true_iff; split; [done|]. apply forallb_forall. intros h Hh%list_elem_of_In.
    assert (Hin : lh_value h ∈ lh_value <$> map_values (ls_profiles (small_locks q))) by (apply list_elem_of_fmap; eauto).
    rewrite Hvalues in Hin. by apply list_elem_of_fmap in Hin as (k & -> & _).
  - rewrite fmap_cons, Hvalues, set_of_NoDup.
    + cbn [length]. rewrite length_fmap, <- Hkeys. unfold map_keys, map_values. rewrite !length_fmap. apply Nat.eqb_refl.
    + apply NoDup_cons. split; [by intros (k & Hk & _)%list_elem_of_fmap|]. apply NoDup_fmap_2; [|done].
      intros k k'. apply string_app_inj_l.
  - apply forallb_forall. intros k Hk%list_elem_of_In. apply bool_decide_eq_true. cbn.
    rewrite (map_get_keyed (fun k r => mkHandle (lr_libraryId r) ("profile:" +:+ k))). by destruct (map_get k (lq_profiles q)).
Qed.

#[local] Instance small_contract : ResetContract.
Proof.
  refine {|
    admits := fun s attempt => se_attempt s = None \/ se_attempt s = Some attempt;
    holds := fun s locks => serves s (ls_attempt locks) = true;
    published := small_published;
    adopted := fun s q => bool_decide (se_adopted s = Some q);
  |}; cbn [edge edge_step].
  - intros op s Hedge Habort Hadmits. unfold serves. setoid_rewrite bool_decide_eq_true.
    destruct op; try done; cbn in *;
      try match goal with |- context [if ?b then _ else _] => destruct b end; cbn; try tauto.
    split; [by right|]. by intros locks ->.
  - intros s q Hadmits Hwf. cbn. unfold serves.
    assert (bool_decide (se_attempt s = None) || bool_decide (se_attempt s = Some (lq_attempt q)) = true) as ->.
    { destruct Hadmits as [-> | ->]; [done|]. by rewrite (bool_decide_true (Some _ = Some _)), orb_true_r. }
    eexists _, _. split_and!; [done|by apply small_locks_ok|]. cbn. by apply bool_decide_eq_true.
  - intros s q id Hh _ Hid. cbn. rewrite Hh, Hid. by eexists _, _.
  - intros s q Hh _. cbn. rewrite Hh. eexists. split; [done|]. by apply bool_decide_eq_true.
  - intros s q id Hh _ Hid Hd. cbn. rewrite Hh, Hid.
    destruct (small_published _ _ _ _) eqn:Hp; eexists _, _; (split; [done|]); [right|by left].
    eexists _, _. split_and!; [done|done|by apply sameDirectory_refl].
  - intros s q Hh _. cbn. rewrite Hh. by eexists.
  - intros s q Hh _. cbn. rewrite Hh. by eexists.
  - intros s q Hh _. cbn. rewrite Hh. eexists. split; [done|]. by apply bool_decide_eq_true.
  - intros s q. cbn. by eexists.
Defined.

(** ** A household *)

Definition keyOf (byte : nat) : string := base64 (replicate 32 (Ascii.ascii_of_nat byte)).
Definition OWNER : string := "00112233445566778899aabbccddeeff".
Definition MINA : string := "11112222333344445555666677778888".
Definition GONE : string := "aaaaaaaabbbbccccddddeeeeffff0000".

Definition at_time (t : Z) : Stamp := mkStamp t 0 "a1b2c3d4e5f60718".

Definition small_entry (id : string) (role : ProfileRole) (key : nat) (deleted : bool) (t : Z) : string * ProfileEntry :=
  (id, mkEntry id role (mkStamped (mkDisplay "profile" None) (at_time t)) (mkStamped (mkLibrary 1 (keyOf key)) (at_time (t + 1)))
         (mkStamped (mkPolicy None false []) (at_time t)) (mkStamped deleted (at_time t)) []).

Definition household : ProfileDirectoryDocument :=
  mkDirectory OWNER [small_entry OWNER Owner 17 false 1; small_entry GONE Kid 68 true 2; small_entry MINA Kid 34 false 3] [].

Definition small_options : ProfileKeyResetOptions :=
  mkOptions (fun n => replicate 32 (Ascii.ascii_of_nat (80 + n))) "0123456789abcdef0123456789abcdef" 1800000100000.

Definition small_fence : ProfileResetFence := mkFence 14 digest_f.

Definition start_household : prog (tried ProfileResetStatus) := start small_options household (keyOf 4) small_fence None.

Definition idle_edge : edge := mkSmallEdge None None [] None.

(** The first [n] calls of a program; then the process dies. *)
Fixpoint cut {A} (n : nat) (p : prog A) (w : site) : site :=
  match n, p with
  | S n, Call op k => let '(w', r) := serve op w in cut n (k r) w'
  | _, _ => w
  end.

Lemma faulty_cut {A} n (p : prog A) w : faulty p w (cut n p w).
Proof.
  revert n w. induction p as [a|op k IH]; intros [|n] w; cbn; try by left. right. left. specialize (IH (serve op w).2 n (serve op w).1).
  by destruct (serve op w).
Qed.

(** The process died while the locks were acquired, and again while the household was published. *)
Definition died_locking : site := cut 3 start_household (mkSite None idle_edge).
Definition died_publishing : site := cut 2 resume (resumes 6 died_locking).

Lemma faulty_run {A} (p : prog A) w : faulty p w (run p w).1.
Proof.
  revert w. induction p as [a|op k IH]; intros w; cbn; [by left|]. right. left. specialize (IH (serve op w).2 (serve op w).1).
  by destruct (serve op w).
Qed.

Lemma resumes_attempted n w : attempted w -> attempted (resumes n w).
Proof.
  revert w. induction n as [|n IH]; intros w Hw; [done|]. change (attempted (resumes n (run resume w).1)).
  apply IH. apply (attempted_resume w); [done|]. apply (faulty_run resume).
Qed.

Lemma died_publishing_attempted : attempted died_publishing.
Proof.
  eapply attempted_resume; [|apply faulty_cut]. apply resumes_attempted.
  eapply (attempted_start idle_edge); [|apply faulty_cut]. by left.
Qed.

Definition the_journal (w : site) : ProfileResetJournal :=
  default (mkJournal 0 "" household small_fence "" "" ZERO_STAMP [] None None None false false Prepared None) (s_cell w).

Example died_publishing_phase :
  j_phase (the_journal died_publishing) = CommitUnknown /\ j_pending (the_journal died_publishing) = Some VerifyHousehold
  /\ length (j_profiles (the_journal died_publishing)) = 2%nat /\ se_published (s_edge died_publishing) = None.
Proof. vm_compute. split_and!; reflexivity. Qed.

Lemma died_publishing_cell : s_cell died_publishing = Some (the_journal died_publishing).
Proof. vm_compute. reflexivity. Qed.

Lemma reset_completes_witness :
  exists n, (n <= 17)%nat /\ s_cell (resumes n died_publishing) = None /\ completed (the_journal died_publishing) (resumes n died_publishing).
Proof.
  destruct (reset_completes died_publishing (the_journal died_publishing)) as (n & Hn & Hdone);
    [apply died_publishing_attempted|apply died_publishing_cell|].
  exists n. split; [|exact Hdone]. replace 17%nat with (4 * length (j_profiles (the_journal died_publishing)) + 9)%nat; [exact Hn|].
  vm_compute. reflexivity.
Defined.

Lemma reset_journal_valid_witness :
  validate (the_journal died_publishing) = inr tt /\ exists s, (run resume died_publishing).2 = inr (Some s).
Proof. apply (reset_journal_valid died_publishing); [apply died_publishing_attempted|apply died_publishing_cell]. Defined.

(** ** Its history *)

(** A run against the edge, with the history it leaves. *)
Fixpoint play {A} (p : prog A) (w : world) (s : edge) : world * edge :=
  match p with
  | Ret _ => (w, s)
  | Call op k =>
    let '(w', r) := serve op (mkSite (w_cell w) s) in play (k r) (after w op r (s_cell w')) (s_edge w')
  end.

Lemma edge_call_cell op w : s_cell (edge_call op w).1 = s_cell w.
Proof. unfold edge_call. by destruct (edge_step op (s_edge w)). Qed.

Lemma serve_reply op c s : reply op c (serve op (mkSite c s)).2 (s_cell (serve op (mkSite c s)).1).
Proof.
  destruct op; try exact (edge_call_cell _ (mkSite c s)); cbn.
  - split; [done|]. by left.
  - by left.
  - destruct (VaultProfileResetJournal_clear attempt c); cbn; [by left|done].
Qed.

Lemma play_runs {A} (p : prog A) w s : runs p w (play p w s).1.
Proof.
  revert w s. induction p as [a|op k IH]; intros w s; cbn; [by left|]. right.
  pose proof (serve_reply op (w_cell w) s) as Hr. destruct (serve op (mkSite (w_cell w) s)) as [w' r]. by exists r, (s_cell w').
Qed.

Fixpoint play_resumes (n : nat) (w : world) (s : edge) : world * edge :=
  match n with O => (w, s) | S n => let '(w', s') := play resume w s in play_resumes n w' s' end.

Lemma play_resumes_reachable n w s : reachable w -> reachable (play_resumes n w s).1.
Proof.
  revert w s. induction n as [|n IH]; intros w s Hw; [done|]. cbn [play_resumes].
  pose proof (play_runs resume w s) as Hr. destruct (play resume w s) as [w' s']. apply IH. by eapply reach_resume.
Qed.

Definition whole_reset : world := let '(w, s) := play start_household (mkWorld None []) idle_edge in (play_resumes 16 w s).1.

Lemma whole_reset_reachable : reachable whole_reset.
Proof.
  unfold whole_reset. pose proof (play_runs start_household (mkWorld None []) idle_edge) as Hr.
  destruct (play start_household _ _) as [w s]. apply play_resumes_reachable.
  apply (reach_start (mkWorld None []) w small_options household (keyOf 4) small_fence None); [apply reach_init|exact Hr].
Qed.

(** The first event of a history that [f] picks. *)
Fixpoint first_event (f : event -> bool) (past : list event) : option (list event * event * list event) :=
  match past with
  | [] => None
  | e :: past =>
    if f e then Some ([], e, past)
    else match first_event f past with Some (before, x, later) => Some (e :: before, x, later) | None => None end
  end.

Lemma first_event_spec f past before e later : first_event f past = Some (before, e, later) ->
  past = before ++ e :: later /\ f e = true.
Proof.
  revert before. induction past as [|x past IH]; intros before; cbn; [done|]. destruct (f x) eqn:Hf; [by intros [= <- <- <-]|].
  destruct (first_event f past) as [[[b y] l]|]; [|done]. intros [= <- -> ->]. destruct (IH b eq_refl) as [-> ?]. done.
Qed.

Lemma first_event_some (f : event -> bool) (past : list event) : existsb f past = true -> exists before e later, past = before ++ e :: later /\ f e = true.
Proof.
  intros Hex. destruct (first_event f past) as [[[before e] later]|] eqn:E.
  - exists before, e, later. by apply first_event_spec.
  - exfalso. induction past as [|x past IH]; cbn in *; [done|]. destruct (f x); [done|].
    destruct (first_event f past) as [[[? ?] ?]|]; [done|]. by apply IH.
Qed.

Lemma reset_retires_after_commit_witness :
  exists before c op r later, w_past whole_reset = before ++ mkEvent c op r :: later /\ retires op = true
    /\ exists j, c = Some j /\ all_moved before j /\ observed before j.
Proof.
  destruct (first_event_some (fun e => retires (e_op e)) (w_past whole_reset)) as (before & [c op r] & later & Hpast & Hop);
    [vm_compute; reflexivity|].
  exists before, c, op, r, later. split; [exact Hpast|]. split; [exact Hop|].
  exact (reset_retires_after_commit whole_reset before c op r later whole_reset_reachable Hpast Hop).
Defined.

Definition is_adopt (op : Op) : bool := match op with AdoptSuccessorCall _ => true | _ => false end.

Lemma reset_adopts_after_retirement_witness :
  exists before c request r later, w_past whole_reset = before ++ mkEvent c (AdoptSuccessorCall request) r :: later
    /\ exists j, c = Some j /\ all_retired before j.
Proof.
  destruct (first_event_some (fun e => is_adopt (e_op e)) (w_past whole_reset)) as (before & [c op r] & later & Hpast & Hop);
    [vm_compute; reflexivity|].
  destruct op; try discriminate Hop. exists before, c, request, r, later. split; [exact Hpast|].
  destruct (reset_adopts_after_retirement whole_reset before c request r later whole_reset_reachable Hpast) as (j & Hc & _ & _ & _ & Hr).
  exists j. split; [exact Hc|exact Hr].
Defined.

Definition is_publish (op : Op) : bool := match op with PublishSuccessorHousehold _ => true | _ => false end.

Lemma reset_intent_durable_witness :
  exists before c request r later j, w_past whole_reset = before ++ mkEvent c (PublishSuccessorHousehold request) r :: later
    /\ c = Some j /\ j_pending j = Some VerifyHousehold.
Proof.
  destruct (first_event_some (fun e => is_publish (e_op e)) (w_past whole_reset)) as (before & [c op r] & later & Hpast & Hop);
    [vm_compute; reflexivity|].
  destruct op; try discriminate Hop.
  destruct (reset_intent_durable whole_reset before c (PublishSuccessorHousehold request) r later VerifyHousehold whole_reset_reachable Hpast eq_refl)
    as (j & Hc & Hp).
  exists before, c, request, r, later, j. split; [exact Hpast|]. split; [exact Hc|exact Hp].
Defined.

Definition is_clear (op : Op) : bool := match op with ClearJournal _ => true | _ => false end.

Lemma reset_ends_when_over_witness :
  exists before c attempt r later, w_past whole_reset = before ++ mkEvent c (ClearJournal attempt) r :: later /\ over before.
Proof.
  destruct (first_event_some (fun e => is_clear (e_op e)) (w_past whole_reset)) as (before & [c op r] & later & Hpast & Hop);
    [vm_compute; reflexivity|].
  destruct op; try discriminate Hop. exists before, c, attempt, r, later. split; [exact Hpast|].
  exact (proj1 (reset_ends_when_over whole_reset before c (ClearJournal attempt) r later whole_reset_reachable Hpast)).
Defined.

Definition is_persist (e : event) : bool := match e_op e, e_cell e with PersistJournal _, Some _ => true | _, _ => false end.

Lemma reset_journal_advances_witness :
  exists before j j' r later, w_past whole_reset = before ++ mkEvent (Some j) (PersistJournal j') r :: later
    /\ backed before j' /\ advances j j'.
Proof.
  destruct (first_event_some is_persist (w_past whole_reset)) as (before & [c op r] & later & Hpast & Hop);
    [vm_compute; reflexivity|].
  destruct op; try discriminate Hop. destruct c as [j|]; try discriminate Hop.
  exists before, j, journal, r, later. split; [exact Hpast|].
  exact (reset_journal_advances whole_reset before (Some j) journal r later whole_reset_reachable Hpast).
Defined.
