(* ===== verification/DownloadSources.v ===== *)
(** * Release lists of the download coordinator

    [downloadCoordinator.ts] [sourcesForTitle]: one short-lived snapshot of a title's releases backs what is shown and
    what is picked from it. Requests overlap: plain asks join one request in flight, a fresh ask always makes its own,
    and what a reply may put into the cache depends on which rebuilt list was published while both were in flight.

    An ask, the reply of its provider request ([.then]) and the end of the ask ([finally]) each run without an await, so
    a step of the coordinator is one of them, and an execution is any interleaving. The pending objects that overlapping
    asks share are a heap ([co_heap]); a request in flight keeps what its closure captured ([Run]). *)

From S2P Require Import Prelude JsMap JsText Json.
From stdpp Require Import relations.
Open Scope Z_scope.

(** ** Data *)

Inductive AnswerKind : Type := KLive | KPartial | KEmpty | KUnknown | KStale.

Record SourceAnswer : Type := mkAnswer {
  sa_kind : AnswerKind;
  sa_missing : Z;
  sa_late : option Z;
  sa_outage : option Z
}.

Inductive FreshAnswer : Type := Rebuilt | Limited.
Inductive SourceFailure : Type := NotConfigured | Unmatched | Unreachable.

Record TitleSource : Type := mkSource {
  ts_filename : string;
  ts_bingeGroup : option string;
  ts_url : string;
  ts_label : string;
  ts_cached : option bool;
  ts_seeders : option Z;
  ts_size : option Z;
  ts_packSize : option Z;
  ts_badges : list string;
  ts_languages : list string;
  ts_probed : bool;
  ts_identity : string;
  ts_attributes : list (string * json)
}.

Inductive MediaType : Type := Movie | Tv.

Record DownloadTitle : Type := mkDownloadTitle {
  dt_mediaType : MediaType;
  dt_mediaId : Z;
  dt_imdbId : option string;
  dt_season : option Z;
  dt_episode : option Z;
  dt_title : string;
  dt_posterPath : option string;
  dt_stillPath : option string;
  dt_originalLanguage : option string;
  dt_preferredLanguage : option string;
  dt_airDate : option Z
}.

Record DownloadSourceSnapshot : Type := mkSnapshot {
  sn_sources : option (list TitleSource);
  sn_answer : option SourceAnswer;
  sn_fresh : option FreshAnswer;
  sn_failure : option SourceFailure
}.

#[global] Instance FreshAnswer_eq_dec : EqDecision FreshAnswer.
Proof. solve_decision. Defined.

(** An entry of [#sourceCache]. *)
Record CacheEntry : Type := mkEntry { ce_expiresAt : Z; ce_snapshot : DownloadSourceSnapshot }.

(** [SourcePending]; [plain] is the promise of the plain request in flight, named by its run. *)
Record SourcePending : Type := mkPending {
  sp_active : Z;
  sp_publishedFreshGeneration : Z;
  sp_plain : option nat
}.

Definition DOWNLOAD_POLL_MS : Z := 5000.
Definition DOWNLOAD_POLL_MAX_MS : Z := 60000.
Definition DOWNLOAD_SOURCE_SNAPSHOT_MS : Z := 30000.
Definition DOWNLOAD_SOURCE_SNAPSHOTS : nat := 64.

Definition downloadPollDelay (quiet : Z) : Z :=
  Z.min (DOWNLOAD_POLL_MS * 2 ^ Z.max 0 quiet) DOWNLOAD_POLL_MAX_MS.

(** ** Keys *)

Definition mediaType_str (type : MediaType) : string := match type with Movie => "movie" | Tv => "tv" end.

Definition contentKey (type : MediaType) (id : Z) (season episode : option Z) : string :=
  mediaType_str type +:+ ":" +:+ Z_str id +:+ ":" +:+ Z_str (default (-1) season) +:+ ":" +:+ Z_str (default (-1) episode).

Definition contentKeyOf (title : DownloadTitle) : string :=
  contentKey (dt_mediaType title) (dt_mediaId title) (dt_season title) (dt_episode title).

Definition newline : string := String "010"%char "".

Definition sourceKey (content : string) (early : bool) : string :=
  if early then content +:+ newline +:+ "early" else content.

(** ** The pick

    den-core ranks: [rank_releases] answers an index or nothing, and may refuse. *)

Class RankPolicy := rank_releases :
  list json -> option string -> option string -> res (option Z).

Definition rankable (sources : list TitleSource) : list json :=
  (fun source =>
     JObj (map_set "filename" (JStr (ts_filename source))
             (map_set "identity" (JStr (ts_identity source)) (ts_attributes source)))) <$> sources.

(** [sources[pick]]: [undefined] outside the list. *)
Definition at_index {A} (l : list A) (i : Z) : option A := if i <? 0 then None else l !! Z.to_nat i.

Definition pick `{RankPolicy} (preferred : option string) (sources : list TitleSource) (original : option string)
  : res (option TitleSource) :=
  match sources with
  | [] => Ok None
  | _ => let! picked := rank_releases (rankable sources) original preferred in
         Ok (picked ≫= at_index sources)
  end.

(** ** The coordinator's list state *)

Inductive Phase : Type :=
| Asking
| Answered (at_ : Z) (reply : res DownloadSourceSnapshot)
| Released (at_ : Z) (reply : res DownloadSourceSnapshot).

(** A call of [sourcesForTitle] past its early returns: what its closure holds, and where it is. *)
Record Run : Type := mkRun {
  run_title : DownloadTitle;
  run_fresh : bool;
  run_early : bool;
  run_freshGeneration : Z;
  run_cached : option CacheEntry;
  run_pending : nat;
  run_phase : Phase
}.

(** [key] of the closure. *)
Definition run_key (r : Run) : string := sourceKey (contentKeyOf (run_title r)) (run_early r).

Record Lists : Type := mkLists {
  co_sourceCache : jsmap string CacheEntry;
  co_sourcePending : jsmap string nat;
  co_sourceGeneration : Z;
  co_heap : list SourcePending;
  co_runs : list Run
}.

Definition newLists : Lists := mkLists [] [] 0 [] [].

(** What an ask gives its caller at once: a cached list, the promise it joins, or the promise it made. *)
Inductive Asked : Type :=
| Cached (snapshot : DownloadSourceSnapshot)
| Joined (run : nat)
| Started (run : nat).

Definition with_heap (heap : list SourcePending) (s : Lists) : Lists :=
  mkLists (co_sourceCache s) (co_sourcePending s) (co_sourceGeneration s) heap (co_runs s).
Definition with_cache (cache : jsmap string CacheEntry) (s : Lists) : Lists :=
  mkLists cache (co_sourcePending s) (co_sourceGeneration s) (co_heap s) (co_runs s).
Definition with_pending (pending : jsmap string nat) (s : Lists) : Lists :=
  mkLists (co_sourceCache s) pending (co_sourceGeneration s) (co_heap s) (co_runs s).
Definition with_generation (n : Z) (s : Lists) : Lists :=
  mkLists (co_sourceCache s) (co_sourcePending s) n (co_heap s) (co_runs s).
Definition with_runs (runs : list Run) (s : Lists) : Lists :=
  mkLists (co_sourceCache s) (co_sourcePending s) (co_sourceGeneration s) (co_heap s) runs.

Definition with_phase (phase : Phase) (r : Run) : Run :=
  mkRun (run_title r) (run_fresh r) (run_early r) (run_freshGeneration r) (run_cached r) (run_pending r) phase.

(** [sourcesForTitle] up to its request: the object of the asks in flight for [key], made when there is none. *)
Definition pendingFor (key : string) (s : Lists) : nat * Lists :=
  match map_get key (co_sourcePending s) with
  | Some o => (o, s)
  | None =>
      let o := length (co_heap s) in
      (o, with_pending (map_set key o (co_sourcePending s)) (with_heap (co_heap s ++ [mkPending 0 0 None]) s))
  end.

Definition plainOf (key : string) (s : Lists) : option nat :=
  match map_get key (co_sourcePending s) with
  | Some o => co_heap s !! o ≫= sp_plain
  | None => None
  end.

(** The request of an ask that nothing answers yet. *)
Definition startRun (title : DownloadTitle) (fresh early : bool) (cached : option CacheEntry) (s : Lists)
  : nat * Lists :=
  let '(o, s) := pendingFor (sourceKey (contentKeyOf title) early) s in
  let generation := if fresh then co_sourceGeneration s + 1 else co_sourceGeneration s in
  let run := length (co_runs s) in
  let heap := alter (fun p => mkPending (sp_active p + 1) (sp_publishedFreshGeneration p)
                                (if fresh then sp_plain p else Some run)) o (co_heap s) in
  (run,
   with_runs
     (co_runs s ++ [mkRun title fresh early (if fresh then generation else 0) cached o Asking])
     (with_heap heap (with_generation generation s))).

Definition sourcesForTitle (title : DownloadTitle) (refresh fresh early : bool) (now : Z) (s : Lists) : Asked * Lists :=
  let key := sourceKey (contentKeyOf title) early in
  let cached := map_get key (co_sourceCache s) in
  let start := match (if fresh then None else plainOf key s) with
    | Some run => (Joined run, s)
    | None => let '(run, s) := startRun title fresh early cached s in (Started run, s)
    end in
  match cached with
  | Some entry => if negb refresh && negb fresh && (now <? ce_expiresAt entry) then (Cached (ce_snapshot entry), s)
                  else start
  | None => start
  end.

(** ** The reply *)

(** The preferred release first. *)
Definition ordered `{RankPolicy} (preferred : option string) (title : DownloadTitle)
    (sources : option (list TitleSource)) : res (option (list TitleSource)) :=
  let! first := match sources with
    | Some ((_ :: _) as l) => pick preferred l (dt_originalLanguage title)
    | _ => Ok None
    end in
  Ok (match first with
      | Some first => Some (first :: filter (fun source => ts_identity source <> ts_identity first) (default [] sources))
      | None => sources
      end).

Fixpoint evict (fuel : nat) (cache : jsmap string CacheEntry) : jsmap string CacheEntry :=
  match fuel, cache with
  | S fuel, (key, _) :: _ =>
      if (DOWNLOAD_SOURCE_SNAPSHOTS <? length cache)%nat then evict fuel (map_delete key cache) else cache
  | _, _ => cache
  end.

Definition retained (snapshot : DownloadSourceSnapshot) : DownloadSourceSnapshot :=
  mkSnapshot (sn_sources snapshot) (sn_answer snapshot) None (sn_failure snapshot).

Definition keep (key : string) (now : Z) (snapshot : DownloadSourceSnapshot) (cache : jsmap string CacheEntry)
  : jsmap string CacheEntry :=
  let cache := map_set key (mkEntry (now + DOWNLOAD_SOURCE_SNAPSHOT_MS) (retained snapshot)) (map_delete key cache) in
  evict (length cache) cache.

Definition limited (snapshot : DownloadSourceSnapshot) : DownloadSourceSnapshot :=
  mkSnapshot (sn_sources snapshot) (sn_answer snapshot) (Some Limited) (sn_failure snapshot).

(** Whether the reply of a run may replace the cached list, given its pending object. *)
Definition fenced (r : Run) (pending : SourcePending) : bool :=
  if run_fresh r then run_freshGeneration r <? sp_publishedFreshGeneration pending
  else negb (sp_publishedFreshGeneration pending =? 0).

Definition publish (r : Run) (now : Z) (snapshot : DownloadSourceSnapshot) (s : Lists) : Lists :=
  let s := if run_fresh r
    then with_heap (alter (fun p => mkPending (sp_active p) (run_freshGeneration r) (sp_plain p))
                      (run_pending r) (co_heap s)) s
    else s in
  with_cache (keep (run_key r) now snapshot (co_sourceCache s)) s.

(** The [.then] of a request: what it resolves to, and the lists after it. *)
Definition sourcesForTitle_then `{RankPolicy} (r : Run) (now : Z) (preferred : option string)
    (reply : DownloadSourceSnapshot) (s : Lists) : res DownloadSourceSnapshot * Lists :=
  match ordered preferred (run_title r) (sn_sources reply) with
  | Throw m => (Throw m, s)
  | Ok sources =>
      let snapshot := mkSnapshot sources (sn_answer reply) (sn_fresh reply) (sn_failure reply) in
      if decide (sn_fresh reply = Some Limited) then
        let shown := match map_get (run_key r) (co_sourceCache s) with
          | Some entry => Some entry
          | None => run_cached r
          end in
        (Ok (limited (default snapshot (ce_snapshot <$> shown))), s)
      else if fenced r (default (mkPending 0 0 None) (co_heap s !! run_pending r)) then (Ok snapshot, s)
      else (Ok snapshot, publish r now snapshot s)
  end.

(** ** The end of an ask *)

Definition sourcesForTitle_finally (run : nat) (r : Run) (s : Lists) : Lists :=
  let heap := alter (fun p => mkPending (sp_active p - 1) (sp_publishedFreshGeneration p)
                                (if decide (sp_plain p = Some run) then None else sp_plain p))
                (run_pending r) (co_heap s) in
  let s := with_heap heap s in
  match heap !! run_pending r with
  | Some p =>
      if (sp_active p =? 0) && bool_decide (map_get (run_key r) (co_sourcePending s) = Some (run_pending r))
      then with_pending (map_delete (run_key r) (co_sourcePending s)) s
      else s
  | None => s
  end.

(** ** Steps *)

Definition set_phase (run : nat) (phase : Phase) (s : Lists) : Lists :=
  with_runs (alter (with_phase phase) run (co_runs s)) s.

Definition answerRun `{RankPolicy} (run : nat) (r : Run) (now : Z) (preferred : option string)
    (reply : DownloadSourceSnapshot) (s : Lists) : Lists :=
  let '(answer, s) := sourcesForTitle_then r now preferred reply s in set_phase run (Answered now answer) s.

Inductive step `{RankPolicy} (s : Lists) : Lists -> Prop :=
| step_ask title refresh fresh early now :
    step s (sourcesForTitle title refresh fresh early now s).2
| step_reply run r now preferred reply :
    co_runs s !! run = Some r -> run_phase r = Asking ->
    step s (answerRun run r now preferred reply s)
| step_reject run r now m :
    co_runs s !! run = Some r -> run_phase r = Asking ->
    step s (set_phase run (Answered now (Throw m)) s)
| step_finally run r at_ answer :
    co_runs s !! run = Some r -> run_phase r = Answered at_ answer ->
    step s (set_phase run (Released at_ answer) (sourcesForTitle_finally run r s)).

Definition reachable `{RankPolicy} (s : Lists) : Prop := rtc step newLists s.

(** A request whose ask has not ended: its provider request is in flight, or its reply waits to be taken. *)
Definition open_run (r : Run) : bool := match run_phase r with Released _ _ => false | _ => true end.

(** ** The invariant of the asks in flight *)

Lemma alter_Some {A} (f : A -> A) i (l : list A) j x :
  alter f i l !! j = Some x -> (j = i /\ exists y, l !! i = Some y /\ x = f y) \/ (j <> i /\ l !! j = Some x).
Proof.
  rewrite list_lookup_alter. case_decide as Hd; [subst j; intros (y & -> & ?)%fmap_Some; left; eauto|by right].
Qed.

Lemma alter_is_Some {A} (f : A -> A) i (l : list A) j : is_Some (alter f i l !! j) <-> is_Some (l !! j).
Proof. rewrite list_lookup_alter. case_decide as Hd; [subst j; apply fmap_is_Some|done]. Qed.

Definition weight (o : nat) (r : Run) : Z := if open_run r && bool_decide (run_pending r = o) then 1 else 0.

(** The open asks that share the object [o]. *)
Fixpoint open_count (o : nat) (runs : list Run) : Z :=
  match runs with
  | [] => 0
  | r :: runs => weight o r + open_count o runs
  end.

Definition generation_ok (top : Z) (r : Run) : Prop :=
  if run_fresh r then 1 <= run_freshGeneration r <= top else run_freshGeneration r = 0.

(** [K] are the keys whose pending object is in use; in between steps that is every key. *)
Record asks_inv (K : string -> Prop) (s : Lists) : Prop := {
  ai_keys : map_wf (co_sourcePending s);
  ai_object : forall run r, co_runs s !! run = Some r -> is_Some (co_heap s !! run_pending r);
  ai_home : forall run r, co_runs s !! run = Some r -> open_run r = true ->
    map_get (run_key r) (co_sourcePending s) = Some (run_pending r);
  ai_live : forall key o, K key -> map_get key (co_sourcePending s) = Some o ->
    exists run r, co_runs s !! run = Some r /\ open_run r = true /\ run_key r = key /\ run_pending r = o;
  ai_key : forall run r run' r', co_runs s !! run = Some r -> co_runs s !! run' = Some r' ->
    run_pending r = run_pending r' -> run_key r = run_key r';
  ai_active : forall o p, co_heap s !! o = Some p -> sp_active p = open_count o (co_runs s);
  ai_plain : forall o p run, co_heap s !! o = Some p ->
    sp_plain p = Some run <->
    exists r, co_runs s !! run = Some r /\ open_run r = true /\ run_fresh r = false /\ run_pending r = o;
  ai_published : forall o p, co_heap s !! o = Some p -> 0 <= sp_publishedFreshGeneration p;
  ai_generation : forall run r, co_runs s !! run = Some r -> generation_ok (co_sourceGeneration s) r;
  ai_order : forall run r run' r', co_runs s !! run = Some r -> co_runs s !! run' = Some r' ->
    (run < run')%nat -> run_fresh r = true -> run_fresh r' = true -> run_freshGeneration r < run_freshGeneration r';
  ai_top : 0 <= co_sourceGeneration s
}.

Lemma weight_nonneg o r : 0 <= weight o r.
Proof. unfold weight. by destruct (_ && _). Qed.

Lemma weight_one o r : open_run r = true -> run_pending r = o -> weight o r = 1.
Proof. intros Ho <-. unfold weight. by rewrite Ho, bool_decide_true. Qed.

Lemma open_count_nonneg o runs : 0 <= open_count o runs.
Proof. induction runs as [|r runs IH]; cbn; [done|]. pose proof (weight_nonneg o r). lia. Qed.

Lemma open_count_app o runs runs' : open_count o (runs ++ runs') = open_count o runs + open_count o runs'.
Proof. induction runs as [|r runs IH]; cbn; [done|]. rewrite IH. lia. Qed.

Lemma open_count_alter o f run r runs :
  runs !! run = Some r -> open_count o (alter f run runs) = open_count o runs - weight o r + weight o (f r).
Proof.
  revert run. induction runs as [|r' runs IH]; intros [|run] Hl; [done..| |]; cbn in Hl |- *.
  - simplify_eq. lia.
  - rewrite (IH run Hl). lia.
Qed.

Lemma open_count_pos o run r runs :
  runs !! run = Some r -> open_run r = true -> run_pending r = o -> 0 < open_count o runs.
Proof.
  revert run. induction runs as [|r' runs IH]; intros [|run] Hl Ho Hp; [done..| |]; cbn in Hl |- *.
  - simplify_eq. rewrite weight_one by done. pose proof (open_count_nonneg (run_pending r) runs). lia.
  - pose proof (IH run Hl Ho Hp). pose proof (weight_nonneg o r'). lia.
Qed.

Lemma open_asks_zero o runs run r :
  open_count o runs = 0 -> runs !! run = Some r -> run_pending r = o -> open_run r = false.
Proof.
  intros Hz Hl Hp. destruct (open_run r) eqn:Ho; [|done].
  pose proof (open_count_pos o run r runs Hl Ho Hp). lia.
Qed.

Lemma open_count_some o runs :
  0 < open_count o runs -> exists run r, runs !! run = Some r /\ open_run r = true /\ run_pending r = o.
Proof.
  induction runs as [|r runs IH]; cbn; [lia|]. intros H.
  destruct (decide (weight o r = 0)) as [Hw|Hw].
  - destruct IH as (run & r' & Hl & Ho); [lia|]. by exists (S run), r'.
  - exists 0%nat, r. unfold weight in Hw.
    destruct (open_run r) eqn:Ho; [|done]. cbn in Hw. case_bool_decide; [done|lia].
Qed.

(** *** A step that changes no ask's standing

    A reply changes the phase of a run that stays open, and the published generation of its object. *)

Definition same_ask (r r' : Run) : Prop :=
  open_run r' = open_run r /\ run_key r' = run_key r /\ run_fresh r' = run_fresh r /\
  run_freshGeneration r' = run_freshGeneration r /\ run_pending r' = run_pending r.

Definition same_object (p p' : SourcePending) : Prop :=
  sp_active p' = sp_active p /\ sp_plain p' = sp_plain p /\
  sp_publishedFreshGeneration p <= sp_publishedFreshGeneration p'.

Definition same_standing (s s' : Lists) : Prop :=
  co_sourcePending s' = co_sourcePending s /\ co_sourceGeneration s' = co_sourceGeneration s /\
  Forall2 same_object (co_heap s) (co_heap s') /\ Forall2 same_ask (co_runs s) (co_runs s').

Lemma open_count_same o runs runs' : Forall2 same_ask runs runs' -> open_count o runs' = open_count o runs.
Proof.
  induction 1 as [|r r' runs runs' (Ho & _ & _ & _ & Hp) _ IH]; cbn; [done|].
  unfold weight. by rewrite Ho, Hp, IH.
Qed.

Lemma same_standing_inv K s s' : same_standing s s' -> asks_inv K s -> asks_inv K s'.
Proof.
  intros (Hp & Hg & Hh & Hr) [H1 H2 H3 H4 H5 H6 H7 H8 H9 H10 H11].
  assert (Hback : forall run r', co_runs s' !! run = Some r' -> exists r, co_runs s !! run = Some r /\ same_ask r r').
  { intros run r' Hl. destruct (Forall2_lookup_r _ _ _ _ _ Hr Hl) as (r & ? & ?). by exists r. }
  assert (Hforth : forall run r, co_runs s !! run = Some r -> exists r', co_runs s' !! run = Some r' /\ same_ask r r').
  { intros run r Hl. destruct (Forall2_lookup_l _ _ _ _ _ Hr Hl) as (r' & ? & ?). by exists r'. }
  assert (Hobj : forall o p', co_heap s' !! o = Some p' -> exists p, co_heap s !! o = Some p /\ same_object p p').
  { intros o p' Hl. destruct (Forall2_lookup_r _ _ _ _ _ Hh Hl) as (p & ? & ?). by exists p. }
  split.
  - by rewrite Hp.
  - intros run r' Hl. destruct (Hback run r' Hl) as (r & Hl' & (_ & _ & _ & _ & ->)).
    destruct (H2 run r Hl') as [p Hp']. destruct (Forall2_lookup_l _ _ _ _ _ Hh Hp') as (p' & -> & _). eauto.
  - intros run r' Hl Ho. destruct (Hback run r' Hl) as (r & Hl' & (Ho' & Hk & _ & _ & ->)).
    rewrite Hp, Hk. apply (H3 run r Hl'). by rewrite <-Ho'.
  - intros key o HK Hl. rewrite Hp in Hl. destruct (H4 key o HK Hl) as (run & r & Hl' & Ho & Hk & Hpo).
    destruct (Hforth run r Hl') as (r' & Hl2 & (Ho' & Hk' & _ & _ & Hp')).
    exists run, r'. split; [done|]. by rewrite Ho', Hk', Hp'.
  - intros i ri j rj Hi Hj Heq.
    destruct (Hback i ri Hi) as (ri' & Hi' & (_ & -> & _ & _ & Hpi)).
    destruct (Hback j rj Hj) as (rj' & Hj' & (_ & -> & _ & _ & Hpj)).
    apply (H5 i ri' j rj' Hi' Hj'). congruence.
  - intros o p' Hl. destruct (Hobj o p' Hl) as (p & Hl' & (-> & _ & _)).
    rewrite (open_count_same o _ _ Hr). by apply H6.
  - intros o p' run Hl. destruct (Hobj o p' Hl) as (p & Hl' & (_ & -> & _)).
    rewrite (H7 o p run Hl'). split; intros (r & Hr1 & Hr2 & Hr3 & Hr4).
    + destruct (Hforth run r Hr1) as (r' & ? & (Ho' & _ & Hf' & _ & Hp')). exists r'.
      split; [done|]. rewrite Ho', Hf', Hp'. done.
    + destruct (Hback run r Hr1) as (r' & ? & (Ho' & _ & Hf' & _ & Hp')). exists r'.
      split; [done|]. rewrite <-Ho', <-Hf', <-Hp'. done.
  - intros o p' Hl. destruct (Hobj o p' Hl) as (p & Hl' & (_ & _ & Hle)).
    pose proof (H8 o p Hl'). lia.
  - intros run r' Hl. destruct (Hback run r' Hl) as (r & Hl' & (_ & _ & Hf & Hgen & _)).
    unfold generation_ok. rewrite Hf, Hgen, Hg. exact (H9 run r Hl').
  - intros i ri j rj Hi Hj Hlt Hfi Hfj.
    destruct (Hback i ri Hi) as (ri' & Hi' & (_ & _ & Hfi' & -> & _)).
    destruct (Hback j rj Hj) as (rj' & Hj' & (_ & _ & Hfj' & -> & _)).
    apply (H10 i ri' j rj' Hi' Hj' Hlt); congruence.
  - by rewrite Hg.
Qed.

(** *** Asking *)

Definition every_key (key : string) : Prop := True.

(** What an ask that starts finds, or makes, under its key. *)
Definition object_for (key : string) (o : nat) (p : SourcePending) (s : Lists) : Prop :=
  map_get key (co_sourcePending s) = Some o /\ co_heap s !! o = Some p /\
  forall run r, co_runs s !! run = Some r -> run_pending r = o -> run_key r = key.

Lemma open_count_absent o runs :
  (forall run r, runs !! run = Some r -> run_pending r <> o) -> open_count o runs = 0.
Proof.
  intros H. pose proof (open_count_nonneg o runs).
  destruct (decide (0 < open_count o runs)) as [Hpos|]; [|lia].
  destruct (open_count_some o runs Hpos) as (run & r & Hl & _ & Hp). by destruct (H run r Hl).
Qed.

Lemma pendingFor_found key o s :
  asks_inv every_key s -> map_get key (co_sourcePending s) = Some o ->
  exists p, object_for key o p s /\ plainOf key s = sp_plain p.
Proof.
  intros Hinv Hget. destruct (ai_live _ _ Hinv key o I Hget) as (run & r & Hl & Ho & Hk & Hp).
  destruct (ai_object _ _ Hinv run r Hl) as [p Hh]. rewrite Hp in Hh.
  exists p. split.
  - split; [done|]. split; [done|]. intros run' r' Hl' Hp'. rewrite <-Hk.
    apply (ai_key _ _ Hinv run' r' run r Hl' Hl). congruence.
  - unfold plainOf. by rewrite Hget, Hh.
Qed.

Lemma pendingFor_made key s :
  asks_inv every_key s -> map_get key (co_sourcePending s) = None ->
  let s' := (pendingFor key s).2 in
  asks_inv (fun k => k <> key) s' /\ object_for key (length (co_heap s)) (mkPending 0 0 None) s'.
Proof.
  intros Hinv Hget. unfold pendingFor. rewrite Hget. cbn [fst snd].
  assert (Hfresh : forall run r, co_runs s !! run = Some r -> run_pending r <> length (co_heap s)).
  { intros run r Hl Heq. destruct (ai_object _ _ Hinv run r Hl) as [p Hp%lookup_lt_Some]. lia. }
  assert (Hheap : forall o p, (co_heap s ++ [mkPending 0 0 None]) !! o = Some p ->
    co_heap s !! o = Some p \/ o = length (co_heap s) /\ p = mkPending 0 0 None).
  { intros o p [?|[? Hs]]%lookup_app_Some; [by left|right].
    apply list_lookup_singleton_Some in Hs as [? <-]. split; [lia|done]. }
  split; [split|]; cbn [co_sourcePending co_heap co_runs co_sourceGeneration with_heap with_pending].
  - apply map_wf_set, (ai_keys _ _ Hinv).
  - intros run r Hl. destruct (ai_object _ _ Hinv run r Hl) as [p Hp]. exists p. by apply lookup_app_l_Some.
  - intros run r Hl Ho. pose proof (ai_home _ _ Hinv run r Hl Ho) as Hh.
    rewrite map_get_set_ne; [done|]. intros Hk. rewrite Hk in Hh. congruence.
  - intros k o Hk Hl. rewrite map_get_set_ne in Hl by done. by apply (ai_live _ _ Hinv).
  - apply (ai_key _ _ Hinv).
  - intros o p [Ho|[-> ->]]%Hheap; [by apply (ai_active _ _ Hinv)|]. cbn.
    by rewrite (open_count_absent _ _ Hfresh).
  - intros o p run [Ho|[-> ->]]%Hheap; [by apply (ai_plain _ _ Hinv)|]. cbn. split; [done|].
    intros (r & Hl & _ & _ & Hp). by destruct (Hfresh run r Hl).
  - intros o p [Ho|[-> ->]]%Hheap; [by apply (ai_published _ _ Hinv o)|done].
  - apply (ai_generation _ _ Hinv).
  - apply (ai_order _ _ Hinv).
  - apply (ai_top _ _ Hinv).
  - split; [apply map_get_set_eq|]. split; [by apply list_lookup_middle|].
    intros run r Hl Hp. by destruct (Hfresh run r Hl).
Qed.

Lemma pendingFor_spec key s o s' :
  asks_inv every_key s -> pendingFor key s = (o, s') ->
  asks_inv (fun k => k <> key) s' /\ (exists p, object_for key o p s' /\ sp_plain p = plainOf key s) /\
  co_runs s' = co_runs s /\ co_sourceGeneration s' = co_sourceGeneration s /\ co_sourceCache s' = co_sourceCache s.
Proof.
  intros Hinv He. destruct (map_get key (co_sourcePending s)) as [o'|] eqn:Hget.
  - destruct (pendingFor_found key o' s Hinv Hget) as (p & Hobj & Hplain).
    unfold pendingFor in He. rewrite Hget in He. simplify_eq.
    split; [|by split; [exists p|]].
    destruct Hinv as [? ? ? Hlive]. split; eauto. intros k o' _. by apply Hlive.
  - pose proof (pendingFor_made key s Hinv Hget) as [Hi Hobj].
    unfold plainOf. rewrite Hget. unfold pendingFor in He, Hi, Hobj. rewrite Hget in He, Hi, Hobj. simplify_eq.
    cbn [snd] in *. split; [done|]. split; [eexists; split; [exact Hobj|done]|done].
Qed.

(** An ask that makes a request joins the object of its key. *)
Lemma startRun_inv title fresh early cached s :
  let key := sourceKey (contentKeyOf title) early in
  asks_inv every_key s -> (fresh = false -> plainOf key s = None) ->
  asks_inv every_key (startRun title fresh early cached s).2.
Proof.
  intros key Hinv Hplain. unfold startRun. fold key. destruct (pendingFor key s) as [o s1] eqn:He.
  destruct (pendingFor_spec key s o s1 Hinv He) as (H1 & (p & (Hmap & Hheap & Hkey) & Hp) & Hruns & _).
  rewrite <-Hp in Hplain. clear Hp He Hinv. cbn [snd].
  set (gen := if fresh then co_sourceGeneration s1 + 1 else co_sourceGeneration s1).
  set (r := mkRun title fresh early (if fresh then gen else 0) cached o Asking).
  assert (Hlook : forall run r', (co_runs s1 ++ [r]) !! run = Some r' ->
    co_runs s1 !! run = Some r' \/ run = length (co_runs s1) /\ r' = r).
  { intros run r' [?|[? Hs]]%lookup_app_Some; [by left|right].
    apply list_lookup_singleton_Some in Hs as [? <-]. split; [lia|done]. }
  assert (Hnew : (co_runs s1 ++ [r]) !! length (co_runs s1) = Some r) by by apply list_lookup_middle.
  assert (Hgen : co_sourceGeneration s1 <= gen) by (unfold gen; destruct fresh; lia).
  split; cbn [co_sourcePending co_heap co_runs co_sourceGeneration with_heap with_runs with_generation].
  - apply (ai_keys _ _ H1).
  - intros run r' [Hl|[-> ->]]%Hlook; rewrite alter_is_Some; [by apply (ai_object _ _ H1 run)|].
    cbn. by rewrite Hheap.
  - intros run r' [Hl|[-> ->]]%Hlook Ho; [by apply (ai_home _ _ H1 run)|done].
  - intros k o' _ Hl. destruct (decide (k = key)) as [->|Hne].
    + exists (length (co_runs s1)), r. rewrite Hl in Hmap. by simplify_eq.
    + destruct (ai_live _ _ H1 k o' Hne Hl) as (run & r' & Hl' & Hrest). exists run, r'.
      split; [by apply lookup_app_l_Some|done].
  - intros i ri j rj [Hi|[-> ->]]%Hlook [Hj|[-> ->]]%Hlook Heq; [by apply (ai_key _ _ H1 i ri j rj)| | |done].
    + apply (Hkey i ri Hi Heq).
    + symmetry. by apply (Hkey j rj Hj).
  - intros o' p' Hl. rewrite open_count_app. cbn. unfold weight. cbn [open_run run_phase run_pending r andb].
    apply alter_Some in Hl as [(-> & p0 & Hl & ->)|[Hne Hl]]; rewrite <-(ai_active _ _ H1 _ _ Hl); cbn.
    + rewrite bool_decide_true by done. lia.
    + rewrite bool_decide_false by done. lia.
  - intros o' p' run Hl. apply alter_Some in Hl as [(-> & p0 & Hl & ->)|[Hne Hl]].
    + rewrite Hheap in Hl. simplify_eq. pose proof (ai_plain _ _ H1 o p0 run Hheap) as Hold.
      cbn [sp_plain]. split.
      * destruct fresh; [|intros [= <-]; by exists r].
        intros (r' & Hr & Hrest)%Hold. exists r'. split; [by apply lookup_app_l_Some|done].
      * intros (r' & [Hr|[-> ->]]%Hlook & Ho & Hf & Hpo); [|cbn in Hf; by subst fresh].
        assert (sp_plain p0 = Some run) by (apply Hold; eauto).
        destruct fresh; [done|]. rewrite Hplain in * by done. done.
    + rewrite (ai_plain _ _ H1 o' p' run Hl). split; intros (r' & Hr & Hrest).
      * exists r'. split; [by apply lookup_app_l_Some|done].
      * apply Hlook in Hr as [Hr|[-> ->]]; [by exists r'|]. destruct Hrest as (_ & _ & Hp). by destruct Hne.
  - intros o' p' Hl.
    apply alter_Some in Hl as [(-> & p0 & Hl & ->)|[Hne Hl]]; apply (ai_published _ _ H1 _ _ Hl).
  - intros run r' [Hl|[-> ->]]%Hlook.
    + pose proof (ai_generation _ _ H1 run r' Hl) as Hg. unfold generation_ok in *. destruct (run_fresh r'); lia.
    + unfold generation_ok, r, gen. cbn. pose proof (ai_top _ _ H1). destruct fresh; lia.
  - intros i ri j rj [Hi|[-> ->]]%Hlook [Hj|[-> ->]]%Hlook Hlt Hfi Hfj; [by apply (ai_order _ _ H1 i ri j rj)| | |lia].
    + pose proof (ai_generation _ _ H1 i ri Hi) as Hg. unfold generation_ok in Hg. rewrite Hfi in Hg.
      cbn in Hfj. unfold r, gen. cbn. rewrite Hfj. lia.
    + apply lookup_lt_Some in Hj. lia.
  - pose proof (ai_top _ _ H1). lia.
Qed.

(** *** The end of an ask *)

(** [s] after the ask [run] ended: its runs, with this one released. *)
Definition released (run : nat) (at_ : Z) (answer : res DownloadSourceSnapshot) (s : Lists) : list Run :=
  alter (with_phase (Released at_ answer)) run (co_runs s).

Definition left_object (run : nat) (p : SourcePending) : SourcePending :=
  mkPending (sp_active p - 1) (sp_publishedFreshGeneration p)
    (if decide (sp_plain p = Some run) then None else sp_plain p).

Lemma finally_spec run r s :
  asks_inv every_key s -> co_runs s !! run = Some r -> open_run r = true ->
  sourcesForTitle_finally run r s =
  with_pending (if open_count (run_pending r) (co_runs s) =? 1 then map_delete (run_key r) (co_sourcePending s)
                else co_sourcePending s)
    (with_heap (alter (left_object run) (run_pending r) (co_heap s)) s).
Proof.
  intros Hinv Hl Ho. unfold sourcesForTitle_finally.
  destruct (ai_object _ _ Hinv run r Hl) as [p Hp].
  cbn [co_sourcePending with_heap]. rewrite list_lookup_alter_eq, Hp. cbn [fmap option_fmap option_map].
  rewrite (ai_home _ _ Hinv run r Hl Ho), bool_decide_true by done. rewrite andb_true_r.
  cbn [sp_active]. rewrite (ai_active _ _ Hinv _ _ Hp).
  destruct (Z.eqb_spec (open_count (run_pending r) (co_runs s)) 1) as [->|Hne]; [done|].
  destruct (Z.eqb_spec (open_count (run_pending r) (co_runs s) - 1) 0); [lia|]. by destruct s.
Qed.

Section Finally.
Context (run : nat) (r : Run) (at_ : Z) (answer : res DownloadSourceSnapshot) (s : Lists).
Context (Hinv : asks_inv every_key s) (Hl : co_runs s !! run = Some r) (Ho : open_run r = true).

Let runs' := released run at_ answer s.

Lemma released_lookup j r' :
  runs' !! j = Some r' ->
  (j = run /\ open_run r' = false /\ run_key r' = run_key r /\ run_pending r' = run_pending r /\
   run_fresh r' = run_fresh r /\ run_freshGeneration r' = run_freshGeneration r) \/
  (j <> run /\ co_runs s !! j = Some r').
Proof. intros [(-> & y & Hy & ->)|?]%alter_Some; [left; simplify_eq; done|by right]. Qed.

Lemma released_old j r' :
  runs' !! j = Some r' ->
  exists r0, co_runs s !! j = Some r0 /\ run_key r' = run_key r0 /\ run_pending r' = run_pending r0 /\
    run_fresh r' = run_fresh r0 /\ run_freshGeneration r' = run_freshGeneration r0.
Proof. intros [(-> & y & Hy & ->)|[_ ?]]%alter_Some; [by exists y|by exists r']. Qed.

Lemma released_count o : open_count o runs' = open_count o (co_runs s) - weight o r.
Proof.
  unfold runs', released. rewrite (open_count_alter _ _ _ r) by done. unfold weight at 2. cbn. lia.
Qed.

Lemma released_kept j r' : j <> run -> co_runs s !! j = Some r' -> runs' !! j = Some r'.
Proof. intros Hne Hj. unfold runs', released. by rewrite list_lookup_alter_ne. Qed.

(** The object goes from its key exactly when no open ask is left on it. *)
Lemma finally_gone :
  (open_count (run_pending r) (co_runs s) =? 1) = true <-> open_count (run_pending r) runs' = 0.
Proof. rewrite released_count, weight_one by done. rewrite Z.eqb_eq. lia. Qed.

Lemma finally_inv :
  asks_inv every_key (with_runs runs' (sourcesForTitle_finally run r s)).
Proof.
  rewrite finally_spec by done.
  split; cbn [co_sourcePending co_heap co_runs co_sourceGeneration with_heap with_runs with_pending].
  - destruct (_ =? 1); [apply map_wf_delete|]; apply (ai_keys _ _ Hinv).
  - intros j r' (r0 & Hj & _ & -> & _)%released_old. rewrite alter_is_Some. by apply (ai_object _ _ Hinv j).
  - intros j r' Hj Hopen. destruct (released_lookup j r' Hj) as [(_ & Hc & _)|[Hne Hj']]; [congruence|].
    pose proof (ai_home _ _ Hinv j r' Hj' Hopen) as Hhome.
    destruct (_ =? 1) eqn:Hgone; [|done]. apply finally_gone in Hgone.
    rewrite map_get_delete_ne; [done|]. intros Hk. rewrite Hk, (ai_home _ _ Hinv run r Hl Ho) in Hhome. simplify_eq.
    pose proof (open_count_pos (run_pending r) j r' runs' Hj Hopen ltac:(congruence)). lia.
  - intros key o _ Hget.
    assert (Hget0 : map_get key (co_sourcePending s) = Some o).
    { destruct (_ =? 1); [|done]. rewrite map_get_delete in Hget. by case_decide. }
    destruct (ai_live _ _ Hinv key o I Hget0) as (j & r' & Hj & Hopen & Hk & Hp).
    destruct (decide (j = run)) as [->|Hne]; [|exists j, r'; split; [by apply released_kept|done]].
    simplify_eq.
    destruct (open_count_some (run_pending r) runs') as (j & r' & Hj' & Hopen' & Hp').
    { pose proof (open_count_nonneg (run_pending r) runs').
      destruct (decide (open_count (run_pending r) runs' = 0)) as [Hz|]; [|lia].
      apply finally_gone in Hz. rewrite Hz, map_get_delete_eq in Hget. done. }
    exists j, r'. split; [done|]. split; [done|]. split; [|done].
    destruct (released_old j r' Hj') as (r0 & Hr0 & -> & Hp0 & _).
    apply (ai_key _ _ Hinv j r0 run r Hr0 Hl). congruence.
  - intros i ri j rj (ri0 & Hi & -> & -> & _)%released_old (rj0 & Hj & -> & -> & _)%released_old.
    apply (ai_key _ _ Hinv i ri0 j rj0 Hi Hj).
  - intros o p Hheap. rewrite released_count.
    apply alter_Some in Hheap as [(-> & p0 & Hp & ->)|[Hne Hp]]; rewrite <-(ai_active _ _ Hinv _ _ Hp); cbn.
    + by rewrite weight_one.
    + unfold weight. rewrite (bool_decide_false (run_pending r = o)) by done. rewrite andb_false_r. lia.
  - intros o p j Hheap. apply alter_Some in Hheap as [(-> & p0 & Hp & ->)|[Hne Hp]];
      pose proof (ai_plain _ _ Hinv _ _ j Hp) as Hold; cbn [sp_plain left_object].
    + split.
      * case_decide as Hd; [done|]. intros Hj. pose proof Hj as (r' & Hr & Hrest)%Hold.
        exists r'. split; [|done]. apply released_kept; [|done]. intros ->. by apply Hd.
      * intros (r' & Hr & Hopen & Hrest). destruct (released_lookup j r' Hr) as [(_ & Hc & _)|[Hj Hr']]; [congruence|].
        assert (sp_plain p0 = Some j) as Hs by (apply Hold; eauto).
        rewrite decide_False by congruence. done.
    + rewrite Hold. split; intros (r' & Hr & Hopen & Hf & Hpo).
      * exists r'. split; [|done]. apply released_kept; [|done]. intros ->. by simplify_eq.
      * destruct (released_lookup j r' Hr) as [(_ & Hc & _)|[Hj Hr']]; [congruence|]. by exists r'.
  - intros o p Hheap. apply alter_Some in Hheap as [(-> & p0 & Hp & ->)|[Hne Hp]]; apply (ai_published _ _ Hinv _ _ Hp).
  - intros j r' (r0 & Hj & _ & _ & Hf & Hg)%released_old. unfold generation_ok. rewrite Hf, Hg.
    apply (ai_generation _ _ Hinv j r0 Hj).
  - intros i ri j rj (ri0 & Hi & _ & _ & -> & ->)%released_old (rj0 & Hj & _ & _ & -> & ->)%released_old.
    apply (ai_order _ _ Hinv i ri0 j rj0 Hi Hj).
  - apply (ai_top _ _ Hinv).
Qed.
End Finally.

(** *** A reply *)

Lemma Forall2_alter_l {A} (R : A -> A -> Prop) (f : A -> A) i (l : list A) :
  (forall x, R x x) -> (forall x, l !! i = Some x -> R x (f x)) -> Forall2 R l (alter f i l).
Proof.
  intros Hrefl Hf. apply Forall2_same_length_lookup. split; [by rewrite length_alter|].
  intros j x y Hx Hy. apply alter_Some in Hy as [(-> & z & Hz & ->)|[_ Hy]]; simplify_eq; auto.
Qed.

#[local] Instance same_ask_preorder : PreOrder same_ask.
Proof.
  split; [done|]. intros r r' r'' (? & ? & ? & ? & ?) (? & ? & ? & ? & ?). unfold same_ask. intuition congruence.
Qed.

#[local] Instance same_object_preorder : PreOrder same_object.
Proof.
  split; [intros p; split; [done|]; split; [done|]; lia|]. intros p p' p'' (? & ? & ?) (? & ? & ?).
  split; [congruence|]. split; [congruence|]. lia.
Qed.

#[local] Instance same_standing_preorder : PreOrder same_standing.
Proof.
  split; [done|]. intros s1 s2 s3 (? & ? & Hh & Hr) (? & ? & Hh' & Hr'). split; [congruence|]. split; [congruence|].
  split; [by etrans; [exact Hh|]|by etrans; [exact Hr|]].
Qed.

Lemma set_phase_standing run r phase s :
  co_runs s !! run = Some r -> open_run r = true -> open_run (with_phase phase r) = true ->
  same_standing s (set_phase run phase s).
Proof.
  intros Hl Ho Hp. split; [done|]. split; [done|]. split; cbn.
  - done.
  - apply Forall2_alter_l; [done|]. intros x Hx. simplify_eq.
    split; [congruence|done].
Qed.

(** A reply that is not fenced raises the published generation of its object, or leaves it. *)
Lemma publish_standing r now snapshot s :
  fenced r (default (mkPending 0 0 None) (co_heap s !! run_pending r)) = false ->
  same_standing s (publish r now snapshot s).
Proof.
  intros Hf. unfold publish, fenced in *. destruct (run_fresh r).
  - split; [done|]. split; [done|]. split; cbn; [|done].
    apply Forall2_alter_l; [done|]. intros p Hp. rewrite Hp in Hf. cbn in Hf.
    apply Z.ltb_ge in Hf. split; [done|]. split; [done|]. cbn. lia.
  - done.
Qed.

Section Steps.
Context `{RankPolicy}.

Lemma then_standing r now preferred reply s :
  same_standing s (sourcesForTitle_then r now preferred reply s).2.
Proof.
  unfold sourcesForTitle_then.
  destruct (ordered preferred (run_title r) (sn_sources reply)); [|done].
  case_decide; [done|].
  destruct (fenced _ _) eqn:Hf; [done|]. by apply publish_standing.
Qed.

Lemma then_runs r now preferred reply s : co_runs (sourcesForTitle_then r now preferred reply s).2 = co_runs s.
Proof.
  unfold sourcesForTitle_then.
  destruct (ordered preferred (run_title r) (sn_sources reply)); [|done].
  case_decide; [done|]. destruct (fenced _ _); [done|]. unfold publish. by destruct (run_fresh r).
Qed.

Lemma answerRun_standing run r now preferred reply s :
  co_runs s !! run = Some r -> run_phase r = Asking -> same_standing s (answerRun run r now preferred reply s).
Proof.
  intros Hl Hp. unfold answerRun. pose proof (then_standing r now preferred reply s) as Hst.
  pose proof (then_runs r now preferred reply s) as Hr.
  destruct (sourcesForTitle_then r now preferred reply s) as [answer s']. cbn [snd] in Hst, Hr.
  etrans; [exact Hst|]. apply (set_phase_standing run r); [by rewrite Hr| |done].
  unfold open_run. by rewrite Hp.
Qed.

Lemma ask_cases title refresh fresh early now s (P : Asked * Lists -> Prop) :
  let key := sourceKey (contentKeyOf title) early in
  let cached := map_get key (co_sourceCache s) in
  (forall entry, cached = Some entry -> refresh = false -> fresh = false -> now < ce_expiresAt entry ->
     P (Cached (ce_snapshot entry), s)) ->
  (forall run, fresh = false -> plainOf key s = Some run -> P (Joined run, s)) ->
  ((fresh = false -> plainOf key s = None) ->
     P (Started (startRun title fresh early cached s).1, (startRun title fresh early cached s).2)) ->
  P (sourcesForTitle title refresh fresh early now s).
Proof.
  intros key cached Hc Hj Hs. unfold sourcesForTitle. fold key. fold cached.
  assert (Hstart : P match (if fresh then None else plainOf key s) with
    | Some run => (Joined run, s)
    | None => let '(run, s) := startRun title fresh early cached s in (Started run, s)
    end).
  { destruct (if fresh then None else plainOf key s) as [run|] eqn:Hp.
    - destruct fresh; [done|]. by apply Hj.
    - destruct (startRun title fresh early cached s) as [run s'] eqn:He. cbn [fst snd] in Hs. apply Hs. by intros ->. }
  destruct cached as [entry|] eqn:Hcached; [|done].
  destruct refresh, fresh; cbn [negb andb]; try done.
  destruct (Z.ltb_spec now (ce_expiresAt entry)); [by apply Hc|done].
Qed.

Lemma step_inv s s' : step s s' -> asks_inv every_key s -> asks_inv every_key s'.
Proof.
  intros [title refresh fresh early now|run r now preferred reply Hl Hp|run r now m Hl Hp|run r at_ answer Hl Hp] Hinv.
  - apply (ask_cases title refresh fresh early now s (fun p => asks_inv every_key p.2)); [done..|].
    by apply startRun_inv.
  - eapply same_standing_inv; [by apply answerRun_standing|done].
  - eapply same_standing_inv; [apply (set_phase_standing run r)|done]; [done| |done]. unfold open_run. by rewrite Hp.
  - pose proof (finally_inv run r at_ answer s Hinv Hl) as Hf. unfold open_run in Hf. rewrite Hp in Hf.
    specialize (Hf eq_refl). revert Hf. unfold set_phase, released. unfold sourcesForTitle_finally.
    destruct (alter _ _ _ !! _); [|done]. by destruct (_ && _).
Qed.

Lemma newLists_inv : asks_inv every_key newLists.
Proof. split; intros *; cbn; try done; try (intros; lia); apply NoDup_nil_2. Qed.

Lemma reachable_inv s : reachable s -> asks_inv every_key s.
Proof.
  unfold reachable. intros Hs. revert s Hs. apply rtc_ind_r; [apply newLists_inv|].
  intros s s' _ Hst. by apply step_inv.
Qed.
End Steps.

(** ** What an execution keeps

    Pending objects and requests are never forgotten, a published generation never goes back, and a request keeps what
    its closure captured. *)

(** When and with what the request of a run was answered. *)
Definition run_answer (r : Run) : option (Z * res DownloadSourceSnapshot) :=
  match run_phase r with
  | Asking => None
  | Answered at_ answer | Released at_ answer => Some (at_, answer)
  end.

Definition same_request (r r' : Run) : Prop :=
  run_title r' = run_title r /\ run_fresh r' = run_fresh r /\ run_early r' = run_early r /\
  run_freshGeneration r' = run_freshGeneration r /\ run_pending r' = run_pending r /\
  (forall answer, run_answer r = Some answer -> run_answer r' = Some answer).

Definition grows (s s' : Lists) : Prop :=
  (forall o p, co_heap s !! o = Some p ->
     exists p', co_heap s' !! o = Some p' /\ sp_publishedFreshGeneration p <= sp_publishedFreshGeneration p') /\
  (forall run r, co_runs s !! run = Some r -> exists r', co_runs s' !! run = Some r' /\ same_request r r').

#[local] Instance grows_preorder : PreOrder grows.
Proof.
  split; [intros s; split; [intros o p ?; exists p; split; [done|lia]|intros run r ?; by exists r]|].
  intros s1 s2 s3 [Hh Hr] [Hh' Hr']. split.
  - intros o p Hp. destruct (Hh o p Hp) as (p' & Hp' & ?). destruct (Hh' o p' Hp') as (p'' & ? & ?).
    exists p''. split; [done|lia].
  - intros run r Hl. destruct (Hr run r Hl) as (r' & Hl' & H1). destruct (Hr' run r' Hl') as (r'' & Hl'' & H2).
    exists r''. split; [done|]. unfold same_request in *. intuition (eauto; congruence).
Qed.

Lemma grows_same s s' : co_heap s' = co_heap s -> co_runs s' = co_runs s -> grows s s'.
Proof.
  intros Hh Hr. split; [intros o p ?; exists p; split; [by rewrite Hh|lia]|]. intros run r ?. exists r. by rewrite Hr.
Qed.

Lemma alter_heap_grows (f : SourcePending -> SourcePending) o s :
  (forall p, co_heap s !! o = Some p -> sp_publishedFreshGeneration p <= sp_publishedFreshGeneration (f p)) ->
  grows s (with_heap (alter f o (co_heap s)) s).
Proof.
  intros Hf. split; [|intros run r ?; by exists r]. intros o' p Hp. cbn [co_heap with_heap].
  rewrite list_lookup_alter, Hp. case_decide as Hd; [subst o'; rewrite Hp; cbn; eauto|exists p; split; [done|lia]].
Qed.

Lemma set_phase_grows run phase s :
  (forall r answer, co_runs s !! run = Some r -> run_answer r = Some answer ->
     run_answer (with_phase phase r) = Some answer) ->
  grows s (set_phase run phase s).
Proof.
  intros Hkept. split; [intros o p ?; exists p; split; [done|lia]|]. intros run' r Hl. cbn [co_runs set_phase with_runs].
  rewrite list_lookup_alter, Hl. case_decide as Hd; [subst run'; rewrite Hl|exists r; done].
  cbn. eexists; split; [done|]. repeat split; [done..|]. intros answer. by apply Hkept.
Qed.

Lemma startRun_grows title fresh early cached s : grows s (startRun title fresh early cached s).2.
Proof.
  unfold startRun. destruct (pendingFor _ s) as [o s1] eqn:He. cbn [snd].
  assert (H1 : grows s s1).
  { unfold pendingFor in He. destruct (map_get _ _); simplify_eq; [done|].
    split; [|intros run r ?; by exists r]. intros o p Hp. exists p. split; [by apply lookup_app_l_Some|lia]. }
  etrans; [exact H1|]. etrans; [apply (alter_heap_grows (fun p =>
    mkPending (sp_active p + 1) (sp_publishedFreshGeneration p) (if fresh then sp_plain p else Some (length (co_runs s1)))) o);
    intros p _; cbn; lia|].
  split; [intros o' p ?; exists p; split; [done|lia]|]. intros run r Hl. exists r.
  split; [by apply lookup_app_l_Some|done].
Qed.

Section Executions.
Context `{RankPolicy}.

Lemma then_grows r now preferred reply s : grows s (sourcesForTitle_then r now preferred reply s).2.
Proof.
  unfold sourcesForTitle_then.
  destruct (ordered preferred (run_title r) (sn_sources reply)); [|done]. case_decide; [done|].
  destruct (fenced _ _) eqn:Hf; [done|]. unfold publish, fenced in *. destruct (run_fresh r); [|by apply grows_same].
  cbn [snd]. etrans; [apply (alter_heap_grows (fun p => mkPending (sp_active p) (run_freshGeneration r) (sp_plain p))
    (run_pending r))|by apply grows_same].
  intros p Hp. rewrite Hp in Hf. cbn in *. apply Z.ltb_ge in Hf. lia.
Qed.

Lemma asking_answer run r s phase :
  co_runs s !! run = Some r -> run_phase r = Asking ->
  forall r0 answer, co_runs s !! run = Some r0 -> run_answer r0 = Some answer ->
    run_answer (with_phase phase r0) = Some answer.
Proof. intros Hl Hp r0 answer Hl0 Ha. simplify_eq. unfold run_answer in Ha. by rewrite Hp in Ha. Qed.

Lemma answerRun_grows run r now preferred reply s :
  co_runs s !! run = Some r -> run_phase r = Asking -> grows s (answerRun run r now preferred reply s).
Proof.
  intros Hl Hp. unfold answerRun. pose proof (then_grows r now preferred reply s) as Hg.
  pose proof (then_runs r now preferred reply s) as Hr.
  destruct (sourcesForTitle_then r now preferred reply s) as [answer s']. cbn [snd] in Hg, Hr.
  etrans; [exact Hg|]. apply set_phase_grows, (asking_answer run r); [by rewrite Hr|done].
Qed.

Lemma finally_runs run r s : co_runs (sourcesForTitle_finally run r s) = co_runs s.
Proof. unfold sourcesForTitle_finally. destruct (alter _ _ _ !! _); [|done]. by destruct (_ && _). Qed.

Lemma finally_cache run r s : co_sourceCache (sourcesForTitle_finally run r s) = co_sourceCache s.
Proof. unfold sourcesForTitle_finally. destruct (alter _ _ _ !! _); [|done]. by destruct (_ && _). Qed.

Lemma step_grows s s' : step s s' -> grows s s'.
Proof.
  intros [title refresh fresh early now|run r now preferred reply Hl Hp|run r now m Hl Hp|run r at_ answer Hl Hp].
  - apply (ask_cases title refresh fresh early now s (fun p => grows s p.2)); [done..|]. intros _. apply startRun_grows.
  - by apply answerRun_grows.
  - by apply set_phase_grows, (asking_answer run r).
  - etrans; [|apply set_phase_grows; rewrite finally_runs; intros r0 a Hl0 Ha; simplify_eq;
      unfold run_answer in Ha |- *; rewrite Hp in Ha; exact Ha].
    unfold sourcesForTitle_finally. etrans; [apply (alter_heap_grows (left_object run) (run_pending r)); intros p _; cbn; lia|].
    destruct (alter _ _ _ !! _); [|done]. destruct (_ && _); by apply grows_same.
Qed.

Lemma steps_grow s s' : rtc step s s' -> grows s s'.
Proof. induction 1 as [|s1 s2 s3 Hst _ IH]; [done|]. etrans; [by apply step_grows|done]. Qed.

Lemma rtc_inv s s' : asks_inv every_key s -> rtc step s s' -> asks_inv every_key s'.
Proof. induction 2 as [|s1 s2 s3 Hst _ IH]; [done|]. apply IH. by eapply step_inv. Qed.

(** A reply that arrives when its object has published past it leaves the cache alone. *)
Lemma fenced_reply run r now preferred reply s p :
  co_heap s !! run_pending r = Some p ->
  (if run_fresh r then run_freshGeneration r < sp_publishedFreshGeneration p else sp_publishedFreshGeneration p <> 0) ->
  co_sourceCache (answerRun run r now preferred reply s) = co_sourceCache s.
Proof.
  intros Hp Hlt. unfold answerRun, sourcesForTitle_then.
  destruct (ordered preferred (run_title r) (sn_sources reply)); [|done]. case_decide; [done|].
  assert (fenced r (default (mkPending 0 0 None) (co_heap s !! run_pending r)) = true) as ->; [|done].
  rewrite Hp. cbn. unfold fenced. destruct (run_fresh r); [by apply Z.ltb_lt|].
  by apply negb_true_iff, Z.eqb_neq.
Qed.

(** An admitted rebuild leaves its object published at its own generation or past it. *)
Lemma rebuild_publishes run r now preferred reply s sources p :
  co_heap s !! run_pending r = Some p -> run_fresh r = true ->
  sn_fresh reply <> Some Limited -> ordered preferred (run_title r) (sn_sources reply) = Ok sources ->
  exists p', co_heap (answerRun run r now preferred reply s) !! run_pending r = Some p' /\
    run_freshGeneration r <= sp_publishedFreshGeneration p'.
Proof.
  intros Hp Hf Hl Ho. unfold answerRun, sourcesForTitle_then. rewrite Ho, decide_False by done.
  rewrite Hp. cbn [default from_option id]. unfold fenced. rewrite Hf.
  destruct (Z.ltb_spec (run_freshGeneration r) (sp_publishedFreshGeneration p)) as [Hlt|Hge]; cbn.
  - exists p. split; [done|lia].
  - unfold publish. rewrite Hf. cbn. rewrite list_lookup_alter_eq, Hp. cbn. eexists. split; [done|]. cbn. lia.
Qed.

End Executions.

(** ** The cache *)

Lemma map_delete_absent {V} k (m : jsmap string V) : (k ∉ map_keys m) -> map_delete k m = m.
Proof.
  intros Hk. rewrite map_delete_filter. apply filter_all. intros [k' v] Hin Heq. cbn in Heq. subst k'.
  apply Hk. apply list_elem_of_fmap. by exists (k, v).
Qed.

Lemma evict_drop fuel cache :
  map_wf cache -> (length cache <= fuel)%nat ->
  evict fuel cache = drop (length cache - DOWNLOAD_SOURCE_SNAPSHOTS) cache.
Proof.
  revert cache. induction fuel as [|fuel IH]; intros [|[k e] cache] Hwf Hlen; [done|cbn in Hlen; lia|done|].
  cbn [evict]. destruct (Nat.ltb_spec DOWNLOAD_SOURCE_SNAPSHOTS (length ((k, e) :: cache))) as [Hlt|Hge].
  - unfold map_wf in Hwf. cbn in Hwf. apply NoDup_cons in Hwf as [Hk Hwf].
    cbn [map_delete]. rewrite decide_True, map_delete_absent by done. cbn [length] in Hlen, Hlt |- *.
    rewrite IH by (done || lia). rewrite (Nat.sub_succ_l DOWNLOAD_SOURCE_SNAPSHOTS) by (unfold DOWNLOAD_SOURCE_SNAPSHOTS in *; lia).
    done.
  - by rewrite (proj2 (Nat.sub_0_le _ _) Hge).
Qed.

Lemma keep_app key now snapshot cache :
  map_wf cache ->
  let cache' := map_delete key cache ++ [(key, mkEntry (now + DOWNLOAD_SOURCE_SNAPSHOT_MS) (retained snapshot))] in
  map_wf cache' /\ keep key now snapshot cache = drop (length cache' - DOWNLOAD_SOURCE_SNAPSHOTS) cache'.
Proof.
  intros Hwf cache'. unfold keep.
  assert (Hset : map_set key (mkEntry (now + DOWNLOAD_SOURCE_SNAPSHOT_MS) (retained snapshot)) (map_delete key cache) = cache').
  { apply map_set_fresh. rewrite elem_of_map_keys_delete. by intros [? _]. }
  assert (Hwf' : map_wf cache') by (rewrite <-Hset; by apply map_wf_set, map_wf_delete).
  split; [done|]. rewrite Hset. by apply evict_drop.
Qed.

Lemma keep_spec key now snapshot cache :
  map_wf cache ->
  let entry := mkEntry (now + DOWNLOAD_SOURCE_SNAPSHOT_MS) (retained snapshot) in
  map_wf (keep key now snapshot cache) /\
  (length (keep key now snapshot cache) <= DOWNLOAD_SOURCE_SNAPSHOTS)%nat /\
  map_get key (keep key now snapshot cache) = Some entry /\
  (forall k e, (k, e) ∈ keep key now snapshot cache -> k = key /\ e = entry \/ (k, e) ∈ cache).
Proof.
  intros Hwf entry. destruct (keep_app key now snapshot cache Hwf) as [Hwf' ->]. fold entry in Hwf' |- *.
  set (cache' := map_delete key cache ++ [(key, entry)]) in *.
  assert (Hwf2 : forall n, map_wf (drop n cache')).
  { intros n. unfold map_wf, map_keys in *. rewrite fmap_drop. eapply sublist_NoDup; [exact Hwf'|apply sublist_drop]. }
  split; [apply Hwf2|]. split; [|split].
  - rewrite length_drop. lia.
  - apply map_elem_get; [apply Hwf2|]. unfold cache'. rewrite drop_app_le.
    + apply elem_of_app. right. by apply list_elem_of_singleton.
    + rewrite length_app. unfold DOWNLOAD_SOURCE_SNAPSHOTS. cbn. lia.
  - intros k e Hin. apply (subseteq_drop _ cache') in Hin. apply elem_of_app in Hin as [Hin|Hin].
    + right. rewrite map_delete_filter in Hin. by apply list_elem_of_filter in Hin as [_ ?].
    + left. apply list_elem_of_singleton in Hin. by simplify_eq.
Qed.

(** Every kept list is the reply of a request for that list, kept when it arrived and without its admission. *)
Definition kept_answer (s : Lists) (key : string) (entry : CacheEntry) : Prop :=
  exists run r at_ snapshot,
    co_runs s !! run = Some r /\ run_key r = key /\ run_answer r = Some (at_, Ok snapshot) /\
    sn_fresh snapshot <> Some Limited /\
    entry = mkEntry (at_ + DOWNLOAD_SOURCE_SNAPSHOT_MS) (retained snapshot).

(** A published generation is that of an answered fresh request. *)
Definition published_answer (s : Lists) (o : nat) (p : SourcePending) : Prop :=
  sp_publishedFreshGeneration p = 0 \/
  exists run r, co_runs s !! run = Some r /\ run_pending r = o /\ run_fresh r = true /\
    run_freshGeneration r = sp_publishedFreshGeneration p /\ is_Some (run_answer r).

Record cache_inv (s : Lists) : Prop := {
  ci_wf : map_wf (co_sourceCache s);
  ci_size : (length (co_sourceCache s) <= DOWNLOAD_SOURCE_SNAPSHOTS)%nat;
  ci_kept : forall key entry, (key, entry) ∈ co_sourceCache s -> kept_answer s key entry;
  ci_published : forall o p, co_heap s !! o = Some p -> published_answer s o p
}.

Lemma same_request_key r r' : same_request r r' -> run_key r' = run_key r.
Proof. intros (Ht & _ & He & _). unfold run_key. by rewrite Ht, He. Qed.

Lemma kept_answer_grows s s' key entry : grows s s' -> kept_answer s key entry -> kept_answer s' key entry.
Proof.
  intros [_ Hr] (run & r & at_ & snapshot & Hl & Hk & Ha & Hrest).
  destruct (Hr run r Hl) as (r' & Hl' & Hsame). exists run, r', at_, snapshot.
  split; [done|]. split; [by rewrite (same_request_key _ _ Hsame)|]. split; [by apply Hsame|done].
Qed.

Lemma published_answer_grows s s' o p p' :
  grows s s' -> sp_publishedFreshGeneration p' = sp_publishedFreshGeneration p ->
  published_answer s o p -> published_answer s' o p'.
Proof.
  intros [_ Hr] Heq [Hz|(run & r & Hl & Hp & Hf & Hg & Ha)]; [left; congruence|right].
  destruct (Hr run r Hl) as (r' & Hl' & (_ & Hf' & _ & Hg' & Hp' & Ha')). exists run, r'.
  split; [done|]. split; [congruence|]. split; [congruence|]. split; [congruence|].
  destruct Ha as [answer Ha]. exists answer. by apply Ha'.
Qed.

(** A step that changes neither the cache nor a published generation. *)
Lemma cache_inv_grows s s' :
  grows s s' -> co_sourceCache s' = co_sourceCache s ->
  (forall o p', co_heap s' !! o = Some p' -> sp_publishedFreshGeneration p' = 0 \/
     exists p, co_heap s !! o = Some p /\ sp_publishedFreshGeneration p' = sp_publishedFreshGeneration p) ->
  cache_inv s -> cache_inv s'.
Proof.
  intros Hg Hc Hh [H1 H2 H3 H4]. split; rewrite ?Hc; [done|done| |].
  - intros key entry Hin. by apply (kept_answer_grows s), H3.
  - intros o p' Hp'. destruct (Hh o p' Hp') as [Hz|(p & Hp & Heq)]; [by left|].
    eapply published_answer_grows; [done|done|by apply H4].
Qed.

Lemma alter_published (f : SourcePending -> SourcePending) (o : nat) (heap : list SourcePending) :
  (forall p, sp_publishedFreshGeneration (f p) = sp_publishedFreshGeneration p) ->
  forall o' p', alter f o heap !! o' = Some p' ->
    exists p, heap !! o' = Some p /\ sp_publishedFreshGeneration p' = sp_publishedFreshGeneration p.
Proof. intros Hf o' p' [(-> & p & Hp & ->)|[_ Hp]]%alter_Some; eauto. Qed.

Lemma startRun_cache title fresh early cached s : cache_inv s -> cache_inv (startRun title fresh early cached s).2.
Proof.
  apply cache_inv_grows; [apply startRun_grows| |].
  - unfold startRun, pendingFor. by destruct (map_get _ _).
  - unfold startRun, pendingFor. destruct (map_get _ _); cbn; intros o' p' Hp'.
    + right. revert Hp'. by apply alter_published.
    + apply alter_published in Hp' as (p & Hp & ->); [|done].
      apply lookup_app_Some in Hp as [Hp|[_ Hp]]; [right; eauto|].
      apply list_lookup_singleton_Some in Hp as [_ <-]. by left.
Qed.

Section Cache.
Context `{RankPolicy}.

(** A reply either leaves the cache and every published generation, or publishes. *)
Lemma then_cases r now preferred reply s (P : res DownloadSourceSnapshot * Lists -> Prop) :
  (forall answer, P (answer, s)) ->
  (forall sources,
     let snapshot := mkSnapshot sources (sn_answer reply) (sn_fresh reply) (sn_failure reply) in
     ordered preferred (run_title r) (sn_sources reply) = Ok sources -> sn_fresh reply <> Some Limited ->
     fenced r (default (mkPending 0 0 None) (co_heap s !! run_pending r)) = false ->
     P (Ok snapshot, publish r now snapshot s)) ->
  P (sourcesForTitle_then r now preferred reply s).
Proof.
  intros Hsame Hpub. unfold sourcesForTitle_then. destruct (ordered preferred (run_title r) (sn_sources reply)); [|done].
  case_decide; [done|]. destruct (fenced _ _) eqn:Hf; [done|]. by apply Hpub.
Qed.

Lemma answerRun_cache run r now preferred reply s :
  co_runs s !! run = Some r -> run_phase r = Asking -> cache_inv s -> cache_inv (answerRun run r now preferred reply s).
Proof.
  intros Hl Hp Hinv. pose proof (answerRun_grows run r now preferred reply s Hl Hp) as Hg.
  unfold answerRun in *.
  revert Hg. apply (then_cases r now preferred reply s (fun p =>
    grows s (let '(answer, s) := p in set_phase run (Answered now answer) s) ->
    cache_inv (let '(answer, s) := p in set_phase run (Answered now answer) s))).
  - intros answer Hg. revert Hinv. apply cache_inv_grows; [done|done|]. cbn. eauto.
  - intros sources snapshot Hord Hlim Hf Hg. destruct Hinv as [H1 H2 H3 H4].
    assert (Hrun : exists r', co_runs (set_phase run (Answered now (Ok snapshot)) (publish r now snapshot s)) !! run = Some r' /\
      run_key r' = run_key r /\ run_answer r' = Some (now, Ok snapshot) /\ same_request r r').
    { destruct (proj2 Hg run r Hl) as (r' & Hl' & Hsame). exists r'. split; [done|].
      split; [by apply same_request_key|]. split; [|done]. cbn in Hl'. unfold publish in Hl'.
      destruct (run_fresh r); cbn in Hl'; rewrite list_lookup_alter_eq, Hl in Hl'; cbn in Hl'; by simplify_eq. }
    destruct Hrun as (r' & Hl' & Hk & Ha & Hsame).
    assert (Hcache : co_sourceCache (publish r now snapshot s) = keep (run_key r) now snapshot (co_sourceCache s)).
    { unfold publish. by destruct (run_fresh r). }
    destruct (keep_spec (run_key r) now snapshot (co_sourceCache s) H1) as (Hwf & Hsize & _ & Hin).
    split; cbn [co_sourceCache set_phase with_runs]; rewrite ?Hcache; [done|done| |].
    + intros key entry [[-> ->]|Hold]%Hin; [|by apply (kept_answer_grows s), H3].
      by exists run, r', now, snapshot.
    + intros o p Hheap. cbn [co_heap set_phase with_runs] in Hheap. unfold publish in Hheap.
      destruct (run_fresh r) eqn:Hfr; cbn in Hheap;
        [|eapply published_answer_grows; [exact Hg|reflexivity|by apply H4]].
      apply alter_Some in Hheap as [(-> & p0 & Hp0 & ->)|[_ Hp0]];
        [|eapply published_answer_grows; [exact Hg|reflexivity|by apply H4]].
      right. exists run, r'. destruct Hsame as (_ & Hf' & _ & Hg' & Hpend & _).
      split; [done|]. split; [done|]. split; [congruence|]. split; [done|]. by rewrite Ha.
Qed.

Lemma step_cache s s' : step s s' -> cache_inv s -> cache_inv s'.
Proof.
  intros Hst Hinv. pose proof (step_grows s s' Hst) as Hg. revert Hg.
  destruct Hst as [title refresh fresh early now|run r now preferred reply Hl Hp|run r now m Hl Hp|run r at_ answer Hl Hp];
    intros Hg.
  - apply (ask_cases title refresh fresh early now s (fun p => cache_inv p.2)); [done..|].
    intros _. by apply startRun_cache.
  - by apply answerRun_cache.
  - revert Hinv. apply cache_inv_grows; [done|done|]. cbn. eauto.
  - revert Hinv. apply cache_inv_grows; [done|by cbn; rewrite finally_cache|]. cbn. intros o p' Hp'. right.
    apply (alter_published (left_object run) (run_pending r) (co_heap s) (fun _ => eq_refl)). revert Hp'.
    unfold sourcesForTitle_finally. destruct (alter _ _ _ !! _); [|done]. by destruct (_ && _).
Qed.

Lemma reachable_cache s : reachable s -> cache_inv s.
Proof.
  intros Hs. revert s Hs. apply rtc_ind_r; [|intros s s' _ Hst; by apply step_cache].
  split; cbn; [apply NoDup_nil_2|lia|by intros key entry ?%not_elem_of_nil|done].
Qed.
End Cache.

(** ** A list's key names its content and whether it is a viewer's *)

Definition same_content (a b : DownloadTitle) : Prop :=
  dt_mediaType a = dt_mediaType b /\ dt_mediaId a = dt_mediaId b /\
  default (-1) (dt_season a) = default (-1) (dt_season b) /\ default (-1) (dt_episode a) = default (-1) (dt_episode b).

Lemma Z_str_inj a b : Z_str a = Z_str b -> a = b.
Proof. intros Heq. apply (f_equal str_Z) in Heq. rewrite !str_Z_str in Heq. by simplify_eq. Qed.

Lemma contentKeyOf_inj a b : contentKeyOf a = contentKeyOf b -> same_content a b.
Proof.
  unfold contentKeyOf, contentKey, same_content.
  assert (Hm : forall t, has_char ":" (mediaType_str t) = false) by by intros [].
  assert (Hz : forall z, has_char ":" (Z_str z) = false) by (intros z; by apply Z_str_no_char).
  intros (Ht & (Hi & (Hs & He)%sep_inj)%sep_inj)%sep_inj; try done.
  split; [by destruct (dt_mediaType a), (dt_mediaType b)|]. split; [by apply Z_str_inj|].
  split; by apply Z_str_inj.
Qed.

Lemma contentKeyOf_line title : has_char "010" (contentKeyOf title) = false.
Proof.
  unfold contentKeyOf, contentKey. rewrite !has_char_app, !Z_str_no_char by done.
  by destruct (dt_mediaType title).
Qed.

Lemma sourceKey_inj a early b early' :
  sourceKey (contentKeyOf a) early = sourceKey (contentKeyOf b) early' -> same_content a b /\ early = early'.
Proof.
  intros Heq. assert (Hlines : forall t e, has_char "010" (sourceKey (contentKeyOf t) e) = e).
  { intros t [|]; unfold sourceKey; rewrite ?has_char_app, contentKeyOf_line; done. }
  assert (early = early') as <- by by rewrite <-(Hlines a early), Heq, Hlines.
  split; [|done]. apply contentKeyOf_inj. destruct early; [|done]. unfold sourceKey in Heq.
  apply (sep_inj "010" _ "early" _ "early") in Heq as [? _]; [done|apply contentKeyOf_line..].
Qed.

(** ** Theorems *)

Section Theorems.
Context `{RankPolicy}.

(** The cache never holds more than 64 lists, one per list key; and a list served from it, which happens only to a
    plain ask, is the answer of a request for the same content and of the same kind (a viewer's early list, or a complete
    one) that came less than thirty seconds before, without its admission marker and never a refused rebuild's. *)
Lemma sources_served s :
  reachable s ->
  map_wf (co_sourceCache s) /\ (length (co_sourceCache s) <= 64)%nat /\
  (forall title refresh fresh early now snapshot s',
     sourcesForTitle title refresh fresh early now s = (Cached snapshot, s') ->
     refresh = false /\ fresh = false /\ s' = s /\
     exists run r at_ answer,
       co_runs s !! run = Some r /\ same_content (run_title r) title /\ run_early r = early /\
       run_answer r = Some (at_, Ok answer) /\ sn_fresh answer <> Some Limited /\
       now < at_ + 30000 /\ snapshot = retained answer).
Proof.
  intros Hs. pose proof (reachable_cache s Hs) as Hinv. split; [apply Hinv|]. split; [apply Hinv|].
  intros title refresh fresh early now snapshot s'.
  apply (ask_cases title refresh fresh early now s (fun p => p = (Cached snapshot, s') -> _)); [|done..].
  intros entry Hget -> -> Hnow Heq. simplify_eq. do 3 (split; [done|]).
  apply map_get_elem in Hget. destruct (ci_kept _ Hinv _ _ Hget) as (run & r & at_ & answer & Hl & Hk & Ha & Hlim & ->).
  destruct (sourceKey_inj _ _ _ _ Hk) as [Hc He]. by exists run, r, at_, answer.
Qed.

(** An admitted rebuild is what its list shows from then on, for thirty seconds, unless a fresh ask made after it
    was answered first: neither a plain reply, nor an older rebuild, nor a refused newer one suppresses it. *)
Lemma sources_rebuild_kept s f rf now preferred reply sources :
  reachable s -> co_runs s !! f = Some rf -> run_phase rf = Asking -> run_fresh rf = true ->
  sn_fresh reply <> Some Limited -> ordered preferred (run_title rf) (sn_sources reply) = Ok sources ->
  (forall j rj at_ answer, (f < j)%nat -> co_runs s !! j = Some rj -> run_fresh rj = true -> run_key rj = run_key rf ->
     run_answer rj <> Some (at_, answer)) ->
  map_get (run_key rf) (co_sourceCache (answerRun f rf now preferred reply s)) =
  Some (mkEntry (now + 30000) (mkSnapshot sources (sn_answer reply) None (sn_failure reply))).
Proof.
  intros Hs Hf Hfa Hff Hlim Hord Hnewer.
  pose proof (reachable_inv s Hs) as Hinv. pose proof (reachable_cache s Hs) as Hcache.
  destruct (ai_object _ _ Hinv f rf Hf) as [p Hp].
  assert (Hnot : fenced rf p = false).
  { unfold fenced. rewrite Hff. apply Z.ltb_ge.
    destruct (ci_published _ Hcache _ _ Hp) as [->|(j & rj & Hj & Hpj & Hfj & <- & [[at_ answer] Ha])].
    { pose proof (ai_generation _ _ Hinv f rf Hf) as Hg. unfold generation_ok in Hg. rewrite Hff in Hg. lia. }
    destruct (Nat.lt_trichotomy f j) as [Hlt|[->|Hgt]].
    - destruct (Hnewer j rj at_ answer Hlt Hj Hfj); [|done]. by apply (ai_key _ _ Hinv j rj f rf).
    - simplify_eq. lia.
    - pose proof (ai_order _ _ Hinv j rj f rf Hj Hf Hgt Hfj Hff). lia. }
  unfold answerRun, sourcesForTitle_then. rewrite Hord, decide_False by done. rewrite Hp. cbn [default from_option id].
  rewrite Hnot. unfold publish. rewrite Hff. cbn [co_sourceCache set_phase with_runs with_cache with_heap].
  by apply keep_spec, Hcache.
Qed.

(** C35: Once an admitted rebuild of a list is answered, no request for that list that was in flight beside it and is
    older (a plain one, or a fresh ask made before it) can change any cached list when its reply arrives, however many
    asks, replies, failures and endings happen in between. *)
Theorem sources_fence s f rf i ri now preferred reply sources s' ri' now' preferred' reply' :
  reachable s ->
  co_runs s !! f = Some rf -> run_phase rf = Asking -> run_fresh rf = true ->
  co_runs s !! i = Some ri -> run_phase ri = Asking -> run_key ri = run_key rf ->
  run_fresh ri = false \/ (i < f)%nat ->
  sn_fresh reply <> Some Limited -> ordered preferred (run_title rf) (sn_sources reply) = Ok sources ->
  rtc step (answerRun f rf now preferred reply s) s' ->
  co_runs s' !! i = Some ri' -> run_phase ri' = Asking ->
  co_sourceCache (answerRun i ri' now' preferred' reply' s') = co_sourceCache s'.
Proof.
  intros Hs Hf Hfa Hff Hi Hia Hk Hold Hlim Hord Hst Hi' _.
  pose proof (reachable_inv s Hs) as Hinv.
  assert (Hsame : run_pending ri = run_pending rf).
  { pose proof (ai_home _ _ Hinv f rf Hf) as H1. pose proof (ai_home _ _ Hinv i ri Hi) as H2.
    unfold open_run in H1, H2. rewrite Hfa in H1. rewrite Hia in H2. specialize (H1 eq_refl). specialize (H2 eq_refl).
    rewrite Hk in H2. congruence. }
  destruct (ai_object _ _ Hinv f rf Hf) as [p Hp].
  destruct (rebuild_publishes f rf now preferred reply s sources p Hp Hff Hlim Hord) as (p1 & Hp1 & Hle1).
  destruct (steps_grow _ _ Hst) as [Hheap _]. destruct (Hheap _ _ Hp1) as (p2 & Hp2 & Hle2).
  assert (Hg : grows s s').
  { etrans; [exact (answerRun_grows f rf now preferred reply s Hf Hfa)|by apply steps_grow]. }
  destruct (proj2 Hg i ri Hi) as (r & Hr & (_ & Hfr & _ & Hgen & Hpend & _)). simplify_eq.
  apply (fenced_reply i ri' now' preferred' reply' s' p2); [congruence|].
  pose proof (ai_generation _ _ Hinv f rf Hf) as Hgf. unfold generation_ok in Hgf. rewrite Hff in Hgf.
  rewrite Hfr, Hgen. destruct (run_fresh ri) eqn:Hfi; [|lia].
  destruct Hold as [?|Hlt]; [done|]. pose proof (ai_order _ _ Hinv i ri f rf Hi Hf Hlt Hfi Hff). lia.
Qed.

(** At any moment at most one plain request is in flight per list, a plain ask that finds it joins it, and the
    pending table holds exactly the lists with an ask in flight, so nothing is left behind when every ask has ended. *)
Lemma sources_single_flight s :
  reachable s ->
  (forall i ri j rj, co_runs s !! i = Some ri -> co_runs s !! j = Some rj ->
     open_run ri = true -> open_run rj = true -> run_fresh ri = false -> run_fresh rj = false ->
     run_key ri = run_key rj -> i = j) /\
  (forall key, key ∈ map_keys (co_sourcePending s) <->
     exists i r, co_runs s !! i = Some r /\ open_run r = true /\ run_key r = key) /\
  (forall title refresh early now i r, co_runs s !! i = Some r -> open_run r = true -> run_fresh r = false ->
     run_key r = sourceKey (contentKeyOf title) early ->
     (exists snapshot, sourcesForTitle title refresh false early now s = (Cached snapshot, s)) \/
     sourcesForTitle title refresh false early now s = (Joined i, s)).
Proof.
  intros Hs. pose proof (reachable_inv s Hs) as Hinv.
  assert (Hplain : forall i r, co_runs s !! i = Some r -> open_run r = true -> run_fresh r = false ->
    plainOf (run_key r) s = Some i).
  { intros i r Hi Ho Hf. unfold plainOf. rewrite (ai_home _ _ Hinv i r Hi Ho).
    destruct (ai_object _ _ Hinv i r Hi) as [p Hp]. rewrite Hp. cbn. apply (ai_plain _ _ Hinv _ p i Hp). by exists r. }
  split; [|split].
  - intros i ri j rj Hi Hj Hoi Hoj Hfi Hfj Hk. pose proof (Hplain i ri Hi Hoi Hfi) as H1.
    pose proof (Hplain j rj Hj Hoj Hfj) as H2. rewrite Hk in H1. congruence.
  - intros key. rewrite <-map_get_is_Some. split.
    + intros [o Ho]. destruct (ai_live _ _ Hinv key o I Ho) as (i & r & ? & ? & ? & _). eauto.
    + intros (i & r & Hi & Ho & <-). rewrite (ai_home _ _ Hinv i r Hi Ho). eauto.
  - intros title refresh early now i r Hi Ho Hf Hk.
    apply (ask_cases title refresh false early now s (fun p => (exists snapshot, p = (Cached snapshot, s)) \/ p = (Joined i, s))).
    + eauto.
    + intros run _ Hrun. rewrite <-Hk, (Hplain i r Hi Ho Hf) in Hrun. simplify_eq. by right.
    + intros Hnone. specialize (Hnone eq_refl). rewrite <-Hk, (Hplain i r Hi Ho Hf) in Hnone. done.
Qed.
End Theorems.

(** ** An execution *)

Module Film.
#[local] Instance last_rank : RankPolicy := fun releases _ _ => Ok (Some (Z.of_nat (length releases) - 1)).

Definition film : DownloadTitle :=
  mkDownloadTitle Movie 603 (Some "tt0133093") None None "The Matrix" None None (Some "en") None None.

Definition release (name : string) : TitleSource :=
  mkSource (name +:+ ".mkv") None ("/scout/p/" +:+ name) name (Some true) None (Some 1000) None [] [] true name [].

Definition listing (fresh : option FreshAnswer) (names : list string) : DownloadSourceSnapshot :=
  mkSnapshot (Some (release <$> names)) (Some (mkAnswer KLive 0 None None)) fresh None.

(** A plain ask, and a fresh one beside it. *)
Definition asked : Lists :=
  (sourcesForTitle film false true false 10 (sourcesForTitle film false false false 0 newLists).2).2.

Definition run_of (i : nat) (s : Lists) : Run :=
  default (mkRun film false false 0 None 0 Asking) (co_runs s !! i).

(** The rebuild is answered first. *)
Definition rebuilt : Lists := answerRun 1 (run_of 1 asked) 100 None (listing (Some Rebuilt) ["new"; "old"]) asked.

Lemma asked_reachable : reachable asked.
Proof.
  eapply rtc_l; [exact (step_ask newLists film false false false 0)|].
  eapply rtc_l; [exact (step_ask _ film false true false 10)|]. apply rtc_refl.
Qed.

Lemma rebuilt_step : step asked rebuilt.
Proof. by apply (step_reply asked 1). Qed.

Lemma rebuilt_reachable : reachable rebuilt.
Proof. eapply rtc_r; [apply asked_reachable|apply rebuilt_step]. Qed.

Lemma sources_fence_witness :
  co_sourceCache (answerRun 0 (run_of 0 rebuilt) 200 None (listing None ["stale"]) rebuilt) =
  [("movie:603:-1:-1", mkEntry 30100 (listing None ["old"; "new"]))].
Proof.
  pose proof (sources_fence asked 1 (run_of 1 asked) 0 (run_of 0 asked) 100 None (listing (Some Rebuilt) ["new"; "old"])
    (Some (release <$> ["old"; "new"])) rebuilt (run_of 0 rebuilt) 200 None (listing None ["stale"])
    asked_reachable ltac:(vm_compute; reflexivity) ltac:(vm_compute; reflexivity) ltac:(vm_compute; reflexivity)
    ltac:(vm_compute; reflexivity) ltac:(vm_compute; reflexivity) ltac:(vm_compute; reflexivity)
    ltac:(left; vm_compute; reflexivity) ltac:(discriminate) ltac:(vm_compute; reflexivity) ltac:(apply rtc_refl)
    ltac:(vm_compute; reflexivity) ltac:(vm_compute; reflexivity)) as Heq.
  rewrite Heq. vm_compute. reflexivity.
Defined.

Lemma sources_rebuild_kept_witness :
  map_get "movie:603:-1:-1" (co_sourceCache rebuilt) = Some (mkEntry 30100 (listing None ["old"; "new"])).
Proof.
  pose proof (sources_rebuild_kept asked 1 (run_of 1 asked) 100 None (listing (Some Rebuilt) ["new"; "old"])
    (Some (release <$> ["old"; "new"])) asked_reachable ltac:(vm_compute; reflexivity) ltac:(vm_compute; reflexivity)
    ltac:(vm_compute; reflexivity) ltac:(discriminate) ltac:(vm_compute; reflexivity)) as Heq.
  apply Heq. intros [|[|j]] rj at_ answer Hlt Hj; [lia|lia|]. vm_compute in Hj. discriminate.
Defined.

Lemma sources_single_flight_witness :
  map_keys (co_sourcePending asked) = ["movie:603:-1:-1"] /\
  (sourcesForTitle film true false false 20 asked).1 = Joined 0.
Proof.
  split; [vm_compute; reflexivity|].
  destruct (proj2 (proj2 (sources_single_flight asked asked_reachable)) film true false 20 0%nat (run_of 0 asked)
    ltac:(vm_compute; reflexivity) ltac:(vm_compute; reflexivity) ltac:(vm_compute; reflexivity)
    ltac:(vm_compute; reflexivity)) as [[snapshot Hc]|Hj].
  - apply (f_equal fst) in Hc. vm_compute in Hc. discriminate.
  - by rewrite Hj.
Defined.

Lemma sources_served_witness :
  (sourcesForTitle film false false false 30099 rebuilt).1 = Cached (listing None ["old"; "new"]) /\
  (length (co_sourceCache rebuilt) <= 64)%nat.
Proof.
  split; [vm_compute; reflexivity|]. apply (sources_served rebuilt rebuilt_reachable).
Defined.
End Film.
