(* ===== verification/LogState.v ===== *)
(** * The library log's state ([web/src/lib/log.ts])

    The replicated log of a library as a browser holds it, the calls its work makes (den-edge, WebCrypto, the vault, the
    clock), and programs over both. The log is one mutable object that code outside a piece of work changes too, at the
    awaits of that work, so a program reads the log again after every call. *)

From S2P Require Import Prelude JsMap JsText Json Wire LibraryV4 ProfileKeys ResetJournal.
Open Scope Z_scope.

(** ** Data *)

Record Entry : Type := mkLogEntry { en_seq : Z; en_row : Row }.

(** A household control document this browser reads and never writes; [kt_rest] are its approvals. *)
Record KidTitleApprovalsDocument : Type := mkKidApprovals { kt_kid : string; kt_rest : list (string * json) }.

(** What a stored row is, as [openEntry] tells. *)
Inductive Opened : Type :=
| OpenedRow (row : Row)
| OpenedDirectory (document : ProfileDirectoryDocument)
| OpenedApprovals (document : KidTitleApprovalsDocument)
| OpenedInvalidDirectory
| OpenedUnknown (value : json)
| OpenedNewerFraming
| OpenedUnreadable (reason : string) (value : option json).

Record RawEntry : Type := mkRaw { raw_k : string; raw_seq : Z; raw_v : string }.

Record Page : Type := mkPage {
  pg_generation : option string;
  pg_entries : list RawEntry;
  pg_head : Z;
  pg_more : bool
}.

(** A conflict's value; [VOmitted] where den-edge left it out of a long answer. *)
Inductive ConflictValue : Type := VNull | VOmitted | VSealed (v : string).

Record Conflict : Type := mkConflict { cf_k : string; cf_seq : Z; cf_v : ConflictValue }.

Record Batch : Type := mkBatch { bt_applied : list (string * Z); bt_conflicts : list Conflict }.

(** A body as [json()] parses it: [BodyError] is any other JSON, with its [error] member where that is text. *)
Inductive Body : Type :=
| BodyBatch (batch : Batch)
| BodyPage (page : Page)
| BodyError (code : option string).

(** A response: its status, the headers read of it, and its body, which may fail to arrive or to parse. *)
Record Response : Type := mkResponse {
  rs_status : Z;
  rs_wireMin : option Z;
  rs_generation : option string;
  rs_retryAfterMs : option Z;
  rs_body : res Body
}.

Record EdgeWrite : Type := mkEdgeWrite { ew_k : string; ew_base : Z; ew_v : string }.

(** A request with the generation and wire its headers carry. *)
Inductive Request : Type :=
| BatchRequest (generation : string) (wire : Z) (writes : list EdgeWrite)
| MemberRequest (generation : string) (wire : Z)
| ChangesRequest (generation : string) (wire : Z) (since limit : Z).

Record Outcome : Type := mkOutcome { oc_refused : bool; oc_applied : bool; oc_merged : bool }.

Inductive WorkKind : Type := KRestore | KBulk | KOne | KRows | KOps.
#[global] Instance WorkKind_eq_dec : EqDecision WorkKind.
Proof. solve_decision. Defined.

(** A piece of work kept in this browser, opened. *)
Record KeptWork : Type := mkWork {
  kw_rows : list Row;
  kw_kind : WorkKind;
  kw_ops : list Op;
  kw_riders : list SettingsRow;
  kw_generation : option string
}.

(** What the fact store is given of an entry read. *)
Record FactEntry : Type := mkFactEntry { fe_k : string; fe_seq : Z; fe_value : string; fe_row : option Row }.

(** ** The log *)

(** The rows this browser holds, what den-edge is known to hold, and where the log was read to. *)
Record Held : Type := mkHeld {
  lg_entries : jsmap string Entry;
  lg_acknowledged : jsmap string Entry;
  lg_unkept : jsmap string (option string);
  lg_dirty : bool;
  lg_head : Z;
  lg_generation : option string;
  lg_writeGeneration : option string;
  lg_projected : Z;
  lg_unreported : bool;
  lg_pending : jsmap string KeptWork;
  lg_recoveryRows : option (list Row)
}.

(** What this build may read and write, and the household control documents. *)
Record Control : Type := mkControl {
  lg_wireMin : Z;
  lg_upgradeRequired : option Z;
  lg_unreadable : jsmap string string;
  lg_newerFraming : list string;
  lg_newerDocuments : list string;
  lg_preV4Backup : bool;
  lg_profileDirectorySeq : Z;
  lg_profileDirectoryEntry : option (Z * ProfileDirectoryDocument);
  lg_kidApprovalEntries : jsmap string (Z * KidTitleApprovalsDocument);
  lg_readCurrentGeneration : bool;
  lg_generationChanges : Z
}.

(** How this browser stands with den-edge. *)
Record Standing : Type := mkStanding {
  lg_memberRegistered : bool;
  lg_registering : bool;
  lg_credential : bool;
  lg_moved : bool;
  lg_refused : bool;
  lg_refusedAt : Z;
  lg_refusal : option string;
  lg_migrationLockedAt : Z;
  lg_throttledUntil : Z
}.

(** A library log. The fields of its three parts are read and set through the log ([lg_], [set_]); [lg_outcome] is the
    outcome object of the work on the lane. *)
Record Log : Type := mkLog { lg_held : Held; lg_control : Control; lg_standing : Standing; lg_outcome : Outcome }.

Coercion lg_held : Log >-> Held.
Coercion lg_control : Log >-> Control.
Coercion lg_standing : Log >-> Standing.

Definition set_entries (x : jsmap string Entry) (s : Log) : Log :=
  mkLog (let g := lg_held s in mkHeld x (lg_acknowledged g) (lg_unkept g) (lg_dirty g) (lg_head g)
    (lg_generation g) (lg_writeGeneration g) (lg_projected g) (lg_unreported g) (lg_pending g) (lg_recoveryRows
    g)) (lg_control s) (lg_standing s) (lg_outcome s).
Definition set_acknowledged (x : jsmap string Entry) (s : Log) : Log :=
  mkLog (let g := lg_held s in mkHeld (lg_entries g) x (lg_unkept g) (lg_dirty g) (lg_head g) (lg_generation g)
    (lg_writeGeneration g) (lg_projected g) (lg_unreported g) (lg_pending g) (lg_recoveryRows g)) (lg_control s)
    (lg_standing s) (lg_outcome s).
Definition set_unkept (x : jsmap string (option string)) (s : Log) : Log :=
  mkLog (let g := lg_held s in mkHeld (lg_entries g) (lg_acknowledged g) x (lg_dirty g) (lg_head g)
    (lg_generation g) (lg_writeGeneration g) (lg_projected g) (lg_unreported g) (lg_pending g) (lg_recoveryRows
    g)) (lg_control s) (lg_standing s) (lg_outcome s).
Definition set_dirty (x : bool) (s : Log) : Log :=
  mkLog (let g := lg_held s in mkHeld (lg_entries g) (lg_acknowledged g) (lg_unkept g) x (lg_head g)
    (lg_generation g) (lg_writeGeneration g) (lg_projected g) (lg_unreported g) (lg_pending g) (lg_recoveryRows
    g)) (lg_control s) (lg_standing s) (lg_outcome s).
Definition set_head (x : Z) (s : Log) : Log :=
  mkLog (let g := lg_held s in mkHeld (lg_entries g) (lg_acknowledged g) (lg_unkept g) (lg_dirty g) x
    (lg_generation g) (lg_writeGeneration g) (lg_projected g) (lg_unreported g) (lg_pending g) (lg_recoveryRows
    g)) (lg_control s) (lg_standing s) (lg_outcome s).
Definition set_generation (x : option string) (s : Log) : Log :=
  mkLog (let g := lg_held s in mkHeld (lg_entries g) (lg_acknowledged g) (lg_unkept g) (lg_dirty g) (lg_head g)
    x (lg_writeGeneration g) (lg_projected g) (lg_unreported g) (lg_pending g) (lg_recoveryRows g)) (lg_control
    s) (lg_standing s) (lg_outcome s).
Definition set_writeGeneration (x : option string) (s : Log) : Log :=
  mkLog (let g := lg_held s in mkHeld (lg_entries g) (lg_acknowledged g) (lg_unkept g) (lg_dirty g) (lg_head g)
    (lg_generation g) x (lg_projected g) (lg_unreported g) (lg_pending g) (lg_recoveryRows g)) (lg_control s)
    (lg_standing s) (lg_outcome s).
Definition set_projected (x : Z) (s : Log) : Log :=
  mkLog (let g := lg_held s in mkHeld (lg_entries g) (lg_acknowledged g) (lg_unkept g) (lg_dirty g) (lg_head g)
    (lg_generation g) (lg_writeGeneration g) x (lg_unreported g) (lg_pending g) (lg_recoveryRows g)) (lg_control
    s) (lg_standing s) (lg_outcome s).
Definition set_unreported (x : bool) (s : Log) : Log :=
  mkLog (let g := lg_held s in mkHeld (lg_entries g) (lg_acknowledged g) (lg_unkept g) (lg_dirty g) (lg_head g)
    (lg_generation g) (lg_writeGeneration g) (lg_projected g) x (lg_pending g) (lg_recoveryRows g)) (lg_control
    s) (lg_standing s) (lg_outcome s).
Definition set_pending (x : jsmap string KeptWork) (s : Log) : Log :=
  mkLog (let g := lg_held s in mkHeld (lg_entries g) (lg_acknowledged g) (lg_unkept g) (lg_dirty g) (lg_head g)
    (lg_generation g) (lg_writeGeneration g) (lg_projected g) (lg_unreported g) x (lg_recoveryRows g))
    (lg_control s) (lg_standing s) (lg_outcome s).
Definition set_recoveryRows (x : option (list Row)) (s : Log) : Log :=
  mkLog (let g := lg_held s in mkHeld (lg_entries g) (lg_acknowledged g) (lg_unkept g) (lg_dirty g) (lg_head g)
    (lg_generation g) (lg_writeGeneration g) (lg_projected g) (lg_unreported g) (lg_pending g) x) (lg_control s)
    (lg_standing s) (lg_outcome s).
Definition set_wireMin (x : Z) (s : Log) : Log :=
  mkLog (lg_held s) (let g := lg_control s in mkControl x (lg_upgradeRequired g) (lg_unreadable g)
    (lg_newerFraming g) (lg_newerDocuments g) (lg_preV4Backup g) (lg_profileDirectorySeq g)
    (lg_profileDirectoryEntry g) (lg_kidApprovalEntries g) (lg_readCurrentGeneration g) (lg_generationChanges
    g)) (lg_standing s) (lg_outcome s).
Definition set_upgradeRequired (x : option Z) (s : Log) : Log :=
  mkLog (lg_held s) (let g := lg_control s in mkControl (lg_wireMin g) x (lg_unreadable g) (lg_newerFraming g)
    (lg_newerDocuments g) (lg_preV4Backup g) (lg_profileDirectorySeq g) (lg_profileDirectoryEntry g)
    (lg_kidApprovalEntries g) (lg_readCurrentGeneration g) (lg_generationChanges g)) (lg_standing s) (lg_outcome
    s).
Definition set_unreadable (x : jsmap string string) (s : Log) : Log :=
  mkLog (lg_held s) (let g := lg_control s in mkControl (lg_wireMin g) (lg_upgradeRequired g) x (lg_newerFraming
    g) (lg_newerDocuments g) (lg_preV4Backup g) (lg_profileDirectorySeq g) (lg_profileDirectoryEntry g)
    (lg_kidApprovalEntries g) (lg_readCurrentGeneration g) (lg_generationChanges g)) (lg_standing s) (lg_outcome
    s).
Definition set_newerFraming (x : list string) (s : Log) : Log :=
  mkLog (lg_held s) (let g := lg_control s in mkControl (lg_wireMin g) (lg_upgradeRequired g) (lg_unreadable g)
    x (lg_newerDocuments g) (lg_preV4Backup g) (lg_profileDirectorySeq g) (lg_profileDirectoryEntry g)
    (lg_kidApprovalEntries g) (lg_readCurrentGeneration g) (lg_generationChanges g)) (lg_standing s) (lg_outcome
    s).
Definition set_newerDocuments (x : list string) (s : Log) : Log :=
  mkLog (lg_held s) (let g := lg_control s in mkControl (lg_wireMin g) (lg_upgradeRequired g) (lg_unreadable g)
    (lg_newerFraming g) x (lg_preV4Backup g) (lg_profileDirectorySeq g) (lg_profileDirectoryEntry g)
    (lg_kidApprovalEntries g) (lg_readCurrentGeneration g) (lg_generationChanges g)) (lg_standing s) (lg_outcome
    s).
Definition set_preV4Backup (x : bool) (s : Log) : Log :=
  mkLog (lg_held s) (let g := lg_control s in mkControl (lg_wireMin g) (lg_upgradeRequired g) (lg_unreadable g)
    (lg_newerFraming g) (lg_newerDocuments g) x (lg_profileDirectorySeq g) (lg_profileDirectoryEntry g)
    (lg_kidApprovalEntries g) (lg_readCurrentGeneration g) (lg_generationChanges g)) (lg_standing s) (lg_outcome
    s).
Definition set_profileDirectorySeq (x : Z) (s : Log) : Log :=
  mkLog (lg_held s) (let g := lg_control s in mkControl (lg_wireMin g) (lg_upgradeRequired g) (lg_unreadable g)
    (lg_newerFraming g) (lg_newerDocuments g) (lg_preV4Backup g) x (lg_profileDirectoryEntry g)
    (lg_kidApprovalEntries g) (lg_readCurrentGeneration g) (lg_generationChanges g)) (lg_standing s) (lg_outcome
    s).
Definition set_profileDirectoryEntry (x : option (Z * ProfileDirectoryDocument)) (s : Log) : Log :=
  mkLog (lg_held s) (let g := lg_control s in mkControl (lg_wireMin g) (lg_upgradeRequired g) (lg_unreadable g)
    (lg_newerFraming g) (lg_newerDocuments g) (lg_preV4Backup g) (lg_profileDirectorySeq g) x
    (lg_kidApprovalEntries g) (lg_readCurrentGeneration g) (lg_generationChanges g)) (lg_standing s) (lg_outcome
    s).
Definition set_kidApprovalEntries (x : jsmap string (Z * KidTitleApprovalsDocument)) (s : Log) : Log :=
  mkLog (lg_held s) (let g := lg_control s in mkControl (lg_wireMin g) (lg_upgradeRequired g) (lg_unreadable g)
    (lg_newerFraming g) (lg_newerDocuments g) (lg_preV4Backup g) (lg_profileDirectorySeq g)
    (lg_profileDirectoryEntry g) x (lg_readCurrentGeneration g) (lg_generationChanges g)) (lg_standing s)
    (lg_outcome s).
Definition set_readCurrentGeneration (x : bool) (s : Log) : Log :=
  mkLog (lg_held s) (let g := lg_control s in mkControl (lg_wireMin g) (lg_upgradeRequired g) (lg_unreadable g)
    (lg_newerFraming g) (lg_newerDocuments g) (lg_preV4Backup g) (lg_profileDirectorySeq g)
    (lg_profileDirectoryEntry g) (lg_kidApprovalEntries g) x (lg_generationChanges g)) (lg_standing s)
    (lg_outcome s).
Definition set_generationChanges (x : Z) (s : Log) : Log :=
  mkLog (lg_held s) (let g := lg_control s in mkControl (lg_wireMin g) (lg_upgradeRequired g) (lg_unreadable g)
    (lg_newerFraming g) (lg_newerDocuments g) (lg_preV4Backup g) (lg_profileDirectorySeq g)
    (lg_profileDirectoryEntry g) (lg_kidApprovalEntries g) (lg_readCurrentGeneration g) x) (lg_standing s)
    (lg_outcome s).
Definition set_memberRegistered (x : bool) (s : Log) : Log :=
  mkLog (lg_held s) (lg_control s) (let g := lg_standing s in mkStanding x (lg_registering g) (lg_credential g)
    (lg_moved g) (lg_refused g) (lg_refusedAt g) (lg_refusal g) (lg_migrationLockedAt g) (lg_throttledUntil g))
    (lg_outcome s).
Definition set_registering (x : bool) (s : Log) : Log :=
  mkLog (lg_held s) (lg_control s) (let g := lg_standing s in mkStanding (lg_memberRegistered g) x
    (lg_credential g) (lg_moved g) (lg_refused g) (lg_refusedAt g) (lg_refusal g) (lg_migrationLockedAt g)
    (lg_throttledUntil g)) (lg_outcome s).
Definition set_credential (x : bool) (s : Log) : Log :=
  mkLog (lg_held s) (lg_control s) (let g := lg_standing s in mkStanding (lg_memberRegistered g) (lg_registering
    g) x (lg_moved g) (lg_refused g) (lg_refusedAt g) (lg_refusal g) (lg_migrationLockedAt g) (lg_throttledUntil
    g)) (lg_outcome s).
Definition set_moved (x : bool) (s : Log) : Log :=
  mkLog (lg_held s) (lg_control s) (let g := lg_standing s in mkStanding (lg_memberRegistered g) (lg_registering
    g) (lg_credential g) x (lg_refused g) (lg_refusedAt g) (lg_refusal g) (lg_migrationLockedAt g)
    (lg_throttledUntil g)) (lg_outcome s).
Definition set_refused (x : bool) (s : Log) : Log :=
  mkLog (lg_held s) (lg_control s) (let g := lg_standing s in mkStanding (lg_memberRegistered g) (lg_registering
    g) (lg_credential g) (lg_moved g) x (lg_refusedAt g) (lg_refusal g) (lg_migrationLockedAt g)
    (lg_throttledUntil g)) (lg_outcome s).
Definition set_refusedAt (x : Z) (s : Log) : Log :=
  mkLog (lg_held s) (lg_control s) (let g := lg_standing s in mkStanding (lg_memberRegistered g) (lg_registering
    g) (lg_credential g) (lg_moved g) (lg_refused g) x (lg_refusal g) (lg_migrationLockedAt g)
    (lg_throttledUntil g)) (lg_outcome s).
Definition set_refusal (x : option string) (s : Log) : Log :=
  mkLog (lg_held s) (lg_control s) (let g := lg_standing s in mkStanding (lg_memberRegistered g) (lg_registering
    g) (lg_credential g) (lg_moved g) (lg_refused g) (lg_refusedAt g) x (lg_migrationLockedAt g)
    (lg_throttledUntil g)) (lg_outcome s).
Definition set_migrationLockedAt (x : Z) (s : Log) : Log :=
  mkLog (lg_held s) (lg_control s) (let g := lg_standing s in mkStanding (lg_memberRegistered g) (lg_registering
    g) (lg_credential g) (lg_moved g) (lg_refused g) (lg_refusedAt g) (lg_refusal g) x (lg_throttledUntil g))
    (lg_outcome s).
Definition set_throttledUntil (x : Z) (s : Log) : Log :=
  mkLog (lg_held s) (lg_control s) (let g := lg_standing s in mkStanding (lg_memberRegistered g) (lg_registering
    g) (lg_credential g) (lg_moved g) (lg_refused g) (lg_refusedAt g) (lg_refusal g) (lg_migrationLockedAt g) x)
    (lg_outcome s).
Definition set_outcome (x : Outcome) (s : Log) : Log := mkLog (lg_held s) (lg_control s) (lg_standing s) x.

(** ** Calls *)

Inductive Eff : Type :=
| Now
| Send (request : Request)
| Seal (name : string) (row : Row)
| OpenEntry (k v : string)
| AwaitRegistering
| KeepMember (generation : string)
| KeepPending (work : KeptWork)
| ReadPending
| DiscardPending (key : string)
| ForgetCopies
| PutMeta (name value : string)
| KeepFacts (generation : option string) (head : Z) (entries : list FactEntry) (complete topology : bool).

Definition answer (op : Eff) : Type :=
  match op with
  | Now => Z
  | Send _ => Response
  | Seal _ _ => string
  | OpenEntry _ _ => Opened
  | KeepPending _ => option string
  | ReadPending => option (jsmap string KeptWork)
  | DiscardPending _ | PutMeta _ _ => bool
  | AwaitRegistering | KeepMember _ | ForgetCopies | KeepFacts _ _ _ _ _ => unit
  end.

(** ** Programs

    [Call] hands the log over at an await: the continuation takes the answer and the log as it is then. *)

Inductive prog (A : Type) : Type :=
| Ret (r : res A)
| Call (op : Eff) (k : res (answer op) -> Log -> Log * prog A).
Arguments Ret {A} _.
Arguments Call {A} _ _.

(** An [async] function of the log. *)
Definition M (A : Type) : Type := Log -> Log * prog A.

Fixpoint prog_bind {A B} (p : prog A) (f : res A -> M B) : M B :=
  match p with
  | Ret r => f r
  | Call op k => fun s => (s, Call op (fun r s => let '(s, p) := k r s in prog_bind p f s))
  end.

Definition ret {A} (a : A) : M A := fun s => (s, Ret (Ok a)).
Definition throw {A} (m : string) : M A := fun s => (s, Ret (Throw m)).
Definition lift {A} (r : res A) : M A := fun s => (s, Ret r).
Definition get : M Log := fun s => (s, Ret (Ok s)).
Definition assign (f : Log -> Log) : M unit := fun s => (f s, Ret (Ok tt)).
Definition call (op : Eff) : M (answer op) := fun s => (s, Call op (fun r s => (s, Ret r))).
Definition bind {A B} (m : M A) (f : A -> M B) : M B :=
  fun s => let '(s, p) := m s in
           prog_bind p (fun r => match r with Ok a => f a | Throw e => throw e end) s.
(** [try { return await m } catch { return h }] *)
Definition try_catch {A} (m : M A) (h : string -> M A) : M A :=
  fun s => let '(s, p) := m s in
           prog_bind p (fun r => match r with Ok a => ret a | Throw e => h e end) s.

Declare Scope log_scope.
Notation "'let*' x ':=' m 'in' k" := (bind m (fun x => k)) (at level 10, x pattern, m at level 99, k at level 200) : log_scope.
Notation "m ;;; k" := (bind m (fun _ => k)) (at level 100, right associativity) : log_scope.
Open Scope log_scope.

(** [for (const x of l) { ... }] whose body may leave the function it is in: [inl] is what it returns. *)
Fixpoint each {A B R} (f : B -> A -> M (R + B)) (b : B) (l : list A) : M (R + B) :=
  match l with
  | [] => ret (inr b)
  | x :: l => let* r := f b x in match r with inl done => ret (inl done) | inr b => each f b l end
  end.

(** [for (const x of l) { ... }] that runs through. *)
Fixpoint for_each {A} (f : A -> M unit) (l : list A) : M unit :=
  match l with
  | [] => ret tt
  | x :: l => f x;;; for_each f l
  end.

(** [Promise.all(l.map(f))] and the like: the answers in order. *)
Fixpoint map_all {A B} (f : A -> M B) (l : list A) : M (list B) :=
  match l with
  | [] => ret []
  | x :: l => let* b := f x in let* bs := map_all f l in ret (b :: bs)
  end.
