(* ===== verification/Log.v ===== *)
(** * The library log's work with den-edge ([web/src/lib/log.ts])

    What a log on den-edge does on its lane ([this.writes], one piece of work at a time): sending edits and settings by
    compare-and-set, merging what another device wrote first, and reading the log to its head. Every function is the
    program of the method of its name. *)

From S2P Require Import Prelude JsMap JsText Json Wire Clock LibraryV4 ProfileKeys ResetJournal LogState.
Open Scope Z_scope.

(** ** den-core and WebCrypto *)

(** den-core's merges, and whether [doc_encode] fits a document under the cap of a new write or of a merge. *)
Class MergePolicy := {
  mergeDocument : DocumentRow -> DocumentRow -> res DocumentRow;
  mergeTitle : TitleRow -> TitleRow -> res TitleRow;
  mergeEpisode : EpisodeRow -> EpisodeRow -> res EpisodeRow;
  mergeSettings : SettingsRow -> SettingsRow -> res SettingsRow;
  doc_fits : DocumentRow -> bool -> res bool
}.

(** The key a row's name is stored under ([rowKey], an HMAC in hex), and what a stored value opens as. *)
Class Sealing := {
  rowKey : string -> string;
  openEntry : string -> string -> Opened
}.

(** The build's wire, and whether work can be kept in this browser. *)
Class LogConfig := { instanceWire : Z; runtimeAvailable : bool }.

Definition WIRE : Z := 4.
Definition ROUNDS : nat := 3.
Definition REWRITE_BATCH_MAX : nat := 200.
Definition REWRITE_BATCH_MAX_BYTES : Z := 2000000.

Section Lane.
Context `{NamePolicy, DocumentPolicy, MergePolicy, Sealing, LogConfig}.

(** ** Rows *)

Definition merge (theirs ours : Row) : res Row :=
  match theirs, ours with
  | RDocument a, RDocument b =>
      if (WIRE <? doc_format a) || (WIRE <? doc_format b)
      then Ok (if doc_format a <? doc_format b then ours else theirs)
      else let! d := mergeDocument a b in Ok (RDocument d)
  | RTitle a, RTitle b => let! r := mergeTitle a b in Ok (RTitle r)
  | REpisode a, REpisode b => let! r := mergeEpisode a b in Ok (REpisode r)
  | RSettings a, RSettings b => let! r := mergeSettings a b in Ok (RSettings r)
  | _, _ => Ok theirs
  end.

(** [held ? merge(held.row, row) : row] *)
Definition merge_over (held : option Entry) (row : Row) : res Row :=
  match held with Some held => merge (en_row held) row | None => Ok row end.

Definition config_json (v : ConfigValue) : json :=
  match v with
  | CBool b => JObj [("bool", JBool b)]
  | CInt n => JObj [("int", jint n)]
  | CString s => JObj [("string", JStr s)]
  | CInts l => JObj [("ints", JArr (jint <$> l))]
  | CStrings l => JObj [("strings", JArr (JStr <$> l))]
  end.

Definition setting_json (v : option ConfigValue) : json := match v with Some v => config_json v | None => JNull end.

(** A row as [JSON.stringify] reads it. *)
Definition row_json (row : Row) : json :=
  match row with
  | RDocument d => document_json d
  | RSettings r =>
      JObj ([("kind", JStr "set"); ("schema", jint (set_schema r)); ("name", JStr (set_name r));
             ("values", JObj ((fun kv => (kv.1, stamped_json setting_json kv.2)) <$> set_values r))] ++ set_unknown r)
  | RTitle r =>
      JObj ([("kind", JStr "rec"); ("schema", jint (tr_schema r)); ("title", ref_json (tr_title r));
             ("status", stamped_json status_json (tr_status r)); ("resume", progress_json (tr_resume r));
             ("reaction", stamped_json reaction_json (tr_reaction r)); ("deleted", stamped_json JBool (tr_deleted r));
             ("dismissed", stamped_json JBool (tr_dismissed r)); ("addedAt", jint (tr_addedAt r))]
            ++ jmember "episodesReset" stamp_json (tr_episodesReset r) ++ jmember "watchedAt" jint (tr_watchedAt r)
            ++ tr_unknown r)
  | REpisode r =>
      JObj ([("kind", JStr "ep"); ("schema", jint (ep_schema r)); ("title", ref_json (ep_title r));
             ("season", jint (ep_season r)); ("episode", jint (ep_episode r));
             ("progress", progress_json (ep_progress r))] ++ ep_unknown r)
  end.

(** [canonical(a) === canonical(b)] *)
Definition canonical_eq (a b : Row) : bool := same (row_json a) (row_json b).

(** One row per name, in the order the names first came. *)
Definition coalesce (rows : list Row) : res (list Row) :=
  let! by_name := res_fold (fun by_name row =>
    let! name := rowName row in
    let! row := match map_get name by_name with Some held => merge held row | None => Ok row end in
    Ok (map_set name row by_name)) [] rows in
  Ok (map_values by_name).

(** Writes in batches den-edge takes; [size] is the bytes a write adds to the body. *)
Definition chunks_step {T} (size : T -> Z) (st : list (list T) * list T * Z) (write : T) : list (list T) * list T * Z :=
  let '(out, chunk, bytes) := st in
  let '(out, chunk, bytes) :=
    if negb (length chunk =? 0)%nat &&
       ((REWRITE_BATCH_MAX <=? length chunk)%nat || (REWRITE_BATCH_MAX_BYTES - 16 <? bytes + size write))
    then (out ++ [chunk], [], 0) else (out, chunk, bytes) in
  (out, chunk ++ [write], bytes + size write).

Definition chunks {T} (size : T -> Z) (writes : list T) : list (list T) :=
  let '(out, chunk, _) := foldl (chunks_step size) ([], [], 0) writes in
  if (length chunk =? 0)%nat then out else out ++ [chunk].

(** ** What a household takes *)

Inductive HouseholdWrite : Type := Allow | Refuse | Restrict (values : jsmap string Setting).

Definition profileHouseholdWrite (name : string) (values : jsmap string Setting) : HouseholdWrite :=
  if existsb (fun prefix => starts_with prefix name) ["title:"; "season:"; "dlv:"; "set:deliver:"; "set:handoff:"]
     || String.eqb name "set:trackers" || String.eqb name "set:assistant-applied"
  then Refuse
  else if String.eqb name "set:prefs" then Refuse
  else if negb (String.eqb name "set:keys") then Allow
  else match map_delete "simkl" values with [] => Refuse | household => Restrict household end.

Definition with_values (r : SettingsRow) (values : jsmap string Setting) : SettingsRow :=
  mkSettingsRow (set_schema r) (set_name r) values (set_unknown r).

Definition householdScoped (row : Row) : res (option Row) :=
  let! name := rowName row in
  let values := match row with RSettings r => set_values r | _ => [] end in
  Ok (match profileHouseholdWrite name values with
      | Allow => Some row
      | Refuse => None
      | Restrict values => match row with RSettings r => Some (RSettings (with_values r values)) | _ => None end
      end).

Definition profileAware (s : Log) : bool := (5 <=? lg_wireMin s) || (0 <? lg_profileDirectorySeq s).
Definition directoryCommitted (s : Log) : bool := (5 <=? lg_wireMin s) && (lg_profileDirectorySeq s =? 0).
Definition profileDirectoryPending (s : Log) : bool := directoryCommitted s && negb (lg_readCurrentGeneration s).

Fixpoint scoped_rows (rows : list Row) : res (list Row) :=
  match rows with
  | [] => Ok []
  | row :: rows =>
      let! scoped := householdScoped row in
      let! rest := scoped_rows rows in
      Ok (match scoped with Some row => row :: rest | None => rest end)
  end.

Definition householdRows (rows : list Row) : M (list Row) :=
  let* s := get in if profileAware s then lift (scoped_rows rows) else ret rows.

(** ** Requests *)

Definition with_default {A} (a b : option A) : option A := match a with Some _ => a | None => b end.

(** [headers()]'s generation. *)
Definition header_generation (s : Log) : string :=
  default "0" (with_default (lg_writeGeneration s) (lg_generation s)).

Definition observeProtocol (res : Response) : M unit :=
  let* s := get in
  match rs_wireMin res with
  | Some minimum =>
      if (minimum <? 2) || (minimum <=? lg_wireMin s) then ret tt
      else
        assign (fun s =>
          let s := set_wireMin minimum s in
          if instanceWire <? minimum then set_upgradeRequired (Some minimum) s else s);;;
        call (PutMeta "wireMin" (Z_str minimum));;;
        ret tt
  | None => ret tt
  end.

Definition send (request : Request) : M Response :=
  let* res := call (Send request) in
  observeProtocol res;;;
  ret res.

Definition ok_status (res : Response) : bool := (200 <=? rs_status res) && (rs_status res <=? 299).

Definition errorCode (res : Response) : option string :=
  match rs_body res with Ok (BodyError code) => code | _ => None end.

(** [REFUSALS]: the codes with which a status refuses a write for good; [None] is any. *)
Definition REFUSALS (status : Z) : option (option (list string)) :=
  if status =? 400 then Some (Some ["invalid_batch"; "invalid_library_id"; "bad_request"])
  else if status =? 403 then Some (Some ["forbidden"])
  else if status =? 413 then Some None
  else None.

Definition RETRYABLE_REFUSALS : list string := ["rewrite_in_progress"; "generation_changed"; "upgrade_required"].

Definition retryAfterMs (res : Response) (fallback : Z) : Z := default fallback (rs_retryAfterMs res).

Definition is_code (code : option string) (text : string) : bool := bool_decide (code = Some text).

Definition listed (codes : list string) (code : option string) : bool :=
  match code with Some code => bool_decide (code ∈ codes) | None => false end.

Definition status_text (res : Response) : string := Z_str (rs_status res).

(** [outcome.refused = true] *)
Definition refuse : M unit :=
  assign (fun s => set_outcome (mkOutcome true (oc_applied (lg_outcome s)) (oc_merged (lg_outcome s))) s).

Definition failed (res : Response) (outcome : bool) : M (option string) :=
  if rs_status res =? 410 then assign (set_moved true);;; ret None
  else
    let code := errorCode res in
    if rs_status res =? 429 then
      let* now := call Now in
      assign (set_throttledUntil (now + retryAfterMs res 60000));;;
      ret code
    else if (rs_status res =? 409) && is_code code "migration_in_progress" then
      let* now := call Now in
      assign (set_migrationLockedAt now);;;
      ret code
    else if listed RETRYABLE_REFUSALS code then
      assign (fun s => set_refusal (Some (default (status_text res) code))
        (if is_code code "upgrade_required" then set_upgradeRequired (Some (lg_wireMin s)) s else s));;;
      ret code
    else match REFUSALS (rs_status res) with
    | None => ret None
    | Some refusals =>
        if (rs_status res =? 403) && is_code code "new_libraries_closed" then
          let* now := call Now in
          assign (fun s => set_credential false (set_refusedAt now (set_refused true s)));;;
          ret None
        else if match refusals with Some codes => negb (listed codes code) | None => false end then ret None
        else
          (if outcome then refuse else ret tt);;;
          assign (set_refusal (Some (default (status_text res) code)));;;
          ret code
    end.

(** True when the refusal named a generation that is new, which writes then use. *)
Definition adoptGeneration (res : Response) : M bool :=
  let* s := get in
  match rs_generation res with
  | Some current =>
      if negb (truthy current) || bool_decide (with_default (lg_writeGeneration s) (lg_generation s) = Some current)
      then ret false
      else assign (set_writeGeneration (Some current));;; ret true
  | None => ret false
  end.

(** ** Membership *)

Definition put (generation : option string) : M Response :=
  let* s := get in
  send (MemberRequest (default (header_generation s) generation) instanceWire).

Definition truthy_option (o : option string) : option string :=
  match o with Some t => if truthy t then Some t else None | None => None end.

Definition putMember : M unit :=
  try_catch
    (let* s := get in
     let registered := with_default (lg_writeGeneration s) (lg_generation s) in
     let* res := put None in
     let current := truthy_option (rs_generation res) in
     let again := (rs_status res =? 409) && is_code (errorCode res) "generation_changed"
                  && match current with Some _ => negb (bool_decide (current = registered)) | None => false end in
     let* p := (if again then let* res := put current in ret (current, res) else ret (registered, res)) in
     let '(registered, res) := p in
     if ok_status res then
       assign (set_memberRegistered true);;;
       match truthy_option registered with
       | Some generation => try_catch (call (KeepMember generation)) (fun _ => ret tt)
       | None => ret tt
       end
     else ret tt)
    (fun _ => ret tt).

Definition registerMember : M unit :=
  let* s := get in
  if lg_memberRegistered s then ret tt
  else if lg_registering s then call AwaitRegistering
  else
    assign (set_registering true);;;
    putMember;;;
    assign (set_registering false).

(** ** Reading a stored row *)

Definition kind_is (j : json) (kind : string) : bool := bool_decide (jget "kind" j = Some (JStr kind)).

Definition preV4Json (j : json) : bool :=
  kind_is j "rec" || kind_is j "ep" || kind_is j "wat" || kind_is j "snt"
  || (kind_is j "set" && match jget "name" j with Some (JStr name) => starts_with "tracker-event:" name | _ => false end)
  || (bool_decide (jget "schema" j = Some (jint 1)) && match jget "after" j with Some _ => true | None => false end).

Definition preV4Row (row : Row) : bool := preV4Json (row_json row).

Definition noteFormat (row : Row) : M unit :=
  match row with
  | RDocument d =>
      let* name := lift (rowName row) in
      if WIRE <? doc_format d then
        assign (fun s => set_upgradeRequired (with_default (lg_upgradeRequired s) (Some (doc_format d)))
          (set_newerDocuments (set_add name (lg_newerDocuments s)) s))
      else assign (fun s => set_newerDocuments (filter (fun n => n <> name) (lg_newerDocuments s)) s)
  | _ => ret tt
  end.

(** What [readEntry] answers beside [null]. *)
Inductive Read : Type :=
| ReadRow (row : Row)
| ReadDirectory (document : ProfileDirectoryDocument)
| ReadApprovals (document : KidTitleApprovalsDocument)
| ReadInvalidDirectory.

Definition note_backup (preV4 : bool) : M unit := if preV4 then assign (set_preV4Backup true) else ret tt.

Definition readEntry (k v : string) : M (option Read) :=
  let* opened := call (OpenEntry k v) in
  assign (fun s => set_newerFraming (filter (fun n => n <> k) (lg_newerFraming s))
    (set_unreadable (map_delete k (lg_unreadable s)) s));;;
  match opened with
  | OpenedUnreadable reason value =>
      if match value with Some value => preV4Json value | None => false end
      then note_backup true;;; ret None
      else assign (fun s => set_unreadable (map_set k reason (lg_unreadable s)) s);;; ret None
  | OpenedNewerFraming =>
      assign (fun s => set_upgradeRequired (with_default (lg_upgradeRequired s) (Some (WIRE + 1)))
        (set_newerFraming (set_add k (lg_newerFraming s)) s));;;
      ret None
  | OpenedUnknown value => note_backup (preV4Json value);;; ret None
  | OpenedInvalidDirectory => ret (Some ReadInvalidDirectory)
  | OpenedDirectory document => ret (Some (ReadDirectory document))
  | OpenedApprovals document => ret (Some (ReadApprovals document))
  | OpenedRow row =>
      if preV4Row row then note_backup true;;; ret None
      else
        noteFormat row;;;
        let* now := call Now in
        ret (Some (ReadRow (believe now row)))
  end.

(** ** Sending edits *)

Definition remember (name : string) (entry : Entry) (s : Log) : Log :=
  set_dirty true (set_unkept (map_set name (lg_generation s) (lg_unkept s))
    (set_acknowledged (map_set name entry (lg_acknowledged s)) (set_entries (map_set name entry (lg_entries s)) s))).

Definition acknowledge (name : string) (seq : Z) (row : Row) : M unit :=
  assign (fun s => remember name (mkLogEntry seq row) (set_throttledUntil 0 (set_migrationLockedAt 0 s))).

(** What this browser remembered of [name] belongs to a log that was reset. *)
Definition forget_row (name : string) : M unit :=
  assign (fun s => set_unkept (map_set name (lg_generation s) (lg_unkept s))
    (set_acknowledged (map_delete name (lg_acknowledged s)) (set_entries (map_delete name (lg_entries s)) s))).

(** den-edge's version of a document, without the edits kept here. *)
Definition stored (s : Log) (name : string) : option DocumentRow :=
  match map_get name (lg_acknowledged s) with
  | Some (mkLogEntry _ (RDocument d)) => Some d
  | _ => None
  end.

Definition seq_in (name : string) (m : jsmap string Entry) : Z := from_option en_seq 0 (map_get name m).

(** A write as [sendOps] holds it: what it writes, under which name, on which version, and sealed. *)
Record Sealed : Type := mkSealed { sw_name : string; sw_row : Row; sw_base : Z; sw_k : string; sw_v : string }.

Definition edge_write (w : Sealed) : EdgeWrite := mkEdgeWrite (sw_k w) (sw_base w) (sw_v w).

Definition seal_row (name : string) (row : Row) (base : Z) : M Sealed :=
  let* v := call (Seal name row) in
  ret (mkSealed name row base (rowKey name) v).

Definition seal_rider (rider : SettingsRow) : M Sealed :=
  let* s := get in
  let* name := lift (rowName (RSettings rider)) in
  let held := map_get name (lg_acknowledged s) in
  let* row := lift (merge_over held (RSettings rider)) in
  seal_row name row (seq_in name (lg_acknowledged s)).

(** [None] when the document is full. *)
Definition seal_document (document : DocumentRow) : M (option Sealed) :=
  let* name := lift (rowName (RDocument document)) in
  let* fits := lift (doc_fits document true) in
  if negb fits then ret None
  else
    let* v := call (Seal name (RDocument document)) in
    let* s := get in
    ret (Some (mkSealed name (RDocument document) (seq_in name (lg_acknowledged s)) (rowKey name) v)).

Fixpoint seal_documents (documents : list DocumentRow) : M (option (list Sealed)) :=
  match documents with
  | [] => ret (Some [])
  | document :: documents =>
      let* sealed := seal_document document in
      match sealed with
      | None => ret None
      | Some w => let* rest := seal_documents documents in ret ((fun ws => w :: ws) <$> rest)
      end
  end.

(** A batch sent: the body it answered, or [inl true] to try again under the generation the refusal named and
    [inl false] to give up. *)
Definition send_batch (writes : list EdgeWrite) : M (bool + Body) :=
  try_catch
    (let* s := get in
     let* res := send (BatchRequest (header_generation s) instanceWire writes) in
     if negb (ok_status res) then
       let* code := failed res true in
       if is_code code "generation_changed" then let* adopted := adoptGeneration res in ret (inl adopted)
       else ret (inl false)
     else let* body := lift (rs_body res) in ret (inr body))
    (fun _ => ret (inl false)).

(** A body read as a batch: [batch.applied] of anything else is a [TypeError]. *)
Definition batch_of (body : Body) : M Batch :=
  match body with BodyBatch batch => ret batch | _ => throw "TypeError" end.

Definition applied_seq (batch : Batch) (k : string) : option Z := map_get k (bt_applied batch).

Definition rider_named (name : string) (rider : SettingsRow) : bool :=
  match rowName (RSettings rider) with Ok n => String.eqb n name | Throw _ => false end.

(** The writes den-edge applied, acknowledged; the riders that still wait. *)
Fixpoint take_applied (batch : Batch) (writes : list Sealed) (waiting : list SettingsRow) : M (list SettingsRow) :=
  match writes with
  | [] => ret waiting
  | w :: writes =>
      match applied_seq batch (sw_k w) with
      | None => take_applied batch writes waiting
      | Some seq =>
          acknowledge (sw_name w) seq (sw_row w);;;
          assign (fun s => set_outcome (mkOutcome (oc_refused (lg_outcome s)) true (oc_merged (lg_outcome s))) s);;;
          take_applied batch writes (filter (fun rider => rider_named (sw_name w) rider = false) waiting)
      end
  end.

(** The rows other devices wrote first, read; false when one cannot be. *)
Fixpoint take_conflicts (writes : list Sealed) (conflicts : list Conflict) : M bool :=
  match conflicts with
  | [] => ret true
  | conflict :: conflicts =>
      match list_find (fun w => sw_k w = cf_k conflict) writes with
      | None => take_conflicts writes conflicts
      | Some (_, w) =>
          match cf_v conflict with
          | VOmitted => ret false
          | VNull => forget_row (sw_name w);;; take_conflicts writes conflicts
          | VSealed v =>
              let* theirs := readEntry (cf_k conflict) v in
              match theirs with
              | Some (ReadRow row) =>
                  assign (remember (sw_name w) (mkLogEntry (cf_seq conflict) row));;;
                  take_conflicts writes conflicts
              | _ => ret false
              end
          end
      end
  end.

Definition refuse_as (code : string) : M unit := assign (set_refusal (Some code));;; refuse.

Definition settings_of (rows : list Row) : list SettingsRow :=
  omap (fun row => match row with RSettings r => Some r | _ => None end) rows.

(** What [sendOps] may send of its documents and waiting riders; [None] when the household refuses part of it. *)
Definition scope_writes (documents : list DocumentRow) (waiting : list SettingsRow) : M (option (list SettingsRow)) :=
  let* s := get in
  if profileAware s then
    let* scoped := householdRows ((RDocument <$> documents) ++ (RSettings <$> waiting)) in
    if (length scoped =? length documents + length waiting)%nat
    then ret (Some (settings_of (drop (length documents) scoped)))
    else refuse_as "profile_scoped";;; ret None
  else ret (Some waiting).

(** One round of [sendOps]: [inl] is what it returns, [inr] the riders of the next round. *)
Definition sendOps_round (ops : list Op) (waiting : list SettingsRow) : M (bool + list SettingsRow) :=
  let* now := call Now in
  let* s := get in
  if existsb (fun name => bool_decide (name ∈ lg_newerDocuments s)) (touched ops) then ret (inl false)
  else
    let* documents := lift (applyOps ops (stored s) now) in
    if (length documents =? 0)%nat && (length waiting =? 0)%nat then ret (inl true)
    else
      let* scoped := scope_writes documents waiting in
      match scoped with
      | None => ret (inl false)
      | Some waiting =>
          let* riders := map_all seal_rider waiting in
          let* sealed := seal_documents documents in
          match sealed with
          | None => refuse_as "document_full";;; ret (inl false)
          | Some sealed =>
              let writes := riders ++ sealed in
              let* answer := send_batch (edge_write <$> writes) in
              match answer with
              | inl again => ret (if again then inr waiting else inl false)
              | inr body =>
                  let* batch := batch_of body in
                  let* waiting := take_applied batch writes waiting in
                  if (length (bt_conflicts batch) =? 0)%nat then registerMember;;; ret (inl true)
                  else
                    assign (fun s => set_outcome (mkOutcome (oc_refused (lg_outcome s)) (oc_applied (lg_outcome s)) true) s);;;
                    let* read := take_conflicts writes (bt_conflicts batch) in
                    ret (if read then inr waiting else inl false)
              end
          end
      end.

Fixpoint sendOps_rounds (rounds : nat) (ops : list Op) (waiting : list SettingsRow) : M bool :=
  match rounds with
  | O => ret false
  | S rounds =>
      let* r := sendOps_round ops waiting in
      match r with inl done => ret done | inr waiting => sendOps_rounds rounds ops waiting end
  end.

Definition sendOps (ops : list Op) (riders : list SettingsRow) : M bool := sendOps_rounds ROUNDS ops riders.

(** ** Writing one row *)

(** One row as given, on the version [base]; also whether the generation had changed. *)
Definition writeAt_lane (row : Row) (base : Z) : M (bool * bool) :=
  let* name := lift (rowName row) in
  let* v := call (Seal name row) in
  let k := rowKey name in
  let* s := get in
  let* res := send (BatchRequest (header_generation s) instanceWire [mkEdgeWrite k base v]) in
  if negb (ok_status res) then
    let* code := failed res false in
    ret (false, is_code code "generation_changed")
  else
    let* body := lift (rs_body res) in
    let* batch := batch_of body in
    match applied_seq batch k with
    | Some seq => acknowledge name seq row;;; ret (true, false)
    | None =>
        match list_find (fun c => cf_k c = k) (bt_conflicts batch) with
        | Some (_, mkConflict _ seq (VSealed v)) =>
            let* theirs := (if truthy v then readEntry k v else ret None) in
            match theirs with
            | Some (ReadRow row) => assign (remember name (mkLogEntry seq row));;; ret (false, false)
            | _ => ret (false, false)
            end
        | _ => ret (false, false)
        end
    end.

Definition open_row (k v : string) : M Row :=
  let* opened := call (OpenEntry k v) in
  match opened with OpenedRow row => ret row | _ => throw "an unreadable row" end.

(** One round of [writeSerial]: [inl] is what it returns, [inr] the row the next round writes. *)
Definition writeSerial_round (target : Row) : M (option Row + Row) :=
  let* scoped := householdRows [target] in
  match scoped with
  | [] => refuse_as "profile_scoped";;; ret (inl None)
  | target :: _ =>
      let* name := lift (rowName target) in
      let* s := get in
      let base := seq_in name (lg_entries s) in
      let* v := call (Seal name target) in
      let k := rowKey name in
      let* answer := send_batch [mkEdgeWrite k base v] in
      match answer with
      | inl again => ret (if again then inr target else inl None)
      | inr body =>
          let* batch := batch_of body in
          match applied_seq batch k with
          | Some seq =>
              acknowledge name seq target;;;
              assign (fun s => set_outcome (mkOutcome (oc_refused (lg_outcome s)) true (oc_merged (lg_outcome s))) s);;;
              registerMember;;;
              ret (inl (Some target))
          | None =>
              match list_find (fun c => cf_k c = k) (bt_conflicts batch) with
              | None => ret (inl None)
              | Some (_, conflict) =>
                  match cf_v conflict with
                  | VNull => forget_row name;;; ret (inr target)
                  | VOmitted => throw "an unreadable row"
                  | VSealed v =>
                      let* row := open_row k v in
                      let* now := call Now in
                      let theirs := believe now row in
                      assign (fun s => set_entries (map_set name (mkLogEntry (cf_seq conflict) theirs) (lg_entries s)) s);;;
                      let* target := lift (merge theirs target) in
                      if canonical_eq target theirs
                      then acknowledge name (cf_seq conflict) theirs;;; ret (inl (Some theirs))
                      else ret (inr target)
                  end
              end
          end
      end
  end.

Fixpoint writeSerial_rounds (rounds : nat) (target : Row) : M (option Row) :=
  match rounds with
  | O => ret None
  | S rounds =>
      let* r := writeSerial_round target in
      match r with inl done => ret done | inr target => writeSerial_rounds rounds target end
  end.

Definition writeSerial (local : Row) : M (option Row) :=
  let* s := get in
  let* name := lift (rowName local) in
  let* target := lift (merge_over (map_get name (lg_entries s)) local) in
  writeSerial_rounds ROUNDS target.

(** ** Drawing what is kept *)

Definition project (after : Row) : M Row :=
  let* s := get in
  let* name := lift (rowName after) in
  let current := map_get name (lg_entries s) in
  let* row := lift (merge_over current after) in
  assign (fun s =>
    set_entries (map_set name (mkLogEntry (from_option en_seq 0 current) row) (lg_entries s))
      (if match current with Some held => canonical_eq (en_row held) row | None => false end then s
       else set_projected (lg_projected s + 1) s));;;
  ret row.

(** ** Sending rows *)

Definition holds (name : string) (row : Row) (s : Log) : bool :=
  match map_get name (lg_acknowledged s) with
  | Some known =>
      (0 <? en_seq known) && bool_decide (en_seq <$> map_get name (lg_entries s) = Some (en_seq known))
      && canonical_eq (en_row known) row
  | None => false
  end.

(** The rows of [rows] den-edge does not hold already, each with its name and the version it is written on. *)
Fixpoint due_rows (rows : list Row) (s : Log) : res (list (string * Row * Z)) :=
  match rows with
  | [] => Ok []
  | row :: rows =>
      let! name := rowName row in
      let! fits := match row with RDocument d => if holds name row s then Ok true else doc_fits d false | _ => Ok true end in
      let! rest := due_rows rows s in
      Ok (if holds name row s || negb fits then rest else (name, row, seq_in name (lg_entries s)) :: rest)
  end.

Fixpoint merge_entries (rows : list Row) (s : Log) : res (list Row) :=
  match rows with
  | [] => Ok []
  | row :: rows =>
      let! name := rowName row in
      let! row := merge_over (map_get name (lg_entries s)) row in
      let! rest := merge_entries rows s in
      Ok (row :: rest)
  end.

(** The writes of a batch that were not applied are written one at a time. *)
Fixpoint settle_chunk (batch : Batch) (chunk : list Sealed) : M bool :=
  match chunk with
  | [] => ret true
  | w :: chunk =>
      match applied_seq batch (sw_k w) with
      | Some seq =>
          acknowledge (sw_name w) seq (sw_row w);;;
          assign (fun s => set_outcome (mkOutcome (oc_refused (lg_outcome s)) true (oc_merged (lg_outcome s))) s);;;
          settle_chunk batch chunk
      | None =>
          let* written := writeSerial (sw_row w) in
          match written with Some _ => settle_chunk batch chunk | None => ret false end
      end
  end.

Definition flush_chunk (chunk : list Sealed) : M bool :=
  let* s := get in
  let* res := send (BatchRequest (header_generation s) instanceWire (edge_write <$> chunk)) in
  if negb (ok_status res) then failed res true;;; ret false
  else
    let* body := lift (rs_body res) in
    let* batch := batch_of body in
    settle_chunk batch chunk.

Fixpoint flush_chunks (l : list (list Sealed)) : M bool :=
  match l with
  | [] => ret true
  | chunk :: l => let* sent := flush_chunk chunk in if sent then flush_chunks l else ret false
  end.

(** 32 rows of [flushRows]; [size] is the bytes of a write in a body. *)
Definition flush_slice (size : Sealed -> Z) (rows : list Row) : M bool :=
  let* s := get in
  let* merged := lift (merge_entries rows s) in
  let* scoped := householdRows merged in
  let* due := lift (due_rows scoped s) in
  let* sealed := map_all (fun '(name, row, base) => seal_row name row base) due in
  flush_chunks (chunks size sealed).

Fixpoint slices {A} (fuel n : nat) (l : list A) : list (list A) :=
  match fuel, l with
  | S fuel, _ :: _ => take n l :: slices fuel n (drop n l)
  | _, _ => []
  end.

Fixpoint flush_slices (size : Sealed -> Z) (l : list (list Row)) : M bool :=
  match l with
  | [] => ret true
  | rows :: l => let* sent := flush_slice size rows in if sent then flush_slices size l else ret false
  end.

Fixpoint flush_groups (size : Sealed -> Z) (groups : list (list Row)) : M bool :=
  match groups with
  | [] => ret true
  | group :: groups =>
      let* rows := lift (coalesce group) in
      let* sent := flush_slices size (slices (length rows) 32 rows) in
      if sent then flush_groups size groups else ret false
  end.

(** ** Reading the log to its head *)

Definition acceptKidTitleApprovals (seq : Z) (document : KidTitleApprovalsDocument) : M bool :=
  let* s := get in
  if seq <=? from_option fst 0 (map_get (kt_kid document) (lg_kidApprovalEntries s)) then ret false
  else
    assign (fun s => set_kidApprovalEntries (map_set (kt_kid document) (seq, document) (lg_kidApprovalEntries s)) s);;;
    ret true.

Definition acceptProfileDirectory (seq : Z) (document : ProfileDirectoryDocument) : M bool :=
  let* s := get in
  if seq <=? lg_profileDirectorySeq s then ret false
  else
    assign (fun s => set_dirty true (set_profileDirectoryEntry (Some (seq, document)) (set_profileDirectorySeq seq s)));;;
    ret true.

Definition invalidateProfileDirectory (seq : Z) : M bool :=
  let* s := get in
  if seq <=? lg_profileDirectorySeq s then ret false
  else
    assign (fun s => set_dirty true (set_profileDirectoryEntry None (set_profileDirectorySeq seq s)));;;
    ret true.

Definition resetProfileDirectory : M bool :=
  let* s := get in
  if (lg_profileDirectorySeq s =? 0) && match lg_profileDirectoryEntry s with None => true | Some _ => false end
  then ret false
  else
    assign (fun s => set_dirty true (set_profileDirectoryEntry None (set_profileDirectorySeq 0 s)));;;
    ret true.

Definition report (changed : bool) : M unit := if changed then assign (set_unreported true) else ret tt.

Definition acknowledged_rows (s : Log) : list Row :=
  en_row <$> filter (fun entry => 0 < en_seq entry) (map_values (lg_entries s)).

(** [retained]: each row merged over what an earlier recovery holds of it. *)
Definition retain (held : list Row) (rows : list Row) : res (list Row) :=
  let! by_name := res_fold (fun m row => let! name := rowName row in Ok (map_set name row m)) [] held in
  let! by_name := res_fold (fun m row =>
    let! name := rowName row in
    let! row := match map_get name m with Some previous => merge previous row | None => Ok row end in
    Ok (map_set name row m)) by_name rows in
  Ok (map_values by_name).

Definition named_seal (row : Row) : M string :=
  let* name := lift (rowName row) in call (Seal name row).

Definition stageRecovery (generation : option string) : M bool :=
  let* s := get in
  let rows := acknowledged_rows s in
  match rows with
  | [] => ret true
  | _ =>
      try_catch
        (let* kept := (if runtimeAvailable then
            map_all named_seal rows;;;
            let work := mkWork rows KRestore [] [] (truthy_option generation) in
            let* key := call (KeepPending work) in
            match key with
            | Some key => assign (fun s => set_pending (map_set key work (lg_pending s)) s);;; ret true
            | None => ret false
            end
          else ret true) in
         if negb kept then ret false
         else
           let* s := get in
           let* retained := lift (retain (default [] (lg_recoveryRows s)) rows) in
           assign (set_recoveryRows (Some retained));;;
           ret true)
        (fun _ => ret false)
  end.

Definition refreshPending : M unit :=
  let* found := call ReadPending in
  match found with Some found => assign (set_pending found) | None => ret tt end.

Definition discard (key : string) : M unit :=
  let* gone := try_catch (call (DiscardPending key)) (fun _ => ret false) in
  if gone then assign (fun s => set_pending (map_delete key (lg_pending s)) s) else ret tt.

Definition adoptProfileDirectory : M unit :=
  assign (fun s => set_recoveryRows None (set_acknowledged [] (set_entries [] s)));;;
  try_catch (call ForgetCopies) (fun _ => ret tt);;;
  refreshPending;;;
  let* s := get in
  for_each discard (map_keys (lg_pending s)).

(** [for (const entry of this.entries.values()) entry.seq = 0] *)
Definition unseen (m : jsmap string Entry) : jsmap string Entry :=
  (fun p => (p.1, mkLogEntry 0 (en_row p.2))) <$> m.

Definition raw_ok (e : RawEntry) : bool := DIGEST (raw_k e) && safeCount (raw_seq e) && (0 <? raw_seq e).
Definition responsePage (page : Page) : bool := forallb raw_ok (pg_entries page) && safeCount (pg_head page).

(** The generation both carriers agree on; the outer [None] when they do not. *)
Definition coherentLibraryGeneration (header body : option string) : option (option string) :=
  match truthy_option body, truthy_option header with
  | Some b, Some h => if String.eqb b h then Some (Some b) else None
  | Some b, None => Some (Some b)
  | None, _ => Some header
  end.

Definition coherentResponsePage (res : Response) (body : Body) : option Page :=
  match body with
  | BodyPage page =>
      if negb (responsePage page) then None
      else match coherentLibraryGeneration (rs_generation res) (pg_generation page) with
      | None => None
      | Some generation =>
          Some (mkPage (with_default (truthy_option generation) (pg_generation page)) (pg_entries page) (pg_head page)
                  (pg_more page))
      end
  | _ => None
  end.

(** What a page changes in the rows held, and the fact entries it hands on. *)
Definition take_entry (st : list FactEntry * bool) (entry : RawEntry) : M (list FactEntry * bool) :=
  let '(facts, topology) := st in
  let fact row := mkFactEntry (raw_k entry) (raw_seq entry) (raw_v entry) row in
  let* read := readEntry (raw_k entry) (raw_v entry) in
  match read with
  | None => ret (facts ++ [fact None], topology)
  | Some ReadInvalidDirectory =>
      let* changed := invalidateProfileDirectory (raw_seq entry) in
      report changed;;; ret (facts ++ [fact None], true)
  | Some (ReadDirectory document) =>
      let* changed := acceptProfileDirectory (raw_seq entry) document in
      report changed;;; ret (facts ++ [fact None], true)
  | Some (ReadApprovals document) =>
      let* changed := acceptKidTitleApprovals (raw_seq entry) document in
      report changed;;; ret (facts ++ [fact None], topology)
  | Some (ReadRow row) =>
      let* s := get in
      let* name := lift (rowName row) in
      let previous := map_get name (lg_entries s) in
      let* merged := lift (merge_over previous row) in
      (if match previous with Some previous => en_seq previous <? raw_seq entry | None => true end
       then assign (fun s => set_unreported true
              (set_entries (map_set name (mkLogEntry (raw_seq entry) merged) (lg_entries s)) s))
       else ret tt);;;
      (if seq_in name (lg_acknowledged s) <? raw_seq entry
       then assign (fun s => set_dirty true
              (set_acknowledged (map_set name (mkLogEntry (raw_seq entry) row) (lg_acknowledged s)) s))
       else ret tt);;;
      ret (facts ++ [fact (Some row)], topology)
  end.

Fixpoint take_entries (st : list FactEntry * bool) (l : list RawEntry) : M (list FactEntry * bool) :=
  match l with
  | [] => ret st
  | entry :: l => let* st := take_entry st entry in take_entries st l
  end.

Inductive PassRead : Type := ReachedHead | Missing | Unread | OutOfFuel.

(** den-edge holds no log for this library. *)
Definition pass_missing : M PassRead :=
  let* s := get in
  let staged := existsb (fun entry => 0 <? en_seq entry) (map_values (lg_entries s)) in
  let* kept := stageRecovery None in
  if negb kept then ret Unread
  else
    assign (fun s => set_acknowledged [] (set_entries (unseen (lg_entries s)) (set_head 0 (set_memberRegistered false s))));;;
    let* lost := resetProfileDirectory in
    assign (set_dirty true);;;
    report (staged || lost);;;
    ret Missing.

(** The log is another: what was read is put back into it later, and it is read from the start. *)
Definition pass_restart (generation : option string) : M bool :=
  let* s := get in
  let* kept := (if directoryCommitted s then adoptProfileDirectory;;; ret true else stageRecovery generation) in
  if negb kept then ret false
  else
    assign (fun s => set_writeGeneration None (set_generation generation (set_memberRegistered false s)));;;
    registerMember;;;
    assign (fun s => set_entries (unseen (lg_entries s)) (set_head 0 s));;;
    resetProfileDirectory;;;
    assign (fun s => set_generationChanges (lg_generationChanges s + 1) (set_unreported true (set_dirty true
      (set_acknowledged [] (set_kidApprovalEntries [] s)))));;;
    ret true.

(** A page of the log as it is read on. *)
Definition pass_take (page : Page) : M bool :=
  assign (set_generation (pg_generation page));;;
  let* s := get in
  report (profileDirectoryPending s);;;
  assign (fun s => set_writeGeneration None (set_readCurrentGeneration true s));;;
  let* st := take_entries ([], false) (pg_entries page) in
  let '(facts, topology) := st in
  let head := default (pg_head page) (raw_seq <$> last (pg_entries page)) in
  let done := negb (pg_more page) || (length (pg_entries page) =? 0)%nat in
  call (KeepFacts (pg_generation page) head facts done topology);;;
  assign (fun s => set_head head (if head =? lg_head s then s else set_dirty true s));;;
  ret done.

(** [generation && page.generation && generation !== page.generation || page.head < head] *)
Definition other_log (s : Log) (page : Page) : bool :=
  match truthy_option (lg_generation s), truthy_option (pg_generation page) with
  | Some a, Some b => negb (String.eqb a b)
  | _, _ => false
  end || (pg_head page <? lg_head s).

(** One turn of [pass]'s loop: [inl] is what it returns. *)
Definition pass_turn : M (PassRead + unit) :=
  let* s := get in
  let* res := send (ChangesRequest (header_generation s) instanceWire (lg_head s) 1000) in
  (if rs_status res =? 410 then assign (set_moved true) else ret tt);;;
  if rs_status res =? 404 then let* read := pass_missing in ret (inl read)
  else if negb (ok_status res) then ret (inl Unread)
  else
    let* s := get in
    (if lg_refused s || negb (lg_credential s)
     then assign (set_refused false);;; registerMember;;; assign (set_credential true)
     else ret tt);;;
    let* body := lift (rs_body res) in
    match coherentResponsePage res body with
    | None => ret (inl Unread)
    | Some page =>
        let* s := get in
        if other_log s page then
          let* restarted := pass_restart (pg_generation page) in
          ret (if restarted then inr tt else inl Unread)
        else
          let* done := pass_take page in
          ret (if done then inl ReachedHead else inr tt)
    end.

Fixpoint pass_loop (fuel : nat) : M PassRead :=
  match fuel with
  | O => ret OutOfFuel
  | S fuel =>
      let* r := pass_turn in
      match r with inl read => ret read | inr _ => pass_loop fuel end
  end.

(** The work [pass] does on the lane. *)
Definition pass_lane (fuel : nat) : M PassRead := try_catch (pass_loop fuel) (fun _ => ret Unread).
End Lane.
