(* ===== verification/LogEdge.v ===== *)
(** * den-edge's side of a library log

    den-edge keeps the live row of every key under a sequence number, takes a batch by compare-and-set, and answers the
    rows past a sequence in order ([src/library/v3.rs] [apply_tiered], [range]; [src/library.rs] [batch]). A restore or a
    rewrite gives the library a generation no library had before. This file is that store, what it may answer a request
    (a request or an answer can be lost, and any request can be refused), and a browser's log working against it while
    other devices write and other code of the browser draws kept edits. *)

From S2P Require Import Prelude JsMap JsText Json Wire Clock LibraryV4 ProfileKeys ResetJournal LogState Log.
From stdpp Require Import relations.
Open Scope Z_scope.

(** ** The store *)

(** [ed_log] (everything the generation ever took) and [ed_past] (the generations before it) are history. *)
Record Edge : Type := mkEdge {
  ed_generation : string;
  ed_past : list string;
  ed_head : Z;
  ed_rows : list RawEntry;
  ed_log : list RawEntry
}.

Definition used (e : Edge) : list string := ed_generation e :: ed_past e.

Definition current (k : string) (e : Edge) : option RawEntry :=
  snd <$> list_find (fun row => raw_k row = k) (ed_rows e).

Definition accept (w : EdgeWrite) (e : Edge) : Edge :=
  let row := mkRaw (ew_k w) (ed_head e + 1) (ew_v w) in
  mkEdge (ed_generation e) (ed_past e) (ed_head e + 1) (filter (fun r => raw_k r <> ew_k w) (ed_rows e) ++ [row])
    (ed_log e ++ [row]).

Definition conflict_of (w : EdgeWrite) (row : option RawEntry) : Conflict :=
  match row with
  | Some row => mkConflict (ew_k w) (raw_seq row) (VSealed (raw_v row))
  | None => mkConflict (ew_k w) 0 VNull
  end.

(** A batch whose keys are distinct: every compare-and-set is against the store as the batch found it. *)
Definition apply_write (e0 : Edge) (st : Batch * Edge) (w : EdgeWrite) : Batch * Edge :=
  let '(batch, e) := st in
  if from_option raw_seq 0 (current (ew_k w) e0) =? ew_base w
  then (mkBatch (bt_applied batch ++ [(ew_k w, ed_head e + 1)]) (bt_conflicts batch), accept w e)
  else (mkBatch (bt_applied batch) (bt_conflicts batch ++ [conflict_of w (current (ew_k w) e0)]), e).

Definition apply_tiered (writes : list EdgeWrite) (e : Edge) : Batch * Edge :=
  foldl (apply_write e) (mkBatch [] [], e) writes.

(** A page: rows past [since] in order, as many as fit, at least one when there is one. *)
Definition is_page (since : Z) (page : Page) (e : Edge) : Prop :=
  exists n,
    let rows := filter (fun r => since < raw_seq r) (ed_rows e) in
    pg_generation page = Some (ed_generation e) /\ pg_head page = ed_head e /\
    pg_entries page = take n rows /\ (n = 0%nat -> rows = []) /\ pg_more page = (n <? length rows)%nat.

(** A conflict as answered: the value of a long answer may be left out. *)
Definition trimmed (c c' : Conflict) : Prop :=
  c' = c \/ exists k seq v, c = mkConflict k seq (VSealed v) /\ c' = mkConflict k seq VOmitted.

Definition batch_answer (batch batch' : Batch) : Prop :=
  bt_applied batch' = bt_applied batch /\ Forall2 trimmed (bt_conflicts batch) (bt_conflicts batch').

(** A good answer's header and body; the body may still be lost on the way. *)
Definition good (e : Edge) (res : Response) (body : Body -> Prop) : Prop :=
  ok_status res = true /\ (rs_generation res = None \/ rs_generation res = Some (ed_generation e)) /\
  match rs_body res with Ok b => body b | Throw _ => True end.

Inductive answers (e : Edge) : Request -> res Response -> Edge -> Prop :=
| answer_lost request m : answers e request (Throw m) e
| answer_refused request res : ok_status res = false -> answers e request (Ok res) e
| answer_batch wire writes answer :
    NoDup (ew_k <$> writes) ->
    (forall res, answer = Ok res -> good e res (fun b => exists batch,
       b = BodyBatch batch /\ batch_answer (apply_tiered writes e).1 batch)) ->
    answers e (BatchRequest (ed_generation e) wire writes) answer (apply_tiered writes e).2
| answer_member generation wire res : good e res (fun _ => True) -> answers e (MemberRequest generation wire) (Ok res) e
| answer_changes generation wire since limit res :
    good e res (fun b => exists page, b = BodyPage page /\ is_page since page e) ->
    answers e (ChangesRequest generation wire since limit) (Ok res) e.

(** ** Well-formed stores *)

Record edge_wf (e : Edge) : Prop := {
  wf_name : ed_generation e <> "" /\ (ed_generation e ∉ ed_past e);
  wf_rows : forall r, r ∈ ed_rows e -> r ∈ ed_log e;
  wf_seqs : forall r, r ∈ ed_log e -> 0 < raw_seq r <= ed_head e;
  wf_once : forall r r', r ∈ ed_log e -> r' ∈ ed_log e -> raw_seq r = raw_seq r' -> r = r';
  wf_live : forall r, r ∈ ed_log e -> exists r', r' ∈ ed_rows e /\ raw_k r' = raw_k r /\ raw_seq r <= raw_seq r';
  wf_keys : forall r r', r ∈ ed_rows e -> r' ∈ ed_rows e -> raw_k r = raw_k r' -> r = r';
  wf_sorted : StronglySorted (fun r r' => raw_seq r < raw_seq r') (ed_rows e);
  wf_head : 0 <= ed_head e
}.

(** Other devices write, and the library may be restored or rewritten under a new generation. *)
Inductive elsewhere (e : Edge) : Edge -> Prop :=
| elsewhere_batch writes : NoDup (ew_k <$> writes) -> elsewhere e (apply_tiered writes e).2
| elsewhere_restored e' : edge_wf e' -> used e ⊆ ed_past e' -> elsewhere e e'.

(** How a store stands to itself later, in the same generation. *)
Record grown (e e' : Edge) : Prop := {
  gr_generation : ed_generation e' = ed_generation e;
  gr_past : ed_past e' = ed_past e;
  gr_head : ed_head e <= ed_head e';
  gr_log : ed_log e ⊆ ed_log e';
  gr_rows : forall r, r ∈ ed_rows e' -> r ∈ ed_rows e \/ ed_head e < raw_seq r
}.

Definition later (e e' : Edge) : Prop := grown e e' \/ used e ⊆ ed_past e'.

#[local] Instance grown_preorder : PreOrder grown.
Proof.
  split; [intros e; split; [done|done|lia|done|auto]|].
  intros e1 e2 e3 [H1 H2 H3 H4 H5] [G1 G2 G3 G4 G5]. split; [congruence|congruence|lia|by etrans|].
  intros r [Hr|Hr]%G5; [|right; lia]. by apply H5.
Qed.

#[global] Instance later_preorder : PreOrder later.
Proof.
  split; [intros e; by left|]. intros e1 e2 e3 [H1|H1] [H2|H2].
  - left. by etrans.
  - right. destruct H1 as [Hg Hp _ _ _]. unfold used in *. by rewrite <-Hg, <-Hp.
  - right. destruct H2 as [_ Hp _ _ _]. by rewrite Hp.
  - right. etrans; [exact H1|]. etrans; [|exact H2]. unfold used. set_solver.
Qed.

(** A generation in use stays known, and one that is over never comes back. *)
Lemma later_used e e' g : later e e' -> g ∈ used e -> g ∈ used e'.
Proof.
  intros [[Hg Hp _ _ _]|Hu] Hin; [unfold used in *; by rewrite Hg, Hp|]. apply elem_of_cons. right. by apply Hu.
Qed.

Lemma later_over e e' g : later e e' -> g ∈ ed_past e -> g ∈ ed_past e'.
Proof. intros [[_ Hp _ _ _]|Hu] Hin; [by rewrite Hp|]. apply Hu, elem_of_cons. by right. Qed.

Lemma later_same e e' : edge_wf e' -> later e e' -> ed_generation e' = ed_generation e -> grown e e'.
Proof.
  intros Hwf [Hg|Hu] Heq; [done|]. destruct (wf_name _ Hwf) as [_ Hn]. rewrite Heq in Hn. destruct Hn. apply Hu.
  by apply elem_of_cons; left.
Qed.

Lemma current_Some k e r : current k e = Some r -> r ∈ ed_rows e /\ raw_k r = k.
Proof.
  unfold current. destruct (list_find _ _) as [[i r']|] eqn:Hf; [|done]. intros [= <-].
  apply list_find_Some in Hf as (Hl & Hk & _). split; [by eapply list_elem_of_lookup_2|done].
Qed.

Lemma current_None k e r : current k e = None -> r ∈ ed_rows e -> raw_k r <> k.
Proof.
  unfold current. destruct (list_find _ _) eqn:Hf; [done|]. intros _ Hin Hk.
  apply list_find_None in Hf. rewrite Forall_forall in Hf. by apply (Hf r).
Qed.

Lemma accept_wf w e : edge_wf e -> edge_wf (accept w e).
Proof.
  intros [H1 H2 H3 H4 H5 H6 H7 H8]. set (row := mkRaw (ew_k w) (ed_head e + 1) (ew_v w)).
  assert (Hrows : forall r, r ∈ ed_rows (accept w e) <-> (r ∈ ed_rows e /\ raw_k r <> ew_k w) \/ r = row).
  { intros r. cbn. rewrite elem_of_app, list_elem_of_filter, list_elem_of_singleton. fold row. tauto. }
  assert (Hlog : forall r, r ∈ ed_log (accept w e) <-> r ∈ ed_log e \/ r = row).
  { intros r. cbn. rewrite elem_of_app, list_elem_of_singleton. done. }
  assert (Hnew : forall r, r ∈ ed_log e -> raw_seq r <> ed_head e + 1) by (intros r Hr Heq; specialize (H3 r Hr); lia).
  split.
  - done.
  - intros r [[Hr _]| ->]%Hrows; apply Hlog; [left; by apply H2|by right].
  - cbn [accept ed_head]. intros r [Hr| ->]%Hlog; [specialize (H3 r Hr); lia|cbn; lia].
  - intros r r' [Hr| ->]%Hlog [Hr'| ->]%Hlog Heq; [by apply H4| | |done].
    + by destruct (Hnew r Hr).
    + by destruct (Hnew r' Hr').
  - intros r [Hr| ->]%Hlog; [|by exists row; split; [apply Hrows; right|]].
    destruct (decide (raw_k r = ew_k w)) as [Hk|Hk].
    + exists row. split; [apply Hrows; by right|]. split; [done|]. specialize (H3 r Hr). cbn. lia.
    + destruct (H5 r Hr) as (r' & Hr' & Hk' & Hle). exists r'. split; [|done]. apply Hrows. left. split; [done|congruence].
  - intros r r' [[Hr Hk]| ->]%Hrows [[Hr' Hk']| ->]%Hrows Heq; [by apply H6|done|by destruct Hk'|done].
  - cbn. apply StronglySorted_app_2; [|by apply StronglySorted_filter|by repeat constructor].
    intros r r' [_ Hr]%list_elem_of_filter ->%list_elem_of_singleton. specialize (H3 r (H2 r Hr)). cbn. lia.
  - cbn. lia.
Qed.

Lemma accept_grown w e : edge_wf e -> grown e (accept w e).
Proof.
  intros Hwf. split; cbn; [done|done|lia|intros r Hr; apply elem_of_app; by left|].
  intros r [[_ Hr]%list_elem_of_filter| ->%list_elem_of_singleton]%elem_of_app; [by left|right; cbn; lia].
Qed.

(** ** What a batch does *)

(** A write of the batch was applied at [seq], on the version the store held. *)
Definition applied_at (e e' : Edge) (w : EdgeWrite) (seq : Z) : Prop :=
  from_option raw_seq 0 (current (ew_k w) e) = ew_base w /\ ed_head e < seq /\ mkRaw (ew_k w) seq (ew_v w) ∈ ed_log e'.

Lemma apply_fold e0 writes batch e :
  edge_wf e0 -> edge_wf e -> grown e0 e ->
  let '(batch', e') := foldl (apply_write e0) (batch, e) writes in
  edge_wf e' /\ grown e0 e' /\ grown e e' /\
  (forall k seq, (k, seq) ∈ bt_applied batch' -> (k, seq) ∈ bt_applied batch \/
     exists w, w ∈ writes /\ ew_k w = k /\ applied_at e0 e' w seq) /\
  (forall c, c ∈ bt_conflicts batch' -> c ∈ bt_conflicts batch \/
     exists w, w ∈ writes /\ c = conflict_of w (current (ew_k w) e0)).
Proof.
  intros Hwf0. revert batch e. induction writes as [|w writes IH]; intros batch e Hwf Hg; cbn [foldl].
  { split; [done|]. split; [done|]. split; [done|]. split; auto. }
  unfold apply_write at 2. destruct (Z.eqb_spec (from_option raw_seq 0 (current (ew_k w) e0)) (ew_base w)) as [Hb|Hb].
  - set (batch1 := mkBatch (bt_applied batch ++ [(ew_k w, ed_head e + 1)]) (bt_conflicts batch)).
    specialize (IH batch1 (accept w e) (accept_wf w e Hwf) ltac:(etrans; [exact Hg|by apply accept_grown])).
    destruct (foldl (apply_write e0) (batch1, accept w e) writes) as [batch' e'].
    destruct IH as (Hw' & Hg0 & Hg1 & Ha & Hc). split; [done|]. split; [done|].
    split; [etrans; [by apply accept_grown|done]|]. split.
    + intros k seq [Hin|(w' & Hw1 & Hw2)]%Ha; [|right; exists w'; split; [by constructor|done]].
      cbn in Hin. apply elem_of_app in Hin as [Hin|Hin]; [by left|right].
      apply list_elem_of_singleton in Hin. simplify_eq. exists w. split; [by constructor|]. split; [done|].
      split; [done|]. split; [destruct Hg; lia|]. apply (gr_log _ _ Hg1). cbn. apply elem_of_app. right.
      by apply list_elem_of_singleton.
    + intros c [Hin|(w' & Hw1 & Hw2)]%Hc; [by left|right; exists w'; split; [by constructor|done]].
  - set (batch1 := mkBatch (bt_applied batch) (bt_conflicts batch ++ [conflict_of w (current (ew_k w) e0)])).
    specialize (IH batch1 e Hwf Hg). destruct (foldl (apply_write e0) (batch1, e) writes) as [batch' e'].
    destruct IH as (Hw' & Hg0 & Hg1 & Ha & Hc). split; [done|]. split; [done|]. split; [done|]. split.
    + intros k seq [Hin|(w' & Hw1 & Hw2)]%Ha; [by left|right; exists w'; split; [by constructor|done]].
    + intros c [Hin|(w' & Hw1 & Hw2)]%Hc; [|right; exists w'; split; [by constructor|done]].
      cbn in Hin. apply elem_of_app in Hin as [Hin| ->%list_elem_of_singleton]; [by left|right].
      exists w. split; [by constructor|done].
Qed.

Lemma apply_tiered_spec writes e :
  edge_wf e ->
  edge_wf (apply_tiered writes e).2 /\ grown e (apply_tiered writes e).2 /\
  (forall k seq, (k, seq) ∈ bt_applied (apply_tiered writes e).1 ->
     exists w, w ∈ writes /\ ew_k w = k /\ applied_at e (apply_tiered writes e).2 w seq) /\
  (forall c, c ∈ bt_conflicts (apply_tiered writes e).1 ->
     exists w, w ∈ writes /\ c = conflict_of w (current (ew_k w) e)).
Proof.
  intros Hwf. unfold apply_tiered. pose proof (apply_fold e writes (mkBatch [] []) e Hwf Hwf ltac:(done)) as Hf.
  destruct (foldl (apply_write e) (mkBatch [] [], e) writes) as [batch e'].
  destruct Hf as (H1 & H2 & _ & H3 & H4). split; [done|]. split; [done|]. split.
  - intros k seq [Hin%not_elem_of_nil|?]%H3; done.
  - intros c [Hin%not_elem_of_nil|?]%H4; done.
Qed.

Lemma elsewhere_later e e' : edge_wf e -> elsewhere e e' -> edge_wf e' /\ later e e'.
Proof.
  intros Hwf [writes Hk|e2 Hwf2 Hu].
  - destruct (apply_tiered_spec writes e Hwf) as (H1 & H2 & _). split; [done|by left].
  - split; [done|by right].
Qed.

Lemma env_later e e' : edge_wf e -> rtc elsewhere e e' -> edge_wf e' /\ later e e'.
Proof.
  intros Hwf Hst. induction Hst as [e|e1 e2 e3 H12 _ IH]; [done|].
  destruct (elsewhere_later e1 e2 Hwf H12) as [Hwf2 Hl]. destruct (IH Hwf2) as [Hwf3 Hl']. split; [done|by etrans].
Qed.

Lemma answers_later e request answer e' : edge_wf e -> answers e request answer e' -> edge_wf e' /\ later e e'.
Proof.
  intros Hwf []; try done. destruct (apply_tiered_spec writes e Hwf) as (H1 & H2 & _). split; [done|by left].
Qed.

(** ** Running the log's work *)

Section Running.
Context `{NamePolicy, DocumentPolicy, MergePolicy, Sealing, LogConfig}.

(** What a call may be answered, and the store after it. A value sealed opens as its row, and a registration under way
    ends without an error ([putMember] catches its own); nothing is assumed of the clock and the vault. *)
Definition replies (op : Eff) (e : Edge) : res (answer op) -> Edge -> Prop :=
  match op return res (answer op) -> Edge -> Prop with
  | Send request => fun r e' => answers e request r e'
  | Seal name row => fun r e' => e' = e /\ forall v, r = Ok v -> openEntry (rowKey name) v = OpenedRow row
  | OpenEntry k v => fun r e' => e' = e /\ forall opened, r = Ok opened -> opened = openEntry k v
  | AwaitRegistering => fun r e' => e' = e /\ r = Ok tt
  | _ => fun _ e' => e' = e
  end.

(** Code off the lane may change the log where a piece of work awaits, but not what belongs to the lane. Two operations of
    the source do change that off it, and no run here has either: compaction, which commits a rewrite and clears what is
    acknowledged under its new generation ([compact]), and the copy of a library into a moved one ([takeMoved]). *)
Definition view (s : Log) : jsmap string Entry * option string * Z := (lg_acknowledged s, lg_generation s, lg_head s).
Definition other_code (s s' : Log) : Prop := view s' = view s /\ lg_writeGeneration s' = lg_writeGeneration s.

(** The pieces of work the lane runs, one after the other. *)
Inductive work : M unit -> Prop :=
| work_ops ops riders outcome : work (assign (set_outcome outcome);;; sendOps ops riders;;; ret tt)
| work_at row base : work (writeAt_lane row base;;; ret tt)
| work_row row outcome : work (assign (set_outcome outcome);;; writeSerial row;;; ret tt)
| work_flush size groups outcome : work (assign (set_outcome outcome);;; flush_groups size groups;;; ret tt)
| work_pass fuel : work (pass_lane fuel;;; ret tt).

Record config : Type := mkConfig { c_log : Log; c_prog : prog unit; c_edge : Edge }.

Definition start (m : M unit) (s : Log) (e : Edge) : config := let '(s', p) := m s in mkConfig s' p e.

Inductive step : config -> config -> Prop :=
| step_elsewhere s p e e' : elsewhere e e' -> step (mkConfig s p e) (mkConfig s p e')
| step_other s s' p e : other_code s s' -> step (mkConfig s p e) (mkConfig s' p e)
| step_call s op k e r e1 e2 :
    replies op e r e1 -> rtc elsewhere e1 e2 ->
    step (mkConfig s (Call op k) e) (mkConfig (k r s).1 (k r s).2 e2)
| step_work s r e m : work m -> step (mkConfig s (Ret r) e) (start m s e).
End Running.
