(* ===== verification/LogSafety.v ===== *)
(** * What the log knows of den-edge

    Whatever den-edge answers and loses, whatever other devices write and however often the library is restored, what a
    browser's log calls acknowledged is what den-edge took, everything up to the head it read is acknowledged, and a
    write replaces exactly the version it was made from. The programs of the lane are taken apart by a logic of
    preconditions ([lwp]) whose calls let the rest of the world run. *)

From S2P Require Import Prelude JsMap JsText Json Wire Clock LibraryV4 ProfileKeys ResetJournal LogState Log LogEdge.
From stdpp Require Import relations.
Open Scope Z_scope.

(** What reading a stored row tells of its name ([openEntry] checks it against the key). *)
Class SealingLaws `{NamePolicy, Sealing} : Prop :=
  open_named : forall k v row, openEntry k v = OpenedRow row -> exists name, rowName row = Ok name /\ rowKey name = k.

(** The lane's view of the library: what is acknowledged, in which generation, read to where. *)
Abbreviation Vw := (jsmap string Entry * option string * Z)%type.

(** ** The logic *)

Section Logic.
Context `{NamePolicy, DocumentPolicy, MergePolicy, Sealing, LogConfig}.
(** What must hold at every call. *)
Context (C : Eff -> Log -> Edge -> Prop).

Fixpoint pwp {A} (p : prog A) (Q : res A -> Log -> Edge -> Prop) (s : Log) (e : Edge) : Prop :=
  match p with
  | Ret r => Q r s e
  | Call op k =>
      forall s1 e1, other_code s s1 -> edge_wf e1 -> later e e1 ->
      C op s1 e1 /\
      forall r e2 e3, replies op e1 r e2 -> edge_wf e2 -> later e1 e2 -> edge_wf e3 -> later e2 e3 ->
      match k r s1 with (s2, p2) => pwp p2 Q s2 e3 end
  end.

Definition lwp {A} (m : M A) (Q : res A -> Log -> Edge -> Prop) (s : Log) (e : Edge) : Prop :=
  match m s with (s1, p) => pwp p Q s1 e end.

Lemma pwp_bind {A B} (f : res A -> M B) (Q : res B -> Log -> Edge -> Prop) :
  forall (p : prog A) s e, pwp p (fun r => lwp (f r) Q) s e -> lwp (prog_bind p f) Q s e.
Proof.
  fix IH 1. intros [r|op k] s e Hp; [exact Hp|].
  intros s1 e1 Hs1 Hwf1 Hl1. destruct (Hp s1 e1 Hs1 Hwf1 Hl1) as [HC Hk]. split; [exact HC|].
  intros r e2 e3 Hr Hwf2 Hl2 Hwf3 Hl3. specialize (Hk r e2 e3 Hr Hwf2 Hl2 Hwf3 Hl3).
  destruct (k r s1) as [s2 p2]. exact (IH p2 s2 e3 Hk).
Qed.

Lemma pwp_mono {A} (Q Q' : res A -> Log -> Edge -> Prop) :
  (forall r s e, Q r s e -> Q' r s e) -> forall (p : prog A) s e, pwp p Q s e -> pwp p Q' s e.
Proof.
  intros HQ. fix IH 1. intros [r|op k] s e Hp; [by apply HQ|].
  intros s1 e1 Hs1 Hwf1 Hl1. destruct (Hp s1 e1 Hs1 Hwf1 Hl1) as [HC Hk]. split; [exact HC|].
  intros r e2 e3 Hr Hwf2 Hl2 Hwf3 Hl3. specialize (Hk r e2 e3 Hr Hwf2 Hl2 Hwf3 Hl3).
  destruct (k r s1) as [s2 p2]. exact (IH p2 s2 e3 Hk).
Qed.

(** The store at the end is the store at the start, later. *)
Lemma pwp_later_mono {A} (Q Q' : res A -> Log -> Edge -> Prop) (p : prog A) s e :
  (forall r s1 e1, later e e1 -> Q r s1 e1 -> Q' r s1 e1) -> pwp p Q s e -> pwp p Q' s e.
Proof.
  revert p s e. fix IH 1. intros [r|op k] s e HQ Hp; [by apply HQ|].
  intros s1 e1 Hs1 Hwf1 Hl1. destruct (Hp s1 e1 Hs1 Hwf1 Hl1) as [HC Hk]. split; [exact HC|].
  intros r e2 e3 Hr Hwf2 Hl2 Hwf3 Hl3. specialize (Hk r e2 e3 Hr Hwf2 Hl2 Hwf3 Hl3).
  destruct (k r s1) as [s2 p2]. apply (IH p2 s2 e3); [|exact Hk].
  intros r' s' e' Hl'. apply HQ. do 3 (etrans; [eassumption|]). exact Hl'.
Qed.

Lemma lwp_later_mono {A} (m : M A) (Q Q' : res A -> Log -> Edge -> Prop) s e :
  (forall r s1 e1, later e e1 -> Q r s1 e1 -> Q' r s1 e1) -> lwp m Q s e -> lwp m Q' s e.
Proof. unfold lwp. destruct (m s) as [s1 p]. by apply pwp_later_mono. Qed.

Lemma lwp_mono {A} (m : M A) Q Q' s e : (forall r s e, Q r s e -> Q' r s e) -> lwp m Q s e -> lwp m Q' s e.
Proof. unfold lwp. destruct (m s) as [s1 p]. intros HQ. by apply pwp_mono. Qed.

Lemma lwp_ret {A} (a : A) (Q : res A -> Log -> Edge -> Prop) s e : Q (Ok a) s e -> lwp (ret a) Q s e.
Proof. done. Qed.

Lemma lwp_lift {A} (r : res A) (Q : res A -> Log -> Edge -> Prop) s e : Q r s e -> lwp (lift r) Q s e.
Proof. done. Qed.

Lemma lwp_throw {A} m (Q : res A -> Log -> Edge -> Prop) s e : Q (Throw m) s e -> lwp (throw m) Q s e.
Proof. done. Qed.

Lemma lwp_get (Q : res Log -> Log -> Edge -> Prop) s e : Q (Ok s) s e -> lwp get Q s e.
Proof. done. Qed.

Lemma lwp_assign f (Q : res unit -> Log -> Edge -> Prop) s e : Q (Ok tt) (f s) e -> lwp (assign f) Q s e.
Proof. done. Qed.

Lemma lwp_bind {A B} (m : M A) (f : A -> M B) Q s e :
  lwp m (fun r s e => match r with Ok a => lwp (f a) Q s e | Throw x => Q (Throw x) s e end) s e -> lwp (bind m f) Q s e.
Proof.
  intros Hp. set (F := fun r => match r with Ok a => f a | Throw x => throw x end).
  assert (lwp (bind m f) Q s e = match m s with (s1, p) => lwp (prog_bind p F) Q s1 e end) as ->.
  { unfold lwp, bind. by destruct (m s). }
  unfold lwp at 1 in Hp. destruct (m s) as [s1 p]. apply pwp_bind. revert Hp. apply pwp_mono. by intros [a|x] s2 e2.
Qed.

Lemma lwp_try {A} (m : M A) (h : string -> M A) Q s e :
  lwp m (fun r s e => match r with Ok a => Q (Ok a) s e | Throw x => lwp (h x) Q s e end) s e ->
  lwp (try_catch m h) Q s e.
Proof.
  intros Hp. set (F := fun r => match r with Ok a => ret a | Throw x => h x end).
  assert (lwp (try_catch m h) Q s e = match m s with (s1, p) => lwp (prog_bind p F) Q s1 e end) as ->.
  { unfold lwp, try_catch. by destruct (m s). }
  unfold lwp at 1 in Hp. destruct (m s) as [s1 p]. apply pwp_bind. revert Hp. apply pwp_mono. by intros [a|x] s2 e2.
Qed.

Lemma lwp_call op (Q : res (answer op) -> Log -> Edge -> Prop) s e :
  (forall s1 e1, other_code s s1 -> edge_wf e1 -> later e e1 ->
     C op s1 e1 /\
     forall r e2 e3, replies op e1 r e2 -> edge_wf e2 -> later e1 e2 -> edge_wf e3 -> later e2 e3 -> Q r s1 e3) ->
  lwp (call op) Q s e.
Proof. intros Hc. exact Hc. Qed.

(** ** Programs that leave the lane's view alone *)

Definition is_batch (op : Eff) : bool := match op with Send (BatchRequest _ _ _) => true | _ => false end.

(** The calls that send no batch are allowed while the view is [v]. *)
Definition calm (v : Vw) (e : Edge) : Prop :=
  forall op s1 e1, is_batch op = false -> view s1 = v -> edge_wf e1 -> later e e1 -> C op s1 e1.

Lemma calm_mono v e e1 : calm v e -> later e e1 -> calm v e1.
Proof. intros Hc Hl op s2 e2 Hb Hv2 Hwf Hl2. apply Hc; [done|done|done|by etrans]. Qed.

(** Where the view is [v], [m] keeps it, and its answers satisfy [R]. *)
Definition quiet (v : Vw) {A} (m : M A) (R : res A -> Prop) : Prop :=
  forall s e (Q : res A -> Log -> Edge -> Prop),
    view s = v -> edge_wf e -> calm v e ->
    (forall r s1 e1, R r -> view s1 = v -> edge_wf e1 -> later e e1 -> Q r s1 e1) ->
    lwp m Q s e.

Definition any {A} (r : res A) : Prop := True.

Lemma quiet_mono v {A} (m : M A) (R R' : res A -> Prop) : (forall r, R r -> R' r) -> quiet v m R -> quiet v m R'.
Proof. intros HR Hm s e Q Hv Hwf Hc HQ. apply Hm; [done..|]. intros r s1 e1 Hr. apply HQ. by apply HR. Qed.

Lemma quiet_any v {A} (m : M A) R : quiet v m R -> quiet v m any.
Proof. by apply quiet_mono. Qed.

Lemma quiet_ret v {A} (a : A) (R : res A -> Prop) : R (Ok a) -> quiet v (ret a) R.
Proof. intros HR s e Q Hv Hwf Hc HQ. by apply lwp_ret, HQ. Qed.

Lemma quiet_lift v {A} (r : res A) (R : res A -> Prop) : R r -> quiet v (lift r) R.
Proof. intros HR s e Q Hv Hwf Hc HQ. by apply lwp_lift, HQ. Qed.

Lemma quiet_throw v {A} m (R : res A -> Prop) : R (Throw m) -> quiet v (throw m) R.
Proof. intros HR s e Q Hv Hwf Hc HQ. by apply lwp_throw, HQ. Qed.

Lemma quiet_assign v f (R : res unit -> Prop) : (forall s, view (f s) = view s) -> R (Ok tt) -> quiet v (assign f) R.
Proof. intros Hf HR s e Q Hv Hwf Hc HQ. apply lwp_assign, HQ; [done|by rewrite Hf|done|done]. Qed.

Lemma quiet_get v : quiet v get (fun r => exists s, r = Ok s /\ view s = v).
Proof. intros s e Q Hv Hwf Hc HQ. apply lwp_get, HQ; [by exists s|done..]. Qed.

Lemma quiet_call v op (R : res (answer op) -> Prop) :
  is_batch op = false -> (forall e r e', replies op e r e' -> R r) -> quiet v (call op) R.
Proof.
  intros Hb HR s e Q Hv Hwf Hc HQ. apply lwp_call. intros s1 e1 [Hv1 _] Hwf1 Hl1. split; [apply Hc; congruence|].
  intros r e2 e3 Hr Hwf2 Hl2 Hwf3 Hl3. apply HQ; [by eapply HR|congruence|done|]. by do 2 (etrans; [eassumption|]).
Qed.

Lemma quiet_let v {A B} (m : M A) (f : A -> M B) (R : res A -> Prop) (R' : res B -> Prop) :
  quiet v m R -> (forall a, R (Ok a) -> quiet v (f a) R') -> (forall x, R (Throw x) -> R' (Throw x)) ->
  quiet v (bind m f) R'.
Proof.
  intros Hm Hf Hx s e Q Hv Hwf Hc HQ. apply lwp_bind, Hm; [done..|]. intros [a|x] s1 e1 Hr Hv1 Hwf1 Hl1.
  - apply (Hf a Hr); [done|done|by eapply calm_mono|]. intros r s2 e2 Hr2 Hv2 Hwf2 Hl2.
    apply HQ; [done|done|done|by etrans].
  - by apply HQ; [apply Hx| | |].
Qed.

Lemma quiet_seq v {A B} (m : M A) (f : A -> M B) :
  quiet v m any -> (forall a, quiet v (f a) any) -> quiet v (bind m f) any.
Proof. intros Hm Hf. eapply quiet_let; [exact Hm|by intros; apply Hf|done]. Qed.

Lemma quiet_try v {A} (m : M A) (h : string -> M A) (R R' : res A -> Prop) :
  quiet v m R -> (forall a, R (Ok a) -> R' (Ok a)) -> (forall x, quiet v (h x) R') -> quiet v (try_catch m h) R'.
Proof.
  intros Hm Ha Hh s e Q Hv Hwf Hc HQ. apply lwp_try, Hm; [done..|]. intros [a|x] s1 e1 Hr Hv1 Hwf1 Hl1.
  - apply HQ; [by apply Ha|done..].
  - apply (Hh x); [done|done|by eapply calm_mono|]. intros r s2 e2 Hr2 Hv2 Hwf2 Hl2.
    apply HQ; [done|done|done|by etrans].
Qed.

Ltac quiet_step :=
  match goal with
  | |- quiet _ (bind _ _) any => apply quiet_seq; [|intros ?]
  | |- quiet _ (ret _) _ => apply quiet_ret
  | |- quiet _ (lift _) any => by apply quiet_lift
  | |- quiet _ (throw _) any => by apply quiet_throw
  | |- quiet _ (assign _) _ => apply quiet_assign; [intros ?|]
  | |- quiet _ get any => eapply quiet_any, quiet_get
  | |- quiet _ (call ?op) any => by apply (quiet_call _ op any)
  | |- quiet _ (try_catch _ _) any => apply (quiet_try _ _ _ any any); [|done|intros ?]
  | |- quiet _ (if ?b then _ else _) _ => destruct b
  | |- quiet _ (match ?x with _ => _ end) _ => destruct x
  | |- any _ => exact I
  | |- view _ = view _ => repeat case_match; reflexivity
  end.
Ltac quiet_auto := repeat quiet_step; try (eauto with quiet; fail).

Create HintDb quiet.

Lemma quiet_observeProtocol v res : quiet v (observeProtocol res) any.
Proof. unfold observeProtocol. quiet_auto. Qed.
#[local] Hint Resolve quiet_observeProtocol : quiet.

Lemma quiet_send v request : is_batch (Send request) = false -> quiet v (send request) any.
Proof. intros Hb. unfold send. apply quiet_seq; [by apply quiet_call|]. intros res. quiet_auto. Qed.

Lemma quiet_failed v res outcome : quiet v (failed res outcome) any.
Proof. unfold failed, refuse. quiet_auto. Qed.
#[local] Hint Resolve quiet_failed : quiet.

Lemma quiet_adoptGeneration v res : quiet v (adoptGeneration res) any.
Proof. unfold adoptGeneration. quiet_auto. Qed.
#[local] Hint Resolve quiet_adoptGeneration : quiet.

Lemma quiet_put v generation : quiet v (put generation) any.
Proof. unfold put. quiet_auto. by apply quiet_send. Qed.
#[local] Hint Resolve quiet_put : quiet.

(** Registration ends without an error. *)
Lemma quiet_putMember v : quiet v putMember (fun r => r = Ok tt).
Proof.
  unfold putMember. apply (quiet_try _ _ _ any); [quiet_auto|by intros []|intros x; by apply quiet_ret].
Qed.

Lemma quiet_registerMember v : quiet v registerMember (fun r => r = Ok tt).
Proof.
  unfold registerMember. eapply quiet_let; [apply quiet_get| |by intros x (s & [=] & _)].
  intros s _. destruct (lg_memberRegistered s); [by apply quiet_ret|]. destruct (lg_registering s).
  { apply (quiet_call _ AwaitRegistering); [done|]. by intros e r e' [_ ->]. }
  eapply quiet_let; [by apply (quiet_assign v _ (fun r => r = Ok tt))| |done]. intros _ _.
  eapply quiet_let; [apply quiet_putMember| |done]. intros _ _. by apply quiet_assign.
Qed.
#[local] Hint Extern 1 (quiet _ registerMember any) => eapply quiet_any, quiet_registerMember : quiet.

(** A stored value read as a row. *)
Definition reads (k v : string) (row : Row) : Prop :=
  exists row0, openEntry k v = OpenedRow row0 /\ (row = row0 \/ exists now, row = believe now row0).

Lemma quiet_noteFormat v row : quiet v (noteFormat row) any.
Proof. unfold noteFormat. quiet_auto. Qed.
#[local] Hint Resolve quiet_noteFormat : quiet.

Lemma quiet_note_backup v b : quiet v (note_backup b) any.
Proof. unfold note_backup. quiet_auto. Qed.
#[local] Hint Resolve quiet_note_backup : quiet.

(** [readEntry] reads every row of a format this build reads, and answers only rows it read. *)
Definition read_ok (k v : string) (r : res (option Read)) : Prop :=
  (forall row, r = Ok (Some (ReadRow row)) -> reads k v row) /\
  (forall a row, r = Ok a -> openEntry k v = OpenedRow row -> preV4Row row = false ->
     exists now, a = Some (ReadRow (believe now row))).

Lemma quiet_readEntry vw k v : quiet vw (readEntry k v) (read_ok k v).
Proof.
  unfold readEntry. eapply quiet_let.
  - apply (quiet_call _ (OpenEntry k v) (fun r => forall opened, r = Ok opened -> opened = openEntry k v)); [done|].
    by intros e r e' [_ Hr].
  - intros opened Ho. specialize (Ho opened eq_refl).
    assert (Hthrow : forall x, read_ok k v (Throw x)) by done.
    eapply quiet_let; [by apply (quiet_assign _ _ any)| |done]. intros _ _.
    assert (Hnone : forall m : M (option Read), (forall row, opened = OpenedRow row -> preV4Row row = true) ->
      quiet vw m (fun r => forall row, r <> Ok (Some (ReadRow row))) -> quiet vw m (read_ok k v)).
    { intros m Hp. apply quiet_mono. intros r Hr. split; [intros row ->; by destruct (Hr row)|].
      intros a row -> Hrow Hf. rewrite (Hp row) in Hf; [done|congruence]. }
    destruct opened as [row| | | | | |]; [|apply Hnone; [done|]..].
    + destruct (preV4Row row) eqn:Hpre.
      { apply Hnone; [by intros row' [= <-]|].
        eapply quiet_let; [apply quiet_note_backup|by intros; apply quiet_ret|done]. }
      eapply quiet_let; [apply quiet_noteFormat| |done]. intros _ _.
      eapply quiet_let; [by apply (quiet_call _ Now any)| |done]. intros now _.
      apply quiet_ret. split; [intros row' [= <-]; exists row; split; [done|right; by exists now]|].
      intros a row' [= <-] Hrow _. exists now. congruence.
    + by apply quiet_ret.
    + by apply quiet_ret.
    + by apply quiet_ret.
    + eapply quiet_let; [apply quiet_note_backup|by intros; apply quiet_ret|done].
    + eapply quiet_let; [by apply (quiet_assign _ _ any)|by intros; apply quiet_ret|done].
    + destruct (match value with Some value => preV4Json value | None => false end).
      * eapply quiet_let; [apply quiet_note_backup|by intros; apply quiet_ret|done].
      * eapply quiet_let; [by apply (quiet_assign _ _ any)|by intros; apply quiet_ret|done].
  - by intros x _.
Qed.

Lemma quiet_householdRows v rows : quiet v (householdRows rows) any.
Proof. unfold householdRows. quiet_auto. Qed.
#[local] Hint Resolve quiet_householdRows : quiet.

Lemma quiet_refuse_as v code : quiet v (refuse_as code) any.
Proof. unfold refuse_as, refuse. quiet_auto. Qed.
#[local] Hint Resolve quiet_refuse_as : quiet.

Lemma quiet_scope_writes v documents waiting : quiet v (scope_writes documents waiting) any.
Proof. unfold scope_writes. quiet_auto. Qed.

Lemma quiet_map_all v {A B} (f : A -> M B) (R : B -> Prop) (l : list A) :
  (forall x, quiet v (f x) (fun r => forall b, r = Ok b -> R b)) ->
  quiet v (map_all f l) (fun r => forall bs, r = Ok bs -> Forall R bs).
Proof.
  intros Hf. induction l as [|x l IH]; cbn [map_all]; [apply quiet_ret; by intros bs [= <-]|].
  eapply quiet_let; [apply Hf| |by intros y _ bs [=]]. intros b Hb.
  eapply quiet_let; [apply IH| |by intros y _ bs [=]]. intros bs Hbs.
  apply quiet_ret. intros ? [= <-]. constructor; [by apply Hb|by apply Hbs].
Qed.

(** A write sealed: it opens as its row, under the key of its name, and names the version the view holds. *)
Definition sealed_ok (w : Sealed) : Prop :=
  sw_k w = rowKey (sw_name w) /\ openEntry (sw_k w) (sw_v w) = OpenedRow (sw_row w).

Definition based (v : Vw) (w : Sealed) : Prop := sealed_ok w /\ sw_base w = seq_in (sw_name w) v.1.1.

Lemma quiet_seal v name row (R : res string -> Prop) :
  (forall r, (forall t, r = Ok t -> openEntry (rowKey name) t = OpenedRow row) -> R r) -> quiet v (call (Seal name row)) R.
Proof. intros HR. apply (quiet_call _ (Seal name row)); [done|]. intros e r e' [_ Hr]. by apply HR. Qed.

Lemma quiet_seal_row v name row base :
  quiet v (seal_row name row base) (fun r => forall w, r = Ok w ->
    sealed_ok w /\ sw_name w = name /\ sw_row w = row /\ sw_base w = base).
Proof.
  unfold seal_row.
  eapply quiet_let; [apply (quiet_seal _ name row (fun r => forall t, r = Ok t -> openEntry (rowKey name) t = OpenedRow row)); auto
    | |by intros x _ w [=]].
  intros t Ht. apply quiet_ret. intros w [= <-]. split; [split; [done|by apply Ht]|done].
Qed.

(** A rider as sent: merged over what the view holds of it. *)
Definition rides (v : Vw) (rider : SettingsRow) (w : Sealed) : Prop :=
  based v w /\ rowName (RSettings rider) = Ok (sw_name w) /\
  merge_over (map_get (sw_name w) v.1.1) (RSettings rider) = Ok (sw_row w).

Lemma quiet_seal_rider v rider : quiet v (seal_rider rider) (fun r => forall w, r = Ok w -> rides v rider w).
Proof.
  unfold seal_rider. eapply quiet_let; [apply quiet_get| |by intros x (s & [=] & _)]. intros s (s' & [= <-] & Hv).
  eapply quiet_let; [by apply (quiet_lift _ _ (fun r => r = rowName (RSettings rider)))| |by intros x _ w [=]]. intros name Hname.
  eapply quiet_let; [by apply (quiet_lift _ _ (fun r => r = merge_over (map_get name (lg_acknowledged s)) (RSettings rider)))| |by intros x _ w [=]].
  intros row Hrow. eapply quiet_mono; [|apply quiet_seal_row]. intros r Hr w ->.
  destruct (Hr w eq_refl) as (Hok & Hn & Hr' & Hb). subst v. rewrite <-Hn in *. rewrite <-Hr' in Hrow.
  split; [split; [done|by rewrite Hb]|]. split; [by rewrite Hname|by rewrite Hrow].
Qed.

(** A document as sent. *)
Definition written (v : Vw) (document : DocumentRow) (w : Sealed) : Prop :=
  based v w /\ rowName (RDocument document) = Ok (sw_name w) /\ sw_row w = RDocument document.

Lemma quiet_seal_document v document :
  quiet v (seal_document document) (fun r => forall w, r = Ok (Some w) -> written v document w).
Proof.
  unfold seal_document.
  eapply quiet_let; [by apply (quiet_lift _ _ (fun r => r = rowName (RDocument document)))| |by intros x _ w [=]]. intros name Hname.
  eapply quiet_let; [by apply (quiet_lift _ _ any)| |by intros x _ w [=]]. intros fits _.
  destruct (negb fits); [by apply quiet_ret|].
  eapply quiet_let; [apply (quiet_seal _ name (RDocument document)
    (fun r => forall t, r = Ok t -> openEntry (rowKey name) t = OpenedRow (RDocument document))); auto| |by intros x _ w [=]].
  intros t Ht. eapply quiet_let; [apply quiet_get| |by intros x (s & [=] & _)]. intros s (s' & [= <-] & Hv).
  apply quiet_ret. intros w [= <-]. subst v. split; [split; [split; [done|by apply Ht]|done]|]. by split; [symmetry|].
Qed.

Lemma quiet_seal_documents v documents :
  quiet v (seal_documents documents) (fun r => forall ws, r = Ok (Some ws) -> Forall2 (written v) documents ws).
Proof.
  induction documents as [|d ds IH]; cbn [seal_documents]; [apply quiet_ret; intros ws [= <-]; constructor|].
  eapply quiet_let; [apply quiet_seal_document| |by intros x _ ws [=]]. intros [w|] Hw; [|by apply quiet_ret].
  eapply quiet_let; [apply IH| |by intros x _ ws [=]]. intros [ws|] Hws; apply quiet_ret; [|done].
  intros ? [= <-]. constructor; [by apply Hw|by apply Hws].
Qed.

Lemma quiet_for_each v {A} (f : A -> M unit) l : (forall x, quiet v (f x) any) -> quiet v (for_each f l) any.
Proof. intros Hf. induction l as [|x l IH]; cbn [for_each]; quiet_auto. Qed.

Lemma quiet_stageRecovery v generation : quiet v (stageRecovery generation) any.
Proof.
  unfold stageRecovery, named_seal. quiet_step; [quiet_step|]. destruct (acknowledged_rows a); [by apply quiet_ret|].
  apply (quiet_try _ _ _ any any); [|done|intros; by apply quiet_ret]. quiet_step; [|quiet_auto].
  quiet_step; [|by apply quiet_ret]. quiet_step; [|quiet_auto].
  eapply quiet_any, (quiet_map_all _ _ (fun _ => True)). intros row. apply (quiet_mono _ _ any); [done|quiet_auto].
Qed.
#[local] Hint Resolve quiet_stageRecovery : quiet.

Lemma quiet_refreshPending v : quiet v refreshPending any.
Proof. unfold refreshPending. quiet_auto. Qed.
#[local] Hint Resolve quiet_refreshPending : quiet.

Lemma quiet_discard v key : quiet v (discard key) any.
Proof. unfold discard. quiet_auto. Qed.

Lemma quiet_resetProfileDirectory v : quiet v resetProfileDirectory (fun r => exists b, r = Ok b).
Proof.
  unfold resetProfileDirectory. eapply quiet_let; [apply quiet_get| |by intros x (s & [=] & _)]. intros s _.
  destruct (_ && _); [apply quiet_ret; eauto|].
  eapply quiet_let; [by apply (quiet_assign _ _ (fun r => r = Ok tt))| |done]. intros _ _. apply quiet_ret. eauto.
Qed.

Lemma quiet_acceptKidTitleApprovals v seq document : quiet v (acceptKidTitleApprovals seq document) any.
Proof. unfold acceptKidTitleApprovals. quiet_auto. Qed.

Lemma quiet_acceptProfileDirectory v seq document : quiet v (acceptProfileDirectory seq document) any.
Proof. unfold acceptProfileDirectory. quiet_auto. Qed.

Lemma quiet_invalidateProfileDirectory v seq : quiet v (invalidateProfileDirectory seq) any.
Proof. unfold invalidateProfileDirectory. quiet_auto. Qed.

(** [adoptProfileDirectory] past the rows it drops. *)
Lemma quiet_drop_copies v :
  quiet v (try_catch (call ForgetCopies) (fun _ => ret tt);;; refreshPending;;;
           let* s := get in for_each discard (map_keys (lg_pending s))) any.
Proof. quiet_auto. apply quiet_for_each. apply quiet_discard. Qed.

Lemma quiet_report v b : quiet v (report b) (fun r => r = Ok tt).
Proof. unfold report. destruct b; [by apply quiet_assign|by apply quiet_ret]. Qed.
End Logic.

(** ** The invariant *)

Section Invariant.
Context `{NamePolicy, DocumentPolicy, MergePolicy, Sealing, LogConfig, !SealingLaws}.

Definition acks_true (v : Vw) (e : Edge) : Prop :=
  forall name entry, map_get name v.1.1 = Some entry ->
    exists t, mkRaw (rowKey name) (en_seq entry) t ∈ ed_log e /\ reads (rowKey name) t (en_row entry).

(** A stored row this build reads is acknowledged, at its sequence or past it. *)
Definition covered (acks : jsmap string Entry) (raw : RawEntry) : Prop :=
  forall row name, openEntry (raw_k raw) (raw_v raw) = OpenedRow row -> preV4Row row = false -> rowName row = Ok name ->
    exists entry, map_get name acks = Some entry /\ raw_seq raw <= en_seq entry.

Definition complete (v : Vw) (e : Edge) : Prop :=
  forall raw, raw ∈ ed_rows e -> raw_seq raw <= v.2 -> covered v.1.1 raw.

Definition lane_inv (v : Vw) (e : Edge) : Prop :=
  exists g, v.1.2 = Some g /\ g <> "" /\ g ∈ used e /\
    (ed_generation e = g -> acks_true v e /\ complete v e /\ v.2 <= ed_head e).

(** A generation that is current now was current then. *)
Lemma still_current e e' g :
  edge_wf e' -> later e e' -> g ∈ used e -> ed_generation e' = g -> ed_generation e = g /\ grown e e'.
Proof.
  intros Hwf Hl Hu Heq.
  assert (Hg : ed_generation e = g).
  { unfold used in Hu. apply elem_of_cons in Hu as [<-|Hp]; [done|].
    destruct (wf_name _ Hwf) as [_ Hn]. destruct Hn. rewrite Heq. by apply (later_over e). }
  split; [done|]. apply later_same; [done|done|congruence].
Qed.

Lemma lane_inv_later v e e' : edge_wf e' -> later e e' -> lane_inv v e -> lane_inv v e'.
Proof.
  intros Hwf Hl (g & Hg & Hne & Hu & Hcur). exists g. split; [done|]. split; [done|].
  split; [by apply (later_used e)|]. intros Heq. destruct (still_current e e' g Hwf Hl Hu Heq) as [Heq0 Hgr].
  destruct (Hcur Heq0) as (Ha & Hc & Hh). split; [|split].
  - intros name entry Hget. destruct (Ha name entry Hget) as (t & Ht & Hr). exists t. split; [|done]. by apply (gr_log _ _ Hgr).
  - intros raw Hraw Hle. apply (gr_rows _ _ Hgr) in Hraw as [Hraw|Hlt]; [by apply Hc|lia].
  - pose proof (gr_head _ _ Hgr). lia.
Qed.

(** [entry] may be acknowledged as [name] while generation [g] is read to [h]. *)
Definition fact (g : string) (h : Z) (e : Edge) (name : string) (entry : Entry) : Prop :=
  ed_generation e = g ->
  h <= ed_head e /\
  (exists t, mkRaw (rowKey name) (en_seq entry) t ∈ ed_log e /\ reads (rowKey name) t (en_row entry)) /\
  (forall raw, raw ∈ ed_rows e -> raw_k raw = rowKey name -> raw_seq raw <= h -> raw_seq raw <= en_seq entry).

(** den-edge holds nothing as [name] that was read. *)
Definition absent (g : string) (h : Z) (e : Edge) (name : string) : Prop :=
  ed_generation e = g ->
  h <= ed_head e /\ forall raw, raw ∈ ed_rows e -> raw_k raw = rowKey name -> h < raw_seq raw.

Lemma fact_later g h e e' name entry :
  edge_wf e' -> later e e' -> g ∈ used e -> fact g h e name entry -> fact g h e' name entry.
Proof.
  intros Hwf Hl Hu Hf Heq. destruct (still_current e e' g Hwf Hl Hu Heq) as [Heq0 Hgr].
  destruct (Hf Heq0) as (Hh & (t & Ht & Hr) & Hrows). pose proof (gr_head _ _ Hgr). split; [lia|]. split.
  - exists t. split; [by apply (gr_log _ _ Hgr)|done].
  - intros raw Hraw Hk Hle. apply (gr_rows _ _ Hgr) in Hraw as [Hraw|Hlt]; [by apply Hrows|lia].
Qed.

Lemma absent_later g h e e' name :
  edge_wf e' -> later e e' -> g ∈ used e -> absent g h e name -> absent g h e' name.
Proof.
  intros Hwf Hl Hu Hf Heq. destruct (still_current e e' g Hwf Hl Hu Heq) as [Heq0 Hgr].
  destruct (Hf Heq0) as (Hh & Hrows). pose proof (gr_head _ _ Hgr). split; [lia|].
  intros raw Hraw Hk. apply (gr_rows _ _ Hgr) in Hraw as [Hraw|Hlt]; [by apply Hrows|lia].
Qed.

Lemma open_key k t row name : openEntry k t = OpenedRow row -> rowName row = Ok name -> rowKey name = k.
Proof. intros Ho Hn. destruct (open_named k t row Ho) as (name' & Hn' & Hk). congruence. Qed.

Lemma ack_inv acks g h e name entry :
  lane_inv (acks, Some g, h) e -> fact g h e name entry -> lane_inv (map_set name entry acks, Some g, h) e.
Proof.
  intros (g' & [= <-] & Hne & Hu & Hcur) Hf. exists g. do 3 (split; [done|]). intros Heq.
  destruct (Hcur Heq) as (Ha & Hc & Hh). destruct (Hf Heq) as (_ & Ht & Hrows). split; [|split; [|done]].
  - intros n en. cbn [fst]. rewrite map_get_set. case_decide as Hd; [intros [= <-]; by subst n|by apply Ha].
  - intros raw Hraw Hle row n Ho Hp Hn. cbn [fst]. rewrite map_get_set. case_decide as Hd.
    + subst n. exists entry. split; [done|]. apply Hrows; [done| |done]. symmetry. by eapply open_key.
    + by eapply Hc.
Qed.

Lemma forget_inv acks g h e name :
  lane_inv (acks, Some g, h) e -> absent g h e name -> lane_inv (map_delete name acks, Some g, h) e.
Proof.
  intros (g' & [= <-] & Hne & Hu & Hcur) Hf. exists g. do 3 (split; [done|]). intros Heq.
  destruct (Hcur Heq) as (Ha & Hc & Hh). destruct (Hf Heq) as (_ & Hrows). split; [|split; [|done]].
  - intros n en. cbn [fst]. rewrite map_get_delete. case_decide as Hd; [done|by apply Ha].
  - intros raw Hraw Hle row n Ho Hp Hn. cbn [fst]. rewrite map_get_delete. case_decide as Hd; [|by eapply Hc].
    subst n. cbn in Hle. pose proof (Hrows raw Hraw ltac:(symmetry; by eapply open_key)). lia.
Qed.

(** *** What a batch's answer tells *)

Lemma edge_write_unique (ws : list Sealed) w w' :
  NoDup (ew_k <$> (edge_write <$> ws)) -> w ∈ ws -> w' ∈ ws -> sw_k w = sw_k w' -> w = w'.
Proof.
  intros Hnd Hw Hw' Hk. rewrite <-list_fmap_compose in Hnd.
  apply list_elem_of_lookup in Hw as [i Hi]. apply list_elem_of_lookup in Hw' as [j Hj].
  assert (i = j) as ->.
  { apply (NoDup_lookup _ i j (sw_k w) Hnd); rewrite list_lookup_fmap; [by rewrite Hi|]. rewrite Hj. cbn. congruence. }
  congruence.
Qed.

Definition batch_of_edge (g : string) (h : Z) (e : Edge) (ws : list Sealed) (batch : Batch) : Prop :=
  (forall w seq, w ∈ ws -> applied_seq batch (sw_k w) = Some seq -> fact g h e (sw_name w) (mkLogEntry seq (sw_row w))) /\
  (forall w c, w ∈ ws -> c ∈ bt_conflicts batch -> sw_k w = cf_k c ->
     (forall t row, cf_v c = VSealed t -> reads (cf_k c) t row -> fact g h e (sw_name w) (mkLogEntry (cf_seq c) row)) /\
     (cf_v c = VNull -> absent g h e (sw_name w))).

Lemma batch_facts v g e1 e2 e3 gh wire ws res batch :
  lane_inv v e1 -> v.1.2 = Some g -> edge_wf e1 -> edge_wf e3 -> later e2 e3 -> Forall sealed_ok ws ->
  answers e1 (BatchRequest gh wire (edge_write <$> ws)) (Ok res) e2 -> ok_status res = true ->
  rs_body res = Ok (BodyBatch batch) -> batch_of_edge g v.2 e3 ws batch.
Proof.
  intros (g' & Hg' & _ & Hu & Hcur) Hg Hwf1 Hwf3 Hl Hseal Hans Hok Hbody.
  assert (g' = g) as -> by congruence.
  inversion Hans as [| ? ? Hno | ? ? ? Hnd Hgood | |]; subst; [congruence|].
  destruct (Hgood res eq_refl) as (_ & _ & Hb). rewrite Hbody in Hb. destruct Hb as (batch' & [= <-] & Happ & Hconf).
  destruct (apply_tiered_spec (edge_write <$> ws) e1 Hwf1) as (Hwf2 & Hgr & Ha & Hc).
  assert (Hu2 : g ∈ used (apply_tiered (edge_write <$> ws) e1).2) by (apply (later_used e1); [by left|done]).
  rewrite Forall_forall in Hseal. split.
  - intros w seq Hw Hget. apply (fact_later _ _ _ _ _ _ Hwf3 Hl Hu2). intros Heq.
    rewrite (gr_generation _ _ Hgr) in Heq. destruct (Hcur Heq) as (_ & _ & Hh).
    unfold applied_seq in Hget. rewrite Happ in Hget. apply map_get_elem in Hget.
    destruct (Ha _ _ Hget) as (w' & Hw' & Hk & (_ & Hlt & Hlog)).
    apply list_elem_of_fmap in Hw' as (w2 & -> & Hw2).
    assert (w2 = w) as -> by (apply (edge_write_unique ws); done).
    destruct (Hseal w Hw) as [Hkey Hopen]. pose proof (gr_head _ _ Hgr). split; [lia|]. split.
    + exists (sw_v w). rewrite <-Hkey. split; [done|]. exists (sw_row w). split; [done|by left].
    + intros raw Hraw _ Hle. cbn. lia.
  - intros w c Hw Hin Hk. apply list_elem_of_lookup in Hin as [i Hi].
    destruct (Forall2_lookup_r _ _ _ _ _ Hconf Hi) as (c0 & Hc0 & Htrim).
    apply list_elem_of_lookup_2, Hc in Hc0 as (w' & Hw' & ->).
    apply list_elem_of_fmap in Hw' as (w2 & -> & Hw2).
    assert (Hk2 : cf_k c = sw_k w2).
    { destruct Htrim as [->|(k & seq & t & He & ->)]; [by destruct (current _ _)|].
      unfold conflict_of in He. destruct (current _ _); by simplify_eq. }
    assert (w2 = w) as -> by (apply (edge_write_unique ws); [done|done|done|congruence]).
    destruct (Hseal w Hw) as [Hkey _]. cbn [edge_write ew_k] in Htrim. split.
    + intros t row Ht Hread. apply (fact_later _ _ _ _ _ _ Hwf3 Hl Hu2). intros Heq.
      rewrite (gr_generation _ _ Hgr) in Heq. destruct (Hcur Heq) as (_ & _ & Hh). pose proof (gr_head _ _ Hgr).
      destruct Htrim as [->|(k & seq & t' & He & ->)]; [|done].
      unfold conflict_of in Ht, Hread |- *. destruct (current (sw_k w) e1) as [r|] eqn:Hcurr; [|done].
      cbn [cf_v cf_k cf_seq ew_k edge_write] in *. simplify_eq. apply current_Some in Hcurr as [Hr Hkr].
      split; [lia|]. split.
      * exists (raw_v r). rewrite <-Hkey. split; [|done]. apply (gr_log _ _ Hgr), (wf_rows _ Hwf1).
        rewrite <-Hkr. by destruct r.
      * intros raw Hraw Hkraw Hle. apply (gr_rows _ _ Hgr) in Hraw as [Hraw|Hlt]; [|lia].
        assert (raw = r) as -> by (apply (wf_keys _ Hwf1); [done|done|congruence]). cbn. lia.
    + intros Hnull. apply (absent_later _ _ _ _ _ Hwf3 Hl Hu2). intros Heq.
      rewrite (gr_generation _ _ Hgr) in Heq. destruct (Hcur Heq) as (_ & _ & Hh). pose proof (gr_head _ _ Hgr).
      split; [lia|]. destruct Htrim as [->|(k & seq & t' & He & ->)]; [|done].
      unfold conflict_of in Hnull. destruct (current (sw_k w) e1) as [r|] eqn:Hcurr; [done|].
      intros raw Hraw Hkraw. apply (gr_rows _ _ Hgr) in Hraw as [Hraw|Hlt]; [|lia].
      destruct (current_None _ _ raw Hcurr Hraw). congruence.
Qed.

Lemma batch_of_edge_later g h e e' ws batch :
  edge_wf e' -> later e e' -> g ∈ used e -> batch_of_edge g h e ws batch -> batch_of_edge g h e' ws batch.
Proof.
  intros Hwf Hl Hu [Ha Hc]. split.
  - intros w seq Hw Hs. eapply fact_later; [done|done|done|by apply Ha].
  - intros w c Hw Hin Hk. destruct (Hc w c Hw Hin Hk) as [Hv Hn]. split.
    + intros t row Ht Hr. eapply fact_later; [done|done|done|by eapply Hv].
    + intros Hnull. eapply absent_later; [done|done|done|by apply Hn].
Qed.

(** ** The lane's programs keep it *)

(** What must hold of the batches a piece of work sends, beside the invariant. *)
Context (D : Eff -> Log -> Prop).

Definition Cl (op : Eff) (s : Log) (e : Edge) : Prop := is_batch op = true -> lane_inv (view s) e /\ D op s.

Lemma calm_any v e : calm Cl v e.
Proof. intros op s e1 Hb _ _ _ Hb'. congruence. Qed.

(** The lane at rest in generation [g], read to [h]. *)
Definition at_rest (g : string) (h : Z) (s : Log) (e : Edge) : Prop :=
  (view s).1.2 = Some g /\ (view s).2 = h /\ lane_inv (view s) e /\ edge_wf e.

Lemma at_rest_later g h s e s' e' :
  view s' = view s -> edge_wf e' -> later e e' -> at_rest g h s e -> at_rest g h s' e'.
Proof.
  intros Hv Hwf Hl (Hg & Hh & Hinv & _). unfold at_rest. rewrite Hv. do 2 (split; [done|]). split; [|done].
  by eapply lane_inv_later.
Qed.

Lemma at_rest_used g h s e : at_rest g h s e -> g ∈ used e.
Proof. intros (Hg & _ & (g' & Hg' & _ & Hu & _) & _). congruence. Qed.

(** A quiet program, then the rest. *)
Lemma lwp_quiet {A} (m : M A) (R : res A -> Prop) g h s e (Q : res A -> Log -> Edge -> Prop) :
  quiet Cl (view s) m R -> at_rest g h s e ->
  (forall r s1 e1, R r -> view s1 = view s -> later e e1 -> at_rest g h s1 e1 -> Q r s1 e1) ->
  lwp Cl m Q s e.
Proof.
  intros Hm Hrest HQ. pose proof Hrest as (_ & _ & _ & Hwf). apply Hm; [done|done|apply calm_any|].
  intros r s1 e1 Hr Hv Hwf1 Hl. apply HQ; [done|done|done|by eapply at_rest_later].
Qed.

(** [bind] of a quiet program: an error passes through. *)
Lemma lwp_quiet_let {A B} (m : M A) (f : A -> M B) (R : res A -> Prop) g h s e (Q : res B -> Log -> Edge -> Prop) :
  quiet Cl (view s) m R -> at_rest g h s e ->
  (forall x s1 e1, at_rest g h s1 e1 -> Q (Throw x) s1 e1) ->
  (forall a s1 e1, R (Ok a) -> view s1 = view s -> later e e1 -> at_rest g h s1 e1 -> lwp Cl (f a) Q s1 e1) ->
  lwp Cl (bind m f) Q s e.
Proof.
  intros Hm Hrest Hx Hf. apply lwp_bind. eapply lwp_quiet; [done|done|]. intros [a|x] s1 e1 Hr Hv Hl Hrest1; [by apply Hf|].
  by apply Hx.
Qed.

Lemma sealed_writes (ws : list Sealed) : ew_k <$> (edge_write <$> ws) = sw_k <$> ws.
Proof. by rewrite <-list_fmap_compose. Qed.

(** A batch sent on the lane. *)
Lemma lwp_send_request g h gh wire ws s e (Q : res Response -> Log -> Edge -> Prop) :
  at_rest g h s e -> Forall sealed_ok ws ->
  (forall s1, view s1 = view s -> lg_writeGeneration s1 = lg_writeGeneration s ->
     D (Send (BatchRequest gh wire (edge_write <$> ws))) s1) ->
  (forall r s1 e1, view s1 = view s -> at_rest g h s1 e1 ->
     (forall res batch, r = Ok res -> ok_status res = true -> rs_body res = Ok (BodyBatch batch) ->
        batch_of_edge g h e1 ws batch) -> Q r s1 e1) ->
  lwp Cl (send (BatchRequest gh wire (edge_write <$> ws))) Q s e.
Proof.
  intros Hrest Hseal HD HQ. pose proof Hrest as (Hg & Hh & Hinv & Hwf). unfold send. apply lwp_bind, lwp_call.
  intros s1 e1 [Hv1 Hwg] Hwf1 Hl1. split; [intros _; split; [rewrite Hv1; by eapply lane_inv_later|by apply HD]|].
  intros r e2 e3 Hr Hwf2 Hl2 Hwf3 Hl3.
  assert (Hrest3 : at_rest g h s1 e3).
  { apply (at_rest_later g h s e); [done|done| |done]. by do 2 (etrans; [eassumption|]). }
  assert (Hfacts : forall res batch, r = Ok res -> ok_status res = true -> rs_body res = Ok (BodyBatch batch) ->
    batch_of_edge g h e3 ws batch).
  { intros res batch -> Hok Hbody. rewrite <-Hh.
    apply (batch_facts (view s) g e1 e2 e3 gh wire ws res batch); try done. by eapply lane_inv_later. }
  destruct r as [res|x]; [|by apply HQ].
  apply lwp_bind. eapply lwp_quiet; [apply quiet_observeProtocol|exact Hrest3|].
  intros [[]|x] s4 e4 _ Hv4 Hl4 Hrest4.
  - apply lwp_ret, HQ; [congruence|done|]. intros res' batch [= <-] Hok Hbody.
    eapply batch_of_edge_later; [apply Hrest4|done|by eapply at_rest_used|by apply (Hfacts res)].
  - apply HQ; [congruence|done|done].
Qed.

(** [send_batch]: the body of an answer den-edge gave, or nothing. *)
Lemma lwp_send_batch g h ws s e (Q : res (bool + Body) -> Log -> Edge -> Prop) :
  at_rest g h s e -> Forall sealed_ok ws ->
  (forall s1, view s1 = view s -> lg_writeGeneration s1 = lg_writeGeneration s ->
     D (Send (BatchRequest (header_generation s) instanceWire (edge_write <$> ws))) s1) ->
  (forall r s1 e1, view s1 = view s -> at_rest g h s1 e1 ->
     (forall batch, r = Ok (inr (BodyBatch batch)) -> batch_of_edge g h e1 ws batch) -> Q r s1 e1) ->
  lwp Cl (send_batch (edge_write <$> ws)) Q s e.
Proof.
  intros Hrest Hseal HD HQ. unfold send_batch. apply lwp_try, lwp_bind, lwp_get, lwp_bind.
  apply (lwp_send_request g h _ _ ws); [done|done|done|]. intros [res|x] s1 e1 Hv1 Hrest1 Hfacts;
    [|by apply lwp_ret, HQ].
  destruct (ok_status res) eqn:Hok; cbn [negb].
  - apply lwp_bind, lwp_lift. destruct (rs_body res) as [body|x] eqn:Hb; [|by apply lwp_ret, HQ].
    apply lwp_ret, HQ; [done|done|]. intros batch [= ->]. by apply (Hfacts res).
  - apply lwp_bind. eapply lwp_quiet; [apply quiet_failed|exact Hrest1|].
    intros [code|x] s2 e2 _ Hv2 Hl2 Hrest2; [|by apply lwp_ret, HQ; [congruence| |]].
    destruct (is_code code "generation_changed"); [|by apply lwp_ret, HQ; [congruence| |]].
    apply lwp_bind. eapply lwp_quiet; [apply quiet_adoptGeneration|exact Hrest2|].
    intros [adopted|x] s3 e3 _ Hv3 Hl3 Hrest3; by apply lwp_ret, HQ; [congruence| |].
Qed.

(** An entry the invariant allows, acknowledged. *)
Lemma remember_rest g h s e name entry :
  at_rest g h s e -> fact g h e name entry -> at_rest g h (remember name entry s) e.
Proof.
  unfold at_rest, view. cbn. intros (Hg & Hh & Hinv & Hwf) Hf. do 2 (split; [done|]). split; [|done].
  rewrite Hg, Hh in Hinv |- *. by apply ack_inv.
Qed.

Lemma forget_rest g h s e name :
  at_rest g h s e -> absent g h e name ->
  at_rest g h (set_unkept (map_set name (lg_generation s) (lg_unkept s))
    (set_acknowledged (map_delete name (lg_acknowledged s)) (set_entries (map_delete name (lg_entries s)) s))) e.
Proof.
  unfold at_rest, view. cbn. intros (Hg & Hh & Hinv & Hwf) Hf. do 2 (split; [done|]). split; [|done].
  rewrite Hg, Hh in Hinv |- *. by apply forget_inv.
Qed.

Lemma lwp_acknowledge g h name seq row s e (Q : res unit -> Log -> Edge -> Prop) :
  at_rest g h s e -> fact g h e name (mkLogEntry seq row) ->
  (forall s1, at_rest g h s1 e -> Q (Ok tt) s1 e) -> lwp Cl (acknowledge name seq row) Q s e.
Proof.
  intros Hrest Hf HQ. apply lwp_assign, HQ. apply remember_rest; [|done].
  eapply at_rest_later; [|by apply Hrest|reflexivity|exact Hrest]. done.
Qed.

Definition rested {A} (g : string) (h : Z) (r : res A) (s : Log) (e : Edge) : Prop := at_rest g h s e.

Lemma lwp_take_applied g h batch writes all waiting s e :
  at_rest g h s e -> batch_of_edge g h e all batch -> writes ⊆ all ->
  lwp Cl (take_applied batch writes waiting) (fun r s1 e1 => e1 = e /\ at_rest g h s1 e1) s e.
Proof.
  revert waiting s. induction writes as [|w writes IH]; intros waiting s Hrest Hb Hsub; cbn [take_applied].
  { by apply lwp_ret. }
  destruct (applied_seq batch (sw_k w)) as [seq|] eqn:Ha; [|apply IH; [done|done|set_solver]].
  apply lwp_bind, (lwp_acknowledge g h); [done|by apply Hb; [set_solver|]|]. intros s1 Hrest1.
  apply lwp_bind, lwp_assign, IH; [|done|set_solver]. eapply at_rest_later; [|by apply Hrest1|reflexivity|exact Hrest1]. done.
Qed.

Lemma lwp_take_conflicts g h batch conflicts writes s e :
  at_rest g h s e -> batch_of_edge g h e writes batch -> conflicts ⊆ bt_conflicts batch ->
  lwp Cl (take_conflicts writes conflicts) (rested g h) s e.
Proof.
  revert s e. induction conflicts as [|c conflicts IH]; intros s e Hrest Hb Hsub; cbn [take_conflicts]; [by apply lwp_ret|].
  assert (Hsub' : conflicts ⊆ bt_conflicts batch) by set_solver.
  destruct (list_find _ _) as [[i w]|] eqn:Hf; [|by apply IH].
  apply list_find_Some in Hf as (Hi & Hk & _). apply list_elem_of_lookup_2 in Hi.
  destruct (proj2 Hb w c Hi ltac:(set_solver) Hk) as [Hval Hnull].
  destruct (cf_v c) as [| |t] eqn:Hv.
  - apply lwp_bind, lwp_assign, IH; [apply forget_rest; [done|by apply Hnull]|done|done].
  - by apply lwp_ret.
  - eapply lwp_quiet_let; [apply quiet_readEntry|done|done|]. intros read s1 e1 Hread Hv1 Hl1 Hrest1.
    destruct read as [[row| | |]|]; try by apply lwp_ret.
    apply lwp_bind, lwp_assign, IH; [|eapply batch_of_edge_later; [apply Hrest1|done|by eapply at_rest_used|done]|done].
    apply remember_rest; [done|]. eapply fact_later; [apply Hrest1|done|by eapply at_rest_used|].
    apply (Hval t row); [done|]. by apply Hread.
Qed.

(** *** Sending edits *)

Definition stored_of (v : Vw) (name : string) : option DocumentRow :=
  match map_get name v.1.1 with Some (mkLogEntry _ (RDocument d)) => Some d | _ => None end.

(** The writes [ops] make of what the view holds, with riders merged over what it holds of them. *)
Definition derived (ops : list Op) (v : Vw) (ws : list Sealed) : Prop :=
  exists now documents riders ds,
    applyOps ops (stored_of v) now = Ok documents /\ ws = riders ++ ds /\
    Forall (fun w => exists rider, rides v rider w) riders /\ Forall2 (written v) documents ds.

Lemma derived_based ops v ws : derived ops v ws -> Forall (based v) ws.
Proof.
  intros (now & documents & riders & ds & _ & -> & Hr & Hd). apply Forall_app. split.
  - eapply Forall_impl; [exact Hr|]. by intros w (rider & Hw & _).
  - clear Hr. induction Hd as [|d w documents ds Hw _ IH]; constructor; [apply Hw|done].
Qed.

Lemma based_sealed v ws : Forall (based v) ws -> Forall sealed_ok ws.
Proof. intros Hb. eapply Forall_impl; [exact Hb|]. by intros w []. Qed.

Lemma header_generation_view s s1 :
  view s1 = view s -> lg_writeGeneration s1 = lg_writeGeneration s -> header_generation s1 = header_generation s.
Proof. intros [= _ Hg _] Hw. unfold header_generation. by rewrite Hg, Hw. Qed.

(** The condition on batches that [sendOps ops] meets. *)
Definition allows_ops (ops : list Op) : Prop :=
  forall s ws, derived ops (view s) ws ->
    D (Send (BatchRequest (header_generation s) instanceWire (edge_write <$> ws))) s.

Lemma lwp_batch_of g h body s e (Q : res Batch -> Log -> Edge -> Prop) :
  (forall x, Q (Throw x) s e) -> (forall batch, body = BodyBatch batch -> Q (Ok batch) s e) ->
  at_rest g h s e -> lwp Cl (batch_of body) Q s e.
Proof. intros Hx Hb _. destruct body; [by apply lwp_ret, Hb|by apply lwp_throw..]. Qed.

Lemma lwp_sendOps_round g h ops waiting s e :
  allows_ops ops -> at_rest g h s e -> lwp Cl (sendOps_round ops waiting) (rested g h) s e.
Proof.
  intros HD Hrest. unfold sendOps_round.
  eapply (lwp_quiet_let _ _ any); [by apply (quiet_call _ _ Now any)|done|done|]. intros now s1 e1 _ Hv1 Hl1 Hrest1.
  apply lwp_bind, lwp_get. destruct (existsb _ _); [by apply lwp_ret|].
  apply lwp_bind, lwp_lift. destruct (applyOps ops (stored s1) now) as [documents|x] eqn:Hops; [|done].
  destruct (_ && _); [by apply lwp_ret|].
  eapply lwp_quiet_let; [apply quiet_scope_writes|done|done|]. intros [scoped|] s2 e2 _ Hv2 Hl2 Hrest2; [|by apply lwp_ret].
  eapply lwp_quiet_let; [apply (quiet_map_all _ _ _ (fun w => exists rider, rides (view s2) rider w)); intros rider;
    eapply quiet_mono; [|apply quiet_seal_rider]; intros r Hr w ->; exists rider; by apply Hr|done|done|].
  intros riders s3 e3 Hriders Hv3 Hl3 Hrest3. specialize (Hriders riders eq_refl).
  eapply lwp_quiet_let; [apply quiet_seal_documents|done|done|]. intros [ds|] s4 e4 Hds Hv4 Hl4 Hrest4; cycle 1.
  { eapply lwp_quiet_let; [apply quiet_refuse_as|done|done|]. intros _ s5 e5 _ _ _ Hrest5. by apply lwp_ret. }
  specialize (Hds ds eq_refl).
  assert (Hderived : derived ops (view s4) (riders ++ ds)).
  { exists now, documents, riders, ds. rewrite Hv4, Hv3, Hv2 in *. split; [exact Hops|]. done. }
  pose proof (derived_based _ _ _ Hderived) as Hbased.
  apply lwp_bind, (lwp_send_batch g h); [done|by eapply based_sealed| |].
  { intros s5 Hv5 Hw5. rewrite <-(header_generation_view s4 s5 Hv5 Hw5). apply HD. by rewrite Hv5. }
  intros [[again|body]|x] s5 e5 Hv5 Hrest5 Hbatch; [by apply lwp_ret| |done].
  apply lwp_bind, (lwp_batch_of g h); [done| |done]. intros batch ->. specialize (Hbatch batch eq_refl).
  apply lwp_bind. eapply lwp_mono; [|by apply (lwp_take_applied g h batch (riders ++ ds) (riders ++ ds))].
  intros [waiting'|x] s6 e6 [-> Hrest6]; [|done]. destruct (_ =? 0)%nat.
  - eapply lwp_quiet_let; [apply quiet_registerMember|done|done|]. intros _ s7 e7 _ _ _ Hrest7. by apply lwp_ret.
  - apply lwp_bind, lwp_assign, lwp_bind. eapply lwp_mono; [|apply (lwp_take_conflicts g h batch); [|done|done]].
    + intros [read|x] s7 e7 Hrest7; [by apply lwp_ret|done].
    + eapply at_rest_later; [|by apply Hrest6|reflexivity|exact Hrest6]. done.
Qed.

Lemma lwp_sendOps g h ops riders s e :
  allows_ops ops -> at_rest g h s e -> lwp Cl (sendOps ops riders) (rested g h) s e.
Proof.
  intros HD. unfold sendOps. generalize ROUNDS. intros n. revert riders s e.
  induction n as [|n IH]; intros riders s e Hrest; cbn [sendOps_rounds]; [by apply lwp_ret|].
  apply lwp_bind. eapply lwp_mono; [|by apply (lwp_sendOps_round g h)].
  intros [[done|waiting]|x] s1 e1 Hrest1; [by apply lwp_ret|by apply IH|exact Hrest1].
Qed.
End Invariant.
