(* ===== verification/LogLane.v ===== *)
(** * The lane keeps what the log knows of den-edge

    Every piece of work of the lane ([sendOps], [writeAt], [writeSerial], [flushRows], [pass]) starts and ends with the
    invariant of LogSafety, however it ends. *)

From S2P Require Import Prelude JsMap JsText Json Wire Clock LibraryV4 ProfileKeys ResetJournal LogState Log LogEdge LogSafety.
From stdpp Require Import relations.
Open Scope Z_scope.

Section Lane.
Context `{NamePolicy, DocumentPolicy, MergePolicy, Sealing, LogConfig, !SealingLaws}.

(** Batches are sent with the invariant. *)
Definition Cs : Eff -> Log -> Edge -> Prop := Cl (fun _ _ => True).

(** ** Writing one row *)

Lemma quiet_open_row v k t :
  quiet Cs v (open_row k t) (fun r => forall row, r = Ok row -> openEntry k t = OpenedRow row).
Proof.
  unfold open_row. eapply quiet_let.
  - apply (quiet_call _ _ (OpenEntry k t) (fun r => forall opened, r = Ok opened -> opened = openEntry k t)); [done|].
    by intros e r e' [_ Hr].
  - intros opened Ho. specialize (Ho opened eq_refl). destruct opened; try by apply quiet_throw.
    apply quiet_ret. by intros row' [= <-].
  - by intros x _ row [=].
Qed.

(** The conflict a batch's answer has for the one write of it. *)
Lemma conflict_found k batch i c :
  list_find (fun c => cf_k c = k) (bt_conflicts batch) = Some (i, c) -> c ∈ bt_conflicts batch /\ cf_k c = k.
Proof. intros (Hi & Hk & _)%list_find_Some. split; [by eapply list_elem_of_lookup_2|done]. Qed.

Lemma set_entries_rest g h s e m : at_rest g h s e -> at_rest g h (set_entries m s) e.
Proof. done. Qed.

Lemma set_outcome_rest g h s e o : at_rest g h s e -> at_rest g h (set_outcome o s) e.
Proof. done. Qed.

Lemma lwp_writeSerial_round g h target s e :
  at_rest g h s e -> lwp Cs (writeSerial_round target) (rested g h) s e.
Proof.
  intros Hrest. unfold writeSerial_round.
  eapply lwp_quiet_let; [apply quiet_householdRows|done|done|]. intros [|target1 rest] s1 e1 _ Hv1 Hl1 Hrest1.
  { eapply lwp_quiet_let; [apply quiet_refuse_as|done|done|]. intros _ s2 e2 _ _ _ Hrest2. by apply lwp_ret. }
  apply lwp_bind, lwp_lift. destruct (rowName target1) as [name|x]; [|done]. apply lwp_bind, lwp_get.
  eapply lwp_quiet_let; [apply (quiet_seal _ _ name target1
    (fun r => forall t, r = Ok t -> openEntry (rowKey name) t = OpenedRow target1)); auto|done|done|].
  intros t s2 e2 Ht Hv2 Hl2 Hrest2. specialize (Ht t eq_refl).
  set (w := mkSealed name target1 (seq_in name (lg_entries s1)) (rowKey name) t).
  apply lwp_bind, (lwp_send_batch _ g h [w]); [done|by repeat constructor|done|].
  intros [[again|body]|x] s3 e3 Hv3 Hrest3 Hbatch; [by apply lwp_ret| |done].
  apply lwp_bind, (lwp_batch_of _ g h); [done| |done]. intros batch ->. specialize (Hbatch batch eq_refl) as [Ha Hc].
  destruct (applied_seq batch (rowKey name)) as [seq|] eqn:Happ.
  { apply lwp_bind, (lwp_acknowledge _ g h); [done|by apply (Ha w); [left|]|]. intros s4 Hrest4.
    apply lwp_bind, lwp_assign. eapply lwp_quiet_let; [apply quiet_registerMember|by apply set_outcome_rest|done|].
    intros _ s5 e5 _ _ _ Hrest5. by apply lwp_ret. }
  destruct (list_find _ _) as [[i c]|] eqn:Hf; [|by apply lwp_ret].
  apply conflict_found in Hf as [Hin Hk]. destruct (Hc w c ltac:(by left) Hin ltac:(by rewrite Hk)) as [Hval Hnull].
  destruct (cf_v c) as [| |t1] eqn:Hv.
  - apply lwp_bind, lwp_assign, lwp_ret. apply forget_rest; [done|by apply Hnull].
  - by apply lwp_throw.
  - eapply lwp_quiet_let; [apply quiet_open_row|done|done|]. intros row s4 e4 Hrow Hv4 Hl4 Hrest4.
    eapply (lwp_quiet_let _ _ _ any); [by apply (quiet_call _ _ Now any)|done|done|].
    intros now s5 e5 _ Hv5 Hl5 Hrest5. apply lwp_bind, lwp_assign, lwp_bind, lwp_lift.
    destruct (Log.merge (believe now row) target1) as [target2|x]; [|done].
    destruct (canonical_eq target2 (believe now row)); [|by apply lwp_ret].
    apply lwp_bind, (lwp_acknowledge _ g h); [done| |intros s6 Hrest6; by apply lwp_ret].
    eapply fact_later; [apply Hrest5|etrans; [exact Hl4|exact Hl5]|by eapply at_rest_used|].
    apply (Hval t1); [done|]. exists row. rewrite Hk. split; [by apply Hrow|right; by exists now].
Qed.

Lemma lwp_writeSerial g h row s e : at_rest g h s e -> lwp Cs (writeSerial row) (rested g h) s e.
Proof.
  intros Hrest. unfold writeSerial. apply lwp_bind, lwp_get, lwp_bind, lwp_lift.
  destruct (rowName row) as [name|x]; [|done]. apply lwp_bind, lwp_lift.
  destruct (merge_over _ row) as [target|x]; [|done]. generalize ROUNDS. intros n. revert target s e Hrest.
  induction n as [|n IH]; intros target s e Hrest; cbn [writeSerial_rounds]; [by apply lwp_ret|].
  apply lwp_bind. eapply lwp_mono; [|by apply (lwp_writeSerial_round g h)].
  intros [[done|target1]|x] s1 e1 Hrest1; [by apply lwp_ret|by apply IH|exact Hrest1].
Qed.

Lemma lwp_writeAt_lane g h row base s e : at_rest g h s e -> lwp Cs (writeAt_lane row base) (rested g h) s e.
Proof.
  intros Hrest. unfold writeAt_lane. apply lwp_bind, lwp_lift. destruct (rowName row) as [name|x]; [|done].
  eapply lwp_quiet_let; [apply (quiet_seal _ _ name row
    (fun r => forall t, r = Ok t -> openEntry (rowKey name) t = OpenedRow row)); auto|done|done|].
  intros t s1 e1 Ht Hv1 Hl1 Hrest1. specialize (Ht t eq_refl). apply lwp_bind, lwp_get.
  set (w := mkSealed name row base (rowKey name) t).
  apply lwp_bind, (lwp_send_request _ g h _ _ [w]); [done|by repeat constructor|done|].
  intros [res|x] s2 e2 Hv2 Hrest2 Hfacts; [|done]. destruct (ok_status res) eqn:Hok; cbn [negb]; cycle 1.
  { eapply lwp_quiet_let; [apply quiet_failed|done|done|]. intros code s3 e3 _ _ _ Hrest3. by apply lwp_ret. }
  apply lwp_bind, lwp_lift. destruct (rs_body res) as [body|x] eqn:Hbody; [|done].
  apply lwp_bind, (lwp_batch_of _ g h); [done| |done]. intros batch ->.
  destruct (Hfacts res batch eq_refl Hok Hbody) as [Ha Hc].
  destruct (applied_seq batch (rowKey name)) as [seq|] eqn:Happ.
  { apply lwp_bind, (lwp_acknowledge _ g h); [done|by apply (Ha w); [left|]|]. intros s3 Hrest3. by apply lwp_ret. }
  destruct (list_find _ _) as [[i [k seq [| |t1]]]|] eqn:Hf; try by apply lwp_ret.
  apply conflict_found in Hf as [Hin Hk]. destruct (Hc w _ ltac:(by left) Hin ltac:(by rewrite Hk)) as [Hval _].
  eapply (lwp_quiet_let _ _ _ (fun r => forall row, r = Ok (Some (ReadRow row)) -> reads (rowKey name) t1 row));
    [by destruct (truthy t1); [eapply quiet_mono; [|apply quiet_readEntry]; intros r []|apply quiet_ret]|done|done|].
  intros read s3 e3 Hread Hv3 Hl3 Hrest3. destruct read as [[row1| | |]|]; try by apply lwp_ret.
  apply lwp_bind, lwp_assign, lwp_ret, remember_rest; [done|].
  eapply fact_later; [apply Hrest3|done|by eapply at_rest_used|].
  apply (Hval t1); [done|]. cbn in Hk. subst k. by apply Hread.
Qed.

(** ** Writing many rows *)

Lemma lwp_settle_chunk g h batch chunk all s e :
  at_rest g h s e -> batch_of_edge g h e all batch -> chunk ⊆ all ->
  lwp Cs (settle_chunk batch chunk) (rested g h) s e.
Proof.
  revert s e. induction chunk as [|w chunk IH]; intros s e Hrest Hb Hsub; cbn [settle_chunk]; [by apply lwp_ret|].
  destruct (applied_seq batch (sw_k w)) as [seq|] eqn:Ha.
  - apply lwp_bind, (lwp_acknowledge _ g h); [done|by apply Hb; [set_solver|]|]. intros s1 Hrest1.
    apply lwp_bind, lwp_assign, IH; [by apply set_outcome_rest|done|set_solver].
  - apply lwp_bind. apply (lwp_later_mono _ _ (rested g h)); [|by apply lwp_writeSerial].
    intros [[row|]|x] s1 e1 Hl Hrest1; [|by apply lwp_ret|done].
    apply IH; [done| |set_solver]. eapply batch_of_edge_later; [apply Hrest1|done|by eapply at_rest_used|done].
Qed.

Lemma lwp_flush_chunk g h chunk s e :
  Forall sealed_ok chunk -> at_rest g h s e -> lwp Cs (flush_chunk chunk) (rested g h) s e.
Proof.
  intros Hseal Hrest. unfold flush_chunk. apply lwp_bind, lwp_get, lwp_bind.
  apply (lwp_send_request _ g h); [done|done|done|]. intros [res|x] s1 e1 Hv1 Hrest1 Hfacts; [|done].
  destruct (ok_status res) eqn:Hok; cbn [negb]; cycle 1.
  { eapply lwp_quiet_let; [apply quiet_failed|done|done|]. intros code s2 e2 _ _ _ Hrest2. by apply lwp_ret. }
  apply lwp_bind, lwp_lift. destruct (rs_body res) as [body|x] eqn:Hbody; [|done].
  apply lwp_bind, (lwp_batch_of _ g h); [done| |done]. intros batch ->.
  apply (lwp_settle_chunk g h batch chunk chunk); [done|by apply (Hfacts res)|done].
Qed.

(** The writes of the chunks are the writes given. *)
Lemma chunks_step_concat {T} (size : T -> Z) writes out chunk bytes :
  let '(out', chunk', _) := foldl (chunks_step size) (out, chunk, bytes) writes in
  concat out' ++ chunk' = concat out ++ chunk ++ writes.
Proof.
  revert out chunk bytes. induction writes as [|w writes IH]; intros out chunk bytes; cbn [foldl].
  { by rewrite app_nil_r. }
  unfold chunks_step at 2. destruct (_ && _).
  - specialize (IH (out ++ [chunk]) ([] ++ [w]) (0 + size w)). destruct (foldl _ _ _) as [[out' chunk'] ?].
    rewrite IH, concat_app. cbn. by rewrite app_nil_r, <-app_assoc.
  - specialize (IH out (chunk ++ [w]) (bytes + size w)). destruct (foldl _ _ _) as [[out' chunk'] ?].
    rewrite IH. by rewrite <-!app_assoc.
Qed.

Lemma chunks_concat {T} (size : T -> Z) writes : concat (chunks size writes) = writes.
Proof.
  unfold chunks. pose proof (chunks_step_concat size writes [] [] 0) as Hc. destruct (foldl _ _ _) as [[out chunk] ?].
  cbn in Hc. destruct chunk as [|w chunk]; cbn [length Nat.eqb]; [by rewrite app_nil_r in Hc|].
  rewrite concat_app. cbn. by rewrite app_nil_r.
Qed.

(** A batch den-edge takes: few enough rows, and few enough bytes unless one row is too many by itself. *)
Definition batch_fits {T} (size : T -> Z) (chunk : list T) : Prop :=
  chunk <> [] /\ (length chunk <= REWRITE_BATCH_MAX)%nat /\
  (length chunk = 1%nat \/ foldr (fun w bytes => size w + bytes) 0 chunk <= REWRITE_BATCH_MAX_BYTES - 16).

Lemma total_app {T} (size : T -> Z) chunk w :
  foldr (fun w bytes => size w + bytes) 0 (chunk ++ [w]) = foldr (fun w bytes => size w + bytes) 0 chunk + size w.
Proof. induction chunk as [|w' chunk IH]; cbn; [lia|]. rewrite IH. lia. Qed.

Lemma chunks_step_fits {T} (size : T -> Z) writes out chunk bytes :
  Forall (batch_fits size) out -> (chunk = [] \/ batch_fits size chunk) ->
  bytes = foldr (fun w bytes => size w + bytes) 0 chunk ->
  let '(out', chunk', _) := foldl (chunks_step size) (out, chunk, bytes) writes in
  Forall (batch_fits size) out' /\ (chunk' = [] \/ batch_fits size chunk').
Proof.
  revert out chunk bytes. induction writes as [|w writes IH]; intros out chunk bytes Hout Hchunk Hbytes; cbn [foldl]; [done|].
  unfold chunks_step at 2. assert (Hone : batch_fits size [w]) by (split; [done|]; split; [vm_compute; lia|by left]).
  destruct chunk as [|w0 chunk0]; cbn [length Nat.eqb negb andb].
  { apply IH; [done|by right|]. subst bytes. cbn. lia. }
  set (chunk := w0 :: chunk0) in *. destruct Hchunk as [?|Hfits]; [done|].
  destruct ((REWRITE_BATCH_MAX <=? S (length chunk0))%nat || _) eqn:Hfull.
  - apply IH; [apply Forall_app; by split; [|constructor]|by right|cbn; lia].
  - apply orb_false_iff in Hfull as [Hlen%Nat.leb_gt Hsize%Z.ltb_ge].
    apply IH; [done| |rewrite total_app; lia]. right. split; [by destruct chunk|]. rewrite length_app. cbn [length].
    split; [unfold chunk; cbn [length]; lia|right]. rewrite total_app. lia.
Qed.

(** the rows of a flush go out whole and in their order, in batches of at most 200 rows whose bytes den-edge takes;
    only a row that is too large by itself goes alone. *)
Lemma chunks_bounds {T} (size : T -> Z) writes :
  concat (chunks size writes) = writes /\ Forall (batch_fits size) (chunks size writes).
Proof.
  split; [apply chunks_concat|]. unfold chunks.
  pose proof (chunks_step_fits size writes [] [] 0 ltac:(constructor) ltac:(by left) eq_refl) as Hfits.
  destruct (foldl _ _ _) as [[out chunk] bytes]. destruct Hfits as [Hout Hchunk].
  destruct chunk as [|w chunk]; cbn [length Nat.eqb]; [done|]. destruct Hchunk as [?|Hchunk]; [done|].
  apply Forall_app. by split; [|constructor].
Qed.

Lemma lwp_flush_chunks g h l s e :
  Forall sealed_ok (concat l) -> at_rest g h s e -> lwp Cs (flush_chunks l) (rested g h) s e.
Proof.
  revert s e. induction l as [|chunk l IH]; intros s e Hseal Hrest; cbn [flush_chunks]; [by apply lwp_ret|].
  cbn in Hseal. apply Forall_app in Hseal as [Hchunk Hl].
  apply lwp_bind. eapply lwp_mono; [|by apply (lwp_flush_chunk g h)].
  intros [[]|x] s1 e1 Hrest1; [by apply IH|by apply lwp_ret|done].
Qed.

Lemma lwp_flush_slice g h size rows s e : at_rest g h s e -> lwp Cs (flush_slice size rows) (rested g h) s e.
Proof.
  intros Hrest. unfold flush_slice. apply lwp_bind, lwp_get, lwp_bind, lwp_lift.
  destruct (merge_entries rows s) as [merged|x]; [|done].
  eapply lwp_quiet_let; [apply quiet_householdRows|done|done|]. intros scoped s1 e1 _ Hv1 Hl1 Hrest1.
  apply lwp_bind, lwp_lift. destruct (due_rows scoped s) as [due|x]; [|done].
  eapply lwp_quiet_let; [apply (quiet_map_all _ _ _ sealed_ok); intros [[name row] base];
    eapply quiet_mono; [|apply quiet_seal_row]; intros r Hr w ->; by apply Hr|done|done|].
  intros sealed s2 e2 Hsealed Hv2 Hl2 Hrest2. apply lwp_flush_chunks; [|done].
  rewrite chunks_concat. by apply Hsealed.
Qed.

Lemma lwp_flush_groups g h size groups s e : at_rest g h s e -> lwp Cs (flush_groups size groups) (rested g h) s e.
Proof.
  assert (Hslices : forall l s e, at_rest g h s e -> lwp Cs (flush_slices size l) (rested g h) s e).
  { intros l. induction l as [|rows l IH]; intros s1 e1 Hrest; cbn [flush_slices]; [by apply lwp_ret|].
    apply lwp_bind. eapply lwp_mono; [|by apply (lwp_flush_slice g h)].
    intros [[]|x] s2 e2 Hrest2; [by apply IH|by apply lwp_ret|done]. }
  revert s e. induction groups as [|group groups IH]; intros s e Hrest; cbn [flush_groups]; [by apply lwp_ret|].
  apply lwp_bind, lwp_lift. destruct (coalesce group) as [rows|x]; [|done].
  apply lwp_bind. eapply lwp_mono; [|by apply Hslices].
  intros [[]|x] s1 e1 Hrest1; [by apply IH|by apply lwp_ret|done].
Qed.

(** ** Reading a page *)


Lemma rowName_believe now row : rowName (believe now row) = rowName row.
Proof. by destruct row. Qed.

Lemma reads_name k t row row0 : reads k t row -> openEntry k t = OpenedRow row0 -> rowName row = rowName row0.
Proof. intros (row1 & Ho & [->|[now ->]]) Ho0; [congruence|]. rewrite rowName_believe. congruence. Qed.

(** What is acknowledged only grows. *)
Definition acks_grow (m m' : jsmap string Entry) : Prop :=
  forall name en, map_get name m = Some en -> exists en', map_get name m' = Some en' /\ en_seq en <= en_seq en'.

#[local] Instance acks_grow_preorder : PreOrder acks_grow.
Proof.
  split; [intros m name en Hg; exists en; split; [done|lia]|]. intros m1 m2 m3 H12 H23 name en Hg.
  destruct (H12 name en Hg) as (en2 & Hg2 & Hle2). destruct (H23 name en2 Hg2) as (en3 & Hg3 & Hle3).
  exists en3. split; [done|lia].
Qed.

Lemma covered_grow m m' raw : acks_grow m m' -> covered m raw -> covered m' raw.
Proof.
  intros Hg Hc row name Ho Hp Hn. destruct (Hc row name Ho Hp Hn) as (en & Hen & Hle).
  destruct (Hg name en Hen) as (en' & Hen' & Hle'). exists en'. split; [done|lia].
Qed.

Lemma acks_grow_set name en m : seq_in name m <= en_seq en -> acks_grow m (map_set name en m).
Proof.
  intros Hle n en0 Hg. rewrite map_get_set. case_decide as Hd; [|exists en0; split; [done|lia]].
  subst n. exists en. split; [done|]. unfold seq_in in Hle. by rewrite Hg in Hle.
Qed.

(** A row of a page read past [h]. *)
Definition paged (g : string) (h : Z) (e : Edge) (raw : RawEntry) : Prop :=
  ed_generation e = g -> raw ∈ ed_log e /\ h < raw_seq raw /\ h <= ed_head e.

Lemma paged_later g h e e' raw : edge_wf e' -> later e e' -> g ∈ used e -> paged g h e raw -> paged g h e' raw.
Proof.
  intros Hwf Hl Hu Hp Heq. destruct (still_current e e' g Hwf Hl Hu Heq) as [Heq0 Hgr].
  destruct (Hp Heq0) as (Hin & Hlt & Hh). pose proof (gr_head _ _ Hgr). split; [by apply (gr_log _ _ Hgr)|]. lia.
Qed.

(** A page row acknowledged. *)
Lemma page_rest g h s e name raw row :
  at_rest g h s e -> paged g h e raw -> reads (raw_k raw) (raw_v raw) row -> rowName row = Ok name ->
  at_rest g h (set_acknowledged (map_set name (mkLogEntry (raw_seq raw) row) (lg_acknowledged s)) s) e.
Proof.
  unfold at_rest, view. cbn. intros (Hg & Hh & Hinv & Hwf) Hp Hr Hn. do 2 (split; [done|]). split; [|done].
  rewrite Hg, Hh in Hinv |- *. apply ack_inv; [done|]. intros Heq. destruct (Hp Heq) as (Hin & Hlt & Hle).
  split; [done|]. split; [|intros raw' _ _ Hle'; cbn; lia].
  destruct Hr as (row0 & Ho & Hrow).
  assert (rowName row0 = Ok name) as Hn0 by (destruct Hrow as [->|[now ->]]; [done|by rewrite <-(rowName_believe now)]).
  rewrite (open_key _ _ _ _ Ho Hn0). exists (raw_v raw). split; [by destruct raw|]. by exists row0.
Qed.

(** What reading [raw] leaves of a lane at rest with [acks]. *)
Definition taken {A} (g : string) (h : Z) (acks : jsmap string Entry) (raws : list RawEntry)
    (r : res A) (s : Log) (e : Edge) : Prop :=
  at_rest g h s e /\ acks_grow acks (lg_acknowledged s) /\ (forall a, r = Ok a -> Forall (covered (lg_acknowledged s)) raws).

Lemma view_acks s s1 : view s1 = view s -> lg_acknowledged s1 = lg_acknowledged s.
Proof. by intros [= -> _ _]. Qed.

(** A row read of a page is acknowledged unless a later version is. *)
Lemma lwp_take_row {A} g h raw row name (a : A) acks (s : Log) e :
  lg_acknowledged s = acks -> at_rest g h s e -> paged g h e raw -> 0 < raw_seq raw -> reads (raw_k raw) (raw_v raw) row -> rowName row = Ok name ->
  lwp Cs ((if seq_in name acks <? raw_seq raw
    then assign (fun s => set_dirty true
           (set_acknowledged (map_set name (mkLogEntry (raw_seq raw) row) (lg_acknowledged s)) s))
    else ret tt);;; ret a) (taken g h acks [raw]) s e.
Proof.
  intros <- Hrest Hp Hpos Hrow Hname. apply lwp_bind.
  destruct (Z.ltb_spec (seq_in name (lg_acknowledged s)) (raw_seq raw)) as [Hlt|Hge].
  - apply lwp_assign, lwp_ret. split; [|split].
    + exact (page_rest g h s e name raw row Hrest Hp Hrow Hname).
    + cbn. apply acks_grow_set. cbn. lia.
    + intros a' _. repeat constructor. intros row0 n Ho Hpre Hn. cbn.
      rewrite (reads_name _ _ _ _ Hrow Ho), Hn in Hname. injection Hname as ->. rewrite map_get_set.
      rewrite decide_True by done. exists (mkLogEntry (raw_seq raw) row). split; [done|cbn; lia].
  - apply lwp_ret, lwp_ret. split; [done|]. split; [done|]. intros a' _. repeat constructor.
    intros row0 n Ho Hpre Hn. rewrite (reads_name _ _ _ _ Hrow Ho), Hn in Hname. injection Hname as ->.
    unfold seq_in in Hge. destruct (map_get name (lg_acknowledged s)) as [en|] eqn:Hg; [|cbn in Hge; lia].
    exists en. split; [done|]. cbn in Hge. lia.
Qed.

Lemma lwp_take_entry g h st raw s e :
  at_rest g h s e -> paged g h e raw -> 0 < raw_seq raw ->
  lwp Cs (take_entry st raw) (taken g h (lg_acknowledged s) [raw]) s e.
Proof.
  intros Hrest Hp Hpos. destruct st as [facts topology]. unfold take_entry. apply lwp_bind.
  eapply lwp_quiet; [apply quiet_readEntry|done|]. intros [read|x] s1 e1 [Hrow Hall] Hv1 Hl1 Hrest1; cycle 1.
  { split; [done|]. split; [by rewrite (view_acks _ _ Hv1)|done]. }
  assert (Hacks : forall (A : Type) (r : res A) s2 e2, view s2 = view s1 -> at_rest g h s2 e2 ->
    (forall row, read <> Some (ReadRow row)) -> taken g h (lg_acknowledged s) [raw] r s2 e2).
  { intros A r s2 e2 Hv2 Hrest2 Hno. split; [done|]. rewrite (view_acks s s2) by congruence. split; [done|].
    intros a _. repeat constructor. intros row name Ho Hpre _. destruct (Hall read row eq_refl Ho Hpre) as [now Hn].
    by destruct (Hno (believe now row)). }
  assert (Hquiet : forall (A : Type) (m : M bool) (a : A), quiet Cs (view s1) m any ->
    (forall row, read <> Some (ReadRow row)) ->
    lwp Cs (let* changed := m in report changed;;; ret a) (taken g h (lg_acknowledged s) [raw]) s1 e1).
  { intros A m a Hm Hno. apply lwp_bind. eapply lwp_quiet; [exact Hm|done|].
    intros [changed|x] s2 e2 _ Hv2 _ Hrest2; [|by apply Hacks].
    apply lwp_bind. eapply lwp_quiet; [apply quiet_report|done|].
    intros [[]|x] s3 e3 _ Hv3 _ Hrest3; [|by apply Hacks; [congruence| |]].
    apply lwp_ret, Hacks; [congruence|done|done]. }
  destruct read as [[row|document|document|]|].
  - apply lwp_bind, lwp_get, lwp_bind, lwp_lift. specialize (Hrow row eq_refl).
    destruct (rowName row) as [name|x] eqn:Hname; cycle 1.
    { split; [done|]. split; [by rewrite (view_acks _ _ Hv1)|done]. }
    apply lwp_bind, lwp_lift. destruct (merge_over _ row) as [merged|x]; cycle 1.
    { split; [done|]. split; [by rewrite (view_acks _ _ Hv1)|done]. }
    apply lwp_bind.
    destruct (match map_get name (lg_entries s1) with Some _ => _ | None => _ end);
      [apply lwp_assign|apply lwp_ret]; rewrite <-(view_acks _ _ Hv1);
      apply (lwp_take_row g h); try done; (eapply paged_later; [apply Hrest1|exact Hl1|by eapply at_rest_used|done]).
  - apply Hquiet; [apply quiet_acceptProfileDirectory|done].
  - apply Hquiet; [apply quiet_acceptKidTitleApprovals|done].
  - apply Hquiet; [apply quiet_invalidateProfileDirectory|done].
  - apply lwp_ret, Hacks; done.
Qed.

Lemma lwp_take_entries g h raws st s e :
  at_rest g h s e -> Forall (paged g h e) raws -> Forall (fun raw => 0 < raw_seq raw) raws ->
  lwp Cs (take_entries st raws) (taken g h (lg_acknowledged s) raws) s e.
Proof.
  revert st s e. induction raws as [|raw raws IH]; intros st s e Hrest Hp Hpos; cbn [take_entries].
  { apply lwp_ret. by split; [|split]. }
  inversion_clear Hp as [|? ? Hp1 Hps]. inversion_clear Hpos as [|? ? Hpos1 Hposs].
  apply lwp_bind. eapply lwp_later_mono; [|by apply (lwp_take_entry g h)].
  intros [st1|x] s1 e1 Hl1 (Hrest1 & Hgrow1 & Hcov1); [|by split; [|split]].
  eapply lwp_mono; [|apply IH; [done| |done]].
  - intros r s2 e2 (Hrest2 & Hgrow2 & Hcov2). split; [done|]. split; [by etrans|]. intros a Ha.
    constructor; [|by apply (Hcov2 a)]. eapply covered_grow; [exact Hgrow2|].
    specialize (Hcov1 st1 eq_refl). by inversion Hcov1.
  - eapply Forall_impl; [exact Hps|]. intros raw'. apply paged_later; [apply Hrest1|done|by eapply at_rest_used].
Qed.

(** ** A pass *)

Definition settled {A} (r : res A) (s : Log) (e : Edge) : Prop := edge_wf e /\ lane_inv (view s) e.

Lemma rest_settled {A} g h (r : res A) s e : at_rest g h s e -> settled r s e.
Proof. intros (_ & _ & Hinv & Hwf). done. Qed.

Lemma settled_rest {A} (r : res A) s e : settled r s e -> exists g h, at_rest g h s e.
Proof. intros [Hwf Hinv]. pose proof Hinv as (g & Hg & _). by exists g, (view s).2. Qed.

(** Nothing read yet, nothing acknowledged. *)
Lemma fresh_inv g e : g <> "" -> g ∈ used e -> edge_wf e -> lane_inv ([], Some g, 0) e.
Proof.
  intros Hne Hu Hwf. exists g. do 3 (split; [done|]). intros _. split; [done|]. split; [|apply (wf_head _ Hwf)].
  intros raw Hraw Hle. cbn in Hle. pose proof (wf_seqs _ Hwf raw (wf_rows _ Hwf raw Hraw)). lia.
Qed.

(** Nothing is said of a generation that is over. *)
Lemma over_inv v g e : v.1.2 = Some g -> g <> "" -> g ∈ ed_past e -> edge_wf e -> lane_inv v e.
Proof.
  intros Hg Hne Hp Hwf. exists g. do 2 (split; [done|]). split; [by apply elem_of_cons; right|].
  intros Heq. destruct (wf_name _ Hwf) as [_ Hn]. by rewrite Heq in Hn.
Qed.

(** A quiet program where the invariant may not hold. *)
Lemma lwp_calm_bind {A B} (m : M A) (f : A -> M B) (R : res A -> Prop) s e (Q : res B -> Log -> Edge -> Prop) :
  quiet Cs (view s) m R -> edge_wf e ->
  (forall x s1 e1, R (Throw x) -> view s1 = view s -> edge_wf e1 -> later e e1 -> Q (Throw x) s1 e1) ->
  (forall a s1 e1, R (Ok a) -> view s1 = view s -> edge_wf e1 -> later e e1 -> lwp Cs (f a) Q s1 e1) ->
  lwp Cs (bind m f) Q s e.
Proof.
  intros Hm Hwf Hx Hf. apply lwp_bind, Hm; [done|done|apply calm_any|]. intros [a|x] s1 e1 Hr Hv Hwf1 Hl; [by apply Hf|].
  by apply Hx.
Qed.

Lemma lwp_pass_missing g h s e : at_rest g h s e -> lwp Cs pass_missing settled s e.
Proof.
  intros Hrest. unfold pass_missing. apply lwp_bind, lwp_get.
  eapply lwp_quiet_let; [apply quiet_stageRecovery|done|intros; by eapply rest_settled|].
  intros [] s1 e1 _ Hv1 Hl1 Hrest1; cbn [negb]; [|apply lwp_ret; by eapply rest_settled].
  apply lwp_bind, lwp_assign. pose proof Hrest1 as (Hg & _ & (g' & Hg' & Hne & Hu & _) & Hwf).
  match goal with |- lwp _ _ _ ?s2 _ => assert (Hrest2 : at_rest g 0 s2 e1) end.
  { unfold at_rest, view in *. cbn in *. rewrite Hg in Hg' |- *. injection Hg' as <-. do 2 (split; [done|]).
    split; [|done]. by apply fresh_inv. }
  eapply lwp_quiet_let; [apply quiet_resetProfileDirectory|exact Hrest2|intros; by eapply rest_settled|].
  intros lost s2 e2 _ Hv2 Hl2 Hrest3. apply lwp_bind, lwp_assign.
  eapply lwp_quiet_let; [apply quiet_report|exact Hrest3|intros; by eapply rest_settled|].
  intros _ s3 e3 _ _ _ Hrest4. apply lwp_ret. by eapply rest_settled.
Qed.

(** The log is another: [g] is over, and [g1] was current. *)
Lemma lwp_restarted g1 s e :
  edge_wf e -> g1 <> "" -> g1 ∈ used e ->
  lwp Cs
    (assign (fun s => set_writeGeneration None (set_generation (Some g1) (set_memberRegistered false s)));;;
     registerMember;;;
     assign (fun s => set_entries (unseen (lg_entries s)) (set_head 0 s));;;
     resetProfileDirectory;;;
     assign (fun s => set_generationChanges (lg_generationChanges s + 1) (set_unreported true (set_dirty true
       (set_acknowledged [] (set_kidApprovalEntries [] s)))));;;
     ret true) settled s e.
Proof.
  intros Hwf Hne Hu. apply lwp_bind, lwp_assign.
  eapply lwp_calm_bind; [apply quiet_registerMember|done|done|]. intros _ s1 e1 _ Hv1 Hwf1 Hl1.
  apply lwp_bind, lwp_assign.
  eapply lwp_calm_bind; [apply quiet_resetProfileDirectory|done|by intros x s2 e2 [b [=]]|].
  intros _ s2 e2 _ Hv2 Hwf2 Hl2. apply lwp_bind, lwp_assign, lwp_ret. split; [done|].
  unfold view in *. cbn in *. injection Hv1 as _ Hgen _. injection Hv2 as _ -> ->. rewrite Hgen.
  apply fresh_inv; [done| |done]. do 2 (eapply later_used; [eassumption|]). done.
Qed.

Lemma lwp_pass_restart g g1 s e :
  (view s).1.2 = Some g -> g <> "" -> g ∈ ed_past e -> edge_wf e -> g1 <> "" -> g1 ∈ used e ->
  lwp Cs (pass_restart (Some g1)) settled s e.
Proof.
  intros Hg Hne Hp Hwf Hne1 Hu1. unfold pass_restart. apply lwp_bind, lwp_get.
  assert (Hover : forall (A : Type) (r : res A) s1 e1, (view s1).1.2 = Some g -> edge_wf e1 -> later e e1 -> settled r s1 e1).
  { intros A r s1 e1 Hv Hwf1 Hl. split; [done|]. eapply over_inv; [exact Hv|done|by eapply later_over|done]. }
  destruct (directoryCommitted s).
  - apply lwp_bind, lwp_bind, lwp_bind, lwp_assign.
    refine (quiet_drop_copies Cs _ _ _ _ eq_refl Hwf (calm_any _ _ _) _). intros [[]|x] s1 e1 _ Hv1 Hwf1 Hl1.
    + apply lwp_ret. cbn [negb]. apply lwp_restarted; [done|done|by eapply later_used].
    + apply Hover; [by rewrite Hv1|done|done].
  - eapply lwp_calm_bind; [apply quiet_stageRecovery|done|intros; apply Hover; congruence|].
    intros [] s1 e1 _ Hv1 Hwf1 Hl1; cbn [negb]; [|apply lwp_ret, Hover; congruence].
    apply lwp_restarted; [done|done|by eapply later_used].
Qed.

(** A page den-edge answered while [g] was known. *)
Record page_of (g : string) (h since : Z) (e : Edge) (page : Page) (e0 : Edge) : Prop := {
  po_wf : edge_wf e0;
  po_later : later e0 e;
  po_used : g ∈ used e0;
  po_head : ed_generation e0 = g -> h <= ed_head e0;
  po_page : is_page since page e0
}.

Lemma page_of_later g h since e e' page e0 : later e e' -> page_of g h since e page e0 -> page_of g h since e' page e0.
Proof. intros Hl [? ? ? ? ?]. split; [done|by etrans|done..]. Qed.

Lemma truthy_name e : edge_wf e -> truthy_option (Some (ed_generation e)) = Some (ed_generation e).
Proof. intros Hwf. destruct (wf_name _ Hwf) as [Hne _]. by destruct (ed_generation e). Qed.

(** The headers and the body of a good answer agree. *)
Lemma coherent_page e since res body page :
  edge_wf e -> good e res (fun b => exists page, b = BodyPage page /\ is_page since page e) ->
  rs_body res = Ok body -> coherentResponsePage res body = Some page -> is_page since page e.
Proof.
  intros Hwf (_ & Hgen & Hb) Hbody Hco. rewrite Hbody in Hb. destruct Hb as (page0 & -> & Hpage).
  pose proof (truthy_name e Hwf) as Htruthy.
  destruct page0 as [pgen entries head more]. pose proof Hpage as (n & Hg & Hrest). cbn in Hg. subst pgen.
  unfold coherentResponsePage in Hco. destruct (responsePage _); cbn [negb pg_generation] in Hco; [|done].
  unfold coherentLibraryGeneration in Hco. rewrite Htruthy in Hco.
  assert (Hsome : mkPage (Some (ed_generation e)) entries head more = page); [|by subst page].
  destruct Hgen as [Hgen|Hgen]; rewrite Hgen in Hco.
  - change (truthy_option None) with (@None string) in Hco. cbv iota beta in Hco. rewrite Htruthy in Hco. by injection Hco.
  - rewrite Htruthy, String.eqb_refl in Hco. cbv iota beta in Hco. rewrite Htruthy in Hco. by injection Hco.
Qed.

Lemma lwp_send_changes g h gh wire since limit s e (Q : res Response -> Log -> Edge -> Prop) :
  at_rest g h s e ->
  (forall r s1 e1, view s1 = view s -> at_rest g h s1 e1 ->
     (forall res body page, r = Ok res -> ok_status res = true -> rs_body res = Ok body ->
        coherentResponsePage res body = Some page -> exists e0, page_of g h since e1 page e0) -> Q r s1 e1) ->
  lwp Cs (send (ChangesRequest gh wire since limit)) Q s e.
Proof.
  intros Hrest HQ. pose proof Hrest as (Hg & Hh & Hinv & Hwf). unfold send. apply lwp_bind, lwp_call.
  intros s1 e1 [Hv1 _] Hwf1 Hl1. split; [by intros [=]|]. intros r e2 e3 Hr Hwf2 Hl2 Hwf3 Hl3.
  assert (Hrest1 : at_rest g h s1 e1) by (by apply (at_rest_later g h s e)).
  assert (Hpage : forall res body page, r = Ok res -> ok_status res = true -> rs_body res = Ok body ->
    coherentResponsePage res body = Some page -> exists e0, page_of g h since e3 page e0).
  { intros res body page -> Hok Hbody Hco. exists e1. split.
    - done.
    - by etrans.
    - by eapply at_rest_used.
    - intros Heq. destruct Hrest1 as (Hg1 & Hh1 & (g' & Hg' & _ & _ & Hcur) & _).
      destruct (Hcur ltac:(congruence)) as (_ & _ & Hle). by rewrite Hh1 in Hle.
    - inversion Hr as [|? ? Hno| | |? ? ? ? ? Hgood]; subst; [congruence|]. by eapply coherent_page. }
  assert (Hrest3 : at_rest g h s1 e3) by (apply (at_rest_later g h s1 e1); [done|done|by etrans|done]).
  destruct r as [res|x]; [|by apply HQ].
  apply lwp_bind. eapply lwp_quiet; [apply quiet_observeProtocol|exact Hrest3|].
  intros [[]|x] s4 e4 _ Hv4 Hl4 Hrest4; [|by apply HQ; [congruence| |]].
  apply lwp_ret, HQ; [congruence|done|]. intros res' body page [= <-] Hok Hbody Hco.
  destruct (Hpage res body page eq_refl Hok Hbody Hco) as [e0 He0]. exists e0. by eapply page_of_later.
Qed.

(** Every live row up to the head a page is read to is in the page, or was read before. *)
Lemma page_complete since page e0 raw :
  edge_wf e0 -> is_page since page e0 -> raw ∈ ed_rows e0 -> since < raw_seq raw ->
  raw_seq raw <= default (pg_head page) (raw_seq <$> last (pg_entries page)) -> raw ∈ pg_entries page.
Proof.
  intros Hwf (n & _ & _ & -> & Hn & _) Hraw Hlt. set (rows := filter _ (ed_rows e0)) in *.
  assert (Hin : raw ∈ rows) by (by apply list_elem_of_filter).
  assert (Hsort : StronglySorted (fun r r' => raw_seq r < raw_seq r') rows) by (apply StronglySorted_filter, wf_sorted, Hwf).
  clearbody rows. destruct (last (take n rows)) as [l|] eqn:Hl; cbn.
  - intros Hle. apply last_Some in Hl as [pre Hpre]. rewrite <-(take_drop n rows) in Hin, Hsort.
    apply elem_of_app in Hin as [Hin|Hin]; [done|].
    rewrite Hpre in Hsort. apply StronglySorted_app_1_elem_of with (x1 := l) (x2 := raw) in Hsort; [lia| |done].
    apply elem_of_app. right. by left.
  - intros _. apply last_None in Hl. destruct rows as [|r rows]; [by apply not_elem_of_nil in Hin|].
    destruct n; [|done]. by specialize (Hn eq_refl).
Qed.

Lemma page_head since page e0 :
  edge_wf e0 -> is_page since page e0 -> since <= ed_head e0 ->
  since <= default (pg_head page) (raw_seq <$> last (pg_entries page)) <= ed_head e0.
Proof.
  intros Hwf (n & _ & -> & -> & _) Hle. destruct (last _) as [l|] eqn:Hl; cbn; [|lia].
  apply last_Some_elem_of, elem_of_take in Hl as (i & Hi & _).
  apply list_elem_of_lookup_2, list_elem_of_filter in Hi as [Hlt Hin].
  pose proof (wf_seqs _ Hwf l (wf_rows _ Hwf l Hin)). lia.
Qed.

Lemma page_paged g h e e0 page :
  edge_wf e -> ed_generation e0 = g -> page_of g h h e page e0 ->
  Forall (paged g h e) (pg_entries page) /\ Forall (fun raw => 0 < raw_seq raw) (pg_entries page).
Proof.
  intros Hwf Hgen [Hwf0 Hl Hu Hh Hpage]. destruct Hpage as (n & _ & _ & -> & _).
  assert (Hraw : forall raw, raw ∈ take n (filter (fun r => h < raw_seq r) (ed_rows e0)) -> h < raw_seq raw /\ raw ∈ ed_rows e0).
  { intros raw (i & Hi & _)%elem_of_take. by apply list_elem_of_lookup_2, list_elem_of_filter in Hi. }
  split; apply Forall_forall; intros raw [Hlt Hin]%Hraw.
  - intros Heq. destruct (still_current e0 e g Hwf Hl Hu Heq) as [_ Hgr]. pose proof (gr_head _ _ Hgr).
    specialize (Hh Hgen). split; [by apply (gr_log _ _ Hgr), (wf_rows _ Hwf0)|lia].
  - apply (wf_seqs _ Hwf0 raw), (wf_rows _ Hwf0), Hin.
Qed.

(** The head moves past a page whose rows are acknowledged. *)
Lemma advance_inv acks g h e e0 page :
  lane_inv (acks, Some g, h) e -> edge_wf e -> ed_generation e0 = g -> page_of g h h e page e0 ->
  Forall (covered acks) (pg_entries page) ->
  lane_inv (acks, Some g, default (pg_head page) (raw_seq <$> last (pg_entries page))) e.
Proof.
  intros (g' & [= <-] & Hne & Hu & Hcur) Hwf Hgen [Hwf0 Hl Hu0 Hh Hpage] Hcov. exists g. do 3 (split; [done|]).
  intros Heq. destruct (still_current e0 e g Hwf Hl Hu0 Heq) as [_ Hgr]. destruct (Hcur Heq) as (Ha & Hc & _).
  pose proof (gr_head _ _ Hgr). destruct (page_head h page e0 Hwf0 Hpage (Hh Hgen)) as [_ Hhead].
  split; [done|]. split; [|cbn [snd]; lia].
  intros raw Hraw Hle. cbn [fst snd] in *. destruct (Z_le_gt_dec (raw_seq raw) h) as [Hle0|Hgt]; [by apply Hc|].
  apply (gr_rows _ _ Hgr) in Hraw as [Hraw|Hlt]; [|lia].
  rewrite Forall_forall in Hcov. apply Hcov. eapply page_complete; [exact Hwf0|exact Hpage|done|lia|done].
Qed.

Lemma lwp_pass_take g h page e0 s e :
  at_rest g h s e -> ed_generation e0 = g -> page_of g h h e page e0 -> lwp Cs (pass_take page) settled s e.
Proof.
  intros Hrest Hgen Hpo. unfold pass_take. apply lwp_bind, lwp_assign.
  assert (Hpg : pg_generation page = Some g) by (destruct (po_page _ _ _ _ _ _ Hpo) as (n & Hg & _); congruence).
  assert (Hrest1 : at_rest g h (set_generation (pg_generation page) s) e).
  { revert Hrest. unfold at_rest, view. cbn. intros (Hg & Hrest). by rewrite Hpg, <-Hg. }
  apply lwp_bind, lwp_get.
  eapply lwp_quiet_let; [apply quiet_report|exact Hrest1|intros; by eapply rest_settled|].
  intros _ s1 e1 _ _ Hl1 Hrest2. apply lwp_bind, lwp_assign.
  pose proof (page_of_later _ _ _ _ _ _ _ Hl1 Hpo) as Hpo1.
  destruct (page_paged g h e1 e0 page) as [Hpaged Hpos]; [apply Hrest2|done|done|].
  apply lwp_bind. eapply lwp_later_mono; [|apply (lwp_take_entries g h); [exact Hrest2|done|done]].
  intros [[facts topology]|x] s2 e2 Hl2 (Hrest3 & _ & Hcov); [|by eapply rest_settled].
  specialize (Hcov _ eq_refl).
  eapply (lwp_quiet_let _ _ _ any); [by apply (quiet_call _ _ (KeepFacts _ _ _ _ _) any)|exact Hrest3|intros; by eapply rest_settled|].
  intros _ s3 e3 _ Hv3 Hl3 Hrest4. apply lwp_bind, lwp_assign, lwp_ret.
  destruct Hrest4 as (Hg4 & Hh4 & Hinv4 & Hwf4). split; [done|].
  rewrite <-(view_acks _ _ Hv3) in Hcov. unfold view in *.
  assert (Hset : forall b, view (set_head (default (pg_head page) (raw_seq <$> last (pg_entries page)))
    (if b : bool then s3 else set_dirty true s3)) = (lg_acknowledged s3, lg_generation s3,
      default (pg_head page) (raw_seq <$> last (pg_entries page)))) by (by intros []).
  unfold view in Hset. rewrite Hset. cbn in Hg4, Hh4. rewrite Hg4, Hh4 in Hinv4. rewrite Hg4.
  apply (advance_inv _ _ h _ e0); [done|done|done| |done].
  by do 2 (eapply page_of_later; [eassumption|]).
Qed.

(** A page of another log names a generation that followed this one. *)
Lemma other_log_over g h page e0 s e :
  at_rest g h s e -> page_of g h h e page e0 -> pg_generation page = Some (ed_generation e0) ->
  if other_log s page then g ∈ ed_past e0 else ed_generation e0 = g.
Proof.
  intros (Hg & Hh & (g' & Hg' & Hne & _) & _) [Hwf0 _ Hu Hhead Hpage] Hpg.
  unfold view in Hg, Hg', Hh. cbn in Hg, Hg', Hh. unfold other_log. rewrite Hg in Hg' |- *. injection Hg' as <-.
  destruct (wf_name _ Hwf0) as [Hne0 _]. rewrite Hpg.
  assert (Ht : forall t, t <> "" -> truthy_option (Some t) = Some t) by (intros t Ht; by destruct t).
  rewrite (Ht g Hne), (Ht _ Hne0). destruct (String.eqb_spec g (ed_generation e0)) as [Heq|Heq]; cbn [negb orb].
  - destruct Hpage as (n & _ & -> & _). rewrite Hh. specialize (Hhead (eq_sym Heq)).
    destruct (Z.ltb_spec (ed_head e0) h); [lia|done].
  - unfold used in Hu. apply elem_of_cons in Hu as [Hu|Hu]; [congruence|done].
Qed.

Lemma lwp_pass_turn g h s e : at_rest g h s e -> lwp Cs pass_turn settled s e.
Proof.
  intros Hrest. unfold pass_turn. apply lwp_bind, lwp_get, lwp_bind.
  assert (lg_head s = h) as Hhead by apply Hrest. rewrite Hhead.
  apply (lwp_send_changes g h); [done|]. intros [res|x] s1 e1 Hv1 Hrest1 Hpage; [|by eapply rest_settled].
  eapply (lwp_quiet_let _ _ _ any); [by destruct (rs_status res =? 410); [apply quiet_assign|apply quiet_ret]|done
    |intros; by eapply rest_settled|].
  intros _ s2 e2 _ Hv2 Hl2 Hrest2. destruct (rs_status res =? 404).
  { apply lwp_bind. eapply lwp_mono; [|by apply (lwp_pass_missing g h)].
    intros [read|x] s3 e3 Hset; [by apply lwp_ret|done]. }
  destruct (ok_status res) eqn:Hok; cbn [negb]; [|apply lwp_ret; by eapply rest_settled].
  apply lwp_bind, lwp_get.
  eapply (lwp_quiet_let _ _ _ any); [|done|intros; by eapply rest_settled|].
  { destruct (_ || _); [|by apply quiet_ret].
    apply quiet_seq; [by apply quiet_assign|intros _]. apply quiet_seq; [eapply quiet_any, quiet_registerMember|intros _].
    by apply quiet_assign. }
  intros _ s3 e3 _ Hv3 Hl3 Hrest3. apply lwp_bind, lwp_lift.
  destruct (rs_body res) as [body|x] eqn:Hbody; [|by eapply rest_settled].
  destruct (coherentResponsePage res body) as [page|] eqn:Hco; [|apply lwp_ret; by eapply rest_settled].
  destruct (Hpage res body page eq_refl Hok Hbody Hco) as [e0 Hpo].
  assert (Hpo3 : page_of g h h e3 page e0) by (by do 2 (eapply page_of_later; [eassumption|])).
  apply lwp_bind, lwp_get.
  assert (Hpg : pg_generation page = Some (ed_generation e0)) by (by destruct (po_page _ _ _ _ _ _ Hpo) as (n & Hg & _)).
  pose proof (other_log_over g h page e0 s3 e3 Hrest3 Hpo3 Hpg) as Hother. destruct (other_log s3 page).
  - apply lwp_bind. pose proof Hrest3 as (Hg & _ & (g' & Hg' & Hne & _) & Hwf3). rewrite Hpg.
    eapply lwp_mono; [|apply (lwp_pass_restart g); [done|congruence| |done| |]].
    + intros [restarted|x] s4 e4 Hset; [by apply lwp_ret|done].
    + eapply later_over; [apply Hpo3|done].
    + apply (wf_name e0), Hpo.
    + eapply later_used; [apply Hpo3|]. by apply elem_of_cons; left.
  - apply lwp_bind. eapply lwp_mono; [|by apply (lwp_pass_take g h page e0)].
    intros [fin|x] s4 e4 Hset; [by apply lwp_ret|done].
Qed.

Lemma lwp_pass_lane fuel s e : settled (Ok tt) s e -> lwp Cs (pass_lane fuel) settled s e.
Proof.
  intros Hset. unfold pass_lane. apply lwp_try.
  eapply (lwp_mono _ _ settled); [by intros [read|x] s1 e1 Hs; [|apply lwp_ret]|].
  revert s e Hset. induction fuel as [|fuel IH]; intros s e Hset; cbn [pass_loop]; [by apply lwp_ret|].
  destruct (settled_rest _ _ _ Hset) as (g & h & Hrest). apply lwp_bind.
  eapply lwp_mono; [|by apply (lwp_pass_turn g h)].
  intros [[read|u]|x] s1 e1 Hs; [by apply lwp_ret|by apply IH|done].
Qed.
End Lane.
