(* ===== verification/LogLibrary.v ===== *)
(** * What a browser's log is worth

    A browser's log at work against den-edge ([step]): its lane's work in any order, calls that are answered, refused or
    lost, other devices writing and restores in between, and other code of the browser at every await. *)

From S2P Require Import Prelude JsMap JsText Json Wire Clock LibraryV4 ProfileKeys ResetJournal LogState Log LogEdge LogSafety LogLane.
From stdpp Require Import relations.
Open Scope Z_scope.

Section Reachable.
Context `{NamePolicy, DocumentPolicy, MergePolicy, Sealing, LogConfig, !SealingLaws}.

Lemma other_code_trans s s1 s2 : other_code s s1 -> other_code s1 s2 -> other_code s s2.
Proof. intros [Hv1 Hw1] [Hv2 Hw2]. split; congruence. Qed.

(** A program waits unharmed. *)
Lemma pwp_wait C {A} (Q : res A -> Log -> Edge -> Prop) (p : prog A) s e s' e' :
  (forall r, Q r s e -> Q r s' e') -> other_code s s' -> edge_wf e' -> later e e' ->
  pwp C p Q s e -> pwp C p Q s' e'.
Proof.
  intros HQ Hs Hwf Hl Hp. destruct p as [r|op k]; [by apply HQ|].
  intros s1 e1 Hs1 Hwf1 Hl1. apply Hp; [by eapply other_code_trans|done|by etrans].
Qed.

Lemma settled_later {A} (r : res A) s e s' e' :
  other_code s s' -> edge_wf e' -> later e e' -> settled r s e -> settled r s' e'.
Proof. intros [Hv _] Hwf Hl [_ Hinv]. split; [done|]. rewrite Hv. by eapply lane_inv_later. Qed.

Lemma lwp_work m s e : work m -> settled (Ok tt) s e -> lwp Cs m settled s e.
Proof.
  intros Hw Hset. destruct (settled_rest _ _ _ Hset) as (g & h & Hrest).
  assert (Hend : forall (A : Type) (m : M A) s1, lwp Cs m settled s1 e -> lwp Cs (m;;; ret tt) settled s1 e).
  { intros A m0 s1 Hm. apply lwp_bind. eapply lwp_mono; [|exact Hm]. intros [a|x] s2 e2 Hs; [by apply lwp_ret|done]. }
  assert (Hrested : forall (A : Type) (m : M A) s1, lwp Cs m (rested g h) s1 e -> lwp Cs m settled s1 e).
  { intros A m0 s1. apply lwp_mono. intros r s2 e2 Hr. by eapply rest_settled. }
  destruct Hw.
  - apply lwp_bind, lwp_assign, Hend, Hrested, lwp_sendOps; [done|]. by apply set_outcome_rest.
  - by apply Hend, Hrested, lwp_writeAt_lane.
  - apply lwp_bind, lwp_assign, Hend, Hrested, lwp_writeSerial. by apply set_outcome_rest.
  - apply lwp_bind, lwp_assign, Hend, Hrested, lwp_flush_groups. by apply set_outcome_rest.
  - by apply Hend, lwp_pass_lane.
Qed.

Definition sound (c : config) : Prop :=
  edge_wf (c_edge c) /\ pwp Cs (c_prog c) settled (c_log c) (c_edge c).

Lemma replies_later op e r e' : edge_wf e -> replies op e r e' -> edge_wf e' /\ later e e'.
Proof.
  intros Hwf. destruct op; cbn; try (intros [-> _]; done); try (intros ->; done). intros Ha. by eapply answers_later.
Qed.

(** A call answered: the rest runs against the store as it is by then. *)
Lemma pwp_answered C {A} op (k : res (answer op) -> Log -> Log * prog A) (Q : res A -> Log -> Edge -> Prop) s e r e1 e2 :
  edge_wf e -> pwp C (Call op k) Q s e -> replies op e r e1 -> rtc elsewhere e1 e2 ->
  edge_wf e2 /\ later e e2 /\ C op s e /\ pwp C (k r s).2 Q (k r s).1 e2.
Proof.
  intros Hwf Hp Hr Hst. destruct (replies_later op e r e1 Hwf Hr) as [Hwf1 Hl1].
  destruct (env_later e1 e2 Hwf1 Hst) as [Hwf2 Hl2].
  destruct (Hp s e (conj eq_refl eq_refl) Hwf ltac:(done)) as [HC Hk].
  specialize (Hk r e1 e2 Hr Hwf1 Hl1 Hwf2 Hl2). destruct (k r s) as [s2 p2].
  split; [done|]. split; [by etrans|done].
Qed.

Lemma step_sound c c' : step c c' -> sound c -> sound c'.
Proof.
  intros Hst [Hwf Hp]. destruct Hst as [s p e e' He|s s' p e Hs|s op k e r e1 e2 Hr He|s r e m Hw]; cbn in *.
  - destruct (elsewhere_later e e' Hwf He) as [Hwf' Hl]. split; [done|].
    eapply pwp_wait; [|by split|done|exact Hl|exact Hp]. intros r. by apply settled_later.
  - split; [done|]. eapply pwp_wait; [|exact Hs|done|reflexivity|exact Hp]. intros r. by apply settled_later.
  - destruct (pwp_answered Cs op k settled s e r e1 e2 Hwf Hp Hr He) as (Hwf2 & _ & _ & Hk). done.
  - pose proof (lwp_work m s e Hw Hp) as Hm. unfold start, sound, lwp in *. destruct (m s) as [s1 p1]. done.
Qed.

Lemma reach_sound c c' : rtc step c c' -> sound c -> sound c'.
Proof. induction 1 as [c|c1 c2 c3 H12 _ IH]; [done|]. intros Hs. by apply IH, (step_sound c1). Qed.

(** The lane idle in the generation [g], which is den-edge's. *)
Definition idle_in (g : string) (c : config) : Prop :=
  (exists r, c_prog c = Ret r) /\ lg_generation (c_log c) = Some g /\ ed_generation (c_edge c) = g.

Lemma idle_inv s e c g :
  edge_wf e -> lane_inv (view s) e -> rtc step (mkConfig s (Ret (Ok tt)) e) c -> idle_in g c ->
  edge_wf (c_edge c) /\ acks_true (view (c_log c)) (c_edge c) /\ complete (view (c_log c)) (c_edge c).
Proof.
  intros Hwf Hinv Hst ([r Hr] & Hg & Heq).
  destruct (reach_sound _ _ Hst) as [Hwf' Hp]; [by split|]. split; [done|]. rewrite Hr in Hp.
  destruct Hp as [_ (g' & Hg' & _ & _ & Hcur)]. assert (g' = g) as -> by (unfold view in Hg'; cbn in Hg'; congruence).
  destruct (Hcur Heq) as (Ha & Hc & _). done.
Qed.

(** C3: whatever the lane did, whatever other devices wrote in between, however often the library was restored and
    whichever requests were refused or lost: once the lane is idle in den-edge's current generation, every row the log
    calls acknowledged is a row den-edge took in this generation, under the sequence the log has for it, and the log's
    version is what that stored row reads as. *)
Theorem log_acknowledged_true s e c g name entry :
  edge_wf e -> lane_inv (view s) e -> rtc step (mkConfig s (Ret (Ok tt)) e) c -> idle_in g c ->
  map_get name (lg_acknowledged (c_log c)) = Some entry ->
  exists t, mkRaw (rowKey name) (en_seq entry) t ∈ ed_log (c_edge c) /\ reads (rowKey name) t (en_row entry).
Proof.
  intros Hwf Hinv Hst Hidle Hget. destruct (idle_inv s e c g Hwf Hinv Hst Hidle) as (_ & Ha & _).
  by apply (Ha name entry).
Qed.

(** An acknowledged version at or past the live row's is the live row. *)
Lemma acknowledged_live v e raw name entry :
  edge_wf e -> acks_true v e -> raw ∈ ed_rows e -> raw_k raw = rowKey name -> map_get name v.1.1 = Some entry ->
  raw_seq raw <= en_seq entry -> en_seq entry = raw_seq raw /\ reads (raw_k raw) (raw_v raw) (en_row entry).
Proof.
  intros Hwf Ha Hraw Hk Hget Hle. destruct (Ha name entry Hget) as (t & Hlog & Hreads).
  destruct (wf_live _ Hwf _ Hlog) as (raw' & Hraw' & Hk' & Hle'). cbn in Hk', Hle'.
  assert (raw' = raw) as -> by (apply (wf_keys _ Hwf); [done|done|congruence]).
  assert (Heq : en_seq entry = raw_seq raw) by lia. split; [done|].
  pose proof (wf_once _ Hwf _ raw Hlog (wf_rows _ Hwf raw Hraw) Heq) as <-. done.
Qed.

(** C5: at the same moments nothing is missing: every row den-edge holds up to the head the log was read to, of a
    format this build reads, is acknowledged under its own sequence, as what it reads as. *)
Theorem log_read_complete s e c g raw row name :
  edge_wf e -> lane_inv (view s) e -> rtc step (mkConfig s (Ret (Ok tt)) e) c -> idle_in g c ->
  raw ∈ ed_rows (c_edge c) -> raw_seq raw <= lg_head (c_log c) ->
  openEntry (raw_k raw) (raw_v raw) = OpenedRow row -> preV4Row row = false -> rowName row = Ok name ->
  exists entry, map_get name (lg_acknowledged (c_log c)) = Some entry /\ en_seq entry = raw_seq raw /\
    reads (raw_k raw) (raw_v raw) (en_row entry).
Proof.
  intros Hwf Hinv Hst Hidle Hraw Hle Ho Hpre Hn.
  destruct (idle_inv s e c g Hwf Hinv Hst Hidle) as (Hwf' & Ha & Hc).
  destruct (Hc raw Hraw Hle row name Ho Hpre Hn) as (entry & Hget & Hle'). exists entry. split; [done|].
  eapply acknowledged_live; [done|exact Ha|done| |exact Hget|done]. symmetry. by eapply open_key.
Qed.

(** ** Sending edits *)

(** A run of one piece of work: steps that start no other. *)
Inductive runs : config -> config -> Prop :=
| runs_elsewhere s p e e' : elsewhere e e' -> runs (mkConfig s p e) (mkConfig s p e')
| runs_other s s' p e : other_code s s' -> runs (mkConfig s p e) (mkConfig s' p e)
| runs_call s op k e r e1 e2 :
    replies op e r e1 -> rtc elsewhere e1 e2 ->
    runs (mkConfig s (Call op k) e) (mkConfig (k r s).1 (k r s).2 e2).

(** A batch as [sendOps ops] makes it. *)
Definition ops_batch (ops : list Op) (op : Eff) (s : Log) : Prop :=
  forall generation wire writes, op = Send (BatchRequest generation wire writes) ->
    generation = header_generation s /\ exists ws, writes = edge_write <$> ws /\ derived ops (view s) ws.

Definition sends (ops : list Op) (c : config) : Prop :=
  edge_wf (c_edge c) /\ pwp (Cl (ops_batch ops)) (c_prog c) (fun _ _ _ => True) (c_log c) (c_edge c).

Lemma runs_sends ops c c' : runs c c' -> sends ops c -> sends ops c'.
Proof.
  intros Hst [Hwf Hp]. destruct Hst as [s p e e' He|s s' p e Hs|s op k e r e1 e2 Hr He]; cbn in *.
  - destruct (elsewhere_later e e' Hwf He) as [Hwf' Hl]. split; [done|].
    eapply pwp_wait; [|by split|done|exact Hl|exact Hp]. done.
  - split; [done|]. eapply pwp_wait; [|exact Hs|done|reflexivity|exact Hp]. done.
  - destruct (pwp_answered _ op k _ s e r e1 e2 Hwf Hp Hr He) as (Hwf2 & _ & _ & Hk). done.
Qed.

Lemma sendOps_sends ops riders s e : edge_wf e -> lane_inv (view s) e -> sends ops (start (sendOps ops riders;;; ret tt) s e).
Proof.
  intros Hwf Hinv. pose proof Hinv as (g & Hg & _).
  assert (Hm : lwp (Cl (ops_batch ops)) (sendOps ops riders;;; ret tt) (fun _ _ _ => True) s e).
  { apply lwp_bind. eapply lwp_mono; [|apply (lwp_sendOps _ g (view s).2 ops riders s e); [|done]].
    - by intros [a|x] s1 e1 _; [apply lwp_ret|].
    - intros s1 ws Hd generation wire writes [= <- <- <-]. split; [done|]. by exists ws. }
  unfold start, sends, lwp in *. by destruct (_ s) as [s1 p1].
Qed.

(** What a write of [ops] that den-edge takes replaces: the version the log has acknowledged, which the write was made
    from, or nothing where it was made from nothing. *)
Definition replaces (v : Vw) (e : Edge) (w : Sealed) : Prop :=
  match current (sw_k w) e with
  | Some raw => exists entry, map_get (sw_name w) v.1.1 = Some entry /\ en_seq entry = raw_seq raw /\
                  reads (raw_k raw) (raw_v raw) (en_row entry)
  | None => map_get (sw_name w) v.1.1 = None
  end.

Lemma based_replaces v e w :
  edge_wf e -> acks_true v e -> based v w -> from_option raw_seq 0 (current (sw_k w) e) = sw_base w -> replaces v e w.
Proof.
  intros Hwf Ha [[Hk _] Hb] Hcas. unfold replaces. rewrite Hb in Hcas. unfold seq_in in Hcas.
  destruct (current (sw_k w) e) as [raw|] eqn:Hcur; cbn in Hcas.
  - apply current_Some in Hcur as [Hraw Hkr]. pose proof (wf_seqs _ Hwf raw (wf_rows _ Hwf raw Hraw)).
    destruct (map_get (sw_name w) v.1.1) as [entry|] eqn:Hget; cbn in Hcas; [|lia].
    exists entry. split; [done|]. apply (acknowledged_live v e raw (sw_name w)); [done|done|done|congruence|done|lia].
  - destruct (map_get (sw_name w) v.1.1) as [entry|] eqn:Hget; [|done]. cbn in Hcas.
    destruct (Ha _ entry Hget) as (t & Hlog & _). pose proof (wf_seqs _ Hwf _ Hlog) as Hs. cbn in Hs. lia.
Qed.

(** C4: an edit loses no other device's: every batch [sendOps] sends in the generation it has read holds the documents
    the edits make of the acknowledged ones and the settings merged over the acknowledged ones ([derived]), and each
    write of it that den-edge takes replaces exactly the version it was made from, however many devices wrote since. *)
Theorem sendOps_no_lost_update ops riders s e c generation wire writes k :
  edge_wf e -> lane_inv (view s) e -> rtc runs (start (sendOps ops riders;;; ret tt) s e) c ->
  c_prog c = Call (Send (BatchRequest generation wire writes)) k ->
  lg_generation (c_log c) = Some (ed_generation (c_edge c)) ->
  exists ws, writes = edge_write <$> ws /\ derived ops (view (c_log c)) ws /\
    forall w, w ∈ ws -> from_option raw_seq 0 (current (sw_k w) (c_edge c)) = sw_base w ->
      replaces (view (c_log c)) (c_edge c) w.
Proof.
  intros Hwf Hinv Hst Hc Hg.
  assert (Hsends : sends ops c).
  { assert (H0' : sends ops (start (sendOps ops riders;;; ret tt) s e)) by (by apply sendOps_sends).
    revert H0'. clear Hc Hg. induction Hst as [c|c1 c2 c3 H12 _ IH]; [done|]. intros Hs. by apply IH, (runs_sends ops c1). }
  destruct Hsends as [Hwfc Hp]. rewrite Hc in Hp.
  destruct (Hp (c_log c) (c_edge c) (conj eq_refl eq_refl) Hwfc ltac:(done)) as [HC _].
  destruct (HC eq_refl) as [(g & Hg' & _ & _ & Hcur) HD]. unfold view in Hg'. cbn in Hg'.
  destruct (Hcur ltac:(congruence)) as (Ha & _ & _).
  destruct (HD _ _ _ eq_refl) as (_ & ws & -> & Hd). exists ws. split; [done|]. split; [done|].
  intros w Hw Hcas. apply based_replaces; [done|done| |done].
  pose proof (derived_based _ _ _ Hd) as Hb. rewrite Forall_forall in Hb. by apply Hb.
Qed.
End Reachable.
