(* ===== verification/LogPass.v ===== *)
(** * Reading to the head

    A pass against a den-edge that answers and stays as it is ends, at its head, with everything it holds acknowledged.
    Programs run here against answers that are a function of the call ([run]); what the logic of LogSafety shows of
    every run it shows of these. *)

From S2P Require Import Prelude JsMap JsText Json Wire Clock LibraryV4 ProfileKeys ResetJournal LogState Log LogEdge LogSafety LogLane LogLibrary.
From stdpp Require Import relations.
Open Scope Z_scope.

(** ** Running a program *)

Definition World : Type := forall op, res (answer op).

Fixpoint run_prog {A} (world : World) (p : prog A) (s : Log) : res A * Log :=
  match p with
  | Ret r => (r, s)
  | Call op k => let '(s1, p1) := k (world op) s in run_prog world p1 s1
  end.

Definition run {A} (world : World) (m : M A) (s : Log) : res A * Log := let '(s1, p) := m s in run_prog world p s1.

Lemma run_prog_bind {A B} world (f : res A -> M B) :
  forall (p : prog A) s, run world (prog_bind p f) s = let '(r, s1) := run_prog world p s in run world (f r) s1.
Proof.
  fix IH 1. intros [r|op k] s; [done|]. unfold run. cbn. specialize (IH (k (world op) s).2).
  destruct (k (world op) s) as [s1 p1]. cbn in IH. specialize (IH s1). unfold run in IH.
  destruct (prog_bind p1 f s1) as [s2 p2]. exact IH.
Qed.

Lemma run_let {A B} world (m : M A) (f : A -> M B) s :
  run world (bind m f) s = match run world m s with (Ok a, s1) => run world (f a) s1 | (Throw x, s1) => (Throw x, s1) end.
Proof.
  set (F := fun r => match r with Ok a => f a | Throw x => throw x end).
  assert (run world (bind m f) s = let '(s1, p) := m s in run world (prog_bind p F) s1) as ->.
  { unfold run, bind. by destruct (m s). }
  unfold run at 2. destruct (m s) as [s1 p]. rewrite run_prog_bind. by destruct (run_prog world p s1) as [[a|x] s2].
Qed.

Lemma run_try {A} world (m : M A) (h : string -> M A) s :
  run world (try_catch m h) s = match run world m s with (Ok a, s1) => (Ok a, s1) | (Throw x, s1) => run world (h x) s1 end.
Proof.
  set (F := fun r => match r with Ok a => ret a | Throw x => h x end).
  assert (run world (try_catch m h) s = let '(s1, p) := m s in run world (prog_bind p F) s1) as ->.
  { unfold run, try_catch. by destruct (m s). }
  unfold run at 2. destruct (m s) as [s1 p]. rewrite run_prog_bind. by destruct (run_prog world p s1) as [[a|x] s2].
Qed.

Lemma run_get world s : run world get s = (Ok s, s).
Proof. done. Qed.

Lemma run_assign world f s : run world (assign f) s = (Ok tt, f s).
Proof. done. Qed.

Lemma run_lift {A} world (r : res A) s : run world (lift r) s = (r, s).
Proof. done. Qed.

Lemma run_ret {A} world (a : A) s : run world (ret a) s = (Ok a, s).
Proof. done. Qed.

Section Pass.
Context `{NamePolicy, DocumentPolicy, MergePolicy, Sealing, LogConfig, !SealingLaws}.

(** den-core merges whatever rows it opened. *)
Definition merges_total : Prop := forall theirs ours, exists row, Log.merge theirs ours = Ok row.

(** A den-edge at [e] that answers every call of a pass (which sends no batch: one would be lost). *)
Record serves (e : Edge) (world : World) : Prop := {
  sv_replies : forall op, replies op e (world op) e;
  sv_changes : forall generation wire since limit, exists res page,
    world (Send (ChangesRequest generation wire since limit)) = Ok res /\
    (200 <= rs_status res <= 299) /\ rs_generation res = Some (ed_generation e) /\
    rs_body res = Ok (BodyPage page) /\ is_page since page e;
  sv_open : forall k v, world (OpenEntry k v) = Ok (openEntry k v);
  sv_now : exists now, world Now = Ok now;
  sv_meta : forall name value, exists kept, world (PutMeta name value) = Ok kept;
  sv_facts : forall generation head entries complete topology,
    world (KeepFacts generation head entries complete topology) = Ok tt;
  sv_sizes : forallb raw_ok (ed_rows e) = true /\ safeCount (ed_head e) = true
}.

Context (e : Edge) (world : World) (Hwf : edge_wf e) (Hserves : serves e world).

(** *** What holds of every run holds of this one *)

Lemma run_prog_adequate C {A} (Q : res A -> Log -> Edge -> Prop) :
  forall (p : prog A) s, pwp C p Q s e -> Q (run_prog world p s).1 (run_prog world p s).2 e.
Proof.
  fix IH 1. intros [r|op k] s Hp; [exact Hp|]. cbn.
  destruct (Hp s e (conj eq_refl eq_refl) Hwf ltac:(done)) as [_ Hk].
  specialize (Hk (world op) e e (sv_replies _ _ Hserves op) Hwf ltac:(done) Hwf ltac:(done)).
  destruct (k (world op) s) as [s1 p1]. exact (IH p1 s1 Hk).
Qed.

Lemma run_adequate C {A} (m : M A) (Q : res A -> Log -> Edge -> Prop) s :
  lwp C m Q s e -> Q (run world m s).1 (run world m s).2 e.
Proof. unfold lwp, run. destruct (m s) as [s1 p]. apply run_prog_adequate. Qed.

Lemma run_quiet {A} (m : M A) (R : res A -> Prop) s :
  quiet (fun _ _ _ => True) (view s) m R -> R (run world m s).1 /\ view (run world m s).2 = view s.
Proof.
  intros Hm. apply (run_adequate (fun _ _ _ => True) m (fun r s1 _ => R r /\ view s1 = view s)).
  apply Hm; [done|done|by intros ???|]. by intros.
Qed.

(** The run is one of the lane's. *)
Lemma run_prog_steps : forall (p : prog unit) s,
  rtc step (mkConfig s p e) (mkConfig (run_prog world p s).2 (Ret (run_prog world p s).1) e).
Proof.
  fix IH 1. intros [r|op k] s; [constructor|]. cbn. specialize (IH (k (world op) s).2 (k (world op) s).1).
  eapply rtc_l; [apply (step_call s op k e (world op) e e); [apply (sv_replies _ _ Hserves)|constructor]|].
  destruct (k (world op) s) as [s1 p1]. exact IH.
Qed.

Lemma run_work_steps m s r :
  work m -> rtc step (mkConfig s (Ret r) e) (mkConfig (run world m s).2 (Ret (run world m s).1) e).
Proof.
  intros Hw. eapply rtc_l; [by apply step_work, Hw|]. unfold start, run. destruct (m s) as [s1 p]. apply run_prog_steps.
Qed.

(** *** Runs that end well

    [m] answers, keeps the generation and the head, and its answer satisfies [Q]. *)

Definition place (s : Log) : option string * Z := (lg_generation s, lg_head s).

Definition steady {A} (m : M A) (Q : A -> Prop) : Prop :=
  forall s, exists a s1, run world m s = (Ok a, s1) /\ Q a /\ place s1 = place s.

Lemma steady_mono {A} (m : M A) (Q Q' : A -> Prop) : (forall a, Q a -> Q' a) -> steady m Q -> steady m Q'.
Proof. intros HQ Hm s. destruct (Hm s) as (a & s1 & Hr & Ha & Hp). exists a, s1. auto. Qed.

Lemma steady_ret {A} (a : A) (Q : A -> Prop) : Q a -> steady (ret a) Q.
Proof. intros Ha s. by exists a, s. Qed.

Lemma steady_lift {A} (r : res A) (Q : A -> Prop) : (exists a, r = Ok a /\ Q a) -> steady (lift r) Q.
Proof. intros (a & -> & Ha) s. by exists a, s. Qed.

Lemma steady_assign f (Q : unit -> Prop) : (forall s, place (f s) = place s) -> Q tt -> steady (assign f) Q.
Proof. intros Hf HQ s. by exists tt, (f s). Qed.

Lemma steady_call op (Q : answer op -> Prop) : (exists a, world op = Ok a /\ Q a) -> steady (call op) Q.
Proof. intros (a & Ha & HQ) s. exists a, s. unfold run. cbn. by rewrite Ha. Qed.

Lemma steady_get : steady get (fun _ => True).
Proof. intros s. by exists s, s. Qed.

Lemma steady_bind {A B} (m : M A) (f : A -> M B) (P : A -> Prop) (Q : B -> Prop) :
  steady m P -> (forall a, P a -> steady (f a) Q) -> steady (bind m f) Q.
Proof.
  intros Hm Hf s. rewrite run_let. destruct (Hm s) as (a & s1 & -> & Ha & Hp).
  destruct (Hf a Ha s1) as (b & s2 & Hr & Hb & Hp2). exists b, s2. split; [done|]. split; [done|congruence].
Qed.

Lemma steady_quiet {A} (m : M A) (R : res A -> Prop) :
  (forall v, quiet (fun _ _ _ => True) v m R) -> (forall r, R r -> exists a, r = Ok a) -> steady m (fun _ => True).
Proof.
  intros Hm HR s. destruct (run_quiet m R s (Hm _)) as [Hr Hv]. destruct (HR _ Hr) as [a Ha].
  destruct (run world m s) as [r s1]. cbn in *. subst r. exists a, s1. split; [done|]. split; [done|].
  unfold view in Hv. unfold place. congruence.
Qed.

Context (Hmerges : merges_total).

Ltac steady_step :=
  match goal with
  | |- steady (bind _ _) _ => apply (steady_bind _ _ (fun _ => True)); [|intros ? _]
  | |- steady (ret _) _ => by apply steady_ret
  | |- steady (assign _) _ => apply steady_assign; [intros ?; repeat case_match; reflexivity|done]
  | |- steady get _ => apply steady_get
  | |- steady (if ?b then _ else _) _ => destruct b
  | |- steady (match ?x with _ => _ end) _ => destruct x
  end.

Lemma steady_observeProtocol res : steady (observeProtocol res) (fun _ => True).
Proof.
  unfold observeProtocol. repeat steady_step. apply (steady_call (PutMeta _ _)).
  destruct (sv_meta _ _ Hserves "wireMin" (Z_str z)) as [kept Hk]. by exists kept.
Qed.

(** A read that opens as a row answers it. *)
Lemma steady_readEntry k v :
  steady (readEntry k v) (fun read => forall row, read = Some (ReadRow row) -> exists name, rowName row = Ok name).
Proof.
  unfold readEntry, note_backup. apply (steady_bind _ _ (fun opened => opened = openEntry k v)).
  { apply (steady_call (OpenEntry k v)). exists (openEntry k v). split; [apply (sv_open _ _ Hserves)|done]. }
  intros opened Ho. steady_step; [steady_step|]. destruct opened as [row| | | | | |]; [|repeat steady_step..].
  destruct (preV4Row row); [repeat steady_step|]. symmetry in Ho. destruct (open_named k v row Ho) as (name & Hname & _).
  apply (steady_bind _ _ (fun _ => True)).
  - unfold noteFormat. destruct row as [d| | |]; repeat steady_step. apply steady_lift. by exists name.
  - intros _ _. apply (steady_bind _ _ (fun _ => True)).
    + apply (steady_call Now). destruct (sv_now _ _ Hserves) as [now Hn]. by exists now.
    + intros now _. apply steady_ret. intros row' [= <-]. exists name. by rewrite rowName_believe.
Qed.

Lemma steady_report b : steady (report b) (fun _ => True).
Proof. unfold report. repeat steady_step. Qed.

Lemma merge_over_total held row : exists row', merge_over held row = Ok row'.
Proof. destruct held as [entry|]; cbn; [apply Hmerges|by exists row]. Qed.

Lemma steady_take_entry st raw : steady (take_entry st raw) (fun _ => True).
Proof.
  destruct st as [facts topology]. unfold take_entry. eapply steady_bind; [apply steady_readEntry|].
  intros read Hread.
  assert (Hreport : forall (A : Type) (m : M bool) (a : A), steady m (fun _ => True) ->
    steady (let* changed := m in report changed;;; ret a) (fun _ => True)).
  { intros A m a Hm. eapply steady_bind; [exact Hm|]. intros changed _.
    eapply steady_bind; [apply steady_report|]. intros _ _. by apply steady_ret. }
  destruct read as [[row|document|document|]|].
  - destruct (Hread row eq_refl) as [name Hname]. apply (steady_bind _ _ (fun _ => True)); [apply steady_get|].
    intros s _. apply (steady_bind _ _ (fun _ => True)); [apply steady_lift; by exists name|]. intros name' _.
    apply (steady_bind _ _ (fun _ => True)).
    { apply steady_lift. destruct (merge_over_total (map_get name' (lg_entries s)) row) as [row' Hr]. by exists row'. }
    intros merged _. repeat steady_step.
  - apply Hreport. unfold acceptProfileDirectory. repeat steady_step.
  - apply Hreport. unfold acceptKidTitleApprovals. repeat steady_step.
  - apply Hreport. unfold invalidateProfileDirectory. repeat steady_step.
  - by apply steady_ret.
Qed.

Lemma steady_take_entries st raws : steady (take_entries st raws) (fun _ => True).
Proof.
  revert st. induction raws as [|raw raws IH]; intros st; cbn [take_entries]; [by apply steady_ret|].
  eapply steady_bind; [apply steady_take_entry|]. intros st1 _. apply IH.
Qed.

(** Where a page leaves the head, and whether it is the last. *)
Definition page_end (page : Page) : Z := default (pg_head page) (raw_seq <$> last (pg_entries page)).
Definition page_done (page : Page) : bool := negb (pg_more page) || (length (pg_entries page) =? 0)%nat.

Lemma run_pass_take page s :
  exists s1, run world (pass_take page) s = (Ok (page_done page), s1) /\ place s1 = (pg_generation page, page_end page).
Proof.
  unfold pass_take. rewrite run_let, run_assign, run_let, run_get, run_let.
  destruct (steady_report (profileDirectoryPending (set_generation (pg_generation page) s)) (set_generation (pg_generation page) s))
    as ([] & s1 & -> & _ & Hp1). rewrite run_let, run_assign, run_let.
  destruct (steady_take_entries ([], false) (pg_entries page) (set_writeGeneration None (set_readCurrentGeneration true s1)))
    as ([facts topology] & s2 & -> & _ & Hp2). rewrite run_let.
  destruct (steady_call (KeepFacts (pg_generation page) (page_end page) facts (page_done page) topology) (fun _ => True)
    ltac:(exists tt; split; [apply (sv_facts _ _ Hserves)|done]) s2) as (u & s3 & Hr & _ & Hp3).
  unfold page_end, page_done in Hr. rewrite Hr, run_let, run_assign, run_ret. eexists. split; [reflexivity|].
  assert (Hg3 : lg_generation s3 = pg_generation page).
  { injection Hp3 as -> _. injection Hp2 as -> _. injection Hp1 as Hp1 _. exact Hp1. }
  unfold place, page_end. rewrite <-Hg3. by destruct (_ =? _).
Qed.

Lemma steady_refused s0 :
  steady (if lg_refused s0 || negb (lg_credential s0)
          then assign (set_refused false);;; registerMember;;; assign (set_credential true) else ret tt) (fun _ => True).
Proof.
  repeat steady_step. apply (steady_quiet _ (fun r => r = Ok tt)); [apply quiet_registerMember|]. intros r ->. eauto.
Qed.

(** The page is coherent, and of the log this one is. *)
Lemma coherent_served since res page :
  rs_generation res = Some (ed_generation e) -> is_page since page e ->
  coherentResponsePage res (BodyPage page) = Some page /\ pg_generation page = Some (ed_generation e).
Proof.
  intros Hgen (n & Hg & Hhead & Hent & _). split; [|done]. destruct (sv_sizes _ _ Hserves) as [Hrows Hsafe].
  pose proof (truthy_name e Hwf) as Ht.
  unfold coherentResponsePage. assert (responsePage page = true) as ->.
  { unfold responsePage. rewrite Hhead, Hsafe, andb_true_r. apply forallb_forall. intros raw Hraw.
    rewrite forallb_forall in Hrows. apply Hrows. apply list_elem_of_In. apply list_elem_of_In in Hraw. rewrite Hent in Hraw.
    apply elem_of_take in Hraw as (i & Hi & _). apply list_elem_of_lookup_2, list_elem_of_filter in Hi as [_ Hi].
    done. }
  cbn [negb]. unfold coherentLibraryGeneration. rewrite Hg, Hgen, Ht, String.eqb_refl. cbv iota beta. rewrite Ht.
  cbn [with_default]. rewrite <-Hg. by destruct page.
Qed.

Lemma same_log s page h :
  place s = (Some (ed_generation e), h) -> pg_generation page = Some (ed_generation e) -> h <= ed_head e ->
  is_page h page e -> other_log s page = false.
Proof.
  intros [= Hg Hh] Hpg Hle (n & _ & Hhead & _). unfold other_log. rewrite Hg, Hpg, Hh, Hhead.
  pose proof (truthy_name e Hwf) as Ht.
  rewrite Ht, String.eqb_refl. cbn. apply Z.ltb_ge. lia.
Qed.

(** A turn that stays in the generation takes the page. *)
Lemma run_pass_turn (s : Log) :
  lg_generation s = Some (ed_generation e) -> lg_head s <= ed_head e ->
  exists page s1, is_page (lg_head s) page e /\
    run world pass_turn s = (Ok (if page_done page then inl ReachedHead else inr tt), s1) /\
    place s1 = (Some (ed_generation e), page_end page).
Proof.
  intros Hg Hh. unfold pass_turn. rewrite run_let, run_get, run_let. unfold send. rewrite run_let.
  destruct (sv_changes _ _ Hserves (header_generation s) instanceWire (lg_head s) 1000)
    as (res & page & Hres & Hstatus & Hgen & Hbody & Hpage).
  assert (run world (call (Send (ChangesRequest (header_generation s) instanceWire (lg_head s) 1000))) s = (Ok res, s)) as ->.
  { unfold run. cbn. by rewrite Hres. }
  rewrite run_let. destruct (steady_observeProtocol res s) as ([] & s1 & -> & _ & Hp1). rewrite run_ret, run_let.
  destruct (Z.eqb_spec (rs_status res) 410); [lia|]. destruct (Z.eqb_spec (rs_status res) 404); [lia|]. rewrite run_ret.
  assert (ok_status res = true) as -> by (unfold ok_status; apply andb_true_intro; split; apply Z.leb_le; lia).
  cbn [negb]. rewrite run_let, run_get, run_let.
  destruct (steady_refused s1 s1) as ([] & s2 & -> & _ & Hp2). rewrite run_let, run_lift, Hbody.
  destruct (coherent_served (lg_head s) res page Hgen Hpage) as [-> Hpg].
  assert (Hplace : place s2 = (Some (ed_generation e), lg_head s)) by (rewrite Hp2, Hp1; unfold place; by rewrite Hg).
  rewrite run_let, run_get, (same_log s2 page (lg_head s) Hplace Hpg Hh Hpage), run_let.
  destruct (run_pass_take page s2) as (s3 & -> & Hp3). rewrite run_ret. exists page, s3. split; [done|].
  split; [done|]. by rewrite Hp3, Hpg.
Qed.

(** *** The loop *)

Definition rows_past (h : Z) : list RawEntry := filter (fun r => h < raw_seq r) (ed_rows e).

(** A last page covers the rest of the rows. *)
Lemma page_done_end h page :
  is_page h page e -> page_done page = true -> forall raw, raw ∈ ed_rows e -> raw_seq raw <= Z.max h (page_end page).
Proof.
  intros (n & _ & Hhead & Hent & Hn & Hmore) Hdone raw Hraw. destruct (Z_le_gt_dec (raw_seq raw) h) as [|Hgt]; [lia|].
  assert (Hin : raw ∈ rows_past h) by (apply list_elem_of_filter; split; [lia|done]).
  fold (rows_past h) in Hent, Hn, Hmore. unfold page_done in Hdone. rewrite Hmore in Hdone.
  assert (Hall : pg_entries page = rows_past h).
  { rewrite Hent. apply orb_prop in Hdone as [Hd|Hd].
    - apply take_ge. by apply negb_true_iff, Nat.ltb_ge in Hd.
    - apply Nat.eqb_eq, nil_length_inv in Hd. rewrite Hent in Hd. rewrite Hd.
      destruct (rows_past h) as [|r rows]; [done|]. destruct n; [by specialize (Hn eq_refl)|done]. }
  unfold page_end. rewrite Hall. destruct (last (rows_past h)) as [l|] eqn:Hl; cbn.
  - apply last_Some in Hl as [pre Hpre].
    assert (Hsort : StronglySorted (fun r r' => raw_seq r < raw_seq r') (rows_past h)) by (apply StronglySorted_filter, wf_sorted, Hwf).
    rewrite Hpre in Hin, Hsort. apply elem_of_app in Hin as [Hin|Hin%list_elem_of_singleton]; [|subst; lia].
    apply StronglySorted_app_1_elem_of with (x1 := raw) (x2 := l) in Hsort; [lia|done|by left].
  - apply last_None in Hl. rewrite Hl in Hin. by apply not_elem_of_nil in Hin.
Qed.

(** Any other page leaves fewer. *)
Lemma page_more_fewer h page :
  is_page h page e -> page_done page = false ->
  h <= page_end page <= ed_head e /\ (length (rows_past (page_end page)) < length (rows_past h))%nat.
Proof.
  intros Hpage Hdone. pose proof Hpage as (n & _ & Hhead & Hent & Hn & Hmore). fold (rows_past h) in Hent, Hn.
  unfold page_done in Hdone. apply orb_false_iff in Hdone as [_ Hne]. apply Nat.eqb_neq in Hne.
  unfold page_end. destruct (last (pg_entries page)) as [l|] eqn:Hl; cycle 1.
  { apply last_None in Hl. by rewrite Hl in Hne. }
  cbn. assert (Hin : l ∈ rows_past h).
  { apply last_Some_elem_of in Hl. rewrite Hent in Hl. apply elem_of_take in Hl as (i & Hi & _).
    by eapply list_elem_of_lookup_2. }
  pose proof Hin as [Hlt Hrow]%list_elem_of_filter. pose proof (wf_seqs _ Hwf l (wf_rows _ Hwf l Hrow)).
  split; [lia|]. unfold rows_past in *.
  assert (Heq : filter (fun r => raw_seq l < raw_seq r) (ed_rows e) =
    filter (fun r => raw_seq l < raw_seq r) (filter (fun r => h < raw_seq r) (ed_rows e))).
  { rewrite list_filter_filter. apply list_filter_iff. intros r. lia. }
  rewrite Heq. eapply length_filter_lt; [exact Hin|lia].
Qed.

Lemma run_pass_loop fuel (s : Log) :
  lg_generation s = Some (ed_generation e) -> lg_head s <= ed_head e -> (length (rows_past (lg_head s)) < fuel)%nat ->
  exists s1, run world (pass_loop fuel) s = (Ok ReachedHead, s1) /\ lg_generation s1 = Some (ed_generation e) /\
    forall raw, raw ∈ ed_rows e -> raw_seq raw <= lg_head s1.
Proof.
  revert s. induction fuel as [|fuel IH]; intros s Hg Hh Hfuel; [lia|]. cbn [pass_loop]. rewrite run_let.
  destruct (run_pass_turn s Hg Hh) as (page & s1 & Hpage & -> & Hp). injection Hp as Hg1 Hh1.
  destruct (page_done page) eqn:Hdone.
  - rewrite run_ret. exists s1. split; [done|]. split; [done|]. rewrite Hh1. intros raw Hraw.
    pose proof (page_done_end _ _ Hpage Hdone raw Hraw). destruct (page_head _ _ _ Hwf Hpage Hh).
    fold (page_end page) in *. lia.
  - destruct (page_more_fewer _ _ Hpage Hdone) as [Hle Hlt]. rewrite <-Hh1 in Hle, Hlt. apply IH; [done|lia|lia].
Qed.

(** C6: a pass of a log that den-edge's current generation is, against a den-edge that answers and holds still, comes
    to its head in at most one turn more than there are rows past the log's head, and then every row den-edge holds of
    a format this build reads is acknowledged under its own sequence, as what it reads as. *)
Theorem pass_reaches_head fuel (s : Log) :
  lane_inv (view s) e -> lg_generation s = Some (ed_generation e) ->
  (length (rows_past (lg_head s)) < fuel)%nat ->
  exists s1, run world (pass_lane fuel) s = (Ok ReachedHead, s1) /\
    forall raw row name, raw ∈ ed_rows e -> openEntry (raw_k raw) (raw_v raw) = OpenedRow row ->
      preV4Row row = false -> rowName row = Ok name ->
      exists entry, map_get name (lg_acknowledged s1) = Some entry /\ en_seq entry = raw_seq raw /\
        reads (raw_k raw) (raw_v raw) (en_row entry).
Proof.
  intros Hinv Hg Hfuel. pose proof Hinv as (g & Hg' & _ & _ & Hcur). unfold view in Hg'. cbn in Hg'.
  destruct (Hcur ltac:(congruence)) as (_ & _ & Hh).
  destruct (run_pass_loop fuel s Hg Hh Hfuel) as (s1 & Hrun & Hg1 & Hall).
  assert (Hlane : run world (pass_lane fuel) s = (Ok ReachedHead, s1)) by (unfold pass_lane; by rewrite run_try, Hrun).
  exists s1. split; [done|].
  pose proof (run_adequate Cs (pass_lane fuel) settled s (lwp_pass_lane fuel s e (conj Hwf Hinv))) as Hset.
  rewrite Hlane in Hset. destruct Hset as [_ (g1 & Hv1 & _ & _ & Hcur1)]. unfold view in Hv1. cbn in Hv1.
  destruct (Hcur1 ltac:(congruence)) as (Ha & Hc & _). intros raw row name Hraw Ho Hpre Hn.
  destruct (Hc raw Hraw (Hall raw Hraw) row name Ho Hpre Hn) as (entry & Hget & Hle). exists entry. split; [done|].
  eapply acknowledged_live; [done|exact Ha|done| |exact Hget|done]. symmetry. by eapply open_key.
Qed.
End Pass.
