(* ===== verification/LogExample.v ===== *)
(** * A small library

    One settings row between two devices: the witnesses of the log's theorems, and the run in which an edit sent under a
    generation its log has not read replaces a row nobody showed it. *)

From S2P Require Import Prelude JsMap JsText Json Wire Clock LibraryV4 ProfileKeys ResetJournal LogState Log LogEdge LogSafety LogLane LogLibrary LogPass.
From stdpp Require Import relations.
Open Scope Z_scope.

Module Theme.

(** ** Rows, merged by union and stored as texts *)

Definition setting (name : string) (n : Z) : string * Setting := (name, mkStamped (Some (CInt n)) ZERO_STAMP).

Definition theme_row (values : list (string * Setting)) : SettingsRow := mkSettingsRow 1 "theme" values [].
Definition theme (values : list (string * Setting)) : Row := RSettings (theme_row values).

Definition K : string := "aaaaaaaaaaaaaaaaaaaaaaaaaaaaaaaaaaaaaaaaaaaaaaaaaaaaaaaaaaaaaaaa".
Definition L : string := "bbbbbbbbbbbbbbbbbbbbbbbbbbbbbbbbbbbbbbbbbbbbbbbbbbbbbbbbbbbbbbbb".

Definition stored_texts : list (string * list (string * Setting)) :=
  [("a", [setting "a" 1]); ("ab", [setting "a" 1; setting "b" 2]); ("ac", [setting "a" 1; setting "c" 3])].

#[local] Instance small_names : NamePolicy := fun _ => Throw "doc_name".

#[local] Instance small_documents : DocumentPolicy := {|
  policy_title_state := fun _ _ => Throw "title_state_v4";
  policy_season_state := fun _ _ => Throw "season_state_v4";
  policy_episode_state := fun _ _ _ _ => Throw "episode_state_v4";
  policy_apply_write := fun _ _ _ _ _ => Throw "apply_write_v4"
|}.

#[local] Instance small_merges : MergePolicy := {|
  mergeDocument := fun theirs ours => Ok ours;
  mergeTitle := fun theirs ours => Ok ours;
  mergeEpisode := fun theirs ours => Ok ours;
  mergeSettings := fun theirs ours =>
    Ok (mkSettingsRow (set_schema theirs) (set_name theirs)
          (foldl (fun m p => map_set p.1 p.2 m) (set_values theirs) (set_values ours)) (set_unknown theirs));
  doc_fits := fun _ _ => Ok true
|}.

#[local] Instance small_sealing : Sealing := {|
  rowKey := fun name => if String.eqb name "set:theme" then K else L;
  openEntry := fun k v =>
    if String.eqb k K
    then match map_get v stored_texts with Some values => OpenedRow (theme values) | None => OpenedUnknown JNull end
    else OpenedUnknown JNull
|}.

#[local] Instance small_config : LogConfig := {| instanceWire := 5; runtimeAvailable := true |}.

#[local] Instance small_laws : SealingLaws.
Proof.
  intros k v row. unfold openEntry, rowKey, small_sealing. destruct (String.eqb_spec k K) as [->|]; [|done].
  destruct (map_get v stored_texts) as [values|]; [|done]. intros [= <-]. by exists "set:theme".
Qed.

Lemma small_merges_total : merges_total.
Proof.
  intros [d| | |] [d'| | |]; cbn; try (by eexists). destruct (_ || _); by eexists.
Qed.

(** ** The store and the log *)

(** A store whose one key was last written as [t]. *)
Definition holding (generation : string) (past : list string) (t : string) : Edge :=
  mkEdge generation past 1 [mkRaw K 1 t] [mkRaw K 1 t].

Definition e1 : Edge := holding "g1" [] "a".
Definition e2 : Edge := holding "g2" ["g1"] "ab".

Lemma holding_wf generation past t : generation <> "" -> (generation ∉ past) -> edge_wf (holding generation past t).
Proof.
  intros Hne Hp. split; cbn; [done|done| | | | |by repeat constructor|done].
  - by intros r ->%list_elem_of_singleton.
  - by intros r r' ->%list_elem_of_singleton ->%list_elem_of_singleton.
  - intros r ->%list_elem_of_singleton. exists (mkRaw K 1 t). split; [by left|done].
  - by intros r r' ->%list_elem_of_singleton ->%list_elem_of_singleton.
Qed.

Lemma e1_wf : edge_wf e1.
Proof. apply holding_wf; [done|by apply not_elem_of_nil]. Qed.

Lemma e2_wf : edge_wf e2.
Proof. apply holding_wf; [done|]. by intros ?%list_elem_of_singleton. Qed.

(** A log that has read [acks] of the generation "g1", up to [head]. *)
Definition log_at (acks : jsmap string Entry) (head : Z) : Log :=
  mkLog (mkHeld acks acks [] false head (Some "g1") None 0 false [] None)
    (mkControl 2 None [] [] [] false 0 None [] false 0)
    (mkStanding true false true false false 0 None 0 0) (mkOutcome false false false).

Definition unread : Log := log_at [] 0.
Definition read : Log := log_at [("set:theme", mkLogEntry 1 (theme [setting "a" 1]))] 1.

Lemma unread_inv : lane_inv (view unread) e1.
Proof. apply fresh_inv; [done|by left|apply e1_wf]. Qed.

Lemma read_inv : lane_inv (view read) e1.
Proof.
  exists "g1". split; [done|]. split; [done|]. split; [by left|]. intros _. split; [|split; [|done]].
  - intros name entry. cbn. case_decide; [|done]. intros [= <-]. subst name. exists "a". split; [by left|].
    exists (theme [setting "a" 1]). by split; [|left].
  - intros raw ->%list_elem_of_singleton _ row name. cbn. intros [= <-] _ [= <-]. by eexists.
Qed.

(** ** Calls answered *)

(** Every row past [since]. *)
Definition whole_page (e : Edge) (since : Z) : Page :=
  mkPage (Some (ed_generation e)) (filter (fun r => since < raw_seq r) (ed_rows e)) (ed_head e) false.

Definition small_world : World := fun op =>
  match op return res (answer op) with
  | Now => Ok 0
  | Send (ChangesRequest _ _ since _) =>
      Ok (mkResponse 200 (Some 5) (Some "g1") None (Ok (BodyPage (whole_page e1 since))))
  | Send _ => Throw "offline"
  | Seal _ _ => Throw "unused"
  | OpenEntry k v => Ok (openEntry k v)
  | AwaitRegistering => Ok tt
  | KeepMember _ => Ok tt
  | KeepPending _ => Ok None
  | ReadPending => Ok None
  | DiscardPending _ => Ok false
  | ForgetCopies => Ok tt
  | PutMeta _ _ => Ok true
  | KeepFacts _ _ _ _ _ => Ok tt
  end.

Lemma whole_page_ok e since : is_page since (whole_page e since) e.
Proof.
  exists (length (filter (fun r => since < raw_seq r) (ed_rows e))). cbn. do 2 (split; [done|]). rewrite firstn_all.
  split; [done|]. split; [by intros ?%nil_length_inv|]. symmetry. apply Nat.ltb_irrefl.
Qed.

Lemma small_serves : serves e1 small_world.
Proof.
  split; try done.
  - intros [| | |k v| | | | | | | |]; try done; cycle 1; [by split; [|intros ? [= <-]]|]. destruct request; cbn; [apply answer_lost|apply answer_lost|apply answer_changes].
    split; [done|]. split; [by right|]. exists (whole_page e1 since). split; [done|apply whole_page_ok].
  - intros generation wire since limit. do 2 eexists. split; [reflexivity|]. cbn. split; [lia|].
    do 2 (split; [done|]). apply whole_page_ok.
  - by exists 0.
  - intros name value. by exists true.
Qed.

(** ** The witnesses *)

Definition passed : config := mkConfig (run small_world (pass_lane 2;;; ret tt) unread).2 (Ret (Ok tt)) e1.

Lemma passed_reached : rtc step (mkConfig unread (Ret (Ok tt)) e1) passed.
Proof.
  pose proof (run_work_steps e1 small_world small_serves (pass_lane 2;;; ret tt) unread (Ok tt) (work_pass 2)) as Hst.
  assert ((run small_world (pass_lane 2;;; ret tt) unread).1 = Ok tt) as Hr by reflexivity. by rewrite Hr in Hst.
Qed.

Lemma passed_idle : idle_in "g1" passed.
Proof. split; [by exists (Ok tt)|]. by split; vm_compute. Qed.

Lemma log_acknowledged_true_witness :
  exists t, mkRaw K 1 t ∈ ed_log e1 /\ reads K t (theme [setting "a" 1]).
Proof.
  exact (log_acknowledged_true unread e1 passed "g1" "set:theme" (mkLogEntry 1 (theme [setting "a" 1]))
    e1_wf unread_inv passed_reached passed_idle eq_refl).
Defined.

Lemma log_read_complete_witness :
  exists entry, map_get "set:theme" (lg_acknowledged (c_log passed)) = Some entry /\ en_seq entry = 1 /\
    reads K "a" (en_row entry).
Proof.
  refine (log_read_complete unread e1 passed "g1" (mkRaw K 1 "a") (theme [setting "a" 1]) "set:theme"
    e1_wf unread_inv passed_reached passed_idle _ _ eq_refl eq_refl eq_refl); [by left|by vm_compute].
Defined.

Lemma pass_reaches_head_witness :
  exists s1, run small_world (pass_lane 2) unread = (Ok ReachedHead, s1) /\
    exists entry, map_get "set:theme" (lg_acknowledged s1) = Some entry /\ en_seq entry = 1.
Proof.
  destruct (pass_reaches_head e1 small_world e1_wf small_serves small_merges_total 2 unread) as (s1 & Hrun & Hall);
    [apply unread_inv|reflexivity|by vm_compute; lia|].
  exists s1. split; [exact Hrun|].
  destruct (Hall (mkRaw K 1 "a") (theme [setting "a" 1]) "set:theme") as (entry & Hget & Hseq & _);
    [by left|reflexivity|reflexivity|reflexivity|]. by exists entry.
Defined.

(** *** An edit *)

(** A configuration whose call is answered, by when den-edge is [e]. *)
Definition answered (world : World) (e : Edge) (c : config) : config :=
  match c_prog c with
  | Call op k => mkConfig (k (world op) (c_log c)).1 (k (world op) (c_log c)).2 e
  | Ret _ => c
  end.

(** The call that waits may be answered so. *)
Definition may_answer (world : World) (e1 e : Edge) (c : config) : Prop :=
  match c_prog c with Call op k => replies op (c_edge c) (world op) e1 /\ rtc elsewhere e1 e | Ret _ => True end.

Lemma answered_runs world e1 e c0 c : may_answer world e1 e c -> rtc runs c0 c -> rtc runs c0 (answered world e c).
Proof.
  destruct c as [s [r|op k] e0]; cbn; [done|]. intros [Hr He] Hst. eapply rtc_r; [exact Hst|]. by eapply runs_call.
Qed.

Definition rider : SettingsRow := theme_row [setting "c" 3].

Definition editing : World := fun op =>
  match op return res (answer op) with
  | Now => Ok 0
  | Seal _ _ => Ok "ac"
  | Send (BatchRequest "g2" _ _) =>
      Ok (mkResponse 200 None (Some "g2") None (Ok (BodyBatch (mkBatch [(K, 2)] []))))
  | Send _ => Ok (mkResponse 409 None (Some "g2") None (Ok (BodyError (Some "generation_changed"))))
  | _ => Throw "unused"
  end.

Definition begun : config := start (sendOps [] [rider];;; ret tt) read e1.
Definition sealing : config := answered editing e1 begun.
Definition sending : config := answered editing e1 sealing.

Lemma sending_reached : rtc runs begun sending.
Proof.
  apply (answered_runs _ e1); [split; [|constructor]; split; [done|by intros v [= <-]]|].
  apply (answered_runs _ e1); [by split; [|constructor]|]. constructor.
Qed.

Lemma sendOps_no_lost_update_witness :
  exists ws, [mkEdgeWrite K 1 "ac"] = edge_write <$> ws /\
    forall w, w ∈ ws -> from_option raw_seq 0 (current (sw_k w) e1) = sw_base w -> replaces (view read) e1 w.
Proof.
  destruct (sendOps_no_lost_update [] [rider] read e1 sending "g1" 5 [mkEdgeWrite K 1 "ac"] _
    e1_wf read_inv sending_reached eq_refl eq_refl) as (ws & Hws & _ & Hw). exists ws. split; [exact Hws|exact Hw].
Defined.

(** *** The same edit while the library is restored

    The restored log's first row is not the one this log read: its setting "b" is another device's. *)

Definition restored : config := answered editing e2 sealing.
Definition refused : config := answered editing e2 restored.
Definition resent : config := answered editing e2 (answered editing e2 refused).
Definition landed : config := answered editing (apply_tiered [mkEdgeWrite K 1 "ac"] e2).2 resent.

Lemma landed_reached : rtc runs begun landed.
Proof.
  apply (answered_runs _ (apply_tiered [mkEdgeWrite K 1 "ac"] e2).2).
  { split; [|constructor]. apply answer_batch; [by repeat constructor; apply not_elem_of_nil|].
    intros res [= <-]. split; [done|]. split; [by right|]. eexists. split; [reflexivity|]. by split; [|constructor]. }
  apply (answered_runs _ e2); [split; [|constructor]; split; [done|by intros v [= <-]]|].
  apply (answered_runs _ e2); [by split; [|constructor]|].
  apply (answered_runs _ e2); [split; [by apply answer_refused|constructor]|].
  apply (answered_runs _ e1).
  { split; [split; [done|by intros v [= <-]]|]. apply rtc_once, elsewhere_restored; [apply e2_wf|]. intros g. cbn. auto. }
  apply (answered_runs _ e1); [by split; [|constructor]|]. constructor.
Qed.

(** C36: an edit is safe only in the generation its log has read. One refused because the library was restored is
    sent again under the restored generation on the sequence the log has from the one before ([adoptGeneration]): where
    the restored log has another row at that sequence, den-edge takes the edit, and the row it replaces, with what
    another device had set in it, was never read by this one. *)
Theorem sendOps_adopted_generation :
  rtc runs begun landed /\ c_prog landed = Ret (Ok tt) /\ oc_applied (lg_outcome (c_log landed)) = true /\
  openEntry K "ab" = OpenedRow (theme [setting "a" 1; setting "b" 2]) /\
  openEntry K "ac" = OpenedRow (theme [setting "a" 1; setting "c" 3]) /\
  current K (c_edge resent) = Some (mkRaw K 1 "ab") /\ current K (c_edge landed) = Some (mkRaw K 2 "ac").
Proof. split; [apply landed_reached|]. by vm_compute. Qed.
End Theme.
