(* ===== verification/JsValue.v ===== *)
(** * Values that cross a message channel

    What [postMessage] delivers: JSON's values, [undefined], and the numbers JSON has no text for. With it, the
    combinators the protocol codec is written in ([libraryServiceProtocolCodec.ts]). *)

From S2P Require Import Prelude JsMap JsText Json Wire ProfileKeys.
Open Scope Z_scope.

(** [Num None] is a [NaN] or an infinity. An object that is no array ([Date], [Map]) is [Obj] of its own members. *)
Inductive value : Type :=
| Undefined
| Null
| Bool (b : bool)
| Num (n : option Qc)
| Str (s : string)
| Arr (l : list value)
| Obj (members : jsmap string value).

Definition vint (z : Z) : value := Num (Some (Q2Qc (QArith_base.inject_Z z))).

(** [value.key] of a record. *)
Definition member (v : value) (key : string) : value :=
  match v with Obj members => default Undefined (map_get key members) | _ => Undefined end.

Definition keys_of (v : value) : list string := match v with Obj members => map_keys members | _ => [] end.
Definition values_of (v : value) : list value := match v with Obj members => map_values members | _ => [] end.

Definition is_undefined (v : value) : bool := match v with Undefined => true | _ => false end.
Definition is_null (v : value) : bool := match v with Null => true | _ => false end.
Definition str_is (s : string) (v : value) : bool := match v with Str t => String.eqb t s | _ => false end.
Definition str_in (l : list string) (v : value) : bool := existsb (fun s => str_is s v) l.
Definition str_test (p : string -> bool) (v : value) : bool := match v with Str s => p s | _ => false end.
Definition is_true (v : value) : bool := match v with Bool b => b | _ => false end.

(** [Number.isSafeInteger], and the integer. *)
Definition safe_int (v : value) : option Z :=
  match v with
  | Num (Some q) =>
      match qc_int q with
      | Some z => if (- MAX_SAFE_INTEGER <=? z) && (z <=? MAX_SAFE_INTEGER) then Some z else None
      | None => None
      end
  | _ => None
  end.

(** ** The codec's combinators *)

Definition record (v : value) : bool := match v with Obj _ => true | _ => false end.

(** [keys.indexOf(key)] *)
Fixpoint index_of (key keys : string) : option nat :=
  if starts_with key keys then Some 0%nat
  else match keys with EmptyString => None | String _ keys => S <$> index_of key keys end.

Definition is_comma (o : option ascii) : bool := bool_decide (o = Some ","%char).

(** One key against a delimited key set. *)
Definition listed_key (keys key : string) : bool :=
  if has_char "," key then false
  else match index_of key keys with
  | Some at_ => (0 <? at_)%nat && is_comma (String.get (at_ - 1) keys) && is_comma (String.get (at_ + String.length key) keys)
  | None => false
  end.

Definition exact (v : value) (keys : string) : bool := forallb (listed_key keys) (keys_of v).

Definition text_length (s : string) : Z := Z.of_nat (String.length s).
Definition count {A} (l : list A) : Z := Z.of_nat (length l).

Definition boundedText (v : value) (max : Z) : bool :=
  str_test (fun s => (0 <? text_length s) && (text_length s <=? max)) v.
Definition text (v : value) : bool := boundedText v 4096.
Definition finite (v : value) : bool := match v with Num (Some _) => true | _ => false end.
Definition integer (v : value) : bool := match safe_int v with Some z => 0 <=? z | None => false end.
Definition positiveInteger (v : value) : bool := match safe_int v with Some z => 0 <? z | None => false end.
Definition bool_ (v : value) : bool := match v with Bool _ => true | _ => false end.
Definition optional (v : value) (check : value -> bool) : bool := is_undefined v || check v.
Definition nullable (v : value) (check : value -> bool) : bool := is_null v || check v.
Definition collectionItems : Z := 100000.
Definition list_ (v : value) (check : value -> bool) (max : Z) : bool :=
  match v with Arr l => (count l <=? max) && forallb check l | _ => false end.

(** [String(value)] of a text or an integer, which is what [unique] and [titleIdentity] are given. *)
Definition js_string (v : value) : string :=
  match v with Str s => s | _ => match safe_int v with Some z => Z_str z | None => "" end end.

Definition items (v : value) : list value := match v with Arr l => l | _ => [] end.

(** [new Set(values.map(key)).size === values.length] *)
Definition unique (v : value) (key : value -> string) : bool :=
  (length (remove_dups (key <$> items v)) =? length (items v))%nat.

(** The cases of a [switch] on a text, each with the labels it has. *)
Fixpoint switch (on : string) (cases : list (list string * bool)) : bool :=
  match cases with
  | [] => false
  | (labels, body) :: cases => if existsb (String.eqb on) labels then body else switch on cases
  end.

(** ** Delimited key sets *)

Lemma index_of_split key keys n :
  index_of key keys = Some n -> exists pre post, keys = pre +:+ (key +:+ post) /\ String.length pre = n.
Proof.
  revert n. induction keys as [|c keys IH]; intros n; cbn [index_of].
  - destruct (starts_with key "") eqn:Hs; [|done]. intros [= <-]. apply starts_with_inv in Hs.
    by exists "", (str_drop (String.length key) "").
  - destruct (starts_with key (String c keys)) eqn:Hs.
    + intros [= <-]. apply starts_with_inv in Hs. by exists "", (str_drop (String.length key) (String c keys)).
    + destruct (index_of key keys) as [m|]; [|done]. intros [= <-].
      destruct (IH m eq_refl) as (pre & post & Hk & Hm). exists (String c pre), post. cbn. by rewrite Hk, Hm.
Qed.

Lemma get_app_r s t n : String.get (String.length s + n) (s +:+ t) = String.get n t.
Proof. by induction s as [|c s IH]. Qed.

Lemma get_last s t : s <> "" -> String.get (String.length s - 1) (s +:+ t) = String.get (String.length s - 1) s.
Proof.
  induction s as [|c s IH]; [done|]. intros _. destruct s as [|d s]; [done|].
  cbn [String.length Nat.sub String.get] in *. rewrite Nat.sub_0_r in *. cbn. apply IH. done.
Qed.

Lemma get_last_split s c : String.get (String.length s - 1) s = Some c -> exists s', s = s' +:+ char_str c.
Proof.
  induction s as [|d s IH]; [done|]. destruct s as [|d' s]; [intros [= ->]; by exists ""|].
  cbn [String.length Nat.sub String.get] in *. rewrite Nat.sub_0_r in *. intros Hg. destruct (IH Hg) as [s' Hs'].
  exists (String d s'). cbn. by rewrite Hs'.
Qed.

Lemma split_on_cat c s t : split_on c (s +:+ String c t) = split_on c s ++ split_on c t.
Proof.
  induction s as [|d s IH]; cbn; [by rewrite decide_True|]. rewrite IH. case_decide; [done|].
  destruct (split_on c s) as [|x l] eqn:Hs; [by destruct (split_on_ne c s)|done].
Qed.

(** A key let through is one of the set's. *)
Lemma listed_key_in keys key : listed_key keys key = true -> key <> "" /\ key ∈ split_on "," keys.
Proof.
  unfold listed_key, is_comma. destruct (has_char "," key) eqn:Hc; [done|].
  destruct (index_of key keys) as [n|] eqn:Hi; [|done].
  intros [[Hn%Nat.ltb_lt Hl%bool_decide_eq_true]%andb_true_iff Hr%bool_decide_eq_true]%andb_true_iff. split.
  { intros ->. destruct keys; cbn in Hi; by simplify_eq; lia. }
  apply index_of_split in Hi as (pre & post & -> & <-).
  rewrite get_last in Hl by (intros ->; cbn in Hn; lia). apply get_last_split in Hl as [pre' ->].
  rewrite get_app_r in Hr. rewrite <-(Nat.add_0_r (String.length key)), get_app_r in Hr.
  destruct post as [|c post]; [done|]. cbn in Hr. injection Hr as ->.
  rewrite string_app_assoc. cbn. rewrite split_on_cat, (split_on_app _ _ _ Hc). set_solver.
Qed.

(** The order a key set is written in lets all of its names through. *)
Definition keyset_ok (keys : string) : bool :=
  forallb (fun key => String.eqb key "" || listed_key keys key) (split_on "," keys).

Lemma exact_spec v keys :
  keyset_ok keys = true ->
  exact v keys = true <-> forall key, key ∈ keys_of v -> key <> "" /\ key ∈ split_on "," keys.
Proof.
  intros Hok. unfold exact. rewrite forallb_forall. split.
  - intros Hv key Hkey. by apply listed_key_in, Hv, list_elem_of_In.
  - intros Hv key Hkey%list_elem_of_In. destruct (Hv key Hkey) as [Hne Hin].
    unfold keyset_ok in Hok. rewrite forallb_forall in Hok. specialize (Hok key ltac:(by apply list_elem_of_In)).
    apply orb_prop in Hok as [->%String.eqb_eq|]; done.
Qed.
