(* ===== verification/Codec.v ===== *)
(** * What the library service is asked, as it is checked ([web/src/lib/libraryServiceProtocolCodec.ts])

    Every request a page posts is checked before the service acts on it. The checks as the codec writes them: commands,
    selections, queries, tasks, observations, and the request around them. *)

From S2P Require Import Prelude JsMap JsText Json Wire ProfileKeys JsValue.
Open Scope Z_scope.

(** The browser's part: [new URL(text).protocol] ([None] when it throws), the code points of a text, the length of
    [JSON.stringify(value)] and [String(value)]. *)
Class CodecApi := {
  url_protocol : string -> option string;
  scalar_length : string -> Z;
  stringify_length : value -> Z;
  to_text : value -> string
}.

(** ** Limits and patterns *)

Definition LIBRARY_SERVICE_PROTOCOL : Z := 13.
Definition importItems : Z := 100000.
Definition presenceTitles : Z := 512.
Definition shapeSeasons : Z := 256.
Definition seasonEpisodes : Z := 2048.
Definition airingSeries : Z := 4096.
Definition airingEpisodes : Z := 128.
Definition retainedTitles : Z := 64.
Definition routeServices : Z := 64.
Definition routeEntries : Z := 32.
Definition libraryMetadataTitles : Z := 512.
Definition historyDetailTitles : Z := 48.
Definition ASSISTANT_DRAIN_MAX : Z := 200.

Definition char_between (lo hi c : ascii) : bool :=
  (Ascii.nat_of_ascii lo <=? Ascii.nat_of_ascii c)%nat && (Ascii.nat_of_ascii c <=? Ascii.nat_of_ascii hi)%nat.
Definition lower_char (c : ascii) : bool := char_between "a" "z" c.
Definition upper_char (c : ascii) : bool := char_between "A" "Z" c.
Definition url64_char (c : ascii) : bool :=
  lower_char c || upper_char c || is_digit c || Ascii.eqb c "_" || Ascii.eqb c "-".

(** [/^[p]{n}$/] *)
Definition chars (p : ascii -> bool) (n : nat) (s : string) : bool := (String.length s =? n)%nat && all_chars p s.
(** [/^[p]{lo,hi}$/] *)
Definition chars_between (p : ascii -> bool) (lo hi : nat) (s : string) : bool :=
  (lo <=? String.length s)%nat && (String.length s <=? hi)%nat && all_chars p s.

(** [/^\d{4}-\d{2}-\d{2}$/] *)
Definition day_text (s : string) : bool :=
  match split_on "-" s with [y; m; d] => chars is_digit 4 y && chars is_digit 2 m && chars is_digit 2 d | _ => false end.

Definition day (v : value) : bool := str_test day_text v.
Definition pin (v : value) : bool := str_test (chars is_digit 4) v.
Definition languageCode (v : value) : bool := str_test (chars lower_char 2) v.
Definition countryCode (v : value) : bool := str_test (chars upper_char 2) v.
Definition locator (v : value) : bool := str_test (hex_of 32) v.
Definition hexId (v : value) : bool := str_test (hex_of 32) v.
Definition base64url32 (v : value) : bool := str_test (chars url64_char 43) v.
Definition libraryKey (v : value) : bool :=
  str_test (fun s => (String.length s =? 44)%nat && match atob s with Ok raw => (length raw =? 32)%nat | Throw _ => false end) v.
Definition apiKeyService (v : value) : bool := str_in ["tmdb"; "omdb"; "content-warnings"] v.
Definition mediaServer (v : value) : bool := str_in ["jellyfin"; "plex"] v.
Definition reaction (v : value) : bool := str_in ["seen"; "dislike"; "like"; "love"] v.
Definition ratingSource (v : value) : bool := str_in ["imdb"; "tmdb"; "rottenTomatoes"; "metacritic"] v.
Definition smallText (v : value) : bool := boundedText v 1024.

(** [/^tt\d+$/] *)
Definition imdb_text (s : string) : bool :=
  starts_with "tt" s && (2 <? String.length s)%nat && all_chars is_digit (str_drop 2 s).

(** [/^[a-z][a-z0-9-]*$/] *)
Definition route_name (s : string) : bool :=
  match s with
  | String c s => lower_char c && all_chars (fun c => lower_char c || is_digit c || Ascii.eqb c "-") s
  | EmptyString => false
  end.

(** [/^[0-9a-f]{8}\.[A-Za-z0-9_-]{22}$/] *)
Definition ticket_text (s : string) : bool :=
  match split_on "." s with [a; b] => hex_of 8 a && chars url64_char 22 b | _ => false end.

(** A number, compared. *)
Definition at_least (z : Z) (v : value) : bool :=
  match v with Num (Some q) => bool_decide (Qcanon.Qcle (Q2Qc (QArith_base.inject_Z z)) q) | _ => false end.
Definition at_most (z : Z) (v : value) : bool :=
  match v with Num (Some q) => bool_decide (Qcanon.Qcle q (Q2Qc (QArith_base.inject_Z z))) | _ => false end.
Definition same_int (a b : value) : bool :=
  match safe_int a, safe_int b with Some a, Some b => a =? b | _, _ => false end.

(** ** Titles and downloads *)

Definition titleRef (v : value) : bool :=
  record v && exact v ",type,id," && str_in ["movie"; "tv"] (member v "type") && positiveInteger (member v "id").

Definition titleIdentity (v : value) : string := js_string (member v "type") +:+ ":" +:+ js_string (member v "id").
Definition is_tv (title : value) : bool := str_is "tv" (member title "type").
Definition is_movie (title : value) : bool := str_is "movie" (member title "type").

Definition episodeRef (v : value) : bool :=
  record v && exact v ",type,id,season,episode," && is_tv v && positiveInteger (member v "id") &&
  integer (member v "season") && positiveInteger (member v "episode").

Definition downloadTarget (v : value) : bool := (titleRef v && is_movie v) || episodeRef v.

Definition downloadTitle (v : value) : bool :=
  record v && exact v ",target,name,imdbId,posterPath,stillPath,originalLanguage,airDate," &&
  downloadTarget (member v "target") && boundedText (member v "name") 1024 &&
  optional (member v "imdbId") (fun c => boundedText c 128) &&
  optional (member v "posterPath") (fun c => boundedText c 2048) &&
  optional (member v "stillPath") (fun c => boundedText c 2048) &&
  optional (member v "originalLanguage") languageCode && optional (member v "airDate") integer.

Definition downloadRelease (v : value) : bool :=
  record v && exact v ",identity,label,sizeBytes,cached," && boundedText (member v "identity") 4096 &&
  boundedText (member v "label") 4096 && optional (member v "sizeBytes") positiveInteger &&
  optional (member v "cached") bool_.

Definition serviceRef (v : value) : bool :=
  record v && exact v ",id,country," && positiveInteger (member v "id") && countryCode (member v "country").

Definition positiveIntegerList (v : value) (max : Z) : bool := list_ v positiveInteger max && unique v js_string.

(** A title with the episode of it that is meant. *)
Definition episode_of (v : value) : bool :=
  is_undefined (member v "episode") ||
  (is_tv (member v "title") && same_int (member (member v "episode") "id") (member (member v "title") "id")).

Section Codec.
Context `{CodecApi}.

Definition webUrl (v : value) : bool :=
  boundedText v 4096 &&
  str_test (fun s => match url_protocol s with Some p => String.eqb p "http:" || String.eqb p "https:" | None => false end) v.
Definition serviceBase (v : value) : bool := boundedText v 4096 && (str_test (starts_with "/") v || webUrl v).
Definition boundedScalarText (v : value) (max : Z) : bool :=
  str_test (fun s => (0 <? text_length s) && (scalar_length s <=? max)) v.

(** ** What Home retains *)

Definition retainedBillboardScope (v : value) : bool :=
  record v && exact v ",kind,facet,fresh," && str_in ["shared"; "personal"] (member v "kind") &&
  nullable (member v "facet") (str_in ["movie"; "tv"]) && bool_ (member v "fresh").

Definition retained_why (v : value) : bool :=
  record v && exact v ",score,fit,similar,profile,people,confidence,fresh,arrived,quality,buzz,reason," &&
  optional (member v "score") finite && optional (member v "fit") finite &&
  optional (member v "similar") (fun c => nullable c finite) && optional (member v "profile") finite &&
  optional (member v "people") finite && optional (member v "confidence") finite &&
  optional (member v "fresh") finite && optional (member v "arrived") finite &&
  optional (member v "quality") finite && optional (member v "buzz") finite && optional (member v "reason") smallText.

Definition retainedBillboardTitle (v : value) : bool :=
  record v &&
  exact v ",type,id,title,posterPath,posterUrl,backdropPath,year,releaseDate,rating,ratingSource,votes,popularity,countries,people,collectionId,genreIds,primaryGenreName,likely,originalLanguage,adult,imdbId,arrivesAt,services,why," &&
  titleRef (Obj [("type", member v "type"); ("id", member v "id")]) && smallText (member v "title") &&
  optional (member v "posterPath") smallText && optional (member v "posterUrl") webUrl &&
  optional (member v "backdropPath") smallText && optional (member v "year") integer &&
  optional (member v "releaseDate") day && optional (member v "rating") finite &&
  optional (member v "ratingSource") (str_in ["tmdb"; "justwatch-imdb"]) && optional (member v "votes") integer &&
  optional (member v "popularity") finite &&
  optional (member v "countries") (fun c => list_ c countryCode 32 && unique c js_string) &&
  optional (member v "people") (fun c => positiveIntegerList c 256) &&
  optional (member v "collectionId") positiveInteger &&
  optional (member v "genreIds") (fun c => positiveIntegerList c 256) &&
  optional (member v "primaryGenreName") smallText && optional (member v "likely") bool_ &&
  optional (member v "originalLanguage") languageCode && optional (member v "adult") bool_ &&
  optional (member v "imdbId") (str_test imdb_text) && optional (member v "arrivesAt") integer &&
  optional (member v "services") (fun c => list_ c smallText 64 && unique c js_string) &&
  (is_undefined (member v "why") || retained_why (member v "why")).

Definition isRetainedBillboard (v : value) : bool :=
  record v &&
  ((str_is "shared" (member v "kind") && exact v ",kind,titles,") ||
   (str_is "personal" (member v "kind") && exact v ",kind,at,titles," && integer (member v "at"))) &&
  list_ (member v "titles") retainedBillboardTitle retainedTitles.

Definition addon (v : value) : bool :=
  record v && exact v ",install,base," && webUrl (member v "install") && serviceBase (member v "base").

Definition route_entry (v : value) : bool :=
  record v && exact v ",url,access," && webUrl (member v "url") && optional (member v "access") bool_.

(** [Object.entries(value).every(check)] *)
Definition every_entry (check : string -> value -> bool) (v : value) : bool :=
  match v with Obj members => forallb (fun p => check p.1 p.2) members | _ => true end.

Definition isRetainedServices (v : value) : bool :=
  record v && exact v ",routes,scout,atlas,reel,remux," && record (member v "routes") &&
  (count (keys_of (member v "routes")) <=? routeServices) &&
  every_entry (fun name entries => route_name name && list_ entries route_entry routeEntries) (member v "routes") &&
  nullable (member v "scout") addon && nullable (member v "atlas") serviceBase &&
  nullable (member v "reel") serviceBase && nullable (member v "remux") serviceBase.

(** ** Preferences ([profilePreferenceSchema.ts], [settings/catalogs.ts]) *)

Definition PROFILE_LANGUAGE_LIMIT : Z := 64.
Definition PROFILE_GENRE_LIMIT : Z := 128.
Definition PROFILE_SERVICE_LIMIT : Z := 256.
Definition PROFILE_RATING_SOURCES : list string := ["imdb"; "tmdb"; "rottenTomatoes"; "metacritic"].
Definition PROFILE_WARNING_CATEGORIES : list string :=
  ["Violence"; "Large-scale Violence"; "Assault"; "Abuse"; "Natural Disasters"; "Vehicular"; "Sex"; "Sexual Assault";
   "Death"; "Loss"; "Family"; "Abandonment"; "Children"; "Pregnancy"; "Animal Death"; "Animal Distress";
   "Animal Phobia"; "Mental Health"; "Self Harm"; "Addiction"; "Drugs/Alcohol"; "Paranoia"; "Relationships"; "LGBTQ+";
   "Race"; "Religious"; "Sexism"; "Prejudice"; "Disability"; "Law Enforcement"; "Social"; "Medical"; "Sickness";
   "Fear"; "Gross"; "Noxious"; "Creepy Crawly"; "Spoiler"; "Whole Body"; "Head"; "Neck"; "Appendages"].
Definition PROFILE_KEYS : list string :=
  ["den.autoSkipSegments"; "den.autoplayTrailers"; "den.preferredAudioLanguage"; "den.preferredSubtitleLanguage";
   "den.hasExplicitSubtitlePreference"; "den.interfaceLanguage"; "den.shownSubtitleLanguages";
   "den.maxSubtitlesPerLanguage"; "den.excludedGenreIDs"; "den.excludedLanguages"; "den.hideAnime"; "den.hideWatched";
   "den.minReleaseYear"; "den.enabledRatingSources"; "den.shownWarningCategories"; "den.watchRegion";
   "den.myServicePicks"].

Definition int_between (lo hi : Z) (v : value) : bool :=
  match safe_int v with Some z => (lo <=? z) && (z <=? hi) | None => false end.
Definition isProfileYear (v : value) : bool := int_between 1880 2200 v.
Definition isProfileSubtitleLimit (v : value) : bool := int_between 0 100 v.

(** [/^(\d+)@([A-Za-z]{2})$/] with a safe id. *)
Definition service_pick (s : string) : bool :=
  match split_on "@" s with
  | [id; country] =>
      negb (String.eqb id "") && all_chars is_digit id && chars (fun c => lower_char c || upper_char c) 2 country &&
      match str_Z id with Some z => (0 <? z) && (z <=? MAX_SAFE_INTEGER) | None => false end
  | _ => false
  end.

Definition validProfileServices (v : value) : bool :=
  (count (items v) <=? PROFILE_SERVICE_LIMIT) && forallb (str_test service_pick) (items v).

(** ['key' in value] *)
Definition has_member (key : string) (v : value) : bool := bool_decide (key ∈ keys_of v).

(** [values.length <= max && values.every(check)] *)
Definition every_of (v : value) (check : value -> bool) (max : Z) : bool :=
  (count (items v) <=? max) && forallb check (items v).

Definition acceptsProfilePreference (key : string) (v : value) : bool :=
  if is_null v then bool_decide (key ∈ PROFILE_KEYS)
  else
    let strings := member v "strings" in
    switch key
      [(["den.autoSkipSegments"; "den.autoplayTrailers"; "den.hideAnime"; "den.hideWatched"], has_member "bool" v);
       (["den.hasExplicitSubtitlePreference"], has_member "bool" v && is_true (member v "bool"));
       (["den.preferredAudioLanguage"; "den.preferredSubtitleLanguage"; "den.interfaceLanguage"],
        has_member "string" v && languageCode (member v "string"));
       (["den.shownSubtitleLanguages"; "den.excludedLanguages"],
        has_member "strings" v && every_of strings languageCode PROFILE_LANGUAGE_LIMIT);
       (["den.maxSubtitlesPerLanguage"], has_member "int" v && isProfileSubtitleLimit (member v "int"));
       (["den.excludedGenreIDs"], has_member "ints" v && every_of (member v "ints") positiveInteger PROFILE_GENRE_LIMIT);
       (["den.minReleaseYear"], has_member "int" v && isProfileYear (member v "int"));
       (["den.enabledRatingSources"],
        has_member "strings" v && every_of strings (str_in PROFILE_RATING_SOURCES) (count PROFILE_RATING_SOURCES));
       (["den.shownWarningCategories"],
        has_member "strings" v && every_of strings (str_in PROFILE_WARNING_CATEGORIES) (count PROFILE_WARNING_CATEGORIES));
       (["den.watchRegion"], has_member "string" v && countryCode (member v "string"));
       (["den.myServicePicks"], has_member "strings" v && validProfileServices strings)].

Definition safe_integer (v : value) : bool := match safe_int v with Some _ => true | None => false end.
Definition is_text (v : value) : bool := match v with Str _ => true | _ => false end.

Definition configValue (v : value) : bool :=
  if is_null v then true
  else if negb (record v) then false
  else if exact v ",bool," then bool_ (member v "bool")
  else if exact v ",int," then safe_integer (member v "int")
  else if exact v ",string," then is_text (member v "string")
  else if exact v ",ints," then list_ (member v "ints") safe_integer 256
  else exact v ",strings," && list_ (member v "strings") is_text 256.

(** [Array.isArray(value) && value.length === 3] with checks of the three. *)
Definition triple (v : value) (check : value -> value -> value -> bool) : bool :=
  match v with Arr [a; b; c] => check a b c | _ => false end.

Definition libraryStamp (v : value) : bool :=
  triple v (fun a b c => integer a && integer b && str_test (fun s => (text_length s <=? 256)) c).

Definition storedPreferenceValues (v : value) : bool :=
  record v && (count (keys_of v) <=? 256) &&
  every_entry (fun key stamped =>
    boundedText (Str key) 256 && record stamped && exact stamped ",value,at," && configValue (member stamped "value") &&
    acceptsProfilePreference key (member stamped "value") && libraryStamp (member stamped "at")) v.

Definition list_patch (v : value) (values : value -> bool) : bool :=
  record v &&
  ((exact v ",kind," && str_is "default" (member v "kind")) ||
   (exact v ",kind,values," && str_is "values" (member v "kind") && values (member v "values"))).

Definition subtitle_preference (v : value) : bool :=
  record v &&
  ((exact v ",mode," && str_in ["automatic"; "off"] (member v "mode")) ||
   (exact v ",mode,language," && str_is "language" (member v "mode") && languageCode (member v "language"))).

Definition service_identity (v : value) : string := js_string (member v "id") +:+ "@" +:+ js_string (member v "country").

Definition preferencesPatch (v : value) : bool :=
  record v && existsb (fun c => negb (is_undefined c)) (values_of v) &&
  exact v ",interfaceLanguage,excludedGenres,excludedLanguages,hideAnime,hideWatched,minReleaseYear,audioLanguage,subtitlePreference,shownSubtitleLanguages,subtitlesPerLanguage,autoSkipSegments,autoplayTrailers,ratingSources,shownWarnings,watchRegion,services,maturityCeiling," &&
  optional (member v "interfaceLanguage") (str_in ["en"; "es"; "sv"]) &&
  optional (member v "excludedGenres") (fun c => list_ c positiveInteger PROFILE_GENRE_LIMIT && unique c js_string) &&
  optional (member v "excludedLanguages") (fun c => list_ c languageCode PROFILE_LANGUAGE_LIMIT && unique c js_string) &&
  optional (member v "hideAnime") bool_ && optional (member v "hideWatched") bool_ &&
  optional (member v "minReleaseYear") (fun c => nullable c (fun c => integer c && isProfileYear c)) &&
  optional (member v "audioLanguage") (fun c => nullable c languageCode) &&
  optional (member v "subtitlePreference") subtitle_preference &&
  optional (member v "shownSubtitleLanguages") (fun c => list_ c languageCode PROFILE_LANGUAGE_LIMIT && unique c js_string) &&
  optional (member v "subtitlesPerLanguage") isProfileSubtitleLimit &&
  optional (member v "autoSkipSegments") bool_ && optional (member v "autoplayTrailers") bool_ &&
  optional (member v "ratingSources") (fun c => list_patch c (fun values =>
    list_ values ratingSource (count PROFILE_RATING_SOURCES) && unique values js_string)) &&
  optional (member v "shownWarnings") (fun c =>
    list_ c (str_in PROFILE_WARNING_CATEGORIES) (count PROFILE_WARNING_CATEGORIES) && unique c js_string) &&
  optional (member v "watchRegion") (fun c => nullable c countryCode) &&
  optional (member v "services") (fun c => list_patch c (fun values =>
    list_ values serviceRef PROFILE_SERVICE_LIMIT && unique values service_identity)) &&
  optional (member v "maturityCeiling") (fun c => nullable c (str_in ["pg13"; "r"])).

(** ** Commands *)

Definition credentials (v : value) : bool :=
  record v && exact v ",clientId,clientSecret," && boundedText (member v "clientId") 4096 &&
  boundedText (member v "clientSecret") 4096.

Definition server_value (server v : value) : bool :=
  record v && exact v ",url,user,credential," && webUrl (member v "url") &&
  optional (member v "user") (fun c => boundedText c 4096) &&
  optional (member v "credential") (fun c => boundedText c 16384) &&
  (str_is "jellyfin" server || is_undefined (member v "user")).

(** A text [kind], then the case of it. *)
Definition by_kind (v : value) (cases : list (list string * bool)) : bool :=
  record v && text (member v "kind") && match member v "kind" with Str kind => switch kind cases | _ => false end.

Definition device_id (s : string) : bool := chars_between (fun c => lower_char c || upper_char c || is_digit c) 1 128 s.

Definition command (v : value) : bool :=
  by_kind v
    [(["watchlist.add"; "library.remove"], exact v ",kind,title," && titleRef (member v "title"));
     (["watched.set"], exact v ",kind,title,watched," && titleRef (member v "title") && bool_ (member v "watched"));
     (["reaction.set"],
      exact v ",kind,title,reaction," && titleRef (member v "title") && nullable (member v "reaction") reaction);
     (["episode-watched.set"],
      exact v ",kind,episode,watched," && episodeRef (member v "episode") && bool_ (member v "watched"));
     (["season-watched.set"],
      exact v ",kind,title,season,episodes,watched," && titleRef (member v "title") && is_tv (member v "title") &&
      integer (member v "season") && list_ (member v "episodes") positiveInteger seasonEpisodes &&
      unique (member v "episodes") js_string && bool_ (member v "watched"));
     (["continue-dismissed.set"],
      exact v ",kind,title,dismissed," && titleRef (member v "title") && bool_ (member v "dismissed"));
     (["progress.record"],
      exact v ",kind,title,episode,fraction,seconds,playing,observedAt," && titleRef (member v "title") &&
      optional (member v "episode") episodeRef && episode_of v && finite (member v "fraction") &&
      at_least 0 (member v "fraction") && at_most 1 (member v "fraction") && finite (member v "seconds") &&
      at_least 0 (member v "seconds") && optional (member v "playing") bool_ && integer (member v "observedAt"));
     (["preferences.patch"], exact v ",kind,patch," && preferencesPatch (member v "patch"));
     (["preferences.seed"], exact v ",kind,household," && storedPreferenceValues (member v "household"));
     (["api-key.set"],
      exact v ",kind,service,value," && apiKeyService (member v "service") &&
      nullable (member v "value") (fun c => boundedText c 16384));
     (["parental-pin.set"], exact v ",kind,pin," && nullable (member v "pin") pin);
     (["remote-access.set"], exact v ",kind,credentials," && nullable (member v "credentials") credentials);
     (["plugin.install"; "plugin.remove"], exact v ",kind,manifestUrl," && webUrl (member v "manifestUrl"));
     (["plugin-trust.set"],
      exact v ",kind,manifestUrl,publicKey," && webUrl (member v "manifestUrl") &&
      nullable (member v "publicKey") (fun c => boundedText c 256));
     (["server.patch"],
      exact v ",kind,server,value," && mediaServer (member v "server") &&
      nullable (member v "value") (server_value (member v "server")));
     (["device.heartbeat"],
      exact v ",kind,name,deviceKind,playKey,controlVersion," && boundedText (member v "name") 256 &&
      optional (member v "deviceKind") (str_in ["tv"; "browser"]) && optional (member v "playKey") base64url32 &&
      optional (member v "controlVersion") positiveInteger);
     (["device.played"], exact v ",kind,");
     (["device.remove"], exact v ",kind,deviceId," && str_test device_id (member v "deviceId"));
     (["simkl.connect"], exact v ",kind,token," && boundedText (member v "token") 16384);
     (["simkl.disconnect"], exact v ",kind,");
     (["simkl.removals.approve"], exact v ",kind,approvalId," && boundedText (member v "approvalId") 256);
     (["discovery.remux.remember"], exact v ",kind,url," && webUrl (member v "url"));
     (["retained.services.set"], exact v ",kind,value," && isRetainedServices (member v "value"));
     (["retained.home-continue.set"], exact v ",kind,present," && bool_ (member v "present"));
     (["retained.billboard.set"],
      exact v ",kind,scope,value," && retainedBillboardScope (member v "scope") &&
      isRetainedBillboard (member v "value") &&
      String.eqb (js_string (member (member v "scope") "kind")) (js_string (member (member v "value") "kind")));
     (["download.enqueue"],
      exact v ",kind,title,release,candidates," && downloadTitle (member v "title") &&
      downloadRelease (member v "release") && optional (member v "candidates") positiveInteger);
     (["download.want"], exact v ",kind,title," && downloadTitle (member v "title"));
     (["download.remove"], exact v ",kind,target," && downloadTarget (member v "target"));
     (["download.release.try"],
      exact v ",kind,target,identity," && downloadTarget (member v "target") && boundedText (member v "identity") 4096)].

(** ** Selections and queries *)

Definition selection (v : value) : bool :=
  by_kind v
    [(["overview"; "watchlist"; "recommendations"; "continue"; "history"; "settings"; "devices"; "connections"; "simkl";
       "recovery"; "runtime"; "profiles"; "downloads"], exact v ",kind,");
     (["title"], exact v ",kind,title," && titleRef (member v "title"));
     (["presence"],
      exact v ",kind,titles," && list_ (member v "titles") titleRef presenceTitles &&
      unique (member v "titles") titleIdentity)].

Definition year_text (s : string) : bool := String.eqb s "unknown" || chars_between is_digit 4 6 s.

Definition historyFilter (v : value) : bool :=
  record v && exact v ",type,year," && optional (member v "type") (str_in ["movie"; "tv"]) &&
  optional (member v "year") (str_test year_text).

Definition query (v : value) : bool :=
  by_kind v
    [(["parental-pin.verify"], exact v ",kind,pin," && pin (member v "pin"));
     (["relay.membership"; "key-reset.prepare"; "history.export"], exact v ",kind,");
     (["history.page"],
      exact v ",kind,revision,filter,cursor,limit," && text (member v "revision") && historyFilter (member v "filter") &&
      optional (member v "cursor") text && optional (member v "limit") (fun c => positiveInteger c && at_most 96 c));
     (["history.episodes"],
      exact v ",kind,revision,titles," && text (member v "revision") &&
      list_ (member v "titles") titleRef historyDetailTitles && forallb is_tv (items (member v "titles")) &&
      unique (member v "titles") titleIdentity);
     (["assistant.grants"; "assistant.connection"; "profile-create.status"], exact v ",kind,");
     (["recovery.seal"],
      exact v ",kind,locator,wrapKey,createdAt," && locator (member v "locator") && base64url32 (member v "wrapKey") &&
      integer (member v "createdAt"));
     (["pairing.handover"],
      exact v ",kind,handoverKey,host,linkKey,grantTicket," && base64url32 (member v "handoverKey") &&
      boundedText (member v "host") 256 && optional (member v "linkKey") base64url32 &&
      optional (member v "grantTicket") (fun c => text c && str_test ticket_text c));
     (["download.refresh"], exact v ",kind,target," && optional (member v "target") downloadTarget);
     (["download.sources"],
      exact v ",kind,title,fresh,refresh,early," && downloadTitle (member v "title") &&
      optional (member v "refresh") bool_ && optional (member v "fresh") bool_ && optional (member v "early") bool_);
     (["download.artwork"], exact v ",kind,target," && downloadTarget (member v "target"));
     (["preferences.raw"; "retained.services.get"; "retained.home-continue.get"], exact v ",kind,");
     (["retained.billboard.get"], exact v ",kind,scope," && retainedBillboardScope (member v "scope"));
     (["library.metadata"],
      exact v ",kind,titles," && list_ (member v "titles") titleRef libraryMetadataTitles &&
      unique (member v "titles") titleIdentity);
     (["playback.prepare"],
      exact v ",kind,title,episode," && titleRef (member v "title") && optional (member v "episode") episodeRef &&
      episode_of v)].

(** ** Tasks *)

Definition import_episode (v : value) : bool :=
  record v && exact v ",season,episode,watchedAt," && integer (member v "season") &&
  positiveInteger (member v "episode") && integer (member v "watchedAt").

Definition import_item (v : value) : bool :=
  record v && exact v ",title,watchedAt,episodes,complete," && titleRef (member v "title") &&
  optional (member v "watchedAt") integer &&
  optional (member v "episodes") (fun c => list_ c import_episode collectionItems) &&
  optional (member v "complete") bool_ &&
  (if is_movie (member v "title")
   then negb (is_undefined (member v "watchedAt")) && is_undefined (member v "episodes")
   else is_undefined (member v "watchedAt") && negb (is_undefined (member v "episodes"))).

(** The episodes of all items, an item without any counting as one. *)
Definition import_total (v : value) : Z :=
  foldl (fun total item =>
    total + match member item "episodes" with Arr l => count l | _ => 1 end) 0 (items v).

Definition membership (v : value) : bool :=
  record v && exact v ",libraryId,memberToken," && str_test (hex_of 32) (member v "libraryId") &&
  str_test (hex_of 64) (member v "memberToken").

Definition relayMembership (v : value) : bool := nullable v membership.

Definition ASSISTANT_CONNECTION_ROWS : list string := ["assistant"; "assistant-grants"; "assistant-read"; "assistant-play"].

Definition assistantConnectionValues (v : value) : bool :=
  record v && (count (keys_of v) <=? collectionItems) &&
  every_entry (fun key stamped =>
    boundedText (Str key) 256 && record stamped && has_member "value" stamped &&
    match member stamped "at" with Arr _ => true | _ => false end && (stringify_length stamped <=? 16384)) v.

Definition connection_row (v : value) : bool :=
  record v && exact v ",kind,schema,name,values," && str_is "set" (member v "kind") && integer (member v "schema") &&
  str_in ASSISTANT_CONNECTION_ROWS (member v "name") && assistantConnectionValues (member v "values").

Definition assistantConnection (v : value) : bool :=
  record v && exact v ",member,rows,revoked," && negb (is_null (member v "member")) && relayMembership (member v "member") &&
  list_ (member v "rows") connection_row (count ASSISTANT_CONNECTION_ROWS) &&
  unique (member v "rows") (fun row => js_string (member row "name")) &&
  list_ (member v "revoked") hexId collectionItems.

Definition queue_message (v : value) : bool :=
  record v && exact v ",seq,sealed," && integer (member v "seq") && boundedText (member v "sealed") 4096.

Definition task (v : value) : bool :=
  by_kind v
    [(["recovery.begin"],
      exact v ",kind,locator,sealed,createdAt," && locator (member v "locator") &&
      boundedText (member v "sealed") 4096 && integer (member v "createdAt"));
     (["recovery.confirm"; "recovery.abandon"], exact v ",kind,locator," && locator (member v "locator"));
     (["recovery.disable"], exact v ",kind,");
     (["history.import"],
      exact v ",kind,items," && list_ (member v "items") import_item importItems &&
      (import_total (member v "items") <=? importItems));
     (["local-library.merge"],
      exact v ",kind,sourceLibraryKey,scope,keep,verify," && libraryKey (member v "sourceLibraryKey") &&
      optional (member v "scope") (str_in ["household"; "profile"]) && optional (member v "keep") is_true &&
      optional (member v "verify") is_true);
     (["household.create"],
      exact v ",kind,householdKey,attempt,ownerProfile,ownerKey,createdAt,ifKept," &&
      libraryKey (member v "householdKey") && hexId (member v "attempt") && hexId (member v "ownerProfile") &&
      libraryKey (member v "ownerKey") &&
      negb (String.eqb (js_string (member v "ownerKey")) (js_string (member v "householdKey"))) &&
      integer (member v "createdAt") && optional (member v "ifKept") is_true);
     (["profile.create-default"], exact v ",kind,");
     (["household.join"],
      exact v ",kind,sourceLibraryKey,pin," && libraryKey (member v "sourceLibraryKey") && optional (member v "pin") pin);
     (["key-reset.move"; "key-reset.settle"; "key-reset.adopt"],
      exact v ",kind,destinationLibraryKey," && libraryKey (member v "destinationLibraryKey"));
     (["assistant.consent"],
      exact v ",kind,client,write,read," && boundedText (member v "client") 80 && bool_ (member v "write") &&
      bool_ (member v "read"));
     (["assistant.revoke"], exact v ",kind,grant," && hexId (member v "grant"));
     (["assistant.publish"], exact v ",kind,connection," && optional (member v "connection") assistantConnection);
     (["assistant.renew"], exact v ",kind,grants," && list_ (member v "grants") hexId collectionItems);
     (["assistant.apply"],
      exact v ",kind,messages,connection,tv," && optional (member v "connection") assistantConnection &&
      optional (member v "tv") (fun tv => record tv && exact tv ",awakeSince," && integer (member tv "awakeSince")) &&
      list_ (member v "messages") queue_message ASSISTANT_DRAIN_MAX);
     (["profile.create"],
      exact v ",kind,name,maximumAge,pin," && boundedScalarText (member v "name") 64 && integer (member v "maximumAge") &&
      int_between 0 18 (member v "maximumAge") && pin (member v "pin"));
     (["profile.create.ack"], exact v ",kind,receipt," && boundedText (member v "receipt") 256);
     (["profile.policy.set"],
      exact v ",kind,profile,maximumAge,unknownRatings,pin," && hexId (member v "profile") &&
      nullable (member v "maximumAge") (fun c => integer c && int_between 0 18 c) &&
      str_in ["allow"; "block"] (member v "unknownRatings") && pin (member v "pin"));
     (["kid-title-approval.set"],
      exact v ",kind,profile,title,allow,pin," && hexId (member v "profile") && titleRef (member v "title") &&
      bool_ (member v "allow") && pin (member v "pin"));
     (["profile-key-reset.start"],
      exact v ",kind,pin,destinationLibraryKey," && pin (member v "pin") && libraryKey (member v "destinationLibraryKey"));
     (["profile-key-reset.resume"], exact v ",kind,");
     (["profile-key-reset.confirm"],
      exact v ",kind,destinationLibraryKey," && libraryKey (member v "destinationLibraryKey"));
     (["profile-key-reset.recover"],
      exact v ",kind,pin,recoveryAttempt,successorKey," && pin (member v "pin") && hexId (member v "recoveryAttempt") &&
      nullable (member v "successorKey") libraryKey)].

(** ** Observations *)

Definition shape_season (v : value) : bool :=
  record v && exact v ",season,episodes," && integer (member v "season") && integer (member v "episodes").

Definition shape_last (v : value) : bool :=
  record v && exact v ",season,episode," && positiveInteger (member v "season") && positiveInteger (member v "episode").

(** The last episode to air is one of its season's. *)
Definition last_within (seasons last : value) : bool :=
  match list_find (fun s => same_int (member s "season") (member last "season") = true) (items seasons) with
  | Some (_, s) =>
      match safe_int (member last "episode"), safe_int (member s "episodes") with
      | Some episode, Some episodes => episode <=? episodes
      | _, _ => false
      end
  | None => false
  end.

Definition airing_episode (v : value) : bool :=
  record v && exact v ",season,episode,date," && integer (member v "season") && integer (member v "episode") &&
  day (member v "date").

Definition airing_series (v : value) : bool :=
  record v && exact v ",title,episodes,ended," && titleRef (member v "title") && is_tv (member v "title") &&
  bool_ (member v "ended") && list_ (member v "episodes") airing_episode airingEpisodes.

Definition observation (v : value) : bool :=
  by_kind v
    [(["title-shape"],
      exact v ",kind,title,seasons,lastAired," && titleRef (member v "title") && is_tv (member v "title") &&
      list_ (member v "seasons") shape_season shapeSeasons &&
      unique (member v "seasons") (fun s => js_string (member s "season")) &&
      optional (member v "lastAired") shape_last &&
      (is_undefined (member v "lastAired") || last_within (member v "seasons") (member v "lastAired")));
     (["airing"],
      exact v ",kind,today,series," && day (member v "today") && list_ (member v "series") airing_series airingSeries &&
      unique (member v "series") (fun s => js_string (member (member s "title") "id")));
     (["lifecycle"],
      exact v ",kind,visible,online,playbackActive,playerOpen," && bool_ (member v "visible") &&
      bool_ (member v "online") && bool_ (member v "playbackActive") && optional (member v "playerOpen") bool_);
     (["foreground-ready"], exact v ",kind,")].

(** ** Requests *)

Definition legacyClock (v : value) : bool :=
  record v && exact v ",device,last," && optional (member v "device") (str_test (hex_of 16)) &&
  optional (member v "last") (fun c => triple c (fun a b c => integer a && integer b && text c)).

Record Failure : Type :=
  mkFailure { fl_code : string; fl_message : string; fl_retryable : bool; fl_expectedProtocol : option Z }.

(** [{ ok: false, error }] or [{ ok: true, value }] *)
Definition Decoded : Type := Failure + value.

Definition invalid (message : string) : Decoded := inl (mkFailure "invalid-request" message false None).

Definition protocol (v : value) : option Decoded :=
  if bool_decide (safe_int (member v "protocol") = Some LIBRARY_SERVICE_PROTOCOL) then None
  else Some (inl (mkFailure "protocol-mismatch"
    ("library service protocol " +:+ to_text (member v "protocol") +:+ " is not supported") false
    (Some LIBRARY_SERVICE_PROTOCOL))).

(** What each type of request must hold, and what is answered when it does not. *)
Definition request_checks (v : value) : list (string * bool * string) :=
  [("hello",
    exact v ",type,protocol,requestId,clientId,libraryKey,wire,mode,legacyClock," && text (member v "clientId") &&
    libraryKey (member v "libraryKey") && (int_between 4 4 (member v "wire") || int_between 5 5 (member v "wire")) &&
    str_in ["online"; "local"] (member v "mode") && optional (member v "legacyClock") legacyClock, "hello is incomplete");
   ("command",
    exact v ",type,protocol,requestId,operationId,command," && text (member v "operationId") &&
    command (member v "command"), "command is invalid");
   ("query", exact v ",type,protocol,requestId,query," && query (member v "query"), "query is invalid");
   ("task",
    exact v ",type,protocol,requestId,operationId,task," && text (member v "operationId") && task (member v "task"),
    "task is invalid");
   ("subscribe",
    exact v ",type,protocol,requestId,subscriptionId,selection," && text (member v "subscriptionId") &&
    selection (member v "selection"), "subscription is invalid");
   ("unsubscribe",
    exact v ",type,protocol,requestId,subscriptionId," && text (member v "subscriptionId"), "subscriptionId is required");
   ("observe",
    exact v ",type,protocol,requestId,observation," && observation (member v "observation"), "observation is invalid")].

Definition decodeLibraryServiceClientMessage (input : value) : Decoded :=
  if negb (record input) then invalid "library service request must be an object"
  else match protocol input with
  | Some mismatch => mismatch
  | None =>
      if negb (text (member input "type")) || negb (text (member input "requestId"))
      then invalid "request type and requestId are required"
      else
        let type := js_string (member input "type") in
        match list_find (fun c => c.1.1 = type) (request_checks input) with
        | Some (_, (_, ok, message)) => if ok : bool then inr input else invalid message
        | None => invalid ("unknown request type " +:+ type)
        end
  end.
End Codec.
