(* ===== verification/CodecTypes.v ===== *)
(** * What the library service is asked, as it is declared ([web/src/lib/libraryServiceProtocol.ts])

    The TypeScript types of a request, as data: each interface and union of the protocol is a term of [ty], and
    [has t v] decides whether [v] is of type [t]. *)

From S2P Require Import Prelude JsMap JsText Json Wire JsValue Codec.
Open Scope Z_scope.

(** A type of the protocol. [TFields] is an interface or an object type, each field with whether it may be absent;
    [TUnion] is a union of types; [TObject] is [object] and [TAny] is [unknown]. *)
Inductive ty : Type :=
| TAny
| TString
| TNumber
| TBoolean
| TNull
| TTrue
| TObject
| TTexts (literals : list string)
| TInts (literals : list Z)
| TArray (item : ty)
| TTriple (a b c : ty)
| TRecord (item : ty)
| TFields (fields : list (string * bool * ty))
| TUnion (types : list ty).

Notation "name '?::' t" := (name, true, t) (at level 60).
Notation "name ':::' t" := (name, false, t) (at level 60).

Definition field_names (fields : list (string * bool * ty)) : list string := (fun f => f.1.1) <$> fields.

(** [v] has the type [t], has no member its type does not declare and no collection beyond
    [LIBRARY_SERVICE_WIRE_LIMITS.collectionItems]. *)
Fixpoint has (t : ty) (v : value) : bool :=
  match t with
  | TAny => true
  | TString => is_text v
  | TNumber => match v with Num _ => true | _ => false end
  | TBoolean => bool_ v
  | TNull => is_null v
  | TTrue => is_true v
  | TObject => match v with Obj _ | Arr _ => true | _ => false end
  | TTexts literals => str_in literals v
  | TInts literals => match safe_int v with Some z => existsb (Z.eqb z) literals | None => false end
  | TArray item => match v with Arr l => (count l <=? collectionItems) && forallb (has item) l | _ => false end
  | TTriple a b c => match v with Arr [x; y; z] => has a x && has b y && has c z | _ => false end
  | TRecord item =>
      match v with Obj members => (count members <=? collectionItems) && forallb (fun p => has item p.2) members | _ => false end
  | TFields fields =>
      record v && forallb (fun key => existsb (String.eqb key) (field_names fields)) (keys_of v) &&
      forallb (fun f => match f with (name, absent, t) => (absent && is_undefined (member v name)) || has t (member v name) end)
        fields
  | TUnion types => existsb (fun t => has t v) types
  end.

Definition TNullable (t : ty) : ty := TUnion [t; TNull].
Definition TText (s : string) : ty := TTexts [s].

(** ** Titles, downloads and what Home retains *)

Definition MediaType : ty := TTexts ["movie"; "tv"].
Definition Reaction : ty := TTexts ["seen"; "dislike"; "like"; "love"].
Definition RatingSource : ty := TTexts ["imdb"; "tmdb"; "rottenTomatoes"; "metacritic"].
Definition LibraryApiKeyService : ty := TTexts ["tmdb"; "omdb"; "content-warnings"].
Definition MediaServerKind : ty := TTexts ["jellyfin"; "plex"].
Definition LibraryWire : ty := TInts [4; 5].

Definition TitleRef : ty := TFields ["type" ::: MediaType; "id" ::: TNumber].

(** [TitleRef & { type }] *)
Definition TitleOf (type : string) : ty := TFields ["type" ::: TText type; "id" ::: TNumber].

Definition EpisodeRef : ty :=
  TFields ["type" ::: TText "tv"; "id" ::: TNumber; "season" ::: TNumber; "episode" ::: TNumber].

Definition RetainedRouteEntry : ty := TFields ["url" ::: TString; "access" ?:: TBoolean].
Definition RetainedRoutes : ty := TRecord (TArray RetainedRouteEntry).
Definition RetainedAddon : ty := TFields ["install" ::: TString; "base" ::: TString].
Definition RetainedServices : ty :=
  TFields ["routes" ::: RetainedRoutes; "scout" ::: TNullable RetainedAddon; "atlas" ::: TNullable TString;
    "reel" ::: TNullable TString; "remux" ::: TNullable TString].

Definition RetainedRecommendationWhy : ty :=
  TFields ["score" ?:: TNumber; "fit" ?:: TNumber; "similar" ?:: TNullable TNumber; "profile" ?:: TNumber;
    "people" ?:: TNumber; "confidence" ?:: TNumber; "fresh" ?:: TNumber; "arrived" ?:: TNumber; "quality" ?:: TNumber;
    "buzz" ?:: TNumber; "reason" ?:: TString].

Definition RetainedBillboardTitle : ty :=
  TFields ["type" ::: MediaType; "id" ::: TNumber; "title" ::: TString; "posterPath" ?:: TString;
    "posterUrl" ?:: TString; "backdropPath" ?:: TString; "year" ?:: TNumber; "releaseDate" ?:: TString;
    "rating" ?:: TNumber; "ratingSource" ?:: TTexts ["tmdb"; "justwatch-imdb"]; "votes" ?:: TNumber;
    "popularity" ?:: TNumber; "countries" ?:: TArray TString; "people" ?:: TArray TNumber;
    "collectionId" ?:: TNumber; "genreIds" ?:: TArray TNumber; "primaryGenreName" ?:: TString; "likely" ?:: TBoolean;
    "originalLanguage" ?:: TString; "adult" ?:: TBoolean; "imdbId" ?:: TString; "arrivesAt" ?:: TNumber;
    "services" ?:: TArray TString; "why" ?:: RetainedRecommendationWhy].

Definition RetainedBillboardScope : ty :=
  TUnion [TFields ["kind" ::: TText "shared"; "facet" ::: TNullable MediaType; "fresh" ::: TBoolean];
    TFields ["kind" ::: TText "personal"; "facet" ::: TNullable MediaType; "fresh" ::: TBoolean]].

Definition RetainedBillboard : ty :=
  TUnion [TFields ["kind" ::: TText "shared"; "titles" ::: TArray RetainedBillboardTitle];
    TFields ["kind" ::: TText "personal"; "at" ::: TNumber; "titles" ::: TArray RetainedBillboardTitle]].

Definition DownloadTarget : ty := TUnion [TitleOf "movie"; EpisodeRef].
Definition DownloadTitleDescriptor : ty :=
  TFields ["target" ::: DownloadTarget; "name" ::: TString; "imdbId" ?:: TString; "posterPath" ?:: TString;
    "stillPath" ?:: TString; "originalLanguage" ?:: TString; "airDate" ?:: TNumber].
Definition DownloadReleaseDescriptor : ty :=
  TFields ["identity" ::: TString; "label" ::: TString; "sizeBytes" ?:: TNumber; "cached" ?:: TBoolean].

(** ** Preferences *)

Definition InterfaceLanguage : ty := TTexts ["en"; "es"; "sv"].
Definition SubtitlePreference : ty :=
  TUnion [TFields ["mode" ::: TText "automatic"]; TFields ["mode" ::: TText "off"];
    TFields ["mode" ::: TText "language"; "language" ::: TString]].
Definition StoredPreferenceValues : ty := TRecord TObject.
Definition ServiceRef : ty := TFields ["id" ::: TNumber; "country" ::: TString].
Definition LibraryListPreferencePatch (t : ty) : ty :=
  TUnion [TFields ["kind" ::: TText "default"]; TFields ["kind" ::: TText "values"; "values" ::: TArray t]].

Definition LibraryPreferencesPatch : ty :=
  TFields ["interfaceLanguage" ?:: InterfaceLanguage; "excludedGenres" ?:: TArray TNumber;
    "excludedLanguages" ?:: TArray TString; "hideAnime" ?:: TBoolean; "hideWatched" ?:: TBoolean;
    "minReleaseYear" ?:: TNullable TNumber; "audioLanguage" ?:: TNullable TString;
    "subtitlePreference" ?:: SubtitlePreference; "shownSubtitleLanguages" ?:: TArray TString;
    "subtitlesPerLanguage" ?:: TNumber; "autoSkipSegments" ?:: TBoolean; "autoplayTrailers" ?:: TBoolean;
    "ratingSources" ?:: LibraryListPreferencePatch RatingSource; "shownWarnings" ?:: TArray TString;
    "watchRegion" ?:: TNullable TString; "services" ?:: LibraryListPreferencePatch ServiceRef;
    "maturityCeiling" ?:: TNullable (TTexts ["pg13"; "r"])].

(** ** Commands, selections and queries *)

Definition LibraryWatchedSetCommand : ty :=
  TFields ["kind" ::: TText "watched.set"; "title" ::: TitleRef; "watched" ::: TBoolean].

Definition LibraryCommand : ty :=
  TUnion
    [TFields ["kind" ::: TText "watchlist.add"; "title" ::: TitleRef];
     TFields ["kind" ::: TText "library.remove"; "title" ::: TitleRef];
     LibraryWatchedSetCommand;
     TFields ["kind" ::: TText "reaction.set"; "title" ::: TitleRef; "reaction" ::: TNullable Reaction];
     TFields ["kind" ::: TText "episode-watched.set"; "episode" ::: EpisodeRef; "watched" ::: TBoolean];
     TFields ["kind" ::: TText "season-watched.set"; "title" ::: TitleOf "tv"; "season" ::: TNumber;
       "episodes" ::: TArray TNumber; "watched" ::: TBoolean];
     TFields ["kind" ::: TText "continue-dismissed.set"; "title" ::: TitleRef; "dismissed" ::: TBoolean];
     TFields ["kind" ::: TText "progress.record"; "title" ::: TitleRef; "episode" ?:: EpisodeRef;
       "fraction" ::: TNumber; "seconds" ::: TNumber; "playing" ?:: TBoolean; "observedAt" ::: TNumber];
     TFields ["kind" ::: TText "preferences.patch"; "patch" ::: LibraryPreferencesPatch];
     TFields ["kind" ::: TText "preferences.seed"; "household" ::: StoredPreferenceValues];
     TFields ["kind" ::: TText "api-key.set"; "service" ::: LibraryApiKeyService; "value" ::: TNullable TString];
     TFields ["kind" ::: TText "parental-pin.set"; "pin" ::: TNullable TString];
     TFields ["kind" ::: TText "remote-access.set";
       "credentials" ::: TNullable (TFields ["clientId" ::: TString; "clientSecret" ::: TString])];
     TFields ["kind" ::: TText "plugin.install"; "manifestUrl" ::: TString];
     TFields ["kind" ::: TText "plugin.remove"; "manifestUrl" ::: TString];
     TFields ["kind" ::: TText "plugin-trust.set"; "manifestUrl" ::: TString; "publicKey" ::: TNullable TString];
     TFields ["kind" ::: TText "server.patch"; "server" ::: MediaServerKind;
       "value" ::: TNullable (TFields ["url" ::: TString; "user" ?:: TString; "credential" ?:: TString])];
     TFields ["kind" ::: TText "device.heartbeat"; "name" ::: TString; "deviceKind" ?:: TTexts ["tv"; "browser"];
       "playKey" ?:: TString; "controlVersion" ?:: TNumber];
     TFields ["kind" ::: TText "device.played"];
     TFields ["kind" ::: TText "device.remove"; "deviceId" ::: TString];
     TFields ["kind" ::: TText "simkl.connect"; "token" ::: TString];
     TFields ["kind" ::: TText "simkl.disconnect"];
     TFields ["kind" ::: TText "simkl.removals.approve"; "approvalId" ::: TString];
     TFields ["kind" ::: TText "discovery.remux.remember"; "url" ::: TString];
     TFields ["kind" ::: TText "retained.services.set"; "value" ::: RetainedServices];
     TFields ["kind" ::: TText "retained.home-continue.set"; "present" ::: TBoolean];
     TFields ["kind" ::: TText "retained.billboard.set"; "scope" ::: RetainedBillboardScope;
       "value" ::: RetainedBillboard];
     TFields ["kind" ::: TText "download.enqueue"; "title" ::: DownloadTitleDescriptor;
       "release" ::: DownloadReleaseDescriptor; "candidates" ?:: TNumber];
     TFields ["kind" ::: TText "download.want"; "title" ::: DownloadTitleDescriptor];
     TFields ["kind" ::: TText "download.remove"; "target" ::: DownloadTarget];
     TFields ["kind" ::: TText "download.release.try"; "target" ::: DownloadTarget; "identity" ::: TString]].

Definition kind_only (kind : string) : ty := TFields ["kind" ::: TText kind].

Definition LibrarySelection : ty :=
  TUnion
    [kind_only "overview"; kind_only "watchlist"; kind_only "recommendations"; kind_only "continue";
     kind_only "history"; TFields ["kind" ::: TText "title"; "title" ::: TitleRef];
     TFields ["kind" ::: TText "presence"; "titles" ::: TArray TitleRef]; kind_only "settings"; kind_only "devices";
     kind_only "connections"; kind_only "simkl"; kind_only "recovery"; kind_only "runtime"; kind_only "profiles";
     kind_only "downloads"].

Definition HistoryFilter : ty := TFields ["type" ?:: MediaType; "year" ?:: TString].

Definition LibraryQuery : ty :=
  TUnion
    [TFields ["kind" ::: TText "playback.prepare"; "title" ::: TitleRef; "episode" ?:: EpisodeRef];
     TFields ["kind" ::: TText "parental-pin.verify"; "pin" ::: TString];
     kind_only "key-reset.prepare";
     TFields ["kind" ::: TText "recovery.seal"; "locator" ::: TString; "wrapKey" ::: TString; "createdAt" ::: TNumber];
     TFields ["kind" ::: TText "pairing.handover"; "handoverKey" ::: TString; "host" ::: TString;
       "linkKey" ?:: TString; "grantTicket" ?:: TString];
     kind_only "history.export";
     TFields ["kind" ::: TText "history.page"; "revision" ::: TString; "filter" ::: HistoryFilter;
       "cursor" ?:: TString; "limit" ?:: TNumber];
     TFields ["kind" ::: TText "history.episodes"; "revision" ::: TString; "titles" ::: TArray (TitleOf "tv")];
     kind_only "relay.membership";
     TFields ["kind" ::: TText "download.refresh"; "target" ?:: DownloadTarget];
     TFields ["kind" ::: TText "download.sources"; "title" ::: DownloadTitleDescriptor; "refresh" ?:: TBoolean;
       "fresh" ?:: TBoolean; "early" ?:: TBoolean];
     TFields ["kind" ::: TText "download.artwork"; "target" ::: DownloadTarget];
     kind_only "preferences.raw"; kind_only "retained.services.get"; kind_only "retained.home-continue.get";
     TFields ["kind" ::: TText "retained.billboard.get"; "scope" ::: RetainedBillboardScope];
     TFields ["kind" ::: TText "library.metadata"; "titles" ::: TArray TitleRef];
     kind_only "assistant.grants"; kind_only "assistant.connection"; kind_only "profile-create.status"].

(** ** Tasks and observations *)

Definition HistoryImportItem : ty :=
  TFields ["title" ::: TitleRef; "watchedAt" ?:: TNumber;
    "episodes" ?:: TArray (TFields ["season" ::: TNumber; "episode" ::: TNumber; "watchedAt" ::: TNumber]);
    "complete" ?:: TBoolean].

Definition AssistantConnection : ty :=
  TFields ["member" ::: TFields ["libraryId" ::: TString; "memberToken" ::: TString];
    "rows" ::: TArray (TFields ["kind" ::: TText "set"; "schema" ::: TNumber; "name" ::: TString;
      "values" ::: StoredPreferenceValues]);
    "revoked" ::: TArray TString].

Definition QueueMessages : ty := TArray (TFields ["seq" ::: TNumber; "sealed" ::: TString]).

Definition LibraryTask : ty :=
  TUnion
    [TFields ["kind" ::: TText "recovery.begin"; "locator" ::: TString; "sealed" ::: TString; "createdAt" ::: TNumber];
     TFields ["kind" ::: TText "recovery.confirm"; "locator" ::: TString];
     TFields ["kind" ::: TText "recovery.abandon"; "locator" ::: TString];
     kind_only "recovery.disable";
     TFields ["kind" ::: TText "history.import"; "items" ::: TArray HistoryImportItem];
     TFields ["kind" ::: TText "local-library.merge"; "sourceLibraryKey" ::: TString;
       "scope" ?:: TTexts ["household"; "profile"]; "keep" ?:: TTrue; "verify" ?:: TTrue];
     TFields ["kind" ::: TText "household.create"; "householdKey" ::: TString; "attempt" ::: TString;
       "ownerProfile" ::: TString; "ownerKey" ::: TString; "createdAt" ::: TNumber; "ifKept" ?:: TTrue];
     kind_only "profile.create-default";
     TFields ["kind" ::: TText "household.join"; "sourceLibraryKey" ::: TString; "pin" ?:: TString];
     TFields ["kind" ::: TText "key-reset.move"; "destinationLibraryKey" ::: TString];
     TFields ["kind" ::: TText "key-reset.settle"; "destinationLibraryKey" ::: TString];
     TFields ["kind" ::: TText "key-reset.adopt"; "destinationLibraryKey" ::: TString];
     TFields ["kind" ::: TText "assistant.consent"; "client" ::: TString; "write" ::: TBoolean; "read" ::: TBoolean];
     TFields ["kind" ::: TText "assistant.revoke"; "grant" ::: TString];
     TFields ["kind" ::: TText "assistant.publish"; "connection" ?:: AssistantConnection];
     TFields ["kind" ::: TText "assistant.renew"; "grants" ::: TArray TString];
     kind_only "assistant.receipts.ensure";
     TFields ["kind" ::: TText "assistant.receipts.apply"; "messages" ::: QueueMessages;
       "connection" ?:: AssistantConnection];
     TFields ["kind" ::: TText "assistant.apply"; "messages" ::: QueueMessages; "connection" ?:: AssistantConnection;
       "tv" ?:: TFields ["awakeSince" ::: TNumber]];
     TFields ["kind" ::: TText "profile.create"; "name" ::: TString; "maximumAge" ::: TNumber; "pin" ::: TString];
     TFields ["kind" ::: TText "profile.create.ack"; "receipt" ::: TString];
     TFields ["kind" ::: TText "profile.policy.set"; "profile" ::: TString; "maximumAge" ::: TNullable TNumber;
       "unknownRatings" ::: TTexts ["allow"; "block"]; "pin" ::: TString];
     TFields ["kind" ::: TText "kid-title-approval.set"; "profile" ::: TString; "title" ::: TitleRef;
       "allow" ::: TBoolean; "pin" ::: TString];
     TFields ["kind" ::: TText "profile-key-reset.start"; "pin" ::: TString; "destinationLibraryKey" ::: TString];
     kind_only "profile-key-reset.resume";
     TFields ["kind" ::: TText "profile-key-reset.confirm"; "destinationLibraryKey" ::: TString];
     TFields ["kind" ::: TText "profile-key-reset.recover"; "pin" ::: TString; "recoveryAttempt" ::: TString;
       "successorKey" ::: TNullable TString]].

Definition LibraryObservation : ty :=
  TUnion
    [TFields ["kind" ::: TText "title-shape"; "title" ::: TitleOf "tv";
       "seasons" ::: TArray (TFields ["season" ::: TNumber; "episodes" ::: TNumber]);
       "lastAired" ?:: TFields ["season" ::: TNumber; "episode" ::: TNumber]];
     TFields ["kind" ::: TText "airing"; "today" ::: TString;
       "series" ::: TArray (TFields ["title" ::: TitleOf "tv";
         "episodes" ::: TArray (TFields ["season" ::: TNumber; "episode" ::: TNumber; "date" ::: TString]);
         "ended" ::: TBoolean])];
     TFields ["kind" ::: TText "lifecycle"; "visible" ::: TBoolean; "online" ::: TBoolean;
       "playbackActive" ::: TBoolean; "playerOpen" ?:: TBoolean];
     kind_only "foreground-ready"].

(** ** Requests *)

Definition LibraryServiceProtocol : ty := TInts [LIBRARY_SERVICE_PROTOCOL].

(** [interface ... extends ClientMessage] *)
Definition ClientMessage (type : string) (fields : list (string * bool * ty)) : ty :=
  TFields (["type" ::: TText type; "protocol" ::: LibraryServiceProtocol; "requestId" ::: TString] ++ fields).

Definition LibraryServiceHello : ty :=
  ClientMessage "hello"
    ["clientId" ::: TString; "libraryKey" ::: TString; "wire" ::: LibraryWire; "mode" ::: TTexts ["online"; "local"];
     "legacyClock" ?:: TFields ["device" ?:: TString; "last" ?:: TTriple TNumber TNumber TString]].
Definition LibraryServiceCommandRequest : ty :=
  ClientMessage "command" ["operationId" ::: TString; "command" ::: LibraryCommand].
Definition LibraryServiceQueryRequest : ty := ClientMessage "query" ["query" ::: LibraryQuery].
Definition LibraryServiceTaskRequest : ty := ClientMessage "task" ["operationId" ::: TString; "task" ::: LibraryTask].
Definition LibraryServiceSubscribeRequest : ty :=
  ClientMessage "subscribe" ["subscriptionId" ::: TString; "selection" ::: LibrarySelection].
Definition LibraryServiceUnsubscribeRequest : ty := ClientMessage "unsubscribe" ["subscriptionId" ::: TString].
Definition LibraryServiceObserveRequest : ty := ClientMessage "observe" ["observation" ::: LibraryObservation].

Definition LibraryServiceClientMessage : ty :=
  TUnion
    [LibraryServiceHello; LibraryServiceCommandRequest; LibraryServiceQueryRequest; LibraryServiceTaskRequest;
     LibraryServiceSubscribeRequest; LibraryServiceUnsubscribeRequest; LibraryServiceObserveRequest].
