(* ===== verification/CodecSound.v ===== *)
(** * The codec's checks are sound for the types they guard

    Each check of [Codec] is a TypeScript guard ([value is T]): what it lets through is of the type [T] that
    [CodecTypes] transcribes, with no undeclared member and no collection beyond the wire's limit. *)

From S2P Require Import Prelude JsMap JsText Json Wire ProfileKeys JsValue Codec CodecTypes.
Open Scope Z_scope.

Create HintDb codec.

(** ** The combinators *)

Definition field_ok (v : value) (f : string * bool * ty) : Prop :=
  (f.1.2 = true /\ is_undefined (member v f.1.1) = true) \/ has f.2 (member v f.1.1) = true.

(** The names a delimited key set lists are fields of the type. *)
Definition covers (keys : string) (fields : list (string * bool * ty)) : bool :=
  forallb (fun key => String.eqb key "" || existsb (String.eqb key) (field_names fields)) (split_on "," keys).

Lemma has_fields keys fields v :
  record v = true -> exact v keys = true -> covers keys fields = true -> Forall (field_ok v) fields ->
  has (TFields fields) v = true.
Proof.
  intros Hr He Hc Hf. cbn [has]. rewrite Hr. cbn [andb]. apply andb_true_intro. split; apply forallb_forall.
  - intros key Hkey. unfold exact in He. rewrite forallb_forall in He.
    destruct (listed_key_in _ _ (He _ Hkey)) as [Hne Hin]. unfold covers in Hc. rewrite forallb_forall in Hc.
    apply list_elem_of_In, Hc, orb_prop in Hin as [->%String.eqb_eq|]; done.
  - intros [[name absent] t] Hin%list_elem_of_In. rewrite Forall_forall in Hf.
    destruct (Hf _ Hin) as [[Ha Hu]|Ht]; cbn in *; [by rewrite Ha, Hu|by rewrite Ht, orb_true_r].
Qed.

Lemma field_of v name absent t : has t (member v name) = true -> field_ok v (name, absent, t).
Proof. by right. Qed.

Lemma optional_sound v name check t :
  optional (member v name) check = true -> (forall c, check c = true -> has t c = true) ->
  field_ok v (name ?:: t).
Proof. intros [Hu|Hc]%orb_prop Ht; [by left|right; cbn; by apply Ht]. Qed.

Lemma nullable_sound v check t :
  nullable v check = true -> (forall c, check c = true -> has t c = true) -> has (TNullable t) v = true.
Proof. intros [Hn|Hc]%orb_prop Ht; cbn; [by rewrite Hn, orb_true_r|by rewrite (Ht _ Hc)]. Qed.

Lemma list_sound v check max t :
  list_ v check max = true -> (max <=? collectionItems) = true -> (forall c, check c = true -> has t c = true) ->
  has (TArray t) v = true.
Proof.
  destruct v as [| | | | |l|]; try done. intros [Hl%Z.leb_le Hc]%andb_prop Hm%Z.leb_le Ht. cbn [has].
  apply andb_true_intro. split; [lia|]. rewrite forallb_forall in *. auto.
Qed.

Lemma str_sound p v : str_test p v = true -> has TString v = true.
Proof. by destruct v. Qed.

Lemma str_in_text l v : str_in l v = true -> has TString v = true.
Proof. unfold str_in. rewrite existsb_exists. intros (s & _ & Hs). by destruct v. Qed.

Lemma text_sound s v : str_is s v = true -> has (TText s) v = true.
Proof. cbn. by intros ->. Qed.

Lemma bool_sound v : bool_ v = true -> has TBoolean v = true.
Proof. done. Qed.

Lemma true_sound v : is_true v = true -> has TTrue v = true.
Proof. done. Qed.

Lemma integer_sound v : integer v = true -> has TNumber v = true.
Proof. by destruct v. Qed.

Lemma positive_sound v : positiveInteger v = true -> has TNumber v = true.
Proof. by destruct v. Qed.

Lemma finite_sound v : finite v = true -> has TNumber v = true.
Proof. by destruct v. Qed.

Lemma between_sound lo hi v : int_between lo hi v = true -> has TNumber v = true.
Proof. by destruct v. Qed.

(** A member of a union, found by the text of its tag. *)
Definition tagged (key tag : string) (t : ty) : bool :=
  match t with
  | TFields fields =>
      existsb (fun f => match f with (name, _, TTexts [s]) => String.eqb name key && String.eqb s tag | _ => false end) fields
  | _ => false
  end.

Lemma has_union key tag types t v :
  find (tagged key tag) types = Some t -> has t v = true -> has (TUnion types) v = true.
Proof. intros [Hin _]%find_some Ht. cbn [has]. apply existsb_exists. eauto. Qed.

Lemma has_either t types v : t ∈ types -> has t v = true -> has (TUnion types) v = true.
Proof. intros Hin%list_elem_of_In Ht. cbn [has]. apply existsb_exists. eauto. Qed.

Lemma has_record check v :
  record v = true -> forall max, (count (keys_of v) <=? max) = true -> (max <=? collectionItems) = true ->
  every_entry check v = true -> forall t, (forall key c, check key c = true -> has t c = true) ->
  has (TRecord t) v = true.
Proof.
  destruct v as [| | | | | |members]; try done. intros _ max Hm%Z.leb_le Hle%Z.leb_le He t Ht. cbn [has].
  apply andb_true_intro. split; [unfold count in *; cbn in Hm; unfold map_keys in Hm; rewrite length_fmap in Hm; lia|].
  cbn in He. rewrite forallb_forall in *. intros p Hp. exact (Ht _ _ (He p Hp)).
Qed.

(** A literal among those of the type, and several. *)
Lemma literal_sound s l v : str_is s v = true -> existsb (String.eqb s) l = true -> has (TTexts l) v = true.
Proof.
  destruct v as [| | | |t| |]; try done. intros <-%String.eqb_eq Hl. cbn [has]. unfold str_in. cbn [str_is].
  rewrite existsb_exists in *. destruct Hl as (x & Hx & Heq). by exists x.
Qed.

Lemma literals_sound l l' v :
  str_in l v = true -> forallb (fun s => existsb (String.eqb s) l') l = true -> has (TTexts l') v = true.
Proof.
  unfold str_in at 1. rewrite existsb_exists, forallb_forall. intros (s & Hs & Hv) Hl.
  exact (literal_sound s l' v Hv (Hl s Hs)).
Qed.

Lemma absent_field v name t : is_undefined (member v name) = true -> field_ok v (name ?:: t).
Proof. by left. Qed.

(** A member outside the key set is not there. *)
Lemma exact_absent v keys name :
  exact v keys = true -> bool_decide (name ∈ split_on "," keys) = false -> is_undefined (member v name) = true.
Proof.
  intros He Hn%bool_decide_eq_false. destruct v as [| | | | | |members]; try done. cbn.
  destruct (map_get name members) as [c|] eqn:Hg; [|done]. destruct Hn. unfold exact in He. cbn [keys_of] in He.
  rewrite forallb_forall in He. apply listed_key_in, He, list_elem_of_In, map_get_is_Some. by exists c.
Qed.

(** ** The cases of a switch *)

Lemma switch_cons on labels body cases :
  switch on ((labels, body) :: cases) = true ->
  (existsb (String.eqb on) labels = true /\ body = true) \/ switch on cases = true.
Proof. cbn. destruct (existsb _ labels); auto. Qed.

Lemma by_kind_inv v cases :
  by_kind v cases = true ->
  exists kind, record v = true /\ str_is kind (member v "kind") = true /\ switch kind cases = true.
Proof.
  intros [[Hr _]%andb_prop Hs]%andb_prop. destruct (member v "kind") as [| | | |kind| |] eqn:Hk; try done.
  exists kind. cbn. by rewrite String.eqb_refl.
Qed.

(** ** Automation *)

#[export] Hint Resolve str_sound str_in_text text_sound bool_sound true_sound integer_sound positive_sound finite_sound
  between_sound : codec.

(** Splits what a check holds into its conjuncts. *)
Ltac conjuncts :=
  repeat match goal with H : _ && _ = true |- _ => apply andb_prop in H as [? ?] end.

(** The type of [c], from one check of it. *)
Ltac checked c :=
  match goal with
  | Hc : ?P |- ?P => exact Hc
  | Hc : context [c] |- _ => solve [clear - Hc; eauto 2 with codec]
  | Hc : str_is _ c = true |- _ => refine (literal_sound _ _ _ Hc _); reflexivity
  | Hc : str_in _ c = true |- _ => refine (literals_sound _ _ _ Hc _); reflexivity
  end.

(** Proves that a value a check let through is of the type it guards, from its conjuncts. *)
Ltac typed :=
  cbv beta; intros; conjuncts;
  lazymatch goal with
  | |- field_ok ?v (?n, _, _) =>
      first
        [ match goal with Ho : optional (member v n) _ = true |- _ => apply (optional_sound _ _ _ _ Ho); clear Ho; typed end
        | match goal with Hu : is_undefined (member v n) = true |- _ => exact (absent_field _ _ _ Hu) end
        | solve [eauto 2 with codec]
        | apply field_of; typed ]
  | |- has ?t ?c = true =>
      first
        [ checked c
        | match goal with Hn : nullable c _ = true |- _ => apply (nullable_sound _ _ _ Hn); typed end
        | match goal with Hl : list_ c _ _ = true |- _ => apply (list_sound _ _ _ _ Hl); [reflexivity|typed] end
        | match goal with
          | Hr : record c = true, He : exact c _ = true |- _ =>
              apply (has_fields _ _ _ Hr He); [reflexivity|repeat (apply Forall_cons_2; [typed|]); apply Forall_nil_2]
          end
        | solve [eauto 3 with codec] ]
  end.

(** One goal for each label of a switch, with the body of its case. *)
Ltac cases_of H :=
  apply by_kind_inv in H as (?kind & ?Hrecord & ?Hkind & H);
  repeat (apply switch_cons in H as [[?Hlabel ?Hbody]|H]); [..|discriminate H];
  cbn [existsb] in *; rewrite ?orb_false_r in *;
  repeat match goal with Hl : _ || _ = true |- _ => apply orb_prop in Hl as [Hl|Hl] end;
  repeat match goal with Hl : String.eqb _ _ = true |- _ => apply String.eqb_eq in Hl; subst end.

Ltac variant tag := eapply (has_union "kind" tag); [reflexivity|typed].
Ltac variant_of_kind := match goal with H : str_is ?tag (member _ "kind") = true |- _ => variant tag end.

(** ** Titles, downloads and what Home retains *)

Section Sound.
Context `{CodecApi}.

Lemma titleRef_sound v : titleRef v = true -> has TitleRef v = true.
Proof. unfold titleRef. typed. Qed.

Lemma titleRef_parts type id :
  titleRef (Obj [("type", type); ("id", id)]) = true -> str_in ["movie"; "tv"] type = true /\ positiveInteger id = true.
Proof. intros Hv. unfold titleRef in Hv. conjuncts. by split. Qed.

Lemma titleOf_sound type v : titleRef v = true -> str_is type (member v "type") = true -> has (TitleOf type) v = true.
Proof. unfold titleRef. typed. Qed.

Lemma tv_sound v : titleRef v = true -> is_tv v = true -> has (TitleOf "tv") v = true.
Proof. apply titleOf_sound. Qed.

Lemma episodeRef_sound v : episodeRef v = true -> has EpisodeRef v = true.
Proof. unfold episodeRef, is_tv. typed. Qed.

Lemma downloadTarget_sound v : downloadTarget v = true -> has DownloadTarget v = true.
Proof.
  intros [[Ht Hm]%andb_prop|He]%orb_prop.
  - apply (has_either (TitleOf "movie")); [set_solver|]. by apply titleOf_sound.
  - apply (has_either EpisodeRef); [set_solver|]. by apply episodeRef_sound.
Qed.

#[local] Hint Resolve titleRef_sound tv_sound episodeRef_sound downloadTarget_sound : codec.

Lemma downloadTitle_sound v : downloadTitle v = true -> has DownloadTitleDescriptor v = true.
Proof. unfold downloadTitle. typed. Qed.

Lemma downloadRelease_sound v : downloadRelease v = true -> has DownloadReleaseDescriptor v = true.
Proof. unfold downloadRelease. typed. Qed.

Lemma serviceRef_sound v : serviceRef v = true -> has ServiceRef v = true.
Proof. unfold serviceRef. typed. Qed.

Lemma webUrl_sound v : webUrl v = true -> has TString v = true.
Proof. unfold webUrl. typed. Qed.

Lemma serviceBase_sound v : serviceBase v = true -> has TString v = true.
Proof. unfold serviceBase. typed. Qed.

#[local] Hint Resolve downloadTitle_sound downloadRelease_sound serviceRef_sound webUrl_sound serviceBase_sound : codec.

Lemma retainedBillboardScope_sound v : retainedBillboardScope v = true -> has RetainedBillboardScope v = true.
Proof.
  unfold retainedBillboardScope. intros Hv. conjuncts.
  match goal with Hk : str_in _ (member v "kind") = true |- _ => cbn in Hk; apply orb_prop in Hk as [Hk|Hk] end.
  - variant "shared".
  - rewrite orb_false_r in *. variant "personal".
Qed.

Lemma retained_why_sound v : retained_why v = true -> has RetainedRecommendationWhy v = true.
Proof. unfold retained_why. typed. Qed.

Lemma positiveIntegerList_sound v : positiveIntegerList v 256 = true -> has (TArray TNumber) v = true.
Proof. unfold positiveIntegerList. typed. Qed.

#[local] Hint Resolve retainedBillboardScope_sound retained_why_sound positiveIntegerList_sound : codec.

Lemma why_field v :
  is_undefined (member v "why") || retained_why (member v "why") = true ->
  field_ok v ("why" ?:: RetainedRecommendationWhy).
Proof. intros [Hu|Hw]%orb_prop; [by left|right; by apply retained_why_sound]. Qed.

#[local] Hint Resolve why_field : codec.

Lemma retainedBillboardTitle_sound v : retainedBillboardTitle v = true -> has RetainedBillboardTitle v = true.
Proof.
  unfold retainedBillboardTitle. intros Hv. conjuncts.
  match goal with Ht : titleRef (Obj _) = true |- _ => apply titleRef_parts in Ht as [? ?] end. typed.
Qed.

#[local] Hint Resolve retainedBillboardTitle_sound : codec.

Lemma isRetainedBillboard_sound v : isRetainedBillboard v = true -> has RetainedBillboard v = true.
Proof.
  unfold isRetainedBillboard. intros Hv. conjuncts.
  match goal with Hk : _ || _ = true |- _ => apply orb_prop in Hk as [Hk|Hk] end; conjuncts; variant_of_kind.
Qed.

Lemma addon_sound v : addon v = true -> has RetainedAddon v = true.
Proof. unfold addon. typed. Qed.

Lemma route_entry_sound v : route_entry v = true -> has RetainedRouteEntry v = true.
Proof. unfold route_entry. typed. Qed.

#[local] Hint Resolve isRetainedBillboard_sound addon_sound route_entry_sound : codec.

Lemma isRetainedServices_sound v : isRetainedServices v = true -> has RetainedServices v = true.
Proof.
  unfold isRetainedServices. intros Hv. conjuncts.
  assert (Hroutes : has RetainedRoutes (member v "routes") = true).
  { eapply has_record; [done|eassumption|reflexivity|eassumption|]. typed. }
  typed.
Qed.

(** ** Preferences *)

Lemma subtitle_preference_sound v : subtitle_preference v = true -> has SubtitlePreference v = true.
Proof.
  unfold subtitle_preference. intros Hv. conjuncts.
  match goal with Hk : _ || _ = true |- _ => apply orb_prop in Hk as [Hk|Hk] end; conjuncts.
  - match goal with Hk : str_in _ _ = true |- _ => cbn in Hk; rewrite orb_false_r in Hk; apply orb_prop in Hk as [Hk|Hk] end.
    + eapply (has_union "mode" "automatic"); [reflexivity|typed].
    + eapply (has_union "mode" "off"); [reflexivity|typed].
  - eapply (has_union "mode" "language"); [reflexivity|typed].
Qed.

Lemma list_patch_sound v values t :
  list_patch v values = true -> (forall c, values c = true -> has (TArray t) c = true) ->
  has (LibraryListPreferencePatch t) v = true.
Proof.
  unfold list_patch. intros Hv Ht. conjuncts.
  match goal with Hk : _ || _ = true |- _ => apply orb_prop in Hk as [Hk|Hk] end; conjuncts; variant_of_kind.
Qed.

Lemma storedPreferenceValues_sound v : storedPreferenceValues v = true -> has StoredPreferenceValues v = true.
Proof.
  unfold storedPreferenceValues. intros Hv. conjuncts. eapply has_record; [done|eassumption|reflexivity|eassumption|].
  cbv beta. intros key c Hc. conjuncts. by destruct c.
Qed.

#[local] Hint Resolve isRetainedServices_sound subtitle_preference_sound storedPreferenceValues_sound : codec.

Lemma ratings_sound c :
  list_patch c (fun values => list_ values ratingSource (count PROFILE_RATING_SOURCES) && unique values js_string) = true ->
  has (LibraryListPreferencePatch RatingSource) c = true.
Proof. intros Hc. eapply list_patch_sound; [exact Hc|]. typed. Qed.

Lemma services_sound c :
  list_patch c (fun values => list_ values serviceRef PROFILE_SERVICE_LIMIT && unique values service_identity) = true ->
  has (LibraryListPreferencePatch ServiceRef) c = true.
Proof. intros Hc. eapply list_patch_sound; [exact Hc|]. typed. Qed.

#[local] Hint Resolve ratings_sound services_sound : codec.

Lemma preferencesPatch_sound v : preferencesPatch v = true -> has LibraryPreferencesPatch v = true.
Proof. unfold preferencesPatch. typed. Qed.

#[local] Hint Resolve preferencesPatch_sound : codec.

(** ** Commands, selections and queries *)

Lemma server_value_sound server v :
  server_value server v = true -> has (TFields ["url" ::: TString; "user" ?:: TString; "credential" ?:: TString]) v = true.
Proof. unfold server_value. typed. Qed.

Lemma credentials_sound v :
  credentials v = true -> has (TFields ["clientId" ::: TString; "clientSecret" ::: TString]) v = true.
Proof. unfold credentials. typed. Qed.

#[local] Hint Resolve server_value_sound credentials_sound : codec.

Lemma command_sound v : command v = true -> has LibraryCommand v = true.
Proof. intros Hv. unfold command in Hv. cases_of Hv; variant_of_kind. Qed.

Lemma selection_sound v : selection v = true -> has LibrarySelection v = true.
Proof. intros Hv. unfold selection in Hv. cases_of Hv; variant_of_kind. Qed.

Lemma historyFilter_sound v : historyFilter v = true -> has HistoryFilter v = true.
Proof. unfold historyFilter. typed. Qed.

Lemma shows_sound v max :
  list_ v titleRef max = true -> forallb is_tv (items v) = true -> (max <=? collectionItems) = true ->
  has (TArray (TitleOf "tv")) v = true.
Proof.
  intros Hl Htv Hm. apply (list_sound v (fun c => titleRef c && is_tv c) max); [|done|typed].
  destruct v as [| | | | |l|]; try done. apply andb_prop in Hl as [Hc Ht]. cbn in Htv |- *. rewrite Hc. cbn [andb].
  rewrite forallb_forall in *. intros c Hin. by rewrite (Ht c Hin), (Htv c Hin).
Qed.

Lemma history_shows_sound v :
  list_ v titleRef historyDetailTitles = true -> forallb is_tv (items v) = true -> has (TArray (TitleOf "tv")) v = true.
Proof. intros Hl Htv. by apply (shows_sound v historyDetailTitles). Qed.

#[local] Hint Resolve historyFilter_sound history_shows_sound : codec.

Lemma query_sound v : query v = true -> has LibraryQuery v = true.
Proof. intros Hv. unfold query in Hv. cases_of Hv; variant_of_kind. Qed.

(** ** Tasks and observations *)

Lemma import_episode_sound v :
  import_episode v = true -> has (TFields ["season" ::: TNumber; "episode" ::: TNumber; "watchedAt" ::: TNumber]) v = true.
Proof. unfold import_episode. typed. Qed.

#[local] Hint Resolve import_episode_sound : codec.

Lemma import_item_sound v : import_item v = true -> has HistoryImportItem v = true.
Proof. unfold import_item. typed. Qed.

Lemma membership_sound v :
  membership v = true -> has (TFields ["libraryId" ::: TString; "memberToken" ::: TString]) v = true.
Proof. unfold membership. typed. Qed.

Lemma member_sound v :
  negb (is_null v) = true -> relayMembership v = true ->
  has (TFields ["libraryId" ::: TString; "memberToken" ::: TString]) v = true.
Proof. intros Hn [Hv|Hv]%orb_prop; [by rewrite Hv in Hn|by apply membership_sound]. Qed.

Lemma assistantConnectionValues_sound v : assistantConnectionValues v = true -> has StoredPreferenceValues v = true.
Proof.
  unfold assistantConnectionValues. intros Hv. conjuncts.
  eapply has_record; [done|eassumption|reflexivity|eassumption|].
  cbv beta. intros key c Hc. conjuncts. by destruct c.
Qed.

#[local] Hint Resolve import_item_sound member_sound assistantConnectionValues_sound : codec.

Lemma connection_row_sound v :
  connection_row v = true ->
  has (TFields ["kind" ::: TText "set"; "schema" ::: TNumber; "name" ::: TString; "values" ::: StoredPreferenceValues]) v = true.
Proof. unfold connection_row. typed. Qed.

#[local] Hint Resolve connection_row_sound : codec.

Lemma assistantConnection_sound v : assistantConnection v = true -> has AssistantConnection v = true.
Proof. unfold assistantConnection. typed. Qed.

Lemma queue_message_sound v :
  queue_message v = true -> has (TFields ["seq" ::: TNumber; "sealed" ::: TString]) v = true.
Proof. unfold queue_message. typed. Qed.

Lemma scalar_text_sound v max : boundedScalarText v max = true -> has TString v = true.
Proof. apply str_sound. Qed.

#[local] Hint Resolve assistantConnection_sound queue_message_sound scalar_text_sound : codec.

Lemma task_sound v : task v = true -> has LibraryTask v = true.
Proof. intros Hv. unfold task in Hv. cases_of Hv; variant_of_kind. Qed.

Lemma shape_season_sound v :
  shape_season v = true -> has (TFields ["season" ::: TNumber; "episodes" ::: TNumber]) v = true.
Proof. unfold shape_season. typed. Qed.

Lemma shape_last_sound v :
  shape_last v = true -> has (TFields ["season" ::: TNumber; "episode" ::: TNumber]) v = true.
Proof. unfold shape_last. typed. Qed.

Lemma airing_episode_sound v :
  airing_episode v = true -> has (TFields ["season" ::: TNumber; "episode" ::: TNumber; "date" ::: TString]) v = true.
Proof. unfold airing_episode. typed. Qed.

#[local] Hint Resolve shape_season_sound shape_last_sound airing_episode_sound : codec.

Lemma airing_series_sound v :
  airing_series v = true ->
  has (TFields ["title" ::: TitleOf "tv";
    "episodes" ::: TArray (TFields ["season" ::: TNumber; "episode" ::: TNumber; "date" ::: TString]);
    "ended" ::: TBoolean]) v = true.
Proof. unfold airing_series. typed. Qed.

#[local] Hint Resolve airing_series_sound : codec.

Lemma observation_sound v : observation v = true -> has LibraryObservation v = true.
Proof. intros Hv. unfold observation in Hv. cases_of Hv; variant_of_kind. Qed.

(** ** Requests *)

Lemma triple_sound v :
  triple v (fun a b c => integer a && integer b && text c) = true -> has (TTriple TNumber TNumber TString) v = true.
Proof.
  destruct v as [| | | | |[|a [|b [|c [|]]]]|]; try done. cbn [triple has]. intros Hv. conjuncts.
  apply andb_true_intro; split; [apply andb_true_intro; split|]; eauto with codec.
Qed.

#[local] Hint Resolve triple_sound : codec.

Lemma legacyClock_sound v :
  legacyClock v = true -> has (TFields ["device" ?:: TString; "last" ?:: TTriple TNumber TNumber TString]) v = true.
Proof. unfold legacyClock. typed. Qed.

Lemma wire_sound v : int_between 4 4 v || int_between 5 5 v = true -> has LibraryWire v = true.
Proof.
  unfold int_between. cbn [has LibraryWire]. destruct (safe_int v) as [z|]; [|done].
  intros [Hz|Hz]%orb_prop; cbn [existsb]; lia.
Qed.

#[local] Hint Resolve command_sound selection_sound query_sound task_sound observation_sound legacyClock_sound
  wire_sound : codec.

Lemma protocol_sound v : protocol v = None -> has LibraryServiceProtocol (member v "protocol") = true.
Proof.
  unfold protocol. destruct (bool_decide_reflect (safe_int (member v "protocol") = Some LIBRARY_SERVICE_PROTOCOL)) as [Hp|];
    [|done]. intros _. cbn [has LibraryServiceProtocol]. by rewrite Hp.
Qed.

(** What a decoder that answered a value saw of it. *)
Lemma decode_inv input v :
  decodeLibraryServiceClientMessage input = inr v ->
  v = input /\ record input = true /\ protocol input = None /\ text (member input "requestId") = true /\
  exists type message, str_is type (member input "type") = true /\ (type, true, message) ∈ request_checks input.
Proof.
  unfold decodeLibraryServiceClientMessage. destruct (record input) eqn:Hr; [|done]. cbn [negb].
  destruct (protocol input) as [[]|] eqn:Hp; [done|..].
  { unfold protocol in Hp. by case_bool_decide. }
  destruct (text (member input "type")) eqn:Htype; [|done]. destruct (text (member input "requestId")) eqn:Hid; [|done].
  cbn [negb orb]. destruct (list_find _ _) as [[i [[type ok] message]]|] eqn:Hf; [|done].
  destruct ok; [|done]. intros [= <-]. apply list_find_Some in Hf as (Hi & Heq & _). cbn in Heq.
  repeat split; [done..|]. exists type, message. split; [|by eapply list_elem_of_lookup_2].
  destruct (member input "type"); try done. cbn in *. subst. apply String.eqb_refl.
Qed.

(** C12: A request the decoder lets through is the value it was given, of its declared type
    ([LibraryServiceClientMessage]): every check is sound for the type it guards, no accepted object has a member its
    type does not declare, and no collection in it is beyond the wire's limit. *)
Theorem decoded_typed input v :
  decodeLibraryServiceClientMessage input = inr v -> v = input /\ has LibraryServiceClientMessage v = true.
Proof.
  intros (-> & Hr & Hp%protocol_sound & Hid & type & message & Htype & Hin)%decode_inv. split; [done|].
  unfold request_checks in Hin.
  repeat (apply elem_of_cons in Hin as [[= -> Hok _]|Hin]); [..|by apply not_elem_of_nil in Hin];
    symmetry in Hok; match goal with H : str_is ?tag _ = true |- _ => eapply (has_union "type" tag); [reflexivity|] end;
    typed.
Qed.
End Sound.

#[export] Hint Resolve titleRef_sound tv_sound episodeRef_sound downloadTarget_sound downloadTitle_sound
  downloadRelease_sound serviceRef_sound webUrl_sound serviceBase_sound retainedBillboardScope_sound
  retained_why_sound positiveIntegerList_sound why_field retainedBillboardTitle_sound isRetainedBillboard_sound
  addon_sound route_entry_sound isRetainedServices_sound subtitle_preference_sound storedPreferenceValues_sound
  ratings_sound services_sound preferencesPatch_sound server_value_sound credentials_sound command_sound
  selection_sound historyFilter_sound history_shows_sound query_sound import_episode_sound import_item_sound
  membership_sound member_sound assistantConnectionValues_sound connection_row_sound assistantConnection_sound
  queue_message_sound scalar_text_sound task_sound shape_season_sound shape_last_sound airing_episode_sound
  airing_series_sound observation_sound legacyClock_sound wire_sound : codec.
