(* ===== verification/CodecReply.v ===== *)
(** * What the library service answers, as it is checked ([web/src/lib/libraryServiceProtocolCodec.ts])

    The other half of the codec: every reply is checked before a page acts on it, and again by the worker that
    publishes it. Views, query results, task results, session states, and the replies around them. *)

From S2P Require Import Prelude JsMap JsText Json Wire ProfileKeys JsValue Codec.
Open Scope Z_scope.

(** ** Limits and patterns *)

Definition downloadSources : Z := 512.
Definition historyDetailEpisodes : Z := 100000.
Definition profileEntries : Z := 64.

Definition standing (v : value) : bool := str_in ["watchlist"; "in-progress"; "watched"] v.
Definition playKey (v : value) : bool := str_test (chars url64_char 43) v.
Definition avatar_name (v : value) : bool := str_test (chars_between url64_char 1 64) v.
Definition age (v : value) : bool := integer v && int_between 0 18 v.
Definition unit_interval (v : value) : bool := finite v && at_least 0 v && at_most 1 v.
Definition non_negative (v : value) : bool := finite v && at_least 0 v.
Definition empty_list (v : value) : bool := (length (items v) =? 0)%nat.
Definition id_of (v : value) : string := js_string (member v "id").
Definition title_of (v : value) : string := titleIdentity (member v "title").
Definition coordinate_of (v : value) : string := js_string (member v "season") +:+ ":" +:+ js_string (member v "episode").

(** [{ season, episode }] with an episode past zero. *)
Definition coordinate (v : value) : bool :=
  record v && exact v ",season,episode," && integer (member v "season") && positiveInteger (member v "episode").

(** A member that only a series has. *)
Definition only_tv (v : value) (name : string) : bool := is_undefined (member v name) || is_tv (member v "title").

Section Reply.
Context `{CodecApi}.

(** ** Titles named for the library *)

Definition isLibraryMetadataTitle (v : value) : bool :=
  record v &&
  exact v ",type,id,title,posterPath,backdropPath,year,releaseDate,rating,ratingSource,votes,popularity,countries,people,collectionId,genreIds,originalLanguage,adult,imdbId," &&
  titleRef (Obj [("type", member v "type"); ("id", member v "id")]) && boundedText (member v "title") 1024 &&
  optional (member v "posterPath") smallText && optional (member v "backdropPath") smallText &&
  optional (member v "year") integer && optional (member v "releaseDate") day && optional (member v "rating") finite &&
  optional (member v "ratingSource") (str_is "tmdb") && optional (member v "votes") integer &&
  optional (member v "popularity") finite &&
  optional (member v "countries") (fun c => list_ c countryCode 32 && unique c js_string) &&
  optional (member v "people") (fun c => positiveIntegerList c 256) &&
  optional (member v "collectionId") positiveInteger &&
  optional (member v "genreIds") (fun c => positiveIntegerList c 256) &&
  optional (member v "originalLanguage") languageCode && optional (member v "adult") bool_ &&
  optional (member v "imdbId") (str_test imdb_text).

Definition libraryMetadataShape (v : value) : bool :=
  record v && exact v ",title,seasons,lastAired," && titleRef (member v "title") && is_tv (member v "title") &&
  list_ (member v "seasons") shape_season shapeSeasons &&
  unique (member v "seasons") (fun s => js_string (member s "season")) &&
  optional (member v "lastAired") shape_last &&
  (is_undefined (member v "lastAired") || last_within (member v "seasons") (member v "lastAired")).

(** ** Views *)

Definition version (v : value) : bool :=
  record v && exact v ",instance,generation,revision," && text (member v "instance") &&
  nullable (member v "generation") text && integer (member v "revision").

Definition progress (v : value) : bool :=
  record v && exact v ",fraction,seconds,playing,updatedAt," && unit_interval (member v "fraction") &&
  optional (member v "seconds") finite && optional (member v "playing") bool_ && optional (member v "updatedAt") integer.

Definition continueItem (v : value) : bool :=
  record v &&
  exact v ",title,fraction,episode,upcoming,seconds,playing,updatedAt,liveEpisode,liveFraction,device,deviceId,here," &&
  titleRef (member v "title") && optional (member v "upcoming") day &&
  (is_undefined (member v "upcoming") || negb (is_undefined (member v "episode"))) &&
  optional (member v "here") is_true && unit_interval (member v "fraction") &&
  optional (member v "episode") coordinate && only_tv v "episode" &&
  optional (member v "liveEpisode") coordinate && only_tv v "liveEpisode" &&
  optional (member v "liveFraction") unit_interval && optional (member v "seconds") finite &&
  optional (member v "playing") bool_ && optional (member v "updatedAt") integer && optional (member v "device") text &&
  optional (member v "deviceId") (str_test (hex_of 16)).

Definition historyItem (v : value) : bool :=
  record v && titleRef (member v "title") && exact v ",title,watchedAt,episode,episodes," &&
  integer (member v "watchedAt") && optional (member v "episode") coordinate && only_tv v "episode" &&
  integer (member v "episodes") && (is_tv (member v "title") || int_between 0 0 (member v "episodes")).

Definition facet_year (v : value) : bool :=
  record v && exact v ",year,all,movie,tv," && str_test year_text (member v "year") && integer (member v "all") &&
  integer (member v "movie") && integer (member v "tv").

Definition historyFacets (v : value) : bool :=
  record v && exact v ",all,movie,tv,years," && integer (member v "all") && integer (member v "movie") &&
  integer (member v "tv") && list_ (member v "years") facet_year collectionItems.

Definition historyPage (v : value) : bool :=
  record v && exact v ",kind,total,items,filter,facets,revision,nextCursor," && text (member v "revision") &&
  historyFilter (member v "filter") && integer (member v "total") && historyFacets (member v "facets") &&
  list_ (member v "items") historyItem 96 && unique (member v "items") title_of &&
  optional (member v "nextCursor") text.

Definition view_release (v : value) : bool :=
  record v && exact v ",identity,label,sizeBytes,cached," && boundedText (member v "identity") 4096 &&
  boundedText (member v "label") 4096 && optional (member v "sizeBytes") positiveInteger &&
  optional (member v "cached") bool_.

Definition downloadFetch (v : value) : bool :=
  record v && exact v ",state,seeds,peers,service," &&
  optional (member v "state") (str_in ["queued"; "fetching"; "downloading"; "stalled"; "failed"]) &&
  optional (member v "seeds") integer && optional (member v "peers") integer &&
  optional (member v "service") (fun c => boundedText c 256).

Definition queued_by (v : value) : bool :=
  record v && exact v ",device,name,isSelf," && boundedText (member v "device") 256 && bool_ (member v "isSelf") &&
  optional (member v "name") (fun c => boundedText c 256).

Definition download_status (v : value) : bool :=
  record v && exact v ",state,phase,fraction,progressAt,etaSeconds,bytesPerSecond,fetch,service,until,stalled," &&
  str_in ["starting"; "fetching"; "not-started"; "refused"; "paused"; "unreachable"; "ready"; "no-working-release";
    "awaiting-air"; "release-gone"] (member v "state") &&
  str_in ["queued"; "downloading"; "trouble"; "ready"] (member v "phase") &&
  optional (member v "fraction") unit_interval && optional (member v "progressAt") integer &&
  optional (member v "etaSeconds") non_negative && optional (member v "bytesPerSecond") non_negative &&
  optional (member v "fetch") downloadFetch && optional (member v "service") (fun c => boundedText c 256) &&
  optional (member v "until") integer && bool_ (member v "stalled").

Definition download (v : value) : bool :=
  record v &&
  exact v ",content,title,name,imdbId,season,episode,posterPath,stillPath,queuedAt,queuedBy,release,alternate,status,tried,candidates,announced," &&
  text (member v "content") && titleRef (member v "title") && boundedText (member v "name") 1024 &&
  optional (member v "imdbId") (fun c => boundedText c 128) && optional (member v "season") integer &&
  optional (member v "episode") integer &&
  Bool.eqb (is_undefined (member v "season")) (is_undefined (member v "episode")) && only_tv v "season" &&
  optional (member v "posterPath") (fun c => boundedText c 2048) &&
  optional (member v "stillPath") (fun c => boundedText c 2048) && integer (member v "queuedAt") &&
  queued_by (member v "queuedBy") && optional (member v "release") view_release &&
  optional (member v "alternate") view_release && download_status (member v "status") && integer (member v "tried") &&
  optional (member v "candidates") positiveInteger && bool_ (member v "announced").

Definition preferencesView (v : value) : bool :=
  record v &&
  exact v ",interfaceLanguage,excludedGenres,excludedLanguages,hideAnime,hideWatched,minReleaseYear,audioLanguage,subtitleLanguage,hasExplicitSubtitlePreference,shownSubtitleLanguages,subtitlesPerLanguage,autoSkipSegments,autoplayTrailers,ratingSources,shownWarnings,watchRegion,services,servicesConfigured,maturityCeiling," &&
  optional (member v "interfaceLanguage") (str_in ["en"; "es"; "sv"]) &&
  list_ (member v "excludedGenres") positiveInteger PROFILE_GENRE_LIMIT && unique (member v "excludedGenres") js_string &&
  list_ (member v "excludedLanguages") languageCode PROFILE_LANGUAGE_LIMIT &&
  unique (member v "excludedLanguages") js_string && bool_ (member v "hideAnime") && bool_ (member v "hideWatched") &&
  optional (member v "minReleaseYear") (fun c => integer c && isProfileYear c) &&
  optional (member v "audioLanguage") languageCode && optional (member v "subtitleLanguage") languageCode &&
  optional (member v "hasExplicitSubtitlePreference") bool_ &&
  list_ (member v "shownSubtitleLanguages") languageCode PROFILE_LANGUAGE_LIMIT &&
  unique (member v "shownSubtitleLanguages") js_string && isProfileSubtitleLimit (member v "subtitlesPerLanguage") &&
  bool_ (member v "autoSkipSegments") && bool_ (member v "autoplayTrailers") &&
  list_ (member v "ratingSources") ratingSource (count PROFILE_RATING_SOURCES) &&
  unique (member v "ratingSources") js_string &&
  list_ (member v "shownWarnings") (str_in PROFILE_WARNING_CATEGORIES) (count PROFILE_WARNING_CATEGORIES) &&
  unique (member v "shownWarnings") js_string && optional (member v "watchRegion") countryCode &&
  list_ (member v "services") serviceRef PROFILE_SERVICE_LIMIT && unique (member v "services") service_identity &&
  bool_ (member v "servicesConfigured") && (is_true (member v "servicesConfigured") || empty_list (member v "services")) &&
  optional (member v "maturityCeiling") (str_in ["pg13"; "r"]).

Definition libraryDevice (v : value) : bool :=
  record v && exact v ",id,name,kind,lastSeenAt,libraryFormat,playKey,controlVersion,playedAt," &&
  boundedText (member v "id") 128 && boundedText (member v "name") 256 && str_in ["tv"; "browser"] (member v "kind") &&
  optional (member v "lastSeenAt") integer && optional (member v "libraryFormat") integer &&
  optional (member v "playKey") playKey && optional (member v "controlVersion") positiveInteger &&
  optional (member v "playedAt") integer.

Definition masked_key (v : value) : bool :=
  record v && exact v ",configured,masked," && is_true (member v "configured") && boundedText (member v "masked") 32.

Definition approving_device (v : value) : bool :=
  record v && exact v ",id,name," && boundedText (member v "id") 128 && boundedText (member v "name") 256.

Definition plugin (v : value) : bool :=
  record v && exact v ",manifestUrl,signingKey,pendingApprovalOn," && webUrl (member v "manifestUrl") &&
  optional (member v "signingKey") (fun c => boundedText c 256) &&
  list_ (member v "pendingApprovalOn") approving_device 512 && unique (member v "pendingApprovalOn") id_of.

Definition server (v : value) : bool :=
  record v && exact v ",kind,url,user," && mediaServer (member v "kind") && webUrl (member v "url") &&
  optional (member v "user") (fun c => boundedText c 4096) &&
  (str_is "jellyfin" (member v "kind") || is_undefined (member v "user")).

Definition diagnostics (v : value) : bool :=
  record v && exact v ",libraryFormat,pendingChanges,selfDeviceId,profileTopology," &&
  optional (member v "profileTopology") bool_ && integer (member v "libraryFormat") &&
  integer (member v "pendingChanges") && boundedText (member v "selfDeviceId") 128.

Definition connectionsView (v : value) : bool :=
  record v &&
  exact v ",kind,apiKeys,parentalPinConfigured,parentalPinDelivery,remoteAccessConfigured,plugins,servers,devices,diagnostics," &&
  str_is "connections" (member v "kind") && record (member v "apiKeys") &&
  exact (member v "apiKeys") ",tmdb,omdb,content-warnings," && forallb masked_key (values_of (member v "apiKeys")) &&
  bool_ (member v "parentalPinConfigured") && str_in ["synced"; "queued"; "local"] (member v "parentalPinDelivery") &&
  bool_ (member v "remoteAccessConfigured") && list_ (member v "plugins") plugin 10000 &&
  unique (member v "plugins") (fun p => js_string (member p "manifestUrl")) && list_ (member v "servers") server 2 &&
  unique (member v "servers") (fun s => js_string (member s "kind")) && list_ (member v "devices") libraryDevice 512 &&
  unique (member v "devices") id_of && diagnostics (member v "diagnostics").

Definition devicesView (v : value) : bool :=
  record v && exact v ",kind,devices," && str_is "devices" (member v "kind") &&
  list_ (member v "devices") libraryDevice 512 && unique (member v "devices") id_of.

Definition simklView (v : value) : bool :=
  record v && exact v ",kind,connected,account,heldRemovals,approvalId," && str_is "simkl" (member v "kind") &&
  bool_ (member v "connected") && optional (member v "account") (fun c => boundedText c 256) &&
  list_ (member v "heldRemovals") titleRef 10000 && unique (member v "heldRemovals") titleIdentity &&
  optional (member v "approvalId") (fun c => boundedText c 256) &&
  (is_true (member v "connected") ||
   (is_undefined (member v "account") && empty_list (member v "heldRemovals") && is_undefined (member v "approvalId"))) &&
  Bool.eqb (negb (empty_list (member v "heldRemovals"))) (negb (is_undefined (member v "approvalId"))).

Definition episodeProgress (v : value) : bool :=
  record v && exact v ",season,episode,watched,fraction,seconds,updatedAt," && integer (member v "season") &&
  positiveInteger (member v "episode") && bool_ (member v "watched") && unit_interval (member v "fraction") &&
  optional (member v "seconds") finite && optional (member v "updatedAt") integer.

Definition title_standing (v : value) : bool :=
  record v && exact v ",title,standing," && titleRef (member v "title") && standing (member v "standing").

Definition title_weight (v : value) : bool :=
  record v && exact v ",title,weight,updatedAt," && titleRef (member v "title") && finite (member v "weight") &&
  integer (member v "updatedAt").

Definition recommendation_seeds (v : value) : bool :=
  record v && exact v ",watched,watchlisted," && list_ (member v "watched") titleRef collectionItems &&
  list_ (member v "watchlisted") titleRef collectionItems.

Definition recommendationFields (v : value) : bool :=
  list_ (member v "owned") titleRef collectionItems && list_ (member v "watched") titleRef collectionItems &&
  list_ (member v "standings") title_standing collectionItems &&
  list_ (member v "weighted") title_weight collectionItems && recommendation_seeds (member v "seeds").

Definition profile_policy (v : value) : bool :=
  record v && exact v ",maximumAge,unknownRatings," && nullable (member v "maximumAge") age &&
  str_in ["allow"; "block"] (member v "unknownRatings").

Definition profile_entry (v : value) : bool :=
  record v && exact v ",id,role,name,avatar,libraryKey,keyVersion,policy,approvals,deleted," && hexId (member v "id") &&
  str_in ["owner"; "kid"; "adult"] (member v "role") && boundedText (member v "name") 256 &&
  optional (member v "avatar") avatar_name && libraryKey (member v "libraryKey") &&
  positiveInteger (member v "keyVersion") && profile_policy (member v "policy") &&
  optional (member v "approvals") (fun c => list_ c titleRef 10000 && unique c titleIdentity) &&
  bool_ (member v "deleted").

Definition profileDirectoryView (v : value) : bool :=
  record v && exact v ",kind,state,owner,profiles," && str_is "profiles" (member v "kind") &&
  str_in ["absent"; "invalid"; "present"; "pending"] (member v "state") && nullable (member v "owner") hexId &&
  list_ (member v "profiles") profile_entry profileEntries && unique (member v "profiles") id_of &&
  (is_null (member v "owner") ||
   existsb (fun p => String.eqb (id_of p) (js_string (member v "owner"))) (items (member v "profiles"))).

Definition presence_item (v : value) : bool :=
  record v && exact v ",title,standing,reaction," && titleRef (member v "title") &&
  nullable (member v "standing") standing && nullable (member v "reaction") reaction.

Definition assistant_needs (v : value) : bool :=
  record v && exact v ",write,read," && bool_ (member v "write") && bool_ (member v "read").

Definition recovery_live (v : value) : bool :=
  record v && exact v ",createdAt,by,byName,opens,lastOpenedAt,reposted," && integer (member v "createdAt") &&
  boundedText (member v "by") 128 && boundedText (member v "byName") 256 && integer (member v "opens") &&
  nullable (member v "lastOpenedAt") integer && bool_ (member v "reposted").

Definition selectionValue (v : value) : bool :=
  by_kind v
    [(["watchlist"], exact v ",kind,titles," && list_ (member v "titles") titleRef collectionItems);
     (["recommendations"], exact v ",kind,owned,watched,standings,weighted,seeds," && recommendationFields v);
     (["overview"],
      exact v ",kind,owned,watched,watchlist,standings,weighted,seeds," &&
      list_ (member v "watchlist") titleRef collectionItems && recommendationFields v);
     (["continue"],
      exact v ",kind,items,needsShapes,caughtUp,dismissed," && list_ (member v "items") continueItem collectionItems &&
      list_ (member v "needsShapes") titleRef collectionItems && forallb is_tv (items (member v "needsShapes")) &&
      optional (member v "caughtUp") (fun c => list_ c titleRef collectionItems) &&
      optional (member v "dismissed") (fun c => list_ c titleRef collectionItems) &&
      unique (member v "items") title_of && unique (member v "needsShapes") titleIdentity);
     (["history"], exact v ",kind,total,items,filter,facets,revision,nextCursor," && historyPage v);
     (["title"],
      exact v ",kind,title,listed,watched,reaction,standing,progress,episodes," && titleRef (member v "title") &&
      bool_ (member v "listed") && bool_ (member v "watched") && nullable (member v "reaction") reaction &&
      nullable (member v "standing") standing && nullable (member v "progress") progress &&
      list_ (member v "episodes") episodeProgress collectionItems && unique (member v "episodes") coordinate_of);
     (["presence"],
      exact v ",kind,items," && list_ (member v "items") presence_item presenceTitles &&
      unique (member v "items") title_of);
     (["settings"],
      exact v ",kind,preferences,assistant," && preferencesView (member v "preferences") &&
      assistant_needs (member v "assistant"));
     (["devices"], devicesView v);
     (["profiles"], profileDirectoryView v);
     (["connections"], connectionsView v);
     (["simkl"], simklView v);
     (["recovery"],
      exact v ",kind,availability,live,broken,notices," && str_in ["ready"; "waits"] (member v "availability") &&
      nullable (member v "live") recovery_live && bool_ (member v "broken") &&
      list_ (member v "notices") (fun c => boundedText c 4096) 32);
     (["runtime"],
      exact v ",kind,pluginManifestUrls,privateRemuxUrl," && list_ (member v "pluginManifestUrls") webUrl 10000 &&
      unique (member v "pluginManifestUrls") js_string && nullable (member v "privateRemuxUrl") webUrl);
     (["downloads"], exact v ",kind,items," && list_ (member v "items") download collectionItems)].

(** ** Query results *)

(** A grant as den-core lists it. *)
Definition assistantGrant (v : value) : bool :=
  record v && exact v ",grant,client,ops,cap,createdAt,expiresAt,revokedAt,state," && hexId (member v "grant") &&
  str_in ["active"; "expired"; "revoked"; "newer"; "malformed"] (member v "state") &&
  optional (member v "client") (fun c => boundedText c 256) &&
  optional (member v "ops") (fun c => list_ c (fun op => boundedText op 64) 16) && optional (member v "cap") integer &&
  optional (member v "createdAt") integer && optional (member v "expiresAt") integer &&
  optional (member v "revokedAt") (fun c => nullable c integer).

Definition export_play (v : value) : bool :=
  record v && exact v ",watchedAt,rewatch,source," && nullable (member v "watchedAt") (fun c => boundedText c 64) &&
  bool_ (member v "rewatch") && str_in ["den"; "import"] (member v "source").

Definition exportPlays (v : value) : bool := list_ v export_play collectionItems.

Definition export_episode (v : value) : bool :=
  record v && exact v ",season,episode,plays," && integer (member v "season") && integer (member v "episode") &&
  exportPlays (member v "plays").

Definition export_title (v : value) : bool :=
  record v && exact v ",type,tmdbId,status,reaction,addedAt,plays,episodes," &&
  str_in ["movie"; "tv"] (member v "type") && positiveInteger (member v "tmdbId") &&
  str_in ["none"; "watchlist"; "inProgress"; "watched"] (member v "status") && nullable (member v "reaction") reaction &&
  nullable (member v "addedAt") (fun c => boundedText c 64) && optional (member v "plays") exportPlays &&
  optional (member v "episodes") (fun c => list_ c export_episode collectionItems).

Definition seen_series (v : value) : bool :=
  record v && exact v ",title,seen," && titleRef (member v "title") && is_tv (member v "title") &&
  list_ (member v "seen") coordinate historyDetailEpisodes && unique (member v "seen") coordinate_of.

(** The episodes of all series. *)
Definition seen_total (v : value) : Z :=
  foldl (fun total item => total + count (items (member item "seen"))) 0 (items v).

Definition download_source (v : value) : bool :=
  record v && exact v ",identity,label,filename,sizeBytes,cached,seeders,packSizeBytes,badges,languages,probed," &&
  boundedText (member v "identity") 4096 && boundedText (member v "label") 4096 &&
  boundedText (member v "filename") 4096 && optional (member v "sizeBytes") positiveInteger &&
  optional (member v "cached") bool_ && optional (member v "seeders") integer &&
  optional (member v "packSizeBytes") positiveInteger && list_ (member v "badges") (fun c => boundedText c 256) 32 &&
  list_ (member v "languages") (fun c => boundedText c 64) 64 && bool_ (member v "probed").

Definition download_answer (v : value) : bool :=
  record v && exact v ",kind,missing,late,outageBuiltAt," &&
  str_in ["live"; "partial"; "empty"; "unknown"; "stale"] (member v "kind") && integer (member v "missing") &&
  optional (member v "late") integer && optional (member v "outageBuiltAt") integer.

Definition playback_resume (v : value) : bool :=
  record v && exact v ",fraction,seconds," && unit_interval (member v "fraction") &&
  optional (member v "seconds") finite && is_undefined (member v "updatedAt").

Definition queryResult (v : value) : bool :=
  by_kind v
    [(["parental-pin.verify"], exact v ",kind,matches," && bool_ (member v "matches"));
     (["profile-create.status"],
      exact v ",kind,phase,profile,name,maximumAge,receipt," &&
      if str_is "idle" (member v "phase")
      then is_undefined (member v "profile") && is_undefined (member v "name") &&
           is_undefined (member v "maximumAge") && is_undefined (member v "receipt")
      else str_is "created" (member v "phase") && hexId (member v "profile") && boundedScalarText (member v "name") 64 &&
           age (member v "maximumAge") && boundedText (member v "receipt") 256);
     (["assistant.grants"],
      exact v ",kind,grants,reads,plays," && list_ (member v "grants") assistantGrant collectionItems &&
      list_ (member v "reads") assistantGrant collectionItems && list_ (member v "plays") assistantGrant collectionItems);
     (["library.metadata"],
      exact v ",kind,titles,shapes,retryable,retryAfterMs," &&
      list_ (member v "titles") isLibraryMetadataTitle libraryMetadataTitles && unique (member v "titles") titleIdentity &&
      list_ (member v "shapes") libraryMetadataShape libraryMetadataTitles && unique (member v "shapes") title_of &&
      list_ (member v "retryable") titleRef libraryMetadataTitles && unique (member v "retryable") titleIdentity &&
      optional (member v "retryAfterMs") positiveInteger);
     (["relay.membership"], exact v ",kind,capability," && relayMembership (member v "capability"));
     (["assistant.connection"], exact v ",kind,connection," && nullable (member v "connection") assistantConnection);
     (["key-reset.prepare"],
      exact v ",kind,destinationLibraryKey,device," && libraryKey (member v "destinationLibraryKey") &&
      str_test (hex_of 16) (member v "device"));
     (["recovery.seal"], exact v ",kind,sealed," && boundedText (member v "sealed") 4096);
     (["pairing.handover"],
      exact v ",kind,sealed,linkKey,inboxKey," && boundedText (member v "sealed") 4096 &&
      base64url32 (member v "linkKey") && boundedText (member v "inboxKey") 256);
     (["history.export"],
      exact v ",kind,exportedAt,titles," && boundedText (member v "exportedAt") 64 &&
      list_ (member v "titles") export_title collectionItems);
     (["history.page"],
      exact v ",kind,restarted,page," && bool_ (member v "restarted") && historyPage (member v "page"));
     (["history.episodes"],
      exact v ",kind,revision,stale,items," && text (member v "revision") && bool_ (member v "stale") &&
      list_ (member v "items") seen_series historyDetailTitles && unique (member v "items") title_of &&
      (seen_total (member v "items") <=? historyDetailEpisodes));
     (["download.refresh"], exact v ",kind,refreshed," && bool_ (member v "refreshed"));
     (["download.sources"],
      exact v ",kind,sources,answer,fresh,failure," &&
      nullable (member v "sources") (fun c => list_ c download_source downloadSources) &&
      optional (member v "answer") download_answer && optional (member v "fresh") (str_in ["rebuilt"; "limited"]) &&
      optional (member v "failure") (str_in ["not-configured"; "unmatched"; "unreachable"]) &&
      (is_undefined (member v "failure") || is_null (member v "sources")));
     (["download.artwork"],
      exact v ",kind,stillPath," && nullable (member v "stillPath") (fun c => boundedText c 2048));
     (["preferences.raw"], exact v ",kind,values," && storedPreferenceValues (member v "values"));
     (["retained.services"], exact v ",kind,value," && nullable (member v "value") isRetainedServices);
     (["retained.home-continue"], exact v ",kind,present," && nullable (member v "present") bool_);
     (["retained.billboard"],
      exact v ",kind,scope,value," && retainedBillboardScope (member v "scope") &&
      nullable (member v "value") isRetainedBillboard &&
      (is_null (member v "value") ||
       String.eqb (js_string (member (member v "scope") "kind")) (js_string (member (member v "value") "kind"))));
     (["playback.prepare"],
      exact v ",kind,action,target,resume," && str_in ["start"; "resume"; "next"] (member v "action") &&
      downloadTarget (member v "target") && nullable (member v "resume") playback_resume)].

(** ** Task results *)

Definition assistantApplied (v : value) : bool :=
  record v && integer (member v "seq") &&
  if str_is "rejected" (member v "outcome")
  then exact v ",seq,outcome,reason," && boundedText (member v "reason") 64
  else str_is "accepted" (member v "outcome") && exact v ",seq,outcome,op,title,season,episode,detail," &&
       str_in ["watchlist_add"; "watchlist_remove"; "seen"; "rate"; "play"; "play_trailer"] (member v "op") &&
       titleRef (member v "title") && optional (member v "season") integer && optional (member v "episode") integer &&
       boundedText (member v "detail") 256.

Definition dropbox (v : value) : bool :=
  record v && exact v ",kid,public," && hexId (member v "kid") && boundedText (member v "public") 2048.

(** [exact(value, ',kind,outcome,')] and one of the outcomes. *)
Definition outcome_in (v : value) (outcomes : list string) : bool :=
  exact v ",kind,outcome," && str_in outcomes (member v "outcome").

Definition at_most_total (v : value) : bool :=
  match safe_int (member v "written"), safe_int (member v "total") with Some w, Some t => w <=? t | _, _ => false end.

Definition taskResult (v : value) : bool :=
  by_kind v
    [(["recovery.begin"], outcome_in v ["begun"; "full"; "taken"; "waits"; "failed"]);
     (["recovery.confirm"; "recovery.abandon"],
      exact v ",kind,outcome," &&
      (str_in ["confirmed"; "lost"; "failed"] (member v "outcome") ||
       (str_is "recovery.abandon" (member v "kind") && str_is "abandoned" (member v "outcome"))));
     (["recovery.disable"], outcome_in v ["disabled"]);
     (["history.import"],
      exact v ",kind,written,total,complete," && integer (member v "written") && integer (member v "total") &&
      at_most_total v && bool_ (member v "complete"));
     (["local-library.merge"],
      exact v ",kind,outcome,retryAfterMs,held," &&
      str_in ["merged"; "absent"; "unavailable"; "unverified"] (member v "outcome") &&
      optional (member v "retryAfterMs") integer && optional (member v "held") integer);
     (["household.create"],
      exact v ",kind,outcome,retryAfterMs," &&
      str_in ["created"; "refused"; "throttled"; "unavailable"; "empty"] (member v "outcome") &&
      optional (member v "retryAfterMs") integer);
     (["profile.create-default"], outcome_in v ["created"; "present"]);
     (["household.join"],
      exact v ",kind,outcome,owner,kids," &&
      if str_is "joined" (member v "outcome")
      then nullable (member v "owner") hexId && record (member v "kids") && (count (keys_of (member v "kids")) <=? 64) &&
           every_entry (fun from to => hexId (Str from) && hexId to) (member v "kids")
      else str_in ["pin-required"; "pin-wrong"; "refused-kids"; "unavailable"] (member v "outcome") &&
           is_undefined (member v "owner") && is_undefined (member v "kids"));
     (["key-reset.move"; "key-reset.settle"; "key-reset.adopt"],
      outcome_in v ["moved"; "adopted"; "undone"; "held"; "foreign"; "unknown"; "update-required"; "profiles-active";
        "unavailable"]);
     (["assistant.consent"],
      exact v ",kind,grant,key,readKey," && hexId (member v "grant") && boundedText (member v "key") 64 &&
      optional (member v "readKey") (fun c => boundedText c 64));
     (["assistant.revoke"], outcome_in v ["revoked"; "absent"]);
     (["assistant.publish"], exact v ",kind,published," && integer (member v "published"));
     (["assistant.renew"], exact v ",kind,renewed," && integer (member v "renewed"));
     (["assistant.apply"],
      exact v ",kind,results,ack,dropbox," && list_ (member v "results") assistantApplied ASSISTANT_DRAIN_MAX &&
      nullable (member v "ack") integer && nullable (member v "dropbox") dropbox);
     (["profile.create"],
      exact v ",kind,outcome,profile,name,maximumAge,receipt," && str_is "created" (member v "outcome") &&
      hexId (member v "profile") && boundedScalarText (member v "name") 64 && age (member v "maximumAge") &&
      boundedText (member v "receipt") 256);
     (["profile.create.ack"], outcome_in v ["acknowledged"]);
     (["profile.policy.set"; "kid-title-approval.set"], outcome_in v ["changed"; "unchanged"]);
     (["profile-key-reset.start"; "profile-key-reset.resume"; "profile-key-reset.confirm"; "profile-key-reset.recover"],
      outcome_in v ["install"; "complete"; "aborted"; "waiting"; "none"; "retired"; "blocked"; "unavailable"])].

(** ** Replies *)

Definition failure (v : value) : bool :=
  record v && exact v ",code,message,retryable,expectedProtocol,requiredWire," &&
  str_in ["protocol-mismatch"; "invalid-request"; "not-ready"; "conflict"; "unauthorized"; "not-found"; "refused";
    "read-only"; "moved"; "storage"; "update-required"; "unavailable"; "cancelled"; "internal"] (member v "code") &&
  text (member v "message") && bool_ (member v "retryable") && optional (member v "expectedProtocol") integer &&
  optional (member v "requiredWire") integer.

Definition sessionStatus (v : value) : bool :=
  by_kind v
    [(["ready"], exact v ",kind,version," && version (member v "version"));
     (["reconnecting"], exact v ",kind,version," && nullable (member v "version") version);
     (["read-only"], exact v ",kind,version,reason," && version (member v "version") && text (member v "reason"));
     (["moved"], exact v ",kind,successor," && optional (member v "successor") text);
     (["failed"], exact v ",kind,error," && failure (member v "error"))].

(** What each type of reply must hold, and what is reported when it does not. *)
Definition reply_checks (v : value) : list (string * bool * string) :=
  let id := text (member v "requestId") in
  let subscription := text (member v "subscriptionId") in
  let operation := text (member v "operationId") in
  [("ready",
    exact v ",type,protocol,requestId,relayMembership,version," && id && relayMembership (member v "relayMembership") &&
    version (member v "version"), "ready reply is invalid");
   ("command-result",
    exact v ",type,protocol,requestId,operationId,outcome,delivery,version," && id && operation &&
    str_in ["applied"; "unchanged"] (member v "outcome") && str_in ["synced"; "queued"; "local"] (member v "delivery") &&
    version (member v "version"), "command result is invalid");
   ("task-result",
    exact v ",type,protocol,requestId,operationId,result,version," && id && operation &&
    taskResult (member v "result") && version (member v "version"), "task result is invalid");
   ("query-result",
    exact v ",type,protocol,requestId,result,version," && id && queryResult (member v "result") &&
    version (member v "version"), "query result is invalid");
   ("subscribed",
    exact v ",type,protocol,requestId,subscriptionId,version," && id && subscription && version (member v "version"),
    "subscribed reply is invalid");
   ("unsubscribed",
    exact v ",type,protocol,requestId,subscriptionId," && id && subscription, "unsubscribed reply is invalid");
   ("observed",
    exact v ",type,protocol,requestId,version," && id && version (member v "version"), "observed reply is invalid");
   ("status", exact v ",type,protocol,status," && sessionStatus (member v "status"), "session status is invalid");
   ("opening",
    exact v ",type,protocol,requestId,progress," && id && at_least 0 (member v "progress") &&
    at_most 1 (member v "progress"), "opening progress is invalid");
   ("update",
    exact v ",type,protocol,subscriptionId,version,value," && subscription && version (member v "version") &&
    selectionValue (member v "value"), "subscription update is invalid");
   ("error",
    exact v ",type,protocol,requestId,subscriptionId,error," && optional (member v "requestId") text &&
    optional (member v "subscriptionId") text && failure (member v "error"), "error reply is invalid")].

Definition decodeLibraryServiceServerMessage (input : value) : Decoded :=
  if negb (record input) then invalid "library service reply must be an object"
  else match protocol input with
  | Some mismatch => mismatch
  | None =>
      if negb (text (member input "type")) then invalid "reply type is required"
      else
        let type := js_string (member input "type") in
        match list_find (fun c => c.1.1 = type) (reply_checks input) with
        | Some (_, (_, ok, message)) => if ok : bool then inr input else invalid message
        | None => invalid ("unknown reply type " +:+ type)
        end
  end.
End Reply.
