(* ===== verification/CodecReplyTypes.v ===== *)
(** * What the library service answers, as it is declared ([web/src/lib/libraryServiceProtocol.ts])

    The TypeScript types of a reply, in the types of [CodecTypes]. *)

From S2P Require Import Prelude JsMap JsText Json Wire JsValue Codec CodecTypes.
Open Scope Z_scope.

(** ** Views *)

Definition Standing : ty := TTexts ["watchlist"; "in-progress"; "watched"].

Definition LibraryMetadataTitle : ty :=
  TFields ["type" ::: MediaType; "id" ::: TNumber; "title" ::: TString; "posterPath" ?:: TString;
    "backdropPath" ?:: TString; "year" ?:: TNumber; "releaseDate" ?:: TString; "rating" ?:: TNumber;
    "ratingSource" ?:: TText "tmdb"; "votes" ?:: TNumber; "popularity" ?:: TNumber; "countries" ?:: TArray TString;
    "people" ?:: TArray TNumber; "collectionId" ?:: TNumber; "genreIds" ?:: TArray TNumber;
    "originalLanguage" ?:: TString; "adult" ?:: TBoolean; "imdbId" ?:: TString].

Definition Coordinate : ty := TFields ["season" ::: TNumber; "episode" ::: TNumber].

Definition LibraryMetadataShape : ty :=
  TFields ["title" ::: TitleOf "tv"; "seasons" ::: TArray (TFields ["season" ::: TNumber; "episodes" ::: TNumber]);
    "lastAired" ?:: Coordinate].

Definition RuntimeDiscoveryView : ty :=
  TFields ["kind" ::: TText "runtime"; "pluginManifestUrls" ::: TArray TString; "privateRemuxUrl" ::: TNullable TString].

Definition LibraryVersion : ty :=
  TFields ["instance" ::: TString; "generation" ::: TNullable TString; "revision" ::: TNumber].

Definition ProfileDirectoryView : ty :=
  TFields ["kind" ::: TText "profiles"; "state" ::: TTexts ["absent"; "invalid"; "present"; "pending"];
    "owner" ::: TNullable TString;
    "profiles" ::: TArray (TFields ["id" ::: TString; "role" ::: TTexts ["owner"; "kid"; "adult"]; "name" ::: TString;
      "avatar" ?:: TString; "libraryKey" ::: TString; "keyVersion" ::: TNumber;
      "policy" ::: TFields ["maximumAge" ::: TNullable TNumber; "unknownRatings" ::: TTexts ["allow"; "block"]];
      "approvals" ?:: TArray TitleRef; "deleted" ::: TBoolean])].

(** The members a recommendation view and the overview share. *)
Definition recommendation_members : list (string * bool * ty) :=
  ["owned" ::: TArray TitleRef; "watched" ::: TArray TitleRef;
   "standings" ::: TArray (TFields ["title" ::: TitleRef; "standing" ::: Standing]);
   "weighted" ::: TArray (TFields ["title" ::: TitleRef; "weight" ::: TNumber; "updatedAt" ::: TNumber]);
   "seeds" ::: TFields ["watched" ::: TArray TitleRef; "watchlisted" ::: TArray TitleRef]].

Definition LibraryOverviewView : ty :=
  TFields (["kind" ::: TText "overview"; "watchlist" ::: TArray TitleRef] ++ recommendation_members).
Definition WatchlistView : ty := TFields ["kind" ::: TText "watchlist"; "titles" ::: TArray TitleRef].
Definition RecommendationInputsView : ty := TFields (("kind" ::: TText "recommendations") :: recommendation_members).

Definition ContinueItem : ty :=
  TFields ["title" ::: TitleRef; "fraction" ::: TNumber; "episode" ?:: Coordinate; "upcoming" ?:: TString;
    "seconds" ?:: TNumber; "playing" ?:: TBoolean; "updatedAt" ?:: TNumber; "liveEpisode" ?:: Coordinate;
    "liveFraction" ?:: TNumber; "device" ?:: TString; "deviceId" ?:: TString; "here" ?:: TTrue].

Definition ContinueView : ty :=
  TFields ["kind" ::: TText "continue"; "items" ::: TArray ContinueItem; "needsShapes" ::: TArray TitleRef;
    "caughtUp" ?:: TArray TitleRef; "dismissed" ?:: TArray TitleRef].

Definition HistoryItem : ty :=
  TFields ["title" ::: TitleRef; "watchedAt" ::: TNumber; "episode" ?:: Coordinate; "episodes" ::: TNumber].

Definition HistoryFacets : ty :=
  TFields ["all" ::: TNumber; "movie" ::: TNumber; "tv" ::: TNumber;
    "years" ::: TArray (TFields ["year" ::: TString; "all" ::: TNumber; "movie" ::: TNumber; "tv" ::: TNumber])].

Definition history_members : list (string * bool * ty) :=
  ["revision" ::: TString; "filter" ::: HistoryFilter; "total" ::: TNumber; "facets" ::: HistoryFacets;
   "items" ::: TArray HistoryItem; "nextCursor" ?:: TString].

(** The interface [HistoryPage] has no [kind], but the check of a query's page is the view's and lets one through, whatever
    it is: the type here is the interface's with that member besides. *)
Definition HistoryPage : ty := TFields (("kind" ?:: TAny) :: history_members).
Definition HistoryView : ty := TFields (("kind" ::: TText "history") :: history_members).

Definition TitleView : ty :=
  TFields ["kind" ::: TText "title"; "title" ::: TitleRef; "listed" ::: TBoolean; "watched" ::: TBoolean;
    "reaction" ::: TNullable Reaction; "standing" ::: TNullable Standing;
    "progress" ::: TNullable (TFields ["fraction" ::: TNumber; "seconds" ?:: TNumber; "playing" ?:: TBoolean;
      "updatedAt" ?:: TNumber]);
    "episodes" ::: TArray (TFields ["season" ::: TNumber; "episode" ::: TNumber; "watched" ::: TBoolean;
      "fraction" ::: TNumber; "seconds" ?:: TNumber; "playing" ?:: TBoolean; "updatedAt" ?:: TNumber])].

Definition PresenceView : ty :=
  TFields ["kind" ::: TText "presence";
    "items" ::: TArray (TFields ["title" ::: TitleRef; "standing" ::: TNullable Standing;
      "reaction" ::: TNullable Reaction])].

Definition LibraryPreferences : ty :=
  TFields ["interfaceLanguage" ?:: InterfaceLanguage; "excludedGenres" ::: TArray TNumber;
    "excludedLanguages" ::: TArray TString; "hideAnime" ::: TBoolean; "hideWatched" ::: TBoolean;
    "minReleaseYear" ?:: TNumber; "audioLanguage" ?:: TString; "subtitleLanguage" ?:: TString;
    "hasExplicitSubtitlePreference" ?:: TBoolean; "shownSubtitleLanguages" ::: TArray TString;
    "subtitlesPerLanguage" ::: TNumber; "autoSkipSegments" ::: TBoolean; "autoplayTrailers" ::: TBoolean;
    "ratingSources" ::: TArray RatingSource; "shownWarnings" ::: TArray TString; "watchRegion" ?:: TString;
    "services" ::: TArray ServiceRef; "servicesConfigured" ::: TBoolean; "maturityCeiling" ?:: TTexts ["pg13"; "r"]].

Definition AssistantNeeds : ty := TFields ["write" ::: TBoolean; "read" ::: TBoolean].
Definition SettingsView : ty :=
  TFields ["kind" ::: TText "settings"; "preferences" ::: LibraryPreferences; "assistant" ::: AssistantNeeds].

Definition LibraryDeviceView : ty :=
  TFields ["id" ::: TString; "name" ::: TString; "kind" ::: TTexts ["tv"; "browser"]; "lastSeenAt" ?:: TNumber;
    "libraryFormat" ?:: TNumber; "playKey" ?:: TString; "controlVersion" ?:: TNumber; "playedAt" ?:: TNumber].
Definition DevicesView : ty := TFields ["kind" ::: TText "devices"; "devices" ::: TArray LibraryDeviceView].

Definition LibraryPluginView : ty :=
  TFields ["manifestUrl" ::: TString; "signingKey" ?:: TString;
    "pendingApprovalOn" ::: TArray (TFields ["id" ::: TString; "name" ::: TString])].

Definition MaskedKey : ty := TFields ["configured" ::: TTrue; "masked" ::: TString].

Definition ConnectionsView : ty :=
  TFields ["kind" ::: TText "connections";
    "apiKeys" ::: TFields ["tmdb" ?:: MaskedKey; "omdb" ?:: MaskedKey; "content-warnings" ?:: MaskedKey];
    "parentalPinConfigured" ::: TBoolean; "parentalPinDelivery" ::: TTexts ["synced"; "queued"; "local"];
    "remoteAccessConfigured" ::: TBoolean; "plugins" ::: TArray LibraryPluginView;
    "servers" ::: TArray (TFields ["kind" ::: MediaServerKind; "url" ::: TString; "user" ?:: TString]);
    "devices" ::: TArray LibraryDeviceView;
    "diagnostics" ::: TFields ["libraryFormat" ::: TNumber; "pendingChanges" ::: TNumber; "selfDeviceId" ::: TString;
      "profileTopology" ?:: TBoolean]].

Definition SimklView : ty :=
  TFields ["kind" ::: TText "simkl"; "connected" ::: TBoolean; "account" ?:: TString;
    "heldRemovals" ::: TArray TitleRef; "approvalId" ?:: TString].

Definition DownloadViewItem : ty :=
  TFields ["content" ::: TString; "title" ::: TitleRef; "name" ::: TString; "imdbId" ?:: TString;
    "season" ?:: TNumber; "episode" ?:: TNumber; "posterPath" ?:: TString; "stillPath" ?:: TString;
    "queuedAt" ::: TNumber; "queuedBy" ::: TFields ["device" ::: TString; "name" ?:: TString; "isSelf" ::: TBoolean];
    "release" ?:: DownloadReleaseDescriptor; "alternate" ?:: DownloadReleaseDescriptor;
    "status" ::: TFields ["state" ::: TTexts ["starting"; "fetching"; "not-started"; "refused"; "paused";
        "unreachable"; "ready"; "no-working-release"; "awaiting-air"; "release-gone"];
      "phase" ::: TTexts ["queued"; "downloading"; "trouble"; "ready"]; "fraction" ?:: TNumber;
      "progressAt" ?:: TNumber; "etaSeconds" ?:: TNumber; "bytesPerSecond" ?:: TNumber;
      "fetch" ?:: TFields ["state" ?:: TTexts ["queued"; "fetching"; "downloading"; "stalled"; "failed"];
        "seeds" ?:: TNumber; "peers" ?:: TNumber; "service" ?:: TString];
      "service" ?:: TString; "until" ?:: TNumber; "stalled" ::: TBoolean];
    "tried" ::: TNumber; "candidates" ?:: TNumber; "announced" ::: TBoolean].

Definition DownloadsView : ty := TFields ["kind" ::: TText "downloads"; "items" ::: TArray DownloadViewItem].

Definition RecoveryView : ty :=
  TFields ["kind" ::: TText "recovery"; "availability" ::: TTexts ["ready"; "waits"];
    "live" ::: TNullable (TFields ["createdAt" ::: TNumber; "by" ::: TString; "byName" ::: TString; "opens" ::: TNumber;
      "lastOpenedAt" ::: TNullable TNumber; "reposted" ::: TBoolean]);
    "broken" ::: TBoolean; "notices" ::: TArray TString].

Definition LibrarySelectionValue : ty :=
  TUnion
    [LibraryOverviewView; WatchlistView; RecommendationInputsView; ContinueView; HistoryView; TitleView; PresenceView;
     SettingsView; DevicesView; ConnectionsView; SimklView; RecoveryView; RuntimeDiscoveryView; ProfileDirectoryView;
     DownloadsView].

(** ** Query and task results *)

Definition DownloadSourceOption : ty :=
  TFields ["identity" ::: TString; "label" ::: TString; "sizeBytes" ?:: TNumber; "cached" ?:: TBoolean;
    "filename" ::: TString; "seeders" ?:: TNumber; "packSizeBytes" ?:: TNumber; "badges" ::: TArray TString;
    "languages" ::: TArray TString; "probed" ::: TBoolean].
Definition DownloadSourceAnswer : ty :=
  TFields ["kind" ::: TTexts ["live"; "partial"; "empty"; "unknown"; "stale"]; "missing" ::: TNumber;
    "late" ?:: TNumber; "outageBuiltAt" ?:: TNumber].
Definition DownloadSourceFreshAnswer : ty := TTexts ["rebuilt"; "limited"].

Definition AssistantGrantView : ty :=
  TFields ["grant" ::: TString; "client" ?:: TString; "ops" ?:: TArray TString; "cap" ?:: TNumber;
    "createdAt" ?:: TNumber; "expiresAt" ?:: TNumber; "revokedAt" ?:: TNullable TNumber;
    "state" ::: TTexts ["active"; "expired"; "revoked"; "newer"; "malformed"]].

Definition AssistantApplied : ty :=
  TUnion
    [TFields ["seq" ::: TNumber; "outcome" ::: TText "accepted";
       "op" ::: TTexts ["watchlist_add"; "watchlist_remove"; "seen"; "rate"; "play"; "play_trailer"];
       "title" ::: TitleRef; "season" ?:: TNumber; "episode" ?:: TNumber; "detail" ::: TString];
     TFields ["seq" ::: TNumber; "outcome" ::: TText "rejected"; "reason" ::: TString]].

Definition ExportPlays : ty :=
  TArray (TFields ["watchedAt" ::: TNullable TString; "rewatch" ::: TBoolean; "source" ::: TTexts ["den"; "import"]]).
Definition ExportTitle : ty :=
  TFields ["type" ::: MediaType; "tmdbId" ::: TNumber;
    "status" ::: TTexts ["none"; "watchlist"; "inProgress"; "watched"]; "reaction" ::: TNullable Reaction;
    "addedAt" ::: TNullable TString; "plays" ?:: ExportPlays;
    "episodes" ?:: TArray (TFields ["season" ::: TNumber; "episode" ::: TNumber; "plays" ::: ExportPlays])].

Definition RelayCapability : ty := TNullable (TFields ["libraryId" ::: TString; "memberToken" ::: TString]).

Definition LibraryQueryResult : ty :=
  TUnion
    [TFields ["kind" ::: TText "playback.prepare"; "action" ::: TTexts ["start"; "resume"; "next"];
       "target" ::: DownloadTarget; "resume" ::: TNullable (TFields ["fraction" ::: TNumber; "seconds" ?:: TNumber])];
     TFields ["kind" ::: TText "library.metadata"; "titles" ::: TArray LibraryMetadataTitle;
       "shapes" ::: TArray LibraryMetadataShape; "retryable" ::: TArray TitleRef; "retryAfterMs" ?:: TNumber];
     TFields ["kind" ::: TText "parental-pin.verify"; "matches" ::: TBoolean];
     TFields ["kind" ::: TText "history.page"; "restarted" ::: TBoolean; "page" ::: HistoryPage];
     TFields ["kind" ::: TText "history.episodes"; "revision" ::: TString; "stale" ::: TBoolean;
       "items" ::: TArray (TFields ["title" ::: TitleOf "tv"; "seen" ::: TArray Coordinate])];
     TFields ["kind" ::: TText "profile-create.status"; "phase" ::: TTexts ["idle"; "created"]; "profile" ?:: TString;
       "name" ?:: TString; "maximumAge" ?:: TNumber; "receipt" ?:: TString];
     TFields ["kind" ::: TText "key-reset.prepare"; "destinationLibraryKey" ::: TString; "device" ::: TString];
     TFields ["kind" ::: TText "recovery.seal"; "sealed" ::: TString];
     TFields ["kind" ::: TText "pairing.handover"; "sealed" ::: TString; "linkKey" ::: TString; "inboxKey" ::: TString];
     TFields ["kind" ::: TText "history.export"; "exportedAt" ::: TString; "titles" ::: TArray ExportTitle];
     TFields ["kind" ::: TText "relay.membership"; "capability" ::: RelayCapability];
     TFields ["kind" ::: TText "download.refresh"; "refreshed" ::: TBoolean];
     TFields ["kind" ::: TText "download.sources"; "sources" ::: TNullable (TArray DownloadSourceOption);
       "answer" ?:: DownloadSourceAnswer; "fresh" ?:: DownloadSourceFreshAnswer;
       "failure" ?:: TTexts ["not-configured"; "unmatched"; "unreachable"]];
     TFields ["kind" ::: TText "download.artwork"; "stillPath" ::: TNullable TString];
     TFields ["kind" ::: TText "preferences.raw"; "values" ::: StoredPreferenceValues];
     TFields ["kind" ::: TText "retained.services"; "value" ::: TNullable RetainedServices];
     TFields ["kind" ::: TText "retained.home-continue"; "present" ::: TNullable TBoolean];
     TFields ["kind" ::: TText "retained.billboard"; "scope" ::: RetainedBillboardScope;
       "value" ::: TNullable RetainedBillboard];
     TFields ["kind" ::: TText "assistant.grants"; "grants" ::: TArray AssistantGrantView;
       "reads" ::: TArray AssistantGrantView; "plays" ::: TArray AssistantGrantView];
     TFields ["kind" ::: TText "assistant.connection"; "connection" ::: TNullable AssistantConnection]].

Definition KeyResetOutcome : ty :=
  TTexts ["moved"; "adopted"; "undone"; "held"; "foreign"; "unknown"; "update-required"; "profiles-active"; "unavailable"].
Definition ProfileKeyResetOutcome : ty :=
  TTexts ["install"; "complete"; "aborted"; "waiting"; "none"; "retired"; "blocked"; "unavailable"].

Definition Dropbox : ty := TNullable (TFields ["kid" ::: TString; "public" ::: TString]).

(** [{ kind; outcome }] *)
Definition outcome_of (kind : string) (outcomes : ty) : ty := TFields ["kind" ::: TText kind; "outcome" ::: outcomes].

Definition LibraryTaskResult : ty :=
  TUnion
    [outcome_of "recovery.begin" (TTexts ["begun"; "full"; "taken"; "waits"; "failed"]);
     outcome_of "recovery.confirm" (TTexts ["confirmed"; "lost"; "failed"]);
     outcome_of "recovery.abandon" (TTexts ["abandoned"; "confirmed"; "lost"; "failed"]);
     outcome_of "recovery.disable" (TText "disabled");
     TFields ["kind" ::: TText "history.import"; "written" ::: TNumber; "total" ::: TNumber; "complete" ::: TBoolean];
     TFields ["kind" ::: TText "local-library.merge";
       "outcome" ::: TTexts ["merged"; "absent"; "unavailable"; "unverified"]; "retryAfterMs" ?:: TNumber;
       "held" ?:: TNumber];
     TFields ["kind" ::: TText "household.create";
       "outcome" ::: TTexts ["created"; "refused"; "throttled"; "unavailable"; "empty"]; "retryAfterMs" ?:: TNumber];
     outcome_of "profile.create-default" (TTexts ["created"; "present"]);
     TFields ["kind" ::: TText "household.join";
       "outcome" ::: TTexts ["joined"; "pin-required"; "pin-wrong"; "refused-kids"; "unavailable"];
       "owner" ?:: TNullable TString; "kids" ?:: TRecord TString];
     outcome_of "key-reset.move" KeyResetOutcome; outcome_of "key-reset.settle" KeyResetOutcome;
     outcome_of "key-reset.adopt" KeyResetOutcome;
     TFields ["kind" ::: TText "assistant.consent"; "grant" ::: TString; "key" ::: TString; "readKey" ?:: TString];
     outcome_of "assistant.revoke" (TTexts ["revoked"; "absent"]);
     TFields ["kind" ::: TText "assistant.publish"; "published" ::: TNumber];
     TFields ["kind" ::: TText "assistant.renew"; "renewed" ::: TNumber];
     TFields ["kind" ::: TText "assistant.receipts.ensure"; "dropbox" ::: Dropbox];
     TFields ["kind" ::: TText "assistant.receipts.apply"; "ack" ::: TNullable TNumber; "applied" ::: TNumber];
     TFields ["kind" ::: TText "assistant.apply"; "results" ::: TArray AssistantApplied; "ack" ::: TNullable TNumber;
       "dropbox" ::: Dropbox];
     TFields ["kind" ::: TText "profile.create"; "outcome" ::: TText "created"; "profile" ::: TString;
       "name" ::: TString; "maximumAge" ::: TNumber; "receipt" ::: TString];
     outcome_of "profile.create.ack" (TText "acknowledged");
     outcome_of "profile.policy.set" (TTexts ["changed"; "unchanged"]);
     outcome_of "kid-title-approval.set" (TTexts ["changed"; "unchanged"]);
     outcome_of "profile-key-reset.start" ProfileKeyResetOutcome;
     outcome_of "profile-key-reset.resume" ProfileKeyResetOutcome;
     outcome_of "profile-key-reset.confirm" ProfileKeyResetOutcome;
     outcome_of "profile-key-reset.recover" ProfileKeyResetOutcome].

(** ** Replies *)

Definition LibraryServiceErrorCode : ty :=
  TTexts ["protocol-mismatch"; "invalid-request"; "not-ready"; "conflict"; "unauthorized"; "not-found"; "refused";
    "read-only"; "moved"; "storage"; "update-required"; "unavailable"; "cancelled"; "internal"].

Definition LibraryServiceFailure : ty :=
  TFields ["code" ::: LibraryServiceErrorCode; "message" ::: TString; "retryable" ::: TBoolean;
    "expectedProtocol" ?:: TNumber; "requiredWire" ?:: TNumber].

Definition LibrarySessionStatus : ty :=
  TUnion
    [TFields ["kind" ::: TText "ready"; "version" ::: LibraryVersion];
     TFields ["kind" ::: TText "reconnecting"; "version" ::: TNullable LibraryVersion];
     TFields ["kind" ::: TText "read-only"; "version" ::: LibraryVersion; "reason" ::: TString];
     TFields ["kind" ::: TText "moved"; "successor" ?:: TString];
     TFields ["kind" ::: TText "failed"; "error" ::: LibraryServiceFailure]].

(** [interface ... extends ServerMessage] *)
Definition ServerMessage (type : string) (fields : list (string * bool * ty)) : ty :=
  TFields (["type" ::: TText type; "protocol" ::: LibraryServiceProtocol] ++ fields).

Definition LibraryServiceReady : ty :=
  ServerMessage "ready" ["requestId" ::: TString; "relayMembership" ::: RelayCapability; "version" ::: LibraryVersion].
Definition LibraryServiceCommandResult : ty :=
  ServerMessage "command-result"
    ["requestId" ::: TString; "operationId" ::: TString; "outcome" ::: TTexts ["applied"; "unchanged"];
     "delivery" ::: TTexts ["synced"; "queued"; "local"]; "version" ::: LibraryVersion].
Definition LibraryServiceQueryResult : ty :=
  ServerMessage "query-result" ["requestId" ::: TString; "result" ::: LibraryQueryResult; "version" ::: LibraryVersion].
Definition LibraryServiceTaskResult : ty :=
  ServerMessage "task-result"
    ["requestId" ::: TString; "operationId" ::: TString; "result" ::: LibraryTaskResult; "version" ::: LibraryVersion].
Definition LibraryServiceSubscribed : ty :=
  ServerMessage "subscribed" ["requestId" ::: TString; "subscriptionId" ::: TString; "version" ::: LibraryVersion].
Definition LibraryServiceUnsubscribed : ty :=
  ServerMessage "unsubscribed" ["requestId" ::: TString; "subscriptionId" ::: TString].
Definition LibraryServiceObserved : ty :=
  ServerMessage "observed" ["requestId" ::: TString; "version" ::: LibraryVersion].
Definition LibraryServiceStatus : ty := ServerMessage "status" ["status" ::: LibrarySessionStatus].
Definition LibraryServiceOpening : ty := ServerMessage "opening" ["requestId" ::: TString; "progress" ::: TNumber].
Definition LibraryServiceUpdate : ty :=
  ServerMessage "update" ["subscriptionId" ::: TString; "version" ::: LibraryVersion; "value" ::: LibrarySelectionValue].
Definition LibraryServiceError : ty :=
  ServerMessage "error"
    ["requestId" ?:: TString; "subscriptionId" ?:: TString; "error" ::: LibraryServiceFailure].

Definition LibraryServiceServerMessage : ty :=
  TUnion
    [LibraryServiceReady; LibraryServiceCommandResult; LibraryServiceQueryResult; LibraryServiceTaskResult;
     LibraryServiceSubscribed; LibraryServiceUnsubscribed; LibraryServiceObserved; LibraryServiceStatus;
     LibraryServiceOpening; LibraryServiceUpdate; LibraryServiceError].
