(* ===== verification/CodecReplySound.v ===== *)
(** * The checks of replies are sound for the types they guard *)

From S2P Require Import Prelude JsMap JsText Json Wire ProfileKeys JsValue Codec CodecTypes CodecSound CodecReply CodecReplyTypes.
Open Scope Z_scope.

Lemma unit_interval_sound v : unit_interval v = true -> has TNumber v = true.
Proof. by destruct v. Qed.

Lemma non_negative_sound v : non_negative v = true -> has TNumber v = true.
Proof. by destruct v. Qed.

Lemma age_sound v : age v = true -> has TNumber v = true.
Proof. unfold age. typed. Qed.

Lemma at_least_sound z v : at_least z v = true -> has TNumber v = true.
Proof. by destruct v. Qed.

Lemma coordinate_sound v : coordinate v = true -> has Coordinate v = true.
Proof. unfold coordinate. typed. Qed.

Lemma relayMembership_sound v : relayMembership v = true -> has RelayCapability v = true.
Proof. unfold relayMembership. intros Hv. eapply nullable_sound; [exact Hv|]. apply membership_sound. Qed.

#[local] Hint Resolve unit_interval_sound non_negative_sound age_sound at_least_sound coordinate_sound
  relayMembership_sound : codec.

Section ReplySound.
Context `{CodecApi}.

(** ** Titles named for the library *)

Lemma isLibraryMetadataTitle_sound v : isLibraryMetadataTitle v = true -> has LibraryMetadataTitle v = true.
Proof.
  unfold isLibraryMetadataTitle. intros Hv. conjuncts.
  match goal with Ht : titleRef (Obj _) = true |- _ => apply titleRef_parts in Ht as [? ?] end. typed.
Qed.

Lemma libraryMetadataShape_sound v : libraryMetadataShape v = true -> has LibraryMetadataShape v = true.
Proof. unfold libraryMetadataShape. typed. Qed.

#[local] Hint Resolve isLibraryMetadataTitle_sound libraryMetadataShape_sound : codec.

(** ** Views *)

Lemma version_sound v : version v = true -> has LibraryVersion v = true.
Proof. unfold version. typed. Qed.

Lemma progress_sound v :
  progress v = true ->
  has (TFields ["fraction" ::: TNumber; "seconds" ?:: TNumber; "playing" ?:: TBoolean; "updatedAt" ?:: TNumber]) v = true.
Proof. unfold progress. typed. Qed.

Lemma continueItem_sound v : continueItem v = true -> has ContinueItem v = true.
Proof. unfold continueItem. typed. Qed.

Lemma historyItem_sound v : historyItem v = true -> has HistoryItem v = true.
Proof. unfold historyItem. typed. Qed.

Lemma facet_year_sound v :
  facet_year v = true ->
  has (TFields ["year" ::: TString; "all" ::: TNumber; "movie" ::: TNumber; "tv" ::: TNumber]) v = true.
Proof. unfold facet_year. typed. Qed.

#[local] Hint Resolve version_sound progress_sound continueItem_sound historyItem_sound facet_year_sound : codec.

Lemma historyFacets_sound v : historyFacets v = true -> has HistoryFacets v = true.
Proof. unfold historyFacets. typed. Qed.

#[local] Hint Resolve historyFacets_sound : codec.

Lemma any_field v name absent : field_ok v (name, absent, TAny).
Proof. by right. Qed.

#[local] Hint Resolve any_field : codec.

Lemma historyPage_sound v : historyPage v = true -> has HistoryPage v = true.
Proof. unfold historyPage. typed. Qed.

Lemma historyView_sound v :
  historyPage v = true -> str_is "history" (member v "kind") = true -> has HistoryView v = true.
Proof. unfold historyPage. typed. Qed.

Lemma view_release_sound v : view_release v = true -> has DownloadReleaseDescriptor v = true.
Proof. unfold view_release. typed. Qed.

Lemma downloadFetch_sound v :
  downloadFetch v = true ->
  has (TFields ["state" ?:: TTexts ["queued"; "fetching"; "downloading"; "stalled"; "failed"]; "seeds" ?:: TNumber;
    "peers" ?:: TNumber; "service" ?:: TString]) v = true.
Proof. unfold downloadFetch. typed. Qed.

#[local] Hint Resolve historyPage_sound view_release_sound downloadFetch_sound : codec.

Lemma download_sound v : download v = true -> has DownloadViewItem v = true.
Proof.
  unfold download. intros Hv. conjuncts.
  match goal with Hs : download_status _ = true, Hq : queued_by _ = true |- _ =>
    unfold download_status in Hs; unfold queued_by in Hq end. typed.
Qed.

Lemma preferencesView_sound v : preferencesView v = true -> has LibraryPreferences v = true.
Proof. unfold preferencesView. typed. Qed.

Lemma libraryDevice_sound v : libraryDevice v = true -> has LibraryDeviceView v = true.
Proof. unfold libraryDevice. typed. Qed.

Lemma masked_key_sound v : masked_key v = true -> has MaskedKey v = true.
Proof. unfold masked_key. typed. Qed.

Lemma approving_device_sound v :
  approving_device v = true -> has (TFields ["id" ::: TString; "name" ::: TString]) v = true.
Proof. unfold approving_device. typed. Qed.

#[local] Hint Resolve download_sound preferencesView_sound libraryDevice_sound masked_key_sound
  approving_device_sound : codec.

Lemma plugin_sound v : plugin v = true -> has LibraryPluginView v = true.
Proof. unfold plugin. typed. Qed.

Lemma server_sound v :
  server v = true -> has (TFields ["kind" ::: MediaServerKind; "url" ::: TString; "user" ?:: TString]) v = true.
Proof. unfold server. typed. Qed.

(** A check of every member holds of the ones that are there. *)
Lemma values_field check v name t :
  forallb check (values_of v) = true -> (forall c, check c = true -> has t c = true) -> field_ok v (name ?:: t).
Proof.
  intros Hc Ht. destruct v as [| | | | | |members]; try by left. unfold field_ok. cbn in Hc |- *.
  destruct (map_get name members) as [c|] eqn:Hg; [|by left]. right. cbn. apply Ht.
  rewrite forallb_forall in Hc. apply Hc, list_elem_of_In. apply map_get_elem in Hg.
  apply list_elem_of_fmap. by exists (name, c).
Qed.

Lemma apiKeys_sound v :
  record v = true -> exact v ",tmdb,omdb,content-warnings," = true -> forallb masked_key (values_of v) = true ->
  has (TFields ["tmdb" ?:: MaskedKey; "omdb" ?:: MaskedKey; "content-warnings" ?:: MaskedKey]) v = true.
Proof.
  intros Hr He Hv. eapply has_fields; [done|exact He|reflexivity|].
  repeat (apply Forall_cons_2; [by eapply values_field; [exact Hv|apply masked_key_sound]|]). apply Forall_nil_2.
Qed.

#[local] Hint Resolve plugin_sound server_sound apiKeys_sound : codec.

Lemma connectionsView_sound v : connectionsView v = true -> has ConnectionsView v = true.
Proof. unfold connectionsView, diagnostics. typed. Qed.

Lemma devicesView_sound v : devicesView v = true -> has DevicesView v = true.
Proof. unfold devicesView. typed. Qed.

Lemma simklView_sound v : simklView v = true -> has SimklView v = true.
Proof. unfold simklView. typed. Qed.

Lemma episodeProgress_sound v :
  episodeProgress v = true ->
  has (TFields ["season" ::: TNumber; "episode" ::: TNumber; "watched" ::: TBoolean; "fraction" ::: TNumber;
    "seconds" ?:: TNumber; "playing" ?:: TBoolean; "updatedAt" ?:: TNumber]) v = true.
Proof.
  unfold episodeProgress. intros Hv. conjuncts.
  assert (Hplaying : is_undefined (member v "playing") = true).
  { eapply (exact_absent v); [eassumption|vm_compute; reflexivity]. }
  typed.
Qed.

Lemma title_standing_sound v :
  title_standing v = true -> has (TFields ["title" ::: TitleRef; "standing" ::: Standing]) v = true.
Proof. unfold title_standing. typed. Qed.

Lemma title_weight_sound v :
  title_weight v = true ->
  has (TFields ["title" ::: TitleRef; "weight" ::: TNumber; "updatedAt" ::: TNumber]) v = true.
Proof. unfold title_weight. typed. Qed.

Lemma recommendation_seeds_sound v :
  recommendation_seeds v = true ->
  has (TFields ["watched" ::: TArray TitleRef; "watchlisted" ::: TArray TitleRef]) v = true.
Proof. unfold recommendation_seeds. typed. Qed.

Lemma profile_entry_sound v :
  profile_entry v = true ->
  has (TFields ["id" ::: TString; "role" ::: TTexts ["owner"; "kid"; "adult"]; "name" ::: TString;
      "avatar" ?:: TString; "libraryKey" ::: TString; "keyVersion" ::: TNumber;
      "policy" ::: TFields ["maximumAge" ::: TNullable TNumber; "unknownRatings" ::: TTexts ["allow"; "block"]];
      "approvals" ?:: TArray TitleRef; "deleted" ::: TBoolean]) v = true.
Proof. unfold profile_entry, profile_policy. typed. Qed.

#[local] Hint Resolve episodeProgress_sound title_standing_sound title_weight_sound recommendation_seeds_sound
  profile_entry_sound : codec.

Lemma profileDirectoryView_sound v : profileDirectoryView v = true -> has ProfileDirectoryView v = true.
Proof. unfold profileDirectoryView. typed. Qed.

Lemma presence_item_sound v :
  presence_item v = true ->
  has (TFields ["title" ::: TitleRef; "standing" ::: TNullable Standing; "reaction" ::: TNullable Reaction]) v = true.
Proof. unfold presence_item. typed. Qed.

Lemma assistant_needs_sound v : assistant_needs v = true -> has AssistantNeeds v = true.
Proof. unfold assistant_needs. typed. Qed.

Lemma recovery_live_sound v :
  recovery_live v = true ->
  has (TFields ["createdAt" ::: TNumber; "by" ::: TString; "byName" ::: TString; "opens" ::: TNumber;
      "lastOpenedAt" ::: TNullable TNumber; "reposted" ::: TBoolean]) v = true.
Proof. unfold recovery_live. typed. Qed.

#[local] Hint Resolve presence_item_sound assistant_needs_sound recovery_live_sound : codec.

(** A view checked by a function of its own. *)
Lemma view_of t v : t ∈ [HistoryView; DevicesView; ConnectionsView; SimklView; ProfileDirectoryView] ->
  has t v = true -> has LibrarySelectionValue v = true.
Proof. intros Hin. apply has_either. set_solver. Qed.

Ltac view t := apply (view_of t); [set_solver|].

Lemma selectionValue_sound v : selectionValue v = true -> has LibrarySelectionValue v = true.
Proof.
  intros Hv. unfold selectionValue, recommendationFields in Hv.
  cases_of Hv; try variant_of_kind.
  all: conjuncts.
  - view HistoryView. by apply historyView_sound.
  - view DevicesView. by apply devicesView_sound.
  - view ProfileDirectoryView. by apply profileDirectoryView_sound.
  - view ConnectionsView. by apply connectionsView_sound.
  - view SimklView. by apply simklView_sound.
Qed.

#[local] Hint Resolve selectionValue_sound : codec.

(** ** Query results *)

Lemma assistantGrant_sound v : assistantGrant v = true -> has AssistantGrantView v = true.
Proof. unfold assistantGrant. typed. Qed.

Lemma export_play_sound v :
  export_play v = true ->
  has (TFields ["watchedAt" ::: TNullable TString; "rewatch" ::: TBoolean; "source" ::: TTexts ["den"; "import"]]) v = true.
Proof. unfold export_play. typed. Qed.

#[local] Hint Resolve assistantGrant_sound export_play_sound : codec.

Lemma exportPlays_sound v : exportPlays v = true -> has ExportPlays v = true.
Proof. unfold exportPlays. typed. Qed.

#[local] Hint Resolve exportPlays_sound : codec.

Lemma export_episode_sound v :
  export_episode v = true ->
  has (TFields ["season" ::: TNumber; "episode" ::: TNumber; "plays" ::: ExportPlays]) v = true.
Proof. unfold export_episode. typed. Qed.

#[local] Hint Resolve export_episode_sound : codec.

Lemma export_title_sound v : export_title v = true -> has ExportTitle v = true.
Proof. unfold export_title. typed. Qed.

Lemma seen_series_sound v :
  seen_series v = true -> has (TFields ["title" ::: TitleOf "tv"; "seen" ::: TArray Coordinate]) v = true.
Proof. unfold seen_series. typed. Qed.

Lemma download_source_sound v : download_source v = true -> has DownloadSourceOption v = true.
Proof. unfold download_source. typed. Qed.

Lemma download_answer_sound v : download_answer v = true -> has DownloadSourceAnswer v = true.
Proof. unfold download_answer. typed. Qed.

Lemma playback_resume_sound v :
  playback_resume v = true -> has (TFields ["fraction" ::: TNumber; "seconds" ?:: TNumber]) v = true.
Proof. unfold playback_resume. typed. Qed.

#[local] Hint Resolve export_title_sound seen_series_sound download_source_sound download_answer_sound
  playback_resume_sound : codec.

Lemma queryResult_sound v : queryResult v = true -> has LibraryQueryResult v = true.
Proof.
  intros Hv. unfold queryResult in Hv. cases_of Hv; try variant_of_kind.
  conjuncts. destruct (str_is "idle" (member v "phase")) eqn:Hidle; conjuncts; variant_of_kind.
Qed.

(** ** Task results *)

Lemma assistantApplied_sound v : assistantApplied v = true -> has AssistantApplied v = true.
Proof.
  unfold assistantApplied. intros Hv. conjuncts. destruct (str_is "rejected" (member v "outcome")) eqn:Ho; conjuncts.
  - eapply (has_union "outcome" "rejected"); [reflexivity|typed].
  - eapply (has_union "outcome" "accepted"); [reflexivity|typed].
Qed.

Lemma dropbox_sound v : dropbox v = true -> has (TFields ["kid" ::: TString; "public" ::: TString]) v = true.
Proof. unfold dropbox. typed. Qed.

#[local] Hint Resolve assistantApplied_sound dropbox_sound : codec.

Lemma kids_sound v :
  record v = true -> (count (keys_of v) <=? 64) = true ->
  every_entry (fun from to => hexId (Str from) && hexId to) v = true -> has (TRecord TString) v = true.
Proof. intros Hr Hc He. eapply has_record; [done|exact Hc|reflexivity|exact He|]. typed. Qed.

#[local] Hint Resolve kids_sound : codec.

Lemma str_is_inj s t v : str_is s v = true -> str_is t v = true -> s = t.
Proof. destruct v; try done. by intros <-%String.eqb_eq <-%String.eqb_eq. Qed.

Lemma taskResult_sound v : taskResult v = true -> has LibraryTaskResult v = true.
Proof.
  intros Hv. unfold taskResult, outcome_in in Hv. cases_of Hv; try variant_of_kind; conjuncts.
  - match goal with Ho : _ || _ = true |- _ => apply orb_prop in Ho as [Ho|Ho] end; [variant_of_kind|].
    conjuncts. exfalso. by assert ("recovery.confirm" = "recovery.abandon") by eauto using str_is_inj.
  - match goal with Ho : _ || _ = true |- _ => apply orb_prop in Ho as [Ho|Ho] end; conjuncts;
      variant "recovery.abandon".
  - destruct (str_is "joined" (member v "outcome")) eqn:Hj; conjuncts; variant_of_kind.
Qed.

(** ** Replies *)

Lemma failure_sound v : failure v = true -> has LibraryServiceFailure v = true.
Proof. unfold failure. typed. Qed.

#[local] Hint Resolve failure_sound : codec.

Lemma sessionStatus_sound v : sessionStatus v = true -> has LibrarySessionStatus v = true.
Proof. intros Hv. unfold sessionStatus in Hv. cases_of Hv; variant_of_kind. Qed.

#[local] Hint Resolve queryResult_sound taskResult_sound sessionStatus_sound : codec.

(** What a decoder that answered a reply saw of it. *)
Lemma decode_reply_inv input v :
  decodeLibraryServiceServerMessage input = inr v ->
  v = input /\ record input = true /\ protocol input = None /\
  exists type message, str_is type (member input "type") = true /\ (type, true, message) ∈ reply_checks input.
Proof.
  unfold decodeLibraryServiceServerMessage. destruct (record input) eqn:Hr; [|done]. cbn [negb].
  destruct (protocol input) as [[]|] eqn:Hp; [done|..].
  { unfold protocol in Hp. by case_bool_decide. }
  destruct (text (member input "type")) eqn:Htype; [|done].
  cbn [negb]. destruct (list_find _ _) as [[i [[type ok] message]]|] eqn:Hf; [|done].
  destruct ok; [|done]. intros [= <-]. apply list_find_Some in Hf as (Hi & Heq & _). cbn in Heq.
  repeat split; [done..|]. exists type, message. split; [|by eapply list_elem_of_lookup_2].
  destruct (member input "type"); try done. cbn in *. subst. apply String.eqb_refl.
Qed.

(** C13: A reply the decoder lets through is the value it was given, of its declared type
    ([LibraryServiceServerMessage]): every check of a view, a result or a status is sound for the type it guards, no
    member is undeclared and no collection is beyond the wire's limit. *)
Theorem reply_typed input v :
  decodeLibraryServiceServerMessage input = inr v -> v = input /\ has LibraryServiceServerMessage v = true.
Proof.
  intros (-> & Hr & Hp%protocol_sound & type & message & Htype & Hin)%decode_reply_inv. split; [done|].
  unfold reply_checks in Hin.
  repeat (apply elem_of_cons in Hin as [[= -> Hok _]|Hin]); [..|by apply not_elem_of_nil in Hin];
    symmetry in Hok; match goal with H : str_is ?tag _ = true |- _ => eapply (has_union "type" tag); [reflexivity|] end;
    typed.
Qed.
End ReplySound.
