(* ===== verification/CodecExample.v ===== *)
(** * Messages decoded, with a browser to decode them in

    What the decoder answers besides the values [CodecSound] types: its refusals, the key sets its checks are written
    with, and the declared tasks it never lets through. The concrete messages are ones a page and its
    service send. *)

From S2P Require Import Prelude JsMap JsText Json Wire ProfileKeys JsValue Codec CodecTypes CodecSound CodecReply CodecReplyTypes CodecReplySound.
Open Scope Z_scope.

(** The key sets of the checks, as they are written. *)
Definition key_sets : list string :=
  [",type,id,"; ",type,id,season,episode,"; ",target,name,imdbId,posterPath,stillPath,originalLanguage,airDate,";
   ",identity,label,sizeBytes,cached,"; ",id,country,"; ",kind,facet,fresh,";
   ",score,fit,similar,profile,people,confidence,fresh,arrived,quality,buzz,reason,";
   ",type,id,title,posterPath,posterUrl,backdropPath,year,releaseDate,rating,ratingSource,votes,popularity,countries,people,collectionId,genreIds,primaryGenreName,likely,originalLanguage,adult,imdbId,arrivesAt,services,why,";
   ",kind,titles,"; ",kind,at,titles,"; ",install,base,"; ",url,access,"; ",routes,scout,atlas,reel,remux,";
   ",bool,"; ",int,"; ",string,"; ",ints,"; ",strings,"; ",value,at,"; ",kind,"; ",kind,values,"; ",mode,";
   ",mode,language,";
   ",interfaceLanguage,excludedGenres,excludedLanguages,hideAnime,hideWatched,minReleaseYear,audioLanguage,subtitlePreference,shownSubtitleLanguages,subtitlesPerLanguage,autoSkipSegments,autoplayTrailers,ratingSources,shownWarnings,watchRegion,services,maturityCeiling,";
   ",clientId,clientSecret,"; ",url,user,credential,"; ",kind,title,"; ",kind,title,watched,";
   ",kind,title,reaction,"; ",kind,episode,watched,"; ",kind,title,season,episodes,watched,";
   ",kind,title,dismissed,"; ",kind,title,episode,fraction,seconds,playing,observedAt,"; ",kind,patch,";
   ",kind,household,"; ",kind,service,value,"; ",kind,pin,"; ",kind,credentials,"; ",kind,manifestUrl,";
   ",kind,manifestUrl,publicKey,"; ",kind,server,value,"; ",kind,name,deviceKind,playKey,controlVersion,";
   ",kind,deviceId,"; ",kind,token,"; ",kind,approvalId,"; ",kind,url,"; ",kind,value,"; ",kind,present,";
   ",kind,scope,value,"; ",kind,title,release,candidates,"; ",kind,target,"; ",kind,target,identity,"; ",type,year,";
   ",kind,revision,filter,cursor,limit,"; ",kind,revision,titles,"; ",kind,locator,wrapKey,createdAt,";
   ",kind,handoverKey,host,linkKey,grantTicket,"; ",kind,title,fresh,refresh,early,"; ",kind,scope,";
   ",kind,title,episode,"; ",season,episode,watchedAt,"; ",title,watchedAt,episodes,complete,";
   ",libraryId,memberToken,"; ",kind,schema,name,values,"; ",member,rows,revoked,"; ",seq,sealed,";
   ",kind,locator,sealed,createdAt,"; ",kind,locator,"; ",kind,items,"; ",kind,sourceLibraryKey,scope,keep,verify,";
   ",kind,householdKey,attempt,ownerProfile,ownerKey,createdAt,ifKept,"; ",kind,sourceLibraryKey,pin,";
   ",kind,destinationLibraryKey,"; ",kind,client,write,read,"; ",kind,grant,"; ",kind,connection,"; ",kind,grants,";
   ",kind,messages,connection,tv,"; ",awakeSince,"; ",kind,name,maximumAge,pin,"; ",kind,receipt,";
   ",kind,profile,maximumAge,unknownRatings,pin,"; ",kind,profile,title,allow,pin,";
   ",kind,pin,destinationLibraryKey,"; ",kind,pin,recoveryAttempt,successorKey,"; ",season,episodes,";
   ",season,episode,"; ",season,episode,date,"; ",title,episodes,ended,"; ",kind,title,seasons,lastAired,";
   ",kind,today,series,"; ",kind,visible,online,playbackActive,playerOpen,"; ",device,last,";
   ",type,protocol,requestId,clientId,libraryKey,wire,mode,legacyClock,";
   ",type,protocol,requestId,operationId,command,"; ",type,protocol,requestId,query,";
   ",type,protocol,requestId,operationId,task,"; ",type,protocol,requestId,subscriptionId,selection,";
   ",type,protocol,requestId,subscriptionId,"; ",type,protocol,requestId,observation,";
   ",type,id,title,posterPath,backdropPath,year,releaseDate,rating,ratingSource,votes,popularity,countries,people,collectionId,genreIds,originalLanguage,adult,imdbId,";
   ",title,seasons,lastAired,"; ",instance,generation,revision,"; ",fraction,seconds,playing,updatedAt,";
   ",title,fraction,episode,upcoming,seconds,playing,updatedAt,liveEpisode,liveFraction,device,deviceId,here,";
   ",title,watchedAt,episode,episodes,"; ",year,all,movie,tv,"; ",all,movie,tv,years,";
   ",kind,total,items,filter,facets,revision,nextCursor,"; ",state,seeds,peers,service,"; ",device,name,isSelf,";
   ",state,phase,fraction,progressAt,etaSeconds,bytesPerSecond,fetch,service,until,stalled,";
   ",content,title,name,imdbId,season,episode,posterPath,stillPath,queuedAt,queuedBy,release,alternate,status,tried,candidates,announced,";
   ",interfaceLanguage,excludedGenres,excludedLanguages,hideAnime,hideWatched,minReleaseYear,audioLanguage,subtitleLanguage,hasExplicitSubtitlePreference,shownSubtitleLanguages,subtitlesPerLanguage,autoSkipSegments,autoplayTrailers,ratingSources,shownWarnings,watchRegion,services,servicesConfigured,maturityCeiling,";
   ",id,name,kind,lastSeenAt,libraryFormat,playKey,controlVersion,playedAt,"; ",configured,masked,"; ",id,name,";
   ",manifestUrl,signingKey,pendingApprovalOn,"; ",kind,url,user,";
   ",libraryFormat,pendingChanges,selfDeviceId,profileTopology,";
   ",kind,apiKeys,parentalPinConfigured,parentalPinDelivery,remoteAccessConfigured,plugins,servers,devices,diagnostics,";
   ",tmdb,omdb,content-warnings,"; ",kind,devices,"; ",kind,connected,account,heldRemovals,approvalId,";
   ",season,episode,watched,fraction,seconds,updatedAt,"; ",title,standing,"; ",title,weight,updatedAt,";
   ",watched,watchlisted,"; ",maximumAge,unknownRatings,";
   ",id,role,name,avatar,libraryKey,keyVersion,policy,approvals,deleted,"; ",kind,state,owner,profiles,";
   ",title,standing,reaction,"; ",write,read,"; ",createdAt,by,byName,opens,lastOpenedAt,reposted,";
   ",kind,owned,watched,standings,weighted,seeds,"; ",kind,owned,watched,watchlist,standings,weighted,seeds,";
   ",kind,items,needsShapes,caughtUp,dismissed,"; ",kind,title,listed,watched,reaction,standing,progress,episodes,";
   ",kind,preferences,assistant,"; ",kind,availability,live,broken,notices,";
   ",kind,pluginManifestUrls,privateRemuxUrl,"; ",grant,client,ops,cap,createdAt,expiresAt,revokedAt,state,";
   ",watchedAt,rewatch,source,"; ",season,episode,plays,"; ",type,tmdbId,status,reaction,addedAt,plays,episodes,";
   ",title,seen,"; ",identity,label,filename,sizeBytes,cached,seeders,packSizeBytes,badges,languages,probed,";
   ",kind,missing,late,outageBuiltAt,"; ",fraction,seconds,"; ",kind,matches,";
   ",kind,phase,profile,name,maximumAge,receipt,"; ",kind,grants,reads,plays,";
   ",kind,titles,shapes,retryable,retryAfterMs,"; ",kind,capability,"; ",kind,destinationLibraryKey,device,";
   ",kind,sealed,"; ",kind,sealed,linkKey,inboxKey,"; ",kind,exportedAt,titles,"; ",kind,restarted,page,";
   ",kind,revision,stale,items,"; ",kind,refreshed,"; ",kind,sources,answer,fresh,failure,"; ",kind,stillPath,";
   ",kind,action,target,resume,"; ",seq,outcome,reason,"; ",seq,outcome,op,title,season,episode,detail,";
   ",kid,public,"; ",kind,outcome,"; ",kind,written,total,complete,"; ",kind,outcome,retryAfterMs,held,";
   ",kind,outcome,retryAfterMs,"; ",kind,outcome,owner,kids,"; ",kind,grant,key,readKey,"; ",kind,published,";
   ",kind,renewed,"; ",kind,results,ack,dropbox,"; ",kind,outcome,profile,name,maximumAge,receipt,";
   ",code,message,retryable,expectedProtocol,requiredWire,"; ",kind,version,"; ",kind,version,reason,";
   ",kind,successor,"; ",kind,error,"; ",type,protocol,requestId,relayMembership,version,";
   ",type,protocol,requestId,operationId,outcome,delivery,version,";
   ",type,protocol,requestId,operationId,result,version,"; ",type,protocol,requestId,result,version,";
   ",type,protocol,requestId,subscriptionId,version,"; ",type,protocol,requestId,version,"; ",type,protocol,status,";
   ",type,protocol,requestId,progress,"; ",type,protocol,subscriptionId,version,value,";
   ",type,protocol,requestId,subscriptionId,error,"].

Section Decode.
Context `{CodecApi}.

(** A delimited key set lets through exactly the names it lists: for every key set of the codec's checks, the
    [indexOf] test at both boundaries agrees with membership in the list of names, whatever the keys of the value. *)
Lemma exact_is_membership keys v :
  keys ∈ key_sets ->
  exact v keys = forallb (fun key => negb (String.eqb key "") && bool_decide (key ∈ split_on "," keys)) (keys_of v).
Proof.
  intros Hin. assert (Hok : keyset_ok keys = true).
  { assert (Hall : forallb keyset_ok key_sets = true) by (vm_compute; reflexivity).
    rewrite forallb_forall in Hall. by apply Hall, list_elem_of_In. }
  apply eq_true_iff_eq. rewrite (exact_spec _ _ Hok), forallb_forall. setoid_rewrite <-list_elem_of_In.
  setoid_rewrite andb_true_iff. setoid_rewrite bool_decide_eq_true. setoid_rewrite negb_true_iff.
  by setoid_rewrite String.eqb_neq.
Qed.

(** What a refused request is told: an object of another protocol is always told which protocol is expected,
    whatever else is wrong with it; anything else is an invalid request; no refusal is retryable. *)
Lemma decode_refusal input f :
  decodeLibraryServiceClientMessage input = inl f ->
  fl_retryable f = false /\
  if record input && negb (bool_decide (safe_int (member input "protocol") = Some LIBRARY_SERVICE_PROTOCOL))
  then fl_code f = "protocol-mismatch" /\ fl_expectedProtocol f = Some LIBRARY_SERVICE_PROTOCOL
  else fl_code f = "invalid-request" /\ fl_expectedProtocol f = None.
Proof.
  unfold decodeLibraryServiceClientMessage, protocol, invalid. destruct (record input); [|by intros [= <-]].
  cbn [negb andb]. case_bool_decide; [|by intros [= <-]]. cbn [negb].
  destruct (negb _ || negb _); [by intros [= <-]|].
  destruct (list_find _ _) as [[i [[type ok] message]]|]; [|by intros [= <-]].
  destruct ok; [done|by intros [= <-]].
Qed.

(** A field of a value of an object type. *)
Lemma has_field_of fields v name t :
  has (TFields fields) v = true -> (name, false, t) ∈ fields -> has t (member v name) = true.
Proof.
  cbn [has]. intros [_ Hf]%andb_prop Hin%list_elem_of_In. rewrite forallb_forall in Hf. exact (Hf _ Hin).
Qed.

Definition receipt_tasks : list string := ["assistant.receipts.ensure"; "assistant.receipts.apply"].

Lemma receipt_task_refused v kind :
  kind ∈ receipt_tasks -> str_is kind (member v "kind") = true -> task v = false.
Proof.
  intros Hin Hk. unfold task, by_kind. destruct (member v "kind") as [| | | |s| |]; try done.
  apply String.eqb_eq in Hk as ->. apply andb_false_intro2.
  repeat (apply elem_of_cons in Hin as [->|Hin]); [reflexivity..|]. by apply not_elem_of_nil in Hin.
Qed.

(** C37: The two assistant receipt tasks are declared, and the service carries them out, but the decoder refuses every
    request for one: it answers that the task is invalid. *)
Theorem receipts_refused input kind :
  kind ∈ receipt_tasks -> has LibraryServiceTaskRequest input = true ->
  str_is kind (member (member input "task") "kind") = true -> text (member input "requestId") = true ->
  decodeLibraryServiceClientMessage input = invalid "task is invalid".
Proof.
  intros Hin Ht Hk Hid. pose proof (receipt_task_refused _ _ Hin Hk) as Hrefused.
  assert (Hr : record input = true) by (by destruct input).
  assert (Htype : str_is "task" (member input "type") = true).
  { pose proof (has_field_of _ _ "type" (TText "task") Ht ltac:(left)) as Hty. cbn in Hty. by rewrite orb_false_r in Hty. }
  assert (Hp : protocol input = None).
  { pose proof (has_field_of _ _ "protocol" LibraryServiceProtocol Ht ltac:(right; left)) as Hpr. unfold protocol.
    cbn [has LibraryServiceProtocol] in Hpr. destruct (safe_int (member input "protocol")) as [z|]; [|done].
    cbn [existsb] in Hpr. rewrite orb_false_r in Hpr. apply Z.eqb_eq in Hpr as ->. by rewrite bool_decide_eq_true_2. }
  unfold decodeLibraryServiceClientMessage. rewrite Hr, Hp, Hid. destruct (member input "type") as [| | | |s| |]; try done.
  apply String.eqb_eq in Htype as ->. cbn [negb orb]. unfold request_checks. rewrite Hrefused, andb_false_r.
  reflexivity.
Qed.
End Decode.

(** ** A browser, for texts of one byte a character *)

Definition quoted_length (s : string) : Z := text_length s + 2.

(** The length of [JSON.stringify(value)], without escapes. *)
Fixpoint json_length (v : value) : Z :=
  match v with
  | Undefined => 0
  | Null => 4
  | Bool b => if b then 4 else 5
  | Num _ => match safe_int v with Some z => text_length (Z_str z) | None => 4 end
  | Str s => quoted_length s
  | Arr l => foldr (fun v n => json_length v + 1 + n) 2 l
  | Obj members => foldr (fun p n => quoted_length p.1 + json_length p.2 + 2 + n) 2 members
  end.

Definition scheme (s : string) : option string :=
  if starts_with "https://" s then Some "https:" else if starts_with "http://" s then Some "http:" else None.

#[export] Instance browser : CodecApi := {|
  url_protocol := scheme;
  scalar_length := text_length;
  stringify_length := json_length;
  to_text := js_string
|}.

(** ** Requests a page sends *)

Definition request (type : string) (fields : list (string * value)) : value :=
  Obj ([("type", Str type); ("protocol", vint 13); ("requestId", Str "r1")] ++ fields).

Definition show (id : Z) : value := Obj [("type", Str "tv"); ("id", vint id)].

(** A position reported by the player. *)
Definition progress_request : value :=
  request "command"
    [("operationId", Str "o1");
     ("command", Obj [("kind", Str "progress.record"); ("title", show 1396);
        ("episode", Obj [("type", Str "tv"); ("id", vint 1396); ("season", vint 5); ("episode", vint 14)]);
        ("fraction", Num (Some (Q2Qc (QArith_base.Qmake 1 2)))); ("seconds", vint 1400); ("observedAt", vint 1700000000000)])].

(** [ensureAssistantReceipts] of the library model. *)
Definition ensure_request : value :=
  request "task" [("operationId", Str "o2"); ("task", Obj [("kind", Str "assistant.receipts.ensure")])].

Lemma decoded_typed_witness :
  decodeLibraryServiceClientMessage progress_request = inr progress_request /\
  has LibraryServiceClientMessage progress_request = true.
Proof. split; [vm_compute; reflexivity|]. apply (decoded_typed progress_request). vm_compute. reflexivity. Defined.

Lemma exact_is_membership_witness :
  exact (Obj [("refresh", Bool true); ("kind", Str "download.sources")]) ",kind,title,fresh,refresh,early," = true.
Proof.
  rewrite (exact_is_membership ",kind,title,fresh,refresh,early,"); [vm_compute; reflexivity|].
  apply (bool_decide_unpack (_ ∈ key_sets)). vm_compute. reflexivity.
Defined.

Lemma decode_refusal_witness :
  exists f, decodeLibraryServiceClientMessage (Obj [("type", Str "nonsense"); ("protocol", vint 12)]) = inl f /\
    fl_code f = "protocol-mismatch" /\ fl_expectedProtocol f = Some 13.
Proof.
  eexists. split; [vm_compute; reflexivity|].
  apply (decode_refusal (Obj [("type", Str "nonsense"); ("protocol", vint 12)])). vm_compute. reflexivity.
Defined.

Lemma receipts_refused_witness :
  has LibraryServiceClientMessage ensure_request = true /\
  decodeLibraryServiceClientMessage ensure_request = invalid "task is invalid".
Proof.
  split; [vm_compute; reflexivity|].
  apply (receipts_refused ensure_request "assistant.receipts.ensure"); [left|vm_compute; reflexivity..].
Defined.

(** ** Replies a service sends *)

Definition reply (type : string) (fields : list (string * value)) : value :=
  Obj ([("type", Str type); ("protocol", vint 13)] ++ fields).

Definition revision (n : Z) : value :=
  Obj [("instance", Str "i1"); ("generation", Str "g1"); ("revision", vint n)].

(** Continue Watching with one series on it. *)
Definition continue_update : value :=
  reply "update"
    [("subscriptionId", Str "s1"); ("version", revision 7);
     ("value", Obj [("kind", Str "continue");
        ("items", Arr [Obj [("title", show 1396); ("fraction", Num (Some (Q2Qc (QArith_base.Qmake 1 2))));
           ("episode", Obj [("season", vint 5); ("episode", vint 14)])]]);
        ("needsShapes", Arr [])])].

Lemma reply_typed_witness :
  decodeLibraryServiceServerMessage continue_update = inr continue_update /\
  has LibraryServiceServerMessage continue_update = true.
Proof. split; [vm_compute; reflexivity|]. apply (reply_typed continue_update). vm_compute. reflexivity. Defined.
