(* ===== verification/TitleView.v ===== *)
(** * A title's page ([web/src/lib/titleView.ts])

    The view of one title from its own rows: its standing, its reaction, where it is resumed and its episodes. The
    view is posted to the page as a message, which the protocol codec checks; what the rows give is always let
    through. *)

From S2P Require Import Prelude JsMap JsText Json Wire Actions LibraryV4 Library JsValue Codec CodecReply CodecExample.
Open Scope Z_scope.

(** ** Rows of one title *)

Section Rows.
Context `{DocumentPolicy} (get : string -> option Row) (now : Z).

Definition documentOf (name : string) : option DocumentRow :=
  match get name with Some (RDocument d) => Some d | _ => None end.

(** A row under a title's name is the title's document. *)
Definition titleRow (ref : TitleRef) : res (option TitleRow) :=
  match documentOf ("title:" +:+ titleText ref) with
  | None => Ok None
  | Some document =>
      let! rows := projectDocument document now in
      Ok (match head rows with Some (RTitle row) => Some row | _ => None end)
  end.

Definition season_name (id season : Z) : string := "season:tv:" +:+ Z_str id +:+ ":" +:+ Z_str season.

Definition episodeRowNames (ref : TitleRef) (season : Z) : list string :=
  ["title:tv:" +:+ Z_str (ref_id ref); season_name (ref_id ref) season].

Definition episodeRow (ref : TitleRef) (season episode : Z) : res (option EpisodeRow) :=
  if negb (String.eqb (ref_type ref) "tv") then Ok None
  else match documentOf (season_name (ref_id ref) season) with
  | None => Ok None
  | Some document => projectEpisode (documentOf ("title:tv:" +:+ Z_str (ref_id ref))) document (ref_id ref) season episode now
  end.
End Rows.

(** ** The layout of a series *)

Definition by_season (a b : Z * Z) : Z := a.1 - b.1.

Definition laidOutCoordinates (ref : TitleRef) (shape : option Shape) : list EpisodeRef :=
  match shape with
  | Some shape =>
      if String.eqb (ref_type ref) "tv"
      then js_sort by_season (filter (fun p => 0 < p.1) (sh_counts shape)) ≫= fun p => mkEpisodeAt p.1 <$> seqZ 1 p.2
      else []
  | None => []
  end.

Definition lastAired_of (shape : option Shape) : option EpisodeRef := shape ≫= sh_lastAired.

Definition titleCoordinates (ref : TitleRef) (shape : option Shape) : list EpisodeRef :=
  filter (fun e => isAired e (lastAired_of shape) = true) (laidOutCoordinates ref shape).

(** ** The view *)

(** [episodeProgress] of [detailPresentation.ts]: how far an episode was watched, none before its series' reset. *)
Definition episodeProgress (episode : option EpisodeRow) (row : option TitleRow) : Qc :=
  match episode with
  | None => 0
  | Some episode =>
      if from_option (fun r => sv_value (tr_deleted r)) false row then 0
      else if from_option (fun reset => compareStamps (pr_at (ep_progress episode)) reset <=? 0) false (row ≫= tr_episodesReset)
      then 0
      else Qc_max 0 (Qc_min 1 (pr_value (ep_progress episode)))
  end.

Record ViewEpisode : Type := mkViewEpisode {
  ve_at : EpisodeRef;
  ve_watched : bool;
  ve_fraction : Qc;
  ve_seconds : option Qc;
  ve_updatedAt : option Z;
}.

Record ViewProgress : Type := mkViewProgress { vp_fraction : Qc; vp_seconds : option Qc; vp_updatedAt : option Z }.

(** [standing] is [None], or a status other than [none]. *)
Record View : Type := mkView {
  vw_title : TitleRef;
  vw_listed : bool;
  vw_watched : bool;
  vw_reaction : option Reaction;
  vw_standing : option Status;
  vw_progress : option ViewProgress;
  vw_episodes : list ViewEpisode;
}.

Definition positive (q : Qc) : bool := bool_decide (0 < q)%Qc.
Definition started (episodes : list ViewEpisode) : bool := existsb (fun e => positive (ve_fraction e)) episodes.

Definition effectiveStanding (row : option TitleRow) (episodes : list ViewEpisode) : option Status :=
  let in_progress := if started episodes then Some SInProgress else None in
  match row with
  | None => in_progress
  | Some row =>
      if sv_value (tr_deleted row) || bool_decide (sv_value (tr_status row) = SNone) then in_progress
      else if bool_decide (sv_value (tr_status row) = SWatchlist) && started episodes then Some SInProgress
      else Some (sv_value (tr_status row))
  end.

(** [at[0] ? { updatedAt: at[0] } : {}] *)
Definition stamped_at (at_ : Stamp) : option Z := if st_t at_ =? 0 then None else Some (st_t at_).

Section View.
Context (ref : TitleRef) (row : option TitleRow) (episode : Z -> Z -> option EpisodeRow) (shape : option Shape).

(** The aired episodes, and one past the newest aired that was started. *)
Definition view_coordinates : list EpisodeRef :=
  filter (fun e => isAired e (lastAired_of shape) ||
      positive (from_option (fun r => pr_value (ep_progress r)) 0%Qc (episode (ea_season e) (ea_episode e))) = true)
    (laidOutCoordinates ref shape).

Definition view_episode (at_ : EpisodeRef) : ViewEpisode :=
  let held := episode (ea_season at_) (ea_episode at_) in
  let fraction := episodeProgress held row in
  mkViewEpisode at_ (bool_decide (WATCHED <= fraction)%Qc) fraction
    (held ≫= fun r => pr_seconds (ep_progress r)) (held ≫= fun r => stamped_at (pr_at (ep_progress r))).

Definition visible : option TitleRow := row ≫= fun r => if sv_value (tr_deleted r) then None else Some r.

Definition titleView : View :=
  let episodes := view_episode <$> view_coordinates in
  mkView ref
    (from_option (fun r => negb (bool_decide (sv_value (tr_status r) = SNone))) false visible || started episodes)
    (match view_coordinates with
     | [] => from_option (fun r => bool_decide (sv_value (tr_status r) = SWatched)) false visible
     | _ => forallb ve_watched episodes
     end)
    (visible ≫= fun r => sv_value (tr_reaction r))
    (effectiveStanding row episodes)
    (visible ≫= fun r =>
       if positive (pr_value (tr_resume r))
       then Some (mkViewProgress (Qc_max 0 (Qc_min 1 (pr_value (tr_resume r)))) (pr_seconds (tr_resume r))
              (stamped_at (pr_at (tr_resume r))))
       else None)
    episodes.
End View.

(** ** The view as it is posted *)

Definition num (q : Qc) : value := Num (Some q).
Definition ref_value (ref : TitleRef) : value := Obj [("type", Str (ref_type ref)); ("id", vint (ref_id ref))].

(** [...(x !== undefined ? { name: x } : {})] *)
Definition spread {A} (name : string) (f : A -> value) (x : option A) : list (string * value) :=
  match x with Some x => [(name, f x)] | None => [] end.

Definition standing_value (s : Status) : value :=
  Str (match s with SInProgress => "in-progress" | _ => status_str s end).

Definition or_null {A} (f : A -> value) (x : option A) : value := from_option f Null x.

Definition episode_value (e : ViewEpisode) : value :=
  Obj ([("season", vint (ea_season (ve_at e))); ("episode", vint (ea_episode (ve_at e)));
        ("watched", Bool (ve_watched e)); ("fraction", num (ve_fraction e))] ++
       spread "seconds" num (ve_seconds e) ++ spread "updatedAt" vint (ve_updatedAt e)).

Definition progress_value (p : ViewProgress) : value :=
  Obj (("fraction", num (vp_fraction p)) ::
       spread "seconds" num (vp_seconds p) ++ spread "updatedAt" vint (vp_updatedAt p)).

Definition view_value (v : View) : value :=
  Obj [("kind", Str "title"); ("title", ref_value (vw_title v)); ("listed", Bool (vw_listed v));
       ("watched", Bool (vw_watched v)); ("reaction", or_null (fun r => Str (reaction_str r)) (vw_reaction v));
       ("standing", or_null standing_value (vw_standing v)); ("progress", or_null progress_value (vw_progress v));
       ("episodes", Arr (episode_value <$> vw_episodes v))].

(** ** What the page is told of a title holds together *)

Lemma effectiveStanding_named row episodes s : effectiveStanding row episodes = Some s -> s <> SNone.
Proof.
  unfold effectiveStanding. destruct row as [row|]; [|by destruct (started episodes); intros [= <-]].
  destruct (sv_value (tr_deleted row)); cbn [orb]; [by destruct (started episodes); intros [= <-]|].
  case_bool_decide; [by destruct (started episodes); intros [= <-]|].
  destruct (_ && _); by intros [= <-].
Qed.

(** A title is listed exactly when it has a standing, and one that is watched is listed. *)
Lemma titleView_consistent ref row episode shape :
  let view := titleView ref row episode shape in
  (vw_listed view = true <-> vw_standing view <> None) /\ (vw_watched view = true -> vw_listed view = true).
Proof.
  cbn. set (episodes := view_episode row episode <$> view_coordinates ref episode shape). split.
  - unfold visible, effectiveStanding. destruct row as [row|]; cbn; [|by destruct (started episodes)].
    destruct (sv_value (tr_deleted row)); cbn; [by destruct (started episodes)|].
    case_bool_decide; cbn; [by destruct (started episodes)|]. by destruct (_ && _).
  - destruct (view_coordinates ref episode shape) as [|at_ coordinates] eqn:Hc.
    + destruct (visible row) as [r|]; cbn; [|done]. case_bool_decide as Hs; [|done]. by rewrite Hs.
    + intros Hw. apply orb_true_iff. right. unfold started. apply existsb_exists.
      exists (view_episode row episode at_). split; [by left|].
      cbn in Hw. apply andb_prop in Hw as [Hw%bool_decide_eq_true _].
      apply bool_decide_eq_true. cbn. eapply Qcanon.Qclt_le_trans; [|exact Hw]. vm_compute. reflexivity.
Qed.

(** ** What is posted is let through *)

Lemma safe_vint z : 0 <= z <= MAX_SAFE_INTEGER -> safe_int (vint z) = Some z.
Proof.
  intros Hz. unfold safe_int, vint. rewrite qc_int_inject.
  replace (- MAX_SAFE_INTEGER <=? z) with true by (symmetry; apply Z.leb_le; unfold MAX_SAFE_INTEGER; lia).
  by replace (z <=? MAX_SAFE_INTEGER) with true by (symmetry; apply Z.leb_le; lia).
Qed.

Lemma integer_vint z : 0 <= z <= MAX_SAFE_INTEGER -> integer (vint z) = true.
Proof. intros Hz. unfold integer. rewrite safe_vint by done. lia. Qed.

Lemma positive_vint z : 0 < z <= MAX_SAFE_INTEGER -> positiveInteger (vint z) = true.
Proof. intros Hz. unfold positiveInteger. rewrite safe_vint by lia. lia. Qed.

Lemma unit_num q : (0 <= q)%Qc -> (q <= 1)%Qc -> unit_interval (num q) = true.
Proof. intros H0 H1. apply andb_true_intro; split; [|by apply bool_decide_eq_true_2]. by apply bool_decide_eq_true_2. Qed.

Lemma unit_bounds q : (0 <= Qc_max 0 (Qc_min 1 q))%Qc /\ (Qc_max 0 (Qc_min 1 q) <= 1)%Qc.
Proof.
  assert (Hmin : (Qc_min 1 q <= 1)%Qc).
  { unfold Qc_min. destruct (Qc_leb 1 q) eqn:E; [apply Qcle_refl|]. by apply Qclt_le_weak, Qc_leb_gt. }
  unfold Qc_max. destruct (Qc_leb 0 (Qc_min 1 q)) eqn:E; [split; [by apply Qc_leb_le|done]|by split].
Qed.

Lemma episodeProgress_bounds episode row : (0 <= episodeProgress episode row)%Qc /\ (episodeProgress episode row <= 1)%Qc.
Proof.
  unfold episodeProgress. destruct episode as [episode|]; [|done]. destruct (from_option _ _ _); [done|].
  destruct (from_option _ _ _); [done|]. apply unit_bounds.
Qed.

Definition ref_ok (ref : TitleRef) : Prop := is_media (ref_type ref) = true /\ 0 < ref_id ref <= MAX_SAFE_INTEGER.
Definition stamp_ok (at_ : Stamp) : Prop := 0 <= st_t at_ <= MAX_SAFE_INTEGER.
Definition coordinate_ok (e : EpisodeRef) : Prop := 0 < ea_season e <= MAX_SAFE_INTEGER /\ 0 < ea_episode e <= MAX_SAFE_INTEGER.

(** Splits a check into its conjuncts, and reads off the ones its keys decide. *)
Ltac each :=
  repeat match goal with |- _ && _ = true => apply andb_true_intro; split end;
  try lazymatch goal with
  | |- exact _ _ = true => vm_compute; reflexivity
  | |- record _ = true => reflexivity
  | |- bool_ _ = true => reflexivity
  | |- optional _ finite = true => reflexivity
  end.

Lemma ref_value_ok ref : ref_ok ref -> titleRef (ref_value ref) = true.
Proof.
  intros [Hm Hid]. unfold titleRef. each; [|exact (positive_vint (ref_id ref) Hid)].
  change (String.eqb (ref_type ref) "movie" || (String.eqb (ref_type ref) "tv" || false) = true).
  by rewrite orb_false_r.
Qed.

Lemma stamped_at_ok at_ t : stamp_ok at_ -> stamped_at at_ = Some t -> integer (vint t) = true.
Proof. intros Hs. unfold stamped_at. destruct (st_t at_ =? 0); [done|]. intros [= <-]. by apply integer_vint. Qed.

Lemma progress_value_ok p :
  (0 <= vp_fraction p)%Qc /\ (vp_fraction p <= 1)%Qc -> (forall t, vp_updatedAt p = Some t -> integer (vint t) = true) ->
  progress (progress_value p) = true.
Proof.
  destruct p as [fraction seconds updatedAt]. cbn [vp_fraction vp_updatedAt]. intros [H0 H1] Hu.
  destruct seconds as [seconds|], updatedAt as [t|]; unfold progress; each;
    first [exact (unit_num _ H0 H1)|exact (Hu t eq_refl)|reflexivity].
Qed.

Lemma episode_value_ok e :
  coordinate_ok (ve_at e) -> (0 <= ve_fraction e)%Qc /\ (ve_fraction e <= 1)%Qc ->
  (forall t, ve_updatedAt e = Some t -> integer (vint t) = true) -> CodecReply.episodeProgress (episode_value e) = true.
Proof.
  destruct e as [[season episode] watched fraction seconds updatedAt]. cbn [ve_at ve_fraction ve_updatedAt].
  intros [Hs He] [H0 H1] Hu. cbn [ea_season ea_episode] in *.
  assert (Hseason : integer (vint season) = true) by (apply integer_vint; lia).
  destruct seconds as [seconds|], updatedAt as [t|]; unfold CodecReply.episodeProgress; each;
    first [exact Hseason|exact (positive_vint _ He)|exact (unit_num _ H0 H1)|exact (Hu t eq_refl)|reflexivity].
Qed.

(** ** Coordinates are distinct *)

Lemma remove_dups_id {A} `{!EqDecision A} (l : list A) : NoDup l -> remove_dups l = l.
Proof. induction 1 as [|x l Hx Hl IH]; cbn; [done|]. rewrite IH. by destruct (decide_rel _ x l). Qed.

Lemma unique_ok key l : NoDup (key <$> l) -> unique (Arr l) key = true.
Proof. intros Hn. unfold unique. cbn [items]. rewrite remove_dups_id, length_fmap by done. apply Nat.eqb_refl. Qed.

Definition at_text (e : EpisodeRef) : string := Z_str (ea_season e) +:+ ":" +:+ Z_str (ea_episode e).

Lemma at_text_inj e e' : at_text e = at_text e' -> e = e'.
Proof.
  intros Heq%(f_equal (split_on ":")). unfold at_text in Heq. cbn [String.append] in Heq.
  rewrite !split_on_app in Heq by (by apply Z_str_no_char).
  rewrite !split_on_plain in Heq by (by apply Z_str_no_char). injection Heq as Hs%(inj Z_str) He%(inj Z_str).
  destruct e, e'. by cbn in *; subst.
Qed.

Lemma coordinate_of_value e : coordinate_ok (ve_at e) -> coordinate_of (episode_value e) = at_text (ve_at e).
Proof.
  destruct e as [[season episode] watched fraction seconds updatedAt]. intros [Hs He]. cbn in Hs, He.
  change (js_string (vint season) +:+ ":" +:+ js_string (vint episode) = at_text (mkEpisodeAt season episode)).
  unfold js_string, vint. fold (vint season) (vint episode). by rewrite !safe_vint by lia.
Qed.

Definition shape_ok (shape : Shape) : Prop :=
  map_wf (sh_counts shape) /\ forall p, p ∈ sh_counts shape -> p.1 <= MAX_SAFE_INTEGER /\ p.2 <= MAX_SAFE_INTEGER.

Lemma laidOut_ok ref shape :
  from_option shape_ok True shape ->
  NoDup (laidOutCoordinates ref shape) /\ Forall coordinate_ok (laidOutCoordinates ref shape).
Proof.
  destruct shape as [shape|]; [|by split; constructor]. intros [Hwf Hok]. cbn [laidOutCoordinates].
  destruct (String.eqb _ _); [|by split; constructor].
  set (l := js_sort _ _). assert (Hl : l ≡ₚ filter (fun p => 0 < p.1) (sh_counts shape)) by apply js_sort_perm. split.
  - apply NoDup_bind.
    + intros p p' e Hp Hp' He He'. rewrite Hl in Hp, Hp'. apply list_elem_of_filter in Hp as [_ Hp], Hp' as [_ Hp'].
      apply list_elem_of_fmap in He as (n & -> & _), He' as (n' & [= Heq _] & _).
      destruct p as [k c], p' as [k' c']. cbn in Heq. subst k'. apply (map_elem_get _ _ _ Hwf) in Hp, Hp'. congruence.
    + intros p _. apply NoDup_fmap_2; [by intros ?? [=]|apply NoDup_seqZ].
    + rewrite Hl. apply NoDup_filter. by apply (NoDup_fmap_1 fst).
  - apply Forall_forall. intros e (p & He & Hp)%list_elem_of_bind. rewrite Hl in Hp.
    apply list_elem_of_filter in Hp as [Hpos Hp]. destruct (Hok p Hp) as [Hs Hc].
    apply list_elem_of_fmap in He as (n & -> & Hn%elem_of_seqZ). split; cbn; lia.
Qed.

Section Accepted.
Context `{CodecApi} (ref : TitleRef) (row : option TitleRow) (episode : Z -> Z -> option EpisodeRow) (shape : option Shape).
Hypothesis Href : ref_ok ref.
Hypothesis Hshape : from_option shape_ok True shape.
Hypothesis Hrow : forall r, row = Some r -> stamp_ok (pr_at (tr_resume r)).
Hypothesis Hepisode : forall s e r, episode s e = Some r -> stamp_ok (pr_at (ep_progress r)).
Hypothesis Htotal : count (laidOutCoordinates ref shape) <= collectionItems.

Let coordinates := view_coordinates ref episode shape.

Lemma view_coordinates_ok : NoDup coordinates /\ Forall coordinate_ok coordinates.
Proof.
  destruct (laidOut_ok ref shape Hshape) as [Hn Hf]. split; [by apply NoDup_filter|].
  apply Forall_forall. intros e [_ He]%list_elem_of_filter. by eapply Forall_forall in Hf.
Qed.

Lemma view_episode_ok at_ : coordinate_ok at_ -> CodecReply.episodeProgress (episode_value (view_episode row episode at_)) = true.
Proof.
  intros Hat. apply episode_value_ok; [done|apply episodeProgress_bounds|]. cbn. intros t Ht.
  destruct (episode _ _) as [r|] eqn:Hr; [|done]. cbn in Ht. eapply stamped_at_ok; [|exact Ht]. by eapply Hepisode.
Qed.

Lemma view_episodes_ok :
  list_ (Arr (episode_value <$> (view_episode row episode <$> coordinates))) CodecReply.episodeProgress collectionItems = true /\
  unique (Arr (episode_value <$> (view_episode row episode <$> coordinates))) coordinate_of = true.
Proof.
  destruct view_coordinates_ok as [Hn Hf]. split.
  - apply andb_true_intro; split.
    + apply Z.leb_le. unfold count in *. rewrite !length_fmap. etrans; [|exact Htotal]. apply inj_le, length_filter.
    + apply forallb_forall. intros v Hv%list_elem_of_In. rewrite <-list_fmap_compose in Hv.
      apply list_elem_of_fmap in Hv as (at_ & -> & Hat). apply view_episode_ok. by eapply Forall_forall in Hf.
  - apply unique_ok. rewrite <-!list_fmap_compose.
    rewrite (list_fmap_ext _ at_text); [apply NoDup_fmap_2; [exact at_text_inj|done]|].
    intros i at_ Hat%list_elem_of_lookup_2. cbn. apply coordinate_of_value. by eapply Forall_forall in Hf.
Qed.

Lemma view_progress_ok :
  nullable (member (view_value (titleView ref row episode shape)) "progress") progress = true.
Proof.
  change (nullable (or_null progress_value (vw_progress (titleView ref row episode shape))) progress = true).
  cbn [titleView vw_progress]. unfold visible. destruct row as [r|]; [|done]. cbn.
  destruct (sv_value (tr_deleted r)); [done|]. cbn. destruct (positive _); [|done].
  cbn [or_null from_option]. apply orb_true_iff. right. apply progress_value_ok; [apply unit_bounds|].
  cbn. intros t Ht. eapply stamped_at_ok; [|exact Ht]. by apply Hrow.
Qed.

(** C14: The view of a title from its own rows is always let through to the page: for a title the codec knows, rows
    whose stamps are safe and a layout of at most [collectionItems] episodes, the posted view passes the codec's check,
    its episodes are pairwise distinct and its fractions are within bounds. *)
Theorem titleView_accepted : selectionValue (view_value (titleView ref row episode shape)) = true.
Proof.
  destruct view_episodes_ok as [Hlist Hunique]. unfold selectionValue, by_kind.
  set (view := view_value _). assert (Hkind : member view "kind" = Str "title") by reflexivity.
  rewrite Hkind. cbn [switch existsb String.eqb Ascii.eqb Bool.eqb orb]. each.
  - reflexivity.
  - exact (ref_value_ok ref Href).
  - change (nullable (or_null (fun r => Str (reaction_str r)) (visible row ≫= fun r => sv_value (tr_reaction r))) reaction = true).
    by destruct (_ ≫= _) as [[]|].
  - change (nullable (or_null standing_value (effectiveStanding row (view_episode row episode <$> coordinates))) standing = true).
    destruct (effectiveStanding _ _) as [[]|] eqn:Hs; [by apply effectiveStanding_named in Hs|done..].
  - apply view_progress_ok.
  - exact Hlist.
  - exact Hunique.
Qed.
End Accepted.

(** ** A series with two seasons *)

Module Series.
Definition ref : TitleRef := mkRef "tv" 1396.
Definition at_ : Stamp := mkStamp 1700000000000 0 "0123456789abcdef".
Definition shape : Shape := mkShape [(1, 2); (0, 4); (2, 1)] (Some (mkEpisodeAt 1 2)).
Definition seen (value : Qc) : Progress := mkProgress value at_ 0 (Some 1%Qc) None.
Definition row : TitleRow :=
  mkTitleRow 2 ref (mkStamped SInProgress at_) (seen 0%Qc) (mkStamped (Some RLike) at_) (mkStamped false ZERO_STAMP)
    (mkStamped false ZERO_STAMP) None 1700000000000 None [].

(** The first episode was watched, and the one not aired yet was started. *)
Definition episode (season number : Z) : option EpisodeRow :=
  if (season =? 1) && (number =? 1) then Some (mkEpisodeRow 2 ref 1 1 (seen 1%Qc) [])
  else if season =? 2 then Some (mkEpisodeRow 2 ref 2 1 (seen (Q2Qc (QArith_base.Qmake 1 2))) []) else None.

Example view_episodes : (fun e => (ve_at e, ve_watched e)) <$> vw_episodes (titleView ref (Some row) episode (Some shape)) =
  [(mkEpisodeAt 1 1, true); (mkEpisodeAt 1 2, false); (mkEpisodeAt 2 1, false)].
Proof. vm_compute. reflexivity. Qed.
End Series.

Lemma titleView_accepted_witness :
  selectionValue (view_value (titleView Series.ref (Some Series.row) Series.episode (Some Series.shape))) = true.
Proof.
  apply titleView_accepted.
  - split; [reflexivity|]. cbn. unfold MAX_SAFE_INTEGER. lia.
  - split; [apply NoDup_ListNoDup; repeat constructor; cbn; lia|].
    cbn. unfold MAX_SAFE_INTEGER. intros p Hp. repeat (apply elem_of_cons in Hp as [->|Hp]; [cbn; lia|]).
    by apply not_elem_of_nil in Hp.
  - intros r [= <-]. split; cbn; unfold MAX_SAFE_INTEGER; lia.
  - intros s e r. unfold Series.episode. destruct (_ && _); [|destruct (s =? 2); [|done]];
      intros [= <-]; split; cbn; unfold MAX_SAFE_INTEGER; lia.
  - vm_compute. done.
Defined.
