(* ===== verification/Client.v ===== *)
(** * The page's end of the library service ([web/src/lib/libraryServiceClient.ts])

    [LibraryServiceClient]: requests with ids of their own, promises settled by the replies that match them, and the
    listeners of subscriptions, which are given each value once and never an older one. A call of the client is a
    step from state to state with what it does outside itself as outputs, and with the requests it settled, whose
    [await]s continue in a step of their own ([continue_]). *)

From S2P Require Import Prelude JsMap JsText Json Wire ServiceCore.
Open Scope Z_scope.

(** ** Replies and the requests they answer *)

(** A member of a value that may be absent. *)
Definition jmem (name : string) (j : json) : json := default JNull (jget name j).
Definition jkind (j : json) : json := jmem "kind" j.
Definition is_kind (kind : string) (j : json) : bool := bool_decide (jkind j = JStr kind).

(** [{ type, id }] *)
Definition is_title (title : TitleRef) (j : json) : bool :=
  bool_decide (jmem "type" j = JStr (ref_type title)) && bool_decide (jmem "id" j = jint (ref_id title)).

Definition jitems (j : json) : list json := match j with JArr l => l | _ => [] end.

Fixpoint same_titles (titles : list TitleRef) (items : list json) : bool :=
  match titles, items with
  | [], [] => true
  | title :: titles, item :: items => is_title title (jmem "title" item) && same_titles titles items
  | _, _ => false
  end.

Definition selectionMatches (selection : LibrarySelection) (value : json) : bool :=
  match selection with
  | SelKind kind _ => is_kind kind value
  | SelPresence titles => is_kind "presence" value && same_titles titles (jitems (jmem "items" value))
  | SelTitle title => is_kind "title" value && is_title title (jmem "title" value)
  end.

Definition newer (candidate : LibraryVersion) (current : option LibraryVersion) : bool :=
  match current with
  | None => true
  | Some current => String.eqb (ve_instance candidate) (ve_instance current) && (ve_revision current <? ve_revision candidate)
  end.

Definition queryResultKind (kind : json) : json :=
  if bool_decide (kind = JStr "retained.services.get") then JStr "retained.services"
  else if bool_decide (kind = JStr "retained.home-continue.get") then JStr "retained.home-continue"
  else if bool_decide (kind = JStr "retained.billboard.get") then JStr "retained.billboard"
  else kind.

Definition same_member (name : string) (a b : json) : bool := bool_decide (jmem name a = jmem name b).

Definition sameBillboardScope (left right : json) : bool :=
  same_member "kind" left right && same_member "facet" left right && same_member "fresh" left right.

(** What a query and its result have in common beyond their kinds. *)
Definition result_answers (query result : json) : bool :=
  bool_decide (jkind result = queryResultKind (jkind query)) &&
  (if is_kind "retained.billboard.get" query then sameBillboardScope (jmem "scope" query) (jmem "scope" result)
   else if is_kind "playback.prepare" query
   then same_member "type" (jmem "target" result) (jmem "title" query) && same_member "id" (jmem "target" result) (jmem "title" query)
   else true).

Definition reply_version (m : Message) : option LibraryVersion :=
  match m with
  | MReady _ _ v | MUpdate _ v _ | MSubscribed _ _ v | MCommandResult _ _ _ _ v | MQueryResult _ _ v
  | MTaskResult _ _ _ v | MObserved _ v => Some v
  | MUnsubscribed _ _ | MStatus _ | MError _ _ _ => None
  end.

Definition replyMatches (request : Request) (reply : Message) (instance : option string) : bool :=
  match reply_version reply, instance with
  | Some v, Some i => String.eqb i "" || String.eqb (ve_instance v) i
  | _, _ => true
  end &&
  match request, reply with
  | RqHello _ _, MReady _ _ _ => true
  | RqCommand _ op _, MCommandResult _ op' _ _ _ => String.eqb op' op
  | RqQuery _ query, MQueryResult _ result _ => result_answers query result
  | RqTask _ op task, MTaskResult _ op' result _ => String.eqb op' op && bool_decide (jkind result = jkind task)
  | RqSubscribe _ id _, MSubscribed _ id' _ => String.eqb id' id
  | RqUnsubscribe _ id, MUnsubscribed _ id' => String.eqb id' id
  | RqObserve _ _, MObserved _ _ => true
  | _, _ => false
  end.

(** ** State *)

(** A subscription, with the version its listener was last given and whether its stop function is still live
    ([subscribed]). *)
Record ClientSub : Type := mkClientSub {
  cs_selection : LibrarySelection;
  cs_version : option LibraryVersion;
  cs_subscribed : bool;
}.

(** How a client was made: its id, whether it was given [installRelayMembership] (which answers how to undo it), and
    whether it owns its transport. *)
Record Config : Type := mkConfig { cf_id : string; cf_installs : bool; cf_owns : bool }.

Record Client : Type := mkClient {
  cl_config : Config;
  cl_pending : jsmap string Request;
  cl_subscriptions : jsmap string ClientSub;
  cl_nextRequest : Z;
  cl_nextSubscription : Z;
  cl_instance : option string;
  cl_relay : bool;  (** [#stopRelayMembership] is held *)
  cl_progress : bool;  (** the last [open] was given a [progress] *)
  cl_closed : bool;
}.

Definition newClient (config : Config) : Client := mkClient config [] [] 0 0 None false false false.

(** How the promise of [#request] settles. *)
Inductive Settlement : Type := Resolved (reply : Message) | Rejected (error : Thrown).

(** What a step does outside the client. *)
Inductive Output : Type :=
| OSend (request : Request)
| OSettle (requestId : string) (outcome : Settlement)
| ORefuse (error : Thrown)
| OValue (subscriptionId : string) (value : json) (version : LibraryVersion)
| OStatus (status : LibrarySessionStatus)
| OProgress (progress : Qc)
| OArm (requestId : string)
| ORelay (membership : option json)
| OStopRelay
| OCloseTransport.

(** A message of the transport: a reply of the service, or the progress of a hello still open. *)
Inductive Incoming : Type :=
| Served (m : Message)
| Opening (requestId : string) (progress : Qc).

Definition set_pending (c : Client) (pending : jsmap string Request) : Client :=
  mkClient (cl_config c) pending (cl_subscriptions c) (cl_nextRequest c) (cl_nextSubscription c) (cl_instance c) (cl_relay c) (cl_progress c) (cl_closed c).
Definition set_subs (c : Client) (subs : jsmap string ClientSub) : Client :=
  mkClient (cl_config c) (cl_pending c) subs (cl_nextRequest c) (cl_nextSubscription c) (cl_instance c) (cl_relay c) (cl_progress c) (cl_closed c).
Definition set_relay (c : Client) (relay : bool) : Client :=
  mkClient (cl_config c) (cl_pending c) (cl_subscriptions c) (cl_nextRequest c) (cl_nextSubscription c) (cl_instance c) relay (cl_progress c) (cl_closed c).
Definition set_progress (c : Client) (progress : bool) : Client :=
  mkClient (cl_config c) (cl_pending c) (cl_subscriptions c) (cl_nextRequest c) (cl_nextSubscription c) (cl_instance c) (cl_relay c)
    progress (cl_closed c).
Definition opened_as (c : Client) (instance : string) (relay : bool) : Client :=
  mkClient (cl_config c) (cl_pending c) (cl_subscriptions c) (cl_nextRequest c) (cl_nextSubscription c) (Some instance) relay (cl_progress c) (cl_closed c).

(** ** Requests *)

Definition cancelled : LibraryServiceFailure := failure "cancelled" "library service client is closed" false.

(** [#requestId] *)
Definition requestId (c : Client) : string := cf_id (cl_config c) +:+ ":" +:+ Z_str (cl_nextRequest c + 1).
Definition counted (c : Client) : Client :=
  mkClient (cl_config c) (cl_pending c) (cl_subscriptions c) (cl_nextRequest c + 1) (cl_nextSubscription c) (cl_instance c)
    (cl_relay c) (cl_progress c) (cl_closed c).

(** [#request]: the transport either takes the message or throws. Only a hello has a deadline. *)
Definition request_ (c : Client) (request : Request) (throws : option Thrown) : Client * list Output :=
  match throws with
  | None =>
      (set_pending c (map_set (request_id request) request (cl_pending c)),
       match request with RqHello id _ => [OArm id] | _ => [] end ++ [OSend request])
  | Some error => (c, [OSettle (request_id request) (Rejected error)])
  end.

(** The calls a page makes; [CUnsubscribe] is the function [subscribe] answered. *)
Inductive Call : Type :=
| COpen (libraryKey mode : string) (wire : option string) (progress : bool)
| CCommand (operationId : string) (command : json)
| CQuery (query : json)
| CTask (operationId : string) (task : json)
| CObserve (observation : json)
| CSubscribe (selection : LibrarySelection)
| CUnsubscribe (subscriptionId : string).

Definition subscription_name (n : Z) : string := "subscription-" +:+ Z_str n.

(** The state in which a call makes its request, and the request. *)
Definition prepare (c : Client) (call : Call) : Client * Request :=
  let id := requestId c in
  match call with
  | COpen key mode wire progress =>
      (set_progress (counted c) progress, RqHello id (mkHello (cf_id (cl_config c)) key mode (default "4" wire)))
  | CCommand op command => (counted c, RqCommand id op command)
  | CQuery query => (counted c, RqQuery id query)
  | CTask op task => (counted c, RqTask id op task)
  | CObserve observation => (counted c, RqObserve id observation)
  | CSubscribe selection =>
      let name := subscription_name (cl_nextSubscription c + 1) in
      (mkClient (cl_config c) (cl_pending c) (map_set name (mkClientSub selection None false) (cl_subscriptions c))
         (cl_nextRequest c + 1) (cl_nextSubscription c + 1) (cl_instance c) (cl_relay c) (cl_progress c) (cl_closed c),
       RqSubscribe id name selection)
  | CUnsubscribe name => (set_subs (counted c) (map_delete name (cl_subscriptions c)), RqUnsubscribe id name)
  end.

(** What runs after a request settled: [open] installs the relay membership and learns the instance; [subscribe]
    hands out the function that stops it, or forgets a subscription that failed; the others only answer. *)
Definition continue_open (c : Client) (membership : option json) (v : LibraryVersion) : Client * list Output :=
  let installs := cf_installs (cl_config c) in
  (opened_as c (ve_instance v) installs,
   (if cl_relay c then [OStopRelay] else []) ++ (if installs then [ORelay membership] else [])).

Definition continue_subscribe (c : Client) (name : string) (outcome : Settlement) : Client * list Output :=
  match outcome with
  | Resolved _ =>
      match map_get name (cl_subscriptions c) with
      | Some sub => (set_subs c (map_set name (mkClientSub (cs_selection sub) (cs_version sub) true) (cl_subscriptions c)), [])
      | None => (c, [])
      end
  | Rejected _ => (set_subs c (map_delete name (cl_subscriptions c)), [])
  end.

Definition continue_ (c : Client) (request : Request) (outcome : Settlement) : Client * list Output :=
  match request, outcome with
  | RqHello _ _, Resolved (MReady _ membership v) => continue_open c membership v
  | RqSubscribe _ name _, _ => continue_subscribe c name outcome
  | _, _ => (c, [])
  end.

(** The function [subscribe] answered does nothing a second time. *)
Definition may_stop (c : Client) (name : string) : bool :=
  match map_get name (cl_subscriptions c) with Some sub => cs_subscribed sub | None => false end.

(** What is settled during an event, with its request, for the code that awaited it to continue. *)
Definition Settled : Type := list (Request * Settlement).

(** A call on a closed client: the id is counted before [#request] refuses, but [subscribe] refuses first. *)
Definition call_closed (c : Client) (call : Call) : Client * list Output * Settled :=
  match call with
  | CSubscribe _ => (c, [ORefuse (AuthorityError cancelled)], [])
  | CUnsubscribe _ => (c, [], [])
  | _ => ((prepare c call).1, [OSettle (requestId c) (Rejected (AuthorityError cancelled))], [])
  end.

Definition call (c : Client) (call : Call) (throws : option Thrown) : Client * list Output * Settled :=
  if cl_closed c then call_closed c call
  else if match call with CUnsubscribe name => negb (may_stop c name) | _ => false end then (c, [], [])
  else
    let '(c, request) := prepare c call in
    let '(c, out) := request_ c request throws in
    (c, out, match throws with Some error => [(request, Rejected error)] | None => [] end).

(** ** What arrives *)

(** [#failAll] *)
Definition failAll (c : Client) (error : LibraryServiceFailure) : Client * list Output * Settled :=
  let settled := (fun p => (p.2, Rejected (AuthorityError error))) <$> cl_pending c in
  (set_pending c [], ((fun p => OSettle p.1 (Rejected (AuthorityError error))) <$> cl_pending c) ++ [OStatus (SsFailed error)], settled).

Definition wrong_value : LibraryServiceFailure :=
  failure "invalid-request" "library service returned the wrong selection value" false.
Definition wrong_reply : LibraryServiceFailure :=
  failure "invalid-request" "library service reply did not match its request" false.

Definition receive_update (c : Client) (name : string) (v : LibraryVersion) (value : json) : Client * list Output * Settled :=
  match map_get name (cl_subscriptions c) with
  | None => (c, [], [])
  | Some sub =>
      if negb (bool_decide (Some (ve_instance v) = cl_instance c)) || negb (newer v (cs_version sub)) then (c, [], [])
      else if negb (selectionMatches (cs_selection sub) value) then failAll c wrong_value
      else (set_subs c (map_set name (mkClientSub (cs_selection sub) (Some v) (cs_subscribed sub)) (cl_subscriptions c)), [OValue name value v], [])
  end.

Definition reply_id (m : Message) : option string :=
  match m with
  | MReady id _ _ | MSubscribed id _ _ | MUnsubscribed id _ | MCommandResult id _ _ _ _ | MQueryResult id _ _
  | MTaskResult id _ _ _ | MObserved id _ => Some id
  | MError _ id _ => match id with Some "" => None | _ => id end
  | MUpdate _ _ _ | MStatus _ => None
  end.

Definition settle (c : Client) (id : string) (request : Request) (outcome : Settlement) : Client * list Output * Settled :=
  (set_pending c (map_delete id (cl_pending c)), [OSettle id outcome], [(request, outcome)]).

Definition receive_reply (c : Client) (m : Message) (id : string) : Client * list Output * Settled :=
  match map_get id (cl_pending c) with
  | None => (c, [], [])
  | Some request =>
      match m with
      | MError error _ _ => settle c id request (Rejected (AuthorityError error))
      | _ =>
          if replyMatches request m (cl_instance c) then settle c id request (Resolved m)
          else
            let '(c, out, settled) := settle c id request (Rejected (AuthorityError wrong_reply)) in
            let '(c, out', settled') := failAll c wrong_reply in
            (c, out ++ out', settled ++ settled')
      end
  end.

(** [#receive] *)
Definition receive (c : Client) (message : Incoming) : Client * list Output * Settled :=
  if cl_closed c then (c, [], [])
  else match message with
  | Opening id progress =>
      (c, match map_get id (cl_pending c) with Some (RqHello _ _) => [OArm id] | _ => [] end ++
       (if cl_progress c then [OProgress progress] else []), [])
  | Served (MUpdate name v value) => receive_update c name v value
  | Served (MStatus status) =>
      match status with
      | SsMoved _ => (set_relay c false, (if cl_relay c then [OStopRelay] else []) ++ [OStatus status], [])
      | _ => (c, [OStatus status], [])
      end
  | Served m =>
      match reply_id m with
      | Some id => receive_reply c m id
      | None => match m with MError error _ _ => failAll c error | _ => (c, [], []) end
      end
  end.

(** The deadline of a hello. *)
Definition startup_timeout : LibraryServiceFailure :=
  failure "unavailable" "Library service startup timed out while opening browser storage" true.

Definition timeout (c : Client) (id : string) : Client * list Output * Settled :=
  match map_get id (cl_pending c) with
  | Some (RqHello i h) => settle c id (RqHello i h) (Rejected (AuthorityError startup_timeout))
  | _ => (c, [], [])
  end.

(** [close] *)
Definition close (c : Client) : Client * list Output * Settled :=
  if cl_closed c then (c, [], [])
  else
    (mkClient (cl_config c) [] [] (cl_nextRequest c) (cl_nextSubscription c) (cl_instance c) false (cl_progress c) true,
     (if cl_relay c then [OStopRelay] else []) ++ (if cf_owns (cl_config c) then [OCloseTransport] else []) ++
     ((fun p => OSettle p.1 (Rejected (AuthorityError cancelled))) <$> cl_pending c),
     (fun p => (p.2, Rejected (AuthorityError cancelled))) <$> cl_pending c).

(** ** Runs against any transport

    [run config c waiting out]: the client of [config] can be in [c] having done [out], with [waiting] settled and
    the code that awaited it still to continue, whatever the page called (also from inside a listener), the transport
    delivered and the clock let pass. *)

Inductive event : Type :=
| EvCall (page : Call) (throws : option Thrown)
| EvReceive (message : Incoming)
| EvTimeout (requestId : string)
| EvClose.

Definition step (c : Client) (e : event) : Client * list Output * Settled :=
  match e with
  | EvCall page throws => call c page throws
  | EvReceive message => receive c message
  | EvTimeout id => timeout c id
  | EvClose => close c
  end.

Inductive run (config : Config) : Client -> Settled -> list Output -> Prop :=
| run_new : run config (newClient config) [] []
| run_step c waiting out e :
    run config c waiting out ->
    run config (step c e).1.1 (waiting ++ (step c e).2) (out ++ (step c e).1.2)
| run_continue c p waiting out :
    run config c (p :: waiting) out ->
    run config (continue_ c p.1 p.2).1 waiting (out ++ (continue_ c p.1 p.2).2).

Definition settled_id (o : Output) : option string := match o with OSettle id _ => Some id | _ => None end.
Definition settled_ids (out : list Output) : list string := omap settled_id out.

(** The ids of the requests a client has made. *)
Definition issued (c : Client) : list string :=
  (fun i => cf_id (cl_config c) +:+ ":" +:+ Z_str i) <$> seqZ 1 (cl_nextRequest c).

(** What holds of a client and its outputs. *)
Record client_inv (c : Client) (out : list Output) : Prop := {
  ci_issued : settled_ids out ++ map_keys (cl_pending c) ≡ₚ issued c;
  ci_pending id r : map_get id (cl_pending c) = Some r -> request_id r = id /\ OSend r ∈ out;
  ci_resolved id m : OSettle id (Resolved m) ∈ out ->
    exists r instance, OSend r ∈ out /\ request_id r = id /\ replyMatches r m instance = true;
  ci_closed : cl_closed c = true -> cl_pending c = [] /\ cl_subscriptions c = [];
  ci_next : 0 <= cl_nextRequest c;
}.

Lemma settled_ids_app out out' : settled_ids (out ++ out') = settled_ids out ++ settled_ids out'.
Proof. apply omap_app. Qed.

Lemma issued_counted c : 0 <= cl_nextRequest c -> issued (counted c) = issued c ++ [requestId c].
Proof.
  intros Hn. unfold issued, requestId. cbn [counted cl_config cl_nextRequest]. rewrite seqZ_app by lia. rewrite fmap_app.
  do 2 f_equal. cbn. by replace (1 + cl_nextRequest c) with (cl_nextRequest c + 1) by lia.
Qed.

Lemma issued_NoDup c : NoDup (issued c).
Proof.
  apply NoDup_fmap_2; [|apply NoDup_seqZ]. intros i j Hij. apply (inj Z_str).
  by apply (inj (String.append ":")), (inj (String.append (cf_id (cl_config c)))).
Qed.

Lemma inv_wf c out : client_inv c out -> map_wf (cl_pending c) /\ NoDup (settled_ids out).
Proof.
  intros [Hi _ _ _ _]. assert (Hn : NoDup (settled_ids out ++ map_keys (cl_pending c))) by (rewrite Hi; apply issued_NoDup).
  apply NoDup_app in Hn as (? & _ & ?). by split.
Qed.

Lemma map_keys_delete_perm {V} id (m : jsmap string V) x :
  map_wf m -> map_get id m = Some x -> id :: map_keys (map_delete id m) ≡ₚ map_keys m.
Proof.
  intros Hwf Hx. apply NoDup_Permutation; [|exact Hwf|].
  - constructor; [|exact (map_wf_delete id m Hwf)]. rewrite elem_of_map_keys_delete. naive_solver.
  - intros k. rewrite elem_of_cons, elem_of_map_keys_delete. destruct (decide (k = id)) as [->|]; [|naive_solver].
    split; [intros _; by apply map_get_is_Some; exists x|by left].
Qed.

(** Steps that make and settle no request. *)
Lemma inv_frame c out c' out' :
  client_inv c out -> cl_config c' = cl_config c -> cl_pending c' = cl_pending c -> cl_nextRequest c' = cl_nextRequest c ->
  (cl_closed c' = true -> cl_closed c = true /\ cl_subscriptions c' = []) -> settled_ids out' = [] -> client_inv c' (out ++ out').
Proof.
  intros [Hi Hp Hr Hc Hn] E1 E2 E3 E4 E5. split; unfold issued; rewrite ?E1, ?E2, ?E3; [|..|naive_solver|done].
  - by rewrite settled_ids_app, E5, app_nil_r.
  - intros id r Hid. destruct (Hp id r Hid). split; [done|]. by apply elem_of_app; left.
  - intros id m [Hin|Hin]%elem_of_app.
    + destruct (Hr id m Hin) as (r & i & Hs & ?). exists r, i. split; [by apply elem_of_app; left|done].
    + exfalso. apply (not_elem_of_nil id). rewrite <- E5. apply list_elem_of_omap. by exists (OSettle id (Resolved m)).
Qed.

(** A reply that matches, or a refusal, settles one request. *)
Definition settles (r : Request) (outcome : Settlement) : Prop :=
  match outcome with Resolved m => exists instance, replyMatches r m instance = true | Rejected _ => True end.

Lemma inv_settle c out id r outcome :
  client_inv c out -> map_get id (cl_pending c) = Some r -> settles r outcome ->
  client_inv (set_pending c (map_delete id (cl_pending c))) (out ++ [OSettle id outcome]).
Proof.
  intros Hinv Hid Hs. destruct (inv_wf _ _ Hinv) as [Hwf _]. destruct Hinv as [Hi Hp Hr Hc Hn].
  split; cbn; [| | | |done].
  - rewrite settled_ids_app. cbn. rewrite <- app_assoc. cbn. rewrite (map_keys_delete_perm id _ r Hwf Hid). exact Hi.
  - intros id' r' Hid'. rewrite map_get_delete in Hid'. case_decide; [done|]. destruct (Hp _ _ Hid') as [? ?].
    split; [done|]. by apply elem_of_app; left.
  - intros id' m [Hin|Hin]%elem_of_app.
    + destruct (Hr id' m Hin) as (r' & i & ? & ?). exists r', i. split; [by apply elem_of_app; left|done].
    + apply list_elem_of_singleton in Hin as [= -> <-]. destruct Hs as [i Hm]. destruct (Hp _ _ Hid) as [? ?].
      exists r, i. split; [by apply elem_of_app; left|done].
  - intros Hcl. destruct (Hc Hcl) as [E _]. by rewrite E in Hid.
Qed.

(** Refusing every pending request. *)
Lemma inv_refuse c c' out error :
  client_inv c out -> cl_config c' = cl_config c -> cl_pending c' = [] -> cl_nextRequest c' = cl_nextRequest c ->
  (cl_closed c' = true -> cl_subscriptions c' = []) ->
  client_inv c' (out ++ ((fun p => OSettle p.1 (Rejected error)) <$> cl_pending c)).
Proof.
  intros [Hi Hp Hr Hc Hn] E1 E2 E3 E4. split; unfold issued; rewrite ?E1, ?E2, ?E3; [|done| |naive_solver|done].
  - rewrite settled_ids_app, app_nil_r. unfold issued in Hi. rewrite <- Hi. f_equiv. clear.
    induction (cl_pending c) as [|[k r] l IH]; [done|]. cbn. by rewrite IH.
  - intros id m [Hin|Hin]%elem_of_app; [|by apply list_elem_of_fmap in Hin as ([] & ? & _)].
    destruct (Hr id m Hin) as (r & i & ? & ?). exists r, i. split; [by apply elem_of_app; left|done].
Qed.

Lemma inv_output c out o : client_inv c out -> settled_id o = None -> client_inv c (out ++ [o]).
Proof. intros Hinv Ho. apply (inv_frame c out c [o]); try done; [|by cbn; rewrite Ho]. intros Hc. by destruct (ci_closed _ _ Hinv Hc). Qed.

Lemma inv_failAll c out error :
  client_inv c out -> cl_closed c = false -> client_inv (failAll c error).1.1 (out ++ (failAll c error).1.2).
Proof.
  intros Hinv Hc. cbn [failAll fst snd]. rewrite app_assoc. apply inv_output; [|done].
  apply (inv_refuse c); try done. cbn. by rewrite Hc.
Qed.

Lemma inv_receive_reply c out m id :
  client_inv c out -> cl_closed c = false -> client_inv (receive_reply c m id).1.1 (out ++ (receive_reply c m id).1.2).
Proof.
  intros Hinv Hc. unfold receive_reply. destruct (map_get id (cl_pending c)) as [r|] eqn:Hid; [|by rewrite app_nil_r].
  assert (Hrefused : forall e, client_inv (settle c id r (Rejected e)).1.1 (out ++ (settle c id r (Rejected e)).1.2))
    by (intros e; by apply (inv_settle c out id r)).
  assert (Hmatched : forall m, let st := if replyMatches r m (cl_instance c) then settle c id r (Resolved m)
      else let '(c, out, settled) := settle c id r (Rejected (AuthorityError wrong_reply)) in
           let '(c, out', settled') := failAll c wrong_reply in (c, out ++ out', settled ++ settled') in
      client_inv st.1.1 (out ++ st.1.2)).
  { clear m. intros m. destruct (replyMatches r m (cl_instance c)) eqn:Hm.
    - apply (inv_settle c out id r); [done..|]. by exists (cl_instance c).
    - specialize (Hrefused (AuthorityError wrong_reply)). cbn [settle fst snd] in Hrefused |- *.
      apply (inv_failAll _ _ wrong_reply) in Hrefused; [|done]. by rewrite <- app_assoc in Hrefused. }
  destruct m; first [exact (Hmatched _)|apply Hrefused].
Qed.

Lemma inv_receive c out message : client_inv c out -> client_inv (receive c message).1.1 (out ++ (receive c message).1.2).
Proof.
  intros Hinv. unfold receive. destruct (cl_closed c) eqn:Hc; [by rewrite app_nil_r|].
  destruct message as [m|id progress].
  - destruct m; try by apply inv_receive_reply.
    + unfold receive_update. destruct (map_get _ (cl_subscriptions c)) as [sub|]; [|by rewrite app_nil_r].
      destruct (_ || _); [by rewrite app_nil_r|]. destruct (negb _); [by apply inv_failAll|].
      apply (inv_frame c); try done. cbn. congruence.
    + destruct status; try by apply inv_output.
      apply (inv_frame c); try done; [cbn; congruence|]. by destruct (cl_relay c).
    + cbn [reply_id]. destruct (match _ with Some "" => None | _ => _ end); [by apply inv_receive_reply|].
      by apply inv_failAll.
  - apply (inv_frame c); try done; [cbn; congruence|]. by destruct (map_get id (cl_pending c)) as [[]|], (cl_progress c).
Qed.

(** A subscription map that is empty stays so. *)
Lemma inv_continue c out r outcome :
  client_inv c out -> client_inv (continue_ c r outcome).1 (out ++ (continue_ c r outcome).2).
Proof.
  intros Hinv. assert (Hempty : cl_closed c = true -> cl_closed c = true /\ cl_subscriptions c = [])
    by (intros Hc; by destruct (ci_closed _ _ Hinv Hc)).
  assert (Hsame : client_inv c (out ++ [])) by (by rewrite app_nil_r).
  destruct r as [| id name s | | | | |], outcome as [m|e]; try done; [destruct m; try done| |]; cbn [continue_ continue_open continue_subscribe fst snd].
  - apply (inv_frame c); try done. by destruct (cl_relay c), (cf_installs _).
  - destruct (map_get name (cl_subscriptions c)) as [sub|] eqn:Hsub; [|done]. apply (inv_frame c); try done.
    cbn. intros Hc. destruct (Hempty Hc) as [_ E]. by rewrite E in Hsub.
  - apply (inv_frame c); try done. cbn. intros Hc. destruct (Hempty Hc) as [_ ->]. done.
Qed.

(** A call counts one request, which is pending or refused at once. *)
Lemma prepare_frame c page :
  let p := prepare c page in
  cl_config p.1 = cl_config c /\ cl_pending p.1 = cl_pending c /\ cl_nextRequest p.1 = cl_nextRequest c + 1 /\
  cl_closed p.1 = cl_closed c /\ request_id p.2 = requestId c.
Proof. by destruct page. Qed.

Lemma fresh_request c out : client_inv c out -> requestId c ∉ map_keys (cl_pending c).
Proof.
  intros [Hi _ _ _ Hn]. assert (Hnot : requestId c ∉ issued c).
  { pose proof (issued_NoDup (counted c)) as Hd. rewrite issued_counted in Hd by done.
    apply NoDup_app in Hd as (_ & Hd & _). intros Hin. apply (Hd _ Hin). by left. }
  rewrite <- Hi in Hnot. set_solver.
Qed.

(** The request just counted is refused at once. *)
Lemma inv_refused c c' out e :
  client_inv c out -> cl_config c' = cl_config c -> cl_pending c' = cl_pending c -> cl_nextRequest c' = cl_nextRequest c + 1 ->
  (cl_closed c' = true -> cl_closed c = true /\ cl_subscriptions c' = []) ->
  client_inv c' (out ++ [OSettle (requestId c) (Rejected e)]).
Proof.
  intros [Hi Hp Hr Hc Hn] E1 E2 E3 E4. split; rewrite ?E2; [| | |naive_solver|lia].
  - replace (issued c') with (issued (counted c)) by (unfold issued; by rewrite E1, E3).
    rewrite issued_counted, <- Hi, settled_ids_app by done. cbn. solve_Permutation.
  - intros id r' Hid. destruct (Hp id r' Hid). split; [done|]. by apply elem_of_app; left.
  - intros id m [Hin|Hin]%elem_of_app; [|by apply list_elem_of_singleton in Hin].
    destruct (Hr id m Hin) as (r' & i & ? & ?). exists r', i. split; [by apply elem_of_app; left|done].
Qed.

(** The request just counted is sent. *)
Lemma inv_sent c c' r out :
  client_inv c out -> cl_config c' = cl_config c -> cl_pending c' = cl_pending c -> cl_nextRequest c' = cl_nextRequest c + 1 ->
  cl_closed c' = false -> request_id r = requestId c ->
  client_inv (request_ c' r None).1 (out ++ (request_ c' r None).2).
Proof.
  intros Hinv E1 E2 E3 E4 E5. pose proof (fresh_request c out Hinv) as Hfresh. rewrite <- E5 in Hfresh.
  destruct Hinv as [Hi Hp Hr _ Hn].
  assert (Hsettle : settled_ids (match r with RqHello id _ => [OArm id] | _ => [] end ++ [OSend r]) = []) by (by destruct r).
  cbn [fst snd request_]. split; cbn [set_pending cl_pending cl_nextRequest cl_closed]; rewrite ?E2, ?E4; [| | |done|lia].
  - replace (issued (set_pending c' _)) with (issued (counted c)) by (unfold issued; cbn; by rewrite E1, E3).
    rewrite issued_counted, <- E5, settled_ids_app, Hsettle, app_nil_r, map_keys_set by done.
    rewrite decide_False by done. by rewrite app_assoc, Hi.
  - intros id r' Hid. rewrite map_get_set in Hid. case_decide; [|destruct (Hp id r' Hid); split; [done|set_solver]].
    simplify_eq. split; [done|set_solver].
  - intros id m [Hin|Hin]%elem_of_app; [|by destruct r; set_solver].
    destruct (Hr id m Hin) as (r' & i & ? & ?). exists r', i. split; [set_solver|done].
Qed.

Lemma inv_call c out page throws :
  client_inv c out -> client_inv (call c page throws).1.1 (out ++ (call c page throws).1.2).
Proof.
  intros Hinv. destruct (prepare_frame c page) as (E1 & E2 & E3 & E4 & E5). unfold call. destruct (cl_closed c) eqn:Hc.
  - destruct (ci_closed _ _ Hinv Hc) as [_ Hs].
    destruct page; cbn [call_closed fst snd]; try (by apply inv_refused); [by apply inv_output|by rewrite app_nil_r].
  - destruct (match page with CUnsubscribe _ => _ | _ => false end); [by rewrite app_nil_r|].
    destruct (prepare c page) as [c1 r]. cbn [fst snd] in *. destruct throws as [e|]; cbn [request_ fst snd].
    + rewrite E5. apply inv_refused; [done..|congruence].
    + by apply (inv_sent c).
Qed.

Lemma inv_timeout c out id : client_inv c out -> client_inv (timeout c id).1.1 (out ++ (timeout c id).1.2).
Proof.
  intros Hinv. unfold timeout. destruct (map_get id (cl_pending c)) as [r|] eqn:Hid; [|by rewrite app_nil_r].
  destruct r; try by rewrite app_nil_r. by eapply inv_settle.
Qed.

Lemma inv_close c out : client_inv c out -> client_inv (close c).1.1 (out ++ (close c).1.2).
Proof.
  intros Hinv. unfold close. destruct (cl_closed c) eqn:Hc; [by rewrite app_nil_r|]. cbn [fst snd]. rewrite !app_assoc.
  apply (inv_refuse c); try done.
  apply (inv_frame c _ c); try done; [|congruence|by destruct (cf_owns _)].
  apply (inv_frame c _ c); try done; [congruence|]. by destruct (cl_relay c).
Qed.

Lemma run_inv config c waiting out : run config c waiting out -> client_inv c out.
Proof.
  induction 1 as [|c waiting out [] _ IH|c p waiting out _ IH].
  - split; cbn; try done. intros id m []%not_elem_of_nil.
  - by apply inv_call.
  - by apply inv_receive.
  - by apply inv_timeout.
  - by apply inv_close.
  - by apply inv_continue.
Qed.

(** C21: whatever the page calls, whenever it calls it, and whatever the transport delivers, in any order and any
    number of times: each request the client has made is pending or has settled exactly once, a closed client has
    none pending, and a request is resolved only by a reply that matches the request that was sent under its id. *)
Theorem settled_once config c waiting out :
  run config c waiting out ->
  NoDup (settled_ids out ++ map_keys (cl_pending c)) /\ settled_ids out ++ map_keys (cl_pending c) ≡ₚ issued c /\
  (cl_closed c = true -> settled_ids out ≡ₚ issued c) /\
  forall id m, OSettle id (Resolved m) ∈ out ->
    exists r instance, OSend r ∈ out /\ request_id r = id /\ replyMatches r m instance = true.
Proof.
  intros Hrun%run_inv. destruct Hrun as [Hi _ Hr Hc _]. split; [rewrite Hi; apply issued_NoDup|]. split; [done|].
  split; [|exact Hr]. intros Hcl. destruct (Hc Hcl) as [E _]. by rewrite E, app_nil_r in Hi.
Qed.

(** ** What a subscription's listener is given *)

(** The values given to the listener of [name], first to last. *)
Definition shown (name : string) (out : list Output) : list (json * LibraryVersion) :=
  omap (fun o => match o with OValue n value v => if String.eqb n name then Some (value, v) else None | _ => None end) out.

(** One version before another of the same instance. *)
Definition before (p q : json * LibraryVersion) : Prop :=
  ve_instance p.2 = ve_instance q.2 /\ ve_revision p.2 < ve_revision q.2.

(** The outputs that have to do with the subscription [name]. *)
Definition about (name : string) (o : Output) : bool :=
  match o with
  | OValue n _ _ | OSend (RqSubscribe _ n _) | OSend (RqUnsubscribe _ n) => String.eqb n name
  | _ => false
  end.
Definition quiet (name : string) (out : list Output) : Prop := Forall (fun o => about name o = false) out.

(** The subscription names a client has made. *)
Definition subscribed_names (c : Client) : list string := subscription_name <$> seqZ 1 (cl_nextSubscription c).

Record shows_inv (name : string) (c : Client) (out : list Output) : Prop := {
  si_count : 0 <= cl_nextSubscription c;
  si_fresh : (name ∉ subscribed_names c) -> quiet name out /\ map_get name (cl_subscriptions c) = None;
  si_live sub : map_get name (cl_subscriptions c) = Some sub ->
    cs_version sub = snd <$> last (shown name out) /\ Forall (fun p => selectionMatches (cs_selection sub) p.1 = true) (shown name out) /\
    (forall id sel, OSend (RqSubscribe id name sel) ∈ out -> sel = cs_selection sub) /\
    (forall id, OSend (RqUnsubscribe id name) ∉ out);
  si_sorted : StronglySorted before (shown name out);
  si_match id sel : OSend (RqSubscribe id name sel) ∈ out -> Forall (fun p => selectionMatches sel p.1 = true) (shown name out);
  si_after pre id post : out = pre ++ OSend (RqUnsubscribe id name) :: post -> shown name post = [];
}.

Lemma shown_app name out out' : shown name (out ++ out') = shown name out ++ shown name out'.
Proof. apply omap_app. Qed.

Lemma shown_quiet name out : quiet name out -> shown name out = [].
Proof.
  induction 1 as [|o out Ho _ IH]; [done|]. unfold shown in *. cbn [omap list_omap]. rewrite IH.
  destruct o; cbn [about] in Ho; try done. by rewrite Ho.
Qed.

Lemma not_quiet name out o : o ∈ out -> about name o = true -> quiet name out -> False.
Proof. intros Hin Ho Hq. rewrite (proj1 (Forall_forall _ _) Hq o Hin) in Ho. done. Qed.

Lemma about_subscribe name id sel : about name (OSend (RqSubscribe id name sel)) = true.
Proof. apply String.eqb_refl. Qed.
Lemma about_unsubscribe name id : about name (OSend (RqUnsubscribe id name)) = true.
Proof. apply String.eqb_refl. Qed.
#[local] Hint Resolve about_subscribe about_unsubscribe : core.

(** Splitting an output list at an element that is not in its tail. *)
Lemma app_split {T} (out out' pre post : list T) x :
  x ∉ out' -> out ++ out' = pre ++ x :: post -> exists post', out = pre ++ x :: post' /\ post = post' ++ out'.
Proof.
  intros Hx E. apply app_eq_inv in E as [(k & -> & E)|(k & -> & E)].
  - destruct k as [|y k]; cbn in E; [subst out'; exfalso; apply Hx; by left|]. injection E as -> ->. by exists k.
  - subst out'. exfalso. apply Hx, elem_of_app. right. by left.
Qed.

Lemma elem_of_names c i : subscription_name i ∈ subscribed_names c <-> 1 <= i <= cl_nextSubscription c.
Proof.
  unfold subscribed_names. rewrite list_elem_of_fmap. split.
  - intros (j & E & Hj%elem_of_seqZ). apply (inj (String.append "subscription-")), (inj Z_str) in E. lia.
  - intros Hi. exists i. split; [done|]. apply elem_of_seqZ. lia.
Qed.

Lemma names_mono c c' name :
  cl_nextSubscription c <= cl_nextSubscription c' -> name ∈ subscribed_names c -> name ∈ subscribed_names c'.
Proof.
  intros Hle (i & -> & Hi%elem_of_seqZ)%list_elem_of_fmap. apply elem_of_names. lia.
Qed.

(** A step that neither tells the listener anything nor speaks of the subscription to the service. *)
Lemma shows_quiet name c c' out out' :
  shows_inv name c out -> quiet name out' -> cl_nextSubscription c <= cl_nextSubscription c' ->
  (forall sub', map_get name (cl_subscriptions c') = Some sub' -> exists sub, map_get name (cl_subscriptions c) = Some sub /\
    cs_selection sub' = cs_selection sub /\ cs_version sub' = cs_version sub) ->
  shows_inv name c' (out ++ out').
Proof.
  intros [Hk Hf Hl Hs Hm Ha] Hq En Hsub.
  assert (Hin : forall o, about name o = true -> o ∈ out ++ out' -> o ∈ out).
  { intros o Ho [?|Ho']%elem_of_app; [done|]. exfalso. by eapply not_quiet. }
  split; rewrite ?shown_app, ?(shown_quiet name out' Hq), ?app_nil_r; [lia| | |done| |].
  - intros Hn. destruct (Hf (fun Hin => Hn (names_mono _ _ _ En Hin))) as [Hq0 Hnone]. split; [by apply Forall_app|].
    destruct (map_get name (cl_subscriptions c')) as [sub'|] eqn:E; [|done]. destruct (Hsub sub' eq_refl) as (? & ? & _). congruence.
  - intros sub' (sub & Hget & -> & ->)%Hsub. destruct (Hl sub Hget) as (? & ? & Hsel & Hun). split_and!; [done..| |].
    + intros id sel Ho. apply (Hsel id), Hin; auto.
    + intros id Ho. apply (Hun id), Hin; auto.
  - intros id sel Ho. apply (Hm id), Hin; auto.
  - intros pre id post E. apply app_split in E as (post' & E & ->);
      [|intros Hu; by eapply not_quiet]. by rewrite shown_app, (Ha _ _ _ E), (shown_quiet name out' Hq).
Qed.

Lemma StronglySorted_snoc {T} (R : T -> T -> Prop) l x :
  StronglySorted R l -> Forall (fun y => R y x) l -> StronglySorted R (l ++ [x]).
Proof.
  induction 1 as [|y l Hl IH Hy]; intros Hx; [by repeat constructor|]. inversion Hx; subst. cbn. constructor; [by apply IH|].
  apply Forall_app. by rewrite Forall_singleton.
Qed.

(** What is before the last is before what the last is before. *)
Lemma before_last (l : list (json * LibraryVersion)) p q :
  StronglySorted before l -> last l = Some p -> before p q -> Forall (fun y => before y q) l.
Proof.
  intros Hs (l' & ->)%last_Some Hpq. apply Forall_app. split; [|by apply Forall_singleton].
  apply Forall_forall. intros y Hy. assert (before y p) as [? ?]; [|unfold before in *; split; [|lia]; naive_solver congruence].
  clear Hpq. induction l' as [|z l' IH]; [by apply not_elem_of_nil in Hy|]. inversion Hs as [|? ? Hs' Hz]; subst.
  apply elem_of_cons in Hy as [->|Hy]; [|by apply IH]. apply Forall_app in Hz as [_ Hz]. by inversion Hz.
Qed.

Lemma before_newer l value v (w : option LibraryVersion) :
  StronglySorted before l -> w = snd <$> last l -> newer v w = true -> StronglySorted before (l ++ [(value, v)]).
Proof.
  intros Hs -> Hn. apply StronglySorted_snoc; [done|]. destruct (last l) as [p|] eqn:Hl; [|by apply last_None in Hl as ->].
  apply (before_last l p); [done..|]. cbn in Hn. apply andb_true_iff in Hn as [E%String.eqb_eq Hr%Z.ltb_lt].
  by split.
Qed.

Lemma shows_value name c out sub value v :
  shows_inv name c out -> map_get name (cl_subscriptions c) = Some sub -> newer v (cs_version sub) = true ->
  selectionMatches (cs_selection sub) value = true ->
  shows_inv name (set_subs c (map_set name (mkClientSub (cs_selection sub) (Some v) (cs_subscribed sub)) (cl_subscriptions c)))
    (out ++ [OValue name value v]).
Proof.
  intros [Hk Hf Hl Hs Hm Ha] Hget Hn Hmatch. destruct (Hl sub Hget) as (Hv & Hall & Hsel & Hun).
  assert (Hshown : shown name [OValue name value v] = [(value, v)]) by (cbn; by rewrite String.eqb_refl).
  assert (Hin : forall r, OSend r ∈ out ++ [OValue name value v] -> OSend r ∈ out) by (intros r; set_solver).
  split; rewrite ?shown_app, ?Hshown; [done| | |by eapply before_newer| |].
  - intros Hno. destruct (Hf Hno) as [_ Hnone]. congruence.
  - intros sub'. cbn [set_subs cl_subscriptions]. rewrite map_get_set_eq. intros [= <-]. cbn. rewrite last_snoc.
    split_and!; [done| | |]; [|by intros id sel Ho%Hin; eauto|by intros id Ho%Hin; eapply Hun]. apply Forall_app. by rewrite Forall_singleton.
  - intros id sel Ho%Hin. rewrite (Hsel _ _ Ho). apply Forall_app. by rewrite Forall_singleton.
  - intros pre id post E. exfalso. apply (Hun id), Hin. rewrite E. apply elem_of_app. right. by left.
Qed.

Lemma shows_subscribe name sel c c' out out' :
  shows_inv name c out -> (name ∉ subscribed_names c) -> 0 <= cl_nextSubscription c' -> name ∈ subscribed_names c' ->
  map_get name (cl_subscriptions c') = Some (mkClientSub sel None false) ->
  Forall (fun o => about name o = true -> exists id, o = OSend (RqSubscribe id name sel)) out' ->
  shows_inv name c' (out ++ out').
Proof.
  intros [_ Hf _ _ _ _] Hno Hn Hin Hget Hout. destruct (Hf Hno) as [Hq _].
  assert (Hsent : forall o, o ∈ out ++ out' -> about name o = true -> exists id, o = OSend (RqSubscribe id name sel)).
  { intros o [Ho|Ho]%elem_of_app Ha; [exfalso; by eapply not_quiet|]. by apply (proj1 (Forall_forall _ _) Hout). }
  assert (Hshown : shown name (out ++ out') = []).
  { rewrite shown_app, shown_quiet by done. clear Hsent. induction Hout as [|o out' Ho _ IH]; [done|]. cbn in *.
    destruct o as [| | |n value v| | | | | |]; try exact IH. destruct (String.eqb n name) eqn:E; [|exact IH].
    destruct (Ho E) as [id [=]]. }
  assert (Hnever : forall id, OSend (RqUnsubscribe id name) ∉ out ++ out').
  { intros id Hu. destruct (Hsent _ Hu ltac:(auto)) as [? [=]]. }
  split; rewrite ?Hshown; [done|done| |constructor|constructor|].
  - rewrite Hget. intros sub [= <-]. split_and!; [done|constructor| |done]. intros id sel' Ho.
    by destruct (Hsent _ Ho ltac:(auto)) as [? [= _ <-]].
  - intros pre id post E. exfalso. apply (Hnever id). rewrite E. apply elem_of_app. right. by left.
Qed.

Lemma shows_unsubscribe name id c c' out sub :
  shows_inv name c out -> map_get name (cl_subscriptions c) = Some sub -> cl_nextSubscription c' = cl_nextSubscription c ->
  map_get name (cl_subscriptions c') = None -> shows_inv name c' (out ++ [OSend (RqUnsubscribe id name)]).
Proof.
  intros [Hk Hf Hl Hs Hm Ha] Hget En Hnone. destruct (Hl sub Hget) as (_ & _ & _ & Hun).
  assert (Hshown : shown name (out ++ [OSend (RqUnsubscribe id name)]) = shown name out) by (by rewrite shown_app; apply app_nil_r).
  split; rewrite ?Hshown; [lia| |congruence|done| |].
  - unfold subscribed_names. rewrite En. intros Hno. destruct (Hf Hno). congruence.
  - intros id' sel [Ho|Ho]%elem_of_app; [by eapply Hm|]. by apply list_elem_of_singleton in Ho.
  - intros pre id' post E. apply app_eq_inv in E as [(k & -> & E)|(k & -> & E)].
    + destruct k as [|y k]; cbn in E; [by simplify_eq|]. simplify_eq. exfalso. apply (Hun id').
      apply elem_of_app. right. by left.
    + destruct k as [|y [|z k]]; [by injection E as _ <-|discriminate E|discriminate E].
Qed.

(** Steps that leave the subscriptions as they are, and calls of the client that concern none of them. *)
Lemma shows_same name c c' out out' :
  shows_inv name c out -> quiet name out' -> cl_nextSubscription c' = cl_nextSubscription c ->
  cl_subscriptions c' = cl_subscriptions c -> shows_inv name c' (out ++ out').
Proof. intros Hinv Hq En Es. apply (shows_quiet name c); [done|done|lia|]. rewrite Es. eauto. Qed.

Lemma shows_gone name c c' out out' k :
  shows_inv name c out -> quiet name out' -> cl_nextSubscription c' = cl_nextSubscription c ->
  cl_subscriptions c' = map_delete k (cl_subscriptions c) -> shows_inv name c' (out ++ out').
Proof.
  intros Hinv Hq En Es. apply (shows_quiet name c); [done|done|lia|]. rewrite Es. intros sub'. rewrite map_get_delete.
  case_decide; [done|]. eauto.
Qed.

Lemma quiet_settled name error (pending : jsmap string Request) :
  quiet name ((fun p => OSettle p.1 (Rejected error)) <$> pending).
Proof. apply Forall_forall. by intros o ([] & -> & _)%list_elem_of_fmap. Qed.

Lemma quiet_app name out out' : quiet name out -> quiet name out' -> quiet name (out ++ out').
Proof. intros. by apply Forall_app. Qed.

Ltac quietly := repeat first [apply quiet_settled|apply quiet_app|case_match|by repeat constructor].

Lemma shows_call name c out page throws :
  shows_inv name c out -> shows_inv name (call c page throws).1.1 (out ++ (call c page throws).1.2).
Proof.
  intros Hinv. assert (Hsame : shows_inv name c (out ++ [])) by (by rewrite app_nil_r).
  unfold call. destruct (cl_closed c).
  { destruct page; try done; apply (shows_same name c); try done; quietly. }
  destruct (match page with CUnsubscribe _ => _ | _ => false end) eqn:Hstop; [done|].
  destruct page as [| | | | |sel|n];
    try (destruct throws; cbn [prepare request_ fst snd]; (apply (shows_same name c); [done|quietly|done|done])).
  - pose proof (si_count _ _ _ Hinv). set (n := subscription_name (cl_nextSubscription c + 1)).
    destruct (decide (name = n)) as [->|Hne].
    + assert (Hnew : n ∉ subscribed_names c) by (unfold n; rewrite elem_of_names; lia).
      destruct throws; cbn [prepare request_ fst snd app]; (apply (shows_subscribe n sel c); [done|done|cbn; lia| | |]);
        try (apply elem_of_names; cbn; lia); try apply map_get_set_eq; repeat constructor; eauto; done.
    + destruct throws; cbn [prepare request_ fst snd app]; (apply (shows_quiet name c); [done| |cbn; lia|]);
        try (cbn [set_pending cl_subscriptions]; rewrite map_get_set_ne by done; eauto);
        (apply Forall_singleton; first [done|by apply String.eqb_neq, not_eq_sym]).
  - unfold may_stop in Hstop. destruct (map_get n (cl_subscriptions c)) as [sub|] eqn:Hn; [|done].
    destruct throws; cbn [prepare request_ fst snd app]; [eapply (shows_gone name c); [done|by repeat constructor|done..]|].
    destruct (decide (name = n)) as [->|Hne].
    + apply (shows_unsubscribe n _ c _ _ sub); [done..|]. cbn. by rewrite map_get_delete, decide_True.
    + eapply (shows_gone name c); [done| |done..]. apply Forall_singleton. by apply String.eqb_neq, not_eq_sym.
Qed.

Lemma shows_failAll name c out error :
  shows_inv name c out -> shows_inv name (failAll c error).1.1 (out ++ (failAll c error).1.2).
Proof. intros Hinv. apply (shows_same name c); try done. cbn [failAll fst snd]. quietly. Qed.

Lemma shows_reply name c out m id :
  shows_inv name c out -> shows_inv name (receive_reply c m id).1.1 (out ++ (receive_reply c m id).1.2).
Proof.
  intros Hinv. unfold receive_reply. destruct (map_get id (cl_pending c)) as [r|]; [|by rewrite app_nil_r].
  destruct (replyMatches r m (cl_instance c)), m; cbn [settle failAll fst snd]; (apply (shows_same name c); [done|quietly|done|done]).
Qed.

Lemma shows_receive name c out message :
  shows_inv name c out -> shows_inv name (receive c message).1.1 (out ++ (receive c message).1.2).
Proof.
  intros Hinv. assert (Hsame : shows_inv name c (out ++ [])) by (by rewrite app_nil_r).
  unfold receive. destruct (cl_closed c); [done|]. destruct message as [m|id progress].
  - destruct m as [|n v value| | | | | | |status|]; try by apply shows_reply.
    + unfold receive_update. destruct (map_get n (cl_subscriptions c)) as [sub|] eqn:Hn; [|done].
      destruct (_ || _) eqn:Hold; [done|]. apply orb_false_iff in Hold as [_ Hnew%negb_false_iff].
      destruct (negb _) eqn:Hm; [by apply shows_failAll|]. apply negb_false_iff in Hm.
      destruct (decide (name = n)) as [->|Hne]; [by apply shows_value|].
      apply (shows_quiet name c); [done| |cbn; lia|].
      * apply Forall_singleton. by apply String.eqb_neq, not_eq_sym.
      * cbn. rewrite map_get_set_ne by done. eauto.
    + destruct status; (apply (shows_same name c); [done|cbn [fst snd]; quietly|done|done]).
    + destruct (reply_id _); [by apply shows_reply|by apply shows_failAll].
  - apply (shows_same name c); [done|cbn [fst snd]; quietly|done|done].
Qed.

Lemma shows_continue name c out r outcome :
  shows_inv name c out -> shows_inv name (continue_ c r outcome).1 (out ++ (continue_ c r outcome).2).
Proof.
  intros Hinv. assert (Hsame : shows_inv name c (out ++ [])) by (by rewrite app_nil_r).
  destruct r as [|id n sel| | | | |], outcome as [m|e]; try done; [destruct m; try done| |]; cbn [continue_ continue_open continue_subscribe fst snd].
  - apply (shows_same name c); [done|cbn [fst snd]; quietly|done|done].
  - destruct (map_get n (cl_subscriptions c)) as [sub|] eqn:Hn; [|done].
    apply (shows_quiet name c); [done|constructor|cbn; lia|]. cbn. intros sub'. rewrite map_get_set.
    case_decide as E; [|eauto]. intros [= <-]. rewrite E. eauto.
  - by eapply (shows_gone name c); [done|constructor|done..].
Qed.

Lemma run_shows name config c waiting out : run config c waiting out -> shows_inv name c out.
Proof.
  induction 1 as [|c waiting out [] _ IH|c p waiting out _ IH]; cbn [step].
  - split; [done|by split; [apply Forall_nil|]|done|constructor|intros; by apply Forall_nil|]. by intros [] ? ?.
  - by apply shows_call.
  - by apply shows_receive.
  - unfold timeout. destruct (map_get _ _) as [[]|]; (apply (shows_same name c); [done|cbn; quietly|done|done]).
  - unfold close. destruct (cl_closed c); [by rewrite app_nil_r|]. apply (shows_quiet name c); [done| |done|done].
    cbn [fst snd]. quietly.
  - by apply shows_continue.
Qed.

(** C22: whatever arrives in whatever order, late, twice or from an earlier instance of the service: the values given
    to a subscription's listener all come from one instance, each with a higher revision than the one before; each
    answers the selection that was subscribed to; and none is given after the page stopped the subscription. *)
Theorem listener_forward config c waiting out name :
  run config c waiting out ->
  StronglySorted before (shown name out) /\
  (forall id sel, OSend (RqSubscribe id name sel) ∈ out -> Forall (fun p => selectionMatches sel p.1 = true) (shown name out)) /\
  (forall pre id post, out = pre ++ OSend (RqUnsubscribe id name) :: post -> shown name post = []).
Proof. by intros [_ _ _ Hs Hm Ha]%(run_shows name). Qed.

(** ** An example: a value that arrives late, twice and after its subscription was stopped *)

Section Example.
Definition demo_value (n : string) : json := JObj [("kind", JStr "settings"); ("value", JStr n)].
Definition demo_update (revision : Z) (n : string) : event :=
  EvReceive (Served (MUpdate "subscription-1" (mkVersion "i" None revision) (demo_value n))).

(** Events and continuations, one after the other. *)
Definition after (st : Client * Settled * list Output) (e : option event) : Client * Settled * list Output :=
  let '(c, w, out) := st in
  match e with
  | Some e => ((step c e).1.1, w ++ (step c e).2, out ++ (step c e).1.2)
  | None => match w with
            | p :: w => ((continue_ c p.1 p.2).1, w, out ++ (continue_ c p.1 p.2).2)
            | [] => st
            end
  end.

Lemma after_run config (es : list (option event)) :
  let st := foldl after (newClient config, [], []) es in run config st.1.1 st.1.2 st.2.
Proof.
  cbn zeta. induction es as [|e es IH] using rev_ind; [constructor|]. rewrite foldl_snoc.
  destruct (foldl after _ es) as [[c w] out]. cbn [fst snd] in IH. destruct e as [e|]; cbn [after fst snd]; [by apply run_step|].
  destruct w as [|p w]; [done|]. by apply (run_continue config c p).
Qed.

Definition demo_events : list (option event) :=
  [Some (EvCall (COpen "key" "local" None false) None);
   Some (EvReceive (Served (MReady "page:1" None (mkVersion "i" None 0)))); None;
   Some (EvCall (CSubscribe (SelKind "settings" JNull)) None);
   Some (demo_update 1 "one");
   Some (EvReceive (Served (MSubscribed "page:2" "subscription-1" (mkVersion "i" None 1)))); None;
   Some (demo_update 1 "one"); Some (demo_update 0 "zero"); Some (demo_update 2 "two");
   Some (EvCall (CUnsubscribe "subscription-1") None);
   Some (demo_update 3 "three"); Some EvClose].
Definition demo_run : Client * Settled * list Output := foldl after (newClient (mkConfig "page" false true), [], []) demo_events.

Lemma settled_once_witness :
  settled_ids demo_run.2 = ["page:1"; "page:2"; "page:3"] /\
  NoDup (settled_ids demo_run.2 ++ map_keys (cl_pending demo_run.1.1)) /\
  settled_ids demo_run.2 ≡ₚ issued demo_run.1.1.
Proof.
  split; [vm_compute; reflexivity|].
  destruct (settled_once (mkConfig "page" false true) demo_run.1.1 demo_run.1.2 demo_run.2 (after_run _ demo_events)) as (Hn & _ & Hc & _).
  split; [exact Hn|]. apply Hc. vm_compute. reflexivity.
Defined.

Lemma listener_forward_witness :
  shown "subscription-1" demo_run.2 = [(demo_value "one", mkVersion "i" None 1); (demo_value "two", mkVersion "i" None 2)] /\
  StronglySorted before (shown "subscription-1" demo_run.2).
Proof.
  split; [vm_compute; reflexivity|].
  exact (proj1 (listener_forward (mkConfig "page" false true) demo_run.1.1 demo_run.1.2 demo_run.2 "subscription-1" (after_run _ demo_events))).
Defined.
End Example.
