(* ===== verification/Session.v ===== *)
(** * A page and its library service, connected

    [Client] at one end, [ServiceCore] at the other, and what is under way between them: requests not yet taken by
    the core, messages not yet delivered to the client. Either may be taken in any order. The composition's theorem:
    once nothing is under way, what each subscription's listener was last given is what the library holds. *)

From S2P Require Import Prelude JsMap JsText Json Wire ServiceCore Client.
Open Scope Z_scope.

(** ** What one turn of the core does to a subscription *)

(** The updates of one subscription among messages. *)
Definition update_of (id : string) (m : Message) : option (json * LibraryVersion) :=
  match m with MUpdate n v value => if String.eqb n id then Some (value, v) else None | _ => None end.
Definition updates_of (id : string) (ms : list Message) : list (json * LibraryVersion) := omap (update_of id) ms.

Lemma updates_of_app id ms ms' : updates_of id (ms ++ ms') = updates_of id ms ++ updates_of id ms'.
Proof. apply omap_app. Qed.

Lemma elem_of_updates id ms value v : (value, v) ∈ updates_of id ms <-> MUpdate id v value ∈ ms.
Proof.
  unfold updates_of. rewrite list_elem_of_omap. split.
  - intros (m & Hm & E). destruct m; try done. cbn in E. destruct (String.eqb_spec subscriptionId id); [|done]. by simplify_eq.
  - intros Hm. exists (MUpdate id v value). split; [done|]. cbn. by rewrite String.eqb_refl.
Qed.

Section Turns.
Context {A : Type} {AU : Authority A} {LAWS : AuthorityLaws A}.
(** Selecting answers with a value of the selection's own kind and titles. *)
Context (view_answers : forall (a : A) s, selectionMatches s (view a s) = true).
Implicit Types (c : Core A) (a : A) (r : Request).

(** A turn leaves a subscription alone, or replaces its value under a higher revision and says so once. *)
Inductive moved (id : string) c c' (ms : list Message) : Prop :=
| mv_same : updates_of id ms = [] -> map_get id (co_subscriptions c') = map_get id (co_subscriptions c) -> moved id c c' ms
| mv_new s s' v :
    map_get id (co_subscriptions c) = Some s -> map_get id (co_subscriptions c') = Some s' ->
    su_selection s' = su_selection s -> updates_of id ms = [(su_value s', v)] ->
    ve_revision v = co_revision c' -> ve_instance v = co_instance c' -> co_revision c < co_revision c' ->
    selectionMatches (su_selection s') (su_value s') = true -> moved id c c' ms.

Lemma staged_updates a affected id v (subs : jsmap string Subscription) :
  map_wf subs -> digested subs ->
  let ms := (fun u => MUpdate u.1 v u.2) <$> staged_of a affected subs in
  match map_get id subs with
  | None => updates_of id ms = []
  | Some s => (updates_of id ms = [] /\ refreshed a affected s = s) \/
              (refreshed a affected s = mkSub (su_selection s) (view a (su_selection s)) (view a (su_selection s)) /\
               updates_of id ms = [(view a (su_selection s), v)])
  end.
Proof.
  cbn zeta. induction subs as [|[k s] subs IH]; intros Hwf Hd; [done|]. apply Forall_cons in Hd as [Hs Hd]. cbn in Hs.
  assert (Hk : (k ∉ map_keys subs) /\ map_wf subs) by (by apply NoDup_cons in Hwf). destruct Hk as [Hk Hwf'].
  specialize (IH Hwf' Hd). unfold staged_of. cbn [omap list_omap fst snd map_get]. fold (staged_of a affected subs).
  destruct (decide (id = k)) as [<-|Hne].
  - assert (Hnone : map_get id subs = None).
    { destruct (map_get id subs) eqn:E; [|done]. exfalso. apply Hk, map_get_is_Some. by eexists. }
    rewrite Hnone in IH. unfold refreshed. destruct (touches affected (su_selection s)); cbn [andb].
    + case_bool_decide as Hv; cbn [negb].
      * left. split; [done|]. destruct s; cbn in *. congruence.
      * right. split; [done|]. unfold updates_of in *. cbn. rewrite String.eqb_refl. by rewrite IH.
    + by left.
  - destruct (touches _ _ && _); [|done]. unfold updates_of. cbn. apply not_eq_sym, String.eqb_neq in Hne. rewrite Hne. exact IH.
Qed.

Lemma updates_moved id c c1 a affected :
  map_wf (co_subscriptions c1) -> digested (co_subscriptions c1) -> co_authority c1 = Some a ->
  co_subscriptions c1 = co_subscriptions c -> co_revision c < co_revision c1 ->
  moved id c (tryUpdates c1 affected).1 (tryUpdates c1 affected).2.
Proof.
  intros Hwf Hd Ha Es Hr. destruct (versioned_updates c1 affected) as (_ & Hi & _).
  unfold tryUpdates in *. destruct (updates_spec c1 a affected Ha Hwf Hd) as (a' & _ & [[e E]|[E _]]); rewrite E in *; cbn [fst snd] in *.
  { apply mv_same; [done|]. cbn. by rewrite Es. }
  pose proof (staged_updates a affected id (version c1) (co_subscriptions c1) Hwf Hd) as Hst. cbn zeta in Hst.
  pose proof (map_get_fmap (refreshed a affected) id (co_subscriptions c1)) as Hget.
  destruct (map_get id (co_subscriptions c1)) as [s|] eqn:Hs; cbn in Hget.
  - destruct Hst as [[Hu Hsame]|[Hnew Hu]].
    + apply mv_same; [done|]. cbn. by rewrite Hget, Hsame, <- Es, Hs.
    + rewrite Hnew in Hget. eapply mv_new; [by rewrite <- Es|exact Hget|done|exact Hu|done|done|done|apply view_answers].
  - apply mv_same; [done|]. cbn. by rewrite Hget, <- Es.
Qed.

Lemma moved_reply id c c' ms m : moved id c c' ms -> update_of id m = None -> moved id c c' (ms ++ [m]).
Proof.
  intros Hm Hu. assert (E : updates_of id (ms ++ [m]) = updates_of id ms).
  { rewrite updates_of_app. unfold updates_of at 2. cbn. by rewrite Hu, app_nil_r. }
  destruct Hm; [apply mv_same|eapply mv_new]; rewrite ?E; eauto.
Qed.

Lemma moved_quiet id c c' m :
  update_of id m = None -> co_subscriptions c' = co_subscriptions c -> moved id c c' [m].
Proof. intros Hm Es. apply mv_same; [|by rewrite Es]. unfold updates_of. cbn. by rewrite Hm. Qed.

Lemma moved_event id c e :
  map_wf (co_subscriptions c) -> digested (co_subscriptions c) -> moved id c (authorityEvent c e).1 (authorityEvent c e).2.
Proof.
  intros Hwf Hd. unfold authorityEvent. destruct (co_closed c); [by apply mv_same|].
  destruct (co_authority c) as [a|] eqn:Ha; [|by apply mv_same]. destruct e; [|by apply moved_quiet].
  apply (updates_moved id c (bump c) a); try done. cbn. lia.
Qed.

(** Every request but a subscription's own. *)
Definition names (r : Request) : option string :=
  match r with RqSubscribe _ n _ | RqUnsubscribe _ n => Some n | _ => None end.

Lemma moved_applied id (outcome : Change) c c1 a affected m :
  map_wf (co_subscriptions c1) -> digested (co_subscriptions c1) -> co_authority c1 = Some a ->
  co_subscriptions c1 = co_subscriptions c -> (outcome = Applied -> co_revision c < co_revision c1) -> update_of id m = None ->
  let o := match outcome with Applied => tryUpdates c1 affected | Unchanged => (c1, []) end in
  moved id c o.1 (o.2 ++ [m]).
Proof.
  intros Hwf Hd Ha Es Hr Hm. apply moved_reply; [|done]. destruct outcome; [by eapply updates_moved; eauto|].
  apply mv_same; [done|]. cbn. by rewrite Es.
Qed.

Lemma moved_serve id c a r :
  map_wf (co_subscriptions c) -> digested (co_subscriptions c) -> co_authority c = Some a -> names r <> Some id ->
  match serve c a r with
  | (c', Done ms) => moved id c c' ms
  | (c', Failed _) => co_subscriptions c' = co_subscriptions c
  end.
Proof.
  intros Hwf Hd Ha Hn. destruct r as [i h|i n sel|i n|i op cmd|i q|i op t|i o]; cbn [serve].
  - unfold hello. destruct (co_client c); [case_bool_decide; by apply moved_quiet|].
    destruct (au_open h) as [[a'|]|[]]; try by apply moved_quiet. destruct (au_membership a'). by apply moved_quiet.
  - unfold subscribe. destruct (au_select a sel) as [a' []]; [|done]. cbn in Hn.
    assert (n <> id) by congruence. apply mv_same; cbn; [|by rewrite map_get_set_ne].
    unfold updates_of. cbn. destruct (String.eqb_spec n id); done.
  - cbn in Hn. assert (n <> id) by congruence. apply mv_same; [done|]. cbn. rewrite map_get_delete. by rewrite decide_False.
  - unfold command. destruct (map_get op _); [case_bool_decide; by apply moved_quiet|].
    destruct (au_command a cmd op) as [a' [[[outcome delivery] affected]|e]]; cbn; [|done].
    match goal with |- context [match outcome with Applied => tryUpdates ?c0 _ | Unchanged => _ end] => set (c1 := c0) end.
    match goal with |- context [MCommandResult ?a ?b ?x ?d ?e] =>
      pose proof (moved_applied id outcome c c1 a' affected (MCommandResult a b x d e)) as H end.
    cbn zeta in H. destruct (match outcome with Applied => tryUpdates c1 affected | Unchanged => (c1, []) end) as [c2 ms].
    apply H; destruct outcome; try done; cbn; lia.
  - unfold query. destruct (au_query a q) as [a' []]; [|done]. by apply moved_quiet.
  - unfold task. destruct (au_task a t op) as [a' [[result affected]|e]]; cbn; [|done].
    pose proof (updates_moved id c (bump (set_authority c a')) a' affected) as H. destruct (tryUpdates _ affected) as [c2 ms].
    apply moved_reply; [|done]. apply H; try done. cbn. lia.
  - unfold observe. destruct (au_observe a o) as [a' [[outcome affected]|e]]; cbn; [|done].
    match goal with |- context [match outcome with Applied => tryUpdates ?c0 _ | Unchanged => _ end] => set (c1 := c0) end.
    match goal with |- context [MObserved ?a ?b] => pose proof (moved_applied id outcome c c1 a' affected (MObserved a b)) as H end.
    cbn zeta in H. destruct (match outcome with Applied => tryUpdates c1 affected | Unchanged => (c1, []) end) as [c2 ms].
    apply H; destruct outcome; try done; cbn; lia.
Qed.

Lemma moved_dispatch id c r :
  map_wf (co_subscriptions c) -> digested (co_subscriptions c) -> names r <> Some id ->
  moved id c (dispatch c r).1 (dispatch c r).2.
Proof.
  intros Hwf Hd Hn. unfold dispatch. destruct (co_closed c); [by apply moved_quiet|].
  assert (Hs : forall a, co_authority c = Some a ->
    let o := match serve c a r with
             | (c', Done m) => (c', m)
             | (c', Failed e) => (c', [errorReply (authorityFailure e "library service request failed") (Some (request_id r)) (error_subscription r)])
             end in moved id c o.1 o.2).
  { intros a Ha. pose proof (moved_serve id c a r Hwf Hd Ha Hn) as H. destruct (serve c a r) as [? []]; [done|by apply moved_quiet]. }
  destruct r; try (destruct (co_authority c); [by apply Hs|by apply moved_quiet]).
  unfold ServiceCore.hello. destruct (co_client c); [case_bool_decide; by apply moved_quiet|].
  destruct (au_open _) as [[a'|]|[]]; try by apply moved_quiet. destruct (au_membership a'). by apply moved_quiet.
Qed.

(** A subscription is taken with its first value, or refused by one error. *)
Lemma dispatch_subscribe c i id sel :
  (exists a' a v, co_authority c = Some a /\
     (dispatch c (RqSubscribe i id sel)).1 = set_subscriptions (set_authority c a') (map_set id (mkSub sel (view a sel) (view a sel)) (co_subscriptions c)) /\
     (dispatch c (RqSubscribe i id sel)).2 = [MUpdate id v (view a sel); MSubscribed i id v] /\
     ve_revision v = co_revision c /\ ve_instance v = co_instance c) \/
  (exists e sub c', dispatch c (RqSubscribe i id sel) = (c', [errorReply e (Some i) sub]) /\ co_subscriptions c' = co_subscriptions c).
Proof.
  unfold dispatch. destruct (co_closed c); [right; by eexists _, _, _|]. destruct (co_authority c) as [a|]; [|right; by eexists _, _, _].
  cbn [serve]. unfold subscribe. pose proof (select_reads a sel) as Hr. destruct (au_select a sel) as [a' [value|e]]; cbn in Hr |- *; [left|right; by eexists _, _, _].
  rewrite (Hr value eq_refl). by eexists a', a, _.
Qed.

Lemma dispatch_unsubscribe c i id :
  updates_of id (dispatch c (RqUnsubscribe i id)).2 = [] /\
  (map_get id (co_subscriptions (dispatch c (RqUnsubscribe i id)).1) = map_get id (co_subscriptions c) \/
   map_get id (co_subscriptions (dispatch c (RqUnsubscribe i id)).1) = None).
Proof.
  unfold dispatch. destruct (co_closed c); [by split; [|left]|]. destruct (co_authority c); [|by split; [|left]]. cbn.
  split; [done|right]. by rewrite map_get_delete, decide_True.
Qed.

(** What the other messages of a turn say. *)
Definition said c r (m : Message) : Prop :=
  match m with
  | MReady _ _ v => ve_instance v = co_instance c
  | MSubscribed i n _ => exists sel, r = RqSubscribe i n sel
  | _ => True
  end.

Lemma said_updates c r c1 affected : Forall (said c r) (tryUpdates c1 affected).2.
Proof.
  unfold tryUpdates, updates. destruct (co_authority c1); [|constructor]. destruct (stageUpdates _ _ _) as [a' [st|]]; cbn; [|constructor].
  apply Forall_forall. by intros m (u & -> & _)%list_elem_of_fmap.
Qed.

Lemma said_applied c r (outcome : Change) c1 affected m :
  said c r m -> let o := match outcome with Applied => tryUpdates c1 affected | Unchanged => (c1, []) end in Forall (said c r) (o.2 ++ [m]).
Proof. intros Hm. cbn zeta. apply Forall_app. split; [|by apply Forall_singleton]. destruct outcome; [apply said_updates|constructor]. Qed.

Lemma said_event c r e : Forall (said c r) (authorityEvent c e).2.
Proof.
  unfold authorityEvent. destruct (co_closed c); [constructor|]. destruct (co_authority c); [|constructor].
  destruct e; [apply said_updates|by apply Forall_singleton].
Qed.

Lemma said_hello c r i h : Forall (said c r) (hello c i h).2.
Proof.
  unfold hello. destruct (co_client c); [case_bool_decide; by apply Forall_singleton|].
  destruct (au_open h) as [[a|]|[]]; try by apply Forall_singleton. destruct (au_membership a). by apply Forall_singleton.
Qed.

Lemma said_dispatch c r : Forall (said c r) (dispatch c r).2.
Proof.
  unfold dispatch. destruct (co_closed c); [by apply Forall_singleton|].
  destruct (co_authority c) as [a|]; [|destruct r; [apply said_hello|by apply Forall_singleton..]].
  destruct r as [i h|i n sel|i n|i op cmd|i q|i op t|i o]; cbn [serve].
  - apply said_hello.
  - unfold subscribe. destruct (au_select a sel) as [a' []]; [|by apply Forall_singleton].
    apply Forall_cons. split; [done|]. apply Forall_singleton. cbn. eauto.
  - by apply Forall_singleton.
  - unfold command. destruct (map_get op _); [case_bool_decide; by apply Forall_singleton|].
    destruct (au_command a cmd op) as [a' [[[outcome delivery] affected]|e]]; cbn; [|by apply Forall_singleton].
    match goal with |- context [MCommandResult ?a ?b ?x ?d ?e] => set (m := MCommandResult a b x d e) end.
    match goal with |- context [match outcome with Applied => tryUpdates ?c0 _ | Unchanged => _ end] =>
      pose proof (said_applied c (RqCommand i op cmd) outcome c0 affected m I) as H; destruct (match outcome with Applied => tryUpdates c0 _ | Unchanged => _ end) end.
    exact H.
  - unfold query. destruct (au_query a q) as [a' []]; by apply Forall_singleton.
  - unfold task. destruct (au_task a t op) as [a' [[result affected]|e]]; cbn; [|by apply Forall_singleton].
    pose proof (said_updates c (RqTask i op t) (bump (set_authority c a')) affected) as H.
    destruct (tryUpdates _ affected). apply Forall_app. split; [done|]. by apply Forall_singleton.
  - unfold observe. destruct (au_observe a o) as [a' [[outcome affected]|e]]; cbn; [|by apply Forall_singleton].
    match goal with |- context [match outcome with Applied => tryUpdates ?c0 _ | Unchanged => _ end] =>
      match goal with |- context [MObserved i ?v] => pose proof (said_applied c (RqObserve i o) outcome c0 affected (MObserved i v) I) as H end;
      destruct (match outcome with Applied => tryUpdates c0 _ | Unchanged => _ end) end.
    exact H.
Qed.

End Turns.

(** ** What one step of the client does to its requests and subscriptions *)

Definition sent (out : list Output) : list Request := omap (fun o => match o with OSend r => Some r | _ => None end) out.

Lemma elem_of_sent r out : r ∈ sent out <-> OSend r ∈ out.
Proof.
  unfold sent. rewrite list_elem_of_omap. split; [|intros; by exists (OSend r)].
  intros (o & Ho & E). destruct o; try done. by simplify_eq.
Qed.

(** The page may subscribe once its [open] resolved; it does not speak for the service. *)
Definition page_event (c : Client) (e : event) : Prop :=
  match e with
  | EvReceive (Served _) => False
  | EvCall (CSubscribe _) _ => is_Some (cl_instance c)
  | _ => True
  end.

Lemma step_instance c e : cl_instance (step c e).1.1 = cl_instance c.
Proof.
  destruct e as [page throws|[m|]|id|]; cbn [step].
  - unfold call. destruct (cl_closed c); [by destruct page|]. destruct (match page with CUnsubscribe _ => _ | _ => _ end); [done|].
    destruct page, throws; done.
  - unfold receive. destruct (cl_closed c); [done|].
    assert (Hr : forall m id, cl_instance (receive_reply c m id).1.1 = cl_instance c).
    { clear m. intros m id. unfold receive_reply. destruct (map_get _ _) as [r|]; [|done].
      destruct (replyMatches r m (cl_instance c)), m; done. }
    destruct m; try apply Hr; cbn [reply_id].
    + unfold receive_update. destruct (map_get _ _); [|done]. destruct (_ || _); [done|]. by destruct (negb _).
    + by destruct status.
    + destruct (match _ with Some "" => None | _ => _ end); [apply Hr|done].
  - unfold receive. by destruct (cl_closed c).
  - unfold timeout. by destruct (map_get _ _) as [[]|].
  - unfold close. by destruct (cl_closed c).
Qed.

(** Who settles a request, and with what. *)
Definition settled_by (c : Client) (e : event) (p : Request * Settlement) : Prop :=
  match p.2 with
  | Resolved m => e = EvReceive (Served m) /\ replyMatches p.1 m (cl_instance c) = true
  | Rejected _ => True
  end.

Lemma refused_by c e error (pending : jsmap string Request) :
  Forall (settled_by c e) ((fun p => (p.2, Rejected error)) <$> pending).
Proof. apply Forall_forall. by intros p ([k r] & -> & _)%list_elem_of_fmap. Qed.

Lemma step_settled c e : Forall (settled_by c e) (step c e).2.
Proof.
  destruct e as [page throws|[m|]|id|]; cbn [step].
  - unfold call. destruct (cl_closed c); [by destruct page; constructor|].
    destruct (match page with CUnsubscribe _ => _ | _ => _ end); [constructor|].
    destruct page, throws; cbn [prepare request_ snd]; first [by apply Forall_singleton|constructor].
  - unfold receive. destruct (cl_closed c); [constructor|].
    assert (Hr : forall m id, Forall (settled_by c (EvReceive (Served m))) (receive_reply c m id).2).
    { clear m. intros m id. unfold receive_reply. destruct (map_get _ _) as [r|]; [|constructor].
      destruct (replyMatches r m (cl_instance c)) eqn:Hm, m; cbn [settle failAll fst snd app];
        first [by apply Forall_singleton|apply Forall_cons; split; [done|apply refused_by]]. }
    destruct m; try apply Hr; cbn [reply_id].
    + unfold receive_update. destruct (map_get _ _); [|constructor]. destruct (_ || _); [constructor|].
      destruct (negb _); [apply refused_by|constructor].
    + destruct status; constructor.
    + destruct (match _ with Some "" => None | _ => _ end); [apply Hr|]. apply refused_by.
  - unfold receive. destruct (cl_closed c); constructor.
  - unfold timeout. destruct (map_get _ _) as [[]|]; first [by apply Forall_singleton|constructor].
  - unfold close. destruct (cl_closed c); [constructor|]. apply refused_by.
Qed.

(** A pending request stays so until it settles. *)
Definition kept (c : Client) (o : Client * list Output * Settled) (id : string) (r : Request) : Prop :=
  map_get id (cl_pending o.1.1) = Some r \/ exists outcome, (r, outcome) ∈ o.2.

Lemma elem_of_refused error id r (pending : jsmap string Request) :
  map_get id pending = Some r -> (r, Rejected error) ∈ ((fun p : string * Request => (p.2, Rejected error)) <$> pending).
Proof. intros Hid. apply list_elem_of_fmap. exists (id, r). split; [done|]. by apply map_get_elem. Qed.

Lemma kept_failAll c id r error : map_get id (cl_pending c) = Some r -> kept c (failAll c error) id r.
Proof. intros Hid. right. eexists. by apply (elem_of_refused _ id). Qed.

Lemma kept_reply c m i id r : map_get id (cl_pending c) = Some r -> kept c (receive_reply c m i) id r.
Proof.
  intros Hid. unfold receive_reply. destruct (map_get i (cl_pending c)) as [r'|] eqn:Hi; [|by left].
  assert (Hsettle : forall outcome, kept c (settle c i r' outcome) id r).
  { intros outcome. destruct (decide (id = i)) as [->|Hne].
    - right. exists outcome. simplify_eq. cbn. by left.
    - left. cbn. by rewrite map_get_delete, decide_False. }
  assert (Hfail : forall outcome, kept c (let '(c, out, settled) := settle c i r' outcome in
      let '(c, out', settled') := failAll c wrong_reply in (c, out ++ out', settled ++ settled')) id r).
  { intros outcome. right. destruct (Hsettle outcome) as [Hk|[o Ho]]; cbn in *.
    - eexists. right. by apply (elem_of_refused _ id).
    - exists o. apply list_elem_of_singleton in Ho as ->. by left. }
  destruct (replyMatches r' m (cl_instance c)), m; first [apply Hsettle|apply Hfail].
Qed.

Lemma step_pending c out e id r :
  client_inv c out -> map_get id (cl_pending c) = Some r -> kept c (step c e) id r.
Proof.
  intros Hinv Hid. assert (Hsame : forall out, kept c (c, out, []) id r) by (by left).
  assert (Hopen : cl_closed c = true -> False) by (intros Hc; destruct (ci_closed _ _ Hinv Hc) as [E _]; by rewrite E in Hid).
  destruct e as [page throws|[m|]|i|]; cbn [step].
  - unfold call. destruct (cl_closed c); [destruct (Hopen eq_refl)|].
    destruct (match page with CUnsubscribe _ => _ | _ => _ end); [apply Hsame|]. left.
    destruct (prepare_frame c page) as (_ & E & _ & _ & Er). destruct (prepare c page) as [c1 r1]. cbn [fst snd] in *.
    destruct throws; cbn; [by rewrite E|]. rewrite E, map_get_set_ne; [done|]. intros E'.
    apply (fresh_request _ _ Hinv). rewrite <- Er, <- E'. apply map_get_is_Some. by eexists.
  - unfold receive. destruct (cl_closed c); [destruct (Hopen eq_refl)|].
    destruct m; try by apply kept_reply.
    + unfold receive_update. destruct (map_get _ (cl_subscriptions c)); [|apply Hsame]. destruct (_ || _); [apply Hsame|].
      destruct (negb _); [by apply kept_failAll|by left].
    + destruct status; by left.
    + cbn [reply_id]. destruct (match _ with Some "" => None | _ => _ end); [by apply kept_reply|by apply kept_failAll].
  - unfold receive. destruct (cl_closed c); by left.
  - unfold timeout. destruct (map_get i (cl_pending c)) as [[i' h| | | | | |]|] eqn:Hi; try by left.
    destruct (decide (id = i)) as [->|Hne]; [right; simplify_eq; eexists; by left|]. left. cbn. by rewrite map_get_delete, decide_False.
  - unfold close. destruct (cl_closed c); [by left|]. right. eexists. by apply (elem_of_refused _ id).
Qed.

(** A subscription a client holds after a step it held before, or has just made. *)
Definition made (c : Client) (e : event) (o : Client * list Output * Settled) (name : string) (sel : LibrarySelection) : Prop :=
  exists throws, e = EvCall (CSubscribe sel) throws /\ cl_closed c = false /\ name = subscription_name (cl_nextSubscription c + 1) /\
  let r := RqSubscribe (requestId c) name sel in
  match throws with
  | None => map_get (requestId c) (cl_pending o.1.1) = Some r /\ sent o.1.2 = [r]
  | Some error => (r, Rejected error) ∈ o.2
  end.

Lemma step_subs c e name sub' :
  map_get name (cl_subscriptions (step c e).1.1) = Some sub' ->
  (exists sub, map_get name (cl_subscriptions c) = Some sub /\ cs_selection sub' = cs_selection sub) \/
  made c e (step c e) name (cs_selection sub').
Proof.
  assert (Hsame : map_get name (cl_subscriptions c) = Some sub' ->
    exists sub, map_get name (cl_subscriptions c) = Some sub /\ cs_selection sub' = cs_selection sub) by eauto.
  destruct e as [page throws|[m|]|i|]; cbn [step].
  - unfold call. destruct (cl_closed c) eqn:Hc; [destruct page; by left; apply Hsame|].
    destruct (match page with CUnsubscribe _ => _ | _ => _ end); [by left; apply Hsame|].
    destruct page as [| | | | |sel|n]; try (destruct throws; by left; apply Hsame).
    + set (n := subscription_name (cl_nextSubscription c + 1)).
      assert (Hget : map_get name (map_set n (mkClientSub sel None false) (cl_subscriptions c)) = Some sub' ->
        (name = n /\ cs_selection sub' = sel) \/ map_get name (cl_subscriptions c) = Some sub').
      { rewrite map_get_set. case_decide; [|by right]. intros [= <-]. by left. }
      destruct throws as [error|]; cbn; intros [[-> ->]|H]%Hget; try (left; by apply Hsame); right.
      * exists (Some error). do 3 (split; [done|]). by left.
      * exists None. do 3 (split; [done|]). split; [apply map_get_set_eq|done].
    + intros H. left. apply Hsame. destruct throws; cbn in H; rewrite map_get_delete in H; by case_decide.
  - intros H. left. unfold receive in H. destruct (cl_closed c); [by apply Hsame|].
    assert (Hr : forall m i, cl_subscriptions (receive_reply c m i).1.1 = cl_subscriptions c).
    { clear m H. intros m i. unfold receive_reply. destruct (map_get i _) as [r|]; [|done].
      destruct (replyMatches r m (cl_instance c)), m; done. }
    destruct m; cbn [reply_id] in H; rewrite ?Hr in H; try by apply Hsame.
    + unfold receive_update in H. destruct (map_get subscriptionId _) as [sub|] eqn:Hs; [|by apply Hsame].
      destruct (_ || _); [by apply Hsame|]. destruct (negb _); [by apply Hsame|]. cbn in H. rewrite map_get_set in H.
      case_decide as E; [|by apply Hsame]. injection H as <-. rewrite E. by exists sub.
    + destruct status; by apply Hsame.
    + destruct (match _ with Some "" => None | _ => _ end); rewrite ?Hr in H; by apply Hsame.
  - unfold receive. destruct (cl_closed c); by left; apply Hsame.
  - unfold timeout. by destruct (map_get i (cl_pending c)) as [[]|]; left; apply Hsame.
  - unfold close. destruct (cl_closed c); [by left; apply Hsame|done].
Qed.

(** What a step shows, and what it sends. *)
Definition subscribes (rs : list Request) : list string :=
  omap (fun r => match r with RqSubscribe _ n _ => Some n | _ => None end) rs.

Lemma elem_of_subscribes name rs : name ∈ subscribes rs <-> exists i sel, RqSubscribe i name sel ∈ rs.
Proof.
  unfold subscribes. rewrite list_elem_of_omap. split.
  - intros (r & Hr & E). destruct r; try done. simplify_eq. eauto.
  - intros (i & sel & Hr). by exists (RqSubscribe i name sel).
Qed.

(** Outputs that neither show a value nor send a request. *)
Definition silent (out : list Output) : Prop := sent out = [] /\ forall name, shown name out = [].

Lemma silent_app out out' : silent out -> silent out' -> silent (out ++ out').
Proof.
  intros [H1 H2] [H3 H4]. split; [by unfold sent in *; rewrite omap_app, H1, H3|]. intros name. by rewrite shown_app, H2, H4.
Qed.

Lemma silent_refused error (pending : jsmap string Request) :
  silent ((fun p => OSettle p.1 (Rejected error)) <$> pending).
Proof.
  split; [|intros name; apply shown_quiet, quiet_settled]. induction pending as [|p pending IH]; [done|]. exact IH.
Qed.

Lemma silent_failAll c error : silent (failAll c error).1.2.
Proof. apply silent_app; [apply silent_refused|done]. Qed.

Lemma silent_reply c m i : silent (receive_reply c m i).1.2.
Proof.
  unfold receive_reply. destruct (map_get i _) as [r|]; [|done].
  destruct (replyMatches r m (cl_instance c)), m; try done; cbn [settle failAll fst snd];
    (apply (silent_app [_]); [done|apply silent_app; [apply silent_refused|done]]).
Qed.

Lemma silent_receive c m : (forall n v value, m <> Served (MUpdate n v value)) -> silent (receive c m).1.2.
Proof.
  intros Hm. unfold receive. destruct (cl_closed c); [done|]. destruct m as [m|id progress].
  - destruct m; try apply silent_reply.
    + by destruct (Hm subscriptionId version value).
    + destruct status; try done. cbn [fst snd]. by destruct (cl_relay c).
    + cbn [reply_id]. destruct (match _ with Some "" => None | _ => _ end); [apply silent_reply|apply silent_failAll].
  - cbn [fst snd]. by destruct (map_get id _) as [[]|], (cl_progress c).
Qed.

Lemma silent_continue c r outcome : silent (continue_ c r outcome).2.
Proof.
  destruct r as [|i n s| | | | |], outcome as [m|]; try done; [destruct m; try done|]; cbn.
  - by destruct (cl_relay c), (cf_installs _).
  - by destruct (map_get n _).
Qed.

Lemma silent_timeout c i : silent (timeout c i).1.2.
Proof. unfold timeout. by destruct (map_get i (cl_pending c)) as [[]|]. Qed.

Lemma silent_close c : silent (close c).1.2.
Proof.
  unfold close. destruct (cl_closed c); [done|]. cbn [fst snd].
  apply silent_app; [by destruct (cl_relay c)|]. apply silent_app; [by destruct (cf_owns _)|apply silent_refused].
Qed.

Lemma step_shown name c e : (forall m, e <> EvReceive (Served m)) -> shown name (step c e).1.2 = [].
Proof.
  intros He. destruct e as [page throws|m|i|]; cbn [step].
  - unfold call. destruct (cl_closed c); [by destruct page|]. destruct (match page with CUnsubscribe _ => _ | _ => _ end); [done|].
    by destruct page, throws.
  - destruct (silent_receive c m) as [_ Hs]; [|apply Hs]. intros n v value ->. by eapply He.
  - apply silent_timeout.
  - apply silent_close.
Qed.

Lemma step_subscribes c e :
  (forall m, e <> EvReceive (Served m)) -> subscribes (sent (step c e).1.2) = [] \/
  exists sel, e = EvCall (CSubscribe sel) None /\ cl_closed c = false /\
    subscribes (sent (step c e).1.2) = [subscription_name (cl_nextSubscription c + 1)].
Proof.
  intros He. destruct e as [page throws|m|i|]; cbn [step].
  - unfold call. destruct (cl_closed c); [left; by destruct page|].
    destruct (match page with CUnsubscribe _ => _ | _ => _ end); [by left|].
    destruct page as [| | | | |sel|], throws; try (by left). right. by exists sel.
  - destruct (silent_receive c m) as [-> _]; [|by left]. intros n v value ->. by destruct (He (MUpdate n v value)).
  - left. by destruct (silent_timeout c i) as [-> _].
  - left. by destruct (silent_close c) as [-> _].
Qed.

(** ** The two ends connected *)

Record Session (A : Type) : Type := mkSession {
  ss_client : Client;
  ss_waiting : Settled;
  ss_out : list Output;
  ss_requests : list Request;  (** sent by the client, not yet taken by the core *)
  ss_core : Core A;
  ss_events : list LibraryAuthorityEvent;  (** queued by the authority *)
  ss_messages : list Message;  (** sent by the core, not yet delivered to the client *)
  ss_tries : Tries;  (** the replacements of selections the core tried *)
}.
Arguments mkSession {A} _ _ _ _ _ _ _ _.
Arguments ss_client {A} _.
Arguments ss_waiting {A} _.
Arguments ss_out {A} _.
Arguments ss_requests {A} _.
Arguments ss_core {A} _.
Arguments ss_events {A} _.
Arguments ss_messages {A} _.
Arguments ss_tries {A} _.

Section Session.
Context {A : Type} {AU : Authority A} {LAWS : AuthorityLaws A}.
Implicit Types (core : Core A) (q : list LibraryAuthorityEvent) (ms : list Message) (rq : list Request).

(** The client acts: what it sends joins the requests under way. *)
Definition acted (c : Client) (w : Settled) (out : list Output) rq core q ms (tr : Tries) (e : event) : Session A :=
  mkSession (step c e).1.1 (w ++ (step c e).2) (out ++ (step c e).1.2) (rq ++ sent (step c e).1.2) core q ms tr.

Inductive session (config : Config) (instance : string) : Session A -> Prop :=
| sn_new : session config instance (mkSession (newClient config) [] [] [] (newCore instance) [] [] [])
| sn_page c w out rq core q ms tr e :
    session config instance (mkSession c w out rq core q ms tr) -> page_event c e ->
    session config instance (acted c w out rq core q ms tr e)
| sn_receive c w out rq core q pre m post tr :
    session config instance (mkSession c w out rq core q (pre ++ m :: post) tr) ->
    session config instance (acted c w out rq core q (pre ++ post) tr (EvReceive (Served m)))
| sn_continue c p w out rq core q ms tr :
    session config instance (mkSession c (p :: w) out rq core q ms tr) ->
    session config instance (mkSession (continue_ c p.1 p.2).1 w (out ++ (continue_ c p.1 p.2).2) rq core q ms tr)
| sn_serve c w out pre r post core q ms tr :
    session config instance (mkSession c w out (pre ++ r :: post) core q ms tr) ->
    session config instance (mkSession c w out (pre ++ post) (dispatch core r).1 q (ms ++ (dispatch core r).2) (tr ++ request_tries core r))
| sn_moves c w out rq core q ms tr a a' affected :
    session config instance (mkSession c w out rq core q ms tr) -> co_authority core = Some a ->
    (forall s, existsb (fun sc => scopeMatches sc s) affected = true \/ view a' s = view a s) ->
    session config instance (mkSession c w out rq (set_authority core a') (q ++ [EvChanged affected]) ms tr)
| sn_status c w out rq core q ms tr s :
    session config instance (mkSession c w out rq core q ms tr) ->
    session config instance (mkSession c w out rq core (q ++ [EvStatus s]) ms tr)
| sn_event c w out rq core e q ms tr :
    session config instance (mkSession c w out rq core (e :: q) ms tr) ->
    session config instance (mkSession c w out rq (authorityEvent core e).1 q (ms ++ (authorityEvent core e).2) (tr ++ event_tries core e))
| sn_startClose c w out rq core q ms tr :
    session config instance (mkSession c w out rq core q ms tr) ->
    session config instance (mkSession c w out rq (startClose core) q ms tr)
| sn_finishClose c w out rq core q ms tr :
    session config instance (mkSession c w out rq core q ms tr) -> co_closed core = true ->
    session config instance (mkSession c w out rq (finishClose core) q ms tr).

(** Each end runs as it does alone. *)
Lemma session_run config instance s : session config instance s -> run config (ss_client s) (ss_waiting s) (ss_out s).
Proof.
  induction 1; cbn in *; [apply run_new|by apply run_step|by apply (run_step config c w out (EvReceive (Served m)))|by apply run_continue|done..].
Qed.

Lemma session_lane config instance s : session config instance s -> exists page, lane (ss_core s) (ss_events s) page (ss_tries s).
Proof.
  induction 1; cbn in *; repeat match goal with H : exists page, _ |- _ => destruct H as [page ?] end; eauto.
  - eexists. apply lane_new.
  - eexists. by apply lane_request.
  - eexists. by eapply lane_moves.
  - eexists. by apply lane_status.
  - eexists. by apply lane_event.
  - eexists. by apply lane_startClose.
  - eexists. by apply lane_finishClose.
Qed.

(** *** What is under way *)

Definition live (c : Client) (name : string) (sel : LibrarySelection) : Prop :=
  exists sub, map_get name (cl_subscriptions c) = Some sub /\ cs_selection sub = sel.
Definition asked (out : list Output) (name : string) (sel : LibrarySelection) : Prop :=
  exists i, OSend (RqSubscribe i name sel) ∈ out.
Definition held core (name : string) (sel : LibrarySelection) : Prop :=
  exists s, map_get name (co_subscriptions core) = Some s /\ su_selection s = sel.

(** A value the core holds is on its way, or the last one shown; nothing newer is. *)
Definition current (value : json) (coming seen : list (json * LibraryVersion)) : Prop :=
  exists v, ((value, v) ∈ coming \/ last seen = Some (value, v)) /\
    forall x w, (x, w) ∈ coming \/ (x, w) ∈ seen ->
      ve_revision w < ve_revision v \/ (ve_revision w = ve_revision v /\ x = value).

Definition versioned_by core (v : LibraryVersion) : Prop :=
  ve_revision v <= co_revision core /\ ve_instance v = co_instance core.

(** Where the subscription of a client stands: about to be forgotten, held by the core, or still asked for. *)
Definition standing (c : Client) (w : Settled) rq core ms (name : string) (sel : LibrarySelection) : Prop :=
  (exists i error, (RqSubscribe i name sel, Rejected error) ∈ w) \/ held core name sel \/
  (exists i, map_get i (cl_pending c) = Some (RqSubscribe i name sel) /\
     (RqSubscribe i name sel ∈ rq \/ exists e sub, MError e (Some i) sub ∈ ms)).

Record wired (c : Client) (w : Settled) (out : list Output) rq core ms : Prop := {
  wi_sent r : r ∈ rq -> OSend r ∈ out;
  wi_once : NoDup (subscribes rq);
  wi_new name : name ∈ subscribes rq ->
    updates_of name ms = [] /\ shown name out = [] /\ map_get name (co_subscriptions core) = None;
  wi_core name s : map_get name (co_subscriptions core) = Some s -> asked out name (su_selection s);
  wi_update name v value : MUpdate name v value ∈ ms ->
    versioned_by core v /\ exists sel, asked out name sel /\ selectionMatches sel value = true;
  wi_shown name value v : (value, v) ∈ shown name out -> versioned_by core v;
  wi_opened name sel : asked out name sel -> is_Some (cl_instance c);
  wi_instance i : cl_instance c = Some i -> i = co_instance core;
  wi_ready i m v : MReady i m v ∈ ms -> ve_instance v = co_instance core;
  wi_waiting r i m v : (r, Resolved (MReady i m v)) ∈ w -> ve_instance v = co_instance core;
  wi_current name s sel : map_get name (co_subscriptions core) = Some s -> live c name sel ->
    current (su_value s) (updates_of name ms) (shown name out);
  wi_standing name sel : live c name sel -> standing c w rq core ms name sel;
  wi_answered i name v : MSubscribed i name v ∈ ms ->
    exists sel, asked out name sel /\ (live c name sel -> held core name sel);
}.

Lemma asked_app out out' name sel : asked (out ++ out') name sel <-> asked out name sel \/ asked out' name sel.
Proof. unfold asked. setoid_rewrite elem_of_app. naive_solver. Qed.

Lemma asked_sent out name sel : asked out name sel -> name ∈ subscribes (sent out).
Proof. intros [i Hi]. apply elem_of_subscribes. exists i, sel. by apply elem_of_sent. Qed.

Lemma asked_silent out out' name sel : sent out' = [] -> asked (out ++ out') name sel <-> asked out name sel.
Proof. intros Hs. rewrite asked_app. split; [intros [?|H%asked_sent]; [done|by rewrite Hs in H; apply elem_of_nil in H]|by left]. Qed.

Lemma asked_names c out name sel : shows_inv name c out -> asked out name sel -> name ∈ subscribed_names c.
Proof.
  intros Hinv [i Hi]. destruct (decide (name ∈ subscribed_names c)) as [|Hno]; [done|].
  destruct (si_fresh _ _ _ Hinv Hno) as [Hq _]. exfalso. eapply not_quiet; [exact Hi|apply about_subscribe|done].
Qed.

Lemma live_asked c out name sel sel' : shows_inv name c out -> asked out name sel -> live c name sel' -> sel = sel'.
Proof. intros Hinv [i Hi] (sub & Hsub & <-). destruct (si_live _ _ _ Hinv sub Hsub) as (_ & _ & H & _). by apply (H i). Qed.

(** A step of the client leaves a subscription standing, unless it resolves it. *)
Lemma standing_step c w out rq rq' core ms ms' e name sel :
  client_inv c out -> standing c w rq core ms name sel -> (forall r, r ∈ rq -> r ∈ rq') ->
  (forall i error sub r, map_get i (cl_pending (step c e).1.1) = Some r -> MError error (Some i) sub ∈ ms -> MError error (Some i) sub ∈ ms') ->
  standing (step c e).1.1 (w ++ (step c e).2) rq' core ms' name sel \/ exists i v, e = EvReceive (Served (MSubscribed i name v)).
Proof.
  intros Hc Hs Hrq Hms. destruct Hs as [(i & error & Hw)|[Hh|(i & Hp & Hor)]].
  - left. left. exists i, error. apply elem_of_app. by left.
  - left. right. by left.
  - destruct (step_pending c out e i _ Hc Hp) as [Hk|[outcome Ho]].
    + left. right. right. exists i. split; [done|]. destruct Hor as [Hr|(error & sub & Hm)]; [left; auto|right; eauto].
    + destruct outcome as [m|error].
      * right. apply (proj1 (Forall_forall _ _) (step_settled c e)) in Ho as [-> Hm]. cbn in Hm.
        apply andb_true_iff in Hm as [_ Hm]. destruct m; try done. apply String.eqb_eq in Hm as ->. eauto.
      * left. left. exists i, error. apply elem_of_app. by right.
Qed.

(** The page acts. *)
Lemma wired_page c w out rq core ms e :
  client_inv c out -> (forall name, shows_inv name c out) -> page_event c e -> wired c w out rq core ms ->
  wired (step c e).1.1 (w ++ (step c e).2) (out ++ (step c e).1.2) (rq ++ sent (step c e).1.2) core ms.
Proof.
  intros Hc Hs He [Hsent Honce Hnew Hcore Hupd Hshown Hopened Hinst Hready Hwait Hcur Hstand Hans].
  assert (Hnot : forall m, e <> EvReceive (Served m)) by (intros m ->; done).
  set (n := subscription_name (cl_nextSubscription c + 1)).
  assert (Hfresh : forall sel, asked out n sel -> False).
  { intros sel Ha%(asked_names c); [|done]. apply elem_of_names in Ha. lia. }
  assert (Hn : n ∉ subscribes rq).
  { intros (i & sel & Hi%Hsent)%elem_of_subscribes. apply (Hfresh sel). by exists i. }
  assert (Esh : forall name, shown name (out ++ (step c e).1.2) = shown name out).
  { intros name. rewrite shown_app, step_shown by done. apply app_nil_r. }
  assert (Hlive : forall name sel, live (step c e).1.1 name sel -> live c name sel \/ made c e (step c e) name sel).
  { intros name sel (sub' & Hsub & <-). destruct (step_subs c e name sub' Hsub) as [(sub & ? & ?)|]; [left; by exists sub|by right]. }
  split; try setoid_rewrite step_instance; try setoid_rewrite Esh; try done.
  - intros r [Hr|Hr]%elem_of_app; apply elem_of_app; [left; auto|right]. by apply elem_of_sent.
  - unfold subscribes. rewrite omap_app. destruct (step_subscribes c e Hnot) as [E|(sel & _ & _ & E)]; unfold subscribes in E; rewrite E.
    + by rewrite app_nil_r.
    + apply NoDup_app. split; [done|]. split; [|apply NoDup_singleton]. intros x Hx Hx'%list_elem_of_singleton. subst x. by apply Hn.
  - intros name Hin. unfold subscribes in Hin. rewrite omap_app in Hin. apply elem_of_app in Hin as [Hin|Hin]; [by apply Hnew|].
    destruct (step_subscribes c e Hnot) as [E|(sel & _ & _ & E)]; unfold subscribes in E; rewrite E in Hin; [by apply elem_of_nil in Hin|].
    apply list_elem_of_singleton in Hin as ->. fold n. split_and!.
    + destruct (updates_of n ms) as [|[value v] l] eqn:Eu; [done|]. assert (Hm : MUpdate n v value ∈ ms) by (apply elem_of_updates; rewrite Eu; by left).
      destruct (Hupd _ _ _ Hm) as (_ & sel' & Ha & _). destruct (Hfresh _ Ha).
    + apply shown_quiet. apply (si_fresh _ _ _ (Hs n)). unfold n. rewrite elem_of_names. lia.
    + destruct (map_get n (co_subscriptions core)) as [s|] eqn:Es; [|done]. destruct (Hfresh _ (Hcore _ _ Es)).
  - intros name s Hcs. apply asked_app. left. by apply Hcore.
  - intros name v value Hm. destruct (Hupd _ _ _ Hm) as (? & sel & ? & ?). split; [done|]. exists sel. split; [|done]. apply asked_app. by left.
  - intros name sel [Ha|Ha%asked_sent]%asked_app; [by eapply Hopened|].
    destruct (step_subscribes c e Hnot) as [E|(sel' & -> & _)]; [rewrite E in Ha; by apply elem_of_nil in Ha|]. exact He.
  - intros r i m v [Hr|Hr]%elem_of_app; [by eapply Hwait|]. pose proof (step_settled c e) as Hst.
    apply (proj1 (Forall_forall _ _) Hst) in Hr as [E _]. by destruct (Hnot (MReady i m v)).
  - intros name s sel Hcs [Hl|Hm]%Hlive; [by eapply Hcur|]. destruct Hm as (throws & -> & _ & -> & _).
    destruct (Hfresh _ (Hcore _ _ Hcs)).
  - intros name sel [Hl|Hm]%Hlive.
    + destruct (standing_step c w out rq (rq ++ sent (step c e).1.2) core ms ms e name sel Hc (Hstand _ _ Hl)) as [?|(i & v & ->)];
        [intros r Hr; apply elem_of_app; by left|done|done|]. by edestruct Hnot.
    + destruct Hm as (throws & -> & _ & -> & Hm). destruct throws as [error|].
      * left. exists (requestId c), error. apply elem_of_app. by right.
      * right. right. destruct Hm as [Hp Hr]. exists (requestId c). split; [done|]. left. apply elem_of_app. right. rewrite Hr. by left.
  - intros i name v Hm. destruct (Hans _ _ _ Hm) as (sel & Ha & Hh). exists sel. split; [apply asked_app; by left|].
    intros [Hl|Hmade]%Hlive; [by apply Hh|]. destruct Hmade as (throws & -> & _ & -> & _). destruct (Hfresh _ Ha).
Qed.

(** A message arrives. *)
Lemma elem_of_middle {T} (x m : T) pre post : x ∈ pre ++ post -> x ∈ pre ++ m :: post.
Proof. rewrite !elem_of_app, elem_of_cons. naive_solver. Qed.

(** An error that names a pending request settles it. *)
Lemma receive_error c error i sub r :
  i <> "" -> cl_closed c = false -> map_get i (cl_pending (step c (EvReceive (Served (MError error (Some i) sub)))).1.1) = Some r -> False.
Proof.
  intros Hi Hcl. cbn [step]. unfold receive. rewrite Hcl. cbn [reply_id]. destruct i as [|x i]; [done|].
  unfold receive_reply. destruct (map_get _ (cl_pending c)) eqn:E; [|cbn; by rewrite E]. cbn. by rewrite map_get_delete, decide_True.
Qed.

Lemma pending_nonempty c out i r : client_inv c out -> map_get i (cl_pending c) = Some r -> i <> "" /\ cl_closed c = false.
Proof.
  intros [Hi _ _ Hc _] Hp. split.
  - intros ->. assert (Hin : "" ∈ issued c).
    { rewrite <- Hi. apply elem_of_app. right. apply map_get_is_Some. by eexists. }
    apply list_elem_of_fmap in Hin as (k & E & _). by destruct (cf_id (cl_config c)).
  - destruct (cl_closed c); [|done]. destruct (Hc eq_refl) as [E _]. by rewrite E in Hp.
Qed.

(** What a listener is shown keeps step with what the core holds. *)
Lemma current_delivered value v x w coming coming' seen :
  current value coming seen -> (forall y, y ∈ coming' -> y ∈ coming) -> (forall y, y ∈ coming -> y = (x, w) \/ y ∈ coming') ->
  (x, w) ∈ coming -> (v = snd <$> last seen) -> (forall u, v = Some u -> ve_instance u = ve_instance w) ->
  current value coming' (if newer w v then seen ++ [(x, w)] else seen).
Proof.
  intros (u & Hu & Hmax) Hsub Hall Hx -> Hin. pose proof (Hmax x w (or_introl Hx)) as Hxw. destruct (newer w _) eqn:Hn.
  - exists u. split.
    + rewrite last_snoc. destruct Hu as [Hu|Hl]; [destruct (Hall _ Hu) as [->|]; [by right|by left]|].
      rewrite Hl in Hn. cbn in Hn. apply andb_true_iff in Hn as [_ Hn%Z.ltb_lt]. lia.
    + intros y w' [Hy|[Hy|Hy%list_elem_of_singleton]%elem_of_app]; [apply Hmax; left; auto|apply Hmax; by right|by simplify_eq].
  - destruct Hu as [Hu|Hl].
    + destruct (Hall _ Hu) as [E|Hu']; [|exists u; split; [by left|]; intros y w' [Hy|Hy]; apply Hmax; [left; auto|by right]].
      injection E as <- <-. destruct (last seen) as [[y w']|] eqn:Hl; [|done]. cbn in Hn, Hin.
      assert (Hy : (y, w') ∈ seen) by (apply last_Some in Hl as (l & ->); apply elem_of_app; right; by left).
      rewrite (Hin w' eq_refl), String.eqb_refl in Hn. cbn in Hn. apply Z.ltb_ge in Hn.
      destruct (Hmax y w' (or_intror Hy)) as [?|[Er ->]]; [lia|]. exists w'. split; [by right|].
      intros z w2 Hz. rewrite Er. apply Hmax. destruct Hz; [left; auto|by right].
    + exists u. split; [by right|]. intros y w' [Hy|Hy]; apply Hmax; [left; auto|by right].
Qed.

Lemma receive_sent c m : sent (receive c m).1.2 = [].
Proof.
  destruct m as [m|]; [|by apply silent_receive]. destruct m as [|n v value| | | | | | | |]; try by apply silent_receive.
  unfold receive. destruct (cl_closed c); [done|]. unfold receive_update. destruct (map_get n _); [|done].
  destruct (_ || _); [done|]. destruct (negb _); [apply silent_failAll|done].
Qed.

Lemma receive_shown c m name :
  shown name (receive c (Served m)).1.2 = [] \/
  exists v value, m = MUpdate name v value /\ shown name (receive c (Served m)).1.2 = [(value, v)].
Proof.
  destruct m as [|n v value| | | | | | | |]; try (left; by apply silent_receive).
  unfold receive. destruct (cl_closed c); [by left|]. unfold receive_update. destruct (map_get n _); [|by left].
  destruct (_ || _); [by left|]. destruct (negb _); [left; apply silent_failAll|].
  cbn. destruct (String.eqb_spec n name) as [->|]; [right; eauto|by left].
Qed.

Lemma receive_shown_live c name v value sub :
  cl_closed c = false -> map_get name (cl_subscriptions c) = Some sub -> cl_instance c = Some (ve_instance v) ->
  selectionMatches (cs_selection sub) value = true ->
  shown name (receive c (Served (MUpdate name v value))).1.2 = if newer v (cs_version sub) then [(value, v)] else [].
Proof.
  intros Hc Hsub Hi Hm. unfold receive, receive_update. rewrite Hc, Hsub, Hi, Hm, bool_decide_true by done. cbn.
  destruct (newer v (cs_version sub)); cbn; [by rewrite String.eqb_refl|done].
Qed.

Lemma live_open c out name sel : client_inv c out -> live c name sel -> cl_closed c = false.
Proof. intros Hc (sub & Hsub & _). destruct (cl_closed c) eqn:E; [|done]. destruct (ci_closed _ _ Hc E) as [_ Es]. by rewrite Es in Hsub. Qed.

(** The value the core holds is still on its way or the last shown when another message was delivered. *)
Lemma current_received c w out rq core pre m post name s sel :
  client_inv c out -> (forall name, shows_inv name c out) -> wired c w out rq core (pre ++ m :: post) ->
  map_get name (co_subscriptions core) = Some s -> live c name sel ->
  current (su_value s) (updates_of name (pre ++ post)) (shown name (out ++ (receive c (Served m)).1.2)).
Proof.
  intros Hc Hs Hw Hcs Hl. pose proof (wi_current _ _ _ _ _ _ Hw _ _ _ Hcs Hl) as Hk. destruct Hl as (sub & Hsub & _).
  assert (Hin : m ∈ pre ++ m :: post) by (apply elem_of_app; right; by left).
  rewrite shown_app. destruct (update_of name m) as [[x v]|] eqn:Em.
  - assert (m = MUpdate name v x) as ->.
    { destruct m as [|n v' x'| | | | | | | |]; try done. cbn in Em. destruct (String.eqb_spec n name); [|done]. by simplify_eq. }
    destruct (wi_update _ _ _ _ _ _ Hw _ _ _ Hin) as ([_ Hvi] & sel' & Ha & Hmatch).
    destruct (wi_opened _ _ _ _ _ _ Hw _ _ Ha) as [i Hi]. destruct (si_live _ _ _ (Hs name) sub Hsub) as (Ev & _).
    assert (Hl : live c name (cs_selection sub)) by (by exists sub). rewrite (live_asked _ _ _ _ _ (Hs name) Ha Hl) in Hmatch.
    rewrite (receive_shown_live c name v x sub); [|by eapply live_open|done|by rewrite Hi, (wi_instance _ _ _ _ _ _ Hw _ Hi), Hvi|done].
    replace (shown name out ++ _) with (if newer v (cs_version sub) then shown name out ++ [(x, v)] else shown name out)
      by (destruct (newer v _); [done|by rewrite app_nil_r]).
    eapply current_delivered; [exact Hk| | |by apply elem_of_updates|done|].
    + intros [y u]. rewrite !elem_of_updates. apply elem_of_middle.
    + intros [y u]. rewrite !elem_of_updates, !elem_of_app, elem_of_cons. intros [?|[[= -> ->]|?]]; auto.
    + intros u Eu. rewrite Hvi. destruct (last (shown name out)) as [[y u']|] eqn:El; rewrite Ev in Eu; [|done]. injection Eu as <-.
      apply last_Some in El as (l & El). apply (wi_shown _ _ _ _ _ _ Hw name y u'). rewrite El. apply elem_of_app. right. by left.
  - assert (Eu : updates_of name (pre ++ post) = updates_of name (pre ++ m :: post)).
    { rewrite !updates_of_app. f_equal. unfold updates_of. cbn. by rewrite Em. }
    rewrite Eu. destruct (receive_shown c m name) as [E|(v & x & -> & E)].
    + by rewrite E, app_nil_r.
    + cbn in Em. by rewrite String.eqb_refl in Em.
Qed.

Lemma wired_receive c w out rq core pre m post :
  client_inv c out -> (forall name, shows_inv name c out) -> wired c w out rq core (pre ++ m :: post) ->
  let e := EvReceive (Served m) in
  wired (step c e).1.1 (w ++ (step c e).2) (out ++ (step c e).1.2) (rq ++ sent (step c e).1.2) core (pre ++ post).
Proof.
  intros Hc Hs Hw e. pose proof Hw as [Hsent Honce Hnew Hcore Hupd Hshown Hopened Hinst Hready Hwait _ Hstand Hans].
  assert (Hin : m ∈ pre ++ m :: post) by (apply elem_of_app; right; by left).
  assert (Hmid : forall m', m' ∈ pre ++ post -> m' ∈ pre ++ m :: post) by (intros; by apply elem_of_middle).
  assert (Es : sent (step c e).1.2 = []) by apply receive_sent.
  assert (Hlive : forall name sel, live (step c e).1.1 name sel -> live c name sel).
  { intros name sel (sub' & Hsub & <-). destruct (step_subs c e name sub' Hsub) as [(sub & ? & ?)|(t & ? & _)]; [by exists sub|done]. }
  assert (Hsh : forall name value v, (value, v) ∈ shown name (step c e).1.2 -> m = MUpdate name v value).
  { intros name value v Hv. destruct (receive_shown c m name) as [E|(v' & value' & -> & E)]; cbn [step e] in Hv; rewrite E in Hv;
      [by apply elem_of_nil in Hv|apply list_elem_of_singleton in Hv; by simplify_eq]. }
  rewrite Es, app_nil_r.
  split; try setoid_rewrite step_instance; try (setoid_rewrite (asked_silent _ _ _ _ Es)); try done.
  - intros r Hr. apply elem_of_app. left. auto.
  - intros name Hn. destruct (Hnew name Hn) as (Hu & Hsn & Hnone). split_and!; [| |done].
    + destruct (updates_of name (pre ++ post)) as [|[x v] l] eqn:E; [done|]. exfalso. apply (elem_of_nil (x, v)). rewrite <- Hu.
      apply elem_of_updates, Hmid, elem_of_updates. rewrite E. by left.
    + rewrite shown_app, Hsn. destruct (shown name (step c e).1.2) as [|[x v] l] eqn:E; [done|]. exfalso.
      apply (elem_of_nil (x, v)). rewrite <- Hu. apply elem_of_updates. rewrite <- (Hsh name x v); [done|]. rewrite E. by left.
  - intros name v value Hm%Hmid. by apply Hupd.
  - intros name value v. rewrite shown_app. intros [Hv|Hv%Hsh]%elem_of_app; [by eapply Hshown|]. subst m. by apply Hupd in Hin as [? _].
  - intros i m' v Hm%Hmid. by eapply Hready.
  - intros r i m' v [Hr|Hr]%elem_of_app; [by eapply Hwait|].
    apply (proj1 (Forall_forall _ _) (step_settled c e)) in Hr as [[= ->] _]. by eapply Hready.
  - intros name s sel Hcs Hl%Hlive. by eapply current_received.
  - intros name sel Hl'. pose proof (Hlive _ _ Hl') as Hl.
    destruct (standing_step c w out rq rq core (pre ++ m :: post) (pre ++ post) e name sel Hc (Hstand _ _ Hl)) as [?|(i & v & E)]; [done| |done|].
    + intros i error sub r Hp Hm. apply elem_of_app in Hm as [Hm|[<-|Hm]%elem_of_cons]; [apply elem_of_app; by left| |apply elem_of_app; by right].
      destruct (pending_nonempty _ _ _ _ (inv_receive c out (Served (MError error (Some i) sub)) Hc) Hp) as [Hi _].
      destruct (receive_error c error i sub r Hi (live_open _ _ _ _ Hc Hl) Hp).
    + injection E as ->. destruct (Hans _ _ _ Hin) as (sel' & Ha & Hh). rewrite (live_asked _ _ _ _ _ (Hs name) Ha Hl) in Hh.
      right. left. by apply Hh.
  - intros i name v Hm%Hmid. destruct (Hans _ _ _ Hm) as (sel & Ha & Hh). exists sel. auto.
Qed.

(** What awaited a request continues. *)
Lemma continue_frame c p :
  cl_pending (continue_ c p.1 p.2).1 = cl_pending c /\
  (cl_instance (continue_ c p.1 p.2).1 = cl_instance c \/
   exists r i m v, p = (r, Resolved (MReady i m v)) /\ cl_instance (continue_ c p.1 p.2).1 = Some (ve_instance v)) /\
  (forall name sel, live (continue_ c p.1 p.2).1 name sel ->
     live c name sel /\ forall i sel' error, p <> (RqSubscribe i name sel', Rejected error)).
Proof.
  destruct p as [r outcome]. cbn [fst snd].
  assert (Hsame : (forall i name sel error, (r, outcome) <> (RqSubscribe i name sel, Rejected error)) -> forall name sel, live c name sel ->
    live c name sel /\ forall i sel' error, (r, outcome) <> (RqSubscribe i name sel', Rejected error)) by auto.
  destruct r as [i h|i n s| | | | |], outcome as [m|error]; try (split; [done|]; split; [by left|]; by apply Hsame).
  - destruct m as [j mem v| | | | | | | | |]; try (split; [done|]; split; [by left|]; by apply Hsame).
    split; [done|]. split; [right; by eexists _, _, _, _|]. intros name sel Hl. by apply Hsame.
  - cbn. destruct (map_get n (cl_subscriptions c)) as [sub|] eqn:Hn; [|split; [done|]; split; [by left|]; by apply Hsame].
    split; [done|]. split; [by left|]. intros name sel (sub' & Hsub & <-). split; [|done]. cbn in Hsub. rewrite map_get_set in Hsub.
    case_decide as E; [|by exists sub']. injection Hsub as <-. subst name. by exists sub.
  - split; [done|]. split; [by left|]. intros name sel (sub' & Hsub & <-). cbn in Hsub. rewrite map_get_delete in Hsub.
    case_decide as E; [done|]. split; [by exists sub'|]. intros i' sel' error' [= _ <-]. done.
Qed.

Lemma wired_continue c p w out rq core ms :
  wired c (p :: w) out rq core ms -> wired (continue_ c p.1 p.2).1 w (out ++ (continue_ c p.1 p.2).2) rq core ms.
Proof.
  intros [Hsent Honce Hnew Hcore Hupd Hshown Hopened Hinst Hready Hwait Hcur Hstand Hans].
  destruct (continue_frame c p) as (Ep & Hi & Hlive). destruct (silent_continue c p.1 p.2) as [Es Esh].
  assert (Eshown : forall name, shown name (out ++ (continue_ c p.1 p.2).2) = shown name out)
    by (intros name; by rewrite shown_app, Esh, app_nil_r).
  split; try setoid_rewrite Eshown; try (setoid_rewrite (asked_silent _ _ _ _ Es)); try done.
  - intros r Hr. apply elem_of_app. left. auto.
  - intros name sel Ha. destruct Hi as [->|(r & i & m & v & _ & ->)]; [by eapply Hopened|by eexists].
  - intros i. destruct Hi as [->|(r & j & m & v & -> & ->)]; [apply Hinst|]. intros [= <-]. eapply Hwait. by left.
  - intros r i m v Hr. eapply Hwait. by right.
  - intros name s sel Hcs [Hl _]%Hlive. by eapply Hcur.
  - intros name sel [Hl Hnot]%Hlive. unfold standing. rewrite Ep.
    destruct (Hstand _ _ Hl) as [(i & error & [<-|Hw]%elem_of_cons)|Hor]; [by edestruct Hnot|left; eauto|by right].
  - intros i name v Hm. destruct (Hans _ _ _ Hm) as (sel & Ha & Hh). exists sel. split; [done|]. intros [Hl _]%Hlive. auto.
Qed.

(** *** The core acts *)

(** What a turn does to one subscription: replace its value or leave it, forget it as the client asked, or take it. *)
Inductive turned (out : list Output) rq rq' core core' new (name : string) : Prop :=
| tu_moved : moved name core core' new -> turned out rq rq' core core' new name
| tu_gone i : updates_of name new = [] -> map_get name (co_subscriptions core') = None -> OSend (RqUnsubscribe i name) ∈ out ->
    turned out rq rq' core core' new name
| tu_taken s v : name ∈ subscribes rq -> (name ∉ subscribes rq') -> asked out name (su_selection s) ->
    map_get name (co_subscriptions core') = Some s -> updates_of name new = [(su_value s, v)] -> versioned_by core' v ->
    selectionMatches (su_selection s) (su_value s) = true -> turned out rq rq' core core' new name.

Lemma turned_held c out rq rq' core core' new name sel :
  shows_inv name c out -> turned out rq rq' core core' new name -> live c name sel -> held core name sel ->
  (name ∉ subscribes rq) -> held core' name sel.
Proof.
  intros Hs Ht (sub & Hsub & _) (s & Hcs & Hsel) Hno. destruct Ht as [[Hu E|s1 s' v H1 H2 E _ _ _ _ _]|i _ _ Hi|]; [| | |done].
  - exists s. by rewrite E.
  - exists s'. split; [done|]. congruence.
  - destruct (si_live _ _ _ Hs sub Hsub) as (_ & _ & _ & Hun). destruct (Hun i Hi).
Qed.

(** A value just sent under the core's revision is the newest. *)
Lemma current_sent value v coming seen :
  (forall x w, (x, w) ∈ coming \/ (x, w) ∈ seen -> ve_revision w < ve_revision v) -> current value (coming ++ [(value, v)]) seen.
Proof.
  intros Hall. exists v. split; [left; apply elem_of_app; right; by left|].
  intros x w [[Hx|Hx%list_elem_of_singleton]%elem_of_app|Hx]; [left; apply (Hall x); by left|right; by simplify_eq|left; apply (Hall x); by right].
Qed.

Lemma wired_turn c w out rq rq' core core' ms new :
  client_inv c out -> (forall name, shows_inv name c out) -> wired c w out rq core ms ->
  versioned core core' new -> (forall r, r ∈ rq' -> r ∈ rq) -> NoDup (subscribes rq') ->
  (forall name, turned out rq rq' core core' new name) ->
  (forall i m v, MReady i m v ∈ new -> ve_instance v = co_instance core) ->
  (forall i name v, MSubscribed i name v ∈ new -> exists sel, asked out name sel /\ held core' name sel) ->
  (forall i name sel, RqSubscribe i name sel ∈ rq -> i <> "" ->
     RqSubscribe i name sel ∈ rq' \/ held core' name sel \/ exists e sub, MError e (Some i) sub ∈ new) ->
  wired c w out rq' core' (ms ++ new).
Proof.
  intros Hc Hs [Hsent Honce Hnew Hcore Hupd Hshown Hopened Hinst Hready Hwait Hcur Hstand Hans] (Hrev & Ei & _) Hsub Honce' Ht Hnr Hna Hnq.
  assert (Hmono : forall v, versioned_by core v -> versioned_by core' v) by (intros v []; split; [lia|congruence]).
  assert (Hnames : forall name, name ∈ subscribes rq' -> name ∈ subscribes rq).
  { intros name (i & sel & Hr%Hsub)%elem_of_subscribes. apply elem_of_subscribes. eauto. }
  assert (Hheld : forall name sel, live c name sel -> held core name sel -> held core' name sel).
  { intros name sel Hl Hh. eapply turned_held; [done|done|done|done|]. intros Hn. destruct (Hnew name Hn) as (_ & _ & E).
    destruct Hh as (s & Es & _). congruence. }
  split; try done.
  - auto.
  - intros name Hn. destruct (Hnew name (Hnames _ Hn)) as (Eu & Esh & En). rewrite updates_of_app, Eu. cbn [app].
    destruct (Ht name) as [[Hu E|]|i Hu E _|]; [split_and!; congruence|congruence|split_and!; congruence|done].
  - intros name s Es. destruct (Ht name) as [[_ E|s1 s' v H1 H2 E _ _ _ _ _]|i _ E _|s' v _ _ Ha E _ _ _].
    + apply Hcore. congruence.
    + rewrite H2 in Es. injection Es as <-. rewrite E. by apply Hcore.
    + congruence.
    + rewrite E in Es. by injection Es as <-.
  - intros name v value [Hm|Hm]%elem_of_app; [destruct (Hupd _ _ _ Hm) as (? & ?); auto|]. apply elem_of_updates in Hm.
    destruct (Ht name) as [[Hu _|s1 s' v' H1 H2 E Hu Hv Hvi _ Hmatch]|i Hu _ _|s' v' _ _ Ha E Hu Hv Hmatch]; rewrite Hu in Hm;
      try (by apply elem_of_nil in Hm); apply list_elem_of_singleton in Hm as [= -> ->].
    + split; [split; [lia|congruence]|]. exists (su_selection s'). split; [rewrite E; by apply Hcore|done].
    + split; [done|]. by exists (su_selection s').
  - intros name value v Hv. eapply Hmono, Hshown, Hv.
  - intros i Hi. rewrite Ei. by apply Hinst.
  - intros i m v [Hm|Hm]%elem_of_app; rewrite Ei; [by eapply Hready|by eapply Hnr].
  - intros r i m v Hr. rewrite Ei. by eapply Hwait.
  - intros name s sel Es Hl. rewrite updates_of_app. assert (Hold : forall x u, (x, u) ∈ updates_of name ms \/ (x, u) ∈ shown name out -> ve_revision u <= co_revision core).
    { intros x u [Hx%elem_of_updates|Hx]; [by destruct (Hupd _ _ _ Hx) as ([? _] & _)|by destruct (Hshown _ _ _ Hx)]. }
    destruct (Ht name) as [[Hu E|s1 s' v H1 H2 E Hu Hv _ Hlt _]|i _ E _|s' v Hn _ _ E Hu _ _].
    + rewrite Hu, app_nil_r. eapply Hcur; [|done]. congruence.
    + rewrite H2 in Es. injection Es as <-. rewrite Hu. apply current_sent. intros x u Hx%Hold. lia.
    + congruence.
    + rewrite E in Es. injection Es as <-. destruct (Hnew name Hn) as (-> & -> & _). rewrite Hu. apply current_sent.
      intros x u [Hx|Hx]; by apply elem_of_nil in Hx.
  - intros name sel Hl. destruct (Hstand _ _ Hl) as [?|[Hh|(i & Hp & [Hr|(e & sub & Hm)])]]; [by left|right; left; auto| |].
    + destruct (pending_nonempty _ _ _ _ Hc Hp) as [Hi _]. destruct (Hnq i name sel Hr Hi) as [?|[?|(e & sub & ?)]];
        [right; right; eauto|right; by left|]. right. right. exists i. split; [done|]. right. exists e, sub. apply elem_of_app. by right.
    + right. right. exists i. split; [done|]. right. exists e, sub. apply elem_of_app. by left.
  - intros i name v [Hm|Hm]%elem_of_app; [|destruct (Hna _ _ _ Hm) as (sel & ? & ?); eauto].
    destruct (Hans _ _ _ Hm) as (sel & Ha & Hh). eauto.
Qed.

Context (view_answers : forall (a : A) s, selectionMatches s (view a s) = true).

Lemma dispatch_turned c w out pre r post core ms name :
  map_wf (co_subscriptions core) -> digested (co_subscriptions core) -> wired c w out (pre ++ r :: post) core ms ->
  turned out (pre ++ r :: post) (pre ++ post) core (dispatch core r).1 (dispatch core r).2 name.
Proof.
  intros Hwf Hd Hw. assert (Hr : OSend r ∈ out) by (apply (wi_sent _ _ _ _ _ _ Hw), elem_of_app; right; by left).
  destruct (decide (names r = Some name)) as [E|E]; [|by apply tu_moved, moved_dispatch].
  destruct r as [|i n sel|i n| | | |]; try done; injection E as ->.
  - destruct (dispatch_subscribe core i name sel) as [(a' & a & v & Ha & Ec & Em & Hv)|(e & sub & c1 & Ed & Es)].
    + pose proof (wi_once _ _ _ _ _ _ Hw) as Hn. unfold subscribes in Hn. rewrite omap_app in Hn. cbn in Hn.
      apply NoDup_app in Hn as (_ & Hpre & [Hpost _]%NoDup_cons).
      apply (tu_taken _ _ _ _ _ _ _ (mkSub sel (view a sel) (view a sel)) v).
      * apply elem_of_subscribes. exists i, sel. apply elem_of_app. right. by left.
      * unfold subscribes. rewrite omap_app. intros [Hin|Hin]%elem_of_app; [|done]. apply (Hpre _ Hin). by left.
      * by exists i.
      * rewrite Ec. apply map_get_set_eq.
      * rewrite Em. unfold updates_of. cbn. by rewrite String.eqb_refl.
      * rewrite Ec. destruct Hv as [Hv ?]. split; [cbn; lia|done].
      * apply view_answers.
    + apply tu_moved. rewrite Ed. by apply moved_quiet.
  - destruct (dispatch_unsubscribe core i name) as [Hu [Es|Es]]; [by apply tu_moved, mv_same|by eapply tu_gone].
Qed.

Lemma wired_serve c w out pre r post core ms :
  client_inv c out -> (forall name, shows_inv name c out) -> map_wf (co_subscriptions core) -> digested (co_subscriptions core) ->
  wired c w out (pre ++ r :: post) core ms -> wired c w out (pre ++ post) (dispatch core r).1 (ms ++ (dispatch core r).2).
Proof.
  intros Hc Hs Hwf Hd Hw. assert (Hr : OSend r ∈ out) by (apply (wi_sent _ _ _ _ _ _ Hw), elem_of_app; right; by left).
  apply (wired_turn c w out (pre ++ r :: post) _ core); try done.
  - apply versioned_dispatch.
  - intros r' Hr'. by apply elem_of_middle.
  - pose proof (wi_once _ _ _ _ _ _ Hw) as Hn. unfold subscribes in *. rewrite omap_app in *. cbn in Hn.
    destruct r; try done. apply NoDup_app in Hn as (? & Hpre & [_ ?]%NoDup_cons). apply NoDup_app. split_and!; [done| |done].
    intros x Hx Hx'. apply (Hpre x Hx). by right.
  - intros name. by eapply dispatch_turned.
  - intros i m v Hm. by apply (proj1 (Forall_forall _ _) (said_dispatch core r)) in Hm.
  - intros i name v Hm. pose proof (proj1 (Forall_forall _ _) (said_dispatch core r) _ Hm) as [sel ->].
    destruct (dispatch_subscribe core i name sel) as [(a' & a & v' & _ & Ec & _)|(e & sub & c1 & Ed & Es)].
    + exists sel. split; [by exists i|]. exists (mkSub sel (view a sel) (view a sel)). rewrite Ec. split; [apply map_get_set_eq|done].
    + rewrite Ed in Hm. by apply list_elem_of_singleton in Hm.
  - intros i name sel Hin Hi. apply elem_of_app in Hin as [Hin|[<-|Hin]%elem_of_cons]; [left; apply elem_of_app; by left| |left; apply elem_of_app; by right].
    right. destruct (dispatch_subscribe core i name sel) as [(a' & a & v' & _ & Ec & _)|(e & sub & c1 & Ed & Es)].
    + left. exists (mkSub sel (view a sel) (view a sel)). rewrite Ec. split; [apply map_get_set_eq|done].
    + right. rewrite Ed. destruct i; [done|]. eexists e, _. by left.
Qed.

Lemma wired_event c w out rq core e ms :
  client_inv c out -> (forall name, shows_inv name c out) -> map_wf (co_subscriptions core) -> digested (co_subscriptions core) ->
  wired c w out rq core ms -> wired c w out rq (authorityEvent core e).1 (ms ++ (authorityEvent core e).2).
Proof.
  intros Hc Hs Hwf Hd Hw. pose proof (said_event core (RqQuery "" JNull) e) as Hsaid.
  apply (wired_turn c w out rq _ core); try done.
  - apply versioned_event.
  - by apply (wi_once _ _ _ _ _ _ Hw).
  - intros name. by apply tu_moved, moved_event.
  - intros i m v Hm. by apply (proj1 (Forall_forall _ _) Hsaid) in Hm.
  - intros i name v Hm. apply (proj1 (Forall_forall _ _) Hsaid) in Hm as [sel E]. done.
  - intros i name sel Hin _. by left.
Qed.

Lemma session_wired config instance s :
  session config instance s -> co_closed (ss_core s) = false ->
  wired (ss_client s) (ss_waiting s) (ss_out s) (ss_requests s) (ss_core s) (ss_messages s).
Proof.
  induction 1 as [|c w out rq core q ms tr e Hsn IH He|c w out rq core q pre m post tr Hsn IH|c p w out rq core q ms tr Hsn IH
    |c w out pre r post core q ms tr Hsn IH|c w out rq core q ms tr a a' affected Hsn IH Ha Hm|c w out rq core q ms tr st Hsn IH
    |c w out rq core e q ms tr Hsn IH|c w out rq core q ms tr Hsn IH|c w out rq core q ms tr Hsn IH Hcl];
    cbn [ss_client ss_waiting ss_out ss_requests ss_core ss_events ss_messages ss_tries acted] in *; intros Hopen.
  1: { split; cbn; try done; try apply NoDup_nil_2; try (intros; by match goal with H : _ ∈ [] |- _ => apply elem_of_nil in H end);
       intros name sel (x & Hx); first [by apply elem_of_nil in Hx|by destruct Hx]. }
  all: pose proof (session_run _ _ _ Hsn) as Hrun; pose proof (run_inv _ _ _ _ Hrun) as Hc;
    pose proof (fun name => run_shows name _ _ _ _ Hrun) as Hsh; destruct (session_lane _ _ _ Hsn) as [page Hl%lane_inv_holds];
    cbn [ss_client ss_waiting ss_out ss_requests ss_core ss_events ss_messages ss_tries] in *.
  - apply wired_page; auto.
  - apply (wired_receive c w out rq core pre m post); auto.
  - apply wired_continue; auto.
  - apply wired_serve; [done|done|by destruct Hl|by destruct Hl|]. apply IH. by rewrite <- (proj2 (dispatch_carried core r)).
  - destruct (IH Hopen). by split.
  - auto.
  - apply wired_event; [done|done|by destruct Hl|by destruct Hl|]. apply IH. by rewrite <- (proj2 (event_frame core e)).
  - done.
  - cbn in Hopen. congruence.
Qed.

End Session.

(** C20: the page and the service agree once nothing is under way. In every state the two ends can reach, through
    requests and messages taken in any order, calls made at any time, timeouts, throwing sends, reads of the library
    that throw and an authority that changes on its own: when every request has been served and every message delivered,
    each subscription the client still holds is held by the service under the same selection, and the last value its
    listener was given is what selecting it would read now ([view]), unless an event the authority has queued affects
    it, or a replacement for it threw and none for it came through since. *)
Theorem session_settles {A} `{AL : AuthorityLaws A} config instance c out (core : Core A) q tries name sub :
  (forall (a : A) s, selectionMatches s (view a s) = true) ->
  session config instance (mkSession c [] out [] core q [] tries) -> co_closed core = false ->
  map_get name (cl_subscriptions c) = Some sub ->
  exists a s, co_authority core = Some a /\ map_get name (co_subscriptions core) = Some s /\ su_selection s = cs_selection sub /\
    ((exists v, last (shown name out) = Some (view a (cs_selection sub), v)) \/
     pending q (cs_selection sub) \/ missed tries (cs_selection sub)).
Proof.
  intros Hview Hsn Hopen Hsub. pose proof (session_wired Hview _ _ _ Hsn Hopen) as Hw. cbn in Hw.
  destruct (session_lane _ _ _ Hsn) as [page Hl%lane_inv_holds]. cbn in Hl.
  assert (Hlive : live c name (cs_selection sub)) by (by exists sub).
  destruct (wi_standing _ _ _ _ _ _ Hw _ _ Hlive) as [(i & e & []%elem_of_nil)|[(s & Hs & Esel)|(i & _ & [[]%elem_of_nil|(e & x & []%elem_of_nil)])]].
  destruct (co_authority core) as [a|] eqn:Ha; [|by rewrite (li_idle _ _ _ _ _ Hl Ha) in Hs]. exists a, s. split_and!; [done..|].
  destruct (wi_current _ _ _ _ _ _ Hw _ _ _ Hs Hlive) as (v & [[]%elem_of_nil|Hlast] & _). rewrite <- Esel.
  destruct (li_current _ _ _ _ _ Hl a name s Hopen Ha (map_get_elem _ _ _ Hs)) as [Hv|[Hp|[|]]]; [left|auto|done|auto]. exists v. by rewrite Hlast, Hv.
Qed.

(** ** An example: a library of one value, whose selections answer with their kind and titles *)

Section Example.
Definition title_json (t : TitleRef) : json := JObj [("type", JStr (ref_type t)); ("id", jint (ref_id t))].
Definition demo_view (a : json) (s : LibrarySelection) : json :=
  match s with
  | SelKind kind _ => JObj [("kind", JStr kind); ("value", a)]
  | SelPresence titles => JObj [("kind", JStr "presence"); ("items", JArr ((fun t => JObj [("title", title_json t); ("value", a)]) <$> titles))]
  | SelTitle t => JObj [("kind", JStr "title"); ("title", title_json t); ("value", a)]
  end.

#[local] Instance demo_authority : Authority json := {|
  au_generation _ := None;
  au_select a s := (a, Done (demo_view a s));
  au_command _ cmd _ := (cmd, Done (mkResult (Applied, Local_) [ScAll]));
  au_query a q := (a, Done q);
  au_task _ t _ := (t, Done (mkResult t [ScAll]));
  au_observe _ o := (o, Done (mkResult Applied [ScAll]));
  au_open _ := Done (Some JNull);
  au_membership a := (a, None);
|}.

#[local] Instance demo_laws : AuthorityLaws json.
Proof.
  refine (Build_AuthorityLaws json demo_authority demo_view _ _ _ _ _ _ _); try done; try (intros; by left). by intros a s value [= <-].
Defined.

Lemma is_title_json t : is_title t (title_json t) = true.
Proof. unfold is_title. cbn. by rewrite !bool_decide_true. Qed.

Lemma same_titles_json (a : json) ts :
  same_titles ts ((fun t => JObj [("title", title_json t); ("value", a)]) <$> ts) = true.
Proof.
  induction ts as [|t ts IH]; [done|]. rewrite fmap_cons. cbn [same_titles]. rewrite IH.
  change (jmem "title" _) with (title_json t). by rewrite is_title_json.
Qed.

Lemma demo_answers (a : json) s : selectionMatches s (view a s) = true.
Proof.
  cbn. destruct s as [t|ts|k r]; cbn [selectionMatches demo_view].
  - by apply (is_title_json t).
  - apply (same_titles_json a ts).
  - unfold is_kind. cbn. by rewrite bool_decide_true.
Qed.

Definition demo_config : Config := mkConfig "page" false true.
Definition after_page (s : Session json) (e : event) : Session json :=
  acted (ss_client s) (ss_waiting s) (ss_out s) (ss_requests s) (ss_core s) (ss_events s) (ss_messages s) (ss_tries s) e.
(** The message at [n], the request at the head and the continuation at the head are taken. *)
Definition after_receive (s : Session json) (n : nat) : Session json :=
  match ss_messages s !! n with
  | Some m => acted (ss_client s) (ss_waiting s) (ss_out s) (ss_requests s) (ss_core s) (ss_events s)
                (take n (ss_messages s) ++ drop (S n) (ss_messages s)) (ss_tries s) (EvReceive (Served m))
  | None => s
  end.
Definition after_serve (s : Session json) : Session json :=
  match ss_requests s with
  | r :: rq => mkSession (ss_client s) (ss_waiting s) (ss_out s) rq (dispatch (ss_core s) r).1 (ss_events s)
                 (ss_messages s ++ (dispatch (ss_core s) r).2) (ss_tries s ++ request_tries (ss_core s) r)
  | [] => s
  end.
Definition after_continue (s : Session json) : Session json :=
  match ss_waiting s with
  | p :: w => mkSession (continue_ (ss_client s) p.1 p.2).1 w (ss_out s ++ (continue_ (ss_client s) p.1 p.2).2) (ss_requests s)
                (ss_core s) (ss_events s) (ss_messages s) (ss_tries s)
  | [] => s
  end.
Definition after_event (s : Session json) : Session json :=
  match ss_events s with
  | e :: q => mkSession (ss_client s) (ss_waiting s) (ss_out s) (ss_requests s) (authorityEvent (ss_core s) e).1 q
                (ss_messages s ++ (authorityEvent (ss_core s) e).2) (ss_tries s ++ event_tries (ss_core s) e)
  | [] => s
  end.
Definition after_move (s : Session json) (a : json) : Session json :=
  mkSession (ss_client s) (ss_waiting s) (ss_out s) (ss_requests s) (set_authority (ss_core s) a) (ss_events s ++ [EvChanged [ScAll]])
    (ss_messages s) (ss_tries s).

Section Taken.
Context (config : Config) (instance : string).
Implicit Type s : Session json.

Lemma after_page_ok s e : session config instance s -> page_event (ss_client s) e -> session config instance (after_page s e).
Proof. destruct s. apply sn_page. Qed.
Lemma after_receive_ok s n : session config instance s -> session config instance (after_receive s n).
Proof.
  intros Hs. unfold after_receive. destruct (ss_messages s !! n) as [m|] eqn:E; [|done]. apply sn_receive.
  rewrite take_drop_middle by done. by destruct s.
Qed.
Lemma after_serve_ok s : session config instance s -> session config instance (after_serve s).
Proof.
  intros Hs. unfold after_serve. destruct s as [c w out [|r rq] core q ms tr]; [done|]. exact (sn_serve _ _ c w out [] r rq core q ms tr Hs).
Qed.
Lemma after_continue_ok s : session config instance s -> session config instance (after_continue s).
Proof. intros Hs. unfold after_continue. destruct s as [c [|p w] out rq core q ms tr]; [done|]. by apply sn_continue. Qed.
Lemma after_event_ok s : session config instance s -> session config instance (after_event s).
Proof. intros Hs. unfold after_event. destruct s as [c w out rq core [|e q] ms tr]; [done|]. by apply sn_event. Qed.
Lemma after_move_ok s a : session config instance s -> is_Some (co_authority (ss_core s)) -> session config instance (after_move s a).
Proof.
  intros Hs [a0 Ha]. unfold after_move. destruct s as [c w out rq core q ms tr]. eapply sn_moves; [exact Hs|exact Ha|]. intros; by left.
Qed.
End Taken.

(** The page opens, subscribes, the library changes by itself, and the newer value overtakes the first one. *)
Definition demo_opened : Session json :=
  after_continue (after_receive (after_serve (after_page
    (mkSession (newClient demo_config) [] [] [] (newCore "i") [] [] []) (EvCall (COpen "key" "local" None false) None))) 0).
Definition demo_changed : Session json :=
  after_event (after_move (after_serve (after_page demo_opened (EvCall (CSubscribe (SelKind "settings" JNull)) None))) (JBool true)).
Definition demo_end : Session json :=
  after_continue (after_receive (after_receive (after_receive demo_changed 2) 0) 0).

Lemma demo_session : session demo_config "i" demo_end.
Proof.
  unfold demo_end, demo_changed, demo_opened.
  repeat first [apply after_continue_ok|apply after_receive_ok|apply after_event_ok|apply after_serve_ok|apply after_move_ok|apply after_page_ok|apply sn_new];
    first [exact I|by eexists].
Qed.

Lemma session_settles_witness :
  ss_events demo_end = [] /\ ss_tries demo_end = [(true, [ScAll])] /\
  exists a s v, co_authority (ss_core demo_end) = Some a /\
    map_get "subscription-1" (co_subscriptions (ss_core demo_end)) = Some s /\ su_selection s = SelKind "settings" JNull /\
    last (shown "subscription-1" (ss_out demo_end)) = Some (view a (SelKind "settings" JNull), v).
Proof.
  split; [vm_compute; reflexivity|]. split; [vm_compute; reflexivity|].
  destruct (session_settles demo_config "i" (ss_client demo_end) (ss_out demo_end) (ss_core demo_end) [] [(true, [ScAll])] "subscription-1"
    (mkClientSub (SelKind "settings" JNull) (Some (mkVersion "i" None 1)) true) demo_answers demo_session eq_refl eq_refl)
    as (a & s & Ha & Hs & Hsel & [[v Hv]|[(aff & Hin & _)|(before & aff & after & Ht & _)]]); [|by apply elem_of_nil in Hin|].
  - exists a, s, v. split; [exact Ha|]. split; [exact Hs|]. split; [exact Hsel|exact Hv].
  - destruct before as [|b before]; [discriminate Ht|]. injection Ht as _ Ht. destruct before; discriminate Ht.
Defined.
End Example.
