(* ===== verification/Supervisor.v ===== *)
(** * Keeping a library session alive ([web/src/lib/libraryServiceSupervisor.ts])

    [LibraryServiceSupervisor] owns the client of a page: it opens it, restores subscriptions on a replacement when
    it fails, shows each subscription as one snapshot, and sends commands again only to a replacement. The clients
    are at the other end of an interface of the source ([LibraryServiceClientPort]): what they answer, and when, is
    any of the events. Code up to the next [await] is one step; what is suspended is kept in tables, and its
    continuations run in any order. Calls a listener makes run after the step that told it. *)

From S2P Require Import Prelude JsMap JsText Json Wire ServiceCore.
Open Scope Z_scope.

(** ** Data *)

Inductive Phase : Type := Idle | Connecting | Ready | Reconnecting | Broken | Closed.
#[global] Instance Phase_eq_dec : EqDecision Phase.
Proof. solve_decision. Defined.

Inductive Connection : Type := CnConnecting | CnReady | CnReconnecting | CnFailed.

Record Failure : Type := mkFail { fl_code : string; fl_message : string; fl_retryable : bool; fl_requiredWire : option Z }.

(** What is thrown: a [LibraryServiceError], another [Error], or something else. *)
Inductive Error : Type := ServiceError (failure : Failure) | PlainError (message : string) | PlainValue.

Definition failureFrom (error : Error) : Failure :=
  match error with
  | ServiceError failure => failure
  | PlainError message => mkFail "unavailable" message true None
  | PlainValue => mkFail "unavailable" "library service is unavailable" true None
  end.

Record LegacyClock : Type := mkLegacyClock { lc_device : option string; lc_last : option (Z * Z * string) }.

(** [LibraryServiceOpenOptions], with whether a [progress] is given. *)
Record Options : Type := mkOptions {
  op_libraryKey : string;
  op_mode : string;
  op_wire : option Z;
  op_legacyClock : option LegacyClock;
  op_bootstrap : option bool;
  op_progress : bool;
}.

Inductive Status : Type :=
| IsReady (version : LibraryVersion)
| IsReconnecting (version : option LibraryVersion)
| IsReadOnly (version : LibraryVersion) (reason : string)
| IsMoved (successor : option string)
| IsFailed (error : Failure).

(** A [LibrarySelectionSnapshot] beside the selection of its subscription. *)
Record Snapshot : Type := mkSnapshot {
  sn_connection : Connection;
  sn_value : option json;
  sn_version : option LibraryVersion;
  sn_error : option Failure;
}.

(** A subscription; the client whose stop function it holds ([stopClient]), and the tokens of the clients that gave
    it a value and that it was bound to. *)
Record Sub : Type := mkSvSub {
  sb_selection : LibrarySelection;
  sb_required : bool;
  sb_snapshot : Snapshot;
  sb_staged : option (Z * Snapshot);
  sb_stop : option Z;
  sb_seen : option Z;
  sb_attempted : option Z;
}.

Record ActiveClient : Type := mkActive { ac_version : option LibraryVersion; ac_failure : option Failure }.

(** Where a run of [#connectWithRetry] is suspended: in [#connectOnce] for the hello, the observation at an index or
    the required subscriptions still unbound; after it threw or returned; for the upgrade it asked for; or over, with
    [#connecting] still to be cleared, and cleared. *)
Inductive LoopState : Type :=
| LoopOpen (token : Z)
| LoopObserve (token : Z) (index : nat)
| LoopBind (token : Z) (version : LibraryVersion) (waiting : list Z)
| LoopThrown (error : Error)
| LoopReturned (version : LibraryVersion)
| LoopUpgrade (failure : Failure) (enabled : bool)
| LoopDone (result : LibraryVersion + Failure)
| LoopSettled (result : LibraryVersion + Failure).

(** Where a call of the page is suspended: [#semantic] for the client's answer, for the turn it leaves to the status,
    and for the connection; [query] for the connection; [observe] for the answer. *)
Inductive CallState : Type :=
| CallSent (token : Z) (operationId : string)
| CallFailed (token : Z) (operationId : string) (error : Error)
| CallWaiting (operationId : string) (loop : Z)
| CallQuery (loop : Z)
| CallObserve (token : Z) (observation : json).

Record Supervisor : Type := mkSupervisor {
  sv_subs : jsmap Z Sub;
  sv_observations : jsmap string json;
  sv_nextSub : Z;
  sv_phase : Phase;
  sv_active : option Z;  (** the token of [#active] *)
  sv_connecting : option Z;  (** the loop whose promise [#connecting] holds *)
  sv_left : nat;  (** [#automaticRestartsLeft] *)
  sv_confirm : bool;  (** [#confirmProfileHousehold] *)
  sv_options : option Options;
  sv_version : option LibraryVersion;
  sv_failure : option Failure;
  sv_lastStatus : option Status;
  sv_nextToken : Z;
  sv_clients : jsmap Z ActiveClient;  (** every [ActiveClient] made, by token *)
  sv_loops : jsmap Z LoopState;  (** the runs of [#connectWithRetry] *)
  sv_nextLoop : Z;
  sv_bindings : jsmap (Z * Z) (option Z);  (** the runs of [#bindSubscription] by client and subscription, with the loop that requires each *)
  sv_upgrades : list (Failure * bool);  (** what follows a status that asks for the upgrade *)
  sv_calls : jsmap Z CallState;  (** the calls of the page that await *)
  sv_nextCall : Z;
}.

Definition put_subs (x : jsmap Z Sub) (s : Supervisor) : Supervisor :=
  mkSupervisor x (sv_observations s) (sv_nextSub s) (sv_phase s) (sv_active s) (sv_connecting s) (sv_left s)
    (sv_confirm s) (sv_options s) (sv_version s) (sv_failure s) (sv_lastStatus s) (sv_nextToken s) (sv_clients s)
    (sv_loops s) (sv_nextLoop s) (sv_bindings s) (sv_upgrades s) (sv_calls s) (sv_nextCall s).
Definition put_observations (x : jsmap string json) (s : Supervisor) : Supervisor :=
  mkSupervisor (sv_subs s) x (sv_nextSub s) (sv_phase s) (sv_active s) (sv_connecting s) (sv_left s) (sv_confirm s)
    (sv_options s) (sv_version s) (sv_failure s) (sv_lastStatus s) (sv_nextToken s) (sv_clients s) (sv_loops s)
    (sv_nextLoop s) (sv_bindings s) (sv_upgrades s) (sv_calls s) (sv_nextCall s).
Definition put_nextSub (x : Z) (s : Supervisor) : Supervisor :=
  mkSupervisor (sv_subs s) (sv_observations s) x (sv_phase s) (sv_active s) (sv_connecting s) (sv_left s)
    (sv_confirm s) (sv_options s) (sv_version s) (sv_failure s) (sv_lastStatus s) (sv_nextToken s) (sv_clients s)
    (sv_loops s) (sv_nextLoop s) (sv_bindings s) (sv_upgrades s) (sv_calls s) (sv_nextCall s).
Definition put_phase (x : Phase) (s : Supervisor) : Supervisor :=
  mkSupervisor (sv_subs s) (sv_observations s) (sv_nextSub s) x (sv_active s) (sv_connecting s) (sv_left s)
    (sv_confirm s) (sv_options s) (sv_version s) (sv_failure s) (sv_lastStatus s) (sv_nextToken s) (sv_clients s)
    (sv_loops s) (sv_nextLoop s) (sv_bindings s) (sv_upgrades s) (sv_calls s) (sv_nextCall s).
Definition put_active (x : option Z) (s : Supervisor) : Supervisor :=
  mkSupervisor (sv_subs s) (sv_observations s) (sv_nextSub s) (sv_phase s) x (sv_connecting s) (sv_left s)
    (sv_confirm s) (sv_options s) (sv_version s) (sv_failure s) (sv_lastStatus s) (sv_nextToken s) (sv_clients s)
    (sv_loops s) (sv_nextLoop s) (sv_bindings s) (sv_upgrades s) (sv_calls s) (sv_nextCall s).
Definition put_connecting (x : option Z) (s : Supervisor) : Supervisor :=
  mkSupervisor (sv_subs s) (sv_observations s) (sv_nextSub s) (sv_phase s) (sv_active s) x (sv_left s) (sv_confirm
    s) (sv_options s) (sv_version s) (sv_failure s) (sv_lastStatus s) (sv_nextToken s) (sv_clients s) (sv_loops s)
    (sv_nextLoop s) (sv_bindings s) (sv_upgrades s) (sv_calls s) (sv_nextCall s).
Definition put_left (x : nat) (s : Supervisor) : Supervisor :=
  mkSupervisor (sv_subs s) (sv_observations s) (sv_nextSub s) (sv_phase s) (sv_active s) (sv_connecting s) x
    (sv_confirm s) (sv_options s) (sv_version s) (sv_failure s) (sv_lastStatus s) (sv_nextToken s) (sv_clients s)
    (sv_loops s) (sv_nextLoop s) (sv_bindings s) (sv_upgrades s) (sv_calls s) (sv_nextCall s).
Definition put_confirm (x : bool) (s : Supervisor) : Supervisor :=
  mkSupervisor (sv_subs s) (sv_observations s) (sv_nextSub s) (sv_phase s) (sv_active s) (sv_connecting s) (sv_left
    s) x (sv_options s) (sv_version s) (sv_failure s) (sv_lastStatus s) (sv_nextToken s) (sv_clients s) (sv_loops s)
    (sv_nextLoop s) (sv_bindings s) (sv_upgrades s) (sv_calls s) (sv_nextCall s).
Definition put_options (x : option Options) (s : Supervisor) : Supervisor :=
  mkSupervisor (sv_subs s) (sv_observations s) (sv_nextSub s) (sv_phase s) (sv_active s) (sv_connecting s) (sv_left
    s) (sv_confirm s) x (sv_version s) (sv_failure s) (sv_lastStatus s) (sv_nextToken s) (sv_clients s) (sv_loops s)
    (sv_nextLoop s) (sv_bindings s) (sv_upgrades s) (sv_calls s) (sv_nextCall s).
Definition put_version (x : option LibraryVersion) (s : Supervisor) : Supervisor :=
  mkSupervisor (sv_subs s) (sv_observations s) (sv_nextSub s) (sv_phase s) (sv_active s) (sv_connecting s) (sv_left
    s) (sv_confirm s) (sv_options s) x (sv_failure s) (sv_lastStatus s) (sv_nextToken s) (sv_clients s) (sv_loops s)
    (sv_nextLoop s) (sv_bindings s) (sv_upgrades s) (sv_calls s) (sv_nextCall s).
Definition put_failure (x : option Failure) (s : Supervisor) : Supervisor :=
  mkSupervisor (sv_subs s) (sv_observations s) (sv_nextSub s) (sv_phase s) (sv_active s) (sv_connecting s) (sv_left
    s) (sv_confirm s) (sv_options s) (sv_version s) x (sv_lastStatus s) (sv_nextToken s) (sv_clients s) (sv_loops s)
    (sv_nextLoop s) (sv_bindings s) (sv_upgrades s) (sv_calls s) (sv_nextCall s).
Definition put_lastStatus (x : option Status) (s : Supervisor) : Supervisor :=
  mkSupervisor (sv_subs s) (sv_observations s) (sv_nextSub s) (sv_phase s) (sv_active s) (sv_connecting s) (sv_left
    s) (sv_confirm s) (sv_options s) (sv_version s) (sv_failure s) x (sv_nextToken s) (sv_clients s) (sv_loops s)
    (sv_nextLoop s) (sv_bindings s) (sv_upgrades s) (sv_calls s) (sv_nextCall s).
Definition put_nextToken (x : Z) (s : Supervisor) : Supervisor :=
  mkSupervisor (sv_subs s) (sv_observations s) (sv_nextSub s) (sv_phase s) (sv_active s) (sv_connecting s) (sv_left
    s) (sv_confirm s) (sv_options s) (sv_version s) (sv_failure s) (sv_lastStatus s) x (sv_clients s) (sv_loops s)
    (sv_nextLoop s) (sv_bindings s) (sv_upgrades s) (sv_calls s) (sv_nextCall s).
Definition put_clients (x : jsmap Z ActiveClient) (s : Supervisor) : Supervisor :=
  mkSupervisor (sv_subs s) (sv_observations s) (sv_nextSub s) (sv_phase s) (sv_active s) (sv_connecting s) (sv_left
    s) (sv_confirm s) (sv_options s) (sv_version s) (sv_failure s) (sv_lastStatus s) (sv_nextToken s) x (sv_loops s)
    (sv_nextLoop s) (sv_bindings s) (sv_upgrades s) (sv_calls s) (sv_nextCall s).
Definition put_loops (x : jsmap Z LoopState) (s : Supervisor) : Supervisor :=
  mkSupervisor (sv_subs s) (sv_observations s) (sv_nextSub s) (sv_phase s) (sv_active s) (sv_connecting s) (sv_left
    s) (sv_confirm s) (sv_options s) (sv_version s) (sv_failure s) (sv_lastStatus s) (sv_nextToken s) (sv_clients s)
    x (sv_nextLoop s) (sv_bindings s) (sv_upgrades s) (sv_calls s) (sv_nextCall s).
Definition put_nextLoop (x : Z) (s : Supervisor) : Supervisor :=
  mkSupervisor (sv_subs s) (sv_observations s) (sv_nextSub s) (sv_phase s) (sv_active s) (sv_connecting s) (sv_left
    s) (sv_confirm s) (sv_options s) (sv_version s) (sv_failure s) (sv_lastStatus s) (sv_nextToken s) (sv_clients s)
    (sv_loops s) x (sv_bindings s) (sv_upgrades s) (sv_calls s) (sv_nextCall s).
Definition put_bindings (x : jsmap (Z * Z) (option Z)) (s : Supervisor) : Supervisor :=
  mkSupervisor (sv_subs s) (sv_observations s) (sv_nextSub s) (sv_phase s) (sv_active s) (sv_connecting s) (sv_left
    s) (sv_confirm s) (sv_options s) (sv_version s) (sv_failure s) (sv_lastStatus s) (sv_nextToken s) (sv_clients s)
    (sv_loops s) (sv_nextLoop s) x (sv_upgrades s) (sv_calls s) (sv_nextCall s).
Definition put_upgrades (x : list (Failure * bool)) (s : Supervisor) : Supervisor :=
  mkSupervisor (sv_subs s) (sv_observations s) (sv_nextSub s) (sv_phase s) (sv_active s) (sv_connecting s) (sv_left
    s) (sv_confirm s) (sv_options s) (sv_version s) (sv_failure s) (sv_lastStatus s) (sv_nextToken s) (sv_clients s)
    (sv_loops s) (sv_nextLoop s) (sv_bindings s) x (sv_calls s) (sv_nextCall s).
Definition put_calls (x : jsmap Z CallState) (s : Supervisor) : Supervisor :=
  mkSupervisor (sv_subs s) (sv_observations s) (sv_nextSub s) (sv_phase s) (sv_active s) (sv_connecting s) (sv_left
    s) (sv_confirm s) (sv_options s) (sv_version s) (sv_failure s) (sv_lastStatus s) (sv_nextToken s) (sv_clients s)
    (sv_loops s) (sv_nextLoop s) (sv_bindings s) (sv_upgrades s) x (sv_nextCall s).
Definition put_nextCall (x : Z) (s : Supervisor) : Supervisor :=
  mkSupervisor (sv_subs s) (sv_observations s) (sv_nextSub s) (sv_phase s) (sv_active s) (sv_connecting s) (sv_left
    s) (sv_confirm s) (sv_options s) (sv_version s) (sv_failure s) (sv_lastStatus s) (sv_nextToken s) (sv_clients s)
    (sv_loops s) (sv_nextLoop s) (sv_bindings s) (sv_upgrades s) (sv_calls s) x.

(** What a step does outside the supervisor. *)
Inductive Output : Type :=
| ONotify (id : Z) (snapshot : Snapshot)
| OStatus (status : Status)
| OConfirm (libraryKey : string)
| OCreate (token : Z)
| OOpen (token : Z) (options : option Options)
| OObserve (token : Z) (observation : json)
| OSubscribe (token id : Z) (selection : LibrarySelection)
| OStop (token id : Z)
| OClose (token : Z)
| OSend (call token : Z) (operationId : string)
| OAsk (call token : Z)
| OMark (name : string)
| OPending (loop : Z)  (** an [open], [retry] or [recoverSharedTransport] answers as the loop will *)
| OAnswer (result : LibraryVersion + Failure)
| OSettled (call : Z) (result : option Error).

(** One piece of work after another. *)
Definition Act : Type := Supervisor -> Supervisor * list Output.
Definition andThen (f g : Act) : Act := fun s => let '(s, out) := f s in let '(s, out') := g s in (s, out ++ out').
Definition quietly (f : Supervisor -> Supervisor) : Act := fun s => (f s, []).
Definition say (out : list Output) : Act := fun s => (s, out).
Infix ">>" := andThen (at level 60, right associativity).

(** ** Versions, options and failures *)

Definition newerVersion (current : option LibraryVersion) (candidate : LibraryVersion) : LibraryVersion :=
  match current with
  | None => candidate
  | Some current =>
      if negb (String.eqb (ve_instance current) (ve_instance candidate)) ||
         negb (bool_decide (ve_generation current = ve_generation candidate)) ||
         (ve_revision current <? ve_revision candidate)
      then candidate else current
  end.

Definition wire (options : Options) : Z := default 4 (op_wire options).

Definition sameLast (a b : option (Z * Z * string)) : bool := bool_decide (a = b).

Definition sameOpenOptions (a b : Options) : bool :=
  String.eqb (op_libraryKey a) (op_libraryKey b) && String.eqb (op_mode a) (op_mode b) &&
  (wire a =? wire b) && bool_decide (op_bootstrap a = op_bootstrap b) &&
  match op_legacyClock a, op_legacyClock b with
  | None, None => true
  | Some a, Some b => bool_decide (lc_device a = lc_device b) && sameLast (lc_last a) (lc_last b)
  | _, _ => false
  end.

(** The observations kept to be sent again: only the newest of each key. *)
Definition jfield (name : string) (j : json) : json := default JNull (jget name j).
Definition field_text (j : json) : string :=
  match j with JStr s => s | JNum q => match qc_int q with Some z => Z_str z | None => "" end | _ => "" end.
Definition observationKey (observation : json) : string :=
  let kind := jfield "kind" observation in
  if bool_decide (kind = JStr "lifecycle") then "lifecycle"
  else if bool_decide (kind = JStr "foreground-ready") then "foreground-ready"
  else if bool_decide (kind = JStr "airing") then "airing"
  else let title := jfield "title" observation in
    "title-shape:" +:+ field_text (jfield "type" title) +:+ ":" +:+ field_text (jfield "id" title).

Definition closed_failure : Failure := mkFail "cancelled" "library service supervisor is closed" false None.
Definition unopened_failure : Failure := mkFail "not-ready" "library service supervisor has not been opened" false None.
Definition not_ready_failure : Failure := mkFail "not-ready" "library service is not ready" true None.
Definition conflict_failure : Failure :=
  mkFail "conflict" "library service supervisor is already bound to different open options" false None.
Definition unusable_failure : Failure := mkFail "unavailable" "shared Worker transport is unavailable" true None.
Definition replaced_failure : Failure := mkFail "cancelled" "library service connection was replaced" false None.
Definition unseen_failure : Failure :=
  mkFail "internal" "library service subscribed without an initial replacement" false None.

(** ** Snapshots *)

Definition with_snapshot (snapshot : Snapshot) (sub : Sub) : Sub :=
  mkSvSub (sb_selection sub) (sb_required sub) snapshot (sb_staged sub) (sb_stop sub) (sb_seen sub) (sb_attempted sub).

Definition put_sub (id : Z) (sub : Sub) (s : Supervisor) : Supervisor := put_subs (map_set id sub (sv_subs s)) s.

(** [#replaceSnapshot], without its notification *)
Definition replaceSnapshot (connection : Connection) (error : option Failure) (sub : Sub) : Sub :=
  with_snapshot (mkSnapshot connection (sn_value (sb_snapshot sub)) (sn_version (sb_snapshot sub)) error) sub.

Definition notifySubscription (p : Z * Sub) : Output := ONotify p.1 (sb_snapshot p.2).

Definition emitStatus (status : Status) : Act := fun s => (put_lastStatus (Some status) s, [OStatus status]).

(** [#markSubscriptions] *)
Definition markSubscriptions (connection : Connection) (error : option Failure) : Act := fun s =>
  let subs := (fun p => (p.1, replaceSnapshot connection error p.2)) <$> sv_subs s in
  (put_subs subs s, notifySubscription <$> subs).

(** [#markSubscriptionsReady] *)
Definition has_value (sub : Sub) : bool :=
  match sn_value (sb_snapshot sub), sn_version (sb_snapshot sub) with Some _, Some _ => true | _, _ => false end.
Definition mark_ready (sub : Sub) : Sub := if has_value sub then replaceSnapshot CnReady None sub else sub.
Definition markSubscriptionsReady : Act := fun s =>
  (put_subs ((fun p => (p.1, mark_ready p.2)) <$> sv_subs s) s,
   (fun p => notifySubscription (p.1, mark_ready p.2)) <$> filter (fun p => has_value p.2 = true) (sv_subs s)).

(** [#selectionConnection] *)
Definition selectionConnection (phase : Phase) : Connection :=
  match phase with Reconnecting => CnReconnecting | Broken => CnFailed | _ => CnConnecting end.

(** ** Dropping a client *)

(** [#disposeActive] *)
Definition released (token : Z) (sub : Sub) : Sub :=
  mkSvSub (sb_selection sub) (sb_required sub) (sb_snapshot sub)
    (match sb_staged sub with Some (t, _) => if t =? token then None else sb_staged sub | None => None end) None None None.
Definition disposeActive : Act := fun s =>
  match sv_active s with
  | None => (s, [])
  | Some token => (put_subs ((fun p => (p.1, released token p.2)) <$> sv_subs s) (put_active None s), [OClose token])
  end.

(** [#setFailed] *)
Definition setFailed (failure : Failure) : Act := fun s =>
  if decide (sv_phase s = Closed) then (s, [])
  else (quietly (fun s => put_failure (Some failure) (put_phase Broken s)) >> say [OMark "supervisor failed"] >> disposeActive >>
        markSubscriptions CnFailed (Some failure) >> emitStatus (IsFailed failure)) s.

(** The first thing both ways of reconnecting do. *)
Definition reconnecting : Act := fun s =>
  (quietly (put_phase Reconnecting) >> markSubscriptions CnReconnecting None >> (fun s => emitStatus (IsReconnecting (sv_version s)) s)) s.

(** ** Binding subscriptions to a client *)

(** [#bindSubscription], to its [await]; [loop] is the connection that requires it *)
Definition bindSubscription (token : Z) (loop : option Z) (id : Z) : Act := fun s =>
  match map_get id (sv_subs s) with
  | None => (s, [])
  | Some sub =>
      (put_bindings (map_set (token, id) loop (sv_bindings s))
         (put_sub id (mkSvSub (sb_selection sub) (sb_required sub) (sb_snapshot sub) (sb_staged sub) None None (Some token)) s),
       match sb_stop sub with Some t => [OStop t id] | None => [] end ++ [OSubscribe token id (sb_selection sub)])
  end.

(** The subscriptions not yet bound to the client. *)
Definition unbound (token : Z) (s : Supervisor) : list Z :=
  (filter (fun p => sb_attempted p.2 <> Some token) (sv_subs s)).*1.

Fixpoint bindAll (token : Z) (loop : Z -> option Z) (ids : list Z) : Act :=
  match ids with
  | [] => quietly id
  | id :: ids => bindSubscription token (loop id) id >> bindAll token loop ids
  end.

Definition is_required (s : Supervisor) (id : Z) : bool :=
  match map_get id (sv_subs s) with Some sub => sb_required sub | None => false end.

(** ** Connecting *)

Section Connecting.
(** [knownProfileHousehold], [maxAutomaticRestarts] *)
Context (known : string -> bool) (max : nat).

Definition put_loop (loop : Z) (state : LoopState) (s : Supervisor) : Supervisor := put_loops (map_set loop state (sv_loops s)) s.

Definition put_client (token : Z) (client : ActiveClient) (s : Supervisor) : Supervisor :=
  put_clients (map_set token client (sv_clients s)) s.

Definition client_version (token : Z) (s : Supervisor) : option LibraryVersion := map_get token (sv_clients s) ≫= ac_version.
Definition client_failure (token : Z) (s : Supervisor) : option Failure := map_get token (sv_clients s) ≫= ac_failure.

Definition upgraded (options : Options) : Options :=
  mkOptions (op_libraryKey options) (op_mode options) (Some 5) (op_legacyClock options) (Some false) (op_progress options).

Definition upgradable (options : Options) : bool :=
  String.eqb (op_mode options) "online" && (wire options =? 4) && bool_decide (op_bootstrap options = Some true).

(** [#openKnownProfileHousehold] *)
Definition openKnownProfileHousehold : Act := fun s =>
  match sv_options s with
  | Some options =>
      if upgradable options && known (op_libraryKey options)
      then (put_confirm true (put_options (Some (upgraded options)) s), [OMark "supervisor household bootstrap"])
      else (s, [])
  | None => (s, [])
  end.

(** [#canBootstrapProfileHousehold] *)
Definition canBootstrapProfileHousehold (failure : Failure) (s : Supervisor) : bool :=
  String.eqb (fl_code failure) "update-required" && negb (fl_retryable failure) &&
  bool_decide (fl_requiredWire failure = Some 5) &&
  match sv_options s with Some options => upgradable options | None => false end.

(** [#bootstrapProfileHousehold]: it has no [await] of its own *)
Definition bootstrapProfileHousehold (failure : Failure) (s : Supervisor) : bool * (Supervisor * list Output) :=
  if canBootstrapProfileHousehold failure s then
    match sv_options s with
    | Some options =>
        (true, (put_left max (put_options (Some (upgraded options)) s),
                [OMark "supervisor household bootstrap"; OConfirm (op_libraryKey options)]))
    | None => (false, (s, []))
    end
  else (false, (s, [])).

(** [#connectOnce], to the answer to the hello. [made] is what the factory threw, if it threw. *)
Definition connectOnce (loop : Z) (made : option Error) : Act := fun s =>
  match made with
  | Some error => (put_loop loop (LoopThrown error) s, [])
  | None =>
      let token := sv_nextToken s + 1 in
      (put_loop loop (LoopOpen token) (put_active (Some token) (put_client token (mkActive None None) (put_nextToken token s))),
       [OCreate token; OOpen token (sv_options s)])
  end.

(** The failure with which [#connectOnce] stops when its client failed or was replaced meanwhile. *)
Definition stopped (token : Z) (s : Supervisor) : option Failure :=
  if bool_decide (sv_active s = Some token)
  then client_failure token s
  else Some (default replaced_failure (client_failure token s)).

Definition unless_stopped (loop token : Z) (k : Act) : Act := fun s =>
  match stopped token s with
  | Some failure => (put_loop loop (LoopThrown (ServiceError failure)) s, [])
  | None => k s
  end.

(** Every subscription there is when the observations were sent again. *)
Definition bindCurrent (loop token : Z) (version : LibraryVersion) : Act := fun s =>
  let ids := unbound token s in
  let required := filter (fun id => is_required s id = true) ids in
  (bindAll token (fun id => if is_required s id then Some loop else None) ids >>
   quietly (put_loop loop (LoopBind token version required))) s.

(** The observations are sent again one by one. *)
Definition observeNext (loop token : Z) (index : nat) (version : LibraryVersion) : Act := fun s =>
  match map_values (sv_observations s) !! index with
  | Some observation => (put_loop loop (LoopObserve token index) s, [OObserve token observation])
  | None => bindCurrent loop token version s
  end.

Definition loopOpened (loop token : Z) (version : LibraryVersion) : Act :=
  quietly (fun s => put_client token (mkActive (Some version) (client_failure token s)) s) >>
  unless_stopped loop token (observeNext loop token 0 version).

Definition loopObserved (loop token : Z) (index : nat) (version : LibraryVersion) : Act :=
  quietly (fun s => put_client token (mkActive (Some (newerVersion (client_version token s) version)) (client_failure token s)) s) >>
  unless_stopped loop token (observeNext loop token (S index) version).

(** The replacements that arrived are published in one turn. *)
Definition publish (token : Z) (sub : Sub) : Sub :=
  match sb_staged sub with
  | Some (t, snapshot) =>
      if t =? token
      then mkSvSub (sb_selection sub) (sb_required sub) snapshot None (sb_stop sub) (sb_seen sub) (sb_attempted sub)
      else sub
  | None => sub
  end.
Definition is_staged (token : Z) (sub : Sub) : bool :=
  match sb_staged sub with Some (t, _) => t =? token | None => false end.
Definition publishStaged (token : Z) : Act := fun s =>
  (put_subs ((fun p => (p.1, publish token p.2)) <$> sv_subs s) s,
   (fun p => notifySubscription (p.1, publish token p.2)) <$> filter (fun p => is_staged token p.2 = true) (sv_subs s)).

Definition becomeReady (loop token : Z) (version : LibraryVersion) : Act := fun s =>
  let version := default version (client_version token s) in
  (quietly (fun s => put_left max (put_failure None (put_version (Some version) (put_phase Ready s)))) >>
   publishStaged token >> say [OMark "supervisor ready"] >> emitStatus (IsReady version) >>
   (fun s => bindAll token (fun _ => None) (unbound token s) s) >>
   quietly (put_loop loop (LoopReturned version))) s.

Definition loopBound (loop token : Z) (version : LibraryVersion) : Act :=
  unless_stopped loop token (becomeReady loop token version).

(** [#connectWithRetry] after [#connectOnce] returned, and its [catch] to the [await] of the upgrade *)
Definition loopReturned (loop : Z) (version : LibraryVersion) : Act := fun s =>
  (quietly (put_loop loop (LoopDone (inl version))) >>
   (if sv_confirm s then quietly (put_confirm false) >> say (match sv_options s with Some o => [OConfirm (op_libraryKey o)] | None => [] end)
    else quietly id)) s.

Definition loopThrown (loop : Z) (error : Error) : Act := fun s =>
  let failure := failureFrom error in
  (disposeActive >> (fun s =>
     if decide (sv_phase s = Closed) then (put_loop loop (LoopDone (inr failure)) s, [])
     else let '(enabled, (s, out)) := bootstrapProfileHousehold failure s in (put_loop loop (LoopUpgrade failure enabled) s, out))) s.

Definition loopUpgraded (loop : Z) (failure : Failure) (enabled : bool) (made : option Error) : Act := fun s =>
  if enabled then connectOnce loop made s
  else if negb (fl_retryable failure) || (sv_left s =? 0)%nat
  then (setFailed failure >> quietly (put_loop loop (LoopDone (inr failure)))) s
  else (quietly (fun s => put_left (pred (sv_left s)) s) >> say [OMark "supervisor restart"] >> reconnecting >> connectOnce loop made) s.

(** [connecting.then], which runs before whatever else awaits the connection *)
Definition loopDone (loop : Z) (result : LibraryVersion + Failure) : Act := fun s =>
  (put_loop loop (LoopSettled result) (if bool_decide (sv_connecting s = Some loop) then put_connecting None s else s), []).

(** [#beginConnection] *)
Definition beginConnection (again : bool) (made : option Error) : Act := fun s =>
  let loop := sv_nextLoop s + 1 in
  (quietly (put_nextLoop loop) >> (if again then reconnecting else quietly (put_phase Connecting)) >>
   openKnownProfileHousehold >> connectOnce loop made >> quietly (put_connecting (Some loop)) >> say [OPending loop]) s.

(** ** What the clients say *)

(** [Promise.all] over the bindings a connection requires is of one client. *)
Definition drop_waiting (token id : Z) (state : LoopState) : LoopState :=
  match state with
  | LoopBind t version waiting => if t =? token then LoopBind t version (filter (fun x => x <> id) waiting) else state
  | _ => state
  end.
Definition awaits (token : Z) (state : LoopState) : bool :=
  match state with LoopBind t _ _ => t =? token | _ => false end.

(** A binding that failed: the loop that requires it stops, if it still waits for it; else the subscription shows it. *)
Definition bindingFailed (token id : Z) (loop : option Z) (error : Error) : Act := fun s =>
  match loop with
  | Some loop =>
      match map_get loop (sv_loops s) with
      | Some state => if awaits token state then (put_loop loop (LoopThrown error) s, []) else (s, [])
      | None => (s, [])
      end
  | None =>
      match map_get id (sv_subs s) with
      | Some sub =>
          if bool_decide (sv_active s = Some token)
          then let sub := replaceSnapshot CnFailed (Some (failureFrom error)) sub in (put_sub id sub s, [notifySubscription (id, sub)])
          else (s, [])
      | None => (s, [])
      end
  end.

Definition bindingBound (token id : Z) (loop : option Z) : Act := fun s =>
  match loop with
  | Some loop =>
      match map_get loop (sv_loops s) with
      | Some state => (put_loop loop (drop_waiting token id state) s, [])
      | None => (s, [])
      end
  | None => (s, [])
  end.

(** [#bindSubscription] after its [await] *)
Definition bindingAnswered (token id : Z) (loop : option Z) : Act := fun s =>
  match map_get id (sv_subs s) with
  | Some sub =>
      if bool_decide (sv_active s = Some token) then
        if bool_decide (sb_seen sub = Some token)
        then (quietly (put_sub id (mkSvSub (sb_selection sub) (sb_required sub) (sb_snapshot sub) (sb_staged sub) (Some token)
                                     (sb_seen sub) (sb_attempted sub))) >> bindingBound token id loop) s
        else (say [OStop token id] >> bindingFailed token id loop (ServiceError unseen_failure)) s
      else (say [OStop token id] >> bindingBound token id loop) s
  | None => (say [OStop token id] >> bindingBound token id loop) s
  end.

Definition bindingSettled (token id : Z) (outcome : option Error) : Act := fun s =>
  match map_get (token, id) (sv_bindings s) with
  | None => (s, [])
  | Some loop =>
      (quietly (fun s => put_bindings (map_delete (token, id) (sv_bindings s)) s) >>
       match outcome with None => bindingAnswered token id loop | Some error => bindingFailed token id loop error end) s
  end.

(** The listener [#bindSubscription] gives the client, which exists once the subscription was bound to it *)
Definition valueReceived (token id : Z) (value : json) (version : LibraryVersion) : Act := fun s =>
  match map_get id (sv_subs s) with
  | Some sub =>
      if bool_decide (sv_active s = Some token) && bool_decide (sb_attempted sub = Some token) then
        let snapshot := mkSnapshot CnReady (Some value) (Some version) None in
        let s := put_version (Some (newerVersion (sv_version s) version))
                   (put_client token (mkActive (Some (newerVersion (client_version token s) version)) (client_failure token s)) s) in
        match sv_phase s with
        | Ready | Connecting =>
            let sub := mkSvSub (sb_selection sub) (sb_required sub) snapshot (sb_staged sub) (sb_stop sub) (Some token) (sb_attempted sub) in
            (put_sub id sub s, [notifySubscription (id, sub)])
        | _ =>
            (put_sub id (mkSvSub (sb_selection sub) (sb_required sub) (sb_snapshot sub) (Some (token, snapshot)) (sb_stop sub)
                           (Some token) (sb_attempted sub)) s, [])
        end
      else (s, [])
  | None => (s, [])
  end.

(** [#receiveStatus] of a failure *)
Definition statusFailed (token : Z) (failure : Failure) (made : option Error) : Act :=
  quietly (fun s => put_client token (mkActive (client_version token s) (Some failure)) s) >> fun s =>
  match sv_phase s with
  | Connecting | Reconnecting => (s, [])
  | _ =>
      (disposeActive >> (fun s =>
         if canBootstrapProfileHousehold failure s then
           (say [OMark "supervisor household bootstrap"] >> reconnecting >> (fun s =>
              let '(enabled, (s, out)) := bootstrapProfileHousehold failure s in
              (put_upgrades (sv_upgrades s ++ [(failure, enabled)]) s, out))) s
         else if negb (fl_retryable failure) || (sv_left s =? 0)%nat then setFailed failure s
         else (quietly (fun s => put_left (pred (sv_left s)) s) >> say [OMark "supervisor restart"] >> beginConnection true made) s)) s
  end.

(** [#receiveStatus] *)
Definition receiveStatus (token : Z) (status : Status) (made : option Error) : Act := fun s =>
  if negb (bool_decide (sv_active s = Some token)) then (s, [])
  else match status with
  | IsFailed failure => statusFailed token failure made s
  | _ =>
      let early := match sv_phase s with Connecting | Reconnecting => true | _ => false end in
      match status with
      | IsReady _ => if early then (s, []) else (markSubscriptionsReady >> emitStatus status) s
      | IsReconnecting _ => if early then (s, []) else (markSubscriptions CnReconnecting None >> emitStatus status) s
      | _ => emitStatus status s
      end
  end.

(** The upgrade a failed status asked for, settled *)
Definition statusUpgraded (made : option Error) : Act := fun s =>
  match sv_upgrades s with
  | [] => (s, [])
  | (failure, enabled) :: rest =>
      let s := put_upgrades rest s in
      if decide (sv_phase s = Closed) then (s, [])
      else if enabled then beginConnection true made s else setFailed failure s
  end.

(** ** What the page calls *)

Definition open (options : Options) (made : option Error) : Act := fun s =>
  if decide (sv_phase s = Closed) then (s, [OAnswer (inr closed_failure)])
  else if match sv_options s with Some bound => negb (sameOpenOptions bound options) | None => false end
  then (s, [OAnswer (inr conflict_failure)])
  else
    let s := put_options (Some (mkOptions (op_libraryKey options) (op_mode options) (Some (wire options)) (op_legacyClock options)
                                  (op_bootstrap options) (op_progress options))) s in
    match sv_phase s, sv_connecting s with
    | Ready, _ => (s, match sv_version s with Some v => [OAnswer (inl v)] | None => [] end)
    | _, Some loop => (s, [OPending loop])
    | Broken, None => (s, match sv_failure s with Some f => [OAnswer (inr f)] | None => [] end)
    | phase, None => beginConnection (negb (bool_decide (phase = Idle))) made s
    end.

Definition retry (made : option Error) : Act := fun s =>
  if decide (sv_phase s = Closed) then (s, [OAnswer (inr closed_failure)])
  else match sv_options s with
  | None => (s, [OAnswer (inr unopened_failure)])
  | Some _ =>
      match sv_phase s, sv_connecting s with
      | Ready, _ => (s, match sv_version s with Some v => [OAnswer (inl v)] | None => [] end)
      | _, Some loop => (s, [OPending loop])
      | _, None => beginConnection true made (put_failure None (put_left max s))
      end
  end.

Definition recoverSharedTransport (made : option Error) : Act := fun s =>
  if decide (sv_phase s = Closed) then (s, [OAnswer (inr closed_failure)])
  else match sv_options s, sv_connecting s with
  | None, _ => (s, [OAnswer (inr unopened_failure)])
  | Some _, Some loop => (s, [OPending loop])
  | Some _, None =>
      match sv_phase s, sv_active s with
      | Ready, Some _ =>
          if (sv_left s =? 0)%nat then (setFailed unusable_failure >> say [OAnswer (inr unusable_failure)]) s
          else (quietly (fun s => put_left (pred (sv_left s)) s) >> say [OMark "supervisor restart"] >> disposeActive >>
                beginConnection true made) s
      | _, _ => (s, [OAnswer (inr (default not_ready_failure (sv_failure s)))])
      end
  end.

(** [#readyClient]: the client a call goes to, or what it throws *)
Definition readyClient (s : Supervisor) : Z + Failure :=
  if decide (sv_phase s = Closed) then inr closed_failure
  else match sv_phase s, sv_active s with
  | Ready, Some token => inl token
  | _, _ => inr (default not_ready_failure (sv_failure s))
  end.

Definition put_call (call : Z) (state : CallState) (s : Supervisor) : Supervisor := put_calls (map_set call state (sv_calls s)) s.
Definition end_call (call : Z) (result : option Error) : Act := fun s =>
  (put_calls (map_delete call (sv_calls s)) s, [OSettled call result]).

(** A turn of [#semantic]'s loop, for a command or a task under an operation id *)
Definition semantic (call : Z) (operationId : string) : Act := fun s =>
  match readyClient s with
  | inl token => (put_call call (CallSent token operationId) s, [OSend call token operationId])
  | inr failure => end_call call (Some (ServiceError failure)) s
  end.

(** Its [catch], a turn after the failure *)
Definition semanticFailed (call token : Z) (operationId : string) (error : Error) : Act := fun s =>
  if negb (fl_retryable (failureFrom error)) || bool_decide (sv_phase s = Closed) ||
     (bool_decide (sv_active s = Some token) && bool_decide (sv_phase s = Ready))
  then end_call call (Some error) s
  else match sv_connecting s with
  | None => end_call call (Some error) s
  | Some loop => (put_call call (CallWaiting operationId loop) s, [])
  end.

Definition ask (call : Z) : Act := fun s =>
  match readyClient s with
  | inl token => (put_calls (map_delete call (sv_calls s)) s, [OAsk call token])
  | inr failure => end_call call (Some (ServiceError failure)) s
  end.

Definition query (call : Z) : Act := fun s =>
  match sv_connecting s with
  | Some loop => (put_call call (CallQuery loop) s, [])
  | None => ask call s
  end.

Definition observe (call : Z) (observation : json) : Act := fun s =>
  match readyClient s with
  | inl token => (put_call call (CallObserve token observation) s, [OObserve token observation])
  | inr failure => end_call call (Some (ServiceError failure)) s
  end.

Definition observed (call token : Z) (observation : json) : Act := fun s =>
  (quietly (fun s =>
     if bool_decide (sv_active s = Some token) && bool_decide (sv_phase s = Ready)
     then put_observations (map_set (observationKey observation) observation (sv_observations s)) s else s) >> end_call call None) s.

(** [subscribeSnapshot] *)
Definition subscribeSnapshot (selection : LibrarySelection) (background : bool) : Act := fun s =>
  if decide (sv_phase s = Closed) then (s, [OAnswer (inr closed_failure)])
  else
    let id := sv_nextSub s + 1 in
    let sub := mkSvSub selection (bool_decide (sv_options s = None) && negb background)
                 (mkSnapshot (selectionConnection (sv_phase s)) None None (sv_failure s)) None None None None in
    (quietly (fun s => put_sub id sub (put_nextSub id s)) >> say [notifySubscription (id, sub)] >> (fun s =>
       match sv_active s, sv_phase s with
       | Some token, Ready => match client_version token s with Some _ => bindSubscription token None id s | None => (s, []) end
       | _, _ => (s, [])
       end)) s.

(** The function it answers *)
Definition unsubscribe (id : Z) : Act := fun s =>
  match map_get id (sv_subs s) with
  | None => (s, [])
  | Some sub => (put_subs (map_delete id (sv_subs s)) s, match sb_stop sub with Some token => [OStop token id] | None => [] end)
  end.

Definition close : Act := fun s =>
  if decide (sv_phase s = Closed) then (s, [])
  else (quietly (put_phase Closed) >> disposeActive >> quietly (put_subs [])) s.

(** ** Runs *)

Inductive Event : Type :=
| EvOpen (options : Options) (made : option Error)
| EvRetry (made : option Error)
| EvRecover (made : option Error)
| EvSubscribe (selection : LibrarySelection) (background : bool)
| EvUnsubscribe (id : Z)
| EvClose
| EvCommand (operationId : string)
| EvQuery
| EvObserve (observation : json)
| EvLoop (loop : Z) (outcome : LibraryVersion + Error) (made : option Error)
| EvBinding (token id : Z) (outcome : option Error)
| EvValue (token id : Z) (value : json) (version : LibraryVersion)
| EvStatus (token : Z) (status : Status) (made : option Error)
| EvUpgraded (made : option Error)
| EvCall (call : Z) (outcome : option Error).

(** The continuation of a connection loop; [outcome] is the client's answer where it waits for one. *)
Definition loopStep (loop : Z) (outcome : LibraryVersion + Error) (made : option Error) : Act := fun s =>
  match map_get loop (sv_loops s), outcome with
  | Some (LoopOpen token), inl version => loopOpened loop token version s
  | Some (LoopObserve token index), inl version => loopObserved loop token index version s
  | Some (LoopOpen _), inr error | Some (LoopObserve _ _), inr error => (put_loop loop (LoopThrown error) s, [])
  | Some (LoopBind token version []), _ => loopBound loop token version s
  | Some (LoopThrown error), _ => loopThrown loop error s
  | Some (LoopReturned version), _ => loopReturned loop version s
  | Some (LoopUpgrade failure enabled), _ => loopUpgraded loop failure enabled made s
  | Some (LoopDone result), _ => loopDone loop result s
  | _, _ => (s, [])
  end.

(** The continuation of a call of the page. *)
Definition callStep (call : Z) (outcome : option Error) : Act := fun s =>
  match map_get call (sv_calls s), outcome with
  | Some (CallSent _ _), None => end_call call None s
  | Some (CallSent token operationId), Some error => (put_call call (CallFailed token operationId error) s, [])
  | Some (CallFailed token operationId error), _ => semanticFailed call token operationId error s
  | Some (CallWaiting operationId loop), _ =>
      match map_get loop (sv_loops s) with
      | Some (LoopSettled (inl _)) => semantic call operationId s
      | Some (LoopSettled (inr failure)) => end_call call (Some (ServiceError failure)) s
      | _ => (s, [])
      end
  | Some (CallQuery loop), _ =>
      match map_get loop (sv_loops s) with Some (LoopSettled _) => ask call s | _ => (s, []) end
  | Some (CallObserve token observation), None => observed call token observation s
  | Some (CallObserve _ _), Some error => end_call call (Some error) s
  | None, _ => (s, [])
  end.

Definition newCall (k : Z -> Act) : Act := fun s => let call := sv_nextCall s + 1 in k call (put_nextCall call s).

Definition step (e : Event) : Act :=
  match e with
  | EvOpen options made => open options made
  | EvRetry made => retry made
  | EvRecover made => recoverSharedTransport made
  | EvSubscribe selection background => subscribeSnapshot selection background
  | EvUnsubscribe id => unsubscribe id
  | EvClose => close
  | EvCommand operationId => newCall (fun call => semantic call operationId)
  | EvQuery => newCall query
  | EvObserve observation => newCall (fun call => observe call observation)
  | EvLoop loop outcome made => loopStep loop outcome made
  | EvBinding token id outcome => bindingSettled token id outcome
  | EvValue token id value version => valueReceived token id value version
  | EvStatus token status made => receiveStatus token status made
  | EvUpgraded made => statusUpgraded made
  | EvCall call outcome => callStep call outcome
  end.

Definition newSupervisor : Supervisor :=
  mkSupervisor [] [] 0 Idle None None max false None None None None 0 [] [] 0 [] [] [] 0.

(** [run ok es s out]: the events [es], each admitted by [ok], lead in that order from a new supervisor to [s] and do
    [out]. *)
Inductive run (ok : Supervisor -> Event -> Prop) : list Event -> Supervisor -> list Output -> Prop :=
| run_new : run ok [] newSupervisor []
| run_step es s out e : run ok es s out -> ok s e -> run ok (es ++ [e]) (step e s).1 (out ++ (step e s).2).
End Connecting.

(** Two continuations are of promises that are resolved already, and run before the page acts again in a task of its
    own: the upgrade a failed status asked for, and the one a connection loop asked for. This leaves out a page that
    opens, retries or closes from inside a callback the supervisor makes just before them (a status listener, or
    [onProfileHouseholdConfirmed]), as a theorem on [timely] runs then does; [close_undone] is about such a close. *)
Definition timely (s : Supervisor) (e : Event) : Prop :=
  match e with
  | EvOpen _ _ | EvRetry _ => sv_upgrades s = []
  | EvClose => forall loop failure enabled, map_get loop (sv_loops s) <> Some (LoopUpgrade failure enabled)
  | _ => True
  end.
