(* ===== verification/SupervisorSafety.v ===== *)
(** * What the supervisor guarantees

    Restarts stay within their budget ([restart_budget]); a command is sent again only to a newer client, under its
    own operation id ([resend_newer]); closed is final ([closed_final]), unless it comes amid the upgrade of a household
    ([close_undone]). *)

From S2P Require Import Prelude JsMap JsText Json Wire ServiceCore Supervisor.
Open Scope Z_scope.

(** ** How many clients are made *)

(** The times the connection became ready, among outputs. *)
Definition is_ready (o : Output) : bool := match o with OMark name => String.eqb name "supervisor ready" | _ => false end.
Definition readies (out : list Output) : Z := Z.of_nat (length (filter (fun o => is_ready o = true) out)).

(** The times the page asked for a connection, among events. *)
Definition is_ask (e : Event) : bool := match e with EvOpen _ _ | EvRetry _ => true | _ => false end.
Definition asks (es : list Event) : Z := Z.of_nat (length (filter (fun e => is_ask e = true) es)).

Lemma readies_app out out' : readies (out ++ out') = readies out + readies out'.
Proof. unfold readies. rewrite filter_app, length_app. lia. Qed.
Lemma asks_app es es' : asks (es ++ es') = asks es + asks es'.
Proof. unfold asks. rewrite filter_app, length_app. lia. Qed.
Lemma readies_nonneg out : 0 <= readies out.
Proof. unfold readies. lia. Qed.

Section Budget.
Context (known : string -> bool) (max : nat).

(** Clients that will be made without spending a restart: upgrades that were granted. *)
Definition granted (state : LoopState) : bool := match state with LoopUpgrade _ true => true | _ => false end.
Definition grants (loops : jsmap Z LoopState) : Z := Z.of_nat (length (filter (fun p => granted p.2 = true) loops)).
Definition upgrading (l : list (Failure * bool)) : Z := Z.of_nat (length (filter (fun p => p.2 = true) l)).
Definition may_upgrade (o : option Options) : Z := match o with Some options => if upgradable options then 1 else 0 | None => 1 end.

(** What the supervisor may still spend, and has spent. *)
Definition budget (s : Supervisor) : Z :=
  sv_nextToken s + Z.of_nat (sv_left s) + grants (sv_loops s) + upgrading (sv_upgrades s) + (Z.of_nat max + 1) * may_upgrade (sv_options s).

Definition spends (d : Z) (s : Supervisor) (o : Supervisor * list Output) : Prop :=
  budget o.1 <= budget s + (Z.of_nat max + 1) * readies o.2 + d.

(** Work that has nothing to do with the budget. *)
Definition idle (f : Act) : Prop := forall s,
  (sv_nextToken (f s).1 = sv_nextToken s /\ sv_left (f s).1 = sv_left s /\ sv_loops (f s).1 = sv_loops s /\
   sv_upgrades (f s).1 = sv_upgrades s /\ sv_options (f s).1 = sv_options s) /\ readies (f s).2 = 0.

Lemma idle_andThen f g : idle f -> idle g -> idle (f >> g).
Proof.
  intros Hf Hg s. unfold andThen. specialize (Hf s). destruct (f s) as [s1 o1]. specialize (Hg s1). destruct (g s1) as [s2 o2].
  cbn [fst snd] in *. rewrite readies_app. destruct Hf as [(? & ? & ? & ? & ?) ?], Hg as [(? & ? & ? & ? & ?) ?].
  split; [split_and!; congruence|lia].
Qed.

Lemma readies_fmap {T} (f : T -> Output) l : (forall x, is_ready (f x) = false) -> readies (f <$> l) = 0.
Proof.
  intros Hf. unfold readies. induction l as [|x l IH]; [done|]. rewrite fmap_cons, filter_cons_False; [done|]. by rewrite Hf.
Qed.

Lemma idle_dispose : idle disposeActive.
Proof. intros s. unfold disposeActive. by destruct (sv_active s). Qed.
Lemma idle_mark c e : idle (markSubscriptions c e).
Proof. intros s. split; [done|]. by apply readies_fmap. Qed.
Lemma idle_ready : idle markSubscriptionsReady.
Proof. intros s. split; [done|]. by apply readies_fmap. Qed.
Lemma idle_publish token : idle (publishStaged token).
Proof. intros s. split; [done|]. by apply readies_fmap. Qed.
Lemma idle_emit status : idle (emitStatus status).
Proof. by intros s. Qed.
Lemma idle_say out : readies out = 0 -> idle (say out).
Proof. by intros Ho s. Qed.
Lemma idle_quiet f :
  (forall s, sv_nextToken (f s) = sv_nextToken s /\ sv_left (f s) = sv_left s /\ sv_loops (f s) = sv_loops s /\
             sv_upgrades (f s) = sv_upgrades s /\ sv_options (f s) = sv_options s) -> idle (quietly f).
Proof. intros Hf s. by split; [apply Hf|]. Qed.
Lemma idle_bind token loop id : idle (bindSubscription token loop id).
Proof. intros s. unfold bindSubscription. destruct (map_get id _) as [sub|]; [|done]. split; [done|]. by destruct (sb_stop sub). Qed.
Lemma idle_bindAll token loop ids : idle (bindAll token loop ids).
Proof. induction ids as [|id ids IH]; [by apply idle_quiet|]. apply idle_andThen; [apply idle_bind|done]. Qed.
Lemma idle_reconnecting : idle reconnecting.
Proof.
  intros s. unfold reconnecting. apply idle_andThen; [by apply idle_quiet|]. apply idle_andThen; [apply idle_mark|].
  intros s'. apply idle_emit.
Qed.
Lemma idle_setFailed failure : idle (setFailed failure).
Proof.
  intros s. unfold setFailed. destruct (decide _); [done|].
  repeat first [apply idle_andThen|apply idle_dispose|apply idle_mark|apply idle_emit|by apply idle_quiet|by apply idle_say].
Qed.

Lemma spends_andThen d d' f g s :
  spends d s (f s) -> spends d' (f s).1 (g (f s).1) -> spends (d + d') s ((f >> g) s).
Proof.
  unfold spends, andThen. destruct (f s) as [s1 o1]. cbn [fst snd]. destruct (g s1) as [s2 o2]. cbn [fst snd]. rewrite readies_app. lia.
Qed.

Lemma spends_idle f s : idle f -> spends 0 s (f s).
Proof.
  intros Hf. destruct (Hf s) as [(E1 & E2 & E3 & E4 & E5) Er]. unfold spends, budget. rewrite E1, E2, E3, E4, E5, Er. lia.
Qed.

Lemma spends_after f g d s : idle f -> (forall s', sv_nextToken s' = sv_nextToken s -> sv_left s' = sv_left s ->
    sv_loops s' = sv_loops s -> sv_upgrades s' = sv_upgrades s -> sv_options s' = sv_options s -> spends d s' (g s')) ->
  spends d s ((f >> g) s).
Proof.
  intros Hf Hg. replace d with (0 + d) by lia. apply spends_andThen; [by apply spends_idle|].
  destruct (Hf s) as [(? & ? & ? & ? & ?) _]. by apply Hg.
Qed.

Lemma spends_weaken d d' s o : d <= d' -> spends d s o -> spends d' s o.
Proof. unfold spends. lia. Qed.

(** Whether the loop holds a grant. *)
Definition grant_of (loop : Z) (loops : jsmap Z LoopState) : Z :=
  match map_get loop loops with Some state => if granted state then 1 else 0 | None => 0 end.

Lemma grants_cons k state loops : grants ((k, state) :: loops) = (if granted state then 1 else 0) + grants loops.
Proof. unfold grants. rewrite filter_cons. cbn [snd]. destruct (granted state); case_decide; try done; cbn [length]; lia. Qed.

Lemma grants_set loop state loops :
  grants (map_set loop state loops) = grants loops - grant_of loop loops + (if granted state then 1 else 0).
Proof.
  unfold grant_of. induction loops as [|[k st] loops IH]; cbn [map_set map_get]; [rewrite grants_cons; unfold grants; cbn; lia|].
  case_decide; rewrite !grants_cons; [lia|]. rewrite IH. lia.
Qed.

Lemma grant_of_nonneg loop loops : 0 <= grant_of loop loops.
Proof. unfold grant_of. repeat case_match; lia. Qed.

Lemma spends_loop loop state s out :
  readies out = 0 -> granted state = false -> spends (- grant_of loop (sv_loops s)) s (put_loop loop state s, out).
Proof.
  intros Ho Hg. unfold spends, budget. cbn [fst snd]. rewrite Ho. unfold put_loop. cbn. rewrite grants_set, Hg. lia.
Qed.

Lemma spends_loop_0 loop state s out : readies out = 0 -> granted state = false -> spends 0 s (put_loop loop state s, out).
Proof.
  intros Ho Hg. eapply spends_weaken, spends_loop; [|done..]. pose proof (grant_of_nonneg loop (sv_loops s)). lia.
Qed.

Lemma spends_connectOnce loop made s : spends (1 - grant_of loop (sv_loops s)) s (connectOnce loop made s).
Proof.
  unfold connectOnce. destruct made; [eapply spends_weaken, spends_loop; [lia|done..]|].
  unfold spends, budget. cbn. rewrite grants_set. cbn. change (readies _) with 0. lia.
Qed.

Lemma spends_same s out : readies out = 0 -> spends 0 s (s, out).
Proof. intros Ho. unfold spends. cbn [fst snd]. rewrite Ho. lia. Qed.

Lemma spends_known s : spends 0 s (openKnownProfileHousehold known s).
Proof.
  unfold openKnownProfileHousehold. destruct (sv_options s) as [o|] eqn:Eo; [|by apply spends_same].
  destruct (upgradable o && known (op_libraryKey o)) eqn:Eu; [|by apply spends_same].
  unfold spends, budget. cbn [fst snd put_confirm put_options sv_nextToken sv_left sv_loops sv_upgrades sv_options]. rewrite Eo. cbn [may_upgrade].
  apply andb_true_iff in Eu as [-> _]. unfold upgradable, upgraded. cbn. rewrite andb_false_r.
  change (readies _) with 0. lia.
Qed.

Lemma spends_begin again made s : spends 1 s (beginConnection known again made s).
Proof.
  unfold beginConnection. apply spends_after; [by apply idle_quiet|]. intros s0 _ _ _ _ _.
  apply spends_after; [destruct again; [apply idle_reconnecting|by apply idle_quiet]|]. intros s1 _ _ _ _ _.
  apply (spends_andThen 0 1); [apply spends_known|]. apply (spends_andThen 1 0).
  - eapply spends_weaken, spends_connectOnce. pose proof (grant_of_nonneg (sv_nextLoop s + 1) (sv_loops (openKnownProfileHousehold known s1).1)). lia.
  - apply spends_idle, idle_andThen; [by apply idle_quiet|by apply idle_say].
Qed.

(** The upgrade of the household is granted once. *)
Lemma spends_bootstrap failure s (k : bool -> Supervisor -> Supervisor) :
  (forall b s', budget (k b s') <= budget s' + (if b then 1 else 0)) ->
  spends 0 s (let '(enabled, (s', out)) := bootstrapProfileHousehold max failure s in (k enabled s', out)).
Proof.
  intros Hk. unfold bootstrapProfileHousehold, canBootstrapProfileHousehold.
  assert (Hsame : spends 0 s (k false s, [])) by (unfold spends; cbn [fst snd]; change (readies []) with 0; specialize (Hk false s); cbn in Hk; lia).
  destruct (_ && match sv_options s with Some _ => _ | None => false end) eqn:E; [|done]. destruct (sv_options s) as [o|] eqn:Eo; [|done].
  apply andb_true_iff in E as [_ E]. unfold spends. cbn [fst snd].
  match goal with |- budget (k true ?s') <= _ => specialize (Hk true s'); cut (budget s' + 1 <= budget s + (Z.of_nat max + 1) * 0) end; [cbn [readies]|].
  - intros Hb. change (if true then 1 else 0) with 1 in Hk. change (readies _) with 0. lia.
  - unfold budget. cbn [put_left put_options sv_nextToken sv_left sv_loops sv_upgrades sv_options]. rewrite Eo. cbn [may_upgrade]. rewrite E.
    unfold upgradable, upgraded. cbn. rewrite andb_false_r. lia.
Qed.


Lemma idle_step_0 (o : Supervisor * list Output) s :
  sv_nextToken o.1 = sv_nextToken s -> sv_left o.1 = sv_left s -> sv_loops o.1 = sv_loops s ->
  sv_upgrades o.1 = sv_upgrades s -> sv_options o.1 = sv_options s -> readies o.2 = 0 -> spends 0 s o.
Proof. intros E1 E2 E3 E4 E5 Er. unfold spends, budget. rewrite E1, E2, E3, E4, E5, Er. lia. Qed.

Lemma spends_observeNext loop token index version s : spends 0 s (observeNext loop token index version s).
Proof.
  unfold observeNext. destruct (map_values _ !! index); [by apply spends_loop_0|]. unfold bindCurrent.
  apply spends_after; [apply idle_bindAll|]. intros s' _ _ _ _ _. by apply spends_loop_0.
Qed.

Lemma spends_unless loop token k s : (forall s, spends 0 s (k s)) -> spends 0 s (unless_stopped loop token k s).
Proof. intros Hk. unfold unless_stopped. destruct (stopped token s); [by apply spends_loop_0|apply Hk]. Qed.

Lemma spends_becomeReady loop token version s : spends 0 s (becomeReady max loop token version s).
Proof.
  unfold becomeReady. apply (spends_weaken (Z.of_nat max + (0 + (- (Z.of_nat max + 1) + 0)))); [lia|].
  apply spends_andThen; [unfold spends, budget; cbn; change (readies []) with 0; lia|].
  apply spends_andThen; [apply spends_idle, idle_publish|].
  apply spends_andThen; [unfold spends; cbn [say fst snd]; change (readies [_]) with 1; lia|].
  apply spends_after; [apply idle_emit|]. intros s1 _ _ _ _ _.
  apply (spends_after (fun s => bindAll token (fun _ => None) (unbound token s) s)); [intros s'; apply idle_bindAll|].
  intros s2 _ _ _ _ _. by apply spends_loop_0.
Qed.

Lemma spends_loopStep loop outcome made s : spends 0 s (loopStep max loop outcome made s).
Proof.
  unfold loopStep. destruct (map_get loop (sv_loops s)) as [st|] eqn:Hst; [|by apply spends_same].
  assert (Hput : forall state, granted state = false -> spends 0 s (put_loop loop state s, [])) by (intros; by apply spends_loop_0).
  destruct st as [t|t i|t v [|x w]|e|v|f en|r|r]; try (destruct outcome; by apply spends_same); try (by apply spends_same).
  - destruct outcome; [|by apply Hput]. apply spends_after; [by apply idle_quiet|]. intros s' _ _ _ _ _.
    apply spends_unless. intros; apply spends_observeNext.
  - destruct outcome; [|by apply Hput]. apply spends_after; [by apply idle_quiet|]. intros s' _ _ _ _ _.
    apply spends_unless. intros; apply spends_observeNext.
  - apply spends_unless. intros; apply spends_becomeReady.
  - unfold loopThrown. apply spends_after; [apply idle_dispose|]. intros s' _ _ El _ _.
    destruct (decide _); [by apply spends_loop_0|].
    apply (spends_bootstrap (failureFrom e) s' (fun b => put_loop loop (LoopUpgrade (failureFrom e) b))).
    intros b s0. unfold budget, put_loop. cbn. rewrite grants_set. pose proof (grant_of_nonneg loop (sv_loops s0)). destruct b; cbn; lia.
  - unfold loopReturned. apply (spends_andThen 0 0); [by apply Hput|]. apply spends_idle. destruct (sv_confirm s); [|by apply idle_quiet].
    apply idle_andThen; [by apply idle_quiet|]. apply idle_say. by destruct (sv_options s).
  - unfold loopUpgraded. destruct en.
    + eapply spends_weaken, spends_connectOnce. unfold grant_of. rewrite Hst. cbn. lia.
    + destruct (_ || _) eqn:E; [apply spends_after; [apply idle_setFailed|intros; by apply spends_loop_0]|].
      apply orb_false_iff in E as [_ E%Nat.eqb_neq]. apply (spends_andThen (-1) 1); [unfold spends, budget; cbn; change (readies []) with 0; lia|].
      apply spends_after; [by apply idle_say|]. intros s1 _ _ _ _ _. apply spends_after; [apply idle_reconnecting|]. intros s2 _ _ _ _ _.
      eapply spends_weaken, spends_connectOnce. pose proof (grant_of_nonneg loop (sv_loops s2)). lia.
  - unfold loopDone. destruct (bool_decide _); [|by apply Hput].
    pose proof (spends_loop_0 loop (LoopSettled r) (put_connecting None s) [] eq_refl eq_refl) as H. exact H.
Qed.

Lemma granted_drop token id state : granted (drop_waiting token id state) = granted state.
Proof. destruct state; try done. cbn. by destruct (_ =? _). Qed.

Lemma spends_bindingFailed token id loop error s : spends 0 s (bindingFailed token id loop error s).
Proof.
  unfold bindingFailed. destruct loop as [l|].
  - destruct (map_get l _); [|by apply spends_same]. destruct (awaits _ _); [by apply spends_loop_0|by apply spends_same].
  - destruct (map_get id _); [|by apply spends_same]. destruct (bool_decide _); [by apply idle_step_0|by apply spends_same].
Qed.

Lemma spends_bindingBound token id loop s : spends 0 s (bindingBound token id loop s).
Proof.
  unfold bindingBound. destruct loop as [l|]; [|by apply spends_same]. destruct (map_get l _) as [st|] eqn:E; [|by apply spends_same].
  unfold spends, budget, put_loop. cbn. rewrite grants_set, granted_drop. unfold grant_of. rewrite E. change (readies []) with 0. lia.
Qed.

Lemma spends_binding token id outcome s : spends 0 s (bindingSettled token id outcome s).
Proof.
  unfold bindingSettled. destruct (map_get (token, id) _) as [loop|]; [|by apply spends_same].
  apply spends_after; [by apply idle_quiet|]. intros s1 _ _ _ _ _. destruct outcome as [e|]; [apply spends_bindingFailed|].
  assert (Hstop : forall s, spends 0 s ((say [OStop token id] >> bindingBound token id loop) s)).
  { intros s0. apply spends_after; [by apply idle_say|]. intros; apply spends_bindingBound. }
  unfold bindingAnswered. destruct (map_get id _) as [sub|]; [|apply Hstop]. destruct (bool_decide (sv_active s1 = _)); [|apply Hstop].
  destruct (bool_decide _); (apply spends_after; [by first [apply idle_quiet|apply idle_say]|intros]);
    [apply spends_bindingBound|apply spends_bindingFailed].
Qed.

Lemma spends_value token id value version s : spends 0 s (valueReceived token id value version s).
Proof.
  unfold valueReceived. destruct (map_get id _) as [sub|]; [|by apply spends_same]. destruct (_ && _); [|by apply spends_same].
  destruct (sv_phase _); by apply idle_step_0.
Qed.

Lemma spends_restart made s : sv_left s <> 0%nat -> spends 0 s
  ((quietly (fun s => put_left (pred (sv_left s)) s) >> say [OMark "supervisor restart"] >> beginConnection known true made) s).
Proof.
  intros Hl. apply (spends_andThen (-1) 1); [unfold spends, budget; cbn; change (readies []) with 0; lia|].
  apply spends_after; [by apply idle_say|]. intros. apply spends_begin.
Qed.

Lemma upgrading_snoc l f b : upgrading (l ++ [(f, b)]) = upgrading l + (if b then 1 else 0).
Proof. unfold upgrading. rewrite filter_app, length_app. destruct b; [rewrite filter_cons_True by done|rewrite filter_cons_False by done]; rewrite filter_nil; cbn; lia. Qed.

Lemma spends_status token status made s : spends 0 s (receiveStatus known max token status made s).
Proof.
  unfold receiveStatus. destruct (negb _); [by apply spends_same|].
  assert (Hemit : forall st, spends 0 s (emitStatus st s)) by (intros; apply spends_idle, idle_emit).
  destruct status as [v|v|v r|m|f]; try apply Hemit.
  - destruct (match sv_phase s with Connecting | Reconnecting => true | _ => false end); [by apply spends_same|].
    apply spends_idle, idle_andThen; [apply idle_ready|apply idle_emit].
  - destruct (match sv_phase s with Connecting | Reconnecting => true | _ => false end); [by apply spends_same|].
    apply spends_idle, idle_andThen; [apply idle_mark|apply idle_emit].
  - apply spends_after; [by apply idle_quiet|]. intros s0 _ _ _ _ _.
    assert (Hfail : spends 0 s0 ((disposeActive >> (fun s =>
         if canBootstrapProfileHousehold f s then
           (say [OMark "supervisor household bootstrap"] >> reconnecting >> (fun s =>
              let '(enabled, (s, out)) := bootstrapProfileHousehold max f s in
              (put_upgrades (sv_upgrades s ++ [(f, enabled)]) s, out))) s
         else if negb (fl_retryable f) || (sv_left s =? 0)%nat then setFailed f s
         else (quietly (fun s => put_left (pred (sv_left s)) s) >> say [OMark "supervisor restart"] >> beginConnection known true made) s)) s0)).
    { apply spends_after; [apply idle_dispose|]. intros s1 _ _ _ _ _. destruct (canBootstrapProfileHousehold f s1).
      - apply spends_after; [by apply idle_say|]. intros s2 _ _ _ _ _. apply spends_after; [apply idle_reconnecting|]. intros s3 _ _ _ _ _.
        apply (spends_bootstrap f s3 (fun b s => put_upgrades (sv_upgrades s ++ [(f, b)]) s)). intros b s4. unfold budget. cbn.
        rewrite upgrading_snoc. lia.
      - destruct (_ || _) eqn:E; [apply spends_idle, idle_setFailed|]. apply orb_false_iff in E as [_ E%Nat.eqb_neq].
        by apply spends_restart. }
    destruct (sv_phase s0); first [exact Hfail|by apply spends_same].
Qed.

Lemma spends_upgraded made s : spends 0 s (statusUpgraded known made s).
Proof.
  unfold statusUpgraded. destruct (sv_upgrades s) as [|[f b] rest] eqn:E; [by apply spends_same|].
  assert (Hb : budget (put_upgrades rest s) = budget s - (if b then 1 else 0)).
  { unfold budget. cbn. rewrite E. unfold upgrading. rewrite filter_cons. cbn. destruct b; case_decide; try done; cbn [length]; lia. }
  assert (Hnone : spends 0 s (put_upgrades rest s, [])).
  { unfold spends. cbn [fst snd]. rewrite Hb. change (readies []) with 0. destruct b; lia. }
  destruct (decide _); [done|]. destruct b.
  - pose proof (spends_begin true made (put_upgrades rest s)) as H. unfold spends in *. rewrite Hb in H. lia.
  - pose proof (spends_idle (setFailed f) (put_upgrades rest s) (idle_setFailed f)) as H. unfold spends in *. rewrite Hb in H. lia.
Qed.

(** Opening again keeps what the household may still upgrade to. *)
Lemma spends_options options s :
  match sv_options s with Some bound => sameOpenOptions bound options = true | None => True end ->
  budget (put_options (Some (mkOptions (op_libraryKey options) (op_mode options) (Some (wire options)) (op_legacyClock options)
            (op_bootstrap options) (op_progress options))) s) <= budget s.
Proof.
  intros Hb. unfold budget. cbn [put_options sv_nextToken sv_left sv_loops sv_upgrades sv_options may_upgrade].
  change (upgradable (mkOptions _ _ _ _ _ _)) with (upgradable options). destruct (sv_options s) as [o|]; cbn [may_upgrade].
  - unfold sameOpenOptions in Hb. rewrite !andb_true_iff in Hb. destruct Hb as ((((_ & Hm%String.eqb_eq) & Hw%Z.eqb_eq) & Hbo%bool_decide_eq_true) & _).
    unfold upgradable. rewrite Hm, Hw, Hbo. lia.
  - destruct (upgradable options); lia.
Qed.

Lemma spends_open options made s : spends (Z.of_nat max + 1) s (open known options made s).
Proof.
  unfold open. assert (Hw : forall o, spends 0 s o -> spends (Z.of_nat max + 1) s o) by (intros o; apply spends_weaken; lia).
  destruct (decide _); [by apply Hw, spends_same|].
  destruct (match sv_options s with Some bound => negb (sameOpenOptions bound options) | None => false end) eqn:Eo; [by apply Hw, spends_same|].
  pose proof (spends_options options s) as Hb. set (s1 := put_options _ s) in *.
  assert (Hle : budget s1 <= budget s) by (apply Hb; destruct (sv_options s); [by apply negb_false_iff|done]).
  assert (Hsame : forall out, readies out = 0 -> spends (Z.of_nat max + 1) s (s1, out)).
  { intros out Hr. unfold spends. cbn [fst snd]. rewrite Hr. lia. }
  assert (Hbegin : forall again, spends (Z.of_nat max + 1) s (beginConnection known again made s1)).
  { intros again. pose proof (spends_begin again made s1) as H. unfold spends in *. lia. }
  destruct (sv_phase s1), (sv_connecting s1); try apply Hbegin; apply Hsame; try done; first [by destruct (sv_version s1)|by destruct (sv_failure s1)].
Qed.

Lemma spends_retry made s : spends (Z.of_nat max + 1) s (retry known max made s).
Proof.
  unfold retry. assert (Hw : forall o, spends 0 s o -> spends (Z.of_nat max + 1) s o) by (intros o; apply spends_weaken; lia).
  destruct (decide _); [by apply Hw, spends_same|]. destruct (sv_options s); [|by apply Hw, spends_same].
  assert (Hbegin : spends (Z.of_nat max + 1) s (beginConnection known true made (put_failure None (put_left max s)))).
  { pose proof (spends_begin true made (put_failure None (put_left max s))) as H. unfold spends in *.
    assert (budget (put_failure None (put_left max s)) <= budget s + Z.of_nat max) by (unfold budget; cbn; lia). lia. }
  destruct (sv_phase s), (sv_connecting s); try exact Hbegin; apply Hw, spends_same; try done; by destruct (sv_version s).
Qed.

Lemma spends_recover made s : spends 0 s (recoverSharedTransport known made s).
Proof.
  unfold recoverSharedTransport. destruct (decide _); [by apply spends_same|].
  destruct (sv_options s), (sv_connecting s); try (by apply spends_same).
  assert (Hrefuse : spends 0 s (s, [OAnswer (inr (default not_ready_failure (sv_failure s)))])) by (by apply spends_same).
  destruct (sv_phase s), (sv_active s); try exact Hrefuse.
  destruct (sv_left s =? 0)%nat eqn:E; [apply spends_idle, idle_andThen; [apply idle_setFailed|by apply idle_say]|].
  apply Nat.eqb_neq in E. apply (spends_andThen (-1) 1); [unfold spends, budget; cbn; change (readies []) with 0; lia|].
  apply spends_after; [by apply idle_say|]. intros s1 _ _ _ _ _. apply spends_after; [apply idle_dispose|]. intros. apply spends_begin.
Qed.

Lemma spends_end call result s : spends 0 s (end_call call result s).
Proof. by apply idle_step_0. Qed.

Lemma spends_call call outcome s : spends 0 s (callStep call outcome s).
Proof.
  assert (Hask : spends 0 s (ask call s)) by (unfold ask; destruct (readyClient s); [by apply idle_step_0|apply spends_end]).
  assert (Hsem : forall op, spends 0 s (semantic call op s))
    by (intros op; unfold semantic; destruct (readyClient s); [by apply idle_step_0|apply spends_end]).
  unfold callStep. destruct (map_get call _) as [[t op|t op e|op l|l|t o]|]; [| | | | |by apply spends_same].
  - destruct outcome; [by apply idle_step_0|apply spends_end].
  - unfold semanticFailed. destruct (_ || _ || _); [apply spends_end|]. destruct (sv_connecting s); [by apply idle_step_0|apply spends_end].
  - destruct (map_get l _) as [[]|]; try by apply spends_same. destruct result; [apply Hsem|apply spends_end].
  - destruct (map_get l _) as [[]|]; try by apply spends_same. apply Hask.
  - destruct outcome; [apply spends_end|]. apply spends_after; [|intros; apply spends_end]. apply idle_quiet. intros s1. by case_match.
Qed.

Lemma spends_step e s : spends (if is_ask e then Z.of_nat max + 1 else 0) s (step known max e s).
Proof.
  destruct e; cbn [is_ask step].
  - apply spends_open.
  - apply spends_retry.
  - apply spends_recover.
  - unfold subscribeSnapshot. destruct (decide _); [by apply spends_same|]. apply spends_after; [by apply idle_quiet|].
    intros s1 _ _ _ _ _. apply spends_after; [by apply idle_say|]. intros s2 _ _ _ _ _.
    destruct (sv_active s2), (sv_phase s2); try by apply spends_same. destruct (client_version _ _); [|by apply spends_same].
    apply spends_idle, idle_bind.
  - unfold unsubscribe. destruct (map_get id _) as [sub|]; [|by apply spends_same]. apply idle_step_0; try done. by destruct (sb_stop sub).
  - unfold close. destruct (decide _); [by apply spends_same|]. apply spends_idle. apply idle_andThen; [by apply idle_quiet|].
    apply idle_andThen; [apply idle_dispose|by apply idle_quiet].
  - unfold newCall, semantic. destruct (readyClient _); [by apply idle_step_0|]. by apply idle_step_0.
  - unfold newCall, query, ask. destruct (sv_connecting _); [by apply idle_step_0|]. destruct (readyClient _); by apply idle_step_0.
  - unfold newCall, observe. destruct (readyClient _); by apply idle_step_0.
  - apply spends_loopStep.
  - apply spends_binding.
  - apply spends_value.
  - apply spends_status.
  - apply spends_upgraded.
  - apply spends_call.
Qed.

Lemma run_budget ok es s out :
  run known max ok es s out -> budget s <= budget (newSupervisor max) + (Z.of_nat max + 1) * (asks es + readies out).
Proof.
  induction 1 as [|es s out e _ IH _]; [change (asks []) with 0; change (readies []) with 0; lia|]. pose proof (spends_step e s) as H. unfold spends in H.
  rewrite asks_app, readies_app. assert (Ea : (if is_ask e then Z.of_nat max + 1 else 0) = (Z.of_nat max + 1) * asks [e]).
  { unfold asks. rewrite filter_cons, filter_nil. destruct (is_ask e); case_decide; try done; cbn; lia. }
  rewrite Ea in H. lia.
Qed.
End Budget.

(** C28: a failing service is restarted within a budget. However the clients fail, whenever their answers come and
    whatever else the page does meanwhile: a supervisor asked for a connection [asks es] times, which became ready
    [readies out] times, made at most [max + (max + 1) * (asks es + readies out + 1)] clients, the one more for the
    upgrade of the household, which is granted once. *)
Theorem restart_budget known max ok es s out :
  run known max ok es s out -> sv_nextToken s <= Z.of_nat max + (Z.of_nat max + 1) * (asks es + readies out + 1).
Proof.
  intros Hrun%run_budget. unfold budget in Hrun. cbn in Hrun. change (grants []) with 0 in Hrun. change (upgrading []) with 0 in Hrun.
  assert (0 <= grants (sv_loops s) /\ 0 <= upgrading (sv_upgrades s) /\ 0 <= may_upgrade (sv_options s)) as (? & ? & ?).
  { split; [unfold grants; lia|]. split; [unfold upgrading; lia|]. unfold may_upgrade. repeat case_match; lia. }
  assert (0 <= (Z.of_nat max + 1) * may_upgrade (sv_options s)) by nia. nia.
Qed.

(** ** Sending again *)

(** The clients a call was sent to, with the operation id, first to last. *)
Definition sends (call : Z) (out : list Output) : list (Z * string) :=
  omap (fun o => match o with OSend n token op => if n =? call then Some (token, op) else None | _ => None end) out.
Definition used (out : list Output) : list Z := omap (fun o => match o with OSend _ token _ => Some token | _ => None end) out.

Definition later (p q : Z * string) : Prop := p.1 < q.1 /\ p.2 = q.2.

Definition loop_token (state : LoopState) : option Z :=
  match state with LoopOpen t | LoopObserve t _ | LoopBind t _ _ => Some t | _ => None end.

(** A loop that is still at work. *)
Definition live (state : LoopState) : bool :=
  match state with LoopReturned _ | LoopDone _ | LoopSettled _ => false | _ => true end.
Definition opening (phase : Phase) : Prop := phase = Connecting \/ phase = Reconnecting \/ phase = Closed.
Definition is_upgrade (state : LoopState) : bool := match state with LoopUpgrade _ _ => true | _ => false end.

(** One loop at most is at work, and it is the one [#connecting] waits for; its client has been sent nothing. [ex] is a
    loop in the middle of a step. *)
Record sane (ex : option Z) (s : Supervisor) (out : list Output) : Prop := {
  sa_used t : t ∈ used out -> t <= sv_nextToken s;
  sa_active t : sv_active s = Some t -> t <= sv_nextToken s /\ forall u, u ∈ used out -> u <= t;
  sa_live l state : Some l <> ex -> map_get l (sv_loops s) = Some state -> live state = true ->
    sv_connecting s = Some l /\ sv_upgrades s = [] /\ opening (sv_phase s) /\
    forall t, loop_token state = Some t -> t <= sv_nextToken s /\ (t ∉ used out);
  sa_loops l : is_Some (map_get l (sv_loops s)) -> l <= sv_nextLoop s;
  sa_upgrades : sv_upgrades s = [] \/
    (exists u, sv_upgrades s = [u]) /\ sv_active s = None /\ (sv_phase s = Reconnecting \/ sv_phase s = Closed);
  sa_closed : sv_phase s = Closed -> sv_active s = None /\
    forall l state, Some l <> ex -> map_get l (sv_loops s) = Some state -> is_upgrade state = false;
  sa_sends n : StronglySorted later (sends n out);
  sa_fresh n : sv_nextCall s < n -> sends n out = [] /\ map_get n (sv_calls s) = None;
  sa_sent n t op : map_get n (sv_calls s) = Some (CallSent t op) -> last (sends n out) = Some (t, op);
  sa_failed n t op e : map_get n (sv_calls s) = Some (CallFailed t op e) -> last (sends n out) = Some (t, op);
  sa_waiting n op l : map_get n (sv_calls s) = Some (CallWaiting op l) ->
    exists t, last (sends n out) = Some (t, op) /\ (sv_active s = Some t -> sv_phase s <> Ready);
}.

(** Outputs that send no call. *)
Definition unsent (out : list Output) : Prop := used out = [] /\ forall n, sends n out = [].

Lemma unsent_fmap {T} (f : T -> Output) l : (forall x, match f x with OSend _ _ _ => False | _ => True end) -> unsent (f <$> l).
Proof.
  intros Hf. unfold unsent, used, sends. split; [|intros n]; (induction l as [|x l IH]; [done|]; rewrite fmap_cons; cbn;
    specialize (Hf x); by destruct (f x)).
Qed.

Lemma unsent_app out out' : unsent out -> unsent out' -> unsent (out ++ out').
Proof.
  intros [H1 H2] [H3 H4]. unfold unsent, used, sends in *. split; [by rewrite omap_app, H1, H3|]. intros n. by rewrite omap_app, H2, H4.
Qed.

Lemma sends_app n out out' : sends n (out ++ out') = sends n out ++ sends n out'.
Proof. apply omap_app. Qed.
Lemma used_app out out' : used (out ++ out') = used out ++ used out'.
Proof. apply omap_app. Qed.

Lemma sends_used n t op out : last (sends n out) = Some (t, op) -> t ∈ used out.
Proof.
  intros (k & Hk)%last_Some. assert ((t, op) ∈ sends n out) as Hin by (rewrite Hk; apply elem_of_app; right; by left).
  apply list_elem_of_omap in Hin as (o & Ho & Eo). apply list_elem_of_omap. exists o. split; [done|]. destruct o; try done.
  destruct (_ =? _); [|done]. congruence.
Qed.

(** No loop but [ex] is at work. *)
Definition nolive (ex : option Z) (s : Supervisor) : Prop :=
  forall l state, Some l <> ex -> map_get l (sv_loops s) = Some state -> live state = false.

Lemma nolive_phase ex s out : sane ex s out -> ~ opening (sv_phase s) -> nolive ex s.
Proof. intros Hs Hp l state Hex Hl. destruct (live state) eqn:E; [|done]. by destruct (sa_live _ _ _ Hs l state Hex Hl E) as (_ & _ & ? & _). Qed.
Lemma nolive_connecting ex s out : sane ex s out -> sv_connecting s = None -> nolive ex s.
Proof. intros Hs Hp l state Hex Hl. destruct (live state) eqn:E; [|done]. destruct (sa_live _ _ _ Hs l state Hex Hl E) as (? & _). congruence. Qed.
Lemma nolive_upgrades ex s out : sane ex s out -> sv_upgrades s <> [] -> nolive ex s.
Proof. intros Hs Hp l state Hex Hl. destruct (live state) eqn:E; [|done]. by destruct (sa_live _ _ _ Hs l state Hex Hl E) as (_ & ? & _). Qed.
Lemma nolive_other s out l state : sane None s out -> map_get l (sv_loops s) = Some state -> live state = true -> nolive (Some l) s.
Proof.
  intros Hs Hl Hlive l' state' Hex Hl'. destruct (live state') eqn:E; [|done].
  destruct (sa_live _ _ _ Hs l' state' ltac:(done) Hl' E) as (? & _), (sa_live _ _ _ Hs l state ltac:(done) Hl Hlive) as (? & _). congruence.
Qed.

Lemma sane_weaken l s out : sane None s out -> sane (Some l) s out.
Proof.
  intros []. split; auto. intros Hc. destruct (sa_closed0 Hc) as [? Hu]. split; [done|]. intros l' st _. by apply Hu.
Qed.

(** Phases a step may move to without asking who is at work. *)
Lemma sane_frame ex s s' out out' :
  sane ex s out -> unsent out' -> sv_nextToken s' = sv_nextToken s -> sv_loops s' = sv_loops s -> sv_nextLoop s' = sv_nextLoop s ->
  sv_nextCall s' = sv_nextCall s -> sv_calls s' = sv_calls s -> sv_connecting s' = sv_connecting s -> sv_upgrades s' = sv_upgrades s ->
  (sv_active s' = sv_active s \/ sv_active s' = None) ->
  (sv_phase s' = sv_phase s \/ sv_phase s' = Reconnecting \/ (sv_phase s' = Broken /\ nolive ex s /\ sv_upgrades s = [])) ->
  sane ex s' (out ++ out').
Proof.
  intros Hs [Hu Hn] E1 E2 E3 E4 E5 E6 E7 Ha Hp. pose proof Hs as [].
  assert (Hact : forall t, sv_active s' = Some t -> sv_active s = Some t) by (intros t Ht; destruct Ha; congruence).
  assert (Hph : forall t, (sv_active s = Some t -> sv_phase s <> Ready) -> sv_active s' = Some t -> sv_phase s' <> Ready).
  { intros t H Ht%Hact. specialize (H Ht). destruct Hp as [|[|[]]]; congruence. }
  assert (Eu : used (out ++ out') = used out) by (rewrite used_app, Hu; apply app_nil_r).
  assert (Es : forall n, sends n (out ++ out') = sends n out) by (intros n; rewrite sends_app, Hn; apply app_nil_r).
  split; rewrite ?Eu, ?E1, ?E2, ?E3, ?E4, ?E5, ?E6, ?E7; try setoid_rewrite Es; auto.
  - intros l state Hex Hl Hlive. destruct (sa_live0 l state Hex Hl Hlive) as (? & ? & Ho & ?). split_and!; auto.
    destruct Hp as [->|[->|(_ & Hno & _)]]; [done|right; by left|]. by rewrite (Hno l state Hex Hl) in Hlive.
  - destruct sa_upgrades0 as [?|(? & En & Hph')]; [by left|]. destruct Hp as [->|[->|(_ & _ & ?)]]; [right|right|by left];
      (split; [done|]; split; [destruct Ha; congruence|]; auto).
  - intros Hc. destruct Hp as [Ep|[Ep|(Ep & _)]]; [|congruence|congruence]. rewrite Ep in Hc. destruct (sa_closed0 Hc) as [En ?].
    split; [destruct Ha; congruence|done].
  - intros n op l Hc. destruct (sa_waiting0 n op l Hc) as (t & ? & ?). exists t. split; [done|by apply Hph].
Qed.

(** Work that keeps this. *)
Definition keeps (f : Act) : Prop := forall ex s out, sane ex s out -> sane ex (f s).1 (out ++ (f s).2).

Lemma sane_andThen ex ex' f g s out :
  sane ex (f s).1 (out ++ (f s).2) ->
  (forall out, sane ex (f s).1 out -> sane ex' (g (f s).1).1 (out ++ (g (f s).1).2)) ->
  sane ex' ((f >> g) s).1 (out ++ ((f >> g) s).2).
Proof.
  intros Hf Hg. unfold andThen. destruct (f s) as [s1 o1]. cbn [fst snd] in *. specialize (Hg _ Hf). destruct (g s1) as [s2 o2].
  cbn [fst snd] in *. by rewrite app_assoc.
Qed.

Lemma sane_then ex f g s out :
  sane ex (g (f s).1).1 ((out ++ (f s).2) ++ (g (f s).1).2) -> sane ex ((f >> g) s).1 (out ++ ((f >> g) s).2).
Proof. unfold andThen. destruct (f s) as [s1 o1]. cbn [fst snd]. destruct (g s1) as [s2 o2]. cbn [fst snd]. by rewrite app_assoc. Qed.

Lemma keeps_andThen f g : keeps f -> keeps g -> keeps (f >> g).
Proof. intros Hf Hg ex s out Hs. eapply sane_andThen; [by apply Hf|]. intros out' H. by apply Hg. Qed.

Lemma unsent_nil : unsent [].
Proof. done. Qed.
#[local] Hint Resolve unsent_nil : core.

Lemma keeps_dispose : keeps disposeActive.
Proof.
  intros ex s out Hs. unfold disposeActive. destruct (sv_active s) eqn:E; [|by rewrite app_nil_r].
  apply (sane_frame ex s); try done; [by right|by left].
Qed.
Lemma keeps_mark c e : keeps (markSubscriptions c e).
Proof. intros ex s out Hs. apply (sane_frame ex s); try done; [by apply unsent_fmap|by left|by left]. Qed.
Lemma keeps_markReady : keeps markSubscriptionsReady.
Proof. intros ex s out Hs. apply (sane_frame ex s); try done; [by apply unsent_fmap|by left|by left]. Qed.
Lemma keeps_publish token : keeps (publishStaged token).
Proof. intros ex s out Hs. apply (sane_frame ex s); try done; [by apply unsent_fmap|by left|by left]. Qed.
Lemma keeps_emit status : keeps (emitStatus status).
Proof. intros ex s out Hs. apply (sane_frame ex s); try done; by left. Qed.
Lemma keeps_say out' : unsent out' -> keeps (say out').
Proof. intros Ho ex s out Hs. apply (sane_frame ex s); try done; by left. Qed.

(** Two states that differ in nothing this is about. *)
Definition alike (s s' : Supervisor) : Prop :=
  sv_nextToken s' = sv_nextToken s /\ sv_loops s' = sv_loops s /\ sv_nextLoop s' = sv_nextLoop s /\
  sv_nextCall s' = sv_nextCall s /\ sv_calls s' = sv_calls s /\ sv_connecting s' = sv_connecting s /\
  sv_upgrades s' = sv_upgrades s /\ sv_active s' = sv_active s /\ sv_phase s' = sv_phase s.

Lemma sane_alike ex s s' out out' : sane ex s out -> unsent out' -> alike s s' -> sane ex s' (out ++ out').
Proof. intros Hs Ho (? & ? & ? & ? & ? & ? & ? & ? & ?). apply (sane_frame ex s); try done; by left. Qed.

Lemma keeps_quiet f : (forall s, alike s (f s)) -> keeps (quietly f).
Proof. intros Hf ex s out Hs. by apply (sane_alike ex s). Qed.
Lemma keeps_bind token loop id : keeps (bindSubscription token loop id).
Proof.
  intros ex s out Hs. unfold bindSubscription. destruct (map_get id _) as [sub|]; [|by rewrite app_nil_r].
  apply (sane_alike ex s); try done. by destruct (sb_stop sub).
Qed.
Lemma keeps_bindAll token loop ids : keeps (bindAll token loop ids).
Proof. induction ids as [|id ids IH]; [by apply keeps_quiet|]. apply keeps_andThen; [apply keeps_bind|done]. Qed.
Lemma keeps_reconnecting : keeps reconnecting.
Proof.
  intros ex s. unfold reconnecting. apply (keeps_andThen (quietly _)).
  - intros ex' s' out Hs. apply (sane_frame ex' s'); try done; [by left|right; by left].
  - apply keeps_andThen; [apply keeps_mark|]. intros ex' s'. apply keeps_emit.
Qed.
Lemma sane_setFailed ex s out failure :
  sane ex s out -> nolive ex s -> sv_upgrades s = [] -> sane ex (setFailed failure s).1 (out ++ (setFailed failure s).2).
Proof.
  intros Hs Hno Hu. unfold setFailed. destruct (decide _); [by rewrite app_nil_r|].
  eapply sane_andThen; [apply (sane_frame ex s); try done; [by left|right; by right]|]. intros out' Hs'.
  apply (keeps_andThen (say _)); [by apply keeps_say| |done].
  apply keeps_andThen; [apply keeps_dispose|]. apply keeps_andThen; [apply keeps_mark|apply keeps_emit].
Qed.

(** A loop moves on, or ends. *)
Lemma sane_put_loop ex l state s out :
  sane ex s out -> is_Some (map_get l (sv_loops s)) ->
  (live state = false \/
   (sv_phase s <> Closed \/ is_upgrade state = false) /\
   exists old, map_get l (sv_loops s) = Some old /\ live old = true /\ (loop_token state = None \/ loop_token state = loop_token old)) ->
  sane ex (put_loop l state s) out.
Proof.
  intros [] Hin Hst. split; cbn; auto.
  - intros l' st Hex Hl Hlive. rewrite map_get_set in Hl. case_decide as E; [|by apply sa_live0]. injection Hl as <-. subst l'.
    destruct Hst as [Hd|(_ & old & Hold & Hol & Ht)]; [congruence|]. destruct (sa_live0 l old Hex Hold Hol) as (? & ? & ? & Htok).
    split_and!; [done..|]. intros t Et. apply Htok. destruct Ht; congruence.
  - intros l' Hl. apply sa_loops0. rewrite map_get_set in Hl. case_decide; [by subst|done].
  - intros Hc. destruct (sa_closed0 Hc) as [? Hup]. split; [done|]. intros l' st Hex Hl. rewrite map_get_set in Hl.
    case_decide; [|by apply (Hup l' st)]. injection Hl as <-. destruct Hst as [Hd|([?|?] & _)]; [by destruct state|done|done].
Qed.

(** The loop in the middle of a step may be anything; at its end it is as the others. *)
Lemma sane_put_ex l state s out : sane (Some l) s out -> l <= sv_nextLoop s -> sane (Some l) (put_loop l state s) out.
Proof.
  intros [] Hln. split; cbn; auto.
  - intros l' st Hex Hl Hlive. rewrite map_get_set_ne in Hl by congruence. by apply sa_live0.
  - intros l' [st Hl]. rewrite map_get_set in Hl. case_decide; [by subst|]. apply sa_loops0. eauto.
  - intros Hc. destruct (sa_closed0 Hc) as [? Hu]. split; [done|]. intros l' st Hex Hl. rewrite map_get_set_ne in Hl by congruence. eauto.
Qed.

Definition at_rest (l : Z) (state : LoopState) (s : Supervisor) (out : list Output) : Prop :=
  (live state = true -> sv_connecting s = Some l /\ sv_upgrades s = [] /\ opening (sv_phase s) /\
     forall t, loop_token state = Some t -> t <= sv_nextToken s /\ (t ∉ used out)) /\
  (is_upgrade state = true -> sv_phase s <> Closed).

Lemma sane_unex l state s out :
  sane (Some l) s out -> map_get l (sv_loops s) = Some state -> at_rest l state s out -> sane None s out.
Proof.
  intros [] Hl [Hst Hup]. split; auto.
  - intros l' st _ Hl' Hlive. destruct (decide (l' = l)) as [->|]; [|apply sa_live0; congruence].
    rewrite Hl in Hl'. injection Hl' as <-. by apply Hst.
  - intros Hc. destruct (sa_closed0 Hc) as [? Hu]. split; [done|]. intros l' st _ Hl'.
    destruct (decide (l' = l)) as [->|]; [|apply (Hu l'); congruence]. rewrite Hl in Hl'. injection Hl' as <-.
    destruct (is_upgrade state); [|done]. by destruct (Hup eq_refl).
Qed.

Lemma sane_rest l state s out :
  sane (Some l) s out -> l <= sv_nextLoop s -> at_rest l state s out -> sane None (put_loop l state s) out.
Proof. intros Hs Hl Hr. eapply sane_unex; [by apply sane_put_ex|apply map_get_set_eq|done]. Qed.

Lemma sane_phase ex s out p :
  sane ex s out -> nolive ex s -> sv_upgrades s = [] -> p <> Closed -> p <> Ready -> sane ex (put_phase p s) out.
Proof.
  intros [] Hno Hu Hc Hr. split; cbn; auto; try done.
  - intros l st Hex Hl Hlive. by rewrite (Hno l st Hex Hl) in Hlive.
  - intros n op l Hw. destruct (sa_waiting0 n op l Hw) as (t & ? & _). eauto.
Qed.

Lemma sane_connecting l s out x : sane (Some l) s out -> nolive (Some l) s -> sane (Some l) (put_connecting x s) out.
Proof. intros [] Hno. split; cbn; auto. intros l' st Hex Hl Hlive. by rewrite (Hno l' st Hex Hl) in Hlive. Qed.

Lemma unsent_two t o : unsent [OCreate t; OOpen t o].
Proof. done. Qed.

(** A new client, which nothing was sent to. *)
Lemma sane_connectOnce l made s out :
  sane (Some l) s out -> l <= sv_nextLoop s -> sv_phase s <> Closed -> sv_upgrades s = [] ->
  let o := connectOnce l made s in
  sane (Some l) o.1 (out ++ o.2) /\ sv_connecting o.1 = sv_connecting s /\ sv_upgrades o.1 = sv_upgrades s /\
  sv_phase o.1 = sv_phase s /\ unsent o.2 /\
  exists state, map_get l (sv_loops o.1) = Some state /\ is_upgrade state = false /\
    forall t, loop_token state = Some t -> t <= sv_nextToken o.1 /\ (t ∉ used (out ++ o.2)).
Proof.
  intros Hs Hln Hc Hu. unfold connectOnce. destruct made as [e|]; cbn zeta.
  - cbn [fst snd]. rewrite app_nil_r. split; [by apply sane_put_ex|]. split_and!; try done. exists (LoopThrown e).
    split; [apply map_get_set_eq|done].
  - cbn [fst snd]. set (t := sv_nextToken s + 1).
    assert (Eu : used (out ++ [OCreate t; OOpen t (sv_options s)]) = used out) by (rewrite used_app; apply app_nil_r).
    assert (Es : forall n, sends n (out ++ [OCreate t; OOpen t (sv_options s)]) = sends n out) by (intros n; rewrite sends_app; apply app_nil_r).
    pose proof (sane_put_ex l (LoopOpen t) s out Hs Hln) as []. destruct Hs as [Hused Hact _ _ _ _ _ _ _ _ _].
    split; [|split_and!; try done; exists (LoopOpen t); split; [apply map_get_set_eq|split; [done|]]].
    + split; rewrite ?Eu; try setoid_rewrite Es; cbn in *; auto; try done.
      * intros u Hin. specialize (Hused u Hin). lia.
      * intros u [= <-]. split; [lia|]. intros v Hv. specialize (Hused v Hv). lia.
      * intros l' st Hex Hl Hlive. destruct (sa_live0 l' st Hex Hl Hlive) as (? & ? & ? & Ht). split_and!; auto.
        intros u Eu'. destruct (Ht u Eu'). split; [lia|done].
      * intros n op l' Hw. destruct (sa_waiting0 n op l' Hw) as (u & Hlast & _). exists u. split; [done|]. intros [= <-].
        exfalso. specialize (Hused t (sends_used _ _ _ _ Hlast)). lia.
    + intros u [= <-]. cbn. split; [lia|]. rewrite Eu. intros Hin. specialize (Hused _ Hin). lia.
Qed.

Lemma known_alike known s : alike s (openKnownProfileHousehold known s).1 /\ unsent (openKnownProfileHousehold known s).2.
Proof. unfold openKnownProfileHousehold. destruct (sv_options s) as [o|]; [|done]. by destruct (_ && _). Qed.

Lemma nolive_loops ex s s' : sv_loops s' = sv_loops s -> nolive ex s -> nolive ex s'.
Proof. intros E Hno l st. rewrite E. apply Hno. Qed.

Lemma sane_begin known again made s out :
  sane None s out -> nolive None s -> sv_upgrades s = [] -> sv_phase s <> Closed ->
  sane None (beginConnection known again made s).1 (out ++ (beginConnection known again made s).2).
Proof.
  intros Hs Hno Hu Hc. unfold beginConnection. set (loop := sv_nextLoop s + 1). set (s1 := put_nextLoop loop s).
  assert (Hno1 : nolive (Some loop) s1) by (intros l st _; by apply Hno).
  assert (Hs1 : sane (Some loop) s1 (out ++ [])).
  { rewrite app_nil_r. apply (sane_weaken loop) in Hs. destruct Hs. split; cbn; auto. intros l Hl. specialize (sa_loops0 l Hl). lia. }
  apply sane_then. cbn [quietly fst snd]. fold s1. rewrite app_nil_r in *.
  set (f := if again then reconnecting else quietly (put_phase Connecting)).
  assert (Hf : sane (Some loop) (f s1).1 (out ++ (f s1).2) /\ sv_loops (f s1).1 = sv_loops s /\ sv_upgrades (f s1).1 = [] /\
    sv_nextLoop (f s1).1 = loop /\ opening (sv_phase (f s1).1) /\ sv_phase (f s1).1 <> Closed).
  { unfold f. destruct again; (split; [|split_and!; try done; unfold opening; cbn; auto]); [by apply keeps_reconnecting|].
    cbn. rewrite app_nil_r. by apply sane_phase. }
  destruct Hf as (Hs2 & El2 & Eu2 & En2 & Ho2 & Hc2). apply sane_then.
  destruct (known_alike known (f s1).1) as [Hk Hkout]. apply (sane_alike _ _ _ _ _ Hs2 Hkout) in Hk as Hs3. apply sane_then.
  set (s3 := (openKnownProfileHousehold known (f s1).1).1) in *. destruct Hk as (K1 & K2 & K3 & _ & _ & _ & K7 & _ & K9).
  destruct (sane_connectOnce loop made s3 _ Hs3) as (Hs4 & _ & Eu4 & Ep4 & _ & st & Hst & Hup & Htok); [by rewrite K3, En2|congruence|congruence|].
  assert (Hno4 : nolive (Some loop) (connectOnce loop made s3).1).
  { intros l st' Hex Hl. apply (Hno1 l st' Hex). unfold connectOnce in Hl. destruct made; cbn in Hl; rewrite map_get_set_ne in Hl by congruence;
      cbn; by rewrite <- El2, <- K2. }
  apply sane_then. apply sane_then. cbn [quietly say fst snd]. rewrite app_nil_r.
  apply (keeps_say [OPending loop]); [done|]. apply (sane_unex loop st); [by apply sane_connecting|done|]. split; [|by rewrite Hup].
  intros _. split_and!; [done|cbn; congruence|cbn; by rewrite Ep4, K9|exact Htok].
Qed.

Lemma sane_advance l old state s out :
  sane None s out -> map_get l (sv_loops s) = Some old -> live old = true ->
  (loop_token state = None \/ loop_token state = loop_token old) -> is_upgrade state = false -> sane None (put_loop l state s) out.
Proof. intros Hs Hl Hlive Ht Hu. apply sane_put_loop; [done|by eexists|]. right. split; [by right|]. by exists old. Qed.

(** The client of a loop has become ready. *)
Lemma sane_ready l s out token :
  sane (Some l) s out -> nolive (Some l) s -> sv_upgrades s = [] -> sv_active s = Some token -> (token ∉ used out) ->
  sane (Some l) (put_phase Ready s) out.
Proof.
  intros [] Hno Hu Ha Hn. split; cbn; auto; try done.
  - intros l' st Hex Hl Hlive. by rewrite (Hno l' st Hex Hl) in Hlive.
  - intros n op l' Hw. destruct (sa_waiting0 n op l' Hw) as (t & Hlast & _). exists t. split; [done|]. intros Ht. exfalso. apply Hn.
    assert (t = token) as <- by congruence. by apply (sends_used _ _ _ _ Hlast).
Qed.

Lemma alike_trans s1 s2 s3 : alike s1 s2 -> alike s2 s3 -> alike s1 s3.
Proof. intros (? & ? & ? & ? & ? & ? & ? & ? & ?) (? & ? & ? & ? & ? & ? & ? & ? & ?). split_and!; congruence. Qed.

Lemma alike_bindAll token loop ids s : alike s (bindAll token loop ids s).1.
Proof.
  revert s. induction ids as [|id ids IH]; intros s; [done|]. cbn [bindAll]. unfold andThen.
  assert (Hb : alike s (bindSubscription token (loop id) id s).1) by (unfold bindSubscription; by destruct (map_get id _)).
  destruct (bindSubscription token (loop id) id s) as [s1 o1]. specialize (IH s1). destruct (bindAll token loop ids s1) as [s2 o2].
  by eapply alike_trans.
Qed.

Lemma sane_observeNext l old token index version s out :
  sane None s out -> map_get l (sv_loops s) = Some old -> live old = true -> loop_token old = Some token ->
  sane None (observeNext l token index version s).1 (out ++ (observeNext l token index version s).2).
Proof.
  intros Hs Hl Hlive Ht. unfold observeNext. destruct (map_values _ !! index).
  - apply (keeps_say [_]); [done|]. by eapply sane_advance; [done|done|done|right|].
  - unfold bindCurrent. apply sane_then. set (g := bindAll _ _ _). pose proof (keeps_bindAll token
      (fun id => if is_required s id then Some l else None) (unbound token s) None s out Hs) as Hb. fold g in Hb.
    cbn [quietly fst snd]. rewrite app_nil_r. eapply (sane_advance l old); [exact Hb| |done|by right|done].
    unfold g. destruct (alike_bindAll token (fun id => if is_required s id then Some l else None) (unbound token s) s) as (_ & -> & _). done.
Qed.

Lemma sane_unless l old token k s out :
  sane None s out -> map_get l (sv_loops s) = Some old -> live old = true ->
  (sv_active s = Some token -> sane None (k s).1 (out ++ (k s).2)) ->
  sane None (unless_stopped l token k s).1 (out ++ (unless_stopped l token k s).2).
Proof.
  intros Hs Hl Hlive Hk. unfold unless_stopped. destruct (stopped token s) eqn:E.
  - rewrite app_nil_r. by eapply sane_advance; [done|done|done|left|].
  - apply Hk. unfold stopped in E. by case_bool_decide.
Qed.

Lemma sane_becomeReady max l token version s out :
  sane None s out -> map_get l (sv_loops s) = Some (LoopBind token version []) -> sv_active s = Some token ->
  sane None (becomeReady max l token version s).1 (out ++ (becomeReady max l token version s).2).
Proof.
  intros Hs Hl Ha. destruct (sa_live _ _ _ Hs l _ ltac:(done) Hl eq_refl) as (_ & Hu & _ & Ht). destruct (Ht token eq_refl) as [_ Hn].
  pose proof (nolive_other _ _ _ _ Hs Hl eq_refl) as Hno. assert (Hln : l <= sv_nextLoop s) by (apply (sa_loops _ _ _ Hs); by eexists).
  unfold becomeReady. set (v := default version _). apply sane_then. cbn [quietly fst snd].
  set (s1 := put_left max _). assert (Hs1 : sane (Some l) s1 out).
  { rewrite <- (app_nil_r out). apply (sane_alike _ (put_phase Ready s)); [|done|done]. apply (sane_ready l s out token); try done. by apply sane_weaken. }
  rewrite app_nil_r. apply sane_then. apply (keeps_publish token) in Hs1 as Hs2. set (s2 := (publishStaged token s1).1) in *.
  apply sane_then. cbn [say fst snd]. apply (keeps_say [OMark "supervisor ready"]) in Hs2 as Hs3; [|done]. cbn [say fst snd] in Hs3.
  apply sane_then. apply (keeps_emit (IsReady v)) in Hs3 as Hs4. set (s4 := (emitStatus (IsReady v) s2).1) in *.
  apply sane_then. apply (keeps_bindAll token (fun _ => None) (unbound token s4)) in Hs4 as Hs5. cbn [quietly fst snd]. rewrite app_nil_r.
  apply sane_rest; [exact Hs5| |done]. by destruct (alike_bindAll token (fun _ => None) (unbound token s4) s4) as (_ & _ & -> & _).
Qed.

Lemma setFailed_nextLoop failure s : sv_nextLoop (setFailed failure s).1 = sv_nextLoop s.
Proof.
  unfold setFailed. destruct (decide _); [done|]. unfold andThen, quietly, say, disposeActive. cbn. by destruct (sv_active s).
Qed.

Lemma sane_loopUpgraded l failure enabled made s out :
  sane None s out -> map_get l (sv_loops s) = Some (LoopUpgrade failure enabled) ->
  sane None (loopUpgraded l failure enabled made s).1 (out ++ (loopUpgraded l failure enabled made s).2).
Proof.
  intros Hs Hl. destruct (sa_live _ _ _ Hs l _ ltac:(done) Hl eq_refl) as (Ec & Hu & Ho & _).
  pose proof (nolive_other _ _ _ _ Hs Hl eq_refl) as Hno. assert (Hln : l <= sv_nextLoop s) by (apply (sa_loops _ _ _ Hs); by eexists).
  assert (Hc : sv_phase s <> Closed). { intros Hc. destruct (sa_closed _ _ _ Hs Hc) as [_ Hup]. by apply Hup in Hl. }
  assert (Hcon : forall s1 out1, sane (Some l) s1 out1 -> sv_nextLoop s1 = sv_nextLoop s -> sv_phase s1 <> Closed -> opening (sv_phase s1) ->
    sv_upgrades s1 = [] -> sv_connecting s1 = Some l -> sane None (connectOnce l made s1).1 (out1 ++ (connectOnce l made s1).2)).
  { intros s1 out1 Hs1 En Hc1 Ho1 Hu1 Ec1.
    destruct (sane_connectOnce l made s1 out1 Hs1) as (Hs2 & E2 & Eu2 & Ep2 & _ & st & Hst & Hup & Htok); [by rewrite En|done|done|].
    apply (sane_unex l st); [done|done|]. split; [|by rewrite Hup]. intros _. split_and!; [congruence|congruence|by rewrite Ep2|done]. }
  apply (sane_weaken l) in Hs. unfold loopUpgraded. destruct enabled; [by apply Hcon|]. destruct (_ || _).
  - apply sane_then. cbn [quietly fst snd]. rewrite app_nil_r. apply sane_rest; [by apply sane_setFailed| |done].
    by rewrite setFailed_nextLoop.
  - apply sane_then. apply sane_then. apply sane_then. cbn [quietly say fst snd]. rewrite app_nil_r.
    set (s1 := put_left _ s). apply Hcon; try done; [|right; by left]. apply keeps_reconnecting.
    apply (keeps_say [_]); [done|]. rewrite <- (app_nil_r out). by apply (sane_alike _ s).
Qed.

Lemma sane_loopStep max l outcome made s out :
  sane None s out -> sane None (loopStep max l outcome made s).1 (out ++ (loopStep max l outcome made s).2).
Proof.
  intros Hs. assert (Hsame : sane None s (out ++ [])) by (by rewrite app_nil_r).
  unfold loopStep. destruct (map_get l (sv_loops s)) as [st|] eqn:Hl; [|done].
  assert (Hthrow : live st = true -> forall e, sane None (put_loop l (LoopThrown e) s) (out ++ [])).
  { intros Hlive e. rewrite app_nil_r. by eapply sane_advance; [done|done|done|left|]. }
  destruct st as [t|t i|t v [|x w]|e|v|f en|r|r]; try done.
  - destruct outcome as [v|e]; [|by apply Hthrow]. unfold loopOpened. apply sane_then. cbn [quietly fst snd]. rewrite app_nil_r.
    eapply sane_unless; [rewrite <- (app_nil_r out); by apply (sane_alike _ s)|exact Hl|done|]. intros _.
    eapply sane_observeNext; [rewrite <- (app_nil_r out); by apply (sane_alike _ s)|exact Hl|done|done].
  - destruct outcome as [v|e]; [|by apply Hthrow]. unfold loopObserved. apply sane_then. cbn [quietly fst snd]. rewrite app_nil_r.
    eapply sane_unless; [rewrite <- (app_nil_r out); by apply (sane_alike _ s)|exact Hl|done|]. intros _.
    eapply sane_observeNext; [rewrite <- (app_nil_r out); by apply (sane_alike _ s)|exact Hl|done|done].
  - unfold loopBound. eapply sane_unless; [done|exact Hl|done|]. intros Ha. by apply sane_becomeReady.
  - unfold loopThrown. apply sane_then. apply keeps_dispose in Hs as Hd. set (s1 := (disposeActive s).1) in *.
    assert (El : sv_loops s1 = sv_loops s) by (unfold s1, disposeActive; by destruct (sv_active s)).
    destruct (decide _) as [Hc|Hc].
    + cbn [fst snd]. rewrite app_nil_r. apply sane_put_loop; [done|rewrite El; by eexists|by left].
    + unfold bootstrapProfileHousehold. destruct (canBootstrapProfileHousehold _ s1), (sv_options s1); cbn [fst snd];
        (apply (keeps_say _); [done|]; apply sane_put_loop; [rewrite <- (app_nil_r (out ++ _)); by apply (sane_alike _ s1)|cbn; rewrite El; by eexists|];
         right; split; [by left|]; exists (LoopThrown e); cbn; rewrite El; auto).
  - unfold loopReturned. apply sane_then. cbn [quietly fst snd]. rewrite app_nil_r.
    assert (Hd : sane None (put_loop l (LoopDone (inl v)) s) out) by (apply sane_put_loop; [done|by eexists|by left]).
    destruct (sv_confirm s); [|by apply (keeps_quiet id)]. apply keeps_andThen; [by apply keeps_quiet| |done].
    apply keeps_say. by destruct (sv_options s).
  - by apply sane_loopUpgraded.
  - unfold loopDone. cbn [fst snd]. rewrite app_nil_r. apply sane_put_loop; [|case_bool_decide; by eexists|by left].
    case_bool_decide as E; [|done]. apply (sane_unex l (LoopDone r)); [|done|done]. apply sane_connecting; [by apply sane_weaken|].
    intros l' st' Hex Hl'. destruct (live st') eqn:E'; [|done]. destruct (sa_live _ _ _ Hs l' st' ltac:(done) Hl' E') as (? & _). congruence.
Qed.

Lemma sane_drop l token id st s out :
  sane None s out -> map_get l (sv_loops s) = Some st -> sane None (put_loop l (drop_waiting token id st) s) out.
Proof.
  intros Hs Hl. assert (Hd : live (drop_waiting token id st) = live st /\ loop_token (drop_waiting token id st) = loop_token st /\
    is_upgrade (drop_waiting token id st) = is_upgrade st).
  { destruct st; try done. cbn. by destruct (_ =? _). }
  destruct Hd as (E1 & E2 & E3). apply sane_put_loop; [done|by eexists|]. rewrite E1, E2, E3. destruct (live st) eqn:El; [|by left].
  right. split; [|exists st; auto]. destruct (decide (sv_phase s = Closed)) as [Hc|]; [right|by left].
  destruct (sa_closed _ _ _ Hs Hc) as [_ Hu]. by apply (Hu l).
Qed.

Lemma sane_bindingFailed token id loop e s out :
  sane None s out -> sane None (bindingFailed token id loop e s).1 (out ++ (bindingFailed token id loop e s).2).
Proof.
  intros Hs. unfold bindingFailed. assert (Hsame : sane None s (out ++ [])) by (by rewrite app_nil_r). destruct loop as [l|].
  - destruct (map_get l _) as [st|] eqn:Hl; [|done]. destruct (awaits token st) eqn:Ea; [|done]. rewrite app_nil_r.
    eapply sane_advance; [done|exact Hl| |by left|done]. by destruct st.
  - destruct (map_get id _); [|done]. destruct (bool_decide _); [|done]. by apply (sane_alike _ s).
Qed.

Lemma sane_bindingBound token id loop s out :
  sane None s out -> sane None (bindingBound token id loop s).1 (out ++ (bindingBound token id loop s).2).
Proof.
  intros Hs. unfold bindingBound. assert (Hsame : sane None s (out ++ [])) by (by rewrite app_nil_r). destruct loop as [l|]; [|done].
  destruct (map_get l _) as [st|] eqn:Hl; [|done]. rewrite app_nil_r. by apply sane_drop.
Qed.

Lemma sane_binding token id outcome s out :
  sane None s out -> sane None (bindingSettled token id outcome s).1 (out ++ (bindingSettled token id outcome s).2).
Proof.
  intros Hs. unfold bindingSettled. destruct (map_get (token, id) _) as [loop|]; [|by rewrite app_nil_r].
  apply sane_then. cbn [quietly fst snd]. rewrite app_nil_r. set (s1 := put_bindings _ s).
  assert (Hs1 : sane None s1 out) by (rewrite <- (app_nil_r out); by apply (sane_alike _ s)). clearbody s1.
  destruct outcome as [e|]; [by apply sane_bindingFailed|].
  assert (Hstop : sane None s1 (out ++ [OStop token id])) by (by apply (sane_alike _ s1)).
  unfold bindingAnswered. destruct (map_get id _) as [sub|]; [|by apply sane_then, sane_bindingBound].
  destruct (bool_decide (sv_active s1 = _)); [|by apply sane_then, sane_bindingBound].
  destruct (bool_decide _); [|by apply sane_then, sane_bindingFailed].
  apply sane_then, sane_bindingBound. by apply (sane_alike _ s1).
Qed.

Lemma sane_value token id value version s out :
  sane None s out -> sane None (valueReceived token id value version s).1 (out ++ (valueReceived token id value version s).2).
Proof.
  intros Hs. unfold valueReceived. destruct (map_get id _) as [sub|]; [|by rewrite app_nil_r].
  destruct (_ && _); [|by rewrite app_nil_r]. destruct (sv_phase _); by apply (sane_alike _ s).
Qed.

(** An upgrade asked for while nothing is at work. *)
Lemma sane_upgrade u s out :
  sane None s out -> nolive None s -> sv_upgrades s = [] -> sv_active s = None -> sv_phase s = Reconnecting ->
  sane None (put_upgrades (sv_upgrades s ++ [u]) s) out.
Proof.
  intros [] Hno Hu Ha Hp. rewrite Hu. split; cbn; auto.
  - intros l st Hex Hl Hlive. by rewrite (Hno l st Hex Hl) in Hlive.
  - right. split; [by eexists|]. auto.
Qed.

(** What follows once the failed client of a ready connection is gone. *)
Lemma sane_failing known max f made s out :
  sane None s out -> nolive None s -> sv_upgrades s = [] -> sv_active s = None -> sv_phase s <> Closed ->
  forall o, o = (if canBootstrapProfileHousehold f s then
     (say [OMark "supervisor household bootstrap"] >> reconnecting >> (fun s =>
        let '(enabled, (s, out)) := bootstrapProfileHousehold max f s in
        (put_upgrades (sv_upgrades s ++ [(f, enabled)]) s, out))) s
   else if negb (fl_retryable f) || (sv_left s =? 0)%nat then setFailed f s
   else (quietly (fun s => put_left (pred (sv_left s)) s) >> say [OMark "supervisor restart"] >> beginConnection known true made) s) ->
  sane None o.1 (out ++ o.2).
Proof.
  intros Hs Hno Hu Ha Hc o ->. destruct (canBootstrapProfileHousehold f s).
  - apply sane_then, sane_then. cbn [say fst snd]. set (s1 := (reconnecting s).1).
    assert (Hs1 : sane None s1 ((out ++ [OMark "supervisor household bootstrap"]) ++ (reconnecting s).2))
      by (apply keeps_reconnecting; by apply keeps_say).
    assert (H1 : nolive None s1 /\ sv_upgrades s1 = [] /\ sv_active s1 = None /\ sv_phase s1 = Reconnecting) by done.
    clearbody s1. destruct H1 as (H1 & H2 & H3 & H4).
    unfold bootstrapProfileHousehold. destruct (canBootstrapProfileHousehold f s1), (sv_options s1); cbn [fst snd];
      (apply (keeps_say _); [done|]); apply sane_upgrade; try done;
      rewrite <- (app_nil_r (_ ++ _)); by apply (sane_alike _ s1).
  - destruct (_ || _); [by apply sane_setFailed|]. apply sane_then, sane_then. cbn [quietly say fst snd]. rewrite app_nil_r.
    apply sane_begin; try done. apply (keeps_say [_]); [done|]. rewrite <- (app_nil_r out). by apply (sane_alike _ s).
Qed.

Lemma dispose_fields s :
  sv_loops (disposeActive s).1 = sv_loops s /\ sv_upgrades (disposeActive s).1 = sv_upgrades s /\
  sv_phase (disposeActive s).1 = sv_phase s /\ sv_active (disposeActive s).1 = None.
Proof. unfold disposeActive. by destruct (sv_active s) eqn:E. Qed.

Lemma sane_status known max token status made s out :
  sane None s out -> sane None (receiveStatus known max token status made s).1 (out ++ (receiveStatus known max token status made s).2).
Proof.
  intros Hs. assert (Hsame : sane None s (out ++ [])) by (by rewrite app_nil_r).
  unfold receiveStatus. destruct (negb _) eqn:Ea; [done|]. apply negb_false_iff, bool_decide_eq_true in Ea.
  assert (Hemit : forall st, sane None (emitStatus st s).1 (out ++ (emitStatus st s).2)) by (intros; by apply keeps_emit).
  destruct status as [v|v|v r|m|f]; try apply Hemit.
  - destruct (match sv_phase s with Connecting | Reconnecting => true | _ => false end); [done|].
    apply keeps_andThen; [apply keeps_markReady|apply keeps_emit|done].
  - destruct (match sv_phase s with Connecting | Reconnecting => true | _ => false end); [done|].
    apply keeps_andThen; [apply keeps_mark|apply keeps_emit|done].
  - unfold statusFailed. apply sane_then. cbn [quietly fst snd]. set (s1 := put_client _ _ s). rewrite app_nil_r.
    assert (Hs1 : sane None s1 out) by (rewrite <- (app_nil_r out); by apply (sane_alike _ s)).
    change (sv_active s) with (sv_active s1) in Ea. clearbody s1. clear Hs Hsame Hemit s. rename s1 into s, Hs1 into Hs.
    assert (Hu : sv_upgrades s = []) by (destruct (sa_upgrades _ _ _ Hs) as [?|(_ & ? & _)]; [done|congruence]).
    assert (Hclosed : sv_phase s <> Closed) by (intros Hc; destruct (sa_closed _ _ _ Hs Hc); congruence).
    destruct (dispose_fields s) as (El & Eu & Ep & En). pose proof (keeps_dispose _ _ _ Hs) as Hd.
    destruct (sv_phase s) eqn:Eph; try (by rewrite app_nil_r); try done; apply sane_then; eapply sane_failing; try done;
      (apply (nolive_loops _ s); [done|]; apply (nolive_phase _ _ _ Hs); rewrite Eph; unfold opening; naive_solver) || congruence.
Qed.

Lemma sane_upgraded known made s out :
  sane None s out -> sane None (statusUpgraded known made s).1 (out ++ (statusUpgraded known made s).2).
Proof.
  intros Hs. unfold statusUpgraded. destruct (sv_upgrades s) as [|[f b] rest] eqn:E; [by rewrite app_nil_r|].
  assert (Hno : nolive None s) by (apply (nolive_upgrades _ _ _ Hs); by rewrite E).
  destruct (sa_upgrades _ _ _ Hs) as [?|([u Eu] & Ha & Hp)]; [congruence|]. rewrite E in Eu. injection Eu as _ ->.
  set (s1 := put_upgrades [] s). assert (Hs1 : sane None s1 out).
  { destruct Hs. split; cbn; auto. intros l st Hex Hl Hlive. by rewrite (Hno l st Hex Hl) in Hlive. }
  change (sv_phase s) with (sv_phase s1). assert (Hno1 : nolive None s1) by done. assert (Hu1 : sv_upgrades s1 = []) by done.
  clearbody s1. destruct (decide (sv_phase s1 = Closed)) as [Hc|Hc]; [by rewrite app_nil_r|].
  destruct b; [by apply sane_begin|by apply sane_setFailed].
Qed.

Lemma sane_open known options made s out :
  sane None s out -> sv_upgrades s = [] -> sane None (open known options made s).1 (out ++ (open known options made s).2).
Proof.
  intros Hs Hu. unfold open. destruct (decide _) as [|Hc]; [by apply keeps_say|]. case_match; [by apply keeps_say|].
  set (s1 := put_options _ s). assert (Hs1 : sane None s1 out) by (rewrite <- (app_nil_r out); by apply (sane_alike _ s)).
  change (sv_phase s) with (sv_phase s1) in Hc. assert (Hu1 : sv_upgrades s1 = []) by done. clearbody s1.
  assert (Hbegin : sv_connecting s1 = None -> forall again, sane None (beginConnection known again made s1).1 (out ++ (beginConnection known again made s1).2)).
  { intros Hn again. apply sane_begin; try done. by apply (nolive_connecting _ _ _ Hs1). }
  destruct (sv_phase s1), (sv_connecting s1); try (by apply Hbegin); apply (keeps_say _); try done; by repeat case_match.
Qed.

Lemma sane_retry known max made s out :
  sane None s out -> sv_upgrades s = [] -> sane None (retry known max made s).1 (out ++ (retry known max made s).2).
Proof.
  intros Hs Hu. unfold retry. destruct (decide _) as [|Hc]; [by apply keeps_say|]. destruct (sv_options s); [|by apply keeps_say].
  set (s1 := put_failure _ _). assert (Hs1 : sane None s1 out) by (rewrite <- (app_nil_r out); by apply (sane_alike _ s)).
  assert (Hbegin : sv_connecting s = None -> sane None (beginConnection known true made s1).1 (out ++ (beginConnection known true made s1).2)).
  { intros Hn. apply sane_begin; try done. by apply (nolive_connecting _ _ _ Hs). }
  destruct (sv_phase s), (sv_connecting s); try (by apply Hbegin); apply (keeps_say _); try done; by repeat case_match.
Qed.

Lemma sane_recover known made s out :
  sane None s out -> sane None (recoverSharedTransport known made s).1 (out ++ (recoverSharedTransport known made s).2).
Proof.
  intros Hs. unfold recoverSharedTransport. destruct (decide _) as [|Hc]; [by apply keeps_say|].
  destruct (sv_options s), (sv_connecting s); try by apply keeps_say.
  destruct (sv_phase s) eqn:Ep, (sv_active s) as [t|] eqn:Ea; try by apply keeps_say.
  assert (Hno : nolive None s) by (apply (nolive_phase _ _ _ Hs); rewrite Ep; unfold opening; naive_solver).
  assert (Hu : sv_upgrades s = []) by (destruct (sa_upgrades _ _ _ Hs) as [?|(_ & ? & _)]; [done|congruence]).
  destruct (_ =? _)%nat.
  - eapply sane_andThen; [by apply sane_setFailed|]. intros out' H. by apply keeps_say.
  - apply sane_then, sane_then, sane_then. cbn [quietly say fst snd]. rewrite app_nil_r. set (s1 := put_left _ s).
    assert (Hs1 : sane None s1 (out ++ [OMark "supervisor restart"])) by (by apply (sane_alike _ s)).
    destruct (dispose_fields s1) as (El & Eu & Eph & En). apply keeps_dispose in Hs1. apply sane_begin; try done.
    + by apply (nolive_loops _ s1).
    + by rewrite Eu.
    + rewrite Eph. cbn. congruence.
Qed.

Lemma sane_subscribe selection background s out :
  sane None s out -> sane None (subscribeSnapshot selection background s).1 (out ++ (subscribeSnapshot selection background s).2).
Proof.
  intros Hs. unfold subscribeSnapshot. destruct (decide _); [by apply keeps_say|]. cbn zeta.
  apply (keeps_andThen (quietly _)); [by apply keeps_quiet| |done]. apply keeps_andThen; [by apply keeps_say|].
  intros ex s1 out1 H1. destruct (sv_active s1), (sv_phase s1); try (by rewrite app_nil_r).
  destruct (client_version _ _); [by apply keeps_bind|by rewrite app_nil_r].
Qed.

Lemma sane_unsubscribe id s out : sane None s out -> sane None (unsubscribe id s).1 (out ++ (unsubscribe id s).2).
Proof.
  intros Hs. unfold unsubscribe. destruct (map_get id _) as [sub|]; [|by rewrite app_nil_r]. apply (sane_alike _ s); try done. by destruct (sb_stop sub).
Qed.

Lemma sane_close s out :
  sane None s out -> (forall loop failure enabled, map_get loop (sv_loops s) <> Some (LoopUpgrade failure enabled)) ->
  sane None (close s).1 (out ++ (close s).2).
Proof.
  intros Hs Hup. unfold close. destruct (decide _) as [|Hc]; [by rewrite app_nil_r|]. apply sane_then, sane_then. cbn [quietly fst snd]. rewrite !app_nil_r.
  unfold disposeActive. cbn [put_phase sv_active]. set (s1 := put_active None (put_phase Closed s)).
  assert (Hs1 : sane None s1 out).
  { destruct Hs. split; cbn; auto; try done.
    - intros l st Hex Hl Hlive. destruct (sa_live0 l st Hex Hl Hlive) as (? & ? & ? & ?). split_and!; try done. right. by right.
    - destruct sa_upgrades0 as [?|(? & ? & ?)]; [by left|right]. auto.
    - intros _. split; [done|]. intros l st _ Hl. destruct st; try done. by destruct (Hup l failure enabled).
    - intros n op l Hw. destruct (sa_waiting0 n op l Hw) as (t & ? & _). eauto. }
  destruct (sv_active s) as [t|] eqn:E; by apply (sane_alike _ s1).
Qed.

(** ** Calls of the page *)

(** What a call that waits was sent to before. *)
Definition call_at_rest (n : Z) (state : CallState) (s : Supervisor) (out : list Output) : Prop :=
  match state with
  | CallSent t op | CallFailed t op _ => last (sends n out) = Some (t, op)
  | CallWaiting op _ => exists t, last (sends n out) = Some (t, op) /\ (sv_active s = Some t -> sv_phase s <> Ready)
  | _ => True
  end.

Lemma sane_put_call n state s out :
  sane None s out -> n <= sv_nextCall s -> call_at_rest n state s out -> sane None (put_call n state s) out.
Proof.
  intros [] Hn Hr. split; cbn; auto.
  - intros m Hm. rewrite map_get_set_ne by lia. auto.
  - intros m t op. rewrite map_get_set. case_decide as Em; [subst m; intros [=]; by subst state|]. apply sa_sent0.
  - intros m t op e. rewrite map_get_set. case_decide as Em; [subst m; intros [=]; by subst state|]. apply sa_failed0.
  - intros m op l. rewrite map_get_set. case_decide as Em; [subst m; intros [=]; by subst state|]. apply sa_waiting0.
Qed.

Lemma sane_forget n s out : sane None s out -> sane None (put_calls (map_delete n (sv_calls s)) s) out.
Proof.
  intros []. split; cbn; auto.
  - intros m Hm. destruct (sa_fresh0 m Hm) as [? Hnone]. split; [done|]. rewrite map_get_delete. by case_decide.
  - intros m t op. rewrite map_get_delete. case_decide; [done|]. apply sa_sent0.
  - intros m t op e. rewrite map_get_delete. case_decide; [done|]. apply sa_failed0.
  - intros m op l. rewrite map_get_delete. case_decide; [done|]. apply sa_waiting0.
Qed.

Lemma sane_end n result s out : sane None s out -> sane None (end_call n result s).1 (out ++ (end_call n result s).2).
Proof. intros Hs%(sane_forget n). by apply keeps_say. Qed.

Lemma readyClient_ready s t : readyClient s = inl t -> sv_phase s = Ready /\ sv_active s = Some t.
Proof. unfold readyClient. destruct (decide _); [done|]. destruct (sv_phase s), (sv_active s); naive_solver. Qed.

Lemma later_snoc l p : StronglySorted later l -> (forall q, last l = Some q -> later q p) -> StronglySorted later (l ++ [p]).
Proof.
  induction l as [|x l IH]; intros Hs Hl; [by repeat constructor|]. apply StronglySorted_inv in Hs as [Hs Hx]. cbn. constructor.
  - apply IH; [done|]. intros q Hq. apply Hl. by rewrite last_cons, Hq.
  - apply Forall_app. split; [done|]. apply Forall_singleton. destruct (last l) as [q|] eqn:E.
    + assert (Hq : later q p) by (apply Hl; by rewrite last_cons, E). apply last_Some in E as [l' ->].
      rewrite Forall_app, Forall_singleton in Hx. destruct Hx as [_ Hxq]. destruct Hq as [Hq1 Hq2], Hxq as [Hx1 Hx2]. split; [by apply (Z.lt_trans _ q.1)|congruence].
    + apply last_None in E as ->. by apply Hl.
Qed.

Lemma sends_snoc n m t op out : sends n (out ++ [OSend m t op]) = sends n out ++ (if m =? n then [(t, op)] else []).
Proof. rewrite sends_app. cbn. by destruct (m =? n). Qed.

Lemma sane_semantic n op s out :
  sane None s out -> n <= sv_nextCall s ->
  (forall q, last (sends n out) = Some q -> q.2 = op /\ (sv_active s = Some q.1 -> sv_phase s <> Ready)) ->
  sane None (semantic n op s).1 (out ++ (semantic n op s).2).
Proof.
  intros Hs Hn Hlast. unfold semantic. destruct (readyClient s) as [t|f] eqn:E; [|by apply sane_end].
  apply readyClient_ready in E as [Ep Ea]. destruct (sa_active _ _ _ Hs t Ea) as [Ht Hmax].
  assert (Hnew : forall q, last (sends n out) = Some q -> later q (t, op)).
  { intros [u op'] Hq. destruct (Hlast _ Hq) as [<- Hne]. split; [|done]. pose proof (Hmax u (sends_used _ _ _ _ Hq)). cbn in *.
    destruct (decide (u = t)) as [->|]; [by destruct (Hne Ea)|lia]. }
  assert (Hno : nolive None s) by (apply (nolive_phase _ _ _ Hs); rewrite Ep; unfold opening; naive_solver).
  cbn [fst snd]. destruct Hs. split; cbn; rewrite ?used_app; try setoid_rewrite sends_snoc; auto.
  - intros u [Hu|Hu%list_elem_of_singleton]%elem_of_app; [auto|by subst u].
  - rewrite Ea. intros u [= <-]. split; [done|]. intros u [Hu|Hu%list_elem_of_singleton]%elem_of_app; [auto|lia].
  - intros l st Hex Hl Hlive. by rewrite (Hno l st Hex Hl) in Hlive.
  - intros m. destruct (n =? m) eqn:Em; [|by rewrite app_nil_r]. apply Z.eqb_eq in Em as <-. by apply later_snoc.
  - intros m Hm. destruct (n =? m) eqn:Em; [lia|]. rewrite app_nil_r, map_get_set_ne by lia. auto.
  - intros m u op'. rewrite map_get_set. case_decide as Em.
    + intros [= <- <-]. subst m. by rewrite Z.eqb_refl, last_snoc.
    + rewrite (proj2 (Z.eqb_neq n m)) by lia. rewrite app_nil_r. auto.
  - intros m u op' e. rewrite map_get_set. case_decide as Em; [done|]. rewrite (proj2 (Z.eqb_neq n m)) by lia. rewrite app_nil_r. eauto.
  - intros m op' l. rewrite map_get_set. case_decide as Em; [done|]. rewrite (proj2 (Z.eqb_neq n m)) by lia. rewrite app_nil_r. apply sa_waiting0.
Qed.

Lemma sane_ask n s out : sane None s out -> sane None (ask n s).1 (out ++ (ask n s).2).
Proof. intros Hs. unfold ask. destruct (readyClient s); [|by apply sane_end]. apply (keeps_say [_]); [done|]. by apply sane_forget. Qed.

Lemma sane_callStep n outcome s out : sane None s out -> sane None (callStep n outcome s).1 (out ++ (callStep n outcome s).2).
Proof.
  intros Hs. assert (Hsame : sane None s (out ++ [])) by (by rewrite app_nil_r).
  unfold callStep. destruct (map_get n (sv_calls s)) as [st|] eqn:En; [|done].
  assert (Hn : n <= sv_nextCall s). { destruct (decide (n <= sv_nextCall s)); [done|]. destruct (sa_fresh _ _ _ Hs n); [lia|congruence]. }
  destruct st as [t op|t op e|op l|l|t o].
  - pose proof (sa_sent _ _ _ Hs n t op En). destruct outcome as [e|]; [|by apply sane_end]. rewrite app_nil_r. by apply sane_put_call.
  - pose proof (sa_failed _ _ _ Hs n t op e En) as Hlast. unfold semanticFailed. destruct (_ || _ || _) eqn:E; [by apply sane_end|].
    destruct (sv_connecting s) as [l|]; [|by apply sane_end]. rewrite app_nil_r. apply sane_put_call; [done..|].
    exists t. split; [done|]. apply orb_false_iff in E as [_ E]. intros Ha Hp. rewrite Ha, Hp in E. by rewrite !bool_decide_eq_true_2 in E.
  - destruct (map_get l _) as [[]|]; try done. destruct result; [|by apply sane_end]. apply sane_semantic; [done..|].
    intros q Hq. destruct (sa_waiting _ _ _ Hs n op l En) as (t & Hl & Hne). rewrite Hl in Hq. by injection Hq as <-.
  - destruct (map_get l _) as [[]|]; try done. by apply sane_ask.
  - destruct outcome; [by apply sane_end|]. apply sane_then, sane_end. cbn [quietly fst snd]. apply (sane_alike _ s); try done. by case_match.
Qed.

Lemma sane_newCall k s out :
  sane None s out ->
  (forall s', sane None s' out -> sv_nextCall s' = sv_nextCall s + 1 -> sends (sv_nextCall s + 1) out = [] ->
     sane None (k (sv_nextCall s + 1) s').1 (out ++ (k (sv_nextCall s + 1) s').2)) ->
  sane None (newCall k s).1 (out ++ (newCall k s).2).
Proof.
  intros Hs Hk. unfold newCall. apply Hk; [|done|apply (sa_fresh _ _ _ Hs); lia]. destruct Hs. split; cbn; auto.
  intros n Hn. apply sa_fresh0. lia.
Qed.

Lemma sane_step known max e s out :
  sane None s out -> timely s e -> sane None (step known max e s).1 (out ++ (step known max e s).2).
Proof.
  intros Hs Ht. destruct e; cbn [step timely] in *.
  - by apply sane_open.
  - by apply sane_retry.
  - by apply sane_recover.
  - by apply sane_subscribe.
  - by apply sane_unsubscribe.
  - by apply sane_close.
  - apply sane_newCall; [done|]. intros s' Hs' En Hnil. apply sane_semantic; [done|lia|]. by rewrite Hnil.
  - apply sane_newCall; [done|]. intros s' Hs' En _. unfold query. destruct (sv_connecting s'); [|by apply sane_ask].
    rewrite app_nil_r. apply sane_put_call; [done|lia|done].
  - apply sane_newCall; [done|]. intros s' Hs' En _. unfold observe. destruct (readyClient s'); [|by apply sane_end].
    apply (keeps_say [_]); [done|]. apply sane_put_call; [done|lia|done].
  - by apply sane_loopStep.
  - by apply sane_binding.
  - by apply sane_value.
  - by apply sane_status.
  - by apply sane_upgraded.
  - by apply sane_callStep.
Qed.

Lemma run_sane known max es s out : run known max timely es s out -> sane None s out.
Proof.
  induction 1 as [|es s out e _ IH Ht]; [|by apply sane_step].
  split; cbn; try done; try (by intros; left); try (by left); try constructor; try (intros t Ht; by apply not_elem_of_nil in Ht).
  all: try (by intros ? [? ?]).
Qed.

(** C27: a command is sent again only to a client that replaced the one it failed on, and under the same operation id:
    the clients one call was sent to are ever newer, whatever the clients answer and in whatever order, and whatever the
    page asks, but for opening, retrying or closing amid the continuation of a household's upgrade ([timely]). *)
Theorem resend_newer known max es s out n : run known max timely es s out -> StronglySorted later (sends n out).
Proof. intros Hrun%run_sane. apply (sa_sends _ _ _ Hrun). Qed.

(** ** Closing *)

(** Outputs that use no client, and make none. *)
Definition retired (o : Output) : bool :=
  match o with
  | OCreate _ | OOpen _ _ | OObserve _ _ | OSubscribe _ _ _ | OSend _ _ _ | OAsk _ _ | ONotify _ _ | OStatus _ => false
  | _ => true
  end.
Definition over (o : Supervisor * list Output) : Prop :=
  sv_phase o.1 = Closed /\ sv_active o.1 = None /\ Forall (fun x => retired x = true) o.2.

Lemma over_same s out : sv_phase s = Closed -> sv_active s = None -> Forall (fun x => retired x = true) out -> over (s, out).
Proof. done. Qed.

Lemma over_end call result s : sv_phase s = Closed -> sv_active s = None -> over (end_call call result s).
Proof. intros. split_and!; [done..|]. by apply Forall_singleton. Qed.

Lemma over_loop max loop outcome made s out :
  sane None s out -> sv_phase s = Closed -> over (loopStep max loop outcome made s).
Proof.
  intros Hs Hp. destruct (sa_closed _ _ _ Hs Hp) as [Ha Hup].
  assert (Hput : forall st, over (put_loop loop st s, [])) by (intros; by apply over_same).
  assert (Hun : forall t k s', sv_phase s' = Closed -> sv_active s' = None -> over (unless_stopped loop t k s')).
  { intros t k s' Hp' Ha'. unfold unless_stopped, stopped. rewrite Ha'. by apply over_same. }
  unfold loopStep. destruct (map_get loop (sv_loops s)) as [st|] eqn:Hl; [|by apply over_same]. pose proof (Hup loop st ltac:(done) Hl) as Hst.
  destruct st as [t|t i|t v [|x w]|e|v|f en|r|r]; try (by destruct outcome; apply over_same); try (by apply over_same).
  - destruct outcome; [|done]. unfold loopOpened, andThen, quietly. specialize (Hun t (observeNext loop t 0 l)).
    match goal with |- context [unless_stopped _ _ _ ?s'] => specialize (Hun s' Hp Ha); by destruct (unless_stopped loop t (observeNext loop t 0 l) s') end.
  - destruct outcome; [|done]. unfold loopObserved, andThen, quietly. specialize (Hun t (observeNext loop t (S i) l)).
    match goal with |- context [unless_stopped _ _ _ ?s'] => specialize (Hun s' Hp Ha); by destruct (unless_stopped loop t (observeNext loop t (S i) l) s') end.
  - by apply Hun.
  - unfold loopThrown, andThen, disposeActive. rewrite Ha. by rewrite decide_True.
  - unfold loopReturned, andThen, quietly, say. destruct (sv_confirm s), (sv_options s); split_and!; try done; by apply Forall_singleton.
  - unfold loopDone. case_bool_decide; by apply over_same.
Qed.

Lemma over_binding token id outcome s : sv_phase s = Closed -> sv_active s = None -> over (bindingSettled token id outcome s).
Proof.
  intros Hp Ha. unfold bindingSettled. destruct (map_get (token, id) _) as [loop|]; [|by apply over_same].
  assert (Hb : forall s' o, sv_phase s' = Closed -> sv_active s' = None ->
    o = bindingBound token id loop s' \/ (exists e, o = bindingFailed token id loop e s') -> over o).
  { intros s' o Hp' Ha' [->|[e ->]].
    - unfold bindingBound. repeat case_match; by apply over_same.
    - unfold bindingFailed. destruct loop as [l|]; [repeat case_match; by apply over_same|].
      destruct (map_get id _); [|by apply over_same]. rewrite Ha'. by apply over_same. }
  unfold andThen, quietly. set (s1 := put_bindings _ s). assert (H1 : sv_phase s1 = Closed /\ sv_active s1 = None) by done. clearbody s1. destruct H1 as [Hp1 Ha1].
  destruct outcome as [e|].
  - pose proof (Hb s1 _ Hp1 Ha1 (or_intror (ex_intro _ e eq_refl))) as H. by destruct (bindingFailed token id loop e s1).
  - unfold bindingAnswered, andThen, say. rewrite Ha1, bool_decide_eq_false_2 by done.
    pose proof (Hb s1 _ Hp1 Ha1 (or_introl eq_refl)) as H. destruct (bindingBound token id loop s1) as [s2 o2].
    destruct H as (? & ? & ?). destruct (map_get id _); split_and!; try done; by constructor.
Qed.

Lemma over_call n outcome s : sv_phase s = Closed -> sv_active s = None -> over (callStep n outcome s).
Proof.
  intros Hp Ha. assert (Er : readyClient s = inr closed_failure) by (unfold readyClient; by rewrite decide_True).
  unfold callStep. destruct (map_get n (sv_calls s)) as [[t op|t op e|op l|l|t o]|]; [| | | | |by apply over_same].
  - destruct outcome; [by apply over_same|by apply over_end].
  - unfold semanticFailed. rewrite (bool_decide_eq_true_2 (sv_phase s = Closed)) by done. rewrite orb_true_r. by apply over_end.
  - destruct (map_get l _) as [[]|]; try by apply over_same. destruct result; [|by apply over_end]. unfold semantic. rewrite Er. by apply over_end.
  - destruct (map_get l _) as [[]|]; try by apply over_same. unfold ask. rewrite Er. by apply over_end.
  - destruct outcome; [by apply over_end|]. unfold observed, andThen, quietly. cbn [app]. apply over_end; by case_match.
Qed.

(** closed is final. Once the page closed the supervisor, nothing that comes later makes a client, uses one, or
    tells a listener anything: it stays closed without a client, and every call is refused. *)
Lemma closed_final known max es s out e :
  run known max timely es s out -> sv_phase s = Closed -> over (step known max e s).
Proof.
  intros Hrun%run_sane Hp. destruct (sa_closed _ _ _ Hrun Hp) as [Ha _].
  assert (Er : forall c, readyClient (put_nextCall c s) = inr closed_failure) by (intros; unfold readyClient; by rewrite decide_True).
  assert (Hone : forall o, retired o = true -> Forall (fun x => retired x = true) [o]) by (intros; by apply Forall_singleton).
  destruct e; cbn [step].
  - unfold open. rewrite decide_True by done. apply over_same; auto.
  - unfold retry. rewrite decide_True by done. apply over_same; auto.
  - unfold recoverSharedTransport. rewrite decide_True by done. apply over_same; auto.
  - unfold subscribeSnapshot. rewrite decide_True by done. apply over_same; auto.
  - unfold unsubscribe. destruct (map_get id _) as [sub|]; [|by apply over_same]. apply over_same; [done..|]. destruct (sb_stop sub); auto.
  - unfold close. rewrite decide_True by done. by apply over_same.
  - unfold newCall, semantic. rewrite Er. by apply over_end.
  - unfold newCall, query, ask. rewrite Er. destruct (sv_connecting _); [by apply over_same|by apply over_end].
  - unfold newCall, observe. rewrite Er. by apply over_end.
  - by eapply over_loop.
  - by apply over_binding.
  - unfold valueReceived. rewrite Ha. destruct (map_get id _); by apply over_same.
  - unfold receiveStatus. rewrite Ha. by apply over_same.
  - unfold statusUpgraded. destruct (sv_upgrades s) as [|[f b] rest]; [by apply over_same|]. cbn. rewrite decide_True by done. by apply over_same.
  - by apply over_call.
Qed.

(** C38: a household's upgrade outlives the page. [close] between the refusal that grants the upgrade of the household
    and the continuation of the connection that asked for it, which the callback told of the upgrade can do, is
    undone: the continuation does not look again, makes a client and keeps it. *)
Theorem close_undone known max loop failure outcome s :
  map_get loop (sv_loops s) = Some (LoopUpgrade failure true) -> sv_phase s <> Closed ->
  let closed := (step known max EvClose s).1 in
  let o := step known max (EvLoop loop outcome None) closed in
  sv_phase closed = Closed /\ sv_active closed = None /\
  sv_active o.1 = Some (sv_nextToken s + 1) /\ OCreate (sv_nextToken s + 1) ∈ o.2.
Proof.
  intros Hl Hp. cbn zeta. cbn [step]. unfold close. rewrite decide_False by done. unfold andThen, quietly.
  set (s1 := put_phase Closed s). destruct (dispose_fields s1) as (El & _ & Ep & Ea).
  assert (Et : sv_nextToken (disposeActive s1).1 = sv_nextToken s) by (unfold disposeActive; by destruct (sv_active s1)).
  destruct (disposeActive s1) as [s2 o2]. cbn [fst snd] in *. split_and!; [done..| |];
    unfold loopStep; cbn [put_subs sv_loops]; rewrite El; cbn [put_phase s1 sv_loops]; rewrite Hl; cbn; rewrite Et; [done|by left].
Qed.
