(* ===== verification/SupervisorHandoff.v ===== *)
(** * The handoff to a replacement client

    While the supervisor reconnects it shows no selection as current; once it is ready, every selection that a
    connection requires shows the newest value the client in use gave ([handoff]). *)

From S2P Require Import Prelude JsMap JsText Json Wire ServiceCore Supervisor SupervisorSafety.
Open Scope Z_scope.

(** The values a client gave for a subscription, first to last. *)
Definition given (token id : Z) (es : list Event) : list (json * LibraryVersion) :=
  omap (fun e => match e with
                 | EvValue t i value version => if (t =? token) && (i =? id) then Some (value, version) else None
                 | _ => None
                 end) es.

(** ** One subscription *)

(** The subscription holds the newest value of the client, shown or staged. *)
Definition valued (es : list Event) (t id : Z) (sub : Sub) : Prop :=
  exists value version, last (given t id es) = Some (value, version) /\
    match sb_staged sub with
    | Some (_, snapshot) => snapshot = mkSnapshot CnReady (Some value) (Some version) None
    | None => sn_value (sb_snapshot sub) = Some value /\ sn_version (sb_snapshot sub) = Some version
    end.

Record good (es : list Event) (phase : Phase) (active : option Z) (id : Z) (sub : Sub) : Prop := {
  go_attempted t : sb_attempted sub = Some t -> active = Some t;
  go_seen t : sb_seen sub = Some t -> sb_attempted sub = Some t /\ valued es t id sub;
  go_staged t snapshot : sb_staged sub = Some (t, snapshot) -> sb_seen sub = Some t /\ phase <> Ready /\ phase <> Connecting;
  go_shown : phase = Reconnecting -> sn_connection (sb_snapshot sub) <> CnReady;
}.

(** Every subscription is so, and their ids are distinct. *)
Definition subs_ok (es : list Event) (s : Supervisor) : Prop :=
  map_wf (sv_subs s) /\ forall id sub, map_get id (sv_subs s) = Some sub -> good es (sv_phase s) (sv_active s) id sub.

Lemma map_wf_fmap {T} (f : T -> T) (m : jsmap Z T) : map_wf m -> map_wf ((fun p => (p.1, f p.2)) <$> m).
Proof. unfold map_wf, map_keys. by rewrite <- list_fmap_compose. Qed.

Lemma subs_ok_fmap es f s s' :
  sv_subs s' = (fun p => (p.1, f p.2)) <$> sv_subs s -> subs_ok es s ->
  (forall id sub, map_get id (sv_subs s) = Some sub -> good es (sv_phase s) (sv_active s) id sub -> good es (sv_phase s') (sv_active s') id (f sub)) ->
  subs_ok es s'.
Proof.
  intros E [Hwf Hs] Hf. split; rewrite E; [by apply map_wf_fmap|]. intros id sub. rewrite map_get_fmap. intros (sub0 & H0 & ->)%fmap_Some. auto.
Qed.

Lemma subs_ok_same es s s' :
  sv_subs s' = sv_subs s -> sv_phase s' = sv_phase s -> sv_active s' = sv_active s -> subs_ok es s -> subs_ok es s'.
Proof. intros E1 E2 E3 [Hwf Hs]. split; rewrite E1; [done|]. rewrite E2, E3. apply Hs. Qed.

Lemma subs_ok_set es id sub s s' :
  sv_subs s' = map_set id sub (sv_subs s) -> sv_phase s' = sv_phase s -> sv_active s' = sv_active s ->
  subs_ok es s -> good es (sv_phase s) (sv_active s) id sub -> subs_ok es s'.
Proof.
  intros E1 E2 E3 [Hwf Hs] Hg. split; rewrite E1; [by apply map_wf_set|]. intros id' sub'. rewrite map_get_set, E2, E3.
  case_decide as E; [subst id'; by intros [= <-]|apply Hs].
Qed.

(** What a subscription shows may change as long as it keeps its value. *)
Lemma good_snapshot es phase active id sub snapshot :
  good es phase active id sub -> sn_value snapshot = sn_value (sb_snapshot sub) -> sn_version snapshot = sn_version (sb_snapshot sub) ->
  (phase = Reconnecting -> sn_connection snapshot <> CnReady) -> good es phase active id (with_snapshot snapshot sub).
Proof.
  intros [] E1 E2 Hc. split; cbn; auto. intros t Ht. destruct (go_seen0 t Ht) as [? (v & ver & Hl & Hm)]. split; [done|].
  exists v, ver. split; [done|]. cbn. destruct (sb_staged sub); [done|]. by rewrite E1, E2.
Qed.

Lemma good_replace es phase active id sub c e :
  good es phase active id sub -> (phase = Reconnecting -> c <> CnReady) -> good es phase active id (replaceSnapshot c e sub).
Proof. intros Hg Hc. by apply good_snapshot. Qed.

Lemma good_released es phase active t id sub : good es phase active id sub -> active = Some t -> good es phase None id (released t sub).
Proof.
  intros [] Ha. split; cbn; auto; try done. intros t' snapshot. destruct (sb_staged sub) as [[t0 sn]|] eqn:E; [|done].
  destruct (go_staged0 t0 sn eq_refl) as [Hseen _]. destruct (go_seen0 t0 Hseen) as [Hat _]. apply go_attempted0 in Hat. assert (t0 = t) as -> by congruence.
  by rewrite Z.eqb_refl.
Qed.

(** Without a client nothing is bound, seen or staged. *)
Lemma good_bare es phase id sub :
  good es phase None id sub -> sb_attempted sub = None /\ sb_seen sub = None /\ sb_staged sub = None.
Proof.
  intros []. assert (Ha : sb_attempted sub = None) by (destruct (sb_attempted sub) as [t|]; [by specialize (go_attempted0 t eq_refl)|done]).
  assert (Hs : sb_seen sub = None) by (destruct (sb_seen sub) as [t|]; [destruct (go_seen0 t eq_refl); congruence|done]). split_and!; [done..|].
  destruct (sb_staged sub) as [[t sn]|]; [|done]. destruct (go_staged0 t sn eq_refl). congruence.
Qed.

Lemma good_free es phase active id sub :
  sb_attempted sub = None -> sb_seen sub = None -> sb_staged sub = None -> (phase = Reconnecting -> sn_connection (sb_snapshot sub) <> CnReady) ->
  good es phase active id sub.
Proof. intros Ha Hs Hst Hsh. split; rewrite ?Ha, ?Hs, ?Hst; done. Qed.

(** ** Work on every subscription *)

Definition tends (es : list Event) (f : Act) : Prop := forall s, subs_ok es s -> subs_ok es (f s).1.

Lemma tends_andThen es f g : tends es f -> tends es g -> tends es (f >> g).
Proof. intros Hf Hg s Hs. unfold andThen. specialize (Hf s Hs). destruct (f s) as [s1 o1]. specialize (Hg s1 Hf). by destruct (g s1). Qed.

Lemma subs_ok_then es f g s : subs_ok es (g (f s).1).1 -> subs_ok es ((f >> g) s).1.
Proof. unfold andThen. destruct (f s) as [s1 o1]. cbn [fst]. by destruct (g s1). Qed.

Lemma tends_quiet es f :
  (forall s, sv_subs (f s) = sv_subs s /\ sv_phase (f s) = sv_phase s /\ sv_active (f s) = sv_active s) -> tends es (quietly f).
Proof. intros Hf s Hs. destruct (Hf s) as (? & ? & ?). by apply (subs_ok_same es s). Qed.
Lemma tends_say es out : tends es (say out).
Proof. by intros s. Qed.
Lemma tends_emit es status : tends es (emitStatus status).
Proof. intros s Hs. by apply (subs_ok_same es s). Qed.
Lemma tends_dispose es : tends es disposeActive.
Proof.
  intros s Hs. unfold disposeActive. destruct (sv_active s) as [t|] eqn:Ea; [|done]. apply (subs_ok_fmap es (released t) s); [done..|].
  intros id sub _ Hg. by eapply good_released.
Qed.
Lemma tends_mark es c e : c <> CnReady -> tends es (markSubscriptions c e).
Proof. intros Hc s Hs. apply (subs_ok_fmap es (replaceSnapshot c e) s); [done..|]. intros id sub _ Hg. by apply good_replace. Qed.
Lemma tends_markReady es s : subs_ok es s -> sv_phase s <> Reconnecting -> subs_ok es (markSubscriptionsReady s).1.
Proof.
  intros Hs Hp. apply (subs_ok_fmap es mark_ready s); [done..|]. intros id sub _ Hg. unfold mark_ready. destruct (has_value sub); [|done]. by apply good_replace.
Qed.

(** Leaving for [Broken] or [Closed] shows nothing anew; so does [Reconnecting] once the subscriptions are marked. *)
Lemma subs_ok_leave es p s : subs_ok es s -> p <> Ready -> p <> Connecting -> p <> Reconnecting -> subs_ok es (put_phase p s).
Proof. intros [Hwf Hs] H1 H2 H3. split; [done|]. intros id sub Hg%Hs. destruct Hg. split; cbn; auto; try done. intros t sn Ht. by destruct (go_staged0 t sn Ht). Qed.
Lemma tends_reconnecting es : tends es reconnecting.
Proof.
  intros s Hs. unfold reconnecting. apply subs_ok_then, subs_ok_then, (tends_emit es (IsReconnecting _)). apply (subs_ok_fmap es (replaceSnapshot CnReconnecting None) s); [done..|].
  intros id sub _ Hg. cbn. destruct Hg. split; cbn; auto; try done. intros t sn Ht. by destruct (go_staged0 t sn Ht).
Qed.
Lemma tends_setFailed es f : tends es (setFailed f).
Proof.
  intros s Hs. unfold setFailed. destruct (decide _); [done|]. apply subs_ok_then.
  apply (tends_andThen es (say _)); [apply tends_say| |]; [|by apply (subs_ok_leave es Broken)].
  apply tends_andThen; [apply tends_dispose|]. apply tends_andThen; [by apply tends_mark|apply tends_emit].
Qed.

(** ** The connection *)

(** Who is at work, and with which client. *)
Record ctl (s : Supervisor) : Prop := {
  ct_active t : sv_active s = Some t -> sv_phase s = Connecting \/ sv_phase s = Reconnecting \/ sv_phase s = Ready;
  ct_ready : sv_phase s = Ready -> is_Some (sv_active s);
  ct_busy : sv_phase s = Connecting \/ sv_phase s = Reconnecting ->
    sv_upgrades s <> [] \/ exists l state, sv_connecting s = Some l /\ map_get l (sv_loops s) = Some state /\ live state = true;
  ct_upgrade l f b : map_get l (sv_loops s) = Some (LoopUpgrade f b) -> sv_active s = None;
  ct_options : sv_phase s <> Idle -> sv_phase s <> Closed -> is_Some (sv_options s);
}.

(** What the connection requires, from the hello to the handoff. *)
Definition before_binding (t : Z) (state : LoopState) : bool :=
  match state with LoopOpen t' | LoopObserve t' _ => t' =? t | _ => false end.

Record req (s : Supervisor) : Prop := {
  rq_open l state t : map_get l (sv_loops s) = Some state -> before_binding t state = true -> sv_active s = Some t ->
    forall id sub, map_get id (sv_subs s) = Some sub -> sb_attempted sub = None;
  rq_bind l t v w : map_get l (sv_loops s) = Some (LoopBind t v w) -> sv_active s = Some t ->
    forall id sub, map_get id (sv_subs s) = Some sub -> sb_required sub = true -> id ∈ w \/ sb_seen sub = Some t;
  rq_ready t : sv_phase s = Ready -> sv_active s = Some t ->
    forall id sub, map_get id (sv_subs s) = Some sub -> sb_required sub = true -> sb_seen sub = Some t;
}.

Record steady (es : list Event) (s : Supervisor) : Prop := { sd_subs : subs_ok es s; sd_ctl : ctl s; sd_req : req s }.

(** The fields the connection is about. *)
Definition aligned (s s' : Supervisor) : Prop :=
  sv_phase s' = sv_phase s /\ sv_active s' = sv_active s /\ sv_connecting s' = sv_connecting s /\ sv_upgrades s' = sv_upgrades s /\
  sv_loops s' = sv_loops s /\ (is_Some (sv_options s) -> is_Some (sv_options s')).

Lemma ctl_aligned s s' : aligned s s' -> ctl s -> ctl s'.
Proof. intros (E1 & E2 & E3 & E4 & E5 & E6) []. split; rewrite ?E1, ?E2, ?E3, ?E4, ?E5; auto. Qed.

(** The subscriptions stand to the connection as before, or better. *)
Definition follows (s : Supervisor) (sub sub' : Sub) : Prop :=
  sb_required sub' = sb_required sub /\ sb_attempted sub' = sb_attempted sub /\ (sb_seen sub' = sb_seen sub \/ sb_seen sub' = sv_active s).

Lemma req_follows s s' :
  aligned s s' -> (forall id sub', map_get id (sv_subs s') = Some sub' -> exists sub, map_get id (sv_subs s) = Some sub /\ follows s sub sub') ->
  req s -> req s'.
Proof.
  intros (E1 & E2 & E3 & E4 & E5 & _) Hf []. split; rewrite ?E1, ?E2, ?E5.
  - intros l st t Hl Hb Ha id sub' (sub & Hg & _ & -> & _)%Hf. by eapply rq_open0.
  - intros l t v w Hl Ha id sub' (sub & Hg & Er & _ & Hs)%Hf Hr. rewrite Er in Hr. destruct (rq_bind0 l t v w Hl Ha id sub Hg Hr); [by left|].
    right. destruct Hs; congruence.
  - intros t Hp Ha id sub' (sub & Hg & Er & _ & Hs)%Hf Hr. rewrite Er in Hr. specialize (rq_ready0 t Hp Ha id sub Hg Hr). destruct Hs; congruence.
Qed.

Lemma req_none s : sv_active s = None -> req s.
Proof. intros Ha. split; rewrite Ha; done. Qed.

Lemma steady_same es s s' : aligned s s' -> sv_subs s' = sv_subs s -> steady es s -> steady es s'.
Proof.
  intros Hal E [H1 H2 H3]. split; [apply (subs_ok_same es s); try done; apply Hal|by eapply ctl_aligned|].
  eapply req_follows; [done| |done]. rewrite E. intros id sub Hg. exists sub. split; [done|]. unfold follows. auto.
Qed.

Lemma steady_fmap es f s s' :
  aligned s s' -> sv_subs s' = (fun p => (p.1, f p.2)) <$> sv_subs s -> (forall sub, follows s sub (f sub)) ->
  subs_ok es s' -> steady es s -> steady es s'.
Proof.
  intros Hal E Hf Hs [_ H2 H3]. split; [done|by eapply ctl_aligned|]. eapply req_follows; [done| |done]. rewrite E.
  intros id sub'. rewrite map_get_fmap. intros (sub & Hg & ->)%fmap_Some. eauto.
Qed.

Lemma steady_set es id sub sub' s s' :
  aligned s s' -> map_get id (sv_subs s) = Some sub -> sv_subs s' = map_set id sub' (sv_subs s) -> follows s sub sub' ->
  good es (sv_phase s) (sv_active s) id sub' -> steady es s -> steady es s'.
Proof.
  intros Hal Hg E Hf Hgood [H1 H2 H3]. split; [apply (subs_ok_set es id sub' s); try done; apply Hal|by eapply ctl_aligned|].
  eapply req_follows; [done| |done]. rewrite E. intros id' sub0. rewrite map_get_set. case_decide as Ei; [subst id'; intros [= <-]; eauto|].
  intros H0. exists sub0. split; [done|]. unfold follows. auto.
Qed.

(** ** Connecting *)

Lemma before_live t state : before_binding t state = true -> live state = true.
Proof. by destruct state. Qed.

(** Nothing is bound without a client. *)
Lemma subs_bare es s id sub :
  subs_ok es s -> sv_active s = None -> map_get id (sv_subs s) = Some sub ->
  sb_attempted sub = None /\ sb_seen sub = None /\ sb_staged sub = None.
Proof. intros [_ Hs] Ha Hg%Hs. rewrite Ha in Hg. by eapply good_bare. Qed.

(** A new client, when the last one is gone. *)
Lemma subs_ok_active es x s : subs_ok es s -> sv_active s = None -> subs_ok es (put_active x s).
Proof.
  intros Hs Ha. split; [apply Hs|]. intros id sub Hg. destruct (subs_bare es s id sub Hs Ha Hg) as (? & ? & ?). apply good_free; try done.
  cbn. intros Hp. destruct Hs as [_ Hs]. by apply (go_shown _ _ _ _ _ (Hs id sub Hg)).
Qed.

Lemma steady_connectOnce es l made s :
  nolive (Some l) s -> subs_ok es s -> sv_active s = None -> (sv_phase s = Connecting \/ sv_phase s = Reconnecting) ->
  sv_connecting s = Some l -> is_Some (sv_options s) -> steady es (connectOnce l made s).1.
Proof.
  intros Hno Hs Ha Hp Hc Ho.
  assert (Hset : forall st l' st', map_get l' (map_set l st (sv_loops s)) = Some st' -> live st' = true -> l' = l /\ st' = st).
  { intros st l' st' Hl Hlive. rewrite map_get_set in Hl. case_decide as E; [naive_solver|]. rewrite (Hno l' st') in Hlive; [done|congruence|done]. }
  unfold connectOnce. destruct made as [e|]; cbn [fst].
  - split; [by apply (subs_ok_same es s)| |by apply req_none]. split; cbn; auto.
    + intros t. by rewrite Ha.
    + destruct Hp; congruence.
    + intros _. right. exists l, (LoopThrown e). split_and!; try done. apply map_get_set_eq.
  - set (t := sv_nextToken s + 1). split.
    + apply (subs_ok_same es (put_active (Some t) s)); try done. by apply subs_ok_active.
    + split; cbn; auto.
      * naive_solver.
      * intros _. right. exists l, (LoopOpen t). split_and!; try done. apply map_get_set_eq.
      * intros l' f b Hl. by destruct (Hset _ _ _ Hl eq_refl).
    + split; cbn.
      * intros l' st t' Hl Hb _ id sub Hg. by destruct (subs_bare es s id sub Hs Ha Hg).
      * intros l' t' v w Hl. by destruct (Hset _ _ _ Hl eq_refl).
      * intros t' Hr. destruct Hp; congruence.
Qed.

Lemma connecting_connectOnce l made x s : put_connecting x (connectOnce l made s).1 = (connectOnce l made (put_connecting x s)).1.
Proof. by destruct made. Qed.

Lemma known_options known s : is_Some (sv_options s) -> is_Some (sv_options (openKnownProfileHousehold known s).1).
Proof. intros [o Ho]. unfold openKnownProfileHousehold. rewrite Ho. destruct (_ && _); cbn; [by eexists|]. rewrite Ho. by eexists. Qed.

Lemma known_subs known s : sv_subs (openKnownProfileHousehold known s).1 = sv_subs s.
Proof. unfold openKnownProfileHousehold. destruct (sv_options s); [|done]. by destruct (_ && _). Qed.

Lemma subs_ok_connecting es s : subs_ok es s -> sv_active s = None -> subs_ok es (put_phase Connecting s).
Proof.
  intros Hs Ha. split; [apply Hs|]. intros id sub Hg. destruct (subs_bare es s id sub Hs Ha Hg) as (? & ? & ?). by apply good_free.
Qed.

Lemma steady_begin es known again made s :
  nolive None s -> subs_ok es s -> sv_active s = None -> is_Some (sv_options s) -> steady es (beginConnection known again made s).1.
Proof.
  intros Hno Hs Ha Ho. unfold beginConnection. set (loop := sv_nextLoop s + 1). set (s1 := put_nextLoop loop s).
  unfold andThen at 1. cbn [quietly]. fold s1. set (f := if again then reconnecting else quietly (put_phase Connecting)).
  assert (Hf : subs_ok es (f s1).1 /\ nolive None (f s1).1 /\ sv_active (f s1).1 = None /\ is_Some (sv_options (f s1).1) /\
    (sv_phase (f s1).1 = Connecting \/ sv_phase (f s1).1 = Reconnecting)).
  { unfold f. destruct again; (split; [|split_and!; cbn; auto]).
    - apply tends_reconnecting. by apply (subs_ok_same es s).
    - apply subs_ok_connecting; [|done]. by apply (subs_ok_same es s). }
  destruct Hf as (H1 & H2 & H3 & H4 & H5). unfold andThen, quietly, say. destruct (f s1) as [s2 o2]. cbn [fst] in *.
  destruct (known_alike known s2) as [(K1 & K2 & K3 & K4 & K5 & K6 & K7 & K8 & K9) _]. pose proof (known_options known s2 H4) as K10.
  pose proof (known_subs known s2) as K11. destruct (openKnownProfileHousehold known s2) as [s3 o3]. cbn [fst] in *.
  pose proof (connecting_connectOnce loop made (Some loop) s3) as E. destruct (connectOnce loop made s3) as [s4 o4]. cbn [fst] in *. rewrite E.
  apply steady_connectOnce; cbn; try done.
  - intros l st _ Hl. apply (H2 l st); [done|]. cbn in Hl. by rewrite K2 in Hl.
  - by apply (subs_ok_same es s2).
  - congruence.
  - by rewrite K9.
Qed.

Lemma setFailed_fields f s :
  sv_phase s <> Closed -> sv_phase (setFailed f s).1 = Broken /\ sv_active (setFailed f s).1 = None /\
  sv_loops (setFailed f s).1 = sv_loops s /\ sv_options (setFailed f s).1 = sv_options s.
Proof.
  intros Hc. unfold setFailed. rewrite decide_False by done. unfold andThen, quietly, say, disposeActive. cbn. by destruct (sv_active s) eqn:E.
Qed.

Lemma steady_setFailed es f s :
  subs_ok es s -> is_Some (sv_options s) -> sv_phase s <> Closed -> steady es (setFailed f s).1.
Proof.
  intros Hs Ho Hc. destruct (setFailed_fields f s Hc) as (E1 & E2 & E3 & E4). split; [by apply tends_setFailed| |by apply req_none].
  split; rewrite ?E1, ?E2, ?E4; try done. by intros [?|?].
Qed.

(** ** The loop moves on *)

Lemma steady_put_loop es l old state s :
  steady es s -> map_get l (sv_loops s) = Some old -> live state = live old -> (is_upgrade state = true -> sv_active s = None) ->
  (forall t, before_binding t state = true -> before_binding t old = true) ->
  (forall t v w, state = LoopBind t v w -> sv_active s = Some t ->
     forall id sub, map_get id (sv_subs s) = Some sub -> sb_required sub = true -> id ∈ w \/ sb_seen sub = Some t) ->
  steady es (put_loop l state s).
Proof.
  intros [H1 [] []] Hl Hlive Hup Hopen Hbind. split; [by apply (subs_ok_same es s)| |]; split; cbn; auto.
  - intros Hp. destruct (ct_busy0 Hp) as [?|(l0 & st & Hc & Hl0 & Hst)]; [by left|]. right. destruct (decide (l0 = l)) as [->|Hne].
    + exists l, state. split_and!; [done|apply map_get_set_eq|congruence].
    + exists l0, st. split_and!; [done| |done]. by rewrite map_get_set_ne.
  - intros l0 f b. rewrite map_get_set. case_decide; [intros [= ->]; by apply Hup|]. eauto.
  - intros l0 st t. rewrite map_get_set. case_decide; [intros [= ->] Hb|]; eauto.
  - intros l0 t v w. rewrite map_get_set. case_decide; [intros [= ->]|]; eauto.
Qed.

Lemma steady_thrown es l old e s : steady es s -> map_get l (sv_loops s) = Some old -> live old = true -> steady es (put_loop l (LoopThrown e) s).
Proof. intros Hs Hl Hlive. by eapply steady_put_loop. Qed.

(** [#bindSubscription] on one subscription. *)
Definition bound (token : Z) (sub : Sub) : Sub :=
  mkSvSub (sb_selection sub) (sb_required sub) (sb_snapshot sub) (sb_staged sub) None None (Some token).

Lemma bindAll_get token loop ids s id :
  map_get id (sv_subs (bindAll token loop ids s).1) =
  (if decide (id ∈ ids) then bound token else (fun sub => sub)) <$> map_get id (sv_subs s).
Proof.
  revert s. induction ids as [|x ids IH]; intros s.
  - cbn. rewrite decide_False by apply not_elem_of_nil. by destruct (map_get id _).
  - cbn [bindAll]. unfold andThen. assert (Hx : map_get id (sv_subs (bindSubscription token (loop x) x s).1) =
      (if decide (id = x) then bound token else (fun sub => sub)) <$> map_get id (sv_subs s)).
    { unfold bindSubscription. destruct (decide (id = x)) as [->|Hne].
      - destruct (map_get x (sv_subs s)) as [sub|] eqn:Ex; [apply map_get_set_eq|done].
      - transitivity (map_get id (sv_subs s)); [|by destruct (map_get id _)]. destruct (map_get x (sv_subs s)); [by apply map_get_set_ne|done]. }
    destruct (bindSubscription token (loop x) x s) as [s1 o1]. cbn [fst] in Hx. specialize (IH s1). destruct (bindAll token loop ids s1) as [s2 o2].
    cbn [fst] in *. rewrite IH, Hx, <- option_fmap_compose. destruct (map_get id (sv_subs s)) as [sub|]; [|done]. cbn. f_equal.
    destruct (decide (id ∈ ids)), (decide (id = x)), (decide (id ∈ x :: ids)) as [Hin|Hin]; try done; set_solver.
Qed.

Lemma bindAll_wf token loop ids s : map_wf (sv_subs s) -> map_wf (sv_subs (bindAll token loop ids s).1).
Proof.
  revert s. induction ids as [|x ids IH]; intros s Hs; [done|]. cbn [bindAll]. unfold andThen.
  assert (Hx : map_wf (sv_subs (bindSubscription token (loop x) x s).1)).
  { unfold bindSubscription. destruct (map_get x _); [|done]. by apply map_wf_set. }
  destruct (bindSubscription token (loop x) x s) as [s1 o1]. specialize (IH s1 Hx). by destruct (bindAll token loop ids s1).
Qed.

Lemma bindAll_options token loop ids s : sv_options (bindAll token loop ids s).1 = sv_options s.
Proof.
  revert s. induction ids as [|x ids IH]; intros s; [done|]. cbn [bindAll]. unfold andThen.
  assert (Hx : sv_options (bindSubscription token (loop x) x s).1 = sv_options s) by (unfold bindSubscription; by destruct (map_get x _)).
  destruct (bindSubscription token (loop x) x s) as [s1 o1]. specialize (IH s1). destruct (bindAll token loop ids s1). cbn in *. congruence.
Qed.

Lemma good_bound es phase token id sub :
  good es phase (Some token) id sub -> sb_attempted sub <> Some token -> good es phase (Some token) id (bound token sub).
Proof.
  intros [] Ha. split; cbn; auto; try done. intros t sn Ht. destruct (go_staged0 t sn Ht) as [Hs _].
  destruct (go_seen0 t Hs) as [Hat _]. specialize (go_attempted0 t Hat). congruence.
Qed.

Lemma elem_of_unbound es token s id sub :
  subs_ok es s -> map_get id (sv_subs s) = Some sub -> id ∈ unbound token s <-> sb_attempted sub <> Some token.
Proof.
  intros [Hwf _] Hg. unfold unbound. rewrite list_elem_of_fmap. split.
  - intros ([id' sub'] & -> & [Ha Hin]%list_elem_of_filter). apply map_elem_get in Hin; [|done]. cbn in Hg. rewrite Hg in Hin. by injection Hin as ->.
  - intros Ha. exists (id, sub). split; [done|]. apply list_elem_of_filter. split; [done|by apply map_get_elem].
Qed.

(** The subscriptions the client does not know yet are bound to it. *)
Lemma subs_ok_bindAll es token loop s :
  subs_ok es s -> sv_active s = Some token -> subs_ok es (bindAll token loop (unbound token s) s).1.
Proof.
  intros Hs Ha. split; [apply bindAll_wf, Hs|]. intros id sub'. rewrite bindAll_get. intros (sub & Hg & ->)%fmap_Some.
  destruct (alike_bindAll token loop (unbound token s) s) as (_ & _ & _ & _ & _ & _ & _ & -> & ->). pose proof (proj2 Hs id sub Hg) as Hgood.
  case_decide as Hin; [|done]. rewrite Ha in *. apply good_bound; [done|]. by apply (elem_of_unbound es token s id sub Hs Hg).
Qed.

Lemma steady_then es f g s : steady es (g (f s).1).1 -> steady es ((f >> g) s).1.
Proof. unfold andThen. destruct (f s) as [s1 o1]. cbn [fst]. by destruct (g s1). Qed.

(** Every selection is bound at once; those required are waited for. *)
Lemma steady_bindCurrent es l old token v s out :
  steady es s -> sane None s out -> map_get l (sv_loops s) = Some old -> before_binding token old = true -> sv_active s = Some token ->
  steady es (bindCurrent l token v s).1.
Proof.
  intros [H1 H2 H3] Hs Hl Hb Ha. unfold bindCurrent. apply steady_then. cbn [quietly fst]. set (loop := fun id => if is_required s id then Some l else None).
  set (ids := unbound token s).
  set (s1 := (bindAll token loop ids s).1). pose proof (nolive_other _ _ _ _ Hs Hl (before_live _ _ Hb)) as Hno.
  destruct (alike_bindAll token loop ids s) as (_ & El & _ & _ & _ & Ec & Eu & Ea & Ep). pose proof (bindAll_options token loop ids s) as Eo.
  fold s1 in El, Ec, Eu, Ea, Ep, Eo.
  assert (Hset : forall st l' st', map_get l' (sv_loops (put_loop l st s1)) = Some st' -> live st' = true -> l' = l /\ st' = st).
  { intros st l' st' Hl' Hlive. unfold put_loop in Hl'. cbn in Hl'. rewrite map_get_set, El in Hl'. case_decide as E; [naive_solver|].
    rewrite (Hno l' st') in Hlive; [done|congruence|done]. }
  split.
  - apply (subs_ok_same es s1); try done. by apply subs_ok_bindAll.
  - destruct H2. split; cbn; rewrite ?Ep, ?Ea, ?Ec, ?Eu, ?Eo; auto.
    + intros _. right. exists l. eexists. split_and!; [|apply map_get_set_eq|done]. by destruct (sa_live _ _ _ Hs l old ltac:(done) Hl (before_live _ _ Hb)).
    + intros l' f b Hl'. by destruct (Hset _ _ _ Hl' eq_refl).
  - split.
    + intros l' st t Hl' Hb'. by destruct (Hset _ _ _ Hl' (before_live _ _ Hb')) as [_ ->].
    + intros l' t v' w Hl' _ id sub' Hg Hr. left. destruct (Hset _ _ _ Hl' eq_refl) as [_ [= -> -> ->]]. unfold put_loop in Hg. cbn in Hg.
      unfold s1 in Hg. rewrite bindAll_get in Hg. apply fmap_Some in Hg as (sub & Hg & ->). apply list_elem_of_filter. split.
      * unfold is_required. rewrite Hg. by case_decide.
      * apply (elem_of_unbound es token s id sub H1 Hg). rewrite (rq_open _ H3 l old token Hl Hb Ha id sub Hg). done.
    + intros t Hp. unfold put_loop in Hp. cbn in Hp. rewrite Ep in Hp. destruct (sa_live _ _ _ Hs l old ltac:(done) Hl (before_live _ _ Hb)) as (_ & _ & Ho & _).
      unfold opening in Ho. rewrite Hp in Ho. naive_solver.
Qed.

Lemma steady_observeNext es l old token index v s out :
  steady es s -> sane None s out -> map_get l (sv_loops s) = Some old -> before_binding token old = true -> sv_active s = Some token ->
  steady es (observeNext l token index v s).1.
Proof.
  intros Hst Hs Hl Hb Ha. unfold observeNext. destruct (map_values _ !! index); [|by eapply steady_bindCurrent].
  eapply steady_put_loop; [done|exact Hl|by rewrite (before_live _ _ Hb)|done| |done]. intros t Ht. cbn in Ht. by apply Z.eqb_eq in Ht as ->.
Qed.

Lemma steady_unless es l old token k s :
  steady es s -> map_get l (sv_loops s) = Some old -> live old = true -> (sv_active s = Some token -> steady es (k s).1) ->
  steady es (unless_stopped l token k s).1.
Proof.
  intros Hs Hl Hlive Hk. unfold unless_stopped. destruct (stopped token s) eqn:E; [by eapply steady_thrown|]. apply Hk.
  unfold stopped in E. by case_bool_decide.
Qed.

(** What was staged is shown. *)
Lemma good_publish es phase token id sub : good es phase (Some token) id sub -> good es Ready (Some token) id (publish token sub).
Proof.
  intros [Ha Hs Hst _]. unfold publish. destruct (sb_staged sub) as [[t sn]|] eqn:E.
  - destruct (Hst t sn eq_refl) as [Hseen _]. destruct (Hs t Hseen) as [Hat _]. apply Ha in Hat as Et. injection Et as <-.
    rewrite Z.eqb_refl. split; cbn; auto; try done. intros t Ht. destruct (Hs t Ht) as [? (v & ver & Hlast & Hm)]. split; [done|].
    exists v, ver. split; [done|]. rewrite E in Hm. by subst sn.
  - split; auto; try done. rewrite E. done.
Qed.

Lemma steady_becomeReady es max l token v s out :
  steady es s -> sane None s out -> map_get l (sv_loops s) = Some (LoopBind token v []) -> sv_active s = Some token ->
  steady es (becomeReady max l token v s).1.
Proof.
  intros [H1 H2 H3] Hs Hl Ha. pose proof (nolive_other _ _ _ _ Hs Hl eq_refl) as Hno. unfold becomeReady. set (v' := default v _).
  apply steady_then, steady_then, steady_then, steady_then, steady_then. cbn [quietly say emitStatus fst]. set (s1 := put_left max _).
  set (s2 := (publishStaged token s1).1). set (s3 := put_lastStatus _ s2).
  assert (Hs3 : subs_ok es s3).
  { apply (subs_ok_fmap es (publish token) s); [done..|]. intros id sub _ Hg. rewrite Ha in Hg. cbn. rewrite Ha. by eapply good_publish. }
  assert (Ha3 : sv_active s3 = Some token) by done. set (s4 := (bindAll token (fun _ => None) (unbound token s3) s3).1).
  destruct (alike_bindAll token (fun _ => None) (unbound token s3) s3) as (_ & El & _ & _ & _ & Ec & Eu & Ea & Ep).
  pose proof (bindAll_options token (fun _ => None) (unbound token s3) s3) as Eo. fold s4 in El, Ec, Eu, Ea, Ep, Eo.
  change (sv_loops s3) with (sv_loops s) in El. change (sv_options s3) with (sv_options s) in Eo. change (sv_phase s3) with Ready in Ep.
  assert (Hdead : forall l' st, map_get l' (sv_loops (put_loop l (LoopReturned v') s4)) = Some st -> live st = false).
  { intros l' st Hl'. unfold put_loop in Hl'. cbn in Hl'. rewrite El, map_get_set in Hl'. case_decide; [by injection Hl' as <-|]. apply (Hno l'); [congruence|done]. }
  split.
  - apply (subs_ok_same es s4); try done. by apply subs_ok_bindAll.
  - split.
    + auto.
    + intros _. change (is_Some (sv_active s4)). rewrite Ea, Ha3. by eexists.
    + change (sv_phase s4 = Connecting \/ sv_phase s4 = Reconnecting -> sv_upgrades s4 <> [] \/ exists l0 state, sv_connecting s4 = Some l0 /\
        map_get l0 (sv_loops (put_loop l (LoopReturned v') s4)) = Some state /\ live state = true). rewrite Ep. by intros [?|?].
    + intros l' f b Hl'. by apply Hdead in Hl'.
    + intros _ _. change (is_Some (sv_options s4)). rewrite Eo. apply (ct_options _ H2); destruct (ct_active _ H2 token Ha) as [E|[E|E]]; by rewrite E.
  - split.
    + intros l' st t Hl'%Hdead Hb%before_live. congruence.
    + intros l' t v0 w Hl'. by apply Hdead in Hl'.
    + intros t _ Ht id sub' Hg Hr. change (sv_active s4 = Some t) in Ht. rewrite Ea, Ha3 in Ht. injection Ht as <-.
      change (map_get id (sv_subs s4) = Some sub') in Hg. unfold s4 in Hg. rewrite bindAll_get in Hg. apply fmap_Some in Hg as (sub3 & Hg3 & ->).
      assert (Hr3 : sb_required sub3 = true) by (by destruct (decide (id ∈ unbound token s3))). pose proof (proj2 Hs3 id sub3 Hg3) as Hgood.
      assert (Hseen : sb_seen sub3 = Some token).
      { cbn in Hg3. rewrite map_get_fmap in Hg3. apply fmap_Some in Hg3 as (sub & Hg & ->).
        assert (Hp : sb_required (publish token sub) = sb_required sub /\ sb_seen (publish token sub) = sb_seen sub)
          by (unfold publish; destruct (sb_staged sub) as [[? ?]|]; [by destruct (_ =? _)|done]). destruct Hp as [Ep1 ->]. rewrite Ep1 in Hr3.
        by destruct (rq_bind _ H3 l token v [] Hl Ha id sub Hg Hr3) as [?%not_elem_of_nil|?]. }
      case_decide as Hin; [|done]. apply (elem_of_unbound es token s3 id sub3 Hs3 Hg3) in Hin. by destruct (go_seen _ _ _ _ _ Hgood token Hseen).
Qed.

Lemma bootstrap_fields max f s :
  let '(_, (s', _)) := bootstrapProfileHousehold max f s in
  sv_subs s' = sv_subs s /\ sv_phase s' = sv_phase s /\ sv_active s' = sv_active s /\ sv_connecting s' = sv_connecting s /\
  sv_upgrades s' = sv_upgrades s /\ sv_loops s' = sv_loops s /\ (is_Some (sv_options s) -> is_Some (sv_options s')).
Proof. unfold bootstrapProfileHousehold. destruct (canBootstrapProfileHousehold f s), (sv_options s) eqn:E; cbn; rewrite ?E; split_and!; try done. Qed.

Lemma dispose_options s : sv_options (disposeActive s).1 = sv_options s /\ sv_connecting (disposeActive s).1 = sv_connecting s.
Proof. unfold disposeActive. by destruct (sv_active s). Qed.

Lemma steady_loopThrown es max l e s out :
  steady es s -> sane None s out -> map_get l (sv_loops s) = Some (LoopThrown e) -> steady es (loopThrown max l e s).1.
Proof.
  intros [H1 H2 H3] Hs Hl. destruct (sa_live _ _ _ Hs l _ ltac:(done) Hl eq_refl) as (Hc & _ & Ho & _). unfold loopThrown. apply steady_then.
  destruct (dispose_fields s) as (El & Eu & Ep & En), (dispose_options s) as [Eo Ec]. pose proof (tends_dispose es s H1) as Hd.
  set (s1 := (disposeActive s).1) in *. clearbody s1. destruct (decide _) as [Hcl|Hcl].
  - split; [by apply (subs_ok_same es s1)| |by apply req_none]. split; cbn; rewrite ?En, ?Hcl; try done. by intros [?|?].
  - pose proof (bootstrap_fields max (failureFrom e) s1) as Hb. destruct (bootstrapProfileHousehold max (failureFrom e) s1) as [enabled [s2 o2]].
    destruct Hb as (B1 & B2 & B3 & B4 & B5 & B6 & B7). cbn [fst]. split; [by apply (subs_ok_same es s1)| |apply req_none; cbn; congruence].
    split; cbn; rewrite ?B2, ?B3, ?B4, ?B5, ?B6, ?En; try done.
    + intros Hr. rewrite Ep in Hr. unfold opening in Ho. rewrite Hr in Ho. naive_solver.
    + intros _. right. exists l. eexists. split_and!; [congruence|apply map_get_set_eq|done].
    + intros Hi Hn. apply B7. rewrite Eo. apply (ct_options _ H2); congruence.
Qed.

Lemma steady_loopUpgraded es l f b made s out :
  steady es s -> sane None s out -> map_get l (sv_loops s) = Some (LoopUpgrade f b) -> steady es (loopUpgraded l f b made s).1.
Proof.
  intros [H1 H2 H3] Hs Hl. destruct (sa_live _ _ _ Hs l _ ltac:(done) Hl eq_refl) as (Hc & _ & Ho & _).
  assert (Hn : sv_phase s <> Closed). { intros Hcl. destruct (sa_closed _ _ _ Hs Hcl) as [_ Hup]. by apply Hup in Hl. }
  assert (Hp : sv_phase s = Connecting \/ sv_phase s = Reconnecting) by (destruct Ho as [?|[?|?]]; auto; done).
  assert (Hopt : is_Some (sv_options s)) by (apply (ct_options _ H2); [destruct Hp as [->| ->]; done|done]).
  pose proof (ct_upgrade _ H2 l f b Hl) as Ha. pose proof (nolive_other _ _ _ _ Hs Hl eq_refl) as Hno.
  unfold loopUpgraded. destruct b; [by apply steady_connectOnce|]. destruct (_ || _).
  - apply steady_then. cbn [quietly fst]. destruct (setFailed_fields f s Hn) as (E1 & E2 & E3 & E4).
    split; [by apply (subs_ok_same es (setFailed f s).1); try done; apply tends_setFailed| |by apply req_none].
    split; cbn; rewrite ?E1, ?E2, ?E4; try done. by intros [?|?].
  - apply steady_then, steady_then, steady_then. cbn [quietly say fst]. apply steady_connectOnce; try done; [|by right].
    apply tends_reconnecting. by apply (subs_ok_same es s).
Qed.

Lemma steady_loopStep es max l outcome made s out : steady es s -> sane None s out -> steady es (loopStep max l outcome made s).1.
Proof.
  intros Hst Hs. unfold loopStep. destruct (map_get l (sv_loops s)) as [st|] eqn:Hl; [|done].
  destruct st as [t|t i|t v [|x w]|e|v|f b|r|r]; try done.
  - destruct outcome as [v|e]; [|by eapply steady_thrown]. unfold loopOpened. apply steady_then. cbn [quietly fst]. set (s1 := put_client _ _ s).
    assert (Hst1 : steady es s1) by (by apply (steady_same es s)). eapply steady_unless; [done|exact Hl|done|]. intros Ha.
    eapply (steady_observeNext es l _ t _ v s1 (out ++ [])); [done|by apply (sane_alike _ s)|exact Hl|cbn; by apply Z.eqb_refl|done].
  - destruct outcome as [v|e]; [|by eapply steady_thrown]. unfold loopObserved. apply steady_then. cbn [quietly fst]. set (s1 := put_client _ _ s).
    assert (Hst1 : steady es s1) by (by apply (steady_same es s)). eapply steady_unless; [done|exact Hl|done|]. intros Ha.
    eapply (steady_observeNext es l _ t _ v s1 (out ++ [])); [done|by apply (sane_alike _ s)|exact Hl|cbn; by apply Z.eqb_refl|done].
  - unfold loopBound. eapply steady_unless; [done|exact Hl|done|]. intros Ha. by eapply steady_becomeReady.
  - by eapply steady_loopThrown.
  - unfold loopReturned. apply steady_then. cbn [quietly fst]. set (s1 := put_loop _ _ s).
    assert (Hst1 : steady es s1) by (by eapply steady_put_loop). destruct (sv_confirm s); [|done]. by apply (steady_same es s1).
  - by eapply steady_loopUpgraded.
  - unfold loopDone. cbn [fst]. case_bool_decide as Ec; [|by eapply steady_put_loop]. eapply (steady_put_loop es l (LoopDone r)); try done.
    destruct Hst as [H1 H2 H3]. split; [by apply (subs_ok_same es s)| |].
    + destruct H2. split; auto. intros Hp. left. destruct (ct_busy0 Hp) as [?|(l0 & st & Hc & Hl0 & Hlive)]; [done|]. rewrite Ec in Hc. injection Hc as <-.
      rewrite Hl in Hl0. by injection Hl0 as <-.
    + destruct H3. by split.
Qed.

(** ** What the clients say *)

Lemma steady_bindingFailed es token id loop e s : steady es s -> steady es (bindingFailed token id loop e s).1.
Proof.
  intros Hst. unfold bindingFailed. destruct loop as [l|].
  - destruct (map_get l _) as [st|] eqn:Hl; [|done]. destruct (awaits token st) eqn:Ea; [|done]. eapply steady_thrown; [done|exact Hl|by destruct st].
  - destruct (map_get id _) as [sub|] eqn:Hg; [|done]. destruct (bool_decide _); [|done]. pose proof (proj2 (sd_subs _ _ Hst) id sub Hg) as Hgood.
    eapply (steady_set es id sub _ s); [done|done|done| | |done]; [unfold follows; auto|by apply good_replace].
Qed.

(** A binding the loop waits for is only dropped once its subscription was seen, or is gone. *)
Lemma steady_bindingBound es token id loop s :
  steady es s -> (sv_active s = Some token -> forall sub, map_get id (sv_subs s) = Some sub -> sb_seen sub = Some token) ->
  steady es (bindingBound token id loop s).1.
Proof.
  intros Hst Hseen. unfold bindingBound. destruct loop as [l|]; [|done]. destruct (map_get l _) as [st|] eqn:Hl; [|done]. cbn [fst].
  assert (Hd : live (drop_waiting token id st) = live st /\ is_upgrade (drop_waiting token id st) = is_upgrade st /\
    forall t, before_binding t (drop_waiting token id st) = before_binding t st) by (destruct st; try done; cbn; by destruct (_ =? _)).
  destruct Hd as (D1 & D2 & D3). eapply steady_put_loop; [done|exact Hl|done| |intros t; by rewrite D3|].
  - rewrite D2. intros Hu. destruct st; try done. by eapply (ct_upgrade _ (sd_ctl _ _ Hst)).
  - intros t v w E Ha id' sub Hg Hr. destruct st as [| |t0 v0 w0| | | | |]; try done. cbn in E. destruct (t0 =? token) eqn:Et.
    + injection E as -> -> <-. apply Z.eqb_eq in Et as ->. destruct (decide (id' = id)) as [->|Hne]; [right; by apply Hseen|].
      destruct (rq_bind _ (sd_req _ _ Hst) l token v w0 Hl Ha id' sub Hg Hr); [left|by right]. by apply list_elem_of_filter.
    + injection E as -> -> ->. by eapply (rq_bind _ (sd_req _ _ Hst) l).
Qed.

Lemma steady_binding es token id outcome s : steady es s -> steady es (bindingSettled token id outcome s).1.
Proof.
  intros Hst. unfold bindingSettled. destruct (map_get (token, id) _) as [loop|]; [|done]. apply steady_then. cbn [quietly fst].
  set (s1 := put_bindings _ s). assert (Hst1 : steady es s1) by (by apply (steady_same es s)). clearbody s1.
  destruct outcome as [e|]; [by apply steady_bindingFailed|]. unfold bindingAnswered.
  destruct (map_get id (sv_subs s1)) as [sub|] eqn:Hg; [|apply steady_then, steady_bindingBound; [done|]; cbn; by rewrite Hg].
  case_bool_decide as Ha; [|by apply steady_then, steady_bindingBound]. case_bool_decide as Hseen; [|by apply steady_then, steady_bindingFailed].
  pose proof (proj2 (sd_subs _ _ Hst1) id sub Hg) as Hgood. apply steady_then, steady_bindingBound; cbn [quietly fst].
  - eapply (steady_set es id sub _ s1); [done|done|done| | |done]; [unfold follows; auto|]. by destruct Hgood.
  - intros _ sub'. cbn. rewrite map_get_set_eq. by intros [= <-].
Qed.

Lemma given_app t id es es' : given t id (es ++ es') = given t id es ++ given t id es'.
Proof. apply omap_app. Qed.

(** Events after which the newest values are as they were. *)
Lemma good_later es e phase active id sub :
  (forall t, sb_seen sub = Some t -> given t id [e] = []) -> good es phase active id sub -> good (es ++ [e]) phase active id sub.
Proof.
  intros He []. split; auto. intros t Ht. destruct (go_seen0 t Ht) as [? (v & ver & Hl & Hm)]. split; [done|]. exists v, ver. split; [|done].
  by rewrite given_app, (He t Ht), app_nil_r.
Qed.

Lemma steady_later es e s : (forall token id value version, e <> EvValue token id value version) -> steady es s -> steady (es ++ [e]) s.
Proof.
  intros He [[Hwf Hs] H2 H3]. split; [|done..]. split; [done|]. intros id sub Hg. apply good_later; [|by apply Hs]. intros t _.
  destruct e; try done. by destruct (He token id0 value version).
Qed.

Lemma given_value t id token id' value version :
  given t id [EvValue token id' value version] = if (token =? t) && (id' =? id) then [(value, version)] else [].
Proof. cbn. by destruct (_ && _). Qed.

(** A new value, shown or staged. *)
Lemma good_show es es' phase token id sub value version :
  good es phase (Some token) id sub -> sb_attempted sub = Some token -> phase = Ready \/ phase = Connecting ->
  last (given token id es') = Some (value, version) ->
  good es' phase (Some token) id
    (mkSvSub (sb_selection sub) (sb_required sub) (mkSnapshot CnReady (Some value) (Some version) None) (sb_staged sub) (sb_stop sub) (Some token) (sb_attempted sub)).
Proof.
  intros Hg Hat Hp Hlast. assert (Hstaged : sb_staged sub = None).
  { destruct (sb_staged sub) as [[t sn]|] eqn:E; [|done]. destruct (go_staged _ _ _ _ _ Hg t sn E) as (_ & ? & ?). by destruct Hp. }
  split; cbn.
  - apply Hg.
  - intros t [= <-]. split; [done|]. exists value, version. cbn. by rewrite Hstaged.
  - by rewrite Hstaged.
  - intros Hr. destruct Hp; congruence.
Qed.

Lemma good_stage es es' token id sub value version :
  good es Reconnecting (Some token) id sub -> sb_attempted sub = Some token -> last (given token id es') = Some (value, version) ->
  good es' Reconnecting (Some token) id
    (mkSvSub (sb_selection sub) (sb_required sub) (sb_snapshot sub) (Some (token, mkSnapshot CnReady (Some value) (Some version) None)) (sb_stop sub)
       (Some token) (sb_attempted sub)).
Proof.
  intros Hg Hat Hlast. split; cbn.
  - apply Hg.
  - intros t [= <-]. split; [done|]. by exists value, version.
  - by intros t sn [= <- _].
  - apply Hg.
Qed.

(** A value of the client is staged while it replaces another, and shown otherwise. *)
Lemma steady_value es token id value version s :
  steady es s -> steady (es ++ [EvValue token id value version]) (valueReceived token id value version s).1.
Proof.
  intros [[Hwf Hs] H2 H3]. set (e := EvValue token id value version).
  assert (Hskip : (forall sub, map_get id (sv_subs s) = Some sub -> sb_seen sub <> Some token) -> steady (es ++ [e]) s).
  { intros Hno. split; [|done..]. split; [done|]. intros id' sub Hg. apply good_later; [|by apply Hs]. intros t Ht. unfold e. rewrite given_value.
    destruct (token =? t) eqn:Et, (id =? id') eqn:Ei; try done. apply Z.eqb_eq in Et, Ei. subst. by destruct (Hno sub Hg). }
  unfold valueReceived. destruct (map_get id (sv_subs s)) as [sub|] eqn:Hg; [|by apply Hskip].
  pose proof (Hs id sub Hg) as Hgood. destruct (_ && _) eqn:Eok; cycle 1.
  { apply Hskip. intros sub' [= <-] Hseen. destruct (go_seen _ _ _ _ _ Hgood token Hseen) as [Hat _]. pose proof (go_attempted _ _ _ _ _ Hgood token Hat).
    by rewrite !bool_decide_eq_true_2 in Eok. }
  apply andb_true_iff in Eok as [Ha%bool_decide_eq_true Hat%bool_decide_eq_true].
  assert (Hothers : forall sub', good (es ++ [e]) (sv_phase s) (sv_active s) id sub' ->
    forall id' sub0, map_get id' (map_set id sub' (sv_subs s)) = Some sub0 -> good (es ++ [e]) (sv_phase s) (sv_active s) id' sub0).
  { intros sub' Hnew id' sub0. rewrite map_get_set. case_decide as Ei; [subst id'; by intros [= <-]|]. intros H0. apply good_later; [|by apply Hs].
    intros t _. unfold e. rewrite given_value. rewrite (proj2 (Z.eqb_neq id id')) by lia. by rewrite andb_false_r. }
  assert (Hlast : last (given token id (es ++ [e])) = Some (value, version)).
  { rewrite given_app. unfold e. rewrite given_value, !Z.eqb_refl. apply last_snoc. }
  assert (Hcan : sv_phase s = Connecting \/ sv_phase s = Reconnecting \/ sv_phase s = Ready) by (by apply (ct_active _ H2 token)).
  assert (Hfinal : forall sub' s', sv_subs s' = map_set id sub' (sv_subs s) -> aligned s s' -> follows s sub sub' ->
    good (es ++ [e]) (sv_phase s) (sv_active s) id sub' -> steady (es ++ [e]) s').
  { intros sub' s' E Hal Hf Hnew. split; [|by eapply ctl_aligned|].
    - destruct Hal as (E1 & E2 & _). split; rewrite E; [by apply map_wf_set|]. rewrite E1, E2. by apply Hothers.
    - eapply req_follows; [done| |done]. rewrite E. intros id' sub0. rewrite map_get_set. case_decide as Ei; [subst id'; intros [= <-]; eauto|].
      intros H0. exists sub0. split; [done|]. unfold follows. auto. }
  cbn [sv_phase put_version put_client put_clients]. rewrite Ha in *.
  destruct Hcan as [Ep|[Ep|Ep]]; rewrite Ep in *; cbn [fst]; (eapply Hfinal; [done|done|unfold follows; auto|]);
    first [by eapply good_stage|eapply good_show; eauto].
Qed.

Lemma steady_status es known max token status made s out :
  steady es s -> sane None s out -> steady es (receiveStatus known max token status made s).1.
Proof.
  intros Hst Hs. unfold receiveStatus. destruct (negb _) eqn:Ea; [done|]. apply negb_false_iff, bool_decide_eq_true in Ea.
  assert (Hemit : forall st s', steady es s' -> steady es (emitStatus st s').1) by (intros st s' H; by apply (steady_same es s')).
  destruct status as [v|v|v r|m|f]; try by apply Hemit.
  - destruct (match sv_phase s with Connecting | Reconnecting => true | _ => false end) eqn:Ep; [done|]. apply steady_then, Hemit.
    eapply (steady_fmap es mark_ready s); try done; [|apply tends_markReady; [apply Hst|by destruct (sv_phase s)]].
    intros sub. unfold mark_ready, follows. destruct (has_value sub); auto.
  - destruct (match sv_phase s with Connecting | Reconnecting => true | _ => false end); [done|]. apply steady_then, Hemit.
    eapply (steady_fmap es (replaceSnapshot CnReconnecting None) s); try done; [|by apply tends_mark, Hst]. intros sub. unfold follows. auto.
  - unfold statusFailed. apply steady_then. cbn [quietly fst]. set (s1 := put_client _ _ s).
    assert (Hst1 : steady es s1) by (by apply (steady_same es s)). assert (Hs1 : sane None s1 (out ++ [])) by (by apply (sane_alike _ s)).
    change (sv_active s) with (sv_active s1) in Ea. clearbody s1. destruct (ct_active _ (sd_ctl _ _ Hst1) token Ea) as [Ep|[Ep|Ep]]; rewrite Ep; try done.
    apply steady_then. destruct (dispose_fields s1) as (El & Eu & Eph & En), (dispose_options s1) as [Eo _].
    pose proof (tends_dispose es s1 (sd_subs _ _ Hst1)) as Hd. set (s2 := (disposeActive s1).1) in *. clearbody s2.
    assert (Ho : is_Some (sv_options s2)) by (rewrite Eo; apply (ct_options _ (sd_ctl _ _ Hst1)); by rewrite Ep).
    assert (Hno : nolive None s2).
    { apply (nolive_loops _ s1); [done|]. apply (nolive_phase _ _ _ Hs1). rewrite Ep. unfold opening. naive_solver. }
    destruct (canBootstrapProfileHousehold f s2).
    + apply steady_then, steady_then. cbn [say fst]. pose proof (tends_reconnecting es s2 Hd) as Hr. set (s3 := (reconnecting s2).1) in *.
      assert (H3 : sv_active s3 = None /\ is_Some (sv_options s3) /\ sv_loops s3 = sv_loops s2 /\ sv_phase s3 = Reconnecting) by done.
      clearbody s3. destruct H3 as (A3 & O3 & L3 & P3). pose proof (bootstrap_fields max f s3) as Hb.
      destruct (bootstrapProfileHousehold max f s3) as [enabled [s4 o4]]. destruct Hb as (B1 & B2 & B3 & B4 & B5 & B6 & B7). cbn [fst].
      split; [by apply (subs_ok_same es s3)| |apply req_none; cbn; congruence]. split; cbn; rewrite ?B2, ?B3, ?B6, ?A3, ?P3; try done; [|by auto].
      intros _. left. by destruct (sv_upgrades s4).
    + destruct (_ || _); [apply steady_setFailed; try done; congruence|]. apply steady_then, steady_then. cbn [quietly say fst]. by apply steady_begin.
Qed.

Lemma steady_upgraded es known made s out : steady es s -> sane None s out -> steady es (statusUpgraded known made s).1.
Proof.
  intros [H1 H2 H3] Hs. unfold statusUpgraded. destruct (sv_upgrades s) as [|[f b] rest] eqn:E; [done|].
  assert (Hno : nolive None s) by (apply (nolive_upgrades _ _ _ Hs); by rewrite E).
  destruct (sa_upgrades _ _ _ Hs) as [?|(_ & Ha & Hp)]; [congruence|]. set (s1 := put_upgrades rest s).
  assert (Hs1 : subs_ok es s1) by (by apply (subs_ok_same es s)). change (sv_phase s) with (sv_phase s1) in Hp |- *.
  destruct (decide (sv_phase s1 = Closed)) as [Hc|Hc].
  - cbn [fst]. split; [done| |by apply req_none]. split; rewrite ?Hc; try done; [|by intros [?|?]].
    intros t Ht. change (sv_active s = Some t) in Ht. congruence.
  - assert (Ho : is_Some (sv_options s1)) by (apply (ct_options _ H2); [destruct Hp as [Ep|?]; [change (sv_phase s) with (sv_phase s1); by rewrite Ep|done]|done]).
    destruct b; [by apply steady_begin|by apply steady_setFailed].
Qed.

(** ** What the page calls *)

(** A connection that can begin has no client, and none is at work. *)
Lemma beginning es s out :
  steady es s -> sane None s out -> sv_upgrades s = [] -> sv_connecting s = None -> sv_phase s <> Ready -> nolive None s /\ sv_active s = None.
Proof.
  intros [_ H2 _] Hs Hu Hc Hr. split; [by apply (nolive_connecting _ _ _ Hs)|]. destruct (sv_active s) as [t|] eqn:Ea; [|done]. exfalso.
  assert (Hp : sv_phase s = Connecting \/ sv_phase s = Reconnecting) by (destruct (ct_active _ H2 t Ea) as [?|[?|?]]; auto; done).
  destruct (ct_busy _ H2 Hp) as [?|(l & st & Hl & _)]; congruence.
Qed.

Lemma steady_open es known options made s out :
  steady es s -> sane None s out -> sv_upgrades s = [] -> steady es (open known options made s).1.
Proof.
  intros Hst Hs Hu. unfold open. destruct (decide _) as [|Hc]; [done|]. case_match; [done|]. set (s1 := put_options _ s).
  assert (Hst1 : steady es s1) by (by apply (steady_same es s)). assert (Hs1 : sane None s1 (out ++ [])) by (by apply (sane_alike _ s)).
  assert (Ho : is_Some (sv_options s1)) by (by eexists). assert (Hu1 : sv_upgrades s1 = []) by done. clearbody s1.
  destruct (sv_phase s1) eqn:Ep; [| |done| | |]; destruct (sv_connecting s1) eqn:Ec; try done;
    (destruct (beginning es s1 (out ++ []) Hst1 Hs1 Hu1 Ec ltac:(congruence)); apply steady_begin; try done; apply Hst1).
Qed.

Lemma steady_retry es known max made s out :
  steady es s -> sane None s out -> sv_upgrades s = [] -> steady es (retry known max made s).1.
Proof.
  intros Hst Hs Hu. unfold retry. destruct (decide _) as [|Hc]; [done|]. destruct (sv_options s) eqn:Eo; [|done].
  destruct (sv_phase s) eqn:Ep; [| |done| | |]; destruct (sv_connecting s) eqn:Ec; try done;
    (destruct (beginning es s out Hst Hs Hu Ec ltac:(congruence)); apply steady_begin; [done|by apply (subs_ok_same es s), Hst|done|cbn; rewrite Eo; by eexists]).
Qed.

Lemma steady_recover es known made s out : steady es s -> sane None s out -> steady es (recoverSharedTransport known made s).1.
Proof.
  intros Hst Hs. unfold recoverSharedTransport. destruct (decide _) as [|Hc]; [done|]. destruct (sv_options s) as [o|] eqn:Eo, (sv_connecting s) eqn:Ec; try done.
  destruct (sv_phase s) eqn:Ep, (sv_active s) as [t|] eqn:Ea; try done. destruct (_ =? _)%nat.
  - apply steady_then. cbn [say fst]. apply steady_setFailed; [apply Hst|by rewrite Eo|congruence].
  - apply steady_then, steady_then, steady_then. cbn [quietly say fst]. set (s1 := put_left _ s).
    destruct (dispose_fields s1) as (El & Eu & Eph & En), (dispose_options s1) as [Eo1 _]. apply steady_begin; [|by apply tends_dispose, (subs_ok_same es s), Hst|done|].
    + apply (nolive_loops _ s); [done|]. apply (nolive_phase _ _ _ Hs). rewrite Ep. unfold opening. naive_solver.
    + rewrite Eo1. cbn. by rewrite Eo.
Qed.

Lemma steady_subscribe es selection background s out :
  steady es s -> sane None s out -> steady es (subscribeSnapshot selection background s).1.
Proof.
  intros Hst Hs. unfold subscribeSnapshot. destruct (decide _) as [|Hc]; [done|]. cbn zeta. set (id := sv_nextSub s + 1).
  set (sub := mkSvSub _ _ _ _ _ _ _). apply steady_then, steady_then. cbn [quietly say fst]. set (s1 := put_sub id sub _).
  assert (Hreq : is_Some (sv_active s) -> sb_required sub = false).
  { intros [t Ha]. destruct Hst as [_ H2 _]. assert (Ho : is_Some (sv_options s))
      by (apply (ct_options _ H2); destruct (ct_active _ H2 t Ha) as [E|[E|E]]; by rewrite E).
    unfold sub. cbn. destruct Ho as [o ->]. by rewrite bool_decide_eq_false_2. }
  assert (Hst1 : steady es s1).
  { destruct Hst as [H1 H2 H3]. split.
    - apply (subs_ok_set es id sub s); try done. apply good_free; try done. cbn. intros ->. done.
    - by apply (ctl_aligned s).
    - destruct H3. split; cbn.
      + intros l st t Hl Hb Ha id' sub'. rewrite map_get_set. case_decide; [by intros [= <-]|]. eauto.
      + intros l t v w Hl Ha id' sub'. rewrite map_get_set. case_decide; [intros [= <-] Hr; rewrite Hreq in Hr; [done|by eexists]|]. eauto.
      + intros t Hp Ha id' sub'. rewrite map_get_set. case_decide; [intros [= <-] Hr; rewrite Hreq in Hr; [done|by eexists]|]. eauto. }
  destruct (sv_active s1) as [t|] eqn:Ea, (sv_phase s1) eqn:Ep; try done. destruct (client_version t s1) as [version|]; [|done].
  unfold bindSubscription. assert (Hg : map_get id (sv_subs s1) = Some sub) by apply map_get_set_eq. rewrite Hg. cbn [fst].
  destruct Hst1 as [H1 H2 H3]. split.
  - apply (subs_ok_set es id (bound t sub) s1); try done. rewrite Ea. apply good_bound; [|done]. rewrite <- Ea. by apply H1.
  - by apply (ctl_aligned s1).
  - destruct H3. assert (Hr : sb_required sub = false) by (apply Hreq; change (sv_active s) with (sv_active s1); by eexists). split; cbn.
    + intros l st t' Hl Hb%before_live. exfalso. change (map_get l (sv_loops s) = Some st) in Hl.
      destruct (sa_live _ _ _ Hs l st ltac:(done) Hl Hb) as (_ & _ & Hop & _). change (sv_phase s1) with (sv_phase s) in Ep.
      unfold opening in Hop. rewrite Ep in Hop. naive_solver.
    + intros l t' v w Hl Ht id' sub'. rewrite map_get_set. case_decide; [intros [= <-] Hr'; change (sb_required sub = true) in Hr'; congruence|]. eauto.
    + intros t' Hp Ht id' sub'. rewrite map_get_set. case_decide; [intros [= <-] Hr'; change (sb_required sub = true) in Hr'; congruence|]. eauto.
Qed.

Lemma steady_unsubscribe es id s : steady es s -> steady es (unsubscribe id s).1.
Proof.
  intros [[Hwf Hs] H2 H3]. unfold unsubscribe. destruct (map_get id _) as [sub|]; [|done]. cbn [fst].
  assert (Hg : forall id' sub', map_get id' (map_delete id (sv_subs s)) = Some sub' -> map_get id' (sv_subs s) = Some sub').
  { intros id' sub'. rewrite map_get_delete. by case_decide. }
  split; [split; [by apply map_wf_delete|intros id' sub' H%Hg; by apply Hs]|by apply (ctl_aligned s)|].
  apply (req_follows s); [done| |done]. intros id' sub' H%Hg. exists sub'. split; [done|]. unfold follows. auto.
Qed.

Lemma steady_close es s : steady es s -> steady es (close s).1.
Proof.
  intros [H1 H2 H3]. unfold close. destruct (decide _) as [|Hc]; [done|]. apply steady_then, steady_then. cbn [quietly fst].
  destruct (dispose_fields (put_phase Closed s)) as (El & _ & Ep & En). split; [split; [apply map_wf_nil|done]| |by apply req_none].
  split; cbn; rewrite ?Ep, ?En; try done. by intros [?|?].
Qed.

Lemma steady_callStep es n outcome s : steady es s -> steady es (callStep n outcome s).1.
Proof.
  intros Hst. assert (Hend : forall r, steady es (end_call n r s).1) by (intros; by apply (steady_same es s)).
  assert (Hask : steady es (ask n s).1) by (unfold ask; destruct (readyClient s); by apply (steady_same es s)).
  assert (Hsem : forall op, steady es (semantic n op s).1) by (intros op; unfold semantic; destruct (readyClient s); by apply (steady_same es s)).
  unfold callStep. destruct (map_get n (sv_calls s)) as [[t op|t op e|op l|l|t o]|]; [| | | | |done].
  - destruct outcome; [by apply (steady_same es s)|apply Hend].
  - unfold semanticFailed. destruct (_ || _ || _); [apply Hend|]. destruct (sv_connecting s); [by apply (steady_same es s)|apply Hend].
  - destruct (map_get l _) as [[]|]; try done. destruct result; [apply Hsem|apply Hend].
  - destruct (map_get l _) as [[]|]; try done; apply Hask.
  - destruct outcome; [apply Hend|]. apply steady_then. cbn [quietly fst]. case_match; by apply (steady_same es s).
Qed.

Lemma steady_step es known max e s out :
  steady es s -> sane None s out -> timely s e -> steady (es ++ [e]) (step known max e s).1.
Proof.
  intros Hst Hs Ht. destruct e; cbn [step timely] in *; try (by apply steady_value);
    (apply steady_later; [done|]).
  - by eapply steady_open.
  - by eapply steady_retry.
  - by eapply steady_recover.
  - by eapply steady_subscribe.
  - by apply steady_unsubscribe.
  - by apply steady_close.
  - unfold newCall, semantic. destruct (readyClient _); by apply (steady_same es s).
  - unfold newCall, query, ask. destruct (sv_connecting _); [by apply (steady_same es s)|]. destruct (readyClient _); by apply (steady_same es s).
  - unfold newCall, observe. destruct (readyClient _); by apply (steady_same es s).
  - by eapply steady_loopStep.
  - by apply steady_binding.
  - by eapply steady_status.
  - by eapply steady_upgraded.
  - by apply steady_callStep.
Qed.

Lemma run_steady known max es s out : run known max timely es s out -> steady es s.
Proof.
  induction 1 as [|es s out e Hrun IH Ht]; [|eapply steady_step; [done|by apply (run_sane _ _ _ _ _ Hrun)|done]].
  split; [split; [apply map_wf_nil|done]| |by apply req_none]. split; cbn; try done. by intros [?|?].
Qed.

(** C26: the handoff to a replacement. While the supervisor reconnects, no subscription shows its value as current. Once
    it is ready it has a client, and every subscription a connection requires shows the newest value that client gave
    it, so that the values of two clients never stand side by side; whatever the clients answer and in whatever order,
    for a page that does not open, retry or close amid the continuation of a household's upgrade ([timely]). *)
Theorem handoff known max es s out id sub :
  run known max timely es s out -> map_get id (sv_subs s) = Some sub ->
  (sv_phase s = Reconnecting -> sn_connection (sb_snapshot sub) <> CnReady) /\
  (sv_phase s = Ready -> exists t, sv_active s = Some t /\
     (sb_required sub = true -> exists value version, last (given t id es) = Some (value, version) /\
        sn_value (sb_snapshot sub) = Some value /\ sn_version (sb_snapshot sub) = Some version)).
Proof.
  intros Hrun%run_steady Hg. destruct Hrun as [[_ Hs] H2 H3]. specialize (Hs id sub Hg). split; [apply Hs|].
  intros Hp. destruct (ct_ready _ H2 Hp) as [t Ha]. exists t. split; [done|]. intros Hr.
  destruct (go_seen _ _ _ _ _ Hs t (rq_ready _ H3 t Hp Ha id sub Hg Hr)) as [_ (v & ver & Hl & Hm)]. exists v, ver. split; [done|].
  destruct (sb_staged sub) as [[t' sn]|] eqn:E; [|done]. by destruct (go_staged _ _ _ _ _ Hs t' sn E) as (_ & ? & _).
Qed.
