(* ===== verification/SupervisorExample.v ===== *)
(** * The supervisor at work

    Runs of the supervisor on concrete events: a worker that fails while a command is under way and is replaced, a page
    that closes, and a household whose upgrade is granted. *)

From S2P Require Import Prelude JsMap JsText Json Wire ServiceCore Supervisor SupervisorSafety SupervisorHandoff.
Open Scope Z_scope.

Definition nobody : string -> bool := fun _ => false.

(** The state and the outputs after events, with one restart. *)
Definition played (es : list Event) : Supervisor * list Output :=
  foldl (fun st e => let o := step nobody 1 e st.1 in (o.1, st.2 ++ o.2)) (newSupervisor 1, []) es.

(** Every event is admitted where it comes. *)
Fixpoint admitted (ok : Supervisor -> Event -> Prop) (s : Supervisor) (es : list Event) : Prop :=
  match es with [] => True | e :: es => ok s e /\ admitted ok (step nobody 1 e s).1 es end.

Lemma played_run ok es : admitted ok (newSupervisor 1) es -> run nobody 1 ok es (played es).1 (played es).2.
Proof.
  assert (Hgen : forall es es0 s out, run nobody 1 ok es0 s out -> admitted ok s es ->
    run nobody 1 ok (es0 ++ es) (foldl (fun st e => let o := step nobody 1 e st.1 in (o.1, st.2 ++ o.2)) (s, out) es).1
      (foldl (fun st e => let o := step nobody 1 e st.1 in (o.1, st.2 ++ o.2)) (s, out) es).2).
  { clear es. induction es as [|e es IH]; intros es0 s out Hrun Ha; [by rewrite app_nil_r|]. destruct Ha as [Hok Ha]. cbn [foldl fst snd].
    replace (es0 ++ e :: es) with ((es0 ++ [e]) ++ es) by (by rewrite <- app_assoc). apply IH; [by apply run_step|done]. }
  intros Ha. unfold played. apply (Hgen es [] (newSupervisor 1) []); [constructor|done].
Qed.

Definition demo_options : Options := mkOptions "key" "online" None None (Some true) false.
Definition demo_version (revision : Z) : LibraryVersion := mkVersion "instance" None revision.
Definition lost : Failure := mkFail "unavailable" "worker failed" true None.

(** The answers that take loop [l] from its hello to its end, its one required subscription bound on client [t]. *)
Definition connects (l t revision : Z) (value : json) : list Event :=
  [EvLoop l (inl (demo_version revision)) None; EvValue t 1 value (demo_version revision); EvBinding t 1 None;
   EvLoop l (inl (demo_version revision)) None; EvLoop l (inl (demo_version revision)) None; EvLoop l (inl (demo_version revision)) None].

(** A command is under way when the worker fails; the replacement takes over and the command is sent again. *)
Definition failing : list Event :=
  EvSubscribe (SelKind "home" JNull) false :: EvOpen demo_options None :: connects 1 1 1 (JStr "before") ++
  [EvCommand "operation"; EvStatus 1 (IsFailed lost) None; EvCall 1 (Some (ServiceError lost)); EvCall 1 None].
Definition replaced : list Event := failing ++ connects 2 2 2 (JStr "after") ++ [EvCall 1 None].

Lemma replaced_run : run nobody 1 timely replaced (played replaced).1 (played replaced).2.
Proof. apply played_run. cbn [admitted replaced failing connects app timely]. repeat split; vm_compute; reflexivity. Defined.

Lemma restart_budget_witness :
  sv_nextToken (played replaced).1 = 2 /\ asks replaced = 1 /\ readies (played replaced).2 = 2 /\
  sv_nextToken (played replaced).1 <= Z.of_nat 1 + (Z.of_nat 1 + 1) * (asks replaced + readies (played replaced).2 + 1).
Proof.
  split; [vm_compute; reflexivity|]. split; [vm_compute; reflexivity|]. split; [vm_compute; reflexivity|].
  exact (restart_budget nobody 1 timely replaced _ _ replaced_run).
Defined.

Lemma resend_newer_witness :
  sends 1 (played replaced).2 = [(1, "operation"); (2, "operation")] /\ StronglySorted later (sends 1 (played replaced).2).
Proof. split; [vm_compute; reflexivity|]. exact (resend_newer nobody 1 replaced _ _ 1 replaced_run). Defined.

Lemma handoff_witness :
  sv_phase (played replaced).1 = Ready /\ last (given 2 1 replaced) = Some (JStr "after", demo_version 2) /\
  exists sub, map_get 1 (sv_subs (played replaced).1) = Some sub /\ sb_required sub = true /\
    (sv_phase (played replaced).1 = Ready -> exists t, sv_active (played replaced).1 = Some t /\
     (sb_required sub = true -> exists value version, last (given t 1 replaced) = Some (value, version) /\
        sn_value (sb_snapshot sub) = Some value /\ sn_version (sb_snapshot sub) = Some version)).
Proof.
  split; [vm_compute; reflexivity|]. split; [vm_compute; reflexivity|]. eexists. split; [vm_compute; reflexivity|]. split; [reflexivity|].
  refine (proj2 (handoff nobody 1 replaced (played replaced).1 (played replaced).2 1 _ replaced_run _)). vm_compute. reflexivity.
Defined.

(** The page closes while the replacement is still to answer. *)
Definition closing : list Event := failing ++ [EvClose].

Lemma closing_run : run nobody 1 timely closing (played closing).1 (played closing).2.
Proof.
  apply played_run. cbn [admitted closing failing connects app timely]. repeat split; try (vm_compute; reflexivity).
  intros loop failure enabled. vm_compute. repeat case_match; done.
Defined.

Lemma closed_final_witness :
  sv_phase (played closing).1 = Closed /\ over (step nobody 1 (EvLoop 2 (inl (demo_version 3)) None) (played closing).1).
Proof.
  assert (Hp : sv_phase (played closing).1 = Closed) by (vm_compute; reflexivity). split; [exact Hp|].
  exact (closed_final nobody 1 closing _ _ (EvLoop 2 (inl (demo_version 3)) None) closing_run Hp).
Defined.

(** The server refuses wire 4 and the upgrade is granted. *)
Definition refused : Failure := mkFail "update-required" "wire 5" false (Some 5).
Definition upgrading_events : list Event :=
  [EvOpen demo_options None; EvLoop 1 (inr (ServiceError refused)) None; EvLoop 1 (inr (ServiceError refused)) None].

Lemma close_undone_witness :
  run nobody 1 timely upgrading_events (played upgrading_events).1 (played upgrading_events).2 /\
  sv_active (step nobody 1 (EvLoop 1 (inl (demo_version 1)) None) (step nobody 1 EvClose (played upgrading_events).1).1).1 = Some 2.
Proof.
  split; [apply played_run; cbn [admitted upgrading_events timely]; repeat split; vm_compute; reflexivity|].
  destruct (close_undone nobody 1 1 refused (inl (demo_version 1)) (played upgrading_events).1) as (_ & _ & H & _);
    [vm_compute; reflexivity|vm_compute; discriminate|]. exact H.
Defined.
