(* ===== verification/FactStore.v ===== *)
(** * The documents a browser keeps ([web/src/lib/libraryFactStore.ts], [localVault.ts], [libraryLocalValue.ts])

    A store keeps the documents of a library's generation as one sealed snapshot and a journal of the batches committed
    since, beside a manifest; an earlier build kept one record per document. Here are reading them ([heldDocuments]),
    turning records into a snapshot ([convert]) and folding the journal into the snapshot ([compact]), as programs
    that hand over at each use of the vault, and the vault itself. Any number of stores (tabs, workers) share one vault. *)

From S2P Require Import Prelude JsMap JsText Json HistoryIndex.
Open Scope Z_scope.

(** ** Documents *)

Definition LIBRARY_FACT_SCHEMA : Z := 1.
Definition ROOT : string := "library-facts.v1".
Definition DOCUMENT_PAGE : nat := 512.
Definition SNAPSHOT_LAYOUT : Z := 2.

(** A row is at this layer the JSON it was sealed as. *)
Record StoredLibraryDocument : Type := mkDocument { sd_seq : Z; sd_value : string; sd_row : option json }.
Record HeldDocument : Type := mkHeld { hd_key : string; hd_seq : Z; hd_row : option json; hd_value : option string }.

Definition heldDocument (key : string) (document : StoredLibraryDocument) : HeldDocument :=
  match sd_row document with
  | Some row => mkHeld key (sd_seq document) (Some row) None
  | None => mkHeld key (sd_seq document) None (Some (sd_value document))
  end.

Definition storedDocument (held : HeldDocument) : StoredLibraryDocument :=
  mkDocument (hd_seq held) (default "" (hd_value held)) (hd_row held).

Definition MAX_SAFE_INTEGER : Z := 2 ^ 53 - 1.
Definition safeInteger (j : option json) : option Z :=
  match j with
  | Some (JNum q) => match qc_int q with Some z => if Z.abs z <=? MAX_SAFE_INTEGER then Some z else None | None => None end
  | _ => None
  end.

(** [DocumentBatch] as JSON, and [validBatch] with what it lets through. *)
Definition encodeHeld (held : HeldDocument) : json :=
  JArr (JStr (hd_key held) :: jint (hd_seq held) :: default JNull (hd_row held) :: match hd_value held with Some v => [JStr v] | None => [] end).
Definition encodeBatch (documents : list HeldDocument) : json :=
  JObj [("schema", jint LIBRARY_FACT_SCHEMA); ("documents", JArr (encodeHeld <$> documents))].

Definition decodeRow (j : json) : option (option json) :=
  match j with JNull => Some None | JObj _ => Some (Some j) | _ => None end.
Definition decodeValue (rest : list json) : option (option string) :=
  match rest with [] => Some None | JStr v :: _ => Some (Some v) | _ => None end.
Definition decodeHeld (j : json) : option HeldDocument :=
  match j with
  | JArr (JStr key :: seq :: row :: rest) =>
      match safeInteger (Some seq), decodeRow row, decodeValue rest with
      | Some seq, Some row, Some value => Some (mkHeld key seq row value)
      | _, _, _ => None
      end
  | _ => None
  end.
Definition validBatch (j : json) : option (list HeldDocument) :=
  match jget "schema" j, jget "documents" j with
  | Some schema, Some (JArr documents) => if bool_decide (schema = jint LIBRARY_FACT_SCHEMA) then mapM decodeHeld documents else None
  | _, _ => None
  end.

(** [JSON.stringify] of two rows is equal when the rows are. *)
Definition sameDocument (one : StoredLibraryDocument) (other : option StoredLibraryDocument) : bool :=
  match other with
  | None => false
  | Some other =>
      (sd_seq one =? sd_seq other) && bool_decide (sd_row one = sd_row other) &&
      (bool_decide (is_Some (sd_row one)) || String.eqb (sd_value one) (sd_value other))
  end.

Definition replaces (held : HeldDocument) (seq : option Z) : bool :=
  match seq with None => true | Some seq => seq <=? hd_seq held end.

(** A record of an earlier build: its schema and sequence are checked, the rest is of the type it is cast to. *)
Definition decodeRecord (j : json) : option StoredLibraryDocument :=
  if bool_decide (jget "schema" j = Some (jint LIBRARY_FACT_SCHEMA)) then
    match safeInteger (jget "seq" j) with
    | Some seq =>
        Some (mkDocument seq (match jget "value" j with Some (JStr v) => v | _ => "" end)
                (match jget "row" j with None | Some JNull => None | row => row end))
    | None => None
    end
  else None.

(** ** The manifest *)

Definition finite (j : option json) : bool := match j with Some (JNum _) => true | _ => false end.
Definition validNewest (j : json) : bool :=
  match jget "stamp" j with
  | Some (JArr [t; c; JStr _]) => finite (Some t) && finite (Some c)
  | _ => false
  end && match jget "reconsiderAt" j with Some JNull => true | other => finite other end.

Definition is_bool (j : option json) : bool := match j with Some (JBool _) => true | _ => false end.

Definition validManifest (j : json) : bool :=
  match j with JObj _ => true | _ => false end &&
  bool_decide (jget "schema" j = Some (jint LIBRARY_FACT_SCHEMA)) &&
  match jget "generation" j with Some (JStr g) => truthy g | _ => false end &&
  match safeInteger (jget "head" j) with
  | Some head =>
      (0 <=? head) &&
      match jget "rowsVersion" j with
      | None => true
      | rowsVersion => match safeInteger rowsVersion with Some v => head <=? v | None => false end
      end
  | None => false
  end &&
  match jget "revision" j with
  | None => true
  | Some (JStr r) => truthy r && (String.length r <=? 128)%nat
  | _ => false
  end &&
  is_bool (jget "complete" j) && is_bool (jget "profileTopology" j) &&
  match jget "floor" j with None => true | floor => match safeInteger floor with Some f => 0 <=? f | None => false end end &&
  match jget "newest" j with None => true | Some newest => validNewest newest end &&
  match jget "layout" j with None => true | Some layout => bool_decide (layout = jint SNAPSHOT_LAYOUT) end.

Definition mf_generation (j : json) : string := match jget "generation" j with Some (JStr g) => g | _ => "" end.
Definition mf_revision (j : json) : option string := match jget "revision" j with Some (JStr r) => Some r | _ => None end.
Definition in_layout (j : json) : bool := bool_decide (jget "layout" j = Some (jint SNAPSHOT_LAYOUT)).

(** [{ ...manifest, layout: SNAPSHOT_LAYOUT }] *)
Definition with_layout (j : json) : json :=
  match j with JObj l => JObj (map_set "layout" (jint SNAPSHOT_LAYOUT) l) | _ => j end.

(** ** Names *)

Section Names.
Context `{UriEncoding}.

Definition manifestName : string := ROOT +:+ ":manifest".
Definition namespace (generation : string) : string := ROOT +:+ ":" +:+ encodeURIComponent generation.
Definition recordPrefix (generation : string) : string := namespace generation +:+ ":document:".
Definition keptPrefix (generation : string) : string := namespace generation +:+ ":kept:".
Definition snapshotName (generation : string) : string := keptPrefix generation +:+ "snapshot".
Definition journalPrefix (generation : string) : string := keptPrefix generation +:+ "journal:".
End Names.

(** ** The vault *)

Section Store.
Context `{UriEncoding} {B : Type} `{!EqDecision B}.

(** Opening a sealed value under a name, the additional data it was sealed with. *)
Context (openLocal : string -> B -> option json).
Context (libraryId : string).

Definition stored_key (name : string) : string := libraryId +:+ ":" +:+ name.

Inductive VaultChange : Type := CPut (key : string) (value : B) | CDelete (key : string).

(** What a program asks: [vault.get], [entries], [page], [put], [remove], [commit], [compareAndCommit], and sealing. *)
Inductive Eff : Type :=
| Get (key : string)
| Entries (prefix : string)
| Page (prefix : string) (after : option string) (limit : nat)
| Put (key : string) (value : B)
| Remove (prefix : string)
| Commit (changes : list VaultChange)
| CompareAndCommit (key : string) (expected : option B) (changes : list VaultChange)
| Seal (name : string) (value : json).

Definition answer (op : Eff) : Type :=
  match op with
  | Get _ => option B
  | Entries _ | Page _ _ _ => list (string * B)
  | Put _ _ | Remove _ | Commit _ => unit
  | CompareAndCommit _ _ _ => bool
  | Seal _ _ => B
  end.

Definition Vault : Type := jsmap string B.

Definition byKey {T} (l : list (string * T)) : list (string * T) := js_sort (fun a b => str_cmp a.1 b.1) l.

Definition vault_entries (prefix : string) (v : Vault) : list (string * B) := byKey (filter (fun p => starts_with prefix p.1 = true) v).
Definition vault_page (prefix : string) (after : option string) (limit : nat) (v : Vault) : list (string * B) :=
  take limit (filter (fun p => match after with Some a => str_ltb a p.1 | None => true end = true) (vault_entries prefix v)).
Definition vault_change (v : Vault) (c : VaultChange) : Vault :=
  match c with CPut key value => map_set key value v | CDelete key => map_delete key v end.
Definition vault_commit (v : Vault) (changes : list VaultChange) : Vault := foldl vault_change v changes.
Definition vault_remove (prefix : string) (v : Vault) : Vault := filter (fun p => starts_with prefix p.1 <> true) v.

(** ** Programs *)

Record Cache : Type := mkCache {
  ca_generation : string;
  ca_revision : option string;
  ca_documents : jsmap string StoredLibraryDocument;
  ca_journals : Z;
}.
(** What a store remembers of the documents ([held]). *)
Definition Memory : Type := option Cache.

Inductive prog (A : Type) : Type :=
| Ret (r : res A)
| Call (op : Eff) (k : res (answer op) -> Memory -> Memory * prog A).
Arguments Ret {A} _.
Arguments Call {A} _ _.

Definition M (A : Type) : Type := Memory -> Memory * prog A.

Fixpoint prog_bind {A C} (p : prog A) (f : res A -> M C) : M C :=
  match p with
  | Ret r => f r
  | Call op k => fun s => (s, Call op (fun r s => let '(s, p) := k r s in prog_bind p f s))
  end.

Definition ret {A} (a : A) : M A := fun s => (s, Ret (Ok a)).
Definition throw {A} (m : string) : M A := fun s => (s, Ret (Throw m)).
Definition lift {A} (r : res A) : M A := fun s => (s, Ret r).
Definition recall : M Memory := fun s => (s, Ret (Ok s)).
Definition remember (c : Memory) : M unit := fun _ => (c, Ret (Ok tt)).
Definition call (op : Eff) : M (answer op) := fun s => (s, Call op (fun r s => (s, Ret r))).
Definition bind {A C} (m : M A) (f : A -> M C) : M C :=
  fun s => let '(s, p) := m s in prog_bind p (fun r => match r with Ok a => f a | Throw e => throw e end) s.
Definition try_catch {A} (m : M A) (h : string -> M A) : M A :=
  fun s => let '(s, p) := m s in prog_bind p (fun r => match r with Ok a => ret a | Throw e => h e end) s.

Notation "'let*' x ':=' m 'in' k" := (bind m (fun x => k)) (at level 10, x pattern, m at level 99, k at level 200).
Notation "m ;;; k" := (bind m (fun _ => k)) (at level 100, right associativity).

Definition corrupt : string := "Individual library authority is corrupt".

Definition openManifest (bytes : B) : option json :=
  match openLocal manifestName bytes with Some j => if validManifest j then Some j else None | None => None end.

Definition readManifest : M (option json) :=
  let* bytes := call (Get (stored_key manifestName)) in ret (bytes ≫= openManifest).

Definition openBatch (name : string) (bytes : B) : option (list HeldDocument) := openLocal name bytes ≫= validBatch.

(** [readBatch] of bytes at hand *)
Definition readBatchBytes (name : string) (bytes : B) : res (list HeldDocument) :=
  match openBatch name bytes with Some batch => Ok batch | None => Throw corrupt end.

Definition readBatch (name : string) : M (option (list HeldDocument)) :=
  let* bytes := call (Get (stored_key name)) in
  match bytes with None => ret None | Some bytes => let* batch := lift (readBatchBytes name bytes) in ret (Some batch) end.

(** [key.slice(this.libraryId.length + 1)] *)
Definition name_of (key : string) : string := str_drop (S (String.length libraryId)) key.

Fixpoint openAll (l : list (string * B)) : res (list (string * list HeldDocument)) :=
  match l with
  | [] => Ok []
  | (key, bytes) :: l =>
      let! batch := readBatchBytes (name_of key) bytes in let! rest := openAll l in Ok ((key, batch) :: rest)
  end.

(** The snapshot as stored and opened, and the journal oldest batch first. *)
Definition openKept (generation : string) (entries : list (string * B)) : res (option (B * list HeldDocument) * list (string * list HeldDocument)) :=
  let snapshotKey := stored_key (snapshotName generation) in
  let held := byKey entries in
  let! journals := openAll (filter (fun p => p.1 <> snapshotKey) held) in
  match filter (fun p => p.1 = snapshotKey) held with
  | (key, bytes) :: _ => let! batch := readBatchBytes (name_of key) bytes in Ok (Some (bytes, batch), journals)
  | [] => Ok (None, journals)
  end.

Definition readKept (generation : string) : M (option (B * list HeldDocument) * list (string * list HeldDocument)) :=
  let* entries := call (Entries (stored_key (keptPrefix generation))) in lift (openKept generation entries).

(** The documents of a snapshot with its journal replayed. *)
Definition put_held (m : jsmap string HeldDocument) (held : HeldDocument) : jsmap string HeldDocument := map_set (hd_key held) held m.
Definition replay_held (m : jsmap string HeldDocument) (held : HeldDocument) : jsmap string HeldDocument :=
  if replaces held (hd_seq <$> map_get (hd_key held) m) then put_held m held else m.
Definition replay (snapshot : list HeldDocument) (journals : list (list HeldDocument)) : jsmap string HeldDocument :=
  foldl replay_held (foldl put_held [] snapshot) (concat journals).
Definition stored_all (m : jsmap string HeldDocument) : jsmap string StoredLibraryDocument := (fun p => (p.1, storedDocument p.2)) <$> m.

(** [commitIf]; [compares] is whether the vault has [compareAndCommit] *)
Definition commitIf (compares : bool) (key : string) (expected : option B) (changes : list VaultChange) : M bool :=
  if compares then call (CompareAndCommit key expected changes) else (call (Commit changes);;; ret true).

(** The journal folded into the snapshot *)
Definition compact (compares : bool) (generation : string) : M unit :=
  let name := snapshotName generation in
  let key := stored_key name in
  let* kept := readKept generation in
  let '(snapshot, journals) := kept in
  let documents := replay (default [] (snd <$> snapshot)) journals.*2 in
  let* sealed := call (Seal name (encodeBatch (map_values documents))) in
  let* folded := commitIf compares key (fst <$> snapshot) (CPut key sealed :: (CDelete <$> journals.*1)) in
  let* held := recall in
  match held with
  | Some c =>
      if folded && String.eqb (ca_generation c) generation
      then remember (Some (mkCache (ca_generation c) (ca_revision c) (ca_documents c) (Z.max 0 (ca_journals c - Z.of_nat (length journals)))))
      else ret tt
  | None => ret tt
  end.

(** What a store remembers once [entries] are committed, from the manifest [held] to [revision]: they are added to the
    documents, or those forgotten when another writer had moved the manifest on before it was read. The fold that may
    follow is a [compact] of its own. *)
Definition kept (generation : string) (held : option json) (revision : option string) (entries : list (string * StoredLibraryDocument)) (s : Memory)
  : Memory :=
  match s with
  | Some c =>
      if negb (String.eqb (ca_generation c) generation) then s
      else if negb (bool_decide (ca_revision c =
                match held with Some m => if String.eqb (mf_generation m) generation then mf_revision m else None | None => None end))
      then None
      else Some (mkCache (ca_generation c) revision
                   (foldl (fun documents e => map_set e.1 (storedDocument (heldDocument e.1 e.2)) documents) (ca_documents c) entries)
                   (match entries with [] => ca_journals c | _ => ca_journals c + 1 end))
  | None => None
  end.

(** The records of an earlier build, a page at a time *)
Fixpoint openRecords (prefix : string) (page : list (string * B)) (documents : jsmap string StoredLibraryDocument)
  : res (jsmap string StoredLibraryDocument) :=
  match page with
  | [] => Ok documents
  | (key, bytes) :: page =>
      match openLocal (name_of key) bytes ≫= decodeRecord with
      | Some document => openRecords prefix page (map_set (str_drop (String.length prefix) (name_of key)) document documents)
      | None => Throw corrupt
      end
  end.

Fixpoint recordDocuments (fuel : nat) (generation : string) (after : option string) (documents : jsmap string StoredLibraryDocument)
  : M (jsmap string StoredLibraryDocument) :=
  match fuel with
  | O => throw "out of fuel"
  | S fuel =>
      let* page := call (Page (stored_key (recordPrefix generation)) after DOCUMENT_PAGE) in
      match last page with
      | None => ret documents
      | Some final =>
          let* documents := lift (openRecords (recordPrefix generation) page documents) in
          if (length page <? DOCUMENT_PAGE)%nat then ret documents else recordDocuments fuel generation (Some final.1) documents
      end
  end.

(** A store an earlier build wrote made one snapshot *)
Definition convert (compares : bool) (fuel : nat) (manifest : json) : M (jsmap string StoredLibraryDocument) :=
  let generation := mf_generation manifest in
  let* old := recordDocuments fuel generation None [] in
  remember (Some (mkCache generation (mf_revision manifest) old 0));;;
  try_catch
    (let name := snapshotName generation in
     let* sealed := call (Seal name (encodeBatch ((fun p => heldDocument p.1 p.2) <$> old))) in
     call (Put (stored_key name) sealed);;;
     let* batch := readBatch name in
     let read := stored_all (foldl put_held [] (default [] batch)) in
     if negb (length read =? length old)%nat || existsb (fun p => negb (sameDocument p.2 (map_get p.1 read))) old
     then throw "the snapshot does not read back as the documents it was made from"
     else
       let manifestKey := stored_key manifestName in
       let* expected := call (Get manifestKey) in
       match expected ≫= openManifest with
       | Some opened =>
           if negb (bool_decide (mf_revision opened = mf_revision manifest)) then ret old
           else
             let* sealed := call (Seal manifestName (with_layout manifest)) in
             let* flipped := commitIf compares manifestKey expected [CPut manifestKey sealed] in
             if negb flipped then ret old
             else
               call (Remove (stored_key (recordPrefix generation)));;;
               remember (Some (mkCache generation (mf_revision manifest) read 0));;;
               ret read
       | None => ret old
       end)
    (fun _ => ret old).

(** The documents of a generation as its manifest names them now *)
Definition heldDocuments (compares : bool) (fuel : nat) (generation : string) : M (jsmap string StoredLibraryDocument) :=
  let* manifest := readManifest in
  let current := match manifest with Some m => if String.eqb (mf_generation m) generation then Some m else None | None => None end in
  let* held := recall in
  let cached :=
    match current, held with
    | Some m, Some c =>
        if bool_decide (is_Some (mf_revision m)) && String.eqb (ca_generation c) generation && bool_decide (ca_revision c = mf_revision m)
        then Some (ca_documents c) else None
    | _, _ => None
    end in
  match cached with
  | Some documents => ret documents
  | None =>
      let earlier := match current with Some m => negb (in_layout m) | None => false end in
      match current, earlier with
      | Some m, true => convert compares fuel m
      | _, _ =>
          let* kept := readKept generation in
          let '(snapshot, journals) := kept in
          let documents := stored_all (replay (default [] (snd <$> snapshot)) journals.*2) in
          remember (Some (mkCache generation (current ≫= mf_revision) documents (Z.of_nat (length journals))));;;
          ret documents
      end
  end.

Definition document (compares : bool) (fuel : nat) (generation key : string) : M (option StoredLibraryDocument) :=
  let* documents := heldDocuments compares fuel generation in ret (map_get key documents).

(** Every document, in key order *)
Definition documents (compares : bool) (fuel : nat) (generation : string) : M (list (string * StoredLibraryDocument)) :=
  let* held := heldDocuments compares fuel generation in ret (byKey held).
End Store.

Arguments Ret {B A} _.
Arguments Call {B A} _ _.
