(* ===== verification/FactStoreSafety.v ===== *)
(** * What is kept is never lost

    Any number of stores read, commit and fold the documents of a generation at once, and may stop anywhere: what is
    kept holds the newest version of every document that was ever committed, and what a reader takes from the vault is
    at least as new as all that was committed before it began ([kept_newest]). What a reader takes from its store's
    memory is what the store remembers, which may be older ([cached_behind] of FactExample). *)

From S2P Require Import Prelude JsMap JsText Json HistoryIndex FactStore.
Open Scope Z_scope.

(** ** Replaying *)

(** The map holds, of each key, one of the documents with the greatest sequence. *)
Definition newest (l : list HeldDocument) (m : jsmap string HeldDocument) : Prop :=
  forall key, match map_get key m with
              | Some h => h ∈ l /\ hd_key h = key /\ forall h', h' ∈ l -> hd_key h' = key -> hd_seq h' <= hd_seq h
              | None => forall h', h' ∈ l -> hd_key h' <> key
              end.

Lemma newest_nil : newest [] [].
Proof. intros key h' Hin. by apply not_elem_of_nil in Hin. Qed.

Lemma newest_put l m h :
  newest l m -> (forall h', h' ∈ l -> hd_key h' = hd_key h -> hd_seq h' <= hd_seq h) -> newest (l ++ [h]) (put_held m h).
Proof.
  intros Hm Hmax key. specialize (Hm key). unfold put_held. rewrite map_get_set. case_decide as E.
  - subst key. split; [apply elem_of_app; right; by left|]. split; [done|].
    intros h' [Hin|Hin%list_elem_of_singleton]%elem_of_app Hk; [by apply Hmax|subst; lia].
  - destruct (map_get key m) as [h0|].
    + destruct Hm as (Hin & Hk & Hle). split; [apply elem_of_app; by left|]. split; [done|].
      intros h' [Hin'|Hin'%list_elem_of_singleton]%elem_of_app Hk'; [by apply Hle|by subst].
    + intros h' [Hin'|Hin'%list_elem_of_singleton]%elem_of_app; [by apply Hm|subst; congruence].
Qed.

Lemma newest_replay l m h : newest l m -> newest (l ++ [h]) (replay_held m h).
Proof.
  intros Hm. unfold replay_held, replaces. pose proof (Hm (hd_key h)) as Hh. destruct (map_get (hd_key h) m) as [h0|] eqn:E; cbn.
  - destruct (hd_seq h0 <=? hd_seq h) eqn:El; destruct Hh as (Hin & Hk & Hle).
    + apply newest_put; [done|]. intros h' Hin' Hk'. apply Z.leb_le in El. specialize (Hle h' Hin' Hk'). lia.
    + intros key. specialize (Hm key). destruct (map_get key m) as [h1|] eqn:E1.
      * destruct Hm as (Hin1 & Hk1 & Hle1). split; [apply elem_of_app; by left|]. split; [done|].
        intros h' [Hin'|Hin'%list_elem_of_singleton]%elem_of_app Hk'; [by apply Hle1|]. subst h'. rewrite <- Hk', E in E1. injection E1 as <-.
        apply Z.leb_gt in El. lia.
      * intros h' [Hin'|Hin'%list_elem_of_singleton]%elem_of_app; [by apply Hm|]. subst h'. intros <-. congruence.
  - apply newest_put; [done|]. intros h' Hin' Hk'. by destruct (Hh h' Hin').
Qed.

Lemma newest_replay_all l m hs : newest l m -> newest (l ++ hs) (foldl replay_held m hs).
Proof.
  revert l m. induction hs as [|h hs IH]; intros l m Hm; cbn; [by rewrite app_nil_r|].
  replace (l ++ h :: hs) with ((l ++ [h]) ++ hs) by (by rewrite <- app_assoc). apply IH, newest_replay, Hm.
Qed.

Lemma newest_snapshot l m hs :
  newest l m -> NoDup (hd_key <$> l ++ hs) -> newest (l ++ hs) (foldl put_held m hs).
Proof.
  revert l m. induction hs as [|h hs IH]; intros l m Hm Hnd; cbn; [by rewrite app_nil_r|].
  replace (l ++ h :: hs) with ((l ++ [h]) ++ hs) in * by (by rewrite <- app_assoc). apply IH; [|done]. apply newest_put; [done|].
  intros h' Hin Hk. exfalso. rewrite !fmap_app in Hnd. apply NoDup_app in Hnd as (Hnd & _). apply NoDup_app in Hnd as (_ & Hdis & _).
  apply (Hdis (hd_key h')); [by apply list_elem_of_fmap_2|]. cbn. rewrite Hk. by left.
Qed.

(** A snapshot with its journal replayed holds the newest of all. *)
Lemma replay_newest snapshot journals :
  NoDup (hd_key <$> snapshot) -> newest (snapshot ++ concat journals) (replay snapshot journals).
Proof. intros Hnd. unfold replay. apply newest_replay_all. apply (newest_snapshot [] []); [apply newest_nil|done]. Qed.

Lemma newest_values l m h : newest l m -> map_wf m -> h ∈ map_values m -> h ∈ l /\ map_get (hd_key h) m = Some h.
Proof.
  intros Hm Hwf (key & Hin)%map_values_elem. apply map_elem_get in Hin; [|done]. specialize (Hm key). rewrite Hin in Hm.
  destruct Hm as (? & <- & _). done.
Qed.

Lemma wf_replay snapshot journals : map_wf (replay snapshot journals).
Proof.
  assert (Hput : forall hs m, map_wf m -> map_wf (foldl put_held m hs)).
  { induction hs as [|h hs IH]; intros m Hm; [done|]. apply IH. by apply map_wf_set. }
  assert (Hrep : forall hs m, map_wf m -> map_wf (foldl replay_held m hs)).
  { induction hs as [|h hs IH]; intros m Hm; [done|]. apply IH. unfold replay_held. case_match; [by apply map_wf_set|done]. }
  apply Hrep, Hput, map_wf_nil.
Qed.

(** What is folded has every key once. *)
Lemma replay_keys snapshot journals :
  NoDup (hd_key <$> snapshot) -> NoDup (hd_key <$> map_values (replay snapshot journals)).
Proof.
  intros Hnd. pose proof (replay_newest snapshot journals Hnd) as Hn. pose proof (wf_replay snapshot journals) as Hwf.
  assert (E : hd_key <$> map_values (replay snapshot journals) = map_keys (replay snapshot journals)); [|by rewrite E].
  unfold map_values, map_keys. rewrite <- list_fmap_compose. apply list_fmap_ext. intros i [key h] Hi. cbn.
  apply list_elem_of_lookup_2 in Hi. apply map_elem_get in Hi; [|done]. specialize (Hn key). rewrite Hi in Hn. by destruct Hn as (_ & ? & _).
Qed.

(** ** Sealed batches *)

Lemma safeInteger_jint j z : safeInteger j = Some z -> safeInteger (Some (jint z)) = Some z.
Proof.
  destruct j as [[| |q| | |]|]; try done. cbn [safeInteger]. destruct (qc_int q) as [z'|]; [|done]. destruct (Z.abs z' <=? _) eqn:E; [|done].
  intros [= ->]. unfold jint. by rewrite qc_int_inject, E.
Qed.

Lemma decode_encodeHeld j h : decodeHeld j = Some h -> decodeHeld (encodeHeld h) = Some h.
Proof.
  intros Hd. destruct j as [| | | |[|[| | |key| |] [|seq [|row rest]]]|]; try done. cbn [decodeHeld] in Hd.
  destruct (safeInteger (Some seq)) as [z|] eqn:Es; [|done]. destruct (decodeRow row) as [r|] eqn:Er; [|done].
  destruct (decodeValue rest) as [v|] eqn:Ev; [|done]. injection Hd as <-.
  assert (Hs : safeInteger (Some (jint z)) = Some z) by (by apply (safeInteger_jint (Some seq))).
  assert (Hr : decodeRow (default JNull r) = Some r) by (destruct row; try done; cbn in Er; by injection Er as <-).
  assert (Hv : decodeValue (match v with Some v => [JStr v] | None => [] end) = Some v).
  { destruct rest as [|[] rest]; try done; cbn in Ev; by injection Ev as <-. }
  unfold encodeHeld. cbn [decodeHeld hd_key hd_seq hd_row hd_value]. by rewrite Hs, Hr, Hv.
Qed.

Definition decodable (h : HeldDocument) : Prop := decodeHeld (encodeHeld h) = Some h.

Lemma validBatch_decodable j batch : validBatch j = Some batch -> Forall decodable batch.
Proof.
  unfold validBatch. destruct (jget "schema" j); [|done]. destruct (jget "documents" j) as [[]|]; try done. case_bool_decide; [|done].
  intros Hm%mapM_Some. induction Hm as [|j' h l' hs Hj _ IH]; constructor; [|done]. by apply (decode_encodeHeld j').
Qed.

Lemma validBatch_encode batch : Forall decodable batch -> validBatch (encodeBatch batch) = Some batch.
Proof.
  intros Hd. unfold validBatch. change (jget "schema" (encodeBatch batch)) with (Some (jint LIBRARY_FACT_SCHEMA)).
  change (jget "documents" (encodeBatch batch)) with (Some (JArr (encodeHeld <$> batch))). cbn iota. rewrite bool_decide_eq_true_2 by done.
  apply mapM_Some. induction Hd as [|h hs Hh _ IH]; cbn; constructor; done.
Qed.

(** ** Listing *)

Lemma elem_of_byKey {T} (l : list (string * T)) x : x ∈ byKey l <-> x ∈ l.
Proof. apply elem_of_js_sort. Qed.

Lemma elem_of_vault_entries {B} prefix (v : Vault (B:=B)) key b :
  map_wf v -> (key, b) ∈ vault_entries prefix v <-> map_get key v = Some b /\ starts_with prefix key = true.
Proof.
  intros Hwf. unfold vault_entries. rewrite elem_of_byKey, list_elem_of_filter. cbn. rewrite <- map_get_iff by done. tauto.
Qed.

(** ** The vault and the stores that share it *)

Section Runs.
Context `{UriEncoding} {B : Type} `{!EqDecision B} (openLocal : string -> B -> option json) (libraryId generation : string).

(** The vault, every value ever put into it, and the documents ever committed to the generation. *)
Record World : Type := mkWorld { w_vault : Vault (B:=B); w_placed : list B; w_kept : list HeldDocument }.

Definition puts (changes : list (VaultChange (B:=B))) : list B := omap (fun c => match c with CPut _ b => Some b | CDelete _ => None end) changes.

Definition committed (w : World) (changes : list (VaultChange (B:=B))) : World :=
  mkWorld (vault_commit (w_vault w) changes) (puts changes ++ w_placed w) (w_kept w).

(** Sealing draws a new random vector, so that no value put was put before. *)
Definition fresh (w : World) (changes : list (VaultChange (B:=B))) : Prop := forall b, b ∈ puts changes -> b ∉ w_placed w.

(** One use of the vault. *)
Definition performs (op : Eff (B:=B)) : World -> res (answer op) -> World -> Prop :=
  match op return World -> res (answer op) -> World -> Prop with
  | Get key => fun w r w' => r = Ok (map_get key (w_vault w)) /\ w' = w
  | Entries prefix => fun w r w' => r = Ok (vault_entries prefix (w_vault w)) /\ w' = w
  | Page prefix after limit => fun w r w' => r = Ok (vault_page prefix after limit (w_vault w)) /\ w' = w
  | Put key b => fun w r w' => fresh w [CPut key b] /\ r = Ok tt /\ w' = committed w [CPut key b]
  | Remove prefix => fun w r w' => r = Ok tt /\ w' = mkWorld (vault_remove prefix (w_vault w)) (w_placed w) (w_kept w)
  | Commit changes => fun w r w' => fresh w changes /\ r = Ok tt /\ w' = committed w changes
  | CompareAndCommit key expected changes => fun w r w' =>
      if decide (map_get key (w_vault w) = expected) then fresh w changes /\ r = Ok true /\ w' = committed w changes
      else r = Ok false /\ w' = w
  | Seal name j => fun w r w' => (exists b, openLocal name b = Some j /\ r = Ok b) /\ w' = w
  end.

(** It may fail, and then changes nothing: a transaction is whole or not at all. *)
Definition uses (op : Eff (B:=B)) (w : World) (r : res (answer op)) (w' : World) : Prop :=
  performs op w r w' \/ (exists m, r = Throw m) /\ w' = w.

Abbreviation keptKey := (stored_key libraryId (keptPrefix generation)).
Abbreviation snapshotKey := (stored_key libraryId (snapshotName generation)).
Abbreviation manifestKey := (stored_key libraryId manifestName).
Abbreviation name_of := (name_of libraryId).

(** A stored batch of the generation. *)
Definition batch_at (v : Vault) (key : string) (b : B) (docs : list HeldDocument) : Prop :=
  map_get key v = Some b /\ starts_with keptKey key = true /\ openBatch openLocal (name_of key) b = Some docs.

(** The generation is kept in the snapshot layout and nothing committed is missing. *)
Record sound (w : World) : Prop := {
  so_wf : map_wf (w_vault w);
  so_batches key b : map_get key (w_vault w) = Some b -> starts_with keptKey key = true ->
    b ∈ w_placed w /\ exists docs, batch_at (w_vault w) key b docs /\ forall h, h ∈ docs -> h ∈ w_kept w;
  so_snapshot b docs : batch_at (w_vault w) snapshotKey b docs -> NoDup (hd_key <$> docs);
  so_cover h : h ∈ w_kept w -> exists key b docs h', batch_at (w_vault w) key b docs /\ h' ∈ docs /\ hd_key h' = hd_key h /\ hd_seq h <= hd_seq h';
  so_layout b m : map_get manifestKey (w_vault w) = Some b -> openManifest openLocal b = Some m ->
    mf_generation m = generation -> in_layout m = true;
}.

(** What every step leaves to the others. *)
Record moves (w w' : World) : Prop := {
  mv_placed b : b ∈ w_placed w -> b ∈ w_placed w';
  mv_journals key b : map_get snapshotKey (w_vault w') = map_get snapshotKey (w_vault w) -> starts_with keptKey key = true ->
    map_get key (w_vault w) = Some b -> map_get key (w_vault w') = Some b;
  mv_snapshot : map_get snapshotKey (w_vault w') <> map_get snapshotKey (w_vault w) ->
    exists b, map_get snapshotKey (w_vault w') = Some b /\ b ∉ w_placed w;
  mv_kept h : h ∈ w_kept w -> h ∈ w_kept w';
}.

Lemma moves_refl w : moves w w.
Proof. by split. Qed.

(** Programs that keep this whatever the others do: [K] is what the program knows of the vault. *)
Definition stable (K : World -> Prop) : Prop := forall w w', sound w -> sound w' -> K w -> moves w w' -> K w'.

(** [Q] is what holds of its result, with the memories its store had at its steps. *)
Fixpoint safe {A} (Q : list Memory -> World -> res A -> Prop) (ms : list Memory) (K : World -> Prop) (p : prog (B:=B) A) : Prop :=
  match p with
  | Ret r => forall w, K w -> Q ms w r
  | Call op k => forall w r w', sound w -> K w -> uses op w r w' ->
      sound w' /\ moves w w' /\ exists K', stable K' /\ K' w' /\ forall s, let '(_, p) := k r s in safe Q (ms ++ [s]) K' p
  end.

(** ** Names *)

Lemma kept_snapshot : snapshotKey = keptKey +:+ "snapshot".
Proof. unfold stored_key, snapshotName. by rewrite !string_app_assoc. Qed.

Lemma starts_kept_snapshot : starts_with keptKey snapshotKey = true.
Proof. rewrite kept_snapshot. apply starts_with_app. Qed.

Lemma name_of_stored n : name_of (stored_key libraryId n) = n.
Proof. unfold FactStore.name_of, stored_key. induction libraryId as [|c s IH]; [by destruct n|exact IH]. Qed.

(** ** Reading *)

Lemma openAll_ok l :
  (forall key b, (key, b) ∈ l -> exists docs, openBatch openLocal (name_of key) b = Some docs) ->
  exists out, openAll openLocal libraryId l = Ok out /\
    Forall2 (fun p q => q.1 = p.1 /\ openBatch openLocal (name_of p.1) p.2 = Some q.2) l out.
Proof.
  induction l as [|[key b] l IH]; intros Hl; [by exists []|]. destruct (Hl key b) as [docs Hd]; [by left|].
  destruct IH as (out & Ho & Hf); [intros key' b' Hin; apply Hl; by right|]. exists ((key, docs) :: out). cbn [openAll]. unfold readBatchBytes.
  rewrite Hd. cbn. rewrite Ho. split; [done|]. by constructor.
Qed.

(** What a reader finds: the snapshot, and the batches of the journal. *)
Definition reads (v : Vault) (snapshot : option (B * list HeldDocument)) (journals : list (string * list HeldDocument)) : Prop :=
  match snapshot with
  | Some (b, docs) => batch_at v snapshotKey b docs
  | None => map_get snapshotKey v = None
  end /\
  forall key docs, (key, docs) ∈ journals <-> key <> snapshotKey /\ exists b, batch_at v key b docs.

Lemma openKept_ok w :
  sound w -> exists snapshot journals,
    openKept openLocal libraryId generation (vault_entries keptKey (w_vault w)) = Ok (snapshot, journals) /\ reads (w_vault w) snapshot journals.
Proof.
  intros [Hwf Hb _ _ _]. unfold openKept. set (held := byKey _).
  assert (Hheld : forall key b, (key, b) ∈ held <-> map_get key (w_vault w) = Some b /\ starts_with keptKey key = true)
    by (intros; unfold held; rewrite elem_of_byKey; by apply elem_of_vault_entries).
  destruct (openAll_ok (filter (fun p => p.1 <> snapshotKey) held)) as (journals & Ho & Hf).
  { intros key b [_ [Hg Hs]%Hheld]%list_elem_of_filter. destruct (Hb key b Hg Hs) as (_ & docs & (_ & _ & Hd) & _). eauto. }
  rewrite Ho. cbn [res_bind].
  assert (Hj : forall key docs, (key, docs) ∈ journals <-> key <> snapshotKey /\ exists b, batch_at (w_vault w) key b docs).
  { intros key docs. split.
    - intros Hin. apply list_elem_of_lookup in Hin as (i & Hi). destruct (Forall2_lookup_r _ _ _ _ _ Hf Hi) as ([key' b] & Hl & Ek & Hd). cbn in *. subst key'.
      apply list_elem_of_lookup_2, list_elem_of_filter in Hl as [Hne [Hg Hs]%Hheld]. split; [done|]. by exists b.
    - intros [Hne (b & Hg & Hs & Hd)]. assert (Hin : (key, b) ∈ filter (fun p => p.1 <> snapshotKey) held) by (apply list_elem_of_filter; split; [done|by apply Hheld]).
      apply list_elem_of_lookup in Hin as (i & Hi). destruct (Forall2_lookup_l _ _ _ _ _ Hf Hi) as ([key' docs'] & Hl & Ek & Hd'). cbn in *. subst key'.
      rewrite Hd in Hd'. injection Hd' as <-. by apply list_elem_of_lookup_2 in Hl. }
  destruct (filter (fun p => p.1 = snapshotKey) held) as [|[key b] rest] eqn:E.
  - exists None, journals. split; [done|]. split; [|done]. destruct (map_get snapshotKey (w_vault w)) as [b|] eqn:Eg; [|done].
    assert (Hin : (snapshotKey, b) ∈ filter (fun p => p.1 = snapshotKey) held) by (apply list_elem_of_filter; split; [done|apply Hheld; split; [done|apply starts_kept_snapshot]]).
    rewrite E in Hin. by apply not_elem_of_nil in Hin.
  - assert (Hin : (key, b) ∈ filter (fun p => p.1 = snapshotKey) held) by (rewrite E; by left).
    apply list_elem_of_filter in Hin as [Ek [Hg Hs]%Hheld]. cbn in Ek. subst key. destruct (Hb _ _ Hg Hs) as (_ & docs & (H1 & H2 & Hd) & _).
    unfold readBatchBytes. rewrite Hd. exists (Some (b, docs)), journals. done.
Qed.


Lemma elem_of_reads v snapshot journals h :
  reads v snapshot journals -> map_wf v ->
  h ∈ default [] (snd <$> snapshot) ++ concat journals.*2 <-> exists key b docs, batch_at v key b docs /\ h ∈ docs.
Proof.
  intros [Hs Hj] Hwf. rewrite elem_of_app. split.
  - intros [Hin|Hin].
    + destruct snapshot as [[b docs]|]; [|by apply not_elem_of_nil in Hin]. cbn in Hin. eauto.
    + apply elem_of_concat in Hin as (docs & Hin & Hd). apply list_elem_of_fmap in Hd as ([key docs'] & -> & Hd). apply Hj in Hd as [_ [b Hb]]. eauto.
  - intros (key & b & docs & Hb & Hin). destruct (decide (key = snapshotKey)) as [->|Hne].
    + left. destruct snapshot as [[b' docs']|]; [|destruct Hb; congruence]. cbn. destruct Hb as (Hb1 & _ & Hb2), Hs as (Hs1 & _ & Hs2). congruence.
    + right. apply elem_of_concat. exists docs. split; [done|]. apply list_elem_of_fmap. exists (key, docs). split; [done|]. apply Hj. eauto.
Qed.

Lemma reads_keys w snapshot journals : sound w -> reads (w_vault w) snapshot journals -> NoDup (hd_key <$> default [] (snd <$> snapshot)).
Proof. intros Hs [Hr _]. destruct snapshot as [[b docs]|]; cbn; [by apply (so_snapshot w Hs b)|constructor]. Qed.

(** The newest of what is stored is the newest of what was committed. *)
Lemma newest_kept w snapshot journals m :
  sound w -> reads (w_vault w) snapshot journals -> newest (default [] (snd <$> snapshot) ++ concat journals.*2) m -> newest (w_kept w) m.
Proof.
  intros Hs Hr Hm key. specialize (Hm key). destruct (map_get key m) as [h|].
  - destruct Hm as (Hin & Hk & Hle). split; [|split; [done|]].
    + apply (elem_of_reads _ _ _ _ Hr (so_wf _ Hs)) in Hin as (key' & b & docs & (Hg & Hst & Hd) & Hin).
      destruct (so_batches _ Hs key' b Hg Hst) as (_ & docs' & (_ & _ & Hd') & Hsub). apply Hsub. congruence.
    + intros h' (key' & b & docs & h0 & Hb & Hin0 & Hk0 & Hle0)%(so_cover _ Hs) Hk'. etrans; [exact Hle0|]. apply Hle; [|congruence].
      apply (elem_of_reads _ _ _ _ Hr (so_wf _ Hs)). eauto 10.
  - intros h' (key' & b & docs & h0 & Hb & Hin0 & Hk0 & _)%(so_cover _ Hs) Hk'. apply (Hm h0); [|congruence].
    apply (elem_of_reads _ _ _ _ Hr (so_wf _ Hs)). eauto 10.
Qed.

(** ** Names apart *)

Lemma starts_with_cancel p a s : starts_with (p +:+ a) (p +:+ s) = starts_with a s.
Proof. induction p as [|c p IH]; simpl; [done|]. by rewrite bool_decide_true, IH. Qed.

Lemma starts_with_has c p s : starts_with p s = true -> has_char c p = true -> has_char c s = true.
Proof. intros E%starts_with_inv Hc. rewrite E, has_char_app, Hc. done. Qed.

Lemma manifest_apart : starts_with keptKey manifestKey = false.
Proof.
  unfold stored_key, keptPrefix, namespace, manifestName. rewrite !string_app_assoc, !starts_with_cancel.
  change (":manifest") with (":" +:+ "manifest"). rewrite starts_with_cancel. destruct (starts_with _ _) eqn:E; [|done].
  apply (starts_with_has ":") in E; [done|]. rewrite has_char_app. cbn. by rewrite orb_true_r.
Qed.

Lemma get_deleted key (ks : list string) (v : Vault (B:=B)) :
  map_get key (vault_commit v (CDelete <$> ks)) = if decide (key ∈ ks) then None else map_get key v.
Proof.
  unfold vault_commit. revert v. induction ks as [|k ks IH]; intros v; cbn [fmap list_fmap foldl].
  - rewrite decide_False by apply not_elem_of_nil. done.
  - rewrite IH. cbn [vault_change]. rewrite map_get_delete. destruct (decide (key ∈ ks)) as [Hin|Hin].
    + rewrite decide_True by (by right). done.
    + destruct (decide (key = k)) as [Ek|Hne]; [rewrite decide_True by (subst; by left)|rewrite decide_False by set_solver]; done.
Qed.

Lemma wf_commit (changes : list (VaultChange (B:=B))) v : map_wf v -> map_wf (vault_commit v changes).
Proof.
  revert v. induction changes as [|c changes IH]; intros v Hv; [done|]. cbn. apply IH. destruct c; cbn; [by apply map_wf_set|by apply map_wf_delete].
Qed.

(** ** Folding *)

(** What a fold knows once it has read the vault. *)
Definition knows (snapshot : option (B * list HeldDocument)) (journals : list (string * list HeldDocument)) (w : World) : Prop :=
  match snapshot with Some (b, docs) => b ∈ w_placed w /\ openBatch openLocal (name_of snapshotKey) b = Some docs /\ NoDup (hd_key <$> docs) | None => True end /\
  (map_get snapshotKey (w_vault w) = fst <$> snapshot ->
   forall key docs, (key, docs) ∈ journals -> key <> snapshotKey /\ exists b, batch_at (w_vault w) key b docs).

Lemma knows_reads w snapshot journals : sound w -> reads (w_vault w) snapshot journals -> knows snapshot journals w.
Proof.
  intros Hs [Hr Hj]. split; [|intros _ key docs; apply Hj]. destruct snapshot as [[b docs]|]; [|done]. pose proof Hr as (Hg & Hst & Hd).
  destruct (so_batches _ Hs _ _ Hg Hst) as [Hp _]. split; [done|]. split; [done|]. by apply (so_snapshot _ Hs b).
Qed.

Lemma knows_stable snapshot journals : stable (knows snapshot journals).
Proof.
  intros w w' Hs Hs' [H1 H2] [Hp Hj Hsn _]. split.
  - destruct snapshot as [[b docs]|]; [|done]. destruct H1 as (? & ? & ?). auto.
  - intros E key docs Hin. destruct (decide (map_get snapshotKey (w_vault w') = map_get snapshotKey (w_vault w))) as [Eq|Ne].
    + rewrite Eq in E. destruct (H2 E key docs Hin) as (? & b & Hg & Hst & Hd). split; [done|]. exists b. split; [by apply Hj|done].
    + exfalso. destruct (Hsn Ne) as (b & Hb & Hfresh). rewrite Hb in E. destruct snapshot as [[b' docs']|]; [|done]. cbn in E. injection E as ->.
      by destruct H1 as (? & _).
Qed.

(** The fold of what was read, under the snapshot it read. *)
Lemma sound_fold w snapshot journals sealed :
  sound w -> knows snapshot journals w -> map_get snapshotKey (w_vault w) = fst <$> snapshot -> sealed ∉ w_placed w ->
  openLocal (snapshotName generation) sealed = Some (encodeBatch (map_values (replay (default [] (snd <$> snapshot)) journals.*2))) ->
  let changes := CPut snapshotKey sealed :: (CDelete <$> journals.*1) in
  sound (committed w changes) /\ moves w (committed w changes).
Proof.
  intros Hs [Hsnap Hj] Esnap Hfresh Hopen changes. set (w' := committed w changes). specialize (Hj Esnap). set (snap := default [] (snd <$> snapshot)) in *.
  set (m := replay snap journals.*2) in *. assert (Hnd : NoDup (hd_key <$> snap)) by (unfold snap; destruct snapshot as [[b docs]|]; [apply Hsnap|constructor]).
  pose proof (replay_newest snap journals.*2 Hnd) as Hn. fold m in Hn.
  assert (Hput : puts changes = [sealed]).
  { unfold changes, puts. cbn. f_equal. generalize (journals.*1). intros ks. induction ks as [|k ks IH]; [done|exact IH]. }
  assert (Hget : forall key, map_get key (w_vault w') = if decide (key = snapshotKey) then Some sealed else if decide (key ∈ journals.*1) then None else map_get key (w_vault w)).
  { intros key. unfold w', changes. unfold committed. cbn [w_vault vault_commit foldl vault_change]. fold (vault_commit (map_set snapshotKey sealed (w_vault w)) (CDelete <$> journals.*1)).
    rewrite get_deleted, map_get_set. destruct (decide (key ∈ journals.*1)) as [Hin|Hin]; [|by case_decide]. rewrite decide_False; [done|].
    intros ->. apply list_elem_of_fmap in Hin as ([k docs] & Ek & Hin). cbn in Ek. subst k. by destruct (Hj _ _ Hin). }
  assert (Hsrc : forall h, h ∈ snap ++ concat journals.*2 -> exists key b docs, batch_at (w_vault w) key b docs /\ h ∈ docs).
  { intros h [Hin|Hin]%elem_of_app.
    - unfold snap in Hin. destruct snapshot as [[b docs]|]; [|by apply not_elem_of_nil in Hin]. exists snapshotKey, b, docs. split; [|done].
      split; [done|]. split; [apply starts_kept_snapshot|apply Hsnap].
    - apply elem_of_concat in Hin as (docs & Hin & Hd). apply list_elem_of_fmap in Hd as ([key docs'] & -> & Hd).
      destruct (Hj _ _ Hd) as (_ & b & Hb). eauto. }
  assert (Hkept : forall h, h ∈ snap ++ concat journals.*2 -> h ∈ w_kept w /\ decodable h).
  { intros h (key & b & docs & (Hg & Hst & Hd) & Hin)%Hsrc. destruct (so_batches _ Hs _ _ Hg Hst) as (_ & docs' & (_ & _ & Hd') & Hsub).
    assert (docs' = docs) as -> by congruence. split; [by apply Hsub|]. unfold openBatch in Hd. destruct (openLocal _ b) as [j|]; [|done].
    cbn in Hd. apply validBatch_decodable in Hd. by apply (proj1 (Forall_forall _ _) Hd). }
  assert (Hvals : forall h, h ∈ map_values m -> h ∈ snap ++ concat journals.*2) by (intros h Hin; by apply (newest_values _ m h Hn (wf_replay _ _))).
  assert (Hbatch : batch_at (w_vault w') snapshotKey sealed (map_values m)).
  { split; [by rewrite Hget, decide_True|]. split; [apply starts_kept_snapshot|]. rewrite name_of_stored. unfold openBatch. rewrite Hopen. cbn.
    apply validBatch_encode, Forall_forall. intros h Hin. by apply Hkept, Hvals. }
  split.
  - split.
    + apply wf_commit, Hs.
    + intros key b Hg Hst. rewrite Hget in Hg. unfold w', committed. cbn [w_placed]. rewrite Hput. case_decide as Ek.
      * subst key. injection Hg as <-. split; [by left|]. exists (map_values m). split; [done|]. intros h Hin. by apply Hkept, Hvals.
      * case_decide as Ej; [done|]. destruct (so_batches _ Hs _ _ Hg Hst) as (Hp & docs & (_ & _ & Hd) & Hsub). split; [by right|]. exists docs.
        split; [|done]. split; [by rewrite Hget, !decide_False|done].
    + intros b docs (Hg & _ & Hd). destruct Hbatch as (Hg' & _ & Hd'). assert (b = sealed) as -> by congruence. assert (docs = map_values m) as -> by congruence.
      by apply replay_keys.
    + intros h (key & b & docs & h' & (Hg & Hst & Hd) & Hin & Hk & Hle)%(so_cover _ Hs).
      assert (Hcase : h' ∈ snap ++ concat journals.*2 \/ key <> snapshotKey /\ key ∉ journals.*1).
      { destruct (decide (key = snapshotKey)) as [->|Hne]; [left; apply elem_of_app; left|].
        - unfold snap. rewrite Esnap in Hg. destruct snapshot as [[b0 docs0]|]; [|done]. cbn in Hg |- *. injection Hg as ->. destruct Hsnap as (_ & Hd0 & _). congruence.
        - destruct (decide (key ∈ journals.*1)) as [Hin'|]; [left|by right]. apply list_elem_of_fmap in Hin' as ([k docs0] & Ek & Hin'). cbn in Ek. subst k.
          destruct (Hj _ _ Hin') as (_ & b0 & Hg0 & _ & Hd0). apply elem_of_app. right. apply elem_of_concat. exists docs. split; [done|].
          apply list_elem_of_fmap. exists (key, docs0). split; [cbn; congruence|done]. }
      destruct Hcase as [Hall|[Hne Hnj]].
      * specialize (Hn (hd_key h')). destruct (map_get (hd_key h') m) as [h2|] eqn:E2; [|by destruct (Hn h' Hall)]. destruct Hn as (_ & Hk2 & Hle2).
        exists snapshotKey, sealed, (map_values m), h2. split; [done|]. split; [apply map_values_elem; exists (hd_key h'); by apply map_get_elem|].
        split; [congruence|]. specialize (Hle2 h' Hall eq_refl). lia.
      * exists key, b, docs, h'. split; [|done]. split; [by rewrite Hget, !decide_False|done].
    + intros b mf. rewrite Hget. assert (manifestKey <> snapshotKey) by (intros E; pose proof manifest_apart as Ha; rewrite E, starts_kept_snapshot in Ha; done).
      rewrite decide_False by done. case_decide; [done|]. apply (so_layout _ Hs).
  - split.
    + intros b Hb. apply elem_of_app. by right.
    + intros key b E. exfalso. rewrite Hget, decide_True in E by done. rewrite Esnap in E. destruct snapshot as [[b0 docs0]|]; [|done].
      cbn in E. injection E as ->. by destruct Hsnap.
    + intros _. exists sealed. split; [by rewrite Hget, decide_True|done].
    + done.
Qed.

(** ** Programs *)

Lemma stable_true : stable (fun _ => True).
Proof. done. Qed.

#[local] Arguments keptPrefix : simpl never.
#[local] Arguments snapshotName : simpl never.
#[local] Arguments manifestName : simpl never.
#[local] Arguments recordPrefix : simpl never.
#[local] Arguments stored_key : simpl never.
#[local] Arguments openKept : simpl never.
#[local] Arguments vault_entries : simpl never.
#[local] Arguments safe : simpl never.
#[local] Arguments replay : simpl never.
#[local] Arguments encodeBatch : simpl never.

(** A use that changes nothing needs only what follows it. *)
Lemma safe_read {A} Q ms K (op : Eff) (k : res (answer op) -> Memory -> Memory * prog (B:=B) A) :
  (forall w r w', uses op w r w' -> w' = w) ->
  (forall w r, sound w -> K w -> uses op w r w -> exists K', stable K' /\ K' w /\ forall s, safe Q (ms ++ [s]) K' (k r s).2) ->
  safe Q ms K (Call op k).
Proof.
  intros Hsame Hk w r w' Hs HK Hu. assert (w' = w) as -> by (by eapply Hsame). split; [done|]. split; [apply moves_refl|].
  destruct (Hk w r Hs HK Hu) as (K2 & H1 & H2 & H3). exists K2. split; [done|]. split; [done|]. intros s. specialize (H3 s). by destruct (k r s).
Qed.

(** What a task answers: a fold nothing, a reader the documents. *)
Definition Answer : Type := option (jsmap string StoredLibraryDocument).
Definition fold_task (s : Memory) : prog (B:=B) Answer := (bind (compact openLocal libraryId true generation) (fun _ => ret None) s).2.
Definition read_task (fuel : nat) (s : Memory) : prog (B:=B) Answer :=
  (bind (heldDocuments openLocal libraryId true fuel generation) (fun documents => ret (Some documents)) s).2.

(** The documents a store remembered at one of the steps, under a revision. *)
Definition remembered (ms : list Memory) (documents : jsmap string StoredLibraryDocument) : Prop :=
  exists c, Some c ∈ ms /\ ca_generation c = generation /\ is_Some (ca_revision c) /\ documents = ca_documents c.

(** Versions that were committed, of each document one at least as new as those of [since]. *)
Definition up_to_date (since : list HeldDocument) (w : World) (documents : jsmap string StoredLibraryDocument) : Prop :=
  exists m, documents = stored_all m /\ (forall key h, map_get key m = Some h -> hd_key h = key /\ h ∈ w_kept w) /\
    forall h, h ∈ since -> exists h', map_get (hd_key h) m = Some h' /\ hd_seq h <= hd_seq h'.

Definition answers (since : list HeldDocument) (ms : list Memory) (w : World) (r : res Answer) : Prop :=
  match r with Ok (Some documents) => remembered ms documents \/ up_to_date since w documents | _ => True end.

Lemma safe_compact since ms s : safe (answers since) ms (fun _ => True) (fold_task s).
Proof.
  unfold fold_task, compact, readKept, bind, call, lift. cbn. apply safe_read.
  { intros w r w' [[_ ?]|[_ ?]]; done. }
  intros w r Hs _ [[-> _]|[[m ->] _]]; cycle 1.
  { exists (fun _ => True). split; [apply stable_true|]. done. }
  destruct (openKept_ok w Hs) as (snapshot & journals & Ho & Hr).
  exists (knows snapshot journals). split; [apply knows_stable|]. split; [by apply knows_reads|]. intros s1. cbn. rewrite Ho. cbn.
  apply safe_read; [intros w0 r w' [[_ ?]|[_ ?]]; done|]. intros w1 r Hs1 HK1 [[(sealed & Hseal & ->) _]|[[m ->] _]]; cycle 1.
  { exists (fun _ => True). split; [apply stable_true|]. done. }
  exists (knows snapshot journals). split; [apply knows_stable|]. split; [done|]. intros s2. cbn.
  intros w2 r w3 Hs2 HK2 Hu. assert (Hstep : sound w3 /\ moves w2 w3).
  { destruct Hu as [Hp|[_ ->]]; [|by split; [|apply moves_refl]]. cbn in Hp. case_decide as E; cycle 1.
    { destruct Hp as [_ ->]. by split; [|apply moves_refl]. }
    destruct Hp as (Hf & _ & ->). apply (sound_fold w2 snapshot journals sealed); try done. apply Hf. by left. }
  destruct Hstep as [H1 H2]. split; [done|]. split; [done|]. exists (fun _ => True). split; [apply stable_true|]. split; [done|].
  intros s3. destruct r as [b|m]; [|done]. destruct s3 as [c|]; [|done]. by destruct (_ && _).
Qed.

(** What a reader knows: what it must be as new as, and then that what it read was committed. *)
Lemma stable_since (since : list HeldDocument) : stable (fun w => forall h, h ∈ since -> h ∈ w_kept w).
Proof. intros w w' _ _ HK Hm h Hin. apply (mv_kept _ _ Hm). auto. Qed.

Lemma stable_up_to_date since documents : stable (fun w => up_to_date since w documents).
Proof.
  intros w w' _ _ (m & E & Hin & Hle) Hm. exists m. split; [done|]. split; [|done]. intros key h Hg. destruct (Hin key h Hg). split; [done|].
  by apply (mv_kept _ _ Hm).
Qed.

Lemma replay_up_to_date since w snapshot journals :
  sound w -> (forall h, h ∈ since -> h ∈ w_kept w) -> reads (w_vault w) snapshot journals ->
  up_to_date since w (stored_all (replay (default [] (snd <$> snapshot)) journals.*2)).
Proof.
  intros Hs Hsince Hr. set (m := replay _ _).
  assert (Hn : newest (w_kept w) m) by (eapply newest_kept; [done..|]; apply replay_newest; by eapply reads_keys).
  exists m. split; [done|]. split.
  - intros key h Hg. specialize (Hn key). rewrite Hg in Hn. by destruct Hn as (? & ? & _).
  - intros h Hin%Hsince. specialize (Hn (hd_key h)). destruct (map_get (hd_key h) m) as [h'|]; [|by destruct (Hn h)].
    exists h'. split; [done|]. by apply Hn.
Qed.

(** Reading, in the snapshot layout. *)
Lemma safe_heldDocuments since ms fuel s : safe (answers since) ms (fun w => forall h, h ∈ since -> h ∈ w_kept w) (read_task fuel s).
Proof.
  unfold read_task, heldDocuments, readManifest, bind, call, recall. cbn. apply safe_read; [intros w0 r w' [[_ ?]|[_ ?]]; done|].
  intros w r Hs HK [[-> _]|[[m ->] _]]; (eexists; split; [apply (stable_since since)|]); (split; [done|]); [|done]. intros s1. cbn.
  set (manifest := map_get manifestKey (w_vault w) ≫= openManifest openLocal).
  set (current := match manifest with Some m => _ | None => _ end). set (cached := match current with Some m => _ | None => _ end).
  destruct cached as [documents|] eqn:Hcached.
  { intros w' _. left. unfold cached in Hcached. destruct current as [m|]; [|done]. destruct s1 as [c|]; [|done].
    destruct (_ && _ && _) eqn:Ec; [|done]. injection Hcached as <-. apply andb_true_iff in Ec as [[Hrev%bool_decide_eq_true Hg%String.eqb_eq]%andb_true_iff Heq%bool_decide_eq_true].
    exists c. split; [apply elem_of_app; right; by left|]. split; [done|]. by rewrite Heq. }
  clear cached Hcached.
  assert (Hlayout : forall m, current = Some m -> in_layout m = true).
  { intros m Hm. unfold current, manifest in Hm. destruct (map_get manifestKey (w_vault w)) as [b|] eqn:Eb; [|done]. cbn in Hm.
    destruct (openManifest openLocal b) as [m'|] eqn:Em; [|done]. destruct (String.eqb_spec (mf_generation m') generation) as [Eg|]; [|done].
    injection Hm as <-. by apply (so_layout _ Hs b). }
  destruct current as [m|] eqn:Ec; cbn; [rewrite (Hlayout m eq_refl); cbn|].
  all: apply safe_read; [intros w0 r w' [[_ ?]|[_ ?]]; done|]; intros w1 r Hs1 HK1 [[-> _]|[[e ->] _]];
    [|by (eexists; split; [apply (stable_since since)|]; split; [exact HK1|])].
  all: destruct (openKept_ok w1 Hs1) as (snapshot & journals & Ho & Hr); eexists; (split; [apply (stable_up_to_date since)|]);
    (split; [by apply (replay_up_to_date since w1 snapshot journals)|]); intros s2; cbn; rewrite Ho; cbn; intros w2 Hup; by right.
Qed.

(** ** Commits *)

Definition journalKey (suffix : string) : string := stored_key libraryId (journalPrefix generation +:+ suffix).
Definition change_key (c : VaultChange (B:=B)) : string := match c with CPut key _ | CDelete key => key end.

(** Changes that leave the documents of the generation alone: other generations, facts, the manifest, history. *)
Definition outside (changes : list (VaultChange (B:=B))) : Prop := Forall (fun c => starts_with keptKey (change_key c) = false) changes.

(** The manifest does not go back to an earlier layout. *)
Definition laid_out (v : Vault) : Prop := forall b m, map_get manifestKey v = Some b -> openManifest openLocal b = Some m ->
  mf_generation m = generation -> in_layout m = true.

(** A batch of entries put under a new name of the journal, with the rest of the transaction. *)
Definition keep_changes (suffix : string) (b : B) (others : list VaultChange) : list VaultChange := CPut (journalKey suffix) b :: others.
Definition kept_world (w : World) (suffix : string) (b : B) (docs : list HeldDocument) (others : list VaultChange) : World :=
  mkWorld (vault_commit (w_vault w) (keep_changes suffix b others)) (puts (keep_changes suffix b others) ++ w_placed w) (w_kept w ++ docs).

Lemma get_outside changes v key :
  outside changes -> starts_with keptKey key = true -> map_get key (vault_commit v changes) = map_get key v.
Proof.
  intros Ho Hk. revert v. induction Ho as [|c changes Hc _ IH]; intros v; [done|]. unfold vault_commit in *. cbn [foldl]. rewrite IH.
  destruct c as [key' b|key']; cbn in *; [rewrite map_get_set_ne|rewrite map_get_delete_ne]; try done; congruence.
Qed.

Lemma kept_journal suffix : journalKey suffix = keptKey +:+ "journal:" +:+ suffix.
Proof. unfold journalKey, stored_key, journalPrefix. by rewrite !string_app_assoc. Qed.

Lemma journal_not_snapshot suffix : journalKey suffix <> snapshotKey.
Proof. rewrite kept_journal, kept_snapshot. by intros ?%string_app_inj_l. Qed.

Lemma sound_keep w suffix b docs others :
  sound w -> map_get (journalKey suffix) (w_vault w) = None -> fresh w (keep_changes suffix b others) -> outside others ->
  openBatch openLocal (name_of (journalKey suffix)) b = Some docs -> laid_out (vault_commit (w_vault w) (keep_changes suffix b others)) ->
  sound (kept_world w suffix b docs others) /\ moves w (kept_world w suffix b docs others).
Proof.
  intros Hs Hnew Hf Ho Hd Hl. set (w' := kept_world w suffix b docs others). set (jk := journalKey suffix) in *.
  assert (Hst : starts_with keptKey jk = true) by (unfold jk; rewrite kept_journal; apply starts_with_app).
  assert (Hget : forall key, starts_with keptKey key = true -> map_get key (w_vault w') = if decide (key = jk) then Some b else map_get key (w_vault w)).
  { intros key Hk. change (w_vault w') with (vault_commit (map_set jk b (w_vault w)) others). rewrite get_outside by done. apply map_get_set. }
  assert (Hbatch : forall key b' docs', batch_at (w_vault w) key b' docs' -> batch_at (w_vault w') key b' docs').
  { intros key b' docs' (Hg & Hk & Ho'). split; [|done]. rewrite Hget by done. rewrite decide_False; [done|]. intros ->. congruence. }
  assert (Hj : batch_at (w_vault w') jk b docs) by (split; [by rewrite Hget, decide_True|done]).
  assert (Hsk : map_get snapshotKey (w_vault w') = map_get snapshotKey (w_vault w)).
  { rewrite Hget by apply starts_kept_snapshot. rewrite decide_False; [done|]. intros E. by apply (journal_not_snapshot suffix). }
  split.
  - split.
    + apply wf_commit, Hs.
    + intros key b' Hg Hk. rewrite Hget in Hg by done. case_decide as Ek.
      * subst key. injection Hg as <-. split; [apply elem_of_app; left; by left|]. exists docs. split; [done|]. intros h Hin. apply elem_of_app. by right.
      * destruct (so_batches _ Hs _ _ Hg Hk) as (Hp & docs' & Hb & Hsub). split; [apply elem_of_app; by right|]. exists docs'. split; [by apply Hbatch|].
        intros h Hin. apply elem_of_app. left. by apply Hsub.
    + intros b' docs' (Hg & Hk & Hd'). rewrite Hsk in Hg. by apply (so_snapshot _ Hs b').
    + intros h [Hin|Hin]%elem_of_app; [|exists jk, b, docs, h; done].
      destruct (so_cover _ Hs h Hin) as (key & b' & docs' & h' & Hb & Hr). exists key, b', docs', h'. split; [by apply Hbatch|done].
    + exact Hl.
  - split.
    + intros b' Hb. apply elem_of_app. by right.
    + intros key b' _ Hk Hg. rewrite Hget by done. rewrite decide_False; [done|]. intros ->. congruence.
    + intros Hne. by rewrite Hsk in Hne.
    + intros h Hin. apply elem_of_app. by left.
Qed.

(** ** Runs *)

(** A task: what is left of it, the documents committed when it began, and what its store remembered at each step. *)
Record Task : Type := mkTask { tk_prog : prog (B:=B) Answer; tk_since : list HeldDocument; tk_memories : list Memory }.

(** Stores start folds and reads, take their steps in any order and stop anywhere; batches are committed meanwhile. A
    step goes on with whatever its store remembers by then. *)
Inductive reach (w0 : World) : World -> list Task -> Prop :=
| reach_start : reach w0 w0 []
| reach_fold w tasks s : reach w0 w tasks -> reach w0 w (tasks ++ [mkTask (fold_task s) (w_kept w) [s]])
| reach_read w tasks fuel s : reach w0 w tasks -> reach w0 w (tasks ++ [mkTask (read_task fuel s) (w_kept w) [s]])
| reach_step w before op k since ms after r w' s :
    reach w0 w (before ++ mkTask (Call op k) since ms :: after) -> uses op w r w' -> reach w0 w' (before ++ mkTask (k r s).2 since (ms ++ [s]) :: after)
| reach_keep w tasks suffix b docs others :
    reach w0 w tasks -> map_get (journalKey suffix) (w_vault w) = None -> fresh w (keep_changes suffix b others) -> outside others ->
    openBatch openLocal (name_of (journalKey suffix)) b = Some docs -> laid_out (vault_commit (w_vault w) (keep_changes suffix b others)) ->
    reach w0 (kept_world w suffix b docs others) tasks
| reach_stop w before t after : reach w0 w (before ++ t :: after) -> reach w0 w (before ++ after).

Definition carries (w : World) (t : Task) : Prop := exists K, stable K /\ K w /\ safe (answers (tk_since t)) (tk_memories t) K (tk_prog t).

Lemma carries_moves w w' t : sound w -> sound w' -> moves w w' -> carries w t -> carries w' t.
Proof. intros Hs Hs' Hm (K & Hst & HK & Hsafe). exists K. split; [done|]. split; [by apply (Hst w)|done]. Qed.

Lemma store_sound w0 w tasks : sound w0 -> reach w0 w tasks -> sound w /\ Forall (carries w) tasks.
Proof.
  intros H0 Hr. induction Hr as [|w tasks s _ [Hs Ht]|w tasks fuel s _ [Hs Ht]|w before op k since ms after r w' s _ [Hs Ht] Hu|w tasks suffix b docs others _ [Hs Ht] Hn Hf Ho Hd Hl|w before t after _ [Hs Ht]].
  - by split.
  - split; [done|]. apply Forall_app. split; [done|]. apply Forall_singleton. exists (fun _ => True). split; [apply stable_true|]. split; [done|apply safe_compact].
  - split; [done|]. apply Forall_app. split; [done|]. apply Forall_singleton. eexists. split; [apply (stable_since (w_kept w))|]. split; [done|apply safe_heldDocuments].
  - apply Forall_app in Ht as [Hb Ht]. apply Forall_cons in Ht as [(K & Hst & HK & Hsafe) Ha].
    destruct (Hsafe w r w' Hs HK Hu) as (Hs' & Hm & K' & Hst' & HK' & Hk). split; [done|].
    apply Forall_app. split; [by eapply Forall_impl; [exact Hb|]; intros p; apply carries_moves|]. apply Forall_cons. split.
    + exists K'. split; [done|]. split; [done|]. cbn [tk_prog tk_since tk_memories]. specialize (Hk s). by destruct (k r s).
    + by eapply Forall_impl; [exact Ha|]; intros p; apply carries_moves.
  - destruct (sound_keep w suffix b docs others Hs Hn Hf Ho Hd Hl) as [Hs' Hm]. split; [done|]. by eapply Forall_impl; [exact Ht|]; intros p; apply carries_moves.
  - split; [done|]. apply Forall_app in Ht as [Hb Ht]. apply Forall_cons in Ht as [_ Ha]. by apply Forall_app.
Qed.

(** A task that answered. *)
Lemma carries_answer w t r : carries w t -> tk_prog t = Ret r -> answers (tk_since t) (tk_memories t) w r.
Proof. intros (K & _ & HK & Hsafe) E. rewrite E in Hsafe. by apply Hsafe. Qed.

(** What [heldDocuments] reads of a vault in the snapshot layout. *)
Definition kept_documents (v : Vault) : res (jsmap string HeldDocument) :=
  let! kept := openKept openLocal libraryId generation (vault_entries keptKey v) in
  Ok (replay (default [] (snd <$> kept.1)) kept.2.*2).
End Runs.

(** C8: what is committed is never lost or undone. However many stores commit, fold their journals into the snapshot and
    read at once, in whatever order their steps come and wherever they stop: the documents of the generation open, and
    of each key they hold a version with the greatest sequence of all that were ever committed; and the documents a
    reader answered are those its store remembered at one of its steps, or committed versions, of each document one at
    least as new as all that were committed before the reader began. *)
Theorem kept_newest `{UriEncoding} {B} `{!EqDecision B} (openLocal : string -> B -> option json) libraryId generation w0 w tasks :
  sound openLocal libraryId generation w0 -> reach openLocal libraryId generation w0 w tasks ->
  (exists m, kept_documents openLocal libraryId generation (w_vault w) = Ok m /\ newest (w_kept w) m) /\
  forall t documents, t ∈ tasks -> tk_prog t = Ret (Ok (Some documents)) ->
    remembered generation (tk_memories t) documents \/ up_to_date (tk_since t) w documents.
Proof.
  intros H0 Hr. destruct (store_sound _ _ _ w0 w tasks H0 Hr) as [Hs Ht]. split.
  - destruct (openKept_ok _ _ _ w Hs) as (snapshot & journals & Ho & Hrd).
    unfold kept_documents. rewrite Ho. cbn. eexists. split; [done|]. eapply newest_kept; [done..|]. apply replay_newest. by eapply reads_keys.
  - intros t documents Hin E. exact (carries_answer _ _ _ w t _ (proj1 (Forall_forall _ _) Ht t Hin) E).
Qed.
