(* ===== verification/FactConvert.v ===== *)
(** * Converting an earlier build's records

    Alone, the conversion to a snapshot can stop anywhere without changing what is read ([convert_safe]); two stores
    that convert at once can lose every document ([convert_race]). *)

From S2P Require Import Prelude JsMap JsText Json HistoryIndex FactStore FactStoreSafety.
Open Scope Z_scope.

(** ** Paging *)

Section Paging.
Context `{UriEncoding} {B : Type} (libraryId generation : string).
Implicit Types v : Vault (B:=B).

Abbreviation keptKey := (stored_key libraryId (keptPrefix generation)).
Abbreviation recordKey := (stored_key libraryId (recordPrefix generation)).
Abbreviation snapshotKey := (stored_key libraryId (snapshotName generation)).
Abbreviation manifestKey := (stored_key libraryId manifestName).

Definition key_lt (a b : string * B) : Prop := str_ltb a.1 b.1 = true.

Lemma entries_sorted prefix v : map_wf v -> StronglySorted key_lt (vault_entries prefix v).
Proof.
  intros Hwf. unfold vault_entries, byKey. set (l := filter _ v).
  assert (Hnd : NoDup l.*1) by (apply (map_wf_filter (fun p => starts_with prefix p.1 = true) v Hwf)).
  pose proof (js_sort_sorted (fun a b : string * B => str_cmp a.1 b.1) (Comparator0 := comparator_on fst str_cmp _) l) as Hs.
  assert (Hnd' : NoDup (js_sort (fun a b : string * B => str_cmp a.1 b.1) l).*1) by (by rewrite js_sort_perm). revert Hnd'.
  induction Hs as [|x l' Hl' IH Hx]; intros Hnd'; [constructor|]. apply NoDup_cons in Hnd' as [Hnx Hnd']. constructor; [by apply IH|].
  apply Forall_forall. intros y Hy. pose proof (proj1 (Forall_forall _ _) Hx y Hy) as Hle. unfold cmp_le in Hle. apply str_cmp_le in Hle.
  unfold key_lt. destruct (str_ltb x.1 y.1) eqn:E; [done|]. destruct Hnx. rewrite (str_ltb_total _ _ E Hle). by apply list_elem_of_fmap_2.
Qed.

Definition after_key (after : option string) (p : string * B) : Prop := match after with Some a => str_ltb a p.1 | None => true end = true.
#[local] Instance after_key_dec after p : Decision (after_key after p).
Proof. unfold after_key. apply _. Defined.

(** The records past a key. *)
Definition rest_after (after : option string) v : list (string * B) := filter (after_key after) (vault_entries recordKey v).

Lemma vault_page_rest after v : vault_page recordKey after DOCUMENT_PAGE v = take DOCUMENT_PAGE (rest_after after v).
Proof. unfold vault_page, rest_after. f_equal. Qed.

Lemma rest_next v after final :
  map_wf v -> last (take DOCUMENT_PAGE (rest_after after v)) = Some final ->
  rest_after (Some final.1) v = drop DOCUMENT_PAGE (rest_after after v).
Proof.
  intros Hwf Hlast. set (E := rest_after after v) in *.
  assert (HE : StronglySorted key_lt E).
  { unfold E, rest_after. pose proof (entries_sorted recordKey v Hwf) as Hs. induction Hs as [|x l Hl IH Hx]; [constructor|]. rewrite filter_cons.
    case_decide; [|done]. constructor; [done|]. apply Forall_forall. intros y [_ Hy]%list_elem_of_filter. by apply (proj1 (Forall_forall _ _) Hx). }
  assert (Hf : final ∈ E) by (apply last_Some in Hlast as [l Hl]; rewrite <- (take_drop DOCUMENT_PAGE E), Hl; set_solver).
  assert (Ha : after_key after final) by (unfold E, rest_after in Hf; by apply list_elem_of_filter in Hf as [? _]).
  transitivity (filter (after_key (Some final.1)) E).
  { unfold E, rest_after. rewrite list_filter_filter. apply list_filter_iff. intros x. split; [|tauto]. intros Hx. split; [done|].
    unfold after_key in *. destruct after as [a|]; [|done]. by apply (str_ltb_trans a final.1). }
  rewrite <- (take_drop DOCUMENT_PAGE E) at 1. rewrite filter_app. rewrite <- (take_drop DOCUMENT_PAGE E) in HE. apply StronglySorted_app in HE as (Hlt & Ht & _).
  apply last_Some in Hlast as [l Hl]. rewrite Hl in *. rewrite filter_none, filter_all; [done| |].
  - intros x Hx. unfold after_key. apply (Hlt final x); [set_solver|done].
  - intros x [Hx|Hx%list_elem_of_singleton]%elem_of_app; unfold after_key.
    + apply StronglySorted_app in Ht as (Hlt' & _). assert (Hxf : key_lt x final) by (apply Hlt'; set_solver). rewrite (str_ltb_asym _ _ Hxf). done.
    + subst x. by rewrite str_ltb_irrefl.
Qed.
End Paging.

(** ** A store alone *)

Section Alone.
Context `{UriEncoding} {B : Type} `{!EqDecision B} (openLocal : string -> B -> option json) (libraryId generation : string).
Implicit Types v : Vault (B:=B).
Implicit Types w : World (B:=B).

Abbreviation keptKey := (stored_key libraryId (keptPrefix generation)).
Abbreviation recordKey := (stored_key libraryId (recordPrefix generation)).
Abbreviation snapshotKey := (stored_key libraryId (snapshotName generation)).
Abbreviation manifestKey := (stored_key libraryId manifestName).

#[local] Opaque DOCUMENT_PAGE.
#[local] Arguments keptPrefix : simpl never.
#[local] Arguments snapshotName : simpl never.
#[local] Arguments manifestName : simpl never.
#[local] Arguments recordPrefix : simpl never.
#[local] Arguments stored_key : simpl never.
#[local] Arguments vault_entries : simpl never.
#[local] Arguments vault_page : simpl never.
#[local] Arguments encodeBatch : simpl never.

(** A program no other interferes with: [I] holds of every vault it passes through, [Q] at its end. A use may fail, and
    the program may be stopped at any of them. *)
Fixpoint alone {A} (I : World -> Prop) (Q : World -> res A -> Prop) (w : World) (p : prog (B:=B) A) : Prop :=
  I w /\
  match p with
  | Ret r => Q w r
  | Call op k => forall r w' s, uses openLocal op w r w' -> let '(_, p) := k r s in alone I Q w' p
  end.

Definition triple {A} (I P : World -> Prop) (m : M (B:=B) A) (Q : World -> res A -> Prop) : Prop :=
  forall w s, I w -> P w -> alone I Q w (m s).2.

Lemma alone_bind {A C} I (Q : World -> res A -> Prop) (Q' : World -> res C -> Prop) (f : res A -> M (B:=B) C) :
  (forall w r s, I w -> Q w r -> alone I Q' w (f r s).2) ->
  forall (p : prog (B:=B) A) w s, alone I Q w p -> alone I Q' w (prog_bind p f s).2.
Proof.
  intros Hf. fix IH 1. intros [r|op k] w s; cbn; intros [HI Hp]; [by apply Hf|]. split; [done|]. intros r w' s' Hu.
  specialize (Hp r w' s' Hu). destruct (k r s') as [s2 p]. destruct (prog_bind p f s2) as [s3 p'] eqn:E.
  change p' with ((s3, p').2). rewrite <- E. by apply IH.
Qed.

Lemma alone_impl {A} I (Q Q' : World -> res A -> Prop) :
  (forall w r, Q w r -> Q' w r) -> forall (p : prog (B:=B) A) w, alone I Q w p -> alone I Q' w p.
Proof.
  intros Hq. fix IH 1. intros [r|op k] w; cbn; intros [HI Hp]; (split; [done|]); [by apply Hq|]. intros r w' s Hu. specialize (Hp r w' s Hu).
  destruct (k r s). by apply IH.
Qed.

Lemma triple_bind {A C} I P (m : M (B:=B) A) (f : A -> M (B:=B) C) (Q : World -> res A -> Prop) (Q' : World -> res C -> Prop) :
  triple I P m Q -> (forall a, triple I (fun w => Q w (Ok a)) (f a) Q') -> (forall w e, I w -> Q w (Throw e) -> Q' w (Throw e)) ->
  triple I P (bind m f) Q'.
Proof.
  intros Hm Hf He w s HI HP. specialize (Hm w s HI HP). unfold bind. destruct (m s) as [s2 p]. eapply alone_bind; [|exact Hm].
  intros w' [a|e] s' HI' HQ; [by apply Hf|]. cbn. split; [done|by apply He].
Qed.

Lemma triple_catch {A} I P (m : M (B:=B) A) h (Q Q' : World -> res A -> Prop) :
  triple I P m Q -> (forall w a, Q w (Ok a) -> Q' w (Ok a)) -> (forall e, triple I (fun w => Q w (Throw e)) (h e) Q') -> triple I P (try_catch m h) Q'.
Proof.
  intros Hm Hok Hh w s HI HP. specialize (Hm w s HI HP). unfold try_catch. destruct (m s) as [s2 p]. eapply alone_bind; [|exact Hm].
  intros w' [a|e] s' HI' HQ; [|by apply Hh]. cbn. split; [done|by apply Hok].
Qed.

Lemma triple_call I P op (Q : World -> res (answer op) -> Prop) :
  (forall w r w', I w -> P w -> uses openLocal op w r w' -> I w' /\ Q w' r) -> triple I P (call op) Q.
Proof. intros Hc w s HI HP. cbn. split; [done|]. intros r w' _ Hu. by apply (Hc w r w'). Qed.

(** A use that changes nothing: it answers what it reads, or fails. *)
Lemma triple_get I (P : World -> Prop) key :
  triple I P (call (Get key)) (fun w r => P w /\ (r = Ok (map_get key (w_vault w)) \/ exists e, r = Throw e)).
Proof. apply triple_call. intros w r w' HI HP [[-> ->]|[[e ->] ->]]; (split; [done|]); (split; [done|]); [by left|by right; exists e]. Qed.

Lemma triple_seal I (P : World -> Prop) name j :
  triple I P (call (Seal name j)) (fun w r => P w /\ ((exists b, r = Ok b /\ openLocal name b = Some j) \/ exists e, r = Throw e)).
Proof. apply triple_call. intros w r w' HI HP [[(b & Hb & ->) ->]|[[e ->] ->]]; (split; [done|]); (split; [done|]); [left; by exists b|by right; exists e]. Qed.

Lemma triple_lift {A} I (P : World -> Prop) (r : res A) (Q : World -> res A -> Prop) : (forall w, I w -> P w -> Q w r) -> triple I P (lift r) Q.
Proof. intros Hq w s HI HP. cbn. auto. Qed.

Lemma triple_weaken {A} I (P P' : World -> Prop) (m : M (B:=B) A) Q : (forall w, P w -> P' w) -> triple I P' m Q -> triple I P m Q.
Proof. intros Hw Hm w s HI HP. apply Hm; auto. Qed.

(** *** The records *)

Lemma openRecords_app prefix l1 l2 d :
  openRecords openLocal libraryId prefix (l1 ++ l2) d =
  let! d := openRecords openLocal libraryId prefix l1 d in openRecords openLocal libraryId prefix l2 d.
Proof.
  revert d. induction l1 as [|[key b] l1 IH]; intros d; [done|]. cbn [openRecords app]. destruct (_ ≫= decodeRecord); [apply IH|done].
Qed.

(** Paging through the records of a vault nobody changes reads each of them. *)
Lemma triple_records I v fuel after documents :
  map_wf v -> (length (rest_after libraryId generation after v) < fuel * DOCUMENT_PAGE)%nat ->
  triple I (fun w => w_vault w = v) (recordDocuments openLocal libraryId fuel generation after documents)
    (fun w r => w_vault w = v /\ forall old, r = Ok old ->
       openRecords openLocal libraryId (recordPrefix generation) (rest_after libraryId generation after v) documents = Ok old).
Proof.
  intros Hwf. revert after documents. induction fuel as [|fuel IH]; intros after documents Hf; [lia|]. cbn [recordDocuments].
  eapply (triple_bind _ _ _ _ (fun w r => w_vault w = v /\ forall page, r = Ok page -> page = vault_page recordKey after DOCUMENT_PAGE v)).
  { apply triple_call. intros w r w' HI HP [[-> ->]|[[e ->] ->]]; (split; [done|]); (split; [done|]); [|done]. intros page [= <-]. by rewrite HP. }
  2: { intros w e _ [? _]. done. }
  intros page. destruct (decide (page = vault_page recordKey after DOCUMENT_PAGE v)) as [->|Hne]; [|intros w s _ [_ Hp]; by destruct Hne; apply Hp].
  rewrite vault_page_rest. set (E := rest_after libraryId generation after v) in *. destruct (last (take DOCUMENT_PAGE E)) as [final|] eqn:El; cycle 1.
  { apply last_None in El. intros w s HI [HP _]. cbn. split; [done|]. split; [done|]. intros old [= <-].
    assert (HE : E = []); [|by rewrite HE]. destruct E as [|x E0]; [done|]. by destruct DOCUMENT_PAGE eqn:ED; [vm_compute in ED|]. }
  eapply (triple_bind _ _ _ _ (fun w r => w_vault w = v /\ r = openRecords openLocal libraryId (recordPrefix generation) (take DOCUMENT_PAGE E) documents)).
  { apply triple_lift. intros w _ [? _]. done. }
  2: { intros w e _ [? _]. done. }
  intros old1. destruct (length (take DOCUMENT_PAGE E) <? DOCUMENT_PAGE)%nat eqn:Es.
  - apply Nat.ltb_lt in Es. rewrite length_take in Es. assert (HE : take DOCUMENT_PAGE E = E) by (apply take_ge; lia). rewrite HE.
    intros w s HI [HP Ho]. cbn. split; [done|]. split; [done|]. intros old [= <-]. done.
  - apply Nat.ltb_ge in Es. rewrite length_take in Es. pose proof (rest_next libraryId generation v after final Hwf El) as Hn. fold E in Hn.
    intros w s HI [HP Ho]. assert (Hlen : (length (rest_after libraryId generation (Some final.1) v) < fuel * DOCUMENT_PAGE)%nat)
      by (rewrite Hn, length_drop; lia).
    pose proof (IH (Some final.1) old1 Hlen w s HI HP) as Ha. revert Ha. rewrite Hn.
    assert (Ht : forall old, openRecords openLocal libraryId (recordPrefix generation) (drop DOCUMENT_PAGE E) old1 = Ok old ->
                 openRecords openLocal libraryId (recordPrefix generation) E documents = Ok old)
      by (intros old Hold; rewrite <- (take_drop DOCUMENT_PAGE E), openRecords_app, <- Ho; done).
    apply alone_impl. naive_solver.
Qed.
(** *** What is read *)

Definition kept_stored v : res (jsmap string StoredLibraryDocument) :=
  let! m := kept_documents openLocal libraryId generation v in Ok (stored_all m).
Definition records v : res (jsmap string StoredLibraryDocument) :=
  openRecords openLocal libraryId (recordPrefix generation) (vault_entries recordKey v) [].

(** The documents of the generation, for a store that remembers nothing. *)
Definition contents v : res (jsmap string StoredLibraryDocument) :=
  match map_get manifestKey v ≫= openManifest openLocal with
  | Some m => if String.eqb (mf_generation m) generation && negb (in_layout m) then records v else kept_stored v
  | None => kept_stored v
  end.

Definition same_documents (one other : jsmap string StoredLibraryDocument) : Prop :=
  forall key, match map_get key one with
              | Some document => sameDocument document (map_get key other) = true
              | None => map_get key other = None
              end.

Lemma sameDocument_refl d : sameDocument d (Some d) = true.
Proof. unfold sameDocument. rewrite Z.eqb_refl, bool_decide_eq_true_2, String.eqb_refl, orb_true_r by done. done. Qed.

Lemma same_documents_refl m : same_documents m m.
Proof. intros key. destruct (map_get key m); [apply sameDocument_refl|done]. Qed.

(** The comparison of what was read back. *)
Lemma same_documents_checked (old read : jsmap string StoredLibraryDocument) :
  map_wf old -> map_wf read -> length read = length old -> existsb (fun p => negb (sameDocument p.2 (map_get p.1 read))) old = false ->
  same_documents old read.
Proof.
  intros Ho Hr Hlen Hex key.
  assert (Hsame : forall k d, map_get k old = Some d -> sameDocument d (map_get k read) = true).
  { intros k d Hd%map_get_elem. destruct (sameDocument d (map_get k read)) eqn:E; [done|]. exfalso.
    assert (existsb (fun p => negb (sameDocument p.2 (map_get p.1 read))) old = true); [|congruence].
    apply existsb_exists. exists (k, d). split; [by apply list_elem_of_In|cbn; by rewrite E]. }
  destruct (map_get key old) as [d|] eqn:E; [by apply Hsame|].
  assert (Hperm : map_keys old ≡ₚ map_keys read).
  { apply submseteq_length_Permutation; [|unfold map_keys; rewrite !length_fmap; lia]. apply NoDup_submseteq; [exact Ho|].
    intros k [d Hd]%map_get_is_Some. apply map_get_is_Some. specialize (Hsame k d Hd). destruct (map_get k read); [by eexists|done]. }
  apply map_get_None. rewrite <- Hperm. by apply map_get_None.
Qed.

(** *** Names *)

Lemma record_apart key : starts_with keptKey key = true -> starts_with recordKey key = false.
Proof.
  unfold stored_key, keptPrefix, recordPrefix. intros E%starts_with_inv. rewrite E, !string_app_assoc. rewrite !starts_with_cancel. done.
Qed.

Lemma manifest_no_record : starts_with recordKey manifestKey = false.
Proof.
  unfold stored_key, recordPrefix, namespace, manifestName. rewrite !string_app_assoc, !starts_with_cancel.
  change (":manifest") with (":" +:+ "manifest"). rewrite starts_with_cancel. destruct (starts_with _ _) eqn:E; [|done].
  apply (starts_with_has ":") in E; [done|]. rewrite has_char_app. cbn. by rewrite orb_true_r.
Qed.

Lemma entries_set prefix key b (v : list (string * B)) : starts_with prefix key = false -> vault_entries prefix (map_set key b v) = vault_entries prefix v.
Proof.
  intros Hk. unfold vault_entries, Vault. f_equal. induction v as [|[k b'] v IH]; cbn [map_set].
  - rewrite filter_cons. cbn [fst]. by rewrite decide_False by congruence.
  - case_decide; subst; rewrite !filter_cons; cbn [fst]; [|by rewrite IH]. by rewrite !decide_False by congruence.
Qed.

Lemma entries_remove prefix other v :
  (forall key, starts_with prefix key = true -> starts_with other key = false) -> vault_entries prefix (vault_remove other v) = vault_entries prefix v.
Proof.
  intros Hk. unfold vault_entries, vault_remove, Vault. f_equal. rewrite list_filter_filter. apply list_filter_iff. intros [key b]. cbn.
  split; [tauto|]. intros Hp. by rewrite (Hk _ Hp).
Qed.

Lemma get_remove key other (v : list (string * B)) : starts_with other key = false -> map_get key (vault_remove other v) = map_get key v.
Proof.
  intros Hk. unfold vault_remove, Vault. induction v as [|[k b] v IH]; [done|]. rewrite filter_cons. cbn [fst map_get]. destruct (decide (key = k)) as [<-|Hne].
  - rewrite decide_True by congruence. cbn. by rewrite decide_True.
  - case_decide; cbn; [by rewrite decide_False|done].
Qed.

(** *** The manifest *)

Lemma jget_with_layout k m : validManifest m = true -> k <> "layout" -> jget k (with_layout m) = jget k m.
Proof. intros Hv Hk. destruct m; try done. cbn. by apply map_get_set_ne. Qed.

Lemma jget_layout m : validManifest m = true -> jget "layout" (with_layout m) = Some (jint SNAPSHOT_LAYOUT).
Proof. intros Hv. destruct m; try done. cbn. by rewrite map_get_set_eq. Qed.

Lemma valid_with_layout m : validManifest m = true -> validManifest (with_layout m) = true.
Proof.
  intros Hv. pose proof Hv as Hv'. unfold validManifest in *. rewrite !jget_with_layout, jget_layout by done.
  destruct (bool_decide (jint SNAPSHOT_LAYOUT = _)) eqn:E; [|by rewrite bool_decide_eq_true_2 in E]. rewrite !andb_true_iff in *. destruct m; naive_solver.
Qed.

Lemma with_layout_generation m : validManifest m = true -> mf_generation (with_layout m) = mf_generation m /\ in_layout (with_layout m) = true.
Proof.
  intros Hv. unfold mf_generation, in_layout. rewrite jget_with_layout, jget_layout by done. split; [done|]. by apply bool_decide_eq_true_2.
Qed.
(** *** Converting *)

(** A vault an earlier build left: one record per document, which all open, and no journal. *)
Record earlier (v : Vault (B:=B)) (m : json) (old : jsmap string StoredLibraryDocument) : Prop := {
  ea_wf : map_wf v;
  ea_manifest : map_get manifestKey v ≫= openManifest openLocal = Some m;
  ea_generation : mf_generation m = generation;
  ea_layout : in_layout m = false;
  ea_records : records v = Ok old;
  ea_journal key : key ∈ map_keys v -> starts_with keptKey key = true -> key = snapshotKey;
}.

Lemma openManifest_valid b m : openManifest openLocal b = Some m -> validManifest m = true.
Proof. unfold openManifest. destruct (openLocal manifestName b) as [j|]; [|done]. destruct (validManifest j) eqn:E; [|done]. by intros [= <-]. Qed.

Lemma ea_valid v m old : earlier v m old -> validManifest m = true.
Proof. intros He. pose proof (ea_manifest _ _ _ He) as Hm. destruct (map_get manifestKey v); [|done]. by apply openManifest_valid in Hm. Qed.

Lemma wf_openRecords prefix l d out : openRecords openLocal libraryId prefix l d = Ok out -> map_wf d -> map_wf out.
Proof.
  revert d. induction l as [|[key b] l IH]; intros d; cbn [openRecords]; [by intros [= <-]|]. destruct (_ ≫= decodeRecord); [|done].
  intros Ho Hd. eapply IH; [exact Ho|]. by apply map_wf_set.
Qed.

Lemma wf_stored (m : jsmap string HeldDocument) : map_wf m -> map_wf (stored_all m).
Proof. unfold map_wf, map_keys, stored_all. by rewrite <- list_fmap_compose. Qed.

Lemma contents_records v m old : earlier v m old -> contents v = Ok old.
Proof. intros [_ Hm Hg Hl Hr _]. unfold contents. by rewrite Hm, Hg, String.eqb_refl, Hl. Qed.

Lemma manifest_not_snapshot : manifestKey <> snapshotKey.
Proof. intros E. pose proof (manifest_apart libraryId generation) as Ha. rewrite E, starts_kept_snapshot in Ha. done. Qed.

(** The snapshot put beside the records is not read yet. *)
Lemma earlier_put v m old b : earlier v m old -> earlier (map_set snapshotKey b v) m old.
Proof.
  intros [Hwf Hm Hg Hl Hr Hj]. split; try done.
  - by apply map_wf_set.
  - rewrite map_get_set_ne; [done|apply manifest_not_snapshot].
  - unfold records. rewrite entries_set; [done|]. apply record_apart, starts_kept_snapshot.
  - intros key [->|Hin]%elem_of_map_keys_set Hk; [done|by apply Hj].
Qed.

(** A snapshot alone under the generation's kept names, and a manifest that says so. *)
Record converted (v : Vault (B:=B)) (batch : list HeldDocument) : Prop := {
  co_wf : map_wf v;
  co_manifest : exists m, map_get manifestKey v ≫= openManifest openLocal = Some m /\ (mf_generation m = generation -> in_layout m = true);
  co_snapshot : exists b, map_get snapshotKey v = Some b /\ openBatch openLocal (snapshotName generation) b = Some batch;
  co_journal key : key ∈ map_keys v -> starts_with keptKey key = true -> key = snapshotKey;
}.

Lemma entries_converted v batch b : converted v batch -> map_get snapshotKey v = Some b -> vault_entries keptKey v = [(snapshotKey, b)].
Proof.
  intros Hc Hb. apply Permutation_singleton_r, NoDup_Permutation.
  - unfold vault_entries, byKey. rewrite js_sort_perm. apply NoDup_filter, (NoDup_fmap_1 fst), (co_wf _ _ Hc).
  - apply NoDup_singleton.
  - intros [key b']. rewrite elem_of_vault_entries by apply (co_wf _ _ Hc). rewrite list_elem_of_singleton. split.
    + intros [Hg Hk]. assert (key = snapshotKey) as -> by (apply (co_journal _ _ Hc); [apply map_get_is_Some; by eexists|done]). congruence.
    + intros [= -> ->]. split; [done|apply starts_kept_snapshot].
Qed.

Lemma contents_converted v batch : converted v batch -> contents v = Ok (stored_all (foldl put_held [] batch)).
Proof.
  intros Hc. destruct (co_snapshot _ _ Hc) as (b & Hb & Ho). pose proof (entries_converted v batch b Hc Hb) as He.
  assert (Hk : kept_stored v = Ok (stored_all (foldl put_held [] batch))).
  { unfold kept_stored, kept_documents. rewrite He. unfold openKept, byKey, js_sort. cbn -[openBatch FactStore.name_of].
    rewrite (decide_False (P := snapshotKey <> snapshotKey)) by tauto. rewrite decide_True by done. cbn -[openBatch FactStore.name_of].
    unfold readBatchBytes. by rewrite name_of_stored, Ho. }
  unfold contents. destruct (co_manifest _ _ Hc) as (m & -> & Hl). destruct (String.eqb_spec (mf_generation m) generation) as [Hg|]; [|done].
  by rewrite (Hl Hg).
Qed.

Lemma converted_flip v m old b batch mb :
  earlier v m old -> map_get snapshotKey v = Some b -> openBatch openLocal (snapshotName generation) b = Some batch ->
  openLocal manifestName mb = Some (with_layout m) -> converted (map_set manifestKey mb v) batch.
Proof.
  intros He Hb Ho Hmb. pose proof (ea_valid _ _ _ He) as Hv. destruct He as [Hwf Hm Hg Hl Hr Hj]. split.
  - by apply map_wf_set.
  - exists (with_layout m). split; [|intros _; by apply with_layout_generation]. rewrite map_get_set_eq. cbn. unfold openManifest.
    by rewrite Hmb, valid_with_layout.
  - exists b. split; [|done]. rewrite map_get_set_ne; [done|]. intros E. by apply manifest_not_snapshot.
  - intros key [->|Hin]%elem_of_map_keys_set Hk; [|by apply Hj]. by rewrite manifest_apart in Hk.
Qed.

Lemma converted_remove v batch : converted v batch -> converted (vault_remove recordKey v) batch.
Proof.
  intros [Hwf (m & Hm & Hl) (b & Hb & Ho) Hj]. split.
  - by apply (map_wf_filter (fun p => starts_with recordKey p.1 <> true) v).
  - exists m. split; [|done]. rewrite get_remove; [done|apply manifest_no_record].
  - exists b. split; [|done]. rewrite get_remove; [done|]. apply record_apart, starts_kept_snapshot.
  - intros key Hin Hk. apply Hj; [|done]. apply map_get_is_Some. apply map_get_is_Some in Hin. rewrite get_remove in Hin; [done|by apply record_apart].
Qed.

Lemma triple_assume {A} I (P : World -> Prop) (phi : Prop) (m : M (B:=B) A) Q :
  (forall w, P w -> phi) -> (phi -> triple I P m Q) -> triple I P m Q.
Proof. intros Hp Hm w s HI HP. apply Hm; eauto. Qed.

Lemma triple_remember {A} I P c (m : M (B:=B) A) Q : triple I P m Q -> triple I P (bind (remember c) (fun _ => m)) Q.
Proof. intros Hm w s HI HP. cbn. by apply Hm. Qed.

Abbreviation unharmed old := (fun w : World (B:=B) => exists d, contents (w_vault w) = Ok d /\ same_documents old d).
Abbreviation reads_same old := (fun (_ : World (B:=B)) r => forall d : jsmap string StoredLibraryDocument, r = Ok d -> same_documents old d).

(** From the manifest named to the records removed. *)
Lemma triple_flip v m old b batch expected c :
  earlier v m old -> map_get snapshotKey v = Some b -> openBatch openLocal (snapshotName generation) b = Some batch ->
  same_documents old (stored_all (foldl put_held [] batch)) ->
  triple (unharmed old) (fun w => w_vault w = v)
    (bind (call (Seal manifestName (with_layout m))) (fun sealed =>
     bind (commitIf true manifestKey expected [CPut manifestKey sealed]) (fun flipped =>
     if negb flipped then ret old
     else bind (call (Remove recordKey)) (fun _ => bind (remember c) (fun _ => ret (stored_all (foldl put_held [] batch)))))))
    (reads_same old).
Proof.
  intros He Hb Ho Hsame. eapply triple_bind; [apply triple_seal| |done]. intros mb. cbn beta.
  apply triple_assume with (openLocal manifestName mb = Some (with_layout m)); [intros w [_ [(b' & [= ->] & ?)|[e ?]]]; done|]. intros Hmb.
  pose proof (converted_flip v m old b batch mb He Hb Ho Hmb) as Hc. pose proof (converted_remove _ _ Hc) as Hd.
  eapply (triple_bind _ _ _ _ (fun w r => r = Ok true -> w_vault w = map_set manifestKey mb v)); [| |done].
  { apply triple_call. intros w r w' HI [HP _] [Hp|[[e ->] ->]]; [|done]. cbn in Hp. case_decide; [|by destruct Hp as [-> ->]].
    destruct Hp as (_ & -> & ->). cbn. rewrite HP. split; [|done]. eexists. split; [by apply contents_converted|done]. }
  intros [|]; cbn [negb]; [|intros w s HI _; cbn; split; [done|]; intros d [= <-]; apply same_documents_refl].
  eapply (triple_bind _ _ _ _ (fun w _ => True)); [|intros _; apply triple_remember|done].
  - apply triple_call. intros w r w' HI HP [[-> ->]|[_ ->]]; [|done]. split; [|done]. cbn. rewrite (HP eq_refl). eexists.
    split; [by apply contents_converted|done].
  - intros w s HI _. cbn. split; [done|]. by intros d [= <-].
Qed.

Lemma triple_convert v m old fuel :
  earlier v m old -> (length (vault_entries recordKey v) < fuel * DOCUMENT_PAGE)%nat ->
  triple (unharmed old) (fun w => w_vault w = v) (convert openLocal libraryId true fuel m) (reads_same old).
Proof.
  intros He Hfuel. unfold convert. rewrite (ea_generation _ _ _ He).
  assert (Hall : rest_after libraryId generation None v = vault_entries recordKey v) by (apply filter_all; done).
  eapply triple_bind; [apply triple_records; [apply He|by rewrite Hall]| |done]. intros old'. rewrite Hall.
  apply triple_assume with (old' = old); [|intros ->].
  { intros w [_ Ho]. specialize (Ho old' eq_refl). pose proof (ea_records _ _ _ He) as Hr. unfold records in Hr. congruence. }
  apply triple_remember. assert (Hold : triple (unharmed old) (fun _ => True) (ret old) (reads_same old)).
  { intros w s HI _. cbn. split; [done|]. intros d [= <-]. apply same_documents_refl. }
  eapply triple_catch with (Q := reads_same old); [|done|intros e; eapply triple_weaken; [|exact Hold]; done].
  eapply triple_bind; [apply triple_seal| |done]. intros b. cbn beta.
  eapply (triple_bind _ _ _ _ (fun w r => r = Ok tt -> w_vault w = map_set snapshotKey b v)); [| |done].
  { apply triple_call. intros w r w' HI [[HP _] _] [(_ & -> & ->)|[[e ->] ->]]; [|done]. cbn. rewrite HP. split; [|done].
    exists old. split; [|apply same_documents_refl]. by apply (contents_records _ m), earlier_put. }
  intros []. set (v1 := map_set snapshotKey b v). pose proof (earlier_put v m old b He) as He1. fold v1 in He1.
  assert (Hb : map_get snapshotKey v1 = Some b) by apply map_get_set_eq.
  eapply (triple_bind _ _ _ _ (fun w r => w_vault w = v1 /\ forall o, r = Ok o -> exists batch, o = Some batch /\ openBatch openLocal (snapshotName generation) b = Some batch)); [| |done].
  { unfold readBatch. eapply triple_bind; [apply triple_get| |].
    - intros held. cbn beta. apply triple_assume with (held = Some b).
      { intros w [HP [[= ->]|[e [=]]]]. by rewrite (HP eq_refl). }
      intros ->. unfold readBatchBytes. destruct (openBatch openLocal (snapshotName generation) b) as [batch|].
      + intros w s HI [HP _]. cbn. split; [done|]. split; [by apply HP|]. intros o [= <-]. eauto.
      + intros w s HI [HP _]. cbn. split; [done|]. split; [by apply HP|done].
    - intros w e HI [HP _]. split; [by apply HP|done]. }
  intros o. apply triple_assume with (exists batch, o = Some batch /\ openBatch openLocal (snapshotName generation) b = Some batch).
  { intros w [_ Ho]. by apply Ho. }
  intros (batch & -> & Hbatch). cbn [default option_map fmap]. set (read := stored_all (foldl put_held [] batch)).
  destruct (negb _ || _) eqn:Ec; [intros w s HI _; done|]. apply orb_false_iff in Ec as [Elen Eex]. apply negb_false_iff, Nat.eqb_eq in Elen.
  assert (Hsame : same_documents old read).
  { apply same_documents_checked; try done; [|apply wf_stored].
    - pose proof (ea_records _ _ _ He) as Hr. by apply wf_openRecords in Hr; [|apply map_wf_nil].
    - apply (wf_replay batch []). }
  eapply triple_bind; [apply triple_get| |done]. intros expected. cbn beta. destruct (expected ≫= openManifest openLocal) as [opened|]; cycle 1.
  { eapply triple_weaken; [|exact Hold]. done. }
  destruct (negb _); [eapply triple_weaken; [|exact Hold]; done|].
  eapply triple_weaken with (fun w => w_vault w = v1); [intros w [[HP _] _]; exact HP|]. by apply (triple_flip v1 m old b).
Qed.
End Alone.

(** C15: a store that turns an earlier build's records into a snapshot can fail or be stopped at any use of the vault: as
    long as no other store works on it meanwhile, what is read of the generation then, from the records or from the
    snapshot, is every document the records held and nothing else, and so is what the conversion itself returns. *)
Theorem convert_safe `{UriEncoding} {B} `{!EqDecision B} (openLocal : string -> B -> option json) libraryId generation (w : World (B:=B)) m old fuel s :
  earlier openLocal libraryId generation (w_vault w) m old ->
  (length (vault_entries (stored_key libraryId (recordPrefix generation)) (w_vault w)) < fuel * DOCUMENT_PAGE)%nat ->
  alone openLocal (fun w => exists d, contents openLocal libraryId generation (w_vault w) = Ok d /\ same_documents old d)
    (fun _ r => forall d, r = Ok d -> same_documents old d) w (convert openLocal libraryId true fuel m s).2.
Proof.
  intros He Hfuel. apply (triple_convert openLocal libraryId generation (w_vault w) m old fuel He Hfuel w s); [|done].
  exists old. split; [by apply (contents_records _ _ _ _ m)|apply same_documents_refl].
Qed.

(** ** Stores together *)

Section Together.
Context `{UriEncoding} {B : Type} `{!EqDecision B} (openLocal : string -> B -> option json).

Abbreviation tasks A := (list (Memory * prog (B:=B) A)).

(** Stores that take their steps in turn, each with its own memory. *)
Inductive interleaves {A} : World (B:=B) -> tasks A -> World (B:=B) -> tasks A -> Prop :=
| interleaves_none w ts : interleaves w ts w ts
| interleaves_step w before s op k after r w' w2 ts :
    uses openLocal op w r w' -> interleaves w' (before ++ k r s :: after) w2 ts -> interleaves w (before ++ (s, Call op k) :: after) w2 ts.

(** A vault that answers, and how a value is sealed with the [n]th random vector. *)
Context (sealLocal : Z -> string -> json -> B).
Definition placing (w : World (B:=B)) changes : res unit * World (B:=B) :=
  if bool_decide (Forall (fun b => b ∉ w_placed w) (puts changes)) then (Ok tt, committed w changes) else (Throw "sealed twice", w).

Definition act (op : Eff (B:=B)) (n : Z) (w : World (B:=B)) : res (answer op) * World (B:=B) :=
  match op return res (answer op) * World (B:=B) with
  | Get key => (Ok (map_get key (w_vault w)), w)
  | Entries prefix => (Ok (vault_entries prefix (w_vault w)), w)
  | Page prefix after limit => (Ok (vault_page prefix after limit (w_vault w)), w)
  | Put key b => placing w [CPut key b]
  | Remove prefix => (Ok tt, mkWorld (vault_remove prefix (w_vault w)) (w_placed w) (w_kept w))
  | Commit changes => placing w changes
  | CompareAndCommit key expected changes =>
      if decide (map_get key (w_vault w) = expected) then
        match placing w changes with (Ok _, w) => (Ok true, w) | (Throw e, w) => (Throw e, w) end
      else (Ok false, w)
  | Seal name j => (if decide (openLocal name (sealLocal n name j) = Some j) then Ok (sealLocal n name j) else Throw "not sealed", w)
  end.

Lemma placing_fresh w changes : 
  (fresh w changes /\ placing w changes = (Ok tt, committed w changes)) \/ placing w changes = (Throw "sealed twice", w).
Proof.
  unfold placing. case_bool_decide as E; [left|by right]. split; [|done]. intros b Hb. by apply (proj1 (Forall_forall _ _) E).
Qed.

Lemma act_uses op n w : uses openLocal op w (act op n w).1 (act op n w).2.
Proof.
  destruct op as [key|prefix|prefix after limit|key b|prefix|changes|key expected changes|name j]; cbn [act]; try (left; by split).
  - destruct (placing_fresh w [CPut key b]) as [[Hf ->]| ->]; [by left|right; split; [by eexists|done]].
  - destruct (placing_fresh w changes) as [[Hf ->]| ->]; [by left|right; split; [by eexists|done]].
  - case_decide as E; [|left; cbn; by rewrite decide_False]. destruct (placing_fresh w changes) as [[Hf ->]| ->]; [|right; split; [by eexists|done]].
    left. cbn. by rewrite decide_True.
  - case_decide; [left; cbn; eauto|right; split; [by eexists|done]].
Qed.

(** The tasks stepped in the order [schedule] names them. *)
Fixpoint scheduled {A} (schedule : list nat) (n : Z) (w : World (B:=B)) (ts : tasks A) : World (B:=B) * tasks A :=
  match schedule with
  | [] => (w, ts)
  | i :: schedule =>
      match ts !! i with
      | Some (s, Call op k) => let '(r, w) := act op n w in scheduled schedule (n + 1) w (take i ts ++ k r s :: drop (S i) ts)
      | _ => scheduled schedule n w ts
      end
  end.

Lemma scheduled_interleaves {A} schedule n w (ts : tasks A) :
  interleaves w ts (scheduled schedule n w ts).1 (scheduled schedule n w ts).2.
Proof.
  revert n w ts. induction schedule as [|i schedule IH]; intros n w ts; [constructor|]. cbn [scheduled].
  destruct (ts !! i) as [[s [r|op k]]|] eqn:E; [apply IH| |apply IH]. rewrite <- (take_drop_middle _ _ _ E) at 1.
  pose proof (act_uses op n w) as Hu. destruct (act op n w) as [r w']. by apply (interleaves_step _ _ _ _ _ _ _ _ _ _ Hu).
Qed.
End Together.
