(* ===== verification/FactExample.v ===== *)
(** * Stores of documents on concrete vaults

    A vault whose sealed values show what they hold: two stores that convert it at once ([convert_race]), and runs the
    theorems on stores apply to. *)

From S2P Require Import Prelude JsMap JsText Json HistoryIndex FactStore FactStoreSafety FactConvert.
Open Scope Z_scope.

(** A sealed value: the name it was sealed under, what it holds, and the random vector. *)
Definition Sealed : Type := string * json * Z.
Definition shown (name : string) (b : Sealed) : option json := if String.eqb b.1.1 name then Some b.1.2 else None.
Definition sealing (n : Z) (name : string) (j : json) : Sealed := (name, j, n).
#[local] Instance plain : UriEncoding := fun s => s.

Definition demo_manifest (layout : option Z) : json :=
  JObj ([("schema", jint 1); ("generation", JStr "g"); ("head", jint 4); ("revision", JStr "r1"); ("complete", JBool true);
         ("profileTopology", JBool true)] ++ jmember "layout" jint layout).
Definition demo_record (seq : Z) (value : string) : json := JObj [("schema", jint 1); ("seq", jint seq); ("value", JStr value)].

Definition demo_at (name : string) (j : json) (n : Z) : string * Sealed := (stored_key "lib" name, sealing n name j).

(** What an earlier build left: two documents, one record each. *)
Definition demo_records : Vault (B:=Sealed) :=
  [demo_at manifestName (demo_manifest None) 0; demo_at (recordPrefix "g" +:+ "a") (demo_record 3 "A") 1;
   demo_at (recordPrefix "g" +:+ "b") (demo_record 4 "B") 2].
Definition demo_documents : jsmap string StoredLibraryDocument := [("a", mkDocument 3 "A" None); ("b", mkDocument 4 "B" None)].
Definition demo_world (v : Vault (B:=Sealed)) : World (B:=Sealed) := mkWorld v (v.*2) [].

Definition reading : Memory * prog (B:=Sealed) (jsmap string StoredLibraryDocument) := heldDocuments shown "lib" true 2 "g" None.

(** The first store finds the records and makes them a snapshot; the second had read the manifest before. *)
Definition race : list nat := [1%nat] ++ replicate 9 0%nat ++ replicate 8 1%nat.

(** One store alone converts the vault: the manifest names the snapshot, the records are gone and what is read is the same. *)
Example convert_done :
  let w := (scheduled shown sealing (replicate 9 0%nat) 10 (demo_world demo_records) [reading]).1 in
  contents shown "lib" "g" (w_vault w) = Ok demo_documents /\ vault_entries (stored_key "lib" (recordPrefix "g")) (w_vault w) = [] /\
  option_map in_layout (map_get (stored_key "lib" manifestName) (w_vault w) ≫= openManifest shown) = Some true.
Proof. vm_compute. done. Qed.

(** C16: two stores that read a library an earlier build wrote can lose all of it. The second reads the manifest before
    the first names its snapshot, and the records after the first removed them; it then puts an empty snapshot over the
    full one, which nothing compares, reads it back as the nothing it was made from, and finds the revision unchanged. *)
Theorem convert_race :
  exists w ts, interleaves shown (demo_world demo_records) [reading; reading] w ts /\
    contents shown "lib" "g" (w_vault (demo_world demo_records)) = Ok demo_documents /\
    ts.*2 = [Ret (Ok demo_documents); Ret (Ok [])] /\ contents shown "lib" "g" (w_vault w) = Ok [].
Proof.
  exists (scheduled shown sealing race 10 (demo_world demo_records) [reading; reading]).1,
    (scheduled shown sealing race 10 (demo_world demo_records) [reading; reading]).2.
  split; [apply scheduled_interleaves|]. vm_compute. done.
Qed.

Lemma demo_earlier : earlier shown "lib" "g" demo_records (demo_manifest None) demo_documents.
Proof.
  split; try (vm_compute; reflexivity).
  - apply (bool_decide_unpack (NoDup _)). vm_compute. exact I.
  - intros key Hin Hk. repeat (apply elem_of_cons in Hin as [->|Hin]; [vm_compute in Hk; done|]). by apply not_elem_of_nil in Hin.
Defined.

Lemma convert_safe_witness :
  earlier shown "lib" "g" demo_records (demo_manifest None) demo_documents /\
  alone shown (fun w => exists d, contents shown "lib" "g" (w_vault w) = Ok d /\ same_documents demo_documents d)
    (fun _ r => forall d, r = Ok d -> same_documents demo_documents d) (demo_world demo_records)
    (convert shown "lib" true 1 (demo_manifest None) None).2.
Proof.
  split; [exact demo_earlier|]. apply (convert_safe shown "lib" "g" (demo_world demo_records) (demo_manifest None) demo_documents 1 None demo_earlier).
  apply Nat.ltb_lt. vm_compute. reflexivity.
Defined.

(** A run of one task to its end, with the memory its store has at each step. *)
Fixpoint run_task (fuel : nat) (n : Z) (w : World (B:=Sealed)) (s : Memory) (t : Task (B:=Sealed)) : World (B:=Sealed) * Task (B:=Sealed) :=
  match fuel with
  | O => (w, t)
  | S fuel =>
      match tk_prog t with
      | Call op k => let '(r, w) := act shown sealing op n w in run_task fuel (n + 1) w (k r s).1 (mkTask (k r s).2 (tk_since t) (tk_memories t ++ [s]))
      | Ret _ => (w, t)
      end
  end.

Lemma run_reach fuel n w0 w s before t :
  reach shown "lib" "g" w0 w (before ++ [t]) -> reach shown "lib" "g" w0 (run_task fuel n w s t).1 (before ++ [(run_task fuel n w s t).2]).
Proof.
  revert n w s t. induction fuel as [|fuel IH]; intros n w s [p since ms] Hr; [done|]. cbn [run_task tk_prog tk_since tk_memories] in *.
  destruct p as [r|op k]; [done|]. pose proof (act_uses shown sealing op n w) as Hu. destruct (act shown sealing op n w) as [r w']. apply IH.
  apply (reach_step shown "lib" "g" w0 w before op k since ms [] r w' s Hr Hu).
Defined.

Definition demo_empty : World (B:=Sealed) := demo_world [demo_at manifestName (demo_manifest (Some 2)) 0].
Definition demo_batch : list HeldDocument := [mkHeld "a" 3 None (Some "A"); mkHeld "b" 4 None (Some "B")].
Definition demo_later : list HeldDocument := [mkHeld "a" 5 None (Some "newer")].

(** A batch committed, with the manifest moved to a revision where one is given. *)
Definition demo_revised (revision : string) : json :=
  JObj [("schema", jint 1); ("generation", JStr "g"); ("head", jint 4); ("revision", JStr revision); ("complete", JBool true);
        ("profileTopology", JBool true); ("layout", jint 2)].
Definition demo_others (n : Z) (revision : option string) : list (VaultChange (B:=Sealed)) :=
  match revision with Some r => [CPut (stored_key "lib" manifestName) (sealing (n + 100) manifestName (demo_revised r))] | None => [] end.
Definition demo_sealed (suffix : string) (n : Z) (docs : list HeldDocument) : Sealed := sealing n (journalPrefix "g" +:+ suffix) (encodeBatch docs).
Definition demo_kept (w : World (B:=Sealed)) (suffix : string) (n : Z) (docs : list HeldDocument) (revision : option string) : World (B:=Sealed) :=
  kept_world "lib" "g" w suffix (demo_sealed suffix n docs) docs (demo_others n revision).

Lemma demo_sound : sound shown "lib" "g" demo_empty.
Proof.
  split.
  - apply (bool_decide_unpack (NoDup _)). vm_compute. exact I.
  - intros key b Hg Hk. cbn in Hg. case_decide; [subst; vm_compute in Hk; done|done].
  - intros b docs (Hg & _ & _). vm_compute in Hg. done.
  - intros h Hin. by apply not_elem_of_nil in Hin.
  - intros b m Hg. vm_compute in Hg. injection Hg as <-. vm_compute. by intros [= <-].
Defined.

Lemma demo_keep w tasks suffix n docs revision :
  reach shown "lib" "g" demo_empty w tasks -> map_get (journalKey "lib" "g" suffix) (w_vault w) = None ->
  existsb (fun b => bool_decide (b ∈ w_placed w)) (puts (keep_changes "lib" "g" suffix (demo_sealed suffix n docs) (demo_others n revision))) = false ->
  validBatch (encodeBatch docs) = Some docs ->
  (in_layout <$> (map_get (stored_key "lib" manifestName) (w_vault (demo_kept w suffix n docs revision)) ≫= openManifest shown)) = Some true ->
  reach shown "lib" "g" demo_empty (demo_kept w suffix n docs revision) tasks.
Proof.
  intros Hr Hnew Hf Hv Hm. apply reach_keep; try done.
  - intros b Hin Hp. assert (Hex : existsb (fun b => bool_decide (b ∈ w_placed w)) (puts (keep_changes "lib" "g" suffix (demo_sealed suffix n docs) (demo_others n revision))) = true).
    { apply existsb_exists. exists b. split; [by apply list_elem_of_In|by apply bool_decide_eq_true]. }
    rewrite Hex in Hf. done.
  - destruct revision; [|constructor]. apply Forall_singleton. vm_compute. reflexivity.
  - unfold journalKey. rewrite name_of_stored. unfold openBatch, shown, demo_sealed, sealing. cbn [fst snd]. rewrite String.eqb_refl. exact Hv.
  - intros b m Hb Ho _. change (map_get (stored_key "lib" manifestName) (w_vault (demo_kept w suffix n docs revision)) = Some b) in Hb.
    rewrite Hb in Hm. cbn in Hm. rewrite Ho in Hm. by injection Hm as ->.
Defined.

(** Two batches, a fold of the first while the second is committed, the fold's end, and a reader of what is kept then. *)
Definition demo_first : World (B:=Sealed) := demo_kept demo_empty "1" 1 demo_batch None.
Definition folding : Task (B:=Sealed) := mkTask (fold_task shown "lib" "g" None) (w_kept demo_first) [None].
Definition demo_half : World (B:=Sealed) * Task (B:=Sealed) := run_task 2 10 demo_first None folding.
Definition demo_second : World (B:=Sealed) := demo_kept demo_half.1 "2" 2 demo_later None.
Definition demo_folded : World (B:=Sealed) * Task (B:=Sealed) := run_task 1 20 demo_second None demo_half.2.
Definition demo_reader : Task (B:=Sealed) := mkTask (read_task shown "lib" "g" 1 None) (w_kept demo_folded.1) [None].
Definition demo_answered : World (B:=Sealed) * Task (B:=Sealed) := run_task 2 30 demo_folded.1 None demo_reader.

Lemma demo_reach : reach shown "lib" "g" demo_empty demo_answered.1 [demo_folded.2; demo_answered.2].
Proof.
  apply (run_reach 2 30 demo_empty demo_folded.1 None [demo_folded.2] demo_reader), (reach_read shown "lib" "g" demo_empty demo_folded.1 [demo_folded.2] 1 None).
  apply (run_reach 1 20 demo_empty demo_second None []), demo_keep; try (vm_compute; reflexivity). apply (run_reach 2 10 demo_empty demo_first None []).
  apply (reach_fold shown "lib" "g" demo_empty demo_first [] None), demo_keep; try (vm_compute; reflexivity). constructor.
Defined.

Definition demo_read : jsmap string StoredLibraryDocument := [("a", mkDocument 5 "newer" None); ("b", mkDocument 4 "B" None)].

Lemma kept_newest_witness :
  tk_prog demo_answered.2 = Ret (Ok (Some demo_read)) /\ tk_since demo_answered.2 = demo_batch ++ demo_later /\
  up_to_date (tk_since demo_answered.2) demo_answered.1 demo_read.
Proof.
  split; [vm_compute; reflexivity|]. split; [vm_compute; reflexivity|].
  destruct (kept_newest shown "lib" "g" demo_empty demo_answered.1 _ demo_sound demo_reach) as [_ Hread].
  destruct (Hread demo_answered.2 demo_read) as [(c & Hin & _)|Hup]; [by right; left|vm_compute; reflexivity| |exact Hup].
  exfalso. change (tk_memories demo_answered.2) with [None; None; None : Memory] in Hin.
  repeat (apply elem_of_cons in Hin as [Hin|Hin]; [discriminate Hin|]). by apply not_elem_of_nil in Hin.
Defined.

(** A store's memory can be behind what is kept, under the manifest's own revision. Two stores commit from one manifest:
    the second had read it before the first's commit, which nothing compares. The second then adds its own rows to the
    documents it remembers, under the revision it made the manifest's, and its readers never see the first's. *)
Definition behind_first : World (B:=Sealed) := demo_kept demo_empty "1" 1 [mkHeld "a" 3 None (Some "A")] (Some "r2").
Definition behind_second : World (B:=Sealed) := demo_kept behind_first "2" 2 [mkHeld "b" 4 None (Some "B")] (Some "r3").
Definition behind_memory : Memory :=
  kept "g" (Some (demo_manifest (Some 2))) (Some "r3") [("b", mkDocument 4 "B" None)] (Some (mkCache "g" (Some "r1") [] 0)).
Definition behind_reader : Task (B:=Sealed) := mkTask (read_task shown "lib" "g" 1 behind_memory) (w_kept behind_second) [behind_memory].
Definition behind_answered : World (B:=Sealed) * Task (B:=Sealed) := run_task 1 30 behind_second behind_memory behind_reader.

Example cached_behind :
  reach shown "lib" "g" demo_empty behind_answered.1 [behind_answered.2] /\
  tk_since behind_answered.2 = [mkHeld "a" 3 None (Some "A"); mkHeld "b" 4 None (Some "B")] /\
  tk_prog behind_answered.2 = Ret (Ok (Some [("b", mkDocument 4 "B" None)])).
Proof.
  split; [|vm_compute; done]. apply (run_reach 1 30 demo_empty behind_second behind_memory []).
  apply (reach_read shown "lib" "g" demo_empty behind_second [] 1 behind_memory).
  apply demo_keep; try (vm_compute; reflexivity). apply demo_keep; try (vm_compute; reflexivity). constructor.
Qed.
