(* ===== verification/Operations.v ===== *)
(** * The operation journal ([web/src/lib/libraryOperationAuthority.ts])

    [DurableOperationAuthority] wraps a library's authority: an operation's intent is kept before its work, and its
    result after, so that a retry is answered and not done again. The journal is one sealed value of this browser,
    rewritten by every operation, of one tab at a time ([exclusive]). An operation is a program that hands over at each
    read or write of the journal and at the work; the process may die at any of them, a read may find nothing and a
    write may fail. *)

From S2P Require Import Prelude JsMap JsText Json ProfileKeys ServiceCore.
Open Scope Z_scope.

Definition LIBRARY_OPERATION_JOURNAL : string := "library-service-operations.v2".
Definition LEGACY_JOURNAL : string := "library-service-operations.v1".
Definition ENTRY_LIMIT : nat := 64.
Definition BYTE_LIMIT : Z := 256 * 1024.
Definition RESULT_BYTE_LIMIT : Z := 32 * 1024.

(** ** Entries *)

Inductive OperationKind : Type := KCommand | KTask.
Inductive EntryState : Type := Intent | Complete.
#[global] Instance OperationKind_eq_dec : EqDecision OperationKind.
Proof. solve_decision. Defined.
#[global] Instance EntryState_eq_dec : EqDecision EntryState.
Proof. solve_decision. Defined.

Record Entry : Type := mkEntry {
  en_kind : OperationKind;
  en_operationId : string;
  en_requestDigest : string;
  en_state : EntryState;
  en_result : option json;
}.

Definition conflict : Thrown := AuthorityError (mkFailure "conflict" "operationId was already used for another operation" false).
Definition storageFailure (message : string) : Thrown := AuthorityError (mkFailure "storage" message true).

(** What the platform computes: [crypto.subtle.digest('SHA-256', utf8.encode(JSON.stringify(request)))], the bytes of
    [utf8.encode(JSON.stringify(value))], and [JSON.parse]. *)
Class Platform := {
  request_hash : json -> bytes;
  json_bytes : json -> Z;
  json_parse : string -> option json;
}.
(** SHA-256 answers 32 bytes. *)
Class PlatformLaws `{Platform} : Prop := { request_hash_length : forall request, length (request_hash request) = 32%nat }.

(** [!value] is false *)
Definition jtruthy (j : json) : bool :=
  match j with JNull | JBool false => false | JNum q => negb (bool_decide (qc_int q = Some 0)) | JStr s => truthy s | _ => true end.

Definition kind_json (k : OperationKind) : json := JStr (match k with KCommand => "command" | KTask => "task" end).
Definition state_json (s : EntryState) : json := JStr (match s with Intent => "intent" | Complete => "complete" end).
Definition encodeEntry (e : Entry) : json :=
  JObj ([("kind", kind_json (en_kind e)); ("operationId", JStr (en_operationId e)); ("requestDigest", JStr (en_requestDigest e));
         ("state", state_json (en_state e))] ++ jmember "result" id (en_result e)).
Definition encodeEntries (l : list Entry) : json := JArr (encodeEntry <$> l).

Definition decodeKind (j : option json) : option OperationKind :=
  match j with Some (JStr s) => if String.eqb s "command" then Some KCommand else if String.eqb s "task" then Some KTask else None | _ => None end.
Definition decodeState (j : option json) : option EntryState :=
  match j with Some (JStr s) => if String.eqb s "intent" then Some Intent else if String.eqb s "complete" then Some Complete else None | _ => None end.
Definition given (j : option json) : option json := match j with Some r => if jtruthy r then Some r else None | None => None end.

Definition decodeEntry (candidate : json) : option Entry :=
  match decodeKind (jget "kind" candidate), jget "operationId" candidate, jget "requestDigest" candidate, decodeState (jget "state" candidate) with
  | Some kind, Some (JStr operationId), Some (JStr requestDigest), Some state =>
      if DIGEST requestDigest then
        match state with
        | Intent => Some (mkEntry kind operationId requestDigest Intent None)
        | Complete => match given (jget "result" candidate) with Some r => Some (mkEntry kind operationId requestDigest Complete (Some r)) | None => None end
        end
      else None
  | _, _, _, _ => None
  end.

Definition decodedEntries (value : json) : list Entry := match value with JArr l => omap decodeEntry l | _ => [] end.

Section Operations.
Context `{Platform}.

Definition digest (request : json) : string := hex (request_hash request).

(** A receipt of the first journal, with the request itself. *)
Definition migrate (candidate : json) : option Entry :=
  match decodeKind (jget "kind" candidate), jget "operationId" candidate, jget "request" candidate, given (jget "result" candidate) with
  | Some kind, Some (JStr operationId), Some (JStr request), Some r =>
      match json_parse request with Some request => Some (mkEntry kind operationId (digest request) Complete (Some r)) | None => None end
  | _, _, _, _ => None
  end.
Definition migrated (legacy : option json) : list Entry := match legacy with Some (JArr l) => omap migrate l | _ => [] end.

(** ** Bounds *)

Definition entries_bytes (kept : list Entry) : Z := json_bytes (encodeEntries kept).

(** [kept.splice(kept.findIndex(entry => entry.operationId !== id), 1)] *)
Fixpoint drop_other (protectedOperationId : string) (kept : list Entry) : option (list Entry) :=
  match kept with
  | [] => None
  | e :: kept =>
      if String.eqb (en_operationId e) protectedOperationId then cons e <$> drop_other protectedOperationId kept else Some kept
  end.

(** Each turn drops an entry, so [length kept] turns are enough. *)
Fixpoint shrink (fuel : nat) (protectedOperationId : string) (kept : list Entry) : list Entry :=
  match fuel with
  | O => kept
  | S fuel =>
      if (BYTE_LIMIT <? entries_bytes kept) && (1 <? length kept)%nat then
        match drop_other protectedOperationId kept with Some kept => shrink fuel protectedOperationId kept | None => kept end
      else kept
  end.

(** [current.slice(-ENTRY_LIMIT)] *)
Definition recent (current : list Entry) : list Entry := drop (length current - ENTRY_LIMIT) current.

Definition bounded (current : list Entry) (protectedOperationId : string) : answer (list Entry) :=
  let kept := recent current in
  let kept := shrink (length kept) protectedOperationId kept in
  if BYTE_LIMIT <? entries_bytes kept then Failed (storageFailure "operation result exceeds the durable journal limit") else Done kept.

(** ** Programs *)

Inductive Op : Type :=
| Kept (name : string)
| Keep (name : string) (value : json)
| Work (kind : OperationKind) (request : json) (operationId : string).
Definition reply (op : Op) : Type := match op with Kept _ => option json | Keep _ _ => unit | Work _ _ _ => json end.

Inductive prog (A : Type) : Type :=
| Ret (r : answer A)
| Call (op : Op) (k : answer (reply op) -> prog A).
Arguments Ret {A} _.
Arguments Call {A} _ _.

Fixpoint bind {A B} (p : prog A) (f : A -> prog B) : prog B :=
  match p with
  | Ret (Done a) => f a
  | Ret (Failed e) => Ret (Failed e)
  | Call op k => Call op (fun r => bind (k r) f)
  end.
Definition ret {A} (a : A) : prog A := Ret (Done a).
Definition throw {A} (e : Thrown) : prog A := Ret (Failed e).
Definition call (op : Op) : prog (reply op) := Call op (fun r => Ret r).

Notation "'let*' x ':=' m 'in' k" := (bind m (fun x => k)) (at level 10, x pattern, m at level 99, k at level 200).
Notation "m ;;; k" := (bind m (fun _ => k)) (at level 100, right associativity).

Definition entries : prog (list Entry) :=
  let* current := call (Kept LIBRARY_OPERATION_JOURNAL) in
  match current with
  | Some value => ret (decodedEntries value)
  | None => let* legacy := call (Kept LEGACY_JOURNAL) in ret (migrated legacy)
  end.

Definition keep (current : list Entry) (protectedOperationId : string) : prog unit :=
  let* kept := Ret (bounded current protectedOperationId) in call (Keep LIBRARY_OPERATION_JOURNAL (encodeEntries kept)).

Definition found (operationId : string) (l : list Entry) : option Entry := snd <$> list_find (fun e => en_operationId e = operationId) l.

(** [list[list.indexOf(found)] = complete], or [list.push(complete)] *)
Fixpoint settle (complete : Entry) (l : list Entry) : list Entry :=
  match l with
  | [] => [complete]
  | e :: l => if String.eqb (en_operationId e) (en_operationId complete) then complete :: l else e :: settle complete l
  end.

Definition same_request (kind : OperationKind) (requestDigest : string) (e : Entry) : bool :=
  bool_decide (en_kind e = kind) && String.eqb (en_requestDigest e) requestDigest.

Definition completeDurableTaskOperation (operationId : string) (task result : json) : prog unit :=
  let requestDigest := digest task in
  if RESULT_BYTE_LIMIT <? json_bytes result then throw (storageFailure "operation result exceeds the durable result limit")
  else
    let* current := entries in
    match found operationId current with
    | Some e => if same_request KTask requestDigest e then ret tt else throw conflict
    | None => ret tt
    end;;;
    keep (settle (mkEntry KTask operationId requestDigest Complete (Some result)) current) operationId.

(** [result.result.kind === 'history.import' && !result.result.complete] *)
Definition importing (kind : OperationKind) (result : json) : bool :=
  match kind, jget "result" result with
  | KTask, Some r => bool_decide (jget "kind" r = Some (JStr "history.import")) && negb (bool_decide (is_Some (given (jget "complete" r))))
  | _, _ => false
  end.

Definition carry_out (kind : OperationKind) (operationId : string) (request : json) : prog json :=
  let requestDigest := digest request in
  let* result := call (Work kind request operationId) in
  if importing kind result then ret result
  else if RESULT_BYTE_LIMIT <? json_bytes result then throw (storageFailure "operation result exceeds the durable result limit")
  else
    let* latest := entries in
    match found operationId latest with
    | Some e => if same_request kind requestDigest e then ret tt else throw conflict
    | None => ret tt
    end;;;
    keep (settle (mkEntry kind operationId requestDigest Complete (Some result)) latest) operationId;;;
    ret result.

Definition perform (kind : OperationKind) (operationId : string) (request : json) : prog json :=
  let requestDigest := digest request in
  let* current := entries in
  match found operationId current with
  | Some e =>
      if negb (same_request kind requestDigest e) then throw conflict
      else match en_state e, en_result e with
           | Complete, Some result => ret result
           | _, _ => carry_out kind operationId request
           end
  | None =>
      keep (current ++ [mkEntry kind operationId requestDigest Intent None]) operationId;;;
      carry_out kind operationId request
  end.

Definition command (request : json) (operationId : string) : prog json := perform KCommand operationId request.

Definition task (request : json) (operationId : string) : prog json :=
  if bool_decide (jget "kind" request = Some (JStr "assistant.publish")) then call (Work KTask request operationId)
  else perform KTask operationId request.
End Operations.

Arguments Ret {A} _.
Arguments Call {A} _ _.
