(* ===== verification/OperationsSafety.v ===== *)
(** * Operations done once

    Over every history of operations, with the process dying anywhere and the journal's reads and writes failing: work
    is done only under its intent ([operation_intent_first]), a kept result answers its own operation and no other
    ([operation_replayed]), and the journal keeps its bounds, dropping the oldest ([bounded_oldest_first],
    [operation_journal_bounded]). *)

From S2P Require Import Prelude JsMap JsText Json ProfileKeys ServiceCore Operations.
Open Scope Z_scope.

(** ** The bounds *)

Section Bounds.
Context `{Platform}.

Abbreviation others id := (filter (fun e => en_operationId e <> id)).
Abbreviation own id := (filter (fun e => en_operationId e = id)).

Lemma drop_other_spec id l l' :
  drop_other id l = Some l' -> others id l' = drop 1 (others id l) /\ own id l' = own id l /\ l' `sublist_of` l /\ length l = S (length l').
Proof.
  revert l'. induction l as [|e l IH]; intros l'; cbn [drop_other]; [done|]. destruct (String.eqb_spec (en_operationId e) id) as [E|E].
  - destruct (drop_other id l) as [l2|]; [|done]. intros [= <-]. destruct (IH l2 eq_refl) as (H1 & H2 & H3 & H4).
    rewrite !(filter_cons_False (fun e => en_operationId e <> id)) by (intros Hne; by apply Hne). rewrite !filter_cons_True, H1, H2 by done. split; [done|]. split; [done|].
    split; [by constructor|cbn; lia].
  - intros [= <-]. rewrite filter_cons_True, filter_cons_False by done. split; [done|]. split; [done|]. split; [by constructor|done].
Qed.

Lemma drop_other_None id l : drop_other id l = None -> others id l = [].
Proof.
  induction l as [|e l IH]; cbn [drop_other]; [done|]. destruct (String.eqb_spec (en_operationId e) id) as [E|E]; [|done].
  destruct (drop_other id l); [done|]. intros _. rewrite filter_cons_False by (intros Hne; by apply Hne). auto.
Qed.

Lemma shrink_spec fuel id l :
  let l' := shrink fuel id l in
  (exists n, others id l' = drop n (others id l)) /\ own id l' = own id l /\ l' `sublist_of` l /\
  ((length l <= fuel)%nat -> BYTE_LIMIT < entries_bytes l' -> (length l' <= 1)%nat \/ others id l' = []).
Proof.
  revert l. induction fuel as [|fuel IH]; intros l; cbn [shrink].
  - split; [exists 0%nat; by rewrite drop_0|]. split; [done|]. split; [done|]. intros Hl _. left. lia.
  - destruct (Z.ltb_spec BYTE_LIMIT (entries_bytes l)) as [Hb|Hb]; cbn [andb]; cycle 1.
    { split; [exists 0%nat; by rewrite drop_0|]. split; [done|]. split; [done|]. intros _ Hb'. lia. }
    destruct (1 <? length l)%nat eqn:Hl; cycle 1.
    { split; [exists 0%nat; by rewrite drop_0|]. split; [done|]. split; [done|]. intros _ _. left. apply Nat.ltb_ge in Hl. lia. }
    destruct (drop_other id l) as [l2|] eqn:E; cycle 1.
    { split; [exists 0%nat; by rewrite drop_0|]. split; [done|]. split; [done|]. intros _ _. right. by apply drop_other_None. }
    apply drop_other_spec in E as (H1 & H2 & H3 & H4). destruct (IH l2) as ((n & Hn) & Ho & Hs & Hf). split; [|split; [|split]].
    + exists (1 + n)%nat. by rewrite Hn, H1, drop_drop.
    + congruence.
    + by etrans.
    + intros Hlen. apply Hf. lia.
Qed.

Lemma recent_length l : (length (recent l) <= ENTRY_LIMIT)%nat.
Proof. unfold recent. rewrite length_drop. lia. Qed.

Lemma recent_sublist l : recent l `sublist_of` l.
Proof. unfold recent. apply sublist_drop. Qed.

Lemma bounded_spec current id :
  match bounded current id with
  | Done kept =>
      (length kept <= ENTRY_LIMIT)%nat /\ entries_bytes kept <= BYTE_LIMIT /\ kept `sublist_of` recent current /\
      filter (fun e => en_operationId e = id) kept = filter (fun e => en_operationId e = id) (recent current) /\
      exists n, filter (fun e => en_operationId e <> id) kept = drop n (filter (fun e => en_operationId e <> id) (recent current))
  | Failed e =>
      e = storageFailure "operation result exceeds the durable journal limit" /\
      exists kept, kept `sublist_of` recent current /\ BYTE_LIMIT < entries_bytes kept /\
        ((length kept <= 1)%nat \/ filter (fun e => en_operationId e <> id) kept = [])
  end.
Proof.
  unfold bounded. pose proof (shrink_spec (length (recent current)) id (recent current)) as (Hn & Ho & Hs & Hf).
  set (kept := shrink _ _ _) in *. destruct (Z.ltb_spec BYTE_LIMIT (entries_bytes kept)) as [Hb|Hb].
  - split; [done|]. exists kept. split; [done|]. split; [done|]. by apply Hf.
  - pose proof (recent_length current). apply sublist_length in Hs as Hl. split; [lia|]. split; [done|]. by split.
Qed.
End Bounds.

(** What is kept of the journal. It is within 64 entries and 256 KiB; every entry of the operation being kept that
    is among the last 64 stays, and of the others the newest ones, the oldest being dropped first; it is refused only
    where dropping every other entry, or all but one, would not be enough. *)
Lemma bounded_oldest_first `{Platform} current id :
  match bounded current id with
  | Done kept =>
      (length kept <= ENTRY_LIMIT)%nat /\ entries_bytes kept <= BYTE_LIMIT /\ kept `sublist_of` recent current /\
      filter (fun e => en_operationId e = id) kept = filter (fun e => en_operationId e = id) (recent current) /\
      exists n, filter (fun e => en_operationId e <> id) kept = drop n (filter (fun e => en_operationId e <> id) (recent current))
  | Failed e =>
      e = storageFailure "operation result exceeds the durable journal limit" /\
      exists kept, kept `sublist_of` recent current /\ BYTE_LIMIT < entries_bytes kept /\
        ((length kept <= 1)%nat \/ filter (fun e => en_operationId e <> id) kept = [])
  end.
Proof. apply bounded_spec. Qed.

(** ** Keeping and reading back *)

Definition entry_ok (e : Entry) : Prop :=
  DIGEST (en_requestDigest e) = true /\
  match en_state e, en_result e with Intent, None => True | Complete, Some r => jtruthy r = true | _, _ => False end.

Lemma decode_encodeEntry e : entry_ok e -> decodeEntry (encodeEntry e) = Some e.
Proof.
  destruct e as [kind id dg state result]. intros [Hd Hs]. cbn [en_requestDigest en_state en_result] in Hd, Hs. unfold decodeEntry, encodeEntry.
  destruct kind, state, result as [r|]; try done; lazy -[DIGEST jtruthy]; rewrite Hd; [done|by rewrite Hs|done|by rewrite Hs].
Qed.

Lemma decodedEntries_encode l : Forall entry_ok l -> decodedEntries (encodeEntries l) = l.
Proof. intros Hl. cbn. induction Hl as [|e l He _ IH]; [done|]. cbn. by rewrite decode_encodeEntry, IH. Qed.

Lemma decodeEntry_ok j e : decodeEntry j = Some e -> entry_ok e.
Proof.
  unfold decodeEntry. destruct (decodeKind _) as [kind|]; [|done]. destruct (jget "operationId" j) as [[]|]; try done.
  destruct (jget "requestDigest" j) as [[]|]; try done. destruct (decodeState _) as [state|]; [|done]. destruct (DIGEST _) eqn:Ed; [|done].
  destruct state; [by intros [= <-]|]. unfold given. destruct (jget "result" j) as [r|]; [|done]. destruct (jtruthy r) eqn:Er; [|done]. by intros [= <-].
Qed.

Lemma omap_Forall {A B} (f : A -> option B) (P : B -> Prop) l : (forall x y, f x = Some y -> P y) -> Forall P (omap f l).
Proof. intros Hf. apply Forall_forall. intros y (x & _ & Hx)%list_elem_of_omap. eauto. Qed.

Lemma decodedEntries_ok j : Forall entry_ok (decodedEntries j).
Proof. destruct j; try constructor. apply omap_Forall, decodeEntry_ok. Qed.

Section Runs.
Context `{Platform, !PlatformLaws}.

Lemma digest_DIGEST request : DIGEST (digest request) = true.
Proof. pose proof (hex_hex (request_hash request)) as Hh. by rewrite request_hash_length in Hh. Qed.

Lemma migrate_ok j e : migrate j = Some e -> entry_ok e /\ en_state e = Complete.
Proof.
  unfold migrate. destruct (decodeKind _) as [kind|]; [|done]. destruct (jget "operationId" j) as [[]|]; try done.
  destruct (jget "request" j) as [[]|]; try done. unfold given. destruct (jget "result" j) as [r|]; [|done]. destruct (jtruthy r) eqn:Er; [|done].
  destruct (json_parse _); [|done]. intros [= <-]. split; [|done]. split; [apply digest_DIGEST|done].
Qed.

Lemma migrated_ok legacy : Forall entry_ok (migrated legacy).
Proof. destruct legacy as [[]|]; try constructor. apply omap_Forall. intros x y Hx. by apply (migrate_ok x). Qed.

(** ** Executions *)

(** What this browser keeps of the library: the journal and the first journal. *)
Record World : Type := mkWorld { wo_journal : option json; wo_legacy : option json }.
Definition stored (name : string) (w : World) : option json :=
  if String.eqb name LIBRARY_OPERATION_JOURNAL then wo_journal w else if String.eqb name LEGACY_JOURNAL then wo_legacy w else None.
Definition store (name : string) (value : json) (w : World) : World :=
  if String.eqb name LIBRARY_OPERATION_JOURNAL then mkWorld (Some value) (wo_legacy w) else w.

(** What the journal says. *)
Definition entriesOf (w : World) : list Entry :=
  match wo_journal w with Some value => decodedEntries value | None => migrated (wo_legacy w) end.

(** The work done, with what was kept at the time and what it answered; and the results copied from another library. *)
Inductive Event : Type :=
| Worked (kind : OperationKind) (request : json) (operationId : string) (r : answer json) (w : World)
| Copied (operationId : string) (task result : json).

(** An authority answers an object. *)
Definition answered (r : answer json) : Prop := match r with Done j => jtruthy j = true | Failed _ => True end.

(** An execution, [None] where the process died; a read finds nothing in a [faulty] one, a write that fails may have
    been made. *)
Inductive runs (faulty : bool) {A} : prog A -> World -> list Event -> option (answer A) -> World -> Prop :=
| runs_ret r w : runs faulty (Ret r) w [] (Some r) w
| runs_died p w : runs faulty p w [] None w
| runs_kept name k w r tr o w' :
    r = stored name w \/ faulty = true /\ r = None -> runs faulty (k (Done r)) w tr o w' -> runs faulty (Call (Kept name) k) w tr o w'
| runs_keep name v k w r w1 tr o w' :
    r = Done tt /\ w1 = store name v w \/ (exists e, r = Failed e) /\ (w1 = w \/ w1 = store name v w) ->
    runs faulty (k r) w1 tr o w' -> runs faulty (Call (Keep name v) k) w tr o w'
| runs_work kind request id k w r tr o w' :
    answered r -> runs faulty (k r) w tr o w' -> runs faulty (Call (Work kind request id) k) w (Worked kind request id r w :: tr) o w'.

(** What holds of the journal and the events at every point of an execution. *)
Fixpoint wp (faulty : bool) {A} (p : prog A) (w : World) (tr : list Event) (I : World -> list Event -> option (answer A) -> Prop) : Prop :=
  I w tr None /\
  match p with
  | Ret r => I w tr (Some r)
  | Call op k =>
      match op return (answer (reply op) -> prog A) -> Prop with
      | Kept name => fun k => forall r, r = stored name w \/ faulty = true /\ r = None -> wp faulty (k (Done r)) w tr I
      | Keep name v => fun k =>
          wp faulty (k (Done tt)) (store name v w) tr I /\ forall e w1, w1 = w \/ w1 = store name v w -> wp faulty (k (Failed e)) w1 tr I
      | Work kind request id => fun k => forall r, answered r -> wp faulty (k r) w (tr ++ [Worked kind request id r w]) I
      end k
  end.

Lemma wp_runs faulty {A} (p : prog A) w tr' o w' :
  runs faulty p w tr' o w' -> forall tr I, wp faulty p w tr I -> I w' (tr ++ tr') o.
Proof.
  induction 1 as [r w|p w|name k w r tr' o w' Hr _ IH|name v k w r w1 tr' o w' Hr _ IH|kind request id k w r tr' o w' Hr _ IH]; intros tr I Hw; cbn in Hw.
  - rewrite app_nil_r. apply Hw.
  - rewrite app_nil_r. destruct p; apply Hw.
  - apply IH. by apply Hw.
  - destruct Hw as (_ & Hok & Hno). apply IH. destruct Hr as [[-> ->]|[[e ->] ?]]; [done|by apply Hno].
  - rewrite cons_middle, app_assoc. apply IH. by apply Hw.
Qed.

Lemma opwp_bind faulty {A B} (p : prog A) (f : A -> prog B) w tr I :
  wp faulty p w tr (fun w tr o => match o with
                                  | None => I w tr None
                                  | Some (Done a) => wp faulty (f a) w tr I
                                  | Some (Failed e) => I w tr (Some (Failed e))
                                  end) ->
  wp faulty (bind p f) w tr I.
Proof.
  revert w tr. induction p as [r|op k IH]; intros w tr [Hi Hp]; [destruct r; [done|by split]|]. cbn [bind]. split; [done|].
  destruct op as [name|name v|kind request id].
  - intros r Hr. by apply IH, Hp.
  - destruct Hp as [Hok Hno]. split; [by apply IH|]. intros e w1 Hw. by apply IH, Hno.
  - intros r Hr. by apply IH, Hp.
Qed.

Lemma opwp_mono faulty {A} (p : prog A) w tr (I I' : World -> list Event -> option (answer A) -> Prop) :
  (forall w tr o, I w tr o -> I' w tr o) -> wp faulty p w tr I -> wp faulty p w tr I'.
Proof.
  intros Hm. revert w tr. induction p as [r|op k IH]; intros w tr [Hi Hp]; (split; [by apply Hm|]); [by apply Hm|].
  destruct op as [name|name v|kind request id].
  - intros r Hr. by apply IH, Hp.
  - destruct Hp as [Hok Hno]. split; [by apply IH|]. intros e w1 Hw. by apply IH, Hno.
  - intros r Hr. by apply IH, Hp.
Qed.

(** ** Histories *)

Inductive Attempt : Type :=
| ACommand (request : json) (operationId : string)
| ATask (request : json) (operationId : string)
| ACopy (operationId : string) (task result : json).

Definition attempt (a : Attempt) : prog unit :=
  match a with
  | ACommand request id => bind (command request id) (fun _ => ret tt)
  | ATask request id => bind (task request id) (fun _ => ret tt)
  | ACopy id task result => completeDurableTaskOperation id task result
  end.
Definition brought (a : Attempt) : list Event := match a with ACopy id task result => [Copied id task result] | _ => [] end.
Definition attempt_ok (a : Attempt) : Prop := match a with ACopy _ _ result => jtruthy result = true | _ => True end.

(** Attempts follow one another, each to its end or as far as it came. *)
Inductive history (faulty : bool) (w0 : World) : World -> list Event -> Prop :=
| history_start : history faulty w0 w0 []
| history_next w tr a tr' o w' :
    history faulty w0 w tr -> attempt_ok a -> runs faulty (attempt a) w tr' o w' -> history faulty w0 w' (tr ++ brought a ++ tr').

(** The receipts of the events. *)
Definition receipt_of (ev : Event) : option Entry :=
  match ev with
  | Worked kind request id (Done r) _ => Some (mkEntry kind id (digest request) Complete (Some r))
  | Worked _ _ _ (Failed _) _ => None
  | Copied id task result => Some (mkEntry KTask id (digest task) Complete (Some result))
  end.
Definition sourced (legacy : option json) (tr : list Event) (e : Entry) : Prop :=
  en_state e = Complete -> (exists ev, ev ∈ tr /\ receipt_of ev = Some e) \/ e ∈ migrated legacy.

Definition publishes (kind : OperationKind) (request : json) : Prop := kind = KTask /\ jget "kind" request = Some (JStr "assistant.publish").
Definition under_intent (ev : Event) : Prop :=
  match ev with
  | Worked kind request id _ w =>
      publishes kind request \/
      exists e, found id (entriesOf w) = Some e /\ en_kind e = kind /\ en_requestDigest e = digest request /\ en_state e = Intent
  | Copied _ _ _ => True
  end.

Record journalled (w : World) : Prop := {
  jo_journal : match wo_journal w with
               | None => True
               | Some value => exists es, value = encodeEntries es /\ Forall entry_ok es /\ (length es <= ENTRY_LIMIT)%nat /\ entries_bytes es <= BYTE_LIMIT
               end
}.
Record inv (legacy : option json) (w : World) (tr : list Event) : Prop := {
  in_journal : journalled w;
  in_legacy : wo_legacy w = legacy;
  in_sourced : Forall (sourced legacy tr) (entriesOf w);
  in_intent : Forall under_intent tr;
}.

(** *** Looking up *)

Abbreviation own id := (filter (fun e => en_operationId e = id)).

Lemma found_head id l : found id l = head (own id l).
Proof.
  unfold found. induction l as [|e l IH]; [done|]. cbn [list_find]. rewrite filter_cons. case_decide; [done|]. rewrite <- IH.
  by destruct (list_find _ l) as [[i x]|].
Qed.

Lemma found_elem id l e : found id l = Some e -> e ∈ l /\ en_operationId e = id.
Proof.
  rewrite found_head. intros Hh. assert (Hin : e ∈ own id l) by (destruct (own id l); [done|injection Hh as <-; by left]).
  by apply list_elem_of_filter in Hin as [? ?].
Qed.

Lemma own_settle complete l : own (en_operationId complete) (settle complete l) = complete :: drop 1 (own (en_operationId complete) l).
Proof.
  induction l as [|e l IH]; cbn [settle]; [by rewrite filter_cons_True|].
  destruct (String.eqb_spec (en_operationId e) (en_operationId complete)) as [E|E]; [by rewrite !filter_cons_True|].
  by rewrite !filter_cons_False, IH.
Qed.

Lemma elem_of_settle complete l e : e ∈ settle complete l -> e = complete \/ e ∈ l.
Proof.
  induction l as [|e' l IH]; cbn [settle]; [set_solver|]. destruct (String.eqb _ _); set_solver.
Qed.

Lemma length_settle complete l : is_Some (found (en_operationId complete) l) -> length (settle complete l) = length l.
Proof.
  rewrite found_head. induction l as [|e l IH]; cbn [settle]; [by intros [? [=]]|]. rewrite filter_cons.
  destruct (String.eqb_spec (en_operationId e) (en_operationId complete)) as [E|E]; [done|]. rewrite decide_False by done. intros Hs. cbn. by rewrite IH.
Qed.

Lemma recent_last l e : recent (l ++ [e]) = drop (length l + 1 - ENTRY_LIMIT) l ++ [e].
Proof. unfold recent. rewrite length_app. cbn [length]. rewrite drop_app_le by (unfold ENTRY_LIMIT; lia). done. Qed.

Lemma recent_all l : (length l <= ENTRY_LIMIT)%nat -> recent l = l.
Proof. intros Hl. unfold recent. replace (length l - ENTRY_LIMIT)%nat with 0%nat by lia. apply drop_0. Qed.

Lemma own_recent_intent id l e : found id l = None -> en_operationId e = id -> own id (recent (l ++ [e])) = [e].
Proof.
  intros Hf He. rewrite recent_last, filter_app, filter_cons_True by done.
  assert (Hn : own id l = []) by (rewrite found_head in Hf; by destruct (own id l)).
  assert (Hd : own id (drop (length l + 1 - ENTRY_LIMIT) l) = []); [|by rewrite Hd].
  destruct (own id (drop _ l)) as [|x r] eqn:E; [done|]. assert (Hx : x ∈ own id (drop (length l + 1 - ENTRY_LIMIT) l)) by (rewrite E; by left).
  apply list_elem_of_filter in Hx as [Hi Hx]. apply (subseteq_drop _ l) in Hx. assert (Hx' : x ∈ own id l) by (by apply list_elem_of_filter).
  rewrite Hn in Hx'. by apply not_elem_of_nil in Hx'.
Qed.

(** *** The invariant of every step *)

Section Steps.
Context (faulty : bool) (legacy : option json).

Abbreviation inv := (inv legacy).
Abbreviation good tr := (fun es => Forall entry_ok es /\ Forall (sourced legacy tr) es).

Lemma good_entriesOf w tr : inv w tr -> good tr (entriesOf w).
Proof.
  intros Hi. split; [|apply Hi]. unfold entriesOf. destruct (wo_journal w); [apply decodedEntries_ok|apply migrated_ok].
Qed.

Lemma good_migrated tr : good tr (migrated legacy).
Proof. split; [apply migrated_ok|]. apply Forall_forall. intros e He _. by right. Qed.

Lemma migrated_complete : Forall (fun e => en_state e = Complete) (migrated legacy).
Proof. destruct legacy as [[]|]; try constructor. apply omap_Forall. intros x y Hx. by apply (migrate_ok x). Qed.

Lemma wp_entries w tr I :
  inv w tr -> I w tr None ->
  (forall es, good tr es -> es = entriesOf w \/ faulty = true /\ Forall (fun e => en_state e = Complete) es -> I w tr (Some (Done es))) ->
  wp faulty entries w tr I.
Proof.
  intros Hi Hnone He. apply opwp_bind. split; [done|]. intros current Hc. split; [done|]. destruct current as [value|].
  - destruct Hc as [Hc|[_ [=]]]. cbn in Hc. assert (Ee : entriesOf w = decodedEntries value) by (unfold entriesOf; by rewrite <- Hc).
    split; [done|]. rewrite <- Ee. apply He; [by apply good_entriesOf|by left].
  - apply opwp_bind. split; [done|]. intros l Hl. split; [done|]. split; [done|]. destruct Hl as [->|[Hf ->]].
    + change (stored LEGACY_JOURNAL w) with (wo_legacy w). rewrite (in_legacy _ _ _ Hi). apply He; [apply good_migrated|]. destruct Hc as [Hc|[Hf _]]; [left|right; split; [done|apply migrated_complete]].
      unfold entriesOf. cbn in Hc. rewrite <- Hc. by rewrite (in_legacy _ _ _ Hi).
    + apply He; [by split; constructor|]. right. split; [done|constructor].
Qed.

(** A journal of good entries kept. *)
Lemma inv_kept w tr kept cur id :
  inv w tr -> good tr cur -> bounded cur id = Done kept ->
  inv (store LIBRARY_OPERATION_JOURNAL (encodeEntries kept) w) tr /\ entriesOf (store LIBRARY_OPERATION_JOURNAL (encodeEntries kept) w) = kept.
Proof.
  intros Hi [Hok Hs] Hb. pose proof (bounded_spec cur id) as Hspec. rewrite Hb in Hspec. destruct Hspec as (Hl & Hby & Hsub & _).
  assert (Hin : forall e, e ∈ kept -> e ∈ cur) by (intros e He; by apply (sublist_subseteq _ _ (recent_sublist cur)), (sublist_subseteq _ _ Hsub)).
  assert (Hk : Forall entry_ok kept) by (apply Forall_forall; intros e He%Hin; by apply (proj1 (Forall_forall _ _) Hok)).
  assert (He : entriesOf (store LIBRARY_OPERATION_JOURNAL (encodeEntries kept) w) = kept) by (by apply decodedEntries_encode).
  split; [|done]. split; [| |rewrite He|apply Hi].
  - split. cbn. by exists kept.
  - apply Hi.
  - apply Forall_forall. intros e Hin'%Hin. by apply (proj1 (Forall_forall _ _) Hs).
Qed.

Lemma wp_keep w tr cur id I :
  inv w tr -> good tr cur -> (forall w, inv w tr -> I w tr None) -> (forall w e, inv w tr -> I w tr (Some (Failed e))) ->
  (forall kept w, bounded cur id = Done kept -> inv w tr -> entriesOf w = kept -> I w tr (Some (Done tt))) ->
  wp faulty (keep cur id) w tr I.
Proof.
  intros Hi Hg Hnone Hf Hd. unfold keep. destruct (bounded cur id) as [kept|e] eqn:Hb; [|split; [by apply Hnone|by apply Hf]].
  destruct (inv_kept w tr kept cur id Hi Hg Hb) as [Hi' He]. split; [by apply Hnone|]. split.
  - split; [by apply Hnone|]. by apply (Hd kept).
  - intros e w1 [->| ->]; (split; [by apply Hnone|by apply Hf]).
Qed.

Lemma sourced_app tr tr' e : sourced legacy tr e -> sourced legacy (tr ++ tr') e.
Proof. intros Hs Hc. destruct (Hs Hc) as [(ev & Hin & Hr)|]; [left; exists ev; split; [apply elem_of_app; by left|done]|by right]. Qed.

Lemma inv_extended w tr ev : inv w tr -> under_intent ev -> inv w (tr ++ [ev]).
Proof.
  intros [H1 H2 H3 H4] Hu. split; [done|done| |].
  - eapply Forall_impl; [exact H3|]. intros e. apply sourced_app.
  - apply Forall_app. split; [done|]. by apply Forall_singleton.
Qed.

(** The receipt of an event put into the journal. *)
Lemma good_settle tr ev complete es : ev ∈ tr -> receipt_of ev = Some complete -> entry_ok complete -> good tr es -> good tr (settle complete es).
Proof.
  intros Hev Hr Hok [Ho Hs]. split; apply Forall_forall; intros e [->|He]%elem_of_settle; try done.
  - by apply (proj1 (Forall_forall _ _) Ho).
  - intros _. left. by exists ev.
  - by apply (proj1 (Forall_forall _ _) Hs).
Qed.

Definition receipt (kind : OperationKind) (id : string) (request r : json) : Entry := mkEntry kind id (digest request) Complete (Some r).

Lemma receipt_ok kind id request r : jtruthy r = true -> entry_ok (receipt kind id request r).
Proof. intros Hr. split; [apply digest_DIGEST|done]. Qed.

(** What is settled in place is found again. *)
Lemma found_settled complete es kept :
  is_Some (found (en_operationId complete) es) -> (length es <= ENTRY_LIMIT)%nat ->
  bounded (settle complete es) (en_operationId complete) = Done kept -> found (en_operationId complete) kept = Some complete.
Proof.
  intros Hf Hl Hb. pose proof (bounded_spec (settle complete es) (en_operationId complete)) as Hs. rewrite Hb in Hs. destruct Hs as (_ & _ & _ & Ho & _).
  rewrite found_head, Ho, recent_all, own_settle; [done|]. by rewrite length_settle.
Qed.

(** The journal an intent was found in is within its bounds. *)
Lemma intent_length w tr id e : inv w tr -> found id (entriesOf w) = Some e -> en_state e = Intent -> (length (entriesOf w) <= ENTRY_LIMIT)%nat.
Proof.
  intros Hi [Hin _]%found_elem He. pose proof (jo_journal _ (in_journal _ _ _ Hi)) as Hj. unfold entriesOf in *. destruct (wo_journal w) as [value|].
  - destruct Hj as (es & -> & Hok & Hl & _). by rewrite decodedEntries_encode.
  - rewrite (in_legacy _ _ _ Hi) in Hin. pose proof (proj1 (Forall_forall _ _) migrated_complete e Hin). congruence.
Qed.

(** After an operation: the invariant, and the receipt of the result it answered. *)
Definition performed (kind : OperationKind) (id : string) (request : json) (w : World) (tr : list Event) (o : option (answer json)) : Prop :=
  inv w tr /\
  match o with
  | Some (Done r) => importing kind r = false -> faulty = false -> found id (entriesOf w) = Some (receipt kind id request r)
  | _ => True
  end.

Lemma wp_carry_out kind id request w tr e :
  inv w tr -> found id (entriesOf w) = Some e -> en_kind e = kind -> en_requestDigest e = digest request -> en_state e = Intent ->
  wp faulty (carry_out kind id request) w tr (performed kind id request).
Proof.
  intros Hi Hf Hk Hd Hs. apply opwp_bind. split; [by split|]. intros r Hr.
  set (ev := Worked kind request id r w). set (tr' := tr ++ [ev]).
  assert (Hi' : inv w tr') by (apply inv_extended; [done|]; right; by exists e). split; [by split|]. destruct r as [r|err]; [|by split].
  destruct (importing kind r) eqn:Hm; [split; [by split|]; split; [done|]; intros E; by rewrite Hm in E|]. destruct (RESULT_BYTE_LIMIT <? json_bytes r).
  { by split. }
  assert (Hev : ev ∈ tr') by (apply elem_of_app; right; by left).
  apply opwp_bind, wp_entries; [done|by split|]. intros es Hes Hfrom.
  assert (Hgood : Forall entry_ok (settle (receipt kind id request r) es) /\ Forall (sourced legacy tr') (settle (receipt kind id request r) es))
    by (apply (good_settle tr' ev); [done|done|by apply receipt_ok|done]).
  assert (Hrest : wp faulty (bind (keep (settle (receipt kind id request r) es) id) (fun _ => ret r)) w tr' (performed kind id request)).
  { apply opwp_bind, wp_keep; [done|done|by split|by split|]. intros kept w1 Hb Hi1 He1. split; [by split|]. split; [done|]. intros _ Hnf.
    rewrite He1. apply (found_settled (receipt kind id request r) es); [| |done].
    - destruct Hfrom as [->|[Hf' _]]; [cbn; rewrite Hf; by eexists|congruence].
    - destruct Hfrom as [->|[Hf' _]]; [by eapply (intent_length w tr)|congruence]. }
  destruct (found id es) as [e'|]; [destruct (same_request _ _ _)|]; [|by split|]; exact Hrest.
Qed.

Lemma same_request_eq kind dg e : same_request kind dg e = true <-> en_kind e = kind /\ en_requestDigest e = dg.
Proof. unfold same_request. rewrite andb_true_iff, bool_decide_eq_true, String.eqb_eq. done. Qed.

Lemma opwp_perform kind id request w tr : inv w tr -> wp faulty (perform kind id request) w tr (performed kind id request).
Proof.
  intros Hi. unfold perform. apply opwp_bind, wp_entries; [done|by split|]. intros es Hes Hfrom. destruct (found id es) as [e|] eqn:Hf.
  - destruct (same_request kind (digest request) e) eqn:Hsame; cbn [negb]; [|by split]. apply same_request_eq in Hsame as [Hk Hd].
    pose proof (found_elem _ _ _ Hf) as [Hin Hid]. pose proof (proj1 (Forall_forall _ _) (proj1 Hes) e Hin) as [_ Hst].
    destruct (en_state e) eqn:Es, (en_result e) as [r|] eqn:Er; try done.
    + destruct Hfrom as [->|[_ Hall]]; [by eapply wp_carry_out|]. pose proof (proj1 (Forall_forall _ _) Hall e Hin). congruence.
    + split; [by split|]. split; [done|]. intros _ Hnf. destruct Hfrom as [->|[Hf' _]]; [|congruence]. rewrite Hf. f_equal. destruct e. cbn in *. by subst.
  - apply opwp_bind, wp_keep; [done| |by split|by split|].
    + destruct Hes as [Ho Hs]. split; apply Forall_app; (split; [done|]); apply Forall_singleton; [|done]. split; [apply digest_DIGEST|done].
    + intros kept w1 Hb Hi1 He1. apply (wp_carry_out kind id request w1 tr (mkEntry kind id (digest request) Intent None)); [done| |done..]. pose proof (bounded_spec (es ++ [mkEntry kind id (digest request) Intent None]) id) as Hs.
      rewrite Hb in Hs. destruct Hs as (_ & _ & _ & Hown & _). rewrite He1, found_head, Hown, own_recent_intent; done.
Qed.

Lemma wp_task id request w tr : inv w tr -> wp faulty (task request id) w tr (fun w tr _ => inv w tr).
Proof.
  intros Hi. unfold task. case_bool_decide as Hp; cycle 1.
  { apply (opwp_mono _ _ _ _ (performed KTask id request)); [by intros ??? [? _]|by apply opwp_perform]. }
  split; [done|]. intros r Hr. split; (apply inv_extended; [done|by left]).
Qed.
End Steps.

Lemma wp_copy faulty legacy id task result w tr :
  inv legacy w tr -> Copied id task result ∈ tr -> jtruthy result = true ->
  wp faulty (completeDurableTaskOperation id task result) w tr (fun w tr _ => inv legacy w tr).
Proof.
  intros Hi Hev Hr. unfold completeDurableTaskOperation. destruct (RESULT_BYTE_LIMIT <? json_bytes result); [by split|].
  apply opwp_bind, (wp_entries faulty legacy); [done|done|]. intros es Hes _.
  assert (Hrest : wp faulty (keep (settle (receipt KTask id task result) es) id) w tr (fun w tr _ => inv legacy w tr)).
  { apply (wp_keep faulty legacy); try done. apply (good_settle legacy tr (Copied id task result)); [done|done|by apply receipt_ok|done]. }
  destruct (found id es) as [e|]; [destruct (same_request _ _ _)|]; [|by split|]; exact Hrest.
Qed.

Lemma inv_copied legacy a w tr : inv legacy w tr -> inv legacy w (tr ++ brought a).
Proof. intros Hi. destruct a; cbn; [by rewrite app_nil_r..|]. by apply inv_extended. Qed.

Lemma wp_attempt faulty legacy a w tr :
  inv legacy w tr -> attempt_ok a -> wp faulty (attempt a) w (tr ++ brought a) (fun w tr _ => inv legacy w tr).
Proof.
  intros Hi Ha. pose proof (inv_copied legacy a w tr Hi) as Hi'. destruct a as [request id|request id|id task result].
  - apply opwp_bind. eapply opwp_mono; [|by apply (opwp_perform faulty legacy)]. intros w1 tr1 [[r|e]|] [H1 _]; [by split|done..].
  - apply opwp_bind. eapply opwp_mono; [|by apply (wp_task faulty legacy)]. intros w1 tr1 [[r|e]|] H1; [by split|done..].
  - apply wp_copy; [done| |done]. apply elem_of_app. right. by left.
Qed.

Lemma history_inv faulty w0 w tr : wo_journal w0 = None -> history faulty w0 w tr -> inv (wo_legacy w0) w tr.
Proof.
  intros Hstart. induction 1 as [|w tr a tr' o w' _ IH Ha Hr].
  - split; [split; by rewrite Hstart|done| |constructor]. unfold entriesOf. rewrite Hstart. apply Forall_forall. intros e He _. by right.
  - rewrite app_assoc. apply (wp_runs _ _ _ _ _ _ Hr (tr ++ brought a) (fun w tr _ => inv (wo_legacy w0) w tr)). by apply wp_attempt.
Qed.

(** ** Answering again *)

Lemma runs_bind faulty {A B} (p : prog A) (f : A -> prog B) w tr o w1 : 
  runs faulty p w tr o w1 -> forall a tr' o' w', o = Some (Done a) -> runs faulty (f a) w1 tr' o' w' -> runs faulty (bind p f) w (tr ++ tr') o' w'.
Proof.
  induction 1 as [r w|p w|name k w r tr o w1 Hr _ IH|name v k w r w2 tr o w1 Hr _ IH|kind request id k w r tr o w1 Hr _ IH]; intros a tr' o' w' Ho Hf; cbn [bind app].
  - injection Ho as ->. exact Hf.
  - done.
  - apply (runs_kept _ _ _ _ r); [done|]. by apply (IH a).
  - apply (runs_keep _ _ _ _ _ r w2); [done|]. by apply (IH a).
  - apply (runs_work _ _ _ _ (fun r => bind (k r) f)); [done|]. by apply (IH a).
Qed.

Lemma runs_entries w : runs false entries w [] (Some (Done (entriesOf w))) w.
Proof.
  unfold entriesOf. destruct (wo_journal w) as [value|] eqn:Ej.
  - apply (runs_kept _ _ _ _ (Some value)); [left; cbn; by rewrite Ej|]. constructor.
  - apply (runs_kept _ _ _ _ None); [left; cbn; by rewrite Ej|]. apply (runs_kept _ _ _ _ (wo_legacy w)); [by left|]. constructor.
Qed.

Lemma perform_found legacy tr0 kind id request w e :
  inv legacy w tr0 -> found id (entriesOf w) = Some e -> en_state e = Complete ->
  exists r, en_result e = Some r /\
    let outcome := if same_request kind (digest request) e then Done r else Failed conflict in
    runs false (perform kind id request) w [] (Some outcome) w /\
    forall tr o w', runs false (perform kind id request) w tr o w' -> tr = [] /\ w' = w /\ (o = None \/ o = Some outcome).
Proof.
  intros Hi Hf Hs. destruct (good_entriesOf legacy w tr0 Hi) as [Hok _]. pose proof (found_elem _ _ _ Hf) as [Hin _].
  pose proof (proj1 (Forall_forall _ _) Hok e Hin) as [_ He]. rewrite Hs in He. destruct (en_result e) as [r|] eqn:Er; [|done]. exists r.
  split; [done|]. cbn zeta. set (outcome := if same_request _ _ _ then _ else _).
  split.
  - apply (runs_bind _ _ _ _ [] _ _ (runs_entries w) _ [] _ _ eq_refl). rewrite Hf, Hs, Er. unfold outcome. destruct (same_request _ _ _); constructor.
  - intros tr o w' Hr. assert (Hw : wp false (perform kind id request) w tr0 (fun w' tr o => tr = tr0 /\ w' = w /\ (o = None \/ o = Some outcome))).
    { apply opwp_bind, (wp_entries false legacy); [done|by auto|]. intros es _ [->|[? _]]; [|done]. rewrite Hf, Hs, Er. unfold outcome.
      destruct (same_request _ _ _); cbn; auto. }
    destruct (wp_runs _ _ _ _ _ _ Hr tr0 _ Hw) as (Ht & -> & Ho). split; [|done]. rewrite <- (app_nil_r tr0) in Ht at 2. by apply app_inv_head in Ht.
Qed.
End Runs.

(** C9: no work is done before its intent is kept. Over every history of commands, tasks and copied results, with the
    process dying anywhere, reads of the journal finding nothing and writes failing: whenever the authority is asked to
    carry out an operation, the journal this browser keeps holds that operation's intent, of the same kind and request;
    an assistant's publish, which changes no rows, is the one exception. *)
Theorem operation_intent_first `{Platform, !PlatformLaws} w0 w tr kind request id r at_ :
  wo_journal w0 = None -> history true w0 w tr -> Worked kind request id r at_ ∈ tr ->
  publishes kind request \/
  exists e, found id (entriesOf at_) = Some e /\ en_kind e = kind /\ en_requestDigest e = digest request /\ en_state e = Intent.
Proof.
  intros Hstart Hh Hin. pose proof (in_intent _ _ _ (history_inv true w0 w tr Hstart Hh)) as Hi. exact (proj1 (Forall_forall _ _) Hi _ Hin).
Qed.

(** C10: an operation whose receipt is kept is answered, not done again. The receipt is the result that operation's own
    work gave (or that was copied for it from another library, or is one of the first journal's); asking for it again
    answers exactly that, and asking with its id for another request is refused as a conflict; either way no work is
    done and nothing kept changes. *)
Theorem operation_replayed `{Platform, !PlatformLaws} w0 w tr id e :
  wo_journal w0 = None -> history true w0 w tr -> found id (entriesOf w) = Some e -> en_state e = Complete ->
  ((exists ev, ev ∈ tr /\ receipt_of ev = Some e) \/ e ∈ migrated (wo_legacy w0)) /\
  exists r, en_result e = Some r /\ forall kind request,
    let outcome := if same_request kind (digest request) e then Done r else Failed conflict in
    runs false (perform kind id request) w [] (Some outcome) w /\
    forall tr' o w', runs false (perform kind id request) w tr' o w' -> tr' = [] /\ w' = w /\ (o = None \/ o = Some outcome).
Proof.
  intros Hstart Hh Hf Hs. pose proof (history_inv true w0 w tr Hstart Hh) as Hi. split.
  - pose proof (found_elem _ _ _ Hf) as [Hin _]. exact (proj1 (Forall_forall _ _) (in_sourced _ _ _ Hi) e Hin Hs).
  - destruct (perform_found _ tr KCommand id JNull w e Hi Hf Hs) as (r & Hr & _). exists r. split; [done|]. intros kind request.
    destruct (perform_found _ tr kind id request w e Hi Hf Hs) as (r' & Hr' & Hp). assert (r' = r) as -> by congruence. exact Hp.
Qed.

(** C39: the journal is always readable and within its bounds; and an operation that answers, where the reads of its run
    find what was kept, has its receipt in it, except for an import of history that is not complete, which answers
    without one so that it is done again. *)
Theorem operation_journal_bounded `{Platform, !PlatformLaws} w0 w tr :
  wo_journal w0 = None -> history true w0 w tr ->
  (forall value, wo_journal w = Some value ->
     value = encodeEntries (decodedEntries value) /\ (length (decodedEntries value) <= ENTRY_LIMIT)%nat /\ json_bytes value <= BYTE_LIMIT) /\
  forall kind id request tr' r w', runs false (perform kind id request) w tr' (Some (Done r)) w' -> importing kind r = false ->
    found id (entriesOf w') = Some (mkEntry kind id (digest request) Complete (Some r)).
Proof.
  intros Hstart Hh. pose proof (history_inv true w0 w tr Hstart Hh) as Hi. split.
  - intros value Hv. pose proof (jo_journal _ (in_journal _ _ _ Hi)) as Hj. rewrite Hv in Hj. destruct Hj as (es & -> & Hok & Hl & Hb).
    by rewrite decodedEntries_encode.
  - intros kind id request tr' r w' Hr Hm. pose proof (opwp_perform false (wo_legacy w0) kind id request w tr Hi) as Hw.
    destruct (wp_runs _ _ _ _ _ _ Hr tr _ Hw) as [_ Hp]. by apply Hp.
Qed.
