(* ===== verification/OperationsExample.v ===== *)
(** * Operations on a concrete journal

    Two commands whose work is done and answered, the first of them asked for again. *)

From S2P Require Import Prelude JsMap JsText Json ProfileKeys ServiceCore Operations OperationsSafety.
Open Scope Z_scope.

(** A size for every value, one byte for each of its marks and characters, and a hash of it. *)
Fixpoint demo_size (j : json) : Z :=
  match j with
  | JNull | JBool _ | JNum _ => 4
  | JStr s => 2 + Z.of_nat (String.length s)
  | JArr l => 2 + foldr (fun x n => demo_size x + 1 + n) 0 l
  | JObj l => 2 + foldr (fun kv n => 4 + Z.of_nat (String.length kv.1) + demo_size kv.2 + n) 0 l
  end.
#[local] Instance demo_platform : Platform := {|
  request_hash j := replicate 31 "0"%char ++ [Ascii.ascii_of_N (Z.to_N (demo_size j))];
  json_bytes := demo_size;
  json_parse s := None;
|}.
#[local] Instance demo_platform_laws : PlatformLaws := {| request_hash_length := fun request => eq_refl |}.

(** An execution in which every read and write succeeds and the work answers [answers] in turn. *)
Fixpoint exec {A} (fuel : nat) (p : prog A) (w : World) (answers : list json) : list Event * option (answer A) * World :=
  match fuel, p with
  | O, _ => ([], None, w)
  | S fuel, Ret r => ([], Some r, w)
  | S fuel, Call op k =>
      match op return (answer (reply op) -> prog A) -> list Event * option (answer A) * World with
      | Kept name => fun k => exec fuel (k (Done (stored name w))) w answers
      | Keep name v => fun k => exec fuel (k (Done tt)) (store name v w) answers
      | Work kind request id => fun k =>
          match answers with
          | [] => ([], None, w)
          | j :: answers =>
              if jtruthy j then
                let '(tr, o, w') := exec fuel (k (Done j)) w answers in (Worked kind request id (Done j) w :: tr, o, w')
              else ([], None, w)
          end
      end k
  end.

Lemma exec_runs faulty {A} fuel (p : prog A) w answers :
  let '(tr, o, w') := exec fuel p w answers in runs faulty p w tr o w'.
Proof.
  revert p w answers. induction fuel as [|fuel IH]; intros p w answers; cbn [exec]; [constructor|]. destruct p as [r|op k]; [constructor|].
  destruct op as [name|name v|kind request id].
  - specialize (IH (k (Done (stored name w))) w answers). destruct (exec fuel _ w answers) as [[tr o] w']. by apply (runs_kept _ _ _ _ (stored name w)); [left|].
  - specialize (IH (k (Done tt)) (store name v w) answers). destruct (exec fuel _ _ answers) as [[tr o] w'].
    apply (runs_keep _ _ _ _ _ (Done tt) (store name v w)); [by left|done].
  - destruct answers as [|j answers]; [constructor|]. destruct (jtruthy j) eqn:Ej; [|constructor]. specialize (IH (k (Done j)) w answers).
    destruct (exec fuel _ w answers) as [[tr o] w']. by constructor.
Qed.

Definition demo_start : World := mkWorld None None.
Definition demo_request (n : Z) : json := JObj [("kind", JStr "watchlist.set"); ("id", jint n)].
Definition demo_reaction : json := JObj [("kind", JStr "reaction.set"); ("id", jint 1)].
Definition demo_answer (outcome : string) : json := JObj [("value", JObj [("outcome", JStr outcome)]); ("affected", JArr [])].

Definition after {A} (x : list Event * option (answer A) * World) : World := x.2.
Definition events {A} (x : list Event * option (answer A) * World) : list Event := x.1.1.

Definition demo_one : list Event * option (answer unit) * World := exec 20 (attempt (ACommand (demo_request 1) "op-1")) demo_start [demo_answer "applied"].
Definition demo_two : list Event * option (answer unit) * World := exec 20 (attempt (ACommand (demo_request 2) "op-2")) (after demo_one) [demo_answer "unchanged"].
Definition demo_trace : list Event := ([] ++ [] ++ events demo_one) ++ [] ++ events demo_two.

Lemma demo_history : history true demo_start (after demo_two) demo_trace.
Proof.
  pose proof (exec_runs true 20 (attempt (ACommand (demo_request 1) "op-1")) demo_start [demo_answer "applied"]) as H1.
  pose proof (exec_runs true 20 (attempt (ACommand (demo_request 2) "op-2")) (after demo_one) [demo_answer "unchanged"]) as H2.
  change (runs true (attempt (ACommand (demo_request 1) "op-1")) demo_start (events demo_one) demo_one.1.2 (after demo_one)) in H1.
  change (runs true (attempt (ACommand (demo_request 2) "op-2")) (after demo_one) (events demo_two) demo_two.1.2 (after demo_two)) in H2.
  apply (history_next _ _ _ _ (ACommand (demo_request 2) "op-2") _ _ _ (history_next _ _ _ _ (ACommand (demo_request 1) "op-1") _ _ _ (history_start _ _) I H1) I H2).
Defined.

Definition demo_receipt : Entry := mkEntry KCommand "op-1" (digest (demo_request 1)) Complete (Some (demo_answer "applied")).

Lemma operation_intent_first_witness :
  length demo_trace = 2%nat /\
  exists e, found "op-2" (entriesOf (after (exec 3 (attempt (ACommand (demo_request 2) "op-2")) (after demo_one) []))) = Some e /\ en_state e = Intent.
Proof.
  split; [vm_compute; reflexivity|].
  destruct (operation_intent_first demo_start (after demo_two) demo_trace KCommand (demo_request 2) "op-2" (Done (demo_answer "unchanged"))
    (after (exec 3 (attempt (ACommand (demo_request 2) "op-2")) (after demo_one) [])) eq_refl demo_history) as [[H _]|(e & H1 & _ & _ & H2)].
  - vm_compute. right. left.
  - discriminate H.
  - exists e. split; [exact H1|exact H2].
Defined.

(** The first command asked for again, and its id used for another. *)
Lemma operation_replayed_witness :
  runs false (perform KCommand "op-1" (demo_request 1)) (after demo_two) [] (Some (Done (demo_answer "applied"))) (after demo_two) /\
  runs false (perform KCommand "op-1" demo_reaction) (after demo_two) [] (Some (Failed conflict)) (after demo_two).
Proof.
  destruct (operation_replayed demo_start (after demo_two) demo_trace "op-1" demo_receipt eq_refl demo_history) as [_ (r & Hr & Hp)];
    [vm_compute; reflexivity|reflexivity|]. injection Hr as <-. split.
  - exact (proj1 (Hp KCommand (demo_request 1))).
  - exact (proj1 (Hp KCommand demo_reaction)).
Defined.

Lemma operation_journal_bounded_witness :
  length (entriesOf (after demo_two)) = 2%nat /\
  forall value, wo_journal (after demo_two) = Some value -> (length (decodedEntries value) <= ENTRY_LIMIT)%nat.
Proof.
  split; [vm_compute; reflexivity|]. intros value Hv.
  exact (proj1 (proj2 (proj1 (operation_journal_bounded demo_start (after demo_two) demo_trace eq_refl demo_history) value Hv))).
Defined.
