(* ===== verification/ImportCsv.v ===== *)
(** * Tables of viewing ([web/src/lib/viewingImportCsv.ts])

    A provider's export is read as RFC 4180 rows. A text is the list of its UTF-16 code units. *)

From S2P Require Import Prelude JsMap.
Open Scope Z_scope.

Definition text : Type := list Z.
Definition QUOTE : Z := 34.
Definition TAB : Z := 9.
Definition COMMA : Z := 44.
Definition LF : Z := 10.
Definition CR : Z := 13.
Definition BOM : Z := 65279.

(** [source.slice(0, source.search(/\r?\n/))], the whole text where there is none. *)
Fixpoint firstLine (source : text) : text :=
  match source with
  | [] => []
  | c :: rest =>
      if c =? LF then []
      else if (c =? CR) && match rest with n :: _ => n =? LF | [] => false end then []
      else c :: firstLine rest
  end.

Definition withoutBom (t : text) : text := match t with c :: rest => if c =? BOM then rest else t | [] => [] end.

Record Csv : Type := mkCsv { cs_rows : list (list text); cs_row : list text; cs_field : text; cs_quoted : bool }.

Definition finishField (s : Csv) : Csv := mkCsv (cs_rows s) (cs_row s ++ [cs_field s]) [] (cs_quoted s).
Definition filled (value : text) : bool := match value with [] => false | _ => true end.
Definition finishRow (s : Csv) : Csv :=
  let s := finishField s in
  mkCsv (if existsb filled (cs_row s) then cs_rows s ++ [cs_row s] else cs_rows s) [] (cs_field s) (cs_quoted s).
Definition addChar (c : Z) (s : Csv) : Csv := mkCsv (cs_rows s) (cs_row s) (cs_field s ++ [c]) (cs_quoted s).
Definition setQuoted (q : bool) (s : Csv) : Csv := mkCsv (cs_rows s) (cs_row s) (cs_field s) q.

(** The characters of the source, from the state they are met in *)
Fixpoint scan (delimiter : Z) (source : text) (s : Csv) : Csv :=
  match source with
  | [] => s
  | char :: rest =>
      if cs_quoted s then
        if char =? QUOTE then
          match rest with
          | next :: rest' => if next =? QUOTE then scan delimiter rest' (addChar QUOTE s) else scan delimiter rest (setQuoted false s)
          | [] => setQuoted false s
          end
        else scan delimiter rest (addChar char s)
      else if (char =? QUOTE) && negb (filled (cs_field s)) then scan delimiter rest (setQuoted true s)
      else if char =? delimiter then scan delimiter rest (finishField s)
      else if char =? LF then scan delimiter rest (finishRow s)
      else if char =? CR then scan delimiter rest s
      else scan delimiter rest (addChar char s)
  end.

Definition delimiterOf (source : text) : Z := if existsb (Z.eqb TAB) (firstLine source) then TAB else COMMA.

Definition parseDelimitedRows (t : text) : list (list text) :=
  let source := withoutBom t in
  let s := scan (delimiterOf source) source (mkCsv [] [] [] false) in
  cs_rows (if filled (cs_field s) || negb (length (cs_row s) =? 0)%nat then finishRow s else s).

(** [text.trim()] *)
Definition white (c : Z) : bool :=
  existsb (Z.eqb c) [9; 10; 11; 12; 13; 32; 160; 5760; 8232; 8233; 8239; 8287; 12288; 65279] || ((8192 <=? c) && (c <=? 8202)).
Fixpoint trimStart (t : text) : text := match t with c :: rest => if white c then trimStart rest else t | [] => [] end.
Definition trimText (t : text) : text := rev (trimStart (rev (trimStart t))).

Definition csvRecords (t : text) : list (jsmap text text) :=
  match parseDelimitedRows t with
  | [] => []
  | rawHeaders :: rows =>
      let headers := trimText <$> rawHeaders in
      (fun row => map_of (concat (imap (fun at_ header => if filled header then [(header, default [] (trimText <$> row !! at_))] else []) headers))) <$> rows
  end.

(** ** What a table is written as *)

(** A quote inside quotes is doubled. *)
Definition escape (f : text) : text := concat ((fun c => if c =? QUOTE then [QUOTE; QUOTE] else [c]) <$> f).

(** A field as it is, or in quotes. *)
Inductive spells_field (d : Z) : text -> text -> Prop :=
| field_plain f : Forall (fun c => c <> d /\ c <> LF /\ c <> CR) f -> head f <> Some QUOTE -> spells_field d f f
| field_quoted f : spells_field d f (QUOTE :: escape f ++ [QUOTE]).

Inductive spells_row (d : Z) : list text -> text -> Prop :=
| row_one f t : spells_field d f t -> spells_row d [f] t
| row_more f t fs ts : spells_field d f t -> spells_row d fs ts -> spells_row d (f :: fs) (t ++ d :: ts).

(** Rows end in a line feed, with or without a carriage return, the last one perhaps in neither. *)
Inductive spells (d : Z) : list (list text) -> text -> Prop :=
| rows_none : spells d [] []
| rows_last row t : spells_row d row t -> spells d [row] t
| rows_line row t ending rows ts :
    spells_row d row t -> ending = [LF] \/ ending = [CR; LF] -> spells d rows ts ->
    spells d (row :: rows) (t ++ ending ++ ts).

(** The text has a tab in its first line, whether inside quotes or not. *)
Definition tabbed (t : text) : Prop := exists before after, t = before ++ TAB :: after /\ LF ∉ before.

(** ** Reading it back *)

Section Reading.
Context (d : Z) (Hd : d = TAB \/ d = COMMA).

Lemma delimiter_apart : d <> QUOTE /\ d <> LF /\ d <> CR.
Proof. unfold QUOTE, LF, CR. destruct Hd; subst; unfold TAB, COMMA; lia. Qed.

(** What follows a field: its delimiter, a line's end or nothing. *)
Definition follows (rest : text) : Prop := match rest with [] => True | c :: _ => c = d \/ c = LF \/ c = CR end.

Lemma scan_quoted rows row f acc rest :
  follows rest -> scan d (escape f ++ QUOTE :: rest) (mkCsv rows row acc true) = scan d rest (mkCsv rows row (acc ++ f) false).
Proof.
  intros Hf. revert acc. induction f as [|c f IH]; intros acc.
  - cbn [escape concat fmap list_fmap app scan cs_quoted]. rewrite Z.eqb_refl, app_nil_r. destruct rest as [|n rest']; [done|]. cbn in Hf.
    destruct (Z.eqb_spec n QUOTE) as [->|]; [|done]. destruct delimiter_apart as (? & _). unfold QUOTE, LF, CR in *. lia.
  - unfold escape. cbn [concat fmap list_fmap]. fold (escape f). destruct (Z.eqb_spec c QUOTE) as [->|Hc]; cbn [app scan cs_quoted].
    + rewrite Z.eqb_refl. unfold addChar. cbn [cs_rows cs_row cs_field cs_quoted]. by rewrite IH, <- app_assoc.
    + rewrite (proj2 (Z.eqb_neq _ _) Hc). unfold addChar. cbn [cs_rows cs_row cs_field cs_quoted]. by rewrite IH, <- app_assoc.
Qed.

Lemma scan_plain rows row f acc rest :
  Forall (fun c => c <> d /\ c <> LF /\ c <> CR) f -> (acc = [] -> head f <> Some QUOTE) ->
  scan d (f ++ rest) (mkCsv rows row acc false) = scan d rest (mkCsv rows row (acc ++ f) false).
Proof.
  intros Hf. revert acc. induction Hf as [|c f (Hc & Hl & Hr) _ IH]; intros acc Hq; [by rewrite app_nil_r|].
  cbn [app scan cs_quoted cs_field]. replace ((c =? QUOTE) && negb (filled acc)) with false.
  2: { symmetry. apply andb_false_iff. destruct acc; [left; apply Z.eqb_neq; intros ->; by apply Hq|by right]. }
  rewrite (proj2 (Z.eqb_neq _ _) Hc), (proj2 (Z.eqb_neq _ _) Hl), (proj2 (Z.eqb_neq _ _) Hr). unfold addChar. cbn [cs_rows cs_row cs_field cs_quoted].
  rewrite IH; [by rewrite <- app_assoc|]. by destruct acc.
Qed.

Lemma scan_field rows row f t rest :
  spells_field d f t -> follows rest -> scan d (t ++ rest) (mkCsv rows row [] false) = scan d rest (mkCsv rows row f false).
Proof.
  intros [f' Hp Hq|f'] Hf; [by apply scan_plain|]. cbn [app scan cs_quoted cs_field filled negb]. rewrite Z.eqb_refl. cbn [andb].
  rewrite <- app_assoc. cbn [app]. unfold setQuoted. cbn [cs_rows cs_row cs_field]. by apply (scan_quoted rows row f' []).
Qed.

(** A row, up to its last field. *)
Lemma scan_row rows row fs ts rest :
  spells_row d fs ts -> match rest with [] => True | c :: _ => c = LF \/ c = CR end ->
  exists front f, fs = front ++ [f] /\ scan d (ts ++ rest) (mkCsv rows row [] false) = scan d rest (mkCsv rows (row ++ front) f false).
Proof.
  intros Hs Hr. revert row. induction Hs as [f t Hf|f t fs ts Hf _ IH]; intros row.
  - exists [], f. split; [done|]. rewrite app_nil_r. apply scan_field; [done|]. destruct rest; [done|]. cbn in *. tauto.
  - destruct (IH (row ++ [f])) as (front & g & -> & E). exists (f :: front), g. split; [done|].
    rewrite <- app_assoc. rewrite (scan_field rows row f t); [|done|cbn; by left]. destruct delimiter_apart as (Hq & _).
    cbn [app scan cs_quoted cs_field]. rewrite (proj2 (Z.eqb_neq _ _) Hq), Z.eqb_refl. cbn [andb]. unfold finishField. cbn [cs_rows cs_row cs_field cs_quoted].
    rewrite E. by rewrite <- app_assoc.
Qed.

(** The rows of which something is kept: those with a field that is not empty. *)
Definition full_rows (rows : list (list text)) : list (list text) := filter (fun row => existsb filled row = true) rows.

Lemma full_rows_cons row rows : full_rows (row :: rows) = (if existsb filled row then [row] else []) ++ full_rows rows.
Proof. unfold full_rows. rewrite filter_cons. destruct (existsb filled row) eqn:E; [by rewrite decide_True|by rewrite decide_False]. Qed.

Lemma finishRow_full rows front f row :
  row = front ++ [f] -> finishRow (mkCsv rows front f false) = mkCsv (rows ++ full_rows [row]) [] [] false.
Proof.
  intros ->. unfold finishRow, finishField. cbn [cs_rows cs_row cs_field cs_quoted]. rewrite full_rows_cons. cbn [full_rows filter].
  destruct (existsb filled _); cbn; by rewrite ?app_nil_r.
Qed.

Lemma scan_ending ending ts rows front f :
  ending = [LF] \/ ending = [CR; LF] -> scan d (ending ++ ts) (mkCsv rows front f false) = scan d ts (finishRow (mkCsv rows front f false)).
Proof.
  assert (Hlf : forall s, cs_quoted s = false -> scan d (LF :: ts) s = scan d ts (finishRow s)).
  { intros s Hs. cbn [scan]. rewrite Hs. destruct delimiter_apart as (_ & Hl & _). rewrite (proj2 (Z.eqb_neq LF d)) by congruence. done. }
  intros [->| ->]; [by apply Hlf|]. cbn [app]. cbn [scan cs_quoted cs_field]. destruct delimiter_apart as (_ & _ & Hc).
  rewrite (proj2 (Z.eqb_neq CR d)) by congruence. by apply (Hlf (mkCsv rows front f false)).
Qed.

Definition flush (s : Csv) : list (list text) := cs_rows (if filled (cs_field s) || negb (length (cs_row s) =? 0)%nat then finishRow s else s).

Lemma scan_rows table t rows : spells d table t -> flush (scan d t (mkCsv rows [] [] false)) = rows ++ full_rows table.
Proof.
  intros Hs. revert rows. induction Hs as [|row t Hr|row t ending table ts Hr He _ IH]; intros rows.
  - cbn. by rewrite app_nil_r.
  - destruct (scan_row rows [] row t [] Hr I) as (front & f & E & Hscan). rewrite app_nil_r in Hscan. rewrite Hscan. cbn [scan app]. unfold flush. cbn [cs_field cs_row].
    destruct (filled f || _) eqn:Ef; [by rewrite (finishRow_full rows front f row)|]. apply orb_false_iff in Ef as [Ef Hl].
    apply negb_false_iff, Nat.eqb_eq in Hl. destruct front; [|done]. subst row. rewrite full_rows_cons. cbn [app existsb]. rewrite Ef. cbn. by rewrite app_nil_r.
  - destruct (scan_row rows [] row t (ending ++ ts) Hr) as (front & f & E & Hscan); [destruct He; subst; cbn; auto|].
    rewrite Hscan, scan_ending by done. cbn [app]. rewrite (finishRow_full rows front f row) by done.
    rewrite IH, <- app_assoc, (full_rows_cons row table), full_rows_cons. cbn [full_rows filter]. by rewrite app_nil_r.
Qed.
End Reading.

Lemma tabbed_cons c t : c <> LF -> c <> TAB -> tabbed (c :: t) <-> tabbed t.
Proof.
  intros Hl Ht. split; intros (before & after & E & Hin).
  - destruct before as [|b before]; cbn in E; [congruence|]. injection E as -> ->. exists before, after. set_solver.
  - exists (c :: before), after. subst t. set_solver.
Qed.

Lemma tabbed_line t : existsb (Z.eqb TAB) (firstLine t) = true <-> tabbed t.
Proof.
  induction t as [|c t IH]; [split; [done|intros ([|] & ? & ? & ?); done]|]. cbn [firstLine].
  destruct (Z.eqb_spec c LF) as [->|Hl].
  { split; [done|]. intros ([|b before] & after & E & Hin); cbn in E; [done|]. injection E as <- ->. set_solver. }
  destruct (Z.eqb_spec c TAB) as [->|Ht].
  { split; [|done]. intros _. exists [], t. set_solver. }
  rewrite tabbed_cons by done. destruct (_ && _) eqn:Ecr.
  - split; [done|]. apply andb_true_iff in Ecr as [_ Hn]. destruct t as [|n t]; [done|]. apply Z.eqb_eq in Hn as ->.
    intros ([|b before] & after & E & Hin); cbn in E; [done|]. injection E as <- ->. set_solver.
  - cbn [existsb]. rewrite (proj2 (Z.eqb_neq TAB c)) by congruence. exact IH.
Qed.

(** The delimiter the first line tells. *)
Definition delimits (d : Z) (t : text) : Prop := d = TAB /\ tabbed t \/ d = COMMA /\ ~ tabbed t.

Lemma delimits_delimiterOf d t : delimits d t -> delimiterOf t = d.
Proof.
  unfold delimiterOf. intros [[-> Ht%tabbed_line]|[-> Ht]]; [by rewrite Ht|]. destruct (existsb _ _) eqn:E; [|done]. by apply tabbed_line in E.
Qed.

(** C40: a table is read back from whatever it is written as, but for the rows whose fields are all empty, which are
    dropped: each field plain or in quotes with its quotes doubled, whatever characters it holds, rows ended by line
    feeds with or without carriage returns, the last one ended or not, with or without a byte order mark; with tabs
    between the fields where the text has a tab before its first line feed, inside quotes or not, and commas where it
    has none. *)
Theorem csv_roundtrip (d : Z) (rows : list (list text)) (t : text) :
  delimits d t -> spells d rows t -> head t <> Some BOM ->
  parseDelimitedRows t = full_rows rows /\ parseDelimitedRows (BOM :: t) = full_rows rows.
Proof.
  intros Hd Hs Hb. assert (Hw : withoutBom t = t) by (destruct t as [|c t']; [done|]; cbn; destruct (Z.eqb_spec c BOM); [by subst|done]).
  pose proof (scan_rows d ltac:(destruct Hd as [[-> _]|[-> _]]; auto) rows t [] Hs) as E. cbn [app] in E. rewrite <- (delimits_delimiterOf d t Hd) in E.
  split; unfold parseDelimitedRows; [rewrite Hw|change (withoutBom (BOM :: t)) with t]; exact E.
Qed.

(** Two rows and a blank one, the second with a tab, a comma, a quote and a line feed inside a field. *)
Definition demo_rows : list (list text) := [[[84; 105]; [68]]; [[]]; [[65; 9; 44; 34; 10; 66]; []]].
Definition demo_text (d : Z) : text := [84; 105; d; 34; 68; 34; 13; 10; 10; 34; 65; 9; 44; 34; 34; 10; 66; 34; d].

Lemma demo_spells d : d = TAB \/ d = COMMA -> spells d demo_rows (demo_text d).
Proof.
  intros Hd.
  apply (rows_line d [[84; 105]; [68]] [84; 105; d; 34; 68; 34] [CR; LF] _ [10; 34; 65; 9; 44; 34; 34; 10; 66; 34; d]); [|by right|].
  - apply (row_more d [84; 105] [84; 105] [[68]] [34; 68; 34]).
    + apply field_plain; [repeat (constructor; [unfold COMMA, TAB, LF, CR in *; lia|]); constructor|discriminate].
    + apply row_one. exact (field_quoted d [68]).
  - apply (rows_line d [[]] [] [LF] _ [34; 65; 9; 44; 34; 34; 10; 66; 34; d]); [apply row_one, field_plain; [constructor|discriminate]|by left|].
    apply rows_last, (row_more d [65; 9; 44; 34; 10; 66] [34; 65; 9; 44; 34; 34; 10; 66; 34] [[]] []); [exact (field_quoted d [65; 9; 44; 34; 10; 66])|].
    apply row_one, field_plain; [constructor|discriminate].
Qed.

Lemma csv_roundtrip_witness :
  parseDelimitedRows (demo_text COMMA) = [[[84; 105]; [68]]; [[65; 9; 44; 34; 10; 66]; []]] /\
  parseDelimitedRows (demo_text TAB) = [[[84; 105]; [68]]; [[65; 9; 44; 34; 10; 66]; []]].
Proof.
  split.
  - apply (csv_roundtrip COMMA demo_rows); [|apply demo_spells; by right|discriminate]. right. split; [reflexivity|].
    intros Ht. apply tabbed_line in Ht. vm_compute in Ht. discriminate Ht.
  - apply (csv_roundtrip TAB demo_rows); [|apply demo_spells; by left|discriminate]. left. split; [reflexivity|].
    apply tabbed_line. reflexivity.
Defined.

(** RFC 4180 lets a quoted field hold a tab; one in the first line makes the rows be read as separated by tabs. *)
Example csv_quoted_tab :
  spells COMMA [[[65; TAB; 66]; [67]]] [QUOTE; 65; TAB; 66; QUOTE; COMMA; 67] /\
  parseDelimitedRows [QUOTE; 65; TAB; 66; QUOTE; COMMA; 67] = [[[65; TAB; 66; COMMA; 67]]].
Proof.
  split; [|reflexivity]. apply rows_last, (row_more COMMA [65; TAB; 66] [QUOTE; 65; TAB; 66; QUOTE] [[67]] [67]); [exact (field_quoted COMMA [65; TAB; 66])|].
  apply row_one, field_plain; [repeat (constructor; [unfold COMMA, LF, CR; lia|]); constructor|discriminate].
Qed.
