(* ===== verification/HistoryImport.v ===== *)
(** * Importing viewing history ([web/src/lib/libraryAdminAuthority.ts], [#importHistory])

    What a provider's history becomes: rows stamped with the times of viewing, each only where what is held is older,
    written in batches an interrupted import goes on from. *)

From S2P Require Import Prelude JsMap JsText Json Wire Clock Actions Library.
Open Scope Z_scope.

Definition IMPORT_BATCH : nat := 100.
Definition STALE_IMPORT_MS : Z := 182 * 86400000.

Record ImportEpisode : Type := mkImportEpisode { ie_season : Z; ie_episode : Z; ie_watchedAt : Z }.
Record HistoryImportItem : Type := mkImportItem {
  ii_title : TitleRef;
  ii_watchedAt : option Z;
  ii_episodes : option (list ImportEpisode);
  ii_complete : bool;
}.

(** [this.log.title] and [this.log.episode] *)
Record Rows : Type := mkRows { ro_title : TitleRef -> option TitleRow; ro_episode : TitleRef -> Z -> Z -> option EpisodeRow }.

(** [{ at, build }]: the time of a row still to stamp, and the row it gives. *)
Inductive Build : Type :=
| BWatched (before : TitleRow)
| BEpisode (before : EpisodeRow)
| BDismiss (before : TitleRow).
Record Pending : Type := mkPending { pe_at : Z; pe_build : Build }.

Definition build (b : Build) (stamp : Stamp) : Row :=
  match b with
  | BWatched before => RTitle (markWatched before stamp)
  | BEpisode before => REpisode (markEpisode before true stamp)
  | BDismiss before => RTitle (dismissFromContinueWatching before stamp)
  end.

Definition heldTitle (rows : Rows) (ref : TitleRef) (now : Z) : TitleRow := default (blankTitle ref now) (ro_title rows ref).
Definition heldEpisode (rows : Rows) (ref : TitleRef) (season episode : Z) : EpisodeRow :=
  default (blankEpisode ref season episode) (ro_episode rows ref season episode).

Definition pendingFilm (rows : Rows) (ref : TitleRef) (watchedAt : Z) : list Pending :=
  let before := heldTitle rows ref watchedAt in
  if st_t (sv_at (tr_status before)) <? watchedAt then [mkPending watchedAt (BWatched before)] else [].

Definition pendingEpisode (rows : Rows) (ref : TitleRef) (e : ImportEpisode) : list Pending :=
  let before := heldEpisode rows ref (ie_season e) (ie_episode e) in
  if st_t (pr_at (ep_progress before)) <? ie_watchedAt e then [mkPending (ie_watchedAt e) (BEpisode before)] else [].

Definition latestOfEpisodes (episodes : list ImportEpisode) : Z := foldl (fun latest e => Z.max latest (ie_watchedAt e)) 0 episodes.

Definition pendingSeries (rows : Rows) (now : Z) (ref : TitleRef) (complete : bool) (latest : Z) : list Pending :=
  let title := heldTitle rows ref latest in
  if complete && (st_t (sv_at (tr_status title)) <? latest) then [mkPending latest (BWatched title)]
  else if negb (latest =? 0) && (STALE_IMPORT_MS <? now - latest) && (st_t (sv_at (tr_dismissed title)) <=? latest)
  then [mkPending (latest + 1) (BDismiss title)]
  else [].

Definition pendingItem (rows : Rows) (now : Z) (item : HistoryImportItem) : list Pending :=
  let ref := ii_title item in
  match (if String.eqb (ref_type ref) "movie" then ii_watchedAt item else None) with
  | Some watchedAt => pendingFilm rows ref watchedAt
  | None =>
      match (if String.eqb (ref_type ref) "tv" then ii_episodes item else None) with
      | Some (e :: episodes) =>
          concat (pendingEpisode rows ref <$> (e :: episodes)) ++
          pendingSeries rows now ref (ii_complete item) (latestOfEpisodes (e :: episodes))
      | _ => []
      end
  end.

Definition pending (rows : Rows) (now : Z) (items : list HistoryImportItem) : list Pending := concat (pendingItem rows now <$> items).

(** The totals of the imports begun, kept in this browser: the total of this operation, and what is kept then. *)
Definition importTotal (imports : jsmap string Z) (operationId : option string) (count : Z) : Z * option (jsmap string Z) :=
  match operationId with
  | None => (count, None)
  | Some id =>
      match map_get id imports with
      | Some total => (total, None)
      | None => (count, Some (drop (length imports + 1 - 64) (imports ++ [(id, count)])))
      end
  end.

Definition stampedRows (pending : list Pending) (stamps : list Stamp) : list Row := zip_with (fun p s => build (pe_build p) s) pending stamps.

Record ImportResult : Type := mkImport { ir_written : Z; ir_total : Z; ir_complete : bool }.

(** The batches in turn; [accepts] is what [writeRows] answers. *)
Fixpoint writeBatches (fuel : nat) (accepts : list Row -> bool) (rows : list Row) (written : list Row) : list Row * bool :=
  match fuel, rows with
  | _, [] => (written, true)
  | O, _ => (written, false)
  | S fuel, _ =>
      let batch := take IMPORT_BATCH rows in
      if accepts batch then writeBatches fuel accepts (drop IMPORT_BATCH rows) (written ++ batch) else (written, false)
  end.

(** The rows written, the result and the totals kept. The stamps are the clock's ([historical]), which the stamp it was
    shown first ([see]) does not change; [imports] are the totals kept that read back. *)
Definition importHistory (rows : Rows) (now : Z) (items : list HistoryImportItem) (operationId : option string) (imports : jsmap string Z)
  (clock : StoredClock) (accepts : list Row -> bool) : list Row * ImportResult * option (jsmap string Z) :=
  let pending := pending rows now items in
  let '(total, kept) := importTotal imports operationId (Z.of_nat (length pending)) in
  let stamped := stampedRows pending (reserved_stamps clock (pe_at <$> pending)) in
  let '(written, complete) := writeBatches (length stamped) accepts stamped [] in
  (written,
   mkImport (if complete then total else Z.max 0 (total - Z.of_nat (length stamped)) + Z.of_nat (length written)) total complete, kept).

(** ** Rows afterwards *)

(** A row as new as another, in what an import looks at. *)
Definition title_since (r r' : TitleRow) : Prop :=
  st_t (sv_at (tr_status r)) <= st_t (sv_at (tr_status r')) /\ st_t (sv_at (tr_dismissed r)) <= st_t (sv_at (tr_dismissed r')).
Definition episode_since (r r' : EpisodeRow) : Prop := st_t (pr_at (ep_progress r)) <= st_t (pr_at (ep_progress r')).

(** The rows once [written] is merged into them: nothing is older than it was, nor than what was written. *)
Record taken (before : Rows) (written : list Row) (after : Rows) : Prop := {
  tk_title ref r : ro_title before ref = Some r \/ RTitle r ∈ written /\ tr_title r = ref -> exists r', ro_title after ref = Some r' /\ title_since r r';
  tk_episode ref season episode r :
    ro_episode before ref season episode = Some r \/ REpisode r ∈ written /\ ep_title r = ref /\ ep_season r = season /\ ep_episode r = episode ->
    exists r', ro_episode after ref season episode = Some r' /\ episode_since r r';
}.

(** The rows a log answers are of the title and episode asked for, at times that are not negative. *)
Record rows_ok (rows : Rows) : Prop := {
  rk_title ref r : ro_title rows ref = Some r -> tr_title r = ref;
  rk_episode ref season episode r : ro_episode rows ref season episode = Some r -> ep_title r = ref /\ ep_season r = season /\ ep_episode r = episode;
  rk_title_time ref r : ro_title rows ref = Some r -> 0 <= st_t (sv_at (tr_status r)) /\ 0 <= st_t (sv_at (tr_dismissed r));
  rk_episode_time ref season episode r : ro_episode rows ref season episode = Some r -> 0 <= st_t (pr_at (ep_progress r));
}.

Lemma heldTitle_ref rows ref now : rows_ok rows -> tr_title (heldTitle rows ref now) = ref.
Proof. intros Hr. unfold heldTitle. destruct (ro_title rows ref) as [r|] eqn:E; [by apply (rk_title _ Hr)|]. by destruct ref. Qed.

Lemma heldEpisode_ref rows ref s e :
  rows_ok rows -> let r := heldEpisode rows ref s e in ep_title r = ref /\ ep_season r = s /\ ep_episode r = e.
Proof. intros Hr. cbn. unfold heldEpisode. destruct (ro_episode rows ref s e) as [r|] eqn:E; [by apply (rk_episode _ Hr)|]. by destruct ref. Qed.

(** ** Stamping *)

Lemma stampedRows_elem clock pendings p :
  p ∈ pendings -> exists s, st_t s = pe_at p /\ build (pe_build p) s ∈ stampedRows pendings (reserved_stamps clock (pe_at <$> pendings)).
Proof.
  intros Hin. apply list_elem_of_lookup in Hin as (i & Hi). exists (mkStamp (pe_at p) (sc_historical clock + Z.of_nat i + 1) (sc_device clock)).
  split; [done|]. unfold stampedRows, reserved_stamps. apply list_elem_of_lookup. exists i. rewrite lookup_zip_with, Hi. cbn.
  rewrite list_lookup_imap, list_lookup_fmap, Hi. done.
Qed.

Lemma reserved_length clock ms : length (reserved_stamps clock ms) = length ms.
Proof. unfold reserved_stamps. apply length_imap. Qed.

Lemma stampedRows_length clock pendings : length (stampedRows pendings (reserved_stamps clock (pe_at <$> pendings))) = length pendings.
Proof. unfold stampedRows. rewrite length_zip_with, reserved_length, length_fmap. lia. Qed.

(** ** Batches *)

Lemma writeBatches_spec fuel accepts rows written :
  (length rows <= fuel)%nat ->
  exists n, (writeBatches fuel accepts rows written).1 = written ++ take n rows /\
    ((writeBatches fuel accepts rows written).2 = true -> take n rows = rows) /\
    ((forall batch, accepts batch = true) -> (writeBatches fuel accepts rows written).2 = true).
Proof.
  revert rows written. induction fuel as [|fuel IH]; intros rows written Hl.
  - destruct rows; [|cbn in Hl; lia]. exists 0%nat. cbn. by rewrite app_nil_r.
  - destruct rows as [|x rows]; [exists 0%nat; cbn; by rewrite app_nil_r|]. set (l := x :: rows) in *.
    change (writeBatches (S fuel) accepts l written) with
      (if accepts (take IMPORT_BATCH l) then writeBatches fuel accepts (drop IMPORT_BATCH l) (written ++ take IMPORT_BATCH l) else (written, false)).
    destruct (accepts (take IMPORT_BATCH l)) eqn:Ea; cycle 1.
    { exists 0%nat. cbn. rewrite app_nil_r. split; [done|]. split; [done|]. intros Hall. by rewrite Hall in Ea. }
    destruct (IH (drop IMPORT_BATCH l) (written ++ take IMPORT_BATCH l)) as (n & H1 & H2 & H3).
    { rewrite length_drop. unfold IMPORT_BATCH. unfold l in *. cbn in *. lia. }
    exists (IMPORT_BATCH + n)%nat. rewrite H1. rewrite <- (take_take_drop l IMPORT_BATCH n). split; [by rewrite <- app_assoc|]. split; [|done].
    intros Hc. rewrite (H2 Hc). apply take_drop.
Qed.

(** ** Again *)

Section Again.
(** The first import is made at [now], the repeat at [now']. *)
Context (before after : Rows) (written : list Row) (now now' : Z).
Context (Hb : rows_ok before) (Ha : rows_ok after) (Ht : taken before written after).

(** Each pending row was written, at its time. *)
Definition all_written (l : list Pending) : Prop := forall p, p ∈ l -> exists s, st_t s = pe_at p /\ build (pe_build p) s ∈ written.

Lemma heldTitle_since ref n n' : title_since (heldTitle before ref n) (heldTitle after ref n').
Proof.
  unfold heldTitle. destruct (ro_title before ref) as [r|] eqn:E.
  - destruct (tk_title _ _ _ Ht ref r (or_introl E)) as (r' & E' & Hs). by rewrite E'.
  - destruct (ro_title after ref) as [r'|] eqn:E'; [|split; cbn; lia]. destruct (rk_title_time _ Ha ref r' E'). by split.
Qed.

Lemma written_title_since r n : RTitle r ∈ written -> title_since r (heldTitle after (tr_title r) n).
Proof. intros Hin. unfold heldTitle. destruct (tk_title _ _ _ Ht (tr_title r) r (or_intror (conj Hin eq_refl))) as (r' & E' & Hs). by rewrite E'. Qed.

Lemma heldEpisode_since ref s e : episode_since (heldEpisode before ref s e) (heldEpisode after ref s e).
Proof.
  unfold heldEpisode. destruct (ro_episode before ref s e) as [r|] eqn:E.
  - destruct (tk_episode _ _ _ Ht ref s e r (or_introl E)) as (r' & E' & Hs). by rewrite E'.
  - destruct (ro_episode after ref s e) as [r'|] eqn:E'; unfold episode_since; cbn; [|lia]. by apply (rk_episode_time _ Ha ref s e).
Qed.

Lemma written_episode_since r : REpisode r ∈ written -> episode_since r (heldEpisode after (ep_title r) (ep_season r) (ep_episode r)).
Proof.
  intros Hin. unfold heldEpisode.
  destruct (tk_episode _ _ _ Ht (ep_title r) (ep_season r) (ep_episode r) r) as (r' & E' & Hs); [by right|]. by rewrite E'.
Qed.

Lemma pendingFilm_again ref watchedAt : all_written (pendingFilm before ref watchedAt) -> pendingFilm after ref watchedAt = [].
Proof.
  intros Hw. unfold pendingFilm in *. set (old := heldTitle before ref watchedAt) in *. set (new := heldTitle after ref watchedAt).
  assert (Hle : watchedAt <= st_t (sv_at (tr_status new))); [|by rewrite (proj2 (Z.ltb_ge _ _))].
  destruct (Z.ltb_spec (st_t (sv_at (tr_status old))) watchedAt) as [Hlt|Hge].
  - destruct (Hw (mkPending watchedAt (BWatched old))) as (s & Hs & Hin); [by left|]. apply (written_title_since _ watchedAt) in Hin as [Hin _].
    replace (tr_title (markWatched old s)) with ref in Hin by (symmetry; apply (heldTitle_ref before ref watchedAt Hb)). cbn in Hin, Hs. fold new in Hin. lia.
  - destruct (heldTitle_since ref watchedAt watchedAt) as [Hs _]. fold old new in Hs. lia.
Qed.

Lemma pendingEpisode_again ref e : all_written (pendingEpisode before ref e) -> pendingEpisode after ref e = [].
Proof.
  intros Hw. unfold pendingEpisode in *. set (old := heldEpisode before ref (ie_season e) (ie_episode e)) in *.
  set (new := heldEpisode after ref (ie_season e) (ie_episode e)).
  assert (Hle : ie_watchedAt e <= st_t (pr_at (ep_progress new))); [|by rewrite (proj2 (Z.ltb_ge _ _))].
  destruct (Z.ltb_spec (st_t (pr_at (ep_progress old))) (ie_watchedAt e)) as [Hlt|Hge].
  - destruct (Hw (mkPending (ie_watchedAt e) (BEpisode old))) as (s & Hs & Hin); [by left|]. apply written_episode_since in Hin.
    destruct (heldEpisode_ref before ref (ie_season e) (ie_episode e) Hb) as (E1 & E2 & E3). fold old in E1, E2, E3.
    change (ep_title (markEpisode old true s)) with (ep_title old) in Hin. change (ep_season (markEpisode old true s)) with (ep_season old) in Hin.
    change (ep_episode (markEpisode old true s)) with (ep_episode old) in Hin. rewrite E1, E2, E3 in Hin. unfold episode_since in Hin. cbn in Hin, Hs. fold new in Hin. lia.
  - pose proof (heldEpisode_since ref (ie_season e) (ie_episode e)) as Hs. unfold episode_since in Hs. fold old new in Hs. lia.
Qed.

(** What a series still gets: a dismissal, where it was last watched long before the repeat, and the first import did
    not see to it, because the series was watched to its end or it was not long ago then. *)
Definition leftover (ref : TitleRef) (complete : bool) (latest : Z) : list Pending :=
  if (complete || negb (STALE_IMPORT_MS <? now - latest)) && negb (latest =? 0) && (STALE_IMPORT_MS <? now' - latest) &&
     (st_t (sv_at (tr_dismissed (heldTitle after ref latest))) <=? latest)
  then [mkPending (latest + 1) (BDismiss (heldTitle after ref latest))] else [].

Lemma pendingSeries_again ref complete latest :
  all_written (pendingSeries before now ref complete latest) -> pendingSeries after now' ref complete latest = leftover ref complete latest.
Proof.
  intros Hw. unfold pendingSeries, leftover in *. set (old := heldTitle before ref latest) in *. set (new := heldTitle after ref latest).
  destruct (heldTitle_since ref latest latest) as [Hst Hdi]. fold old new in Hst, Hdi.
  assert (Htitle : forall s b, b = BWatched old \/ b = BDismiss old -> build b s ∈ written -> exists r, build b s = RTitle r /\ title_since r new).
  { intros s b Hcase Hin. assert (Hr : exists r, build b s = RTitle r /\ tr_title r = tr_title old) by (destruct Hcase as [->| ->]; cbn; eauto).
    destruct Hr as (r & Er & Et). exists r. split; [done|]. rewrite Er in Hin. apply (written_title_since r latest) in Hin.
    rewrite Et in Hin. unfold old in Hin. rewrite heldTitle_ref in Hin by done. exact Hin. }
  destruct complete; cbn [andb] in *.
  - destruct (Z.ltb_spec (st_t (sv_at (tr_status old))) latest) as [Hlt|Hge].
    + destruct (Hw (mkPending latest (BWatched old))) as (s & Hs & Hin); [by left|]. destruct (Htitle s _ (or_introl eq_refl) Hin) as (r & Er & [Hr _]).
      cbn in Er. injection Er as <-. cbn in Hr, Hs. rewrite (proj2 (Z.ltb_ge (st_t (sv_at (tr_status new))) latest)) by lia. done.
    + rewrite (proj2 (Z.ltb_ge (st_t (sv_at (tr_status new))) latest)) by lia. done.
  - cbn [orb]. destruct (STALE_IMPORT_MS <? now - latest); cbn [andb negb] in *; [|done]. destruct (latest =? 0); cbn [andb negb] in *; [done|].
    replace (st_t (sv_at (tr_dismissed new)) <=? latest) with false; [by rewrite andb_false_r|]. symmetry. apply Z.leb_gt.
    destruct (Z.leb_spec (st_t (sv_at (tr_dismissed old))) latest) as [Hle|Hgt]; [|lia].
    destruct (Hw (mkPending (latest + 1) (BDismiss old))) as (s & Hs & Hin); [by left|]. destruct (Htitle s _ (or_intror eq_refl) Hin) as (r & Er & [_ Hr]).
    cbn in Er. injection Er as <-. cbn in Hr, Hs. lia.
Qed.

Lemma all_written_app l1 l2 : all_written (l1 ++ l2) <-> all_written l1 /\ all_written l2.
Proof. unfold all_written. setoid_rewrite elem_of_app. naive_solver. Qed.

Lemma concat_again {A} (f g : A -> list Pending) l p :
  (forall x, x ∈ l -> all_written (f x) -> p ∈ g x -> False) -> all_written (concat (f <$> l)) -> p ∈ concat (g <$> l) -> False.
Proof.
  intros Hf Hw (x & Hx & Hp)%elem_of_concat. apply list_elem_of_fmap in Hp as (y & -> & Hy). apply (Hf y Hy); [|done].
  intros q Hq. apply Hw. apply elem_of_concat. exists (f y). split; [done|]. apply list_elem_of_fmap. eauto.
Qed.

(** A series that was last watched long before the repeat, and was watched to its end or not yet long before the first
    import. *)
Definition dismissed_late (item : HistoryImportItem) : Prop :=
  exists episodes, ii_episodes item = Some episodes /\ STALE_IMPORT_MS < now' - latestOfEpisodes episodes /\
    (ii_complete item = true \/ now - latestOfEpisodes episodes <= STALE_IMPORT_MS).

(** A dismissal of the item's title, of the moment after it was last watched. *)
Definition late_dismissal (item : HistoryImportItem) (p : Pending) : Prop :=
  exists episodes, ii_episodes item = Some episodes /\
    p = mkPending (latestOfEpisodes episodes + 1) (BDismiss (heldTitle after (ii_title item) (latestOfEpisodes episodes))).

Lemma pendingItem_again item p :
  all_written (pendingItem before now item) -> p ∈ pendingItem after now' item -> dismissed_late item /\ late_dismissal item p.
Proof.
  intros Hw Hp. unfold pendingItem in *. destruct (if String.eqb _ "movie" then _ else _) as [watchedAt|].
  { rewrite pendingFilm_again in Hp by done. by apply not_elem_of_nil in Hp. }
  destruct (String.eqb _ "tv"); [|by apply not_elem_of_nil in Hp].
  destruct (ii_episodes item) as [[|e episodes]|] eqn:Ee; [by apply not_elem_of_nil in Hp| |by apply not_elem_of_nil in Hp]. set (l := e :: episodes) in *.
  apply all_written_app in Hw as [H1 H2]. apply elem_of_app in Hp as [Hp|Hp].
  { exfalso. apply (concat_again (pendingEpisode before (ii_title item)) (pendingEpisode after (ii_title item)) l p); [|done..].
    intros x _ Hx Hin. rewrite pendingEpisode_again in Hin by done. by apply not_elem_of_nil in Hin. }
  rewrite (pendingSeries_again _ _ _ H2) in Hp. unfold leftover in Hp.
  destruct ((ii_complete item || _) && _ && _ && _) eqn:Ec; [|by apply not_elem_of_nil in Hp]. apply list_elem_of_singleton in Hp as ->.
  apply andb_true_iff in Ec as [[[Hfirst _]%andb_true_iff Hlate%Z.ltb_lt]%andb_true_iff _].
  split; exists l; [|done]. split; [done|]. split; [done|]. apply orb_true_iff in Hfirst as [?|Hn]; [by left|]. right.
  apply negb_true_iff, Z.ltb_ge in Hn. lia.
Qed.
End Again.

(** An import that came to its end wrote all it had to. *)
Lemma import_all_written rows now items operationId imports clock accepts written result kept :
  importHistory rows now items operationId imports clock accepts = (written, result, kept) -> ir_complete result = true ->
  all_written written (pending rows now items).
Proof.
  unfold importHistory. set (l := pending rows now items). destruct (importTotal imports operationId _) as [total k].
  set (stamped := stampedRows l _). destruct (writeBatches_spec (length stamped) accepts stamped []) as (n & H1 & H2 & _); [lia|].
  destruct (writeBatches _ _ _ _) as [w c]. cbn in H1, H2. intros [= <- <- <-] Hc. cbn in Hc. rewrite (H2 Hc) in H1. subst w.
  intros p Hp. by apply stampedRows_elem.
Qed.

Lemma no_elements {A} (l : list A) : (forall x, x ∈ l -> False) -> l = [].
Proof. destruct l as [|x l]; [done|]. intros Hl. destruct (Hl x). by left. Qed.

(** C23: importing the same history again, whenever that is, writes no viewing. Once an import came to its end and its
    rows are merged, into whatever is then held or has come since, the repeat has nothing to write but dismissals, each
    of a series last watched more than 182 days before the repeat that was watched to its end, or was last watched less
    long before the first import; with no such series it writes nothing and reports itself complete. *)
Theorem import_idempotent before after now now' items operationId imports clock accepts written result kept :
  rows_ok before -> rows_ok after ->
  importHistory before now items operationId imports clock accepts = (written, result, kept) -> ir_complete result = true ->
  taken before written after ->
  (forall p, p ∈ pending after now' items -> exists item, item ∈ items /\ dismissed_late now now' item /\ late_dismissal after item p) /\
  (Forall (fun item => ~ dismissed_late now now' item) items ->
   forall operationId' imports' clock' accepts', exists total kept',
     importHistory after now' items operationId' imports' clock' accepts' = ([], mkImport total total true, kept')).
Proof.
  intros Hb Ha Hi Hc Ht. pose proof (import_all_written _ _ _ _ _ _ _ _ _ _ Hi Hc) as Hw.
  assert (Hall : forall p, p ∈ pending after now' items -> exists item, item ∈ items /\ dismissed_late now now' item /\ late_dismissal after item p).
  { unfold pending in *. intros p (x & Hp & Hx)%elem_of_concat. apply list_elem_of_fmap in Hx as (item & -> & Hin). exists item. split; [done|].
    apply (pendingItem_again before after written now now' Hb Ha Ht); [|done]. intros q Hq. apply Hw. apply elem_of_concat.
    exists (pendingItem before now item). split; [done|]. apply list_elem_of_fmap. eauto. }
  split; [exact Hall|]. intros Hn operationId' imports' clock' accepts'. assert (Hp : pending after now' items = []).
  { apply no_elements. intros p Hp. destruct (Hall p Hp) as (item & Hin & Hlate & _). by apply (proj1 (Forall_forall _ _) Hn item Hin). }
  unfold importHistory. rewrite Hp. destruct (importTotal imports' operationId' _) as [total k]. by exists total, k.
Qed.

(** C24: a series imported as watched to its end is taken off Continue Watching when the import is asked for again, as a
    resumed import is: the first import marks it watched and writes no dismissal, and once that mark is held the test
    for it fails over to the one for series left unfinished. *)
Theorem import_repeat_dismisses before after now ref e episodes operationId imports clock accepts written result kept :
  let item := mkImportItem ref None (Some (e :: episodes)) true in
  let latest := latestOfEpisodes (e :: episodes) in
  rows_ok before -> rows_ok after -> ref_type ref = "tv" ->
  importHistory before now [item] operationId imports clock accepts = (written, result, kept) -> ir_complete result = true ->
  taken before written after -> STALE_IMPORT_MS < now - latest ->
  st_t (sv_at (tr_status (heldTitle before ref latest))) < latest -> st_t (sv_at (tr_dismissed (heldTitle after ref latest))) <= latest ->
  Forall (fun p => match pe_build p with BDismiss _ => False | _ => True end) (pending before now [item]) /\
  pending after now [item] = [mkPending (latest + 1) (BDismiss (heldTitle after ref latest))].
Proof.
  intros item latest Hb Ha Htv Hi Hc Ht Hs Hold Hdi. pose proof (import_all_written _ _ _ _ _ _ _ _ _ _ Hi Hc) as Hw.
  assert (Hlatest : latest <> 0).
  { intros E. assert (0 <= st_t (sv_at (tr_status (heldTitle before ref latest)))); [|lia]. unfold heldTitle. destruct (ro_title before ref) as [r|] eqn:Er; [|cbn; lia].
    by apply (rk_title_time _ Hb ref r). }
  unfold pending in *. cbn [fmap list_fmap concat] in *. rewrite app_nil_r in *. unfold item, pendingItem in *.
  cbn [ii_title ii_watchedAt ii_episodes ii_complete] in *. rewrite Htv in *. cbn [String.eqb Ascii.eqb Bool.eqb] in *. fold latest in Hw |- *.
  apply all_written_app in Hw as [H1 H2]. split.
  - apply Forall_app. split.
    + apply Forall_concat, Forall_forall. intros l (x & -> & _)%list_elem_of_fmap. unfold pendingEpisode. destruct (_ <? _); [|constructor]. by apply Forall_singleton.
    + unfold pendingSeries. rewrite (proj2 (Z.ltb_lt _ _) Hold). by apply Forall_singleton.
  - rewrite (pendingSeries_again before after written now now Hb Ha Ht _ _ _ H2).
    rewrite (no_elements (concat (pendingEpisode after ref <$> _))).
    2: { intros p Hp. apply (concat_again written (pendingEpisode before ref) (pendingEpisode after ref) (e :: episodes) p); [|done..].
         intros x _ Hx Hin. rewrite (pendingEpisode_again before after written Hb Ha Ht) in Hin by done. by apply not_elem_of_nil in Hin. }
    unfold leftover. rewrite (proj2 (Z.ltb_lt _ _) Hs), (proj2 (Z.leb_le _ _) Hdi), (proj2 (Z.eqb_neq _ _) Hlatest). done.
Qed.

(** ** Two imports *)

Definition demo_show : TitleRef := mkRef "tv" 1399.
Definition demo_none : Rows := mkRows (fun _ => None) (fun _ _ _ => None).
Definition demo_items (complete : bool) : list HistoryImportItem := [mkImportItem demo_show None (Some [mkImportEpisode 1 1 1000; mkImportEpisode 1 2 2000]) complete].
Definition demo_clock : StoredClock := mkStored "d" ZERO_STAMP 0.
Definition demo_now : Z := 2000 + STALE_IMPORT_MS + 1.
Definition demo_import (complete : bool) : list Row * ImportResult * option (jsmap string Z) :=
  importHistory demo_none demo_now (demo_items complete) (Some "op") [] demo_clock (fun _ => true).

(** The rows an empty library holds once they are written. *)
Definition demo_held (written : list Row) : Rows :=
  mkRows (fun ref => head (omap (fun r => match r with RTitle t => if bool_decide (tr_title t = ref) then Some t else None | _ => None end) written))
    (fun ref s e => head (omap (fun r => match r with
       | REpisode x => if bool_decide (ep_title x = ref /\ ep_season x = s /\ ep_episode x = e) then Some x else None | _ => None end) written)).

Lemma head_omap_Some {A B} (f : A -> option B) l y : head (omap f l) = Some y -> exists x, x ∈ l /\ f x = Some y.
Proof. intros Hh. assert (Hy : y ∈ omap f l) by (destruct (omap f l); [done|injection Hh as ->; by left]). by apply list_elem_of_omap in Hy. Qed.

Lemma demo_held_ok complete : rows_ok (demo_held (demo_import complete).1.1).
Proof.
  assert (Hall : Forall (fun r => match r with
      | RTitle t => 0 <= st_t (sv_at (tr_status t)) /\ 0 <= st_t (sv_at (tr_dismissed t)) | REpisode x => 0 <= st_t (pr_at (ep_progress x)) | _ => True end)
      (demo_import complete).1.1).
  { destruct complete; vm_compute; repeat constructor; discriminate. }
  split.
  - intros ref r (x & _ & Hx)%head_omap_Some. destruct x; try done. case_bool_decide; [|done]. by injection Hx as <-.
  - intros ref s e r (x & _ & Hx)%head_omap_Some. destruct x; try done. case_bool_decide; [|done]. by injection Hx as <-.
  - intros ref r (x & Hin & Hx)%head_omap_Some. apply (proj1 (Forall_forall _ _) Hall) in Hin. destruct x; try done. case_bool_decide; [|done]. by injection Hx as <-.
  - intros ref s e r (x & Hin & Hx)%head_omap_Some. apply (proj1 (Forall_forall _ _) Hall) in Hin. destruct x; try done. case_bool_decide; [|done]. by injection Hx as <-.
Defined.

Lemma demo_taken complete : taken demo_none (demo_import complete).1.1 (demo_held (demo_import complete).1.1).
Proof.
  split.
  - intros ref r [[=]|[Hin Href]]. destruct complete; vm_compute in Hin; repeat (apply elem_of_cons in Hin as [Hin|Hin]; [try discriminate Hin|]);
      try (by apply not_elem_of_nil in Hin); injection Hin as ->; cbn in Href; subst ref; eexists; (split; [vm_compute; reflexivity|split; vm_compute; discriminate]).
  - intros ref s e r [[=]|(Hin & Href & Hs & He)]. destruct complete; vm_compute in Hin; repeat (apply elem_of_cons in Hin as [Hin|Hin]; [try discriminate Hin|]);
      try (by apply not_elem_of_nil in Hin); injection Hin as ->; cbn in Href, Hs, He; subst; eexists; (split; [vm_compute; reflexivity|vm_compute; discriminate]).
Defined.

Lemma demo_none_ok : rows_ok demo_none.
Proof. by split. Defined.

(** An unfinished series dismissed by the first import, and nothing to write a year after. *)
Lemma import_idempotent_witness :
  length (demo_import false).1.1 = 3%nat /\
  exists total kept, importHistory (demo_held (demo_import false).1.1) (demo_now + 365 * 86400000) (demo_items false) None [] demo_clock (fun _ => true) = ([], mkImport total total true, kept).
Proof.
  split; [vm_compute; reflexivity|].
  destruct (import_idempotent demo_none (demo_held (demo_import false).1.1) demo_now (demo_now + 365 * 86400000) (demo_items false) (Some "op") [] demo_clock (fun _ => true)
    (demo_import false).1.1 (demo_import false).1.2 (demo_import false).2 demo_none_ok (demo_held_ok false)) as [_ H];
    [reflexivity|vm_compute; reflexivity|exact (demo_taken false)|].
  apply H. apply Forall_singleton. intros (l & [= <-] & _ & [Hc|Hl]); [discriminate Hc|]. apply Hl. vm_compute. reflexivity.
Defined.

Lemma import_repeat_dismisses_witness :
  length (demo_import true).1.1 = 3%nat /\ length (pending (demo_held (demo_import true).1.1) demo_now (demo_items true)) = 1%nat.
Proof.
  split; [vm_compute; reflexivity|].
  destruct (import_repeat_dismisses demo_none (demo_held (demo_import true).1.1) demo_now demo_show (mkImportEpisode 1 1 1000) [mkImportEpisode 1 2 2000]
    (Some "op") [] demo_clock (fun _ => true) (demo_import true).1.1 (demo_import true).1.2 (demo_import true).2 demo_none_ok (demo_held_ok true) eq_refl) as [_ H];
    [reflexivity|vm_compute; reflexivity|exact (demo_taken true)|vm_compute; reflexivity|vm_compute; reflexivity|vm_compute; discriminate|].
  change (length (pending (demo_held (demo_import true).1.1) demo_now [mkImportItem demo_show None (Some [mkImportEpisode 1 1 1000; mkImportEpisode 1 2 2000]) true]) = 1%nat).
  rewrite H. reflexivity.
Defined.
