(* ===== verification/Scheduler.v ===== *)
(** * The library's scheduler ([web/src/lib/libraryServiceScheduledAuthority.ts])

    [ScheduledLibraryServiceAuthority] adds one refresh loop to a library's authority: when to read den-edge again, and
    when to deliver to a tracker. It is a machine of the events it continues at: an observation or command answered, its
    timer, the end of a maintenance run, of the background work after it, of a delivery. *)

From S2P Require Import Prelude JsMap JsText Json Wire ServiceCore.
Open Scope Z_scope.

Definition ACTIVE_PLAYBACK_REFRESH_MS : Z := 5000.
Definition VISIBLE_REFRESH_MS : Z := 30000.
Definition HELD_WAIT_SECONDS : Z := 25.
Definition HELD_AFTER_MS : Z := 12500.
Definition HELD_SPACING_MS : Z := 1000.

#[global] Instance LibraryServiceFailure_eq_dec : EqDecision LibraryServiceFailure.
Proof. solve_decision. Defined.
#[global] Instance LibraryAuthorityStatus_eq_dec : EqDecision LibraryAuthorityStatus.
Proof. solve_decision. Defined.

Inductive Mode : Type := Online | Local.

Record Lifecycle : Type := mkLifecycle { lc_visible : bool; lc_online : bool; lc_playbackActive : bool; lc_playerOpen : bool }.

Inductive Observation : Type := ObForegroundReady | ObLifecycle (l : Lifecycle) | ObOther.

(** Where a maintenance run is: reading, doing the background work, or over with its [finally] still to come. *)
Inductive RunPhase : Type := Reading | Background | Settled.
Record Run : Type := mkRun { rn_started : Z; rn_phase : RunPhase; rn_changed : bool; rn_read : Z }.

Record Sched : Type := mkSched {
  sd_lifecycle : Lifecycle;
  sd_timer : option Z;
  sd_running : option Run;
  sd_delivering : option Z;
  sd_deliveryPending : bool;
  sd_deliveryWaits : bool;
  sd_deliveryEpoch : Z;
  sd_foregroundReady : bool;
  sd_lastStatus : option LibraryAuthorityStatus;
  sd_halted : bool;
  sd_closed : bool;
}.

Definition set_lifecycle l s := mkSched l (sd_timer s) (sd_running s) (sd_delivering s) (sd_deliveryPending s) (sd_deliveryWaits s) (sd_deliveryEpoch s) (sd_foregroundReady s) (sd_lastStatus s) (sd_halted s) (sd_closed s).
Definition set_timer t s := mkSched (sd_lifecycle s) t (sd_running s) (sd_delivering s) (sd_deliveryPending s) (sd_deliveryWaits s) (sd_deliveryEpoch s) (sd_foregroundReady s) (sd_lastStatus s) (sd_halted s) (sd_closed s).
Definition set_running r s := mkSched (sd_lifecycle s) (sd_timer s) r (sd_delivering s) (sd_deliveryPending s) (sd_deliveryWaits s) (sd_deliveryEpoch s) (sd_foregroundReady s) (sd_lastStatus s) (sd_halted s) (sd_closed s).
Definition set_delivering d s := mkSched (sd_lifecycle s) (sd_timer s) (sd_running s) d (sd_deliveryPending s) (sd_deliveryWaits s) (sd_deliveryEpoch s) (sd_foregroundReady s) (sd_lastStatus s) (sd_halted s) (sd_closed s).
Definition set_pending p s := mkSched (sd_lifecycle s) (sd_timer s) (sd_running s) (sd_delivering s) p (sd_deliveryWaits s) (sd_deliveryEpoch s) (sd_foregroundReady s) (sd_lastStatus s) (sd_halted s) (sd_closed s).
Definition set_waits w s := mkSched (sd_lifecycle s) (sd_timer s) (sd_running s) (sd_delivering s) (sd_deliveryPending s) w (sd_deliveryEpoch s) (sd_foregroundReady s) (sd_lastStatus s) (sd_halted s) (sd_closed s).
Definition set_epoch e s := mkSched (sd_lifecycle s) (sd_timer s) (sd_running s) (sd_delivering s) (sd_deliveryPending s) (sd_deliveryWaits s) e (sd_foregroundReady s) (sd_lastStatus s) (sd_halted s) (sd_closed s).
Definition set_ready r s := mkSched (sd_lifecycle s) (sd_timer s) (sd_running s) (sd_delivering s) (sd_deliveryPending s) (sd_deliveryWaits s) (sd_deliveryEpoch s) r (sd_lastStatus s) (sd_halted s) (sd_closed s).
Definition set_status st s := mkSched (sd_lifecycle s) (sd_timer s) (sd_running s) (sd_delivering s) (sd_deliveryPending s) (sd_deliveryWaits s) (sd_deliveryEpoch s) (sd_foregroundReady s) st (sd_halted s) (sd_closed s).
Definition set_halted h s := mkSched (sd_lifecycle s) (sd_timer s) (sd_running s) (sd_delivering s) (sd_deliveryPending s) (sd_deliveryWaits s) (sd_deliveryEpoch s) (sd_foregroundReady s) (sd_lastStatus s) h (sd_closed s).
Definition set_closed c s := mkSched (sd_lifecycle s) (sd_timer s) (sd_running s) (sd_delivering s) (sd_deliveryPending s) (sd_deliveryWaits s) (sd_deliveryEpoch s) (sd_foregroundReady s) (sd_lastStatus s) (sd_halted s) c.

Definition opened : Sched := mkSched (mkLifecycle false false false false) None None None false false 0 false None false false.

(** What the machine does besides its state. *)
Inductive Out : Type :=
| OEmit (event : LibraryAuthorityEvent)
| OSetTimer (delay : Z)
| OClearTimer
| ORun (waitSeconds : Z)
| OStopWaiting
| OBackground
| ODeliver (epoch : Z).

Section Scheduler.
(** The maintenance's mode, whether there is background work and its next delay, and whether there is a delivery. *)
Context (mode : Mode) (background : option (Z -> option Z)) (hasDelivery : bool).

Definition eligible (s : Sched) : bool :=
  if sd_halted s || negb (lc_visible (sd_lifecycle s)) || lc_playerOpen (sd_lifecycle s) then false
  else match mode with Local => true | Online => lc_online (sd_lifecycle s) end.

Definition interval (now : Z) (s : Sched) : Z :=
  let maintenance := if lc_playbackActive (sd_lifecycle s) then ACTIVE_PLAYBACK_REFRESH_MS else VISIBLE_REFRESH_MS in
  match background with
  | Some nextDelay =>
      if sd_foregroundReady s && lc_online (sd_lifecycle s) then
        match nextDelay now with Some b => Z.min maintenance b | None => maintenance end
      else maintenance
  | None => maintenance
  end.

(** A step: the state after it and what it did. *)
Definition SO : Type := Sched * list Out.
Definition out (o : Out) (x : SO) : SO := (x.1, x.2 ++ [o]).
Definition upd (f : Sched -> Sched) (x : SO) : SO := (f x.1, x.2).

Definition cancelTimer (x : SO) : SO := match sd_timer x.1 with None => x | Some _ => upd (set_timer None) (out OClearTimer x) end.

Definition schedule (delay : Z) (x : SO) : SO :=
  let x := cancelTimer x in
  if sd_closed x.1 || negb (eligible x.1) then x
  else if match mode with Local => true | Online => false end && bool_decide (is_Some (sd_running x.1)) then x
  else
    let x := upd (set_waits ((delay =? 0) && sd_foregroundReady x.1)) x in
    let delay := Z.max 0 delay in
    upd (set_timer (Some delay)) (out (OSetTimer delay) x).

Definition emit (event : LibraryAuthorityEvent) (x : SO) : SO :=
  if sd_closed x.1 then x
  else
    let x := match event with EvStatus status => upd (set_status (Some status)) x | _ => x end in
    let x := match event with
             | EvStatus (StMoved _) => upd (set_waits false) (cancelTimer (upd (set_halted true) x))
             | _ => x
             end in
    out (OEmit event) x.

(** A status not shown yet. *)
Definition emitStatus (status : LibraryAuthorityStatus) (x : SO) : SO :=
  if bool_decide (sd_lastStatus x.1 = Some status) then x else emit (EvStatus status) (upd (set_status (Some status)) x).

Definition requestDelivery (x : SO) : SO :=
  let s := x.1 in
  if sd_closed s || negb hasDelivery || negb (sd_foregroundReady s) || negb (eligible s) || match mode with Online => false | Local => true end then x
  else if sd_deliveryWaits s then x
  else if bool_decide (is_Some (sd_running s)) then x
  else if bool_decide (is_Some (sd_delivering s)) then upd (set_pending true) x
  else upd (set_delivering (Some (sd_deliveryEpoch s))) (out (ODeliver (sd_deliveryEpoch s)) x).

(** [#run] *)
Definition run (now : Z) (x : SO) : SO :=
  match sd_running x.1 with
  | Some _ => x
  | None =>
      upd (set_running (Some (mkRun now Reading false 0)))
        (out (ORun (if lc_playbackActive (sd_lifecycle x.1) then ACTIVE_PLAYBACK_REFRESH_MS / 1000 else HELD_WAIT_SECONDS)) x)
  end.

Definition nextDelay (changed : bool) (read elapsed now : Z) (s : Sched) : Z :=
  if lc_playbackActive (sd_lifecycle s) then Z.max 0 (interval now s - elapsed)
  else
    let held := if changed then Z.max 0 (HELD_SPACING_MS - elapsed)
                else if HELD_AFTER_MS <=? read then 0 else Z.max 0 (VISIBLE_REFRESH_MS - elapsed) in
    Z.min held (Z.max 0 (interval now s - elapsed)).

(** ** Events *)

Inductive Event : Type :=
| Observed (o : Observation) (now : Z)
| Commanded (applied : bool)
| Tasked (affected : bool)
| TimerFired (now : Z)
| Maintained (now : Z) (result : option (bool * LibraryAuthorityStatus))
| BackgroundDone (changed : option bool)
| RunSettled (now : Z)
| Delivered (changed : option bool)
| AuthorityEvent (event : LibraryAuthorityEvent)
| BackgroundChanged
| Closing.

(** After the authority took the observation *)
Definition observed (o : Observation) (now : Z) (x : SO) : SO :=
  if sd_closed x.1 then x
  else
    match o with
    | ObForegroundReady =>
        let x := if sd_foregroundReady x.1 then x
                 else let x := upd (set_ready true) x in if eligible x.1 then schedule 0 x else x in
        requestDelivery x
    | ObOther => x
    | ObLifecycle l =>
        let wasEligible := eligible x.1 in
        let previousInterval := interval now x.1 in
        let x := upd (set_lifecycle l) x in
        if negb (eligible x.1) then
          let x := match sd_running x.1 with Some _ => out OStopWaiting x | None => x end in
          upd (set_waits false) (cancelTimer (upd (fun s => set_epoch (sd_deliveryEpoch s + 1) s) x))
        else if negb wasEligible then schedule 0 x
        else if negb (interval now x.1 =? previousInterval) then schedule (interval now x.1) x
        else x
    end.

(** The maintenance answered, or threw *)
Definition maintained (now : Z) (result : option (bool * LibraryAuthorityStatus)) (x : SO) : SO :=
  match sd_running x.1 with
  | Some r =>
      let settle (changed : bool) (read : Z) := upd (set_running (Some (mkRun (rn_started r) Settled changed read))) in
      match result with
      | Some (changed, status) =>
          let read := now - rn_started r in
          if sd_closed x.1 then settle changed read x
          else
            let x := if changed then emit (EvChanged [ScAll]) x else x in
            let x := emitStatus status x in
            match background with
            | Some _ =>
                if sd_foregroundReady x.1 && lc_online (sd_lifecycle x.1)
                then upd (set_running (Some (mkRun (rn_started r) Background changed read))) (out OBackground x)
                else settle changed read x
            | None => settle changed read x
            end
      | None => let x := settle false 0 x in if sd_closed x.1 then x else emitStatus StReconnecting x
      end
  | None => x
  end.

Definition backgroundDone (changed : option bool) (x : SO) : SO :=
  match sd_running x.1 with
  | Some r =>
      let x := match changed with Some true => emit (EvChanged [ScKind "downloads"]) x | _ => x end in
      upd (set_running (Some (mkRun (rn_started r) Settled (rn_changed r) (rn_read r)))) x
  | None => x
  end.

(** [running.finally] *)
Definition runSettled (now : Z) (x : SO) : SO :=
  match sd_running x.1 with
  | Some r =>
      let x := requestDelivery (upd (set_waits false) (upd (set_running None) x)) in
      if negb (sd_closed x.1) && eligible x.1 && match mode with Online => true | Local => false end
      then schedule (nextDelay (rn_changed r) (rn_read r) (Z.max 0 (now - rn_started r)) now x.1) x
      else x
  | None => x
  end.

(** The delivery's end and its [finally] *)
Definition delivered (changed : option bool) (x : SO) : SO :=
  let x := match changed with Some true => emit (EvChanged [ScKind "simkl"; ScKind "connections"]) x | _ => x end in
  let again := sd_deliveryPending x.1 in
  let x := upd (set_pending false) (upd (set_delivering None) x) in
  if again then requestDelivery x else x.

Definition close (x : SO) : SO :=
  if sd_closed x.1 then x
  else
    let x := upd (set_closed true) x in
    let x := match sd_running x.1 with Some _ => out OStopWaiting x | None => x end in
    upd (set_waits false) (cancelTimer (upd (fun s => set_epoch (sd_deliveryEpoch s + 1) s) x)).

(** An event that can come in the state; the others are not steps. *)
Definition enabled (ev : Event) (s : Sched) : bool :=
  match ev with
  | TimerFired _ => bool_decide (is_Some (sd_timer s))
  | Maintained _ _ => match sd_running s with Some r => match rn_phase r with Reading => true | _ => false end | None => false end
  | BackgroundDone _ => match sd_running s with Some r => match rn_phase r with Background => true | _ => false end | None => false end
  | RunSettled _ => match sd_running s with Some r => match rn_phase r with Settled => true | _ => false end | None => false end
  | Delivered _ => bool_decide (is_Some (sd_delivering s))
  | _ => true
  end.

Definition step (ev : Event) (s : Sched) : SO :=
  let x := (s, []) in
  match ev with
  | Observed o now => observed o now x
  | Commanded applied => if applied then requestDelivery x else x
  | Tasked affected => if affected then requestDelivery x else x
  | TimerFired now => run now (upd (set_timer None) x)
  | Maintained now result => maintained now result x
  | BackgroundDone changed => backgroundDone changed x
  | RunSettled now => runSettled now x
  | Delivered changed => delivered changed x
  | AuthorityEvent event => emit event x
  | BackgroundChanged => emit (EvChanged [ScKind "downloads"]) x
  | Closing => close x
  end.

(** A run of the machine, newest output last. *)
Inductive steps : list Event -> Sched -> list Out -> Prop :=
| steps_start : steps [] opened []
| steps_next evs s os ev : steps evs s os -> enabled ev s = true -> steps (evs ++ [ev]) (step ev s).1 (os ++ (step ev s).2).
End Scheduler.

(** ** What it keeps to *)

Section Laws.
Context (mode : Mode) (background : option (Z -> option Z)) (hasDelivery : bool).

Abbreviation eligible := (eligible mode).
Abbreviation schedule := (schedule mode).
Abbreviation requestDelivery := (requestDelivery mode hasDelivery).
Abbreviation step := (step mode background hasDelivery).
Abbreviation steps := (steps mode background hasDelivery).

(** A timer is set only by an open scheduler whose page is eligible, and online such a scheduler has a timer or a run. *)
Record inv (s : Sched) : Prop := {
  iv_timer d : sd_timer s = Some d -> sd_closed s = false /\ eligible s = true /\ 0 <= d;
  iv_loop : mode = Online -> sd_closed s = false -> eligible s = true -> is_Some (sd_timer s) \/ is_Some (sd_running s);
}.

(** The invariant, but for the loop. *)
Definition timer_ok (s : Sched) : Prop := forall d, sd_timer s = Some d -> sd_closed s = false /\ eligible s = true /\ 0 <= d.

Lemma inv_opened : inv opened.
Proof. by split. Qed.

(** What only the timer, the run, eligibility and being closed decide is kept by the rest. *)
Definition alike (s s' : Sched) : Prop :=
  sd_timer s' = sd_timer s /\ (is_Some (sd_running s) -> is_Some (sd_running s')) /\ sd_closed s' = sd_closed s /\ eligible s' = eligible s.

Lemma inv_alike s s' : alike s s' -> inv s -> inv s'.
Proof.
  intros (Et & Er & Ec & Ee) [H1 H2]. split; rewrite Et, Ec, Ee; [done|]. intros Hm Hc He. destruct (H2 Hm Hc He) as [|]; [by left|right; auto].
Qed.

Lemma requestDelivery_alike x : alike x.1 (requestDelivery x).1.
Proof. unfold Scheduler.requestDelivery. repeat case_match; by repeat split. Qed.

Lemma cancelTimer_spec x : (cancelTimer x).1 = set_timer None x.1.
Proof. unfold cancelTimer. destruct x as [s os]. cbn. destruct (sd_timer s) eqn:E; [done|]. cbn. destruct s. cbn in E. by subst. Qed.

(** Scheduling gives a timer to whoever may have one, or leaves a local run to end. *)
Lemma schedule_spec delay x :
  let s' := (schedule delay x).1 in
  timer_ok s' /\ sd_running s' = sd_running x.1 /\ sd_closed s' = sd_closed x.1 /\ eligible s' = eligible x.1 /\
  (mode = Online -> sd_closed x.1 = false -> eligible x.1 = true -> is_Some (sd_timer s')).
Proof.
  unfold Scheduler.schedule, timer_ok. rewrite !cancelTimer_spec. destruct x as [s os]. cbn [fst].
  change (Scheduler.eligible mode (set_timer None s)) with (eligible s). destruct (sd_closed s) eqn:Ec; cbn [sd_closed set_timer orb].
  { rewrite Ec. cbn [orb]. rewrite cancelTimer_spec. cbn. split; [done|]. rewrite Ec. done. }
  rewrite Ec. cbn [orb]. destruct (eligible s) eqn:Ee; cbn [negb]; cycle 1.
  { rewrite cancelTimer_spec. cbn. split; [done|]. rewrite Ec. split; [done|]. split; [done|]. by split. }
  destruct (match mode with Local => true | Online => false end && _) eqn:El.
  { rewrite cancelTimer_spec. cbn. split; [done|]. rewrite Ec. split; [done|]. split; [done|]. split; [exact Ee|]. intros Hm. by rewrite Hm in El. }
  unfold upd, out. cbn. rewrite cancelTimer_spec. cbn. rewrite Ec. split; [intros d [= <-]; split; [done|]; split; [exact Ee|lia]|].
  split; [done|]. split; [done|]. split; [exact Ee|]. by eexists.
Qed.

Lemma inv_schedule delay x : inv (schedule delay x).1.
Proof.
  destruct (schedule_spec delay x) as (Ht & Hr & Hc & He & Hl). split; [exact Ht|]. rewrite Hc, He. intros Hm H1 H2. left. by apply Hl.
Qed.

Lemma emit_spec event x : inv x.1 -> inv (emit event x).1 /\ sd_running (emit event x).1 = sd_running x.1 /\ sd_closed (emit event x).1 = sd_closed x.1.
Proof.
  intros Hi. unfold emit. destruct (sd_closed x.1) eqn:Ec; [done|]. destruct event as [|[| | |successor|]]; cbn; try by (split; [apply (inv_alike x.1)|]).
  rewrite cancelTimer_spec. cbn. split; [|done]. split; [done|]. cbn. unfold Scheduler.eligible. cbn. done.
Qed.

Lemma emitStatus_spec status x : inv x.1 -> inv (emitStatus status x).1 /\ sd_running (emitStatus status x).1 = sd_running x.1 /\ sd_closed (emitStatus status x).1 = sd_closed x.1.
Proof. intros Hi. unfold emitStatus. case_bool_decide; [done|]. apply (emit_spec (EvStatus status) (upd (set_status (Some status)) x)). by apply (inv_alike x.1). Qed.

(** Nothing set and nothing to run: no timer is owed. *)
Lemma inv_stopped s : sd_timer s = None -> (sd_closed s = true \/ eligible s = false) -> inv s.
Proof. intros Ht Hs. split; rewrite Ht; [done|]. intros _ Hc He. destruct Hs; congruence. Qed.

Lemma inv_observed o now x : inv x.1 -> inv (observed mode background hasDelivery o now x).1.
Proof.
  intros Hi. unfold observed. destruct (sd_closed x.1) eqn:Ec; [done|]. destruct o as [|l|]; [| |done].
  - eapply inv_alike; [apply requestDelivery_alike|]. destruct (sd_foregroundReady x.1); [done|]. case_match; [apply inv_schedule|].
    by apply (inv_alike x.1).
  - set (y := upd (set_lifecycle l) x). destruct (eligible y.1) eqn:Ee; cbn [negb].
    + destruct (eligible x.1) eqn:Eo; cbn [negb]; [|apply inv_schedule]. case_match; [apply inv_schedule|]. apply (inv_alike x.1); [|done].
      split; [done|]. split; [done|]. split; [done|]. by rewrite Ee, Eo.
    + apply inv_stopped; [|right]; cbn; rewrite cancelTimer_spec; cbn; [done|]. destruct (sd_running x.1); exact Ee.
Qed.

Lemma inv_step ev s : enabled ev s = true -> inv s -> inv (step ev s).1.
Proof.
  intros He Hi. destruct ev as [o now|[]|[]|now|now result|changed|now|changed|event| |]; cbn [Scheduler.step]; try done.
  - by apply inv_observed.
  - eapply inv_alike; [apply requestDelivery_alike|done].
  - eapply inv_alike; [apply requestDelivery_alike|done].
  - destruct Hi as [H1 H2]. unfold run. cbn. destruct (sd_running s) as [r|] eqn:Er; split; cbn; try done; rewrite ?Er; intros; right; by eexists.
  - unfold maintained. cbn [fst]. cbn in He. destruct (sd_running s) as [r|] eqn:Er; [|done].
    assert (Hset : forall x r', inv x.1 -> inv (upd (set_running (Some r')) x).1) by (intros x r' Hx; by apply (inv_alike x.1); [repeat split; cbn; eauto|]).
    destruct result as [[changed status]|].
    + destruct (sd_closed s); [by apply Hset|].
      assert (Hc : inv (if changed then emit (EvChanged [ScAll]) (s, []) else (s, [])).1) by (destruct changed; [by apply emit_spec|done]).
      pose proof (proj1 (emitStatus_spec status _ Hc)) as Hst. destruct background; [|by apply Hset]. destruct (sd_foregroundReady _ && _); [|by apply Hset].
      apply (Hset (out OBackground _)). exact Hst.
    + destruct (sd_closed _); [by apply Hset|]. apply emitStatus_spec. by apply Hset.
  - unfold backgroundDone. cbn [fst]. cbn in He. destruct (sd_running s) as [r|] eqn:Er; [|done].
    assert (Hc : inv (match changed with Some true => emit (EvChanged [ScKind "downloads"]) (s, []) | _ => (s, []) end).1)
      by (destruct changed as [[]|]; [by apply emit_spec|done..]).
    eapply inv_alike; [|exact Hc]. split; [done|]. split; [by eexists|]. done.
  - unfold runSettled. cbn [fst]. destruct (sd_running s) as [r|] eqn:Er; [|done]. set (x := requestDelivery _).
    destruct (negb (sd_closed x.1) && eligible x.1 && _) eqn:Ec; [apply inv_schedule|].
    pose proof (requestDelivery_alike (upd (set_waits false) (upd (set_running None) (s, [])))) as (Et & _ & Hcl & Hel). fold x in Et, Hcl, Hel. cbn in Et, Hcl.
    change (eligible (upd (set_waits false) (upd (set_running None) (s, []))).1) with (eligible s) in Hel.
    split; rewrite Et, Hcl, Hel; [apply Hi|]. intros Hm Hc Hel'. exfalso. rewrite Hcl, Hel, Hc, Hel', Hm in Ec. done.
  - unfold delivered. set (y := match changed with Some true => _ | _ => _ end).
    assert (Hc : inv y.1) by (unfold y; destruct changed as [[]|]; [by apply emit_spec|done..]).
    assert (Hx : inv (upd (set_pending false) (upd (set_delivering None) y)).1) by (by apply (inv_alike y.1)).
    case_match; [|done]. eapply inv_alike; [apply requestDelivery_alike|done].
  - by apply emit_spec.
  - by apply emit_spec.
  - unfold close. cbn [fst]. destruct (sd_closed s) eqn:Ec; [done|]. apply inv_stopped; cbn; rewrite cancelTimer_spec; cbn; [done|]. left. by destruct (sd_running s).
Qed.

Lemma steps_inv evs s os : steps evs s os -> inv s.
Proof. induction 1 as [|evs s os ev _ IH He]; [apply inv_opened|by apply inv_step]. Qed.

(** A closed scheduler does nothing more. *)
Lemma closed_quiet ev s : inv s -> sd_closed s = true -> enabled ev s = true -> (step ev s).2 = [] /\ sd_closed (step ev s).1 = true.
Proof.
  intros Hi Hc He. assert (Hemit : forall event x, sd_closed x.1 = true -> emit event x = x) by (intros event x Hx; unfold emit; by rewrite Hx).
  assert (Hreq : forall x, sd_closed x.1 = true -> requestDelivery x = x) by (intros x Hx; unfold Scheduler.requestDelivery; by rewrite Hx).
  destruct ev as [o now|[]|[]|now|now result|changed|now|changed|event| |]; cbn [Scheduler.step]; rewrite ?Hemit, ?Hreq by done; try done.
  - unfold observed. cbn. by rewrite Hc.
  - cbn in He. destruct (sd_timer s) as [d|] eqn:Et; [|done]. destruct (iv_timer _ Hi d Et) as [Hc' _]. congruence.
  - unfold maintained. cbn. destruct (sd_running s); [|done]. rewrite !Hc. by destruct result as [[]|].
  - unfold backgroundDone. cbn. destruct (sd_running s); [|done]. destruct changed as [[]|]; rewrite ?Hemit by done; by split.
  - unfold runSettled. cbn. destruct (sd_running s); [|done]. rewrite Hreq by done. cbn. by rewrite Hc.
  - unfold delivered. destruct changed as [[]|]; rewrite ?Hemit by done; cbn; destruct (sd_deliveryPending s); rewrite ?Hreq by done; by split.
  - unfold close. cbn. by rewrite Hc.
Qed.

(** *** One at a time *)

Definition is_run (o : Out) : bool := match o with ORun _ => true | _ => false end.
Definition is_deliver (o : Out) : bool := match o with ODeliver _ => true | _ => false end.
Definition count {A} (f : A -> bool) (l : list A) : Z := Z.of_nat (length (List.filter f l)).
Definition busy {A} (o : option A) : Z := match o with Some _ => 1 | None => 0 end.

Lemma count_app {A} (f : A -> bool) l1 l2 : count f (l1 ++ l2) = count f l1 + count f l2.
Proof. unfold count. rewrite List.filter_app, length_app. lia. Qed.

Lemma count_nil {A} (f : A -> bool) : count f [] = 0.
Proof. done. Qed.

Lemma count_one {A} (f : A -> bool) x : count f [x] = if f x then 1 else 0.
Proof. unfold count. cbn. by destruct (f x). Qed.

(** The runs and deliveries begun are those already over and the one under way. *)
Definition balanced (runs deliveries : Z) (x : SO) : Prop :=
  count is_run x.2 = runs + busy (sd_running x.1) /\ count is_deliver x.2 = deliveries + busy (sd_delivering x.1).

Lemma balanced_out r d o x : is_run o = false -> is_deliver o = false -> balanced r d x -> balanced r d (out o x).
Proof.
  intros H1 H2 [Hr Hd]. unfold balanced, out. cbn [fst snd]. rewrite !count_app, !count_one, H1, H2. lia.
Qed.

Lemma balanced_upd r d f x :
  busy (sd_running (f x.1)) = busy (sd_running x.1) -> busy (sd_delivering (f x.1)) = busy (sd_delivering x.1) -> balanced r d x -> balanced r d (upd f x).
Proof. intros H1 H2 [Hr Hd]. unfold balanced, upd. cbn [fst snd]. by rewrite H1, H2. Qed.

Lemma balanced_cancel r d x : balanced r d x -> balanced r d (cancelTimer x).
Proof. intros Hb. unfold cancelTimer. destruct (sd_timer x.1); [|done]. by apply balanced_upd, balanced_out. Qed.

Lemma balanced_schedule r d delay x : balanced r d x -> balanced r d (schedule delay x).
Proof.
  intros Hb%balanced_cancel. unfold Scheduler.schedule. destruct (sd_closed _ || _); [done|]. destruct (_ && bool_decide _); [done|].
  by apply balanced_upd, balanced_out, balanced_upd.
Qed.

Lemma balanced_emit r d event x : balanced r d x -> balanced r d (emit event x).
Proof.
  intros Hb. unfold emit. destruct (sd_closed x.1); [done|]. apply balanced_out; [done|done|]. destruct event as [|[]]; try done; try by apply balanced_upd.
  by apply balanced_upd, balanced_cancel, balanced_upd, balanced_upd.
Qed.

Lemma balanced_status r d status x : balanced r d x -> balanced r d (emitStatus status x).
Proof. intros Hb. unfold emitStatus. case_bool_decide; [done|]. by apply balanced_emit, balanced_upd. Qed.

Lemma balanced_request r d x : balanced r d x -> balanced r d (requestDelivery x).
Proof.
  intros Hb. unfold Scheduler.requestDelivery. destruct (_ || match mode with Online => false | Local => true end); [done|].
  destruct (sd_deliveryWaits x.1); [done|]. case_bool_decide; [done|]. case_bool_decide as E; [by apply balanced_upd|]. destruct Hb as [Hr Hd].
  destruct (sd_delivering x.1) eqn:Ed; [by destruct E; eexists|]. unfold balanced, upd, out. cbn [fst snd]. rewrite !count_app, !count_one. cbn in *. lia.
Qed.

Definition ends_run (ev : Event) : bool := match ev with RunSettled _ => true | _ => false end.
Definition ends_delivery (ev : Event) : bool := match ev with Delivered _ => true | _ => false end.

Definition one (b : bool) : Z := if b then 1 else 0.

Lemma balanced_step ev s :
  enabled ev s = true -> balanced (one (ends_run ev) - busy (sd_running s)) (one (ends_delivery ev) - busy (sd_delivering s)) (step ev s).
Proof.
  intros He. assert (H0 : balanced (0 - busy (sd_running s)) (0 - busy (sd_delivering s)) (s, [])) by (split; cbn [fst snd]; rewrite count_nil; lia).
  destruct ev as [o now|[]|[]|now|now result|changed|now|changed|event| |]; cbn [Scheduler.step ends_run ends_delivery one];
    try first [exact H0|by apply balanced_request|by apply balanced_emit].
  - unfold observed. cbn [fst]. destruct (sd_closed s); [done|]. destruct o as [|l|]; [| |done].
    + apply balanced_request. destruct (sd_foregroundReady s); [done|]. destruct (Scheduler.eligible _ _); [by apply balanced_schedule, balanced_upd|by apply balanced_upd].
    + assert (H1 : balanced (0 - busy (sd_running s)) (0 - busy (sd_delivering s)) (upd (set_lifecycle l) (s, []))) by (by apply balanced_upd).
      destruct (negb (Scheduler.eligible mode (upd _ _).1)); [|destruct (negb _); [by apply balanced_schedule|destruct (negb _); [by apply balanced_schedule|done]]].
      apply balanced_upd; [done|done|]. apply balanced_cancel, balanced_upd; [done|done|]. destruct (sd_running _); [by apply balanced_out|done].
  - unfold run. cbn [fst sd_running upd set_timer]. destruct H0 as [Hr Hd]. destruct (sd_running s) as [r|] eqn:Er; [by apply balanced_upd|].
    unfold balanced, upd, out. cbn [fst snd app sd_running sd_delivering set_running set_timer busy]. rewrite !count_one. cbn in *. lia.
  - unfold maintained. cbn [fst]. cbn in He. destruct (sd_running s) as [r|] eqn:Er; [|done].
    assert (Hset : forall x r', balanced (0 - busy (Some r)) (0 - busy (sd_delivering s)) x -> sd_running x.1 = Some r ->
      balanced (0 - busy (Some r)) (0 - busy (sd_delivering s)) (upd (set_running (Some r')) x)).
    { intros x r' Hb Hx. apply balanced_upd; [by rewrite Hx|done|done]. }
    assert (Hem : forall event x, sd_running (emit event x).1 = sd_running x.1).
    { intros event x. unfold emit. destruct (sd_closed x.1); [done|]. destruct event as [|[]]; try done. cbn. by rewrite cancelTimer_spec. }
    assert (Hst : forall status x, sd_running (emitStatus status x).1 = sd_running x.1).
    { intros status x. unfold emitStatus. case_bool_decide; [done|]. by rewrite Hem. }
    destruct result as [[changed status]|].
    + destruct (sd_closed s); [by apply Hset|]. set (y := if changed then _ else _).
      assert (Hy : balanced (0 - busy (Some r)) (0 - busy (sd_delivering s)) y /\ sd_running y.1 = Some r).
      { unfold y. destruct changed; [|done]. split; [by apply balanced_emit|by rewrite Hem]. }
      destruct Hy as [Hy1 Hy2]. assert (Hz : balanced (0 - busy (Some r)) (0 - busy (sd_delivering s)) (emitStatus status y)) by (by apply balanced_status).
      destruct background; [destruct (sd_foregroundReady _ && _)|]; apply Hset; try done; try (by apply balanced_out); cbn [out fst]; by rewrite Hst.
    + destruct (sd_closed _); [by apply Hset|]. by apply balanced_status, Hset.
  - unfold backgroundDone. cbn [fst]. cbn in He. destruct (sd_running s) as [r|] eqn:Er; [|done].
    set (y := match changed with Some true => _ | _ => _ end).
    assert (Hy : balanced (0 - busy (Some r)) (0 - busy (sd_delivering s)) y) by (unfold y; destruct changed as [[]|]; [by apply balanced_emit|done..]).
    apply balanced_upd; [|done|done]. cbn [sd_running set_running busy].
    assert (Ey : sd_running y.1 = Some r); [|by rewrite Ey]. unfold y. destruct changed as [[]|]; try done. unfold emit. cbn. by destruct (sd_closed s).
  - unfold runSettled. cbn [fst]. cbn in He. destruct (sd_running s) as [r|] eqn:Er; [|done].
    assert (H1 : balanced (1 - busy (Some r)) (0 - busy (sd_delivering s)) (requestDelivery (upd (set_waits false) (upd (set_running None) (s, []))))).
    { apply balanced_request, balanced_upd; [done|done|]. split; cbn [fst snd upd]; rewrite count_nil; cbn; lia. }
    destruct (_ && match mode with Online => true | Local => false end); [by apply balanced_schedule|done].
  - unfold delivered. cbn in He. apply bool_decide_eq_true in He as [e Ee]. set (y := match changed with Some true => _ | _ => _ end).
    assert (Hy : balanced (0 - busy (sd_running s)) (0 - busy (sd_delivering s)) y) by (unfold y; destruct changed as [[]|]; [by apply balanced_emit|done..]).
    assert (Hd : sd_delivering y.1 = Some e).
    { unfold y. destruct changed as [[]|]; try done. unfold emit. cbn. by destruct (sd_closed s). }
    assert (Hz : balanced (0 - busy (sd_running s)) (1 - busy (sd_delivering s)) (upd (set_pending false) (upd (set_delivering None) y))).
    { destruct Hy as [H1 H2]. split; cbn; [exact H1|]. rewrite Hd in H2. cbn in H2. lia. }
    destruct (sd_deliveryPending y.1); [by apply balanced_request|done].
  - unfold close. cbn [fst]. destruct (sd_closed s); [done|]. apply balanced_upd; [done|done|]. apply balanced_cancel, balanced_upd; [done|done|].
    cbn [sd_running set_closed upd fst]. destruct (sd_running s) eqn:Er; [apply balanced_out; try done|]; by apply balanced_upd.
Qed.

Lemma steps_balanced evs s os : steps evs s os -> balanced (count ends_run evs) (count ends_delivery evs) (s, os).
Proof.
  induction 1 as [|evs s os ev _ [IH1 IH2] He]; [by split|]. destruct (balanced_step ev s He) as [H1 H2]. cbn [fst snd] in IH1, IH2.
  split; cbn [fst snd]; rewrite !count_app, count_one; unfold one in H1, H2; lia.
Qed.
End Laws.

(** C19: the loop never stops while it should run, and never runs when it should not. In every run of the scheduler:
    a timer is set only while it is open and its page is visible, not under its player and (for a library on den-edge)
    online; online, and as long as that holds, there is always a timer or a maintenance run that will set the next; and
    once closed nothing it still hears makes it read, deliver, announce or set a timer. *)
Theorem scheduler_loop mode background hasDelivery evs s os :
  steps mode background hasDelivery evs s os ->
  (forall d, sd_timer s = Some d -> sd_closed s = false /\ eligible mode s = true /\ 0 <= d) /\
  (mode = Online -> sd_closed s = false -> eligible mode s = true -> is_Some (sd_timer s) \/ is_Some (sd_running s)) /\
  (sd_closed s = true -> forall ev, enabled ev s = true ->
     (step mode background hasDelivery ev s).2 = [] /\ sd_closed (step mode background hasDelivery ev s).1 = true).
Proof.
  intros Hs. pose proof (steps_inv mode background hasDelivery evs s os Hs) as Hi. split; [apply Hi|]. split; [apply Hi|].
  intros Hc ev He. by apply (closed_quiet mode background hasDelivery).
Qed.

(** One maintenance run and one delivery at a time. At every point the runs begun are those that ended and the one
    under way, if there is one, and so are the deliveries. *)
Lemma scheduler_one_at_a_time mode background hasDelivery evs s os :
  steps mode background hasDelivery evs s os ->
  count is_run os = count ends_run evs + busy (sd_running s) /\ count is_deliver os = count ends_delivery evs + busy (sd_delivering s).
Proof. intros Hs. exact (steps_balanced mode background hasDelivery evs s os Hs). Qed.

(** how often it reads. When a run ends and the page is still eligible, the next one is set for a time no earlier
    than a second after this one began (five seconds while something plays), or than the end of a read that was held,
    and no later than thirty seconds after it began or at once, whichever comes last. *)
Lemma scheduler_pace hasDelivery s r now :
  sd_running s = Some r -> sd_closed s = false -> eligible Online s = true -> rn_started r <= now -> rn_read r <= now - rn_started r ->
  exists d, sd_timer (step Online None hasDelivery (RunSettled now) s).1 = Some d /\
    rn_started r + (if lc_playbackActive (sd_lifecycle s) then ACTIVE_PLAYBACK_REFRESH_MS else HELD_SPACING_MS) <= now + d /\
    now + d <= Z.max now (rn_started r + VISIBLE_REFRESH_MS).
Proof.
  intros Hr Hc He Hn Hread. cbn [step]. unfold runSettled. cbn [fst]. rewrite Hr. set (x := requestDelivery _ _ _).
  assert (Hx : sd_closed x.1 = false /\ eligible Online x.1 = true /\ sd_lifecycle x.1 = sd_lifecycle s).
  { pose proof (requestDelivery_alike Online hasDelivery (upd (set_waits false) (upd (set_running None) (s, [])))) as (_ & _ & H1 & H2). fold x in H1, H2.
    split; [by rewrite H1|]. split; [by rewrite H2|]. unfold x, requestDelivery. repeat case_match; done. }
  destruct Hx as (Hxc & Hxe & Hxl). rewrite Hxc, Hxe. cbn [negb andb].
  set (delay := nextDelay None (rn_changed r) (rn_read r) (Z.max 0 (now - rn_started r)) now x.1).
  assert (Hd : sd_timer (schedule Online delay x).1 = Some (Z.max 0 delay)).
  { unfold schedule. rewrite !cancelTimer_spec. change (eligible Online (set_timer None x.1)) with (eligible Online x.1). cbn [sd_closed set_timer]. by rewrite Hxc, Hxe. }
  exists (Z.max 0 delay). split; [exact Hd|]. unfold delay, nextDelay, interval. rewrite Hxl. unfold ACTIVE_PLAYBACK_REFRESH_MS, HELD_SPACING_MS, VISIBLE_REFRESH_MS, HELD_AFTER_MS.
  destruct (lc_playbackActive (sd_lifecycle s)); [lia|]. destruct (rn_changed r); [lia|]. destruct (Z.leb_spec 12500 (rn_read r)); lia.
Qed.

(** ** A page that opens *)

Definition demo_visible : Lifecycle := mkLifecycle true true false false.
Definition demo_events : list Event :=
  [Observed (ObLifecycle demo_visible) 0; Observed ObForegroundReady 10; TimerFired 20; Maintained 400 (Some (true, StReady)); RunSettled 401].
Definition play (x : SO) (ev : Event) : SO := let y := step Online None true ev x.1 in (y.1, x.2 ++ y.2).
Fixpoint admitted (evs : list Event) (x : SO) : bool := match evs with [] => true | ev :: evs => enabled ev x.1 && admitted evs (play x ev) end.

Lemma play_steps evs pre x : steps Online None true pre x.1 x.2 -> admitted evs x = true -> steps Online None true (pre ++ evs) (foldl play x evs).1 (foldl play x evs).2.
Proof.
  revert pre x. induction evs as [|ev evs IH]; intros pre x Hs Ha; [by rewrite app_nil_r|]. cbn [admitted] in Ha. apply andb_true_iff in Ha as [He Ha].
  rewrite cons_middle, app_assoc. apply IH; [|done]. by apply steps_next.
Qed.

Definition demo_run : SO := foldl play (opened, []) demo_events.
Lemma demo_steps : steps Online None true demo_events demo_run.1 demo_run.2.
Proof. apply (play_steps demo_events [] (opened, [])); [constructor|vm_compute; reflexivity]. Defined.

Lemma scheduler_loop_witness : sd_timer demo_run.1 = Some 619 /\ (is_Some (sd_timer demo_run.1) \/ is_Some (sd_running demo_run.1)).
Proof.
  split; [vm_compute; reflexivity|]. apply (proj1 (proj2 (scheduler_loop Online None true demo_events demo_run.1 demo_run.2 demo_steps))); vm_compute; reflexivity.
Defined.

Lemma scheduler_one_at_a_time_witness : count is_run demo_run.2 = 1 + busy (sd_running demo_run.1) /\ count is_deliver demo_run.2 = 0 + busy (sd_delivering demo_run.1).
Proof. exact (scheduler_one_at_a_time Online None true demo_events demo_run.1 demo_run.2 demo_steps). Defined.

Definition demo_ending : Sched := (foldl play (opened, []) (take 4 demo_events)).1.
Lemma scheduler_pace_witness :
  exists d, sd_timer (step Online None true (RunSettled 401) demo_ending).1 = Some d /\ 20 + HELD_SPACING_MS <= 401 + d /\ 401 + d <= Z.max 401 (20 + VISIBLE_REFRESH_MS).
Proof.
  apply (scheduler_pace true demo_ending (mkRun 20 Settled true 380) 401); try (vm_compute; reflexivity); vm_compute; discriminate.
Defined.
