(* ===== verification/Delivery.v ===== *)
(** * Delivering to a tracker ([web/src/lib/simklDelivery.ts])

    What is watched, listed and rated is delivered to SIMKL by one device of a library at a time: the holder of a lease,
    a setting of the library's [deliver:simkl:<account>] row taken by compare-and-set. A pass takes or renews the lease,
    asks den-core what is to be sent, sends it, and writes the receipts. A pass is a program that hands over at each
    use of the log, the clocks, what the browser keeps, and the tracker. *)

From S2P Require Import Prelude JsMap JsText Json Wire LibraryV4 ProfileKeys ResetJournal LogState.
Open Scope Z_scope.

Definition TEN_MINUTES : Z := 10 * 60000.
Definition HOLD : Z := 120000.

(** What the browser computes: [String(value)], [Number(text)] (of the integers the texts here spell, [None] for [NaN]),
    [Date.parse] and [JSON.parse]; and [JSON.stringify] of a latch. *)
Class DeliveryApi := {
  js_String : json -> string;
  js_Number : string -> option Z;
  date_parse : string -> option Z;
  json_read : string -> option json;
  json_text : json -> string;
}.

(** ** The lease of this page *)

Record HeldLease : Type := mkHeldLease { hl_account : string; hl_epoch : option Z; hl_at : Z; hl_mono : Z }.
Record SeenLease : Type := mkSeen { sl_seq : Z; sl_since : Z }.
Record Watch : Type := mkWatch { wt_generation : option string; wt_since : Z; wt_leases : jsmap string SeenLease }.

(** [Date.now()] and [performance.now()], in whole milliseconds. *)
Record Reading : Type := mkReading { rd_now : Z; rd_mono : Z }.

Definition holding (held : option HeldLease) (account : string) (c : Reading) : bool :=
  match held with
  | Some held =>
      String.eqb (hl_account held) account &&
      let wall := rd_now c - hl_at held in
      negb (wall <? 0) && (Z.max wall (rd_mono c - hl_mono held) <? HOLD)
  | None => false
  end.

(** Milliseconds since this page started, on the lesser of its clocks. *)
Definition pageElapsed (start c : Reading) : Z := Z.min (rd_now c - rd_now start) (rd_mono c - rd_mono start).

(** A new generation starts a new watch and forgets a lease held under the old one. *)
Definition watched (generation : option string) (elapsed : Z) (watch : option Watch) (held : option HeldLease)
  : Watch * option HeldLease :=
  match watch with
  | Some watch =>
      if decide (wt_generation watch = generation) then (watch, held) else (mkWatch generation elapsed [], None)
  | None => (mkWatch generation elapsed [], None)
  end.

Definition seen (account : string) (seq elapsed : Z) (watch : Watch) : SeenLease :=
  match map_get account (wt_leases watch) with
  | Some lease => if sl_seq lease =? seq then lease else mkSeen seq elapsed
  | None => mkSeen seq elapsed
  end.

(** The watch and the lease after it, and how long the generation and the lease's row have been watched. *)
Definition observe (generation : option string) (account : string) (seq elapsed : Z) (watch : option Watch) (held : option HeldLease)
  : Watch * option HeldLease * (Z * Z) :=
  let '(watch, held) := watched generation elapsed watch held in
  let lease := seen account seq elapsed watch in
  (mkWatch (wt_generation watch) (wt_since watch) (map_set account lease (wt_leases watch)), held,
    (elapsed - wt_since watch, elapsed - sl_since lease)).

(** ** What SIMKL holds *)

Record Snapshot : Type := mkSnapshot {
  sn_watched : list string;
  sn_listed : jsmap string (option Z);
  sn_ratings : jsmap string Qc;
}.

Section Snapshots.
Context `{DeliveryApi}.

Definition addedAt (value : option json) : option Z :=
  match value with Some (JStr text) => date_parse text | _ => None end.

(** Reading a member: [null] throws, and what is no object has none of these. *)
Definition member (k : string) (j : json) : res (option json) :=
  match j with JNull => Throw "null has no members" | _ => Ok (jget k j) end.
(** [j?.k] *)
Definition member_opt (k : string) (j : option json) : option json :=
  match j with Some JNull | None => None | Some j => jget k j end.

Definition jtrue (j : option json) : bool :=
  match j with
  | None | Some JNull | Some (JBool false) => false
  | Some (JNum q) => negb (bool_decide (qc_int q = Some 0))
  | Some (JStr s) => truthy s
  | Some _ => true
  end.

Definition identity (media id : string) : string := media +:+ ":" +:+ id.
Definition episode_identity (media id season episode : string) : string :=
  media +:+ ":" +:+ id +:+ ":" +:+ season +:+ ":" +:+ episode.

Definition items (j : option json) : list json := match j with Some (JArr l) => l | _ => [] end.

(** [for (const x of j ?? [])]: the characters of a string have none of the members read. *)
Definition iterate (j : option json) : res (list json) :=
  match j with
  | None | Some JNull | Some (JStr _) => Ok []
  | Some (JArr l) => Ok l
  | Some _ => Throw "not iterable"
  end.

Definition list_title (key : string) (item : json) (snapshot : Snapshot) : Snapshot :=
  if bool_decide (jget "status" item = Some (JStr "plantowatch"))
  then mkSnapshot (sn_watched snapshot) (map_set key (addedAt (jget "added_to_watchlist_at" item)) (sn_listed snapshot)) (sn_ratings snapshot)
  else snapshot.

Definition rate_title (key : string) (item : json) (snapshot : Snapshot) : Snapshot :=
  match jget "user_rating" item with
  | Some (JNum rating) => mkSnapshot (sn_watched snapshot) (sn_listed snapshot) (map_set key rating (sn_ratings snapshot))
  | _ => snapshot
  end.

Definition watch_key (key : string) (snapshot : Snapshot) : Snapshot :=
  mkSnapshot (set_add key (sn_watched snapshot)) (sn_listed snapshot) (sn_ratings snapshot).

Definition collectMovie (snapshot : Snapshot) (item : json) : res Snapshot :=
  let! movie := member "movie" item in
  match member_opt "tmdb" (member_opt "ids" movie) with
  | Some id =>
      if negb (jtrue (Some id)) then Ok snapshot
      else
        let key := identity "movie" (js_String id) in
        let snapshot := if jtrue (jget "watched_at" item) then watch_key key snapshot else snapshot in
        Ok (rate_title key item (list_title key item snapshot))
  | None => Ok snapshot
  end.

Definition collectEpisode (id season : json) (snapshot : Snapshot) (episode : json) : res Snapshot :=
  match jget "number" season with
  | None => Ok snapshot
  | Some season_number =>
      let! number := member "number" episode in
      match number with
      | Some number =>
          Ok (if jtrue (jget "watched_at" episode)
              then watch_key (episode_identity "tv" (js_String id) (js_String season_number) (js_String number)) snapshot
              else snapshot)
      | None => Ok snapshot
      end
  end.

Definition collectSeason (id : json) (snapshot : Snapshot) (season : json) : res Snapshot :=
  let! episodes := member "episodes" season in
  let! episodes := iterate episodes in
  res_fold (collectEpisode id season) snapshot episodes.

Definition collectShow (snapshot : Snapshot) (item : json) : res Snapshot :=
  let! show := member "show" item in
  match member_opt "tmdb" (member_opt "ids" show) with
  | Some id =>
      if negb (jtrue (Some id)) then Ok snapshot
      else
        let title := identity "tv" (js_String id) in
        let snapshot := rate_title title item (list_title title item snapshot) in
        let! seasons := iterate (jget "seasons" item) in
        res_fold (collectSeason id) snapshot seasons
  | None => Ok snapshot
  end.

Definition collectSnapshot (body : json) : res Snapshot :=
  let! snapshot := res_fold collectMovie (mkSnapshot [] [] []) (items (jget "movies" body)) in
  res_fold collectShow snapshot (items (jget "shows" body) ++ items (jget "anime" body)).
End Snapshots.

(** ** Commands and what they ask of SIMKL *)

(** A command, or a silent settle, of [pending_targets_v4]; [tg_members] are the command's other members. *)
Record V4Target : Type := mkTarget { tg_document : string; tg_key : string; tg_built_from : json; tg_members : json }.

(** [NaN] is [None]. *)
Definition num_text (n : option Z) : string := match n with Some z => Z_str z | None => "NaN" end.
Definition num_json (n : option Z) : json := match n with Some z => jint z | None => JNull end.

Record Target : Type := mkDelivered { dt_media : string; dt_id : option Z; dt_season : option (option Z); dt_episode : option (option Z) }.

(** [dlv:simkl:<account>:<type>:<id>[:<season>]] *)
Definition deliveryTitle `{DeliveryApi} (name : string) : string * option Z * option (option Z) :=
  let parts := split_on ":"%char name in
  (match parts !! 3%nat with Some "tv" => "tv" | _ => "movie" end,
   parts !! 4%nat ≫= js_Number,
   js_Number <$> parts !! 5%nat).

Definition command_kind (command : V4Target) : option json := jget "kind" (tg_members command).
Definition is_kind (kind : string) (command : V4Target) : bool := bool_decide (command_kind command = Some (JStr kind)).
Definition absent (j : option json) : bool := match j with None | Some JNull => true | _ => false end.

Definition ids_of (target : Target) : string * json := ("ids", JObj [("tmdb", num_json (dt_id target))]).

Definition episode_body (target : Target) : json :=
  match (if String.eqb (dt_media target) "tv" then dt_season target else None) with
  | Some season =>
      JObj [("shows", JArr [JObj [ids_of target; ("seasons", JArr [JObj [("number", num_json season);
        ("episodes", JArr [JObj (jmember "number" num_json (dt_episode target))])]])]])]
  | None => JObj [("movies", JArr [JObj [ids_of target]])]
  end.

Definition titles_member (target : Target) : string := if String.eqb (dt_media target) "movie" then "movies" else "shows".

(** The path and body [send] posts. *)
Definition request (command : V4Target) (target : Target) : string * json :=
  if is_kind "rating" command then
    let rating := jget "rating" (tg_members command) in
    (if absent rating then "/sync/ratings/remove" else "/sync/ratings",
     JObj [(titles_member target, JArr [JObj (ids_of target :: (if absent rating then [] else jmember "rating" id rating))])])
  else if is_kind "list" command then
    if jtrue (jget "added" (tg_members command))
    then ("/sync/add-to-list", JObj [(titles_member target, JArr [JObj [ids_of target; ("to", JStr "plantowatch")]])])
    else ("/sync/history/remove", episode_body target)
  else if is_kind "unwatched" command then ("/sync/history/remove", episode_body target)
  else ("/sync/history", episode_body target).

(** What SIMKL holds for a target, as den-core's [decide] asks it. *)
Definition remoteFacts (snapshot : Snapshot) (id title : string) : json :=
  JObj [("authoritative", JBool true); ("account_matches", JBool true); ("simkl", JBool true);
        ("watched", if bool_decide (id ∈ sn_watched snapshot) then JObj [("at", JNull)] else JNull);
        ("listed", match map_get title (sn_listed snapshot) with Some at_ => JObj [("at", from_option jint JNull at_)] | None => JNull end);
        ("rated", match map_get title (sn_ratings snapshot) with Some rating => JObj [("at", JNull); ("value", JNum rating)] | None => JNull end);
        ("any_title_watch", JBool (bool_decide (title ∈ sn_watched snapshot)));
        ("unknown_or_newer_title_watch", JBool false); ("episodes_complete", JBool true); ("plays", JArr []);
        ("unwatch_then_remark", JBool false)].

(** ** den-core's part *)

Record LeaseInput : Type := mkLeaseInput {
  li_device : string; li_holder : option string; li_epoch : option Z; li_elapsed : Z; li_observed : Z; li_fresh_generation : bool;
}.

Record V4Pending : Type := mkPending {
  pn_commands : list V4Target;
  pn_settle : list V4Target;
  pn_greatest_epoch : Z;
  pn_removals : option Stamp;
  pn_approval : option Stamp;
  pn_unverified : option (list Z);
}.

(** The document a receipt is written to: the one held, or which one to make. *)
Inductive Shape : Type :=
| Existing (document : DocumentRow)
| Fresh (account media : string) (id : option Z) (season : option (option Z)).

(** [settle_v4] answers [null] as [JNull]; [delivery_write] the document and the keys that do not fit it. *)
Class DeliveryPolicy := {
  policy_lease : LeaseInput -> res string;
  policy_pending : list DocumentRow -> json -> Z -> res V4Pending;
  policy_settle : json -> json -> option Z * Z * string -> json -> res json;
  policy_delivery_write : Shape -> list (string * json) -> res (DocumentRow * list string);
  policy_decide : V4Target -> json -> res json;
}.

(** ** Calls *)

(** The log as it is now, with the generation this browser watched and the newest stamp; [SeqOf] and [Documents] are
    its [seqOf] and [documents] where they are read apart. *)
Record LogNow : Type := mkNow { ln_log : Log; ln_observed : option string; ln_newest : Stamp }.

Inductive Eff : Type :=
| Clocks
| LookLog
| SeqOf (name : string)
| Documents
| GetHeld
| SetHeld (held : option HeldLease)
| GetWatch
| SetWatch (watch : Watch)
| SetObserved (generation : option string)
| See (stamp : Stamp)
| Issue
| Kept (name : string)
| Keep (name : string) (value : json)
| WriteAt (row : Row) (base : Z)
| Current
| LoadPolicy
| Exclusive (name : string)
| ClientId
| AllItems (clientId token : string)
| Post (clientId token path : string) (body : json).

(** A write also answers what the log reads as it returns; [Post] whether the response is good. *)
Definition answer (op : Eff) : Type :=
  match op with
  | Clocks => Reading
  | LookLog => LogNow
  | SeqOf _ => Z
  | Documents => list (Z * DocumentRow)
  | GetHeld => option HeldLease
  | GetWatch => option Watch
  | Issue => Stamp
  | Kept _ => option json
  | WriteAt _ _ => bool * LogNow
  | Current => bool
  | ClientId => option string
  | AllItems _ _ => option json
  | Post _ _ _ _ => bool
  | _ => unit
  end.

Inductive prog (A : Type) : Type :=
| Ret (r : res A)
| Call (op : Eff) (k : res (answer op) -> prog A).
Arguments Ret {A} _.
Arguments Call {A} _ _.

Fixpoint prog_bind {A B} (p : prog A) (f : A -> prog B) : prog B :=
  match p with
  | Ret (Ok a) => f a
  | Ret (Throw e) => Ret (Throw e)
  | Call op k => Call op (fun r => prog_bind (k r) f)
  end.
Definition ret {A} (a : A) : prog A := Ret (Ok a).
Definition lift {A} (r : res A) : prog A := Ret r.
Definition call (op : Eff) : prog (answer op) := Call op Ret.

Declare Scope delivery_scope.
Notation "'let*' x ':=' m 'in' k" := (prog_bind m (fun x => k)) (at level 10, x pattern, m at level 99, k at level 200) : delivery_scope.
Notation "m ;;; k" := (prog_bind m (fun _ => k)) (at level 100, right associativity) : delivery_scope.
Open Scope delivery_scope.

Definition settings (name : string) (log : Log) : option SettingsRow :=
  match map_get ("set:" +:+ name) (lg_entries log) with Some (mkLogEntry _ (RSettings row)) => Some row | _ => None end.
Definition seqOf (name : string) (log : Log) : Z := from_option en_seq 0 (map_get name (lg_entries log)).
Definition held_documents (log : Log) : list (Z * DocumentRow) :=
  omap (fun e => match en_row e with RDocument d => Some (en_seq e, d) | _ => None end) (map_values (lg_entries log)).

(** ** What is reserved before it is used *)

Record DeliverySafetyState : Type := mkSafety { sf_orders : jsmap string Z; sf_removalsSent : list Z }.
#[global] Instance DeliverySafetyState_eq_dec : EqDecision DeliverySafetyState.
Proof. solve_decision. Defined.

Definition safetyName (account : string) : string := "simkl-delivery-safety.v1." +:+ account.

Definition safe_count (j : json) : option Z :=
  match j with
  | JNum q => match qc_int q with Some z => if (0 <=? z) && (z <=? MAX_SAFE_INTEGER) then Some z else None | None => None end
  | _ => None
  end.

(** [/^\d+$/.test(epoch) && Number.isSafeInteger(Number(epoch)) && Number(epoch) >= 0] *)
Definition epoch_number (epoch : string) : option Z :=
  if truthy epoch && all_chars is_digit epoch
  then match str_Z epoch with Some z => if z <=? MAX_SAFE_INTEGER then Some z else None | None => None end
  else None.

Definition decode_order (p : string * json) : option (string * Z) :=
  match epoch_number p.1, safe_count p.2 with Some _, Some order => Some (p.1, order) | _, _ => None end.

Definition safetyState (value : option json) : DeliverySafetyState :=
  let stored := match value with Some (JObj l) => JObj l | _ => JObj [] end in
  let orders := match jget "orders" stored with
                | Some (JObj l) => map_of (omap decode_order l)
                | _ => []
                end in
  mkSafety orders (match jget "removalsSent" stored with Some (JArr l) => omap safe_count l | _ => [] end).

Definition safety_json (state : DeliverySafetyState) : json :=
  JObj [("orders", JObj ((fun p => (p.1, jint p.2)) <$> sf_orders state)); ("removalsSent", JArr (jint <$> sf_removalsSent state))].

(** [JSON.stringify] of two states is equal when the states are. *)
Definition persist (account : string) (state : DeliverySafetyState) : prog unit :=
  call (Keep (safetyName account) (safety_json state));;;
  let* kept := call (Kept (safetyName account)) in
  if decide (safetyState kept = state) then ret tt
  else lift (Throw "the SIMKL delivery safety reservation could not be kept").

Definition recent (now : Z) (state : DeliverySafetyState) : DeliverySafetyState :=
  mkSafety (sf_orders state) (filter (fun at_ => now - at_ < HOLD) (sf_removalsSent state)).
Definition removalsSent (now : Z) (state : DeliverySafetyState) : list Z := (fun at_ => Z.min at_ now) <$> sf_removalsSent (recent now state).

Definition greatestEpoch (state : DeliverySafetyState) : Z :=
  foldl (fun greatest epoch => Z.max greatest (default 0 (epoch_number epoch))) 0 (map_keys (sf_orders state)).

(** [count] is the length of lists, so it is a safe integer. *)
Definition orders (account : string) (epoch : option Z) (count : nat) (state : DeliverySafetyState)
  : prog (DeliverySafetyState * list Z) :=
  let key := num_text epoch in
  let first := default 0 (map_get key (sf_orders state)) + 1 in
  let last := first + Z.of_nat count - 1 in
  if (MAX_SAFE_INTEGER <? first) || (negb (count =? 0)%nat && (MAX_SAFE_INTEGER <? last))
  then lift (Throw "the SIMKL settle order is exhausted")
  else if (count =? 0)%nat then ret (state, [])
  else
    let state := mkSafety (map_set key last (sf_orders state)) (sf_removalsSent state) in
    persist account state;;;
    ret (state, (fun i => first + Z.of_nat i) <$> seq 0 count).

Definition reserveRemoval (account : string) (state : DeliverySafetyState) : prog DeliverySafetyState :=
  let* c := call Clocks in
  let state := recent (rd_now c) state in
  let* c := call Clocks in
  let state := mkSafety (sf_orders state) (sf_removalsSent state ++ [rd_now c]) in
  persist account state;;;
  ret state.

(** ** The account's settings *)

Section Delivery.
Context `{NamePolicy, DeliveryApi, DeliveryPolicy}.

Definition value_of (name : string) (row : SettingsRow) : option ConfigValue := map_get name (set_values row) ≫= sv_value.

(** A latch that is no JSON is passed on as it is, which den-core reads as closed. *)
Definition latchSetting (row : SettingsRow) : option json :=
  match value_of "removals" row with
  | Some (CString text) => Some (default (JStr text) (json_read text))
  | _ => None
  end.

(** [undefined] when absent; what is no JSON throws. *)
Definition jsonSetting (row : SettingsRow) (name : string) : res (option json) :=
  match value_of name row with
  | Some (CString text) => match json_read text with Some j => Ok (Some j) | None => Throw "not JSON" end
  | _ => Ok None
  end.

Definition latch_members (removals : option json) : list (string * json) := match removals with Some (JObj l) => l | _ => [] end.
Definition latchText (latch : list (string * json)) : string := json_text (JObj (js_sort (fun a b => if str_ltb a.1 b.1 then -1 else 1) latch)).

Definition stamp_of (j : option json) : option Stamp :=
  match j with
  | Some (JArr [JNum t; JNum c; JStr d]) => match qc_int t, qc_int c with Some t, Some c => Some (mkStamp t c d) | _, _ => None end
  | _ => None
  end.

Definition deliverFacts (row : SettingsRow) (account : string) (since : json) (removals_sent : list Z) : json :=
  JObj [("provider", JStr "simkl"); ("account", JStr account); ("since", since); ("removals", default JNull (latchSetting row));
        ("unverified", JArr (match value_of "unverified" row with Some (CInts l) => jint <$> l | _ => [] end));
        ("removals_sent", JArr (jint <$> removals_sent))].

Definition with_value (name : string) (value : ConfigValue) (at_ : Stamp) (row : SettingsRow) : SettingsRow :=
  mkSettingsRow (set_schema row) (set_name row) (map_set name (mkStamped (Some value) at_) (set_values row)) (set_unknown row).

(** The latch closed where it is not, or earlier (a stored [held] is a stamp, as it is cast to); the epochs replaced
    where they changed. *)
Definition closing_latch (pending : V4Pending) (row : SettingsRow) : option (list (string * json)) :=
  let latch := latch_members (latchSetting row) in
  match pn_removals pending with
  | Some closing =>
      if match jget "held" (JObj latch) with
         | Some (JArr _) => match stamp_of (jget "held" (JObj latch)) with Some stored => compareStamps stored closing <? 0 | None => false end
         | _ => true
         end
      then Some (map_set "held" (stamp_json closing) latch)
      else None
  | None => None
  end.

Definition changed_epochs (pending : V4Pending) (row : SettingsRow) : option (list Z) :=
  match pn_unverified pending with
  | Some unverified =>
      let current := match value_of "unverified" row with Some (CInts l) => l | _ => [] end in
      let epochs := js_sort (fun a b => a - b) unverified in
      if bool_decide (epochs = current) then None else Some epochs
  | None => None
  end.

Definition writeAccountState (name : string) (pending : V4Pending) : prog unit :=
  let* now := call LookLog in
  match settings name (ln_log now) with
  | None => ret tt
  | Some row =>
      call (See (ln_newest now));;;
      let* latched := match closing_latch pending row with
                      | Some latch => let* at_ := call Issue in ret (Some (with_value "removals" (CString (latchText latch)) at_ row))
                      | None => ret None
                      end in
      let values := default row latched in
      let* listed := match changed_epochs pending row with
                     | Some epochs => let* at_ := call Issue in ret (Some (with_value "unverified" (CInts epochs) at_ values))
                     | None => ret latched
                     end in
      match listed with
      | Some changed =>
          let* name := lift (rowName (RSettings row)) in
          let* base := call (SeqOf name) in
          call (WriteAt (RSettings changed) base);;; ret tt
      | None => ret tt
      end
  end.

(** ** Approving held removals *)

(** [name.startsWith('simkl:') && !name.endsWith('.token')] *)
Definition ends_with (suffix s : string) : bool :=
  (String.length suffix <=? String.length s)%nat && String.eqb (str_drop (String.length s - String.length suffix) s) suffix.
Definition names_account (name : string) : bool := starts_with "simkl:" name && negb (ends_with ".token" name).

Definition tracker_values (log : Log) : list (string * Setting) := from_option set_values [] (settings "trackers" log).

Definition simklAccountOf (log : Log) : option string :=
  (fun p => str_drop 6 p.2.1) <$> list_find (fun p => names_account p.1 = true) (tracker_values log).

Record HeldRemovals : Type := mkRemovals { hr_titles : list (string * option Z); hr_approval : option Stamp }.

Definition held_title (command : V4Target) : option (string * option Z) :=
  match jget "removals_held" (tg_members command), jget "title" (tg_members command) with
  | Some (JBool true), Some (JStr title) =>
      let parts := split_on ":"%char title in
      Some (match parts !! 1%nat with Some "tv" => "tv" | _ => "movie" end, parts !! 2%nat ≫= js_Number)
  | _, _ => None
  end.

Definition deliverName (account : string) : string := "deliver:simkl:" +:+ account.
Definition nullish (j : option json) : option json := match j with Some JNull => None | _ => j end.

Definition heldSimklRemovals (log : Log) (now : Z) : res HeldRemovals :=
  if lg_wireMin log <? 4 then Ok (mkRemovals [] None)
  else
    match simklAccountOf log with
    | Some account =>
        if negb (truthy account) then Ok (mkRemovals [] None)
        else
          match settings (deliverName account) log with
          | Some row =>
              let! since := jsonSetting row "since" in
              match since with
              | Some since =>
                  if negb (jtrue (Some since)) then Ok (mkRemovals [] None)
                  else
                    let! pending := policy_pending (held_documents log).*2 (deliverFacts row account since []) now in
                    Ok (mkRemovals (omap held_title (pn_commands pending)) (pn_approval pending))
              | None => Ok (mkRemovals [] None)
              end
          | None => Ok (mkRemovals [] None)
          end
    | None => Ok (mkRemovals [] None)
    end.

Definition approveSimklRemovals (shown : HeldRemovals) : prog bool :=
  let* now := call LookLog in
  match (match simklAccountOf (ln_log now) with
         | Some account => if truthy account then settings (deliverName account) (ln_log now) else None
         | None => None
         end), hr_approval shown with
  | Some row, Some approval =>
      let latch := latch_members (latchSetting row) in
      call (See (ln_newest now));;;
      let* at_ := call Issue in
      let approved := with_value "removals" (CString (latchText (map_set "approved" (stamp_json approval) latch))) at_ row in
      let* name := lift (rowName (RSettings row)) in
      let* base := call (SeqOf name) in
      let* written := call (WriteAt (RSettings approved) base) in
      ret written.1
  | _, _ => ret false
  end.

(** ** A pass over the documents *)

Record V4Pass : Type := mkPass {
  ps_token : string; ps_clientId : string; ps_snapshot : Snapshot; ps_pending : V4Pending;
  ps_stored : jsmap string (Z * DocumentRow); ps_account : string; ps_epoch : option Z; ps_device : string;
}.

Section Pass.
Context (pass : V4Pass).

Definition entry (name key : string) : json :=
  match map_get name (ps_stored pass) with
  | Some (_, document) => default JNull (member_opt key (jget "entries" (JObj (doc_rest document))))
  | None => JNull
  end.

Definition settle (outcome : json) (target : V4Target) (at_ : Z) : res json :=
  policy_settle outcome (tg_built_from target) (ps_epoch pass, at_, ps_device pass) (entry (tg_document target) (tg_key target)).

Definition Writes : Type := jsmap string (list (string * json)).

Definition add (target : V4Target) (settled : json) (writes : Writes) : Writes :=
  match settled with
  | JNull => writes
  | _ => map_set (tg_document target) (default [] (map_get (tg_document target) writes) ++ [(tg_key target, settled)]) writes
  end.

Definition shape (name : string) : Shape :=
  match map_get name (ps_stored pass) with
  | Some (_, document) => Existing document
  | None => let '(media, id, season) := deliveryTitle name in Fresh (ps_account pass) media id season
  end.

Fixpoint settleAll (targets : list (V4Target * Z)) (writes : Writes) : res Writes :=
  match targets with
  | [] => Ok writes
  | (target, at_) :: targets =>
      let! settled := settle (JObj [("action", JStr "acknowledge")]) target at_ in settleAll targets (add target settled writes)
  end.

Definition fit (commands : list (V4Target * Z)) (writes : Writes) (name : string) : res (list (string * string)) :=
  let! sends := res_map (fun '(command, at_) =>
                  let! settled := settle (JObj [("action", JStr "send")]) command at_ in Ok (tg_key command, settled))
                  (filter (fun c => tg_document c.1 = name) commands) in
  let! written := policy_delivery_write (shape name) (default [] (map_get name writes) ++ sends) in
  Ok ((fun key => (name, key)) <$> written.2).

(** The documents' keys that do not fit them with every receipt this pass would write. *)
Definition fullKeys (commands : list (V4Target * Z)) (writes : Writes) : res (list (string * string)) :=
  let! full := res_map (fit commands writes) (set_of ((fun c => tg_document c.1) <$> commands)) in Ok (concat full).

Definition action (outcome : json) : string := match jget "action" outcome with Some (JStr a) => a | _ => "" end.

Definition targetOf (command : V4Target) : Target :=
  let '(media, id, season) := deliveryTitle (tg_document command) in
  mkDelivered media id season
    (if bool_decide (jget "episode" (tg_members command) = Some (JBool true)) then Some (js_Number (tg_key command)) else None).

Definition facts_of (command : V4Target) : json :=
  let target := targetOf command in
  let id := num_text (dt_id target) in
  remoteFacts (ps_snapshot pass)
    (match dt_episode target, dt_season target with
     | Some episode, Some season => episode_identity (dt_media target) id (num_text season) (num_text episode)
     | _, _ => identity (dt_media target) id
     end)
    (identity (dt_media target) id).

Definition removes_listing (command : V4Target) : bool :=
  is_kind "list" command && bool_decide (jget "added" (tg_members command) = Some (JBool false)).

(** The commands one by one; the key of a full document is the text [name#key]. *)
Fixpoint sendAll (full : list string) (commands : list (V4Target * Z)) (state : DeliverySafetyState) (writes : Writes) : prog Writes :=
  match commands with
  | [] => ret writes
  | (command, at_) :: commands =>
      let* current := call Current in
      if negb current then ret writes
      else if bool_decide (tg_document command +:+ "#" +:+ tg_key command ∈ full) then sendAll full commands state writes
      else
        let* outcome := lift (policy_decide command (facts_of command)) in
        if String.eqb (action outcome) "hold" || String.eqb (action outcome) "superseded" then sendAll full commands state writes
        else if String.eqb (action outcome) "send" then
          let* held := call GetHeld in
          let* c := call Clocks in
          if negb (holding held (ps_account pass) c) then ret writes
          else
            let* state := (if removes_listing command then reserveRemoval (ps_account pass) state else ret state) in
            let '(path, body) := request command (targetOf command) in
            let* ok := call (Post (ps_clientId pass) (ps_token pass) path body) in
            if negb ok then sendAll full commands state writes
            else let* settled := lift (settle outcome command at_) in sendAll full commands state (add command settled writes)
        else let* settled := lift (settle outcome command at_) in sendAll full commands state (add command settled writes)
  end.

Fixpoint writeAll (writes : list (string * list (string * json))) : prog unit :=
  match writes with
  | [] => ret tt
  | (name, settles) :: writes =>
      let* current := call Current in
      if negb current then ret tt
      else
        let* written := lift (policy_delivery_write (shape name) settles) in
        call (WriteAt (RDocument written.1) (from_option fst 0 (map_get name (ps_stored pass))));;;
        writeAll writes
  end.

Definition COMMANDS : nat := 100.

Definition deliverV4 (state : DeliverySafetyState) : prog unit :=
  let pendingCommands := take COMMANDS (pn_commands (ps_pending pass)) in
  let settles := pn_settle (ps_pending pass) in
  let* reserved := orders (ps_account pass) (ps_epoch pass) (length settles + length pendingCommands) state in
  let '(state, ats) := reserved in
  let* writes := lift (settleAll (zip settles ats) []) in
  let commands := zip pendingCommands (drop (length settles) ats) in
  let* full := lift (fullKeys commands writes) in
  let* writes := sendAll ((fun p => p.1 +:+ "#" +:+ p.2) <$> full) commands state writes in
  writeAll writes.
End Pass.

(** ** A pass for an account *)

Definition leaseOf (deliver : option SettingsRow) : list string :=
  match deliver ≫= value_of "lease" with Some (CStrings l) => l | _ => [""; "0"] end.
Definition holder_of (lease : list string) : option string := head lease.
Definition epoch_of (lease : list string) : option Z := match lease !! 1%nat with Some text => js_Number text | None => Some 0 end.

Definition is_fresh (now : LogNow) : bool :=
  match lg_generation (ln_log now) with Some generation => negb (bool_decide (ln_observed now = Some generation)) | None => true end.

Definition emptyDeliver (name : string) : SettingsRow := mkSettingsRow 2 name [] [].

(** [Math.max] with [NaN] *)
Definition next_epoch (lease : option Z) (greatest kept : Z) : option Z := (fun e => Z.max (Z.max e greatest) kept + 1) <$> lease.

(** The write of the lease; whether the pass goes on. *)
Definition takeLease (fresh : bool) (account : string) (base : SettingsRow) (device : string) (epoch : option Z) (at_ : Stamp) : prog bool :=
  let leased := with_value "lease" (CStrings [device; num_text epoch]) at_ base in
  let* sent := call Clocks in
  let* current := call Current in
  if negb current then ret false
  else
    let* name := lift (rowName (RSettings leased)) in
    let* base := call (SeqOf name) in
    let* written := call (WriteAt (RSettings leased) base) in
    if negb written.1 then ret false
    else
      call (SetHeld (Some (mkHeldLease account epoch (rd_now sent) (rd_mono sent))));;;
      (if fresh then call (SetObserved (lg_generation (ln_log written.2))) else ret tt);;;
      ret true.

(** Whether the lease may be taken or renewed: the generation and, of another's lease, its row watched long enough. *)
Definition mayTake (device : string) (now : LogNow) (lease : list string) (forGeneration forLease : Z) : res bool :=
  if is_fresh now && (forGeneration <? TEN_MINUTES) then Ok false
  else if bool_decide (holder_of lease = Some device) then Ok true
  else let! decision := policy_lease (mkLeaseInput device (holder_of lease) (epoch_of lease) 0 forLease false) in
       Ok (String.eqb decision "take").

(** What is delivered once the lease is held. *)
Definition deliverHeld (device account token : string) (epoch : option Z) (pending : V4Pending) (documents : list (Z * DocumentRow)) (state : DeliverySafetyState) : prog bool :=
  let* clientId := call ClientId in
  match (match clientId with Some id => if truthy id then Some id else None | None => None end) with
  | None => ret false
  | Some clientId =>
      let* current := call Current in
      if negb current then ret false
      else
        let* body := call (AllItems clientId token) in
        match body with
        | None => ret false
        | Some body =>
            let* current := call Current in
            if negb current then ret false
            else
              let* snapshot := lift (collectSnapshot body) in
              let* current := call Current in
              if negb current then ret false
              else
                let* names := lift (res_map (fun p => let! name := rowName (RDocument p.2) in Ok (name, p)) documents) in
                deliverV4 (mkPass token clientId snapshot pending (map_of names) account epoch device) state;;;
                ret true
        end
  end.

Definition deliverAccount (device : string) (elapsed : Z) (account token : string) : prog bool :=
  let* current := call Current in
  if negb current then ret false
  else
    let name := deliverName account in
    let* now := call LookLog in
    let deliver := settings name (ln_log now) in
    let base := default (emptyDeliver name) deliver in
    let lease := leaseOf deliver in
    let* rowname := lift (rowName (RSettings base)) in
    let* watch := call GetWatch in
    let* held := call GetHeld in
    let '(watch, held, (forGeneration, forLease)) := observe (lg_generation (ln_log now)) account (seqOf rowname (ln_log now)) elapsed watch held in
    call (SetWatch watch);;;
    call (SetHeld held);;;
    let* may := lift (mayTake device now lease forGeneration forLease) in
    if negb may then ret false
    else
      call (See (ln_newest now));;;
      let* at_ := call Issue in
      let* given := lift (jsonSetting base "since") in
      let since := default (stamp_json at_) (nullish given) in
      let* kept := call (Kept (safetyName account)) in
      let state := safetyState kept in
      let* documents := call Documents in
      let* c := call Clocks in
      let sent := removalsSent (rd_now c) state in
      let greatest := greatestEpoch state in
      let state := recent (rd_now c) state in
      let* c := call Clocks in
      let* pending := lift (policy_pending documents.*2 (deliverFacts base account since sent) (rd_now c)) in
      let* kept := call GetHeld in
      let* c := call Clocks in
      let locallyHeld := bool_decide (holder_of lease = Some device) && holding kept account c in
      let epoch := match kept with
                   | Some kept => if locallyHeld then hl_epoch kept else next_epoch (epoch_of lease) (pn_greatest_epoch pending) greatest
                   | None => next_epoch (epoch_of lease) (pn_greatest_epoch pending) greatest
                   end in
      let* c := call Clocks in
      let* taken := (if match kept with
                        | Some kept => negb locallyHeld || (HOLD / 2 <=? Z.max (rd_now c - hl_at kept) (rd_mono c - hl_mono kept))
                        | None => true
                        end
                     then takeLease (is_fresh now) account base device epoch at_
                     else ret true) in
      if negb taken then ret false
      else
        let* current := call Current in
        if negb current then ret false
        else
          writeAccountState name pending;;;
          let* current := call Current in
          if negb current then ret false
          else deliverHeld device account token epoch pending documents state.

(** The connection a pass delivers to, and its token. *)
Definition connection (log : Log) : option (string * string) :=
  match list_find (fun p => names_account p.1 && match sv_value p.2 with Some (CString _) => true | _ => false end = true) (tracker_values log) with
  | Some (_, (name, v)) => match sv_value v with Some (CString text) => Some (str_drop 6 name, text) | _ => None end
  | None => None
  end.

(** [JSON.parse(text).access_token], as the text the request's header makes of it; [null] and what is no JSON throw. *)
Definition access_token (text : string) : option string :=
  match json_read text with
  | Some JNull | None => None
  | Some j => Some (match jget "access_token" j with Some (JStr token) => token | Some other => js_String other | None => "undefined" end)
  end.

Definition deliverSimklWithClock (device : string) (start : Reading) : prog bool :=
  let* c := call Clocks in
  let elapsed := pageElapsed start c in
  let* current := call Current in
  if negb current then ret false
  else
    let* now := call LookLog in
    match connection (ln_log now) with
    | None => ret false
    | Some (account, text) =>
        if (4 <=? lg_wireMin (ln_log now)) && (negb (bool_decide (lg_unreadable (ln_log now) = [])) || negb (bool_decide (lg_newerFraming (ln_log now) = [])))
        then ret false
        else
          match access_token text with
          | None => ret false
          | Some token =>
              call LoadPolicy;;;
              call (Exclusive ("den.simkl." +:+ account));;;
              deliverAccount device elapsed account token
          end
    end.
End Delivery.
