(* ===== verification/DeliverySafety.v ===== *)
(** * What a delivery reserves

    Settle orders and removals are kept in this browser before they are used ([deliverySafety]). Over every history of
    passes, with storage failing and the browser dying anywhere: no order is given twice, and each is kept before it is
    given ([orders_once]); a value that could not be read gives orders again ([orders_again]). *)

From S2P Require Import Prelude JsMap JsText Json Wire LibraryV4 LogState Delivery.
Open Scope Z_scope.

(** ** What is kept of a state *)

Definition good_order (p : string * Z) : Prop := is_Some (epoch_number p.1) /\ 0 <= p.2 <= MAX_SAFE_INTEGER.
#[global] Instance good_order_dec p : Decision (good_order p).
Proof. apply _. Defined.

Lemma safe_count_jint z : safe_count (jint z) = if (0 <=? z) && (z <=? MAX_SAFE_INTEGER) then Some z else None.
Proof. unfold safe_count, jint. by rewrite qc_int_inject. Qed.

Lemma decode_order_jint epoch order : decode_order (epoch, jint order) = if decide (good_order (epoch, order)) then Some (epoch, order) else None.
Proof.
  unfold decode_order. cbn [fst snd]. rewrite safe_count_jint. destruct (decide _) as [[[z Hz] [H1 H2]]|Hg]; cbn [fst snd] in *.
  - by rewrite Hz, (proj2 (Z.leb_le _ _) H1), (proj2 (Z.leb_le _ _) H2).
  - destruct (epoch_number epoch) eqn:Ee; [|done]. destruct (Z.leb_spec 0 order); [|done]. destruct (Z.leb_spec order MAX_SAFE_INTEGER); [|done].
    exfalso. apply Hg. split; [cbn [fst]; rewrite Ee; eauto|done].
Qed.

Lemma decode_orders (l : list (string * Z)) : omap decode_order ((fun p => (p.1, jint p.2)) <$> l) = filter good_order l.
Proof.
  induction l as [|[epoch order] l IH]; [done|]. rewrite fmap_cons, filter_cons, <- IH. cbn [fst snd].
  transitivity (match decode_order (epoch, jint order) with Some y => y :: omap decode_order ((fun p => (p.1, jint p.2)) <$> l)
                | None => omap decode_order ((fun p => (p.1, jint p.2)) <$> l) end); [done|].
  rewrite decode_order_jint. by destruct (decide _).
Qed.

Lemma orders_kept state : map_wf (sf_orders state) -> sf_orders (safetyState (Some (safety_json state))) = filter good_order (sf_orders state).
Proof.
  intros Hwf. change (sf_orders (safetyState (Some (safety_json state)))) with (map_of (omap decode_order ((fun p => (p.1, jint p.2)) <$> sf_orders state))).
  rewrite decode_orders. apply map_of_NoDup. by apply map_wf_filter.
Qed.

Lemma safetyState_wf v : map_wf (sf_orders (safetyState v)).
Proof. unfold safetyState. cbn. destruct (jget "orders" _) as [[]|]; apply map_wf_of || apply map_wf_nil. Qed.

(** The last order kept for an epoch. *)
Definition last_order (epoch : string) (state : DeliverySafetyState) : Z := default 0 (map_get epoch (sf_orders state)).

(** ** Histories *)

Section Histories.
(** Whether reading what was kept always finds it. *)
Context (reads : bool) (account : string).

(** Keeping stores the value or, where it fails or where this browser keeps nothing, stores nothing. *)
Definition kept_answer (op : Eff) (v : option json) : res (answer op) -> option json -> Prop :=
  match op return res (answer op) -> option json -> Prop with
  | Kept _ => fun r v' => v' = v /\ (r = Ok v \/ reads = false /\ r = Ok None)
  | Keep _ value => fun _ v' => v' = Some value \/ v' = v
  | _ => fun _ v' => v' = v
  end.

(** A program runs to its end, or the browser dies. *)
Inductive kept_runs {A} : prog A -> option json -> option (res A) -> option json -> Prop :=
| kept_ret r v : kept_runs (Ret r) v (Some r) v
| kept_dies m v : kept_runs m v None v
| kept_call op c v r v1 o v' : kept_answer op v r v1 -> kept_runs (c r) v1 o v' -> kept_runs (Call op c) v o v'.

(** The orders given so far, each with the text of its epoch, and the state of the pass under way. *)
Record Ledger : Type := mkLedger { ld_kept : option json; ld_given : list (string * Z); ld_state : option DeliverySafetyState }.

Inductive ledger_step (l : Ledger) : Ledger -> Prop :=
| ledger_open v : ld_kept l = v \/ reads = false /\ v = None ->
    ledger_step l (mkLedger (ld_kept l) (ld_given l) (Some (safetyState v)))
| ledger_recent state now : ld_state l = Some state -> ledger_step l (mkLedger (ld_kept l) (ld_given l) (Some (recent now state)))
| ledger_orders state epoch count state' ats v : ld_state l = Some state ->
    kept_runs (orders account epoch count state) (ld_kept l) (Some (Ok (state', ats))) v ->
    ledger_step l (mkLedger v (ld_given l ++ ((fun n => (num_text epoch, n)) <$> ats)) (Some state'))
| ledger_removal state state' v : ld_state l = Some state ->
    kept_runs (reserveRemoval account state) (ld_kept l) (Some (Ok state')) v ->
    ledger_step l (mkLedger v (ld_given l) (Some state'))
| ledger_orders_fail state epoch count o v : ld_state l = Some state ->
    kept_runs (orders account epoch count state) (ld_kept l) o v -> ledger_step l (mkLedger v (ld_given l) None)
| ledger_removal_fail state o v : ld_state l = Some state ->
    kept_runs (reserveRemoval account state) (ld_kept l) o v -> ledger_step l (mkLedger v (ld_given l) None).

Definition ledger (l : Ledger) : Prop := exists v, rtc ledger_step (mkLedger v [] None) l.
End Histories.

(** ** No order twice *)

Fixpoint kwp {A} (m : prog A) (Q : option (res A) -> option json -> Prop) (v : option json) : Prop :=
  Q None v /\
  match m with Ret r => Q (Some r) v | Call op c => forall r v1, kept_answer true op v r v1 -> kwp (c r) Q v1 end.

Lemma kwp_runs {A} (m : prog A) Q v o v' : kept_runs true m v o v' -> kwp m Q v -> Q o v'.
Proof. induction 1 as [r v|m v|op c v r v1 o v' Ha _ IH]; [by intros []|by destruct m; intros []|]. intros [_ Hc]. apply IH. by apply Hc. Qed.

Lemma kwp_bind {A B} (m : prog A) (f : A -> prog B) Q v :
  kwp m (fun o v => match o with Some (Ok a) => kwp (f a) Q v | Some (Throw e) => Q (Some (Throw e)) v | None => Q None v end) v ->
  (forall a v, kwp (f a) Q v -> Q None v) -> kwp (prog_bind m f) Q v.
Proof.
  intros Hm HQ. revert v Hm. induction m as [[a|e]|op c IH]; intros v [H1 H2]; cbn.
  - exact H2.
  - auto.
  - split; [done|]. intros r v1 Ha. apply IH. by apply H2.
Qed.

Lemma kwp_none {A} (m : prog A) Q v : kwp m Q v -> Q None v.
Proof. by destruct m; intros []. Qed.

(** The reservation is what was kept before, or the new state; after it is kept, the new state. *)
Lemma kwp_persist account state v (Q : option (res unit) -> option json -> Prop) :
  (forall o, o <> Some (Ok tt) -> Q o v) -> (forall o, o <> Some (Ok tt) -> Q o (Some (safety_json state))) ->
  (forall w, safetyState w = state -> w = Some (safety_json state) \/ w = v -> Q (Some (Ok tt)) w) -> kwp (persist account state) Q v.
Proof.
  intros H1 H2 H3. split; [by apply H1|]. intros r v1 Hv1.
  assert (Ho : forall o, o <> Some (Ok tt) -> Q o v1) by (destruct Hv1 as [->| ->]; [exact H2|exact H1]). clear H1 H2.
  destruct r as [u|e]; [|by cbn; split; apply Ho]. cbn. split; [by apply Ho|]. intros r v2 [-> [->|[? _]]]; [|done].
  cbn -[safetyState]. destruct (decide _) as [He|]; [|by cbn; split; apply Ho]. cbn. split; [by apply Ho|]. by apply H3.
Qed.

Lemma kwp_call {A} op (f : answer op -> prog A) Q v :
  Q None v -> (forall r v1, kept_answer true op v r v1 -> match r with Ok a => kwp (f a) Q v1 | Throw e => Q (Some (Throw e)) v1 /\ Q None v1 end) ->
  kwp (prog_bind (call op) f) Q v.
Proof. intros H1 H2. split; [done|]. intros r v1 Ha. specialize (H2 r v1 Ha). destruct r; cbn; [done|]. tauto. Qed.

Section Once.
Context (account : string).

Definition after_orders (epoch : option Z) (count : nat) (state : DeliverySafetyState) : DeliverySafetyState :=
  mkSafety (map_set (num_text epoch) (last_order (num_text epoch) state + Z.of_nat count) (sf_orders state)) (sf_removalsSent state).

Lemma kwp_orders epoch count state v (Q : option (res (DeliverySafetyState * list Z)) -> option json -> Prop) :
  (forall o, (forall p, o <> Some (Ok p)) -> Q o v) ->
  (forall o, (forall p, o <> Some (Ok p)) -> last_order (num_text epoch) state + Z.of_nat count <= MAX_SAFE_INTEGER -> Q o (Some (safety_json (after_orders epoch count state)))) ->
  (count = 0%nat -> Q (Some (Ok (state, []))) v) ->
  (forall w, safetyState w = after_orders epoch count state ->
     Q (Some (Ok (after_orders epoch count state, (fun i => last_order (num_text epoch) state + 1 + Z.of_nat i) <$> seq 0 count))) w) ->
  kwp (orders account epoch count state) Q v.
Proof.
  intros H1 H2 H3 H4. unfold orders. fold (last_order (num_text epoch) state).
  destruct (Z.ltb_spec MAX_SAFE_INTEGER (last_order (num_text epoch) state + 1)); cbn [orb]; [by split; apply H1|].
  destruct (count =? 0)%nat eqn:Ec; cbn [negb andb].
  { apply Nat.eqb_eq in Ec. split; [by apply H1|by apply H3]. }
  destruct (Z.ltb_spec MAX_SAFE_INTEGER (last_order (num_text epoch) state + 1 + Z.of_nat count - 1)); cbn [lift]; [by split; apply H1|].
  set (state' := mkSafety _ _). assert (Hs : state' = after_orders epoch count state) by (unfold state', after_orders; do 2 f_equal; lia).
  rewrite Hs. apply kwp_bind; [|intros a w; apply kwp_none]. apply kwp_persist.
  - intros [[u|e]|] Hne; [by destruct u|by apply H1..].
  - intros [[u|e]|] Hne; [by destruct u|by apply H2; [|lia]..].
  - intros w Hw Hor. split; [|by apply H4]. cbn. destruct Hor as [->| ->]; [apply H2; [done|lia]|by apply H1].
Qed.

Lemma kwp_removal state v (Q : option (res DeliverySafetyState) -> option json -> Prop) :
  (forall o, (forall p, o <> Some (Ok p)) -> Q o v) ->
  (forall o sent, (forall p, o <> Some (Ok p)) -> Q o (Some (safety_json (mkSafety (sf_orders state) sent)))) ->
  (forall w sent, safetyState w = mkSafety (sf_orders state) sent ->
     Q (Some (Ok (mkSafety (sf_orders state) sent))) w) ->
  kwp (reserveRemoval account state) Q v.
Proof.
  intros H1 H2 H3. unfold reserveRemoval. apply kwp_call; [by apply H1|]. intros [c|e] v1 ->; [|by split; apply H1].
  apply kwp_call; [by apply H1|]. intros [c'|e] v1 ->; [|by split; apply H1]. apply kwp_bind; [|intros a w; apply kwp_none].
  apply kwp_persist.
  - intros [[u|e]|] Hne; [by destruct u|by apply H1..].
  - intros [[u|e]|] Hne; [by destruct u|by apply H2..].
  - intros w Hw Hor. split; [|by apply H3]. cbn. destruct Hor as [->| ->]; [by apply H2|by apply H1].
Qed.

(** Every order given is kept, none is given twice, and the pass under way goes on from what is kept. *)
Record ledger_ok (l : Ledger) : Prop := {
  lo_kept : forall epoch n, (epoch, n) ∈ ld_given l -> 0 < n <= last_order epoch (safetyState (ld_kept l));
  lo_once : NoDup (ld_given l);
  lo_state : forall state, ld_state l = Some state -> sf_orders state = sf_orders (safetyState (ld_kept l));
}.

(** Keeping more orders keeps those that were. *)
Lemma kept_more state state' epoch :
  map_wf (sf_orders state') -> (forall p, p ∈ sf_orders state -> good_order p) ->
  (forall e, is_Some (map_get e (sf_orders state)) -> is_Some (map_get e (sf_orders state')) /\ last_order e state <= last_order e state' <= MAX_SAFE_INTEGER) ->
  last_order epoch state <= last_order epoch (safetyState (Some (safety_json state'))).
Proof.
  intros Hwf Hgood Hmore. unfold last_order. rewrite orders_kept by done. destruct (map_get epoch (sf_orders state)) as [n|] eqn:En; cbn.
  - destruct (Hmore epoch) as [[m Hm] [Hle Hmax]]; [by rewrite En|]. unfold last_order in Hle, Hmax. rewrite En, Hm in *. cbn in *.
    destruct (Hgood _ (map_get_elem _ _ _ En)) as [Hep Hn]. cbn in *.
    assert (Hin : (epoch, m) ∈ filter good_order (sf_orders state')) by (apply list_elem_of_filter; split; [by split; [|cbn; lia]|by apply map_get_elem]).
    apply map_elem_get in Hin; [|by apply map_wf_filter]. by rewrite Hin.
  - destruct (map_get epoch (filter _ _)) as [m|] eqn:Em; [|done]. apply map_get_elem, list_elem_of_filter in Em as [[_ Hm] _]. cbn in *. lia.
Qed.

Lemma safetyState_good v p : p ∈ sf_orders (safetyState v) -> good_order p.
Proof.
  unfold safetyState. cbn. destruct (jget "orders" _) as [[]|]; try (intros Hp; by apply not_elem_of_nil in Hp).
  intros Hp%elem_of_map_of. apply list_elem_of_omap in Hp as ([e j] & _ & Hj). unfold decode_order in Hj. cbn [fst snd] in Hj. destruct (epoch_number e) as [z|] eqn:Ee; [|done].
  destruct (safe_count j) as [n|] eqn:En; [|done]. injection Hj as <-. split; [cbn; rewrite Ee; eauto|]. cbn. unfold safe_count in En.
  destruct j; try done. destruct (qc_int q) as [z'|]; [|done]. destruct (Z.leb_spec 0 z'), (Z.leb_spec z' MAX_SAFE_INTEGER); cbn in En; try done. injection En as <-. lia.
Qed.
Lemma last_after epoch count state e :
  last_order e (after_orders epoch count state) = if decide (e = num_text epoch) then last_order e state + Z.of_nat count else last_order e state.
Proof. unfold last_order, after_orders. cbn [sf_orders]. rewrite map_get_set. destruct (decide _) as [->|]; done. Qed.

Lemma last_good v e : 0 <= last_order e (safetyState v) <= MAX_SAFE_INTEGER.
Proof.
  unfold last_order. destruct (map_get e _) as [n|] eqn:En; [|done]. apply map_get_elem, safetyState_good in En as [_ H1]. exact H1.
Qed.

Lemma last_same e s s' : sf_orders s = sf_orders s' -> last_order e s = last_order e s'.
Proof. unfold last_order. by intros ->. Qed.

(** A failed reservation keeps what was kept. *)
Lemma fail_orders epoch count state v o v' e :
  sf_orders state = sf_orders (safetyState v) -> kept_runs true (orders account epoch count state) v o v' ->
  last_order e (safetyState v) <= last_order e (safetyState v').
Proof.
  intros Hs Hr. pose proof (safetyState_wf v) as Hwf.
  assert (Hmore : last_order (num_text epoch) state + Z.of_nat count <= MAX_SAFE_INTEGER ->
    last_order e (safetyState v) <= last_order e (safetyState (Some (safety_json (after_orders epoch count state))))).
  { intros Hmax. apply kept_more; [cbn; rewrite Hs; by apply map_wf_set|apply safetyState_good|]. intros e' He. split.
    - cbn. rewrite map_get_set, Hs. destruct (decide _); eauto.
    - rewrite last_after, (last_same e' state (safetyState v)) by done. pose proof (last_good v e').
      destruct (decide (e' = num_text epoch)) as [->|]; [|lia]. rewrite (last_same _ state (safetyState v)) in Hmax by done. lia. }
  refine (kwp_runs _ (fun _ v' => last_order e (safetyState v) <= last_order e (safetyState v')) _ _ _ Hr _). apply kwp_orders.
  - intros; lia.
  - intros o' _ Hmax. by apply Hmore.
  - intros; lia.
  - intros w Hw. rewrite Hw, last_after, (last_same e state (safetyState v)) by done. destruct (decide _); lia.
Qed.

Lemma fail_removal state v o v' e :
  sf_orders state = sf_orders (safetyState v) -> kept_runs true (reserveRemoval account state) v o v' ->
  last_order e (safetyState v) <= last_order e (safetyState v').
Proof.
  intros Hs Hr. refine (kwp_runs _ (fun _ v' => last_order e (safetyState v) <= last_order e (safetyState v')) _ _ _ Hr _).
  assert (Hmore : forall sent, last_order e (safetyState v) <= last_order e (safetyState (Some (safety_json (mkSafety (sf_orders state) sent))))).
  { intros sent. apply kept_more; [cbn; rewrite Hs; apply safetyState_wf|apply safetyState_good|]. intros e' He. split; [cbn; by rewrite Hs|].
    rewrite (last_same e' (mkSafety _ sent) (safetyState v)) by (cbn; by rewrite Hs). pose proof (last_good v e'). lia. }
  apply kwp_removal; [intros; lia|auto|]. intros w sent Hw. rewrite Hw. by rewrite (last_same e (mkSafety _ sent) (safetyState v)).
Qed.

Lemma given_orders epoch count state v state' ats v' :
  kept_runs true (orders account epoch count state) v (Some (Ok (state', ats))) v' ->
  (state' = state /\ ats = [] /\ v' = v) \/
  (state' = after_orders epoch count state /\ safetyState v' = state' /\ ats = (fun i => last_order (num_text epoch) state + 1 + Z.of_nat i) <$> seq 0 count).
Proof.
  intros Hr. refine (kwp_runs _ (fun o v' => forall state' ats, o = Some (Ok (state', ats)) -> (state' = state /\ ats = [] /\ v' = v) \/
    (state' = after_orders epoch count state /\ safetyState v' = state' /\ ats = (fun i => last_order (num_text epoch) state + 1 + Z.of_nat i) <$> seq 0 count))
    _ _ _ Hr _ _ _ eq_refl). apply kwp_orders.
  - intros o Hno s' a ->. by destruct (Hno (s', a)).
  - intros o Hno _ s' a ->. by destruct (Hno (s', a)).
  - intros _ s' a [= <- <-]. by left.
  - intros w Hw s' a [= <- <-]. by right.
Qed.

Lemma given_removal state v state' v' :
  kept_runs true (reserveRemoval account state) v (Some (Ok state')) v' -> sf_orders state' = sf_orders state /\ safetyState v' = state'.
Proof.
  intros Hr. refine (kwp_runs _ (fun o v' => forall state', o = Some (Ok state') -> sf_orders state' = sf_orders state /\ safetyState v' = state') _ _ _ Hr _ _ eq_refl).
  apply kwp_removal.
  - intros o Hno s' ->. by destruct (Hno s').
  - intros o sent Hno s' ->. by destruct (Hno s').
  - intros w sent Hw s' [= <-]. done.
Qed.

Lemma ledger_step_ok l l' : ledger_ok l -> ledger_step true account l l' -> ledger_ok l'.
Proof.
  intros [Hkept Honce Hstate] Hs. destruct Hs as [v Hv|state now Hst|state epoch count state' ats v Hst Hr|state state' v Hst Hr|state epoch count o v Hst Hr|state o v Hst Hr].
  - destruct Hv as [<-|[? _]]; [|done]. split; [exact Hkept|exact Honce|]. cbn. by intros state [= <-].
  - split; [exact Hkept|exact Honce|]. cbn. intros s [= <-]. exact (Hstate _ Hst).
  - pose proof (Hstate _ Hst) as Ho. destruct (given_orders _ _ _ _ _ _ _ Hr) as [(-> & -> & ->)|(-> & Hv & ->)].
    { cbn. rewrite app_nil_r. split; [exact Hkept|exact Honce|]. cbn. by intros s [= <-]. }
    assert (Hlast : forall e, last_order e state = last_order e (safetyState (ld_kept l))) by (intros; by apply last_same). split; cbn [ld_given ld_kept ld_state].
    + intros e n. rewrite Hv, last_after. intros [Hin|Hin]%elem_of_app.
      * specialize (Hkept e n Hin). rewrite <- Hlast in Hkept. destruct (decide _); lia.
      * apply list_elem_of_fmap in Hin as (m & [= -> ->] & Hm). apply list_elem_of_fmap in Hm as (i & -> & Hi%elem_of_seq).
        rewrite decide_True by done. rewrite Hlast. pose proof (last_good (ld_kept l) (num_text epoch)). lia.
    + apply NoDup_app. split_and!; [done| |].
      * intros [e n] Hin Hin'. specialize (Hkept e n Hin). apply list_elem_of_fmap in Hin' as (m & [= -> ->] & Hm).
        apply list_elem_of_fmap in Hm as (i & -> & _). rewrite <- Hlast in Hkept. lia.
      * apply NoDup_fmap_2; [by intros x y [= ->]|]. apply NoDup_fmap_2; [intros x y; lia|apply NoDup_seq].
    + intros s [= <-]. by rewrite Hv.
  - pose proof (Hstate _ Hst) as Ho. pose proof (fun e => fail_removal state _ _ _ e Ho Hr) as Hmono. destruct (given_removal _ _ _ _ Hr) as [Hs Hv].
    split; cbn [ld_given ld_kept ld_state]; [|done|intros s [= <-]; by rewrite Hv]. intros e n Hin. specialize (Hkept e n Hin). specialize (Hmono e). lia.
  - pose proof (Hstate _ Hst) as Ho. pose proof (fun e => fail_orders epoch count state _ _ _ e Ho Hr) as Hmono.
    split; cbn [ld_given ld_kept ld_state]; [|done|done]. intros e n Hin. specialize (Hkept e n Hin). specialize (Hmono e). lia.
  - pose proof (Hstate _ Hst) as Ho. pose proof (fun e => fail_removal state _ _ _ e Ho Hr) as Hmono.
    split; cbn [ld_given ld_kept ld_state]; [|done|done]. intros e n Hin. specialize (Hkept e n Hin). specialize (Hmono e). lia.
Qed.

Lemma ledger_reach_ok l : ledger true account l -> ledger_ok l.
Proof.
  intros [v Hr]. assert (H0 : ledger_ok (mkLedger v [] None)) by (split; cbn; [set_solver|constructor|done]).
  revert H0. induction Hr as [l|l1 l2 l3 Hs _ IH]; [done|]. intros H1. apply IH. by eapply ledger_step_ok.
Qed.
End Once.

(** C18: no settle order is given twice, and each is kept before it is given. Over every history of an account's passes in
    one browser, whatever fails to be kept and wherever the browser dies, as long as what is kept can be read. *)
Theorem orders_once account l :
  ledger true account l ->
  NoDup (ld_given l) /\ forall epoch n, (epoch, n) ∈ ld_given l -> 0 < n <= last_order epoch (safetyState (ld_kept l)).
Proof. intros Hl. destruct (ledger_reach_ok account l Hl) as [Hkept Honce _]. by split. Qed.

(** ** Examples *)

(** A pass that reserves two orders of epoch 2, and the next that reserves one more. *)
Definition first_kept : DeliverySafetyState := mkSafety [("2", 2)] [].
Definition second_kept : DeliverySafetyState := mkSafety [("2", 3)] [].

Lemma orders_runs reads account epoch count state :
  safetyState (Some (safety_json (after_orders epoch count state))) = after_orders epoch count state -> (0 < count)%nat ->
  last_order (num_text epoch) state + Z.of_nat count <= MAX_SAFE_INTEGER -> 0 <= last_order (num_text epoch) state -> forall v,
  kept_runs reads (orders account epoch count state) v
    (Some (Ok (after_orders epoch count state, (fun i => last_order (num_text epoch) state + 1 + Z.of_nat i) <$> seq 0 count)))
    (Some (safety_json (after_orders epoch count state))).
Proof.
  intros Hs Hc Hmax Hn v. unfold orders. fold (last_order (num_text epoch) state).
  rewrite (proj2 (Z.ltb_ge _ _)) by lia. rewrite (proj2 (Nat.eqb_neq count 0)) by lia. rewrite (proj2 (Z.ltb_ge _ _)) by lia. cbn [orb negb andb].
  replace (last_order (num_text epoch) state + 1 + Z.of_nat count - 1) with (last_order (num_text epoch) state + Z.of_nat count) by lia.
  fold (after_orders epoch count state). set (state' := after_orders epoch count state) in *.
  unfold persist, call. cbn [prog_bind].
  eapply (kept_call reads (Keep _ _) _ _ (Ok tt) (Some (safety_json state'))); [by left|].
  eapply (kept_call reads (Kept _) _ _ (Ok (Some (safety_json state')))); [by split; [|left]|]. cbn -[safetyState].
  rewrite decide_True by done. constructor.
Qed.

Lemma orders_once_witness :
  ledger true "7" (mkLedger (Some (safety_json second_kept)) [("2", 1); ("2", 2); ("2", 3)] (Some second_kept)) /\ NoDup [("2", 1); ("2", 2); ("2", 3)].
Proof.
  assert (Hl : ledger true "7" (mkLedger (Some (safety_json second_kept)) [("2", 1); ("2", 2); ("2", 3)] (Some second_kept))).
  { exists None. eapply rtc_l; [by apply (ledger_open true "7" _ None); left|].
    eapply rtc_l; [apply (ledger_orders true "7" _ (mkSafety [] []) (Some 2) 2 first_kept [1; 2] (Some (safety_json first_kept))); [done|]|].
    { apply (orders_runs true "7" (Some 2) 2 (mkSafety [] [])); [by vm_compute|lia|by vm_compute|by vm_compute]. }
    eapply rtc_l; [apply (ledger_open true "7" _ (Some (safety_json first_kept))); by left|].
    eapply rtc_l; [apply (ledger_orders true "7" _ first_kept (Some 2) 1 second_kept [3] (Some (safety_json second_kept))); [by vm_compute|]|].
    { apply (orders_runs true "7" (Some 2) 1 first_kept); [by vm_compute|lia|by vm_compute|by vm_compute]. }
    cbn -[safety_json]. reflexivity. }
  split; [exact Hl|]. exact (proj1 (orders_once "7" _ Hl)).
Defined.

(** Where what was kept could not be read, an order is given again. *)
Example orders_again :
  exists l, ledger false "7" l /\ ld_given l = [("2", 1); ("2", 2); ("2", 1)].
Proof.
  exists (mkLedger (Some (safety_json (mkSafety [("2", 1)] []))) [("2", 1); ("2", 2); ("2", 1)] (Some (mkSafety [("2", 1)] []))). split; [|done].
  exists None. eapply rtc_l; [by apply (ledger_open false "7" _ None); left|].
  eapply rtc_l; [apply (ledger_orders false "7" _ (mkSafety [] []) (Some 2) 2 first_kept [1; 2] (Some (safety_json first_kept))); [done|]|].
  { apply (orders_runs false "7" (Some 2) 2 (mkSafety [] [])); [by vm_compute|lia|by vm_compute|by vm_compute]. }
  eapply rtc_l; [apply (ledger_open false "7" _ None); by right|].
  eapply rtc_l; [apply (ledger_orders false "7" _ (mkSafety [] []) (Some 2) 1 (mkSafety [("2", 1)] []) [1] (Some (safety_json (mkSafety [("2", 1)] [])))); [by vm_compute|]|].
  { apply (orders_runs false "7" (Some 2) 1 (mkSafety [] [])); [by vm_compute|lia|by vm_compute|by vm_compute]. }
  cbn -[safety_json]. reflexivity.
Qed.
