(* ===== verification/Lease.v ===== *)
(** * The delivery lease among devices

    Any number of pages of any number of devices run the passes of Delivery against one library, whose [deliver] row
    den-edge keeps under a sequence number and takes by compare-and-set; the library may be restored to an earlier state
    under a new generation at any time. The pages' clocks are functions of real time. This file is that world, and what
    keeps two devices from holding the lease at once. *)

From S2P Require Import Prelude JsMap JsText Json Wire LibraryV4 ProfileKeys ResetJournal LogState Log Delivery.
Open Scope Z_scope.

(** ** The world *)

(** The [deliver] row on den-edge: its generation and those before it, its sequence number and the device its lease
    names ([""] for none); when, in real time, the generation began and the row was written. *)
Record Edge : Type := mkRowEdge {
  le_generation : string; le_past : list string; le_seq : Z; le_holder : string; le_born : Z; le_put : Z;
}.
Definition generations (e : Edge) : list string := le_generation e :: le_past e.

(** The real time, den-edge's row, and every lease taken: by which device, and when its request was sent. *)
Record Sky : Type := mkSky { sk_now : Z; sk_edge : Edge; sk_claims : list (string * Z) }.

(** A page. [pg_called], [pg_read], [pg_sent] and [pg_asked] are history: when the pass was asked for, the generation and
    sequence number of the row when the pass last read it, when it read the clocks since, and at which moments it read
    them since it last looked at the lease it holds. *)
Record Tab : Type := mkTab {
  pg_device : string;
  pg_start : Reading;
  pg_log : Log;
  pg_observed : option string;
  pg_watch : option Watch;
  pg_held : option HeldLease;
  pg_called : Z;
  pg_read : option string * Z;
  pg_sent : option Z;
  pg_asked : list Z;
}.
Record World : Type := mkWorld { w_sky : Sky; w_tabs : list (Tab * prog bool) }.

Definition put_log (x : Log) (p : Tab) : Tab :=
  mkTab (pg_device p) (pg_start p) x (pg_observed p) (pg_watch p) (pg_held p) (pg_called p) (pg_read p) (pg_sent p) (pg_asked p).
Definition put_observed (x : option string) (p : Tab) : Tab :=
  mkTab (pg_device p) (pg_start p) (pg_log p) x (pg_watch p) (pg_held p) (pg_called p) (pg_read p) (pg_sent p) (pg_asked p).
Definition put_watch (x : option Watch) (p : Tab) : Tab :=
  mkTab (pg_device p) (pg_start p) (pg_log p) (pg_observed p) x (pg_held p) (pg_called p) (pg_read p) (pg_sent p) (pg_asked p).
Definition put_held (x : option HeldLease) (p : Tab) : Tab :=
  mkTab (pg_device p) (pg_start p) (pg_log p) (pg_observed p) (pg_watch p) x (pg_called p) (pg_read p) (pg_sent p) (pg_asked p).
Definition put_called (x : Z) (p : Tab) : Tab :=
  mkTab (pg_device p) (pg_start p) (pg_log p) (pg_observed p) (pg_watch p) (pg_held p) x (pg_read p) (pg_sent p) (pg_asked p).
Definition put_read (x : option string * Z) (p : Tab) : Tab :=
  mkTab (pg_device p) (pg_start p) (pg_log p) (pg_observed p) (pg_watch p) (pg_held p) (pg_called p) x None (pg_asked p).
Definition put_sent (x : option Z) (p : Tab) : Tab :=
  mkTab (pg_device p) (pg_start p) (pg_log p) (pg_observed p) (pg_watch p) (pg_held p) (pg_called p) (pg_read p) x (pg_asked p).
Definition put_asked (x : list Z) (p : Tab) : Tab :=
  mkTab (pg_device p) (pg_start p) (pg_log p) (pg_observed p) (pg_watch p) (pg_held p) (pg_called p) (pg_read p) (pg_sent p) x.
Definition put_clock (now : Z) (p : Tab) : Tab := put_asked (pg_asked p ++ [now]) (put_sent (Some now) p).

(** What is assumed of den-core: another's lease is taken only once its row has been watched for ten minutes. *)
Class LeaseLaws `{DeliveryPolicy} : Prop :=
  lease_take : forall input, policy_lease input = Ok "take" -> default "" (li_holder input) = "" \/ TEN_MINUTES <= li_observed input.

(** What is assumed of the clocks: a lease held on a page's clocks is held for less than [lasts] of real time, and ten
    minutes of a page's watching take at least [waits] of it. *)
Class FairClocks (reading : nat -> Z -> Reading) (lasts waits : Z) : Prop := {
  fair_hold : forall i r1 r2, r1 <= r2 -> 0 <= rd_now (reading i r2) - rd_now (reading i r1) ->
    Z.max (rd_now (reading i r2) - rd_now (reading i r1)) (rd_mono (reading i r2) - rd_mono (reading i r1)) < HOLD -> r2 - r1 < lasts;
  fair_watch : forall i r0 r1 r2,
    TEN_MINUTES <= pageElapsed (reading i r0) (reading i r2) - pageElapsed (reading i r0) (reading i r1) -> waits <= r2 - r1;
}.

Section Lease.
Context `{NamePolicy, DeliveryApi, DeliveryPolicy}.
Context (account : string) (reading : nat -> Z -> Reading).
(** How long a pass may wait for its turn; whether a row is written only on the version it was read at. *)
Context (queued : Z) (as_read : bool).

Definition rowKeyName : string := "set:" +:+ deliverName account.
Definition leaseRow (row : Row) : option SettingsRow :=
  match row with RSettings r => if String.eqb (set_name r) (deliverName account) then Some r else None | _ => None end.
Definition holder_text (row : option SettingsRow) : string := default "" (holder_of (leaseOf row)).
Definition log_seq (log : Log) : Z := seqOf rowKeyName log.
Definition log_holder (log : Log) : string := holder_text (settings (deliverName account) log).

(** A log holds a version of the row that its generation had, and where it is the row's present one, the lease it names.
    Settings are kept under their names, and the library is connected to no other account. *)
Definition truthful (e : Edge) (log : Log) : Prop :=
  (forall other text, connection log = Some (other, text) -> other = account) /\
  (forall name row, settings name log = Some row -> set_name row = name) /\
  forall g, lg_generation log = Some g ->
    g ∈ generations e /\ (g = le_generation e -> log_seq log <= le_seq e /\ (log_seq log = le_seq e -> log_holder log = le_holder e)).

Definition taken_row (p : Tab) (k : Sky) (row : SettingsRow) (s : Z) : Sky :=
  let e := sk_edge k in
  mkSky (sk_now k) (mkRowEdge (le_generation e) (le_past e) s (holder_text (Some row)) (le_born e) (sk_now k))
    (sk_claims k ++ match pg_sent p with Some t => [(pg_device p, t)] | None => [] end).

(** den-edge takes the write: the generation it is sent under is den-edge's, and its base is the row's number. *)
Definition accepts (p : Tab) (k : Sky) (base : Z) : Prop :=
  header_generation (pg_log p) = le_generation (sk_edge k) /\ base = le_seq (sk_edge k) /\
  (as_read = true -> pg_read p = (Some (le_generation (sk_edge k)), le_seq (sk_edge k))).

(** What page [i]'s call may be answered, and the page and the world after it. *)
Definition acts (i : nat) (op : Eff) (p : Tab) (k : Sky) : res (answer op) -> Tab -> Sky -> Prop :=
  match op return res (answer op) -> Tab -> Sky -> Prop with
  | Clocks => fun r p' k' => r = Ok (reading i (sk_now k)) /\ p' = put_clock (sk_now k) p /\ k' = k
  | LookLog => fun r p' k' =>
      (exists newest, r = Ok (mkNow (pg_log p) (pg_observed p) newest)) /\
      p' = put_read (lg_generation (pg_log p), log_seq (pg_log p)) p /\ k' = k
  | SeqOf name => fun r p' k' => r = Ok (seqOf name (pg_log p)) /\ p' = p /\ k' = k
  | Documents => fun r p' k' => r = Ok (held_documents (pg_log p)) /\ p' = p /\ k' = k
  | GetHeld => fun r p' k' => r = Ok (pg_held p) /\ p' = put_asked [] p /\ k' = k
  | SetHeld held => fun r p' k' => r = Ok tt /\ p' = put_held held p /\ k' = k
  | GetWatch => fun r p' k' => r = Ok (pg_watch p) /\ p' = p /\ k' = k
  | SetWatch watch => fun r p' k' => r = Ok tt /\ p' = put_watch (Some watch) p /\ k' = k /\ sk_now k - pg_called p <= queued
  | SetObserved generation => fun r p' k' => r = Ok tt /\ p' = put_observed generation p /\ k' = k
  | WriteAt row base => fun r p' k' =>
      exists log, p' = put_log log p /\ truthful (sk_edge k') log /\ (forall b, r = Ok b -> ln_log b.2 = log) /\
      ((k' = k /\ (is_Some (leaseRow row) -> forall b, r = Ok b -> b.1 = false)) \/
       exists x s, leaseRow row = Some x /\ accepts p k base /\ le_seq (sk_edge k) < s /\ k' = taken_row p k x s)
  | _ => fun _ p' k' => p' = p /\ k' = k
  end.

(** What else happens: time passes; other code rewrites the row and leaves its lease; the library is restored. *)
Inductive sky_step (k : Sky) : Sky -> Prop :=
| sky_time d : 0 <= d -> sky_step k (mkSky (sk_now k + d) (sk_edge k) (sk_claims k))
| sky_touch s : le_seq (sk_edge k) < s ->
    let e := sk_edge k in
    sky_step k (mkSky (sk_now k) (mkRowEdge (le_generation e) (le_past e) s (le_holder e) (le_born e) (sk_now k)) (sk_claims k))
| sky_restore generation s holder : generation ∉ generations (sk_edge k) ->
    sky_step k (mkSky (sk_now k) (mkRowEdge generation (generations (sk_edge k)) s holder (sk_now k) (sk_now k)) (sk_claims k)).

(** A page as it is opened: its log holds what this browser kept, and so does the generation it watched. *)
Definition opened (w : World) (p : Tab) : Prop :=
  pg_device p <> "" /\ pg_start p = reading (length (w_tabs w)) (sk_now (w_sky w)) /\ truthful (sk_edge (w_sky w)) (pg_log p) /\
  (pg_observed p = None \/ exists q m, (q, m) ∈ w_tabs w /\ pg_device q = pg_device p /\ pg_observed p = pg_observed q) /\
  pg_watch p = None /\ pg_held p = None /\ pg_called p = sk_now (w_sky w).

Inductive world_step (w : World) : World -> Prop :=
| world_sky k : sky_step (w_sky w) k -> world_step w (mkWorld k (w_tabs w))
| world_open p : opened w p -> world_step w (mkWorld (w_sky w) (w_tabs w ++ [(p, Ret (Ok true))]))
| world_read i p m log : w_tabs w !! i = Some (p, m) -> truthful (sk_edge (w_sky w)) log ->
    world_step w (mkWorld (w_sky w) (<[i := (put_log log p, m)]> (w_tabs w)))
| world_deliver i p r : w_tabs w !! i = Some (p, Ret r) ->
    world_step w (mkWorld (w_sky w) (<[i := (put_called (sk_now (w_sky w)) p, deliverSimklWithClock (pg_device p) (pg_start p))]> (w_tabs w)))
| world_approve i p r shown : w_tabs w !! i = Some (p, Ret r) ->
    world_step w (mkWorld (w_sky w) (<[i := (p, approveSimklRemovals shown)]> (w_tabs w)))
| world_act i p op c r p' k' : w_tabs w !! i = Some (p, Call op c) -> acts i op p (w_sky w) r p' k' ->
    world_step w (mkWorld k' (<[i := (p', c r)]> (w_tabs w))).

(** A library on den-edge with no page open yet. *)
Definition initial (w : World) : Prop :=
  w_tabs w = [] /\ sk_claims (w_sky w) = [] /\ le_generation (sk_edge (w_sky w)) ∉ le_past (sk_edge (w_sky w)) /\
  le_born (sk_edge (w_sky w)) <= le_put (sk_edge (w_sky w)) <= sk_now (w_sky w).

Definition lease_reach (w : World) : Prop := exists w0, initial w0 /\ rtc world_step w0 w.

(** Page [i] holds the lease now. *)
Definition holds (i : nat) (p : Tab) (w : World) : Prop := holding (pg_held p) account (reading i (sk_now (w_sky w))) = true.
End Lease.
