(* ===== verification/LeaseSafety.v ===== *)
(** * One holder at a time

    Whatever pages do and however they interleave, the lease's claims of two devices lie apart in real time, so no two
    devices hold it at once, and nothing is asked of the tracker by a page that did not ([lease_exclusive]): as long as
    the row is written on the version it was read at. The programs of Delivery are taken apart by a logic of
    preconditions ([twp]) whose calls let the rest of the world run. *)

From S2P Require Import Prelude JsMap JsText Json Wire LibraryV4 ProfileKeys ResetJournal LogState Log Delivery Lease.
Open Scope Z_scope.

(** ** What is known, and stays known *)

Section Safety.
Context `{NamePolicy, DeliveryApi, DeliveryPolicy, !LeaseLaws}.
Context (account : string) (reading : nat -> Z -> Reading) (lasts waits queued : Z).
Context `{!FairClocks reading lasts waits}.
Context (Hlasts : 0 <= lasts) (Hqueued : queued + lasts <= waits).

#[local] Abbreviation truthful := (truthful account).
#[local] Abbreviation acts := (acts account reading queued true).
#[local] Abbreviation leaseRow := (leaseRow account).

(** Every lease taken was sent before its generation began, or before the row was last written, and then long before
    when the row names another device; leases of two devices are sent apart. *)
Record sky_ok (k : Sky) : Prop := {
  so_past : le_generation (sk_edge k) ∉ le_past (sk_edge k);
  so_times : le_born (sk_edge k) <= le_put (sk_edge k) <= sk_now k;
  so_claims : forall d t, (d, t) ∈ sk_claims k -> d <> "" /\
    (t <= le_born (sk_edge k) \/
     t <= le_put (sk_edge k) /\ (le_holder (sk_edge k) <> d -> t + lasts <= le_put (sk_edge k)));
  so_apart : forall d t d' t', (d, t) ∈ sk_claims k -> (d', t') ∈ sk_claims k -> d <> d' -> t + lasts <= t' \/ t' + lasts <= t;
}.

(** The same row at a later time, a later version of it, or a later generation. *)
Definition row_later (e e' : Edge) : Prop :=
  (le_generation e' = le_generation e /\ le_past e' = le_past e /\ le_born e' = le_born e /\
   (le_seq e < le_seq e' \/ le_seq e' = le_seq e /\ le_holder e' = le_holder e /\ le_put e' = le_put e)) \/
  generations e ⊆ le_past e'.
Definition sky_later (k k' : Sky) : Prop :=
  sk_now k <= sk_now k' /\ sk_claims k ⊆ sk_claims k' /\ row_later (sk_edge k) (sk_edge k').

#[local] Instance row_later_preorder : PreOrder row_later.
Proof.
  split; [intros e; left; repeat split; auto|]. intros e1 e2 e3 [(I1 & I2 & I3 & I4)|I1] [(I5 & I6 & I7 & I8)|I5].
  - left. repeat split; try congruence. destruct I4 as [?|(? & ? & ?)], I8 as [?|(? & ? & ?)]; [left; lia..|right; repeat split; congruence].
  - right. unfold generations in *. rewrite <- I1, <- I2. done.
  - right. by rewrite I6.
  - right. unfold generations in *. set_solver.
Qed.
#[local] Instance sky_later_preorder : PreOrder sky_later.
Proof.
  split; [intros k; repeat split; [lia|done|reflexivity]|]. intros k1 k2 k3 (I1 & I2 & I3) (I4 & I5 & I6).
  repeat split; [lia|set_solver|by etrans].
Qed.

(** Of generation [g]: it was den-edge's, and while it still is, [P] of the row. *)
Definition of_generation (g : string) (P : Edge -> Prop) (k : Sky) : Prop :=
  g ∈ generations (sk_edge k) /\ (g = le_generation (sk_edge k) -> P (sk_edge k)).

Lemma of_generation_later g (P : Edge -> Prop) k k' :
  (forall e, le_generation e = le_generation (sk_edge k) -> row_later (sk_edge k) e -> le_born e = le_born (sk_edge k) ->
     (le_seq (sk_edge k) < le_seq e \/ le_seq e = le_seq (sk_edge k) /\ le_holder e = le_holder (sk_edge k) /\ le_put e = le_put (sk_edge k)) ->
     P (sk_edge k) -> P e) ->
  sky_ok k' -> sky_later k k' -> of_generation g P k -> of_generation g P k'.
Proof.
  intros HP Hk (_ & _ & He) [Hg Hp]. pose proof He as He'. destruct He as [(I1 & I2 & I3 & I4)|Hsub].
  - split; [unfold generations in *; by rewrite I1, I2|]. intros Hcur. apply HP; try done. apply Hp. congruence.
  - split; [unfold generations in *; set_solver|]. intros ->. exfalso. apply (so_past _ Hk). by apply Hsub.
Qed.

(** Version [s] of the row under [g]: no later version came before it, and while it is the row's, [P]. *)
Definition at_version (s : Z) (P : Edge -> Prop) (e : Edge) : Prop := s <= le_seq e /\ (s = le_seq e -> P e).

Lemma of_version_later g s (P : string -> Z -> Prop) k k' :
  sky_ok k' -> sky_later k k' -> of_generation g (at_version s (fun e => P (le_holder e) (le_put e))) k ->
  of_generation g (at_version s (fun e => P (le_holder e) (le_put e))) k'.
Proof.
  apply of_generation_later. intros e _ _ _ [Hlt|(Hs & Hh & Hp)] [Hle HP]; split; try lia. intros ->. rewrite Hh, Hp. apply HP. done.
Qed.

Lemma of_born_later g (P : Z -> Prop) k k' :
  sky_ok k' -> sky_later k k' -> of_generation g (fun e => P (le_born e)) k -> of_generation g (fun e => P (le_born e)) k'.
Proof. apply of_generation_later. intros e _ _ Hb _. by rewrite Hb. Qed.

(** ** What holds of a page *)

Definition elapsed_at (i : nat) (p : Tab) (r : Z) : Z := pageElapsed (pg_start p) (reading i r).

Definition log_ok (log : Log) (k : Sky) : Prop := truthful (sk_edge k) log.
(** The generation and the row were watched from when they were there, but for a pass's wait. *)
Definition watch_ok (i : nat) (p : Tab) (watch : Watch) (k : Sky) : Prop :=
  forall g, wt_generation watch = Some g ->
    (exists r, wt_since watch = elapsed_at i p r /\ of_generation g (fun e => le_born e <= r + queued) k) /\
    forall l, map_get account (wt_leases watch) = Some l ->
      exists r, sl_since l = elapsed_at i p r /\ of_generation g (at_version (sl_seq l) (fun e => le_put e <= r + queued)) k.
Definition observed_ok (observed : option string) (k : Sky) : Prop :=
  forall g, observed = Some g -> of_generation g (fun e => le_born e + lasts <= sk_now k) k.
Definition held_ok (i : nat) (p : Tab) (held : option HeldLease) (k : Sky) : Prop :=
  forall h, held = Some h -> hl_account h = account ->
    exists t, (pg_device p, t) ∈ sk_claims k /\ mkReading (hl_at h) (hl_mono h) = reading i t.

Record tab_ok (i : nat) (p : Tab) (k : Sky) : Prop := {
  to_device : pg_device p <> "";
  to_start : exists r0, pg_start p = reading i r0;
  to_called : pg_called p <= sk_now k;
  to_log : log_ok (pg_log p) k;
  to_watch : forall watch, pg_watch p = Some watch -> watch_ok i p watch k;
  to_observed : observed_ok (pg_observed p) k;
  to_held : held_ok i p (pg_held p) k;
}.

Lemma observed_later o k k' : sky_ok k' -> sky_later k k' -> observed_ok o k -> observed_ok o k'.
Proof.
  intros Hk Hl Ho g Hg. specialize (Ho g Hg). apply (of_born_later g (fun b => b + lasts <= sk_now k) k k' Hk Hl) in Ho as [I1 I2].
  split; [done|]. intros Hc. specialize (I2 Hc). destruct Hl. lia.
Qed.

Lemma watch_later i p watch k k' : sky_ok k' -> sky_later k k' -> watch_ok i p watch k -> watch_ok i p watch k'.
Proof.
  intros Hk Hl Hw g Hg. destruct (Hw g Hg) as [(r & Hr & Hb) Hs]. split.
  - exists r. split; [done|]. by apply (of_born_later g (fun b => b <= r + queued) k).
  - intros l Hget. destruct (Hs l Hget) as (r' & Hr' & Hp). exists r'. split; [done|].
    by apply (of_version_later g (sl_seq l) (fun _ t => t <= r' + queued) k).
Qed.

Lemma held_later i p held k k' : sky_later k k' -> held_ok i p held k -> held_ok i p held k'.
Proof. intros (_ & Hc & _) Hh h Hs Ha. destruct (Hh h Hs Ha) as (t & Ht & Hr). exists t. split; [by apply Hc|done]. Qed.

Lemma log_later log k k' : sky_ok k' -> sky_later k k' -> log_ok log k -> log_ok log k'.
Proof.
  intros Hk Hl (Hc & Hn & Hg). split_and!; [done|done|]. intros g Hsome. specialize (Hg g Hsome).
  apply (of_version_later g (log_seq account log) (fun h _ => log_holder account log = h) k k' Hk Hl) in Hg. exact Hg.
Qed.

Lemma tab_later i p k k' : sky_ok k' -> sky_later k k' -> tab_ok i p k -> tab_ok i p k'.
Proof.
  intros Hk Hl [I1 I2 I3 I4 I5 I6 I7]. split; try done.
  - destruct Hl. lia.
  - by apply (log_later _ k).
  - intros w Hw. apply (watch_later _ _ _ k); auto.
  - by apply (observed_later _ k).
  - by apply (held_later _ _ _ k).
Qed.

(** ** What a call needs *)

Definition allowed (i : nat) (op : Eff) (p : Tab) (k : Sky) : Prop :=
  match op with
  | SetHeld held => held_ok i p held k
  | SetWatch watch => sk_now k - pg_called p <= queued -> watch_ok i p watch k
  | SetObserved observed => observed_ok observed k
  | WriteAt row _ => forall x, leaseRow row = Some x -> pg_read p = (Some (le_generation (sk_edge k)), le_seq (sk_edge k)) ->
      match pg_sent p with
      | Some t => holder_text (Some x) = pg_device p /\ t <= sk_now k /\ forall d u, (d, u) ∈ sk_claims k -> d <> pg_device p -> u + lasts <= t
      | None => holder_text (Some x) = le_holder (sk_edge k)
      end
  | Post _ _ path _ => exists t later, pg_asked p = t :: later /\ t <= sk_now k /\ holding (pg_held p) account (reading i t) = true /\
      (later = [] \/ path = "/sync/history/remove" /\ length later = 2%nat)
  | _ => True
  end.

Lemma taken_later p k x s : le_seq (sk_edge k) < s -> sky_later k (taken_row p k x s).
Proof. intros Hs. repeat split; cbn; [lia|set_solver|]. left. cbn. auto. Qed.

Lemma taken_ok p k x s :
  sky_ok k -> pg_device p <> "" ->
  match pg_sent p with
  | Some t => holder_text (Some x) = pg_device p /\ t <= sk_now k /\ forall d u, (d, u) ∈ sk_claims k -> d <> pg_device p -> u + lasts <= t
  | None => holder_text (Some x) = le_holder (sk_edge k)
  end -> sky_ok (taken_row p k x s).
Proof.
  intros [I1 I2 I3 I4] Hd Hw. split; cbn; [done|lia| |].
  - intros d t [Hin|Hin]%elem_of_app.
    + destruct (I3 d t Hin) as [Hne Ht]. split; [done|]. destruct Ht as [?|[Hput Hother]]; [by left|]. right. split; [lia|].
      destruct (pg_sent p) as [u|]; [|rewrite Hw; intros Hh; specialize (Hother Hh); lia].
      destruct Hw as (Hh & Hu & Hall). rewrite Hh. intros Hneq. specialize (Hall d t Hin). lia || (specialize (Hall (not_eq_sym Hneq)); lia).
    + destruct (pg_sent p) as [u|]; [|set_solver]. apply list_elem_of_singleton in Hin as [= -> ->]. destruct Hw as (Hh & Hu & _).
      split; [done|]. right. split; [done|]. intros []. done.
  - intros d t d' t' [Hin|Hin]%elem_of_app [Hin'|Hin']%elem_of_app Hne; [by apply (I4 d t d' t')|..].
    + destruct (pg_sent p) as [u|]; [|set_solver]. apply list_elem_of_singleton in Hin' as [= -> ->]. destruct Hw as (_ & _ & Hall).
      left. by apply (Hall d t).
    + destruct (pg_sent p) as [u|]; [|set_solver]. apply list_elem_of_singleton in Hin as [= -> ->]. destruct Hw as (_ & _ & Hall).
      right. apply (Hall d' t' Hin'). done.
    + destruct (pg_sent p) as [u|]; [|set_solver]. apply list_elem_of_singleton in Hin as [= -> ->], Hin' as [= -> ->]. done.
Qed.

(** An allowed call leaves the world and the page as they should be. *)
Lemma acts_ok i op p k r p' k' :
  sky_ok k -> tab_ok i p k -> allowed i op p k -> acts i op p k r p' k' -> sky_ok k' /\ sky_later k k' /\ tab_ok i p' k'.
Proof.
  intros Hk Hp Ha Hs. pose proof Hp as [I1 I2 I3 I4 I5 I6 I7].
  assert (Hsame : forall q, q = p -> sky_ok k /\ sky_later k k /\ tab_ok i q k) by (intros q ->; by split_and!).
  destruct op; cbn in Hs;
    try (destruct Hs as [-> ->]; by apply Hsame);
    try (destruct Hs as (_ & -> & ->); first [by apply Hsame | split_and!; [done|done|by split]]).
  - destruct Hs as (_ & -> & -> & Hq). split_and!; [done|done|]. split; try done. cbn. intros w [= <-]. by apply Ha.
  - destruct Hs as (log & -> & Hlog & _ & [[-> _]|(x & s & Hx & (Hg & -> & Hr) & Hlt & ->)]).
    { split_and!; [done|done|by split]. }
    assert (Hok : sky_ok (taken_row p k x s)) by (apply taken_ok; [done|done|]; by apply Ha; [|apply Hr]).
    pose proof (taken_later p k x s Hlt) as Hl. split_and!; [done|done|]. destruct (tab_later i p k _ Hok Hl Hp). by split.
Qed.

(** ** The logic *)

(** The page at the next call: its log may have been read meanwhile. *)
Definition shifts (p p' : Tab) : Prop := p' = put_log (pg_log p') p.

Fixpoint twp {A} (i : nat) (m : prog A) (Q : res A -> Tab -> Sky -> Prop) (p : Tab) (k : Sky) : Prop :=
  match m with
  | Ret r => Q r p k
  | Call op c =>
      forall p1 k1, shifts p p1 -> sky_later k k1 -> tab_ok i p1 k1 -> sky_ok k1 ->
      allowed i op p1 k1 /\ forall r p2 k2, acts i op p1 k1 r p2 k2 -> tab_ok i p2 k2 -> sky_ok k2 -> twp i (c r) Q p2 k2
  end.

Lemma twp_call i op (Q : res (answer op) -> Tab -> Sky -> Prop) p k :
  (forall p1 k1, shifts p p1 -> sky_later k k1 -> tab_ok i p1 k1 -> sky_ok k1 ->
     allowed i op p1 k1 /\ forall r p2 k2, acts i op p1 k1 r p2 k2 -> tab_ok i p2 k2 -> sky_ok k2 -> Q r p2 k2) ->
  twp i (call op) Q p k.
Proof. done. Qed.

Lemma shifts_refl p : shifts p p.
Proof. by destruct p. Qed.
Lemma shifts_trans p1 p2 p3 : shifts p1 p2 -> shifts p2 p3 -> shifts p1 p3.
Proof. unfold shifts. intros -> ->. done. Qed.

Lemma twp_bind {A B} i (m : prog A) (f : A -> prog B) Q p k :
  twp i m (fun r p k => match r with Ok a => twp i (f a) Q p k | Throw e => Q (Throw e) p k end) p k -> twp i (prog_bind m f) Q p k.
Proof.
  revert p k. induction m as [r|op c IH]; intros p k Hm; [by destruct r|]. cbn in *. intros p1 k1 Hs Hl Ht Hk.
  destruct (Hm p1 k1 Hs Hl Ht Hk) as [Ha Hc]. split; [done|]. intros r p2 k2 Hact Ht2 Hk2. apply IH. by apply Hc.
Qed.

Lemma twp_mono {A} i (m : prog A) (Q Q' : res A -> Tab -> Sky -> Prop) p k :
  (forall r p k, Q r p k -> Q' r p k) -> twp i m Q p k -> twp i m Q' p k.
Proof.
  intros HQ. revert p k. induction m as [r|op c IH]; intros p k Hm; [by apply HQ|]. cbn in *. intros p1 k1 Hs Hl Ht Hk.
  destruct (Hm p1 k1 Hs Hl Ht Hk) as [Ha Hc]. split; [done|]. intros r p2 k2 Hact Ht2 Hk2. apply IH. by apply Hc.
Qed.

(** A program about to make a call does not depend on the log and the world before it. *)
Lemma twp_moves {A} i op (c : res (answer op) -> prog A) Q p k p1 k1 :
  shifts p p1 -> sky_later k k1 -> twp i (Call op c) Q p k -> twp i (Call op c) Q p1 k1.
Proof. intros Hs Hl Hm p2 k2 Hs2 Hl2. apply Hm; [by eapply shifts_trans|by etrans]. Qed.
(** ** Programs that take no part in the lease *)

(** The page but for its log and its clock readings. *)
Definition kin (p p' : Tab) : Prop := p' = put_asked (pg_asked p') (put_sent (pg_sent p') (put_log (pg_log p') p)).
Lemma kin_refl p : kin p p.
Proof. by destruct p. Qed.
Lemma kin_trans p1 p2 p3 : kin p1 p2 -> kin p2 p3 -> kin p1 p3.
Proof. unfold kin. intros -> ->. done. Qed.
Lemma kin_held p p' : kin p p' -> pg_held p' = pg_held p.
Proof. unfold kin. intros ->. done. Qed.
Lemma kin_shifts p p' : shifts p p' -> kin p p'.
Proof. unfold shifts, kin. intros ->. by destruct p. Qed.

(** A program that leaves everything of the page but its log, and its clock readings where [clocked]. *)
Definition along (clocked : bool) (p p' : Tab) : Prop := if clocked then kin p p' else shifts p p'.
Lemma along_trans c p1 p2 p3 : along c p1 p2 -> along c p2 p3 -> along c p1 p3.
Proof. destruct c; [apply kin_trans|apply shifts_trans]. Qed.
Lemma along_shifts c p p' : shifts p p' -> along c p p'.
Proof. destruct c; [apply kin_shifts|done]. Qed.

Definition steady {A} (clocked : bool) (i : nat) (m : prog A) : Prop :=
  forall (Q : res A -> Tab -> Sky -> Prop) p k,
    (forall r p' k', along clocked p p' -> sky_later k k' -> (sky_ok k -> sky_ok k') -> Q r p' k') -> twp i m Q p k.

Definition steady_op (clocked : bool) (op : Eff) : bool :=
  match op with
  | Clocks | GetHeld => clocked
  | SeqOf _ | Documents | GetWatch | See _ | Issue | Kept _ | Keep _ _ | Current | LoadPolicy | Exclusive _
  | ClientId | AllItems _ _ => true
  | _ => false
  end.

Lemma lease_steady_call c i op : steady_op c op = true -> steady c i (call op).
Proof.
  intros Hop Q p k HQ p1 k1 Hs Hl Ht Hk. split; [by destruct op|]. intros r p2 k2 Hact _ Hk2. cbn.
  assert (along c p1 p2 /\ k2 = k1) as [Hkin ->]; [|apply HQ; [by eapply along_trans; [apply along_shifts|]|done|done]].
  destruct op; try done; cbn in Hact; destruct_and?; subst; split; try done; cbn in Hop; subst; try (apply along_shifts, shifts_refl); done.
Qed.

Lemma lease_steady_ret {A} c i (r : res A) : steady c i (Ret r).
Proof. intros Q p k HQ. apply HQ; [apply along_shifts, shifts_refl|reflexivity|done]. Qed.

Lemma lease_steady_bind {A B} c i (m : prog A) (f : A -> prog B) : steady c i m -> (forall a, steady c i (f a)) -> steady c i (prog_bind m f).
Proof.
  intros Hm Hf Q p k HQ. apply twp_bind, Hm. intros [a|e] p1 k1 Hs Hl Hk; [|by apply HQ]. apply Hf. intros r p2 k2 Hs2 Hl2 Hk2.
  apply HQ; [by eapply along_trans|by etrans|auto].
Qed.

Lemma steady_persist c i a state : steady c i (persist a state).
Proof.
  apply lease_steady_bind; [by apply lease_steady_call|]. intros _. apply lease_steady_bind; [by apply lease_steady_call|]. intros kept.
  destruct (decide _); apply lease_steady_ret.
Qed.

Lemma steady_orders i a epoch count state : steady true i (orders a epoch count state).
Proof.
  unfold orders. destruct (_ || _); [apply lease_steady_ret|]. destruct (count =? 0)%nat; [apply lease_steady_ret|].
  apply lease_steady_bind; [apply steady_persist|]. intros _. apply lease_steady_ret.
Qed.

(** Programs that can be run at any time. *)
Definition safe {A} (i : nat) (m : prog A) : Prop := forall p k, twp i m (fun _ _ _ => True) p k.

Lemma safe_bind {A B} i (m : prog A) (f : A -> prog B) : safe i m -> (forall a, safe i (f a)) -> safe i (prog_bind m f).
Proof. intros Hm Hf p k. apply twp_bind. eapply twp_mono; [|apply Hm]. intros [a|e] p1 k1 _; [apply Hf|done]. Qed.
Lemma safe_steady {A} c i (m : prog A) : steady c i m -> safe i m.
Proof. intros Hm p k. by apply Hm. Qed.
Lemma safe_ret {A} i (r : res A) : safe i (Ret r).
Proof. done. Qed.
Lemma safe_call i op : steady_op true op = true -> safe i (call op).
Proof. intros Hop. by eapply safe_steady, lease_steady_call. Qed.
Lemma removes_path command target : removes_listing command = true -> (request command target).1 = "/sync/history/remove".
Proof.
  unfold removes_listing, request, is_kind. intros [Hk Ha]%andb_true_iff. apply bool_decide_eq_true in Hk, Ha. rewrite Hk, Ha. done.
Qed.

(** What reserving a removal reads of the clocks: twice, whatever it is answered, unless it fails. *)
Definition reserved_at (t : Z) (p : Tab) : Prop := exists u v, pg_asked p = [t; u; v].

Lemma twp_clock {A} i (f : Reading -> prog A) Q p k :
  (forall p1 k1, shifts p p1 -> sky_later k k1 -> twp i (f (reading i (sk_now k1))) Q (put_clock (sk_now k1) p1) k1) ->
  twp i (let* c := call Clocks in f c) Q p k.
Proof. intros Hf. apply twp_bind, twp_call. intros p1 k1 Hs Hl _ _. split; [done|]. intros r p2 k2 (-> & -> & ->) _ _. by apply Hf. Qed.

Lemma twp_reserveRemoval i a state t p k (Q : res DeliverySafetyState -> Tab -> Sky -> Prop) :
  pg_asked p = [t] ->
  (forall r p' k', kin p p' -> sky_later k k' -> reserved_at t p' -> Q r p' k') -> twp i (reserveRemoval a state) Q p k.
Proof.
  intros Hasked HQ. apply twp_clock. intros p1 k1 Hs1 Hl1. apply twp_clock. intros p2 k2 Hs2 Hl2.
  apply (lease_steady_bind false); [apply steady_persist|intros _; apply lease_steady_ret|]. intros r p3 k3 Hs3 Hl3 _. apply HQ.
  - rewrite Hs3, Hs2, Hs1. done.
  - etrans; [exact Hl1|]. by etrans.
  - exists (sk_now k1), (sk_now k2). rewrite Hs3, Hs2, Hs1. cbn. by rewrite Hasked.
Qed.

(** A request is sent by a page that found itself holding the lease when it read the clocks: at their last reading, or
    at the one before a removal was reserved. *)
Lemma safe_sendAll i pass full commands state writes :
  ps_account pass = account -> safe i (sendAll pass full commands state writes).
Proof.
  intros Ha. revert state writes. induction commands as [|[command at_] commands IH]; intros state writes; cbn [sendAll]; [done|].
  apply safe_bind; [by apply safe_call|]. intros current. destruct (negb current); [done|]. destruct (bool_decide _); [done|].
  apply safe_bind; [done|]. intros outcome. destruct (_ || _); [done|].
  destruct (String.eqb _ "send"); [|apply safe_bind; [done|]; intros settled; apply IH].
  intros p k. apply twp_bind, twp_call. intros p1 k1 Hs1 Hl1 Ht1 Hk1. split; [done|]. intros r p2 k2 (-> & -> & ->) _ _.
  apply twp_clock. intros p3 k3 Hs3 Hl3. rewrite Ha.
  destruct (holding _ _ _) eqn:Hh; cbn [negb]; [|done]. set (t := sk_now k3) in *. set (p4 := put_clock t p3).
  assert (Hheld : holding (pg_held p4) account (reading i t) = true) by (unfold p4; by rewrite Hs3).
  assert (Hasked : pg_asked p4 = [t]) by (unfold p4; by rewrite Hs3).
  set (tail := fun state' => _).
  assert (Hpost : forall state' p5 k5, kin p4 p5 -> t <= sk_now k5 ->
    (pg_asked p5 = [t] \/ removes_listing command = true /\ reserved_at t p5) -> twp i (tail state') (fun _ _ _ => True) p5 k5).
  { intros state' p5 k5 Hp5 Ht5 Hwhen. unfold tail. destruct (request command _) as [path body] eqn:Er. apply twp_bind, twp_call.
    intros p6 k6 Hs6 Hl6 Ht6 Hk6. split.
    - cbn [allowed]. rewrite (kin_held p5 p6), (kin_held p4 p5) by (done || by apply kin_shifts).
      assert (Hn : t <= sk_now k6) by (destruct Hl6; lia).
      destruct Hwhen as [Hwhen|(Hrem & u & v & Hwhen)]; exists t; rewrite Hs6; cbn [pg_asked put_log]; rewrite Hwhen; eexists; split_and!; auto.
      right. split; [|done]. pose proof (removes_path command (targetOf command) Hrem) as Hpath. by rewrite Er in Hpath.
    - intros r p7 k7 _ _ _. destruct r as [ok|]; [|done]. destruct (negb ok); [apply IH|]. apply twp_bind. cbn [lift twp].
      destruct (settle _ _ _ _); [|done]. apply IH. }
  destruct (removes_listing command) eqn:Hrem.
  - apply twp_bind, (twp_reserveRemoval i _ _ t p4); [done|]. intros [state'|e] p5 k5 Hkin Hl5 Hres; [|done].
    apply Hpost; [done|destruct Hl5; cbn in *; lia|by right].
  - apply Hpost; [apply kin_refl|cbn; lia|by left].
Qed.

Lemma safe_writeAll i pass writes : safe i (writeAll pass writes).
Proof.
  induction writes as [|[name settles] writes IH]; cbn [writeAll]; [done|].
  apply safe_bind; [by apply safe_call|]. intros current. destruct (negb current); [done|]. apply safe_bind; [done|]. intros written.
  apply safe_bind; [|done]. intros p k. apply twp_call. intros p1 k1 _ _ _ _. done.
Qed.

Lemma safe_deliverV4 i pass state : ps_account pass = account -> safe i (deliverV4 pass state).
Proof.
  intros Ha. unfold deliverV4. apply safe_bind; [eapply safe_steady, steady_orders|]. intros [state' ats].
  apply safe_bind; [done|]. intros writes. apply safe_bind; [done|]. intros full.
  apply safe_bind; [by apply safe_sendAll|]. intros writes'. apply safe_writeAll.
Qed.

Lemma safe_deliverHeld i device token epoch pending documents state :
  safe i (deliverHeld device account token epoch pending documents state).
Proof.
  unfold deliverHeld. apply safe_bind; [by apply safe_call|]. intros clientId. destruct (match clientId with Some _ => _ | None => _ end) as [id|]; [|done].
  apply safe_bind; [by apply safe_call|]. intros c1. destruct (negb c1); [done|].
  apply safe_bind; [by apply safe_call|]. intros [body|]; [|done].
  apply safe_bind; [by apply safe_call|]. intros c2. destruct (negb c2); [done|].
  apply safe_bind; [done|]. intros snapshot.
  apply safe_bind; [by apply safe_call|]. intros c3. destruct (negb c3); [done|].
  apply safe_bind; [done|]. intros names. apply safe_bind; [by apply safe_deliverV4|done].
Qed.
(** ** Rewriting the row, and taking the lease *)

(** What the page read of the row: the device it names, while that version is the row's. *)
Definition read_ok (read : option string * Z) (holder : string) (k : Sky) : Prop :=
  forall g, read.1 = Some g -> of_generation g (at_version read.2 (fun e => holder = le_holder e)) k.

Lemma read_later read holder k k' : sky_ok k' -> sky_later k k' -> read_ok read holder k -> read_ok read holder k'.
Proof. intros Hk Hl Hr g Hg. by apply (of_version_later g read.2 (fun h _ => holder = h) k k' Hk Hl), Hr. Qed.

Lemma log_read log k : log_ok log k -> read_ok (lg_generation log, log_seq account log) (log_holder account log) k.
Proof. intros (_ & _ & Hg) g Hsome. exact (Hg g Hsome). Qed.

Lemma holder_with_value name value at_ row : name <> "lease" -> holder_text (Some (with_value name value at_ row)) = holder_text (Some row).
Proof. intros Hne. unfold holder_text, leaseOf, value_of. cbn. by rewrite map_get_set_ne. Qed.

(** Writing a row that names whom it named when it was read. *)
Lemma twp_rewrite {A} i row (f : bool * LogNow -> prog A) p k :
  pg_sent p = None ->
  (forall x, leaseRow row = Some x -> read_ok (pg_read p) (holder_text (Some x)) k) -> (forall b, safe i (f b)) -> forall name,
  twp i (let* base := call (SeqOf name) in let* b := call (WriteAt row base) in f b) (fun _ _ _ => True) p k.
Proof.
  intros Hsent Hread Hf name. apply twp_bind, twp_call. intros p1 k1 Hs1 Hl1 _ Hk1. split; [done|]. intros r p2 k2 (-> & -> & ->) _ _.
  apply twp_bind, twp_call. intros p3 k3 Hs3 Hl3 Ht3 Hk3. split; [|by intros [b|e] p4 k4 _ _ _; [apply Hf|]].
  assert (Hs : shifts p p3) by by eapply shifts_trans. assert (Hl : sky_later k k3) by by etrans.
  intros x Hx Hr. rewrite Hs. cbn. rewrite Hsent. rewrite Hs in Hr. cbn in Hr. specialize (Hread x Hx).
  apply (read_later _ _ _ _ Hk3 Hl) in Hread. rewrite Hr in Hread. destruct (Hread _ eq_refl) as [_ H3]. by apply H3.
Qed.

Lemma leaseRow_Some row x : leaseRow (RSettings row) = Some x -> x = row /\ set_name row = deliverName account.
Proof. unfold Lease.leaseRow. destruct (String.eqb_spec (set_name row) (deliverName account)); [|done]. by intros [= ->]. Qed.

(** The row read by [LookLog], and what is known of it then. *)
Lemma twp_look {A} i (f : LogNow -> prog A) Q p k :
  (forall p1 k1 newest, pg_sent p1 = None -> pg_read p1 = (lg_generation (pg_log p1), log_seq account (pg_log p1)) ->
     p1 = put_read (pg_read p1) (put_log (pg_log p1) p) -> sky_later k k1 -> tab_ok i p1 k1 -> sky_ok k1 ->
     twp i (f (mkNow (pg_log p1) (pg_observed p1) newest)) Q p1 k1) ->
  twp i (let* now := call LookLog in f now) Q p k.
Proof.
  intros Hf. apply twp_bind, twp_call. intros p1 k1 Hs Hl Ht Hk. split; [done|]. intros r p2 k2 ([newest ->] & -> & ->) Ht2 Hk2.
  eapply (Hf (put_read _ p1)); try done. rewrite Hs. done.
Qed.

Lemma safe_writeAccountState i pending : safe i (writeAccountState (deliverName account) pending).
Proof.
  intros p k. apply twp_look. intros p1 k1 newest Hsent Hread Hp Hl Ht Hk. cbn [ln_log ln_newest].
  destruct (settings _ _) as [row|] eqn:Erow; [|done].
  set (known := fun changed => holder_text (Some changed) = holder_text (Some row)).
  assert (Htail : forall (listed : option SettingsRow) p2 k2, (forall changed, listed = Some changed -> known changed) -> shifts p1 p2 -> sky_later k1 k2 -> sky_ok k2 ->
    twp i match listed with
          | Some changed => let* name := lift (rowName (RSettings row)) in let* base := call (SeqOf name) in call (WriteAt (RSettings changed) base);;; ret tt
          | None => ret tt end (fun _ _ _ => True) p2 k2).
  { intros [changed|] p2 k2 Hkn Hs2 Hl2 Hk2; [|done]. apply twp_bind. cbn [lift twp rowName]. apply (twp_rewrite i (RSettings changed) (fun _ => ret tt)); [by rewrite Hs2| |done].
    intros x [-> Hname]%leaseRow_Some. rewrite Hs2. cbn. rewrite Hread, (Hkn changed) by done. apply (read_later _ _ k1); [done..|].
    pose proof (log_read _ _ (to_log _ _ _ Ht)) as Hr. unfold log_holder in Hr. by rewrite Erow in Hr. }
  apply twp_bind, (lease_steady_call false); [done|]. intros [u|e] p2 k2 Hs2 Hl2 Hk2; [|done].
  assert (Hepochs : forall (latched : option SettingsRow) p3 k3, (forall changed, latched = Some changed -> known changed) -> shifts p1 p3 -> sky_later k1 k3 -> sky_ok k3 ->
    twp i (let* listed := match changed_epochs pending row with
                          | Some epochs => let* at_ := call Issue in ret (Some (with_value "unverified" (CInts epochs) at_ (default row latched)))
                          | None => ret latched
                          end in
           match listed with
           | Some changed => let* name := lift (rowName (RSettings row)) in let* base := call (SeqOf name) in call (WriteAt (RSettings changed) base);;; ret tt
           | None => ret tt end) (fun _ _ _ => True) p3 k3).
  { intros latched p3 k3 Hkn Hs3 Hl3 Hk3. apply twp_bind. destruct (changed_epochs _ _) as [epochs|]; [|by apply Htail].
    apply twp_bind, (lease_steady_call false); [done|]. intros [at_|e] p4 k4 Hs4 Hl4 Hk4; [|done]. cbn [ret twp].
    apply (Htail (Some _)); [|by eapply shifts_trans|by etrans|auto]. intros changed [= <-]. unfold known. rewrite holder_with_value by done.
    destruct latched as [l|]; [by apply Hkn|done]. }
  apply twp_bind. destruct (closing_latch _ _) as [latch|].
  - apply twp_bind, (lease_steady_call false); [done|]. intros [at_|e] p3 k3 Hs3 Hl3 Hk3; [|done]. cbn [ret twp].
    apply (Hepochs (Some _)); [|by eapply shifts_trans|by etrans|auto]. intros changed [= <-]. by apply holder_with_value.
  - cbn [ret twp]. apply (Hepochs None); [done|done|done|auto].
Qed.

Lemma safe_approve i shown : safe i (approveSimklRemovals shown).
Proof.
  intros p k. apply twp_look. intros p1 k1 newest Hsent Hread Hp Hl Ht Hk. cbn [ln_log ln_newest].
  set (found := match simklAccountOf _ with Some _ => _ | None => _ end). destruct found as [row|] eqn:Efound; [|done].
  assert (exists name, settings name (pg_log p1) = Some row) as [name Erow].
  { unfold found in Efound. destruct (simklAccountOf _) as [other|]; [|done]. destruct (truthy other); [|done]. eauto. }
  destruct (hr_approval shown) as [approval|]; [|done].
  apply twp_bind, (lease_steady_call false); [done|]. intros [u|e] p2 k2 Hs2 Hl2 Hk2; [|done].
  apply twp_bind, (lease_steady_call false); [done|]. intros [at_|e] p3 k3 Hs3 Hl3 Hk3; [|done].
  assert (Hs : shifts p1 p3) by by eapply shifts_trans.
  apply twp_bind. cbn [lift twp rowName]. apply (twp_rewrite i (RSettings _) (fun b => ret b.1)); [by rewrite Hs| |done].
  intros x [-> Hname]%leaseRow_Some. rewrite Hs. change (set_name row = deliverName account) in Hname. cbn [pg_read put_log]. rewrite Hread, holder_with_value by done. apply (read_later _ _ k1); [auto|by etrans|].
  destruct (to_log _ _ _ Ht) as (_ & Hnames & _). rewrite (Hnames name row Erow) in Hname. subst name.
  pose proof (log_read _ _ (to_log _ _ _ Ht)) as Hr. unfold log_holder in Hr. by rewrite Erow in Hr.
Qed.
(** Taking is right at [r]: under the generation read, which began long before; of the version read, which names this
    device or none, or was written long before. *)
Definition take_ok (device : string) (read : option string * Z) (r : Z) (k : Sky) : Prop :=
  forall g, read.1 = Some g ->
    of_generation g (fun e => le_born e + lasts <= r) k /\
    of_generation g (at_version read.2 (fun e => le_put e <= r /\ (le_holder e = device \/ le_holder e = "" \/ le_put e + lasts <= r))) k.

Lemma take_later device read r k k' : sky_ok k' -> sky_later k k' -> take_ok device read r k -> take_ok device read r k'.
Proof.
  intros Hk Hl Ht g Hg. destruct (Ht g Hg) as [Hb Hv]. split; [by apply (of_born_later g (fun b => b + lasts <= r) k)|].
  by apply (of_version_later g read.2 (fun h u => u <= r /\ (h = device \/ h = "" \/ u + lasts <= r)) k).
Qed.

(** Then every claim of another device was sent long before. *)
Lemma take_apart device r k d u :
  sky_ok k -> take_ok device (Some (le_generation (sk_edge k)), le_seq (sk_edge k)) r k ->
  (d, u) ∈ sk_claims k -> d <> device -> u + lasts <= r.
Proof.
  intros Hk Ht Hin Hne. destruct (Ht _ eq_refl) as [[_ Hb] [_ Hv]]. specialize (Hb eq_refl). destruct (Hv eq_refl) as [_ Hv'].
  destruct (Hv' eq_refl) as [Hput Hh]. destruct (so_claims _ Hk d u Hin) as [Hd [?|[Hu Ho]]]; [lia|].
  destruct Hh as [Hh|[Hh|Hh]]; [|..|lia]; specialize (Ho ltac:(congruence)); lia.
Qed.

Definition ready (device : string) (read : option string * Z) (r : Z) (p : Tab) (k : Sky) : Prop :=
  pg_device p = device /\ pg_read p = read /\ take_ok device read r k /\ r <= sk_now k /\ sky_ok k.

Lemma ready_moves device read r p k p' k' :
  kin p p' -> sky_later k k' -> (sky_ok k -> sky_ok k') -> ready device read r p k -> ready device read r p' k'.
Proof.
  intros Hp Hl Hk (Hd & Hr & Ht & Hn & Hok). specialize (Hk Hok). rewrite Hp. split_and!; [done|done|by apply (take_later _ _ _ k)|destruct Hl; lia|done].
Qed.

Lemma twp_ready {A B} device read r i (m : prog A) (f : A -> prog B) p k :
  steady true i m -> ready device read r p k -> (forall a p' k', ready device read r p' k' -> twp i (f a) (fun _ _ _ => True) p' k') ->
  twp i (prog_bind m f) (fun _ _ _ => True) p k.
Proof. intros Hm Hr Hf. apply twp_bind, Hm. intros [a|e] p' k' Hp Hl Hk; [|done]. apply Hf. by eapply ready_moves. Qed.

Lemma safe_takeLease device read r i fresh base epoch at_ p k :
  set_name base = deliverName account -> ready device read r p k ->
  twp i (takeLease fresh account base device epoch at_) (fun _ _ _ => True) p k.
Proof.
  intros Hname Hr. unfold takeLease. set (leased := with_value _ _ _ _).
  apply twp_bind, twp_call. intros p1 k1 Hs1 Hl1 Ht1 Hk1. split; [done|]. intros r1 p2 k2 (-> & -> & ->) _ _.
  set (t := sk_now k1).
  assert (Hr2 : ready device read r (put_clock t p1) k1) by (eapply ready_moves; [|exact Hl1|done|exact Hr]; rewrite Hs1; done).
  assert (Hrt : r <= t) by apply Hr2. clear Hs1 Hl1 Ht1 Hr.
  apply twp_bind, (lease_steady_call false); [done|]. intros [current|e] p3 k3 Hs3 Hl3 Hk3; [|done]. destruct (negb current); [done|].
  apply twp_bind. cbn [lift twp rowName]. apply twp_bind, (lease_steady_call false); [done|]. intros [version|e] p4 k4 Hs4 Hl4 Hk4; [|done].
  apply twp_bind, twp_call. intros p5 k5 Hs5 Hl5 Ht5 Hk5.
  assert (Hs : shifts (put_clock t p1) p5) by (eapply shifts_trans; [exact Hs3|by eapply shifts_trans]).
  assert (Hl : sky_later k1 k5) by (do 2 (etrans; [done|]); done).
  assert (Hr5 : ready device read r p5 k5) by (eapply ready_moves; [by apply kin_shifts|done|done|exact Hr2]).
  assert (Hsent : pg_sent p5 = Some t) by by rewrite Hs. destruct Hr5 as (Hd5 & Hr5 & Htake & _ & _).
  assert (Ht : t <= sk_now k5) by (destruct Hl; unfold t; lia).
  split.
  { intros x [-> _]%leaseRow_Some Hread. rewrite Hsent, Hd5. split_and!; [|done|].
    - unfold holder_text, leaseOf, value_of, leased. cbn. by rewrite map_get_set_eq.
    - intros d u Hin Hne. rewrite Hr5 in Hread. rewrite Hread in Htake. pose proof (take_apart device r k5 d u Hk5 Htake Hin Hne). lia. }
  intros [[written now]|e] p6 k6 (log & -> & Hlog & Hnow & Hcase) Ht6 Hk6; [|done]. cbn [fst snd] in *. specialize (Hnow _ eq_refl). cbn in Hnow.
  destruct written; [|done]. cbn [negb].
  destruct Hcase as [[-> Hno]|(x & s & Hx & (_ & _ & Hread) & Hlt & ->)].
  { exfalso. assert (Hsome : is_Some (leaseRow (RSettings leased))).
    { unfold Lease.leaseRow. cbn. rewrite Hname, String.eqb_refl. eauto. }
    by specialize (Hno Hsome _ eq_refl). }
  specialize (Hread eq_refl). rewrite Hr5 in Hread. rewrite Hread in Htake.
  assert (Hclaim : (device, t) ∈ sk_claims (taken_row p5 k5 x s)).
  { cbn. rewrite Hsent, Hd5. apply elem_of_app. right. by left. }
  assert (Hobs : observed_ok (lg_generation log) (taken_row p5 k5 x s)).
  { intros g Hg. destruct Hlog as (_ & _ & Hlog). split; [by apply Hlog|]. cbn. intros ->. destruct (Htake _ eq_refl) as [[_ Hb] _]. specialize (Hb eq_refl). lia. }
  apply twp_bind, twp_call. intros p7 k7 Hs7 Hl7 Ht7 Hk7. split.
  { intros h [= <-] _. exists t. rewrite Hs7. cbn. rewrite Hd5. split; [by apply Hl7|]. fold t. by destruct (reading i t). }
  intros r8 p8 k8 (-> & -> & ->) _ _. apply twp_bind.
  destruct fresh; [|done]. apply twp_call. intros p9 k9 Hs9 Hl9 Ht9 Hk9. split; [|by intros [u|e] p10 k10 _ _ _].
  cbn [allowed snd]. rewrite Hnow. apply (observed_later _ (taken_row p5 k5 x s)); [done| |done]. etrans; [exact Hl7|exact Hl9].
Qed.
(** ** Watching *)

Lemma watched_generation generation elapsed watch held : wt_generation (watched generation elapsed watch held).1 = generation.
Proof. unfold watched. destruct watch as [w|]; [destruct (decide _)|]; done. Qed.

(** The watch a pass leaves, asked for at [re] and recorded within [queued] of it. *)
Lemma watched_ok i p watch held log re k1 k generation seq :
  sky_ok k -> sky_later k1 k -> log_ok log k1 -> generation = lg_generation log -> seq = log_seq account log ->
  (forall w, watch = Some w -> watch_ok i p w k) -> sk_now k <= re + queued ->
  watch_ok i p (observe generation account seq (elapsed_at i p re) watch held).1.1 k.
Proof.
  intros Hk Hl Hlog -> -> Hw Hn. unfold observe. destruct (watched _ _ _ _) as [w h] eqn:Ew. cbn. intros g Hg. cbn in Hg |- *.
  pose proof (so_times _ Hk) as Htimes.
  assert (Hgen : wt_generation w = lg_generation log).
  { pose proof (watched_generation (lg_generation log) (elapsed_at i p re) watch held) as Hwg. by rewrite Ew in Hwg. }
  assert (Hver : of_generation g (at_version (log_seq account log) (fun e => le_put e <= re + queued)) k).
  { apply (log_later _ _ _ Hk Hl) in Hlog as (_ & _ & Hlog). rewrite Hg in Hgen. destruct (Hlog g (eq_sym Hgen)) as [H3 H4]. split; [done|].
    intros Hc. destruct (H4 Hc) as [H5 _]. split; [done|]. intros _. lia. }
  assert (Hold : watch_ok i p w k \/ wt_since w = elapsed_at i p re /\ wt_leases w = []).
  { unfold watched in Ew. destruct watch as [w0|]; [destruct (decide _)|]; injection Ew as <- <-; [left; by apply Hw|right; done..]. }
  split.
  - destruct Hold as [Hold|[-> _]]; [by apply Hold|]. exists re. split; [done|]. destruct Hver as [Hin _]. split; [done|]. intros _. lia.
  - intros l. rewrite map_get_set_eq. intros [= <-]. unfold seen. destruct (map_get account (wt_leases w)) as [l|] eqn:El; [|by exists re].
    destruct (Z.eqb_spec (sl_seq l) (log_seq account log)) as [_|]; [|by exists re].
    destruct Hold as [Hold|[_ Hnil]]; [|by rewrite Hnil in El]. by apply (Hold g Hg).
Qed.

Lemma watched_held i p generation seq elapsed watch held k :
  held_ok i p held k -> held_ok i p (observe generation account seq elapsed watch held).1.2 k.
Proof. intros Hh. unfold observe, watched. destruct watch as [w|]; [destruct (decide _)|]; done. Qed.

(** Ten minutes of watching are long enough. *)
Lemma watched_long i p re since P :
  (exists r0, pg_start p = reading i r0) -> TEN_MINUTES <= elapsed_at i p re - since ->
  (exists r, since = elapsed_at i p r /\ P r) -> exists r, P r /\ r + queued + lasts <= re.
Proof.
  intros [r0 Hr0] Hten (r & -> & HP). exists r. split; [done|]. unfold elapsed_at in Hten. rewrite Hr0 in Hten.
  apply (fair_watch i r0) in Hten. lia.
Qed.

Lemma mayTake_ok i p re k watch held log observed newest :
  tab_ok i p k -> sky_ok k -> log_ok log k -> observed_ok observed k -> re <= sk_now k ->
  let seq := log_seq account log in
  let '(watch', _, (forGeneration, forLease)) := observe (lg_generation log) account seq (elapsed_at i p re) watch held in
  pg_watch p = Some watch' ->
  mayTake (pg_device p) (mkNow log observed newest) (leaseOf (settings (deliverName account) log)) forGeneration forLease = Ok true ->
  take_ok (pg_device p) (lg_generation log, seq) (sk_now k) k.
Proof.
  intros Hp Hk Hlog Hobs Hre seq. unfold observe. destruct (watched _ _ _ _) as [w h] eqn:Ew. set (l := seen _ _ _ w). intros Hw Hmay g Hg. cbn in Hg.
  pose proof (so_times _ Hk) as Htimes. destruct (to_watch _ _ _ Hp _ Hw g) as [Hgen Hlease]; cbn [wt_generation wt_since wt_leases] in *.
  { pose proof (watched_generation (lg_generation log) (elapsed_at i p re) watch held) as Hwg. rewrite Ew in Hwg. cbn in Hwg. congruence. }
  destruct (Hlease l (map_get_set_eq _ _ _)) as (rl & Hsl & Hver). clear Hlease.
  assert (Hls : sl_seq l = seq).
  { unfold l, seen. destruct (map_get account (wt_leases w)) as [l0|]; [|done]. destruct (Z.eqb_spec (sl_seq l0) seq); done. }
  unfold mayTake in Hmay. split.
  - destruct (is_fresh _) eqn:Ef; cbn in Hmay.
    + destruct (Z.ltb_spec (elapsed_at i p re - wt_since w) TEN_MINUTES) as [|Hten]; [done|].
      destruct (watched_long i p re _ _ (to_start _ _ _ Hp) Hten Hgen) as (r & [Hin Hb] & Hr). split; [done|]. intros Hc. specialize (Hb Hc). lia.
    + unfold is_fresh in Ef. cbn in Ef. rewrite Hg in Ef. apply negb_false_iff, bool_decide_eq_true in Ef. exact (Hobs g Ef).
  - destruct Hlog as (_ & _ & Hlog). destruct (Hlog g Hg) as [Hin Hcur]. split; [done|]. intros Hc. destruct (Hcur Hc) as [Hle Hholder].
    split; [done|]. intros Hseq. split; [lia|]. specialize (Hholder Hseq).
    destruct (is_fresh _ && _); [done|]. unfold log_holder, holder_text in Hholder. destruct (bool_decide (holder_of _ = _)) eqn:Eh.
    + apply bool_decide_eq_true in Eh. rewrite Eh in Hholder. auto.
    + apply res_bind_Ok in Hmay as (decision & Hd & Ht). injection Ht as Ht%String.eqb_eq. subst decision.
      apply lease_take in Hd as [Hd|Hd]; cbn [li_holder li_observed] in Hd; [rewrite Hd in Hholder; auto|]. right. right.
      destruct (watched_long i p re (sl_since l) (fun r => le_put (sk_edge k) <= r + queued) (to_start _ _ _ Hp) Hd) as (r & Hr & Hlong); [|lia].
      exists rl. split; [done|]. destruct Hver as [_ Hver]. destruct (Hver Hc) as [_ Hver']. rewrite Hls in Hver'. by apply Hver'.
Qed.

(** ** A pass *)

(** The pass from its look at the row to its decision: the watch is kept, and what it decides is right. *)
Lemma twp_observing {A} i p k re newest (f : bool -> prog A) :
  let log := pg_log p in
  sky_ok k -> tab_ok i p k -> re <= sk_now k -> pg_called p <= re ->
  (forall p' k', pg_device p' = pg_device p -> pg_read p' = pg_read p -> sky_later k k' -> sky_ok k' ->
     take_ok (pg_device p) (lg_generation log, log_seq account log) (sk_now k') k' -> twp i (f true) (fun _ _ _ => True) p' k') ->
  safe i (f false) ->
  twp i (let* watch := call GetWatch in
         let* held := call GetHeld in
         let '(watch, held, (forGeneration, forLease)) :=
           observe (lg_generation log) account (log_seq account log) (elapsed_at i p re) watch held in
         call (SetWatch watch);;; call (SetHeld held);;;
         let* may := lift (mayTake (pg_device p) (mkNow log (pg_observed p) newest) (leaseOf (settings (deliverName account) log)) forGeneration forLease) in
         f may) (fun _ _ _ => True) p k.
Proof.
  intros log Hk Hp Hre Hcalled Htrue Hfalse.
  apply twp_bind, twp_call. intros p1 k1 Hs1 Hl1 _ Hk1. split; [done|]. intros r q j (-> & -> & ->) _ _.
  apply twp_bind, twp_call. intros p2 k2 Hs2 Hl2 _ Hk2. split; [done|]. intros r q j (-> & -> & ->) _ _.
  destruct (observe _ _ _ _ _ _) as [[watch held] [forGeneration forLease]] eqn:Eo.
  apply twp_bind, twp_call. intros p3 k3 Hs3 Hl3 Ht3 Hk3.
  assert (Hs : kin p p3) by (rewrite Hs3, Hs2, Hs1; by destruct p). assert (Hl : sky_later k k3) by (do 2 (etrans; [eassumption|]); done).
  assert (Hn3 : sk_now k <= sk_now k3) by (by destruct Hl).
  split.
  { cbn. intros Hq. pose proof (watched_ok i p3 (pg_watch p1) (pg_held p2) log re k k3 _ _ Hk3 Hl (to_log _ _ _ Hp) eq_refl eq_refl) as Hw.
    assert (He : elapsed_at i p3 re = elapsed_at i p re) by by rewrite Hs. rewrite He, Eo in Hw. apply Hw.
    - intros w Hw'. apply (to_watch _ _ _ Ht3). rewrite Hs3, Hs2. exact Hw'.
    - rewrite Hs in Hq. cbn in Hq. lia. }
  intros r q j (-> & -> & -> & _) _ _.
  apply twp_bind, twp_call. intros p4 k4 Hs4 Hl4 Ht4 Hk4. split.
  { cbn. pose proof (watched_held i p4 (lg_generation log) (log_seq account log) (elapsed_at i p re) (pg_watch p1) (pg_held p2) k4) as Hh.
    rewrite Eo in Hh. apply Hh. pose proof (to_held _ _ _ Ht4) as Hh4. rewrite Hs4 in Hh4 |- *. cbn in Hh4. rewrite Hs3 in Hh4 |- *. exact Hh4. }
  intros r q j (-> & -> & ->) Ht4' _. apply twp_bind. cbn [lift twp]. destruct (mayTake _ _ _ _ _) as [[|]|] eqn:Em; [|apply Hfalse|done].
  assert (Hl' : sky_later k k4) by (by etrans).
  apply Htrue; [rewrite Hs4, Hs; done|rewrite Hs4, Hs; done|done|done|].
  pose proof (mayTake_ok i (put_held held p4) re k4 (pg_watch p1) (pg_held p2) log (pg_observed p) newest Ht4' Hk4) as Hm.
  assert (He : elapsed_at i (put_held held p4) re = elapsed_at i p re) by (rewrite Hs4, Hs; done). cbv zeta in Hm. rewrite He, Eo in Hm.
  assert (Hd : pg_device (put_held held p4) = pg_device p) by (rewrite Hs4, Hs; done). rewrite Hd in Hm. apply Hm; [..|exact Em].
  - apply (log_later _ k); [done..|]. apply (to_log _ _ _ Hp).
  - apply (observed_later _ k); [done..|]. apply (to_observed _ _ _ Hp).
  - destruct Hl'. lia.
  - by rewrite Hs4.
Qed.

Ltac ready_step := eapply twp_ready; [by apply lease_steady_call|eassumption|intros ? ? ? ?].

Lemma safe_deliverAccount i re token p k :
  re <= sk_now k -> pg_called p <= re ->
  twp i (deliverAccount (pg_device p) (elapsed_at i p re) account token) (fun _ _ _ => True) p k.
Proof.
  intros Hre Hcalled. unfold deliverAccount. apply twp_bind, (lease_steady_call false); [done|]. intros [current|e] p1 k1 Hs1 Hl1 _; [|done].
  destruct (negb current); [done|]. apply twp_look. intros p2 k2 newest Hsent2 Hread2 Hp2 Hl2 Ht2 Hk2. cbn [ln_log ln_observed ln_newest].
  set (log := pg_log p2) in *. set (base := default _ _).
  assert (Hbase : set_name base = deliverName account).
  { unfold base. destruct (settings _ _) as [row|] eqn:Erow; [|done]. destruct (to_log _ _ _ Ht2) as (_ & Hnames & _). by apply Hnames. }
  assert (Hd : pg_device p = pg_device p2) by (rewrite Hp2, Hs1; done).
  assert (He : elapsed_at i p re = elapsed_at i p2 re) by (rewrite Hp2, Hs1; done).
  assert (Hc : pg_called p2 = pg_called p) by (rewrite Hp2, Hs1; done).
  assert (Hn : sk_now k <= sk_now k2) by (destruct Hl1, Hl2; lia). rewrite Hd, He.
  apply twp_bind. cbn [lift twp rowName]. rewrite Hbase. change (seqOf ("set:" +:+ deliverName account) log) with (log_seq account log).
  apply (twp_observing i p2 k2 re newest); [done|done|lia|lia| |done].
  intros p3 k3 Hd3 Hr3 Hl3 Hk3 Htake. cbn [negb].
  assert (Hready : ready (pg_device p2) (pg_read p2) (sk_now k3) p3 k3) by (split_and!; [done|done|by rewrite Hread2|lia|done]).
  clear - Hready Hbase FairClocks0 Hlasts Hqueued H2.
  do 2 ready_step. eapply twp_ready; [apply lease_steady_ret|eassumption|]. intros given p4 k4 Hr4. do 4 ready_step.
  eapply twp_ready; [apply lease_steady_ret|eassumption|]. intros pending p5 k5 Hr5. do 3 ready_step.
  set (epoch := match _ with Some _ => _ | None => _ end). apply twp_bind. eapply twp_mono; cycle 1.
  { destruct (match _ with Some _ => _ | None => _ end); [by eapply safe_takeLease|done]. }
  intros [taken|e] p6 k6 _; [|done]. destruct (negb taken); [done|]. generalize p6 k6. apply safe_bind; [by apply safe_call|]. intros c1.
  destruct (negb c1); [done|]. apply safe_bind; [apply safe_writeAccountState|]. intros _. apply safe_bind; [by apply safe_call|]. intros c2.
  destruct (negb c2); [done|]. apply safe_deliverHeld.
Qed.

Lemma safe_deliver i r0 p k : pg_start p = reading i r0 -> tab_ok i p k ->
  twp i (deliverSimklWithClock (pg_device p) (pg_start p)) (fun _ _ _ => True) p k.
Proof.
  intros Hr0 Hp. unfold deliverSimklWithClock. apply twp_bind, twp_call. intros p1 k1 Hs1 Hl1 Ht1 Hk1. split; [done|].
  intros r q j (-> & -> & ->) _ _. set (re := sk_now k1). set (p1' := put_clock _ p1). cbv zeta.
  change (pageElapsed (pg_start p) (reading i re)) with (elapsed_at i p re).
  assert (Hsame : pg_device p = pg_device p1' /\ elapsed_at i p re = elapsed_at i p1' re /\ pg_called p1' <= re).
  { unfold p1'. split_and!; [by rewrite Hs1..|]. apply (to_called _ _ _ Ht1). } destruct Hsame as (-> & -> & Hc). clear Hs1.
  apply twp_bind, (lease_steady_call false); [done|]. intros [current|e] p2 k2 Hs2 Hl2 _; [|done]. destruct (negb current); [done|].
  apply twp_look. intros p3 k3 newest _ _ Hp3 Hl3 Ht3 Hk3. cbn [ln_log].
  destruct (connection _) as [[other text]|] eqn:Econ; [|done]. destruct (_ && _); [done|]. destruct (access_token text) as [token|]; [|done].
  destruct (to_log _ _ _ Ht3) as (Hone & _ & _). specialize (Hone _ _ Econ). subst other.
  apply twp_bind, (lease_steady_call false); [done|]. intros [u|e] p4 k4 Hs4 Hl4 _; [|done].
  apply twp_bind, (lease_steady_call false); [done|]. intros [v|e] p5 k5 Hs5 Hl5 _; [|done].
  assert (Hsame : pg_device p1' = pg_device p5 /\ elapsed_at i p1' re = elapsed_at i p5 re /\ pg_called p5 = pg_called p1').
  { rewrite Hs5, Hs4, Hp3, Hs2. done. } destruct Hsame as (-> & -> & Hc5).
  apply safe_deliverAccount; [destruct Hl2, Hl3, Hl4, Hl5; unfold re; lia|lia].
Qed.
(** ** Every world *)

Record world_ok (w : World) : Prop := {
  wo_sky : sky_ok (w_sky w);
  wo_tabs : forall i p m, w_tabs w !! i = Some (p, m) -> tab_ok i p (w_sky w) /\ twp i m (fun _ _ _ => True) p (w_sky w);
}.

Lemma twp_later {A} i (m : prog A) p k p1 k1 :
  shifts p p1 -> sky_later k k1 -> twp i m (fun _ _ _ => True) p k -> twp i m (fun _ _ _ => True) p1 k1.
Proof. intros Hs Hl. destruct m as [r|op c]; [done|]. by apply twp_moves. Qed.

Lemma sky_step_ok k k' : sky_ok k -> sky_step k k' -> sky_ok k' /\ sky_later k k'.
Proof.
  intros [I1 I2 I3 I4] Hs. destruct Hs as [d Hd|s Hs e|g s holder Hg].
  - split; [split; cbn; [exact I1|lia|exact I3|exact I4]|]. split_and!; cbn [sk_now sk_edge sk_claims]; [lia|done|reflexivity].
  - subst e. split; [|split_and!; cbn; [lia|done|left; cbn; auto]]. split; cbn; [done|lia| |exact I4].
    intros d t Hin. destruct (I3 d t Hin) as [Hd [?|[? Ho]]]; split; [done|by left|done|]. right. split; [lia|]. intros Hh. specialize (Ho Hh). lia.
  - split; [|split_and!; cbn; [lia|done|right; done]]. split; cbn; [done|lia| |exact I4].
    intros d t Hin. destruct (I3 d t Hin) as [Hd [?|[? _]]]; (split; [done|left; lia]).
Qed.

(** The tabs of a world after one of them moved, with the sky. *)
Lemma world_moves w i p m k' p' m' :
  world_ok w -> w_tabs w !! i = Some (p, m) -> sky_ok k' -> sky_later (w_sky w) k' -> tab_ok i p' k' -> twp i m' (fun _ _ _ => True) p' k' ->
  world_ok (mkWorld k' (<[i := (p', m')]> (w_tabs w))).
Proof.
  intros [Hk Ht] Hi Hk' Hl Hp' Hm'. split; [done|]. cbn. intros j q n Hj. destruct (decide (i = j)) as [<-|Hne].
  - rewrite list_lookup_insert_eq in Hj by (by eapply lookup_lt_Some). injection Hj as <- <-. done.
  - rewrite list_lookup_insert_ne in Hj by done. destruct (Ht j q n Hj) as [Hq Hn]. split; [by apply (tab_later _ _ (w_sky w))|].
    by apply (twp_later j n q (w_sky w)); [apply shifts_refl|..].
Qed.

Lemma world_step_ok w w' : world_ok w -> world_step account reading queued true w w' -> world_ok w'.
Proof.
  intros Hw Hs. pose proof Hw as [Hk Ht]. destruct Hs as [k Hsky|p (H3 & H4 & H5 & H6 & H7 & H8 & H9)|i p m log Hi Hlog|i p r Hi|i p r shown Hi|i p op c r p' k' Hi Hact].
  - destruct (sky_step_ok _ _ Hk Hsky) as [Hk' Hl]. split; [done|]. cbn. intros i p m Hi. destruct (Ht i p m Hi) as [Hp Hm].
    split; [by apply (tab_later _ _ (w_sky w))|]. by apply (twp_later i m p (w_sky w)); [apply shifts_refl|..].
  - split; [done|]. cbn. intros i q m [Hi|[Hlen Hi]]%lookup_app_Some; [by apply Ht|]. apply list_lookup_singleton_Some in Hi as [Hi [= <- <-]].
    assert (i = length (w_tabs w)) as -> by lia. split; [|done]. split; [done|eauto|lia|done|by rewrite H7| |by rewrite H8].
    destruct H6 as [->|(q & m & (j & Hj)%list_elem_of_lookup & _ & ->)]; [done|]. apply (to_observed j). by apply (Ht j q m).
  - destruct (Ht i p m Hi) as [Hp Hm]. apply (world_moves w i p m); [done|done|done|reflexivity| |].
    + destruct Hp. by split.
    + by apply (twp_later i m p (w_sky w)).
  - destruct (Ht i p _ Hi) as [Hp Hm]. assert (Hp' : tab_ok i (put_called (sk_now (w_sky w)) p) (w_sky w)) by (destruct Hp; split; try done; cbn; lia).
    apply (world_moves w i p (Ret r)); [done|done|done|reflexivity|done|]. destruct (to_start _ _ _ Hp') as [r0 Hr0].
    by apply (safe_deliver i r0 (put_called (sk_now (w_sky w)) p) (w_sky w)).
  - destruct (Ht i p _ Hi) as [Hp Hm]. apply (world_moves w i p (Ret r)); [done|done|done|reflexivity|done|]. apply safe_approve.
  - destruct (Ht i p _ Hi) as [Hp Hm]. destruct (Hm p (w_sky w) (shifts_refl p) (reflexivity _) Hp Hk) as [Ha Hc].
    destruct (acts_ok i op p (w_sky w) r p' k' Hk Hp Ha Hact) as (Hk' & Hl & Hp'). apply (world_moves w i p (Call op c)); [done..|]. by apply Hc.
Qed.

Lemma lease_reach_ok w : lease_reach account reading queued true w -> world_ok w.
Proof.
  intros (w0 & (H3 & H4 & H5 & H6) & Hr). assert (Hw0 : world_ok w0).
  { split; [|rewrite H3; intros i p m Hi; by rewrite lookup_nil in Hi]. split; [done|done|rewrite H4; set_solver|rewrite H4; set_solver]. }
  clear H3 H4 H5 H6. induction Hr as [w|w1 w2 w3 Hs _ IH]; [done|]. apply IH. by eapply world_step_ok.
Qed.

(** A call a page is about to make is allowed. *)
Lemma call_allowed w i p op c : world_ok w -> w_tabs w !! i = Some (p, Call op c) -> allowed i op p (w_sky w).
Proof. intros [Hk Ht] Hi. destruct (Ht i p _ Hi) as [Hp Hm]. by destruct (Hm p (w_sky w) (shifts_refl p) (reflexivity _) Hp Hk). Qed.

(** Two claims whose hours overlap are of one device. *)
Lemma overlap_same i j p q w :
  world_ok w -> (exists m, w_tabs w !! i = Some (p, m)) -> (exists m, w_tabs w !! j = Some (q, m)) ->
  holds account reading i p w -> holds account reading j q w -> pg_device p = pg_device q.
Proof.
  intros [Hk Ht] [m Hi] [n Hj] Hp Hq.
  assert (Hclaim : forall i p m, w_tabs w !! i = Some (p, m) -> holds account reading i p w -> exists t, (pg_device p, t) ∈ sk_claims (w_sky w) /\ t <= sk_now (w_sky w) < t + lasts).
  { clear - Hk Ht FairClocks0. intros i p m Hi Hp. destruct (Ht i p m Hi) as [Hok _]. unfold holds, holding in Hp. destruct (pg_held p) as [h|] eqn:Eh; [|done].
    apply andb_true_iff in Hp as [Ha%String.eqb_eq [Hw Hx]%andb_true_iff]. destruct (to_held _ _ _ Hok h Eh Ha) as (t & Hin & Hr).
    exists t. split; [done|]. destruct (so_claims _ Hk _ _ Hin) as [_ Hle]. pose proof (so_times _ Hk).
    assert (t <= sk_now (w_sky w)) by lia. split; [done|]. apply negb_true_iff, Z.ltb_ge in Hw. apply Z.ltb_lt in Hx.
    pose proof (fair_hold i t (sk_now (w_sky w))) as Hf. rewrite <- Hr in Hf. cbn in Hf. lia. }
  destruct (Hclaim i p m Hi Hp) as (t & Hin & Hb). destruct (Hclaim j q n Hj Hq) as (t' & Hin' & Hb').
  destruct (decide (pg_device p = pg_device q)) as [|Hne]; [done|]. destruct (so_apart _ Hk _ _ _ _ Hin Hin' Hne); lia.
Qed.
End Safety.

(** C7: one device delivers at a time. Take clocks on which a lease held lasts less than [lasts] and ten minutes of
    watching take at least [waits], and passes that record what they watch within [queued] of being asked for, where
    [queued + lasts <= waits]; and rows written only on the version they were read at. Whatever passes the pages of any
    number of devices then run, however they interleave and fail, and whenever the library is restored: no two devices
    hold the lease at once; and a page that asks SIMKL to change anything has found that it holds the lease at the first
    reading of its clocks since it looked at the lease it holds, which is its last reading, or, of a removal it
    reserved first, the one before the two the reservation takes. *)
Theorem lease_exclusive `{NamePolicy, DeliveryApi, DeliveryPolicy, !LeaseLaws} account reading lasts waits queued `{!FairClocks reading lasts waits} w :
  0 <= lasts -> queued + lasts <= waits -> lease_reach account reading queued true w ->
  (forall i j p q m n, w_tabs w !! i = Some (p, m) -> w_tabs w !! j = Some (q, n) ->
     holds account reading i p w -> holds account reading j q w -> pg_device p = pg_device q) /\
  (forall i p clientId token path body c, w_tabs w !! i = Some (p, Call (Post clientId token path body) c) ->
     exists t later, pg_asked p = t :: later /\ t <= sk_now (w_sky w) /\ holding (pg_held p) account (reading i t) = true /\
       (later = [] \/ path = "/sync/history/remove" /\ length later = 2%nat)).
Proof.
  intros Hlasts Hqueued Hr. pose proof (lease_reach_ok account reading lasts waits queued Hlasts Hqueued w Hr) as Hw. split.
  - intros i j p q m n Hi Hj. apply (overlap_same account reading lasts waits queued i j p q w Hw); eauto.
  - intros i p clientId token path body c Hi. exact (call_allowed account reading lasts waits queued Hlasts Hqueued w i p _ c Hw Hi).
Qed.
