(* ===== verification/LeaseExample.v ===== *)
(** * Leases on concrete worlds

    Worlds played step by step: a device that takes the lease and delivers under it, and two that hold it at once
    because the row was read before it changed and written on its version after ([lease_overlap]). *)

From S2P Require Import Prelude JsMap JsText Json Wire LibraryV4 ProfileKeys ResetJournal LogState Log Delivery Lease LeaseSafety.
Open Scope Z_scope.

(** ** Playing *)

Section Playing.
Context `{NamePolicy, DeliveryApi, DeliveryPolicy}.
Context (account : string) (reading : nat -> Z -> Reading) (queued : Z) (as_read : bool).

Definition named_entry (p : string * Entry) : bool :=
  match en_row p.2 with RSettings row => String.eqb p.1 ("set:" +:+ set_name row) | _ => true end.

Definition truthfulb (e : Lease.Edge) (log : Log) : bool :=
  match connection log with Some (other, _) => String.eqb other account | None => true end &&
  forallb named_entry (lg_entries log) &&
  match lg_generation log with
  | Some g => bool_decide (g ∈ generations e) &&
      (negb (String.eqb g (le_generation e)) ||
       ((log_seq account log <=? le_seq e) && (negb (log_seq account log =? le_seq e) || String.eqb (log_holder account log) (le_holder e))))
  | None => true
  end.

Lemma truthfulb_sound e log : truthfulb e log = true -> truthful account e log.
Proof.
  unfold truthfulb. intros [[Hc Hn]%andb_true_iff Hg]%andb_true_iff. split_and!.
  - intros other text Hcon. rewrite Hcon in Hc. by apply String.eqb_eq.
  - intros name row Hs. unfold settings in Hs. destruct (map_get _ (lg_entries log)) as [[s r]|] eqn:Em; [|done].
    destruct r as [| |r|]; try done. injection Hs as <-. apply map_get_elem in Em. rewrite forallb_forall in Hn.
    specialize (Hn _ (proj1 (list_elem_of_In _ _) Em)). apply String.eqb_eq in Hn. cbn in Hn. by injection Hn as ->.
  - intros g Hsome. rewrite Hsome in Hg. apply andb_true_iff in Hg as [Hin%bool_decide_eq_true Hg]. split; [done|]. intros ->.
    rewrite String.eqb_refl in Hg. cbn in Hg. apply andb_true_iff in Hg as [Hle%Z.leb_le Hh]. split; [done|]. intros Heq.
    rewrite Heq, Z.eqb_refl in Hh. cbn in Hh. by apply String.eqb_eq.
Qed.

Definition acceptsb (p : Tab) (k : Sky) (base : Z) : bool :=
  String.eqb (header_generation (pg_log p)) (le_generation (sk_edge k)) && (base =? le_seq (sk_edge k)) &&
  (negb as_read || bool_decide (pg_read p = (Some (le_generation (sk_edge k)), le_seq (sk_edge k)))).

Definition acknowledged (seq : Z) (row : Row) (log : Log) : Log := set_entries (map_set (rowKeyName account) (mkLogEntry seq row) (lg_entries log)) log.

(** One way to answer a call: the newest stamp is the zero stamp, what was kept is [kept], a write is taken where it can
    be, and SIMKL has nothing and takes everything. *)
Definition perform (i : nat) (kept : option json) (op : Eff) (p : Tab) (k : Sky) : option (res (answer op) * Tab * Sky) :=
  match op return option (res (answer op) * Tab * Sky) with
  | Clocks => Some (Ok (reading i (sk_now k)), put_clock (sk_now k) p, k)
  | LookLog => Some (Ok (mkNow (pg_log p) (pg_observed p) ZERO_STAMP), put_read (lg_generation (pg_log p), log_seq account (pg_log p)) p, k)
  | SeqOf name => Some (Ok (seqOf name (pg_log p)), p, k)
  | Documents => Some (Ok (held_documents (pg_log p)), p, k)
  | GetHeld => Some (Ok (pg_held p), put_asked [] p, k)
  | SetHeld held => Some (Ok tt, put_held held p, k)
  | GetWatch => Some (Ok (pg_watch p), p, k)
  | SetWatch watch => if sk_now k - pg_called p <=? queued then Some (Ok tt, put_watch (Some watch) p, k) else None
  | SetObserved generation => Some (Ok tt, put_observed generation p, k)
  | WriteAt row base =>
      match leaseRow account row with
      | Some x =>
          if acceptsb p k base then
            let s := le_seq (sk_edge k) + 1 in
            let k' := taken_row p k x s in
            let log := acknowledged s row (pg_log p) in
            if truthfulb (sk_edge k') log then Some (Ok (true, mkNow log (pg_observed p) ZERO_STAMP), put_log log p, k') else None
          else None
      | None => None
      end
  | See _ => Some (Ok tt, p, k)
  | Issue => Some (Ok (mkStamp (sk_now k) 0 (pg_device p)), p, k)
  | Kept _ => Some (Ok kept, p, k)
  | Keep _ _ => Some (Ok tt, p, k)
  | Current => Some (Ok true, p, k)
  | LoadPolicy => Some (Ok tt, p, k)
  | Exclusive _ => Some (Ok tt, p, k)
  | ClientId => Some (Ok (Some "client"), p, k)
  | AllItems _ _ => Some (Ok (Some (JObj [])), p, k)
  | Post _ _ _ _ => Some (Ok true, p, k)
  end.

Lemma perform_acts i kept op p k r p' k' : perform i kept op p k = Some (r, p', k') -> acts account reading queued as_read i op p k r p' k'.
Proof.
  destruct op; cbn; intros Hp; try (injection Hp as <- <- <-; by eauto).
  - destruct (Z.leb_spec (sk_now k - pg_called p) queued); [|done]. by injection Hp as <- <- <-.
  - destruct (leaseRow account row) as [x|] eqn:Ex; [|done]. destruct (acceptsb p k base) eqn:Ea; [|done].
    destruct (truthfulb _ _) eqn:Et; [|done]. injection Hp as <- <- <-. eexists. split_and!; [done|by apply truthfulb_sound|by intros b [= <-]|].
    right. exists x, (le_seq (sk_edge k) + 1). split_and!; [done| |lia|done].
    unfold acceptsb in Ea. apply andb_true_iff in Ea as [[Eg%String.eqb_eq Eb%Z.eqb_eq]%andb_true_iff Er]. split_and!; [done|done|].
    intros ->. by apply bool_decide_eq_true in Er.
Qed.

Inductive Move : Type :=
| MTime (d : Z)
| MRestore (generation : string) (s : Z) (holder : string)
| MOpen (device : string) (log : Log)
| MRead (i : nat) (log : Log)
| MDeliver (i : nat)
| MAct (i : nat) (kept : option json).

Definition play (w : World) (m : Move) : option World :=
  match m with
  | MTime d => if 0 <=? d then Some (mkWorld (mkSky (sk_now (w_sky w) + d) (sk_edge (w_sky w)) (sk_claims (w_sky w))) (w_tabs w)) else None
  | MRestore generation s holder =>
      if bool_decide (generation ∈ generations (sk_edge (w_sky w))) then None
      else Some (mkWorld (mkSky (sk_now (w_sky w)) (mkRowEdge generation (generations (sk_edge (w_sky w))) s holder (sk_now (w_sky w)) (sk_now (w_sky w)))
             (sk_claims (w_sky w))) (w_tabs w))
  | MOpen device log =>
      let p := mkTab device (reading (length (w_tabs w)) (sk_now (w_sky w))) log None None None (sk_now (w_sky w)) (None, 0) None [] in
      if truthy device && truthfulb (sk_edge (w_sky w)) log then Some (mkWorld (w_sky w) (w_tabs w ++ [(p, Ret (Ok true))])) else None
  | MRead i log =>
      match w_tabs w !! i with
      | Some (p, m) => if truthfulb (sk_edge (w_sky w)) log then Some (mkWorld (w_sky w) (<[i := (put_log log p, m)]> (w_tabs w))) else None
      | None => None
      end
  | MDeliver i =>
      match w_tabs w !! i with
      | Some (p, Ret _) => Some (mkWorld (w_sky w) (<[i := (put_called (sk_now (w_sky w)) p, deliverSimklWithClock (pg_device p) (pg_start p))]> (w_tabs w)))
      | _ => None
      end
  | MAct i kept =>
      match w_tabs w !! i with
      | Some (p, Call op c) =>
          match perform i kept op p (w_sky w) with Some (r, p', k') => Some (mkWorld k' (<[i := (p', c r)]> (w_tabs w))) | None => None end
      | _ => None
      end
  end.

Lemma play_step w m w' : play w m = Some w' -> world_step account reading queued as_read w w'.
Proof.
  destruct m; cbn [play].
  - destruct (Z.leb_spec 0 d); [|done]. intros [= <-]. by apply world_sky, sky_time.
  - destruct (bool_decide _) eqn:Eg; [done|]. intros [= <-]. apply bool_decide_eq_false in Eg. by apply world_sky, sky_restore.
  - destruct (truthy device) eqn:Ed; [|done]. destruct (truthfulb _ _) eqn:Et; [|done]. intros [= <-]. apply world_open.
    split_and!; [by apply truthy_ne|done|by apply truthfulb_sound|by left|done..].
  - destruct (w_tabs w !! i) as [[p n]|] eqn:Ei; [|done]. destruct (truthfulb _ _) eqn:Et; [|done]. intros [= <-]. by eapply world_read, truthfulb_sound.
  - destruct (w_tabs w !! i) as [[p [r|op c]]|] eqn:Ei; try done. intros [= <-]. by eapply (world_deliver _ _ _ _ w i p r).
  - destruct (w_tabs w !! i) as [[p [r|op c]]|] eqn:Ei; try done. destruct (perform _ _ _ _ _) as [[[r p'] k']|] eqn:Ep; [|done].
    intros [= <-]. eapply world_act; [done|by eapply perform_acts].
Qed.

Fixpoint plays (w : World) (ms : list Move) : option World :=
  match ms with [] => Some w | m :: ms => match play w m with Some w' => plays w' ms | None => None end end.

Lemma plays_reach w ms w' : initial w -> plays w ms = Some w' -> lease_reach account reading queued as_read w'.
Proof.
  intros Hi Hp. exists w. split; [done|]. clear Hi. revert w Hp. induction ms as [|m ms IH]; intros w; cbn; [by intros [= <-]|].
  destruct (play w m) as [w1|] eqn:E; [|done]. intros Hp. eapply rtc_l; [by eapply play_step|by apply IH].
Qed.
End Playing.

(** ** A small library *)

#[local] Instance demo_names : NamePolicy := fun _ => Throw "no document".
#[local] Instance demo_api : DeliveryApi := {|
  js_String := fun _ => "";
  js_Number := str_Z;
  date_parse := fun _ => None;
  json_read := fun _ => Some (JObj [("access_token", JStr "token")]);
  json_text := fun _ => "{}"
|}.

(** A film put on the list, to be sent. *)
Definition listing : V4Target := mkTarget "dlv:simkl:7:movie:550" "list" JNull (JObj [("kind", JStr "list"); ("added", JBool true)]).

#[local] Instance demo_policy : DeliveryPolicy := {|
  policy_lease := fun input =>
    Ok (if String.eqb (default "" (li_holder input)) "" || (TEN_MINUTES <=? li_observed input) then "take" else "wait");
  policy_pending := fun _ _ _ => Ok (mkPending [listing] [] 1 None None None);
  policy_settle := fun _ _ _ _ => Ok JNull;
  policy_delivery_write := fun _ _ => Ok (mkDocumentRow KDelivery 4 (mkRef "movie" 550) None (Some "simkl") (Some "7") [], []);
  policy_decide := fun _ _ => Ok (JObj [("action", JStr "send")])
|}.

Lemma demo_lease_laws : LeaseLaws.
Proof.
  intros input. cbn. destruct (String.eqb_spec (default "" (li_holder input)) "") as [->|]; [by left|].
  destruct (Z.leb_spec TEN_MINUTES (li_observed input)); [by right|done].
Qed.

(** Clocks that show the real time. *)
Definition exact (i : nat) (r : Z) : Reading := mkReading r r.

Lemma exact_fair : FairClocks exact HOLD TEN_MINUTES.
Proof. split; unfold exact, pageElapsed; cbn; lia. Qed.

(** As long as a pass may wait with such clocks. *)
Definition EIGHT_MINUTES : Z := TEN_MINUTES - HOLD.

Definition deliver_row (lease : list string) : Row :=
  RSettings (mkSettingsRow 2 "deliver:simkl:7" [("lease", mkStamped (Some (CStrings lease)) ZERO_STAMP)] []).

(** A log that has read version [s] of the row. *)
Definition demo_log (s : Z) (lease : list string) : Log :=
  mkLog (mkHeld [("set:trackers", mkLogEntry 1 (RSettings (mkSettingsRow 2 "trackers" [("simkl:7", mkStamped (Some (CString "{}")) ZERO_STAMP)] [])));
                 ("set:deliver:simkl:7", mkLogEntry s (deliver_row lease))] [] [] false s (Some "g") None 0 false [] None)
    (mkControl 5 None [] [] [] false 0 None [] false 0)
    (mkStanding true false true false false 0 None 0 0) (mkOutcome false false false).

Definition demo_start : World := mkWorld (mkSky 0 (mkRowEdge "g" [] 5 "" 0 0) []) [].

Lemma demo_initial : initial demo_start.
Proof. split_and!; [done|done|set_solver|cbn; lia|cbn; lia]. Qed.

Definition acting (n i : nat) : list Move := replicate n (MAct i None).

(** Two devices watch the generation for ten minutes. *)
Definition watching : list Move :=
  [MOpen "A" (demo_log 5 [""; "1"]); MOpen "B" (demo_log 5 [""; "1"]); MDeliver 0] ++ acting 11 0 ++ [MDeliver 1] ++ acting 11 1 ++ [MTime TEN_MINUTES].


(** The first then takes the lease and begins to deliver. *)
Definition reserved : json := safety_json (mkSafety [("2", 1)] []).
Definition delivering : list Move := watching ++ [MDeliver 0] ++ acting 36 0 ++ [MAct 0 (Some reserved)] ++ acting 3 0.

(** The second reads the row before the first takes it, and writes it after its log has read the first's. *)
Definition racing : list Move :=
  watching ++ [MDeliver 1] ++ acting 15 1 ++ [MDeliver 0] ++ acting 25 0 ++ [MRead 1 (demo_log 6 ["A"; "2"])] ++ acting 10 1.

Definition played (as_read : bool) (ms : list Move) : World := default demo_start (plays "7" exact EIGHT_MINUTES as_read demo_start ms).

Lemma played_reach as_read ms :
  match plays "7" exact EIGHT_MINUTES as_read demo_start ms with Some _ => true | None => false end = true ->
  lease_reach "7" exact EIGHT_MINUTES as_read (played as_read ms).
Proof. unfold played. destruct (plays _ _ _ _ _ _) as [w|] eqn:Hw; [|done]. intros _. by eapply plays_reach; [apply demo_initial|]. Qed.

Definition tab_of (i : nat) (w : World) : Tab :=
  default (mkTab "" (exact 0 0) (demo_log 0 []) None None None 0 (None, 0) None []) ((w_tabs w).*1 !! i).

(** C17: two devices can hold the lease at once. Both have watched long enough and find no holder; the second reads the
    row, then waits for its clock and for what it kept; meanwhile the first takes the lease and the second's log reads
    that. What the second then writes is the row as it read it, on the version it has not looked at: den-edge takes it. *)
Theorem lease_overlap :
  exists w p q, lease_reach "7" exact EIGHT_MINUTES false w /\ (w_tabs w).*1 = [p; q] /\ pg_device p = "A" /\ pg_device q = "B" /\
    holds "7" exact 0 p w /\ holds "7" exact 1 q w /\ hl_epoch <$> pg_held p = hl_epoch <$> pg_held q.
Proof.
  exists (played false racing), (tab_of 0 (played false racing)), (tab_of 1 (played false racing)).
  split; [apply played_reach; vm_compute; reflexivity|]. vm_compute. done.
Qed.

(** The first device, asking SIMKL while it holds the lease. *)
Lemma lease_exclusive_witness :
  let w := played true delivering in
  lease_reach "7" exact EIGHT_MINUTES true w /\
  (forall p clientId token path body c, w_tabs w !! 0%nat = Some (p, Call (Post clientId token path body) c) ->
     exists t, pg_asked p = [t] /\ holding (pg_held p) "7" (exact 0 t) = true) /\
  match w_tabs w !! 0%nat with Some (_, Call (Post _ _ path _) _) => path | _ => "" end = "/sync/add-to-list".
Proof.
  cbv zeta. assert (Hr : lease_reach "7" exact EIGHT_MINUTES true (played true delivering)) by (apply played_reach; vm_compute; reflexivity).
  split; [exact Hr|]. split; [|vm_compute; reflexivity]. intros p clientId token path body c Hi.
  pose proof demo_lease_laws as Hlaws. pose proof exact_fair as Hfair.
  destruct (lease_exclusive "7" exact HOLD TEN_MINUTES EIGHT_MINUTES (played true delivering) ltac:(unfold HOLD; lia) ltac:(unfold EIGHT_MINUTES; lia) Hr) as [_ Hpost].
  destruct (Hpost 0%nat p clientId token path body c Hi) as (t & later & Hasked & _ & Hh & [Hlater|[Hpath _]]).
  - exists t. split; [rewrite <- Hlater; exact Hasked|exact Hh].
  - exfalso. revert Hi Hpath. vm_compute. congruence.
Defined.

(** ** Two accounts *)

(** The calls a program may come to make while the log reads [log]. *)
Definition answers_from (log : Log) (op : Eff) : res (answer op) -> Prop :=
  match op return res (answer op) -> Prop with
  | LookLog => fun r => forall now, r = Ok now -> ln_log now = log
  | _ => fun _ => True
  end.
Fixpoint asks {A} (log : Log) (m : prog A) (e : Eff) : Prop :=
  match m with
  | Ret _ => False
  | Call op c => op = e \/ exists r, answers_from log op r /\ asks log (c r) e
  end.

(** What is shown of an account: the removals den-core holds back, decided on the account's row. *)
Definition shown_of `{DeliveryApi, DeliveryPolicy} (log : Log) (account : string) (row : SettingsRow) (now : Z) : res HeldRemovals :=
  let! since := jsonSetting row "since" in
  match since with
  | Some since =>
      if jtrue (Some since) then
        let! pending := policy_pending (held_documents log).*2 (deliverFacts row account since []) now in
        Ok (mkRemovals (omap held_title (pn_commands pending)) (pn_approval pending))
      else Ok (mkRemovals [] None)
  | None => Ok (mkRemovals [] None)
  end.

(** An account's row with the removals up to a stamp approved. *)
Definition approved_row `{DeliveryApi} (approval at_ : Stamp) (row : SettingsRow) : Row :=
  RSettings (with_value "removals" (CString (latchText (map_set "approved" (stamp_json approval) (latch_members (latchSetting row))))) at_ row).

Lemma approve_writes `{NamePolicy, DeliveryApi, DeliveryPolicy} log account shown row base :
  simklAccountOf log = Some account -> truthy account = true ->
  asks log (approveSimklRemovals shown) (WriteAt row base) <->
  exists held approval at_, settings (deliverName account) log = Some held /\ hr_approval shown = Some approval /\ row = approved_row approval at_ held.
Proof.
  intros Hacc Htrue. split.
  - intros [?|([now|e] & Hr & Ha)]; [done| |done]. specialize (Hr now eq_refl).
    cbn in Ha. rewrite Hr, Hacc, Htrue in Ha. destruct (settings _ log) as [held|] eqn:Eheld; [|done].
    destruct (hr_approval shown) as [approval|]; [|done]. cbn in Ha.
    destruct Ha as [?|([u|e] & _ & Ha)]; [done| |done]. destruct Ha as [?|([at_|e] & _ & Ha)]; [done| |done].
    destruct Ha as [?|([version|e] & _ & Ha)]; [done| |done]. destruct Ha as [[= <- _]|([w|e] & _ & Ha)]; [|done..].
    by exists held, approval, at_.
  - intros (held & approval & at_ & Hheld & Happ & ->). right. exists (Ok (mkNow log None ZERO_STAMP)). split; [by intros now [= <-]|].
    unfold approveSimklRemovals. cbn [prog_bind call ln_log]. rewrite Hacc, Htrue, Hheld, Happ. right. exists (Ok tt). split; [done|]. right. exists (Ok at_). split; [done|].
    right. exists (Ok base). split; [done|]. by left.
Qed.

(** C25: held removals are shown, and approved, for an account that is no longer connected. A change of account leaves the
    old one's name in [trackers] with no value; passes deliver to the new one, but [simklAccountOf] takes the first name,
    whatever it holds. What is shown is then what den-core decides on the old account's row, and nothing when it has
    none; and the rows an approval may write are exactly the old account's with the approval added, so that the removals
    held for the connected account are neither shown nor approved. *)
Theorem removals_other_account `{NamePolicy, DeliveryApi, DeliveryPolicy} log row old new text at1 at2 rest :
  settings "trackers" log = Some row ->
  set_values row = ("simkl:" +:+ old, mkStamped None at1) :: ("simkl:" +:+ new, mkStamped (Some (CString text)) at2) :: rest ->
  ends_with ".token" ("simkl:" +:+ old) = false -> ends_with ".token" ("simkl:" +:+ new) = false -> truthy old = true -> 4 <= lg_wireMin log ->
  connection log = Some (new, text) /\
  (forall now, heldSimklRemovals log now =
     from_option (fun held => shown_of log old held now) (Ok (mkRemovals [] None)) (settings (deliverName old) log)) /\
  (forall shown written base, asks log (approveSimklRemovals shown) (WriteAt written base) <->
     exists held approval at_, settings (deliverName old) log = Some held /\ hr_approval shown = Some approval /\ written = approved_row approval at_ held).
Proof.
  intros Hrow Hvalues Hold Hnew Htrue Hwire. set (o := "simkl:" +:+ old) in *. set (n := "simkl:" +:+ new) in *.
  assert (Ho : names_account o = true) by (unfold names_account; rewrite Hold; by unfold o; rewrite starts_with_app).
  assert (Hn : names_account n = true) by (unfold names_account; rewrite Hnew; by unfold n; rewrite starts_with_app).
  assert (Hacc : simklAccountOf log = Some old).
  { unfold simklAccountOf, tracker_values. rewrite Hrow. cbn [from_option]. rewrite Hvalues. cbn [list_find fst].
    rewrite decide_True by done. cbn [option_map fmap option_fmap snd fst]. unfold o. by rewrite (str_drop_app "simkl:"). }
  split_and!; [| |by intros; apply approve_writes].
  - unfold connection, tracker_values. rewrite Hrow. cbn [from_option]. rewrite Hvalues. cbn [list_find fst snd sv_value].
    rewrite decide_False by (by rewrite andb_false_r). rewrite decide_True by (by rewrite Hn). cbn. unfold n. done.
  - intros now. unfold heldSimklRemovals. rewrite (proj2 (Z.ltb_ge _ _)) by done. rewrite Hacc, Htrue. cbn [negb].
    destruct (settings (deliverName old) log) as [held|]; [|done]. cbn [from_option]. unfold shown_of.
    destruct (jsonSetting held "since") as [[since|]|e]; cbn [res_bind]; [|done..]. by destruct (jtrue (Some since)).
Qed.

(** A removal held back for the account den-core is asked about. *)
Definition holding_back (facts : json) : V4Pending :=
  mkPending [mkTarget "dlv:simkl:6:movie:550" "list" JNull (JObj [("removals_held", JBool true); ("title", JStr "t:movie:550")])] [] 1 None
    (match jget "account" facts with Some (JStr "6") => Some (mkStamp 1 0 "A") | _ => None end) None.
Definition held_policy : DeliveryPolicy := {|
  policy_lease := fun _ => Ok "wait";
  policy_pending := fun _ facts _ => Ok (holding_back facts);
  policy_settle := fun _ _ _ _ => Ok JNull;
  policy_delivery_write := fun _ _ => Throw "nothing is written";
  policy_decide := fun _ _ => Ok JNull
|}.

Definition account_row (account : string) : Row :=
  RSettings (mkSettingsRow 2 ("deliver:simkl:" +:+ account) [("since", mkStamped (Some (CString "[0]")) ZERO_STAMP)] []).

Definition switched_log : Log :=
  mkLog (mkHeld [("set:trackers", mkLogEntry 1 (RSettings (mkSettingsRow 2 "trackers"
                   [("simkl:6", mkStamped None ZERO_STAMP); ("simkl:7", mkStamped (Some (CString "{}")) ZERO_STAMP)] [])));
                 ("set:deliver:simkl:6", mkLogEntry 4 (account_row "6")); ("set:deliver:simkl:7", mkLogEntry 5 (account_row "7"))]
           [] [] false 5 (Some "g") None 0 false [] None)
    (mkControl 5 None [] [] [] false 0 None [] false 0)
    (mkStanding true false true false false 0 None 0 0) (mkOutcome false false false).

Lemma removals_other_account_witness :
  connection switched_log = Some ("7", "{}") /\
  heldSimklRemovals (H1 := held_policy) switched_log 0 = Ok (mkRemovals [("movie", Some 550)] (Some (mkStamp 1 0 "A"))) /\
  (forall written base, asks switched_log (approveSimklRemovals (mkRemovals [] (Some (mkStamp 1 0 "A")))) (WriteAt written base) ->
     rowName written = Ok "set:deliver:simkl:6").
Proof.
  destruct (removals_other_account (H1 := held_policy) switched_log _ "6" "7" "{}" ZERO_STAMP ZERO_STAMP [] eq_refl eq_refl eq_refl eq_refl eq_refl ltac:(vm_compute; discriminate))
    as (H1 & H2 & H3).
  split; [exact H1|]. split; [rewrite (H2 0); reflexivity|]. intros written base Ha.
  apply H3 in Ha as (held & approval & at_ & Hheld & _ & ->). vm_compute in Hheld. injection Hheld as <-. reflexivity.
Defined.
